(* ===== verification/_CoqProject ===== *)
-Q . S2P
Prelude.v
Serial.v
SerialFacts.v
Codec.v
Time.v
CircularBuffer.v
MsgQueue.v
Crc32.v
OsFile.v
Crc16.v
Checksum.v
CfdpChunks.v
OsQueue.v
PriorityQueue.v
Fpp.v
Buffer.v
Packets.v
Limiters.v
Comp.v
TlmChan.v
TlmChanRuns.v
Framing.v
CcsdsTypes.v
ApidManager.v
SpacePacket.v
TmFramer.v
FrameAccumulator.v
TcFrames.v
BufferManager.v
FwString.v
FilePaths.v
FilePacket.v
FileUplink.v
FileUplinkRuns.v
FileDownlink.v
FileDownlinkRuns.v
FileDownlinkTransfer.v
PrmDb.v
PrmDbRuns.v
PrmDbFiles.v
Msg.v
CmdDispatcher.v
Queued.v
Escrow.v
ComQueue.v
ComQueueFacts.v
ComQueueSpec.v
ComQueueProof.v
ComQueueRuns.v
Router.v
Sequence.v
SequenceFacts.v
CmdSequencer.v
CmdSequencerRuns.v
Health.v
HealthRuns.v
ComRetry.v
ComQueueLink.v
RawTime.v
RateGroup.v
RateGroupRuns.v
