(* ===== verification/Prelude.v ===== *)
(** * Verification of the Rust port of F Prime

    The program ([src/crates/]) is a Rust port of NASA's F Prime flight
    software framework.  Messages are byte buffers written by a serialization
    core; components exchange them through typed ports; asynchronous ports
    queue a serialized message that the component's thread dispatches to a
    handler.  On the uplink a byte stream is cut into frames by the frame
    accumulator, unwrapped by the deframer and routed by the router to the
    command dispatcher or to the file services; buffers come from a pool and
    always travel back to it.  On the downlink the queue of the communication
    stack orders packets and buffers by priority and a framer wraps them.  The
    CCSDS stack replaces the F Prime framing on both paths by space packets in
    TC and TM transfer frames.

    ** Files and what they model

    - [Prelude]: notations, tactics, hint databases, outcomes of code that may
      panic, machine-width arithmetic, list slices and bytes.
    - [Serial], [SerialFacts], [Codec]: [fprime-fw/src/serial.rs].  A buffer is
      its whole storage with a write and a read cursor; a method is a function
      in a status monad that threads the buffer through failures, as the code
      does.  [Codec] packages a type's encoder, decoder and laws; the enums,
      structs and arrays of [fpp.rs], [enums.rs] and [com.rs] ([Fpp]) and the
      strings of [string.rs] ([FwString]) are built on it.
    - [Time]: [fprime-fw/src/time.rs].  [Buffer]: [fprime-fw/src/buffer.rs].
      [Packets]: [fprime-fw/src/packets.rs].
    - [CircularBuffer], [MsgQueue], [Crc32], [Checksum], [Limiters]:
      [fprime-utils/src/] (ring buffer, message queue, CRC-32, CFDP checksum,
      rate limiter and token bucket).
    - [OsQueue], [PriorityQueue]: [fprime-os/src/queue.rs] and
      [generic/priority_queue.rs].  [OsQueue] states what the queue facade
      needs from a delegate as a class with laws and proves the facade against
      it; [PriorityQueue] is the delegate and discharges the laws.
    - [Comp]: handlers of components ([fprime-comp/src/glue.rs]) as functions
      from a state to a panic or a result, a new state and the sequence of
      outputs (port calls, events, telemetry writes); the allocator interface.
    - [Msg]: the message envelope ([fprime-comp/src/msg.rs]).  [Queued]: the
      queued component base ([queued.rs]) over any lawful queue, what a
      component tells it about its calls, and the command dispatcher as such
      a component.
    - [Escrow]: the slab of in-flight buffers keyed by tokens
      ([fprime-comp/src/escrow.rs]).
    - [Framing], [FrameAccumulator], [Router], [BufferManager],
      [CmdDispatcher]: the services of the same names in [fprime-svc/src/].
      One definition per handler; the state is a record with the fields of the
      source; the wiring of output ports, fixed before traffic starts, is data.
    - [ComQueue]: [fprime-svc/src/com_queue.rs].  [ComQueueFacts] holds the
      facts on its tables and the priority order, [ComQueueSpec] its
      specification (queues of items, one outstanding send) with the relation
      to the code's state, [ComQueueProof] the simulation step by step and
      [ComQueueRuns] the theorems on runs.  [ComRetry]:
      [fprime-svc/src/com_retry.rs], with the protocol of a link to an adapter;
      [ComQueueLink]: [ComQueue] as the sender of such a link.
    - [Crc16], [CcsdsTypes], [ApidManager], [SpacePacket], [TmFramer],
      [TcFrames]: [fprime-svc/src/ccsds/] (CRC-16, headers and their bit
      fields, sequence counts per APID, space packet framer and deframer, TM
      framer with its idle packet, TC deframer and TC frame detector).
    - [CfdpChunks]: [ccsds/cfdp_manager/chunk.rs], the ranges of a file that
      have arrived or must be sent again.
    - [TlmChan]: [fprime-svc/src/tlm_chan.rs], two tables of chained buckets;
      [TlmChanRuns]: its refinement of two plain lists, and what a Run sends.
    - [OsFile]: [fprime-os/src/file.rs] over a model of the part of [std::fs]
      it uses: a store of inodes under names, and a script that says how the
      next calls behave (in full, in part, or with an error); a class states
      what the clients of a file rely on.  [FilePaths]: the path resolution
      and the sandboxed file of [fprime-os/src/].
    - [FilePacket]: [fprime-fw/src/file_packet.rs].  [FileUplink],
      [FileUplinkRuns]: [fprime-svc/src/file_uplink.rs] and its transfers.
      [FileDownlink]: [fprime-svc/src/file_downlink.rs]; [FileDownlinkRuns]:
      its runs together with the packets in flight; [FileDownlinkTransfer]:
      the packets of one file, and their reception by [FileUplink].
    - [PrmDb]: [fprime-svc/src/prm_db.rs]; [PrmDbRuns]: its contract and the
      refinement, over a file system that may fail at any call; [PrmDbFiles]:
      the format of its files, loads of arbitrary files and the round trip.
    - [Sequence]: the sequence files of [fprime-svc/src/cmd_sequencer.rs], the
      interface of a format with what the sequencer relies on, and the default
      format; [SequenceFacts]: that it is lawful, and what a load accepts.
      [CmdSequencer]: the component of the same file over any lawful format;
      [CmdSequencerRuns]: its runs.
    - [Health]: [fprime-svc/src/health.rs], a second queued component;
      [HealthRuns]: its runs over the queue.
    - [RawTime]: [fprime-os/src/rawtime.rs].  [RateGroup]:
      [fprime-svc/src/rate_group_driver.rs] and [active_rate_group.rs];
      [RateGroupRuns]: their runs.

    ** What the theorems show

    - Serialization: no sequence of calls breaks the cursors, and none panics
      but by a sum of sizes that overflows a [usize]; every generated codec, string and packet round-trips; decoding arbitrary bytes
      never panics and accepts exactly the valid representations.
    - Containers: the ring buffer, the message queue and the OS queue refine
      list specifications for every sequence of calls, and creating one panics
      exactly for the sizes that cannot be allocated; the OS queue delivers by
      priority and in arrival order within a priority.
    - Integrity: the table-driven CRC-32 is the bit-serial one and detects
      every change confined to four consecutive bytes; the CFDP checksum does
      not depend on the order or the cutting of the blocks.
    - Limits: what the rate limiter and the token bucket grant, exactly.
    - Uplink: the frame accumulator never fails, never loses its buffers and
      finds the same frames however the stream is cut; the deframer accepts
      exactly the well-formed frames; framed payloads come out of the far end
      unchanged; the router gives every buffer its context back; the pool
      lends no storage twice; the escrow hands every buffer out once.
    - Commands: an asynchronous call reaches its handler with its arguments;
      every interleaving of senders and the dispatcher's thread, through
      serialized messages and the queue, is a bounded FIFO of the calls;
      every command that asks for a reply gets exactly one or is accounted for
      among those dropped with an overflow or forgotten by a
      CMD_CLEAR_TRACKING, its own included; a registered command reaches its
      component and the response reaches the caller.
    - Downlink: ComQueue refines its specification for every sequence of
      calls that keeps the status protocol, keeps every buffer it is given
      until it passes it on or returns it, and serves a waiting queue of the
      best priority within three reports.  ComRetry keeps the link protocol
      on both sides and gives every buffer back after a bounded number of
      attempts; ComQueue keeps its side of such a link, too, whatever its
      senders do.
    - CCSDS: packets framed and deframed over several APIDs are unchanged and
      numbered without a gap; a packet in a TC frame, sent as a stream cut
      anywhere, comes out of accumulator, TC deframer and packet deframer
      unchanged; TM frames have exactly the layout and numbers they declare.
    - Telemetry: a Run sends the last value of every channel written since the
      previous one, once; calls made between its turns are as if made after
      it; the hash tables are two lists of channels.  A value of more than 495
      bytes, which the port takes and a packet does not, fails the assertion of
      the next Run.
    - Files: a write or a checksum over a system that cuts, interrupts and
      refuses calls does exactly what it reports; a sandboxed file opens the
      paths below its directory and no others; the decoder of file packets
      accepts exactly what the encoder writes.  The receiver survives any
      packets and any system, returns every buffer, and after a transfer the
      destination holds the accepted chunks; the sender has one packet in
      flight exactly while it sends, answers every request once and in order,
      and, when the file reads without faults and no CANCEL comes, sends exactly
      the packets of the file; sender and receiver together write the file over
      the destination, of which a longer old content keeps its tail.
    - Parameters: from boot on, whatever the files hold, a load stages a whole
      set or nothing, only a commit puts it in force, and every command with a
      usable file name is answered once; a load is exactly the records of a
      file with a sound CRC; a boot restores what a save wrote over a file
      that was not longer.
    - Sequences: a load accepts exactly the images of sequences; the sequencer
      answers every command once while the files hold valid time tags; in
      automatic mode, and with responses only to commands that are out, the
      commands of a sequence leave in order, one at a time, and success means
      all of them left.
    - Health: a target that hangs is pinged, warned about and reported once
      each, at the Runs its thresholds say, while the checks stay enabled and
      the calls between two Runs fit the queue, which panics otherwise.
    - Scheduling: a port of the driver is called at exactly the ticks that leave
      its phase modulo its divisor, whatever the rollover of the counter; a
      rate group calls every connected member once a cycle, in order, and
      counts its slips and times exactly.
    - CFDP: a chunk list covers exactly the bytes recorded, forgets its
      smallest range when full, and its gaps are the bytes missing.

    ** Conventions and bounds

    - A byte is an integer between 0 and 255; a [w]-bit integer is a [Z] with
      its range stated, and arithmetic that can overflow goes through
      [overflowing], which panics or wraps as the build profile says.  Theorems
      hold for both profiles unless they name one.
    - An [fw_assert!], an index or slice out of range and an arithmetic
      overflow in a checked build are the outcome [Panic].
    - A [usize] has 64 bits.  Lengths are [nat]; a sum or a product of sizes
      that a caller chooses goes through [usize_add] or [usize_mul], which panic
      or wrap as the profile says.  [vec_alloc] panics beyond [isize::MAX] bytes,
      as [Vec] does; it is written out where the caller's size bounds later
      index arithmetic (the ring, the message queue, the priority queue), and
      every other allocation is taken to succeed.
    - Loops that are not structural run on fuel.  [process_ring] uses the ring
      capacity as the code does; [process_buffer] uses the length of the input,
      because every turn consumes a byte or stops; [replenish_loop] uses the
      number of missing tokens; the binary search of a chunk list uses the
      number of candidates, which halves; the checksum of a file reads a
      chunk per turn; a Run of the telemetry tables takes two turns per bucket;
      a file is cut into at most as many blocks as it has bytes; a parameter
      load reads at most 25 records, as the code does; the check of a sequence
      consumes a byte per record.  The theorems prove
      that the fuel is enough: the functions return, and with the result
      stated.
    - A call that blocks is the result [Waiting] with the state unchanged; the
      code's locks make handlers atomic, so interleavings are sequences of
      calls.
    - Counters are 32 bits wide: theorems about runs bound their length by
      [2 ^ 32] operations where a counter or sequence number would wrap.
    - Code outside [src/] is a parameter.  The data address of a buffer, by
      which the router keys its table, is a parameter of the router.

    ** Not modelled, and the plan

    Threads, the OS wrappers and the drivers are I/O; event texts and the
    formatting of strings are presentation: an event is an output with its
    arguments.  Floating-point values are their bit patterns.  Permissions,
    directories and links of the file system are behind the script of the
    model.  Of the services the following are next, in
    this order: the passive rate group and the event manager; the aggregation of
    downlink packets; the adapters that queue the asynchronous calls
    of the file services, the rate groups and the sequencer, and the
    alternative format of its files; the state-machine runtime; the transactions of CFDP; AOS frames. *)

From stdpp Require Export prelude.
From Stdlib Require Export ZArith Lia.

(** * Notations, hint databases and tactics *)

Declare Scope fprime_scope.
Delimit Scope fprime_scope with fprime.

Create HintDb fprime discriminated.
Create HintDb bytes discriminated.
Create Rewrite HintDb fprime.
Create Rewrite HintDb bytes.

(** Split every conjunction and existential of the context. *)
Ltac fp_destruct :=
  repeat match goal with
  | H : _ ∧ _ |- _ => destruct H
  | H : ∃ _, _ |- _ => destruct H
  end.

(** Case analysis on the boolean tests the code branches on, with the
    arithmetic facts they decide. *)
Ltac fp_case :=
  repeat match goal with
  | |- context [bool_decide ?P] => case_bool_decide
  | |- context [(?a <? ?b)%nat] => destruct (Nat.ltb_spec a b)
  | |- context [(?a <=? ?b)%nat] => destruct (Nat.leb_spec a b)
  | |- context [(?a =? ?b)%nat] => destruct (Nat.eqb_spec a b)
  | |- context [(?a <? ?b)%Z] => destruct (Z.ltb_spec a b)
  | |- context [(?a <=? ?b)%Z] => destruct (Z.leb_spec a b)
  | |- context [(?a =? ?b)%Z] => destruct (Z.eqb_spec a b)
  end.

(** Settle a decidable proposition by computing its decision. *)
Ltac fp_decide :=
  match goal with |- ?P => refine (bool_decide_unpack P _); vm_compute; exact I end.

(** * Outcomes of code that may panic

    [fw_assert!] and an out-of-range slice index end in a panic (the release
    profile sets [panic = abort]); [Panic] is that outcome. *)

Inductive outcome (A : Type) : Type :=
| Ret (a : A)
| Panic.
Arguments Ret {A} a.
Arguments Panic {A}.

#[export] Instance outcome_ret : MRet outcome := λ A a, Ret a.
#[export] Instance outcome_bind : MBind outcome := λ A B f m,
  match m with Ret a => f a | Panic => Panic end.
#[export] Instance outcome_fmap : FMap outcome := λ A B f m,
  match m with Ret a => Ret (f a) | Panic => Panic end.

Definition fw_assert (b : bool) : outcome unit := if b then Ret tt else Panic.

Lemma outcome_bind_ret {A B} (a : A) (f : A → outcome B) : (Ret a ≫= f) = f a.
Proof. reflexivity. Qed.

Lemma fw_assert_true b : b = true → fw_assert b = Ret tt.
Proof. by intros ->. Qed.

Lemma outcome_bind_inv {A B} (m : outcome A) (f : A → outcome B) b :
  (m ≫= f) = Ret b → ∃ a, m = Ret a ∧ f a = Ret b.
Proof. destruct m; naive_solver. Qed.

#[export] Hint Rewrite @outcome_bind_ret : fprime.

(** * Machine integers

    A [w]-bit unsigned integer is a [Z] in [0, 2^w).  Plain [+]/[-] panic on
    overflow when the build has overflow checks (dev and test profiles) and
    wrap when it does not (the release profile): both are modelled, the
    profile is a type-class parameter. *)

Class BuildProfile : Set := overflow_checks : bool.

Definition wrap (w v : Z) : Z := v mod 2 ^ w.

Definition overflowing `{BuildProfile} (w v : Z) : outcome Z :=
  if bool_decide (0 ≤ v < 2 ^ w)%Z then Ret v
  else if overflow_checks then Panic else Ret (wrap w v).

Definition add_w `{BuildProfile} (w a b : Z) : outcome Z := overflowing w (a + b).
Definition sub_w `{BuildProfile} (w a b : Z) : outcome Z := overflowing w (a - b).

(** [usize] is 64 bits wide; a [usize] is a [nat] whose sums and products go
    through these.  No allocation exceeds [isize::MAX] bytes, so the lengths
    and cursors of storage that exists add up without overflow; what a caller
    passes in need not. *)
Definition ISIZE_MAX : Z := 2 ^ 63 - 1.
Definition usize_ok (n : nat) : Prop := (Z.of_nat n < 2 ^ 64)%Z.
Definition usize_add `{BuildProfile} (a b : nat) : outcome nat := Z.to_nat <$> add_w 64 (Z.of_nat a) (Z.of_nat b).
Definition usize_mul `{BuildProfile} (a b : nat) : outcome nat := Z.to_nat <$> overflowing 64 (Z.of_nat a * Z.of_nat b).
(** [vec![x; n]] for elements of [size] bytes: a panic above [isize::MAX]. *)
Definition vec_alloc (n size : nat) : outcome unit := fw_assert (Z.of_nat n * Z.of_nat size <=? ISIZE_MAX)%Z.

(** Two's complement reading of a [w]-bit pattern. *)
Definition to_signed (w v : Z) : Z :=
  if (v <? 2 ^ (w - 1))%Z then v else (v - 2 ^ w)%Z.

Definition is_u (w v : Z) : Prop := (0 ≤ v < 2 ^ w)%Z.
Definition is_i (w v : Z) : Prop := (- 2 ^ (w - 1) ≤ v < 2 ^ (w - 1))%Z.

#[export] Instance is_u_dec w v : Decision (is_u w v).
Proof. unfold is_u; apply _. Defined.
#[export] Instance is_i_dec w v : Decision (is_i w v).
Proof. unfold is_i; apply _. Defined.

Lemma overflowing_in `{BuildProfile} w v : is_u w v → overflowing w v = Ret v.
Proof. intros Hv. unfold overflowing. by rewrite bool_decide_eq_true_2. Qed.

#[export] Instance usize_ok_dec n : Decision (usize_ok n).
Proof. unfold usize_ok; apply _. Defined.
Lemma usize_add_ok `{BuildProfile} a b : usize_ok (a + b) → usize_add a b = Ret (a + b).
Proof.
  intros Hs. unfold usize_ok, usize_add, add_w in *. rewrite overflowing_in by (unfold is_u; lia).
  change (Ret (Z.to_nat (Z.of_nat a + Z.of_nat b)) = Ret (a + b)). f_equal. lia.
Qed.
Lemma usize_mul_ok `{BuildProfile} a b : usize_ok (a * b) → usize_mul a b = Ret (a * b).
Proof.
  intros Hs. unfold usize_ok, usize_mul in *. rewrite overflowing_in by (unfold is_u; lia).
  change (Ret (Z.to_nat (Z.of_nat a * Z.of_nat b)) = Ret (a * b)). f_equal. lia.
Qed.
Lemma vec_alloc_ok n size : (Z.of_nat n * Z.of_nat size ≤ ISIZE_MAX)%Z → vec_alloc n size = Ret tt.
Proof. intros Hs. apply fw_assert_true. by apply Z.leb_le. Qed.

Lemma vec_alloc_panics n size : (ISIZE_MAX < Z.of_nat n * Z.of_nat size)%Z → vec_alloc n size = Panic.
Proof. intros Hs. unfold vec_alloc. by rewrite (proj2 (Z.leb_gt _ _)) by lia. Qed.
Lemma overflowing_range `{BuildProfile} w v r :
  (0 ≤ w)%Z → overflowing w v = Ret r → is_u w r.
Proof.
  intros Hw. unfold overflowing, is_u, wrap. case_bool_decide as Hb; [by intros [= <-]|].
  destruct overflow_checks; [done|]. intros [= <-].
  apply Z.mod_pos_bound. lia.
Qed.

Lemma wrap_small w v : is_u w v → wrap w v = v.
Proof. apply Z.mod_small. Qed.

(** Bit operations stay within a width. *)
Lemma lxor_u w a b : (0 ≤ w)%Z → is_u w a → is_u w b → is_u w (Z.lxor a b).
Proof.
  unfold is_u. intros Hw Ha Hb. split; [apply Z.lxor_nonneg; lia|].
  destruct (decide (Z.lxor a b = 0)%Z) as [->|Hne]; [lia|].
  assert (0 < Z.lxor a b)%Z by (assert (0 ≤ Z.lxor a b)%Z by (apply Z.lxor_nonneg; lia); lia).
  destruct (decide (w = 0)%Z) as [->|Hw0].
  { change (2 ^ 0)%Z with 1%Z in *. assert (a = 0 ∧ b = 0)%Z as [-> ->] by lia. done. }
  apply Z.log2_lt_pow2; [done|]. eapply Z.le_lt_trans; [apply Z.log2_lxor; lia|].
  apply Z.max_lub_lt.
  - destruct (decide (a = 0)%Z) as [->|]; [cbn; lia|]. apply Z.log2_lt_pow2; lia.
  - destruct (decide (b = 0)%Z) as [->|]; [cbn; lia|]. apply Z.log2_lt_pow2; lia.
Qed.

Lemma land_u w a m : (0 ≤ w)%Z → (0 ≤ a)%Z → is_u w m → is_u w (Z.land a m).
Proof.
  intros Hw Ha Hm. unfold is_u in *.
  assert (m = Z.land m (Z.ones w)) as -> by (by rewrite Z.land_ones, Z.mod_small by lia).
  rewrite Z.land_assoc, Z.land_ones by lia. apply Z.mod_pos_bound. lia.
Qed.

Lemma testbit_high w v i : is_u w v → (0 ≤ w ≤ i)%Z → Z.testbit v i = false.
Proof.
  intros [Hv Hv'] Hi. apply Z.testbit_false; [lia|].
  assert (2 ^ w ≤ 2 ^ i)%Z by (apply Z.pow_le_mono_r; lia). by rewrite Z.div_small by lia.
Qed.

Lemma to_signed_wrap w v : (0 < w)%Z → is_i w v → to_signed w (wrap w v) = v.
Proof.
  unfold is_i, to_signed, wrap. intros Hw Hv.
  assert (2 ^ w = 2 * 2 ^ (w - 1))%Z as Hp.
  { rewrite <- Z.pow_succ_r by lia. f_equal. lia. }
  destruct (decide (0 ≤ v)%Z).
  - rewrite Z.mod_small by lia. destruct (Z.ltb_spec v (2 ^ (w - 1))); lia.
  - replace (v mod 2 ^ w)%Z with (v + 2 ^ w)%Z.
    + destruct (Z.ltb_spec (v + 2 ^ w) (2 ^ (w - 1))); lia.
    + apply (Z.mod_unique_pos _ _ (-1)); lia.
Qed.

(** * Slices *)

(** [&l[off..off + n]]. *)
Definition slice {A} (off n : nat) (l : list A) : list A := take n (drop off l).

(** [l[off..off + bs.len()].copy_from_slice(bs)], in range. *)
Definition splice {A} (off : nat) (bs l : list A) : list A :=
  take off l ++ bs ++ drop (off + length bs) l.

Lemma length_slice {A} off n (l : list A) :
  off + n ≤ length l → length (slice off n l) = n.
Proof. intros. unfold slice. rewrite length_take, length_drop. lia. Qed.

Lemma length_splice {A} off (bs l : list A) :
  off + length bs ≤ length l → length (splice off bs l) = length l.
Proof.
  intros. unfold splice. rewrite !length_app, length_take, length_drop. lia.
Qed.

Lemma take_splice {A} off (bs l : list A) :
  off ≤ length l → take (off + length bs) (splice off bs l) = take off l ++ bs.
Proof.
  intros. unfold splice. rewrite app_assoc, take_app_length'; [done|].
  rewrite length_app, length_take. lia.
Qed.

Lemma take_splice_le {A} n off (bs l : list A) :
  n ≤ off → off ≤ length l → take n (splice off bs l) = take n l.
Proof.
  intros. unfold splice. rewrite take_app_le by (rewrite length_take; lia).
  rewrite take_take. f_equal. lia.
Qed.

Lemma slice_splice {A} off (bs l : list A) :
  off ≤ length l → slice off (length bs) (splice off bs l) = bs.
Proof.
  intros. unfold slice, splice. rewrite drop_app_length' by (rewrite length_take; lia).
  by rewrite take_app_length.
Qed.

Lemma slice_0_full {A} n (l : list A) : length l ≤ n → slice 0 n l = l.
Proof. intros. unfold slice. rewrite drop_0. by apply take_ge. Qed.

Lemma slice_app {A} off n m (l : list A) :
  slice off (n + m) l = slice off n l ++ slice (off + n) m l.
Proof.
  unfold slice. rewrite <- drop_drop. rewrite <- (take_drop n (take (n + m) (drop off l))).
  f_equal.
  - rewrite take_take. f_equal. lia.
  - rewrite skipn_firstn_comm. f_equal. lia.
Qed.

Lemma slice_split {A} n (l : list A) :
  n ≤ length l → slice 0 n l ++ slice n (length l - n) l = l.
Proof.
  intros. unfold slice. rewrite drop_0, (take_ge (drop n l)) by (rewrite length_drop; lia).
  apply take_drop.
Qed.

Lemma slice_lookup {A} off n (l : list A) i :
  i < n → slice off n l !! i = l !! (off + i).
Proof. intros. unfold slice. rewrite lookup_take_lt by done. apply lookup_drop. Qed.

Lemma Forall_slice {A} (P : A → Prop) off n l : Forall P l → Forall P (slice off n l).
Proof. intros. unfold slice. by apply Forall_take, Forall_drop. Qed.

Lemma Forall_splice {A} (P : A → Prop) off bs l :
  Forall P l → Forall P bs → Forall P (splice off bs l).
Proof.
  intros. unfold splice. rewrite !Forall_app.
  auto using Forall_take, Forall_drop.
Qed.

#[export] Hint Resolve Forall_slice Forall_splice Forall_take Forall_drop : bytes.

(** * Bytes and byte-order conversions *)

Definition is_byte (b : Z) : Prop := (0 ≤ b < 256)%Z.
#[export] Instance is_byte_dec b : Decision (is_byte b).
Proof. unfold is_byte; apply _. Defined.

(** [v.to_be_bytes()] of an [n]-byte integer: most significant byte first. *)
Fixpoint be_bytes (n : nat) (v : Z) : list Z :=
  match n with
  | O => []
  | S n' => ((v / 256 ^ Z.of_nat n') mod 256)%Z :: be_bytes n' v
  end.

(** [v.to_le_bytes()]. *)
Definition le_bytes (n : nat) (v : Z) : list Z := reverse (be_bytes n v).

(** [uN::from_be_bytes] and [uN::from_le_bytes]. *)
Definition be_value (bs : list Z) : Z := foldl (λ acc b, acc * 256 + b)%Z 0%Z bs.
Definition le_value (bs : list Z) : Z := be_value (reverse bs).

Lemma length_be_bytes n v : length (be_bytes n v) = n.
Proof. induction n; simpl; congruence. Qed.

Lemma length_le_bytes n v : length (le_bytes n v) = n.
Proof. unfold le_bytes. by rewrite length_reverse, length_be_bytes. Qed.

Lemma be_bytes_is_byte n v : Forall is_byte (be_bytes n v).
Proof.
  induction n; simpl; constructor; [|done].
  unfold is_byte. apply Z.mod_pos_bound. lia.
Qed.

Lemma le_bytes_is_byte n v : Forall is_byte (le_bytes n v).
Proof. unfold le_bytes. apply Forall_reverse, be_bytes_is_byte. Qed.

#[export] Hint Resolve be_bytes_is_byte le_bytes_is_byte : bytes.
#[export] Hint Rewrite length_be_bytes length_le_bytes : bytes.

Lemma foldl_be_acc bs a :
  foldl (λ acc b, acc * 256 + b)%Z a bs =
  (a * 256 ^ Z.of_nat (length bs) + be_value bs)%Z.
Proof.
  unfold be_value. revert a. induction bs as [|b bs IH]; intros a.
  - simpl. rewrite Z.pow_0_r. lia.
  - cbn [foldl length]. rewrite IH, (IH (0 * 256 + b)%Z).
    rewrite Nat2Z.inj_succ, Z.pow_succ_r by lia. ring.
Qed.

Lemma be_value_cons b bs :
  be_value (b :: bs) = (b * 256 ^ Z.of_nat (length bs) + be_value bs)%Z.
Proof. unfold be_value at 1. simpl. rewrite foldl_be_acc. ring. Qed.

Lemma be_value_app bs bs' :
  be_value (bs ++ bs') = (be_value bs * 256 ^ Z.of_nat (length bs') + be_value bs')%Z.
Proof. unfold be_value at 1. rewrite foldl_app. apply foldl_be_acc. Qed.

Lemma pow256_pos n : (0 < 256 ^ Z.of_nat n)%Z.
Proof. apply Z.pow_pos_nonneg; lia. Qed.

Lemma be_value_be_bytes n v : be_value (be_bytes n v) = (v mod 256 ^ Z.of_nat n)%Z.
Proof.
  induction n as [|n IH].
  - simpl. by rewrite Z.pow_0_r, Z.mod_1_r.
  - cbn [be_bytes]. rewrite be_value_cons, length_be_bytes, IH.
    rewrite Nat2Z.inj_succ, Z.pow_succ_r by lia.
    rewrite (Z.mul_comm 256), Z.rem_mul_r by (pose proof (pow256_pos n); lia).
    ring.
Qed.

(** [u32::to_be_bytes]. *)
Definition u32_bytes (v : Z) : list Z := be_bytes 4 v.
Lemma length_u32_bytes v : length (u32_bytes v) = 4.
Proof. apply length_be_bytes. Qed.
Lemma be_value_u32 x : is_u 32 x → be_value (u32_bytes x) = x.
Proof. intros Hx. unfold u32_bytes. rewrite be_value_be_bytes. apply Z.mod_small. exact Hx. Qed.
Lemma take_u32 v l : take 4 (u32_bytes v ++ l) = u32_bytes v.
Proof. rewrite <- (length_u32_bytes v) at 1. apply take_app_length. Qed.
Lemma drop_u32 v l : drop 4 (u32_bytes v ++ l) = l.
Proof. rewrite <- (length_u32_bytes v) at 1. apply drop_app_length. Qed.

Lemma be_value_bounds bs :
  Forall is_byte bs → (0 ≤ be_value bs < 256 ^ Z.of_nat (length bs))%Z.
Proof.
  induction 1 as [|b bs Hb _ IH]; [done|].
  rewrite be_value_cons. cbn [length]. rewrite Nat2Z.inj_succ, Z.pow_succ_r by lia.
  unfold is_byte in Hb. nia.
Qed.

Lemma be_bytes_mod n m v :
  n ≤ m → be_bytes n (v mod 256 ^ Z.of_nat m) = be_bytes n v.
Proof.
  intros Hnm. induction n as [|n IH]; [done|]. cbn [be_bytes]. f_equal; [|apply IH; lia].
  replace m with (S (m - S n) + n) by lia.
  rewrite Nat2Z.inj_add, Z.pow_add_r, (Z.mul_comm (256 ^ _)) by lia.
  rewrite Z.rem_mul_r by (pose proof (pow256_pos n); pose proof (pow256_pos (S (m - S n))); lia).
  rewrite (Z.mul_comm (256 ^ Z.of_nat n)), Z.div_add by (pose proof (pow256_pos n); lia).
  rewrite (Z.div_small (v mod _)) by (apply Z.mod_pos_bound, pow256_pos).
  rewrite Z.add_0_l. rewrite Nat2Z.inj_succ, Z.pow_succ_r by lia.
  rewrite Z.rem_mul_r by (pose proof (pow256_pos (m - S n)); lia).
  rewrite (Z.mul_comm 256), Z.mod_add by lia. apply Z.mod_mod. lia.
Qed.

Lemma be_bytes_be_value bs :
  Forall is_byte bs → be_bytes (length bs) (be_value bs) = bs.
Proof.
  induction 1 as [|b bs Hb Hbs IH]; [done|]. cbn [length be_bytes].
  pose proof (be_value_bounds _ Hbs) as Hv. pose proof (pow256_pos (length bs)).
  rewrite be_value_cons. f_equal.
  - rewrite Z.add_comm, Z.div_add, Z.div_small by lia. by apply Z.mod_small.
  - rewrite <- (be_bytes_mod _ (length bs)) by done.
    rewrite Z.add_comm, Z.mod_add, Z.mod_small by lia. done.
Qed.

Lemma le_value_le_bytes n v : le_value (le_bytes n v) = (v mod 256 ^ Z.of_nat n)%Z.
Proof. unfold le_value, le_bytes. rewrite reverse_involutive. apply be_value_be_bytes. Qed.

Lemma le_value_bounds bs :
  Forall is_byte bs → (0 ≤ le_value bs < 256 ^ Z.of_nat (length bs))%Z.
Proof.
  intros. unfold le_value. rewrite <- (length_reverse bs).
  by apply be_value_bounds, Forall_reverse.
Qed.

Lemma pow256 n : (256 ^ Z.of_nat n = 2 ^ (8 * Z.of_nat n))%Z.
Proof. by rewrite Z.pow_mul_r by lia. Qed.

(** [(v << w) | b] when [b] fits the [w] low bits. *)
Lemma shift_or w v b :
  (0 ≤ w)%Z → (0 ≤ b < 2 ^ w)%Z → Z.lor (Z.shiftl v w) b = (v * 2 ^ w + b)%Z.
Proof.
  intros Hw Hb.
  assert (Z.land (Z.shiftl v w) b = 0)%Z as Hl.
  { apply Z.bits_inj'. intros i Hi. rewrite Z.land_spec, Z.bits_0.
    destruct (Z.ltb_spec i w).
    - by rewrite Z.shiftl_spec_low by lia.
    - assert (2 ^ w ≤ 2 ^ i)%Z by (apply Z.pow_le_mono_r; lia).
      rewrite (proj2 (Z.testbit_false b i Hi)), andb_false_r; [done|].
      by rewrite Z.div_small by lia. }
  rewrite <- Z.lxor_lor, <- Z.add_nocarry_lxor by done.
  by rewrite Z.shiftl_mul_pow2 by lia.
Qed.

(** The shift-and-or accumulation step [(v << 8) | b] on a byte. *)
Lemma shift_or_byte v b :
  is_byte b → Z.lor (Z.shiftl v 8) b = (v * 256 + b)%Z.
Proof. intros Hb. by rewrite shift_or by (done || lia). Qed.

(** * Lookups in spliced lists and indices modulo a ring size *)

Lemma lookup_splice {A} off (bs l : list A) j :
  off + length bs ≤ length l →
  splice off bs l !! j =
    if decide (off ≤ j < off + length bs) then bs !! (j - off) else l !! j.
Proof.
  intros Hl. unfold splice. case_decide as Hj.
  - rewrite lookup_app_r by (rewrite length_take; lia).
    rewrite length_take, Nat.min_l by lia. by rewrite lookup_app_l by lia.
  - destruct (decide (j < off)).
    + rewrite lookup_app_l by (rewrite length_take; lia). by rewrite lookup_take_lt by lia.
    + rewrite !lookup_app_r by (rewrite ?length_take; lia).
      rewrite lookup_drop, length_take. f_equal. lia.
Qed.

Lemma mod_once a n : n ≠ 0 → a < 2 * n → a mod n = if decide (a < n) then a else a - n.
Proof.
  intros Hn Ha. case_decide; [by apply Nat.mod_small|].
  replace a with (a - n + 1 * n) at 1 by lia. rewrite Nat.Div0.mod_add.
  apply Nat.mod_small. lia.
Qed.

Lemma list_eq_len {A} (l k : list A) :
  length l = length k → (∀ i x, i < length l → l !! i = Some x → k !! i = Some x) → l = k.
Proof.
  intros Hlen Hall. apply (list_eq_same_length l k (length l)); [done..|].
  intros i x y Hi Hx Hy. specialize (Hall i x Hi Hx). congruence.
Qed.

(** * Indexing that panics out of range *)

Definition index_get {A} (l : list A) (i : nat) : outcome A :=
  match l !! i with Some x => Ret x | None => Panic end.
Definition index_set {A} (i : nat) (x : A) (l : list A) : outcome (list A) :=
  if bool_decide (i < length l) then Ret (<[i:=x]> l) else Panic.
Definition copy_into (off : nat) (bs l : list Z) : outcome (list Z) :=
  if bool_decide (off + length bs ≤ length l) then Ret (splice off bs l) else Panic.
Definition copy_from (off n : nat) (l : list Z) : outcome (list Z) :=
  if bool_decide (off + n ≤ length l) then Ret (slice off n l) else Panic.

Lemma index_get_ok {A} (l : list A) i x : l !! i = Some x → index_get l i = Ret x.
Proof. unfold index_get. by intros ->. Qed.
Lemma index_set_ok {A} i (x : A) l : i < length l → index_set i x l = Ret (<[i:=x]> l).
Proof. intros. unfold index_set. by rewrite bool_decide_eq_true_2. Qed.
Lemma copy_into_ok off bs l : off + length bs ≤ length l → copy_into off bs l = Ret (splice off bs l).
Proof. intros. unfold copy_into. by rewrite bool_decide_eq_true_2. Qed.
Lemma copy_from_ok off n l : off + n ≤ length l → copy_from off n l = Ret (slice off n l).
Proof. intros. unfold copy_from. by rewrite bool_decide_eq_true_2. Qed.

(** A slice is unaffected by a splice outside of it. *)
Lemma slice_splice_disjoint {A} off n o (bs l : list A) :
  o + length bs ≤ length l → off + n ≤ length l → off + n ≤ o ∨ o + length bs ≤ off →
  slice off n (splice o bs l) = slice off n l.
Proof.
  intros Ho Hn Hd. apply list_eq_len.
  - rewrite !length_slice; rewrite ?length_splice; lia.
  - intros i x Hi. rewrite length_slice in Hi by (rewrite length_splice; lia).
    rewrite !slice_lookup by done. rewrite lookup_splice by done.
    rewrite decide_False by lia. done.
Qed.
