(* ===== verification/Serial.v ===== *)
(** The serialization core, [crates/fprime-fw/src/serial.rs].

    [serbuf] is the storage contract [SerBufAny] (the fields of
    [LinearBuffer<N>] and [ExtBuf]); the methods of [SerBuf] are computations
    of the monad [SerM], which threads the buffer and carries the
    [SerializeStatus] ladder of [fw_try!].  The last part proves the codec
    laws every wire format of the framework is built on. *)

From S2P Require Import Prelude.

(** * Data *)

Inductive SerializeStatus : Set :=
| StOk | FormatError | NoRoomLeft | DeserBufferEmpty | DeserFormatError
| DeserSizeMismatch | DeserTypeMismatch | DeserImmutable | DeserInvalidData
| DiscardedExisting.

#[export] Instance SerializeStatus_eq_dec : EqDecision SerializeStatus.
Proof. solve_decision. Defined.

Inductive Endianness : Set := Big | Little.
#[export] Instance Endianness_eq_dec : EqDecision Endianness.
Proof. solve_decision. Defined.

Inductive LengthMode : Set := IncludeLength | OmitLength.
#[export] Instance LengthMode_eq_dec : EqDecision LengthMode.
Proof. solve_decision. Defined.

(** The storage of a serialization buffer: the whole backing array, the
    write cursor and the read cursor. *)
Record serbuf : Set := SerBuf {
  data : list Z;
  ser_loc : nat;
  deser_loc : nat;
}.

Definition capacity (b : serbuf) : nat := length (data b).
Definition set_ser_loc (loc : nat) (b : serbuf) : serbuf := SerBuf (data b) loc (deser_loc b).
Definition set_deser_loc (loc : nat) (b : serbuf) : serbuf := SerBuf (data b) (ser_loc b) loc.
Definition set_data (d : list Z) (b : serbuf) : serbuf := SerBuf d (ser_loc b) (deser_loc b).

(** [LinearBuffer::<N>::new()]. *)
Definition linear_buffer_new (N : nat) : serbuf := SerBuf (replicate N 0%Z) 0 0.
(** [ExtBuf::new(data)]. *)
Definition ext_buf_new (d : list Z) : serbuf := SerBuf d 0 0.
(** [ExtBuf::with_len(data, len)]. *)
Definition ext_buf_with_len (d : list Z) (len : nat) : outcome serbuf :=
  _ ← fw_assert (bool_decide (len ≤ length d)); Ret (SerBuf d len 0).

(** ** The status monad

    [SErr s] is an early return of the non-[Ok] status [s]; the buffer is
    threaded through, so what a failed call already wrote or consumed stays
    visible. *)

Inductive serres (A : Type) : Type :=
| SOk (a : A)
| SErr (s : SerializeStatus)
| SPanic.
Arguments SOk {A} a.
Arguments SErr {A} s.
Arguments SPanic {A}.

Definition SerM (A : Type) : Type := serbuf → serres A * serbuf.

#[export] Instance SerM_ret : MRet SerM := λ A a b, (SOk a, b).
#[export] Instance SerM_bind : MBind SerM := λ A B f m b,
  match m b with
  | (SOk a, b') => f a b'
  | (SErr s, b') => (SErr s, b')
  | (SPanic, b') => (SPanic, b')
  end.

Definition ser_fail {A} (s : SerializeStatus) : SerM A := λ b, (SErr s, b).
Definition ser_assert (c : bool) : SerM unit := λ b, (if c then SOk tt else SPanic, b).
Definition ser_get : SerM serbuf := λ b, (SOk b, b).
Definition ser_modify (f : serbuf → serbuf) : SerM unit := λ b, (SOk tt, f b).

(** The status a call reports. *)
Definition status_of {A} (r : serres A) : option SerializeStatus :=
  match r with SOk _ => Some StOk | SErr s => Some s | SPanic => None end.

(** * Operations *)

(** [write_raw]: room check, copy, advance the write cursor, reset the read
    cursor. *)
Definition write_raw (bs : list Z) : SerM unit := λ b,
  if bool_decide (capacity b < ser_loc b + length bs) then (SErr NoRoomLeft, b)
  else (SOk tt, SerBuf (splice (ser_loc b) bs (data b)) (ser_loc b + length bs) 0).

(** [read_raw] into a destination of [n] bytes. *)
Definition read_raw (n : nat) : SerM (list Z) := λ b,
  if bool_decide (ser_loc b = deser_loc b) then (SErr DeserBufferEmpty, b)
  else if bool_decide (ser_loc b < deser_loc b) then (SPanic, b)
  else if bool_decide (ser_loc b - deser_loc b < n) then (SErr DeserSizeMismatch, b)
  else if bool_decide (length (data b) < deser_loc b + n) then (SPanic, b)
  else (SOk (slice (deser_loc b) n (data b)), set_deser_loc (deser_loc b + n) b).

(** [v.to_be_bytes()] or [v.to_le_bytes()] of an [n]-byte integer. *)
Definition int_bytes (n : nat) (e : Endianness) (v : Z) : list Z :=
  match e with Big => be_bytes n v | Little => le_bytes n v end.
Definition int_value (e : Endianness) (bs : list Z) : Z :=
  match e with Big => be_value bs | Little => le_value bs end.

(** [prim_rw!] at an unsigned type of [n] bytes. *)
Definition serialize_uint (n : nat) (v : Z) (e : Endianness) : SerM unit :=
  write_raw (int_bytes n e v).
Definition deserialize_uint (n : nat) (e : Endianness) : SerM Z :=
  bs ← read_raw n; mret (int_value e bs).

(** [prim_rw!] at a signed type of [n] bytes: two's complement bytes. *)
Definition serialize_sint (n : nat) (v : Z) (e : Endianness) : SerM unit :=
  write_raw (int_bytes n e v).
Definition deserialize_sint (n : nat) (e : Endianness) : SerM Z :=
  bs ← read_raw n; mret (to_signed (8 * Z.of_nat n) (int_value e bs)).

Definition serialize_u8 : Z → Endianness → SerM unit := serialize_uint 1.
Definition serialize_u16 : Z → Endianness → SerM unit := serialize_uint 2.
Definition serialize_u32 : Z → Endianness → SerM unit := serialize_uint 4.
Definition serialize_u64 : Z → Endianness → SerM unit := serialize_uint 8.
Definition serialize_i8 : Z → Endianness → SerM unit := serialize_sint 1.
Definition serialize_i16 : Z → Endianness → SerM unit := serialize_sint 2.
Definition serialize_i32 : Z → Endianness → SerM unit := serialize_sint 4.
Definition serialize_i64 : Z → Endianness → SerM unit := serialize_sint 8.
Definition deserialize_u8 : Endianness → SerM Z := deserialize_uint 1.
Definition deserialize_u16 : Endianness → SerM Z := deserialize_uint 2.
Definition deserialize_u32 : Endianness → SerM Z := deserialize_uint 4.
Definition deserialize_u64 : Endianness → SerM Z := deserialize_uint 8.
Definition deserialize_i8 : Endianness → SerM Z := deserialize_sint 1.
Definition deserialize_i16 : Endianness → SerM Z := deserialize_sint 2.
Definition deserialize_i32 : Endianness → SerM Z := deserialize_sint 4.
Definition deserialize_i64 : Endianness → SerM Z := deserialize_sint 8.

(** An [f32]/[f64] is represented by its bit pattern ([to_bits]). *)
Definition serialize_f32 (bits : Z) (e : Endianness) : SerM unit := serialize_u32 bits e.
Definition deserialize_f32 (e : Endianness) : SerM Z := deserialize_u32 e.
Definition serialize_f64 (bits : Z) (e : Endianness) : SerM unit := serialize_u64 bits e.
Definition deserialize_f64 (e : Endianness) : SerM Z := deserialize_u64 e.

Definition FW_SERIALIZE_TRUE_VALUE : Z := 255.
Definition FW_SERIALIZE_FALSE_VALUE : Z := 0.

Definition serialize_bool (v : bool) (e : Endianness) : SerM unit :=
  write_raw [if v then FW_SERIALIZE_TRUE_VALUE else FW_SERIALIZE_FALSE_VALUE].

(** Strict decode; the cursor does not advance on a byte that is neither. *)
Definition deserialize_bool (e : Endianness) : SerM bool := λ b,
  if bool_decide (ser_loc b = deser_loc b) then (SErr DeserBufferEmpty, b)
  else match data b !! deser_loc b with
  | None => (SPanic, b)
  | Some x =>
      if bool_decide (x = FW_SERIALIZE_TRUE_VALUE) then
        (SOk true, set_deser_loc (deser_loc b + 1) b)
      else if bool_decide (x = FW_SERIALIZE_FALSE_VALUE) then
        (SOk false, set_deser_loc (deser_loc b + 1) b)
      else (SErr DeserFormatError, b)
  end.

(** [getDeserializeSizeLeft] / [getSerializeSizeLeft]. *)
Definition deserialize_size_left : SerM nat := λ b,
  if bool_decide (deser_loc b ≤ ser_loc b)
  then (SOk (ser_loc b - deser_loc b), b) else (SPanic, b).
Definition serialize_size_left : SerM nat := λ b,
  if bool_decide (ser_loc b ≤ capacity b)
  then (SOk (capacity b - ser_loc b), b) else (SPanic, b).

(** Raw bytes, with or without a u16 length prefix.  The prefix is the length
    truncated to 16 bits and is committed before the body's room check. *)
Definition serialize_bytes (bs : list Z) (mode : LengthMode) (e : Endianness) : SerM unit :=
  _ ← (if bool_decide (mode = IncludeLength)
       then serialize_u16 (wrap 16 (Z.of_nat (length bs))) e else mret tt);
  write_raw bs.

(** [dest[..n].copy_from_slice(&self.bytes()[deser..deser + n])] and the
    cursor advance the two arms of [deserialize_bytes] share. *)
Definition copy_out (n : nat) (dest : list Z) : SerM (list Z) := λ b,
  if bool_decide (length (data b) < deser_loc b + n) then (SPanic, b)
  else (SOk (splice 0 (slice (deser_loc b) n (data b)) dest),
        set_deser_loc (deser_loc b + n) b).

(** [deserialize_bytes(dest, len, mode, e)]: the new [dest] and [*len]. *)
Definition deserialize_bytes (dest : list Z) (len : nat) (mode : LengthMode)
    (e : Endianness) : SerM (list Z * nat) :=
  _ ← ser_assert (bool_decide (len ≤ length dest));
  match mode with
  | IncludeLength =>
      stored ← deserialize_u16 e;
      left ← deserialize_size_left;
      let n := Z.to_nat stored in
      if bool_decide (left < n ∨ len < n) then ser_fail DeserSizeMismatch
      else d ← copy_out n dest; mret (d, n)
  | OmitLength =>
      left ← deserialize_size_left;
      if bool_decide (left < len) then ser_fail DeserSizeMismatch
      else d ← copy_out len dest; mret (d, len)
  end.

(** [set_buff_len], [set_buff], [reset_ser], [reset_deser]. *)
Definition set_buff_len (len : nat) : SerM unit := λ b,
  if bool_decide (capacity b < len) then (SErr NoRoomLeft, b)
  else (SOk tt, SerBuf (data b) len 0).
Definition set_buff (src : list Z) : SerM unit := λ b,
  if bool_decide (capacity b < length src) then (SErr NoRoomLeft, b)
  else (SOk tt, SerBuf (splice 0 src (data b)) (length src) 0).
Definition reset_ser : SerM unit := ser_modify (λ b, SerBuf (data b) 0 0).
Definition reset_deser : SerM unit := ser_modify (set_deser_loc 0).

(** [as_slice] and [remaining_slice]: the valid bytes and the unread ones. *)
Definition as_slice (b : serbuf) : list Z := take (ser_loc b) (data b).
Definition remaining_slice (b : serbuf) : list Z := drop (deser_loc b) (as_slice b).

(** [serialize_buffer(val)]: [[u16 size][size bytes]], room-checked first. *)
Definition serialize_buffer (val : serbuf) (e : Endianness) : SerM unit := λ b,
  let size := ser_loc val in
  if bool_decide (capacity b < ser_loc b + size + 2) then (SErr NoRoomLeft, b)
  else (_ ← serialize_u16 (wrap 16 (Z.of_nat size)) e;
        _ ← ser_assert (bool_decide (size ≤ length (data val)));
        ser_modify (λ b', SerBuf (splice (ser_loc b') (take size (data val)) (data b'))
                                 (ser_loc b' + size) 0)) b.

(** [deserialize_buffer(val)]: the new [val]. *)
Definition deserialize_buffer (val : serbuf) (e : Endianness) : SerM serbuf :=
  stored ← deserialize_u16 e;
  let n := Z.to_nat stored in
  if bool_decide (capacity val < n) then ser_fail DeserSizeMismatch
  else
    left ← deserialize_size_left;
    if bool_decide (left < n) then ser_fail DeserSizeMismatch
    else d ← copy_out n (data val);
    match set_buff_len n (set_data d val) with
    | (SOk _, val') => mret val'
    | (SErr s, _) => ser_fail s
    | (SPanic, _) => λ b, (SPanic, b)
    end.

(** [serialize_size]/[deserialize_size]: range-checked u16. *)
Definition serialize_size (size : Z) (e : Endianness) : SerM unit :=
  if bool_decide (65535 < size)%Z then ser_fail FormatError else serialize_u16 size e.
Definition deserialize_size (e : Endianness) : SerM Z := deserialize_u16 e.

(** [let new_ser = self.ser_loc() + num_bytes], a sum of [usize]. *)
Definition serialize_skip `{BuildProfile} (n : nat) : SerM unit := λ b,
  match usize_add (ser_loc b) n with
  | Panic => (SPanic, b)
  | Ret new_ser =>
      if bool_decide (new_ser ≤ capacity b) then (SOk tt, set_ser_loc new_ser b) else (SErr NoRoomLeft, b)
  end.

Definition deserialize_skip (n : nat) : SerM unit := λ b,
  if bool_decide (ser_loc b = deser_loc b) then (SErr DeserBufferEmpty, b)
  else if bool_decide (ser_loc b < deser_loc b) then (SPanic, b)
  else if bool_decide (ser_loc b - deser_loc b < n) then (SErr DeserSizeMismatch, b)
  else (SOk tt, set_deser_loc (deser_loc b + n) b).

Definition move_ser_to_offset `{BuildProfile} (off : nat) : SerM unit := _ ← reset_ser; serialize_skip off.
Definition move_deser_to_offset (off : nat) : SerM unit := _ ← reset_deser; deserialize_skip off.

(** [copy_raw(dest, size)] replaces [dest]; [copy_raw_offset] appends to it. *)
Definition copy_raw (dest : serbuf) (size : nat) : SerM serbuf :=
  if bool_decide (capacity dest < size) then ser_fail NoRoomLeft
  else
    left ← deserialize_size_left;
    if bool_decide (left < size) then ser_fail DeserSizeMismatch
    else d ← copy_out size (data dest); mret (SerBuf d size 0).

Definition copy_raw_offset `{BuildProfile} (dest : serbuf) (size : nat) : SerM serbuf := λ b,
  match usize_add size (ser_loc dest) with
  | Panic => (SPanic, b)
  | Ret total =>
      if bool_decide (capacity dest < total) then (SErr NoRoomLeft, b)
      else
        (left ← deserialize_size_left;
         if bool_decide (left < size) then ser_fail DeserSizeMismatch
         else λ b,
           if bool_decide (capacity dest < ser_loc dest + size ∨ length (data b) < deser_loc b + size) then (SPanic, b)
           else (SOk (SerBuf (splice (ser_loc dest) (slice (deser_loc b) size (data b)) (data dest))
                             (ser_loc dest + size) 0),
                 set_deser_loc (deser_loc b + size) b)) b
  end.
