(* ===== verification/SerialFacts.v ===== *)
(** Facts about the serialization core: the cursor invariant and its
    preservation, the behaviour of every method on each branch, and the codec
    interface the wire formats are proved against. *)

From S2P Require Import Prelude Serial.

(** * The cursor invariant *)

Definition wf (b : serbuf) : Prop :=
  deser_loc b ≤ ser_loc b ∧ ser_loc b ≤ capacity b ∧ Forall is_byte (data b).

#[export] Instance wf_dec b : Decision (wf b).
Proof. unfold wf. apply _. Defined.

Create HintDb ser discriminated.

Lemma wf_new N : wf (linear_buffer_new N).
Proof.
  repeat split; unfold capacity; simpl; try lia.
  apply Forall_replicate. unfold is_byte. lia.
Qed.

Lemma wf_ext_new d : Forall is_byte d → wf (ext_buf_new d).
Proof. repeat split; unfold capacity; simpl; [lia|lia|done]. Qed.

Lemma length_as_slice b : wf b → length (as_slice b) = ser_loc b.
Proof. intros (_ & Hs & _). unfold as_slice. rewrite length_take. unfold capacity in Hs. lia. Qed.

Lemma length_remaining_slice b : wf b → length (remaining_slice b) = ser_loc b - deser_loc b.
Proof. intros Hb. unfold remaining_slice. by rewrite length_drop, length_as_slice. Qed.

(** A computation is safe when, on well-formed buffers, it does not panic,
    keeps the cursors ordered and keeps the storage. *)
Definition safe {A} (m : SerM A) : Prop :=
  ∀ b, wf b → (m b).1 ≠ SPanic ∧ wf (m b).2 ∧ capacity (m b).2 = capacity b.

Lemma safe_ret {A} (a : A) : safe (mret a : SerM A).
Proof. intros b Hb. done. Qed.

Lemma safe_fail {A} s : safe (ser_fail s : SerM A).
Proof. intros b Hb. done. Qed.

Lemma safe_bind {A B} (m : SerM A) (f : A → SerM B) :
  safe m → (∀ a, safe (f a)) → safe (m ≫= f).
Proof.
  intros Hm Hf b Hb. specialize (Hm b Hb).
  unfold mbind, SerM_bind. destruct (m b) as [[a|s|] b'] eqn:E; simpl in *; [|by destruct Hm as [? ?]..].
  destruct Hm as (_ & Hwf & Hc). specialize (Hf a b' Hwf). by rewrite <- Hc.
Qed.

Lemma safe_if {A} (c : bool) (m1 m2 : SerM A) :
  (c = true → safe m1) → (c = false → safe m2) → safe (if c then m1 else m2).
Proof. destruct c; auto. Qed.

#[export] Hint Resolve safe_ret safe_fail safe_bind safe_if wf_new wf_ext_new : ser.

Lemma int_bytes_is_byte n e v : Forall is_byte (int_bytes n e v).
Proof. destruct e; simpl; auto with bytes. Qed.

Lemma length_int_bytes n e v : length (int_bytes n e v) = n.
Proof. destruct e; simpl; by autorewrite with bytes. Qed.

Lemma int_value_int_bytes n e v : int_value e (int_bytes n e v) = (v mod 256 ^ Z.of_nat n)%Z.
Proof. destruct e; simpl; [apply be_value_be_bytes | apply le_value_le_bytes]. Qed.

Lemma int_value_bounds e bs :
  Forall is_byte bs → (0 ≤ int_value e bs < 256 ^ Z.of_nat (length bs))%Z.
Proof. destruct e; simpl; [apply be_value_bounds | apply le_value_bounds]. Qed.

#[export] Hint Resolve int_bytes_is_byte : bytes ser.
#[export] Hint Rewrite length_int_bytes : bytes.

Section safety.
Implicit Types b : serbuf.

Lemma write_raw_safe bs : Forall is_byte bs → safe (write_raw bs).
Proof.
  intros Hbs b (Hd & Hs & Hb). unfold write_raw. case_bool_decide; simpl; [done|].
  unfold wf, capacity in *; simpl. rewrite length_splice by lia.
  split_and!; auto with bytes; lia.
Qed.

Lemma read_raw_safe n : safe (read_raw n).
Proof.
  intros b (Hd & Hs & Hb). unfold read_raw, capacity in *.
  repeat case_bool_decide; simpl; unfold wf, capacity; simpl; split_and!;
    auto with lia.
Qed.

Lemma serialize_uint_safe n v e : safe (serialize_uint n v e).
Proof. apply write_raw_safe. auto with bytes. Qed.

Lemma deserialize_uint_safe n e : safe (deserialize_uint n e).
Proof. apply safe_bind; auto using read_raw_safe, safe_ret. Qed.

Lemma deserialize_sint_safe n e : safe (deserialize_sint n e).
Proof. apply safe_bind; auto using read_raw_safe, safe_ret. Qed.

Lemma serialize_bool_safe v e : safe (serialize_bool v e).
Proof. apply write_raw_safe. repeat constructor; destruct v; done. Qed.

Lemma deserialize_bool_safe e : safe (deserialize_bool e).
Proof.
  intros b (Hd & Hs & Hb). unfold deserialize_bool, capacity in *.
  case_bool_decide; simpl; [done|].
  destruct (data b !! deser_loc b) as [x|] eqn:E.
  - repeat case_bool_decide; simpl; unfold wf, capacity; simpl; split_and!; auto with lia.
  - apply lookup_ge_None in E. lia.
Qed.

Lemma deserialize_size_left_spec b :
  wf b → deserialize_size_left b = (SOk (ser_loc b - deser_loc b), b).
Proof. intros (Hd & _). unfold deserialize_size_left. by rewrite bool_decide_eq_true_2. Qed.

Lemma deserialize_size_left_safe : safe deserialize_size_left.
Proof. intros b Hb. by rewrite deserialize_size_left_spec. Qed.

Lemma serialize_size_left_safe : safe serialize_size_left.
Proof.
  intros b Hb. unfold serialize_size_left.
  rewrite bool_decide_eq_true_2 by apply Hb. done.
Qed.

Lemma safe_size_left_bind {A} (f : nat → SerM A) :
  (∀ b, wf b → (f (ser_loc b - deser_loc b) b).1 ≠ SPanic
               ∧ wf (f (ser_loc b - deser_loc b) b).2
               ∧ capacity (f (ser_loc b - deser_loc b) b).2 = capacity b) →
  safe (deserialize_size_left ≫= f).
Proof.
  intros Hf b Hb. unfold mbind, SerM_bind. rewrite deserialize_size_left_spec by done.
  by apply Hf.
Qed.

Lemma copy_out_spec b n dest :
  wf b → n ≤ ser_loc b - deser_loc b →
  copy_out n dest b =
    (SOk (splice 0 (slice (deser_loc b) n (data b)) dest), set_deser_loc (deser_loc b + n) b).
Proof.
  intros (Hd & Hs & _) Hn. unfold copy_out, capacity in *.
  by rewrite bool_decide_eq_false_2 by lia.
Qed.

Lemma wf_set_deser_loc b n :
  wf b → n ≤ ser_loc b → wf (set_deser_loc n b).
Proof. intros (Hd & Hs & Hb) ?. split_and!; simpl; auto. Qed.

Lemma serialize_bytes_safe bs mode e : Forall is_byte bs → safe (serialize_bytes bs mode e).
Proof.
  intros. apply safe_bind; [|auto using write_raw_safe].
  apply safe_if; intros _; [apply serialize_uint_safe|apply safe_ret].
Qed.

Lemma deserialize_bytes_safe dest len mode e :
  len ≤ length dest → safe (deserialize_bytes dest len mode e).
Proof.
  intros Hlen. unfold deserialize_bytes, ser_assert.
  rewrite bool_decide_eq_true_2 by done. apply safe_bind; [intros b Hb; done|intros _].
  destruct mode; [apply safe_bind; [apply deserialize_uint_safe|intros stored]|];
    apply safe_size_left_bind; intros b Hb; case_bool_decide; simpl; try done;
    unfold mbind, SerM_bind; rewrite copy_out_spec by (done || lia); simpl;
    (split_and!; [done| |done]); (apply wf_set_deser_loc; [done|destruct Hb; lia]).
Qed.

Lemma set_buff_len_safe len : safe (set_buff_len len).
Proof.
  intros b (Hd & Hs & Hb). unfold set_buff_len. case_bool_decide; simpl; [done|].
  unfold wf, capacity in *; simpl. split_and!; auto with lia.
Qed.

Lemma set_buff_safe src : Forall is_byte src → safe (set_buff src).
Proof.
  intros Hsrc b (Hd & Hs & Hb). unfold set_buff. case_bool_decide; simpl; [done|].
  unfold wf, capacity in *; simpl. rewrite length_splice by lia.
  split_and!; auto with bytes; lia.
Qed.

Lemma serialize_buffer_safe val e : wf val → safe (serialize_buffer val e).
Proof.
  intros (Hvd & Hvs & Hvb) b Hb. unfold serialize_buffer, serialize_u16, serialize_uint, write_raw.
  case_bool_decide as Hroom; simpl; [done|].
  unfold mbind, SerM_bind. rewrite length_int_bytes. unfold capacity in *.
  rewrite bool_decide_eq_false_2 by lia. unfold ser_assert.
  rewrite bool_decide_eq_true_2 by done. simpl.
  destruct Hb as (Hd & Hs & Hb). unfold capacity in *.
  assert (length (splice (ser_loc b) (int_bytes 2 e (wrap 16 (Z.of_nat (ser_loc val)))) (data b))
          = length (data b)) as Hl by (rewrite length_splice; rewrite ?length_int_bytes; lia).
  split; [done|]. unfold wf, capacity; simpl. rewrite length_splice by (rewrite Hl, length_take; lia).
  rewrite Hl. split_and!; auto 6 with bytes; lia.
Qed.

Lemma deserialize_buffer_safe val e : wf val → safe (deserialize_buffer val e).
Proof.
  intros Hval. apply safe_bind; [apply deserialize_uint_safe|intros stored].
  cbv beta zeta. case_bool_decide as Hc; [apply safe_fail|].
  apply safe_size_left_bind; intros b Hb; case_bool_decide; simpl; try done.
  unfold mbind, SerM_bind. rewrite copy_out_spec by (done || lia).
  unfold set_buff_len, capacity in *; simpl.
  destruct Hb as (Hd & Hs & Hb). unfold capacity in *.
  rewrite length_splice by (rewrite length_slice; lia).
  rewrite bool_decide_eq_false_2 by lia. simpl.
  unfold wf, capacity; simpl. split_and!; auto with lia.
Qed.

Lemma move_ser_to_offset_ok `{BuildProfile} k b :
  k ≤ capacity b → usize_ok k → move_ser_to_offset k b = (SOk tt, SerBuf (data b) k 0).
Proof.
  intros Hk Hu. unfold move_ser_to_offset. change (serialize_skip k (SerBuf (data b) 0 0) = (SOk tt, SerBuf (data b) k 0)). unfold serialize_skip.
  cbn [ser_loc]. rewrite usize_add_ok by done. unfold capacity in *. cbn [data]. by rewrite bool_decide_eq_true_2.
Qed.

Lemma serialize_skip_safe `{BuildProfile} n b : wf b → usize_ok (capacity b + n) →
  (serialize_skip n b).1 ≠ SPanic ∧ wf (serialize_skip n b).2 ∧ capacity (serialize_skip n b).2 = capacity b.
Proof.
  intros (Hd & Hs & Hb) Hn. unfold serialize_skip. rewrite usize_add_ok by (unfold usize_ok in *; lia).
  case_bool_decide; simpl; unfold wf, capacity in *; simpl; split_and!; auto with lia.
Qed.

Lemma deserialize_skip_safe n : safe (deserialize_skip n).
Proof.
  intros b (Hd & Hs & Hb); unfold deserialize_skip, capacity in *;
    repeat case_bool_decide; simpl; unfold wf, capacity; simpl; split_and!; auto with lia.
Qed.

Lemma reset_safe : safe reset_ser ∧ safe reset_deser.
Proof.
  split; intros b (Hd & Hs & Hb); unfold reset_ser, reset_deser, ser_modify, wf, capacity; simpl;
    split_and!; auto with lia.
Qed.

Lemma copy_raw_safe dest size : safe (copy_raw dest size).
Proof.
  unfold copy_raw. apply safe_if; [auto using safe_fail|intros _].
  apply safe_size_left_bind; intros b Hb; case_bool_decide; simpl; try done.
  unfold mbind, SerM_bind. rewrite copy_out_spec by (done || lia). simpl.
  split_and!; [done| |done]. apply wf_set_deser_loc; [done|]. destruct Hb; lia.
Qed.

Lemma copy_raw_offset_safe `{BuildProfile} dest size : usize_ok (size + ser_loc dest) → safe (copy_raw_offset dest size).
Proof.
  intros Hu b Hb. unfold copy_raw_offset. rewrite usize_add_ok by done. case_bool_decide; [done|].
  unfold mbind, SerM_bind. rewrite deserialize_size_left_spec by done. case_bool_decide; [done|].
  destruct Hb as (Hd & Hs & Hb). unfold capacity in *.
  rewrite bool_decide_eq_false_2 by lia. simpl.
  split_and!; [done| |done]. unfold wf, capacity; simpl. split_and!; auto with lia.
Qed.
End safety.

(** * Sequences of method calls

    Every method of [SerBuf] as a command; a client drives a buffer by a list
    of them, whatever statuses they return. *)

Inductive ser_op : Type :=
| OSerUint (n : nat) (v : Z) (e : Endianness)
| OSerBool (v : bool)
| OSerBytes (bs : list Z) (mode : LengthMode) (e : Endianness)
| OSerBuffer (val : serbuf) (e : Endianness)
| OSerSize (size : Z) (e : Endianness)
| OSerSkip (n : nat)
| OMoveSer (off : nat)
| ODeserUint (n : nat) (e : Endianness)
| ODeserSint (n : nat) (e : Endianness)
| ODeserBool
| ODeserBytes (dest : list Z) (len : nat) (mode : LengthMode) (e : Endianness)
| ODeserBuffer (val : serbuf) (e : Endianness)
| ODeserSkip (n : nat)
| OMoveDeser (off : nat)
| OResetSer
| OResetDeser
| OSetBuff (src : list Z)
| OSetBuffLen (len : nat)
| OCopyRaw (dest : serbuf) (size : nat)
| OCopyRawOffset (dest : serbuf) (size : nat).

Definition discard {A} (m : SerM A) : SerM unit := _ ← m; mret tt.

Definition run_op `{BuildProfile} (o : ser_op) : SerM unit :=
  match o with
  | OSerUint n v e => serialize_uint n v e
  | OSerBool v => serialize_bool v Big
  | OSerBytes bs mode e => serialize_bytes bs mode e
  | OSerBuffer val e => serialize_buffer val e
  | OSerSize size e => serialize_size size e
  | OSerSkip n => serialize_skip n
  | OMoveSer off => move_ser_to_offset off
  | ODeserUint n e => discard (deserialize_uint n e)
  | ODeserSint n e => discard (deserialize_sint n e)
  | ODeserBool => discard (deserialize_bool Big)
  | ODeserBytes dest len mode e => discard (deserialize_bytes dest len mode e)
  | ODeserBuffer val e => discard (deserialize_buffer val e)
  | ODeserSkip n => deserialize_skip n
  | OMoveDeser off => move_deser_to_offset off
  | OResetSer => reset_ser
  | OResetDeser => reset_deser
  | OSetBuff src => set_buff src
  | OSetBuffLen len => set_buff_len len
  | OCopyRaw dest size => discard (copy_raw dest size)
  | OCopyRawOffset dest size => discard (copy_raw_offset dest size)
  end.

(** What a caller may pass to a buffer of [N] bytes: slices of bytes,
    well-formed buffers, the documented [len <= dest.len()], and skips whose
    sum with a cursor is a [usize]. *)
Definition op_ok (N : nat) (o : ser_op) : Prop :=
  match o with
  | OSerBytes bs _ _ | OSetBuff bs => Forall is_byte bs
  | OSerBuffer val _ | ODeserBuffer val _ => wf val
  | ODeserBytes dest len _ _ => len ≤ length dest
  | OSerSkip n | OMoveSer n => usize_ok (N + n)
  | OCopyRawOffset dest size => usize_ok (size + ser_loc dest)
  | _ => True
  end.

#[export] Instance op_ok_dec N o : Decision (op_ok N o).
Proof. destruct o; simpl; apply _. Defined.

(** Run the calls in order; [None] when one of them panics. *)
Fixpoint run_ops `{BuildProfile} (ops : list ser_op) (b : serbuf) : option serbuf :=
  match ops with
  | [] => Some b
  | o :: ops' =>
      match run_op o b with
      | (SPanic, _) => None
      | (_, b') => run_ops ops' b'
      end
  end.

Lemma discard_safe {A} (m : SerM A) : safe m → safe (discard m).
Proof. intros. apply safe_bind; auto using safe_ret. Qed.

Lemma run_op_safe `{BuildProfile} o b : op_ok (capacity b) o → wf b →
  (run_op o b).1 ≠ SPanic ∧ wf (run_op o b).2 ∧ capacity (run_op o b).2 = capacity b.
Proof.
  intros Ho Hb. assert (safe (run_op o) ∨ ∃ n, o = OSerSkip n ∨ o = OMoveSer n) as [Hs|(n & [-> | ->])]; [|by apply Hs|by apply serialize_skip_safe|].
  - destruct o; simpl in Ho; try (right; eexists; by auto); left; simpl; try apply discard_safe;
      try (by apply safe_bind; [apply reset_safe|intros _; apply deserialize_skip_safe]);
      eauto using serialize_uint_safe, serialize_bool_safe, serialize_bytes_safe,
        serialize_buffer_safe, deserialize_uint_safe, deserialize_sint_safe,
        deserialize_bool_safe, deserialize_bytes_safe, deserialize_buffer_safe, deserialize_skip_safe,
        set_buff_safe, set_buff_len_safe, copy_raw_safe, copy_raw_offset_safe;
      try apply reset_safe.
    unfold serialize_size. apply safe_if; intros _; [apply safe_fail|apply serialize_uint_safe].
  - destruct (proj1 reset_safe b Hb) as (_ & Hw & Hc). apply (serialize_skip_safe n (SerBuf (data b) 0 0)); done.
Qed.

Lemma run_ops_safe `{BuildProfile} ops b :
  Forall (op_ok (capacity b)) ops → wf b → ∃ b', run_ops ops b = Some b' ∧ wf b' ∧ capacity b' = capacity b.
Proof.
  remember (capacity b) as N eqn:EN. intros Hops. revert b EN. induction Hops as [|o ops Ho _ IH]; intros b -> Hb; simpl.
  - by exists b.
  - destruct (run_op_safe o b Ho Hb) as (Hp & Hw & Hc).
    destruct (run_op o b) as [[[]|s|] b'] eqn:E; simpl in *; try done;
      destruct (IH b' (eq_sym Hc) Hw) as (b'' & -> & ? & ?); eexists; split_and!; eauto; congruence.
Qed.

(** * Appending and consuming *)

(** The buffer after [bs] was appended: the read cursor is reset. *)
Definition appended (b : serbuf) (bs : list Z) : serbuf :=
  SerBuf (splice (ser_loc b) bs (data b)) (ser_loc b + length bs) 0.

(** The buffer after [n] bytes were consumed. *)
Definition advanced (n : nat) (b : serbuf) : serbuf := set_deser_loc (deser_loc b + n) b.

Lemma ser_loc_appended b bs : ser_loc (appended b bs) = ser_loc b + length bs.
Proof. done. Qed.

Lemma capacity_appended b bs :
  ser_loc b + length bs ≤ capacity b → capacity (appended b bs) = capacity b.
Proof. intros. unfold capacity in *. simpl. by apply length_splice. Qed.

Lemma wf_appended b bs :
  wf b → Forall is_byte bs → ser_loc b + length bs ≤ capacity b → wf (appended b bs).
Proof.
  intros (? & ? & ?) ? ?. split_and!; simpl; auto with lia bytes.
  by rewrite capacity_appended.
Qed.

Lemma as_slice_appended b bs :
  wf b → as_slice (appended b bs) = as_slice b ++ bs.
Proof. intros (_ & Hs & _). unfold as_slice. simpl. by apply take_splice. Qed.

Lemma remaining_appended b bs :
  wf b → remaining_slice (appended b bs) = as_slice b ++ bs.
Proof. intros. unfold remaining_slice. by rewrite as_slice_appended. Qed.

Lemma appended_app b x y :
  ser_loc b + length x + length y ≤ capacity b →
  appended (appended b x) y = appended b (x ++ y).
Proof.
  intros Hc. unfold appended, capacity in *. simpl. rewrite length_app.
  f_equal; [|lia]. unfold splice. rewrite length_app.
  rewrite take_app_ge by (rewrite length_take; lia).
  rewrite length_take, Nat.min_l by lia.
  replace (ser_loc b + length x - ser_loc b) with (length x) by lia.
  rewrite take_app_length. rewrite <- !app_assoc. do 3 f_equal.
  rewrite !drop_app_ge by (rewrite ?length_take; lia).
  rewrite length_take, drop_drop. f_equal. lia.
Qed.

Lemma write_raw_room b bs :
  ser_loc b + length bs ≤ capacity b → write_raw bs b = (SOk tt, appended b bs).
Proof. intros. unfold write_raw. by rewrite bool_decide_eq_false_2 by lia. Qed.

Lemma write_raw_full b bs :
  capacity b < ser_loc b + length bs → write_raw bs b = (SErr NoRoomLeft, b).
Proof. intros. unfold write_raw. by rewrite bool_decide_eq_true_2 by lia. Qed.

Lemma remaining_slice_alt b : remaining_slice b = slice (deser_loc b) (ser_loc b - deser_loc b) (data b).
Proof.
  unfold remaining_slice, as_slice, slice. by rewrite skipn_firstn_comm.
Qed.

Lemma read_raw_prefix b bs rest :
  wf b → bs ≠ [] → remaining_slice b = bs ++ rest →
  read_raw (length bs) b = (SOk bs, advanced (length bs) b).
Proof.
  intros Hb Hne Hr. pose proof (length_remaining_slice b Hb) as Hl.
  rewrite Hr, length_app in Hl. destruct Hb as (Hd & Hs & _).
  assert (length bs ≠ 0) by (by destruct bs).
  unfold read_raw, capacity in *. rewrite !bool_decide_eq_false_2 by lia.
  do 2 f_equal. rewrite remaining_slice_alt in Hr.
  replace (ser_loc b - deser_loc b) with (length bs + length rest) in Hr by lia.
  rewrite slice_app in Hr. apply app_inj_1 in Hr as [-> _]; [done|].
  rewrite length_slice; lia.
Qed.

Lemma remaining_advanced b bs rest :
  wf b → remaining_slice b = bs ++ rest → remaining_slice (advanced (length bs) b) = rest.
Proof.
  unfold remaining_slice. simpl. intros _ Hr. unfold as_slice in *. simpl.
  rewrite <- drop_drop, Hr. apply drop_app_length.
Qed.

Lemma wf_advanced b bs rest :
  wf b → remaining_slice b = bs ++ rest → wf (advanced (length bs) b).
Proof.
  intros Hb Hr. pose proof (length_remaining_slice b Hb) as Hl.
  rewrite Hr, length_app in Hl. apply wf_set_deser_loc; [done|]. destruct Hb; lia.
Qed.

Lemma advanced_add n m b : advanced n (advanced m b) = advanced (m + n) b.
Proof. unfold advanced, set_deser_loc. simpl. f_equal. lia. Qed.

Lemma ser_bind_ok {A B} (m : SerM A) (f : A → SerM B) b a b' :
  m b = (SOk a, b') → (m ≫= f) b = f a b'.
Proof. intros H. unfold mbind, SerM_bind. by rewrite H. Qed.

Lemma ser_bind_err {A B} (m : SerM A) (f : A → SerM B) b s b' :
  m b = (SErr s, b') → (m ≫= f) b = (SErr s, b').
Proof. intros H. unfold mbind, SerM_bind. by rewrite H. Qed.

(** [m] appends exactly [bs] to any buffer with room for it. *)
Definition writes (m : SerM unit) (bs : list Z) : Prop :=
  ∀ b, wf b → ser_loc b + length bs ≤ capacity b → m b = (SOk tt, appended b bs).

(** [m] reads [a] off any buffer whose unread bytes start with [bs], and
    consumes exactly [bs]. *)
Definition reads {A} (m : SerM A) (bs : list Z) (a : A) : Prop :=
  ∀ b rest, wf b → remaining_slice b = bs ++ rest → m b = (SOk a, advanced (length bs) b).

Lemma writes_raw bs : writes (write_raw bs) bs.
Proof. intros b _. apply write_raw_room. Qed.

Lemma writes_bind (m : SerM unit) (k : unit → SerM unit) x y :
  writes m x → Forall is_byte x → writes (k tt) y → writes (m ≫= k) (x ++ y).
Proof.
  intros Hm Hx Hk b Hb Hc. rewrite length_app in Hc.
  rewrite (ser_bind_ok _ _ _ _ _ (Hm b Hb ltac:(lia))).
  rewrite Hk, appended_app; auto with lia.
  - apply wf_appended; auto with lia.
  - rewrite capacity_appended, ser_loc_appended; lia.
Qed.

Lemma reads_raw bs : bs ≠ [] → reads (read_raw (length bs)) bs bs.
Proof. intros Hne b rest Hb Hr. by apply (read_raw_prefix b bs rest). Qed.

Lemma advanced_0 b : advanced 0 b = b.
Proof. destruct b. unfold advanced, set_deser_loc. simpl. by rewrite Nat.add_0_r. Qed.

Lemma reads_ret {A} (a : A) : reads (mret a) [] a.
Proof. intros b rest _ _. simpl. by rewrite advanced_0. Qed.

Lemma reads_bind {A B} (m : SerM A) (k : A → SerM B) x y a c :
  reads m x a → reads (k a) y c → reads (m ≫= k) (x ++ y) c.
Proof.
  intros Hm Hk b rest Hb Hr. rewrite <- app_assoc in Hr.
  rewrite (ser_bind_ok _ _ _ _ _ (Hm b _ Hb Hr)).
  rewrite (Hk _ rest), advanced_add, length_app; [done|..].
  - by apply (wf_advanced b x (y ++ rest)).
  - by apply (remaining_advanced b x (y ++ rest)).
Qed.

(** The last read of a ladder, followed by a result. *)
Lemma reads_bind_last {A B} (m : SerM A) (k : A → SerM B) x a c :
  reads m x a → reads (k a) [] c → reads (m ≫= k) x c.
Proof. intros Hm Hk. rewrite <- (app_nil_r x). by apply (reads_bind m k x [] a). Qed.

Lemma reads_copy_out dest bs : reads (copy_out (length bs) dest) bs (splice 0 bs dest).
Proof.
  intros b rest Hb Hr. pose proof (length_remaining_slice b Hb) as Hl. rewrite Hr, length_app in Hl.
  rewrite copy_out_spec by (done || lia). unfold advanced. do 3 f_equal.
  rewrite remaining_slice_alt in Hr.
  replace (ser_loc b - deser_loc b) with (length bs + length rest) in Hr by lia.
  rewrite slice_app in Hr. apply app_inj_1 in Hr as [? _]; [done|].
  destruct Hb as (? & Hc & _). unfold capacity in Hc. apply length_slice. lia.
Qed.

(** A read guarded by the number of unread bytes. *)
Lemma reads_size_left {A} (P : nat → bool) st (m : SerM A) bs a :
  (∀ n, length bs ≤ n → P n = false) → reads m bs a →
  reads (left ← deserialize_size_left; if P left then ser_fail st else m) bs a.
Proof.
  intros HP Hm b rest Hb Hr. pose proof (length_remaining_slice b Hb) as Hl. rewrite Hr, length_app in Hl.
  rewrite (ser_bind_ok _ _ _ _ _ (deserialize_size_left_spec b Hb)). rewrite HP by lia. by apply (Hm b rest).
Qed.

(** * Method sequences never break the buffer *)

(** In a build without overflow checks a skip of nearly [usize::MAX] bytes
    passes the room check and moves the write cursor back. *)
Example skip_wraps n : Z.of_nat n = (2 ^ 64 - 2)%Z →
  serialize_skip (H := false) n (SerBuf (replicate 8 0%Z) 5 4) = (SOk tt, SerBuf (replicate 8 0%Z) 3 4).
Proof. intros Hn. unfold serialize_skip, usize_add. cbn [ser_loc]. by rewrite Hn. Qed.

(** C31. Whatever methods of the serialization buffer a client calls, in any
    order and whatever statuses come back, starting from a fresh
    [LinearBuffer::<N>]: no call panics, the read cursor never passes the
    write cursor, the write cursor never passes the capacity, the capacity
    stays [N] and the stored bytes stay bytes.  The client passes slices no
    longer than it says, well-formed buffers, and, to the calls that skip or
    append, counts whose sum with the capacity (or with the length of the
    destination) is a [usize]: past that the sum of the room check overflows,
    see [skip_wraps]. *)
Theorem serbuf_calls_safe `{BuildProfile} (N : nat) (ops : list ser_op) (Hops : Forall (op_ok N) ops) :
  ∃ b, run_ops ops (linear_buffer_new N) = Some b ∧
       deser_loc b ≤ ser_loc b ≤ capacity b ∧ capacity b = N ∧ Forall is_byte (data b).
Proof.
  assert (capacity (linear_buffer_new N) = N) as EN by apply length_replicate.
  destruct (run_ops_safe ops (linear_buffer_new N)) as (b & Hr & (?&?&?) & Hc); [by rewrite EN|apply wf_new|].
  exists b. rewrite Hc, EN in *. split_and!; auto; lia.
Qed.

Lemma serbuf_calls_safe_witness :
  let P := true : BuildProfile in
  ∃ b, run_ops [OSerUint 4 7 Big; OSerBytes [1; 2]%Z IncludeLength Little; ODeserUint 2 Big; OSerSkip 9;
                ODeserSkip 9; OSetBuffLen 3] (linear_buffer_new 8) = Some b ∧
       deser_loc b ≤ ser_loc b ≤ capacity b ∧ capacity b = 8 ∧ Forall is_byte (data b).
Proof.
  intros P. apply serbuf_calls_safe. repeat constructor; unfold is_byte, usize_ok; simpl; lia.
Defined.

(** An integer in network order. *)
Lemma deserialize_be n bs rest b :
  wf b → n ≠ 0 → length bs = n → remaining_slice b = bs ++ rest →
  deserialize_uint n Big b = (SOk (be_value bs), advanced n b).
Proof.
  intros Hb Hn Hl Hr. unfold deserialize_uint. rewrite <- Hl.
  by rewrite (ser_bind_ok _ _ _ _ _ (read_raw_prefix b bs rest Hb ltac:(by destruct bs) Hr)).
Qed.

Lemma advanced_ok n b :
  wf b → n ≤ length (remaining_slice b) → wf (advanced n b) ∧ remaining_slice (advanced n b) = drop n (remaining_slice b).
Proof.
  intros Hb Hl. pose proof (eq_sym (take_drop n (remaining_slice b))) as E.
  assert (length (take n (remaining_slice b)) = n) as Hlt by (rewrite length_take; lia).
  pose proof (wf_advanced _ _ _ Hb E). pose proof (remaining_advanced _ _ _ Hb E). by rewrite Hlt in *.
Qed.

(** Reading an integer in network order from any buffer: its bytes when they
    are there, a failure that consumes nothing otherwise. *)
Lemma deserialize_uint_exact n b :
  wf b → n ≠ 0 →
  if decide (n ≤ length (remaining_slice b))
  then deserialize_uint n Big b = (SOk (be_value (take n (remaining_slice b))), advanced n b)
  else ∃ st, deserialize_uint n Big b = (SErr st, b).
Proof.
  intros Hb Hn. case_decide as Hl.
  - eapply deserialize_be; [done|done| |by rewrite take_drop]. rewrite length_take. lia.
  - rewrite length_remaining_slice in Hl by done. unfold deserialize_uint, read_raw, mbind, SerM_bind.
    pose proof Hb as (Hd & _). case_bool_decide; [by eexists|]. rewrite bool_decide_eq_false_2 by lia.
    rewrite bool_decide_eq_true_2 by lia. by eexists.
Qed.

Lemma deserialize_sint_exact n b :
  wf b → n ≠ 0 →
  if decide (n ≤ length (remaining_slice b))
  then deserialize_sint n Big b = (SOk (to_signed (8 * Z.of_nat n) (be_value (take n (remaining_slice b)))), advanced n b)
  else ∃ st, deserialize_sint n Big b = (SErr st, b).
Proof.
  intros Hb Hn. pose proof (deserialize_uint_exact n b Hb Hn) as H.
  unfold deserialize_sint. unfold deserialize_uint in H. unfold mbind, SerM_bind in *.
  case_decide.
  - destruct (read_raw n b) as [[bs|?|] ?]; [|done|done]. cbn in H |- *. by injection H as <- <-.
  - destruct H as [st E]. exists st. destruct (read_raw n b) as [[bs|?|] ?]; done.
Qed.

(** ** Reads of arbitrary bytes *)

(** [m] does not panic, and what it returns satisfies [P]. *)
Definition yields {A} (m : SerM A) (P : A → Prop) : Prop :=
  ∀ b, wf b → match m b with (SOk a, b') => wf b' ∧ P a | (SErr _, _) => True | (SPanic, _) => False end.

Lemma yields_bind {A B} (m : SerM A) (f : A → SerM B) P Q : yields m P → (∀ a, P a → yields (f a) Q) → yields (m ≫= f) Q.
Proof.
  intros Hm Hf b Hb. specialize (Hm b Hb). unfold mbind, SerM_bind. destruct (m b) as [[a|s|] b']; [|done..].
  destruct Hm as [Hb' Ha]. exact (Hf a Ha b' Hb').
Qed.
Lemma yields_ret {A} (a : A) (P : A → Prop) : P a → yields (mret a) P.
Proof. intros Ha b Hb. done. Qed.
Lemma yields_fail {A} s (P : A → Prop) : yields (ser_fail s) P.
Proof. done. Qed.
Lemma yields_size_left : yields deserialize_size_left (λ _, True).
Proof. intros b Hb. by rewrite deserialize_size_left_spec. Qed.
Lemma yields_raw n : yields (read_raw n) (λ bs, length bs = n ∧ Forall is_byte bs).
Proof.
  intros b Hb. pose proof (read_raw_safe n b Hb) as (Hp & Hw & _). unfold read_raw in *. destruct Hb as (? & ? & Hby). unfold capacity in *.
  repeat case_bool_decide; cbn in *; try done. split; [done|]. split; [apply length_slice; lia|by apply Forall_slice].
Qed.
Lemma yields_uint n e : yields (deserialize_uint n e) (is_u (8 * Z.of_nat n)).
Proof.
  eapply yields_bind; [apply yields_raw|]. intros bs [<- Hb]. apply yields_ret. pose proof (int_value_bounds e bs Hb) as Hv. by rewrite pow256 in Hv.
Qed.
Lemma yields_copy_out n dest :
  Forall is_byte dest → n ≤ length dest →
  yields (left ← deserialize_size_left; if bool_decide (left < n ∨ length dest < n) then ser_fail DeserSizeMismatch else d ← copy_out n dest; mret (d, n))
    (λ r, r.2 ≤ length r.1 ∧ length r.1 = length dest ∧ Forall is_byte r.1).
Proof.
  intros Hd Hn b Hb. unfold mbind, SerM_bind. rewrite deserialize_size_left_spec by done. case_bool_decide as Hc; [done|].
  rewrite copy_out_spec by (done || lia). cbn. destruct Hb as (H1 & H2 & H3). unfold capacity in *. split; [by apply wf_set_deser_loc; [split_and!|lia]|].
  assert (length (splice 0 (slice (deser_loc b) n (data b)) dest) = length dest) as E by (apply length_splice; rewrite length_slice by lia; lia).
  split_and!; [lia|done|]. apply Forall_splice; [done|by apply Forall_slice].
Qed.
