(* ===== verification/Codec.v ===== *)
(** The codec interface between the serialization core and the wire formats:
    what a pair [serialize_to]/[deserialize_from] of the traits [Serialize]
    and [Deserialize] promises, the instances of [serial.rs] (integers, floats
    by bit pattern, booleans) and the enums the macro [fpp_enum!]
    ([crates/fprime-fw/src/fpp.rs]) generates. *)

From S2P Require Import Prelude Serial SerialFacts.

(** * The interface *)

Record codec (A : Type) : Type := Codec {
  (** The values a Rust value of the type can take. *)
  c_valid : A → Prop;
  (** The wire image. *)
  c_enc : Endianness → A → list Z;
  c_ser : A → Endianness → SerM unit;
  c_deser : Endianness → SerM A;
  c_enc_bytes : ∀ e a, Forall is_byte (c_enc e a);
  (** With room for the image, serializing appends exactly the image. *)
  c_ser_ok : ∀ a e, writes (c_ser a e) (c_enc e a);
  (** When the unread bytes start with the image of a valid value,
      deserializing yields that value and consumes exactly the image. *)
  c_deser_ok : ∀ a e, c_valid a → reads (c_deser e) (c_enc e a) a;
  (** Deserializing never panics and keeps the buffer well formed. *)
  c_deser_safe : ∀ e, safe (c_deser e);
}.
Arguments c_valid {A} c a.
Arguments c_enc {A} c e a.
Arguments c_ser {A} c a e.
Arguments c_deser {A} c e.
Arguments c_enc_bytes {A} c.
Arguments c_ser_ok {A} c.
Arguments c_deser_ok {A} c.
Arguments c_deser_safe {A} c.

(** The types that implement [Serialize] and [Deserialize]. *)
Class Serializable (A : Type) : Type := codec_of : codec A.
#[global] Hint Mode Serializable ! : typeclass_instances.

Definition serialize_to `{Serializable A} : A → Endianness → SerM unit := c_ser codec_of.
Definition deserialize_from `{Serializable A} : Endianness → SerM A := c_deser codec_of.

Lemma codec_roundtrip {A} (c : codec A) (a : A) e b :
  c_valid c a → wf b → ser_loc b = 0 → length (c_enc c e a) ≤ capacity b →
  ∃ b', c_ser c a e b = (SOk tt, b') ∧ as_slice b' = c_enc c e a ∧ wf b' ∧
        c_deser c e b' = (SOk a, advanced (length (c_enc c e a)) b').
Proof.
  intros Ha Hb H0 Hl. exists (appended b (c_enc c e a)).
  assert (as_slice b = []) as Hs by (unfold as_slice; by rewrite H0).
  assert (wf (appended b (c_enc c e a))) as Hw.
  { apply wf_appended; auto using c_enc_bytes. lia. }
  split_and!; auto.
  - apply c_ser_ok; [done|lia].
  - by rewrite as_slice_appended, Hs.
  - apply (c_deser_ok c a e Ha _ []); auto.
    by rewrite remaining_appended, Hs, app_nil_r.
Qed.

(** Two values on the wire one after the other are read back in order: no
    image is confused by what follows it. *)
Lemma codec_prefix_free {A} (c : codec A) (a a' : A) e rest rest' :
  c_valid c a → c_valid c a' → Forall is_byte rest →
  c_enc c e a ++ rest = c_enc c e a' ++ rest' → a = a' ∧ rest = rest'.
Proof.
  intros Ha Ha' Hrest Heq.
  set (d := c_enc c e a ++ rest).
  set (b := SerBuf d (length d) 0).
  assert (wf b) as Hb.
  { split_and!; simpl; [lia|unfold capacity; simpl; lia|].
    apply Forall_app; split; [apply c_enc_bytes|done]. }
  assert (remaining_slice b = d) as Hr.
  { unfold remaining_slice, as_slice. simpl. by rewrite take_ge by lia. }
  pose proof (c_deser_ok c a e Ha b rest Hb Hr) as H1.
  assert (remaining_slice b = c_enc c e a' ++ rest') as Hr' by (by rewrite Hr, <- Heq).
  pose proof (c_deser_ok c a' e Ha' b rest' Hb Hr') as H2.
  rewrite H1 in H2. injection H2 as -> _. split; [done|].
  by apply app_inv_head in Heq.
Qed.

(** One step of a [fw_try!] ladder on the writing and on the reading side. *)
Ltac ser_step c a := apply (writes_bind _ _ (c_enc c _ a)); [apply (c_ser_ok c a)|apply (c_enc_bytes c)|].
Ltac ser_step_at c e a :=
  apply (writes_bind _ _ (c_enc c e a)); [apply (c_ser_ok c a)|apply (c_enc_bytes c)|].
Ltac ser_last c a := apply (c_ser_ok c a).
Ltac deser_step c a := apply (reads_bind _ _ (c_enc c _ a) _ a); [apply (c_deser_ok c a)|].
Ltac deser_last c a := apply (reads_bind_last _ _ (c_enc c _ a) a); [apply (c_deser_ok c a)|].

(** * Integers, floats and booleans *)

Section integers.
Context (n : nat) (Hn : n ≠ 0).

Lemma int_enc_nonempty e v : int_bytes n e v ≠ [].
Proof. intros H%(f_equal length). by rewrite length_int_bytes in H. Qed.

Lemma serialize_uint_ok a e : writes (serialize_uint n a e) (int_bytes n e a).
Proof. apply writes_raw. Qed.

Lemma read_int_ok a e : reads (read_raw n) (int_bytes n e a) (int_bytes n e a).
Proof.
  rewrite <- (length_int_bytes n e a) at 1. apply reads_raw, int_enc_nonempty.
Qed.

Lemma deserialize_uint_ok a e :
  is_u (8 * Z.of_nat n) a → reads (deserialize_uint n e) (int_bytes n e a) a.
Proof.
  intros Ha. apply (reads_bind_last _ _ _ _ _ (read_int_ok a e)).
  rewrite int_value_int_bytes, pow256, Z.mod_small by apply Ha. apply reads_ret.
Qed.

Lemma deserialize_sint_ok a e :
  is_i (8 * Z.of_nat n) a → reads (deserialize_sint n e) (int_bytes n e a) a.
Proof.
  intros Ha. apply (reads_bind_last _ _ _ _ _ (read_int_ok a e)).
  rewrite int_value_int_bytes, pow256. fold (wrap (8 * Z.of_nat n) a).
  rewrite to_signed_wrap by (done || lia). apply reads_ret.
Qed.

Definition uint_codec : codec Z :=
  Codec Z (is_u (8 * Z.of_nat n)) (int_bytes n) (serialize_uint n) (deserialize_uint n)
    (int_bytes_is_byte n) serialize_uint_ok deserialize_uint_ok
    (deserialize_uint_safe n).

Definition sint_codec : codec Z :=
  Codec Z (is_i (8 * Z.of_nat n)) (int_bytes n) (serialize_sint n) (deserialize_sint n)
    (int_bytes_is_byte n) serialize_uint_ok deserialize_sint_ok
    (deserialize_sint_safe n).
End integers.

Definition u8_codec : codec Z := uint_codec 1 ltac:(done).
Definition u16_codec : codec Z := uint_codec 2 ltac:(done).
Definition u32_codec : codec Z := uint_codec 4 ltac:(done).
Definition u64_codec : codec Z := uint_codec 8 ltac:(done).
Definition i8_codec : codec Z := sint_codec 1 ltac:(done).
Definition i16_codec : codec Z := sint_codec 2 ltac:(done).
Definition i32_codec : codec Z := sint_codec 4 ltac:(done).
Definition i64_codec : codec Z := sint_codec 8 ltac:(done).
Definition f32_codec : codec Z := u32_codec.
Definition f64_codec : codec Z := u64_codec.

Definition bool_byte (v : bool) : Z :=
  if v then FW_SERIALIZE_TRUE_VALUE else FW_SERIALIZE_FALSE_VALUE.

Lemma remaining_head b x rest :
  wf b → remaining_slice b = x :: rest →
  ser_loc b ≠ deser_loc b ∧ data b !! deser_loc b = Some x.
Proof.
  intros Hb Hr. pose proof (length_remaining_slice b Hb) as Hl. rewrite Hr in Hl. simpl in Hl.
  split; [lia|]. rewrite remaining_slice_alt in Hr.
  assert (slice (deser_loc b) (ser_loc b - deser_loc b) (data b) !! 0 = Some x) as H0
    by (by rewrite Hr).
  rewrite slice_lookup in H0 by lia. by rewrite Nat.add_0_r in H0.
Qed.

Program Definition bool_codec : codec bool :=
  Codec bool (λ _, True) (λ _ v, [bool_byte v]) serialize_bool deserialize_bool _ _ _
    deserialize_bool_safe.
Next Obligation. intros _ []; repeat constructor; done. Qed.
Next Obligation. intros a e. apply writes_raw. Qed.
Next Obligation.
  intros a e _ b rest Hb Hr. destruct (remaining_head b (bool_byte a) rest Hb Hr) as [Hne Hx].
  unfold deserialize_bool. rewrite bool_decide_eq_false_2 by done. rewrite Hx.
  by destruct a.
Qed.

(** A boolean step of a ladder; its image has no byte order. *)
Ltac ser_bool v :=
  apply (writes_bind _ _ [bool_byte v]); [apply (c_ser_ok bool_codec v)|apply (c_enc_bytes bool_codec Big)|].
Ltac deser_bool v := apply (reads_bind _ _ [bool_byte v] _ v); [by apply (c_deser_ok bool_codec v)|].

(** * Enums of [fpp_enum!]

    An enum has a representation width, a representation of each constant and
    the exact decode [try_from]. *)

Class FppEnum (A : Type) : Type := {
  repr_bytes : nat;
  as_repr : A → Z;
  try_from : Z → option A;
  repr_bytes_pos : repr_bytes ≠ 0;
  as_repr_range : ∀ a, is_u (8 * Z.of_nat repr_bytes) (as_repr a);
  try_from_as_repr : ∀ a, try_from (as_repr a) = Some a;
  as_repr_try_from : ∀ z a, try_from z = Some a → as_repr a = z;
}.

Section enum.
Context `{FppEnum A}.

Definition enum_serialize_to (v : A) (e : Endianness) : SerM unit :=
  serialize_uint repr_bytes (as_repr v) e.

(** An undeclared value is [DeserFormatError] with the raw bytes consumed. *)
Definition enum_deserialize_from (e : Endianness) : SerM A :=
  raw ← deserialize_uint repr_bytes e;
  match try_from raw with
  | Some v => mret v
  | None => ser_fail DeserFormatError
  end.

Definition is_valid_repr (raw : Z) : bool := bool_decide (is_Some (try_from raw)).

Lemma enum_deserialize_ok a e :
  True → reads (enum_deserialize_from e) (int_bytes repr_bytes e (as_repr a)) a.
Proof.
  intros _. eapply reads_bind_last.
  - apply deserialize_uint_ok; [apply repr_bytes_pos|apply as_repr_range].
  - rewrite try_from_as_repr. apply reads_ret.
Qed.

Lemma enum_deserialize_bad raw e b rest :
  is_u (8 * Z.of_nat repr_bytes) raw → try_from (A := A) raw = None → wf b →
  remaining_slice b = int_bytes repr_bytes e raw ++ rest →
  enum_deserialize_from e b = (SErr DeserFormatError, advanced repr_bytes b).
Proof.
  intros Hraw Hbad Hb Hr. unfold enum_deserialize_from.
  rewrite (ser_bind_ok _ _ _ _ _
    (deserialize_uint_ok _ repr_bytes_pos raw e Hraw b rest Hb Hr)).
  rewrite Hbad, length_int_bytes. done.
Qed.

Lemma enum_deserialize_safe e : safe (enum_deserialize_from e).
Proof.
  apply safe_bind; [apply deserialize_uint_safe|]. intros raw.
  destruct (try_from raw); auto using safe_ret, safe_fail.
Qed.

Definition enum_codec : codec A :=
  Codec A (λ _, True) (λ e a, int_bytes repr_bytes e (as_repr a))
    enum_serialize_to enum_deserialize_from
    (λ e a, int_bytes_is_byte repr_bytes e (as_repr a))
    (λ a e, serialize_uint_ok repr_bytes (as_repr a) e)
    enum_deserialize_ok enum_deserialize_safe.
End enum.

#[export] Instance enum_serializable `{FppEnum A} : Serializable A := enum_codec.

(** The decode of an enum declared by a table of its constants. *)
Fixpoint table_try_from {A} (tbl : list (Z * A)) (z : Z) : option A :=
  match tbl with
  | [] => None
  | (v, a) :: tbl' => if (z =? v)%Z then Some a else table_try_from tbl' z
  end.

Lemma table_try_from_sound {A} (repr : A → Z) tbl z a :
  Forall (λ p, repr p.2 = p.1) tbl → table_try_from tbl z = Some a → repr a = z.
Proof.
  induction 1 as [|[v x] tbl Hx _ IH]; simpl; [done|].
  destruct (Z.eqb_spec z v); naive_solver.
Qed.

(** * Nested buffers *)

Definition buffer_enc (e : Endianness) (bs : list Z) : list Z :=
  int_bytes 2 e (Z.of_nat (length bs)) ++ bs.

Lemma length_buffer_enc e bs : length (buffer_enc e bs) = 2 + length bs.
Proof. unfold buffer_enc. by rewrite length_app, length_int_bytes. Qed.

Lemma serialize_buffer_writes val e :
  wf val → (Z.of_nat (ser_loc val) ≤ 65535)%Z → writes (serialize_buffer val e) (buffer_enc e (as_slice val)).
Proof.
  intros Hv Hl b Hb Hc. rewrite length_buffer_enc, length_as_slice in Hc by done. unfold serialize_buffer.
  rewrite bool_decide_eq_false_2 by lia. rewrite wrap_small by (split; lia).
  assert (ser_loc b + length (int_bytes 2 e (Z.of_nat (ser_loc val))) ≤ capacity b) as Hc1.
  { rewrite length_int_bytes. lia. }
  rewrite (ser_bind_ok _ _ _ _ _ (serialize_uint_ok 2 _ e b Hb Hc1)).
  assert (ser_loc val ≤ length (data val)) as Hd by apply Hv.
  rewrite bool_decide_eq_true_2 by done. erewrite ser_bind_ok; [|done].
  unfold buffer_enc. rewrite length_as_slice by done.
  rewrite <-appended_app; [|rewrite length_int_bytes, length_as_slice by done; unfold capacity in *; lia].
  unfold ser_modify, appended. cbn. do 2 f_equal. rewrite length_as_slice by done. lia.
Qed.

Lemma deserialize_buffer_reads val e bs :
  length bs ≤ capacity val → (Z.of_nat (length bs) ≤ 65535)%Z →
  reads (deserialize_buffer val e) (buffer_enc e bs) (SerBuf (splice 0 bs (data val)) (length bs) 0).
Proof.
  intros Hc Hl. apply (reads_bind _ _ _ _ (Z.of_nat (length bs))).
  { apply (deserialize_uint_ok 2 ltac:(done)). split; lia. }
  cbv zeta. rewrite Nat2Z.id, bool_decide_eq_false_2 by lia.
  apply (reads_size_left (λ left, bool_decide (left < length bs))).
  { intros n Hn. rewrite bool_decide_eq_false_2; [done|lia]. }
  apply (reads_bind_last _ _ _ _ _ (reads_copy_out _ bs)). unfold set_buff_len, set_data, capacity in *. cbn.
  rewrite length_splice, bool_decide_eq_false_2 by (cbn; lia). apply reads_ret.
Qed.
