(* ===== verification/Time.v ===== *)
(** Time points and intervals, [crates/fprime-fw/src/time.rs].

    Additions on [u32] fields follow the build profile (checked or wrapping);
    the constructors' [fw_assert!]s are [Panic]s.  The [f64] conversions
    ([add_f64], [from_f64], [to_f64]) are not modelled. *)

From S2P Require Import Prelude Serial SerialFacts Codec.
Local Open Scope Z_scope.

(** * Data *)

Inductive TimeBase : Set := TbNone | TbProcTime | TbWorkstationTime | TbScTime | TbDontCare.
#[export] Instance TimeBase_eq_dec : EqDecision TimeBase.
Proof. solve_decision. Defined.

Definition TimeBase_repr (b : TimeBase) : Z :=
  match b with
  | TbNone => 0 | TbProcTime => 1 | TbWorkstationTime => 2 | TbScTime => 3
  | TbDontCare => 0xFFFF
  end.
Definition TimeBase_table : list (Z * TimeBase) :=
  [(0, TbNone); (1, TbProcTime); (2, TbWorkstationTime); (3, TbScTime); (0xFFFF, TbDontCare)].

#[export] Program Instance TimeBase_enum : FppEnum TimeBase := {|
  repr_bytes := 2; as_repr := TimeBase_repr; try_from := table_try_from TimeBase_table |}.
Next Obligation. done. Qed.
Next Obligation. intros []; done. Qed.
Next Obligation. intros []; done. Qed.
Next Obligation. intros z a. apply table_try_from_sound. repeat constructor. Qed.

Inductive TimeComparison : Set := Lt | Eq | Gt | Incomparable.
#[export] Instance TimeComparison_eq_dec : EqDecision TimeComparison.
Proof. solve_decision. Defined.

Record Time : Set := MkTime {
  time_base : TimeBase;
  time_context : Z;
  seconds : Z;
  useconds : Z;
}.
#[export] Instance Time_eq_dec : EqDecision Time.
Proof. solve_decision. Defined.

Record TimeInterval : Set := MkTimeInterval { ti_seconds : Z; ti_useconds : Z }.
#[export] Instance TimeInterval_eq_dec : EqDecision TimeInterval.
Proof. solve_decision. Defined.

(** * Operations *)

(** [Ord::cmp] on the pairs (seconds, useconds). *)
Definition pair_cmp (s1 u1 s2 u2 : Z) : TimeComparison :=
  match s1 ?= s2 with
  | Datatypes.Lt => Lt
  | Datatypes.Gt => Gt
  | Datatypes.Eq =>
      match u1 ?= u2 with
      | Datatypes.Lt => Lt | Datatypes.Gt => Gt | Datatypes.Eq => Eq
      end
  end.

Section ops.
Context `{BuildProfile}.

Definition Time_ZERO : Time := MkTime TbNone 0 0 0.

(** [Time::new]. *)
Definition Time_new (base : TimeBase) (ctx s us : Z) : outcome Time :=
  _ ← fw_assert (us <? 1000000); Ret (MkTime base ctx s us).

Definition from_seconds_useconds (s us : Z) : outcome Time := Time_new TbNone 0 s us.
Definition Time_zero (base : TimeBase) : outcome Time := Time_new base 0 0 0.

(** [Time::set] keeps the base and the context. *)
Definition Time_set (s us : Z) (t : Time) : outcome Time :=
  _ ← fw_assert (us <? 1000000); Ret (MkTime (time_base t) (time_context t) s us).
Definition set_time_base (base : TimeBase) (t : Time) : Time :=
  MkTime base (time_context t) (seconds t) (useconds t).
Definition set_time_context (ctx : Z) (t : Time) : Time :=
  MkTime (time_base t) ctx (seconds t) (useconds t).

(** [Time::compare]: the context plays no part. *)
Definition compare (t1 t2 : Time) : TimeComparison :=
  if bool_decide (time_base t1 ≠ time_base t2) then Incomparable
  else pair_cmp (seconds t1) (useconds t1) (seconds t2) (useconds t2).

(** The carry both additions perform: [useconds] is below 1_999_999. *)
Definition carry_add (s1 u1 s2 u2 : Z) : outcome (Z * Z) :=
  s ← add_w 32 s1 s2;
  us ← add_w 32 u1 u2;
  _ ← fw_assert (us <? 1999999);
  if 1000000 <=? us then
    s' ← add_w 32 s 1; us' ← sub_w 32 us 1000000; Ret (s', us')
  else Ret (s, us).

(** The borrow both subtractions perform. *)
Definition borrow_sub (s1 u1 s2 u2 : Z) : outcome (Z * Z) :=
  s ← sub_w 32 s1 s2;
  if u1 <? u2 then
    s' ← sub_w 32 s 1;
    u ← add_w 32 u1 1000000;
    u' ← sub_w 32 u u2;
    Ret (s', u')
  else u ← sub_w 32 u1 u2; Ret (s, u).

Definition merge_context (a b : Time) : Z :=
  if time_context a =? time_context b then time_context a else 0.

(** [Time::add]. *)
Definition Time_add (a b : Time) : outcome Time :=
  _ ← fw_assert (bool_decide (time_base a = time_base b));
  '(s, us) ← carry_add (seconds a) (useconds a) (seconds b) (useconds b);
  Time_new (time_base a) (merge_context a b) s us.

(** [Time::sub]. *)
Definition Time_sub (a b : Time) : outcome Time :=
  _ ← fw_assert (bool_decide (time_base a = time_base b));
  _ ← fw_assert (bool_decide (compare a b ≠ Lt));
  '(s, us) ← borrow_sub (seconds a) (useconds a) (seconds b) (useconds b);
  Time_new (time_base a) (merge_context a b) s us.

(** [Time::add_duration]. *)
Definition add_duration (s us : Z) (t : Time) : outcome Time :=
  '(s', us') ← carry_add (seconds t) (useconds t) s us;
  Time_set s' us' t.

(** [PartialEq] and [PartialOrd] of [Time]. *)
Definition time_eq (a b : Time) : bool := bool_decide (compare a b = Eq).
Definition partial_cmp (a b : Time) : option comparison :=
  match compare a b with
  | Lt => Some Datatypes.Lt | Eq => Some Datatypes.Eq | Gt => Some Datatypes.Gt
  | Incomparable => None
  end.
Definition time_lt (a b : Time) : bool :=
  match partial_cmp a b with Some Datatypes.Lt => true | _ => false end.
Definition time_le (a b : Time) : bool :=
  match partial_cmp a b with Some Datatypes.Lt | Some Datatypes.Eq => true | _ => false end.
Definition time_ge (a b : Time) : bool :=
  match partial_cmp a b with Some Datatypes.Gt | Some Datatypes.Eq => true | _ => false end.

(** [TimeInterval]. *)
Definition TimeInterval_new (s us : Z) : outcome TimeInterval :=
  _ ← fw_assert (us <? 1000000); Ret (MkTimeInterval s us).
Definition TimeInterval_set (s us : Z) (t : TimeInterval) : outcome TimeInterval :=
  _ ← fw_assert (us <? 1000000); Ret (MkTimeInterval s us).
Definition interval_compare (t1 t2 : TimeInterval) : TimeComparison :=
  pair_cmp (ti_seconds t1) (ti_useconds t1) (ti_seconds t2) (ti_useconds t2).
Definition interval_add (a b : TimeInterval) : outcome TimeInterval :=
  '(s, us) ← carry_add (ti_seconds a) (ti_useconds a) (ti_seconds b) (ti_useconds b);
  TimeInterval_new s us.
Definition interval_sub (t1 t2 : TimeInterval) : outcome TimeInterval :=
  let '(m, n) := if bool_decide (interval_compare t1 t2 = Lt) then (t2, t1) else (t1, t2) in
  '(s, us) ← borrow_sub (ti_seconds m) (ti_useconds m) (ti_seconds n) (ti_useconds n);
  TimeInterval_new s us.
Definition between (start stop : Time) : outcome TimeInterval :=
  a ← TimeInterval_new (seconds stop) (useconds stop);
  b ← TimeInterval_new (seconds start) (useconds start);
  interval_sub a b.
End ops.

(** [Serialize]/[Deserialize] for [Time]: 11 bytes. *)
Definition Time_serialize_to (t : Time) (e : Endianness) : SerM unit :=
  _ ← enum_serialize_to (time_base t) e;
  _ ← serialize_u8 (time_context t) e;
  _ ← serialize_u32 (seconds t) e;
  serialize_u32 (useconds t) e.

Definition Time_deserialize_from (e : Endianness) : SerM Time :=
  base ← enum_deserialize_from (A := TimeBase) e;
  ctx ← deserialize_u8 e;
  s ← deserialize_u32 e;
  us ← deserialize_u32 e;
  if 1000000 <=? us then ser_fail DeserFormatError
  else mret (MkTime base ctx s us).

(** [TimeInterval] is not validated on decode. *)
Definition TimeInterval_serialize_to (t : TimeInterval) (e : Endianness) : SerM unit :=
  _ ← serialize_u32 (ti_seconds t) e;
  serialize_u32 (ti_useconds t) e.
Definition TimeInterval_deserialize_from (e : Endianness) : SerM TimeInterval :=
  s ← deserialize_u32 e;
  us ← deserialize_u32 e;
  mret (MkTimeInterval s us).

(** * Invariant and meaning *)

Definition Time_wf (t : Time) : Prop :=
  is_u 8 (time_context t) ∧ is_u 32 (seconds t) ∧ 0 ≤ useconds t < 1000000.
Definition TimeInterval_wf (t : TimeInterval) : Prop :=
  is_u 32 (ti_seconds t) ∧ 0 ≤ ti_useconds t < 1000000.
#[export] Instance Time_wf_dec t : Decision (Time_wf t).
Proof. unfold Time_wf; apply _. Defined.
#[export] Instance TimeInterval_wf_dec t : Decision (TimeInterval_wf t).
Proof. unfold TimeInterval_wf; apply _. Defined.

(** Microseconds since the epoch of the base. *)
Definition total_us (t : Time) : Z := seconds t * 1000000 + useconds t.
Definition interval_us (t : TimeInterval) : Z := ti_seconds t * 1000000 + ti_useconds t.

(** * Lemmas *)

Definition cmp_of (c : comparison) : TimeComparison :=
  match c with Datatypes.Lt => Lt | Datatypes.Eq => Eq | Datatypes.Gt => Gt end.

Lemma pair_cmp_total s1 u1 s2 u2 :
  0 ≤ u1 < 1000000 → 0 ≤ u2 < 1000000 →
  pair_cmp s1 u1 s2 u2 = cmp_of (s1 * 1000000 + u1 ?= s2 * 1000000 + u2).
Proof.
  intros. unfold pair_cmp.
  destruct (Z.compare_spec s1 s2); [destruct (Z.compare_spec u1 u2)|..];
    (destruct (Z.compare_spec (s1 * 1000000 + u1) (s2 * 1000000 + u2)); simpl; (done || lia)).
Qed.

Section arith.
Context `{BuildProfile}.

(** Resolve an in-range [u32] operation. *)
Ltac w32 v := rewrite (overflowing_in 32 v) by (unfold is_u; lia); rewrite ?outcome_bind_ret.

Lemma carry_add_spec s1 u1 s2 u2 :
  is_u 32 s1 → is_u 32 s2 → 0 ≤ u1 < 1000000 → 0 ≤ u2 < 1000000 →
  (s1 * 1000000 + u1) + (s2 * 1000000 + u2) < 2 ^ 32 * 1000000 →
  ∃ s us, carry_add s1 u1 s2 u2 = Ret (s, us) ∧ is_u 32 s ∧ 0 ≤ us < 1000000 ∧
          s * 1000000 + us = (s1 * 1000000 + u1) + (s2 * 1000000 + u2).
Proof.
  intros [H1 H1'] [H2 H2'] Hu1 Hu2 Hfit. unfold carry_add, add_w, sub_w. w32 (s1 + s2). w32 (u1 + u2).
  rewrite fw_assert_true by (apply Z.ltb_lt; lia). rewrite outcome_bind_ret.
  destruct (Z.leb_spec 1000000 (u1 + u2)); cbv iota.
  - w32 (s1 + s2 + 1). w32 (u1 + u2 - 1000000). eexists _, _. split; [done|]. unfold is_u. lia.
  - eexists _, _. split; [done|]. unfold is_u. lia.
Qed.

Lemma borrow_sub_spec s1 u1 s2 u2 :
  is_u 32 s1 → is_u 32 s2 → 0 ≤ u1 < 1000000 → 0 ≤ u2 < 1000000 →
  s2 * 1000000 + u2 ≤ s1 * 1000000 + u1 →
  ∃ s us, borrow_sub s1 u1 s2 u2 = Ret (s, us) ∧ is_u 32 s ∧ 0 ≤ us < 1000000 ∧
          s * 1000000 + us = (s1 * 1000000 + u1) - (s2 * 1000000 + u2).
Proof.
  intros [H1 H1'] [H2 H2'] Hu1 Hu2 Hle. unfold borrow_sub, add_w, sub_w. w32 (s1 - s2).
  destruct (Z.ltb_spec u1 u2); cbv iota.
  - w32 (s1 - s2 - 1). w32 (u1 + 1000000). w32 (u1 + 1000000 - u2).
    eexists _, _. split; [done|]. unfold is_u. lia.
  - w32 (u1 - u2). eexists _, _. split; [done|]. unfold is_u. lia.
Qed.

Lemma Time_new_ok base ctx s us :
  us < 1000000 → Time_new base ctx s us = Ret (MkTime base ctx s us).
Proof. intros. unfold Time_new. by rewrite fw_assert_true by (by apply Z.ltb_lt). Qed.

Lemma compare_total a b :
  Time_wf a → Time_wf b → time_base a = time_base b →
  compare a b = cmp_of (total_us a ?= total_us b).
Proof.
  intros (_&_&Ha) (_&_&Hb) E. unfold compare. rewrite bool_decide_eq_false_2 by (intros Hne; by apply Hne).
  by apply pair_cmp_total.
Qed.

Lemma time_le_total a b :
  Time_wf a → Time_wf b → time_base a = time_base b →
  time_le a b = (total_us a <=? total_us b).
Proof.
  intros Ha Hb E. unfold time_le, partial_cmp. rewrite compare_total by done.
  unfold Z.leb. by destruct (total_us a ?= total_us b).
Qed.

Lemma time_lt_total a b :
  Time_wf a → Time_wf b → time_base a = time_base b →
  time_lt a b = (total_us a <? total_us b).
Proof.
  intros Ha Hb E. unfold time_lt, partial_cmp. rewrite compare_total by done.
  unfold Z.ltb. by destruct (total_us a ?= total_us b).
Qed.

Lemma time_ge_total a b :
  Time_wf a → Time_wf b → time_base a = time_base b →
  time_ge a b = (total_us b <=? total_us a).
Proof.
  intros Ha Hb E. unfold time_ge, partial_cmp. rewrite compare_total by done.
  destruct (Z.compare_spec (total_us a) (total_us b)), (Z.leb_spec (total_us b) (total_us a));
    simpl; (done || lia).
Qed.

Lemma merge_context_wf a b : Time_wf a → is_u 8 (merge_context a b).
Proof. intros [? _]. unfold merge_context. by destruct (_ =? _). Qed.

Lemma Time_add_spec a b :
  Time_wf a → Time_wf b → time_base a = time_base b →
  total_us a + total_us b < 2 ^ 32 * 1000000 →
  ∃ t, Time_add a b = Ret t ∧ Time_wf t ∧ time_base t = time_base a ∧
       time_context t = merge_context a b ∧ total_us t = total_us a + total_us b.
Proof.
  intros Ha Hb E Hfit. pose proof (merge_context_wf a b Ha) as Hm.
  destruct Ha as (_&?&?), Hb as (_&?&?).
  destruct (carry_add_spec (seconds a) (useconds a) (seconds b) (useconds b))
    as (s & us & Hc & Hs & Hus & Ht); auto.
  unfold Time_add. rewrite fw_assert_true by (by apply bool_decide_eq_true_2).
  rewrite outcome_bind_ret, Hc, outcome_bind_ret, Time_new_ok by lia.
  eexists. split; [done|]. unfold Time_wf, total_us. simpl. auto.
Qed.

Lemma Time_sub_spec a b :
  Time_wf a → Time_wf b → time_base a = time_base b → total_us b ≤ total_us a →
  ∃ t, Time_sub a b = Ret t ∧ Time_wf t ∧ time_base t = time_base a ∧
       time_context t = merge_context a b ∧ total_us t = total_us a - total_us b.
Proof.
  intros Ha Hb E Hle. pose proof (merge_context_wf a b Ha) as Hm.
  pose proof (compare_total a b Ha Hb E) as Hcmp.
  destruct Ha as (_&?&?), Hb as (_&?&?).
  destruct (borrow_sub_spec (seconds a) (useconds a) (seconds b) (useconds b))
    as (s & us & Hc & Hs & Hus & Ht); auto.
  unfold Time_sub. rewrite (fw_assert_true _ (bool_decide_eq_true_2 _ E)).
  rewrite outcome_bind_ret, fw_assert_true.
  2:{ apply bool_decide_eq_true_2. rewrite Hcmp.
      destruct (Z.compare_spec (total_us a) (total_us b)); simpl; (done || lia). }
  rewrite outcome_bind_ret, Hc, outcome_bind_ret, Time_new_ok by lia.
  eexists. split; [done|]. unfold Time_wf, total_us. simpl. auto.
Qed.
End arith.

(** * Codecs *)

Definition Time_enc (e : Endianness) (t : Time) : list Z :=
  int_bytes 2 e (TimeBase_repr (time_base t)) ++ int_bytes 1 e (time_context t) ++
  int_bytes 4 e (seconds t) ++ int_bytes 4 e (useconds t).

Lemma length_Time_enc e t : length (Time_enc e t) = 11%nat.
Proof. unfold Time_enc. rewrite !length_app. by autorewrite with bytes. Qed.

Lemma Time_enc_bytes e t : Forall is_byte (Time_enc e t).
Proof. unfold Time_enc. rewrite !Forall_app. auto with bytes. Qed.

Lemma Time_serialize_ok t e : writes (Time_serialize_to t e) (Time_enc e t).
Proof.
  ser_step (enum_codec (A := TimeBase)) (time_base t).
  ser_step u8_codec (time_context t).
  ser_step u32_codec (seconds t).
  ser_last u32_codec (useconds t).
Qed.

Lemma Time_deserialize_ok t e : Time_wf t → reads (Time_deserialize_from e) (Time_enc e t) t.
Proof.
  intros (Hc & Hs & Hu). assert (is_u 32 (useconds t)) as Hu' by (unfold is_u; lia).
  deser_step (enum_codec (A := TimeBase)) (time_base t); [done|].
  deser_step u8_codec (time_context t); [done|].
  deser_step u32_codec (seconds t); [done|].
  deser_last u32_codec (useconds t); [done|].
  rewrite (proj2 (Z.leb_gt _ _)) by lia. destruct t. apply reads_ret.
Qed.

Lemma Time_deserialize_safe e : safe (Time_deserialize_from e).
Proof.
  repeat (apply safe_bind; [apply enum_deserialize_safe || apply deserialize_uint_safe|intros ?]).
  apply safe_if; auto using safe_fail, safe_ret.
Qed.

Definition Time_codec : codec Time :=
  Codec Time Time_wf Time_enc Time_serialize_to Time_deserialize_from Time_enc_bytes
    Time_serialize_ok Time_deserialize_ok Time_deserialize_safe.
#[export] Instance Time_serializable : Serializable Time := Time_codec.

Definition TimeInterval_enc (e : Endianness) (t : TimeInterval) : list Z :=
  int_bytes 4 e (ti_seconds t) ++ int_bytes 4 e (ti_useconds t).

Lemma TimeInterval_serialize_ok t e : writes (TimeInterval_serialize_to t e) (TimeInterval_enc e t).
Proof. ser_step u32_codec (ti_seconds t). ser_last u32_codec (ti_useconds t). Qed.

Lemma TimeInterval_deserialize_ok t e :
  is_u 32 (ti_seconds t) ∧ is_u 32 (ti_useconds t) →
  reads (TimeInterval_deserialize_from e) (TimeInterval_enc e t) t.
Proof.
  intros [? ?]. deser_step u32_codec (ti_seconds t); [done|].
  deser_last u32_codec (ti_useconds t); [done|]. destruct t. apply reads_ret.
Qed.

(** * Properties *)

(** [Time::compare] is the numeric order of the time points in
    microseconds when the bases agree (so comparing the pairs field by field
    is right), and [Incomparable] exactly when they differ, whatever the
    contexts. *)
Theorem compare_is_order (a b : Time) (Ha : Time_wf a) (Hb : Time_wf b) :
  compare a b =
    if decide (time_base a = time_base b)
    then cmp_of (total_us a ?= total_us b) else Incomparable.
Proof.
  case_decide; [by apply compare_total|]. unfold compare.
  by rewrite bool_decide_eq_true_2.
Qed.

Lemma compare_is_order_witness :
  compare (MkTime TbScTime 7 1 999999) (MkTime TbScTime 9 2 0) = Lt.
Proof.
  rewrite (compare_is_order (MkTime TbScTime 7 1 999999) (MkTime TbScTime 9 2 0));
    [reflexivity|vm_compute; intuition congruence..].
Defined.

(** C38. [Time::add] on equal bases: when the exact sum fits 32-bit seconds
    the result is that sum to the microsecond, with the microsecond field
    normalised below 1_000_000, the base kept and the context kept when the
    operands share it (else 0); on different bases it panics.  This holds
    with and without overflow checks. *)
Theorem add_exact `{BuildProfile} (a b : Time) (Ha : Time_wf a) (Hb : Time_wf b) :
  (time_base a ≠ time_base b → Time_add a b = Panic) ∧
  (time_base a = time_base b → total_us a + total_us b < 2 ^ 32 * 1000000 →
   ∃ t, Time_add a b = Ret t ∧ Time_wf t ∧ time_base t = time_base a ∧
        time_context t = (if time_context a =? time_context b then time_context a else 0) ∧
        total_us t = total_us a + total_us b).
Proof.
  split.
  - intros Hne. unfold Time_add. by rewrite bool_decide_eq_false_2.
  - intros. by apply Time_add_spec.
Qed.

Lemma add_exact_witness :
  let P := true : BuildProfile in
  ∃ t, Time_add (MkTime TbProcTime 3 5 700000) (MkTime TbProcTime 3 2 400000) = Ret t
       ∧ total_us t = 8100000.
Proof.
  intros P. destruct (proj2 (add_exact (MkTime TbProcTime 3 5 700000) (MkTime TbProcTime 3 2 400000)
    ltac:(vm_compute; intuition congruence) ltac:(vm_compute; intuition congruence)))
    as (t & Ht & _ & _ & _ & Hs); [reflexivity|reflexivity|].
  exists t. split; [exact Ht|exact Hs].
Defined.

(** [Time::sub] inverts [Time::add]: for well-formed times on one base
    whose sum fits, adding [b] and subtracting it again gives back the
    seconds and microseconds of [a] on the same base. *)
Theorem sub_add_roundtrip `{BuildProfile} (a b : Time) (Ha : Time_wf a) (Hb : Time_wf b)
    (Hbase : time_base a = time_base b)
    (Hfit : total_us a + total_us b < 2 ^ 32 * 1000000) :
  ∃ t r, Time_add a b = Ret t ∧ Time_sub t b = Ret r ∧
         time_base r = time_base a ∧ seconds r = seconds a ∧ useconds r = useconds a.
Proof.
  destruct (Time_add_spec a b Ha Hb Hbase Hfit) as (t & Ht & Hw & Htb & _ & Htot).
  destruct (Time_sub_spec t b Hw Hb) as (r & Hr & Hwr & Hrb & _ & Hrt); [congruence| |].
  - destruct Ha as (_&[]&?). unfold total_us in *. lia.
  - exists t, r. split_and!; auto; [congruence|..];
      destruct Ha as (_&[]&?), Hwr as (_&[]&?); unfold total_us in *; lia.
Qed.

Lemma sub_add_roundtrip_witness :
  let P := false : BuildProfile in
  ∃ t r, Time_add (MkTime TbScTime 0 10 999999) (MkTime TbScTime 1 3 1) = Ret t ∧
         Time_sub t (MkTime TbScTime 1 3 1) = Ret r ∧
         time_base r = TbScTime ∧ seconds r = 10 ∧ useconds r = 999999.
Proof.
  intros P. apply (sub_add_roundtrip (MkTime TbScTime 0 10 999999) (MkTime TbScTime 1 3 1));
    vm_compute; intuition congruence.
Defined.

(** The interval arithmetic in microseconds. *)
Lemma borrow_interval `{BuildProfile} x y :
  TimeInterval_wf x → TimeInterval_wf y → interval_us y ≤ interval_us x →
  ∃ r, ('(s, us) ← borrow_sub (ti_seconds x) (ti_useconds x) (ti_seconds y) (ti_useconds y);
        TimeInterval_new s us) = Ret r ∧ TimeInterval_wf r ∧
       interval_us r = interval_us x - interval_us y.
Proof.
  intros (Hxs & Hxu) (Hys & Hyu) Hle.
  destruct (borrow_sub_spec (ti_seconds x) (ti_useconds x) (ti_seconds y) (ti_useconds y))
    as (s & us & -> & ? & ? & ?); auto.
  rewrite outcome_bind_ret. unfold TimeInterval_new.
  rewrite fw_assert_true by (apply Z.ltb_lt; lia).
  by eexists.
Qed.

Lemma interval_sub_spec `{BuildProfile} x y :
  TimeInterval_wf x → TimeInterval_wf y →
  ∃ r, interval_sub x y = Ret r ∧ TimeInterval_wf r ∧
       interval_us r = Z.abs (interval_us x - interval_us y).
Proof.
  intros Hx Hy. unfold interval_sub, interval_compare.
  rewrite pair_cmp_total by (apply Hx || apply Hy).
  fold (interval_us x) (interval_us y).
  pose proof (borrow_interval x y Hx Hy) as Hxy. pose proof (borrow_interval y x Hy Hx) as Hyx.
  destruct (Z.compare_spec (interval_us x) (interval_us y)) as [E|E|E]; simpl;
    [destruct Hxy as (r & Hr & Hw & Hu)|destruct Hyx as (r & Hr & Hw & Hu)
    |destruct Hxy as (r & Hr & Hw & Hu)]; try lia;
    exists r; (split_and!; [done|done|lia]).
Qed.

Lemma interval_us_inj x y :
  TimeInterval_wf x → TimeInterval_wf y → interval_us x = interval_us y → x = y.
Proof.
  destruct x as [s u], y as [s' u']. unfold TimeInterval_wf, interval_us, is_u. simpl.
  intros. f_equal; lia.
Qed.

(** [TimeInterval::sub] is the absolute difference and therefore
    commutative: for well-formed intervals it never panics, in either order,
    and both orders give the same normalised interval. *)
Theorem interval_sub_abs `{BuildProfile} (x y : TimeInterval)
    (Hx : TimeInterval_wf x) (Hy : TimeInterval_wf y) :
  ∃ r, interval_sub x y = Ret r ∧ interval_sub y x = Ret r ∧ TimeInterval_wf r ∧
       interval_us r = Z.abs (interval_us x - interval_us y).
Proof.
  destruct (interval_sub_spec x y) as (r & Hr & Hw & Ht); auto.
  destruct (interval_sub_spec y x) as (r' & Hr' & Hw' & Ht'); auto.
  assert (r = r') as <- by (apply interval_us_inj; auto; lia). by exists r.
Qed.

Lemma interval_sub_abs_witness :
  let P := true : BuildProfile in
  ∃ r, interval_sub (MkTimeInterval 1 5) (MkTimeInterval 3 2) = Ret r ∧
       interval_sub (MkTimeInterval 3 2) (MkTimeInterval 1 5) = Ret r ∧ interval_us r = 1999997.
Proof.
  intros P. destruct (interval_sub_abs (MkTimeInterval 1 5) (MkTimeInterval 3 2))
    as (r & H1 & H2 & _ & H3); [vm_compute; intuition congruence..|].
  exists r. split; [exact H1|]. split; [exact H2|exact H3].
Defined.
