(* ===== verification/CircularBuffer.v ===== *)
(** The byte ring [Types::CircularBuffer],
    [crates/fprime-utils/src/types/circular_buffer.rs], and its refinement of
    a bounded byte sequence. *)

From S2P Require Import Prelude Serial.

(** * Data and operations *)

Record CircularBuffer : Set := MkRing {
  store : list Z;
  head_idx : nat;
  allocated_size : nat;
  high_water_mark : nat;
}.

Section ring.
Context `{BuildProfile}.

(** [CircularBuffer::new(size)]. *)
Definition ring_new (size : nat) : outcome CircularBuffer :=
  _ ← fw_assert (bool_decide (0 < size));
  _ ← vec_alloc size 1;
  Ret (MkRing (replicate size 0%Z) 0 0 0).

(** [advance_idx]: wrap-advance an index into the store. *)
Definition advance_idx (r : CircularBuffer) (idx amount : nat) : outcome nat :=
  _ ← fw_assert (bool_decide (idx < length (store r)));
  sum ← usize_add idx amount;
  Ret (sum mod length (store r)).

Definition get_allocated_size (r : CircularBuffer) : nat := allocated_size r.
Definition get_capacity (r : CircularBuffer) : nat := length (store r).
Definition get_high_water_mark (r : CircularBuffer) : nat := high_water_mark r.
Definition get_free_size (r : CircularBuffer) : outcome nat :=
  _ ← fw_assert (bool_decide (allocated_size r ≤ length (store r)));
  Ret (length (store r) - allocated_size r).
Definition clear_high_water_mark (r : CircularBuffer) : CircularBuffer :=
  MkRing (store r) (head_idx r) (allocated_size r) 0.

(** [serialize(buffer)]: append at the back in up to two linear copies. *)
Definition ring_serialize (buffer : list Z) (r : CircularBuffer)
    : outcome (SerializeStatus * CircularBuffer) :=
  free ← get_free_size r;
  if bool_decide (free < length buffer) then Ret (NoRoomLeft, r)
  else
    start ← advance_idx r (head_idx r) (allocated_size r);
    let first := length buffer `min` (length (store r) - start) in
    let store1 := splice start (take first buffer) (store r) in
    let store2 := splice 0 (drop first buffer) store1 in
    let alloc := allocated_size r + length buffer in
    _ ← fw_assert (bool_decide (alloc ≤ length (store r)));
    Ret (StOk, MkRing store2 (head_idx r) alloc (high_water_mark r `max` alloc)).

(** [peek_u8(value, offset)]. *)
Definition peek_u8 (offset : nat) (r : CircularBuffer) : outcome (SerializeStatus + Z) :=
  last ← usize_add offset 1;
  if bool_decide (allocated_size r < last) then Ret (inl DeserBufferEmpty)
  else
    idx ← advance_idx r (head_idx r) offset;
    match store r !! idx with Some x => Ret (inr x) | None => Panic end.

(** The loop of [peek_u32_be]: [n] times [(v << 8) | store[idx]]. *)
Fixpoint peek_be_loop (n : nat) (v : Z) (idx : nat) (r : CircularBuffer) : outcome Z :=
  match n with
  | O => Ret v
  | S n' =>
      match store r !! idx with
      | None => Panic
      | Some x =>
          idx' ← advance_idx r idx 1;
          peek_be_loop n' (Z.lor (Z.shiftl v 8) x) idx' r
      end
  end.

(** [peek_u32_be(value, offset)]. *)
Definition peek_u32_be (offset : nat) (r : CircularBuffer) : outcome (SerializeStatus + Z) :=
  last ← usize_add offset 4;
  if bool_decide (allocated_size r < last) then Ret (inl DeserBufferEmpty)
  else
    idx ← advance_idx r (head_idx r) offset;
    v ← peek_be_loop 4 0 idx r; Ret (inr v).

(** [peek_bytes(dest, offset)] for a destination of [n] bytes. *)
Definition peek_bytes (n offset : nat) (r : CircularBuffer) : outcome (SerializeStatus + list Z) :=
  last ← usize_add n offset;
  if bool_decide (allocated_size r < last) then Ret (inl DeserBufferEmpty)
  else
    start ← advance_idx r (head_idx r) offset;
    let first := n `min` (length (store r) - start) in
    Ret (inr (slice start first (store r) ++ slice 0 (n - first) (store r))).

(** [rotate(amount)] deletes from the front, [trim(amount)] from the back. *)
Definition rotate (amount : nat) (r : CircularBuffer) : outcome (SerializeStatus * CircularBuffer) :=
  if bool_decide (allocated_size r < amount) then Ret (DeserBufferEmpty, r)
  else
    h ← advance_idx r (head_idx r) amount;
    Ret (StOk, MkRing (store r) h (allocated_size r - amount) (high_water_mark r)).

Definition trim (amount : nat) (r : CircularBuffer) : SerializeStatus * CircularBuffer :=
  if bool_decide (allocated_size r < amount) then (DeserBufferEmpty, r)
  else (StOk, MkRing (store r) (head_idx r) (allocated_size r - amount) (high_water_mark r)).

End ring.

(** * Invariant and abstraction *)

Definition ring_wf (r : CircularBuffer) : Prop :=
  0 < length (store r) ∧ head_idx r < length (store r) ∧
  allocated_size r ≤ length (store r) ∧ Forall is_byte (store r) ∧ (Z.of_nat (length (store r)) ≤ ISIZE_MAX)%Z.
#[export] Instance ring_wf_dec r : Decision (ring_wf r).
Proof. unfold ring_wf; apply _. Defined.

(** Physical index of logical byte [i]. *)
Definition phys (r : CircularBuffer) (i : nat) : nat := (head_idx r + i) mod length (store r).

(** The logical content, front first. *)
Definition contents (r : CircularBuffer) : list Z :=
  (λ i, store r !!! phys r i) <$> seq 0 (allocated_size r).

(** * Lemmas *)

Lemma length_contents r : length (contents r) = allocated_size r.
Proof. unfold contents. by rewrite length_fmap, length_seq. Qed.

Lemma phys_lt r i : ring_wf r → phys r i < length (store r).
Proof. intros (? & _). apply Nat.mod_upper_bound. lia. Qed.

Lemma contents_lookup r i :
  ring_wf r → i < allocated_size r → contents r !! i = store r !! phys r i.
Proof.
  intros Hr Hi. unfold contents. rewrite list_lookup_fmap, lookup_seq_lt by done. simpl.
  by rewrite list_lookup_lookup_total_lt by (by apply phys_lt).
Qed.

Lemma contents_bytes r : ring_wf r → Forall is_byte (contents r).
Proof.
  intros Hr. apply Forall_lookup. intros i x Hx.
  pose proof (lookup_lt_Some _ _ _ Hx) as Hi. rewrite length_contents in Hi.
  rewrite contents_lookup in Hx by done.
  destruct Hr as (_ & _ & _ & Hb & _). by eapply Forall_lookup_1.
Qed.

Section facts.
Context `{BuildProfile}.

(** An index of a ring moved by at most the size of its store. *)
Lemma advance_idx_ok r idx amount :
  ring_wf r → idx < length (store r) → amount ≤ length (store r) → advance_idx r idx amount = Ret ((idx + amount) mod length (store r)).
Proof.
  intros (_ & _ & _ & _ & Hm) Hi Ha. unfold advance_idx. rewrite bool_decide_eq_true_2 by done. unfold ISIZE_MAX in Hm.
  rewrite usize_add_ok by (unfold usize_ok; lia). done.
Qed.

Lemma ring_offset_ok r n : ring_wf r → n ≤ allocated_size r → usize_ok n.
Proof. intros (_ & _ & Ha & _ & Hm) Hn. unfold usize_ok, ISIZE_MAX in *. lia. Qed.

Lemma get_free_size_ok r : ring_wf r → get_free_size r = Ret (length (store r) - allocated_size r).
Proof. intros (_ & _ & ? & _). unfold get_free_size. by rewrite bool_decide_eq_true_2. Qed.

(** The slice of the content [peek_bytes] copies. *)
Lemma contents_slice r n off :
  ring_wf r → n + off ≤ allocated_size r →
  let start := phys r off in
  let first := n `min` (length (store r) - start) in
  slice start first (store r) ++ slice 0 (n - first) (store r) = slice off n (contents r).
Proof.
  intros Hr Hn start first. pose proof (phys_lt r off Hr) as Hs. fold start in Hs.
  pose proof Hr as (H0 & Hh & Ha & _).
  assert (length (slice start first (store r)) = first) as Hl1 by (rewrite length_slice; lia).
  assert (length (slice 0 (n - first) (store r)) = n - first) as Hl2 by (rewrite length_slice; lia).
  apply list_eq_len.
  - rewrite length_app, Hl1, Hl2, length_slice by (rewrite length_contents; lia). lia.
  - intros i x Hi Hx. rewrite length_app, Hl1, Hl2 in Hi.
    rewrite slice_lookup, contents_lookup by (done || lia).
    rewrite <- Hx. clear Hx x. unfold phys in *.
    assert (start = if decide (head_idx r + off < length (store r)) then head_idx r + off
                    else head_idx r + off - length (store r)) as Estart
      by (apply mod_once; lia).
    rewrite mod_once by lia. destruct (decide (i < first)).
    + rewrite lookup_app_l, slice_lookup by lia. f_equal.
      repeat case_decide; lia.
    + rewrite lookup_app_r, Hl1, slice_lookup by lia. f_equal.
      repeat case_decide; lia.
Qed.

Lemma peek_bytes_ok r n off :
  ring_wf r → n + off ≤ allocated_size r →
  peek_bytes n off r = Ret (inr (slice off n (contents r))).
Proof.
  intros Hr Hn. pose proof Hr as (_ & Hh & Ha & _). unfold peek_bytes.
  rewrite usize_add_ok, outcome_bind_ret by (by eapply ring_offset_ok). rewrite bool_decide_eq_false_2 by lia.
  rewrite advance_idx_ok by (done || lia). rewrite outcome_bind_ret.
  by rewrite <- (contents_slice r n off Hr Hn).
Qed.

Lemma peek_u8_ok r off :
  ring_wf r → off < allocated_size r →
  ∃ x, contents r !! off = Some x ∧ peek_u8 off r = Ret (inr x).
Proof.
  intros Hr Ho. pose proof Hr as (_ & Hh & Ha & _). unfold peek_u8.
  rewrite usize_add_ok, outcome_bind_ret by (eapply ring_offset_ok; [done|lia]). rewrite bool_decide_eq_false_2 by lia.
  rewrite advance_idx_ok by (done || lia). rewrite outcome_bind_ret.
  destruct (lookup_lt_is_Some_2 (contents r) off) as [x Hx]; [by rewrite length_contents|].
  exists x. split; [done|]. rewrite contents_lookup in Hx by done. unfold phys in Hx. by rewrite Hx.
Qed.

Lemma peek_be_loop_ok r n v off :
  ring_wf r → off + n ≤ allocated_size r →
  peek_be_loop n v (phys r off) r =
    Ret (foldl (λ acc b, acc * 256 + b)%Z v (slice off n (contents r))).
Proof.
  intros Hr. revert v off. induction n as [|n IH]; intros v off Hn; [done|]. cbn [peek_be_loop].
  destruct (lookup_lt_is_Some_2 (contents r) off) as [x Hx]; [rewrite length_contents; lia|].
  assert (is_byte x) as Hbx by (eapply Forall_lookup_1; [by apply contents_bytes|done]).
  pose proof Hx as Hx'. rewrite contents_lookup in Hx by (done || lia). rewrite Hx.
  rewrite advance_idx_ok by (try apply phys_lt; done || (destruct Hr; lia)). rewrite outcome_bind_ret.
  replace ((phys r off + 1) mod length (store r)) with (phys r (off + 1)).
  2:{ unfold phys. rewrite Nat.Div0.add_mod_idemp_l. f_equal. lia. }
  rewrite IH by lia. rewrite shift_or_byte by done. f_equal.
  replace (S n) with (1 + n) by lia. rewrite slice_app, foldl_app. f_equal.
  unfold slice. erewrite drop_S by done. done.
Qed.

Lemma peek_u32_be_ok r off :
  ring_wf r → off + 4 ≤ allocated_size r →
  peek_u32_be off r = Ret (inr (be_value (slice off 4 (contents r)))).
Proof.
  intros Hr Ho. pose proof Hr as (_ & Hh & Ha & _). unfold peek_u32_be.
  rewrite usize_add_ok, outcome_bind_ret by (by eapply ring_offset_ok). rewrite bool_decide_eq_false_2 by lia.
  rewrite advance_idx_ok by (done || lia). rewrite outcome_bind_ret.
  fold (phys r off). by rewrite peek_be_loop_ok.
Qed.

(** The two linear copies of [serialize], index by index. *)
Definition wrap_write (start : nat) (buf l : list Z) : list Z :=
  let first := length buf `min` (length l - start) in
  splice 0 (drop first buf) (splice start (take first buf) l).

Section wrap_write.
Context (start : nat) (buf l : list Z).
Context (Hs : start < length l) (Hlen : length buf ≤ length l).
Let first := length buf `min` (length l - start).

Lemma length_first : length (take first buf) = first ∧ length (drop first buf) = length buf - first.
Proof. rewrite length_take, length_drop. unfold first. lia. Qed.

Lemma length_wrap_write : length (wrap_write start buf l) = length l.
Proof.
  destruct length_first as [H1 H2]. unfold wrap_write. fold first.
  assert (length (splice start (take first buf) l) = length l) as H3
    by (apply length_splice; unfold first in *; lia).
  rewrite length_splice; rewrite H3; [done|]. unfold first in *. lia.
Qed.

Lemma wrap_write_lookup j :
  wrap_write start buf l !! j =
    if decide (j < length buf - first) then buf !! (first + j)
    else if decide (start ≤ j < start + first) then buf !! (j - start) else l !! j.
Proof.
  destruct length_first as [H1 H2]. unfold wrap_write. fold first.
  assert (length (splice start (take first buf) l) = length l) as H3
    by (apply length_splice; unfold first in *; lia).
  rewrite lookup_splice by (rewrite H3; unfold first in *; lia). rewrite H2.
  destruct (decide (j < length buf - first)).
  - rewrite decide_True by lia. by rewrite lookup_drop, Nat.sub_0_r.
  - rewrite decide_False by lia. rewrite lookup_splice by (unfold first in *; lia). rewrite H1.
    case_decide; [|done]. by rewrite lookup_take_lt by lia.
Qed.
End wrap_write.

Lemma wrap_write_bytes start buf l :
  Forall is_byte l → Forall is_byte buf → Forall is_byte (wrap_write start buf l).
Proof. unfold wrap_write. auto with bytes. Qed.

(** Writing at the back of a ring appends to its content. *)
Lemma contents_wrap_write r buf hwm :
  ring_wf r → Forall is_byte buf → allocated_size r + length buf ≤ length (store r) →
  let r' := MkRing (wrap_write (phys r (allocated_size r)) buf (store r)) (head_idx r)
                   (allocated_size r + length buf) hwm in
  ring_wf r' ∧ contents r' = contents r ++ buf.
Proof.
  intros Hr Hbuf Hfit r'. pose proof Hr as (H0 & Hh & Ha & Hb & Hmax).
  pose proof (phys_lt r (allocated_size r) Hr) as Hs.
  assert (length (store r') = length (store r)) as Hl by (apply length_wrap_write; lia).
  assert (ring_wf r') as Hr'.
  { unfold ring_wf. rewrite Hl. split_and!; auto. by apply wrap_write_bytes. }
  split; [done|]. apply list_eq_len; [by rewrite length_app, !length_contents|].
  intros i x Hi Hx. rewrite length_contents in Hi. simpl in Hi.
  rewrite contents_lookup in Hx by done. unfold phys in Hx. rewrite Hl in Hx. simpl in Hx.
  rewrite mod_once in Hx by lia. rewrite <- Hx. clear Hx x.
  rewrite wrap_write_lookup by lia.
  assert (phys r (allocated_size r) = if decide (head_idx r + allocated_size r < length (store r))
     then head_idx r + allocated_size r else head_idx r + allocated_size r - length (store r))
    as Es by (apply mod_once; lia).
  destruct (decide (i < allocated_size r)).
  - rewrite lookup_app_l by (by rewrite length_contents). rewrite contents_lookup by done.
    rewrite !(decide_False (P := _ < length buf - _)) by (repeat case_decide; lia).
    rewrite decide_False by (repeat case_decide; lia).
    unfold phys. by rewrite mod_once by lia.
  - rewrite lookup_app_r by (rewrite length_contents; lia). rewrite length_contents.
    repeat case_decide; f_equal; lia.
Qed.

Lemma ring_serialize_ok r buf :
  ring_wf r → Forall is_byte buf → allocated_size r + length buf ≤ length (store r) →
  ∃ r', ring_serialize buf r = Ret (StOk, r') ∧ ring_wf r' ∧
        contents r' = contents r ++ buf ∧ length (store r') = length (store r) ∧
        high_water_mark r' = high_water_mark r `max` (allocated_size r + length buf).
Proof.
  intros Hr Hbuf Hfit. unfold ring_serialize.
  rewrite get_free_size_ok, outcome_bind_ret by done. rewrite bool_decide_eq_false_2 by lia.
  pose proof Hr as (_ & Hh & Ha & _). rewrite advance_idx_ok by (done || lia). rewrite outcome_bind_ret. cbv zeta.
  rewrite fw_assert_true by (by apply bool_decide_eq_true_2). rewrite outcome_bind_ret.
  destruct (contents_wrap_write r buf (high_water_mark r `max` (allocated_size r + length buf))
    Hr Hbuf Hfit) as [Hw Hc].
  eexists. split; [done|]. split; [done|]. split; [done|]. split; [|done].
  apply length_wrap_write; [by apply (phys_lt r (allocated_size r))|lia].
Qed.

Lemma ring_serialize_full r buf :
  ring_wf r → length (store r) < allocated_size r + length buf →
  ring_serialize buf r = Ret (NoRoomLeft, r).
Proof.
  intros Hr Hfull. unfold ring_serialize. rewrite get_free_size_ok, outcome_bind_ret by done.
  rewrite bool_decide_eq_true_2; [done|]. destruct Hr as (_&_&?&_). lia.
Qed.

Lemma rotate_ok r n :
  ring_wf r → n ≤ allocated_size r →
  ∃ r', rotate n r = Ret (StOk, r') ∧ ring_wf r' ∧ contents r' = drop n (contents r) ∧
        store r' = store r ∧ allocated_size r' = allocated_size r - n ∧
        high_water_mark r' = high_water_mark r.
Proof.
  intros Hr Hn. unfold rotate. rewrite bool_decide_eq_false_2 by lia.
  pose proof Hr as (H0 & Hh & Ha & Hb & Hmax). rewrite advance_idx_ok by (done || lia). rewrite outcome_bind_ret.
  set (r' := MkRing _ _ _ _).
  assert (ring_wf r') as Hr'.
  { unfold ring_wf; simpl. split_and!; auto with lia. by apply (phys_lt r n). }
  exists r'. split_and!; auto. apply list_eq_len.
  - by rewrite length_drop, !length_contents.
  - intros i x Hi Hx. rewrite length_contents in Hi. simpl in Hi.
    rewrite contents_lookup in Hx by done. rewrite lookup_drop, contents_lookup by (done || lia).
    rewrite <- Hx. unfold phys. simpl. rewrite Nat.Div0.add_mod_idemp_l. do 2 f_equal. lia.
Qed.

Lemma trim_ok r n :
  ring_wf r → n ≤ allocated_size r →
  ∃ r', trim n r = (StOk, r') ∧ ring_wf r' ∧
        contents r' = take (allocated_size r - n) (contents r) ∧ store r' = store r ∧
        high_water_mark r' = high_water_mark r.
Proof.
  intros Hr Hn. unfold trim. rewrite bool_decide_eq_false_2 by lia.
  pose proof Hr as (H0 & Hh & Ha & Hb & Hmax). set (r' := MkRing _ _ _ _).
  assert (ring_wf r') as Hr' by (unfold ring_wf; simpl; split_and!; auto with lia).
  exists r'. split_and!; auto. apply list_eq_len.
  - rewrite length_take, !length_contents. simpl. lia.
  - intros i x Hi Hx. rewrite length_contents in Hi. simpl in Hi.
    rewrite contents_lookup in Hx by done.
    rewrite lookup_take_lt, contents_lookup by (done || lia). done.
Qed.

(** * Refinement of a bounded byte sequence *)

Inductive ring_op : Set :=
| RSerialize (buf : list Z)
| RPeekU8 (off : nat)
| RPeekU32 (off : nat)
| RPeekBytes (n off : nat)
| RRotate (n : nat)
| RTrim (n : nat)
| RClearHwm.

Inductive ring_out : Set :=
| ROStatus (s : SerializeStatus)
| ROValue (v : Z)
| ROBytes (bs : list Z).

Definition of_value (r : SerializeStatus + Z) : ring_out :=
  match r with inl s => ROStatus s | inr v => ROValue v end.
Definition of_bytes (r : SerializeStatus + list Z) : ring_out :=
  match r with inl s => ROStatus s | inr bs => ROBytes bs end.

Definition run_ring_op (o : ring_op) (r : CircularBuffer) : outcome (ring_out * CircularBuffer) :=
  match o with
  | RSerialize buf => '(s, r') ← ring_serialize buf r; Ret (ROStatus s, r')
  | RPeekU8 off => v ← peek_u8 off r; Ret (of_value v, r)
  | RPeekU32 off => v ← peek_u32_be off r; Ret (of_value v, r)
  | RPeekBytes n off => bs ← peek_bytes n off r; Ret (of_bytes bs, r)
  | RRotate n => '(s, r') ← rotate n r; Ret (ROStatus s, r')
  | RTrim n => let '(s, r') := trim n r in Ret (ROStatus s, r')
  | RClearHwm => Ret (ROStatus StOk, clear_high_water_mark r)
  end.

(** The specification: a byte sequence of at most [cap] bytes. *)
Definition spec_ring_op (cap : nat) (o : ring_op) (l : list Z) : ring_out * list Z :=
  match o with
  | RSerialize buf =>
      if decide (length l + length buf ≤ cap) then (ROStatus StOk, l ++ buf)
      else (ROStatus NoRoomLeft, l)
  | RPeekU8 off =>
      (match l !! off with Some x => ROValue x | None => ROStatus DeserBufferEmpty end, l)
  | RPeekU32 off =>
      (if decide (off + 4 ≤ length l) then ROValue (be_value (slice off 4 l))
       else ROStatus DeserBufferEmpty, l)
  | RPeekBytes n off =>
      (if decide (n + off ≤ length l) then ROBytes (slice off n l)
       else ROStatus DeserBufferEmpty, l)
  | RRotate n =>
      if decide (n ≤ length l) then (ROStatus StOk, drop n l) else (ROStatus DeserBufferEmpty, l)
  | RTrim n =>
      if decide (n ≤ length l) then (ROStatus StOk, take (length l - n) l)
      else (ROStatus DeserBufferEmpty, l)
  | RClearHwm => (ROStatus StOk, l)
  end.

Fixpoint run_ring (ops : list ring_op) (r : CircularBuffer) : outcome (list ring_out * CircularBuffer) :=
  match ops with
  | [] => Ret ([], r)
  | o :: ops' =>
      '(out, r') ← run_ring_op o r;
      '(outs, r'') ← run_ring ops' r';
      Ret (out :: outs, r'')
  end.

Fixpoint spec_ring (cap : nat) (ops : list ring_op) (l : list Z) : list ring_out * list Z :=
  match ops with
  | [] => ([], l)
  | o :: ops' =>
      let '(out, l') := spec_ring_op cap o l in
      let '(outs, l'') := spec_ring cap ops' l' in
      (out :: outs, l'')
  end.

(** Bytes, and offsets whose sum with the number of bytes is a [usize]. *)
Definition ring_op_ok (o : ring_op) : Prop :=
  match o with
  | RSerialize buf => Forall is_byte buf
  | RPeekU8 off => usize_ok (off + 1)
  | RPeekU32 off => usize_ok (off + 4)
  | RPeekBytes n off => usize_ok (n + off)
  | _ => True
  end.
#[export] Instance ring_op_ok_dec o : Decision (ring_op_ok o).
Proof. destruct o; simpl; apply _. Defined.

(** One call simulates one specification step. *)
Lemma run_ring_op_refines r o :
  ring_wf r → ring_op_ok o →
  ∃ out r', run_ring_op o r = Ret (out, r') ∧ ring_wf r' ∧
            get_capacity r' = get_capacity r ∧
            spec_ring_op (get_capacity r) o (contents r) = (out, contents r').
Proof.
  intros Hr Ho. unfold get_capacity.
  destruct o as [buf|off|off|n off|n|n|]; cbn [run_ring_op spec_ring_op]; rewrite ?length_contents.
  - case_decide.
    + destruct (ring_serialize_ok r buf) as (r' & -> & ? & <- & ? & _); auto.
      by eexists _, _.
    + rewrite ring_serialize_full by (auto || lia). by eexists _, _.
  - destruct (decide (off < allocated_size r)).
    + destruct (peek_u8_ok r off) as (x & -> & ->); auto. by eexists _, _.
    + unfold peek_u8. rewrite usize_add_ok, outcome_bind_ret by done. rewrite bool_decide_eq_true_2 by lia.
      rewrite lookup_ge_None_2 by (rewrite length_contents; lia). by eexists _, _.
  - case_decide; [rewrite peek_u32_be_ok by done; by eexists _, _|].
    unfold peek_u32_be. rewrite usize_add_ok, outcome_bind_ret by done. rewrite bool_decide_eq_true_2 by lia. by eexists _, _.
  - case_decide; [rewrite peek_bytes_ok by done; by eexists _, _|].
    unfold peek_bytes. rewrite usize_add_ok, outcome_bind_ret by done. rewrite bool_decide_eq_true_2 by lia. by eexists _, _.
  - case_decide; [destruct (rotate_ok r n) as (r' & -> & ? & Hc & Hst & _); auto;
      eexists _, _; by rewrite Hst, Hc|].
    unfold rotate. rewrite bool_decide_eq_true_2 by lia. by eexists _, _.
  - case_decide; [destruct (trim_ok r n) as (r' & -> & ? & Hc & Hst & _); auto;
      eexists _, _; by rewrite Hst, Hc|].
    unfold trim. rewrite bool_decide_eq_true_2 by lia. by eexists _, _.
  - by eexists _, _.
Qed.

Lemma run_ring_refines ops r :
  ring_wf r → Forall ring_op_ok ops →
  ∃ outs r', run_ring ops r = Ret (outs, r') ∧ ring_wf r' ∧
             spec_ring (get_capacity r) ops (contents r) = (outs, contents r').
Proof.
  intros Hr Hops. revert r Hr. induction Hops as [|o ops Ho _ IH]; intros r Hr; cbn.
  - by eexists _, _.
  - destruct (run_ring_op_refines r o Hr Ho) as (out & r1 & -> & Hr1 & Hc & ->). cbn.
    destruct (IH r1 Hr1) as (outs & r2 & -> & Hr2 & Hs). rewrite <- Hc, Hs. cbn.
    by eexists _, _.
Qed.

Lemma ring_new_ok size :
  0 < size → (Z.of_nat size ≤ ISIZE_MAX)%Z →
  ∃ r, ring_new size = Ret r ∧ ring_wf r ∧ contents r = [] ∧ get_capacity r = size ∧ allocated_size r = 0 ∧ high_water_mark r = 0.
Proof.
  intros Hs Hm. unfold ring_new. rewrite fw_assert_true, vec_alloc_ok by (by apply bool_decide_eq_true_2 || lia).
  eexists. split; [done|]. unfold ring_wf, get_capacity. simpl. rewrite length_replicate.
  split_and!; auto with lia. apply Forall_replicate. unfold is_byte. lia.
Qed.
End facts.

(** In a build without overflow checks an offset of [usize::MAX] passes the
    check of [peek_u8], even on an empty ring. *)
Example peek_wraps n : Z.of_nat n = (2 ^ 64 - 1)%Z →
  peek_u8 (H := false) n (MkRing [7; 8; 9]%Z 1 0 0) = Ret (inr 7%Z).
Proof.
  intros Hn. unfold peek_u8, advance_idx, usize_add. cbn [head_idx]. by rewrite Hn.
Qed.

(** C29. The circular buffer refines a bounded byte sequence: for every
    positive store size that can be allocated ([isize::MAX] bytes) and every
    list of calls, the ring never panics, and its statuses, the bytes and
    big-endian words it returns, and its final content are exactly those of a
    sequence that is appended to at the back, dropped at the front by
    [rotate] and at the back by [trim]; an append succeeds exactly when it
    fits the full store.  The offset of a peek and the number of bytes it
    wants add up to a [usize]; past that the sum in the check overflows, see
    [peek_wraps]. *)
Theorem ring_refines_sequence `{BuildProfile} (size : nat) (ops : list ring_op)
    (Hsize : 0 < size) (Hmax : (Z.of_nat size ≤ ISIZE_MAX)%Z) (Hops : Forall ring_op_ok ops) :
  ∃ outs r, (r0 ← ring_new size; run_ring ops r0) = Ret (outs, r) ∧
            spec_ring size ops [] = (outs, contents r).
Proof.
  destruct (ring_new_ok size Hsize Hmax) as (r0 & -> & Hr0 & Hc0 & Hcap & _). cbn.
  destruct (run_ring_refines ops r0 Hr0 Hops) as (outs & r & Hrun & _ & Hspec).
  exists outs, r. split; [done|]. by rewrite <- Hspec, Hcap, Hc0.
Qed.

Lemma ring_refines_sequence_witness :
  let P := true : BuildProfile in
  ∃ outs r, (r0 ← ring_new 5; run_ring [RSerialize [1; 2; 3; 4]%Z; RRotate 3; RSerialize [5; 6; 7]%Z;
                                        RPeekU32 0; RPeekU8 9; RSerialize [8; 9]%Z] r0) = Ret (outs, r) ∧
            spec_ring 5 [RSerialize [1; 2; 3; 4]%Z; RRotate 3; RSerialize [5; 6; 7]%Z;
                         RPeekU32 0; RPeekU8 9; RSerialize [8; 9]%Z] [] = (outs, contents r).
Proof.
  intros P. apply ring_refines_sequence; [lia|unfold ISIZE_MAX; lia|]. repeat constructor; unfold is_byte, usize_ok; simpl; lia.
Defined.
