(* ===== verification/MsgQueue.v ===== *)
(** The fixed-message-size queue [Types::Queue],
    [crates/fprime-utils/src/types/queue.rs], over the byte ring, and its
    refinement of a bounded sequence of messages. *)

From S2P Require Import Prelude Serial CircularBuffer.

(** * Data and operations *)

Inductive QueueMode : Set := Fifo | Lifo.
Inductive QueueOverflowMode : Set := DropNewest | DropOldest.
#[export] Instance QueueOverflowMode_eq_dec : EqDecision QueueOverflowMode.
Proof. solve_decision. Defined.

Record Queue : Set := MkQueue {
  internal : CircularBuffer;
  message_size : nat;
  mode : QueueMode;
  overflow_mode : QueueOverflowMode;
}.

Definition set_internal (r : CircularBuffer) (q : Queue) : Queue :=
  MkQueue r (message_size q) (mode q) (overflow_mode q).

Section operations.
Context `{BuildProfile}.

(** [Queue::new]. *)
Definition queue_new (depth msize : nat) (m : QueueMode) (om : QueueOverflowMode) : outcome Queue :=
  _ ← fw_assert (bool_decide (0 < depth));
  _ ← fw_assert (bool_decide (0 < msize));
  size ← usize_mul depth msize;
  r ← ring_new size;
  Ret (MkQueue r msize m om).

(** [enqueue(message)]. *)
Definition enqueue (msg : list Z) (q : Queue) : outcome (SerializeStatus * Queue) :=
  _ ← fw_assert (bool_decide (message_size q = length msg));
  '(status, r1) ← ring_serialize msg (internal q);
  if bool_decide (status = NoRoomLeft ∧ overflow_mode q = DropOldest) then
    '(rotate_status, r2) ← rotate (message_size q) r1;
    if bool_decide (rotate_status ≠ StOk) then Ret (rotate_status, set_internal r2 q)
    else
      '(retry, r3) ← ring_serialize msg r2;
      if bool_decide (retry ≠ StOk) then Ret (retry, set_internal r3 q)
      else Ret (DiscardedExisting, set_internal r3 q)
  else Ret (status, set_internal r1 q).

(** The front removal [pop_front] and the FIFO arm of [dequeue] share. *)
Definition take_front (message : list Z) (q : Queue) : outcome (SerializeStatus * list Z * Queue) :=
  res ← peek_bytes (message_size q) 0 (internal q);
  match res with
  | inl s => Ret (s, message, q)
  | inr bs =>
      '(s, r) ← rotate (message_size q) (internal q);
      Ret (s, splice 0 bs message, set_internal r q)
  end.

(** [dequeue(message)]: the status, the message buffer and the queue. *)
Definition dequeue (message : list Z) (q : Queue) : outcome (SerializeStatus * list Z * Queue) :=
  _ ← fw_assert (bool_decide (message_size q ≤ length message));
  match mode q with
  | Fifo => take_front message q
  | Lifo =>
      let current_size := get_allocated_size (internal q) in
      if bool_decide (current_size < message_size q) then Ret (DeserBufferEmpty, message, q)
      else
        res ← peek_bytes (message_size q) (current_size - message_size q) (internal q);
        match res with
        | inl s => Ret (s, message, q)
        | inr bs =>
            let '(s, r) := trim (message_size q) (internal q) in
            Ret (s, splice 0 bs message, set_internal r q)
        end
  end.

(** [pop_front(message)]: the oldest message whatever the mode. *)
Definition pop_front (message : list Z) (q : Queue) : outcome (SerializeStatus * list Z * Queue) :=
  _ ← fw_assert (bool_decide (message_size q ≤ length message));
  take_front message q.

End operations.

Definition get_queue_size (q : Queue) : nat := allocated_size (internal q) / message_size q.
Definition get_message_size (q : Queue) : nat := message_size q.
Definition queue_high_water_mark (q : Queue) : nat :=
  CircularBuffer.get_high_water_mark (internal q) / message_size q.
Definition queue_clear_hwm (q : Queue) : Queue :=
  set_internal (clear_high_water_mark (internal q)) q.

(** * The specification: a bounded sequence of messages *)

Record qspec : Set := QSpec { msgs : list (list Z); peak : nat }.

(** [q] of [depth] messages holds [s]. *)
Definition represents (depth : nat) (q : Queue) (s : qspec) : Prop :=
  ring_wf (internal q) ∧ 0 < message_size q ∧
  get_capacity (internal q) = depth * message_size q ∧
  contents (internal q) = mjoin (msgs s) ∧
  Forall (λ m, length m = message_size q) (msgs s) ∧
  high_water_mark (internal q) = peak s * message_size q.

Section spec.
Context (depth : nat) (m : QueueMode) (om : QueueOverflowMode).

Definition spec_enqueue (msg : list Z) (s : qspec) : SerializeStatus * qspec :=
  if decide (length (msgs s) < depth) then
    (StOk, QSpec (msgs s ++ [msg]) (peak s `max` S (length (msgs s))))
  else match om with
  | DropNewest => (NoRoomLeft, s)
  | DropOldest => (DiscardedExisting, QSpec (tail (msgs s) ++ [msg]) (peak s `max` depth))
  end.

Definition spec_pop_front (s : qspec) : option (list Z * qspec) :=
  match msgs s with
  | [] => None
  | x :: rest => Some (x, QSpec rest (peak s))
  end.

Definition spec_dequeue (s : qspec) : option (list Z * qspec) :=
  match m with
  | Fifo => spec_pop_front s
  | Lifo =>
      match last (msgs s) with
      | None => None
      | Some x => Some (x, QSpec (take (length (msgs s) - 1) (msgs s)) (peak s))
      end
  end.
End spec.

(** * Lemmas *)

Lemma length_mjoin_uniform {A} n (ls : list (list A)) :
  Forall (λ l, length l = n) ls → length (mjoin ls) = length ls * n.
Proof. induction 1 as [|l ls Hl _ IH]; simpl; [done|]. rewrite length_app, Hl, IH. lia. Qed.

Section refinement.
Context `{BuildProfile} (depth : nat).
Implicit Types (q : Queue) (s : qspec).

Lemma represents_size q s :
  represents depth q s →
  allocated_size (internal q) = length (msgs s) * message_size q ∧ length (msgs s) ≤ depth.
Proof.
  intros (Hr & Hm & Hcap & Hc & Hall & _).
  pose proof (length_contents (internal q)) as Hl.
  rewrite Hc, (length_mjoin_uniform (message_size q)) in Hl by done.
  destruct Hr as (_ & _ & Ha & _). unfold get_capacity in Hcap. nia.
Qed.

Lemma represents_set_internal q s r s' :
  represents depth q s → ring_wf r → get_capacity r = get_capacity (internal q) →
  contents r = mjoin (msgs s') → Forall (λ m, length m = message_size q) (msgs s') →
  high_water_mark r = peak s' * message_size q → represents depth (set_internal r q) s'.
Proof. intros (_ & ? & ? & _). unfold represents. simpl. intuition congruence. Qed.

Lemma enqueue_refines q s msg :
  represents depth q s → Forall is_byte msg → length msg = message_size q →
  0 < depth →
  let '(st, s') := spec_enqueue depth (overflow_mode q) msg s in
  ∃ q', enqueue msg q = Ret (st, q') ∧ represents depth q' s' ∧
        message_size q' = message_size q ∧ mode q' = mode q ∧ overflow_mode q' = overflow_mode q.
Proof.
  intros Hrep Hb Hlen Hd. pose proof (represents_size q s Hrep) as [Hsz Hle].
  pose proof Hrep as (Hr & Hm & Hcap & Hc & Hall & Hp). unfold get_capacity in Hcap.
  unfold enqueue, spec_enqueue. rewrite fw_assert_true by (by apply bool_decide_eq_true_2).
  rewrite outcome_bind_ret. case_decide as Hroom.
  - destruct (ring_serialize_ok (internal q) msg) as (r' & -> & Hr' & Hc' & Hs' & Hh'); auto; [nia|].
    cbn. exists (set_internal r' q). split; [done|]. split; [|done].
    eapply represents_set_internal; eauto; simpl.
    + rewrite Hc', Hc, join_app. simpl. by rewrite app_nil_r.
    + apply Forall_app. by repeat constructor.
    + rewrite Hh'. nia.
  - rewrite ring_serialize_full by (done || nia). rewrite outcome_bind_ret.
    destruct (overflow_mode q) eqn:Eom; cbn [bool_decide].
    + rewrite bool_decide_eq_false_2 by (by intros [_ ?]).
      exists (set_internal (internal q) q). split; [done|]. split; [|done].
      by eapply represents_set_internal.
    + rewrite bool_decide_eq_true_2 by done.
      destruct (msgs s) as [|x rest] eqn:Ems; [simpl in *; lia|].
      apply Forall_cons in Hall as [Hx Hrest].
      destruct (rotate_ok (internal q) (message_size q)) as (r1 & -> & Hr1 & Hc1 & Hs1 & Ha1 & Hh1);
        [done|simpl in *; lia|]. rewrite outcome_bind_ret.
      rewrite bool_decide_eq_false_2 by naive_solver.
      assert (contents r1 = mjoin rest) as Hc1'.
      { rewrite Hc1, Hc, <- Hx. simpl. apply drop_app_length. }
      destruct (ring_serialize_ok r1 msg) as (r2 & -> & Hr2 & Hc2 & Hs2 & Hh2); auto;
        [rewrite Hs1, Ha1; simpl in *; nia|]. rewrite outcome_bind_ret.
      rewrite bool_decide_eq_false_2 by naive_solver.
      exists (set_internal r2 q). split; [done|]. split; [|done].
      eapply represents_set_internal; eauto; simpl.
      * unfold get_capacity. congruence.
      * rewrite Hc2, Hc1', join_app. simpl. by rewrite app_nil_r.
      * apply Forall_app. by repeat constructor.
      * rewrite Hh2, Hh1, Hp, Ha1, Hsz. simpl in *. nia.
Qed.

Lemma take_front_refines q s dest :
  represents depth q s → message_size q ≤ length dest →
  match spec_pop_front s with
  | None => take_front dest q = Ret (DeserBufferEmpty, dest, q)
  | Some (x, s') =>
      ∃ q', take_front dest q = Ret (StOk, splice 0 x dest, q') ∧ represents depth q' s' ∧
            message_size q' = message_size q ∧ mode q' = mode q ∧ overflow_mode q' = overflow_mode q
  end.
Proof.
  intros Hrep Hd. pose proof (represents_size q s Hrep) as [Hsz Hle].
  pose proof Hrep as (Hr & Hm & Hcap & Hc & Hall & Hp).
  unfold take_front, spec_pop_front. destruct (msgs s) as [|x rest] eqn:Ems.
  - unfold peek_bytes. destruct Hr as (Hpos & _ & _ & _ & Hmax). unfold get_capacity, ISIZE_MAX in *.
    assert (depth ≠ 0) by (intros ->; lia).
    rewrite usize_add_ok by (unfold usize_ok; nia). rewrite outcome_bind_ret, bool_decide_eq_true_2 by (simpl in *; lia). done.
  - apply Forall_cons in Hall as [Hx Hrest].
    rewrite peek_bytes_ok by (done || (simpl in *; lia)). rewrite outcome_bind_ret.
    destruct (rotate_ok (internal q) (message_size q)) as (r1 & -> & Hr1 & Hc1 & Hs1 & Ha1 & Hh1);
      [done|simpl in *; lia|]. rewrite outcome_bind_ret.
    rewrite Hc. simpl. unfold slice. rewrite drop_0, <- Hx, take_app_length.
    eexists. split; [done|]. split; [|done].
    eapply represents_set_internal; eauto; simpl; [unfold get_capacity; congruence| |congruence].
    rewrite Hc1, Hc, <- Hx. apply drop_app_length.
Qed.

Lemma dequeue_refines q s dest :
  represents depth q s → message_size q ≤ length dest →
  match spec_dequeue (mode q) s with
  | None => dequeue dest q = Ret (DeserBufferEmpty, dest, q)
  | Some (x, s') =>
      ∃ q', dequeue dest q = Ret (StOk, splice 0 x dest, q') ∧ represents depth q' s' ∧
            message_size q' = message_size q ∧ mode q' = mode q ∧ overflow_mode q' = overflow_mode q
  end.
Proof.
  intros Hrep Hd. unfold dequeue. rewrite fw_assert_true by (by apply bool_decide_eq_true_2).
  rewrite outcome_bind_ret. unfold spec_dequeue. destruct (mode q) eqn:Emode.
  { pose proof (take_front_refines q s dest Hrep Hd) as Hf. by rewrite Emode in Hf. }
  pose proof (represents_size q s Hrep) as [Hsz Hle].
  pose proof Hrep as (Hr & Hm & Hcap & Hc & Hall & Hp). unfold get_allocated_size.
  destruct s as [ms pk]; simpl in *. destruct ms as [|x rest _] using rev_ind.
  - rewrite bool_decide_eq_true_2 by (simpl in *; lia). done.
  - rewrite length_app in Hsz. simpl in Hsz. rewrite last_snoc.
    rewrite bool_decide_eq_false_2 by lia.
    apply Forall_app in Hall as [Hrest [Hx _]%Forall_cons].
    pose proof (length_mjoin_uniform _ _ Hrest) as Hlr.
    rewrite peek_bytes_ok by (done || lia). rewrite outcome_bind_ret.
    destruct (trim_ok (internal q) (message_size q)) as (r1 & -> & Hr1 & Hc1 & Hs1 & Hh1);
      [done|lia|].
    rewrite Hc, join_app. simpl. rewrite app_nil_r.
    replace (allocated_size (internal q) - message_size q) with (length (mjoin rest)) in * by lia.
    unfold slice. rewrite drop_app_length. rewrite take_ge by lia.
    eexists. split; [done|]. split; [|done].
    rewrite length_app. replace (length rest + length [x] - 1) with (length rest) by (simpl; lia).
    rewrite take_app_length.
    eapply represents_set_internal; eauto; simpl; [unfold get_capacity; congruence| |congruence].
    rewrite Hc1, Hc, join_app. by rewrite take_app_length.
Qed.

Lemma queue_sizes q s :
  represents depth q s → get_queue_size q = length (msgs s) ∧ queue_high_water_mark q = peak s.
Proof.
  intros Hrep. pose proof (represents_size q s Hrep) as [Hsz _].
  destruct Hrep as (_ & Hm & _ & _ & _ & Hp).
  unfold get_queue_size, queue_high_water_mark, CircularBuffer.get_high_water_mark.
  rewrite Hsz, Hp, !Nat.div_mul by lia. done.
Qed.
End refinement.

(** * Refinement over call sequences *)

Inductive queue_op : Set := QEnqueue (msg : list Z) | QDequeue | QPopFront | QSize | QPeak | QClearPeak.

(** What a caller observes; a dequeued message is read off a zeroed buffer of
    the message size. *)
Inductive queue_out : Set := QStatus (s : SerializeStatus) | QMessage (bs : list Z) | QCount (n : nat).

Definition message_out (r : outcome (SerializeStatus * list Z * Queue)) : outcome (queue_out * Queue) :=
  '(s, bs, q') ← r;
  Ret (if bool_decide (s = StOk) then QMessage bs else QStatus s, q').

Definition run_queue_op `{BuildProfile} (o : queue_op) (q : Queue) : outcome (queue_out * Queue) :=
  match o with
  | QEnqueue msg => '(s, q') ← enqueue msg q; Ret (QStatus s, q')
  | QDequeue => message_out (dequeue (replicate (message_size q) 0%Z) q)
  | QPopFront => message_out (pop_front (replicate (message_size q) 0%Z) q)
  | QSize => Ret (QCount (get_queue_size q), q)
  | QPeak => Ret (QCount (queue_high_water_mark q), q)
  | QClearPeak => Ret (QStatus StOk, queue_clear_hwm q)
  end.

Definition message_spec (r : option (list Z * qspec)) (s : qspec) : queue_out * qspec :=
  match r with
  | None => (QStatus DeserBufferEmpty, s)
  | Some (x, s') => (QMessage x, s')
  end.

Definition spec_queue_op (depth : nat) (m : QueueMode) (om : QueueOverflowMode)
    (o : queue_op) (s : qspec) : queue_out * qspec :=
  match o with
  | QEnqueue msg => let '(st, s') := spec_enqueue depth om msg s in (QStatus st, s')
  | QDequeue => message_spec (spec_dequeue m s) s
  | QPopFront => message_spec (spec_pop_front s) s
  | QSize => (QCount (length (msgs s)), s)
  | QPeak => (QCount (peak s), s)
  | QClearPeak => (QStatus StOk, QSpec (msgs s) 0)
  end.

Fixpoint run_queue `{BuildProfile} (ops : list queue_op) (q : Queue) : outcome (list queue_out) :=
  match ops with
  | [] => Ret []
  | o :: ops' => '(out, q') ← run_queue_op o q; outs ← run_queue ops' q'; Ret (out :: outs)
  end.

Fixpoint spec_queue (depth : nat) (m : QueueMode) (om : QueueOverflowMode)
    (ops : list queue_op) (s : qspec) : list queue_out :=
  match ops with
  | [] => []
  | o :: ops' =>
      let '(out, s') := spec_queue_op depth m om o s in out :: spec_queue depth m om ops' s'
  end.

Definition queue_op_ok (msize : nat) (o : queue_op) : Prop :=
  match o with QEnqueue msg => Forall is_byte msg ∧ length msg = msize | _ => True end.
#[export] Instance queue_op_ok_dec n o : Decision (queue_op_ok n o).
Proof. destruct o; simpl; apply _. Defined.

(** The static part of a queue: what no operation changes. *)
Definition same_config (q q' : Queue) : Prop :=
  message_size q' = message_size q ∧ mode q' = mode q ∧ overflow_mode q' = overflow_mode q.

Lemma splice_all {A} (x y : list A) : length x = length y → splice 0 x y = x.
Proof. intros E. unfold splice. simpl. rewrite drop_ge, app_nil_r by lia. done. Qed.

Lemma message_out_refines depth q s r res :
  (match res with
   | None => r = Ret (DeserBufferEmpty, replicate (message_size q) 0%Z, q)
   | Some (x, s') => ∃ q', r = Ret (StOk, splice 0 x (replicate (message_size q) 0%Z), q') ∧
       represents depth q' s' ∧ same_config q q'
   end) →
  (∀ x s', res = Some (x, s') → length x = message_size q) →
  represents depth q s →
  ∃ q', message_out r = Ret ((message_spec res s).1, q') ∧
        represents depth q' (message_spec res s).2 ∧ same_config q q'.
Proof.
  intros Hr Hlen Hrep. destruct res as [[x s']|]; simpl.
  - destruct Hr as (q' & -> & ? & ?). exists q'. split; [|done]. cbn.
    rewrite splice_all; [done|]. rewrite length_replicate. by eapply Hlen.
  - rewrite Hr. by exists q.
Qed.

Lemma spec_pop_front_length depth q s x s' :
  represents depth q s → spec_pop_front s = Some (x, s') → length x = message_size q.
Proof.
  intros (_ & _ & _ & _ & Hall & _). unfold spec_pop_front.
  destruct (msgs s); [done|]. intros [= <- _]. by apply Forall_cons in Hall as [? _].
Qed.

Lemma spec_dequeue_length depth q s x s' :
  represents depth q s → spec_dequeue (mode q) s = Some (x, s') → length x = message_size q.
Proof.
  intros Hrep. unfold spec_dequeue. destruct (mode q); [by eapply spec_pop_front_length|].
  destruct Hrep as (_ & _ & _ & _ & Hall & _).
  destruct (last (msgs s)) as [y|] eqn:E; [|done]. intros [= <- _].
  apply last_Some in E as [l' El]. rewrite El in Hall.
  by apply Forall_app in Hall as [_ [? _]%Forall_cons].
Qed.

Lemma run_queue_op_refines `{BuildProfile} depth q s o :
  0 < depth → represents depth q s → queue_op_ok (message_size q) o →
  let '(out, s') := spec_queue_op depth (mode q) (overflow_mode q) o s in
  ∃ q', run_queue_op o q = Ret (out, q') ∧ represents depth q' s' ∧ same_config q q'.
Proof.
  intros Hd Hrep Ho. destruct o as [msg| | | | |]; cbn [spec_queue_op run_queue_op].
  - destruct Ho as [Hb Hl]. pose proof (enqueue_refines depth q s msg Hrep Hb Hl Hd) as He.
    destruct (spec_enqueue depth (overflow_mode q) msg s) as [st s'].
    destruct He as (q' & -> & ? & ?). by exists q'.
  - pose proof (dequeue_refines depth q s (replicate (message_size q) 0%Z) Hrep) as Hf.
    rewrite length_replicate in Hf. specialize (Hf ltac:(lia)).
    apply (message_out_refines depth q s _ _ Hf) in Hrep as Hres;
      [|intros; by eapply spec_dequeue_length].
    by destruct (message_spec (spec_dequeue (mode q) s) s).
  - pose proof (take_front_refines depth q s (replicate (message_size q) 0%Z) Hrep) as Hf.
    rewrite length_replicate in Hf. specialize (Hf ltac:(lia)).
    unfold pop_front. rewrite length_replicate, bool_decide_eq_true_2 by lia. cbn [fw_assert].
    rewrite outcome_bind_ret.
    apply (message_out_refines depth q s _ _ Hf) in Hrep as Hres;
      [|intros; by eapply spec_pop_front_length].
    by destruct (message_spec (spec_pop_front s) s).
  - destruct (queue_sizes depth q s Hrep) as [<- _]. by exists q.
  - destruct (queue_sizes depth q s Hrep) as [_ <-]. by exists q.
  - exists (queue_clear_hwm q). split; [done|]. split; [|done].
    destruct Hrep as (?&?&?&?&?&?). done.
Qed.

Lemma queue_new_ok `{BuildProfile} depth msize m om :
  0 < depth → 0 < msize → (Z.of_nat depth * Z.of_nat msize ≤ ISIZE_MAX)%Z →
  ∃ q, queue_new depth msize m om = Ret q ∧ represents depth q (QSpec [] 0) ∧
       message_size q = msize ∧ mode q = m ∧ overflow_mode q = om.
Proof.
  intros Hd Hm Hmax. unfold queue_new. rewrite !bool_decide_eq_true_2 by done. cbn [fw_assert].
  destruct (ring_new_ok (depth * msize)) as (r & Hr & Hw & Hc & Hcap & Ha & Hh); [lia..|].
  rewrite usize_mul_ok by (unfold usize_ok, ISIZE_MAX in *; lia).
  rewrite !outcome_bind_ret, Hr, outcome_bind_ret. eexists. split; [done|].
  split; [|done]. unfold represents. simpl. split_and!; auto.
Qed.

(** In a build without overflow checks a depth and a message size whose product
    wraps give a queue over a ring of the wrong size: the first message of
    2^63 + 4 bytes would not fit the eight bytes allocated. *)
Example queue_new_wraps (big : nat) (Hbig : Z.of_nat big = (2 ^ 63 + 4)%Z) :
  let P := false : BuildProfile in usize_mul 2 big = Ret 8.
Proof. intros P. unfold usize_mul. by rewrite Hbig. Qed.

(** C30. [Types::Queue] refines a bounded sequence of messages in each of its
    four configurations: for every positive depth and message size whose
    product is at most [isize::MAX] (beyond it the constructor panics in
    allocating the store or, past 2^64, in the multiplication, which wraps
    without overflow checks, see [queue_new_wraps]) and every list of calls
    with messages of that size, in both build profiles, it never panics and
    reports what the sequence does - FIFO or LIFO removal, front removal
    whatever the mode, [NoRoomLeft] or discard-the-oldest with
    [DiscardedExisting] when [depth] messages are held, the message count and
    the peak count. *)
Theorem queue_refines_messages `{BuildProfile} (depth msize : nat) (m : QueueMode) (om : QueueOverflowMode)
    (ops : list queue_op) (Hd : 0 < depth) (Hm : 0 < msize)
    (Hmax : (Z.of_nat depth * Z.of_nat msize ≤ ISIZE_MAX)%Z)
    (Hops : Forall (queue_op_ok msize) ops) :
  (q ← queue_new depth msize m om; run_queue ops q) = Ret (spec_queue depth m om ops (QSpec [] 0)).
Proof.
  destruct (queue_new_ok depth msize m om Hd Hm Hmax) as (q & -> & Hrep & Hsz & Hmo & Hom).
  rewrite outcome_bind_ret. generalize dependent (QSpec [] 0). revert q Hsz Hmo Hom.
  induction Hops as [|o ops Ho _ IH]; intros q Hsz Hmo Hom s Hrep; [done|].
  cbn [run_queue spec_queue]. rewrite <- Hsz in Ho.
  pose proof (run_queue_op_refines depth q s o Hd Hrep Ho) as Hstep. rewrite Hmo, Hom in Hstep.
  destruct (spec_queue_op depth m om o s) as [out s'].
  destruct Hstep as (q' & -> & Hrep' & E1 & E2 & E3). rewrite outcome_bind_ret.
  rewrite (IH q' ltac:(congruence) ltac:(congruence) ltac:(congruence) s' Hrep'). done.
Qed.

Lemma queue_refines_messages_witness :
  let P := true : BuildProfile in
  (q ← queue_new 2 1 Lifo DropOldest;
   run_queue [QEnqueue [1]; QEnqueue [2]; QEnqueue [3]; QPopFront; QDequeue; QDequeue]%Z q)
  = Ret (spec_queue 2 Lifo DropOldest
          [QEnqueue [1]; QEnqueue [2]; QEnqueue [3]; QPopFront; QDequeue; QDequeue]%Z (QSpec [] 0)).
Proof.
  intros P. apply (queue_refines_messages 2 1 Lifo DropOldest); [lia|lia|unfold ISIZE_MAX; lia|].
  repeat constructor; unfold is_byte; simpl; lia.
Defined.
