(* ===== verification/Crc32.v ===== *)
(** The CRC-32 hash [Utils::Hash], [crates/fprime-utils/src/hash.rs]: the
    generated table, the table-driven update, and its equivalence with the
    bit-serial division register; linearity and burst-error detection. *)

From S2P Require Import Prelude Serial SerialFacts Codec.
Local Open Scope Z_scope.

(** * Data and operations *)

Definition POLY : Z := 0xEDB88320.

(** One iteration of the inner loop of [generate_crc32_table]. *)
Definition crc_bit (crc : Z) : Z :=
  if Z.land crc 1 =? 0 then Z.shiftr crc 1 else Z.lxor (Z.shiftr crc 1) POLY.

Definition generate_crc32_table : list Z :=
  (λ i, Nat.iter 8 crc_bit (Z.of_nat i)) <$> seq 0 256.

Definition CRC32_TABLE : list Z := Eval vm_compute in generate_crc32_table.

Definition HASH_DIGEST_LENGTH : nat := 4.

(** [Hash]: the raw register. *)
Record Hash : Set := MkHash { handle : Z }.

Definition Hash_new : Hash := MkHash 0xFFFFFFFF.
Definition Hash_init (h : Hash) : Hash := MkHash 0xFFFFFFFF.

(** The register update of [update] for one byte. *)
Definition update_byte (crc byte : Z) : Z :=
  Z.lxor (Z.shiftr crc 8) (CRC32_TABLE !!! Z.to_nat (Z.land (Z.lxor crc byte) 0xFF)).

Definition Hash_update (bs : list Z) (h : Hash) : Hash := MkHash (foldl update_byte (handle h) bs).

(** [!x] on a [u32]. *)
Definition not32 (x : Z) : Z := Z.lxor x 0xFFFFFFFF.

Definition finalize (h : Hash) : Z := not32 (handle h).
Definition set_hash_value (value : Z) (h : Hash) : Hash := MkHash (not32 value).

(** [HashBuffer] is a [LinearBuffer<4>]. *)
Definition HashBuffer_new : serbuf := linear_buffer_new HASH_DIGEST_LENGTH.

Definition HashBuffer_from_bytes (bs : list Z) : outcome serbuf :=
  match set_buff bs HashBuffer_new with
  | (SOk _, b) => Ret b
  | _ => Panic
  end.

(** [as_big_endian_u32]: fold the raw storage MSB first. *)
Definition as_big_endian_u32 (b : serbuf) : Z :=
  foldl (λ acc x, Z.lor (Z.shiftl acc 8) x) 0 (take HASH_DIGEST_LENGTH (data b)).

Definition finalize_buffer (h : Hash) : outcome serbuf :=
  match serialize_u32 (not32 (handle h)) Big HashBuffer_new with
  | (SOk _, b) => Ret b
  | _ => Panic
  end.

Definition set_hash_value_buffer (b : serbuf) (h : Hash) : outcome (Hash * serbuf) :=
  match deserialize_u32 Big b with
  | (SOk v, b') => Ret (MkHash (not32 v), b')
  | _ => Panic
  end.

(** [Hash::hash] and [Hash::hash_u32]. *)
Definition hash (bs : list Z) : outcome serbuf := finalize_buffer (Hash_update bs Hash_new).
Definition hash_u32 (bs : list Z) : Z := finalize (Hash_update bs Hash_new).

(** * The bit-serial reference *)

(** Feed one byte through the reflected division register, bit by bit. *)
Definition ref_byte (crc byte : Z) : Z := Nat.iter 8 crc_bit (Z.lxor crc byte).
Definition ref_update (crc : Z) (bs : list Z) : Z := foldl ref_byte crc bs.

(** * Lemmas: the register step is linear and injective *)

Lemma crc_bit_alt x : crc_bit x = Z.lxor (Z.shiftr x 1) (if Z.testbit x 0 then POLY else 0).
Proof.
  unfold crc_bit. replace (Z.land x 1) with (Z.b2z (Z.testbit x 0)).
  - destruct (Z.testbit x 0); simpl; [done|]. by rewrite Z.lxor_0_r.
  - change 1 with (Z.ones 1). rewrite Z.land_ones by lia. change (2 ^ 1) with 2.
    rewrite Z.bit0_odd, Zmod_odd. by destruct (Z.odd x).
Qed.

Lemma crc_bit_lxor a b : crc_bit (Z.lxor a b) = Z.lxor (crc_bit a) (crc_bit b).
Proof.
  rewrite !crc_bit_alt, Z.shiftr_lxor, Z.lxor_spec. apply Z.bits_inj'. intros i _.
  destruct (Z.testbit a 0), (Z.testbit b 0); simpl; rewrite !Z.lxor_spec, ?Z.bits_0;
    by destruct (Z.testbit (Z.shiftr a 1) i), (Z.testbit (Z.shiftr b 1) i), (Z.testbit POLY i).
Qed.

Lemma iter_crc_lxor n a b :
  Nat.iter n crc_bit (Z.lxor a b) = Z.lxor (Nat.iter n crc_bit a) (Nat.iter n crc_bit b).
Proof. induction n; simpl; [done|]. by rewrite IHn, crc_bit_lxor. Qed.

(** Shifting out zero bits. *)
Lemma iter_crc_shiftl n v : Nat.iter n crc_bit (Z.shiftl v (Z.of_nat n)) = v.
Proof.
  revert v. induction n as [|n IH]; intros v; [apply Z.shiftl_0_r|].
  rewrite Nat.iter_succ_r, crc_bit_alt.
  rewrite Z.shiftl_spec_low by lia. rewrite Z.lxor_0_r.
  rewrite Z.shiftr_shiftl_l by lia. replace (Z.of_nat (S n) - 1) with (Z.of_nat n) by lia. apply IH.
Qed.

Lemma lxor_u32 a b : is_u 32 a → is_u 32 b → is_u 32 (Z.lxor a b).
Proof. by apply lxor_u. Qed.

Lemma shiftr_u32 a n : 0 ≤ n → is_u 32 a → is_u 32 (Z.shiftr a n).
Proof.
  unfold is_u. intros Hn [? ?]. rewrite Z.shiftr_div_pow2 by done.
  split; [apply Z.div_pos; lia|]. eapply Z.le_lt_trans; [|done].
  apply Z.div_le_upper_bound; [lia|]. nia.
Qed.

Lemma crc_bit_u32 x : is_u 32 x → is_u 32 (crc_bit x).
Proof.
  intros Hx. rewrite crc_bit_alt. apply lxor_u32; [by apply shiftr_u32|].
  by destruct (Z.testbit x 0).
Qed.

Lemma iter_crc_u32 n x : is_u 32 x → is_u 32 (Nat.iter n crc_bit x).
Proof. induction n; simpl; auto using crc_bit_u32. Qed.

Lemma crc_bit_zero x : is_u 32 x → crc_bit x = 0 → x = 0.
Proof.
  intros Hx. rewrite crc_bit_alt, Z.shiftr_div_pow2 by lia. unfold is_u in Hx.
  rewrite Z.bit0_odd. change (2 ^ 1) with 2. pose proof (Zmod_odd x) as Ho.
  destruct (Z.odd x).
  - intros E%Z.lxor_eq. unfold POLY in E. change (2 ^ 32) with 4294967296 in Hx.
    pose proof (Z.div_mod x 2 ltac:(lia)). lia.
  - rewrite Z.lxor_0_r. pose proof (Z.div_mod x 2 ltac:(lia)). lia.
Qed.

Lemma iter_crc_zero n x : is_u 32 x → Nat.iter n crc_bit x = 0 → x = 0.
Proof.
  induction n as [|n IH]; simpl; [done|]. intros Hx E.
  apply IH; [done|]. apply crc_bit_zero; [by apply iter_crc_u32|done].
Qed.

Lemma iter_crc_inj n a b :
  is_u 32 a → is_u 32 b → Nat.iter n crc_bit a = Nat.iter n crc_bit b → a = b.
Proof.
  intros Ha Hb E. apply Z.lxor_eq, (iter_crc_zero n); [by apply lxor_u32|].
  by rewrite iter_crc_lxor, E, Z.lxor_nilpotent.
Qed.

(** * Table-driven = bit-serial *)

Lemma byte_split x : x = Z.lxor (Z.shiftl (Z.shiftr x 8) 8) (Z.land x 0xFF).
Proof.
  apply Z.bits_inj'. intros i Hi. rewrite Z.lxor_spec, Z.land_spec.
  change 0xFF with (Z.ones 8). destruct (Z.ltb_spec i 8).
  - rewrite Z.shiftl_spec_low, Z.ones_spec_low by lia. by rewrite andb_true_r.
  - rewrite Z.shiftl_spec, Z.shiftr_spec, Z.ones_spec_high by lia.
    rewrite andb_false_r, xorb_false_r. f_equal. lia.
Qed.

Lemma table_lookup x : 0 ≤ x < 256 → CRC32_TABLE !!! Z.to_nat x = Nat.iter 8 crc_bit x.
Proof.
  intros Hx. change CRC32_TABLE with generate_crc32_table. unfold generate_crc32_table.
  apply list_lookup_total_correct. rewrite list_lookup_fmap, lookup_seq_lt by lia.
  cbn [fmap option_fmap option_map]. do 2 f_equal. lia.
Qed.

Lemma land_255 x : 0 ≤ Z.land x 0xFF < 256.
Proof. change 0xFF with (Z.ones 8). rewrite Z.land_ones by lia. by apply Z.mod_pos_bound. Qed.

Lemma shiftr_byte b : is_byte b → Z.shiftr b 8 = 0.
Proof. intros ?. rewrite Z.shiftr_div_pow2 by lia. by apply Z.div_small. Qed.

Lemma update_byte_ref crc byte : is_byte byte → update_byte crc byte = ref_byte crc byte.
Proof.
  intros Hb. unfold update_byte, ref_byte. rewrite table_lookup by apply land_255.
  rewrite (byte_split (Z.lxor crc byte)) at 2. rewrite iter_crc_lxor.
  rewrite (iter_crc_shiftl 8). by rewrite Z.shiftr_lxor, (shiftr_byte byte), Z.lxor_0_r.
Qed.

Lemma update_ref crc bs : Forall is_byte bs → foldl update_byte crc bs = ref_update crc bs.
Proof.
  intros Hbs. revert crc. induction Hbs as [|b bs Hb _ IH]; intros crc; [done|].
  cbn [foldl ref_update]. by rewrite update_byte_ref, IH.
Qed.

Lemma byte_u32 b : is_byte b → is_u 32 b.
Proof. unfold is_byte, is_u. lia. Qed.

Lemma hash_app bs bs' h : Hash_update bs' (Hash_update bs h) = Hash_update (bs ++ bs') h.
Proof. unfold Hash_update. cbn. by rewrite foldl_app. Qed.
Lemma ref_byte_u32 crc b : is_u 32 crc → is_byte b → is_u 32 (ref_byte crc b).
Proof. intros. apply iter_crc_u32, lxor_u32; auto using byte_u32. Qed.

Lemma ref_update_u32 crc bs : is_u 32 crc → Forall is_byte bs → is_u 32 (ref_update crc bs).
Proof.
  intros Hc Hbs. revert crc Hc. induction Hbs as [|b bs Hb _ IH]; intros crc Hc; [done|].
  apply IH. by apply ref_byte_u32.
Qed.

Lemma not32_u32 x : is_u 32 x → is_u 32 (not32 x).
Proof. intros. by apply lxor_u32. Qed.

Lemma not32_invol x : not32 (not32 x) = x.
Proof. unfold not32. by rewrite Z.lxor_assoc, Z.lxor_nilpotent, Z.lxor_0_r. Qed.

Lemma hash_u32_range bs : Forall is_byte bs → is_u 32 (hash_u32 bs).
Proof.
  intros. apply not32_u32. unfold Hash_update. simpl. rewrite update_ref by done.
  by apply ref_update_u32.
Qed.

(** Processing up to four bytes at once: the register sees their
    little-endian word. *)
Lemma ref_update_word crc bs :
  Forall is_byte bs →
  ref_update crc bs = Nat.iter (8 * length bs) crc_bit (Z.lxor crc (le_value bs)).
Proof.
  intros Hbs. revert crc. induction Hbs as [|b bs Hb Hbs IH]; intros crc.
  - simpl. by rewrite Z.lxor_0_r.
  - cbn [ref_update foldl]. fold (ref_update (ref_byte crc b) bs). rewrite IH. unfold ref_byte.
    assert (le_value (b :: bs) = Z.lxor b (Z.shiftl (le_value bs) 8)) as ->.
    { unfold le_value. rewrite reverse_cons, be_value_app. simpl length.
      change (256 ^ Z.of_nat 1) with 256. change (be_value [b]) with (0 * 256 + b).
      rewrite Z.lxor_comm, Z.lxor_lor.
      - rewrite shift_or_byte by done. lia.
      - apply Z.bits_inj'. intros i Hi. rewrite Z.land_spec, Z.bits_0.
        destruct (Z.ltb_spec i 8); [by rewrite Z.shiftl_spec_low|].
        rewrite (proj2 (Z.testbit_false b i Hi)), andb_false_r; [done|].
        rewrite Z.div_small; [done|]. unfold is_byte in Hb.
        assert (2 ^ 8 ≤ 2 ^ i) by (apply Z.pow_le_mono_r; lia). lia. }
    replace (8 * length (b :: bs))%nat with (8 * length bs + 8)%nat by (simpl; lia).
    rewrite Nat.iter_add. f_equal. rewrite <- Z.lxor_assoc.
    rewrite (iter_crc_lxor 8 (Z.lxor crc b)). by rewrite (iter_crc_shiftl 8).
Qed.

Lemma ref_update_inj crc crc' bs :
  is_u 32 crc → is_u 32 crc' → Forall is_byte bs →
  ref_update crc bs = ref_update crc' bs → crc = crc'.
Proof.
  intros Hc Hc' Hbs. revert crc crc' Hc Hc'.
  induction Hbs as [|b bs Hb _ IH]; intros crc crc' Hc Hc' E; [done|].
  change (ref_update (ref_byte crc b) bs = ref_update (ref_byte crc' b) bs) in E.
  apply IH in E; [|by apply ref_byte_u32..]. unfold ref_byte in E.
  apply (iter_crc_inj 8) in E; [|by apply lxor_u32; auto using byte_u32..].
  apply (f_equal (λ z, Z.lxor z b)) in E.
  by rewrite !Z.lxor_assoc, Z.lxor_nilpotent, !Z.lxor_0_r in E.
Qed.

(** * Properties *)

(** The table-driven [Hash::update] computes the reflected CRC-32
    division register fed bit by bit, so [hash_u32] is the complement of the
    bit-serial remainder from the all-ones register, for every input. *)
Theorem hash_is_bit_serial (bs : list Z) (Hbs : Forall is_byte bs) :
  hash_u32 bs = not32 (ref_update 0xFFFFFFFF bs) ∧
  ∀ h, handle (Hash_update bs h) = ref_update (handle h) bs.
Proof.
  split; [|intros h]; unfold hash_u32, finalize, Hash_update; simpl; by rewrite update_ref.
Qed.

(** The check value of the CRC-32/ISO-HDLC catalogue entry. *)
Lemma hash_is_bit_serial_witness :
  hash_u32 [49; 50; 51; 52; 53; 54; 55; 56; 57] = not32 (ref_update 0xFFFFFFFF [49; 50; 51; 52; 53; 54; 55; 56; 57])
  ∧ hash_u32 [49; 50; 51; 52; 53; 54; 55; 56; 57] = 0xCBF43926.
Proof.
  split; [|vm_compute; reflexivity].
  refine (proj1 (hash_is_bit_serial _ _)).
  repeat constructor; unfold is_byte; lia.
Defined.

Lemma hash_burst (pre x y suf : list Z) :
  Forall is_byte pre → Forall is_byte x → Forall is_byte y → Forall is_byte suf →
  length x = length y → (length x ≤ 4)%nat → x ≠ y →
  hash_u32 (pre ++ x ++ suf) ≠ hash_u32 (pre ++ y ++ suf).
Proof.
  intros Hpre Hx Hy Hsuf Hlen Hburst Hne E. unfold hash_u32, finalize, Hash_update in E. simpl in E.
  apply (f_equal not32) in E. rewrite !not32_invol in E.
  rewrite !update_ref in E by (rewrite !Forall_app; auto).
  unfold ref_update in E. rewrite !foldl_app in E.
  fold (ref_update 0xFFFFFFFF pre) in E. set (c := ref_update _ pre) in E.
  assert (is_u 32 c) as Hc by (by apply ref_update_u32).
  fold (ref_update c x) in E. fold (ref_update c y) in E.
  apply ref_update_inj in E; [|by apply ref_update_u32..|done].
  rewrite !ref_update_word, Hlen in E by done.
  assert (∀ z, Forall is_byte z → (length z ≤ 4)%nat → is_u 32 (le_value z)) as Hle.
  { intros z Hz Hl. pose proof (le_value_bounds z Hz) as Hb. rewrite pow256 in Hb. unfold is_u.
    assert (2 ^ (8 * Z.of_nat (length z)) ≤ 2 ^ 32) by (apply Z.pow_le_mono_r; lia). lia. }
  apply iter_crc_inj in E; [|apply lxor_u32; auto with lia..].
  apply (f_equal (Z.lxor c)) in E. rewrite <- !Z.lxor_assoc, Z.lxor_nilpotent, !Z.lxor_0_l in E.
  apply Hne. unfold le_value in E.
  apply (f_equal (be_bytes (length (reverse x)))) in E.
  rewrite be_bytes_be_value in E by (by apply Forall_reverse).
  rewrite length_reverse, Hlen, <- length_reverse, be_bytes_be_value in E by (by apply Forall_reverse).
  by apply (inj reverse) in E.
Qed.

(** CRC-32 detects every change confined to four consecutive bytes
    (every burst of up to 32 bits on byte boundaries): two messages with the
    same prefix and suffix around different blocks of one length of at most
    four bytes have different hashes. *)
Theorem hash_detects_burst (pre x y suf : list Z)
    (Hpre : Forall is_byte pre) (Hx : Forall is_byte x) (Hy : Forall is_byte y)
    (Hsuf : Forall is_byte suf) (Hlen : length x = length y) (Hburst : (length x ≤ 4)%nat)
    (Hne : x ≠ y) :
  hash_u32 (pre ++ x ++ suf) ≠ hash_u32 (pre ++ y ++ suf).
Proof. by apply hash_burst. Qed.

Lemma hash_detects_burst_witness :
  hash_u32 ([1; 2; 3] ++ [4; 5; 6; 7] ++ [8]) ≠ hash_u32 ([1; 2; 3] ++ [4; 5; 6; 135] ++ [8]).
Proof.
  apply (hash_detects_burst [1; 2; 3] [4; 5; 6; 7] [4; 5; 6; 135] [8]);
    (done || lia || (repeat constructor; unfold is_byte; lia)).
Defined.

(** Digest buffers hold the finalized value big-endian. *)
Lemma finalize_buffer_value h :
  is_u 32 (handle h) → ∃ b, finalize_buffer h = Ret b ∧ as_big_endian_u32 b = finalize h.
Proof.
  intros Hh. unfold finalize_buffer, serialize_u32.
  rewrite (serialize_uint_ok 4 _ Big HashBuffer_new (wf_new 4))
    by (rewrite length_int_bytes; unfold capacity; simpl; lia).
  eexists. split; [done|]. unfold as_big_endian_u32, finalize.
  set (v := not32 (handle h)). assert (is_u 32 v) as Hv by (by apply not32_u32).
  change (take HASH_DIGEST_LENGTH (data (appended HashBuffer_new (int_bytes 4 Big v)))) with (be_bytes 4 v).
  assert (∀ bs acc, Forall is_byte bs →
    foldl (λ acc x, Z.lor (Z.shiftl acc 8) x) acc bs = foldl (λ acc b, acc * 256 + b) acc bs) as Hf.
  { intros bs acc Hbs. revert acc. induction Hbs; intros acc; [done|]. cbn. by rewrite shift_or_byte. }
  rewrite Hf by auto with bytes. fold (be_value (be_bytes 4 v)).
  rewrite be_value_be_bytes. by apply Z.mod_small.
Qed.
