(* ===== verification/OsFile.v ===== *)
(** Files: the facade [Os::File], [crates/fprime-os/src/file.rs], over the
    part of [std::fs] it uses.

    The operating system is a store of inodes under names and a script that
    says how the next calls behave: in full, in part, or with an error.  An
    empty script is a system without faults.  Theorems hold for every script
    unless they say otherwise. *)

From stdpp Require Import gmap.
From S2P Require Import Prelude Crc32.

(** * [std::fs] *)

Inductive ErrorKind : Set :=
| StorageFull | FileTooLarge | NotFound | PermissionDenied | AlreadyExists | Unsupported | InvalidInput
| Interrupted | OtherKind.
#[export] Instance ErrorKind_eq_dec : EqDecision ErrorKind.
Proof. solve_decision. Defined.

(** How the next call behaves: an error, a transfer of at most so many bytes,
    or everything. *)
Inductive io_event : Set := IoFault (k : ErrorKind) | IoPart (n : nat) | IoFull.

Record World : Type := MkWorld {
  names : gmap (list Z) nat;
  nodes : gmap nat (list Z);
  next_node : nat;
  script : list io_event;
}.

Definition node (w : World) (i : nat) : list Z := default [] (nodes w !! i).
Definition set_node (i : nat) (c : list Z) (w : World) : World :=
  MkWorld (names w) (<[i:=c]> (nodes w)) (next_node w) (script w).
(** The file of a name. *)
Definition file_at (w : World) (p : list Z) : option (list Z) := node w <$> names w !! p.

Definition next_event (w : World) : io_event * World :=
  match script w with
  | [] => (IoFull, w)
  | e :: es => (e, MkWorld (names w) (nodes w) (next_node w) es)
  end.

Definition create_node (p : list Z) (w : World) : nat * World :=
  (next_node w, MkWorld (<[p:=next_node w]> (names w)) (<[next_node w:=[]]> (nodes w)) (S (next_node w)) (script w)).

(** An open descriptor; [pos] is the offset of the next read or write. *)
Record StdFile : Set := MkFd { fd_node : nat; fd_pos : nat; fd_read : bool; fd_append : bool }.
Definition set_pos (n : nat) (fd : StdFile) : StdFile := MkFd (fd_node fd) n (fd_read fd) (fd_append fd).

Record OpenOptions : Set := MkOptions {
  opt_read : bool; opt_write : bool; opt_append : bool; opt_create : bool; opt_create_new : bool; opt_truncate : bool }.

Definition std_open (o : OpenOptions) (p : list Z) (w : World) : (ErrorKind + StdFile) * World :=
  let '(e, w) := next_event w in
  match e with
  | IoFault k => (inl k, w)
  | _ =>
      match names w !! p with
      | Some i =>
          if opt_create_new o then (inl AlreadyExists, w)
          else (inr (MkFd i 0 (opt_read o) (opt_append o)), if opt_truncate o then set_node i [] w else w)
      | None =>
          if opt_create o || opt_create_new o then
            let '(i, w) := create_node p w in (inr (MkFd i 0 (opt_read o) (opt_append o)), w)
          else (inl NotFound, w)
      end
  end.

(** The bytes of a write at an offset; a gap reads as zeros. *)
Definition write_at (off : nat) (bs c : list Z) : list Z :=
  take off (c ++ replicate (off - length c) 0%Z) ++ bs ++ drop (off + length bs) c.

(** [write]: the bytes taken by the system. *)
Definition std_write (bs : list Z) (fd : StdFile) (w : World) : (ErrorKind + nat) * StdFile * World :=
  let '(e, w) := next_event w in
  match e with
  | IoFault k => (inl k, fd, w)
  | _ =>
      let n := match e with IoPart n => n `min` length bs | _ => length bs end in
      let c := node w (fd_node fd) in
      let off := if fd_append fd then length c else fd_pos fd in
      if bool_decide (n = 0) then (inr 0, fd, w)
      else (inr n, set_pos (off + n) fd, set_node (fd_node fd) (write_at off (take n bs) c) w)
  end.

(** [read] into [n] bytes: none only at the end of the file. *)
Definition std_read (n : nat) (fd : StdFile) (w : World) : (ErrorKind + list Z) * StdFile * World :=
  let '(e, w) := next_event w in
  match e with
  | IoFault k => (inl k, fd, w)
  | _ =>
      if fd_read fd then
        let m := match e with IoPart m => (m `max` 1) `min` n | _ => n end in
        let bs := slice (fd_pos fd) m (node w (fd_node fd)) in
        (inr bs, set_pos (fd_pos fd + length bs) fd, w)
      else (inl OtherKind, fd, w)
  end.

Inductive SeekFrom : Set := SeekStart (n : Z) | SeekCurrent (off : Z).
Definition I64_MAX : Z := 2 ^ 63 - 1.

Definition std_seek (s : SeekFrom) (fd : StdFile) (w : World) : (ErrorKind + nat) * StdFile * World :=
  let '(e, w) := next_event w in
  match e with
  | IoFault k => (inl k, fd, w)
  | _ =>
      let target := match s with SeekStart n => n | SeekCurrent off => (Z.of_nat (fd_pos fd) + off)%Z end in
      if ((0 <=? target) && (target <=? I64_MAX))%Z then (inr (Z.to_nat target), set_pos (Z.to_nat target) fd, w)
      else (inl InvalidInput, fd, w)
  end.

Definition std_len (fd : StdFile) (w : World) : (ErrorKind + nat) * World :=
  let '(e, w) := next_event w in
  match e with IoFault k => (inl k, w) | _ => (inr (length (node w (fd_node fd))), w) end.
Definition std_position (fd : StdFile) (w : World) : (ErrorKind + nat) * World :=
  let '(e, w) := next_event w in
  match e with IoFault k => (inl k, w) | _ => (inr (fd_pos fd), w) end.
Definition std_sync (w : World) : option ErrorKind * World :=
  let '(e, w) := next_event w in
  match e with IoFault k => (Some k, w) | _ => (None, w) end.

(** * Data *)

Inductive FileMode : Set := OpenNoMode | OpenRead | OpenCreate | OpenWrite | OpenSyncWrite | OpenAppend.
#[export] Instance FileMode_eq_dec : EqDecision FileMode.
Proof. solve_decision. Defined.
Inductive FileStatus : Set :=
| FsOpOk | FsDoesntExist | FsNoSpace | FsNoPermission | FsBadSize | FsNotOpened | FsFileExists | FsNotSupported
| FsInvalidMode | FsInvalidArgument | FsNoMoreResources | FsOtherError | FsOutsideSandbox.
#[export] Instance FileStatus_eq_dec : EqDecision FileStatus.
Proof. solve_decision. Defined.
(** [status as i32]. *)
Definition FileStatus_repr (s : FileStatus) : Z :=
  match s with
  | FsOpOk => 0 | FsDoesntExist => 1 | FsNoSpace => 2 | FsNoPermission => 3 | FsBadSize => 4 | FsNotOpened => 5
  | FsFileExists => 6 | FsNotSupported => 7 | FsInvalidMode => 8 | FsInvalidArgument => 9 | FsNoMoreResources => 10
  | FsOtherError => 11 | FsOutsideSandbox => 12
  end.
Inductive OverwriteType : Set := NoOverwrite | Overwrite.
Inductive SeekType : Set := Relative | Absolute.
Inductive WaitType : Set := NoWait | Wait.
#[export] Instance OverwriteType_eq_dec : EqDecision OverwriteType.
Proof. solve_decision. Defined.
#[export] Instance SeekType_eq_dec : EqDecision SeekType.
Proof. solve_decision. Defined.
#[export] Instance WaitType_eq_dec : EqDecision WaitType.
Proof. solve_decision. Defined.

Definition FW_FILE_CHUNK_SIZE : nat := 512.
Definition INITIAL_CRC : Z := 0xFFFFFFFF.

Definition map_io_error (k : ErrorKind) : FileStatus :=
  match k with
  | StorageFull | FileTooLarge => FsNoSpace
  | NotFound => FsDoesntExist
  | PermissionDenied => FsNoPermission
  | AlreadyExists => FsFileExists
  | Unsupported => FsNotSupported
  | InvalidInput => FsInvalidArgument
  | _ => FsOtherError
  end.

(** [make_crc32_table] and [crc32_update] repeat those of [Utils::Hash]. *)
Definition file_crc_bit (crc : Z) : Z :=
  if negb (Z.land crc 1 =? 0)%Z then Z.lxor (Z.shiftr crc 1) 0xEDB88320 else Z.shiftr crc 1.
Definition make_crc32_table : list Z := (λ i, Nat.iter 8 file_crc_bit (Z.of_nat i)) <$> seq 0 256.
Definition FILE_CRC32_TABLE : list Z := Eval vm_compute in make_crc32_table.
Definition crc32_update (register : Z) (data : list Z) : Z :=
  foldl (λ crc byte, Z.lxor (Z.shiftr crc 8) (FILE_CRC32_TABLE !!! Z.to_nat (Z.land (Z.lxor crc byte) 0xFF))) register data.

Record File : Type := MkFile {
  fd : option StdFile;
  mode : FileMode;
  crc : Z;
  crc_buffer : list Z;
}.
Definition File_new : File := MkFile None OpenNoMode INITIAL_CRC (replicate FW_FILE_CHUNK_SIZE 0%Z).

(** A file and the system it lives in. *)
Definition FileW : Type := File * World.

Definition is_open (f : FileW) : bool := negb (bool_decide (mode f.1 = OpenNoMode)).
Definition set_fd (d : StdFile) (f : File) : File := MkFile (Some d) (mode f) (crc f) (crc_buffer f).

(** * Operations *)

Definition options_of (m : FileMode) (o : OverwriteType) : OpenOptions :=
  match m with
  | OpenNoMode => MkOptions false false false false false false
  | OpenRead => MkOptions true false false false false false
  | OpenWrite | OpenSyncWrite => MkOptions false true false true false false
  | OpenCreate =>
      if bool_decide (o = NoOverwrite) then MkOptions false true false false true false
      else MkOptions false true false true false true
  | OpenAppend => MkOptions false false true true false false
  end.

Definition open_with_overwrite (p : list Z) (m : FileMode) (o : OverwriteType) (f : FileW) : outcome (FileStatus * FileW) :=
  _ ← fw_assert (negb (bool_decide (m = OpenNoMode)));
  if is_open f then Ret (FsInvalidMode, f)
  else
    let '(r, w) := std_open (options_of m o) p f.2 in
    match r with
    | inr d => Ret (FsOpOk, (MkFile (Some d) m INITIAL_CRC (crc_buffer f.1), w))
    | inl k => Ret (map_io_error k, (f.1, w))
    end.
Definition file_open (p : list Z) (m : FileMode) (f : FileW) : outcome (FileStatus * FileW) :=
  open_with_overwrite p m NoOverwrite f.

Definition file_close (f : FileW) : FileW := (MkFile None OpenNoMode (crc f.1) (crc_buffer f.1), f.2).

(** [size] and [position]: [None] leaves the caller's variable alone. *)
Definition file_size_of (f : FileW) : FileStatus * option nat * FileW :=
  match fd f.1 with
  | None => (FsNotOpened, None, f)
  | Some d => match std_len d f.2 with
              | (inr n, w) => (FsOpOk, Some n, (f.1, w))
              | (inl k, w) => (map_io_error k, None, (f.1, w))
              end
  end.
Definition file_position (f : FileW) : FileStatus * option nat * FileW :=
  match fd f.1 with
  | None => (FsNotOpened, None, f)
  | Some d => match std_position d f.2 with
              | (inr n, w) => (FsOpOk, Some n, (f.1, w))
              | (inl k, w) => (map_io_error k, None, (f.1, w))
              end
  end.

Definition seek_from (s : SeekFrom) (f : FileW) : FileStatus * FileW :=
  match fd f.1 with
  | None => (FsNotOpened, f)
  | Some d => match std_seek s d f.2 with
              | (inr _, d, w) => (FsOpOk, (set_fd d f.1, w))
              | (inl k, d, w) => (map_io_error k, (set_fd d f.1, w))
              end
  end.
Definition file_seek (offset : Z) (t : SeekType) (f : FileW) : outcome (FileStatus * FileW) :=
  _ ← fw_assert (bool_decide (t = Relative) || (0 <=? offset)%Z);
  Ret (seek_from (if bool_decide (t = Absolute) then SeekStart offset else SeekCurrent offset) f).
Definition seek_absolute (offset : Z) (f : FileW) : FileStatus * FileW := seek_from (SeekStart offset) f.

Definition flush (f : FileW) : FileStatus * FileW :=
  if bool_decide (mode f.1 = OpenNoMode) then (FsNotOpened, f)
  else if bool_decide (mode f.1 = OpenRead) then (FsInvalidMode, f)
  else match fd f.1 with
       | None => (FsNotOpened, f)
       | Some _ => match std_sync f.2 with
                   | (None, w) => (FsOpOk, (f.1, w))
                   | (Some k, w) => (map_io_error k, (f.1, w))
                   end
       end.

(** The bounded loop of [read]: what was read, an error other than an
    interruption, and the descriptor.  [iterations] counts down from
    [2 * size]. *)
Fixpoint read_loop (iterations : nat) (request : nat) (wait : WaitType) (acc : list Z) (d : StdFile) (w : World)
    : option ErrorKind * list Z * StdFile * World :=
  match iterations with
  | O => (None, acc, d, w)
  | S iterations' =>
      if bool_decide (length acc < request) then
        match std_read (request - length acc) d w with
        | (inr bs, d, w) =>
            if bool_decide (bs = []) then (None, acc, d, w)
            else if bool_decide (wait = NoWait) then (None, acc ++ bs, d, w)
            else read_loop iterations' request wait (acc ++ bs) d w
        | (inl k, d, w) =>
            if bool_decide (k = Interrupted) then read_loop iterations' request wait acc d w
            else (Some k, acc, d, w)
        end
      else (None, acc, d, w)
  end.

(** [read] into a buffer of [request] bytes: the status and the bytes read. *)
Definition file_read (request : nat) (wait : WaitType) (f : FileW) : FileStatus * list Z * FileW :=
  if bool_decide (mode f.1 = OpenNoMode) then (FsNotOpened, [], f)
  else if negb (bool_decide (mode f.1 = OpenRead)) then (FsInvalidMode, [], f)
  else match fd f.1 with
       | None => (FsNotOpened, [], f)
       | Some d =>
           let '(e, bs, d, w) := read_loop (2 * request) request wait [] d f.2 in
           (match e with None => FsOpOk | Some k => map_io_error k end, bs, (set_fd d f.1, w))
       end.

Fixpoint write_loop (iterations : nat) (buffer : list Z) (written : nat) (d : StdFile) (w : World)
    : option ErrorKind * nat * StdFile * World :=
  match iterations with
  | O => (None, written, d, w)
  | S iterations' =>
      if bool_decide (written < length buffer) then
        match std_write (drop written buffer) d w with
        | (inr n, d, w) =>
            if bool_decide (n = 0) then (None, written, d, w)
            else write_loop iterations' buffer (written + n) d w
        | (inl k, d, w) =>
            if bool_decide (k = Interrupted) then write_loop iterations' buffer written d w
            else (Some k, written, d, w)
        end
      else (None, written, d, w)
  end.

(** [write]: the status and the number of bytes written. *)
Definition file_write (buffer : list Z) (wait : WaitType) (f : FileW) : FileStatus * nat * FileW :=
  if bool_decide (mode f.1 = OpenNoMode) then (FsNotOpened, 0, f)
  else if bool_decide (mode f.1 = OpenRead) then (FsInvalidMode, 0, f)
  else match fd f.1 with
       | None => (FsNotOpened, 0, f)
       | Some d =>
           let '(e, n, d, w) := write_loop (2 * length buffer) buffer 0 d f.2 in
           match e with
           | Some k => (map_io_error k, n, (set_fd d f.1, w))
           | None =>
               if bool_decide (wait = Wait) || bool_decide (mode f.1 = OpenSyncWrite) then
                 match std_sync w with
                 | (None, w) => (FsOpOk, n, (set_fd d f.1, w))
                 | (Some k, w) => (map_io_error k, n, (set_fd d f.1, w))
                 end
               else (FsOpOk, n, (set_fd d f.1, w))
           end
       end.

(** The position of the first newline. *)
Fixpoint newline (bs : list Z) : option nat :=
  match bs with
  | [] => None
  | b :: bs' => if (b =? 10)%Z then Some 0 else S <$> newline bs'
  end.

(** The scan of [readline]: the status, the size and the bytes in the buffer;
    every turn reads at least a byte, so [requested] turns are enough. *)
Fixpoint readline_loop (turns requested : nat) (wait : WaitType) (original : nat) (buf : list Z) (f : FileW)
    : FileStatus * nat * list Z * FileW :=
  match turns with
  | O => (FsOtherError, 0, buf, (seek_absolute (Z.of_nat original) f).2)
  | S turns' =>
      if bool_decide (length buf < requested) then
        let chunk := (requested - length buf) `min` FW_FILE_CHUNK_SIZE in
        let '(status, bs, f) := file_read chunk wait f in
        if negb (bool_decide (status = FsOpOk)) then
          (status, 0, buf ++ bs, (seek_absolute (Z.of_nat original) f).2)
        else if bool_decide (bs = []) then (FsOpOk, length buf, buf, f)
        else match newline bs with
             | Some found =>
                 let scan := length buf + found in
                 (FsOpOk, scan + 1, buf ++ bs, (seek_absolute (Z.of_nat (original + scan + 1)) f).2)
             | None => readline_loop turns' requested wait original (buf ++ bs) f
             end
      else (FsOtherError, 0, buf, (seek_absolute (Z.of_nat original) f).2)
  end.
Definition readline (requested : nat) (wait : WaitType) (f : FileW) : FileStatus * nat * list Z * FileW :=
  if bool_decide (mode f.1 = OpenNoMode) then (FsNotOpened, 0, [], f)
  else if negb (bool_decide (mode f.1 = OpenRead)) then (FsInvalidMode, 0, [], f)
  else
    let '(status, p, f) := file_position f in
    if negb (bool_decide (status = FsOpOk)) then (status, 0, [], f)
    else readline_loop (S requested) requested wait (default 0 p) [] f.

Definition set_crc (c : Z) (f : FileW) : FileW := (MkFile (fd f.1) (mode f.1) c (crc_buffer f.1), f.2).
Definition set_crc_buffer (b : list Z) (f : FileW) : FileW := (MkFile (fd f.1) (mode f.1) (crc f.1) b, f.2).

(** [incremental_crc]: the status and the size. *)
Definition incremental_crc (size : nat) (f : FileW) : outcome (FileStatus * nat * FileW) :=
  _ ← fw_assert (bool_decide (size ≤ FW_FILE_CHUNK_SIZE));
  if bool_decide (mode f.1 = OpenNoMode) then Ret (FsNotOpened, size, f)
  else if negb (bool_decide (mode f.1 = OpenRead)) then Ret (FsInvalidMode, size, f)
  else
    let '(status, bs, f) := file_read size NoWait f in
    if bool_decide (status = FsOpOk) then
      staging ← copy_into 0 bs (crc_buffer f.1);
      Ret (status, length bs, set_crc (crc32_update (crc f.1) bs) (set_crc_buffer staging f))
    else Ret (status, size, f).

Definition finalize_crc (f : FileW) : FileStatus * Z * FileW := (FsOpOk, crc f.1, set_crc INITIAL_CRC f).

(** [calculate_crc]: [None] when the loop has not ended within [fuel]
    turns. *)
Fixpoint crc_loop (fuel : nat) (f : FileW) : outcome (option (FileStatus * FileW)) :=
  match fuel with
  | O => Ret None
  | S fuel' =>
      '(status, size, f) ← incremental_crc FW_FILE_CHUNK_SIZE f;
      if negb (bool_decide (size = FW_FILE_CHUNK_SIZE)) || negb (bool_decide (status = FsOpOk)) then Ret (Some (status, f))
      else crc_loop fuel' f
  end.
Definition calculate_crc (fuel : nat) (f : FileW) : outcome (option (FileStatus * Z * FileW)) :=
  r ← crc_loop fuel f;
  match r with
  | None => Ret None
  | Some (status, f) =>
      if bool_decide (status = FsOpOk) then Ret (Some (finalize_crc f)) else Ret (Some (status, 0%Z, f))
  end.

(** * Lemmas *)

(** Worlds with the same files. *)
Definition same_files (w w' : World) : Prop := names w' = names w ∧ nodes w' = nodes w ∧ next_node w' = next_node w.
#[export] Instance same_files_preorder : PreOrder same_files.
Proof. split; unfold same_files; [done|]. intros ??? (? & ? & ?) (? & ? & ?). split_and!; congruence. Qed.

Lemma next_event_same w e w' : next_event w = (e, w') → same_files w w'.
Proof. unfold next_event. destruct (script w); by intros [= <- <-]. Qed.
Lemma next_event_quiet w : script w = [] → next_event w = (IoFull, w).
Proof. unfold next_event. by intros ->. Qed.
Lemma same_files_node w w' i : same_files w w' → node w' i = node w i.
Proof. intros (_ & E & _). unfold node. by rewrite E. Qed.

(** ** Reading *)

(** [bs] was read from descriptor [d]. *)
Definition read_from (d : StdFile) (w : World) (bs : list Z) (d' : StdFile) (w' : World) : Prop :=
  bs `prefix_of` drop (fd_pos d) (node w (fd_node d)) ∧ d' = set_pos (fd_pos d + length bs) d ∧ same_files w w'.

Lemma read_from_nil d w w' : same_files w w' → read_from d w [] d w'.
Proof. intros Hw. split_and!; [apply prefix_nil| |done]. cbn. rewrite Nat.add_0_r. by destruct d. Qed.

Lemma read_from_refl d w : read_from d w [] d w.
Proof. by apply read_from_nil. Qed.

Lemma read_from_app d w bs d1 w1 bs' d2 w2 :
  read_from d w bs d1 w1 → read_from d1 w1 bs' d2 w2 → read_from d w (bs ++ bs') d2 w2.
Proof.
  intros ([r Hr] & -> & Hw) ([r' Hr'] & -> & Hw'). cbn in *. rewrite (same_files_node _ _ _ Hw) in Hr'.
  split_and!; [|by unfold set_pos; cbn; rewrite length_app, Nat.add_assoc|by transitivity w1].
  exists r'. rewrite <- app_assoc, <- Hr'. rewrite <- drop_drop, Hr. by rewrite drop_app_length.
Qed.

Lemma std_read_from n d w :
  fd_read d = true →
  match std_read n d w with
  | (inr bs, d', w') => read_from d w bs d' w' ∧ length bs ≤ n ∧
                        (bs = [] → n = 0 ∨ drop (fd_pos d) (node w (fd_node d)) = [])
  | (inl _, d', w') => d' = d ∧ same_files w w'
  end.
Proof.
  intros Hr. unfold std_read. destruct (next_event w) as [e w1] eqn:E. pose proof (next_event_same _ _ _ E) as Hw.
  assert (∀ m, (m = 0 → n = 0) → m ≤ n → read_from d w (slice (fd_pos d) m (node w1 (fd_node d)))
      (set_pos (fd_pos d + length (slice (fd_pos d) m (node w1 (fd_node d)))) d) w1 ∧
    length (slice (fd_pos d) m (node w1 (fd_node d))) ≤ n ∧
    (slice (fd_pos d) m (node w1 (fd_node d)) = [] → n = 0 ∨ drop (fd_pos d) (node w (fd_node d)) = [])) as Hm.
  { intros m H0 Hm. rewrite (same_files_node _ _ _ Hw). unfold slice. rewrite length_take. split_and!; [|lia|].
    - split_and!; [|by rewrite length_take|done]. eexists. symmetry. apply take_drop.
    - intros Ht. destruct m; [left; auto|]. right. by destruct (drop _ _). }
  destruct e as [k|m|]; rewrite ?Hr; [done|apply Hm; lia|apply Hm; lia].
Qed.

Lemma read_loop_from it req wt acc d w e acc' d' w' :
  fd_read d = true → length acc ≤ req → read_loop it req wt acc d w = (e, acc', d', w') →
  ∃ bs, acc' = acc ++ bs ∧ read_from d w bs d' w' ∧ length acc' ≤ req.
Proof.
  revert acc d w. induction it as [|it IH]; intros acc d w Hr Hl; cbn [read_loop].
  { intros [= <- <- <- <-]. exists []. rewrite app_nil_r. auto using read_from_nil, read_from_refl. }
  case_bool_decide as Hlt; [|intros [= <- <- <- <-]; exists []; rewrite app_nil_r; by auto using read_from_nil, read_from_refl].
  pose proof (std_read_from (req - length acc) d w Hr) as Hs. destruct (std_read _ d w) as [[[k|bs] d1] w1].
  - destruct Hs as [-> Hw]. case_bool_decide.
    + intros E. destruct (IH _ _ _ Hr Hl E) as (bs & -> & Hf & Hl'). exists bs. split_and!; [done| |done].
      apply (read_from_app _ _ [] d w1); [by apply read_from_nil|done].
    + intros [= <- <- <- <-]. exists []. rewrite app_nil_r. auto using read_from_nil, read_from_refl.
  - destruct Hs as (Hf & Hlb & _). case_bool_decide as Hb; [subst|case_bool_decide].
    + intros [= <- <- <- <-]. exists []. rewrite app_nil_r. auto.
    + intros [= <- <- <- <-]. exists bs. rewrite length_app. split_and!; [done|done|lia].
    + intros E. assert (fd_read d1 = true) as Hr1 by (by destruct Hf as (_ & -> & _)).
      assert (length (acc ++ bs) ≤ req) as Hl1 by (rewrite length_app; lia).
      destruct (IH _ _ _ Hr1 Hl1 E) as (bs' & -> & Hf' & Hl').
      exists (bs ++ bs'). rewrite app_assoc. split_and!; [done|by eapply read_from_app|done].
Qed.

(** Open for reading, by descriptor [d]. *)
Definition reading (f : FileW) (d : StdFile) : Prop := mode f.1 = OpenRead ∧ fd f.1 = Some d ∧ fd_read d = true.
Definition quiet (f : FileW) : Prop := script f.2 = [].

Lemma file_read_from req wt f d st bs f' :
  reading f d → file_read req wt f = (st, bs, f') →
  ∃ d' w', f' = (set_fd d' f.1, w') ∧ read_from d f.2 bs d' w' ∧ length bs ≤ req ∧ reading f' d'.
Proof.
  intros (Hm & Hfd & Hr). unfold file_read. rewrite Hm, Hfd. cbn -[read_loop].
  destruct (read_loop _ _ _ _ _ _) as [[[e acc] d'] w'] eqn:E. intros [= <- <- <-].
  destruct (read_loop_from _ _ _ [] _ _ _ _ _ _ Hr (Nat.le_0_l _) E) as (bs' & -> & Hf & Hl). cbn [app] in *.
  exists d', w'. split_and!; [done|done|done|]. destruct Hf as (_ & -> & _). by split_and!.
Qed.

Lemma std_read_quiet n d w :
  fd_read d = true → script w = [] →
  std_read n d w = (inr (slice (fd_pos d) n (node w (fd_node d))),
                    set_pos (fd_pos d + length (slice (fd_pos d) n (node w (fd_node d)))) d, w).
Proof. intros Hr Hq. unfold std_read. rewrite next_event_quiet by done. by rewrite Hr. Qed.

Lemma slice_all_read {A} pos n (l : list A) : length (slice pos n l) < n → slice pos n l = drop pos l.
Proof. unfold slice. rewrite length_take. intros H. apply take_ge. lia. Qed.

(** Without faults a read returns everything asked for. *)
Lemma read_loop_quiet it req wt d w :
  fd_read d = true → script w = [] → 2 ≤ it → 0 < req →
  let bs := slice (fd_pos d) req (node w (fd_node d)) in
  read_loop it req wt [] d w = (None, bs, set_pos (fd_pos d + length bs) d, w).
Proof.
  intros Hr Hq Hit Hreq bs. destruct it as [|[|it]]; [lia..|]. cbn [read_loop length].
  rewrite bool_decide_eq_true_2, Nat.sub_0_r by done. rewrite std_read_quiet by done. fold bs. cbn [app].
  case_bool_decide as Hb; [rewrite Hb; cbn; rewrite Nat.add_0_r; by destruct d|]. case_bool_decide; [done|].
  case_bool_decide as Hl; [|done]. rewrite std_read_quiet by done. cbn [set_pos fd_pos fd_node].
  assert (slice (fd_pos d + length bs) (req - length bs) (node w (fd_node d)) = []) as ->.
  { unfold slice. unfold bs in Hl |- *. rewrite slice_all_read by done. rewrite length_drop, (drop_ge _ (fd_pos d + _)) by lia. apply take_nil. }
  rewrite bool_decide_eq_true_2 by done. cbn. by rewrite Nat.add_0_r.
Qed.

Lemma file_read_quiet req wt f d :
  reading f d → quiet f → 0 < req →
  let bs := slice (fd_pos d) req (node f.2 (fd_node d)) in
  file_read req wt f = (FsOpOk, bs, (set_fd (set_pos (fd_pos d + length bs) d) f.1, f.2)).
Proof.
  intros (Hm & Hfd & Hr) Hq Hreq bs. unfold file_read. rewrite Hm, Hfd. cbn -[read_loop Nat.mul].
  by rewrite read_loop_quiet by (done || lia).
Qed.

Lemma file_read_quiet_all req wt f d :
  reading f d → quiet f →
  let bs := slice (fd_pos d) req (node f.2 (fd_node d)) in
  file_read req wt f = (FsOpOk, bs, (set_fd (set_pos (fd_pos d + length bs) d) f.1, f.2)).
Proof.
  intros Hr Hq. destruct (decide (req = 0)) as [->|Hn]; [|apply file_read_quiet; [done|done|lia]].
  destruct Hr as (Hm & Hfd & _). unfold file_read, slice. rewrite Hm, Hfd, take_0. cbn. rewrite Nat.add_0_r. by destruct d.
Qed.

(** ** Writing *)

Lemma length_filled (off : nat) (c : list Z) : length (take off (c ++ replicate (off - length c) 0%Z)) = off.
Proof. rewrite length_take, length_app, length_replicate. lia. Qed.

Lemma length_write_at off bs c : length (write_at off bs c) = (off + length bs) `max` length c.
Proof. unfold write_at. rewrite !length_app, length_filled, length_drop. lia. Qed.

Lemma write_at_app off bs bs' c : write_at (off + length bs) bs' (write_at off bs c) = write_at off (bs ++ bs') c.
Proof.
  unfold write_at at 1. rewrite length_write_at. replace (off + length bs - (off + length bs) `max` length c) with 0 by lia.
  cbn [replicate]. rewrite app_nil_r. unfold write_at.
  set (x := take off (c ++ replicate (off - length c) 0%Z)). assert (length x = off) as Hx by apply length_filled.
  rewrite (app_assoc x bs). rewrite take_app_length' by (rewrite length_app; lia).
  rewrite (drop_app_ge (x ++ bs)) by (rewrite length_app; lia). rewrite drop_drop, !length_app, Hx, <- !app_assoc. do 4 f_equal. lia.
Qed.

(** Over a prefix of the file, or at its end, a write leaves no gap. *)
Lemma write_at_over bs c : write_at 0 bs c = bs ++ drop (length bs) c.
Proof. done. Qed.
Lemma write_at_end bs c : write_at (length c) bs c = c ++ bs.
Proof. unfold write_at. rewrite Nat.sub_diag, take_app_length, drop_ge by lia. by rewrite app_nil_r. Qed.

Definition write_offset (d : StdFile) (w : World) : nat := if fd_append d then length (node w (fd_node d)) else fd_pos d.

(** [bs] was written through descriptor [d]. *)
Definition wrote (d : StdFile) (w : World) (bs : list Z) (d' : StdFile) (w' : World) : Prop :=
  names w' = names w ∧ next_node w' = next_node w ∧
  if decide (bs = []) then d' = d ∧ nodes w' = nodes w
  else d' = set_pos (write_offset d w + length bs) d ∧
       nodes w' = <[fd_node d := write_at (write_offset d w) bs (node w (fd_node d))]> (nodes w).

Lemma wrote_nil d w w' : same_files w w' → wrote d w [] d w'.
Proof. intros (? & ? & ?). split_and!; [done..|]. by rewrite decide_True. Qed.

Lemma wrote_app d w bs d1 w1 bs' d2 w2 : wrote d w bs d1 w1 → wrote d1 w1 bs' d2 w2 → wrote d w (bs ++ bs') d2 w2.
Proof.
  intros (En & Ex & H1) (En' & Ex' & H2). split_and!; [congruence..|].
  destruct (decide (bs = [])) as [->|Hb]; [|destruct (decide (bs' = [])) as [->|Hb']].
  - destruct H1 as [-> E]. unfold write_offset, node in *. cbn [app] in *. rewrite E in *. done.
  - destruct H1 as [-> E1], H2 as [-> E2]. rewrite app_nil_r, decide_False by done. by rewrite E2.
  - rewrite decide_False by (by intros [? ?]%app_eq_nil).
    destruct H1 as [-> E1], H2 as [-> E2].
    assert (node w1 (fd_node d) = write_at (write_offset d w) bs (node w (fd_node d))) as En1 by (unfold node at 1; by rewrite E1, lookup_insert_eq).
    assert (write_offset (set_pos (write_offset d w + length bs) d) w1 = write_offset d w + length bs) as Eo.
    { unfold write_offset at 1. cbn. rewrite En1. unfold write_offset. destruct (fd_append d); [|done]. rewrite length_write_at. lia. }
    cbn [set_pos fd_node] in *. rewrite Eo in E2 |- *. unfold set_pos. cbn. rewrite length_app, Nat.add_assoc. split; [done|].
    by rewrite E2, E1, insert_insert_eq, En1, write_at_app.
Qed.

Lemma std_write_wrote bs d w :
  match std_write bs d w with
  | (inr n, d', w') => n ≤ length bs ∧ wrote d w (take n bs) d' w'
  | (inl _, d', w') => d' = d ∧ same_files w w'
  end.
Proof.
  unfold std_write. destruct (next_event w) as [e w1] eqn:E. pose proof (next_event_same _ _ _ E) as Hw.
  assert (∀ n, n ≤ length bs → n ≠ 0 →
    wrote d w (take n bs) (set_pos ((if fd_append d then length (node w1 (fd_node d)) else fd_pos d) + n) d)
      (set_node (fd_node d) (write_at (if fd_append d then length (node w1 (fd_node d)) else fd_pos d) (take n bs) (node w1 (fd_node d))) w1)) as Hn.
  { intros n Hn H0. rewrite (same_files_node _ _ _ Hw). destruct Hw as (? & Ew & ?). split_and!; [done|done|].
    rewrite decide_False by (intros E0%(f_equal length); rewrite length_take in E0; cbn in E0; lia).
    rewrite length_take, Nat.min_l by done. split; [done|]. cbn [set_node nodes]. by rewrite Ew. }
  destruct e as [k|m|]; [done|..]; case_bool_decide as H0.
  all: try (split; [lia|]; by apply wrote_nil).
  - split; [lia|]. apply Hn; lia.
  - split; [lia|]. apply Hn; lia.
Qed.

Lemma write_loop_wrote it bs n d w e n' d' w' :
  n ≤ length bs → write_loop it bs n d w = (e, n', d', w') →
  n ≤ n' ≤ length bs ∧ wrote d w (slice n (n' - n) bs) d' w'.
Proof.
  revert n d w. induction it as [|it IH]; intros n d w Hn; cbn [write_loop].
  { intros [= <- <- <- <-]. rewrite Nat.sub_diag. split; [lia|]. by apply wrote_nil. }
  assert (∀ w1, same_files w w1 → wrote d w (slice n (n - n) bs) d w1) as H0.
  { intros w1 Hw. rewrite Nat.sub_diag. by apply wrote_nil. }
  case_bool_decide as Hlt; [|intros [= <- <- <- <-]; split; [lia|by apply H0]].
  pose proof (std_write_wrote (drop n bs) d w) as Hs. destruct (std_write _ d w) as [[[k|m] d1] w1].
  - destruct Hs as [-> Hw]. case_bool_decide.
    + intros E. destruct (IH _ _ _ Hn E) as [Hle Hf]. split; [done|]. apply (wrote_app _ _ [] d w1); [by apply wrote_nil|done].
    + intros [= <- <- <- <-]. split; [lia|by apply H0].
  - destruct Hs as (Hm & Hf). rewrite length_drop in Hm. case_bool_decide as Hb; [subst|].
    + intros [= <- <- <- <-]. split; [lia|]. rewrite Nat.sub_diag. done.
    + intros E. assert (n + m ≤ length bs) as Hnm by lia. destruct (IH _ _ _ Hnm E) as [Hle Hf'].
      split; [lia|]. replace (n' - n) with (m + (n' - (n + m))) by lia. rewrite slice_app. by eapply wrote_app.
Qed.

(** Open for writing, by descriptor [d]. *)
Definition writing (f : FileW) (d : StdFile) : Prop := mode f.1 ≠ OpenNoMode ∧ mode f.1 ≠ OpenRead ∧ fd f.1 = Some d.

Lemma writing_not_idle f d : writing f d → bool_decide (mode f.1 = OpenNoMode) = false ∧ bool_decide (mode f.1 = OpenRead) = false ∧ fd f.1 = Some d.
Proof. intros (? & ? & ?). split_and!; [by apply bool_decide_eq_false_2..|done]. Qed.

Lemma write_loop_quiet it bs d w :
  script w = [] → 0 < it → bs ≠ [] →
  write_loop it bs 0 d w =
    (None, length bs, set_pos (write_offset d w + length bs) d,
     set_node (fd_node d) (write_at (write_offset d w) bs (node w (fd_node d))) w).
Proof.
  intros Hq Hit Hb. destruct it as [|it]; [lia|]. assert (0 < length bs) as Hl by (destruct bs; [done|cbn; lia]).
  assert (std_write bs d w = (inr (length bs), set_pos (write_offset d w + length bs) d,
     set_node (fd_node d) (write_at (write_offset d w) bs (node w (fd_node d))) w)) as E.
  { unfold std_write. rewrite next_event_quiet by done. rewrite bool_decide_eq_false_2 by lia. by rewrite firstn_all. }
  cbn [write_loop]. rewrite bool_decide_eq_true_2, drop_0, E, bool_decide_eq_false_2 by lia.
  destruct it as [|it]; cbn [write_loop Nat.add]; [done|]. by rewrite bool_decide_eq_false_2 by lia.
Qed.

Lemma write_loop_bytes it bs d w e n d' w' :
  write_loop it bs 0 d w = (e, n, d', w') → n ≤ length bs ∧ wrote d w (take n bs) d' w'.
Proof.
  intros E. destruct (write_loop_wrote _ _ _ _ _ _ _ _ _ (Nat.le_0_l _) E) as [Hn Hf]. rewrite Nat.sub_0_r in Hf. by split; [lia|].
Qed.

Lemma std_sync_same w : match std_sync w with (_, w') => same_files w w' end.
Proof. unfold std_sync. destruct (next_event w) as [e w1] eqn:E. apply next_event_same in E. by destruct e. Qed.

Lemma wrote_same d w bs d' w1 w2 : wrote d w bs d' w1 → same_files w1 w2 → wrote d w bs d' w2.
Proof. intros (? & ? & H) (? & Ew & ?). split_and!; [congruence..|]. by rewrite Ew. Qed.

Lemma file_write_wrote bs wt f d st n f' :
  writing f d → file_write bs wt f = (st, n, f') →
  ∃ d' w', f' = (set_fd d' f.1, w') ∧ n ≤ length bs ∧ wrote d f.2 (take n bs) d' w'.
Proof.
  intros (Hm1 & Hm2 & Hfd)%writing_not_idle. unfold file_write. rewrite Hm1, Hm2, Hfd.
  destruct (write_loop _ _ _ _ _) as [[[e n0] d'] w'] eqn:E. destruct (write_loop_bytes _ _ _ _ _ _ _ _ E) as [Hn Hf].
  destruct e as [k|]; [intros [= <- <- <-]; eauto|]. case_match; [|intros [= <- <- <-]; eauto].
  pose proof (std_sync_same w') as Hs. destruct (std_sync w') as [[k|] w2]; intros [= <- <- <-]; eauto 10 using wrote_same.
Qed.

Lemma file_write_quiet bs wt f d :
  writing f d → quiet f → bs ≠ [] →
  file_write bs wt f = (FsOpOk, length bs,
    (set_fd (set_pos (write_offset d f.2 + length bs) d) f.1,
     set_node (fd_node d) (write_at (write_offset d f.2) bs (node f.2 (fd_node d))) f.2)).
Proof.
  intros (Hm1 & Hm2 & Hfd)%writing_not_idle Hq Hb. unfold file_write. rewrite Hm1, Hm2, Hfd.
  rewrite write_loop_quiet by (done || (destruct bs; cbn; [done|lia])).
  case_match; [|done]. unfold std_sync. by rewrite next_event_quiet by done.
Qed.

(** A write puts a prefix of the buffer at the current offset, whatever
    the system does: however the transfer is cut, interrupted or refused, the
    file afterwards is the old one with the first [n] bytes of the buffer at
    the offset (the end, for a file opened to append; a gap reads as zeros),
    where [n] is the reported count; no other file changes.  On a system
    without faults everything is written. *)
Theorem file_write_exact bs wt f d :
  writing f d →
  ∃ st n d' w', file_write bs wt f = (st, n, (set_fd d' f.1, w')) ∧ n ≤ length bs ∧
    wrote d f.2 (take n bs) d' w' ∧
    (n ≠ 0 → node w' (fd_node d) = write_at (write_offset d f.2) (take n bs) (node f.2 (fd_node d))) ∧
    (∀ i, i ≠ fd_node d → node w' i = node f.2 i) ∧
    (quiet f → st = FsOpOk ∧ n = length bs).
Proof.
  intros Hf. destruct (file_write bs wt f) as [[st n] f'] eqn:E.
  destruct (file_write_wrote _ _ _ _ _ _ _ Hf E) as (d' & w' & -> & Hn & Hw). exists st, n, d', w'. split_and!; [done..| | |].
  - intros H0. destruct Hw as (_ & _ & Hw). rewrite decide_False in Hw
      by (intros E0%(f_equal length); rewrite length_take in E0; cbn in E0; lia).
    unfold node at 1. by rewrite (proj2 Hw), lookup_insert_eq.
  - intros i Hi. destruct Hw as (_ & _ & Hw). unfold node. case_decide; destruct Hw as [_ ->]; [done|].
    by rewrite lookup_insert_ne.
  - intros Hq. destruct (decide (bs = [])) as [->|Hb]; [|rewrite (file_write_quiet _ _ _ _ Hf Hq Hb) in E; by injection E as <- <- _ _].
    destruct (writing_not_idle _ _ Hf) as (Hm1 & Hm2 & Hfd). unfold file_write in E. rewrite Hm1, Hm2, Hfd in E. cbn in E.
    revert E. case_match; [unfold std_sync; rewrite next_event_quiet by done|]; by intros [= <- <- _ _].
Qed.

(** ** The CRC of a file *)

Lemma crc32_update_hash r bs : crc32_update r bs = handle (Hash_update bs (MkHash r)).
Proof. assert (FILE_CRC32_TABLE = CRC32_TABLE) as E by (vm_compute; reflexivity). unfold crc32_update. by rewrite E. Qed.
Lemma crc32_update_app r bs bs' : crc32_update r (bs ++ bs') = crc32_update (crc32_update r bs) bs'.
Proof. apply foldl_app. Qed.

Lemma incremental_crc_ok f d :
  reading f d → length (crc_buffer f.1) = FW_FILE_CHUNK_SIZE →
  ∃ st bs f' d', incremental_crc FW_FILE_CHUNK_SIZE f = Ret (st, if decide (st = FsOpOk) then length bs else FW_FILE_CHUNK_SIZE, f') ∧
    read_from d f.2 bs d' f'.2 ∧ length bs ≤ FW_FILE_CHUNK_SIZE ∧ reading f' d' ∧ length (crc_buffer f'.1) = FW_FILE_CHUNK_SIZE ∧
    (st = FsOpOk → crc f'.1 = crc32_update (crc f.1) bs) ∧
    (quiet f → quiet f' ∧ st = FsOpOk ∧ bs = slice (fd_pos d) FW_FILE_CHUNK_SIZE (node f.2 (fd_node d))).
Proof.
  intros Hf Hb. unfold incremental_crc. rewrite (bool_decide_eq_true_2 (FW_FILE_CHUNK_SIZE ≤ _)) by lia. cbn [fw_assert]. rewrite outcome_bind_ret.
  pose proof Hf as (Hm & _). rewrite Hm. rewrite (bool_decide_eq_false_2 (OpenRead = OpenNoMode)), (bool_decide_eq_true_2 (OpenRead = OpenRead)) by done. cbn [negb].
  destruct (file_read FW_FILE_CHUNK_SIZE NoWait f) as [[st bs] f1] eqn:E.
  destruct (file_read_from _ _ _ _ _ _ _ Hf E) as (d' & w' & -> & Hr & Hl & Hf'). cbn [fst crc_buffer set_fd].
  assert (quiet f → quiet (set_fd d' f.1, w') ∧ st = FsOpOk ∧ bs = slice (fd_pos d) FW_FILE_CHUNK_SIZE (node f.2 (fd_node d))) as Hq.
  { intros Hq. rewrite (file_read_quiet _ _ _ _ Hf Hq) in E by (unfold FW_FILE_CHUNK_SIZE; lia). by injection E as <- <- <- <-. }
  case_bool_decide as Hst.
  - unfold copy_into. rewrite bool_decide_eq_true_2 by lia. rewrite outcome_bind_ret.
    eexists _, bs, _, d'. split; [by rewrite decide_True by done|]. split_and!; try done.
    cbn. rewrite length_splice; [done|cbn; lia].
  - eexists _, bs, _, d'. split; [by rewrite decide_False by done|]. by split_and!.
Qed.

Lemma crc_loop_ok fuel f d :
  reading f d → length (crc_buffer f.1) = FW_FILE_CHUNK_SIZE →
  length (drop (fd_pos d) (node f.2 (fd_node d))) < FW_FILE_CHUNK_SIZE * fuel →
  ∃ st bs f' d', crc_loop fuel f = Ret (Some (st, f')) ∧ read_from d f.2 bs d' f'.2 ∧ reading f' d' ∧
    (st = FsOpOk → crc f'.1 = crc32_update (crc f.1) bs) ∧
    (quiet f → quiet f' ∧ st = FsOpOk ∧ bs = drop (fd_pos d) (node f.2 (fd_node d))).
Proof.
  revert f d. induction fuel as [|fuel IH]; intros f d Hf Hb Hfuel; [lia|]. cbn [crc_loop].
  destruct (incremental_crc_ok f d Hf Hb) as (st & bs & f1 & d1 & -> & Hr & Hl & Hf1 & Hb1 & Hc & Hq). rewrite outcome_bind_ret.
  destruct (decide (st = FsOpOk)) as [->|Hst].
  2: { rewrite (bool_decide_eq_false_2 (st = FsOpOk)) by done. rewrite orb_true_r. exists st, bs, f1, d1. split_and!; try done. intros Hq0. by destruct (Hq Hq0) as (_ & ? & _). }
  rewrite (bool_decide_eq_true_2 (FsOpOk = FsOpOk)) by done. rewrite orb_false_r. case_bool_decide as Hlen; cbn [negb].
  - destruct Hr as ([r Hr] & -> & Hw).
    assert (drop (fd_pos d + length bs) (node f.2 (fd_node d)) = r) as Hd by (by rewrite <- drop_drop, Hr, drop_app_length).
    destruct (IH f1 (set_pos (fd_pos d + length bs) d) Hf1 Hb1) as (st & bs' & f2 & d2 & E & Hr2 & Hf2 & Hc2 & Hq2).
    { cbn [set_pos fd_pos fd_node]. rewrite (same_files_node _ _ _ Hw), Hd. rewrite Hr, length_app, Hlen in Hfuel. unfold FW_FILE_CHUNK_SIZE in *. lia. }
    exists st, (bs ++ bs'), f2, d2. split; [done|]. split; [eapply read_from_app; [|done]; split_and!; [by exists r|done|done]|]. split; [done|]. split.
    + intros ->. rewrite Hc2, Hc by done. by rewrite crc32_update_app.
    + intros Hq0. destruct (Hq Hq0) as (Hq1 & _ & _). destruct (Hq2 Hq1) as (Hq' & -> & ->). split_and!; [done|done|].
      cbn [set_pos fd_pos fd_node]. by rewrite (same_files_node _ _ _ Hw), Hd, Hr.
  - exists FsOpOk, bs, f1, d1. split_and!; try done. intros Hq0. destruct (Hq Hq0) as (Hq1 & _ & ->). split_and!; [done|done|].
    apply slice_all_read. lia.
Qed.

Lemma calculate_crc_ok f d fuel :
  reading f d → crc f.1 = INITIAL_CRC → length (crc_buffer f.1) = FW_FILE_CHUNK_SIZE →
  length (drop (fd_pos d) (node f.2 (fd_node d))) / FW_FILE_CHUNK_SIZE < fuel →
  ∃ st bs f' d', bs `prefix_of` drop (fd_pos d) (node f.2 (fd_node d)) ∧ same_files f.2 f'.2 ∧ reading f' d' ∧ fd_node d' = fd_node d ∧
    calculate_crc fuel f = Ret (Some (st, if decide (st = FsOpOk) then not32 (hash_u32 bs) else 0%Z, f')) ∧
    (quiet f → quiet f' ∧ st = FsOpOk ∧ bs = drop (fd_pos d) (node f.2 (fd_node d))).
Proof.
  intros Hf Hc Hb Hfuel. destruct (crc_loop_ok fuel f d Hf Hb) as (st & bs & f' & d' & E & Hr & Hf' & Hcrc & Hq).
  { pose proof (Nat.mod_upper_bound (length (drop (fd_pos d) (node f.2 (fd_node d)))) FW_FILE_CHUNK_SIZE ltac:(done)).
    pose proof (Nat.div_mod_eq (length (drop (fd_pos d) (node f.2 (fd_node d)))) FW_FILE_CHUNK_SIZE). unfold FW_FILE_CHUNK_SIZE in *. lia. }
  unfold calculate_crc. rewrite E, outcome_bind_ret. destruct Hr as (Hp & Hd & Hw). assert (fd_node d' = fd_node d) as Hn by (by rewrite Hd). case_bool_decide as Hst.
  - exists st, bs, (set_crc INITIAL_CRC f'), d'. subst st. rewrite decide_True by done. split_and!; [done|done|done|done| |done].
    unfold finalize_crc. rewrite Hcrc, Hc by done. do 3 f_equal. unfold hash_u32, finalize. by rewrite crc32_update_hash, not32_invol.
  - exists st, bs, f', d'. rewrite decide_False by done. by split_and!.
Qed.

(** C40. The CRC of a file.  For every behaviour of the system the loop ends
    within one turn more than there are whole chunks; a status other than
    [OpOk] gives the value 0, and [OpOk] the complement of the CRC-32 of some
    initial part of what follows the read position.  On a system without
    faults that part is all of it: the value is the complement of the hash
    [Utils::Hash] computes. *)
Theorem calculate_crc_exact f d fuel :
  reading f d → crc f.1 = INITIAL_CRC → length (crc_buffer f.1) = FW_FILE_CHUNK_SIZE →
  length (drop (fd_pos d) (node f.2 (fd_node d))) / FW_FILE_CHUNK_SIZE < fuel →
  ∃ st bs f', bs `prefix_of` drop (fd_pos d) (node f.2 (fd_node d)) ∧ same_files f.2 f'.2 ∧
    calculate_crc fuel f = Ret (Some (st, if decide (st = FsOpOk) then not32 (hash_u32 bs) else 0%Z, f')) ∧
    (quiet f → st = FsOpOk ∧ bs = drop (fd_pos d) (node f.2 (fd_node d))).
Proof.
  intros Hf Hc Hb Hfuel. destruct (calculate_crc_ok f d fuel Hf Hc Hb Hfuel) as (st & bs & f' & d' & Hp & Hw & _ & _ & E & Hq).
  exists st, bs, f'. split_and!; try done. intros Hf'. by destruct (Hq Hf') as (_ & ? & ?).
Qed.

(** ** Lines *)

Lemma newline_app x y : newline (x ++ y) = match newline x with Some k => Some k | None => Nat.add (length x) <$> newline y end.
Proof.
  induction x as [|b x IH]; cbn [app newline length Nat.add]; [by destruct (newline y)|]. destruct (b =? 10)%Z; [done|].
  rewrite IH. destruct (newline x); [done|]. by destruct (newline y).
Qed.
Lemma newline_lt x k : newline x = Some k → k < length x.
Proof. revert k. induction x as [|b x IH]; intros k; cbn; [done|]. destruct (b =? 10)%Z; [intros [= <-]; lia|].
  destruct (newline x); [|done]. intros [= <-]. specialize (IH _ eq_refl). lia. Qed.

Lemma seek_absolute_ok n f d :
  fd f.1 = Some d → quiet f → (0 ≤ n ≤ I64_MAX)%Z → seek_absolute n f = (FsOpOk, (set_fd (set_pos (Z.to_nat n) d) f.1, f.2)).
Proof.
  intros Hfd Hq Hn. unfold seek_absolute, seek_from. rewrite Hfd. unfold std_seek. rewrite next_event_quiet by done.
  rewrite (proj2 (Z.leb_le _ _)), (proj2 (Z.leb_le _ _)) by lia. done.
Qed.

(** What [readline] returns of [rest], the bytes that follow the position. *)
Definition line_result (requested : nat) (rest : list Z) : FileStatus * nat * nat :=
  match newline (take requested rest) with
  | Some k => (FsOpOk, S k, S k)
  | None => if decide (length rest < requested) then (FsOpOk, length rest, length rest) else (FsOtherError, 0, 0)
  end.

Lemma readline_loop_ok turns requested wt f d orig buf :
  reading f d → quiet f → let rest := drop orig (node f.2 (fd_node d)) in
  fd_pos d = orig + length buf → buf = take (length buf) rest → length buf ≤ requested → newline buf = None →
  requested - length buf < turns → (Z.of_nat (orig + length rest) ≤ I64_MAX)%Z →
  ∃ buf', readline_loop turns requested wt orig buf f =
    (let '(st, n, adv) := line_result requested rest in (st, n, buf', (set_fd (set_pos (orig + adv) d) f.1, f.2))) ∧
    take (line_result requested rest).1.2 buf' = take (line_result requested rest).1.2 rest.
Proof.
  intros Hf Hq rest. revert f d buf Hf Hq rest. induction turns as [|turns IH]; intros f d buf Hf Hq rest Hpos Hbuf Hle Hnl Ht Hmax; [lia|].
  assert (∃ tl, rest = buf ++ tl ∧ drop (fd_pos d) (node f.2 (fd_node d)) = tl) as (tl & Hrest & Htl).
  { exists (drop (length buf) rest). split; [rewrite Hbuf at 1; by rewrite take_drop|]. unfold rest. by rewrite drop_drop, Hpos. }
  pose proof (f_equal length Hrest) as Hlr. rewrite length_app in Hlr.
  pose proof Hf as (_ & Hfd & _). cbn [readline_loop]. case_bool_decide as Hlt.
  - set (chunk := (requested - length buf) `min` FW_FILE_CHUNK_SIZE). assert (0 < chunk) as Hch by (unfold chunk, FW_FILE_CHUNK_SIZE; lia).
    rewrite (file_read_quiet _ _ _ _ Hf Hq Hch). set (bs := slice (fd_pos d) chunk (node f.2 (fd_node d))).
    assert (bs = take chunk tl) as Hbs by (unfold bs, slice; by rewrite Htl). rewrite (bool_decide_eq_true_2 (FsOpOk = FsOpOk)) by done. cbn [negb].
    assert (take requested rest = buf ++ bs ++ take (requested - length buf - chunk) (drop chunk tl)) as Htake.
    { rewrite Hrest, take_app_ge by lia. f_equal. rewrite Hbs. rewrite <- (take_drop chunk tl) at 1.
      destruct (decide (length tl ≤ chunk)); [rewrite drop_ge, take_nil, !app_nil_r, take_take by lia; f_equal; unfold chunk; lia|].
      rewrite take_app_ge by (rewrite length_take; unfold chunk in *; lia). rewrite length_take. do 2 f_equal. lia. }
    case_bool_decide as Hb0.
    + assert (tl = []) as -> by (rewrite Hb0 in Hbs; destruct tl; [done|]; by destruct chunk; [lia|]).
      exists buf. unfold line_result. rewrite Htake, Hb0, drop_nil, take_nil, !app_nil_r, Hnl. cbn in Hlr. rewrite decide_True by lia.
      cbn [fst snd]. cbn [length]. rewrite !Nat.add_0_r, Hpos, Hlr, Nat.add_0_r. split; [done|]. by rewrite Hrest, app_nil_r.
    + destruct (newline bs) as [k|] eqn:En.
      * pose proof (newline_lt _ _ En) as Hk. exists (buf ++ bs). unfold line_result. rewrite Htake, newline_app, Hnl, newline_app, En.
        cbn [fmap option_fmap option_map fst snd]. assert (length bs ≤ length tl) as Hlb by (rewrite Hbs, length_take; lia).
        rewrite seek_absolute_ok with (d := set_pos (fd_pos d + length bs) d) by (done || lia). cbn [fst snd].
        rewrite Nat2Z.id. replace (orig + (length buf + k) + 1) with (orig + S (length buf + k)) by lia.
        replace (length buf + k + 1) with (S (length buf + k)) by lia. split; [done|].
        rewrite Hrest, <- (take_drop chunk tl), <- Hbs, app_assoc. symmetry. apply take_app_le. rewrite length_app. lia.
      * assert (reading (set_fd (set_pos (fd_pos d + length bs) d) f.1, f.2) (set_pos (fd_pos d + length bs) d)) as Hf'.
        { destruct Hf as (? & ? & ?). by split_and!. }
        assert (length bs ≤ requested - length buf ∧ 0 < length bs) as [Hlb Hlb0].
        { split; [rewrite Hbs, length_take; unfold chunk; lia|]. destruct bs; [done|cbn; lia]. }
        destruct (IH _ _ (buf ++ bs) Hf' Hq) as (buf' & E & Hb'); cbn [snd fst set_pos fd_pos fd_node]; fold rest; rewrite ?length_app; try lia.
        { rewrite Hrest at 1. rewrite <- (take_drop chunk tl), <- Hbs, app_assoc, <- length_app. by rewrite take_app_length. }
        { rewrite newline_app, Hnl, En. done. }
        exists buf'. split; [|exact Hb']. rewrite E. cbn [snd fst set_pos fd_pos fd_node]. fold rest. by destruct (line_result requested rest) as [[??]?].
  - assert (take requested rest = buf) as Htk by (rewrite Hrest, take_app_le by lia; apply take_ge; lia).
    exists buf. unfold line_result. rewrite Htk, Hnl, decide_False by lia.
    rewrite (seek_absolute_ok _ _ d) by (done || lia). cbn [fst snd]. rewrite Nat2Z.id, Nat.add_0_r. done.
Qed.

(** [readline] on a system without faults returns the bytes through the
    first newline among the [requested] bytes after the position and moves
    just past it; without one, all of a file that ends sooner; otherwise it
    reports an error with size 0 and the position where it was. *)
Theorem readline_exact requested wt f d :
  reading f d → quiet f → let rest := drop (fd_pos d) (node f.2 (fd_node d)) in
  (Z.of_nat (fd_pos d + length rest) ≤ I64_MAX)%Z →
  ∃ buf st n adv, line_result requested rest = (st, n, adv) ∧ take n buf = take n rest ∧
    readline requested wt f = (st, n, buf, (set_fd (set_pos (fd_pos d + adv) d) f.1, f.2)).
Proof.
  intros Hf Hq rest Hmax. pose proof Hf as (Hm & Hfd & _).
  destruct (readline_loop_ok (S requested) requested wt f d (fd_pos d) [] Hf Hq) as (buf & E & Hb); cbn [length]; try (done || lia).
  fold rest in E, Hb. destruct (line_result requested rest) as [[st n] adv] eqn:El. exists buf, st, n, adv. split_and!; [done|done|].
  unfold readline. rewrite Hm. rewrite (bool_decide_eq_false_2 (OpenRead = OpenNoMode)), (bool_decide_eq_true_2 (OpenRead = OpenRead)) by done.
  cbn [negb]. unfold file_position. rewrite Hfd. unfold std_position. rewrite next_event_quiet by done. cbn -[readline_loop].
  rewrite <- surjective_pairing. exact E.
Qed.

(** * The interface to the components that use files *)

Class OsFile (F : Type) : Type := {
  os_is_open : F → bool;
  os_open : list Z → FileMode → F → outcome (FileStatus * F);
  os_close : F → F;
  os_size : F → FileStatus * option nat * F;
  os_seek : Z → SeekType → F → outcome (FileStatus * F);
  os_read : nat → WaitType → F → FileStatus * list Z * F;
  os_write : list Z → WaitType → F → FileStatus * nat * F;
}.

(** What they rely on: the asserted arguments are the only panics, a
    transfer is no longer than asked for, and a closed file is closed. *)
Class OsFileLaws (F : Type) `{OsFile F} : Prop := {
  os_open_ret : ∀ p m f, m ≠ OpenNoMode → ∃ st f', os_open p m f = Ret (st, f');
  os_seek_ret : ∀ off t f, (0 ≤ off)%Z → ∃ st f', os_seek off t f = Ret (st, f');
  os_read_le : ∀ n wt f, length (os_read n wt f).1.2 ≤ n;
  os_write_le : ∀ bs wt f, (os_write bs wt f).1.2 ≤ length bs;
  os_close_closed : ∀ f, os_is_open (os_close f) = false;
}.

#[export] Instance FileW_file : OsFile FileW := {|
  os_is_open := is_open; os_open := file_open; os_close := file_close; os_size := file_size_of;
  os_seek := file_seek; os_read := file_read; os_write := file_write |}.

Lemma read_loop_le it req wt acc d w : length acc ≤ req → length (read_loop it req wt acc d w).1.1.2 ≤ req.
Proof.
  revert acc d w. induction it as [|it IH]; intros acc d w Hl; cbn [read_loop]; [done|]. case_bool_decide; [|done].
  assert (length match (std_read (req - length acc) d w).1.1 with inr bs => bs | inl _ => [] end ≤ req - length acc) as Hr.
  { unfold std_read. destruct (next_event w) as [[k|m|] w1]; cbn [fst]; [cbn; lia|..]; destruct (fd_read d); cbn [fst length];
      unfold slice; rewrite ?length_take; lia. }
  destruct (std_read _ d w) as [[[k|bs] d1] w1]; cbn [fst] in Hr; repeat case_bool_decide; cbn [fst snd];
    rewrite ?length_app; try done; try lia; apply IH; rewrite ?length_app; lia.
Qed.

#[export] Instance FileW_laws : OsFileLaws FileW.
Proof.
  split.
  - intros p m f Hm. cbn. unfold file_open, open_with_overwrite. rewrite bool_decide_eq_false_2 by done. cbn [negb fw_assert].
    rewrite outcome_bind_ret. destruct (is_open f); [eauto|]. destruct (std_open _ _ _) as [[k|d] w]; eauto.
  - intros off t f Ho. cbn. unfold file_seek. rewrite (proj2 (Z.leb_le _ _) Ho), orb_true_r. cbn [fw_assert]. rewrite outcome_bind_ret.
    destruct (seek_from _ f) as [st f']. eauto.
  - intros n wt f. cbn. unfold file_read. repeat case_bool_decide; cbn; try lia. destruct (fd f.1) as [d|]; [|cbn; lia].
    pose proof (read_loop_le (2 * n) n wt [] d f.2 (Nat.le_0_l _)) as Hl. by destruct (read_loop _ _ _ _ _ _) as [[[e bs] d'] w'].
  - intros bs wt f. cbn. unfold file_write. do 2 (case_bool_decide; [cbn; lia|]). destruct (fd f.1) as [d|]; [|cbn; lia].
    destruct (write_loop _ _ _ _ _) as [[[e n] d'] w'] eqn:E. apply write_loop_bytes in E as [Hn _].
    destruct e; [done|]. repeat case_bool_decide; cbn; try done; by destruct (std_sync w') as [[?|] ?].
  - done.
Qed.

(** * Witnesses *)

(** ** Opening *)

(** A new file object opened for reading. *)
Lemma open_read_ok p w :
  ∃ st f, file_open p OpenRead (File_new, w) = Ret (st, f) ∧ same_files w f.2 ∧
    (st = FsOpOk → ∃ d, names w !! p = Some (fd_node d) ∧ reading f d ∧ fd_pos d = 0 ∧ crc f.1 = INITIAL_CRC ∧ length (crc_buffer f.1) = FW_FILE_CHUNK_SIZE) ∧
    (script w = [] → f.2 = w ∧ (is_Some (names w !! p) → st = FsOpOk)).
Proof.
  unfold file_open, open_with_overwrite. rewrite (bool_decide_eq_false_2 (OpenRead = OpenNoMode)) by done. cbn [negb fw_assert]. rewrite outcome_bind_ret.
  unfold is_open. cbn [fst snd mode File_new]. rewrite (bool_decide_eq_true_2 (OpenNoMode = OpenNoMode)) by done. cbn [negb].
  unfold std_open. destruct (next_event w) as [ev w1] eqn:E. pose proof (next_event_same _ _ _ E) as Hs. pose proof Hs as (Hn & _).
  assert (script w = [] → ev = IoFull ∧ w1 = w) as Hq by (intros Hq; rewrite next_event_quiet in E by done; by injection E as <- <-).
  cbn [options_of opt_create_new opt_create opt_read opt_append opt_truncate orb]. rewrite Hn.
  destruct ev as [k|n|]; [|destruct (names w !! p) as [i|] eqn:Ep..]; eexists _, _; (split; [done|]); (split; [exact Hs|]); split.
  - by destruct k.
  - intros [? _]%Hq. done.
  - intros _. by exists (MkFd i 0 true false).
  - intros [? _]%Hq. done.
  - done.
  - intros [? _]%Hq. done.
  - intros _. by exists (MkFd i 0 true false).
  - intros [_ ->]%Hq. done.
  - done.
  - intros [_ ->]%Hq. split; [done|]. by intros [].
Qed.

(** ** Contents *)

(** Every file holds bytes. *)
Definition world_bytes (w : World) : Prop := ∀ i, Forall is_byte (node w i).

Lemma nodes_bytes w w' : nodes w' = nodes w → world_bytes w → world_bytes w'.
Proof. intros E Hw i. unfold node. rewrite E. apply Hw. Qed.

(** ** One file changes *)

(** The worlds while node [i] is written, from world [w0]. *)
Record filling (w0 : World) (i : nat) (c : list Z) (w : World) : Prop := {
  fill_quiet : script w = [];
  fill_names : names w = names w0;
  fill_next : next_node w = next_node w0;
  fill_node : node w i = c;
  fill_other : ∀ j, j ≠ i → node w j = node w0 j;
}.

Definition world_ok (w : World) : Prop :=
  (∀ p i, names w !! p = Some i → i < next_node w) ∧ (∀ p q i, names w !! p = Some i → names w !! q = Some i → p = q).

(** Only the file [p] differs, and it holds [c]. *)
Definition only_changed (p c : list Z) (w w' : World) : Prop :=
  script w' = [] ∧ world_ok w' ∧ file_at w' p = Some c ∧ ∀ q, q ≠ p → file_at w' q = file_at w q.

(** Opening for writing keeps the content, or creates an empty file. *)
Lemma std_open_write p w :
  script w = [] → world_ok w →
  ∃ i w', std_open (options_of OpenWrite NoOverwrite) p w = (inr (MkFd i 0 false false), w') ∧ names w' !! p = Some i ∧
    only_changed p (default [] (file_at w p)) w w' ∧ node w' i = default [] (file_at w p).
Proof.
  intros Hq [Hlt Hinj]. unfold std_open. rewrite next_event_quiet by done. cbn [options_of opt_create_new opt_read opt_append opt_truncate opt_create orb].
  destruct (names w !! p) as [i|] eqn:E.
  - assert (file_at w p = Some (node w i)) as Ef by (unfold file_at; by rewrite E). exists i, w.
    rewrite Ef. cbn [default]. split_and!; [done|done| |done]. by split_and!.
  - assert (file_at w p = None) as -> by (unfold file_at; by rewrite E). cbn [create_node fst snd default]. exists (next_node w). eexists. split; [done|].
    cbn [names]. rewrite lookup_insert_eq. split; [done|]. split; [|unfold node; cbn [nodes]; by rewrite lookup_insert_eq]. split_and!; [done| | |].
    + split; cbn [names next_node].
      * intros q j. destruct (decide (q = p)) as [->|]; [rewrite lookup_insert_eq; intros [= <-]; lia|].
        rewrite lookup_insert_ne by done. intros ?%Hlt. lia.
      * intros q q' j. destruct (decide (q = p)) as [->|], (decide (q' = p)) as [->|]; rewrite ?lookup_insert_eq, ?lookup_insert_ne by done; [done|..].
        -- intros [= <-] ?%Hlt. lia.
        -- intros ?%Hlt [= <-]. lia.
        -- apply Hinj.
    + unfold file_at, node. cbn [names nodes]. by rewrite !lookup_insert_eq; cbn; rewrite lookup_insert_eq.
    + intros q Hqp. unfold file_at, node. cbn [names nodes]. rewrite lookup_insert_ne by done. destruct (names w !! q) as [j|] eqn:Eq; [|done].
      cbn. apply Hlt in Eq. by rewrite lookup_insert_ne by lia.
Qed.

Lemma filling_changed p i c0 c w w1 w2 :
  names w1 !! p = Some i → only_changed p c0 w w1 → filling w1 i c w2 → only_changed p c w w2.
Proof.
  intros Hp (Hq & [Hlt Hinj] & _ & Ho) [F1 F2 F3 F4 F5]. split_and!; [done| | |].
  - split; rewrite F2, ?F3; done.
  - unfold file_at. rewrite F2, Hp. cbn. by rewrite F4.
  - intros q Hne. rewrite <- Ho by done. unfold file_at. rewrite F2. destruct (names w1 !! q) as [j|] eqn:E; [|done]. cbn.
    rewrite F5; [done|]. intros ->. by apply Hne, (Hinj q p i).
Qed.

(** A file open for writing, without faults. *)
Definition writer (i pos : nat) (r : Z) (b : list Z) (w : World) : FileW := (MkFile (Some (MkFd i pos false false)) OpenWrite r b, w).

Lemma write_at_nil pos c : pos ≤ length c → write_at pos [] c = c.
Proof. intros Hp. unfold write_at. cbn [app length]. rewrite take_app_le, Nat.add_0_r by done. apply take_drop. Qed.

Lemma write_filling w0 i c w bs pos r b :
  filling w0 i c w → pos ≤ length c →
  ∃ w', file_write bs Wait (writer i pos r b w) = (FsOpOk, length bs, writer i (pos + length bs) r b w') ∧ filling w0 i (write_at pos bs c) w'.
Proof.
  intros Hw Hp. destruct (decide (bs = [])) as [->|Hb].
  - exists w. cbn [length]. rewrite write_at_nil, Nat.add_0_r by done. split; [|done]. unfold file_write, writer. cbn. unfold std_sync. by rewrite next_event_quiet by apply Hw.
  - rewrite (file_write_quiet _ _ (writer i pos r b w) (MkFd i pos false false)); [|done|apply Hw|done]. eexists. split; [done|].
    cbn. destruct Hw as [? ? ? Hc Ho]. split; cbn [script names next_node set_node]; try done.
    + unfold node at 1. cbn [nodes set_node]. by rewrite lookup_insert_eq, <- Hc.
    + intros j Hj. unfold node at 1. cbn [nodes set_node]. rewrite lookup_insert_ne by done. by apply Ho.
Qed.

(** A system with one file, open for reading. *)
Definition one_file (p c : list Z) (s : list io_event) : World := MkWorld {[p := 0]} {[0 := c]} 1 s.
Definition reading_file (c : list Z) (s : list io_event) : FileW :=
  (MkFile (Some (MkFd 0 0 true false)) OpenRead INITIAL_CRC (replicate FW_FILE_CHUNK_SIZE 0%Z), one_file [47; 97]%Z c s).

Lemma one_file_bytes p c ev : Forall is_byte c → world_bytes (one_file p c ev).
Proof.
  intros Hc i. unfold node. cbn [nodes one_file]. destruct (decide (i = 0)) as [->|Hi]; [by rewrite lookup_singleton_eq|].
  rewrite lookup_singleton_ne by done. constructor.
Qed.
Lemma one_file_ok p c s : world_ok (one_file p c s).
Proof.
  split; cbn [names next_node one_file].
  - intros q j [_ <-]%lookup_singleton_Some. lia.
  - by intros q q' j [-> _]%lookup_singleton_Some [-> _]%lookup_singleton_Some.
Qed.

Lemma calculate_crc_exact_witness : ∃ f',
  calculate_crc 1 (reading_file [49; 50; 51; 52; 53; 54; 55; 56; 57]%Z []) = Ret (Some (FsOpOk, not32 0xCBF43926, f')).
Proof.
  destruct (calculate_crc_exact (reading_file [49; 50; 51; 52; 53; 54; 55; 56; 57]%Z []) (MkFd 0 0 true false) 1)
    as (st & bs & f' & _ & _ & E & Hq); [done|done|done|vm_compute; lia|].
  destruct Hq as [-> ->]; [done|]. exists f'. rewrite E. vm_compute. reflexivity.
Defined.

Lemma readline_exact_witness : ∃ buf f',
  readline 8 NoWait (reading_file [65; 66; 10; 67]%Z []) = (FsOpOk, 3, buf, f') ∧ take 3 buf = [65; 66; 10]%Z.
Proof.
  destruct (readline_exact 8 NoWait (reading_file [65; 66; 10; 67]%Z []) (MkFd 0 0 true false))
    as (buf & st & n & adv & E & Hb & ->); [done|done|vm_compute; discriminate|].
  vm_compute in E. injection E as <- <- <-. eauto.
Defined.

(** The system takes two bytes, is interrupted, and then fails. *)
Lemma file_write_exact_witness : ∃ f' d',
  file_write [1; 2; 3; 4]%Z NoWait (MkFile (Some (MkFd 0 1 false false)) OpenWrite INITIAL_CRC [],
    one_file [47; 97]%Z [9; 9; 9; 9; 9]%Z [IoPart 2; IoFault Interrupted; IoFault StorageFull]) = (FsNoSpace, 2, f') ∧
  wrote (MkFd 0 1 false false) (one_file [47; 97]%Z [9; 9; 9; 9; 9]%Z [IoPart 2; IoFault Interrupted; IoFault StorageFull]) [1; 2]%Z d' f'.2 ∧
  node f'.2 0 = [9; 1; 2; 9; 9]%Z.
Proof.
  destruct (file_write_exact [1; 2; 3; 4]%Z NoWait (MkFile (Some (MkFd 0 1 false false)) OpenWrite INITIAL_CRC [],
    one_file [47; 97]%Z [9; 9; 9; 9; 9]%Z [IoPart 2; IoFault Interrupted; IoFault StorageFull]) (MkFd 0 1 false false))
    as (st & n & d' & w' & E & _ & Hw & Hn & _); [done|].
  assert ((st, n) = (FsNoSpace, 2)) as [= -> ->] by (vm_compute in E; congruence).
  eexists _, d'. split; [exact E|]. split; [exact Hw|]. etransitivity; [exact (Hn ltac:(done))|reflexivity].
Defined.
