(* ===== verification/Crc16.v ===== *)
(** CRC-16/CCITT-FALSE, the frame error control field of the CCSDS transfer
    frames, [crates/fprime-svc/src/ccsds/crc16.rs]: the table, the
    byte-at-a-time register, its equivalence with the bit-serial division,
    linearity and burst-error detection. *)

From S2P Require Import Prelude Serial SerialFacts Crc32.
Local Open Scope Z_scope.

(** * Data and operations *)

Definition POLYNOMIAL : Z := 0x1021.
Definition INIT : Z := 0xFFFF.
Definition XOR_OUT : Z := 0x0000.

(** [x << n] on a [u16]. *)
Definition shl16 (x n : Z) : Z := wrap 16 (Z.shiftl x n).

(** One iteration of the inner loop of [build_table]. *)
Definition crc16_bit (crc : Z) : Z :=
  if negb (Z.land crc 0x8000 =? 0) then Z.lxor (shl16 crc 1) POLYNOMIAL else shl16 crc 1.

Definition build_table : list Z := (λ i, Nat.iter 8 crc16_bit (shl16 (Z.of_nat i) 8)) <$> seq 0 256.
Definition TABLE : list Z := Eval vm_compute in build_table.

Record Crc16 : Set := MkCrc16 { crc : Z }.

Definition Crc16_new : Crc16 := MkCrc16 INIT.

Definition Crc16_update (new_byte : Z) (c : Crc16) : Crc16 :=
  let tmp := wrap 8 (Z.lxor (Z.shiftr (crc c) 8) new_byte) in
  MkCrc16 (Z.lxor (shl16 (crc c) 8) (TABLE !!! Z.to_nat tmp)).

Definition Crc16_update_all (bytes : list Z) (c : Crc16) : Crc16 :=
  foldl (λ c byte, Crc16_update byte c) c bytes.

Definition Crc16_finalize (c : Crc16) : Z := Z.lxor (crc c) XOR_OUT.
Definition Crc16_compute (buffer : list Z) : Z := Crc16_finalize (Crc16_update_all buffer Crc16_new).

(** * The bit-serial reference *)

(** Feed one byte through the division register, most significant bit first. *)
Definition ref16_byte (crc byte : Z) : Z := Nat.iter 8 crc16_bit (Z.lxor crc (Z.shiftl byte 8)).
Definition ref16_update (crc : Z) (bs : list Z) : Z := foldl ref16_byte crc bs.

(** * Lemmas: the register step is linear and injective *)

Lemma shl16_ones x n : 0 ≤ n → shl16 x n = Z.land (Z.shiftl x n) (Z.ones 16).
Proof. intros. unfold shl16, wrap. by rewrite Z.land_ones by lia. Qed.

Lemma shl16_lxor a b n : 0 ≤ n → shl16 (Z.lxor a b) n = Z.lxor (shl16 a n) (shl16 b n).
Proof.
  intros Hn. rewrite !shl16_ones, Z.shiftl_lxor by done. apply Z.bits_inj'. intros i _.
  rewrite !Z.land_spec, !Z.lxor_spec, !Z.land_spec.
  by destruct (Z.testbit (Z.ones 16) i), (Z.testbit (Z.shiftl a n) i), (Z.testbit (Z.shiftl b n) i).
Qed.

Lemma shl16_u16 x n : is_u 16 (shl16 x n).
Proof. apply Z.mod_pos_bound. lia. Qed.

Lemma crc16_bit_alt x : crc16_bit x = Z.lxor (shl16 x 1) (if Z.testbit x 15 then POLYNOMIAL else 0).
Proof.
  unfold crc16_bit. assert ((Z.land x 0x8000 =? 0) = negb (Z.testbit x 15)) as ->.
  { destruct (Z.testbit x 15) eqn:E; cbn [negb].
    - apply Z.eqb_neq. intros H. apply (f_equal (λ z, Z.testbit z 15)) in H.
      rewrite Z.land_spec, E, Z.bits_0 in H. done.
    - apply Z.eqb_eq, Z.bits_inj'. intros i Hi. rewrite Z.land_spec, Z.bits_0.
      destruct (decide (i = 15)) as [->|Hne]; [by rewrite E|]. change 0x8000 with (2 ^ 15).
      by rewrite Z.pow2_bits_false, andb_false_r by lia. }
  destruct (Z.testbit x 15); cbn [negb]; [done|by rewrite Z.lxor_0_r].
Qed.

Lemma crc16_bit_lxor a b : crc16_bit (Z.lxor a b) = Z.lxor (crc16_bit a) (crc16_bit b).
Proof.
  rewrite !crc16_bit_alt, shl16_lxor, Z.lxor_spec by lia. apply Z.bits_inj'. intros i _.
  destruct (Z.testbit a 15), (Z.testbit b 15); simpl; rewrite !Z.lxor_spec, ?Z.bits_0;
    by destruct (Z.testbit (shl16 a 1) i), (Z.testbit (shl16 b 1) i), (Z.testbit POLYNOMIAL i).
Qed.

Lemma iter16_lxor n a b :
  Nat.iter n crc16_bit (Z.lxor a b) = Z.lxor (Nat.iter n crc16_bit a) (Nat.iter n crc16_bit b).
Proof. induction n; simpl; [done|]. by rewrite IHn, crc16_bit_lxor. Qed.

Lemma crc16_bit_u16 x : is_u 16 (crc16_bit x).
Proof. rewrite crc16_bit_alt. apply lxor_u; [done|apply shl16_u16|]. by destruct (Z.testbit x 15). Qed.

Lemma iter16_u16 n x : is_u 16 x → is_u 16 (Nat.iter n crc16_bit x).
Proof. destruct n; [done|]. intros _. apply crc16_bit_u16. Qed.

(** Bits below the top move up unchanged. *)
Lemma iter16_shift n v :
  (n ≤ 16)%nat → is_u (16 - Z.of_nat n) v → Nat.iter n crc16_bit v = Z.shiftl v (Z.of_nat n).
Proof.
  revert v. induction n as [|n IH]; intros v Hn Hv; [by rewrite Z.shiftl_0_r|].
  assert (is_u (16 - Z.of_nat n) (Z.shiftl v 1)) as Hs.
  { unfold is_u in *. rewrite Z.shiftl_mul_pow2 by lia.
    replace (16 - Z.of_nat n) with (16 - Z.of_nat (S n) + 1) by lia. rewrite Z.pow_add_r by lia. lia. }
  assert (crc16_bit v = Z.shiftl v 1) as Eb.
  { rewrite crc16_bit_alt, (testbit_high (16 - Z.of_nat (S n))), Z.lxor_0_r by (done || lia).
    apply wrap_small. unfold is_u in *. split; [lia|]. eapply Z.lt_le_trans; [apply Hs|].
    apply Z.pow_le_mono_r; lia. }
  rewrite Nat.iter_succ_r, Eb, IH by (done || lia). rewrite Z.shiftl_shiftl by lia. f_equal. lia.
Qed.

Lemma crc16_bit_zero x : is_u 16 x → crc16_bit x = 0 → x = 0.
Proof.
  intros Hx. rewrite crc16_bit_alt. destruct (Z.testbit x 15) eqn:E.
  - intros H%Z.lxor_eq. apply (f_equal (λ z, Z.testbit z 0)) in H.
    rewrite shl16_ones, Z.land_spec, Z.shiftl_spec_low in H by lia. done.
  - rewrite Z.lxor_0_r. unfold shl16. intros H.
    assert (x < 2 ^ 15) as Hl.
    { apply Z.nle_gt. intros Hge. unfold is_u in Hx.
      assert (Z.testbit x 15 = true); [|congruence]. apply Z.testbit_true; [lia|].
      replace (x / 2 ^ 15) with 1; [done|]. apply (Z.div_unique_pos _ _ 1 (x - 2 ^ 15)); lia. }
    unfold is_u in Hx. rewrite Z.shiftl_mul_pow2 in H by lia.
    rewrite wrap_small in H; [lia|]. unfold is_u. lia.
Qed.

Lemma iter16_zero n x : is_u 16 x → Nat.iter n crc16_bit x = 0 → x = 0.
Proof.
  induction n as [|n IH]; simpl; [done|]. intros Hx E.
  apply IH; [done|]. apply crc16_bit_zero; [by apply iter16_u16|done].
Qed.

Lemma iter16_inj n a b :
  is_u 16 a → is_u 16 b → Nat.iter n crc16_bit a = Nat.iter n crc16_bit b → a = b.
Proof.
  intros Ha Hb E. apply Z.lxor_eq, (iter16_zero n); [by apply lxor_u|].
  by rewrite iter16_lxor, E, Z.lxor_nilpotent.
Qed.

(** * Table-driven = bit-serial *)

Lemma table16_lookup x : is_byte x → TABLE !!! Z.to_nat x = Nat.iter 8 crc16_bit (Z.shiftl x 8).
Proof.
  intros Hx. unfold is_byte in Hx. change TABLE with build_table. unfold build_table.
  apply list_lookup_total_correct. rewrite list_lookup_fmap, lookup_seq_lt by lia.
  cbn [fmap option_fmap option_map]. do 2 f_equal. rewrite Nat.add_0_l, Z2Nat.id by lia.
  apply wrap_small. unfold is_u. rewrite Z.shiftl_mul_pow2 by lia. lia.
Qed.

Lemma byte_shl8 b : is_byte b → is_u 16 (Z.shiftl b 8).
Proof. unfold is_byte, is_u. intros. rewrite Z.shiftl_mul_pow2 by lia. lia. Qed.

Lemma u16_split x : is_u 16 x → x = Z.lxor (Z.shiftl (Z.shiftr x 8) 8) (Z.land x 0xFF).
Proof. intros _. apply byte_split. Qed.

Lemma shiftr8_byte x : is_u 16 x → is_byte (Z.shiftr x 8).
Proof.
  unfold is_u, is_byte. intros [? ?]. rewrite Z.shiftr_div_pow2 by lia. change (2 ^ 16) with (256 * 256) in *.
  split; [apply Z.div_pos; lia|]. apply Z.div_lt_upper_bound; lia.
Qed.

Lemma update16_ref c byte :
  is_u 16 (crc c) → is_byte byte → crc (Crc16_update byte c) = ref16_byte (crc c) byte.
Proof.
  intros Hc Hb. unfold Crc16_update, ref16_byte. cbn [crc]. set (x := crc c) in *.
  pose proof (shiftr8_byte x Hc) as Hx8.
  assert (is_byte (Z.lxor (Z.shiftr x 8) byte)) as Hby by (by apply (lxor_u 8)).
  rewrite (wrap_small 8) by done. rewrite table16_lookup by done.
  rewrite (u16_split x Hc) at 3.
  replace (Z.lxor (Z.lxor (Z.shiftl (Z.shiftr x 8) 8) (Z.land x 255)) (Z.shiftl byte 8))
    with (Z.lxor (Z.land x 255) (Z.shiftl (Z.lxor (Z.shiftr x 8) byte) 8)).
  2: { rewrite Z.shiftl_lxor. rewrite (Z.lxor_comm (Z.shiftl (Z.shiftr x 8) 8) (Z.land x 255)). by rewrite Z.lxor_assoc. }
  rewrite iter16_lxor. f_equal. rewrite (iter16_shift 8) by (lia || exact (land_255 x)).
  unfold shl16, wrap. rewrite !Z.shiftl_mul_pow2 by lia. change 255 with (Z.ones 8).
  rewrite Z.land_ones by lia. change (2 ^ 16) with (2 ^ 8 * 2 ^ 8). change (Z.of_nat 8) with 8.
  by rewrite Z.mul_mod_distr_r by lia.
Qed.

Lemma ref16_byte_u16 x b : is_u 16 x → is_byte b → is_u 16 (ref16_byte x b).
Proof. intros. apply iter16_u16, lxor_u; auto using byte_shl8 with lia. Qed.

Lemma ref16_update_u16 x bs : is_u 16 x → Forall is_byte bs → is_u 16 (ref16_update x bs).
Proof.
  intros Hx Hbs. revert x Hx. induction Hbs as [|b bs Hb _ IH]; intros x Hx; [done|].
  apply IH. by apply ref16_byte_u16.
Qed.

Lemma update16_all_ref bs c :
  is_u 16 (crc c) → Forall is_byte bs → crc (Crc16_update_all bs c) = ref16_update (crc c) bs.
Proof.
  intros Hc Hbs. revert c Hc. induction Hbs as [|b bs Hb _ IH]; intros c Hc; [done|].
  unfold Crc16_update_all in *. cbn [foldl]. rewrite IH; rewrite update16_ref by done; [done|].
  by apply ref16_byte_u16.
Qed.

Lemma compute16_ref bs : Forall is_byte bs → Crc16_compute bs = ref16_update INIT bs.
Proof.
  intros. unfold Crc16_compute, Crc16_finalize, XOR_OUT. by rewrite Z.lxor_0_r, update16_all_ref.
Qed.

Lemma compute16_range bs : Forall is_byte bs → is_u 16 (Crc16_compute bs).
Proof. intros. rewrite compute16_ref by done. by apply ref16_update_u16. Qed.

Lemma ref16_update_inj x y bs :
  is_u 16 x → is_u 16 y → Forall is_byte bs → ref16_update x bs = ref16_update y bs → x = y.
Proof.
  intros Hx Hy Hbs. revert x y Hx Hy.
  induction Hbs as [|b bs Hb _ IH]; intros x y Hx Hy E; [done|].
  change (ref16_update (ref16_byte x b) bs = ref16_update (ref16_byte y b) bs) in E.
  apply IH in E; [|by apply ref16_byte_u16..]. unfold ref16_byte in E.
  apply (iter16_inj 8) in E; [|by apply lxor_u; auto using byte_shl8 with lia..].
  apply (f_equal (λ z, Z.lxor z (Z.shiftl b 8))) in E.
  by rewrite !Z.lxor_assoc, Z.lxor_nilpotent, !Z.lxor_0_r in E.
Qed.

Lemma ref16_update_app x l k : ref16_update x (l ++ k) = ref16_update (ref16_update x l) k.
Proof. apply foldl_app. Qed.

(** Two bytes at once: the register sees their big-endian word. *)
Lemma ref16_update_word x a b :
  is_byte a → is_byte b →
  ref16_update x [a; b] = Nat.iter 16 crc16_bit (Z.lxor x (Z.lor (Z.shiftl a 8) b)).
Proof.
  intros Ha Hb. cbn [ref16_update foldl]. unfold ref16_byte.
  change 16%nat with (8 + 8)%nat. rewrite Nat.iter_add. f_equal.
  assert (Z.lor (Z.shiftl a 8) b = Z.lxor (Z.shiftl a 8) b) as ->.
  { rewrite shift_or_byte by done. rewrite <- (Z.add_nocarry_lxor (Z.shiftl a 8)).
    - rewrite Z.shiftl_mul_pow2 by lia. lia.
    - apply Z.bits_inj'. intros i Hi. rewrite Z.land_spec, Z.bits_0. destruct (Z.ltb_spec i 8).
      + by rewrite Z.shiftl_spec_low by lia.
      + by rewrite (testbit_high 8 b), andb_false_r by (done || lia). }
  rewrite <- Z.lxor_assoc, (iter16_lxor 8 (Z.lxor x _) b). f_equal. by rewrite (iter16_shift 8) by (done || lia).
Qed.

(** * Properties *)

(** The table-driven [Crc16::update] is the bit-serial division register,
    and the check value is the one of the catalogue. *)
Lemma crc16_is_bit_serial bs :
  Forall is_byte bs → Crc16_compute bs = ref16_update INIT bs ∧ is_u 16 (Crc16_compute bs).
Proof. intros. split; [by apply compute16_ref|by apply compute16_range]. Qed.

Lemma crc16_check_value : Crc16_compute [49; 50; 51; 52; 53; 54; 55; 56; 57] = 0x29B1.
Proof. vm_compute. reflexivity. Qed.

(** Every change confined to two consecutive bytes is detected. *)
Lemma crc16_burst pre a b a' b' suf :
  Forall is_byte pre → is_byte a → is_byte b → is_byte a' → is_byte b' → Forall is_byte suf →
  (a, b) ≠ (a', b') → Crc16_compute (pre ++ [a; b] ++ suf) ≠ Crc16_compute (pre ++ [a'; b'] ++ suf).
Proof.
  intros Hpre Ha Hb Ha' Hb' Hsuf Hne E.
  rewrite !compute16_ref in E by (rewrite !Forall_app; auto).
  rewrite !ref16_update_app in E. set (c := ref16_update INIT pre) in E.
  assert (is_u 16 c) as Hc by (by apply ref16_update_u16).
  apply ref16_update_inj in E; [|apply ref16_update_u16; auto..|done].
  rewrite (ref16_update_word c a b Ha Hb), (ref16_update_word c a' b' Ha' Hb') in E.
  assert (∀ p q, is_byte p → is_byte q → is_u 16 (Z.lor (Z.shiftl p 8) q)) as Hw.
  { intros p q Hp Hq. rewrite shift_or_byte by done. unfold is_byte, is_u in *. lia. }
  apply (iter16_inj 16) in E; [|apply lxor_u; auto with lia..].
  apply (f_equal (Z.lxor c)) in E. rewrite <- !Z.lxor_assoc, Z.lxor_nilpotent, !Z.lxor_0_l in E.
  rewrite !shift_or_byte in E by done. apply Hne. unfold is_byte in *. f_equal; lia.
Qed.
