(* ===== verification/Checksum.v ===== *)
(** The CFDP modular checksum [CFDP::Checksum],
    [crates/fprime-utils/src/cfdp.rs]: the three-phase walk of [update] equals
    an offset-weighted sum, so chunks can be folded in any order. *)

From S2P Require Import Prelude.
From Stdlib Require Import Permutation.
Local Open Scope Z_scope.

(** * Data and operations *)

Record Checksum : Set := MkChecksum { value : Z }.
Definition Checksum_new : Checksum := MkChecksum 0.
Definition from_value (v : Z) : Checksum := MkChecksum v.
Definition get_value (c : Checksum) : Z := value c.

(** [add_byte_at_offset(byte, offset)]. *)
Definition add_byte_at_offset (byte offset : Z) (c : Checksum) : Checksum :=
  let addend := Z.shiftl byte (8 * (3 - offset mod 4)) in
  MkChecksum (wrap 32 (value c + addend)).

(** [add_word_aligned(word)]: at most four bytes, at word offsets 0..=3. *)
Fixpoint add_aligned_from (i : Z) (word : list Z) (c : Checksum) : Checksum :=
  match word with
  | [] => c
  | b :: word' => add_aligned_from (i + 1) word' (add_byte_at_offset b i c)
  end.
Definition add_word_aligned (word : list Z) (c : Checksum) : Checksum :=
  add_aligned_from 0 (take 4 word) c.

(** [add_word_unaligned(word, position)]. *)
Fixpoint add_unaligned_from (offset : Z) (word : list Z) (c : Checksum) : Checksum :=
  match word with
  | [] => c
  | b :: word' =>
      let c' := add_byte_at_offset b offset c in
      let offset' := offset + 1 in
      add_unaligned_from (if offset' =? 4 then 0 else offset') word' c'
  end.
Definition add_word_unaligned (word : list Z) (position : Z) (c : Checksum) : Checksum :=
  add_unaligned_from (position mod 4) word c.

(** The [while index < aligned_end] loop of [update]: the final index and
    checksum. *)
Fixpoint aligned_loop (fuel : nat) (data : list Z) (index aligned_end : nat) (c : Checksum)
    : nat * Checksum :=
  match fuel with
  | O => (index, c)
  | S fuel' =>
      if (index <? aligned_end)%nat
      then aligned_loop fuel' data (index + 4) aligned_end (add_word_aligned (slice index 4 data) c)
      else (index, c)
  end.

(** [update(data, file_offset)]; [data.len()] iterations bound the loop. *)
Definition update (data : list Z) (file_offset : Z) (c : Checksum) : Checksum :=
  let len := length data in
  let offset_mod_4 := Z.to_nat (file_offset mod 4) in
  let '(index, c1) :=
    if bool_decide (offset_mod_4 ≠ 0%nat) then
      let word_length := (len `min` (4 - offset_mod_4))%nat in
      (word_length, add_word_unaligned (slice 0 word_length data)
                      (wrap 32 (file_offset + 0) mod 4) c)
    else (0%nat, c) in
  let aligned_end := (index + (len - index) / 4 * 4)%nat in
  let '(index2, c2) := aligned_loop len data index aligned_end c1 in
  if (index2 <? len)%nat then
    add_word_unaligned (slice index2 (len - index2) data)
      (wrap 32 (file_offset + wrap 32 (Z.of_nat index2)) mod 4) c2
  else c2.

(** * The specification: a sum weighted by the file offset *)

Definition byte_weight (o : Z) : Z := 2 ^ (8 * (3 - o mod 4)).

Fixpoint weighted_sum (o : Z) (bs : list Z) : Z :=
  match bs with
  | [] => 0
  | b :: bs' => b * byte_weight o + weighted_sum (o + 1) bs'
  end.

(** * Lemmas *)

Lemma weighted_sum_app o x y :
  weighted_sum o (x ++ y) = weighted_sum o x + weighted_sum (o + Z.of_nat (length x)) y.
Proof.
  revert o. induction x as [|b x IH]; intros o; cbn [weighted_sum app length].
  - by rewrite Z.add_0_r, Z.add_0_l.
  - rewrite IH. replace (o + Z.of_nat (S (length x))) with (o + 1 + Z.of_nat (length x)) by lia. ring.
Qed.

Lemma byte_weight_mod o o' : o mod 4 = o' mod 4 → byte_weight o = byte_weight o'.
Proof. unfold byte_weight. by intros ->. Qed.

Lemma weighted_sum_mod o o' bs : o mod 4 = o' mod 4 → weighted_sum o bs = weighted_sum o' bs.
Proof.
  revert o o'. induction bs as [|b bs IH]; intros o o' E; cbn [weighted_sum]; [done|].
  rewrite (byte_weight_mod o o'), (IH (o + 1) (o' + 1)); [done| |done].
  rewrite <- (Zplus_mod_idemp_l o), <- (Zplus_mod_idemp_l o'). by rewrite E.
Qed.

Lemma wrap32_mod4 v : wrap 32 v mod 4 = v mod 4.
Proof.
  unfold wrap. apply Z.mod_mod_divide. by exists (2 ^ 30).
Qed.

(** Two accumulators are the same checksum plus a sum. *)
Definition plus (c : Checksum) (s : Z) : Checksum := MkChecksum (wrap 32 (value c + s)).

Lemma plus_plus c s t : plus (plus c s) t = plus c (s + t).
Proof. unfold plus, wrap. simpl. by rewrite Zplus_mod_idemp_l, Z.add_assoc. Qed.

Lemma add_byte_plus b o c : add_byte_at_offset b o c = plus c (b * byte_weight o).
Proof.
  unfold add_byte_at_offset, plus, byte_weight. rewrite Z.shiftl_mul_pow2; [done|].
  pose proof (Z.mod_pos_bound o 4). lia.
Qed.

Lemma add_aligned_sum o word c :
  c = plus c 0 → add_aligned_from o word c = plus c (weighted_sum o word).
Proof.
  revert o c. induction word as [|b word IH]; intros o c Hc; cbn; [done|].
  rewrite IH, add_byte_plus, plus_plus; [done|]. by rewrite add_byte_plus, plus_plus, Z.add_0_r.
Qed.

Lemma add_unaligned_sum o o' word c :
  0 ≤ o < 4 → o mod 4 = o' mod 4 → c = plus c 0 →
  add_unaligned_from o word c = plus c (weighted_sum o' word).
Proof.
  revert o o' c. induction word as [|b word IH]; intros o o' c Ho E Hc; cbn; [done|].
  rewrite (IH _ (o' + 1)).
  - by rewrite add_byte_plus, plus_plus, (byte_weight_mod o o').
  - destruct (Z.eqb_spec (o + 1) 4); lia.
  - rewrite <- (Zplus_mod_idemp_l o'), <- E, Zplus_mod_idemp_l.
    destruct (Z.eqb_spec (o + 1) 4) as [->|]; done.
  - by rewrite add_byte_plus, plus_plus, Z.add_0_r.
Qed.

Lemma add_word_unaligned_sum pos o word c :
  pos mod 4 = o mod 4 → c = plus c 0 → add_word_unaligned word pos c = plus c (weighted_sum o word).
Proof.
  intros E Hc. apply add_unaligned_sum; auto; [apply Z.mod_pos_bound; lia|].
  by rewrite Z.mod_mod by lia.
Qed.

Lemma plus_0 c s : plus (plus c s) 0 = plus c s.
Proof. by rewrite plus_plus, Z.add_0_r. Qed.

(** The aligned loop folds the words it walks over. *)
Lemma aligned_loop_sum fuel data index stop o c k :
  stop = (index + 4 * k)%nat → (k ≤ fuel)%nat → (stop ≤ length data)%nat →
  (o + Z.of_nat index) mod 4 = 0 → c = plus c 0 →
  aligned_loop fuel data index stop c =
    (stop, plus c (weighted_sum (o + Z.of_nat index) (slice index (4 * k) data))).
Proof.
  revert index c k. induction fuel as [|fuel IH]; intros index c k Hstop Hk Hlen Ho Hc.
  - replace k with 0%nat in * by lia. change (slice index (4 * 0) data) with (@nil Z).
      cbn [weighted_sum aligned_loop]. rewrite <- Hc. f_equal. lia.
  - cbn [aligned_loop]. destruct (Nat.ltb_spec index stop).
    + destruct k as [|k]; [lia|].
      rewrite (IH (index + 4)%nat _ k); try lia.
      * f_equal. unfold add_word_aligned.
        rewrite take_ge by (rewrite length_slice; lia).
        rewrite add_aligned_sum, plus_plus by done. f_equal.
        replace (4 * S k)%nat with (4 + 4 * k)%nat by lia. rewrite slice_app, weighted_sum_app.
        rewrite length_slice by lia.
        rewrite (weighted_sum_mod 0 (o + Z.of_nat index)) by (by rewrite Ho). do 2 f_equal. lia.
      * rewrite Nat2Z.inj_add, Z.add_assoc, Zplus_mod, Ho. done.
      * unfold add_word_aligned. rewrite add_aligned_sum, plus_0 by done. done.
    + replace k with 0%nat in * by lia. change (slice index (4 * 0) data) with (@nil Z).
      cbn [weighted_sum aligned_loop]. rewrite <- Hc. f_equal. lia.
Qed.

Lemma aligned_loop_done fuel data i c : aligned_loop fuel data i i c = (i, c).
Proof. destruct fuel; [done|]. cbn [aligned_loop]. by rewrite Nat.ltb_irrefl. Qed.

(** The first phase of [update] stops on a word boundary or at the end. *)
Lemma update_sum data o c :
  0 ≤ o → c = plus c 0 → update data o c = plus c (weighted_sum o data).
Proof.
  intros Ho Hc. unfold update.
  set (m := Z.to_nat (o mod 4)). set (len := length data).
  assert (Z.of_nat m = o mod 4 ∧ (m < 4)%nat) as [Hm Hm4]
    by (pose proof (Z.mod_pos_bound o 4); unfold m; lia).
  set (w := (if bool_decide (m ≠ 0) then len `min` (4 - m) else 0)%nat).
  assert ((if bool_decide (m ≠ 0%nat)
           then ((len `min` (4 - m))%nat,
                 add_word_unaligned (slice 0 (len `min` (4 - m)) data) (wrap 32 (o + 0) mod 4) c)
           else (0%nat, c)) = (w, plus c (weighted_sum o (slice 0 w data)))) as ->.
  { unfold w. case_bool_decide; [|f_equal; exact Hc]. f_equal. apply add_word_unaligned_sum; [|done].
    by rewrite wrap32_mod4, Z.add_0_r, Z.mod_mod by lia. }
  assert (w = len ∨ (o + Z.of_nat w) mod 4 = 0) as Hw.
  { unfold w. case_bool_decide as Hm0.
    - destruct (decide (len ≤ 4 - m)%nat); [left; lia|right].
      rewrite Nat.min_r by lia. rewrite <- Zplus_mod_idemp_l, <- Hm.
      replace (Z.of_nat m + Z.of_nat (4 - m)) with 4 by lia. done.
    - right. rewrite Z.add_0_r, <- Hm. lia. }
  assert (w ≤ len)%nat as Hwl by (unfold w; case_bool_decide; lia).
  set (k := ((len - w) / 4)%nat). assert (4 * k ≤ len - w)%nat as Hk
    by (unfold k; apply Nat.Div0.mul_div_le).
  assert (len - w < 4 * S k)%nat as Hk' by (unfold k; apply Nat.mul_succ_div_gt; lia).
  assert (aligned_loop len data w (w + k * 4) (plus c (weighted_sum o (slice 0 w data))) =
    ((w + k * 4)%nat, plus c (weighted_sum o (slice 0 (w + 4 * k) data)))) as ->.
  { destruct Hw as [Hw|Hw].
    - assert (k = 0%nat) as -> by lia. replace (w + 0 * 4)%nat with w by lia.
      replace (w + 4 * 0)%nat with w by lia. apply aligned_loop_done.
    - rewrite (aligned_loop_sum _ _ _ _ o _ k); auto using plus_0; try (unfold len in *; lia).
      rewrite plus_plus, slice_app, weighted_sum_app, length_slice by (unfold len in *; lia). done. }
  replace (w + k * 4)%nat with (w + 4 * k)%nat by lia.
  assert (slice 0 (w + 4 * k) data ++ slice (w + 4 * k) (len - (w + 4 * k)) data = data) as Hs2.
  { apply slice_split. unfold len in *. lia. }
  destruct (Nat.ltb_spec (w + 4 * k) len).
  - rewrite (add_word_unaligned_sum _ (o + Z.of_nat (w + 4 * k))), plus_plus; [|..|by rewrite plus_0].
    + f_equal. rewrite <- Hs2 at 3. rewrite weighted_sum_app, length_slice by (unfold len in *; lia). done.
    + rewrite wrap32_mod4, Z.mod_mod by lia.
      rewrite <- Zplus_mod_idemp_r, wrap32_mod4, Zplus_mod_idemp_r. done.
  - f_equal. f_equal. rewrite slice_0_full; [done|]. unfold len in *. lia.
Qed.

(** * Properties *)

(** One DATA packet: its file offset and its bytes. *)
Definition update_chunk (c : Checksum) (ch : Z * list Z) : Checksum := update ch.2 ch.1 c.

(** The blocks of a file with their offsets. *)
Fixpoint at_offsets (o : Z) (blocks : list (list Z)) : list (Z * list Z) :=
  match blocks with
  | [] => []
  | b :: blocks' => (o, b) :: at_offsets (o + Z.of_nat (length b)) blocks'
  end.

Definition chunks_sum (cs : list (Z * list Z)) : Z := foldr (λ ch s, weighted_sum ch.1 ch.2 + s) 0 cs.

Lemma chunks_sum_perm cs cs' : Permutation cs cs' → chunks_sum cs = chunks_sum cs'.
Proof. induction 1; cbn [chunks_sum foldr]; unfold chunks_sum in *; lia. Qed.

Lemma chunks_sum_offsets o blocks : chunks_sum (at_offsets o blocks) = weighted_sum o (mjoin blocks).
Proof.
  revert o. induction blocks as [|b blocks IH]; intros o; [done|].
  cbn [at_offsets chunks_sum foldr]. fold (chunks_sum (at_offsets (o + Z.of_nat (length b)) blocks)).
  rewrite IH. simpl. by rewrite weighted_sum_app.
Qed.

Lemma update_chunks cs c :
  c = plus c 0 → Forall (λ ch, 0 ≤ ch.1) cs → foldl update_chunk c cs = plus c (chunks_sum cs).
Proof.
  intros Hc Hcs. revert c Hc. induction Hcs as [|ch cs Ho _ IH]; intros c Hc; [done|].
  cbn [foldl]. unfold update_chunk at 2. rewrite update_sum by done.
  rewrite IH, plus_plus by (by rewrite plus_0). done.
Qed.

Lemma at_offsets_nonneg o blocks : 0 ≤ o → Forall (λ ch, 0 ≤ ch.1) (at_offsets o blocks).
Proof. revert o. induction blocks; intros o Ho; cbn; constructor; auto with lia. Qed.

Lemma plus_valid c : is_u 32 (value c) → c = plus c 0.
Proof. intros. destruct c. unfold plus. simpl. by rewrite Z.add_0_r, wrap_small. Qed.

(** The CFDP checksum does not depend on how a file is cut into packets
    nor on the order in which they arrive: folding the blocks of a file in
    any order, each at its own file offset, equals one [update] over the
    whole file from offset 0 and, from a fresh checksum, the sum of every
    byte shifted to its lane [3 - offset mod 4] of a big-endian word, modulo
    2^32. *)
Theorem checksum_order_independent (blocks : list (list Z)) (arrived : list (Z * list Z))
    (c : Checksum) (Hc : is_u 32 (value c))
    (Hsize : Z.of_nat (length (mjoin blocks)) < 2 ^ 32)
    (Hperm : Permutation arrived (at_offsets 0 blocks)) :
  foldl update_chunk c arrived = update (mjoin blocks) 0 c ∧
  value (foldl update_chunk c arrived) = (value c + weighted_sum 0 (mjoin blocks)) mod 2 ^ 32.
Proof.
  assert (foldl update_chunk c arrived = plus c (weighted_sum 0 (mjoin blocks))) as ->.
  { rewrite update_chunks; [|by apply plus_valid|].
    - by rewrite (chunks_sum_perm _ _ Hperm), chunks_sum_offsets.
    - rewrite Hperm. by apply at_offsets_nonneg. }
  split; [|done]. by rewrite update_sum by (done || by apply plus_valid).
Qed.

Lemma checksum_order_independent_witness :
  foldl update_chunk Checksum_new [(3, [4; 5; 6; 7; 8]); (0, [1; 2; 3])]
  = update [1; 2; 3; 4; 5; 6; 7; 8] 0 Checksum_new.
Proof.
  apply (checksum_order_independent [[1; 2; 3]; [4; 5; 6; 7; 8]]
           [(3, [4; 5; 6; 7; 8]); (0, [1; 2; 3])] Checksum_new); [done|done|].
  apply perm_swap.
Defined.
