(* ===== verification/CfdpChunks.v ===== *)
(** The chunk lists of the CFDP engine,
    [crates/fprime-svc/src/ccsds/cfdp_manager/chunk.rs]: which bytes of a file
    have been received (or must be sent again), as a bounded array of sorted
    ranges, and the gaps between them. *)

From stdpp Require Import sorting.
From S2P Require Import Prelude.
Local Open Scope Z_scope.

(** * Data *)

Record Chunk : Set := MkChunk { ch_offset : Z; ch_size : Z }.
#[export] Instance Chunk_eq_dec : EqDecision Chunk.
Proof. solve_decision. Defined.
#[export] Instance Chunk_inhabited : Inhabited Chunk := populate (MkChunk 0 0).

Record ChunkList : Set := MkChunkList {
  cl_count : nat;
  max_chunks : nat;
  chunks : list Chunk;
}.

(** * Operations *)

Definition ChunkList_new (max : nat) : outcome ChunkList :=
  _ ← fw_assert (bool_decide (0 < max)%nat);
  Ret (MkChunkList 0 max (replicate max (MkChunk 0 0))).

Definition cl_live (l : ChunkList) : list Chunk := take (cl_count l) (chunks l).

Definition cl_reset (l : ChunkList) : ChunkList :=
  MkChunkList 0 (max_chunks l) (replicate (length (chunks l)) (MkChunk 0 0)).

Definition get_first_chunk (l : ChunkList) : outcome (option Chunk) :=
  if bool_decide (0 < cl_count l)%nat then c ← index_get (chunks l) 0; Ret (Some c) else Ret None.

(** [slice.copy_within(src..end, dest)]. *)
Definition copy_within (src end_ dest : nat) (l : list Chunk) : outcome (list Chunk) :=
  if bool_decide (src ≤ end_ ≤ length l)%nat && bool_decide (dest + (end_ - src) ≤ length l)%nat
  then Ret (splice dest (slice src (end_ - src) l) l) else Panic.

Definition set_chunks (cs : list Chunk) (l : ChunkList) : ChunkList := MkChunkList (cl_count l) (max_chunks l) cs.

Definition insert_chunk (index : nat) (c : Chunk) (l : ChunkList) : outcome ChunkList :=
  _ ← fw_assert (bool_decide (cl_count l < max_chunks l)%nat);
  _ ← fw_assert (bool_decide (index ≤ cl_count l)%nat);
  cs ← (if bool_decide (0 < cl_count l)%nat && negb (bool_decide (index = cl_count l))
        then copy_within index (cl_count l) (index + 1) (chunks l) else Ret (chunks l));
  cs' ← index_set index c cs;
  Ret (MkChunkList (cl_count l + 1) (max_chunks l) cs').

Definition erase_chunk (index : nat) (l : ChunkList) : outcome ChunkList :=
  _ ← fw_assert (bool_decide (0 < cl_count l)%nat);
  _ ← fw_assert (bool_decide (index < cl_count l)%nat);
  cs ← copy_within (index + 1) (cl_count l) index (chunks l);
  Ret (MkChunkList (cl_count l - 1) (max_chunks l) cs).

Definition erase_range (start end_ : nat) (l : ChunkList) : outcome ChunkList :=
  _ ← fw_assert (bool_decide (end_ ≤ cl_count l)%nat);
  if bool_decide (start < end_)%nat then
    cs ← copy_within end_ (cl_count l) start (chunks l);
    Ret (MkChunkList (cl_count l - (end_ - start)) (max_chunks l) cs)
  else Ret l.

(** The binary search; the number of candidates halves. *)
Fixpoint find_insert_loop (fuel first count : nat) (c : Chunk) (cs : list Chunk) : outcome nat :=
  match fuel with
  | O => Ret first
  | S fuel' =>
      if bool_decide (0 < count)%nat then
        let step := (count / 2)%nat in
        let i := (first + step)%nat in
        x ← index_get cs i;
        if ch_offset x <? ch_offset c then find_insert_loop fuel' (i + 1) (count - (step + 1)) c cs
        else find_insert_loop fuel' first step c cs
      else Ret first
  end.
Definition find_insert_position (c : Chunk) (l : ChunkList) : outcome nat :=
  find_insert_loop (S (cl_count l)) 0 (cl_count l) c (chunks l).

(** The scan of [combine_next]. *)
Fixpoint combine_scan (fuel combined_i count : nat) (chunk_end : Z) (cs : list Chunk) : outcome nat :=
  match fuel with
  | O => Ret combined_i
  | S fuel' =>
      if bool_decide (combined_i < count)%nat then
        x ← index_get cs combined_i;
        if chunk_end <? ch_offset x then Ret combined_i
        else combine_scan fuel' (combined_i + 1) count chunk_end cs
      else Ret combined_i
  end.

(** The scan of [find_smallest_size]. *)
Fixpoint smallest_loop (n i smallest : nat) (cs : list Chunk) : outcome nat :=
  match n with
  | O => Ret smallest
  | S n' =>
      a ← index_get cs i;
      b ← index_get cs smallest;
      smallest_loop n' (i + 1) (if ch_size a <? ch_size b then i else smallest) cs
  end.
Definition find_smallest_size (l : ChunkList) : outcome nat :=
  smallest_loop (cl_count l - 1) 1 0 (chunks l).

Section width.
Context `{BuildProfile}.

Definition combine_next (i : nat) (c : Chunk) (l : ChunkList) : outcome (bool * ChunkList) :=
  let chunk_end := wrap 32 (ch_offset c + ch_size c) in
  _ ← fw_assert (ch_offset c <? chunk_end);
  combined_i ← combine_scan (cl_count l - i) i (cl_count l) chunk_end (chunks l);
  if negb (bool_decide (i = combined_i)) then
    last ← index_get (chunks l) (combined_i - 1);
    last_end ← add_w 32 (ch_offset last) (ch_size last);
    let chunk_end := Z.max chunk_end last_end in
    sz ← sub_w 32 chunk_end (ch_offset c);
    cs ← index_set i (MkChunk (ch_offset c) sz) (chunks l);
    l' ← erase_range (i + 1) combined_i (set_chunks cs l);
    Ret (true, l')
  else Ret (false, l).

Definition combine_previous (i : nat) (c : Chunk) (l : ChunkList) : outcome (bool * ChunkList) :=
  _ ← fw_assert (bool_decide (i ≤ max_chunks l)%nat);
  if bool_decide (0 < i)%nat then
    chunk_end ← add_w 32 (ch_offset c) (ch_size c);
    prev ← index_get (chunks l) (i - 1);
    prev_end ← add_w 32 (ch_offset prev) (ch_size prev);
    if ch_offset c <=? prev_end then
      if prev_end <? chunk_end then
        sz ← sub_w 32 chunk_end (ch_offset prev);
        cs ← index_set (i - 1) (MkChunk (ch_offset prev) sz) (chunks l);
        Ret (true, set_chunks cs l)
      else Ret (true, l)
    else Ret (false, l)
  else Ret (false, l).

Definition cl_insert (i : nat) (c : Chunk) (l : ChunkList) : outcome ChunkList :=
  '(next, l1) ← combine_next i c l;
  if next : bool then
    merged ← index_get (chunks l1) i;
    '(prev, l2) ← combine_previous i merged l1;
    if prev : bool then erase_chunk i l2 else Ret l2
  else
    '(prev, l2) ← combine_previous i c l1;
    if prev : bool then Ret l2
    else if bool_decide (cl_count l2 < max_chunks l2)%nat then insert_chunk i c l2
    else
      smallest_i ← find_smallest_size l2;
      x ← index_get (chunks l2) smallest_i;
      if ch_size x <? ch_size c then
        l3 ← erase_chunk smallest_i l2;
        at_ ← find_insert_position c l3;
        insert_chunk at_ c l3
      else Ret l2.

Definition cl_add (offset size : Z) (l : ChunkList) : outcome ChunkList :=
  if size =? 0 then Ret l
  else
    let c := MkChunk offset size in
    i ← find_insert_position c l;
    _ ← fw_assert (offset + size <? 2 ^ 32);
    cl_insert i c l.

Definition remove_from_first (size : Z) (l : ChunkList) : outcome ChunkList :=
  c ← index_get (chunks l) 0;
  let size := Z.min size (ch_size c) in
  let rest := ch_size c - size in
  if rest =? 0 then
    cs ← index_set 0 (MkChunk (ch_offset c) rest) (chunks l);
    erase_chunk 0 (set_chunks cs l)
  else
    off ← add_w 32 (ch_offset c) size;
    cs ← index_set 0 (MkChunk off rest) (chunks l);
    Ret (set_chunks cs l).
End width.

(** The loop of [compute_gaps]: the gaps passed to the callback, in order. *)
Fixpoint gaps_loop (fuel i ret max_gaps : nat) (total start : Z) (l : ChunkList) : outcome (list Chunk) :=
  match fuel with
  | O => Ret []
  | S fuel' =>
      if bool_decide (ret < max_gaps)%nat && bool_decide (i < cl_count l)%nat then
        next_off ← (if bool_decide (i = cl_count l - 1)%nat then Ret total
                    else n ← index_get (chunks l) (i + 1); Ret (ch_offset n));
        current ← index_get (chunks l) i;
        let gap_start := wrap 32 (ch_offset current + ch_size current) in
        let offset := if start <? gap_start then gap_start else start in
        let chunk := MkChunk offset (wrap 32 (next_off - offset)) in
        if total <=? gap_start then Ret []
        else if start <? next_off then
          gs ← gaps_loop fuel' (i + 1) (ret + 1) max_gaps total start l; Ret (chunk :: gs)
        else gaps_loop fuel' (i + 1) ret max_gaps total start l
      else Ret []
  end.

(** The number returned is the number of gaps passed to the callback. *)
Definition compute_gaps (max_gaps : nat) (total start : Z) (l : ChunkList) : outcome (list Chunk) :=
  if total =? 0 then Ret []
  else
    _ ← fw_assert (start <? total);
    if bool_decide (cl_count l = 0)%nat then Ret [MkChunk 0 total]
    else
      c0 ← index_get (chunks l) 0;
      let first := if start <? ch_offset c0 then [MkChunk start (ch_offset c0 - start)] else [] in
      gs ← gaps_loop (cl_count l) 0 (length first) max_gaps total start l;
      Ret (first ++ gs).

(** * Invariant *)

Definition chunk_end (c : Chunk) : Z := ch_offset c + ch_size c.
Definition in_chunk (c : Chunk) (x : Z) : Prop := ch_offset c ≤ x < chunk_end c.
Definition covered (l : list Chunk) (x : Z) : Prop := Exists (λ c, in_chunk c x) l.

Definition chunk_ok (c : Chunk) : Prop := 0 ≤ ch_offset c ∧ 0 < ch_size c ∧ chunk_end c < 2 ^ 32.
(** Ranges in order with at least one byte between them. *)
Definition apart (c d : Chunk) : Prop := chunk_end c < ch_offset d.
Definition ranges_ok (l : list Chunk) : Prop := Forall chunk_ok l ∧ StronglySorted apart l.

Definition cl_ok (l : ChunkList) : Prop :=
  (cl_count l ≤ max_chunks l)%nat ∧ (0 < max_chunks l)%nat ∧ length (chunks l) = max_chunks l ∧ ranges_ok (cl_live l).

#[export] Instance in_chunk_dec c x : Decision (in_chunk c x).
Proof. unfold in_chunk; apply _. Defined.
#[export] Instance covered_dec l x : Decision (covered l x).
Proof. unfold covered; apply _. Defined.

(** * The array holds the list *)

Lemma take_prefix {A} (pre suf l : list A) : l = pre ++ suf → take (length pre) l = pre.
Proof. intros ->. apply take_app_length. Qed.

Definition rep (l : ChunkList) (L : list Chunk) : Prop :=
  cl_count l = length L ∧ length (chunks l) = max_chunks l ∧ ∃ junk, chunks l = L ++ junk.

Lemma cl_ok_rep l : cl_ok l ↔ rep l (cl_live l) ∧ (0 < max_chunks l)%nat ∧ ranges_ok (cl_live l).
Proof.
  unfold cl_ok, rep, cl_live. split.
  - intros (Hc & Hm & Hl & Hr). split_and!; try done; [rewrite length_take; lia|].
    exists (drop (cl_count l) (chunks l)). by rewrite take_drop.
  - intros ((Hc & Hl & [junk Hj]) & Hm & Hr). split_and!; try done. rewrite length_take in Hc. lia.
Qed.

Lemma rep_live l L : rep l L → cl_live l = L.
Proof. intros (Hc & _ & [junk Hj]). unfold cl_live. rewrite Hj, Hc. apply take_app_length. Qed.

Lemma rep_ok l L : rep l L → (0 < max_chunks l)%nat → ranges_ok L → cl_ok l.
Proof. intros Hr Hm HL. apply cl_ok_rep. by rewrite (rep_live l L Hr). Qed.

Lemma rep_le l L : rep l L → (length L ≤ max_chunks l)%nat.
Proof. intros (_ & <- & [junk ->]). rewrite length_app. lia. Qed.

Lemma rep_get l L i x : rep l L → L !! i = Some x → index_get (chunks l) i = Ret x.
Proof.
  intros (_ & _ & [junk ->]) Hx. apply index_get_ok. rewrite lookup_app_l; [done|]. by eapply lookup_lt_Some.
Qed.

Lemma rep_set l pre c suf d :
  rep l (pre ++ c :: suf) →
  ∃ cs, index_set (length pre) d (chunks l) = Ret cs ∧ rep (set_chunks cs l) (pre ++ d :: suf).
Proof.
  intros (Hc & Hl & [junk Hj]). rewrite Hj. eexists. split.
  - apply index_set_ok. rewrite !length_app. cbn. lia.
  - split_and!; cbn [cl_count max_chunks chunks set_chunks].
    + rewrite Hc, !length_app. done.
    + by rewrite length_insert, <- Hj.
    + exists junk. rewrite <- !app_assoc. rewrite insert_app_r_alt by lia. by rewrite Nat.sub_diag.
Qed.

Lemma rep_erase l pre c suf :
  rep l (pre ++ c :: suf) →
  ∃ l', erase_chunk (length pre) l = Ret l' ∧ rep l' (pre ++ suf) ∧ max_chunks l' = max_chunks l.
Proof.
  intros (Hc & Hl & [junk Hj]). rewrite length_app in Hc. cbn in Hc. unfold erase_chunk.
  rewrite !bool_decide_eq_true_2 by lia. cbn [fw_assert]. rewrite !outcome_bind_ret. unfold copy_within.
  assert (length (chunks l) = length pre + S (length suf) + length junk)%nat as Hlen.
  { rewrite Hj, !length_app. cbn. lia. }
  rewrite !bool_decide_eq_true_2 by lia. cbn [andb]. rewrite outcome_bind_ret.
  eexists. split; [done|]. split; [|done]. split_and!; cbn [cl_count max_chunks chunks].
  - rewrite length_app. lia.
  - rewrite length_splice, Hl; [done|]. rewrite length_slice; lia.
  - assert (slice (length pre + 1) (cl_count l - (length pre + 1)) (chunks l) = suf) as ->.
    { rewrite Hj, <- !app_assoc. cbn. unfold slice. rewrite drop_app_ge by lia.
      replace (length pre + 1 - length pre)%nat with 1%nat by lia. cbn [drop].
      replace (cl_count l - (length pre + 1))%nat with (length suf) by lia. apply take_app_length. }
    unfold splice. rewrite (take_prefix pre _ (chunks l)) by (rewrite Hj, <- app_assoc; done). eexists. by rewrite <- app_assoc.
Qed.

Lemma rep_erase_range l pre mid suf :
  rep l (pre ++ mid ++ suf) →
  ∃ l', erase_range (length pre) (length pre + length mid) l = Ret l' ∧ rep l' (pre ++ suf) ∧ max_chunks l' = max_chunks l.
Proof.
  intros (Hc & Hl & [junk Hj]). rewrite !length_app in Hc. unfold erase_range.
  rewrite (bool_decide_eq_true_2 (_ ≤ _)%nat) by lia. cbn [fw_assert]. rewrite outcome_bind_ret.
  assert (length (chunks l) = length pre + (length mid + length suf) + length junk)%nat as Hlen.
  { rewrite Hj, !length_app. lia. }
  case_bool_decide as Hmid.
  - unfold copy_within. rewrite !bool_decide_eq_true_2 by lia. cbn [andb]. rewrite outcome_bind_ret.
    eexists. split; [done|]. split; [|done]. split_and!; cbn [cl_count max_chunks chunks].
    + rewrite length_app. lia.
    + rewrite length_splice, Hl; [done|]. rewrite length_slice; lia.
    + assert (slice (length pre + length mid) (cl_count l - (length pre + length mid)) (chunks l) = suf) as ->.
      { rewrite Hj, <- !app_assoc, (app_assoc pre mid). unfold slice. rewrite <- length_app, drop_app_length.
        rewrite length_app. replace (cl_count l - (length pre + length mid))%nat with (length suf) by lia.
        apply take_app_length. }
      unfold splice. rewrite (take_prefix pre _ (chunks l)) by (rewrite Hj, <- app_assoc; done). eexists. by rewrite <- app_assoc.
  - assert (mid = []) as -> by (destruct mid; [done|cbn in Hmid; lia]).
    exists l. split; [done|]. split; [|done]. split_and!; [rewrite Hc, length_app; cbn; lia|done|by exists junk].
Qed.

Lemma rep_insert l pre c suf :
  rep l (pre ++ suf) → (length (pre ++ suf) < max_chunks l)%nat →
  ∃ l', insert_chunk (length pre) c l = Ret l' ∧ rep l' (pre ++ c :: suf) ∧ max_chunks l' = max_chunks l.
Proof.
  intros (Hc & Hl & [junk Hj]) Hroom. rewrite length_app in *. unfold insert_chunk.
  rewrite (bool_decide_eq_true_2 (cl_count l < _)%nat), (bool_decide_eq_true_2 (_ ≤ _)%nat) by lia.
  cbn [fw_assert]. rewrite !outcome_bind_ret.
  assert (length (chunks l) = length pre + length suf + length junk)%nat as Hlen.
  { rewrite Hj, !length_app. lia. }
  assert (∃ x junk', (if bool_decide (0 < cl_count l)%nat && negb (bool_decide (length pre = cl_count l))
      then copy_within (length pre) (cl_count l) (length pre + 1) (chunks l) else Ret (chunks l))
    = Ret (pre ++ x :: suf ++ junk') ∧ length (pre ++ x :: suf ++ junk') = max_chunks l) as (x & junk' & -> & Hlj).
  { destruct (decide (suf = [])) as [->|Hne].
    - rewrite (bool_decide_eq_true_2 (length pre = _)) by (cbn in *; lia). rewrite andb_false_r.
      destruct junk as [|x junk]; [cbn in *; lia|]. exists x, junk. rewrite <- Hl, Hj. by rewrite app_nil_r.
    - assert (0 < length suf)%nat by (destruct suf; [done|cbn; lia]).
      rewrite (bool_decide_eq_true_2 (0 < _)%nat), (bool_decide_eq_false_2 (length pre = _)) by lia. cbn [andb negb].
      unfold copy_within. rewrite !bool_decide_eq_true_2 by lia. cbn [andb].
      assert (slice (length pre) (cl_count l - length pre) (chunks l) = suf) as Hs.
      { rewrite Hj, <- app_assoc. unfold slice. rewrite drop_app_length.
        replace (cl_count l - length pre)%nat with (length suf) by lia. apply take_app_length. }
      rewrite Hs. destruct suf as [|y suf]; [done|]. exists y, (drop (length pre + 1 + length (y :: suf)) (chunks l)).
      assert (splice (length pre + 1) (y :: suf) (chunks l)
        = pre ++ y :: (y :: suf) ++ drop (length pre + 1 + length (y :: suf)) (chunks l)) as E.
      { unfold splice. replace (length pre + 1)%nat with (length (pre ++ [y])) at 1 by (rewrite length_app; cbn; lia).
        rewrite (take_prefix (pre ++ [y]) (suf ++ junk) (chunks l)) by (rewrite Hj, <- !app_assoc; done).
        by rewrite <- app_assoc. }
      rewrite E. split; [done|]. rewrite <- E, length_splice; lia. }
  rewrite outcome_bind_ret. rewrite index_set_ok by (rewrite length_app; cbn; lia). rewrite outcome_bind_ret.
  eexists. split; [done|]. split; [|done]. split_and!; cbn [cl_count max_chunks chunks].
  - rewrite length_app. cbn. lia.
  - by rewrite length_insert.
  - exists junk'. rewrite insert_app_r_alt by lia. rewrite Nat.sub_diag. cbn. by rewrite <- app_assoc.
Qed.

(** * The ranges of a list *)

Lemma ranges_ok_app a b :
  ranges_ok (a ++ b) ↔ ranges_ok a ∧ ranges_ok b ∧ (∀ c d, c ∈ a → d ∈ b → apart c d).
Proof. unfold ranges_ok. rewrite Forall_app, StronglySorted_app. naive_solver. Qed.

Lemma ranges_ok_nil : ranges_ok [].
Proof. split; constructor. Qed.

Lemma ranges_ok_one c : chunk_ok c → ranges_ok [c].
Proof. intros Hc. split; [by apply Forall_singleton|]. repeat constructor. Qed.

Lemma ranges_ok_elem L c : ranges_ok L → c ∈ L → chunk_ok c.
Proof. intros [HF _]. by apply Forall_forall. Qed.

Lemma ranges_ok_drop pre mid suf : ranges_ok (pre ++ mid ++ suf) → ranges_ok (pre ++ suf).
Proof.
  rewrite !ranges_ok_app. intros (? & (? & ? & ?) & Hx). split_and!; try done.
  intros c d ??. apply Hx; [done|]. rewrite elem_of_app. auto.
Qed.

Lemma ranges_ok_insert pre x suf :
  ranges_ok (pre ++ suf) → chunk_ok x → Forall (λ d, apart d x) pre → Forall (apart x) suf → ranges_ok (pre ++ x :: suf).
Proof.
  rewrite !Forall_forall, (ranges_ok_app pre suf). intros (Hp & Hs & Hx) Hok Hl Hr.
  change (x :: suf) with ([x] ++ suf). rewrite !ranges_ok_app.
  split_and!; [done|by apply ranges_ok_one|done|set_solver|set_solver].
Qed.

Lemma ranges_ok_lt L i j x y : ranges_ok L → (i < j)%nat → L !! i = Some x → L !! j = Some y → apart x y.
Proof.
  intros HL Hij Hi Hj. rewrite <- (take_drop j L), ranges_ok_app in HL. destruct HL as (_ & _ & HL). apply HL.
  - apply list_elem_of_lookup. exists i. by rewrite lookup_take_lt.
  - apply list_elem_of_lookup. exists 0%nat. rewrite lookup_drop, Nat.add_0_r. done.
Qed.

Lemma covered_app a b x : covered (a ++ b) x ↔ covered a x ∨ covered b x.
Proof. apply Exists_app. Qed.
Lemma covered_cons c a x : covered (c :: a) x ↔ in_chunk c x ∨ covered a x.
Proof. apply Exists_cons. Qed.
Lemma covered_nil x : covered [] x ↔ False.
Proof. apply Exists_nil. Qed.
Lemma covered_elem L x : covered L x ↔ ∃ c, c ∈ L ∧ in_chunk c x.
Proof. apply Exists_exists. Qed.

(** Two ranges of a list have no byte in common. *)
Lemma covered_unique a c b x :
  ranges_ok (a ++ c :: b) → in_chunk c x → ¬ covered (a ++ b) x.
Proof.
  intros HL Hx [d [Hd Hdx]]%covered_elem. change (c :: b) with ([c] ++ b) in HL.
  rewrite !ranges_ok_app in HL. destruct HL as (Ha & (Hc & Hb & Hcb) & Hac).
  unfold in_chunk in *. apply elem_of_app in Hd as [Hd|Hd].
  - specialize (Hac d c Hd ltac:(set_solver)). unfold apart in Hac. lia.
  - specialize (Hcb c d ltac:(set_solver) Hd). unfold apart in Hcb. lia.
Qed.

(** * The searches *)

(** The loop keeps what is left of [first] below the offset and what is right
    of [first + count] at or above it. *)
Lemma find_insert_loop_ok fuel L junk c first count :
  ranges_ok L → (count < fuel)%nat → (first + count ≤ length L)%nat →
  (∀ j x, L !! j = Some x → (j < first)%nat → ch_offset x < ch_offset c) →
  (∀ j x, L !! j = Some x → (first + count ≤ j)%nat → ch_offset c ≤ ch_offset x) →
  ∃ i, find_insert_loop fuel first count c (L ++ junk) = Ret i ∧ (i ≤ length L)%nat ∧
    (∀ j x, L !! j = Some x → (j < i)%nat → ch_offset x < ch_offset c) ∧
    (∀ j x, L !! j = Some x → (i ≤ j)%nat → ch_offset c ≤ ch_offset x).
Proof.
  intros HL. revert first count.
  assert (∀ i j x y, L !! i = Some x → L !! j = Some y → (i ≤ j)%nat → ch_offset x ≤ ch_offset y) as Hmono.
  { intros i j x y Hi Hj Hij. destruct (decide (i = j)) as [->|]; [assert (x = y) as -> by congruence; lia|].
    assert (apart x y) as Ha by (apply (ranges_ok_lt L i j); [done|lia|done|done]).
    destruct (ranges_ok_elem L x HL) as (? & ? & ?); [by eapply list_elem_of_lookup_2|].
    unfold apart, chunk_end in Ha. lia. }
  induction fuel as [|fuel IH]; intros first count Hf Hb Hlo Hhi; [lia|]. cbn [find_insert_loop].
  case_bool_decide as Hpos.
  - assert (count / 2 < count)%nat by (apply Nat.div_lt; lia).
    destruct (lookup_lt_is_Some_2 L (first + count / 2)) as [x Hx]; [lia|].
    rewrite (index_get_ok (L ++ junk) (first + count / 2) x)
      by (rewrite lookup_app_l by (by eapply lookup_lt_Some); done).
    rewrite outcome_bind_ret. destruct (Z.ltb_spec (ch_offset x) (ch_offset c)) as [Hlt|Hge].
    + apply IH; [lia|lia| |].
      * intros j y Hy Hj. specialize (Hmono j _ y x Hy Hx). lia.
      * intros j y Hy Hj. apply (Hhi j y Hy). lia.
    + apply IH; [lia|lia|done|]. intros j y Hy Hj. specialize (Hmono _ j x y Hx Hy). lia.
  - exists first. split_and!; [done|lia|done|]. intros j x Hx Hj. apply (Hhi j x Hx). lia.
Qed.

Lemma find_insert_position_ok l L c :
  rep l L → ranges_ok L →
  ∃ pre suf, L = pre ++ suf ∧ find_insert_position c l = Ret (length pre) ∧
    Forall (λ x, ch_offset x < ch_offset c) pre ∧ Forall (λ x, ch_offset c ≤ ch_offset x) suf.
Proof.
  intros (Hc & _ & [junk Hj]) HL.
  destruct (find_insert_loop_ok (S (cl_count l)) L junk c 0 (cl_count l)) as (i & Hi & Hle & Hlo & Hhi);
    [done|lia|lia|intros; lia| |].
  { intros j x Hx%lookup_lt_Some ?. lia. }
  exists (take i L), (drop i L). rewrite take_drop, length_take_le by done.
  unfold find_insert_position. rewrite Hj. split_and!; [done|done| |].
  - apply Forall_lookup. intros j x [Hx ?]%lookup_take_Some. by apply (Hlo j).
  - apply Forall_lookup. intros j x Hx. rewrite lookup_drop in Hx. apply (Hhi _ x Hx). lia.
Qed.

Lemma combine_scan_ok mid pre suf junk e :
  Forall (λ x, ch_offset x ≤ e) mid → Forall (λ x, e < ch_offset x) suf →
  combine_scan (length mid + length suf) (length pre) (length pre + length mid + length suf) e (pre ++ mid ++ suf ++ junk)
  = Ret (length pre + length mid)%nat.
Proof.
  revert pre. induction mid as [|x mid IH]; intros pre Hm Hs; cbn [length app].
  - destruct Hs as [|y suf Hy Hs]; cbn [length Nat.add combine_scan app]; [by rewrite Nat.add_0_r|].
    rewrite bool_decide_eq_true_2 by lia. rewrite (index_get_ok _ _ y) by (by apply list_lookup_middle).
    rewrite outcome_bind_ret. rewrite (proj2 (Z.ltb_lt _ _)) by lia. f_equal. lia.
  - apply Forall_cons in Hm as [Hx Hm]. cbn [Nat.add combine_scan].
    rewrite bool_decide_eq_true_2 by lia. rewrite (index_get_ok _ _ x) by (by apply list_lookup_middle).
    rewrite outcome_bind_ret. rewrite (proj2 (Z.ltb_ge _ _)) by lia.
    specialize (IH (pre ++ [x]) Hm Hs). rewrite length_app, <- app_assoc in IH. cbn [length app] in IH.
    replace (length pre + S (length mid) + length suf)%nat with (length pre + 1 + length mid + length suf)%nat by lia.
    rewrite IH. f_equal. lia.
Qed.

(** * Merging *)

(** From the start of [c] to the last end of [c] and [d]. *)
Definition hull (c d : Chunk) : Chunk := MkChunk (ch_offset c) (Z.max (chunk_end c) (chunk_end d) - ch_offset c).

Lemma hull_end c d : chunk_end (hull c d) = Z.max (chunk_end c) (chunk_end d).
Proof. unfold hull, chunk_end. cbn [ch_offset ch_size]. lia. Qed.

Lemma hull_ok c d : chunk_ok c → chunk_ok d → chunk_ok (hull c d).
Proof. unfold chunk_ok. rewrite hull_end. unfold hull, chunk_end. cbn [ch_offset ch_size]. lia. Qed.

Lemma in_hull c d x : ch_offset c ≤ ch_offset d ≤ chunk_end c → in_chunk (hull c d) x ↔ in_chunk c x ∨ in_chunk d x.
Proof. intros H. unfold in_chunk. rewrite hull_end. unfold hull. cbn [ch_offset]. lia. Qed.

Lemma hull_l c d : chunk_end d ≤ chunk_end c → hull c d = c.
Proof. intros H. unfold hull. rewrite Z.max_l by done. destruct c; cbn. f_equal. unfold chunk_end. cbn [ch_offset ch_size]. lia. Qed.

(** [c] and every range of [mid], all starting within [c], are [c] extended to
    the last of them. *)
Lemma in_hull_all c mid d x :
  ranges_ok (mid ++ [d]) → Forall (λ y, ch_offset c ≤ ch_offset y ≤ chunk_end c) (mid ++ [d]) →
  in_chunk (hull c d) x ↔ in_chunk c x ∨ covered (mid ++ [d]) x.
Proof.
  intros (Hm & Hd & Ha)%ranges_ok_app [HF Hd']%Forall_app. rewrite Forall_singleton in Hd'. rewrite (in_hull c d x) by exact Hd'.
  rewrite covered_app, covered_cons, covered_nil.
  split; [naive_solver|]. intros [Hx|[Hx|[Hx|[]]]]; [by left| |by right].
  apply covered_elem in Hx as (y & Hy & Hx). rewrite Forall_forall in HF. specialize (HF y Hy).
  specialize (Ha y d Hy ltac:(set_solver)). unfold in_chunk, apart in *. lia.
Qed.

Section width_facts.
Context `{BuildProfile}.

Lemma add_end c : chunk_ok c → add_w 32 (ch_offset c) (ch_size c) = Ret (chunk_end c).
Proof. intros (? & ? & ?). apply overflowing_in. unfold is_u, chunk_end in *. lia. Qed.

Lemma combine_next_ok l pre mid suf c :
  rep l (pre ++ mid ++ suf) → chunk_ok c → ranges_ok (pre ++ mid ++ suf) →
  Forall (λ y, ch_offset c ≤ ch_offset y ≤ chunk_end c) mid → Forall (λ y, chunk_end c < ch_offset y) suf →
  (mid = [] ∧ combine_next (length pre) c l = Ret (false, l)) ∨
  (∃ mid' d l', mid = mid' ++ [d] ∧ combine_next (length pre) c l = Ret (true, l') ∧
     rep l' (pre ++ hull c d :: suf) ∧ max_chunks l' = max_chunks l).
Proof.
  intros Hr Hok HL Hm Hs. pose proof Hr as (Hc & _ & [junk Hj]). rewrite !length_app in Hc. unfold combine_next.
  rewrite wrap_small by (destruct Hok as (? & ? & ?); unfold is_u, chunk_end in *; lia). fold (chunk_end c).
  rewrite (proj2 (Z.ltb_lt _ _)) by (destruct Hok as (? & ? & ?); unfold chunk_end; lia). cbn [fw_assert].
  assert (chunks l = pre ++ mid ++ suf ++ junk) as Hj' by (by rewrite Hj, <- !app_assoc).
  rewrite outcome_bind_ret, Hj', Hc.
  replace (length pre + (length mid + length suf) - length pre)%nat with (length mid + length suf)%nat by lia.
  replace (length pre + (length mid + length suf))%nat with (length pre + length mid + length suf)%nat by lia.
  rewrite combine_scan_ok by (done || (eapply Forall_impl; [exact Hm|]; cbn; lia)).
  rewrite <- Hj', outcome_bind_ret. destruct mid as [|d mid' _] using rev_ind.
  - left. split; [done|]. cbn [length]. rewrite bool_decide_eq_true_2 by lia. cbn [negb]. done.
  - right. exists mid', d. rewrite bool_decide_eq_false_2 by (rewrite length_app; cbn; lia). cbn [negb].
    rewrite (rep_get l _ _ d Hr).
    2: { replace (length pre + length (mid' ++ [d]) - 1)%nat with (length (pre ++ mid')) by (rewrite !length_app; cbn; lia).
         rewrite <- !app_assoc, (app_assoc pre mid'). by apply list_lookup_middle. }
    rewrite outcome_bind_ret. assert (chunk_ok d) as Hd by (eapply ranges_ok_elem; [exact HL|set_solver]).
    rewrite add_end by done. rewrite outcome_bind_ret.
    pose proof (hull_ok c d Hok Hd) as Hh. pose proof (hull_end c d) as Hhe.
    unfold sub_w. rewrite overflowing_in by (destruct Hh as (? & ? & ?), Hok as (? & ? & ?); unfold is_u, hull in *; cbn [ch_offset ch_size] in *; lia).
    rewrite outcome_bind_ret. fold (hull c d).
    destruct (mid' ++ [d]) as [|e rest] eqn:Em; [by destruct mid'|].
    destruct (rep_set l pre e (rest ++ suf) (hull c d)) as (cs & -> & Hr1); [done|]. rewrite outcome_bind_ret.
    assert (rep (set_chunks cs l) ((pre ++ [hull c d]) ++ rest ++ suf)) as Hr2 by (by rewrite <- app_assoc).
    destruct (rep_erase_range _ _ _ _ Hr2) as (l' & He & Hr' & Hmax). rewrite length_app in He. cbn [length] in *.
    replace (length pre + S (length rest))%nat with (length pre + 1 + length rest)%nat by lia. rewrite He.
    exists l'. rewrite outcome_bind_ret. split_and!; [done|done|by rewrite <- app_assoc in Hr'|done].
Qed.

Lemma combine_previous_ok l pre rest c :
  rep l (pre ++ rest) → chunk_ok c → ranges_ok pre →
  Forall (λ y, ch_offset y < ch_offset c) pre →
  (combine_previous (length pre) c l = Ret (false, l) ∧ Forall (λ y, apart y c) pre) ∨
  (∃ pre' p l', pre = pre' ++ [p] ∧ combine_previous (length pre) c l = Ret (true, l') ∧ ch_offset c ≤ chunk_end p ∧
     rep l' (pre' ++ hull p c :: rest) ∧ max_chunks l' = max_chunks l).
Proof.
  intros Hr Hok HL Hlt. unfold combine_previous.
  pose proof (rep_le _ _ Hr) as Hle. rewrite length_app in Hle. rewrite (bool_decide_eq_true_2 (_ ≤ _)%nat) by lia.
  cbn [fw_assert]. rewrite outcome_bind_ret. destruct pre as [|p pre' _] using rev_ind.
  { left. split; [done|constructor]. }
  rewrite length_app. cbn [length]. rewrite bool_decide_eq_true_2 by lia. rewrite add_end by done. rewrite outcome_bind_ret.
  replace (length pre' + 1 - 1)%nat with (length pre') by lia.
  rewrite <- app_assoc in Hr. rewrite (rep_get _ _ _ p Hr) by (by apply list_lookup_middle). rewrite outcome_bind_ret.
  assert (chunk_ok p) as Hp by (eapply ranges_ok_elem; [exact HL|set_solver]).
  rewrite add_end by done. rewrite outcome_bind_ret. rewrite Forall_app, Forall_singleton in Hlt. destruct Hlt as [_ Hpc].
  destruct (Z.leb_spec (ch_offset c) (chunk_end p)) as [Hle'|Hgt].
  - right. exists pre', p. destruct (Z.ltb_spec (chunk_end p) (chunk_end c)) as [Hext|Hin].
    + destruct (hull_ok p c Hp Hok) as (? & ? & ?). unfold sub_w.
      rewrite overflowing_in by (destruct Hp as (? & ? & ?), Hok as (? & ? & ?); unfold is_u in *; lia).
      rewrite outcome_bind_ret. destruct (rep_set l pre' p rest (MkChunk (ch_offset p) (chunk_end c - ch_offset p)) Hr) as (cs & -> & Hr').
      rewrite outcome_bind_ret. eexists. split_and!; [done|done|done| |done].
      unfold hull. by rewrite Z.max_r by lia.
    + exists l. split_and!; [done|done|done| |done]. by rewrite hull_l by done.
  - left. split; [done|]. apply Forall_app. split; [|by apply Forall_singleton].
    apply ranges_ok_app in HL as (Hpre & _ & HL). apply Forall_forall. intros y Hy.
    specialize (HL y p Hy ltac:(set_solver)). destruct Hp as (? & ? & ?). unfold apart, chunk_end in *. lia.
Qed.

Lemma smallest_loop_ok n L junk i s :
  (i + n = length L)%nat → (s < i)%nat →
  (∀ j x y, L !! j = Some x → (j < i)%nat → L !! s = Some y → ch_size y ≤ ch_size x) →
  ∃ r y, smallest_loop n i s (L ++ junk) = Ret r ∧ L !! r = Some y ∧ Forall (λ x, ch_size y ≤ ch_size x) L.
Proof.
  revert i s. induction n as [|n IH]; intros i s Hi Hs Hmin; cbn [smallest_loop].
  - destruct (lookup_lt_is_Some_2 L s) as [y Hy]; [lia|]. exists s, y. split_and!; [done|done|].
    apply Forall_lookup. intros j x Hx. eapply Hmin; [exact Hx|apply lookup_lt_Some in Hx; lia|done].
  - destruct (lookup_lt_is_Some_2 L i) as [a Ha]; [lia|]. destruct (lookup_lt_is_Some_2 L s) as [b Hb]; [lia|].
    rewrite (index_get_ok _ i a), (index_get_ok _ s b) by (rewrite lookup_app_l; [done|lia]). rewrite !outcome_bind_ret.
    apply IH; [lia| |].
    + destruct (_ <? _); lia.
    + intros j x y Hx Hj Hy. specialize (Hmin j x). destruct (Z.ltb_spec (ch_size a) (ch_size b)).
      * assert (y = a) as -> by congruence. destruct (decide (j = i)) as [->|]; [replace x with a by congruence; lia|].
        specialize (Hmin b Hx ltac:(lia) Hb). lia.
      * assert (y = b) as -> by congruence. destruct (decide (j = i)) as [->|]; [replace x with a by congruence; lia|].
        apply (Hmin b Hx); [lia|done].
Qed.

Lemma find_smallest_size_ok l L :
  rep l L → (0 < length L)%nat →
  ∃ pre s suf, L = pre ++ s :: suf ∧ find_smallest_size l = Ret (length pre) ∧ Forall (λ x, ch_size s ≤ ch_size x) L.
Proof.
  intros (Hc & _ & [junk Hj]) Hpos. unfold find_smallest_size. rewrite Hj, Hc.
  destruct (smallest_loop_ok (length L - 1) L junk 1 0) as (r & y & -> & Hr & Hall); [lia|lia| |].
  { intros j x y Hx Hj1 Hy. assert (j = 0)%nat as -> by lia. replace y with x by congruence; lia. }
  exists (take r L), y, (drop (S r) L). split_and!; [by rewrite take_drop_middle| |done].
  rewrite length_take_le; [done|]. apply lookup_lt_Some in Hr. lia.
Qed.

(** What [insert] leaves: everything it had and the new range, or, when the
    list is full and the range touches no other, all of it but the smallest. *)
Definition inserted (c : Chunk) (full : bool) (L L' : list Chunk) : Prop :=
  (length L' ≤ S (length L))%nat ∧
  ((∀ x, covered L' x ↔ covered L x ∨ in_chunk c x) ∨
   (full = true ∧ Forall (λ d, apart d c ∨ apart c d) L ∧
    ∃ s, s ∈ L ++ [c] ∧ Forall (λ d, ch_size s ≤ ch_size d) (L ++ [c]) ∧
      ∀ x, covered L' x ↔ (covered L x ∨ in_chunk c x) ∧ ¬ in_chunk s x)).

Lemma evict_ok l L c :
  rep l L → (0 < max_chunks l)%nat → cl_count l = max_chunks l → ranges_ok L → chunk_ok c →
  Forall (λ d, apart d c ∨ apart c d) L →
  ∃ l' L', (smallest_i ← find_smallest_size l;
      x ← index_get (chunks l) smallest_i;
      if ch_size x <? ch_size c then
        l3 ← erase_chunk smallest_i l;
        at_ ← find_insert_position c l3;
        insert_chunk at_ c l3
      else Ret l) = Ret l' ∧ rep l' L' ∧ max_chunks l' = max_chunks l ∧ ranges_ok L' ∧ inserted c true L L'.
Proof.
  intros Hr Hm Hfull HL Hc Happ.
  destruct (find_smallest_size_ok l L Hr) as (pre & s & suf & -> & -> & Hmin); [destruct Hr; lia|].
  rewrite outcome_bind_ret, (rep_get _ _ _ s Hr) by (by apply list_lookup_middle). rewrite outcome_bind_ret.
  assert (∀ x, in_chunk c x → ¬ covered (pre ++ s :: suf) x) as Hdis.
  { intros x Hx [d [Hd Hdx]]%covered_elem. rewrite Forall_forall in Happ. destruct (Happ d Hd); unfold in_chunk, apart in *; lia. }
  destruct (Z.ltb_spec (ch_size s) (ch_size c)) as [Hlt|Hge].
  - destruct (rep_erase _ _ _ _ Hr) as (l3 & -> & Hr3 & Hm3). rewrite outcome_bind_ret.
    pose proof HL as HL3. change (s :: suf) with ([s] ++ suf) in HL3. apply ranges_ok_drop in HL3.
    destruct (find_insert_position_ok l3 _ c Hr3 HL3) as (a & b & Eab & -> & Ha & Hb). rewrite outcome_bind_ret.
    rewrite Eab in Hr3, HL3. assert (∀ d, d ∈ a ++ b → chunk_ok d ∧ (apart d c ∨ apart c d)) as Hd.
    { intros d Hd. split; [by eapply ranges_ok_elem|]. rewrite Forall_forall in Happ. apply Happ. rewrite <- Eab in Hd. set_solver. }
    destruct (rep_insert l3 a c b Hr3) as (l' & -> & Hr' & Hm').
    { rewrite <- Eab, Hm3. destruct Hr as (Hcnt & _). rewrite length_app in *. cbn in Hcnt. lia. }
    exists l', (a ++ c :: b). split_and!; [done|done|congruence| |].
    + apply ranges_ok_insert; [done|done| |]; apply Forall_forall; intros d Hin.
      * rewrite Forall_forall in Ha. specialize (Ha d Hin). destruct (Hd d) as [(? & ? & ?) [|Hx]]; [set_solver|done|].
        unfold apart, chunk_end in *. destruct Hc as (? & ? & ?). lia.
      * rewrite Forall_forall in Hb. specialize (Hb d Hin). destruct (Hd d) as [(? & ? & ?) [Hx|]]; [set_solver| |done].
        unfold apart, chunk_end in *. destruct Hc as (? & ? & ?). lia.
    + split; [pose proof (rep_le _ _ Hr'); destruct Hr as (Hcnt & _); lia|].
      right. split_and!; [done|done|]. exists s. split_and!; [set_solver| |].
      * apply Forall_app. split; [done|]. apply Forall_singleton. lia.
      * intros x. rewrite !covered_app, !covered_cons. assert (covered a x ∨ covered b x ↔ covered pre x ∨ covered suf x) as Hab.
        { by rewrite <- !covered_app, Eab. }
        pose proof (covered_unique pre s suf x HL) as Hun. rewrite covered_app in Hun.
        specialize (Hdis x). rewrite covered_app, covered_cons in Hdis. tauto.
  - exists l, (pre ++ s :: suf). split_and!; [done|done|done|done|]. split; [lia|]. right. split_and!; [done|done|].
    exists c. split_and!; [set_solver| |].
    + apply Forall_app. split; [|by apply Forall_singleton]. eapply Forall_impl; [exact Hmin|]. cbn. lia.
    + intros x. specialize (Hdis x). tauto.
Qed.

(** A new range before, across and after the ranges of the list. *)
Lemma split_around c suf :
  ranges_ok suf → Forall (λ y, ch_offset c ≤ ch_offset y) suf →
  ∃ mid suf', suf = mid ++ suf' ∧ Forall (λ y, ch_offset c ≤ ch_offset y ≤ chunk_end c) mid ∧
    Forall (λ y, chunk_end c < ch_offset y) suf'.
Proof.
  induction suf as [|y suf IH]; intros HL Hle; [exists [], []; split_and!; done || constructor|].
  apply Forall_cons in Hle as [Hy Hle]. change (y :: suf) with ([y] ++ suf) in HL.
  apply ranges_ok_app in HL as (Hok & HL & Ha). destruct (decide (chunk_end c < ch_offset y)) as [Hlt|Hge].
  - exists [], (y :: suf). split_and!; [done|constructor|]. constructor; [done|]. apply Forall_forall. intros d Hd.
    specialize (Ha y d ltac:(set_solver) Hd). destruct (ranges_ok_elem [y] y Hok ltac:(set_solver)) as (? & ? & ?).
    unfold apart, chunk_end in *. lia.
  - destruct (IH HL Hle) as (mid & suf' & -> & Hm & Hs). exists (y :: mid), suf'. split_and!; [done| |done].
    constructor; [lia|done].
Qed.

(** One range replaces some neighbours it covers exactly. *)
Lemma replaced_ok l l' pre old suf new c :
  rep l' (pre ++ new :: suf) → max_chunks l' = max_chunks l → ranges_ok (pre ++ old ++ suf) → chunk_ok new →
  Forall (λ d, apart d new) pre → Forall (apart new) suf →
  (∀ x, in_chunk new x ↔ covered old x ∨ in_chunk c x) →
  ∃ L', rep l' L' ∧ max_chunks l' = max_chunks l ∧ ranges_ok L' ∧ (∀ b, inserted c b (pre ++ old ++ suf) L').
Proof.
  intros Hr Hm HL Hn Hp Hs Hcov. exists (pre ++ new :: suf). split_and!; [done|done| |].
  - apply ranges_ok_insert; [by eapply ranges_ok_drop|done|done|done].
  - intros b. split; [rewrite !length_app; cbn [length]; lia|]. left. intros x. rewrite !covered_app, covered_cons, Hcov. tauto.
Qed.

Lemma replaced_prev_ok l l' pre p mid suf n c :
  rep l' (pre ++ hull p n :: suf) → max_chunks l' = max_chunks l → ranges_ok ((pre ++ [p]) ++ mid ++ suf) → chunk_ok n →
  ch_offset p < ch_offset n ≤ chunk_end p → Forall (apart n) suf →
  (∀ x, in_chunk n x ↔ covered mid x ∨ in_chunk c x) →
  ∃ L', rep l' L' ∧ max_chunks l' = max_chunks l ∧ ranges_ok L' ∧ (∀ b, inserted c b ((pre ++ [p]) ++ mid ++ suf) L').
Proof.
  rewrite <- app_assoc, (app_assoc [p] mid suf). intros Hr Hm HL Hn Hpn Hs Hcov.
  pose proof HL as (_ & Hx & Hpre)%ranges_ok_app. pose proof Hx as (Hp & _ & Hps)%ranges_ok_app.
  apply (replaced_ok l l' pre ([p] ++ mid) suf (hull p n) c); [done|done|done| | | |].
  - apply hull_ok; [|done]. eapply ranges_ok_elem; [exact Hp|set_solver].
  - apply Forall_forall. intros d Hd. apply (Hpre d p Hd). set_solver.
  - apply Forall_forall. intros y Hy. rewrite Forall_forall in Hs. specialize (Hs y Hy).
    specialize (Hps p y ltac:(set_solver) Hy). unfold apart in *. rewrite hull_end. lia.
  - intros x. cbn [app]. rewrite covered_cons, (in_hull p n x) by lia. rewrite Hcov. tauto.
Qed.

Lemma cl_insert_ok l L pre suf c :
  rep l L → L = pre ++ suf → ranges_ok L → chunk_ok c → (0 < max_chunks l)%nat →
  Forall (λ x, ch_offset x < ch_offset c) pre → Forall (λ x, ch_offset c ≤ ch_offset x) suf →
  ∃ l' L', cl_insert (length pre) c l = Ret l' ∧ rep l' L' ∧ max_chunks l' = max_chunks l ∧ ranges_ok L' ∧
    inserted c (bool_decide (cl_count l = max_chunks l)) L L'.
Proof.
  intros Hr -> HL Hc Hm0 Hlo Hhi. destruct (split_around c suf) as (mid & suf' & -> & Hmid & Hsuf); [by apply ranges_ok_app in HL as (_ & ? & _)|done|].
  assert (ranges_ok pre) as Hpre by (by apply ranges_ok_app in HL as (? & _ & _)).
  unfold cl_insert. destruct (combine_next_ok l pre mid suf' c Hr Hc HL Hmid Hsuf)
    as [(-> & ->)|(mid' & d & l1 & -> & -> & Hr1 & Hm1)]; rewrite outcome_bind_ret.
  - cbn [app] in *. destruct (combine_previous_ok l pre suf' c Hr Hc Hpre Hlo)
      as [(-> & Hap)|(pre' & p & l2 & -> & -> & Hle & Hr2 & Hm2)]; rewrite outcome_bind_ret.
    + case_bool_decide as Hroom.
      * destruct (rep_insert l pre c suf' Hr) as (l' & -> & Hr' & Hm'); [destruct Hr as (<- & _); done|].
        destruct (replaced_ok l l' pre [] suf' c c) as (L' & ? & ? & ? & ?); try done.
        { intros x. rewrite covered_nil. tauto. }
        exists l', L'. cbn [app] in *. auto.
      * assert (cl_count l = max_chunks l) as Hfull by (pose proof (rep_le _ _ Hr); destruct Hr; lia).
        rewrite bool_decide_eq_true_2 by done. apply evict_ok; try done. apply Forall_app.
        split; [eapply Forall_impl; [exact Hap|]; cbn; auto|eapply Forall_impl; [exact Hsuf|]; cbn; auto].
    + rewrite Forall_app, Forall_singleton in Hlo. destruct Hlo as [_ Hpc].
      destruct (replaced_prev_ok l l2 pre' p [] suf' c c) as (L' & ? & ? & ? & ?); try done.
      { intros x. rewrite covered_nil. tauto. }
      exists l2, L'. cbn [app] in *. auto.
  - assert (ranges_ok (mid' ++ [d])) as Hmd by (apply ranges_ok_app in HL as (_ & HL & _); by apply ranges_ok_app in HL as (? & _ & _)).
    assert (chunk_ok d) as Hd by (eapply ranges_ok_elem; [exact Hmd|set_solver]). set (n := hull c d) in *.
    assert (∀ x, in_chunk n x ↔ covered (mid' ++ [d]) x ∨ in_chunk c x) as Hcov
      by (intros x; unfold n; rewrite (in_hull_all c mid' d x) by done; tauto).
    assert (Forall (apart n) suf') as Hn.
    { apply Forall_forall. intros y Hy. rewrite Forall_forall in Hsuf. specialize (Hsuf y Hy).
      apply ranges_ok_app in HL as (_ & HL & _). apply ranges_ok_app in HL as (_ & _ & HL).
      specialize (HL d y ltac:(set_solver) Hy). unfold apart, n in *. rewrite hull_end. lia. }
    assert (chunk_ok n) as Hnok by (by apply hull_ok).
    rewrite (rep_get _ _ _ n Hr1) by (by apply list_lookup_middle). rewrite outcome_bind_ret.
    destruct (combine_previous_ok l1 pre (n :: suf') n Hr1 Hnok Hpre Hlo)
      as [(-> & Hap)|(pre' & p & l2 & -> & -> & Hle & Hr2 & Hm2)]; rewrite outcome_bind_ret.
    + destruct (replaced_ok l l1 pre (mid' ++ [d]) suf' n c) as (L' & ? & ? & ? & ?); try done. exists l1, L'. auto.
    + rewrite Forall_app, Forall_singleton in Hlo. destruct Hlo as [_ Hpc].
      change (hull p n :: n :: suf') with ([hull p n] ++ n :: suf') in Hr2. rewrite app_assoc in Hr2.
      destruct (rep_erase _ _ _ _ Hr2) as (l' & He & Hr' & Hm'). rewrite length_app in He. rewrite length_app. cbn [length] in He |- *. rewrite He.
      rewrite <- app_assoc in Hr'.
      destruct (replaced_prev_ok l l' pre' p (mid' ++ [d]) suf' n c) as (L' & ? & ? & ? & ?); try done; [congruence|].
      exists l', L'. auto.
Qed.

Lemma cl_add_ok l off size :
  cl_ok l → is_u 32 off → is_u 32 size → off + size < 2 ^ 32 →
  ∃ l', cl_add off size l = Ret l' ∧ cl_ok l' ∧ max_chunks l' = max_chunks l ∧
    inserted (MkChunk off size) (bool_decide (cl_count l = max_chunks l)) (cl_live l) (cl_live l').
Proof.
  intros Hok Hoff Hsize Hsum. pose proof Hok as (Hr & Hm & HL)%cl_ok_rep. unfold cl_add.
  destruct (Z.eqb_spec size 0) as [->|Hne].
  - exists l. split_and!; [done|done|done|]. split; [lia|]. left. intros x. unfold in_chunk, chunk_end. cbn [ch_offset ch_size].
    split; [by left|]. intros [|]; [done|lia].
  - destruct (find_insert_position_ok l _ (MkChunk off size) Hr HL) as (pre & suf & E & -> & Hlo & Hhi).
    rewrite outcome_bind_ret, (proj2 (Z.ltb_lt _ _)) by done. cbn [fw_assert]. rewrite outcome_bind_ret.
    destruct (cl_insert_ok l _ pre suf (MkChunk off size) Hr E HL) as (l' & L' & -> & Hr' & Hm' & HL' & Hins); try done.
    { unfold is_u, chunk_ok, chunk_end in *. cbn [ch_offset ch_size]. lia. }
    exists l'. rewrite (rep_live _ _ Hr'). split_and!; [done| |done|done]. eapply rep_ok; [exact Hr'|lia|done].
Qed.
End width_facts.

(** * The gaps *)

(** The missing ranges of [[cur, total)], as a sweep over the sorted list. *)
Fixpoint gaps (cur total : Z) (L : list Chunk) : list Chunk :=
  match L with
  | [] => if cur <? total then [MkChunk cur (total - cur)] else []
  | c :: L' => (if cur <? ch_offset c then [MkChunk cur (ch_offset c - cur)] else []) ++ gaps (Z.max cur (chunk_end c)) total L'
  end.

Definition within (total : Z) (L : list Chunk) : Prop := Forall (λ c, chunk_end c ≤ total) L.

Lemma ranges_ok_cons c L : ranges_ok (c :: L) ↔ chunk_ok c ∧ ranges_ok L ∧ Forall (apart c) L.
Proof.
  change (c :: L) with ([c] ++ L). rewrite ranges_ok_app, Forall_forall. split.
  - intros (Hc & HL & Ha). split_and!; [eapply ranges_ok_elem; [exact Hc|set_solver]|done|set_solver].
  - intros (Hc & HL & Ha). split_and!; [by apply ranges_ok_one|done|set_solver].
Qed.

Lemma gaps_lower L cur total : Forall (λ g, cur ≤ ch_offset g) (gaps cur total L).
Proof.
  revert cur. induction L as [|c L IH]; intros cur; cbn [gaps].
  - destruct (_ <? _); repeat constructor. cbn. lia.
  - apply Forall_app. split; [destruct (_ <? _); repeat constructor; cbn; lia|].
    eapply Forall_impl; [apply IH|]. cbn. lia.
Qed.

(** The sweep yields the complement, in order and with no empty gap. *)
Lemma gaps_exact L cur total :
  ranges_ok L → within total L → 0 ≤ cur → total < 2 ^ 32 →
  ranges_ok (gaps cur total L) ∧ ∀ x, covered (gaps cur total L) x ↔ cur ≤ x < total ∧ ¬ covered L x.
Proof.
  intros HL HW Hcur Htot. revert cur Hcur. induction L as [|c L IH]; intros cur Hcur; cbn [gaps].
  - destruct (Z.ltb_spec cur total) as [Hlt|Hge].
    + split; [apply ranges_ok_one; unfold chunk_ok, chunk_end; cbn [ch_offset ch_size]; lia|].
      intros x. rewrite covered_cons, !covered_nil. unfold in_chunk, chunk_end. cbn [ch_offset ch_size]. lia.
    + split; [apply ranges_ok_nil|]. intros x. rewrite !covered_nil. lia.
  - apply ranges_ok_cons in HL as ((? & ? & ?) & HL & Ha). apply Forall_cons in HW as [Hc HW].
    destruct (IH HL HW (Z.max cur (chunk_end c))) as [HG Hcov]; [lia|]. pose proof (gaps_lower L (Z.max cur (chunk_end c)) total) as Hlow.
    assert (∀ x, cur ≤ x < chunk_end c → ¬ covered L x) as Hout.
    { intros x Hx [d [Hd Hdx]]%covered_elem. rewrite Forall_forall in Ha. specialize (Ha d Hd). unfold apart, in_chunk in *. lia. }
    assert (∀ x, covered (c :: L) x ↔ in_chunk c x ∨ covered L x) as Hcons by (intros; apply covered_cons).
    unfold chunk_end in *. destruct (Z.ltb_spec cur (ch_offset c)) as [Hlt|Hge]; cbn [app].
    + split.
      * apply ranges_ok_cons. split_and!; [unfold chunk_ok, chunk_end; cbn [ch_offset ch_size]; lia|done|].
        eapply Forall_impl; [exact Hlow|]. unfold apart, chunk_end. cbn [ch_offset ch_size]. lia.
      * intros x. rewrite covered_cons, Hcov, Hcons. specialize (Hout x). unfold in_chunk, chunk_end. cbn [ch_offset ch_size].
        destruct (decide (covered L x)) as [Hin|Hnin].
        { split; [intros [?|[_ []]]; [exfalso; apply Hout; [lia|done]|done]|intros [_ Hn]; exfalso; tauto]. }
        split; [intros [?|[? _]]; (split; [lia|intros [?|?]; [lia|done]])|intros [? Hn]].
        assert (¬ (ch_offset c ≤ x < ch_offset c + ch_size c)) by tauto.
        destruct (decide (x < ch_offset c)); [left; lia|right; split; [lia|done]].
    + split; [done|]. intros x. rewrite Hcov, Hcons. specialize (Hout x). unfold in_chunk, chunk_end.
      destruct (decide (covered L x)); [tauto|].
      split; [intros [? _]; split; [lia|intros [?|?]; [lia|done]]|intros [? Hn]].
      assert (¬ (ch_offset c ≤ x < ch_offset c + ch_size c)) by tauto. split; [lia|done].
Qed.

Lemma gap_end_wrap c : chunk_ok c → wrap 32 (ch_offset c + ch_size c) = chunk_end c.
Proof. intros (? & ? & ?). apply wrap_small. unfold is_u, chunk_end in *. lia. Qed.

Lemma next_off_ok l pre c rest total :
  rep l (pre ++ c :: rest) →
  (if bool_decide (length pre = cl_count l - 1)%nat then Ret total
   else n ← index_get (chunks l) (length pre + 1); Ret (ch_offset n))
  = Ret (match rest with [] => total | d :: _ => ch_offset d end).
Proof.
  intros Hr. pose proof Hr as (Hc & _). rewrite length_app in Hc. destruct rest as [|d rest]; cbn [length] in Hc.
  - by rewrite bool_decide_eq_true_2 by lia.
  - rewrite bool_decide_eq_false_2 by lia. rewrite (rep_get _ _ _ d Hr); [done|].
    rewrite lookup_app_r by lia. by replace (length pre + 1 - length pre)%nat with 1%nat by lia.
Qed.

Lemma gaps_loop_step fuel l pre c rest ret max total start :
  rep l (pre ++ c :: rest) → chunk_ok c →
  gaps_loop (S fuel) (length pre) ret max total start l =
  let next := match rest with [] => total | d :: _ => ch_offset d end in
  let off := Z.max start (chunk_end c) in
  if bool_decide (ret < max)%nat then
    if total <=? chunk_end c then Ret []
    else if start <? next then
      gs ← gaps_loop fuel (length (pre ++ [c])) (ret + 1) max total start l; Ret (MkChunk off (wrap 32 (next - off)) :: gs)
    else gaps_loop fuel (length (pre ++ [c])) ret max total start l
  else Ret [].
Proof.
  intros Hr Hok. pose proof Hr as (Hc & _). rewrite length_app in Hc. cbn [length] in Hc. rewrite length_app.
  cbn [gaps_loop length]. rewrite (bool_decide_eq_true_2 (length pre < _)%nat), andb_true_r by lia.
  case_bool_decide; [|done]. rewrite (next_off_ok l pre c rest total Hr), outcome_bind_ret.
  rewrite (rep_get _ _ _ c Hr) by (by apply list_lookup_middle). rewrite outcome_bind_ret, gap_end_wrap by done.
  by replace (if start <? chunk_end c then chunk_end c else start) with (Z.max start (chunk_end c))
    by (destruct (Z.ltb_spec start (chunk_end c)); lia).
Qed.

Lemma gaps_loop_ok rest l pre c ret max total start :
  rep l (pre ++ c :: rest) → ranges_ok (c :: rest) → within total (c :: rest) → 0 ≤ start < total → total < 2 ^ 32 →
  gaps_loop (S (length rest)) (length pre) ret max total start l
  = Ret (take (max - ret) (gaps (Z.max start (chunk_end c)) total rest)).
Proof.
  revert pre c ret. induction rest as [|d rest IH]; intros pre c ret Hr HL HW Hst Htot.
  all: apply ranges_ok_cons in HL as (Hok & HL & Ha); apply Forall_cons in HW as [Hce HW].
  all: rewrite (gaps_loop_step _ _ _ _ _ _ _ _ _ Hr Hok); cbv zeta.
  all: case_bool_decide as Hroom; [|by replace (max - ret)%nat with 0%nat by lia].
  all: cbn [gaps length].
  - destruct (Z.leb_spec total (chunk_end c)) as [Hle|Hgt].
    + rewrite (proj2 (Z.ltb_ge _ _)) by lia. by rewrite take_nil.
    + rewrite (proj2 (Z.ltb_lt start total)), (proj2 (Z.ltb_lt (Z.max _ _) _)) by lia.
      cbn [gaps_loop]. rewrite outcome_bind_ret, wrap_small by (unfold is_u; destruct Hok as (? & ? & ?); lia).
      replace (max - ret)%nat with (S (max - ret - 1)) by lia. cbn [take]. by rewrite take_nil.
  - apply Forall_cons in Ha as [Had Ha]. pose proof HL as ((? & ? & ?) & _ & _)%ranges_ok_cons.
    pose proof HW as [Hde _]%Forall_cons. unfold apart in Had.
    assert (rep l ((pre ++ [c]) ++ d :: rest)) as Hr' by (by rewrite <- app_assoc).
    replace (Z.max (Z.max start (chunk_end c)) (chunk_end d)) with (Z.max start (chunk_end d)) by (unfold chunk_end in *; lia).
    rewrite (proj2 (Z.leb_gt _ _)) by (unfold chunk_end in *; lia).
    destruct (Z.ltb_spec start (ch_offset d)) as [Hlt|Hge].
    + rewrite (proj2 (Z.ltb_lt (Z.max _ _) _)) by lia. rewrite (IH (pre ++ [c]) d) by done. rewrite outcome_bind_ret.
      rewrite wrap_small by (unfold is_u, chunk_end in *; lia).
      by replace (max - ret)%nat with (S (max - (ret + 1))) by lia.
    + rewrite (proj2 (Z.ltb_ge (Z.max _ _) _)) by lia. by rewrite (IH (pre ++ [c]) d) by done.
Qed.

Lemma compute_gaps_ok l max total start :
  cl_ok l → within total (cl_live l) → 0 ≤ start < total → total < 2 ^ 32 → (0 < max)%nat → (cl_count l = 0%nat → start = 0) →
  compute_gaps max total start l = Ret (take max (gaps start total (cl_live l))).
Proof.
  intros (Hr & Hm & HL)%cl_ok_rep HW Hst Htot Hmax Hz. unfold compute_gaps.
  rewrite (proj2 (Z.eqb_neq _ _)), (proj2 (Z.ltb_lt start total)) by lia. cbn [fw_assert]. rewrite outcome_bind_ret.
  pose proof Hr as (Hc & _). destruct (cl_live l) as [|c L] eqn:El; cbn [length] in Hc.
  - rewrite bool_decide_eq_true_2 by done. rewrite (Hz Hc) in *. cbn [gaps]. rewrite (proj2 (Z.ltb_lt 0 total)) by lia.
    rewrite Z.sub_0_r. destruct max; [lia|]. cbn [take]. by rewrite take_nil.
  - rewrite bool_decide_eq_false_2 by lia. rewrite (rep_get l _ 0 c Hr) by done. rewrite outcome_bind_ret, Hc.
    pose proof (λ ret, gaps_loop_ok L l [] c ret max total start Hr HL HW Hst Htot) as Hloop. cbn [length] in Hloop.
    rewrite Hloop, outcome_bind_ret. f_equal. cbn [gaps]. destruct (start <? ch_offset c) eqn:E; cbn [length app].
    + replace max with (S (max - 1)) at 2 by lia. done.
    + by rewrite Nat.sub_0_r.
Qed.

(** With room for one gap, no gap reported means nothing is missing, wherever
    the received ranges lie. *)
Lemma gaps_loop_none rest l pre c ret max total start :
  rep l (pre ++ c :: rest) → ranges_ok (c :: rest) → start < total → (ret < max)%nat →
  gaps_loop (S (length rest)) (length pre) ret max total start l = Ret [] →
  ∀ x, start ≤ x < total → chunk_end c ≤ x → covered rest x.
Proof.
  revert pre c. induction rest as [|d rest IH]; intros pre c Hr HL Hst Hroom.
  all: apply ranges_ok_cons in HL as (Hok & HL & Ha).
  all: rewrite (gaps_loop_step _ _ _ _ _ _ _ _ _ Hr Hok); cbv zeta; rewrite (bool_decide_eq_true_2 (ret < _)%nat) by lia.
  all: destruct (Z.leb_spec total (chunk_end c)); [intros _ x; lia|].
  - rewrite (proj2 (Z.ltb_lt start total)) by lia. by destruct (gaps_loop _ _ (ret + 1) _ _ _ _).
  - destruct (Z.ltb_spec start (ch_offset d)) as [Hlt|Hge]; [by destruct (gaps_loop _ _ (ret + 1) _ _ _ _)|].
    intros Hg x Hx Hcx. rewrite covered_cons. destruct (decide (x < chunk_end d)); [left; unfold in_chunk; lia|right].
    apply (IH (pre ++ [c]) d); try done; [by rewrite <- app_assoc|lia].
Qed.

Lemma compute_gaps_none l max total start :
  cl_ok l → start < total → 0 < total → (0 < max)%nat → compute_gaps max total start l = Ret [] →
  ∀ x, start ≤ x < total → covered (cl_live l) x.
Proof.
  intros (Hr & Hm & HL)%cl_ok_rep Hst Htot Hmax. unfold compute_gaps.
  rewrite (proj2 (Z.eqb_neq _ _)), (proj2 (Z.ltb_lt start total)) by lia. cbn [fw_assert]. rewrite outcome_bind_ret.
  pose proof Hr as (Hc & _). destruct (cl_live l) as [|c L] eqn:El; cbn [length] in Hc.
  - by rewrite bool_decide_eq_true_2 by done.
  - rewrite bool_decide_eq_false_2 by lia. rewrite (rep_get l _ 0 c Hr) by done. rewrite outcome_bind_ret, Hc.
    destruct (Z.ltb_spec start (ch_offset c)); cbn [length]; [by destruct (gaps_loop _ _ _ _ _ _ _)|].
    intros Hg x Hx. rewrite covered_cons. destruct (decide (x < chunk_end c)); [left; unfold in_chunk; lia|right].
    apply (gaps_loop_none L l [] c 0 max total start); try done; [|lia].
    cbn [length]. destruct (gaps_loop _ _ _ _ _ _ _) as [gs|]; [|done]. rewrite outcome_bind_ret in Hg. cbn [app] in Hg. congruence.
Qed.

(** * Runs of received segments *)

Definition segment : Set := (Z * Z)%type.
(** An offset and a size of 32 bits; and a segment that ends below 2^32. *)
Definition seg_typed (s : segment) : Prop := is_u 32 s.1 ∧ is_u 32 s.2.
Definition seg_ok (s : segment) : Prop := is_u 32 s.1 ∧ is_u 32 s.2 ∧ s.1 + s.2 < 2 ^ 32.
#[export] Instance seg_ok_dec s : Decision (seg_ok s).
Proof. unfold seg_ok, is_u. apply _. Defined.
Definition received (segs : list segment) (x : Z) : Prop := Exists (λ s, s.1 ≤ x < s.1 + s.2) segs.

Fixpoint cl_adds `{BuildProfile} (segs : list segment) (l : ChunkList) : outcome ChunkList :=
  match segs with
  | [] => Ret l
  | s :: segs' => l' ← cl_add s.1 s.2 l; cl_adds segs' l'
  end.

Section runs.
Context `{BuildProfile}.

Lemma new_ok max : (0 < max)%nat → ∃ l, ChunkList_new max = Ret l ∧ cl_ok l ∧ max_chunks l = max ∧ cl_live l = [].
Proof.
  intros Hm. unfold ChunkList_new. rewrite bool_decide_eq_true_2 by done. eexists. split; [done|]. unfold cl_ok, cl_live. cbn.
  split_and!; [lia|done|by rewrite length_replicate|apply ranges_ok_nil|done|done].
Qed.

Lemma cl_adds_ok segs l :
  cl_ok l → Forall seg_ok segs →
  ∃ l', cl_adds segs l = Ret l' ∧ cl_ok l' ∧ max_chunks l' = max_chunks l ∧
    (length (cl_live l') ≤ length (cl_live l) + length segs)%nat ∧
    (∀ x, covered (cl_live l') x → covered (cl_live l) x ∨ received segs x) ∧
    ((length (cl_live l) + length segs ≤ max_chunks l)%nat →
     ∀ x, covered (cl_live l') x ↔ covered (cl_live l) x ∨ received segs x).
Proof.
  intros Hok HF. revert l Hok. induction HF as [|s segs (Ho & Hs & Hsum) HF IH]; intros l Hok; cbn [cl_adds length].
  - exists l. unfold received. setoid_rewrite Exists_nil. split_and!; [done|done|done|lia|tauto|tauto].
  - destruct (cl_add_ok l s.1 s.2 Hok Ho Hs Hsum) as (l1 & -> & Hok1 & Hm1 & Hlen & Hins). rewrite outcome_bind_ret.
    destruct (IH l1 Hok1) as (l' & -> & Hok' & Hm' & Hlen' & Hsub & Hex). exists l'. unfold received in *.
    setoid_rewrite Exists_cons.
    assert (∀ x, in_chunk (MkChunk s.1 s.2) x ↔ s.1 ≤ x < s.1 + s.2) as Hin by done.
    split_and!; [done|done|congruence|lia| |].
    + intros x Hx. apply Hsub in Hx as [Hx|]; [|tauto]. rewrite <- Hin. destruct Hins as [Hc|(_ & _ & sm & _ & _ & Hc)].
      * apply Hc in Hx. tauto.
      * apply Hc in Hx. tauto.
    + intros Hroom x. rewrite Hex by lia. rewrite <- Hin. destruct Hins as [Hc|(Hfull & _)]; [rewrite Hc; tauto|].
      apply bool_decide_eq_true_1 in Hfull. apply cl_ok_rep in Hok as ((Hc & _) & _). lia.
Qed.

(** A segment that reaches 2^32 fails the assertion, wherever it comes. *)
Lemma cl_adds_panics segs l : cl_ok l → Forall seg_typed segs → ¬ Forall seg_ok segs → cl_adds segs l = Panic.
Proof.
  intros Hok HF. revert l Hok. induction HF as [|s segs [Ho Hs] HF IH]; intros l Hok Hn; cbn [cl_adds]; [by destruct Hn; constructor|].
  destruct (decide (s.1 + s.2 < 2 ^ 32)) as [Hlt|Hge].
  - destruct (cl_add_ok l s.1 s.2 Hok Ho Hs Hlt) as (l1 & -> & Hok1 & _). rewrite outcome_bind_ret. apply IH; [done|].
    intros Hf. apply Hn. by constructor.
  - unfold cl_add. rewrite (proj2 (Z.eqb_neq _ _)) by (unfold is_u in *; lia). destruct (find_insert_position _ l); [|done].
    rewrite outcome_bind_ret, (proj2 (Z.ltb_ge _ _)) by lia. done.
Qed.

Lemma length_gaps L cur total : (length (gaps cur total L) ≤ S (length L))%nat.
Proof.
  revert cur. induction L as [|c L IH]; intros cur; cbn [gaps length]; [by destruct (_ <? _); cbn; lia|].
  rewrite length_app. specialize (IH (Z.max cur (chunk_end c))). destruct (_ <? _); cbn [length]; lia.
Qed.

(** Adding a range to a chunk list: the list stays sorted, bounded and
    with a gap between any two ranges; the bytes it covers become the old
    ones and the new range, unless the list is full and the range touches
    none of the others, when the smallest range (the new one included) is the
    one forgotten; it panics exactly on a non-empty range that reaches
    2^32. *)
Theorem chunk_list_add_exact l off size :
  cl_ok l → is_u 32 off → is_u 32 size →
  (cl_add off size l = Panic ↔ size ≠ 0 ∧ 2 ^ 32 ≤ off + size) ∧
  ∀ l', cl_add off size l = Ret l' →
    cl_ok l' ∧ max_chunks l' = max_chunks l ∧
    inserted (MkChunk off size) (bool_decide (cl_count l = max_chunks l)) (cl_live l) (cl_live l').
Proof.
  intros Hok Ho Hs. destruct (decide (off + size < 2 ^ 32)) as [Hlt|Hge].
  - destruct (cl_add_ok l off size Hok Ho Hs Hlt) as (l1 & -> & Hrest). split; [split; [done|lia]|].
    intros l' [= <-]. exact Hrest.
  - assert (size ≠ 0) as Hne by (unfold is_u in *; lia). unfold cl_add. rewrite (proj2 (Z.eqb_neq _ _) Hne).
    pose proof Hok as (Hr & _ & HL)%cl_ok_rep.
    destruct (find_insert_position_ok l _ (MkChunk off size) Hr HL) as (pre & suf & _ & -> & _).
    rewrite outcome_bind_ret, (proj2 (Z.ltb_ge _ _)) by lia. cbn [fw_assert]. split; [split; [intros _; lia|done]|done].
Qed.

(** [compute_gaps], asked for at least one gap over a file that holds
    every recorded range, reports the first [max_gaps] of the missing ranges
    of [[start, total)]: [gaps], in order, non-empty, disjoint, and covering
    exactly the bytes not recorded.  (Over an empty list the source always
    starts at 0.) *)
Theorem chunk_list_gaps_exact l max total start :
  cl_ok l → within total (cl_live l) → 0 ≤ start < total → total < 2 ^ 32 → (0 < max)%nat → (cl_count l = 0%nat → start = 0) →
  compute_gaps max total start l = Ret (take max (gaps start total (cl_live l))) ∧
  ranges_ok (gaps start total (cl_live l)) ∧
  ∀ x, covered (gaps start total (cl_live l)) x ↔ start ≤ x < total ∧ ¬ covered (cl_live l) x.
Proof.
  intros Hok HW Hst Htot Hm Hz. split; [by apply compute_gaps_ok|]. apply cl_ok_rep in Hok as (_ & _ & HL).
  apply gaps_exact; [done|done|lia|done].
Qed.

(** C10. A CFDP receiver that records segments in a fresh chunk list of any
    capacity, in any order and with any overlap, panics exactly when some
    segment reaches 2^32 (the receiver's check of a PDU against the file size
    keeps such a segment away from the list), and otherwise never
    believes a file complete that is not: when no gap is reported, every byte
    below [total] (positive and below 2^32) came in some segment.  When the
    capacity is at least the number of segments, every segment ends within
    [total] and more gaps are asked for than there are segments, the gaps
    reported are exactly the bytes missing. *)
Theorem cfdp_receiver_gaps_sound max m segs total :
  (0 < max)%nat → (0 < m)%nat → Forall seg_typed segs → 0 < total < 2 ^ 32 →
  ∃ l0, ChunkList_new max = Ret l0 ∧
  if decide (Forall seg_ok segs) then
    ∃ l, cl_adds segs l0 = Ret l ∧
      (compute_gaps m total 0 l = Ret [] → ∀ x, 0 ≤ x < total → received segs x) ∧
      ((length segs ≤ max)%nat → (length segs < m)%nat → Forall (λ s, s.1 + s.2 ≤ total) segs →
       ∃ G, compute_gaps m total 0 l = Ret G ∧ ranges_ok G ∧ ∀ x, covered G x ↔ 0 ≤ x < total ∧ ¬ received segs x)
  else cl_adds segs l0 = Panic.
Proof.
  intros Hmax Hm Htyped Htot. destruct (new_ok max Hmax) as (l0 & Hnew & Hok0 & Hm0 & Hl0).
  exists l0. split; [done|]. case_decide as Hsegs; [|by apply cl_adds_panics].
  destruct (cl_adds_ok segs l0 Hok0 Hsegs) as (l & Hadds & Hok & Hml & Hlen & Hsub & Hex). rewrite Hl0 in *. cbn [length] in *.
  exists l. split_and!; [done| |].
  - intros Hg x Hx. destruct (Hsub x) as [Hc|]; [|by apply covered_nil in Hc|done].
    apply (compute_gaps_none l m total 0); [done|lia|lia|done|done|done].
  - intros Hroom Hmm HW. assert (∀ x, covered (cl_live l) x ↔ received segs x) as Hcov.
    { intros x. rewrite Hex by lia. rewrite covered_nil. tauto. }
    pose proof Hok as (_ & _ & HL)%cl_ok_rep.
    assert (within total (cl_live l)) as HWl.
    { apply Forall_forall. intros c Hc. destruct (ranges_ok_elem _ _ HL Hc) as (? & ? & ?).
      assert (received segs (chunk_end c - 1)) as Hrec.
      { apply Hcov, covered_elem. exists c. split; [done|]. unfold in_chunk, chunk_end. lia. }
      apply Exists_exists in Hrec as (s & Hs & Hx). rewrite Forall_forall in HW. specialize (HW s Hs). lia. }
    exists (gaps 0 total (cl_live l)). destruct (gaps_exact (cl_live l) 0 total) as [HG HGc]; [done|done|lia|lia|].
    split_and!; [|done|].
    + rewrite compute_gaps_ok; [|done|done|lia|lia|done|done]. rewrite take_ge; [done|].
      pose proof (length_gaps (cl_live l) 0 total). lia.
    + intros x. rewrite HGc, Hcov. done.
Qed.

(** Taking up to [n] bytes from the front of the first range removes
    exactly those bytes, keeps the invariant, and drops the range when it is
    used up. *)
Theorem chunk_list_remove_exact l c L n :
  cl_ok l → cl_live l = c :: L → is_u 32 n →
  ∃ l', remove_from_first n l = Ret l' ∧ cl_ok l' ∧
    (∀ x, covered (cl_live l') x ↔ covered (cl_live l) x ∧ ¬ (ch_offset c ≤ x < ch_offset c + Z.min n (ch_size c))) ∧
    cl_count l' = if ch_size c <=? n then (cl_count l - 1)%nat else cl_count l.
Proof.
  intros Hok El Hn. pose proof Hok as (Hr & Hm & HL)%cl_ok_rep. rewrite El in *. unfold remove_from_first.
  rewrite (rep_get l _ 0 c Hr) by done. rewrite outcome_bind_ret.
  pose proof HL as ((H1 & H2 & H3) & HL' & Ha)%ranges_ok_cons. unfold is_u in Hn. set (k := Z.min n (ch_size c)) in *.
  assert (∀ x, covered L x → ch_offset c + ch_size c < x) as Hbig.
  { intros x [d [Hd Hdx]]%covered_elem. rewrite Forall_forall in Ha. specialize (Ha d Hd). unfold apart, in_chunk, chunk_end in *. lia. }
  destruct (Z.eqb_spec (ch_size c - k) 0) as [Hz|Hnz].
  - destruct (rep_set l [] c L (MkChunk (ch_offset c) (ch_size c - k)) Hr) as (cs & Hcs & Hr1).
    cbn [length app] in Hcs, Hr1. rewrite Hcs, outcome_bind_ret.
    destruct (rep_erase _ [] _ L Hr1) as (l' & He & Hr' & Hm'). cbn [length app] in He, Hr'. exists l'. rewrite He.
    rewrite (rep_live _ _ Hr'). split_and!; [done|eapply rep_ok; [exact Hr'|rewrite Hm'; done|done]| |].
    + intros x. rewrite covered_cons. unfold in_chunk, chunk_end. specialize (Hbig x).
      split; [intros Hx; specialize (Hbig Hx); split; [by right|lia]|intros [[|] ?]; [lia|done]].
    + rewrite (proj2 (Z.leb_le _ _)) by lia. destruct Hr as (-> & _), Hr' as (-> & _). cbn. lia.
  - unfold add_w. rewrite overflowing_in by (unfold is_u, chunk_end in *; lia). rewrite outcome_bind_ret.
    destruct (rep_set l [] c L (MkChunk (ch_offset c + k) (ch_size c - k)) Hr) as (cs & Hcs & Hr').
    cbn [length app] in Hcs, Hr'. rewrite Hcs, outcome_bind_ret. eexists. split; [done|]. rewrite (rep_live _ _ Hr').
    split_and!.
    + eapply rep_ok; [exact Hr'|done|]. apply ranges_ok_cons. split_and!; [|done|].
      * unfold chunk_ok, chunk_end in *. cbn [ch_offset ch_size]. lia.
      * eapply Forall_impl; [exact Ha|]. unfold apart, chunk_end. cbn [ch_offset ch_size]. lia.
    + intros x. rewrite !covered_cons. unfold in_chunk, chunk_end. cbn [ch_offset ch_size]. specialize (Hbig x).
      split; [intros [|Hx]; [split; [left|]; lia|specialize (Hbig Hx); split; [by right|lia]]|].
      intros [[|] ?]; [left; lia|by right].
    + rewrite (proj2 (Z.leb_gt _ _)) by lia. done.
Qed.
End runs.

(** * Witnesses *)

Definition demo_chunks : ChunkList := MkChunkList 2 2 [MkChunk 0 10; MkChunk 20 4].

Lemma demo_chunks_ok : cl_ok demo_chunks.
Proof.
  unfold cl_ok, cl_live, demo_chunks. cbn [cl_count max_chunks chunks length take]. split_and!; [lia|lia|lia|].
  apply ranges_ok_cons. split_and!; [unfold chunk_ok, chunk_end; cbn [ch_offset ch_size]; lia| |].
  - apply ranges_ok_one. unfold chunk_ok, chunk_end; cbn [ch_offset ch_size]; lia.
  - repeat constructor.
Qed.

(** A full list forgets its smallest range for a larger one. *)
Lemma chunk_list_add_exact_witness :
  @cl_add true 40 8 demo_chunks = Ret (MkChunkList 2 2 [MkChunk 0 10; MkChunk 40 8]) ∧
  cl_ok (MkChunkList 2 2 [MkChunk 0 10; MkChunk 40 8]).
Proof.
  split; [vm_compute; reflexivity|].
  destruct (@chunk_list_add_exact true demo_chunks 40 8 demo_chunks_ok) as [_ Hret]; [unfold is_u; lia|unfold is_u; lia|].
  apply (Hret (MkChunkList 2 2 [MkChunk 0 10; MkChunk 40 8])). vm_compute. reflexivity.
Defined.

Lemma chunk_list_gaps_exact_witness :
  compute_gaps 5 30 0 demo_chunks = Ret [MkChunk 10 10; MkChunk 24 6].
Proof.
  destruct (chunk_list_gaps_exact demo_chunks 5 30 0 demo_chunks_ok) as [E _];
    [repeat constructor; unfold chunk_end; cbn [ch_offset ch_size]; lia|lia|lia|lia|done|].
  rewrite E. reflexivity.
Defined.

(** Four segments out of order, one overlapping, one missing. *)
Lemma cfdp_receiver_gaps_sound_witness :
  ∃ l0 l, ChunkList_new 4 = Ret l0 ∧ @cl_adds true [(20, 10); (0, 10); (5, 10); (40, 2)] l0 = Ret l ∧
    compute_gaps 5 42 0 l = Ret [MkChunk 15 5; MkChunk 30 10].
Proof.
  destruct (@cfdp_receiver_gaps_sound true 4 5 [(20, 10); (0, 10); (5, 10); (40, 2)] 42) as (l0 & E0 & l & E & _ & _);
    [lia|lia|repeat constructor; cbn; lia|lia|].
  exists l0, l. split_and!; [done|done|]. vm_compute in E0. injection E0 as <-. vm_compute in E. injection E as <-. vm_compute. reflexivity.
Defined.

Lemma chunk_list_remove_exact_witness :
  ∃ l', @remove_from_first true 4 demo_chunks = Ret l' ∧ cl_ok l' ∧ cl_count l' = 2%nat.
Proof.
  destruct (@chunk_list_remove_exact true demo_chunks (MkChunk 0 10) [MkChunk 20 4] 4 demo_chunks_ok) as (l' & E & Hok & _ & Hc);
    [reflexivity|unfold is_u; lia|]. exists l'. done.
Defined.
