(* ===== verification/OsQueue.v ===== *)
(** The message queue facade [Os::Queue], [crates/fprime-os/src/queue.rs]:
    statuses, the delegate interface [QueueInterface] with the laws a delegate
    owes, and the facade's behaviour proved against those laws. *)

From S2P Require Import Prelude Serial SerialFacts.

(** * Data *)

Inductive Status : Set :=
| OpOk | AlreadyCreated | Empty | Uninitialized | SizeMismatch | SendError | ReceiveError
| InvalidPriority | Full | NotSupported | AllocationFailed | UnknownError.
#[export] Instance Status_eq_dec : EqDecision Status.
Proof. solve_decision. Defined.

Inductive BlockingType : Set := Blocking | NonBlocking.
#[export] Instance BlockingType_eq_dec : EqDecision BlockingType.
Proof. solve_decision. Defined.

(** A call under the queue's lock either returns or, when it blocks, waits
    with the state unchanged. *)
Inductive call (A : Type) : Type := Returned (a : A) | Waiting.
Arguments Returned {A} a.
Arguments Waiting {A}.

(** What [receive] reports: a status with the outputs untouched, or [OpOk]
    with the destination, the actual size and the priority. *)
Inductive received : Set :=
| RStatus (s : Status)
| RMessage (destination : list Z) (actual_size : nat) (priority : Z).

(** * The specification: pending messages in arrival order *)

Record pending : Set := Pending {
  queued : list (Z * list Z);
  peak_count : nat;
  sent_count : Z;
}.

(** Remove the first of the messages of highest priority. *)
Fixpoint take_best (l : list (Z * list Z)) : option ((Z * list Z) * list (Z * list Z)) :=
  match l with
  | [] => None
  | x :: l' =>
      match take_best l' with
      | None => Some (x, [])
      | Some (y, rest) =>
          if (x.1 <? y.1)%Z then Some (y, x :: rest) else Some (x, l')
      end
  end.

Definition spec_send (depth msize : nat) (buf : list Z) (prio : Z) (bt : BlockingType)
    (p : pending) : call Status * pending :=
  if decide (msize < length buf) then (Returned SizeMismatch, p)
  else if decide (depth ≤ length (queued p)) then
    (match bt with NonBlocking => Returned Full | Blocking => Waiting end, p)
  else (Returned OpOk,
        Pending (queued p ++ [(prio, buf)]) (peak_count p `max` S (length (queued p)))
                (sent_count p + 1)).

Definition spec_receive (dest : list Z) (bt : BlockingType) (p : pending)
    : call received * pending :=
  match take_best (queued p) with
  | None => (match bt with NonBlocking => Returned (RStatus Empty) | Blocking => Waiting end, p)
  | Some ((prio, buf), rest) =>
      (Returned (RMessage (splice 0 buf dest) (length buf) prio),
       Pending rest (peak_count p) (sent_count p))
  end.

(** * The delegate interface *)

(** The trait [QueueInterface]. *)
Class QueueInterface (D : Type) : Type := {
  q_create : nat → nat → outcome (Status + D);
  q_send : list Z → Z → BlockingType → D → outcome (call Status * D);
  q_receive : list Z → BlockingType → D → outcome (call received * D);
  q_messages_available : D → nat;
  q_high_water_mark : D → nat;
}.

(** What a delegate promises: it can be created for the depths and message
    sizes of [q_fits], which are positive, and then stays in relation with the pending messages
    of the specification, as long as fewer than 2^64 messages were sent. *)
Class QueueLaws (D : Type) `{QueueInterface D} : Type := {
  q_repr : nat → nat → D → pending → Prop;
  q_fits : nat → nat → Prop;
  q_fits_pos : ∀ depth msize, q_fits depth msize → 0 < depth ∧ 0 < msize;
  q_create_ok : ∀ depth msize, q_fits depth msize →
    ∃ d, q_create depth msize = Ret (inr d) ∧ q_repr depth msize d (Pending [] 0 0);
  q_send_ok : ∀ depth msize d p buf prio bt,
    q_repr depth msize d p → Forall is_byte buf → (sent_count p < 2 ^ 64 - 1)%Z →
    ∃ d', q_send buf prio bt d = Ret ((spec_send depth msize buf prio bt p).1, d') ∧
          q_repr depth msize d' (spec_send depth msize buf prio bt p).2;
  q_receive_ok : ∀ depth msize d p dest bt,
    q_repr depth msize d p → msize ≤ length dest →
    ∃ d', q_receive dest bt d = Ret ((spec_receive dest bt p).1, d') ∧
          q_repr depth msize d' (spec_receive dest bt p).2;
  q_messages_ok : ∀ depth msize d p,
    q_repr depth msize d p → q_messages_available d = length (queued p);
  q_peak_ok : ∀ depth msize d p,
    q_repr depth msize d p → q_high_water_mark d = peak_count p;
}.

(** * The facade *)

Section facade.
Context `{QueueInterface D}.

Record Created : Type := MkCreated { depth : nat; message_size : nat; delegate : D }.

(** [Queue]: the write-once cell. *)
Record Queue : Type := MkQueue { created : option Created }.

Definition Queue_new : Queue := MkQueue None.

(** [create(name, depth, message_size)]; the name is kept for display only. *)
Definition create (dep msize : nat) (q : Queue) : outcome (Status * Queue) :=
  _ ← fw_assert (bool_decide (0 < dep));
  _ ← fw_assert (bool_decide (0 < msize));
  match created q with
  | Some _ => Ret (AlreadyCreated, q)
  | None =>
      r ← q_create dep msize;
      match r with
      | inl s => Ret (s, q)
      | inr d => Ret (OpOk, MkQueue (Some (MkCreated dep msize d)))
      end
  end.

Definition with_delegate (c : Created) (d : D) : Queue :=
  MkQueue (Some (MkCreated (depth c) (message_size c) d)).

Definition send (buf : list Z) (prio : Z) (bt : BlockingType) (q : Queue)
    : outcome (call Status * Queue) :=
  match created q with
  | None => Ret (Returned Uninitialized, q)
  | Some c =>
      if bool_decide (message_size c < length buf) then Ret (Returned SizeMismatch, q)
      else '(r, d) ← q_send buf prio bt (delegate c); Ret (r, with_delegate c d)
  end.

Definition receive (dest : list Z) (bt : BlockingType) (q : Queue)
    : outcome (call received * Queue) :=
  match created q with
  | None => Ret (Returned (RStatus Uninitialized), q)
  | Some c =>
      if bool_decide (length dest < message_size c) then Ret (Returned (RStatus SizeMismatch), q)
      else '(r, d) ← q_receive dest bt (delegate c); Ret (r, with_delegate c d)
  end.

(** [send_serial(message)]: the valid region of a buffer. *)
Definition send_serial (message : serbuf) (prio : Z) (bt : BlockingType) (q : Queue)
    : outcome (call Status * Queue) := send (as_slice message) prio bt q.

(** [receive_serial(destination)]: the status, the priority when a message
    was delivered, and the refilled buffer. *)
Definition receive_serial (destination : serbuf) (bt : BlockingType) (q : Queue)
    : outcome (call (Status * option Z * serbuf) * Queue) :=
  let dest0 := SerBuf (data destination) 0 0 in
  '(r, q') ← receive (data dest0) bt q;
  match r with
  | Waiting => Ret (Waiting, q')
  | Returned (RStatus s) => Ret (Returned (s, None, dest0), q')
  | Returned (RMessage d n prio) =>
      match set_buff_len n (set_data d dest0) with
      | (SOk _, b) => Ret (Returned (OpOk, Some prio, b), q')
      | (_, b) => Ret (Returned (SizeMismatch, Some prio, b), q')
      end
  end.

Definition get_messages_available (q : Queue) : nat :=
  match created q with None => 0 | Some c => q_messages_available (delegate c) end.
Definition get_message_high_water_mark (q : Queue) : nat :=
  match created q with None => 0 | Some c => q_high_water_mark (delegate c) end.
Definition get_depth (q : Queue) : nat :=
  match created q with None => 0 | Some c => depth c end.
Definition get_message_size (q : Queue) : nat :=
  match created q with None => 0 | Some c => message_size c end.
End facade.
Arguments Created D : clear implicits.
Arguments Queue D : clear implicits.

(** * Facade lemmas, against the interface *)

Section facade_facts.
Context `{QueueLaws D}.

(** The facade holds [p] at the given configuration. *)
Definition queue_repr (dep msize : nat) (q : Queue D) (p : pending) : Prop :=
  ∃ c, created q = Some c ∧ depth c = dep ∧ message_size c = msize ∧
       q_repr dep msize (delegate c) p.

Lemma create_ok dep msize :
  q_fits dep msize →
  ∃ q, create dep msize Queue_new = Ret (OpOk, q) ∧ queue_repr dep msize q (Pending [] 0 0).
Proof.
  intros Hf. destruct (q_fits_pos dep msize Hf). unfold create. rewrite !bool_decide_eq_true_2 by done. cbn.
  destruct (q_create_ok dep msize Hf) as (d & -> & Hr). cbn.
  eexists. split; [done|]. by eexists.
Qed.

Lemma send_ok dep msize q p buf prio bt :
  queue_repr dep msize q p → Forall is_byte buf → (sent_count p < 2 ^ 64 - 1)%Z →
  ∃ q', send buf prio bt q = Ret ((spec_send dep msize buf prio bt p).1, q') ∧
        queue_repr dep msize q' (spec_send dep msize buf prio bt p).2.
Proof.
  intros (c & Hc & Hd & Hm & Hr) Hb Hs. unfold send. rewrite Hc.
  case_bool_decide as Hl.
  - unfold spec_send. rewrite decide_True by lia. exists q. split; [done|]. by exists c.
  - destruct (q_send_ok dep msize (delegate c) p buf prio bt Hr Hb Hs) as (d' & -> & Hr').
    eexists. split; [done|]. by eexists.
Qed.

Lemma receive_ok dep msize q p dest bt :
  queue_repr dep msize q p → msize ≤ length dest →
  ∃ q', receive dest bt q = Ret ((spec_receive dest bt p).1, q') ∧
        queue_repr dep msize q' (spec_receive dest bt p).2.
Proof.
  intros (c & Hc & Hd & Hm & Hr) Hl. unfold receive. rewrite Hc.
  rewrite bool_decide_eq_false_2 by lia.
  destruct (q_receive_ok dep msize (delegate c) p dest bt Hr Hl) as (d' & -> & Hr').
  eexists. split; [done|]. by eexists.
Qed.
End facade_facts.

(** * Ordering of the specification *)

Lemma take_best_None l : take_best l = None ↔ l = [].
Proof. split; [|by intros ->]. destruct l as [|x l]; [done|]. simpl.
  destruct (take_best l) as [[y r]|]; [|done]. by destruct (_ <? _)%Z. Qed.

(** [take_best] splits the queue around the first message that no message
    outranks and that strictly outranks every message before it. *)
Lemma take_best_spec l x rest :
  take_best l = Some (x, rest) →
  ∃ l1 l2, l = l1 ++ x :: l2 ∧ rest = l1 ++ l2 ∧
    Forall (λ y, (y.1 < x.1)%Z) l1 ∧ Forall (λ y, (y.1 ≤ x.1)%Z) l2.
Proof.
  revert x rest. induction l as [|y l IH]; intros x rest; simpl; [done|].
  destruct (take_best l) as [[z r]|] eqn:E.
  - destruct (IH z r eq_refl) as (l1 & l2 & -> & -> & H1 & H2).
    destruct (Z.ltb_spec y.1 z.1); intros [= <- <-].
    + exists (y :: l1), l2. split_and!; auto.
    + exists [], (l1 ++ z :: l2). split_and!; auto.
      apply Forall_app. split; [|constructor; [lia|]]; eapply Forall_impl; eauto; simpl; lia.
  - apply take_best_None in E as ->. intros [= <- <-]. by exists [], [].
Qed.
