(* ===== verification/PriorityQueue.v ===== *)
(** The lock-based queue delegate [Os::Generic::PriorityQueue],
    [crates/fprime-os/src/generic/priority_queue.rs]: slab, circular
    free-index ring and stable max-heap, shown to implement the delegate
    interface of [OsQueue].

    [std::collections::BinaryHeap] is modelled by what its documentation
    promises: [push] adds an element, [pop] removes a greatest one; the list
    keeps the elements in insertion order. *)

From stdpp Require Import sorting.
From S2P Require Import Prelude Serial OsQueue.

(** * Data *)

Record HeapNode : Set := MkNode { priority : Z; order : Z; index : nat }.

Record QueueState : Set := MkState {
  data : list Z;
  sizes : list nat;
  indices : list nat;
  start_index : nat;
  stop_index : nat;
  heap : list HeapNode;
  next_order : Z;
  high_mark : nat;
}.

Record PriorityQueue : Set := MkPQ { depth : nat; message_size : nat; state : QueueState }.

(** Derived [Ord] of [HeapNode]: priority, then [Reverse(order)], then index. *)
Definition node_ltb (a b : HeapNode) : bool :=
  ((priority a <? priority b) ||
   ((priority a =? priority b) &&
    ((order b <? order a) || ((order a =? order b) && (index a <? index b)%nat))))%Z.

Definition heap_push (n : HeapNode) (h : list HeapNode) : list HeapNode := h ++ [n].

Fixpoint heap_pop (h : list HeapNode) : option (HeapNode * list HeapNode) :=
  match h with
  | [] => None
  | n :: h' =>
      match heap_pop h' with
      | None => Some (n, [])
      | Some (m, rest) => if node_ltb n m then Some (m, n :: rest) else Some (n, h')
      end
  end.

(** * Operations *)

(** The bytes of a [HeapNode] and of a [usize] in memory. *)
Definition HEAP_NODE_BYTES : nat := 24.
Definition USIZE_BYTES : nat := 8.

(** [usize::checked_mul]. *)
Definition checked_mul (a b : nat) : option nat := if decide (usize_ok (a * b)) then Some (a * b) else None.

(** [create(depth, message_size)]: the assertions, and the allocations of the
    slab, the sizes, the indices and the heap, which panic beyond
    [isize::MAX] bytes. *)
Definition pq_create (dep msize : nat) : outcome (Status + PriorityQueue) :=
  _ ← fw_assert (bool_decide (0 < dep));
  _ ← fw_assert (bool_decide (0 < msize));
  let slab_size := checked_mul dep msize in
  _ ← fw_assert (bool_decide (is_Some slab_size));
  _ ← vec_alloc (default 0 slab_size) 1;
  _ ← vec_alloc dep USIZE_BYTES;
  _ ← vec_alloc dep USIZE_BYTES;
  _ ← vec_alloc dep HEAP_NODE_BYTES;
  Ret (inr (MkPQ dep msize
    (MkState (replicate (default 0 slab_size) 0%Z) (replicate dep 0) (seq 0 dep) 0 0 [] 0 0))).

(** [send(buffer, priority, block_type)]. *)
Definition pq_send (buffer : list Z) (prio : Z) (bt : BlockingType) (q : PriorityQueue)
    : outcome (call Status * PriorityQueue) :=
  let s := state q in
  if bool_decide (message_size q < length buffer) then Ret (Returned SizeMismatch, q)
  else if bool_decide (depth q ≤ length (heap s)) then
    Ret (match bt with NonBlocking => Returned Full | Blocking => Waiting end, q)
  else
    idx ← index_get (indices s) (start_index s);
    let node := MkNode prio (next_order s) idx in
    let heap' := heap_push node (heap s) in
    data' ← copy_into (idx * message_size q) buffer (data s);
    sizes' ← index_set idx (length buffer) (sizes s);
    Ret (Returned OpOk,
         MkPQ (depth q) (message_size q)
           (MkState data' sizes' (indices s) ((start_index s + 1) mod depth q) (stop_index s)
              heap' (wrap 64 (next_order s + 1)) (high_mark s `max` length heap'))).

(** [receive(destination, block_type, actual_size, priority)]. *)
Definition pq_receive (destination : list Z) (bt : BlockingType) (q : PriorityQueue)
    : outcome (call received * PriorityQueue) :=
  let s := state q in
  match heap_pop (heap s) with
  | None =>
      Ret (match bt with NonBlocking => Returned (RStatus Empty) | Blocking => Waiting end, q)
  | Some (node, heap') =>
      size ← index_get (sizes s) (index node);
      _ ← fw_assert (bool_decide (size ≤ length destination));
      msg ← copy_from (index node * message_size q) size (data s);
      indices' ← index_set (stop_index s) (index node) (indices s);
      Ret (Returned (RMessage (splice 0 msg destination) size (priority node)),
           MkPQ (depth q) (message_size q)
             (MkState (data s) (sizes s) indices' (start_index s)
                ((stop_index s + 1) mod depth q) heap' (next_order s) (high_mark s)))
  end.

Definition pq_messages_available (q : PriorityQueue) : nat := length (heap (state q)).
Definition pq_high_water_mark (q : PriorityQueue) : nat := high_mark (state q).

#[export] Instance PriorityQueue_interface : QueueInterface PriorityQueue := {|
  q_create := pq_create; q_send := pq_send; q_receive := pq_receive;
  q_messages_available := pq_messages_available; q_high_water_mark := pq_high_water_mark |}.

(** * Invariant and abstraction *)

(** The depths and message sizes a queue can be created for. *)
Definition queue_fits (dep msize : nat) : Prop :=
  0 < dep ∧ 0 < msize ∧ (Z.of_nat dep * Z.of_nat msize ≤ ISIZE_MAX)%Z ∧
  (Z.of_nat dep * Z.of_nat HEAP_NODE_BYTES ≤ ISIZE_MAX)%Z.
#[export] Instance queue_fits_dec dep msize : Decision (queue_fits dep msize).
Proof. unfold queue_fits. apply _. Defined.

(** The free slots, in the order the ring hands them out. *)
Definition free_slots (q : PriorityQueue) : list nat :=
  (λ i, indices (state q) !!! ((start_index (state q) + i) mod depth q))
    <$> seq 0 (depth q - length (heap (state q))).

(** The message of a node. *)
Definition node_message (q : PriorityQueue) (n : HeapNode) : Z * list Z :=
  (priority n, slice (index n * message_size q) (sizes (state q) !!! index n) (data (state q))).

(** Insertion counters grow along the heap and stay below the next one. *)
Fixpoint orders_increasing (lo : Z) (h : list HeapNode) (hi : Z) : Prop :=
  match h with
  | [] => True
  | n :: h' => (lo ≤ order n < hi)%Z ∧ orders_increasing (order n + 1) h' hi
  end.

Record pq_inv (dep msize : nat) (q : PriorityQueue) (p : pending) : Prop := {
  inv_depth : depth q = dep;
  inv_msize : message_size q = msize;
  inv_pos : 0 < dep ∧ 0 < msize;
  inv_data : length (data (state q)) = dep * msize;
  inv_sizes : length (sizes (state q)) = dep;
  inv_indices : length (indices (state q)) = dep;
  inv_start : start_index (state q) < dep;
  inv_stop : stop_index (state q) =
             (start_index (state q) + (dep - length (heap (state q)))) mod dep;
  inv_count : length (heap (state q)) ≤ dep;
  (* used and free slots partition the slab *)
  inv_slots : NoDup ((index <$> heap (state q)) ++ free_slots q);
  inv_range : Forall (λ i, i < dep) ((index <$> heap (state q)) ++ free_slots q);
  inv_size_le : Forall (λ n, sizes (state q) !!! index n ≤ msize) (heap (state q));
  inv_orders : orders_increasing 0 (heap (state q)) (next_order (state q));
  inv_sent : next_order (state q) = sent_count p ∧ (0 ≤ sent_count p < 2 ^ 64)%Z;
  inv_queued : queued p = node_message q <$> heap (state q);
  inv_peak : high_mark (state q) = peak_count p;
}.

(** * Lemmas *)

(** On increasing counters the heap order is the specification's. *)
Lemma node_ltb_increasing n m : (order n < order m)%Z → node_ltb n m = (priority n <? priority m)%Z.
Proof.
  intros Ho. unfold node_ltb. rewrite (proj2 (Z.ltb_ge (order m) (order n))) by lia.
  rewrite (proj2 (Z.eqb_neq (order n) (order m))) by lia. simpl.
  by rewrite andb_false_r, orb_false_r.
Qed.

Lemma orders_weaken lo lo' h hi : (lo' ≤ lo)%Z → orders_increasing lo h hi → orders_increasing lo' h hi.
Proof. destruct h; simpl; [done|]. intuition lia. Qed.

Lemma orders_hi lo h hi hi' : (hi ≤ hi')%Z → orders_increasing lo h hi → orders_increasing lo h hi'.
Proof. revert lo. induction h; simpl; [done|]. intros. destruct H0. split; [lia|auto]. Qed.

Lemma orders_all lo h hi n : orders_increasing lo h hi → n ∈ h → (lo ≤ order n < hi)%Z.
Proof.
  revert lo. induction h as [|m h IH]; intros lo; simpl; [by intros _ ?%not_elem_of_nil|].
  intros [Hm Hh] [->|Hn]%elem_of_cons; [done|]. specialize (IH _ Hh Hn). lia.
Qed.

Lemma orders_snoc lo h hi n :
  orders_increasing lo h hi → (lo ≤ hi)%Z → (order n = hi)%Z → orders_increasing lo (h ++ [n]) (hi + 1).
Proof.
  revert lo. induction h as [|m h IH]; intros lo; simpl; [intros; split; [lia|done]|].
  intros [Hm Hh] ? ?. split; [lia|]. apply IH; [done|lia|done].
Qed.

Lemma orders_remove lo h1 n h2 hi :
  orders_increasing lo (h1 ++ n :: h2) hi → orders_increasing lo (h1 ++ h2) hi.
Proof.
  revert lo. induction h1 as [|m h1 IH]; intros lo; simpl.
  - intros [? ?]. by eapply orders_weaken; [|done]; lia.
  - intros [? ?]. auto.
Qed.

(** [pop] returns an element and the others in order, and picks what
    [take_best] picks. *)
Lemma heap_pop_take_best (f : HeapNode → Z * list Z) lo h hi :
  (∀ n, (f n).1 = priority n) → orders_increasing lo h hi →
  match heap_pop h with
  | None => take_best (f <$> h) = None
  | Some (n, rest) =>
      take_best (f <$> h) = Some (f n, f <$> rest) ∧ ∃ h1 h2, h = h1 ++ n :: h2 ∧ rest = h1 ++ h2
  end.
Proof.
  intros Hf. revert lo. induction h as [|n h IH]; intros lo; cbn [heap_pop fmap list_fmap take_best]; [done|].
  intros [Hn Hh]. specialize (IH _ Hh). fold (f <$> h).
  destruct (heap_pop h) as [[m rest]|].
  - destruct IH as (-> & h1 & h2 & -> & ->).
    assert (order n < order m)%Z as Hlt.
    { assert (order n + 1 ≤ order m < hi)%Z; [|lia]. eapply orders_all; [done|set_solver]. }
    rewrite node_ltb_increasing by done. rewrite !Hf.
    destruct (priority n <? priority m)%Z; (split; [done|]).
    + by exists (n :: h1), h2.
    + by exists [], (h1 ++ m :: h2).
  - apply take_best_None, fmap_nil_inv in IH as ->. split; [done|]. by exists [], [].
Qed.

Lemma free_slots_cons dep msize q p :
  pq_inv dep msize q p → length (heap (state q)) < dep →
  ∃ idx rest, indices (state q) !! start_index (state q) = Some idx ∧ free_slots q = idx :: rest ∧
    rest = (λ i, indices (state q) !!! ((start_index (state q) + 1 + i) mod dep))
             <$> seq 0 (dep - S (length (heap (state q)))).
Proof.
  intros [] Hlt. subst. destruct (lookup_lt_is_Some_2 (indices (state q)) (start_index (state q)))
    as [idx Hidx]; [lia|].
  exists idx. eexists. split; [done|]. split; [|done]. unfold free_slots.
  replace (depth q - length (heap (state q))) with (S (depth q - S (length (heap (state q))))) by lia.
  cbn [seq fmap list_fmap]. f_equal.
  - rewrite Nat.add_0_r, Nat.mod_small by done. by apply list_lookup_total_correct.
  - rewrite <- fmap_S_seq, <- list_fmap_compose. apply list_fmap_ext. intros i x _. simpl.
    do 2 f_equal. lia.
Qed.

(** A write to a free slot leaves the queued messages alone. *)
Lemma node_message_send (q q' : PriorityQueue) (n : HeapNode) idx buf :
  message_size q' = message_size q →
  data (state q') = splice (idx * message_size q) buf (data (state q)) →
  sizes (state q') = <[idx:=length buf]> (sizes (state q)) →
  index n ≠ idx → index n < depth q → idx < depth q →
  length (data (state q)) = depth q * message_size q → length (sizes (state q)) = depth q →
  sizes (state q) !!! index n ≤ message_size q → length buf ≤ message_size q →
  node_message q' n = node_message q n.
Proof.
  intros Hm Hd' Hs' Hne Hn Hi Hd Hs Hsz Hb. unfold node_message.
  rewrite Hm, Hd', Hs', list_lookup_total_insert_ne by done. f_equal.
  apply slice_splice_disjoint; [nia|nia|].
  destruct (decide (index n < idx)); [left|right]; nia.
Qed.

Lemma checked_mul_ok a b : usize_ok (a * b) → checked_mul a b = Some (a * b).
Proof. intros ?. unfold checked_mul. by rewrite decide_True. Qed.

Lemma pq_create_panics dep msize :
  ¬ queue_fits dep msize → pq_create dep msize = Panic.
Proof.
  intros Hf. unfold pq_create, queue_fits in *.
  destruct (bool_decide (0 < dep)) eqn:Ed; [apply bool_decide_eq_true_1 in Ed|done]. cbn [fw_assert]. rewrite outcome_bind_ret.
  destruct (bool_decide (0 < msize)) eqn:Em; [apply bool_decide_eq_true_1 in Em|done]. cbn [fw_assert]. rewrite outcome_bind_ret.
  unfold checked_mul. destruct (decide (usize_ok (dep * msize))) as [Hu|Hu];
    [|rewrite bool_decide_eq_false_2; [done|by intros [? ?]]].
  rewrite bool_decide_eq_true_2 by (by eexists). cbn [fw_assert from_option id]. rewrite outcome_bind_ret.
  destruct (Z.le_gt_cases (Z.of_nat dep * Z.of_nat msize) ISIZE_MAX) as [Hs|Hs].
  - rewrite (vec_alloc_ok (dep * msize)), outcome_bind_ret by lia.
    destruct (Z.le_gt_cases (Z.of_nat dep * Z.of_nat USIZE_BYTES) ISIZE_MAX) as [H8|H8].
    + rewrite (vec_alloc_ok dep USIZE_BYTES), !outcome_bind_ret by done. rewrite vec_alloc_panics; [done|].
      destruct (Z.le_gt_cases (Z.of_nat dep * Z.of_nat HEAP_NODE_BYTES) ISIZE_MAX); [|lia].
      exfalso. apply Hf. by split_and!.
    + rewrite (vec_alloc_panics dep USIZE_BYTES) by lia. done.
  - rewrite (vec_alloc_panics (dep * msize)) by lia. done.
Qed.

Lemma pq_create_ok dep msize :
  queue_fits dep msize →
  ∃ d, pq_create dep msize = Ret (inr d) ∧ pq_inv dep msize d (Pending [] 0 0).
Proof.
  intros (Hd & Hm & Hslab & Hn). unfold pq_create, HEAP_NODE_BYTES in *.
  rewrite checked_mul_ok by (unfold usize_ok, ISIZE_MAX in *; lia). cbn [from_option id].
  rewrite !bool_decide_eq_true_2 by (done || by eexists). cbn [fw_assert].
  rewrite !vec_alloc_ok by (unfold HEAP_NODE_BYTES, USIZE_BYTES; lia).
  rewrite !outcome_bind_ret. eexists. split; [done|].
  assert (∀ st, heap st = [] → indices st = seq 0 dep → start_index st = 0 →
    free_slots (MkPQ dep msize st) = seq 0 dep) as Hfree.
  { intros st Hh Hi Hs. unfold free_slots. cbn [state depth]. rewrite Hh, Hi, Hs. cbn [length].
    rewrite Nat.sub_0_r. apply list_eq_len; [by rewrite length_fmap|].
    intros i x Hlt. rewrite length_fmap, length_seq in Hlt.
    rewrite list_lookup_fmap, !lookup_seq_lt by done. cbn [fmap option_fmap option_map].
    rewrite Nat.mod_small by done. by rewrite lookup_total_seq_lt. }
  constructor; cbn [state depth message_size data sizes indices start_index stop_index heap next_order
    high_mark sent_count queued peak_count length fmap list_fmap app]; rewrite ?Hfree by done; auto.
  - apply length_replicate.
  - apply length_replicate.
  - apply length_seq.
  - rewrite Nat.sub_0_r, Nat.Div0.mod_same. done.
  - lia.
  - apply NoDup_seq.
  - apply Forall_seq. lia.
  - exact I.
  - split; [done|lia].
Qed.

Lemma pq_send_ok dep msize q p buf prio bt :
  pq_inv dep msize q p → Forall is_byte buf → (sent_count p < 2 ^ 64 - 1)%Z →
  ∃ q', pq_send buf prio bt q = Ret ((spec_send dep msize buf prio bt p).1, q') ∧
        pq_inv dep msize q' (spec_send dep msize buf prio bt p).2.
Proof.
  intros Hinv _ Hsent. pose proof Hinv as []. unfold pq_send, spec_send.
  rewrite inv_msize0, inv_depth0. assert (length (queued p) = length (heap (state q))) as Hlq
    by (by rewrite inv_queued0, length_fmap).
  rewrite Hlq. case_bool_decide as Hsz.
  { rewrite decide_True by done. by exists q. }
  rewrite (decide_False (P := msize < _)) by done. case_bool_decide as Hfull.
  { rewrite decide_True by done. by exists q. }
  rewrite decide_False by done. assert (length (heap (state q)) < dep) as Hlt by lia.
  destruct (free_slots_cons dep msize q p Hinv Hlt) as (idx & rest & Hidx & Hfs & Hrest).
  rewrite (index_get_ok _ _ _ Hidx), outcome_bind_ret.
  rewrite Hfs in inv_slots0, inv_range0.
  assert (idx < dep) as Hid.
  { apply Forall_app in inv_range0 as [_ [? _]%Forall_cons]. done. }
  assert (idx ∉ (index <$> heap (state q))) as Hnin.
  { apply NoDup_app in inv_slots0 as (_ & Hdis & _). intros Hin. apply (Hdis idx Hin). set_solver. }
  rewrite copy_into_ok, outcome_bind_ret by (rewrite inv_data0; nia).
  rewrite index_set_ok, outcome_bind_ret by lia.
  eexists. split; [done|]. unfold heap_push. set (q' := MkPQ _ _ _).
  assert (free_slots q' = rest) as Hfs'.
  { rewrite Hrest. unfold free_slots. cbn [state depth heap indices start_index q'].
    rewrite length_app. cbn [length].
    replace (length (heap (state q)) + 1) with (S (length (heap (state q)))) by lia.
    apply list_fmap_ext. intros i x _.
    by rewrite Nat.Div0.add_mod_idemp_l. }
  assert (((index <$> heap (state q) ++ [MkNode prio (next_order (state q)) idx]) ++ rest)
          = (index <$> heap (state q)) ++ idx :: rest) as Hlist.
  { rewrite fmap_app. cbn. by rewrite <- app_assoc. }
  assert (node_message q' <$> heap (state q) = node_message q <$> heap (state q)) as Hmsgs.
  { apply list_fmap_ext. intros i n Hn%list_elem_of_lookup_2.
    assert (index n ∈ index <$> heap (state q)) as Hni by (by apply list_elem_of_fmap_2).
    apply (node_message_send q q' n idx buf); rewrite ?inv_depth0, ?inv_msize0; auto with lia.
    - intros Heq. by rewrite Heq in Hni.
    - apply Forall_app in inv_range0 as [Hr _]. by apply (proj1 (Forall_forall _ _) Hr).
    - by apply (proj1 (Forall_forall _ _) inv_size_le0). }
  assert (node_message q' (MkNode prio (next_order (state q)) idx) = (prio, buf)) as Hnew.
  { unfold node_message. cbn [priority index message_size state sizes data q'].
    rewrite list_lookup_total_insert_eq by lia. f_equal. apply slice_splice. nia. }
  constructor; rewrite ?Hfs';
    cbn [state depth message_size data sizes indices start_index stop_index heap next_order
    high_mark sent_count queued peak_count q' snd]; auto.
  - rewrite length_splice; [done|]. nia.
  - by rewrite length_insert.
  - apply Nat.mod_upper_bound. lia.
  - rewrite inv_stop0, length_app, Nat.Div0.add_mod_idemp_l. f_equal. simpl. lia.
  - rewrite length_app. simpl. lia.
  - by rewrite Hlist.
  - by rewrite Hlist.
  - apply Forall_app. split.
    + apply Forall_forall. intros n Hn. assert (index n ≠ idx).
      { intros <-. apply Hnin. by apply list_elem_of_fmap_2. }
      rewrite list_lookup_total_insert_ne by done. by apply (proj1 (Forall_forall _ _) inv_size_le0).
    + constructor; [|done]. simpl. rewrite list_lookup_total_insert_eq by lia. lia.
  - destruct inv_sent0 as [He ?]. rewrite wrap_small by (unfold is_u; lia).
    apply orders_snoc; [done|lia|done].
  - destruct inv_sent0 as [He ?]. rewrite wrap_small by (unfold is_u; lia). lia.
  - rewrite fmap_app, Hmsgs, <- inv_queued0. cbn. by rewrite Hnew.
  - rewrite length_app, inv_peak0. simpl. f_equal. lia.
Qed.

(** Releasing a slot appends it to the free ring. *)
Lemma free_slots_release dep msize q p idx st h' :
  pq_inv dep msize q p → S (length h') = length (heap (state q)) →
  heap st = h' → indices st = <[stop_index (state q) := idx]> (indices (state q)) →
  start_index st = start_index (state q) →
  free_slots (MkPQ dep msize st) = free_slots q ++ [idx].
Proof.
  intros [] Hh Hheap Hind Hstart. unfold free_slots. cbn [state depth].
  rewrite Hheap, Hind, Hstart, inv_depth0.
  replace (dep - length h') with (S (dep - length (heap (state q)))) by lia.
  rewrite seq_S, fmap_app. cbn [Nat.add fmap list_fmap]. f_equal.
  - apply list_fmap_ext. intros j i [-> Hlt]%lookup_seq.
    rewrite list_lookup_total_insert_ne; [done|]. rewrite inv_stop0. cbn [Nat.add].
    rewrite !mod_once by lia. repeat case_decide; lia.
  - rewrite <- inv_stop0, list_lookup_total_insert_eq; [done|].
    rewrite inv_indices0, inv_stop0. apply Nat.mod_upper_bound. lia.
Qed.

Lemma pq_receive_ok dep msize q p dest bt :
  pq_inv dep msize q p → msize ≤ length dest →
  ∃ q', pq_receive dest bt q = Ret ((spec_receive dest bt p).1, q') ∧
        pq_inv dep msize q' (spec_receive dest bt p).2.
Proof.
  intros Hinv Hdest. pose proof Hinv as []. unfold pq_receive, spec_receive.
  rewrite inv_queued0.
  pose proof (heap_pop_take_best (node_message q) 0 (heap (state q)) _ (λ _, eq_refl) inv_orders0) as Hpop.
  destruct (heap_pop (heap (state q))) as [[n h']|]; [|rewrite Hpop; by exists q].
  destruct Hpop as (-> & h1 & h2 & Hh & ->). unfold node_message at 1 2.
  assert (n ∈ heap (state q)) as Hn by (rewrite Hh; set_solver).
  assert (index n < dep) as Hi.
  { apply Forall_app in inv_range0 as [Hr _]. eapply Forall_forall in Hr; [exact Hr|].
    by apply list_elem_of_fmap_2. }
  assert (sizes (state q) !!! index n ≤ msize) as Hsz
    by (by apply (proj1 (Forall_forall _ _) inv_size_le0)).
  rewrite (index_get_ok _ _ (sizes (state q) !!! index n)), outcome_bind_ret
    by (apply list_lookup_lookup_total_lt; lia).
  rewrite fw_assert_true, outcome_bind_ret by (apply bool_decide_eq_true_2; lia).
  rewrite copy_from_ok, outcome_bind_ret by (rewrite inv_data0, inv_msize0; nia).
  assert (stop_index (state q) < dep) as Hstop
    by (rewrite inv_stop0; apply Nat.mod_upper_bound; lia).
  rewrite index_set_ok, outcome_bind_ret by lia.
  rewrite length_slice by (rewrite inv_data0, inv_msize0; nia).
  eexists. split; [done|]. rewrite inv_depth0, inv_msize0. cbn [snd]. set (q' := MkPQ _ _ _).
  assert (length (heap (state q)) = S (length (h1 ++ h2))) as Hlen
    by (rewrite Hh, !length_app; simpl; lia).
  assert (free_slots q' = free_slots q ++ [index n]) as Hfs
    by (by eapply free_slots_release).
  assert ((index <$> h1 ++ h2) ++ free_slots q ++ [index n]
          ≡ₚ (index <$> heap (state q)) ++ free_slots q) as Hperm.
  { rewrite Hh, !fmap_app, fmap_cons. solve_Permutation. }
  constructor; rewrite ?Hfs;
    cbn [state depth message_size data sizes indices start_index stop_index heap next_order
    high_mark sent_count queued peak_count q']; auto.
  - by rewrite length_insert.
  - rewrite inv_stop0, Nat.Div0.add_mod_idemp_l. f_equal. lia.
  - lia.
  - by rewrite Hperm.
  - by rewrite Hperm.
  - rewrite Hh in inv_size_le0. rewrite Forall_app, Forall_cons in inv_size_le0.
    apply Forall_app. naive_solver.
  - rewrite Hh in inv_orders0. by eapply orders_remove.
  - apply list_fmap_ext. intros i x _. unfold node_message. by rewrite inv_msize0.
Qed.

#[export] Instance PriorityQueue_laws : QueueLaws PriorityQueue.
Proof.
  refine {| q_repr := pq_inv; q_fits := queue_fits; q_create_ok := pq_create_ok; q_send_ok := pq_send_ok;
            q_receive_ok := pq_receive_ok |}.
  - by intros dep msize (? & ? & _).
  - intros dep msize q p []. cbn. unfold pq_messages_available. by rewrite inv_queued0, length_fmap.
  - intros dep msize q p []. exact inv_peak0.
Defined.

(** * Runs of the facade *)

Inductive queue_op : Set :=
| QSend (buf : list Z) (prio : Z) (bt : BlockingType)
| QReceive (dest : list Z) (bt : BlockingType)
| QMessagesAvailable
| QHighWaterMark.

Inductive queue_answer : Set :=
| ASent (r : call Status)
| AReceived (r : call received)
| ACount (n : nat).

Definition run_queue_op `{QueueInterface D} (o : queue_op) (q : Queue D)
    : outcome (queue_answer * Queue D) :=
  match o with
  | QSend buf prio bt => '(r, q') ← send buf prio bt q; Ret (ASent r, q')
  | QReceive dest bt => '(r, q') ← receive dest bt q; Ret (AReceived r, q')
  | QMessagesAvailable => Ret (ACount (get_messages_available q), q)
  | QHighWaterMark => Ret (ACount (get_message_high_water_mark q), q)
  end.

Fixpoint run_queue `{QueueInterface D} (os : list queue_op) (q : Queue D)
    : outcome (list queue_answer * Queue D) :=
  match os with
  | [] => Ret ([], q)
  | o :: os' =>
      '(a, q') ← run_queue_op o q;
      '(l, q'') ← run_queue os' q';
      Ret (a :: l, q'')
  end.

(** The same calls on the pending messages. *)
Definition spec_queue_op (dep msize : nat) (o : queue_op) (p : pending) : queue_answer * pending :=
  match o with
  | QSend buf prio bt => let '(r, p') := spec_send dep msize buf prio bt p in (ASent r, p')
  | QReceive dest bt =>
      if decide (length dest < msize) then (AReceived (Returned (RStatus SizeMismatch)), p)
      else let '(r, p') := spec_receive dest bt p in (AReceived r, p')
  | QMessagesAvailable => (ACount (length (queued p)), p)
  | QHighWaterMark => (ACount (peak_count p), p)
  end.

Fixpoint spec_queue (dep msize : nat) (os : list queue_op) (p : pending)
    : list queue_answer * pending :=
  match os with
  | [] => ([], p)
  | o :: os' =>
      let '(a, p') := spec_queue_op dep msize o p in
      let '(l, p'') := spec_queue dep msize os' p' in (a :: l, p'')
  end.

Definition op_bytes (o : queue_op) : Prop :=
  match o with QSend buf _ _ => Forall is_byte buf | _ => True end.

Section runs.
Context `{QueueLaws D}.

Lemma run_queue_op_ok dep msize o (q : Queue D) p :
  queue_repr dep msize q p → op_bytes o → (sent_count p < 2 ^ 64 - 1)%Z →
  ∃ q', run_queue_op o q = Ret ((spec_queue_op dep msize o p).1, q') ∧
        queue_repr dep msize q' (spec_queue_op dep msize o p).2 ∧
        (sent_count (spec_queue_op dep msize o p).2 ≤ sent_count p + 1)%Z.
Proof.
  intros Hr Hb Hs. destruct o as [buf prio bt|dest bt| |]; simpl in *.
  - destruct (send_ok dep msize q p buf prio bt Hr Hb Hs) as (q' & -> & Hr').
    destruct (spec_send _ _ _ _ _ _) as [r p'] eqn:E. cbn. exists q'. split_and!; [done..|].
    unfold spec_send in E. repeat case_decide; simplify_eq; simpl; lia.
  - case_decide as Hd.
    + destruct Hr as (c & Hc & ? & ? & ?). exists q. unfold receive. rewrite Hc.
      rewrite bool_decide_eq_true_2 by lia. split_and!; [done|by exists c|simpl; lia].
    + destruct (receive_ok dep msize q p dest bt Hr) as (q' & -> & Hr'); [lia|].
      destruct (spec_receive _ _ _) as [r p'] eqn:E. cbn. exists q'. split_and!; [done..|].
      unfold spec_receive in E. destruct (take_best _) as [[[??]?]|]; simplify_eq; simpl; lia.
  - exists q. split_and!; [|done|lia]. destruct Hr as (c & Hc & _ & _ & Hr).
    unfold get_messages_available. rewrite Hc. by rewrite (q_messages_ok _ _ _ _ Hr).
  - exists q. split_and!; [|done|lia]. destruct Hr as (c & Hc & _ & _ & Hr).
    unfold get_message_high_water_mark. rewrite Hc. by rewrite (q_peak_ok _ _ _ _ Hr).
Qed.

Lemma run_queue_ok dep msize os (q : Queue D) p :
  queue_repr dep msize q p → Forall op_bytes os →
  (sent_count p + Z.of_nat (length os) < 2 ^ 64)%Z →
  ∃ q', run_queue os q = Ret ((spec_queue dep msize os p).1, q') ∧
        queue_repr dep msize q' (spec_queue dep msize os p).2.
Proof.
  revert q p. induction os as [|o os IH]; intros q p Hr Hb Hs; [by exists q|].
  apply Forall_cons in Hb as [Ho Hb]. cbn [length] in Hs.
  destruct (run_queue_op_ok dep msize o q p Hr Ho) as (q1 & E1 & Hr1 & Hle); [lia|].
  cbn [run_queue spec_queue]. rewrite E1. cbn.
  destruct (spec_queue_op dep msize o p) as [a p1]. cbn in *.
  destruct (IH q1 p1 Hr1 Hb) as (q2 & -> & Hr2); [lia|].
  destruct (spec_queue dep msize os p1) as [l p2]. cbn. by exists q2.
Qed.
End runs.

Lemma create_panics dep msize :
  ¬ queue_fits dep msize → create (D := PriorityQueue) dep msize Queue_new = Panic.
Proof.
  intros Hf. unfold create. cbn [q_create PriorityQueue_interface created Queue_new].
  rewrite pq_create_panics by done. repeat case_bool_decide; done.
Qed.

(** C5. [Os::Queue] over the priority-queue delegate. Creation panics exactly
    for a zero depth or message size and when the slab of depth times message
    size bytes or the heap's nodes exceed [isize::MAX] bytes; otherwise, over
    every sequence of fewer than 2^64 [send], [receive] and
    counter calls, the queue never panics and every answer (status, bytes,
    size, priority, counts) is the one of the list of pending messages in
    arrival order, from which [receive] takes the oldest of the messages of
    highest priority. *)
Theorem os_queue_refines_pending (dep msize : nat) (os : list queue_op) :
  Forall op_bytes os → (Z.of_nat (length os) < 2 ^ 64)%Z →
  if decide (queue_fits dep msize) then
    ∃ q0 q', create (D := PriorityQueue) dep msize Queue_new = Ret (OpOk, q0) ∧
             run_queue os q0 = Ret ((spec_queue dep msize os (Pending [] 0 0)).1, q')
  else create (D := PriorityQueue) dep msize Queue_new = Panic.
Proof.
  intros Hb Hl. case_decide as Hf; [|by apply create_panics].
  destruct (create_ok (D := PriorityQueue) dep msize) as (q0 & E & Hr); [exact Hf|].
  destruct (run_queue_ok dep msize os q0 _ Hr Hb) as (q' & E' & _); [done|]. by exists q0, q'.
Qed.

Lemma os_queue_refines_pending_witness :
  let os := [QSend [1; 2] 3 NonBlocking; QSend [7] 5 NonBlocking; QSend [9] 1 NonBlocking;
             QReceive [0; 0]%Z NonBlocking; QHighWaterMark]%Z in
  ∃ q0 q', create (D := PriorityQueue) 2 2 Queue_new = Ret (OpOk, q0) ∧
    run_queue os q0 =
      Ret ([ASent (Returned OpOk); ASent (Returned OpOk); ASent (Returned Full);
            AReceived (Returned (RMessage [7; 0]%Z 1 5)); ACount 2], q').
Proof.
  apply (os_queue_refines_pending 2 2
           [QSend [1; 2] 3 NonBlocking; QSend [7] 5 NonBlocking; QSend [9] 1 NonBlocking;
            QReceive [0; 0]%Z NonBlocking; QHighWaterMark]%Z); [|reflexivity].
  repeat constructor; simpl; unfold is_byte; lia.
Defined.

(** * Draining the queue *)

(** The messages handed out by [n] successive receives. *)
Fixpoint drain (n : nat) (l : list (Z * list Z)) : list (Z * list Z) :=
  match n with
  | O => []
  | S n' => match take_best l with Some (x, rest) => x :: drain n' rest | None => [] end
  end.

Lemma drain_sorted_stable l :
  StronglySorted (λ x y, y.1 ≤ x.1)%Z (drain (length l) l) ∧
  drain (length l) l ≡ₚ l ∧
  ∀ p, filter (λ x, x.1 = p) (drain (length l) l) = filter (λ x, x.1 = p) l.
Proof.
  remember (length l) as n eqn:Hn. revert l Hn. induction n as [|n IH]; intros l Hn.
  { apply eq_sym, nil_length_inv in Hn as ->. split_and!; [constructor|done|done]. }
  cbn [drain]. destruct (take_best l) as [[x rest]|] eqn:E.
  2: { apply take_best_None in E as ->. done. }
  apply take_best_spec in E as (l1 & l2 & -> & -> & H1 & H2).
  rewrite length_app in Hn. cbn [length] in Hn.
  destruct (IH (l1 ++ l2)) as (Hs & Hp & Hf); [rewrite length_app; lia|]. split_and!.
  - constructor; [done|]. rewrite Hp. apply Forall_app. split; [|done].
    eapply Forall_impl; [done|]. simpl. lia.
  - rewrite Hp. by rewrite Permutation_middle.
  - intros p. rewrite filter_cons, Hf, !filter_app, filter_cons. case_decide as Hx; [|done].
    enough (filter (λ y : Z * list Z, y.1 = p) l1 = []) as -> by done.
    clear -H1 Hx. induction H1 as [|y l1 Hy _ IHl]; [done|].
    rewrite filter_cons, decide_False by lia. done.
Qed.

(** What the calls that drain a queue answer. *)
Definition received_message (msize : nat) (m : Z * list Z) : queue_answer :=
  AReceived (Returned (RMessage (splice 0 m.2 (replicate msize 0%Z)) (length m.2) m.1)).

Lemma spec_queue_sends dep msize ms p :
  Forall (λ m, length m.2 ≤ msize) ms → length (queued p) + length ms ≤ dep →
  ∃ p', spec_queue dep msize ((λ m, QSend m.2 m.1 NonBlocking) <$> ms) p =
          (replicate (length ms) (ASent (Returned OpOk)), p') ∧
        queued p' = queued p ++ ms.
Proof.
  revert p. induction ms as [|[prio buf] ms IH]; intros p Hl Hd.
  { exists p. by rewrite app_nil_r. }
  apply Forall_cons in Hl as [Hb Hl]. cbn [length] in Hd. simpl in Hb.
  cbn [fmap list_fmap spec_queue spec_queue_op fst snd]. unfold spec_send.
  rewrite !decide_False by lia. cbn.
  edestruct (IH (Pending (queued p ++ [(prio, buf)]) (peak_count p `max` S (length (queued p)))
                   (sent_count p + 1))) as (p' & E & Hq).
  { done. } { cbn. rewrite length_app. simpl. lia. }
  cbn in E. rewrite E. exists p'. split; [done|]. rewrite Hq. cbn. by rewrite <- app_assoc.
Qed.

Lemma spec_queue_receives dep msize n p :
  (spec_queue dep msize (replicate n (QReceive (replicate msize 0%Z) NonBlocking)) p).1
    = (received_message msize <$> drain n (queued p)) ++
      replicate (n - length (queued p)) (AReceived (Returned (RStatus Empty))).
Proof.
  revert p. induction n as [|n IH]; intros p; [done|].
  cbn [replicate spec_queue spec_queue_op drain].
  rewrite decide_False by (rewrite length_replicate; lia). unfold spec_receive.
  destruct (take_best (queued p)) as [[[prio buf] rest]|] eqn:E.
  - specialize (IH (Pending rest (peak_count p) (sent_count p))).
    destruct (spec_queue dep msize _ _) as [l p2]. cbn in *. rewrite IH.
    apply take_best_spec in E as (l1 & l2 & -> & -> & _). unfold received_message at 2. cbn.
    do 3 f_equal. rewrite !length_app. simpl. lia.
  - specialize (IH p). destruct (spec_queue dep msize _ p) as [l p2]. cbn in *. rewrite IH.
    apply take_best_None in E as ->. cbn. rewrite Nat.sub_0_r. by destruct n.
Qed.

Lemma spec_queue_app dep msize os1 os2 p :
  spec_queue dep msize (os1 ++ os2) p =
    let '(l1, p1) := spec_queue dep msize os1 p in
    let '(l2, p2) := spec_queue dep msize os2 p1 in (l1 ++ l2, p2).
Proof.
  revert p. induction os1 as [|o os1 IH]; intros p; cbn.
  { by destruct (spec_queue dep msize os2 p). }
  destruct (spec_queue_op dep msize o p) as [a p1]. rewrite IH.
  destruct (spec_queue dep msize os1 p1) as [l1 p2].
  by destruct (spec_queue dep msize os2 p2).
Qed.

(** Queue any messages that fit, then receive as many: every message
    comes back once, intact, with its size and priority, in order of
    decreasing priority and, within a priority, in the order sent. *)
Theorem os_queue_priority_fifo (dep msize : nat) (ms : list (Z * list Z)) :
  queue_fits dep msize → length ms ≤ dep →
  Forall (λ m, length m.2 ≤ msize ∧ Forall is_byte m.2) ms → (2 * Z.of_nat (length ms) < 2 ^ 64)%Z →
  ∃ q0 q' out,
    create (D := PriorityQueue) dep msize Queue_new = Ret (OpOk, q0) ∧
    run_queue (((λ m, QSend m.2 m.1 NonBlocking) <$> ms) ++
               replicate (length ms) (QReceive (replicate msize 0%Z) NonBlocking)) q0
      = Ret (replicate (length ms) (ASent (Returned OpOk)) ++ (received_message msize <$> out), q') ∧
    StronglySorted (λ x y, y.1 ≤ x.1)%Z out ∧ out ≡ₚ ms ∧
    ∀ p, filter (λ x, x.1 = p) out = filter (λ x, x.1 = p) ms.
Proof.
  intros Hf Hl Hms Hn. set (os := _ ++ _).
  destruct (create_ok (D := PriorityQueue) dep msize) as (q0 & E & Hr); [exact Hf|].
  destruct (run_queue_ok dep msize os q0 _ Hr) as (q' & E' & _).
  { apply Forall_app. split; [|by apply Forall_replicate].
    apply Forall_fmap. eapply Forall_impl; [done|]. by intros m [_ ?]. }
  { subst os. rewrite length_app, length_fmap, length_replicate. cbn. lia. }
  exists q0, q', (drain (length ms) ms). split; [done|]. split; [|apply drain_sorted_stable].
  rewrite E'. subst os. rewrite spec_queue_app.
  destruct (spec_queue_sends dep msize ms (Pending [] 0 0)) as (p1 & -> & Hq); [|done|].
  { eapply Forall_impl; [done|]. by intros m [? _]. }
  pose proof (spec_queue_receives dep msize (length ms) p1) as Hrec.
  destruct (spec_queue dep msize _ p1) as [l2 p2]. cbn in *. rewrite Hrec, Hq. cbn.
  by rewrite Nat.sub_diag, app_nil_r.
Qed.

Lemma os_queue_priority_fifo_witness :
  ∃ q0 q' out,
    create (D := PriorityQueue) 3 1 Queue_new = Ret (OpOk, q0) ∧
    run_queue [QSend [1] 2 NonBlocking; QSend [2] 9 NonBlocking; QSend [3] 2 NonBlocking;
               QReceive [0] NonBlocking; QReceive [0] NonBlocking; QReceive [0] NonBlocking]%Z q0
      = Ret (replicate 3 (ASent (Returned OpOk)) ++ (received_message 1 <$> out), q') ∧
    StronglySorted (λ x y, y.1 ≤ x.1)%Z out ∧ out ≡ₚ [(2, [1]); (9, [2]); (2, [3])]%Z ∧
    ∀ p, filter (λ x, x.1 = p) out = filter (λ x, x.1 = p) [(2, [1]); (9, [2]); (2, [3])]%Z.
Proof.
  apply (os_queue_priority_fifo 3 1 [(2, [1]); (9, [2]); (2, [3])]%Z); [by apply (bool_decide_unpack _)|cbn; lia| |reflexivity].
  repeat constructor; simpl; unfold is_byte; lia.
Defined.
