(* ===== verification/Fpp.v ===== *)
(** The data types of [fpp_enum!], [fpp_struct!] and [fpp_array!]
    ([crates/fprime-fw/src/fpp.rs]): the framework enums of
    [crates/fprime-fw/src/enums.rs], and the packet descriptors and frame
    context of [crates/fprime-fw/src/com.rs].

    A constant whose source name is taken already carries a prefix or an
    underscore. *)

From S2P Require Import Prelude Serial SerialFacts Codec.
Local Open Scope Z_scope.

(** * Arrays of [fpp_array!]: the elements one after the other *)

Section array.
Context {A : Type} (c : codec A).

Fixpoint array_serialize_to (l : list A) (e : Endianness) : SerM unit :=
  match l with
  | [] => mret tt
  | x :: l' => _ ← c_ser c x e; array_serialize_to l' e
  end.

Fixpoint array_deserialize_from (n : nat) (e : Endianness) : SerM (list A) :=
  match n with
  | O => mret []
  | S n' => x ← c_deser c e; l ← array_deserialize_from n' e; mret (x :: l)
  end.

Definition array_enc (e : Endianness) (l : list A) : list Z := concat (c_enc c e <$> l).

Lemma array_enc_bytes e l : Forall is_byte (array_enc e l).
Proof. induction l; [constructor|]. apply Forall_app. split; [apply c_enc_bytes|done]. Qed.

Lemma array_serialize_ok l e : l ≠ [] → writes (array_serialize_to l e) (array_enc e l).
Proof.
  induction l as [|x [|y l] IH]; intros Hne; [done|..].
  - intros b Hb Hc. unfold array_enc in *. cbn [fmap list_fmap concat app] in *.
    rewrite app_nil_r in *. cbn [array_serialize_to].
    by rewrite (ser_bind_ok _ _ _ _ _ (c_ser_ok c x e b Hb Hc)).
  - apply (writes_bind _ _ (c_enc c e x)); [apply c_ser_ok|apply c_enc_bytes|by apply IH].
Qed.

Lemma array_deserialize_ok l e :
  Forall (c_valid c) l → reads (array_deserialize_from (length l) e) (array_enc e l) l.
Proof.
  induction 1 as [|x l Hx _ IH]; [apply reads_ret|]. cbn [length array_deserialize_from].
  apply (reads_bind _ _ (c_enc c e x) _ x); [by apply c_deser_ok|].
  apply (reads_bind_last _ _ _ l); [done|apply reads_ret].
Qed.
End array.

(** * Enums *)

(** The laws of an enum declared by its table. *)
Ltac fpp_enum_laws :=
  first [ by intros [] | by intros z a; apply table_try_from_sound; repeat constructor | done ].

Inductive Success : Set :=
| Success_Failure | Success_Success.
#[export] Instance Success_eq_dec : EqDecision Success.
Proof. solve_decision. Defined.
Definition Success_repr (v : Success) : Z :=
  match v with | Success_Failure => 0 | Success_Success => 1 end.
Definition Success_VALUES : list (Z * Success) :=
  [(0, Success_Failure); (1, Success_Success)].
Definition Success_default : Success := Success_Failure.
#[export] Program Instance Success_enum : FppEnum Success := {|
  repr_bytes := 1; as_repr := Success_repr; try_from := table_try_from Success_VALUES |}.
Solve All Obligations with fpp_enum_laws.

Inductive Enabled : Set :=
| Disabled | Enabled_.
#[export] Instance Enabled_eq_dec : EqDecision Enabled.
Proof. solve_decision. Defined.
Definition Enabled_repr (v : Enabled) : Z :=
  match v with | Disabled => 0 | Enabled_ => 1 end.
Definition Enabled_VALUES : list (Z * Enabled) :=
  [(0, Disabled); (1, Enabled_)].
Definition Enabled_default : Enabled := Disabled.
#[export] Program Instance Enabled_enum : FppEnum Enabled := {|
  repr_bytes := 1; as_repr := Enabled_repr; try_from := table_try_from Enabled_VALUES |}.
Solve All Obligations with fpp_enum_laws.

Inductive Wait : Set :=
| Wait_ | NoWait.
#[export] Instance Wait_eq_dec : EqDecision Wait.
Proof. solve_decision. Defined.
Definition Wait_repr (v : Wait) : Z :=
  match v with | Wait_ => 0 | NoWait => 1 end.
Definition Wait_VALUES : list (Z * Wait) :=
  [(0, Wait_); (1, NoWait)].
Definition Wait_default : Wait := Wait_.
#[export] Program Instance Wait_enum : FppEnum Wait := {|
  repr_bytes := 1; as_repr := Wait_repr; try_from := table_try_from Wait_VALUES |}.
Solve All Obligations with fpp_enum_laws.

Inductive Completed : Set :=
| Completed_ | Canceled | CompletedFailed.
#[export] Instance Completed_eq_dec : EqDecision Completed.
Proof. solve_decision. Defined.
Definition Completed_repr (v : Completed) : Z :=
  match v with | Completed_ => 0 | Canceled => 1 | CompletedFailed => 2 end.
Definition Completed_VALUES : list (Z * Completed) :=
  [(0, Completed_); (1, Canceled); (2, CompletedFailed)].
Definition Completed_default : Completed := Completed_.
#[export] Program Instance Completed_enum : FppEnum Completed := {|
  repr_bytes := 1; as_repr := Completed_repr; try_from := table_try_from Completed_VALUES |}.
Solve All Obligations with fpp_enum_laws.

Inductive Health : Set :=
| Healthy | Sick | HealthFailed.
#[export] Instance Health_eq_dec : EqDecision Health.
Proof. solve_decision. Defined.
Definition Health_repr (v : Health) : Z :=
  match v with | Healthy => 0 | Sick => 1 | HealthFailed => 2 end.
Definition Health_VALUES : list (Z * Health) :=
  [(0, Healthy); (1, Sick); (2, HealthFailed)].
Definition Health_default : Health := Healthy.
#[export] Program Instance Health_enum : FppEnum Health := {|
  repr_bytes := 1; as_repr := Health_repr; try_from := table_try_from Health_VALUES |}.
Solve All Obligations with fpp_enum_laws.

Inductive CmdResponse : Set :=
| CmdOk | InvalidOpcode | ValidationError | CmdFormatError | ExecutionError | Busy.
#[export] Instance CmdResponse_eq_dec : EqDecision CmdResponse.
Proof. solve_decision. Defined.
Definition CmdResponse_repr (v : CmdResponse) : Z :=
  match v with | CmdOk => 0 | InvalidOpcode => 1 | ValidationError => 2 | CmdFormatError => 3 |
  ExecutionError => 4 | Busy => 5 end.
Definition CmdResponse_VALUES : list (Z * CmdResponse) :=
  [(0, CmdOk); (1, InvalidOpcode); (2, ValidationError); (3, CmdFormatError); (4,
   ExecutionError); (5, Busy)].
Definition CmdResponse_default : CmdResponse := CmdOk.
#[export] Program Instance CmdResponse_enum : FppEnum CmdResponse := {|
  repr_bytes := 1; as_repr := CmdResponse_repr; try_from := table_try_from CmdResponse_VALUES |}.
Solve All Obligations with fpp_enum_laws.

Inductive LogSeverity : Set :=
| Fatal | WarningHi | WarningLo | Command | ActivityHi | ActivityLo | Diagnostic.
#[export] Instance LogSeverity_eq_dec : EqDecision LogSeverity.
Proof. solve_decision. Defined.
Definition LogSeverity_repr (v : LogSeverity) : Z :=
  match v with | Fatal => 1 | WarningHi => 2 | WarningLo => 3 | Command => 4 | ActivityHi => 5 |
  ActivityLo => 6 | Diagnostic => 7 end.
Definition LogSeverity_VALUES : list (Z * LogSeverity) :=
  [(1, Fatal); (2, WarningHi); (3, WarningLo); (4, Command); (5, ActivityHi); (6, ActivityLo);
   (7, Diagnostic)].
Definition LogSeverity_default : LogSeverity := Fatal.
#[export] Program Instance LogSeverity_enum : FppEnum LogSeverity := {|
  repr_bytes := 1; as_repr := LogSeverity_repr; try_from := table_try_from LogSeverity_VALUES |}.
Solve All Obligations with fpp_enum_laws.

Inductive ParamValid : Set :=
| Uninit | ParamValid_Valid | ParamInvalid | ParamDefault.
#[export] Instance ParamValid_eq_dec : EqDecision ParamValid.
Proof. solve_decision. Defined.
Definition ParamValid_repr (v : ParamValid) : Z :=
  match v with | Uninit => 0 | ParamValid_Valid => 1 | ParamInvalid => 2 | ParamDefault => 3
  end.
Definition ParamValid_VALUES : list (Z * ParamValid) :=
  [(0, Uninit); (1, ParamValid_Valid); (2, ParamInvalid); (3, ParamDefault)].
Definition ParamValid_default : ParamValid := Uninit.
#[export] Program Instance ParamValid_enum : FppEnum ParamValid := {|
  repr_bytes := 1; as_repr := ParamValid_repr; try_from := table_try_from ParamValid_VALUES |}.
Solve All Obligations with fpp_enum_laws.

Inductive TlmValid : Set :=
| TlmValid_Valid | TlmInvalid.
#[export] Instance TlmValid_eq_dec : EqDecision TlmValid.
Proof. solve_decision. Defined.
Definition TlmValid_repr (v : TlmValid) : Z :=
  match v with | TlmValid_Valid => 0 | TlmInvalid => 1 end.
Definition TlmValid_VALUES : list (Z * TlmValid) :=
  [(0, TlmValid_Valid); (1, TlmInvalid)].
Definition TlmValid_default : TlmValid := TlmValid_Valid.
#[export] Program Instance TlmValid_enum : FppEnum TlmValid := {|
  repr_bytes := 1; as_repr := TlmValid_repr; try_from := table_try_from TlmValid_VALUES |}.
Solve All Obligations with fpp_enum_laws.

Inductive DeserialStatus : Set :=
| DsOk | DsBufferEmpty | DsFormatError | DsSizeMismatch | DsTypeMismatch.
#[export] Instance DeserialStatus_eq_dec : EqDecision DeserialStatus.
Proof. solve_decision. Defined.
Definition DeserialStatus_repr (v : DeserialStatus) : Z :=
  match v with | DsOk => 0 | DsBufferEmpty => 3 | DsFormatError => 4 | DsSizeMismatch => 5 |
  DsTypeMismatch => 6 end.
Definition DeserialStatus_VALUES : list (Z * DeserialStatus) :=
  [(0, DsOk); (3, DsBufferEmpty); (4, DsFormatError); (5, DsSizeMismatch); (6, DsTypeMismatch)].
Definition DeserialStatus_default : DeserialStatus := DsOk.
#[export] Program Instance DeserialStatus_enum : FppEnum DeserialStatus := {|
  repr_bytes := 1; as_repr := DeserialStatus_repr; try_from := table_try_from DeserialStatus_VALUES |}.
Solve All Obligations with fpp_enum_laws.

Inductive StringFormatStatus : Set :=
| SfSuccess | SfOverflowed | SfInvalidFormatString | SfSizeOverflow | SfOtherError.
#[export] Instance StringFormatStatus_eq_dec : EqDecision StringFormatStatus.
Proof. solve_decision. Defined.
Definition StringFormatStatus_repr (v : StringFormatStatus) : Z :=
  match v with | SfSuccess => 0 | SfOverflowed => 1 | SfInvalidFormatString => 2 |
  SfSizeOverflow => 3 | SfOtherError => 4 end.
Definition StringFormatStatus_VALUES : list (Z * StringFormatStatus) :=
  [(0, SfSuccess); (1, SfOverflowed); (2, SfInvalidFormatString); (3, SfSizeOverflow); (4,
   SfOtherError)].
Definition StringFormatStatus_default : StringFormatStatus := SfSuccess.
#[export] Program Instance StringFormatStatus_enum : FppEnum StringFormatStatus := {|
  repr_bytes := 1; as_repr := StringFormatStatus_repr; try_from := table_try_from StringFormatStatus_VALUES |}.
Solve All Obligations with fpp_enum_laws.

Inductive ComPacketType : Set :=
| FwPacketCommand | FwPacketTelem | FwPacketLog | FwPacketFile | FwPacketPacketizedTlm | FwPacketDp | FwPacketIdle | FwPacketParam | FwPacketHand | FwPacketUnknown | SppIdlePacket | ApidInvalidUninitialized.
#[export] Instance ComPacketType_eq_dec : EqDecision ComPacketType.
Proof. solve_decision. Defined.
Definition ComPacketType_repr (v : ComPacketType) : Z :=
  match v with | FwPacketCommand => 0 | FwPacketTelem => 1 | FwPacketLog => 2 | FwPacketFile =>
  3 | FwPacketPacketizedTlm => 4 | FwPacketDp => 5 | FwPacketIdle => 6 | FwPacketParam => 7 |
  FwPacketHand => 0xfe | FwPacketUnknown => 0xff | SppIdlePacket => 0x7ff |
  ApidInvalidUninitialized => 0x800 end.
Definition ComPacketType_VALUES : list (Z * ComPacketType) :=
  [(0, FwPacketCommand); (1, FwPacketTelem); (2, FwPacketLog); (3, FwPacketFile); (4,
   FwPacketPacketizedTlm); (5, FwPacketDp); (6, FwPacketIdle); (7, FwPacketParam); (0xfe,
   FwPacketHand); (0xff, FwPacketUnknown); (0x7ff, SppIdlePacket); (0x800,
   ApidInvalidUninitialized)].
Definition ComPacketType_default : ComPacketType := ApidInvalidUninitialized.
#[export] Program Instance ComPacketType_enum : FppEnum ComPacketType := {|
  repr_bytes := 2; as_repr := ComPacketType_repr; try_from := table_try_from ComPacketType_VALUES |}.
Solve All Obligations with fpp_enum_laws.

Inductive Pvn : Set :=
| SpacePacketProtocol | EncapsulationPacketProtocol | PvnInvalidUninitialized.
#[export] Instance Pvn_eq_dec : EqDecision Pvn.
Proof. solve_decision. Defined.
Definition Pvn_repr (v : Pvn) : Z :=
  match v with | SpacePacketProtocol => 0 | EncapsulationPacketProtocol => 7 |
  PvnInvalidUninitialized => 8 end.
Definition Pvn_VALUES : list (Z * Pvn) :=
  [(0, SpacePacketProtocol); (7, EncapsulationPacketProtocol); (8, PvnInvalidUninitialized)].
Definition Pvn_default : Pvn := PvnInvalidUninitialized.
#[export] Program Instance Pvn_enum : FppEnum Pvn := {|
  repr_bytes := 1; as_repr := Pvn_repr; try_from := table_try_from Pvn_VALUES |}.
Solve All Obligations with fpp_enum_laws.

(** [ParamValid::is_ok]. *)
Definition ParamValid_is_ok (v : ParamValid) : bool :=
  match v with ParamValid_Valid | ParamDefault => true | _ => false end.

(** * Strictness of the enum and boolean decoders *)

(** Every enum declared through [fpp_enum!] is validated on the wire: a
    raw value of the representation width that is not one of the declared
    constants yields [DeserFormatError] with exactly the representation bytes
    consumed, and a declared one yields its constant. *)
Theorem fpp_enum_decode_exact `{FppEnum A} (raw : Z) (e : Endianness) (b : serbuf) (rest : list Z)
    (Hraw : is_u (8 * Z.of_nat repr_bytes) raw) (Hb : wf b)
    (Hr : remaining_slice b = int_bytes repr_bytes e raw ++ rest) :
  enum_deserialize_from (A := A) e b =
    (match try_from (A := A) raw with
     | Some v => SOk v
     | None => SErr DeserFormatError
     end, advanced repr_bytes b)
  ∧ remaining_slice (advanced repr_bytes b) = rest.
Proof.
  split.
  - destruct (try_from raw) as [v|] eqn:E.
    + rewrite <- (as_repr_try_from _ _ E) in *.
      rewrite (enum_deserialize_ok v e I b rest Hb Hr), length_int_bytes. done.
    + by apply (enum_deserialize_bad raw e b rest).
  - rewrite <- (length_int_bytes repr_bytes e raw). by apply remaining_advanced.
Qed.

Lemma fpp_enum_decode_exact_witness :
  let b := SerBuf [0x08; 0x01; 9] 3 0 in
  enum_deserialize_from (A := ComPacketType) Big b = (SErr DeserFormatError, advanced 2 b)
  ∧ remaining_slice (advanced 2 b) = [9].
Proof.
  refine (fpp_enum_decode_exact (A := ComPacketType) 0x801 Big (SerBuf [0x08; 0x01; 9] 3 0) [9] _ _ _).
  - fp_decide.
  - split_and!; [cbn; lia..|fp_decide].
  - reflexivity.
Defined.

(** * The frame context *)

Definition SA_INDEX_UNSET : Z := 0xFFFF.

Record FrameContext : Set := MkFrameContext {
  com_queue_index : Z;
  apid : ComPacketType;
  has_sec_hdr : bool;
  sequence_flags : Z;
  sequence_count : Z;
  vc_id : Z;
  pvn : Pvn;
  send_now : bool;
  sa_index : Z;
  first_header_pointer : Z;
}.

Definition FrameContext_default : FrameContext :=
  MkFrameContext 0 FwPacketUnknown false 0x3 0 1 PvnInvalidUninitialized false SA_INDEX_UNSET 0.

Definition FrameContext_serialize_to (c : FrameContext) (e : Endianness) : SerM unit :=
  _ ← serialize_i16 (com_queue_index c) e;
  _ ← enum_serialize_to (apid c) e;
  _ ← serialize_bool (has_sec_hdr c) e;
  _ ← serialize_u8 (sequence_flags c) e;
  _ ← serialize_u16 (sequence_count c) e;
  _ ← serialize_u8 (vc_id c) e;
  _ ← enum_serialize_to (pvn c) e;
  _ ← serialize_bool (send_now c) e;
  _ ← serialize_u16 (sa_index c) e;
  serialize_u16 (first_header_pointer c) e.

Definition FrameContext_deserialize_from (e : Endianness) : SerM FrameContext :=
  qi ← deserialize_i16 e;
  ap ← enum_deserialize_from (A := ComPacketType) e;
  sh ← deserialize_bool e;
  sf ← deserialize_u8 e;
  sc ← deserialize_u16 e;
  vc ← deserialize_u8 e;
  pv ← enum_deserialize_from (A := Pvn) e;
  sn ← deserialize_bool e;
  sa ← deserialize_u16 e;
  fh ← deserialize_u16 e;
  mret (MkFrameContext qi ap sh sf sc vc pv sn sa fh).

Definition FrameContext_wf (c : FrameContext) : Prop :=
  is_i 16 (com_queue_index c) ∧ is_u 8 (sequence_flags c) ∧ is_u 16 (sequence_count c) ∧
  is_u 8 (vc_id c) ∧ is_u 16 (sa_index c) ∧ is_u 16 (first_header_pointer c).
#[export] Instance FrameContext_wf_dec c : Decision (FrameContext_wf c).
Proof. unfold FrameContext_wf; apply _. Defined.

Definition FrameContext_enc (e : Endianness) (c : FrameContext) : list Z :=
  int_bytes 2 e (com_queue_index c) ++ int_bytes 2 e (as_repr (apid c)) ++
  [bool_byte (has_sec_hdr c)] ++ int_bytes 1 e (sequence_flags c) ++
  int_bytes 2 e (sequence_count c) ++ int_bytes 1 e (vc_id c) ++
  int_bytes 1 e (as_repr (pvn c)) ++ [bool_byte (send_now c)] ++
  int_bytes 2 e (sa_index c) ++ int_bytes 2 e (first_header_pointer c).

Lemma length_FrameContext_enc e c : length (FrameContext_enc e c) = 15%nat.
Proof. unfold FrameContext_enc. rewrite !length_app, !length_int_bytes. done. Qed.

Lemma FrameContext_serialize_ok c e : writes (FrameContext_serialize_to c e) (FrameContext_enc e c).
Proof.
  ser_step i16_codec (com_queue_index c). ser_step (enum_codec (A := ComPacketType)) (apid c).
  ser_bool (has_sec_hdr c). ser_step u8_codec (sequence_flags c).
  ser_step u16_codec (sequence_count c). ser_step u8_codec (vc_id c).
  ser_step (enum_codec (A := Pvn)) (pvn c). ser_bool (send_now c).
  ser_step u16_codec (sa_index c). ser_last u16_codec (first_header_pointer c).
Qed.

Lemma FrameContext_deserialize_ok c e :
  FrameContext_wf c → reads (FrameContext_deserialize_from e) (FrameContext_enc e c) c.
Proof.
  intros (? & ? & ? & ? & ? & ?).
  deser_step i16_codec (com_queue_index c); [done|].
  deser_step (enum_codec (A := ComPacketType)) (apid c); [done|].
  deser_bool (has_sec_hdr c).
  deser_step u8_codec (sequence_flags c); [done|].
  deser_step u16_codec (sequence_count c); [done|].
  deser_step u8_codec (vc_id c); [done|].
  deser_step (enum_codec (A := Pvn)) (pvn c); [done|].
  deser_bool (send_now c).
  deser_step u16_codec (sa_index c); [done|].
  deser_last u16_codec (first_header_pointer c); [done|]. destruct c. apply reads_ret.
Qed.

Lemma FrameContext_enc_bytes e c : Forall is_byte (FrameContext_enc e c).
Proof.
  unfold FrameContext_enc. rewrite !Forall_app.
  split_and!; try apply int_bytes_is_byte; repeat constructor; unfold bool_byte; by case_match.
Qed.

Lemma FrameContext_deserialize_safe e : safe (FrameContext_deserialize_from e).
Proof.
  repeat (apply safe_bind; [first [apply enum_deserialize_safe | apply deserialize_bool_safe
    | apply deserialize_sint_safe | apply deserialize_uint_safe]|intros ?]). apply safe_ret.
Qed.

Definition FrameContext_codec : codec FrameContext :=
  Codec FrameContext FrameContext_wf FrameContext_enc FrameContext_serialize_to
    FrameContext_deserialize_from FrameContext_enc_bytes FrameContext_serialize_ok
    FrameContext_deserialize_ok FrameContext_deserialize_safe.
#[export] Instance FrameContext_serializable : Serializable FrameContext := FrameContext_codec.

(** * Round trips *)

(** The generated struct and array codecs round-trip: for every frame
    context and every non-empty array of valid elements of any serializable
    type, in either byte order, serializing into a buffer with room writes
    the members in declaration order without header or padding (15 bytes for
    the context) and deserializing yields the value back with exactly those
    bytes consumed. *)
Theorem fpp_struct_array_roundtrip {A} (c : codec A) (fc : FrameContext) (l : list A)
    (e : Endianness) (b : serbuf) :
  FrameContext_wf fc → l ≠ [] → Forall (c_valid c) l → wf b → ser_loc b = 0%nat →
  (15 + length (array_enc c e l) ≤ capacity b)%nat →
  ∃ b1 b2, FrameContext_serialize_to fc e b = (SOk tt, b1) ∧
    array_serialize_to c l e b1 = (SOk tt, b2) ∧
    as_slice b2 = FrameContext_enc e fc ++ concat (c_enc c e <$> l) ∧
    FrameContext_deserialize_from e b2 = (SOk fc, advanced 15 b2) ∧
    array_deserialize_from c (length l) e (advanced 15 b2)
      = (SOk l, advanced (15 + length (array_enc c e l)) b2).
Proof.
  intros Hfc Hne Hl Hb H0 Hroom.
  pose proof (FrameContext_serialize_ok fc e b Hb) as E1. rewrite length_FrameContext_enc in E1.
  set (x := FrameContext_enc e fc) in *. set (y := array_enc c e l) in *.
  assert (as_slice b = []) as Hs by (unfold as_slice; by rewrite H0).
  assert (length x = 15%nat) as Hx by apply length_FrameContext_enc.
  assert (wf (appended b x)) as Hb1.
  { apply wf_appended; [done|apply FrameContext_enc_bytes|lia]. }
  assert (wf (appended (appended b x) y)) as Hb2.
  { apply wf_appended; [done|apply array_enc_bytes|]. rewrite ser_loc_appended, capacity_appended; lia. }
  assert (remaining_slice (appended (appended b x) y) = x ++ y ++ []) as Hr.
  { rewrite remaining_appended, as_slice_appended, Hs, app_nil_r by done. done. }
  exists (appended b x), (appended (appended b x) y). split_and!.
  - apply E1. lia.
  - apply array_serialize_ok; [done..|]. fold y. rewrite ser_loc_appended, capacity_appended; lia.
  - rewrite !as_slice_appended, Hs by done. done.
  - rewrite (FrameContext_deserialize_ok fc e Hfc _ (y ++ []) Hb2 Hr). by rewrite length_FrameContext_enc.
  - rewrite <- Hx. rewrite (array_deserialize_ok c l e Hl _ []).
    + by rewrite advanced_add.
    + by eapply wf_advanced.
    + by apply remaining_advanced.
Qed.

Lemma fpp_struct_array_roundtrip_witness :
  ∃ b1 b2, FrameContext_serialize_to FrameContext_default Little (linear_buffer_new 32) = (SOk tt, b1) ∧
    array_serialize_to u16_codec [1; 513] Little b1 = (SOk tt, b2) ∧
    as_slice b2 = FrameContext_enc Little FrameContext_default ++ [1; 0; 1; 2] ∧
    FrameContext_deserialize_from Little b2 = (SOk FrameContext_default, advanced 15 b2) ∧
    array_deserialize_from u16_codec 2 Little (advanced 15 b2) = (SOk [1; 513], advanced 19 b2).
Proof.
  apply (fpp_struct_array_roundtrip u16_codec FrameContext_default [1; 513] Little (linear_buffer_new 32)).
  - fp_decide.
  - done.
  - repeat constructor; simpl; lia.
  - apply wf_new.
  - reflexivity.
  - cbn. lia.
Defined.
