(* ===== verification/Buffer.v ===== *)
(** The owned data buffer [Fw::Buffer], [crates/fprime-fw/src/buffer.rs]:
    storage and the window [offset, offset + size) over it. *)

From S2P Require Import Prelude Serial SerialFacts.

(** * Data *)

Record Buffer : Set := MkBuffer {
  storage : list Z;
  offset : nat;
  size : nat;
  context : Z;
}.
#[export] Instance Buffer_eq_dec : EqDecision Buffer.
Proof. solve_decision. Defined.

Definition NO_CONTEXT : Z := 0xFFFFFFFF.

(** * Operations *)

Definition Buffer_empty : Buffer := MkBuffer [] 0 0 NO_CONTEXT.
Definition from_storage (st : list Z) (ctx : Z) : Buffer := MkBuffer st 0 (length st) ctx.
Definition allocate (n : nat) : Buffer := from_storage (replicate n 0%Z) NO_CONTEXT.

Definition is_valid (b : Buffer) : bool := negb (bool_decide (storage b = [])) && bool_decide (0 < size b).
Definition Buffer_capacity (b : Buffer) : nat := length (storage b).
Definition set_context (ctx : Z) (b : Buffer) : Buffer :=
  MkBuffer (storage b) (offset b) (size b) ctx.
Definition set_window (off sz : nat) (b : Buffer) : Buffer :=
  MkBuffer (storage b) off sz (context b).

(** [advance(amount)]: the window start moves, its end stays. *)
Definition advance (amount : Z) (b : Buffer) : outcome Buffer :=
  _ ← fw_assert (negb (bool_decide (storage b = [])));
  b' ← (if (amount <? 0)%Z then
          let back := Z.to_nat (Z.abs amount) in
          _ ← fw_assert (bool_decide (back ≤ offset b));
          Ret (set_window (offset b - back) (size b + back) b)
        else
          let fwd := Z.to_nat amount in
          _ ← fw_assert (bool_decide (fwd ≤ size b));
          Ret (set_window (offset b + fwd) (size b - fwd) b));
  _ ← fw_assert (bool_decide (offset b' + size b' ≤ Buffer_capacity b'));
  Ret b'.

Definition set_size (sz : nat) (b : Buffer) : outcome Buffer :=
  _ ← fw_assert (bool_decide (offset b + sz ≤ Buffer_capacity b));
  Ret (set_window (offset b) sz b).

(** [data()]: slicing panics when the window leaves the storage. *)
Definition buffer_data (b : Buffer) : outcome (list Z) := copy_from (offset b) (size b) (storage b).

(** A write of [bs] at [at_] of [data_mut()]. *)
Definition data_write (at_ : nat) (bs : list Z) (b : Buffer) : outcome Buffer :=
  d ← buffer_data b;
  d' ← copy_into at_ bs d;
  Ret (MkBuffer (splice (offset b) d' (storage b)) (offset b) (size b) (context b)).

Definition get_serializer (b : Buffer) : outcome serbuf :=
  if bool_decide (storage b = []) || bool_decide (size b = 0) then Ret (ext_buf_new [])
  else d ← buffer_data b; Ret (ext_buf_new d).
Definition get_deserializer (b : Buffer) : outcome serbuf :=
  if bool_decide (storage b = []) || bool_decide (size b = 0) then Ret (ext_buf_new [])
  else d ← buffer_data b; ext_buf_with_len d (size b).

(** * Invariant *)

Definition buffer_ok (b : Buffer) : Prop :=
  offset b + size b ≤ length (storage b) ∧ Forall is_byte (storage b).
#[export] Instance buffer_ok_dec b : Decision (buffer_ok b).
Proof. unfold buffer_ok. apply _. Defined.

(** The window of a buffer that satisfies the invariant. *)
Definition window (b : Buffer) : list Z := slice (offset b) (size b) (storage b).

Lemma buffer_data_ok b : buffer_ok b → buffer_data b = Ret (window b).
Proof. intros [? _]. by apply copy_from_ok. Qed.

Lemma length_window b : buffer_ok b → length (window b) = size b.
Proof. intros [? _]. by apply length_slice. Qed.

Lemma window_bytes b : buffer_ok b → Forall is_byte (window b).
Proof. intros [_ ?]. by apply Forall_slice. Qed.

Lemma from_storage_ok st ctx : Forall is_byte st → buffer_ok (from_storage st ctx).
Proof. split; [simpl; lia|done]. Qed.

Lemma window_from_storage st ctx : window (from_storage st ctx) = st.
Proof. by apply slice_0_full. Qed.

Lemma data_write_ok at_ bs b :
  buffer_ok b → Forall is_byte bs → at_ + length bs ≤ size b →
  ∃ b', data_write at_ bs b = Ret b' ∧ buffer_ok b' ∧ size b' = size b ∧ offset b' = offset b ∧
        context b' = context b ∧ length (storage b') = length (storage b) ∧
        window b' = splice at_ bs (window b).
Proof.
  intros Hb Hbs Hl. unfold data_write. rewrite buffer_data_ok, outcome_bind_ret by done.
  pose proof (length_window b Hb) as Hw.
  rewrite copy_into_ok, outcome_bind_ret by lia. eexists. split; [done|].
  assert (length (splice at_ bs (window b)) = size b) as Hlen by (rewrite length_splice; lia).
  destruct Hb as [? ?]. split_and!; cbn; try done.
  - split; cbn; [rewrite length_splice; lia|]. apply Forall_splice; [done|].
    apply Forall_splice; [|done]. by apply Forall_slice.
  - rewrite length_splice; lia.
  - remember (splice at_ bs (window b)) as d eqn:Hd. unfold window. cbn. rewrite <- Hlen.
    apply slice_splice. lia.
Qed.

Lemma get_deserializer_ok b :
  buffer_ok b → size b ≠ 0 → ∃ ser, get_deserializer b = Ret ser ∧ wf ser ∧ deser_loc ser = 0 ∧
    as_slice ser = window b ∧ ser_loc ser = size b.
Proof.
  intros Hb Hz. pose proof (length_window b Hb) as Hl. unfold get_deserializer.
  rewrite (bool_decide_eq_false_2 (storage b = [])).
  2: { intros E. destruct Hb as [Ho _]. rewrite E in Ho. cbn in Ho. lia. }
  rewrite (bool_decide_eq_false_2 (size b = 0)) by done. cbn [orb].
  rewrite buffer_data_ok, outcome_bind_ret by done. unfold ext_buf_with_len.
  rewrite bool_decide_eq_true_2 by lia. cbn. eexists. split; [done|]. split_and!; cbn; try done.
  - split_and!; cbn; [lia|unfold capacity; cbn; lia|by apply window_bytes].
  - unfold as_slice. cbn. by rewrite take_ge by lia.
Qed.

Lemma advance_forward n b :
  buffer_ok b → n ≤ size b → storage b ≠ [] →
  advance (Z.of_nat n) b = Ret (set_window (offset b + n) (size b - n) b).
Proof.
  intros [? ?] Hn Hs. unfold advance. rewrite (bool_decide_eq_false_2 (storage _ = [])) by done. cbn [negb fw_assert].
  rewrite outcome_bind_ret, (proj2 (Z.ltb_ge _ 0)), Nat2Z.id by lia.
  rewrite bool_decide_eq_true_2 by done. cbn [fw_assert]. rewrite !outcome_bind_ret.
  rewrite fw_assert_true; [done|]. apply bool_decide_eq_true_2. unfold Buffer_capacity. cbn. lia.
Qed.

(** * The window operations *)

(** The window of a buffer behaves as a view: [advance] succeeds exactly
    within the window (forwards) and the bytes already skipped (backwards),
    panics otherwise, moves the start and keeps the end, drops or restores
    the leading bytes of [data()], and going forwards then back by the same
    amount restores the buffer. *)
Theorem buffer_advance_exact (b : Buffer) (n : nat) :
  buffer_ok b → storage b ≠ [] →
  (if decide (n ≤ size b)
   then ∃ b', advance (Z.of_nat n) b = Ret b' ∧ buffer_ok b' ∧
          buffer_data b' = Ret (drop n (window b)) ∧ advance (- Z.of_nat n) b' = Ret b
   else advance (Z.of_nat n) b = Panic) ∧
  (n ≠ 0 →
   if decide (n ≤ offset b)
   then ∃ b', advance (- Z.of_nat n) b = Ret b' ∧ buffer_ok b' ∧
          buffer_data b' = Ret (slice (offset b - n) n (storage b) ++ window b)
   else advance (- Z.of_nat n) b = Panic).
Proof.
  intros Hb Hs. pose proof Hb as [Hlen Hbytes].
  assert (∀ c m, storage c ≠ [] → m ≠ 0 → advance (- Z.of_nat m) c =
    if decide (m ≤ offset c)
    then if decide (offset c + size c ≤ length (storage c))
         then Ret (set_window (offset c - m) (size c + m) c) else Panic
    else Panic) as Hback.
  { intros c m Hc Hm. unfold advance. rewrite (bool_decide_eq_false_2 (storage _ = [])) by done. cbn [negb fw_assert].
    rewrite outcome_bind_ret, (proj2 (Z.ltb_lt _ 0)), Z.abs_opp, Z.abs_eq, Nat2Z.id by lia.
    case_decide; [|rewrite bool_decide_eq_false_2 by done; done].
    rewrite bool_decide_eq_true_2 by done. cbn [fw_assert]. rewrite !outcome_bind_ret.
    unfold Buffer_capacity, set_window. cbn [offset size storage].
    replace (offset c - m + (size c + m)) with (offset c + size c) by lia.
    case_bool_decide; case_decide; (done || lia). }
  split.
  - case_decide as Hn.
    + eexists. split; [by apply advance_forward|].
      assert (buffer_ok (set_window (offset b + n) (size b - n) b)) as Hok by (split; cbn; [lia|done]).
      split_and!; [done| |].
      * rewrite buffer_data_ok by done. f_equal. unfold window, slice, set_window. cbn.
        rewrite skipn_firstn_comm, drop_drop. done.
      * destruct (decide (n = 0)) as [->|Hne].
        { rewrite (advance_forward 0) by (cbn; (done || lia)). destruct b. unfold set_window. cbn.
          do 2 f_equal; lia. }
        rewrite Hback by done. cbn. rewrite !decide_True by lia.
        destruct b. unfold set_window. cbn in *. do 2 f_equal; lia.
    + unfold advance. rewrite (bool_decide_eq_false_2 (storage _ = [])) by done. cbn [negb fw_assert].
      rewrite outcome_bind_ret, (proj2 (Z.ltb_ge _ 0)), Nat2Z.id by lia.
      by rewrite bool_decide_eq_false_2 by done.
  - intros Hne. rewrite Hback by done. case_decide as Ho; [|done]. rewrite decide_True by lia.
    eexists. split; [done|].
    assert (buffer_ok (set_window (offset b - n) (size b + n) b)) as Hok by (split; cbn; [lia|done]).
    split; [done|]. rewrite buffer_data_ok by done. f_equal. unfold window, set_window.
    cbn [offset size storage]. rewrite (Nat.add_comm (size b) n), slice_app. by replace (offset b - n + n) with (offset b) by lia.
Qed.

Lemma buffer_advance_exact_witness :
  let b := MkBuffer [1; 2; 3; 4]%Z 1 2 7%Z in
  (∃ b', advance 2 b = Ret b' ∧ buffer_ok b' ∧ buffer_data b' = Ret [] ∧ advance (-2) b' = Ret b) ∧
  (2 ≠ 0 → advance (-2) b = Panic).
Proof. apply (buffer_advance_exact (MkBuffer [1; 2; 3; 4]%Z 1 2 7%Z) 2); [fp_decide|done]. Defined.
