(* ===== verification/Packets.v ===== *)
(** The ground packets, [crates/fprime-fw/src/packets.rs]: commands (uplink),
    events and telemetry (downlink).

    The descriptor is big-endian whatever the packet's byte order.  A
    [deserialize_from] updates the fields of [self] one by one, so a failure
    leaves those already read: [SelfM] threads the packet and the buffer. *)

From S2P Require Import Prelude Serial SerialFacts Codec Time Fpp.

(** * Methods that update [self] while they read a buffer *)

Definition SelfM (S A : Type) : Type := S → serbuf → serres A * S * serbuf.

Definition self_ret {S A} (a : A) : SelfM S A := λ s b, (SOk a, s, b).
Definition self_fail {S A} (st : SerializeStatus) : SelfM S A := λ s b, (SErr st, s, b).
Definition self_bind {S A B} (m : SelfM S A) (f : A → SelfM S B) : SelfM S B := λ s b,
  match m s b with
  | (SOk a, s', b') => f a s' b'
  | (SErr e, s', b') => (SErr e, s', b')
  | (SPanic, s', b') => (SPanic, s', b')
  end.
(** A read of the buffer. *)
Definition self_read {S A} (m : SerM A) : SelfM S A := λ s b, let '(r, b') := m b in (r, s, b').
Definition self_put {S} (f : S → S) : SelfM S unit := λ s b, (SOk tt, f s, b).
Definition self_get {S} : SelfM S S := λ s b, (SOk s, s, b).

Notation "x <~ m ; k" := (self_bind m (λ x, k)) (at level 20, m at level 100, k at level 200).

(** * Data *)

Definition FW_COM_BUFFER_MAX_SIZE : nat := 512.
Definition FW_CMD_ARG_BUFFER_MAX_SIZE : nat := FW_COM_BUFFER_MAX_SIZE - 4 - 2.
Definition FW_LOG_BUFFER_MAX_SIZE : nat := FW_COM_BUFFER_MAX_SIZE - 4 - 2.
Definition FW_TLM_BUFFER_MAX_SIZE : nat := FW_COM_BUFFER_MAX_SIZE - 4 - 2.

Record CmdPacket : Set := MkCmdPacket { opcode : Z; arg_buffer : serbuf }.
Record LogPacket : Set := MkLogPacket { log_id : Z; log_time_tag : Time; log_buffer : serbuf }.
Record TlmPacket : Set := MkTlmPacket { tlm_buffer : serbuf; num_entries : Z }.

Definition CmdPacket_new : CmdPacket := MkCmdPacket 0 (linear_buffer_new FW_CMD_ARG_BUFFER_MAX_SIZE).
Definition LogPacket_new : LogPacket :=
  MkLogPacket 0 Time_ZERO (linear_buffer_new FW_LOG_BUFFER_MAX_SIZE).
Definition TlmPacket_new : TlmPacket := MkTlmPacket (linear_buffer_new FW_COM_BUFFER_MAX_SIZE) 0.

(** * Operations *)

(** The descriptor check every [deserialize_from] starts with. *)
Definition check_descriptor (t : ComPacketType) : SerM unit :=
  d ← deserialize_u16 Big;
  if (d =? as_repr t)%Z then mret tt else ser_fail DeserTypeMismatch.

Definition CmdPacket_deserialize_from (e : Endianness) : SelfM CmdPacket unit :=
  _ <~ self_read (check_descriptor FwPacketCommand);
  op <~ self_read (deserialize_u32 e);
  _ <~ self_put (λ p, MkCmdPacket op (arg_buffer p));
  left <~ self_read deserialize_size_left;
  p <~ self_get;
  if bool_decide (0 < left) then
    args <~ self_read (copy_raw (arg_buffer p) left);
    self_put (λ p, MkCmdPacket (opcode p) args)
  else
    self_put (λ p, MkCmdPacket (opcode p) (reset_ser (arg_buffer p)).2).

Definition LogPacket_serialize_to (p : LogPacket) (e : Endianness) : SerM unit :=
  _ ← serialize_u16 (as_repr FwPacketLog) Big;
  _ ← serialize_u32 (log_id p) e;
  _ ← Time_serialize_to (log_time_tag p) e;
  serialize_bytes (as_slice (log_buffer p)) OmitLength e.

Definition LogPacket_serialized_size (p : LogPacket) : nat := 2 + 4 + 11 + ser_loc (log_buffer p).

(** The rest of a buffer replaces the content of [dest]: what the event and
    telemetry packets do with the unread bytes. *)
Definition take_rest (dest : serbuf) : SerM serbuf :=
  size ← deserialize_size_left;
  if bool_decide (capacity dest < size) then ser_fail DeserSizeMismatch
  else λ b,
    if bool_decide (length (data b) < deser_loc b + size) then (SPanic, b)
    else match set_buff (slice (deser_loc b) size (data b)) dest with
         | (SOk _, dest') => (SOk dest', set_deser_loc (deser_loc b + size) b)
         | _ => (SPanic, b)
         end.

Definition LogPacket_deserialize_from (e : Endianness) : SelfM LogPacket unit :=
  _ <~ self_read (check_descriptor FwPacketLog);
  i <~ self_read (deserialize_u32 e);
  _ <~ self_put (λ p, MkLogPacket i (log_time_tag p) (log_buffer p));
  t <~ self_read (Time_deserialize_from e);
  _ <~ self_put (λ p, MkLogPacket (log_id p) t (log_buffer p));
  p <~ self_get;
  args <~ self_read (take_rest (log_buffer p));
  self_put (λ p, MkLogPacket (log_id p) (log_time_tag p) args).

(** A computation on the telemetry packet's own buffer. *)
Definition on_tlm {A} (m : SerM A) (p : TlmPacket) : serres A * TlmPacket :=
  let '(r, b) := m (tlm_buffer p) in (r, MkTlmPacket b (num_entries p)).

Definition reset_pkt_ser (p : TlmPacket) : serres unit * TlmPacket :=
  on_tlm (_ ← reset_ser; serialize_u16 (as_repr FwPacketTelem) Big) (MkTlmPacket (tlm_buffer p) 0).

Definition reset_pkt_deser (p : TlmPacket) : serres unit * TlmPacket :=
  on_tlm (_ ← reset_deser; check_descriptor FwPacketTelem) p.

Definition add_value (id : Z) (t : Time) (buffer : serbuf) (p : TlmPacket) : serres unit * TlmPacket :=
  let b := tlm_buffer p in
  if bool_decide (capacity b - ser_loc b < 4 + 11 + ser_loc buffer) then (SErr NoRoomLeft, p)
  else
    match on_tlm (_ ← serialize_u32 id Big; _ ← Time_serialize_to t Big;
                  serialize_bytes (as_slice buffer) OmitLength Big) p with
    | (SOk _, p') => (SOk tt, MkTlmPacket (tlm_buffer p') (num_entries p' + 1))
    | r => r
    end.

(** [extract_value(.., buffer_size)]: the id, the time and the refilled
    value buffer. *)
Definition extract_value (buffer : serbuf) (buffer_size : nat) (p : TlmPacket)
    : serres (Z * Time * serbuf) * TlmPacket :=
  on_tlm (id ← deserialize_u32 Big;
          t ← Time_deserialize_from Big;
          _ ← ser_assert (bool_decide (buffer_size ≤ FW_TLM_BUFFER_MAX_SIZE));
          r ← deserialize_bytes (replicate FW_TLM_BUFFER_MAX_SIZE 0%Z) buffer_size OmitLength Big;
          match set_buff (take buffer_size r.1) buffer with
          | (SOk _, buffer') => mret (id, t, buffer')
          | (SErr s, _) => ser_fail s
          | (SPanic, _) => λ b, (SPanic, b)
          end) p.

(** The non-ground format of the telemetry packet. *)
Definition TlmPacket_serialize_to (p : TlmPacket) (e : Endianness) : SerM unit :=
  _ ← serialize_u64 (num_entries p) e;
  serialize_bytes (as_slice (tlm_buffer p)) OmitLength e.

Definition TlmPacket_deserialize_from (e : Endianness) : SelfM TlmPacket unit :=
  n <~ self_read (deserialize_u64 e);
  _ <~ self_put (λ p, MkTlmPacket (tlm_buffer p) n);
  p <~ self_get;
  buf <~ self_read (take_rest (tlm_buffer p));
  self_put (λ p, MkTlmPacket buf (num_entries p)).

(** * Lemmas *)

Lemma as_slice_set_buff src d d' :
  set_buff src d = (SOk tt, d') → as_slice d' = src ∧ ser_loc d' = length src ∧ deser_loc d' = 0
  ∧ capacity d' = capacity d.
Proof.
  unfold set_buff. case_bool_decide; [done|]. intros [= <-]. unfold as_slice, capacity in *. cbn.
  split_and!; try done.
  - apply (take_splice 0). lia.
  - rewrite length_splice; lia.
Qed.

Lemma self_read_ok {S A B} (m : SerM A) (k : A → SelfM S B) s b a b' :
  m b = (SOk a, b') → self_bind (self_read m) k s b = k a s b'.
Proof. intros E. unfold self_bind, self_read. by rewrite E. Qed.
Lemma self_read_err {S A B} (m : SerM A) (k : A → SelfM S B) s b st b' :
  m b = (SErr st, b') → self_bind (self_read m) k s b = (SErr st, s, b').
Proof. intros E. unfold self_bind, self_read. by rewrite E. Qed.

Lemma descriptor_range (t : ComPacketType) : is_u 16 (as_repr t).
Proof. by destruct t. Qed.

Lemma check_descriptor_ok t :
  reads (check_descriptor t) (be_bytes 2 (as_repr t)) ().
Proof.
  apply (reads_bind_last _ _ _ (as_repr t)).
  - apply (c_deser_ok u16_codec (as_repr t) Big (descriptor_range t)).
  - rewrite Z.eqb_refl. apply reads_ret.
Qed.

Lemma check_descriptor_bad t d b rest :
  is_u 16 d → d ≠ as_repr t → wf b → remaining_slice b = be_bytes 2 d ++ rest →
  check_descriptor t b = (SErr DeserTypeMismatch, advanced 2 b).
Proof.
  intros Hd Hne Hb Hr. unfold check_descriptor.
  rewrite (ser_bind_ok _ _ _ _ _ (c_deser_ok u16_codec d Big Hd b rest Hb Hr)).
  rewrite (proj2 (Z.eqb_neq _ _)) by done. done.
Qed.

Lemma deserialize_size_left_remaining b :
  wf b → deserialize_size_left b = (SOk (length (remaining_slice b)), b).
Proof. intros Hb. rewrite length_remaining_slice by done. by apply deserialize_size_left_spec. Qed.

(** The unread bytes as a slice of the storage. *)
Lemma slice_remaining b :
  wf b → slice (deser_loc b) (length (remaining_slice b)) (data b) = remaining_slice b
         ∧ deser_loc b + length (remaining_slice b) ≤ length (data b).
Proof.
  intros Hb. rewrite length_remaining_slice by done. rewrite remaining_slice_alt.
  destruct Hb as (? & Hc & _). unfold capacity in Hc. split; [done|lia].
Qed.

Lemma copy_raw_rest dest b :
  wf b → length (remaining_slice b) ≤ capacity dest →
  ∃ dest', copy_raw dest (length (remaining_slice b)) b
             = (SOk dest', advanced (length (remaining_slice b)) b) ∧
           as_slice dest' = remaining_slice b ∧ deser_loc dest' = 0 ∧ capacity dest' = capacity dest.
Proof.
  intros Hb Hc. destruct (slice_remaining b Hb) as [Hsl Hle]. unfold copy_raw.
  rewrite bool_decide_eq_false_2 by lia.
  rewrite (ser_bind_ok _ _ _ _ _ (deserialize_size_left_remaining b Hb)).
  rewrite bool_decide_eq_false_2 by lia. unfold capacity in Hc.
  assert (copy_out (length (remaining_slice b)) (data dest) b
          = (SOk (splice 0 (remaining_slice b) (data dest)), advanced (length (remaining_slice b)) b)) as Ec.
  { unfold copy_out. rewrite bool_decide_eq_false_2 by lia. by rewrite Hsl. }
  rewrite (ser_bind_ok _ _ _ _ _ Ec). eexists. split; [done|]. unfold as_slice, capacity. cbn.
  split_and!; [|done|rewrite length_splice; lia]. apply (take_splice 0). lia.
Qed.

Lemma take_rest_ok dest b :
  wf b → length (remaining_slice b) ≤ capacity dest →
  ∃ dest', take_rest dest b = (SOk dest', advanced (length (remaining_slice b)) b) ∧
           as_slice dest' = remaining_slice b ∧ ser_loc dest' = length (remaining_slice b) ∧
           deser_loc dest' = 0 ∧ capacity dest' = capacity dest.
Proof.
  intros Hb Hc. destruct (slice_remaining b Hb) as [Hsl Hle]. unfold take_rest.
  rewrite (ser_bind_ok _ _ _ _ _ (deserialize_size_left_remaining b Hb)).
  rewrite !bool_decide_eq_false_2 by lia. rewrite Hsl.
  destruct (set_buff (remaining_slice b) dest) as [[[]| |] d'] eqn:E;
    [|unfold set_buff in E; by rewrite bool_decide_eq_false_2 in E by lia..].
  apply as_slice_set_buff in E as (? & ? & ? & ?). eexists. split_and!; [done..].
Qed.

(** ** Packet readers never panic *)

Definition self_safe {S A} (m : SelfM S A) : Prop :=
  ∀ s b, wf b → (m s b).1.1 ≠ SPanic ∧ wf (m s b).2.

Lemma self_safe_read {S A} (m : SerM A) : safe m → self_safe (S := S) (self_read m).
Proof. intros Hm s b Hb. destruct (Hm b Hb) as (? & ? & _). unfold self_read. by destruct (m b). Qed.

Lemma self_safe_put {S} (f : S → S) : self_safe (self_put f).
Proof. by intros s b. Qed.

Lemma self_safe_bind {S A B} (m : SelfM S A) (k : A → SelfM S B) :
  self_safe m → (∀ a, self_safe (k a)) → self_safe (self_bind m k).
Proof.
  intros Hm Hk s b Hb. specialize (Hm s b Hb). unfold self_bind.
  destruct (m s b) as [[[a|st|] s'] b'] eqn:E; cbn in *; destruct Hm as [? ?]; [|done..].
  by apply Hk.
Qed.

Lemma self_safe_get {S B} (k : S → SelfM S B) :
  (∀ a, self_safe (k a)) → self_safe (self_bind self_get k).
Proof. intros Hk s b Hb. by apply Hk. Qed.

Lemma check_descriptor_safe t : safe (check_descriptor t).
Proof.
  apply safe_bind; [apply deserialize_uint_safe|]. intros d. by apply safe_if; auto using safe_ret, safe_fail.
Qed.

Lemma take_rest_safe dest : safe (take_rest dest).
Proof.
  intros b Hb. destruct (decide (length (remaining_slice b) ≤ capacity dest)) as [Hc|Hc].
  - destruct (take_rest_ok dest b Hb Hc) as (d' & -> & _). cbn. split_and!; [done| |done].
    by apply (wf_advanced b (remaining_slice b) []); [done|rewrite app_nil_r].
  - unfold take_rest. rewrite (ser_bind_ok _ _ _ _ _ (deserialize_size_left_remaining b Hb)).
    rewrite bool_decide_eq_true_2 by lia. done.
Qed.

Lemma deserialize_u32_safe e : safe (deserialize_u32 e).
Proof. apply deserialize_uint_safe. Qed.
Lemma deserialize_u64_safe e : safe (deserialize_u64 e).
Proof. apply deserialize_uint_safe. Qed.

#[export] Hint Resolve check_descriptor_safe take_rest_safe
  copy_raw_safe deserialize_u32_safe deserialize_u64_safe deserialize_size_left_safe Time_deserialize_safe : ser.

Ltac self_safe_ladder :=
  repeat match goal with
  | |- self_safe (self_bind self_get _) => apply self_safe_get; intros ?
  | |- self_safe (self_bind _ _) => apply self_safe_bind; [|intros ?]
  | |- self_safe (self_read _) => apply self_safe_read; solve [auto with ser]
  | |- self_safe (self_put _) => apply self_safe_put
  | |- self_safe (if bool_decide ?P then _ else _) => case_bool_decide
  end.

Lemma CmdPacket_deserialize_safe e : self_safe (CmdPacket_deserialize_from e).
Proof. unfold CmdPacket_deserialize_from. self_safe_ladder. Qed.

(** Decoding an uplinked or looped-back packet never panics, whatever
    the bytes: for every well-formed buffer and every previous content of the
    packet, command, event and telemetry [deserialize_from] return a status
    and leave the buffer's cursors ordered. *)
Theorem packet_decode_total (e : Endianness) (b : serbuf) (c : CmdPacket) (l : LogPacket) (t : TlmPacket) :
  wf b →
  ((CmdPacket_deserialize_from e c b).1.1 ≠ SPanic ∧ wf (CmdPacket_deserialize_from e c b).2) ∧
  ((LogPacket_deserialize_from e l b).1.1 ≠ SPanic ∧ wf (LogPacket_deserialize_from e l b).2) ∧
  ((TlmPacket_deserialize_from e t b).1.1 ≠ SPanic ∧ wf (TlmPacket_deserialize_from e t b).2).
Proof.
  intros Hb. split; [|split].
  - by apply CmdPacket_deserialize_safe.
  - revert l b Hb. change (self_safe (LogPacket_deserialize_from e)).
    unfold LogPacket_deserialize_from. self_safe_ladder.
  - revert t b Hb. change (self_safe (TlmPacket_deserialize_from e)).
    unfold TlmPacket_deserialize_from. self_safe_ladder.
Qed.

Lemma packet_decode_total_witness :
  let b := SerBuf [0; 2; 0; 0; 0; 7; 0; 9]%Z 8 0 in
  ((CmdPacket_deserialize_from Big CmdPacket_new b).1.1 ≠ SPanic ∧
   wf (CmdPacket_deserialize_from Big CmdPacket_new b).2) ∧
  ((LogPacket_deserialize_from Big LogPacket_new b).1.1 ≠ SPanic ∧
   wf (LogPacket_deserialize_from Big LogPacket_new b).2) ∧
  ((TlmPacket_deserialize_from Big TlmPacket_new b).1.1 ≠ SPanic ∧
   wf (TlmPacket_deserialize_from Big TlmPacket_new b).2).
Proof. apply packet_decode_total. fp_decide. Defined.

(** * Commands *)

Lemma CmdPacket_decodes (p : CmdPacket) (e : Endianness) (b : serbuf) (op : Z) (args : list Z) :
  wf b → is_u 32 op → length args ≤ capacity (arg_buffer p) →
  remaining_slice b = be_bytes 2 (as_repr FwPacketCommand) ++ int_bytes 4 e op ++ args →
  ∃ p', CmdPacket_deserialize_from e p b = (SOk tt, p', advanced (6 + length args) b) ∧
        opcode p' = op ∧ as_slice (arg_buffer p') = args ∧ deser_loc (arg_buffer p') = 0.
Proof.
  intros Hb Hop Hl Hr. unfold CmdPacket_deserialize_from.
  rewrite (self_read_ok _ _ _ _ _ _ (check_descriptor_ok FwPacketCommand b _ Hb Hr)).
  pose proof (wf_advanced b _ _ Hb Hr) as Hb1. pose proof (remaining_advanced b _ _ Hb Hr) as Hr1.
  rewrite length_be_bytes in *.
  rewrite (self_read_ok _ _ _ _ _ _ (c_deser_ok u32_codec op e Hop _ _ Hb1 Hr1)).
  pose proof (wf_advanced _ _ _ Hb1 Hr1) as Hb2. pose proof (remaining_advanced _ _ _ Hb1 Hr1) as Hr2.
  change (c_enc u32_codec e op) with (int_bytes 4 e op). rewrite length_int_bytes, advanced_add in *.
  change (2 + 4) with 6 in *. unfold self_bind at 1, self_put at 1.
  rewrite (self_read_ok _ _ _ _ _ _ (deserialize_size_left_remaining _ Hb2)).
  unfold self_bind at 1, self_get at 1. rewrite Hr2. case_bool_decide as Hlen.
  - rewrite <- Hr2. destruct (copy_raw_rest (arg_buffer p) (advanced 6 b) Hb2) as (a' & E & Ha & Hd0 & _);
      [by rewrite Hr2|]. cbn [arg_buffer].
    rewrite (self_read_ok _ _ _ _ _ _ E). rewrite advanced_add, Hr2. eexists. split; [done|].
    cbn. by rewrite Ha, Hr2.
  - destruct args; [|simpl in Hlen; lia]. eexists. split; [done|]. done.
Qed.

(** A command packet is decoded exactly: with the command descriptor,
    the opcode (in the requested byte order) and all the bytes after it
    become the packet, whatever arguments it held before, and the buffer is
    consumed; with any other descriptor the packet is untouched and the
    status is [DeserTypeMismatch]. *)
Theorem cmd_packet_decode (p : CmdPacket) (e : Endianness) (b : serbuf) (d op : Z) (args : list Z) :
  wf b → is_u 16 d → is_u 32 op → length args ≤ capacity (arg_buffer p) →
  remaining_slice b = be_bytes 2 d ++ int_bytes 4 e op ++ args →
  if decide (d = as_repr FwPacketCommand) then
    ∃ p', CmdPacket_deserialize_from e p b = (SOk tt, p', advanced (6 + length args) b) ∧
          opcode p' = op ∧ as_slice (arg_buffer p') = args ∧ deser_loc (arg_buffer p') = 0
  else CmdPacket_deserialize_from e p b = (SErr DeserTypeMismatch, p, advanced 2 b).
Proof.
  intros Hb Hd Hop Hl Hr. case_decide as Hc; [subst d; by apply CmdPacket_decodes|].
  unfold CmdPacket_deserialize_from. erewrite self_read_err; [done|]. by eapply check_descriptor_bad.
Qed.

Lemma cmd_packet_decode_witness :
  ∃ p', CmdPacket_deserialize_from Big CmdPacket_new (SerBuf [0; 0; 0; 0; 1; 2; 9; 8]%Z 8 0)
          = (SOk tt, p', advanced 8 (SerBuf [0; 0; 0; 0; 1; 2; 9; 8]%Z 8 0)) ∧
        opcode p' = 258%Z ∧ as_slice (arg_buffer p') = [9; 8]%Z ∧ deser_loc (arg_buffer p') = 0.
Proof.
  apply (cmd_packet_decode CmdPacket_new Big (SerBuf [0; 0; 0; 0; 1; 2; 9; 8]%Z 8 0) 0 258 [9; 8]%Z);
    [fp_decide|fp_decide|fp_decide|vm_compute; lia|reflexivity].
Defined.

(** * Events *)

Definition LogPacket_enc (e : Endianness) (p : LogPacket) : list Z :=
  be_bytes 2 (as_repr FwPacketLog) ++ int_bytes 4 e (log_id p) ++ Time_enc e (log_time_tag p) ++
  as_slice (log_buffer p).

Lemma LogPacket_serialize_ok p e : writes (LogPacket_serialize_to p e) (LogPacket_enc e p).
Proof.
  ser_step_at u16_codec Big (as_repr FwPacketLog).
  ser_step u32_codec (log_id p).
  ser_step Time_codec (log_time_tag p). intros b Hb Hc. apply write_raw_room. done.
Qed.

(** Event packets round-trip: when the destination has room for
    [serialized_size] bytes, serializing writes descriptor, id, time and raw
    arguments and nothing else, and deserializing them into any packet whose
    argument buffer is large enough restores id, time and arguments. *)
Theorem log_packet_roundtrip (p q : LogPacket) (e : Endianness) (b : serbuf) :
  is_u 32 (log_id p) → Time_wf (log_time_tag p) → wf (log_buffer p) → wf b → ser_loc b = 0 →
  ser_loc (log_buffer p) ≤ capacity (log_buffer q) → LogPacket_serialized_size p ≤ capacity b →
  ∃ b' q', LogPacket_serialize_to p e b = (SOk tt, b') ∧ as_slice b' = LogPacket_enc e p ∧
    length (as_slice b') = LogPacket_serialized_size p ∧
    LogPacket_deserialize_from e q b' = (SOk tt, q', advanced (LogPacket_serialized_size p) b') ∧
    log_id q' = log_id p ∧ log_time_tag q' = log_time_tag p ∧
    as_slice (log_buffer q') = as_slice (log_buffer p).
Proof.
  intros Hid Ht Hlb Hb H0 Hcap Hroom.
  assert (length (LogPacket_enc e p) = LogPacket_serialized_size p) as Hlen.
  { unfold LogPacket_enc, LogPacket_serialized_size.
    by rewrite !length_app, length_be_bytes, length_int_bytes, length_Time_enc, length_as_slice. }
  set (b' := appended b (LogPacket_enc e p)).
  assert (Forall is_byte (LogPacket_enc e p)) as Hbytes.
  { unfold LogPacket_enc. rewrite !Forall_app. split_and!;
      [apply be_bytes_is_byte|apply int_bytes_is_byte|apply Time_enc_bytes|].
    destruct Hlb as (_ & _ & ?). by apply Forall_take. }
  assert (wf b') as Hb' by (apply wf_appended; [done|done|lia]).
  assert (as_slice b' = LogPacket_enc e p) as Has.
  { unfold b'. rewrite as_slice_appended by done. unfold as_slice. by rewrite H0. }
  assert (remaining_slice b' = LogPacket_enc e p) as Hr.
  { unfold b'. rewrite remaining_appended by done. unfold as_slice. by rewrite H0. }
  exists b'. unfold LogPacket_deserialize_from. unfold LogPacket_enc in Hr.
  rewrite (self_read_ok _ _ _ _ _ _ (check_descriptor_ok FwPacketLog b' _ Hb' Hr)).
  pose proof (wf_advanced _ _ _ Hb' Hr) as Hb1. pose proof (remaining_advanced _ _ _ Hb' Hr) as Hr1.
  rewrite length_be_bytes in *.
  rewrite (self_read_ok _ _ _ _ _ _ (c_deser_ok u32_codec (log_id p) e Hid _ _ Hb1 Hr1)).
  pose proof (wf_advanced _ _ _ Hb1 Hr1) as Hb2. pose proof (remaining_advanced _ _ _ Hb1 Hr1) as Hr2.
  change (c_enc u32_codec e (log_id p)) with (int_bytes 4 e (log_id p)).
  rewrite length_int_bytes, advanced_add in *. unfold self_bind at 1, self_put at 1.
  rewrite (self_read_ok _ _ _ _ _ _ (Time_deserialize_ok _ e Ht _ _ Hb2 Hr2)).
  pose proof (wf_advanced _ _ _ Hb2 Hr2) as Hb3. pose proof (remaining_advanced _ _ _ Hb2 Hr2) as Hr3.
  rewrite length_Time_enc, advanced_add in *. change (2 + 4 + 11) with 17 in *. unfold self_bind at 1, self_put at 1.
  unfold self_bind at 1, self_get at 1. cbn [log_buffer].
  destruct (take_rest_ok (log_buffer q) (advanced 17 b') Hb3) as (a' & E & Ha & _).
  { rewrite Hr3, length_as_slice by done. done. }
  rewrite (self_read_ok _ _ _ _ _ _ E). eexists. split_and!.
  - apply LogPacket_serialize_ok; [done|lia].
  - done.
  - by rewrite Has.
  - rewrite advanced_add, Hr3, length_as_slice by done. done.
  - done.
  - done.
  - cbn. by rewrite Ha.
Qed.

Lemma log_packet_roundtrip_witness :
  let p := MkLogPacket 7 (MkTime TbProcTime 1 20 30) (SerBuf [5; 6; 0]%Z 2 0) in
  ∃ b' q', LogPacket_serialize_to p Big (linear_buffer_new 64) = (SOk tt, b') ∧
    as_slice b' = LogPacket_enc Big p ∧ length (as_slice b') = LogPacket_serialized_size p ∧
    LogPacket_deserialize_from Big LogPacket_new b' = (SOk tt, q', advanced 19 b') ∧
    log_id q' = 7%Z ∧ log_time_tag q' = MkTime TbProcTime 1 20 30 ∧
    as_slice (log_buffer q') = [5; 6]%Z.
Proof.
  apply (log_packet_roundtrip (MkLogPacket 7 (MkTime TbProcTime 1 20 30) (SerBuf [5; 6; 0]%Z 2 0))
           LogPacket_new Big (linear_buffer_new 64)).
  - fp_decide.
  - fp_decide.
  - fp_decide.
  - apply wf_new.
  - reflexivity.
  - vm_compute. lia.
  - vm_compute. lia.
Defined.

(** * Telemetry *)

Record tlm_entry : Set := TlmEntry { te_id : Z; te_time : Time; te_value : list Z }.

Definition tlm_entry_ok (x : tlm_entry) : Prop :=
  is_u 32 (te_id x) ∧ Time_wf (te_time x) ∧ Forall is_byte (te_value x) ∧
  length (te_value x) ≤ FW_TLM_BUFFER_MAX_SIZE.
#[export] Instance tlm_entry_ok_dec x : Decision (tlm_entry_ok x).
Proof. unfold tlm_entry_ok; apply _. Defined.

Definition tlm_entry_enc (x : tlm_entry) : list Z :=
  be_bytes 4 (te_id x) ++ Time_enc Big (te_time x) ++ te_value x.

Lemma length_tlm_entry_enc x : length (tlm_entry_enc x) = 15 + length (te_value x).
Proof. unfold tlm_entry_enc. by rewrite !length_app, length_be_bytes, length_Time_enc. Qed.

Lemma tlm_entry_enc_bytes x : tlm_entry_ok x → Forall is_byte (tlm_entry_enc x).
Proof.
  intros (_ & _ & ? & _). unfold tlm_entry_enc. rewrite !Forall_app.
  auto using be_bytes_is_byte, Time_enc_bytes.
Qed.

(** The value buffer a caller passes for an entry. *)
Definition value_buffer (v : list Z) : serbuf := SerBuf v (length v) 0.

Fixpoint add_values (xs : list tlm_entry) (p : TlmPacket) : serres unit * TlmPacket :=
  match xs with
  | [] => (SOk tt, p)
  | x :: xs' =>
      match add_value (te_id x) (te_time x) (value_buffer (te_value x)) p with
      | (SOk _, p') => add_values xs' p'
      | r => r
      end
  end.

Fixpoint extract_values (buffer : serbuf) (sizes : list nat) (p : TlmPacket)
    : serres (list tlm_entry) * TlmPacket :=
  match sizes with
  | [] => (SOk [], p)
  | n :: sizes' =>
      match extract_value buffer n p with
      | (SOk (i, t, v), p') =>
          match extract_values buffer sizes' p' with
          | (SOk xs, p'') => (SOk (TlmEntry i t (as_slice v) :: xs), p'')
          | r => r
          end
      | (SErr s, p') => (SErr s, p')
      | (SPanic, p') => (SPanic, p')
      end
  end.

Lemma add_value_ok x p :
  tlm_entry_ok x → wf (tlm_buffer p) →
  ser_loc (tlm_buffer p) + length (tlm_entry_enc x) ≤ capacity (tlm_buffer p) →
  add_value (te_id x) (te_time x) (value_buffer (te_value x)) p
    = (SOk tt, MkTlmPacket (appended (tlm_buffer p) (tlm_entry_enc x)) (num_entries p + 1)).
Proof.
  intros Hx Hb Hroom. rewrite length_tlm_entry_enc in Hroom. unfold add_value.
  rewrite bool_decide_eq_false_2 by (cbn; lia).
  assert (writes (_ ← serialize_u32 (te_id x) Big; _ ← Time_serialize_to (te_time x) Big;
            serialize_bytes (as_slice (value_buffer (te_value x))) OmitLength Big)
            (tlm_entry_enc x)) as Hw.
  { ser_step_at u32_codec Big (te_id x). ser_step_at Time_codec Big (te_time x).
    intros b _ Hc. unfold as_slice. cbn. rewrite take_ge by lia. by apply write_raw_room. }
  unfold on_tlm. rewrite Hw; [done|done|]. rewrite length_tlm_entry_enc. lia.
Qed.

Lemma add_values_ok xs p :
  Forall tlm_entry_ok xs → wf (tlm_buffer p) → deser_loc (tlm_buffer p) = 0 →
  ser_loc (tlm_buffer p) + length (concat (tlm_entry_enc <$> xs)) ≤ capacity (tlm_buffer p) →
  ∃ p', add_values xs p = (SOk tt, p') ∧ wf (tlm_buffer p') ∧
        as_slice (tlm_buffer p') = as_slice (tlm_buffer p) ++ concat (tlm_entry_enc <$> xs) ∧
        num_entries p' = (num_entries p + Z.of_nat (length xs))%Z ∧
        capacity (tlm_buffer p') = capacity (tlm_buffer p) ∧ deser_loc (tlm_buffer p') = 0.
Proof.
  intros Hxs. revert p. induction Hxs as [|x xs Hx _ IH]; intros p Hb H0 Hroom.
  { exists p. split_and!; try done; [by rewrite app_nil_r|cbn; lia]. }
  cbn [fmap list_fmap concat length] in *. rewrite length_app in Hroom.
  cbn [add_values]. rewrite add_value_ok by (done || lia).
  assert (wf (appended (tlm_buffer p) (tlm_entry_enc x))) as Hb'
    by (apply wf_appended; [done|by apply tlm_entry_enc_bytes|lia]).
  edestruct (IH (MkTlmPacket (appended (tlm_buffer p) (tlm_entry_enc x)) (num_entries p + 1)))
    as (p' & E & ? & Ha & Hn & Hc & ?); cbn [tlm_buffer]; [done|done| |].
  { rewrite ser_loc_appended, capacity_appended by lia. lia. }
  exists p'. cbn [tlm_buffer num_entries] in *. split_and!; try done.
  - rewrite Ha, as_slice_appended by done. by rewrite app_assoc.
  - lia.
  - rewrite Hc. apply capacity_appended. lia.
Qed.

Lemma deserialize_bytes_prefix dest bs b rest :
  wf b → length bs ≤ length dest → remaining_slice b = bs ++ rest →
  deserialize_bytes dest (length bs) OmitLength Big b
    = (SOk (splice 0 bs dest, length bs), advanced (length bs) b).
Proof.
  intros Hb Hl Hr. unfold deserialize_bytes, ser_assert. rewrite bool_decide_eq_true_2 by done.
  erewrite ser_bind_ok; [|done].
  rewrite (ser_bind_ok _ _ _ _ _ (deserialize_size_left_remaining b Hb)).
  rewrite Hr, length_app, bool_decide_eq_false_2 by lia.
  by rewrite (ser_bind_ok _ _ _ _ _ (reads_copy_out dest bs b rest Hb Hr)).
Qed.

Lemma extract_value_ok x rest buffer p :
  tlm_entry_ok x → wf (tlm_buffer p) → FW_TLM_BUFFER_MAX_SIZE ≤ capacity buffer →
  remaining_slice (tlm_buffer p) = tlm_entry_enc x ++ rest →
  ∃ v, extract_value buffer (length (te_value x)) p
         = (SOk (te_id x, te_time x, v),
            MkTlmPacket (advanced (length (tlm_entry_enc x)) (tlm_buffer p)) (num_entries p)) ∧
       as_slice v = te_value x.
Proof.
  intros (Hi & Ht & Hv & Hl) Hb Hcap Hr. rewrite length_tlm_entry_enc. unfold extract_value, on_tlm.
  unfold tlm_entry_enc in Hr. rewrite <- !app_assoc in Hr.
  rewrite (ser_bind_ok _ _ _ _ _ (c_deser_ok u32_codec (te_id x) Big Hi _ _ Hb Hr)).
  pose proof (wf_advanced _ _ _ Hb Hr) as Hb1. pose proof (remaining_advanced _ _ _ Hb Hr) as Hr1.
  change (c_enc u32_codec Big (te_id x)) with (be_bytes 4 (te_id x)). rewrite length_be_bytes in *.
  rewrite (ser_bind_ok _ _ _ _ _ (Time_deserialize_ok _ Big Ht _ _ Hb1 Hr1)).
  pose proof (wf_advanced _ _ _ Hb1 Hr1) as Hb2. pose proof (remaining_advanced _ _ _ Hb1 Hr1) as Hr2.
  rewrite length_Time_enc, advanced_add in *. change (4 + 11) with 15 in *.
  unfold ser_assert at 1. rewrite bool_decide_eq_true_2 by done. erewrite ser_bind_ok; [|done].
  assert (length (te_value x) ≤ length (replicate FW_TLM_BUFFER_MAX_SIZE 0%Z)) as Hlr
    by (by rewrite length_replicate).
  rewrite (ser_bind_ok _ _ _ _ _ (deserialize_bytes_prefix _ (te_value x) _ rest Hb2 Hlr Hr2)).
  cbn [fst]. replace (take _ _) with (te_value x) by (symmetry; apply (take_splice 0); lia).
  destruct (set_buff (te_value x) buffer) as [[[]| |] v] eqn:E;
    [|unfold set_buff in E; by rewrite bool_decide_eq_false_2 in E by lia..].
  apply as_slice_set_buff in E as (Ha & _). exists v. split; [|done]. cbn. by rewrite advanced_add.
Qed.

Lemma extract_values_ok xs buffer p :
  Forall tlm_entry_ok xs → wf (tlm_buffer p) → FW_TLM_BUFFER_MAX_SIZE ≤ capacity buffer →
  remaining_slice (tlm_buffer p) = concat (tlm_entry_enc <$> xs) →
  ∃ p', extract_values buffer ((λ x, length (te_value x)) <$> xs) p = (SOk xs, p') ∧
        remaining_slice (tlm_buffer p') = [] ∧ wf (tlm_buffer p').
Proof.
  intros Hxs. revert p. induction Hxs as [|x xs Hx _ IH]; intros p Hb Hcap Hr; [by exists p|].
  cbn [fmap list_fmap concat] in *.
  destruct (extract_value_ok x _ buffer p Hx Hb Hcap Hr) as (v & E & Hv).
  cbn [extract_values]. rewrite E.
  destruct (IH (MkTlmPacket (advanced (length (tlm_entry_enc x)) (tlm_buffer p)) (num_entries p)))
    as (p' & E' & Hr' & Hw'); [by eapply wf_advanced|done|by apply remaining_advanced|].
  exists p'. rewrite E', Hv. destruct x. done.
Qed.

(** Telemetry packets carry their entries: after [reset_pkt_ser], any
    entries that fit next to the descriptor are all accepted, the packet
    bytes are the descriptor followed by the entries and nothing else, the
    count is their number, and [reset_pkt_deser] with one [extract_value] per
    entry (given its size) returns exactly the entries in order, after which
    the packet is empty. *)
Theorem tlm_packet_roundtrip (p : TlmPacket) (xs : list tlm_entry) (buffer : serbuf) :
  wf (tlm_buffer p) → Forall tlm_entry_ok xs → FW_TLM_BUFFER_MAX_SIZE ≤ capacity buffer →
  2 + length (concat (tlm_entry_enc <$> xs)) ≤ capacity (tlm_buffer p) →
  ∃ p0 p1 p2 p3,
    reset_pkt_ser p = (SOk tt, p0) ∧ add_values xs p0 = (SOk tt, p1) ∧
    as_slice (tlm_buffer p1) = [0; 1]%Z ++ concat (tlm_entry_enc <$> xs) ∧
    num_entries p1 = Z.of_nat (length xs) ∧
    reset_pkt_deser p1 = (SOk tt, p2) ∧
    extract_values buffer ((λ x, length (te_value x)) <$> xs) p2 = (SOk xs, p3) ∧
    remaining_slice (tlm_buffer p3) = [].
Proof.
  intros Hb Hxs Hcap Hroom.
  set (b0 := SerBuf (data (tlm_buffer p)) 0 0).
  assert (wf b0) as Hb0. { destruct Hb as (? & ? & ?). split_and!; cbn; (done || lia). }
  set (b1 := appended b0 (be_bytes 2 (as_repr FwPacketTelem))).
  assert (wf b1) as Hb1.
  { apply wf_appended; [done|apply be_bytes_is_byte|]. rewrite length_be_bytes. cbn. unfold capacity in *. cbn. lia. }
  assert (capacity b1 = capacity (tlm_buffer p)) as Hc1
    by (apply (capacity_appended b0); rewrite length_be_bytes; unfold capacity in *; cbn; lia).
  assert (reset_pkt_ser p = (SOk tt, MkTlmPacket b1 0)) as E0.
  { unfold reset_pkt_ser, on_tlm. cbn [tlm_buffer num_entries].
    erewrite ser_bind_ok; [|done]. fold b0.
    rewrite (c_ser_ok u16_codec (as_repr FwPacketTelem) Big b0 Hb0); [done|].
    unfold capacity in *. cbn. lia. }
  assert (as_slice b1 = [0; 1]%Z) as Ha1
    by (unfold b1; rewrite as_slice_appended by done; reflexivity).
  destruct (add_values_ok xs (MkTlmPacket b1 0) Hxs Hb1 eq_refl) as (p1 & E1 & Hw1 & Has & Hn & _ & _).
  { cbn [tlm_buffer]. rewrite Hc1. unfold b1. rewrite ser_loc_appended, length_be_bytes. cbn. lia. }
  cbn [tlm_buffer num_entries] in Has, Hn. rewrite Ha1 in Has.
  set (bd := set_deser_loc 0 (tlm_buffer p1)).
  assert (wf bd) as Hbd by (apply wf_set_deser_loc; [done|lia]).
  assert (remaining_slice bd = be_bytes 2 (as_repr FwPacketTelem) ++ concat (tlm_entry_enc <$> xs)) as Hrd
    by exact Has.
  assert (reset_pkt_deser p1 = (SOk tt, MkTlmPacket (advanced 2 bd) (num_entries p1))) as E2.
  { unfold reset_pkt_deser, on_tlm. erewrite ser_bind_ok; [|done]. fold bd.
    rewrite (check_descriptor_ok FwPacketTelem bd _ Hbd Hrd). by rewrite length_be_bytes. }
  destruct (extract_values_ok xs buffer (MkTlmPacket (advanced 2 bd) (num_entries p1))) as (p3 & E3 & Hr3 & _);
    [done| |done| |].
  { pose proof (wf_advanced bd _ _ Hbd Hrd) as Hw. by rewrite length_be_bytes in Hw. }
  { pose proof (remaining_advanced bd _ _ Hbd Hrd) as Hw. by rewrite length_be_bytes in Hw. }
  eexists _, p1, _, p3. split_and!; try done.
Qed.

Lemma tlm_packet_roundtrip_witness :
  let xs := [TlmEntry 3 Time_ZERO [1; 2]%Z; TlmEntry 4 (MkTime TbProcTime 0 9 8) []] in
  ∃ p0 p1 p2 p3,
    reset_pkt_ser TlmPacket_new = (SOk tt, p0) ∧ add_values xs p0 = (SOk tt, p1) ∧
    as_slice (tlm_buffer p1) = [0; 1]%Z ++ concat (tlm_entry_enc <$> xs) ∧
    num_entries p1 = 2%Z ∧ reset_pkt_deser p1 = (SOk tt, p2) ∧
    extract_values (linear_buffer_new FW_TLM_BUFFER_MAX_SIZE) [2; 0] p2 = (SOk xs, p3) ∧
    remaining_slice (tlm_buffer p3) = [].
Proof.
  apply (tlm_packet_roundtrip TlmPacket_new
    [TlmEntry 3 Time_ZERO [1; 2]%Z; TlmEntry 4 (MkTime TbProcTime 0 9 8) []]
    (linear_buffer_new FW_TLM_BUFFER_MAX_SIZE)).
  - apply wf_new.
  - repeat constructor; vm_compute; (lia || done).
  - vm_compute. lia.
  - vm_compute. lia.
Defined.
