(* ===== verification/Limiters.v ===== *)
(** Rate limiting: [crates/fprime-utils/src/rate_limiter.rs] and
    [crates/fprime-utils/src/token_bucket.rs], over the time points of
    [Time]. *)

From S2P Require Import Prelude Time.
Local Open Scope Z_scope.

(** * Data *)

Record RateLimiter : Set := MkRateLimiter {
  counter_cycle : Z;
  time_cycle : Z;
  counter : Z;
  rl_time : Time;
  time_at_negative_infinity : bool;
}.

Record TokenBucket : Set := MkTokenBucket {
  replenish_interval : Z;
  max_tokens : Z;
  replenish_rate : Z;
  tokens : Z;
  tb_time : Time;
}.

Definition MAX_TOKEN_BUCKET_TOKENS : Z := 1000.

(** * Operations of the rate limiter *)

Definition reset_counter (l : RateLimiter) : RateLimiter :=
  MkRateLimiter (counter_cycle l) (time_cycle l) 0 (rl_time l) (time_at_negative_infinity l).
Definition reset_time (l : RateLimiter) : RateLimiter :=
  MkRateLimiter (counter_cycle l) (time_cycle l) (counter l) Time_ZERO true.
Definition reset (l : RateLimiter) : RateLimiter := reset_time (reset_counter l).
Definition RateLimiter_new (cc tc : Z) : RateLimiter :=
  reset (MkRateLimiter cc tc 0 Time_ZERO true).
Definition set_counter_cycle (cc : Z) (l : RateLimiter) : RateLimiter :=
  MkRateLimiter cc (time_cycle l) (counter l) (rl_time l) (time_at_negative_infinity l).
Definition set_time_cycle (tc : Z) (l : RateLimiter) : RateLimiter :=
  MkRateLimiter (counter_cycle l) tc (counter l) (rl_time l) (time_at_negative_infinity l).
Definition set_counter (c : Z) (l : RateLimiter) : RateLimiter :=
  MkRateLimiter (counter_cycle l) (time_cycle l) c (rl_time l) (time_at_negative_infinity l).
Definition set_time (t : Time) (l : RateLimiter) : RateLimiter :=
  MkRateLimiter (counter_cycle l) (time_cycle l) (counter l) t false.

Section ops.
Context `{BuildProfile}.

Definition should_counter_trigger (l : RateLimiter) : outcome bool :=
  _ ← fw_assert (0 <? counter_cycle l); Ret (counter l =? 0).

Definition should_time_trigger (t : Time) (l : RateLimiter) : outcome bool :=
  _ ← fw_assert (0 <? time_cycle l);
  cycle ← from_seconds_useconds (time_cycle l) 0;
  next_trigger ← Time_add (rl_time l) cycle;
  Ret (time_ge t next_trigger || time_at_negative_infinity l).

Definition update_counter (triggered : bool) (l : RateLimiter) : outcome RateLimiter :=
  _ ← fw_assert (0 <? counter_cycle l);
  c ← (if triggered then Ret 1 else add_w 32 (counter l) 1);
  Ret (set_counter (if counter_cycle l <=? c then 0 else c) l).

Definition update_time (triggered : bool) (t : Time) (l : RateLimiter) : outcome RateLimiter :=
  _ ← fw_assert (0 <? time_cycle l);
  Ret (set_time (if triggered then t else rl_time l) l).

(** [trigger(time)]; [||] evaluates its right operand only when needed. *)
Definition rl_trigger (t : Time) (l : RateLimiter) : outcome (bool * RateLimiter) :=
  if (counter_cycle l =? 0) && (time_cycle l =? 0) then Ret (true, l)
  else
    s1 ← (if 0 <? counter_cycle l then should_counter_trigger l else Ret false);
    s2 ← (if 0 <? time_cycle l then
            (if s1 : bool then Ret true else should_time_trigger t l) else Ret s1);
    l1 ← (if 0 <? counter_cycle l then update_counter s2 l else Ret l);
    l2 ← (if 0 <? time_cycle l then update_time s2 t l1 else Ret l1);
    Ret (s2, l2).

Definition trigger_counter_only (l : RateLimiter) : outcome (bool * RateLimiter) :=
  _ ← fw_assert (time_cycle l =? 0);
  z ← Time_zero TbNone;
  rl_trigger z l.

(** * Operations of the token bucket *)

Definition TokenBucket_new (interval maxt : Z) : outcome TokenBucket :=
  _ ← fw_assert (maxt <=? MAX_TOKEN_BUCKET_TOKENS);
  t ← from_seconds_useconds 0 0;
  Ret (MkTokenBucket interval maxt 1 maxt t).
Definition with_state (interval maxt rate start : Z) (t : Time) : TokenBucket :=
  MkTokenBucket interval maxt rate start t.
Definition set_replenish_interval (i : Z) (b : TokenBucket) : TokenBucket :=
  MkTokenBucket i (max_tokens b) (replenish_rate b) (tokens b) (tb_time b).
Definition set_max_tokens (m : Z) (b : TokenBucket) : TokenBucket :=
  MkTokenBucket (replenish_interval b) m (replenish_rate b) (tokens b) (tb_time b).
Definition set_replenish_rate (r : Z) (b : TokenBucket) : TokenBucket :=
  MkTokenBucket (replenish_interval b) (max_tokens b) r (tokens b) (tb_time b).
Definition set_state (tk : Z) (t : Time) (b : TokenBucket) : TokenBucket :=
  MkTokenBucket (replenish_interval b) (max_tokens b) (replenish_rate b) tk t.
Definition replenish (b : TokenBucket) : TokenBucket :=
  if tokens b <? max_tokens b then set_state (max_tokens b) (tb_time b) b else b.

(** The [while] loop of [trigger]; [None] when the fuel runs out. *)
Fixpoint replenish_loop (fuel : nat) (interval now next_time : Time) (b : TokenBucket)
    : outcome (option TokenBucket) :=
  if (tokens b <? max_tokens b) && time_le next_time now then
    match fuel with
    | O => Ret None
    | S fuel' =>
        room ← sub_w 32 (max_tokens b) (tokens b);
        tk ← add_w 32 (tokens b) (replenish_rate b `min` room);
        next' ← Time_add next_time interval;
        replenish_loop fuel' interval now next' (set_state tk next_time b)
    end
  else Ret (Some b).

(** Each round adds a token, so the missing tokens bound the rounds. *)
Definition tb_trigger (now : Time) (b : TokenBucket) : outcome (option (bool * TokenBucket)) :=
  r ← (if 0 <? replenish_rate b then
         interval ← from_seconds_useconds (replenish_interval b / 1000000)
                                          (replenish_interval b mod 1000000);
         next_time ← Time_add (tb_time b) interval;
         r ← replenish_loop (Z.to_nat (max_tokens b - tokens b)) interval now next_time b;
         Ret (match r with
              | None => None
              | Some b' =>
                  Some (if (max_tokens b' <=? tokens b') && time_lt (tb_time b') now
                        then set_state (tokens b') now b' else b')
              end)
       else Ret (Some b));
  match r with
  | None => Ret None
  | Some b' =>
      if 0 <? tokens b' then
        tk ← sub_w 32 (tokens b') 1; Ret (Some (true, set_state tk (tb_time b') b'))
      else Ret (Some (false, b'))
  end.
End ops.

(** * Counter limiting *)

Fixpoint trigger_calls `{BuildProfile} (n : nat) (l : RateLimiter) : outcome (list bool * RateLimiter) :=
  match n with
  | O => Ret ([], l)
  | S n' =>
      '(r, l') ← trigger_counter_only l;
      '(rs, l'') ← trigger_calls n' l';
      Ret (r :: rs, l'')
  end.

Lemma trigger_counter_step `{BuildProfile} cc c t ni :
  0 < cc < 2 ^ 32 → 0 ≤ c < cc →
  trigger_counter_only (MkRateLimiter cc 0 c t ni) =
    Ret (c =? 0, MkRateLimiter cc 0 ((c + 1) mod cc) t ni).
Proof.
  intros Hcc Hc. unfold trigger_counter_only, Time_zero, Time_new, rl_trigger. cbn.
  rewrite (proj2 (Z.eqb_neq cc 0)), (proj2 (Z.ltb_lt 0 cc)) by lia. cbn.
  unfold should_counter_trigger, update_counter. cbn.
  rewrite (proj2 (Z.ltb_lt 0 cc)) by lia. cbn.
  assert ((if c =? 0 then Ret 1 else add_w 32 c 1) = Ret (c + 1)) as ->.
  { destruct (Z.eqb_spec c 0) as [->|]; [done|]. apply overflowing_in. unfold is_u. lia. }
  cbn. unfold set_counter. cbn. do 3 f_equal. destruct (Z.leb_spec cc (c + 1)).
  - replace (c + 1) with cc by lia. by rewrite Z.mod_same by lia.
  - by rewrite Z.mod_small by lia.
Qed.

(** A limiter with only a counter cycle [cc] lets exactly every [cc]-th
    call through, the first included: call number [k] since the reset is
    granted iff [cc] divides [k], for any number of calls. *)
Theorem counter_limiter_periodic `{BuildProfile} (cc : Z) (n : nat) :
  0 < cc < 2 ^ 32 →
  ∃ l', trigger_calls n (RateLimiter_new cc 0) =
          Ret ((λ k, Z.of_nat k mod cc =? 0) <$> seq 0 n, l').
Proof.
  intros Hcc. unfold RateLimiter_new. cbn.
  enough (∀ k, ∃ l', trigger_calls n (MkRateLimiter cc 0 (Z.of_nat k mod cc) Time_ZERO true) =
    Ret ((λ k, Z.of_nat k mod cc =? 0) <$> seq k n, l')) as Hg.
  { specialize (Hg 0%nat). by rewrite Z.mod_0_l in Hg by lia. }
  induction n as [|n IH]; intros k; [by eexists|]. cbn [trigger_calls].
  rewrite trigger_counter_step by (try apply Z.mod_pos_bound; lia).
  rewrite outcome_bind_ret. rewrite Z.add_mod_idemp_l by lia.
  replace (Z.of_nat k + 1) with (Z.of_nat (S k)) by lia.
  destruct (IH (S k)) as (l' & ->). by eexists.
Qed.

Lemma counter_limiter_periodic_witness :
  ∃ l', trigger_calls (H := true) 5 (RateLimiter_new 3 0) =
          Ret ([true; false; false; true; false], l').
Proof. apply (counter_limiter_periodic (H := true) 3 5). lia. Defined.

(** * Time limiting *)

Fixpoint trigger_times `{BuildProfile} (ts : list Time) (l : RateLimiter) : outcome (list bool * RateLimiter) :=
  match ts with
  | [] => Ret ([], l)
  | t :: ts' =>
      '(r, l') ← rl_trigger t l;
      '(rs, l'') ← trigger_times ts' l';
      Ret (r :: rs, l'')
  end.

(** Grant the first call, then every call at least [cyc] microseconds after
    the last granted one. *)
Fixpoint spaced_grants (cyc : Z) (last : option Z) (ts : list Time) : list bool :=
  match ts with
  | [] => []
  | t :: ts' =>
      let g := match last with None => true | Some s => s + cyc <=? total_us t end in
      g :: spaced_grants cyc (if g then Some (total_us t) else last) ts'
  end.

(** A time base-less time with room for [us] more microseconds. *)
Definition plain_time (us : Z) (t : Time) : Prop :=
  Time_wf t ∧ time_base t = TbNone ∧ total_us t + us < 2 ^ 32 * 1000000.
#[export] Instance plain_time_dec us t : Decision (plain_time us t).
Proof. unfold plain_time. apply _. Defined.

Lemma from_seconds_useconds_ok s us :
  is_u 32 s → 0 ≤ us < 1000000 →
  ∃ t, from_seconds_useconds s us = Ret t ∧ Time_wf t ∧ time_base t = TbNone ∧
       total_us t = s * 1000000 + us.
Proof.
  intros Hs Hu. unfold from_seconds_useconds. rewrite Time_new_ok by lia.
  eexists. split; [done|]. unfold Time_wf. split_and!; simpl; try apply Hs; try lia; done.
Qed.

(** The stored time of a limiter with only a time cycle. *)
Definition holds_last (l : RateLimiter) (last : option Z) : Prop :=
  counter_cycle l = 0 ∧ plain_time (time_cycle l * 1000000) (rl_time l) ∧
  time_at_negative_infinity l = bool_decide (last = None) ∧
  match last with None => True | Some s => total_us (rl_time l) = s end.

Lemma rl_trigger_step `{BuildProfile} t l last :
  holds_last l last → 0 < time_cycle l < 2 ^ 32 → plain_time (time_cycle l * 1000000) t →
  let g := match last with None => true
           | Some s => s + time_cycle l * 1000000 <=? total_us t end in
  ∃ l', rl_trigger t l = Ret (g, l') ∧ time_cycle l' = time_cycle l ∧
        holds_last l' (if g then Some (total_us t) else last).
Proof.
  intros (Hc & (Hw & Hb & Hfit) & Hni & Hlast) Htc (Htw & Htb & Htf) g.
  unfold rl_trigger. rewrite Hc. simpl. rewrite (proj2 (Z.eqb_neq _ 0)), (proj2 (Z.ltb_lt 0 _)) by lia.
  cbn [andb]. unfold should_time_trigger, update_time.
  rewrite (proj2 (Z.ltb_lt 0 (time_cycle l))) by lia. cbn [fw_assert]. rewrite !outcome_bind_ret.
  destruct (from_seconds_useconds_ok (time_cycle l) 0) as (cy & -> & Hcw & Hcb & Hct);
    [unfold is_u; lia|lia|]. rewrite outcome_bind_ret.
  destruct (Time_add_spec (rl_time l) cy) as (nx & -> & Hnw & Hnb & _ & Hnt); [done|done|congruence|lia|].
  rewrite !outcome_bind_ret. rewrite time_ge_total by (done || congruence).
  assert ((total_us nx <=? total_us t) || time_at_negative_infinity l = g) as ->.
  { subst g. rewrite Hni, Hnt, Hct. destruct last as [s|]; simpl; [|apply orb_true_r].
    rewrite orb_false_r. f_equal. lia. }
  eexists. split; [done|]. split; [done|]. unfold holds_last, set_time. cbn.
  destruct g eqn:Eg.
  - split_and!; [done..|done|done].
  - subst g. destruct last as [s|]; [|done]. split_and!; done.
Qed.

(** Granted calls of a run, by time. *)
Fixpoint granted_times (ts : list Time) (gs : list bool) : list Z :=
  match ts, gs with
  | t :: ts', g :: gs' => (if g : bool then [total_us t] else []) ++ granted_times ts' gs'
  | _, _ => []
  end.

Fixpoint spaced (cyc : Z) (l : list Z) : Prop :=
  match l with
  | a :: (b :: _) as l' => a + cyc ≤ b ∧ spaced cyc l'
  | _ => True
  end.

Lemma spaced_grants_spaced cyc last ts :
  let l := granted_times ts (spaced_grants cyc last ts) in
  spaced cyc l ∧ ∀ s x, last = Some s → l !! 0%nat = Some x → s + cyc ≤ x.
Proof.
  revert last. induction ts as [|t ts IH]; intros last; [by split|]. cbn.
  destruct (match last with None => true | Some s => s + cyc <=? total_us t end) eqn:Eg; cbn.
  - destruct (IH (Some (total_us t))) as [Hs Hh]. split.
    + destruct (granted_times ts _) as [|x l]; [done|]. split; [by apply (Hh (total_us t))|done].
    + intros s x -> [= <-]. lia.
  - apply IH.
Qed.

(** A limiter with only a time cycle of [tc] seconds, called at any
    sequence of representable times: it never panics, grants exactly the
    first call and each later call at least [tc] seconds after the last
    granted one, so any two successive grants are at least [tc] seconds
    apart. *)
Theorem time_limiter_spacing `{BuildProfile} (tc : Z) (ts : list Time) :
  0 < tc < 2 ^ 32 - 1 → Forall (plain_time (tc * 1000000)) ts →
  ∃ l', trigger_times ts (RateLimiter_new 0 tc) = Ret (spaced_grants (tc * 1000000) None ts, l') ∧
        spaced (tc * 1000000) (granted_times ts (spaced_grants (tc * 1000000) None ts)).
Proof.
  intros Htc Hts. pose proof (spaced_grants_spaced (tc * 1000000) None ts) as [Hsp _].
  assert (holds_last (RateLimiter_new 0 tc) None) as Hl.
  { unfold holds_last, RateLimiter_new, plain_time. simpl. split_and!; try done.
    unfold total_us. simpl. lia. }
  enough (∀ l last, time_cycle l = tc → holds_last l last →
    ∃ l', trigger_times ts l = Ret (spaced_grants (tc * 1000000) last ts, l')) as Hg.
  { destruct (Hg (RateLimiter_new 0 tc) None eq_refl Hl) as (l' & E). by exists l'. }
  clear Hsp Hl. induction Hts as [|t ts Ht _ IH]; intros l last Hc Hl; [by eexists|].
  cbn [trigger_times spaced_grants]. rewrite <- Hc in Ht.
  destruct (rl_trigger_step t l last Hl ltac:(lia) Ht) as (l1 & -> & Hc1 & Hl1).
  rewrite outcome_bind_ret. rewrite Hc in *.
  destruct (IH l1 _ Hc1 Hl1) as (l' & ->). by eexists.
Qed.

Lemma time_limiter_spacing_witness :
  let ts := [MkTime TbNone 0 5 0; MkTime TbNone 0 6 999999; MkTime TbNone 0 7 0] in
  ∃ l', trigger_times (H := true) ts (RateLimiter_new 0 2) = Ret ([true; false; true], l') ∧
        spaced 2000000 [5000000; 7000000].
Proof.
  apply (time_limiter_spacing (H := true) 2
    [MkTime TbNone 0 5 0; MkTime TbNone 0 6 999999; MkTime TbNone 0 7 0]); [lia|].
  repeat constructor; simpl; unfold total_us; simpl; lia.
Defined.

(** * The token bucket *)

Record bucket_ok (b : TokenBucket) : Prop := {
  bk_interval : is_u 32 (replenish_interval b);
  bk_max : is_u 32 (max_tokens b);
  bk_rate : is_u 32 (replenish_rate b);
  bk_tokens : is_u 32 (tokens b);
  bk_time : plain_time (replenish_interval b) (tb_time b);
}.

(** [b'] differs from [b] by tokens gained at no more than the rate. *)
Record replenished (b b' : TokenBucket) (now : Time) : Prop := {
  rp_interval : replenish_interval b' = replenish_interval b;
  rp_max : max_tokens b' = max_tokens b;
  rp_rate : replenish_rate b' = replenish_rate b;
  rp_grow : tokens b ≤ tokens b';
  rp_cap : tokens b' = tokens b ∨ tokens b' ≤ max_tokens b;
  rp_budget : (tokens b' - tokens b) * replenish_interval b
              ≤ replenish_rate b * (total_us (tb_time b') - total_us (tb_time b));
  rp_forward : total_us (tb_time b) ≤ total_us (tb_time b');
  rp_until : tb_time b' = tb_time b ∨ total_us (tb_time b') ≤ total_us now;
}.

Lemma replenished_refl b now : replenished b b now.
Proof. constructor; auto; lia. Qed.

Lemma replenished_trans b b1 b2 now :
  replenished b b1 now → replenished b1 b2 now → replenished b b2 now.
Proof.
  intros [] []. constructor; try congruence; try lia.
  destruct rp_until0 as [Et|?], rp_until1 as [Et'|?]; rewrite ?Et', ?Et; auto.
Qed.

Lemma replenish_loop_ok `{BuildProfile} fuel interval now next b :
  bucket_ok b → 0 < replenish_rate b → plain_time (replenish_interval b) now →
  Time_wf interval → time_base interval = TbNone → total_us interval = replenish_interval b →
  Time_wf next → time_base next = TbNone →
  total_us next = total_us (tb_time b) + replenish_interval b →
  max_tokens b - tokens b ≤ Z.of_nat fuel →
  ∃ b', replenish_loop fuel interval now next b = Ret (Some b') ∧ replenished b b' now ∧
        bucket_ok b' ∧
        (tokens b < max_tokens b → total_us next ≤ total_us now → tokens b < tokens b') ∧
        (tokens b' < max_tokens b' → total_us now < total_us (tb_time b') + replenish_interval b').
Proof.
  revert next b. induction fuel as [|fuel IH]; intros next b Hb Hr Hnow Hiw Hib Hit Hnw Hnb Hnt Hfuel;
    pose proof Hb as [[? ?] [? ?] [? ?] [? ?] (? & ? & ?)]; destruct Hnow as (Hw & Hbase & Hlim);
    cbn [replenish_loop]; rewrite time_le_total by (done || congruence).
  - rewrite (proj2 (Z.ltb_ge (tokens b) (max_tokens b))) by lia. cbn. exists b.
    split_and!; [done|apply replenished_refl|done|lia|lia].
  - destruct (Z.ltb_spec (tokens b) (max_tokens b)); cbn [andb].
    2: { exists b. split_and!; [done|apply replenished_refl|done|lia|lia]. }
    destruct (Z.leb_spec (total_us next) (total_us now)).
    2: { exists b. split_and!; [done|apply replenished_refl|done|lia|lia]. }
    set (gain := replenish_rate b `min` (max_tokens b - tokens b)).
    assert (1 ≤ gain ≤ replenish_rate b ∧ gain ≤ max_tokens b - tokens b) as Hgain by lia.
    unfold sub_w, add_w. rewrite overflowing_in, outcome_bind_ret by (unfold is_u; lia).
    fold gain. rewrite overflowing_in, outcome_bind_ret by (unfold is_u; lia).
    destruct (Time_add_spec next interval) as (n2 & -> & Hn2w & Hn2b & _ & Hn2t);
      [done|done|congruence|lia|]. rewrite outcome_bind_ret.
    set (b1 := set_state (tokens b + gain) next b).
    assert (bucket_ok b1) as Hb1.
    { constructor; unfold is_u, b1, plain_time; cbn; try lia. split_and!; [done|done|lia]. }
    assert (replenished b b1 now) as Hrep.
    { constructor; unfold b1; cbn; try lia. nia. }
    destruct (IH n2 b1) as (b' & -> & Hrep' & Hb' & _ & Hx); try done; unfold b1; cbn; try congruence; try lia.
    exists b'. split_and!; [done|by eapply replenished_trans|done| |done].
    intros _ _. apply rp_grow in Hrep'. unfold b1 in Hrep'. cbn in Hrep'. lia.
Qed.

(** What one call does: tokens are conserved up to the replenishing rate, and
    the call is granted iff a token is left or can be replenished. *)
Record triggered (b : TokenBucket) (now : Time) (g : bool) (b' : TokenBucket) : Prop := {
  tr_ok : bucket_ok b';
  tr_interval : replenish_interval b' = replenish_interval b;
  tr_max : max_tokens b' = max_tokens b;
  tr_rate : replenish_rate b' = replenish_rate b;
  tr_cap : tokens b' + (if g then 1 else 0) ≤ tokens b `max` max_tokens b;
  tr_budget : (tokens b' + (if g then 1 else 0) - tokens b) * replenish_interval b
              ≤ replenish_rate b * (total_us (tb_time b') - total_us (tb_time b));
  tr_until : total_us (tb_time b) ≤ total_us (tb_time b')
             ≤ total_us (tb_time b) `max` total_us now;
  tr_granted : g = true ↔
    0 < tokens b ∨ (0 < replenish_rate b ∧ 0 < max_tokens b ∧
                    total_us (tb_time b) + replenish_interval b ≤ total_us now);
}.

(** The replenishing part of [trigger]. *)
Lemma tb_replenish_ok `{BuildProfile} now b :
  bucket_ok b → 0 < replenish_rate b → plain_time (replenish_interval b) now →
  ∃ interval next b',
    from_seconds_useconds (replenish_interval b / 1000000) (replenish_interval b mod 1000000)
      = Ret interval ∧
    Time_add (tb_time b) interval = Ret next ∧
    replenish_loop (Z.to_nat (max_tokens b - tokens b)) interval now next b = Ret (Some b') ∧
    replenished b b' now ∧ bucket_ok b' ∧
    (tokens b < max_tokens b → total_us (tb_time b) + replenish_interval b ≤ total_us now →
     tokens b < tokens b') ∧
    (tokens b < tokens b' → total_us (tb_time b) + replenish_interval b ≤ total_us now).
Proof.
  intros Hb Hr Hnow. pose proof Hb as [[Hi1 Hi2] ? ? ? (Htw & Htb & Htl)].
  pose proof (Z.div_mod (replenish_interval b) 1000000 ltac:(lia)) as Hdm.
  pose proof (Z.mod_pos_bound (replenish_interval b) 1000000 ltac:(lia)) as Hmb.
  destruct (from_seconds_useconds_ok (replenish_interval b / 1000000) (replenish_interval b mod 1000000))
    as (iv & Ei & Hiw & Hib & Hit); [|done|].
  { split; [apply Z.div_pos; lia|]. nia. }
  assert (total_us iv = replenish_interval b) as Hiv by lia.
  destruct (Time_add_spec (tb_time b) iv) as (nx & En & Hnw & Hnb & _ & Hnt);
    [done|done|congruence|lia|].
  destruct (replenish_loop_ok (Z.to_nat (max_tokens b - tokens b)) iv now nx b)
    as (b' & E & Hrep & Hb' & Hgain & _); try done; try congruence; try lia.
  exists iv, nx, b'. split_and!; try done.
  - intros ? ?. apply Hgain; lia.
  - intros Hlt. destruct (decide (total_us (tb_time b) + replenish_interval b ≤ total_us now)) as [|Hno];
      [done|]. exfalso.
    enough (b' = b) as -> by lia.
    revert E. destruct Hnow as (? & ? & ?). destruct (Z.to_nat _); cbn [replenish_loop];
      rewrite time_le_total by (done || congruence);
      rewrite (proj2 (Z.leb_gt (total_us nx) (total_us now))) by lia; rewrite andb_false_r; congruence.
Qed.

Lemma tb_trigger_ok `{BuildProfile} now b :
  bucket_ok b → plain_time (replenish_interval b) now →
  ∃ g b', tb_trigger now b = Ret (Some (g, b')) ∧ triggered b now g b'.
Proof.
  intros Hb Hnow. unfold tb_trigger.
  assert (∃ b2, (if 0 <? replenish_rate b then
      interval ← from_seconds_useconds (replenish_interval b / 1000000) (replenish_interval b mod 1000000);
      next_time ← Time_add (tb_time b) interval;
      r ← replenish_loop (Z.to_nat (max_tokens b - tokens b)) interval now next_time b;
      Ret (match r with
           | None => None
           | Some b' => Some (if (max_tokens b' <=? tokens b') && time_lt (tb_time b') now
                              then set_state (tokens b') now b' else b')
           end)
    else Ret (Some b)) = Ret (Some b2) ∧ replenished b b2 now ∧ bucket_ok b2 ∧
    (0 < tokens b2 ↔ 0 < tokens b ∨ (0 < replenish_rate b ∧ 0 < max_tokens b ∧
                    total_us (tb_time b) + replenish_interval b ≤ total_us now)))
    as (b2 & -> & Hrep & Hb2 & Hpos).
  { destruct (Z.ltb_spec 0 (replenish_rate b)) as [Hr|Hr].
    2: { exists b. split_and!; [done|apply replenished_refl|done|lia]. }
    destruct (tb_replenish_ok now b Hb Hr Hnow) as (iv & nx & b1 & -> & E2 & E3 & Hrep & Hb1 & Hg & Hg').
    rewrite outcome_bind_ret, E2, outcome_bind_ret, E3, outcome_bind_ret.
    destruct Hnow as (Hw & Hbase & Hlim). pose proof Hb as [_ _ _ [? _] _].
    pose proof Hb1 as [? ? ? ? (? & ? & ?)].
    assert (0 < tokens b1 ↔ 0 < tokens b ∨ (0 < replenish_rate b ∧ 0 < max_tokens b ∧
                    total_us (tb_time b) + replenish_interval b ≤ total_us now)) as Hpos.
    { pose proof (rp_grow _ _ _ Hrep). pose proof (rp_cap _ _ _ Hrep).
      split; [|intros [?|(? & ? & ?)]; [lia|]].
      - intros ?. destruct (decide (0 < tokens b)); [by left|right]. split_and!; [done|lia|].
        apply Hg'. lia.
      - destruct (decide (0 < tokens b)); [lia|]. specialize (Hg ltac:(lia) ltac:(done)). lia. }
    eexists. split; [done|].
    destruct (_ && _) eqn:Ec; [|done]. apply andb_true_iff in Ec as [_ Ec].
    rewrite time_lt_total in Ec by (done || congruence). apply Z.ltb_lt in Ec. split_and!; [| |done].
    - destruct Hrep. constructor; cbn; try done; try lia. nia.
    - constructor; cbn; try done. by rewrite (rp_interval _ _ _ Hrep). }
  rewrite outcome_bind_ret. pose proof Hb as [? ? ? [? ?] ?]. pose proof Hb2 as [? ? ? [? ?] ?].
  pose proof (rp_cap _ _ _ Hrep). pose proof (rp_grow _ _ _ Hrep).
  destruct Hrep. destruct (Z.ltb_spec 0 (tokens b2)).
  - unfold sub_w. rewrite overflowing_in, outcome_bind_ret by (unfold is_u; lia).
    eexists _, _. split; [done|]. constructor; cbn; try done; try lia.
    + constructor; cbn; try done. unfold is_u. lia.
    + destruct rp_until0 as [->|]; lia.
  - eexists _, _. split; [done|]. constructor; cbn; try done; try lia.
    destruct rp_until0 as [->|]; lia.
Qed.

Fixpoint trigger_bucket `{BuildProfile} (ts : list Time) (b : TokenBucket)
    : outcome (option (list bool * TokenBucket)) :=
  match ts with
  | [] => Ret (Some ([], b))
  | t :: ts' =>
      r ← tb_trigger t b;
      match r with
      | None => Ret None
      | Some (g, b') =>
          r' ← trigger_bucket ts' b';
          Ret (match r' with None => None | Some (gs, b'') => Some (g :: gs, b'') end)
      end
  end.

Definition grants (gs : list bool) : Z := Z.of_nat (length (filter (λ g : bool, g = true) gs)).

(** A call on a token bucket returns (the replenishing loop terminates
    within the missing tokens, without overflow) and is granted iff a token
    is in the bucket, or the bucket can hold one and a replenish interval has
    passed since the stored instant; it never leaves the bucket above the
    larger of its old level and its maximum. *)
Theorem token_bucket_grant_exact `{BuildProfile} (b : TokenBucket) (now : Time) :
  bucket_ok b → plain_time (replenish_interval b) now →
  ∃ g b', tb_trigger now b = Ret (Some (g, b')) ∧ bucket_ok b' ∧
    (g = true ↔ 0 < tokens b ∨
       (0 < replenish_rate b ∧ 0 < max_tokens b ∧
        total_us (tb_time b) + replenish_interval b ≤ total_us now)) ∧
    tokens b' ≤ tokens b `max` max_tokens b.
Proof.
  intros Hb Hn. destruct (tb_trigger_ok now b Hb Hn) as (g & b' & E & []).
  exists g, b'. split_and!; try done. destruct g; lia.
Qed.

Lemma token_bucket_grant_exact_witness :
  let b := with_state 1500000 4 2 0 (MkTime TbNone 0 10 0) in
  let now := MkTime TbNone 0 11 500000 in
  ∃ g b', tb_trigger (H := true) now b = Ret (Some (g, b')) ∧ bucket_ok b' ∧
    (g = true ↔ 0 < tokens b ∨
       (0 < replenish_rate b ∧ 0 < max_tokens b ∧
        total_us (tb_time b) + replenish_interval b ≤ total_us now)) ∧
    tokens b' ≤ tokens b `max` max_tokens b.
Proof.
  apply (token_bucket_grant_exact (H := true) (with_state 1500000 4 2 0 (MkTime TbNone 0 10 0))
           (MkTime TbNone 0 11 500000)).
  - constructor; fp_decide.
  - fp_decide.
Defined.

(** Rate conformance of the token bucket: over any sequence of calls at
    times up to [tmax], in any order, the calls granted cost no more than the
    initial tokens and the replenishing rate allow:
    [grants * interval <= tokens * interval + rate * elapsed]. *)
Theorem token_bucket_conforms `{BuildProfile} (b : TokenBucket) (ts : list Time) (tmax : Z) :
  bucket_ok b → Forall (plain_time (replenish_interval b)) ts →
  total_us (tb_time b) ≤ tmax → Forall (λ t, total_us t ≤ tmax) ts →
  ∃ gs b', trigger_bucket ts b = Ret (Some (gs, b')) ∧
    grants gs * replenish_interval b
      ≤ tokens b * replenish_interval b + replenish_rate b * (tmax - total_us (tb_time b)).
Proof.
  intros Hb Hts H0 Hmax.
  enough (∃ gs b', trigger_bucket ts b = Ret (Some (gs, b')) ∧ bucket_ok b' ∧
    (grants gs + tokens b') * replenish_interval b
      ≤ tokens b * replenish_interval b + replenish_rate b * (total_us (tb_time b') - total_us (tb_time b)) ∧
    total_us (tb_time b') ≤ tmax) as (gs & b' & E & [? ? ? [? ?] ?] & Hle & Hm).
  { exists gs, b'. split; [done|]. destruct Hb as [[? ?] ? [? ?] ? ?]. nia. }
  revert b Hb H0 Hts. induction Hmax as [|t ts Ht _ IH]; intros b Hb H0 Hts.
  { exists [], b. split_and!; [done..| |done]. unfold grants. cbn. lia. }
  apply Forall_cons in Hts as [Htp Hts].
  destruct (tb_trigger_ok t b Hb Htp) as (g & b1 & E & []).
  destruct (IH b1) as (gs & b2 & E2 & Hb2 & Hle & Hm); [done|lia|by rewrite tr_interval0|].
  exists (g :: gs), b2. cbn [trigger_bucket]. rewrite E, outcome_bind_ret, E2, outcome_bind_ret.
  split_and!; [done..| |done]. rewrite tr_interval0, tr_rate0 in Hle.
  assert (grants (g :: gs) = (if g then 1 else 0) + grants gs) as ->.
  { unfold grants. rewrite filter_cons. destruct g; cbn [decide]; [|done].
    rewrite decide_True by done. cbn [length]. lia. }
  lia.
Qed.

Lemma token_bucket_conforms_witness :
  let b := with_state 1000000 3 1 3 (MkTime TbNone 0 10 0) in
  let ts := [MkTime TbNone 0 10 0; MkTime TbNone 0 10 5; MkTime TbNone 0 11 0; MkTime TbNone 0 12 0] in
  ∃ gs b', trigger_bucket (H := true) ts b = Ret (Some (gs, b')) ∧
    grants gs * 1000000 ≤ 3 * 1000000 + 1 * (12000000 - 10000000).
Proof.
  apply (token_bucket_conforms (H := true) (with_state 1000000 3 1 3 (MkTime TbNone 0 10 0))
    [MkTime TbNone 0 10 0; MkTime TbNone 0 10 5; MkTime TbNone 0 11 0; MkTime TbNone 0 12 0] 12000000).
  - constructor; fp_decide.
  - repeat constructor; simpl; unfold total_us; simpl; lia.
  - unfold total_us. simpl. lia.
  - repeat constructor; unfold total_us; simpl; lia.
Defined.
