(* ===== verification/Comp.v ===== *)
(** The component layer shared by the services: handlers run to completion
    on the caller's thread, change the component's state, may panic and emit
    port calls and events in order ([crates/fprime-comp/src/glue.rs],
    [port.rs]).

    [CompM S O A] threads the state [S], appends to the trace of outputs [O]
    and stops at a panic.  The buffer allocator a component is connected to
    is another component: it is a parameter, with what clients rely on stated
    by [AllocatorLaws]. *)

From S2P Require Import Prelude Serial SerialFacts Buffer.

(** * Handlers *)

Definition CompM (S O A : Type) : Type := S → outcome (A * S * list O).

Section comp.
Context {S O : Type}.

#[global] Instance CompM_ret : MRet (CompM S O) := λ A a s, Ret (a, s, []).
#[global] Instance CompM_bind : MBind (CompM S O) := λ A B f m s,
  match m s with
  | Panic => Panic
  | Ret (a, s1, o1) =>
      match f a s1 with
      | Panic => Panic
      | Ret (b, s2, o2) => Ret (b, s2, o1 ++ o2)
      end
  end.

(** Invoke an output port or log an event. *)
Definition emit (o : O) : CompM S O unit := λ s, Ret (tt, s, [o]).
Definition get_state : CompM S O S := λ s, Ret (s, s, []).
Definition put_state (s : S) : CompM S O unit := λ _, Ret (tt, s, []).
Definition modify_state (f : S → S) : CompM S O unit := λ s, Ret (tt, f s, []).
(** Code that may panic but emits nothing. *)
Definition lift {A} (m : outcome A) : CompM S O A := λ s,
  match m with Ret a => Ret (a, s, []) | Panic => Panic end.
Definition assert (b : bool) : CompM S O unit := lift (fw_assert b).
Definition when (b : bool) (m : CompM S O unit) : CompM S O unit := if b then m else mret tt.

Lemma comp_bind_ret {A B} (m : CompM S O A) (f : A → CompM S O B) s a s1 o1 :
  m s = Ret (a, s1, o1) →
  (m ≫= f) s = match f a s1 with Panic => Panic | Ret (b, s2, o2) => Ret (b, s2, o1 ++ o2) end.
Proof. intros E. unfold mbind, CompM_bind. by rewrite E. Qed.

Lemma comp_bind_quiet {A B} (m : CompM S O A) (f : A → CompM S O B) s a s1 :
  m s = Ret (a, s1, []) → (m ≫= f) s = f a s1.
Proof. intros E. rewrite (comp_bind_ret _ _ _ _ _ _ E). by destruct (f a s1) as [[[? ?] ?]|]. Qed.

Lemma comp_map {A B} (m : CompM S O A) (f : A → B) s :
  (a ← m; mret (f a)) s = match m s with Panic => Panic | Ret (a, s1, o1) => Ret (f a, s1, o1) end.
Proof. unfold mbind, CompM_bind. destruct (m s) as [[[a s1] o1]|]; [|done]. cbn. by rewrite app_nil_r. Qed.

Lemma comp_lift_ok {A B} (m : outcome A) (f : A → CompM S O B) s a :
  m = Ret a → (lift m ≫= f) s = f a s.
Proof. intros ->. by apply comp_bind_quiet. Qed.

Lemma comp_assert_ok {B} (b : bool) (f : unit → CompM S O B) s :
  b = true → (assert b ≫= f) s = f tt s.
Proof. intros ->. by apply comp_bind_quiet. Qed.

Lemma comp_emit {B} (o : O) (f : unit → CompM S O B) s :
  (emit o ≫= f) s = match f tt s with Panic => Panic | Ret (b, s2, o2) => Ret (b, s2, o :: o2) end.
Proof. done. Qed.
End comp.

(** * Weakest preconditions

    [wp m s Q]: from state [s], [m] does not panic and its result, state and
    outputs satisfy [Q]. *)

Section wp.
Context {S O : Type}.
Local Notation M := (CompM S O).

Definition wp {A} (m : M A) (s : S) (Q : A → S → list O → Prop) : Prop :=
  match m s with Ret (a, s', o) => Q a s' o | Panic => False end.

Lemma wp_ret {A} (a : A) s (Q : A → S → list O → Prop) : Q a s [] → wp (mret a : M A) s Q.
Proof. done. Qed.
Lemma wp_mono {A} (m : M A) s (Q Q' : A → S → list O → Prop) : wp m s Q → (∀ a s' o, Q a s' o → Q' a s' o) → wp m s Q'.
Proof. unfold wp. intros H HQ. destruct (m s) as [[[a s'] o]|]; [|done]. by apply HQ. Qed.
Lemma wp_and {A} (m : M A) s (Q Q' : A → S → list O → Prop) : wp m s Q → wp m s Q' → wp m s (λ a s' o, Q a s' o ∧ Q' a s' o).
Proof. unfold wp. by destruct (m s) as [[[a s'] o]|]. Qed.
Lemma wp_bind {A B} (m : M A) (f : A → M B) s (Q : B → S → list O → Prop) :
  wp m s (λ a s' o, wp (f a) s' (λ b s'' o', Q b s'' (o ++ o'))) → wp (m ≫= f) s Q.
Proof.
  unfold wp, mbind, CompM_bind. destruct (m s) as [[[a s'] o]|]; [|done]. by destruct (f a s') as [[[b s''] o']|].
Qed.
Lemma wp_get {B} (f : S → M B) s (Q : B → S → list O → Prop) : wp (f s) s Q → wp (get_state ≫= f) s Q.
Proof. unfold wp. by rewrite (comp_bind_quiet get_state f s s s eq_refl). Qed.
Lemma wp_put {B} (t : S) (f : unit → M B) s (Q : B → S → list O → Prop) : wp (f tt) t Q → wp (put_state t ≫= f) s Q.
Proof. unfold wp. by rewrite (comp_bind_quiet (put_state t) f s tt t eq_refl). Qed.
Lemma wp_modify {B} (g : S → S) (f : unit → M B) s (Q : B → S → list O → Prop) : wp (f tt) (g s) Q → wp (modify_state g ≫= f) s Q.
Proof. unfold wp. by rewrite (comp_bind_quiet (modify_state g) f s tt (g s) eq_refl). Qed.
Lemma wp_lift {A B} (m : outcome A) a (f : A → M B) s (Q : B → S → list O → Prop) :
  m = Ret a → wp (f a) s Q → wp (lift m ≫= f) s Q.
Proof. intros E. unfold wp. by rewrite (comp_lift_ok _ _ _ _ E). Qed.
Lemma wp_assert {B} (b : bool) (f : unit → M B) s (Q : B → S → list O → Prop) :
  b = true → wp (f tt) s Q → wp (assert b ≫= f) s Q.
Proof. intros E. unfold wp. by rewrite (comp_assert_ok _ _ _ E). Qed.
Lemma wp_emit {B} (o : O) (f : unit → M B) s (Q : B → S → list O → Prop) :
  wp (f tt) s (λ b s' o', Q b s' (o :: o')) → wp (emit o ≫= f) s Q.
Proof. unfold wp. rewrite comp_emit. by destruct (f tt s) as [[[b s'] o']|]. Qed.
Lemma wp_put_last (t s : S) (Q : unit → S → list O → Prop) : Q tt t [] → wp (put_state t) s Q.
Proof. done. Qed.
Lemma wp_modify_last (g : S → S) s (Q : unit → S → list O → Prop) : Q tt (g s) [] → wp (modify_state g) s Q.
Proof. done. Qed.
Lemma wp_emit_last (o : O) s (Q : unit → S → list O → Prop) : Q tt s [o] → wp (emit o) s Q.
Proof. done. Qed.
Lemma wp_returns {A} (m : M A) s (Q : A → S → list O → Prop) : wp m s Q ↔ ∃ a s' o, m s = Ret (a, s', o) ∧ Q a s' o.
Proof. unfold wp. destruct (m s) as [[[a s'] o]|]; naive_solver. Qed.
End wp.

(** Run the plain steps of a handler. *)
Ltac wp_step :=
  lazymatch goal with
  | |- wp (mret _) _ _ => apply wp_ret
  | |- wp (get_state ≫= _) _ _ => apply wp_get
  | |- wp (put_state _ ≫= _) _ _ => apply wp_put
  | |- wp (modify_state _ ≫= _) _ _ => apply wp_modify
  | |- wp (emit _ ≫= _) _ _ => apply wp_emit
  | |- wp (put_state _) _ _ => apply wp_put_last
  | |- wp (modify_state _) _ _ => apply wp_modify_last
  | |- wp (emit _) _ _ => apply wp_emit_last
  | |- wp ((_ ≫= _) ≫= _) _ _ => apply wp_bind
  end.
Ltac wp_steps := repeat (wp_step; cbv beta zeta).

(** * Command arguments *)

Section args.
Context {S O : Type}.

(** A call on the argument buffer, which is local to the handler. *)
Definition on_args {A} (m : SerM A) (args : serbuf) : CompM S O (option A * serbuf) :=
  match m args with
  | (SOk a, args') => mret (Some a, args')
  | (SErr _, args') => mret (None, args')
  | (SPanic, _) => lift Panic
  end.
Definition size_left (args : serbuf) : CompM S O nat :=
  match deserialize_size_left args with (SOk n, _) => mret n | _ => lift Panic end.

Lemma size_left_wp {B} args (k : nat → CompM S O B) s (Q : B → S → list O → Prop) :
  wf args → wp (k (ser_loc args - deser_loc args)) s Q → wp (n ← size_left args; k n) s Q.
Proof.
  intros Hw Hk. unfold size_left, deserialize_size_left. rewrite bool_decide_eq_true_2 by apply Hw. by apply wp_bind, wp_ret.
Qed.

Lemma on_args_wp {A B} (m : SerM A) (P : A → Prop) args (k : option A * serbuf → CompM S O B) s (Q : B → S → list O → Prop) :
  yields m P → wf args →
  (match m args with (SOk a, args') => P a → wf args' → wp (k (Some a, args')) s Q | (_, args') => wp (k (None, args')) s Q end) →
  wp (x ← on_args m args; k x) s Q.
Proof.
  intros Hy Hw Hk. unfold on_args. specialize (Hy args Hw). destruct (m args) as [[a|st|] args']; [|by apply wp_bind, wp_ret|done].
  destruct Hy. apply wp_bind, wp_ret. cbn. by apply Hk.
Qed.
End args.

(** * Event throttles *)

Record EventThrottle : Set := MkThrottle { th_count : Z; th_limit : Z }.

Definition EventThrottle_new (limit : Z) : EventThrottle := MkThrottle 0 limit.

(** [ok_to_emit]: the atomic read-modify-write. *)
Definition ok_to_emit (t : EventThrottle) : bool * EventThrottle :=
  if (th_limit t <=? th_count t)%Z then (false, t)
  else (true, MkThrottle (th_count t + 1) (th_limit t)).

Definition throttle_clear (t : EventThrottle) : EventThrottle := MkThrottle 0 (th_limit t).

(** * The buffer allocator behind [bufferAllocate] *)

Class Allocator (A : Type) : Type := alloc_get : nat → A → Buffer * A.

(** What its clients rely on: the window of a buffer lies in its storage, and
    a valid buffer is as large as requested. *)
Class AllocatorLaws (A : Type) `{Allocator A} : Prop := {
  alloc_ok : ∀ n a, buffer_ok (alloc_get n a).1;
  alloc_size : ∀ n a, is_valid (alloc_get n a).1 = true → n ≤ size (alloc_get n a).1;
}.

(** An allocator that does not run out. *)
Class AllocatorLive (A : Type) `{AllocatorLaws A} : Prop :=
  alloc_valid : ∀ n a, 0 < n → is_valid (alloc_get n a).1 = true.
