(* ===== verification/TlmChan.v ===== *)
(** The telemetry channel store [Svc::TlmChan],
    [crates/fprime-svc/src/tlm_chan.rs]: the latest value of every channel, in
    two hash tables of chained buckets; producers write the active one while
    the other is sent down.  The specification is a list of channels in the
    order they were first seen. *)

From stdpp Require Import list.
From S2P Require Import Prelude Serial SerialFacts Codec Time Fpp Packets Comp.

(** * Data *)

Definition NUM_TLM_HASH_SLOTS : nat := 15.
Definition HASH_BUCKETS : nat := 500.
Definition MAX_ENTRIES_PER_RUN : nat := HASH_BUCKETS.
Definition MURMUR3_C1 : Z := 0x85EBCA6B.
Definition MURMUR3_C2 : Z := 0xC2B2AE35.
Definition BUCKET_POOL_EXHAUSTED_THROTTLE : Z := 10.

(** A bucket; its number, kept for tests only, is left out. *)
Record TlmBucket : Set := MkBucket {
  b_id : Z;
  b_updated : bool;
  b_last_update : Time;
  b_buffer : serbuf;
  b_next : option nat;
  b_used : bool;
}.

Record TlmSet : Set := MkSet {
  slots : list (option nat);
  buckets : list TlmBucket;
  free : nat;
}.

Definition TlmSet_new : TlmSet :=
  MkSet (replicate NUM_TLM_HASH_SLOTS None)
    (replicate HASH_BUCKETS (MkBucket 0 false Time_ZERO (linear_buffer_new FW_TLM_BUFFER_MAX_SIZE) None false)) 0.

(** [connected]: whether [PktSend] and [pingOut] are. *)
Record TlmChan : Set := MkTlmChan {
  sets : list TlmSet;
  active : nat;
  proc_cap_count : Z;
  bucket_pool_throttle : EventThrottle;
  hash_seed : Z;
  pkt_send_connected : bool;
  ping_out_connected : bool;
}.

Definition TlmChan_new_with_seed (pkt ping : bool) (hash_seed : Z) : TlmChan :=
  MkTlmChan [TlmSet_new; TlmSet_new] 0 0 (EventThrottle_new BUCKET_POOL_EXHAUSTED_THROTTLE) hash_seed pkt ping.

Inductive TlmOut : Set :=
| TlPktSend (b : serbuf)
| TlPingOut (key : Z)
| TlBucketPoolExhausted (id : Z)
| TlCapReached (deferred cumulative : Z).

(** * The hash *)

Definition xorshift (h n : Z) : Z := Z.lxor h (Z.shiftr h n).
Definition do_hash (seed id : Z) : nat :=
  let h := Z.lxor id seed in
  let h := xorshift h 16 in
  let h := wrap 32 (h * MURMUR3_C1) in
  let h := xorshift h 13 in
  let h := wrap 32 (h * MURMUR3_C2) in
  let h := xorshift h 16 in
  Z.to_nat (h mod Z.of_nat NUM_TLM_HASH_SLOTS).

(** * Operations on one store *)

Definition with_next (n : option nat) (b : TlmBucket) : TlmBucket :=
  MkBucket (b_id b) (b_updated b) (b_last_update b) (b_buffer b) n (b_used b).
Definition with_updated (u : bool) (b : TlmBucket) : TlmBucket :=
  MkBucket (b_id b) u (b_last_update b) (b_buffer b) (b_next b) (b_used b).
Definition with_value (id : Z) (t : Time) (v : serbuf) (b : TlmBucket) : TlmBucket :=
  MkBucket id true t v (b_next b) true.
Definition set_buckets (bs : list TlmBucket) (s : TlmSet) : TlmSet := MkSet (slots s) bs (free s).

(** [set.buckets[i]] updated in place. *)
Definition bucket_update (i : nat) (f : TlmBucket → TlmBucket) (s : TlmSet) : outcome TlmSet :=
  b ← index_get (buckets s) i;
  bs ← index_set i (f b) (buckets s);
  Ret (set_buckets bs s).

(** The walk down a chain in [tlm_recv_handler]: the bucket to use, whether
    the pool is exhausted, and the store. *)
Fixpoint recv_walk (fuel : nat) (id : Z) (prev : nat) (cur : option nat) (s : TlmSet)
    : outcome (option nat * bool * TlmSet) :=
  match fuel with
  | O => Ret (None, false, s)
  | S fuel' =>
      match cur with
      | Some i =>
          b ← index_get (buckets s) i;
          if (b_id b =? id)%Z then Ret (Some i, false, s)
          else recv_walk fuel' id i (b_next b) s
      | None =>
          if bool_decide (HASH_BUCKETS ≤ free s) then Ret (None, true, s)
          else
            let new_idx := free s in
            let s1 := MkSet (slots s) (buckets s) (free s + 1) in
            s2 ← bucket_update prev (with_next (Some new_idx)) s1;
            s3 ← bucket_update new_idx (with_next None) s2;
            Ret (Some new_idx, false, s3)
      end
  end.

Definition recv_bucket (index : nat) (id : Z) (s : TlmSet) : outcome (option nat * bool * TlmSet) :=
  slot ← index_get (slots s) index;
  match slot with
  | Some head => recv_walk (HASH_BUCKETS + 1) id head (Some head) s
  | None =>
      if bool_decide (HASH_BUCKETS ≤ free s) then Ret (None, true, s)
      else
        let new_idx := free s in
        sl ← index_set index (Some new_idx) (slots s);
        s1 ← bucket_update new_idx (with_next None) (MkSet sl (buckets s) (free s + 1));
        Ret (Some new_idx, false, s1)
  end.

(** [find_entry]. *)
Fixpoint find_walk (fuel : nat) (id : Z) (cur : option nat) (s : TlmSet) : outcome (option nat) :=
  match fuel with
  | O => Ret None
  | S fuel' =>
      match cur with
      | Some i =>
          b ← index_get (buckets s) i;
          if (b_id b =? id)%Z then Ret (Some i) else find_walk fuel' id (b_next b) s
      | None => Ret None
      end
  end.
Definition find_entry (s : TlmSet) (index : nat) (id : Z) : outcome (option nat) :=
  slot ← index_get (slots s) index;
  find_walk HASH_BUCKETS id slot s.

(** * Handlers *)

Abbreviation M := (CompM TlmChan TlmOut).

Definition set_sets (ss : list TlmSet) (c : TlmChan) : TlmChan :=
  MkTlmChan ss (active c) (proc_cap_count c) (bucket_pool_throttle c) (hash_seed c) (pkt_send_connected c) (ping_out_connected c).
Definition set_active (a : nat) (c : TlmChan) : TlmChan :=
  MkTlmChan (sets c) a (proc_cap_count c) (bucket_pool_throttle c) (hash_seed c) (pkt_send_connected c) (ping_out_connected c).
Definition set_count (n : Z) (c : TlmChan) : TlmChan :=
  MkTlmChan (sets c) (active c) n (bucket_pool_throttle c) (hash_seed c) (pkt_send_connected c) (ping_out_connected c).
Definition set_throttle (t : EventThrottle) (c : TlmChan) : TlmChan :=
  MkTlmChan (sets c) (active c) (proc_cap_count c) t (hash_seed c) (pkt_send_connected c) (ping_out_connected c).

Definition get_set (k : nat) : M TlmSet := c ← get_state; lift (index_get (sets c) k).
Definition put_set (k : nat) (s : TlmSet) : M unit :=
  c ← get_state;
  ss ← lift (index_set k s (sets c));
  modify_state (set_sets ss).

Definition tlm_recv_handler (id : Z) (time_tag : Time) (val : serbuf) : M unit :=
  c ← get_state;
  let index := do_hash (hash_seed c) id in
  s ← get_set (active c);
  '(entry_to_use, exhausted, s1) ← lift (recv_bucket index id s);
  _ ← (match entry_to_use with
       | Some i => s2 ← lift (bucket_update i (with_value id time_tag val) s1); put_set (active c) s2
       | None => _ ← put_set (active c) s1; assert exhausted
       end);
  if exhausted : bool then
    c ← get_state;
    let '(ok, th) := ok_to_emit (bucket_pool_throttle c) in
    _ ← modify_state (set_throttle th);
    when ok (emit (TlBucketPoolExhausted id))
  else mret tt.

(** The result with the two [&mut] arguments after the call. *)
Definition tlm_get_handler (id : Z) (time_tag : Time) (val : serbuf) : M (TlmValid * Time * serbuf) :=
  c ← get_state;
  let index := do_hash (hash_seed c) id in
  active_set ← get_set (active c);
  inactive_set ← get_set (1 - active c);
  active_hit ← lift (find_entry active_set index id);
  inactive_hit ← lift (find_entry inactive_set index id);
  chosen ← (match active_hit, inactive_hit with
            | Some a, Some i =>
                active_entry ← lift (index_get (buckets active_set) a);
                inactive_entry ← lift (index_get (buckets inactive_set) i);
                mret (Some (match compare (b_last_update inactive_entry) (b_last_update active_entry) with
                            | Gt => inactive_entry
                            | Incomparable => if b_updated inactive_entry then inactive_entry else active_entry
                            | _ => active_entry
                            end))
            | Some a, None => e ← lift (index_get (buckets active_set) a); mret (Some e)
            | None, Some i => e ← lift (index_get (buckets inactive_set) i); mret (Some e)
            | None, None => mret None
            end);
  match chosen with
  | Some entry => mret (TlmValid_Valid, b_last_update entry, b_buffer entry)
  | None => mret (TlmInvalid, time_tag, (reset_ser val).2)
  end.

(** ** Run *)

(** What the drain loop keeps: the bucket looked at, the packet being filled
    and the two counters. *)
Record RunCtx : Set := MkRunCtx {
  rc_idx : nat;
  rc_pkt : TlmPacket;
  rc_processed : nat;
  rc_deferred : Z;
}.

(** A packet operation whose only accepted result is success. *)
Definition pkt_reset (p : TlmPacket) : M TlmPacket :=
  match reset_pkt_ser p with
  | (SOk _, p') => mret p'
  | (SErr _, _) => lift Panic
  | (SPanic, _) => lift Panic
  end.

(** The swap, and the flags of the store that becomes active. *)
Definition run_begin : M RunCtx :=
  c ← get_state;
  let a := 1 - active c in
  _ ← modify_state (set_active a);
  s ← get_set a;
  _ ← put_set a (set_buckets (with_updated false <$> buckets s) s);
  pkt ← pkt_reset TlmPacket_new;
  mret (MkRunCtx 0 pkt 0 0).

(** One turn of the inner loop, under one lock: leave the bucket (deferred,
    sent or nothing to send), or send a full packet and try again. *)
Definition drain_turn (cap : nat) (x : RunCtx) : M RunCtx :=
  c ← get_state;
  let inactive := 1 - active c in
  s ← get_set inactive;
  b ← lift (index_get (buckets s) (rc_idx x));
  if negb (b_updated b && b_used b) then mret (MkRunCtx (rc_idx x + 1) (rc_pkt x) (rc_processed x) (rc_deferred x))
  else if bool_decide (cap ≤ rc_processed x) then
    mret (MkRunCtx (rc_idx x + 1) (rc_pkt x) (rc_processed x) (rc_deferred x + 1))
  else
    match add_value (b_id b) (b_last_update b) (b_buffer b) (rc_pkt x) with
    | (SOk _, pkt) =>
        s' ← lift (bucket_update (rc_idx x) (with_updated false) s);
        _ ← put_set inactive s';
        mret (MkRunCtx (rc_idx x + 1) pkt (rc_processed x + 1) (rc_deferred x))
    | (SErr NoRoomLeft, pkt) =>
        _ ← assert (0 <? num_entries pkt)%Z;
        _ ← emit (TlPktSend (tlm_buffer pkt));
        pkt' ← pkt_reset pkt;
        mret (MkRunCtx (rc_idx x) pkt' (rc_processed x) (rc_deferred x))
    | (SErr _, _) => lift Panic
    | (SPanic, _) => lift Panic
    end.

Fixpoint drain_loop (fuel cap : nat) (x : RunCtx) : M RunCtx :=
  match fuel with
  | O => mret x
  | S fuel' =>
      if bool_decide (rc_idx x < HASH_BUCKETS) then x' ← drain_turn cap x; drain_loop fuel' cap x'
      else mret x
  end.

Section run.
Context `{BuildProfile}.

Definition run_finish (x : RunCtx) : M unit :=
  _ ← when (0 <? num_entries (rc_pkt x))%Z (emit (TlPktSend (tlm_buffer (rc_pkt x))));
  if (0 <? rc_deferred x)%Z then
    c ← get_state;
    n ← lift (add_w 32 (proc_cap_count c) 1);
    _ ← modify_state (set_count n);
    emit (TlCapReached (rc_deferred x) n)
  else mret tt.

(** Every bucket takes at most two turns. *)
Definition run_with_cap (cap : nat) : M unit :=
  c ← get_state;
  if pkt_send_connected c then
    x ← run_begin;
    x' ← drain_loop (2 * HASH_BUCKETS) cap x;
    run_finish x'
  else mret tt.

Definition run_handler : M unit := run_with_cap MAX_ENTRIES_PER_RUN.
End run.

Definition ping_in_handler (key : Z) : M unit :=
  c ← get_state;
  _ ← assert (ping_out_connected c);
  emit (TlPingOut key).

(** * The specification *)

Record chan : Set := MkChan { c_id : Z; c_time : Time; c_value : serbuf; c_updated : bool }.

Fixpoint chan_find (id : Z) (l : list chan) : option chan :=
  match l with
  | [] => None
  | x :: l' => if (c_id x =? id)%Z then Some x else chan_find id l'
  end.
Fixpoint chan_put (x : chan) (l : list chan) : list chan :=
  match l with
  | [] => [x]
  | y :: l' => if (c_id y =? c_id x)%Z then x :: l' else y :: chan_put x l'
  end.

(** A value: the bytes of a [TlmBuffer]. *)
Definition value_ok (v : serbuf) : Prop := wf v ∧ ser_loc v ≤ FW_TLM_BUFFER_MAX_SIZE.
(** A value that fits an empty packet behind the descriptor (2 bytes), its id
    (4) and its time (11): at most 495 bytes of the 506 a [TlmBuffer] takes. *)
Definition value_fits (v : serbuf) : Prop := ser_loc v ≤ FW_COM_BUFFER_MAX_SIZE - 2 - 15.
Definition chan_ok (x : chan) : Prop := is_u 32 (c_id x) ∧ Time_wf (c_time x) ∧ value_ok (c_value x) ∧ value_fits (c_value x).

(** * One store as a list of channels *)

Definition chan_of (b : TlmBucket) : chan := MkChan (b_id b) (b_last_update b) (b_buffer b) (b_updated b).
Definition chans (s : TlmSet) : list chan := chan_of <$> take (free s) (buckets s).

Inductive path (bs : list TlmBucket) : option nat → list nat → Prop :=
| path_nil : path bs None []
| path_cons i b l : bs !! i = Some b → path bs (b_next b) l → path bs (Some i) (i :: l).

(** The chain of slot [h] holds the allocated buckets whose channel hashes to
    [h], each once. *)
Definition chain_ok (seed : Z) (s : TlmSet) (h : nat) : Prop :=
  ∃ cur l, slots s !! h = Some cur ∧ path (buckets s) cur l ∧ NoDup l ∧
    ∀ i, i ∈ l ↔ i < free s ∧ ∃ b, buckets s !! i = Some b ∧ do_hash seed (b_id b) = h.

Record set_ok (seed : Z) (s : TlmSet) : Prop := {
  so_slots : length (slots s) = NUM_TLM_HASH_SLOTS;
  so_buckets : length (buckets s) = HASH_BUCKETS;
  so_free : free s ≤ HASH_BUCKETS;
  so_chains : ∀ h, h < NUM_TLM_HASH_SLOTS → chain_ok seed s h;
  so_ids : NoDup (c_id <$> chans s);
  so_used : ∀ i b, buckets s !! i = Some b → b_used b = bool_decide (i < free s);
  so_chans : Forall chan_ok (chans s);
}.

Lemma do_hash_lt seed id : do_hash seed id < NUM_TLM_HASH_SLOTS.
Proof.
  unfold do_hash. set (h := xorshift _ _).
  pose proof (Z.mod_pos_bound h (Z.of_nat NUM_TLM_HASH_SLOTS)) as Hb. unfold NUM_TLM_HASH_SLOTS in *. lia.
Qed.

Lemma chans_lookup s i : free s ≤ length (buckets s) → chans s !! i = if decide (i < free s) then chan_of <$> buckets s !! i else None.
Proof.
  intros Hf. unfold chans. rewrite list_lookup_fmap. case_decide; [by rewrite lookup_take_lt|].
  by rewrite lookup_take_ge by lia.
Qed.

Lemma length_chans s : free s ≤ length (buckets s) → length (chans s) = free s.
Proof. intros. unfold chans. rewrite length_fmap, length_take. lia. Qed.

Lemma path_ext bs bs' cur l :
  path bs cur l → (∀ i b, i ∈ l → bs !! i = Some b → ∃ b', bs' !! i = Some b' ∧ b_next b' = b_next b) → path bs' cur l.
Proof.
  induction 1 as [|i b l Hb Hp IH]; intros Hx; [constructor|].
  destruct (Hx i b) as (b' & Hb' & Hn); [set_solver|done|]. econstructor; [exact Hb'|]. rewrite Hn.
  apply IH. intros j bj Hj. apply Hx. set_solver.
Qed.

(** Linking one more bucket behind the last of a chain. *)
Lemma path_snoc bs bs' cur l p n bn :
  path bs cur (l ++ [p]) → NoDup (l ++ [p]) → n ∉ l ++ [p] → bs' !! n = Some bn → b_next bn = None →
  (∀ i b, i ∈ l ++ [p] → bs !! i = Some b →
     ∃ b', bs' !! i = Some b' ∧ b_next b' = if decide (i = p) then Some n else b_next b) →
  path bs' cur ((l ++ [p]) ++ [n]).
Proof.
  intros Hp. remember (l ++ [p]) as lp eqn:E. revert l E. induction Hp as [|i b l0 Hb Hp IH]; intros l E Hnd Hn Hbn Hnone Hx.
  { by destruct l. }
  destruct l as [|j l]; simplify_eq/=.
  - destruct (Hx p b) as (b' & Hb' & Hnext); [set_solver|done|]. rewrite decide_True in Hnext by done.
    econstructor; [exact Hb'|]. rewrite Hnext. econstructor; [exact Hbn|]. rewrite Hnone. constructor.
  - apply NoDup_cons in Hnd as [Hj Hnd]. destruct (Hx j b) as (b' & Hb' & Hnext); [set_solver|done|].
    rewrite decide_False in Hnext by (intros ->; set_solver).
    econstructor; [exact Hb'|]. rewrite Hnext. apply (IH l); try done; [set_solver|].
    intros i0 b0 Hi0. apply Hx. set_solver.
Qed.

Lemma find_walk_ok id cur l s fuel :
  path (buckets s) cur l → length l ≤ fuel →
  (∃ i b, find_walk fuel id cur s = Ret (Some i) ∧ i ∈ l ∧ buckets s !! i = Some b ∧ b_id b = id) ∨
  (find_walk fuel id cur s = Ret None ∧ ∀ i b, i ∈ l → buckets s !! i = Some b → b_id b ≠ id).
Proof.
  intros Hp. revert fuel. induction Hp as [|i b l Hb Hp IH]; intros fuel Hf.
  - right. split; [by destruct fuel|]. intros ? ? []%elem_of_nil.
  - destruct fuel as [|fuel]; cbn in Hf; [lia|]. cbn [find_walk]. rewrite (index_get_ok _ _ _ Hb), outcome_bind_ret.
    destruct (Z.eqb_spec (b_id b) id) as [He|Hne]; [left; exists i, b; split_and!; set_solver|].
    destruct (IH fuel) as [(j & bj & -> & ? & ? & ?)|(-> & Hall)]; [lia| |].
    + left. exists j, bj. split_and!; [done|set_solver|done|done].
    + right. split; [done|]. intros j bj [->|Hj]%elem_of_cons Hbj; [congruence|by apply (Hall j)].
Qed.

Lemma recv_walk_ok id cur l s fuel prev :
  path (buckets s) cur l → length l < fuel →
  (∃ i b, recv_walk fuel id prev cur s = Ret (Some i, false, s) ∧ i ∈ l ∧ buckets s !! i = Some b ∧ b_id b = id) ∨
  (recv_walk fuel id prev cur s = recv_walk 1 id (default prev (last l)) None s ∧
   ∀ i b, i ∈ l → buckets s !! i = Some b → b_id b ≠ id).
Proof.
  intros Hp. revert fuel prev. induction Hp as [|i b l Hb Hp IH]; intros fuel prev Hf.
  - right. destruct fuel; [cbn in Hf; lia|]. split; [done|]. intros ? ? []%elem_of_nil.
  - destruct fuel as [|fuel]; cbn in Hf; [lia|].
    assert (recv_walk (S fuel) id prev (Some i) s
      = if (b_id b =? id)%Z then Ret (Some i, false, s) else recv_walk fuel id i (b_next b) s) as ->.
    { cbn [recv_walk]. by rewrite (index_get_ok _ _ _ Hb), outcome_bind_ret. }
    destruct (Z.eqb_spec (b_id b) id) as [He|Hne]; [left; exists i, b; split_and!; set_solver|].
    destruct (IH fuel i) as [(j & bj & -> & ? & ? & ?)|(-> & Hall)]; [lia| |].
    + left. exists j, bj. split_and!; [done|set_solver|done|done].
    + right. split.
      * f_equal. destruct l as [|x l]; [done|]. cbn [last]. change (default i (last (x :: l)) = default prev (last (x :: l))).
        assert (is_Some (last (x :: l))) as [y ->] by (apply last_is_Some; done). done.
      * intros j bj [->|Hj]%elem_of_cons Hbj; [congruence|by apply (Hall j)].
Qed.

Lemma chan_put_absent x l : (∀ y, y ∈ l → c_id y ≠ c_id x) → chan_put x l = l ++ [x].
Proof.
  induction l as [|y l IH]; intros Hx; [done|]. cbn [chan_put app]. rewrite (proj2 (Z.eqb_neq _ _)) by (apply Hx; set_solver).
  f_equal. apply IH. intros z Hz. apply Hx. set_solver.
Qed.

Lemma chan_put_at x l i y : NoDup (c_id <$> l) → l !! i = Some y → c_id y = c_id x → chan_put x l = <[i:=x]> l.
Proof.
  revert i. induction l as [|z l IH]; intros i Hnd Hi Hid; [done|]. cbn [fmap list_fmap] in Hnd.
  apply NoDup_cons in Hnd as [Hz Hnd]. destruct i as [|i]; simplify_eq/=; [by rewrite Hid, Z.eqb_refl|].
  rewrite (proj2 (Z.eqb_neq _ _)); [f_equal; by apply IH|]. intros He. apply Hz. rewrite He, <- Hid.
  apply list_elem_of_fmap_2. by eapply list_elem_of_lookup_2.
Qed.

Section store.
Context (seed : Z).

Lemma set_ok_len s : set_ok seed s → free s ≤ length (buckets s).
Proof. intros Hs. rewrite (so_buckets seed s Hs). apply (so_free seed s Hs). Qed.

Lemma set_ok_lookup s i : set_ok seed s → i < free s → ∃ b, buckets s !! i = Some b ∧ chans s !! i = Some (chan_of b).
Proof.
  intros Hs Hi. destruct (lookup_lt_is_Some_2 (buckets s) i) as [b Hb]; [pose proof (set_ok_len s Hs); lia|].
  exists b. split; [done|]. rewrite chans_lookup by (by apply set_ok_len).
  by rewrite decide_True, Hb by done.
Qed.

Lemma chain_length s h cur l :
  set_ok seed s → path (buckets s) cur l → NoDup l →
  (∀ i, i ∈ l ↔ i < free s ∧ ∃ b, buckets s !! i = Some b ∧ do_hash seed (b_id b) = h) → length l ≤ HASH_BUCKETS.
Proof.
  intros Hs _ Hnd Hl. etrans; [|apply (so_free seed s Hs)].
  replace (free s) with (length (seq 0 (free s))) by apply length_seq. apply submseteq_length, NoDup_submseteq; [done|].
  intros i Hi. apply elem_of_seq. apply Hl in Hi. lia.
Qed.

(** A channel is known exactly when its chain holds it. *)
Lemma chain_known s h (l : list nat) id :
  set_ok seed s → do_hash seed id = h →
  (∀ i, i ∈ l ↔ i < free s ∧ ∃ b, buckets s !! i = Some b ∧ do_hash seed (b_id b) = h) →
  (∀ i b, i ∈ l → buckets s !! i = Some b → b_id b ≠ id) →
  ∀ y, y ∈ chans s → c_id y ≠ id.
Proof.
  intros Hs Hh Hl Hne y [i Hi]%list_elem_of_lookup Hid.
  rewrite chans_lookup in Hi by (by apply set_ok_len). case_decide as Hlt; [|done].
  destruct (buckets s !! i) as [b|] eqn:Hb; [|done]. cbn in Hi. simplify_eq/=.
  apply (Hne i b); [apply Hl; eauto|done|done].
Qed.

(** Writing the value of a known channel. *)
Lemma set_ok_write s i b id t v :
  set_ok seed s → buckets s !! i = Some b → i < free s → b_id b = id → chan_ok (MkChan id t v true) →
  let s' := set_buckets (<[i := with_value id t v b]> (buckets s)) s in
  set_ok seed s' ∧ chans s' = chan_put (MkChan id t v true) (chans s).
Proof.
  intros Hs Hb Hi Hid Hok s'. destruct (set_ok_lookup s i Hs Hi) as (b' & Hb' & Hc). replace b' with b in * by congruence.
  assert (chans s' = <[i:=MkChan id t v true]> (chans s)) as Hch.
  { unfold chans, s'. cbn [buckets free set_buckets]. rewrite take_insert_lt by lia. by rewrite list_fmap_insert. }
  assert (i < length (buckets s)) as Hlen by (by eapply lookup_lt_Some).
  split; [|rewrite Hch; symmetry; eapply chan_put_at; [apply (so_ids seed s Hs)|exact Hc|done]].
  constructor; cbn [slots buckets free s' set_buckets].
  - apply (so_slots seed s Hs).
  - rewrite length_insert. apply (so_buckets seed s Hs).
  - apply (so_free seed s Hs).
  - intros h Hh. destruct (so_chains seed s Hs h Hh) as (cur & l & Hcur & Hp & Hnd & Hl). exists cur, l. cbn [slots buckets free s' set_buckets].
    split_and!; [done| |done|].
    + eapply path_ext; [exact Hp|]. intros j bj Hj Hbj. destruct (decide (j = i)) as [->|Hne].
      * exists (with_value id t v b). rewrite list_lookup_insert_eq by done. split; [done|]. cbn. congruence.
      * exists bj. by rewrite list_lookup_insert_ne by done.
    + intros j. rewrite Hl. destruct (decide (j = i)) as [->|Hne].
      * rewrite list_lookup_insert_eq, Hb by done. split; intros (? & b0 & [= <-] & ?); (split; [done|]); eexists; split; [done| |done|]; cbn in *; congruence.
      * by rewrite list_lookup_insert_ne by done.
  - rewrite Hch, list_fmap_insert. rewrite list_insert_id; [apply (so_ids seed s Hs)|].
    rewrite list_lookup_fmap, Hc. cbn. congruence.
  - intros j bj Hj. destruct (decide (j = i)) as [->|Hne].
    + rewrite list_lookup_insert_eq in Hj by done. injection Hj as <-. cbn. by rewrite bool_decide_eq_true_2.
    + rewrite list_lookup_insert_ne in Hj by done. by apply (so_used seed s Hs).
  - rewrite Hch. apply Forall_insert; [apply (so_chans seed s Hs)|done].
Qed.

(** Taking a bucket from the pool, whatever the slot's chain was. *)
Lemma set_ok_alloc s s' id t v nb :
  set_ok seed s → free s < HASH_BUCKETS → (∀ y, y ∈ chans s → c_id y ≠ id) → chan_ok (MkChan id t v true) →
  free s' = free s + 1 → length (slots s') = length (slots s) → length (buckets s') = length (buckets s) →
  buckets s' !! free s = Some nb → chan_of nb = MkChan id t v true → b_used nb = true →
  (∀ i b, i ≠ free s → buckets s !! i = Some b → ∃ b', buckets s' !! i = Some b' ∧ chan_of b' = chan_of b ∧ b_used b' = b_used b ∧
     (i < free s → do_hash seed (b_id b) ≠ do_hash seed id → b_next b' = b_next b)) →
  (∀ h, h ≠ do_hash seed id → slots s' !! h = slots s !! h) →
  chain_ok seed s' (do_hash seed id) →
  set_ok seed s' ∧ chans s' = chan_put (MkChan id t v true) (chans s).
Proof.
  intros Hs Hroom Hnew Hok Hf Hls Hlb Hnb Hview Hused Hsame Hslots Hchain.
  pose proof (so_buckets seed s Hs) as Hb500. pose proof (so_free seed s Hs) as Hfree.
  assert (∀ i b, i < free s → buckets s !! i = Some b → ∃ b', buckets s' !! i = Some b' ∧ chan_of b' = chan_of b) as Hview'.
  { intros i b Hi Hb. destruct (Hsame i b) as (b' & ? & ? & _); [lia|done|]. eauto. }
  assert (chans s' = chans s ++ [MkChan id t v true]) as Hch.
  { apply list_eq. intros i. rewrite chans_lookup by lia. rewrite Hf.
    destruct (decide (i < free s)) as [Hi|Hge].
    - rewrite decide_True by lia. rewrite lookup_app_l by (rewrite length_chans by lia; lia).
      destruct (set_ok_lookup s i Hs Hi) as (b & Hb & ->). destruct (Hview' i b Hi Hb) as (b' & -> & <-). done.
    - rewrite lookup_app_r by (rewrite length_chans by lia; lia). rewrite length_chans by lia.
      destruct (decide (i = free s)) as [->|Hne].
      + rewrite decide_True by lia. rewrite Hnb, Nat.sub_diag. cbn. by rewrite Hview.
      + rewrite decide_False by lia. destruct (i - free s) as [|k] eqn:E; [lia|]. done. }
  assert (NoDup (c_id <$> chans s')) as Hids.
  { rewrite Hch, fmap_app. apply NoDup_app. split_and!; [apply (so_ids seed s Hs)| |apply NoDup_singleton].
    intros i (y & -> & Hy)%list_elem_of_fmap Hin. cbn in Hin. apply (Hnew y Hy). set_solver. }
  split; [|by rewrite Hch, chan_put_absent].
  constructor; [by rewrite Hls, (so_slots seed s Hs)|lia|lia| |done| |].
  - intros h Hh. destruct (decide (h = do_hash seed id)) as [->|Hne]; [done|].
    destruct (so_chains seed s Hs h Hh) as (cur & l & Hcur & Hp & Hnd & Hl). exists cur, l. rewrite (Hslots h Hne).
    split_and!; [done| |done|].
    + eapply path_ext; [exact Hp|]. intros i b Hi Hb. apply Hl in Hi as (Hi & b0 & Hb0 & Hh0). replace b0 with b in * by congruence.
      destruct (Hsame i b) as (b' & Hb' & _ & _ & Hn); [lia|done|]. exists b'. split; [done|]. apply Hn; [done|congruence].
    + intros i. rewrite Hl, Hf. destruct (decide (i = free s)) as [->|Hni].
      * split; [lia|]. intros (_ & b & Hb & Hhb). replace b with nb in * by congruence.
        assert (b_id nb = id) as <- by (unfold chan_of in Hview; congruence). congruence.
      * split.
        -- intros (Hi & b & Hb & Hhb). destruct (Hview' i b Hi Hb) as (b' & Hb' & Hv). split; [lia|]. exists b'. split; [done|].
           unfold chan_of in Hv. congruence.
        -- intros (Hi & b' & Hb' & Hhb). destruct (set_ok_lookup s i Hs) as (b & Hb & _); [lia|].
           destruct (Hview' i b) as (b1 & Hb1 & Hv); [lia|done|]. replace b1 with b' in * by congruence. split; [lia|].
           exists b. split; [done|]. unfold chan_of in Hv. congruence.
  - intros i b' Hb'. rewrite Hf. destruct (decide (i = free s)) as [->|Hni].
    + replace b' with nb by congruence. rewrite Hused. by rewrite bool_decide_eq_true_2 by lia.
    + destruct (lookup_lt_is_Some_2 (buckets s) i) as [b Hb]; [apply lookup_lt_Some in Hb'; lia|].
      destruct (Hsame i b Hni Hb) as (b1 & Hb1 & _ & Hu & _). replace b1 with b' in * by congruence.
      rewrite Hu, (so_used seed s Hs i b Hb). apply bool_decide_ext. lia.
  - rewrite Hch. apply Forall_app. split; [apply (so_chans seed s Hs)|by apply Forall_singleton].
Qed.

(** The bucket taken for an unseen channel, before its value is written. *)
Lemma alloc_view s i b n bn :
  buckets s !! i = Some b → buckets s !! n = Some bn → i ≠ n →
  bucket_update i (with_next (Some n)) s = Ret (set_buckets (<[i := with_next (Some n) b]> (buckets s)) s) ∧
  bucket_update n (with_next None) (set_buckets (<[i := with_next (Some n) b]> (buckets s)) s)
  = Ret (set_buckets (<[n := with_next None bn]> (<[i := with_next (Some n) b]> (buckets s))) s).
Proof.
  intros Hb Hn Hne. unfold bucket_update. pose proof (lookup_lt_Some _ _ _ Hb). pose proof (lookup_lt_Some _ _ _ Hn). split.
  - rewrite (index_get_ok _ _ _ Hb), outcome_bind_ret, index_set_ok, outcome_bind_ret by done. done.
  - cbn [buckets set_buckets]. rewrite (index_get_ok _ _ bn) by (by rewrite list_lookup_insert_ne). rewrite outcome_bind_ret.
    rewrite index_set_ok, outcome_bind_ret by (by rewrite length_insert). done.
Qed.

Lemma bucket_update_ok s i b f :
  buckets s !! i = Some b → bucket_update i f s = Ret (set_buckets (<[i := f b]> (buckets s)) s).
Proof.
  intros Hb. unfold bucket_update. pose proof (lookup_lt_Some _ _ _ Hb).
  by rewrite (index_get_ok _ _ _ Hb), outcome_bind_ret, index_set_ok, outcome_bind_ret by done.
Qed.

Lemma chan_find_None id l : chan_find id l = None ↔ ∀ y, y ∈ l → c_id y ≠ id.
Proof.
  induction l as [|x l IH]; cbn [chan_find]; [split; [intros _ y []%elem_of_nil|done]|].
  destruct (Z.eqb_spec (c_id x) id) as [He|Hne]; [split; [done|intros Hx; by destruct (Hx x); [set_solver|]]|].
  rewrite IH. set_solver.
Qed.

Lemma chan_find_at id l i y : NoDup (c_id <$> l) → l !! i = Some y → c_id y = id → chan_find id l = Some y.
Proof.
  revert i. induction l as [|x l IH]; intros i Hnd Hi Hid; [done|]. cbn [fmap list_fmap chan_find] in *.
  apply NoDup_cons in Hnd as [Hx Hnd]. destruct i as [|i]; simplify_eq/=; [by rewrite Z.eqb_refl|].
  rewrite (proj2 (Z.eqb_neq _ _)); [by eapply IH|]. intros He. apply Hx. rewrite He.
  apply list_elem_of_fmap_2. by eapply list_elem_of_lookup_2.
Qed.

Lemma recv_new_slot s id t v :
  set_ok seed s → free s < HASH_BUCKETS → (∀ y, y ∈ chans s → c_id y ≠ id) → chan_ok (MkChan id t v true) →
  slots s !! do_hash seed id = Some None →
  ∃ s1 s2, recv_bucket (do_hash seed id) id s = Ret (Some (free s), false, s1) ∧
    bucket_update (free s) (with_value id t v) s1 = Ret s2 ∧
    set_ok seed s2 ∧ chans s2 = chan_put (MkChan id t v true) (chans s).
Proof.
  intros Hs Hroom Hnew Hok Hslot. unfold recv_bucket. rewrite (index_get_ok _ _ _ Hslot), outcome_bind_ret.
  rewrite bool_decide_eq_false_2 by lia. pose proof (lookup_lt_Some _ _ _ Hslot) as Hh.
  rewrite index_set_ok, outcome_bind_ret by done.
  destruct (lookup_lt_is_Some_2 (buckets s) (free s)) as [bn Hbn]; [rewrite (so_buckets seed s Hs); lia|].
  rewrite (bucket_update_ok _ _ bn) by done. rewrite outcome_bind_ret. eexists _, _. split; [done|].
  pose proof (lookup_lt_Some _ _ _ Hbn) as Hlen. split.
  { apply bucket_update_ok. cbn [buckets set_buckets]. by rewrite list_lookup_insert_eq. }
  cbn [buckets set_buckets slots free]. rewrite list_insert_insert_eq.
  apply (set_ok_alloc s _ id t v (with_value id t v (with_next None bn))); cbn [buckets set_buckets slots free]; try done.
  - by rewrite length_insert.
  - by rewrite length_insert.
  - by rewrite list_lookup_insert_eq.
  - intros i b Hi Hb. exists b. by rewrite list_lookup_insert_ne by done.
  - intros h Hne. by rewrite list_lookup_insert_ne by done.
  - exists (Some (free s)), [free s]. cbn [buckets set_buckets slots free]. split_and!.
    + by rewrite list_lookup_insert_eq.
    + econstructor; [by rewrite list_lookup_insert_eq|]. constructor.
    + apply NoDup_singleton.
    + intros i. rewrite list_elem_of_singleton. split.
      * intros ->. split; [lia|]. eexists. rewrite list_lookup_insert_eq by done. done.
      * intros (Hi & b & Hb & Hhb). destruct (decide (i = free s)) as [|Hne]; [done|]. exfalso.
        rewrite list_lookup_insert_ne in Hb by done.
        destruct (so_chains seed s Hs (do_hash seed id)) as (cur & l & Hcur & Hp & _ & Hl); [apply do_hash_lt|].
        assert (i ∈ l) as Hil by (apply Hl; split; [lia|eauto]). rewrite Hslot in Hcur. injection Hcur as <-.
        inversion Hp; subst. by apply elem_of_nil in Hil.
Qed.

Lemma recv_new_chain s id t v head :
  set_ok seed s → free s < HASH_BUCKETS → (∀ y, y ∈ chans s → c_id y ≠ id) → chan_ok (MkChan id t v true) →
  slots s !! do_hash seed id = Some (Some head) →
  ∃ s1 s2, recv_bucket (do_hash seed id) id s = Ret (Some (free s), false, s1) ∧
    bucket_update (free s) (with_value id t v) s1 = Ret s2 ∧
    set_ok seed s2 ∧ chans s2 = chan_put (MkChan id t v true) (chans s).
Proof.
  intros Hs Hroom Hnew Hok Hslot. unfold recv_bucket. rewrite (index_get_ok _ _ _ Hslot), outcome_bind_ret.
  destruct (so_chains seed s Hs (do_hash seed id)) as (cur & l & Hcur & Hp & Hnd & Hl); [apply do_hash_lt|].
  rewrite Hslot in Hcur. injection Hcur as <-.
  destruct (recv_walk_ok id (Some head) l s (HASH_BUCKETS + 1) head Hp) as [(i & b & _ & Hi & Hb & Hid)|[-> Hne]].
  { pose proof (chain_length s _ _ l Hs Hp Hnd Hl). lia. }
  { exfalso. apply Hl in Hi as (Hi & _). destruct (set_ok_lookup s i Hs Hi) as (b' & Hb' & Hc). replace b' with b in * by congruence.
    apply (Hnew (chan_of b)); [by eapply list_elem_of_lookup_2|done]. }
  destruct l as [|p l0 _] using rev_ind; [inversion Hp|]. rewrite last_snoc. cbn [from_option recv_walk Datatypes.id].
  rewrite bool_decide_eq_false_2 by lia.
  destruct (lookup_lt_is_Some_2 (buckets s) (free s)) as [bn Hbn]; [rewrite (so_buckets seed s Hs); lia|].
  assert (p < free s) as Hpf by (apply (Hl p); set_solver).
  destruct (set_ok_lookup s p Hs Hpf) as (bp & Hbp & _).
  destruct (alloc_view (MkSet (slots s) (buckets s) (free s + 1)) p bp (free s) bn) as [E1 E2]; [done|done|lia|].
  rewrite E1, outcome_bind_ret, E2, outcome_bind_ret. eexists _, _. split; [done|]. clear E1 E2.
  pose proof (lookup_lt_Some _ _ _ Hbn) as Hlen. pose proof (lookup_lt_Some _ _ _ Hbp) as Hlenp. split.
  { apply bucket_update_ok. cbn [buckets set_buckets]. by rewrite list_lookup_insert_eq by (by rewrite length_insert). }
  cbn [buckets set_buckets slots free]. rewrite list_insert_insert_eq.
  set (bs' := <[free s:=_]> _).
  assert (bs' !! free s = Some (with_value id t v (with_next None bn))) as Hn
    by (unfold bs'; rewrite list_lookup_insert_eq by (by rewrite length_insert); done).
  assert (∀ i b, i ≠ free s → buckets s !! i = Some b → bs' !! i = Some (if decide (i = p) then with_next (Some (free s)) b else b)) as Hx.
  { intros i b Hi Hb. unfold bs'. rewrite list_lookup_insert_ne by done. case_decide as E; [subst i|by rewrite list_lookup_insert_ne].
    rewrite list_lookup_insert_eq by done. congruence. }
  assert (do_hash seed (b_id bp) = do_hash seed id) as Hhp.
  { destruct (proj1 (Hl p)) as (_ & b & Hb & Hh); [set_solver|]. congruence. }
  apply (set_ok_alloc s _ id t v (with_value id t v (with_next None bn))); cbn [buckets set_buckets slots free]; try done.
  - unfold bs'. by rewrite !length_insert.
  - intros i b Hi Hb. eexists. split; [by apply Hx|]. case_decide as E; [subst i|done]. split_and!; [done|done|].
    intros _ Hd. replace b with bp in Hd by congruence. done.
  - exists (Some head), ((l0 ++ [p]) ++ [free s]). cbn [buckets set_buckets slots free].
    assert (free s ∉ l0 ++ [p]) as Hnf by (intros Hin; apply Hl in Hin; lia). split_and!; [done| | |].
    + eapply path_snoc; [exact Hp|done|done|exact Hn|done|]. intros i b Hi Hb. eexists.
      rewrite (Hx i b); [|intros ->; done|done]. split; [done|]. by case_decide.
    + apply NoDup_app. split_and!; [done|set_solver|apply NoDup_singleton].
    + intros i. rewrite elem_of_app, list_elem_of_singleton, Hl. split.
      * intros [(Hi & b & Hb & Hh)| ->]; [|split; [lia|eauto]]. split; [lia|]. rewrite (Hx i b) by (lia || done).
        eexists. split; [done|]. by case_decide.
      * intros (Hi & b' & Hb' & Hh). destruct (decide (i = free s)) as [|Hni]; [by right|left]. split; [lia|].
        destruct (set_ok_lookup s i Hs) as (b & Hb & _); [lia|]. rewrite (Hx i b) in Hb' by done. injection Hb' as <-.
        exists b. split; [done|]. by case_decide.
Qed.

(** What storing a value does to a store. *)
Lemma recv_set_ok s id t v :
  set_ok seed s → chan_ok (MkChan id t v true) →
  if decide (chan_find id (chans s) = None ∧ length (chans s) = HASH_BUCKETS)
  then recv_bucket (do_hash seed id) id s = Ret (None, true, s)
  else ∃ i s1 s2, recv_bucket (do_hash seed id) id s = Ret (Some i, false, s1) ∧
    bucket_update i (with_value id t v) s1 = Ret s2 ∧
    set_ok seed s2 ∧ chans s2 = chan_put (MkChan id t v true) (chans s).
Proof.
  intros Hs Hok. pose proof (so_free seed s Hs) as Hfree. rewrite length_chans by (by apply set_ok_len).
  destruct (so_chains seed s Hs (do_hash seed id)) as (cur & l & Hcur & Hp & Hnd & Hl); [apply do_hash_lt|].
  pose proof (chain_length s _ _ l Hs Hp Hnd Hl) as Hlen.
  destruct (chan_find id (chans s)) as [y|] eqn:Ef.
  - rewrite decide_False by (intros [? _]; done). unfold recv_bucket. rewrite (index_get_ok _ _ _ Hcur), outcome_bind_ret.
    assert (¬ ∀ i b, i ∈ l → buckets s !! i = Some b → b_id b ≠ id) as Hknown.
    { intros Hne. assert (chan_find id (chans s) = None); [|congruence]. apply chan_find_None.
      eapply chain_known; [done| |exact Hl|done]. done. }
    destruct cur as [head|]; [|exfalso; apply Hknown; inversion Hp; subst; intros ? ? []%elem_of_nil].
    destruct (recv_walk_ok id (Some head) l s (HASH_BUCKETS + 1) head Hp) as [(i & b & -> & Hi & Hb & Hid)|[_ Hne]]; [lia| |done].
    apply Hl in Hi as (Hi & _). exists i, s. eexists. split_and!; [done|by apply bucket_update_ok|..].
    all: apply (set_ok_write s i b id t v); done.
  - pose proof (proj1 (chan_find_None _ _) Ef) as Hnew. case_decide as Hd.
    + destruct Hd as [_ Hfull]. unfold recv_bucket. rewrite (index_get_ok _ _ _ Hcur), outcome_bind_ret.
      destruct cur as [head|]; [|by rewrite bool_decide_eq_true_2 by lia].
      destruct (recv_walk_ok id (Some head) l s (HASH_BUCKETS + 1) head Hp) as [(i & b & _ & Hi & Hb & Hid)|[-> _]]; [lia| |].
      * exfalso. apply Hl in Hi as (Hi & _). destruct (set_ok_lookup s i Hs Hi) as (b' & Hb' & Hc). replace b' with b in * by congruence.
        apply (Hnew (chan_of b)); [by eapply list_elem_of_lookup_2|done].
      * cbn [recv_walk]. by rewrite bool_decide_eq_true_2 by lia.
    + assert (free s < HASH_BUCKETS) as Hroom by (destruct (decide (free s = HASH_BUCKETS)); [exfalso; by apply Hd|lia]).
      exists (free s). destruct cur as [head|]; [by eapply recv_new_chain|by eapply recv_new_slot].
Qed.

(** Looking a channel up in a store. *)
Lemma find_entry_ok s id :
  set_ok seed s →
  match chan_find id (chans s) with
  | Some y => ∃ i b, find_entry s (do_hash seed id) id = Ret (Some i) ∧ buckets s !! i = Some b ∧ chan_of b = y
  | None => find_entry s (do_hash seed id) id = Ret None
  end.
Proof.
  intros Hs. unfold find_entry.
  destruct (so_chains seed s Hs (do_hash seed id)) as (cur & l & Hcur & Hp & Hnd & Hl); [apply do_hash_lt|].
  rewrite (index_get_ok _ _ _ Hcur), outcome_bind_ret.
  destruct (find_walk_ok id cur l s HASH_BUCKETS Hp) as [(i & b & -> & Hi & Hb & Hid)|[-> Hne]];
    [by eapply chain_length| |].
  - apply Hl in Hi as (Hi & _). destruct (set_ok_lookup s i Hs Hi) as (b' & Hb' & Hc). replace b' with b in * by congruence.
    rewrite (chan_find_at id (chans s) i (chan_of b)); [by exists i, b|apply (so_ids seed s Hs)|done|done].
  - rewrite (proj2 (chan_find_None _ _)); [done|]. eapply chain_known; [done| |exact Hl|done]. done.
Qed.
End store.

(** * The drain of one store *)

(** [drain_turn] reads and writes only the inactive store. *)
Definition turn_set (cap : nat) (x : RunCtx) (s : TlmSet) : outcome (RunCtx * TlmSet * list TlmOut) :=
  b ← index_get (buckets s) (rc_idx x);
  if negb (b_updated b && b_used b) then Ret (MkRunCtx (rc_idx x + 1) (rc_pkt x) (rc_processed x) (rc_deferred x), s, [])
  else if bool_decide (cap ≤ rc_processed x) then
    Ret (MkRunCtx (rc_idx x + 1) (rc_pkt x) (rc_processed x) (rc_deferred x + 1), s, [])
  else
    match add_value (b_id b) (b_last_update b) (b_buffer b) (rc_pkt x) with
    | (SOk _, pkt) =>
        s' ← bucket_update (rc_idx x) (with_updated false) s;
        Ret (MkRunCtx (rc_idx x + 1) pkt (rc_processed x + 1) (rc_deferred x), s', [])
    | (SErr NoRoomLeft, pkt) =>
        if (0 <? num_entries pkt)%Z then
          match reset_pkt_ser pkt with
          | (SOk _, pkt') => Ret (MkRunCtx (rc_idx x) pkt' (rc_processed x) (rc_deferred x), s, [TlPktSend (tlm_buffer pkt)])
          | _ => Panic
          end
        else Panic
    | _ => Panic
    end.

Definition with_inactive (s : TlmSet) (c : TlmChan) : TlmChan := set_sets (<[1 - active c := s]> (sets c)) c.

Lemma with_inactive_id c s : sets c !! (1 - active c) = Some s → with_inactive s c = c.
Proof. intros Hs. unfold with_inactive, set_sets. rewrite list_insert_id by done. by destruct c. Qed.

Lemma get_set_ok {B} k (f : TlmSet → M B) c s : sets c !! k = Some s → (get_set k ≫= f) c = f s c.
Proof.
  intros Hs. apply comp_bind_quiet. unfold get_set. erewrite comp_bind_quiet by reflexivity.
  unfold lift. by rewrite (index_get_ok _ _ _ Hs).
Qed.

Lemma put_set_ok {B} k s (f : unit → M B) c :
  k < length (sets c) → (put_set k s ≫= f) c = f tt (set_sets (<[k:=s]> (sets c)) c).
Proof.
  intros Hk. apply comp_bind_quiet. unfold put_set. erewrite comp_bind_quiet by reflexivity.
  by rewrite (comp_lift_ok _ _ _ _ (index_set_ok _ _ _ Hk)).
Qed.

Lemma drain_turn_local cap x c s :
  sets c !! (1 - active c) = Some s →
  drain_turn cap x c =
  match turn_set cap x s with
  | Panic => Panic
  | Ret (x', s', o) => Ret (x', with_inactive s' c, o)
  end.
Proof.
  intros Hs. pose proof (with_inactive_id c s Hs) as Hid. unfold drain_turn, turn_set.
  erewrite comp_bind_quiet by reflexivity. rewrite (get_set_ok _ _ _ s) by done.
  unfold index_get at 1 2. destruct (buckets s !! rc_idx x) as [b|]; [|done].
  rewrite (comp_lift_ok _ _ _ b) by done. rewrite outcome_bind_ret.
  destruct (negb _); [by cbn; rewrite Hid|]. case_bool_decide; [by cbn; rewrite Hid|].
  destruct (add_value _ _ _ _) as [[[]|[]|] pkt]; try done.
  - destruct (bucket_update _ _ s) as [s'|] eqn:Eb; [|done]. rewrite (comp_lift_ok _ _ _ s') by done. rewrite outcome_bind_ret.
    rewrite put_set_ok by (by eapply lookup_lt_Some). done.
  - destruct (0 <? num_entries pkt)%Z; [|done]. rewrite comp_assert_ok by done. rewrite comp_emit.
    unfold pkt_reset. destruct (reset_pkt_ser pkt) as [[[]|[]|] pkt']; try done. cbn. by rewrite Hid.
Qed.

Fixpoint loop_set (fuel cap : nat) (x : RunCtx) (s : TlmSet) : outcome (RunCtx * TlmSet * list TlmOut) :=
  match fuel with
  | O => Ret (x, s, [])
  | S fuel' =>
      if bool_decide (rc_idx x < HASH_BUCKETS) then
        match turn_set cap x s with
        | Panic => Panic
        | Ret (x', s', o) =>
            match loop_set fuel' cap x' s' with
            | Panic => Panic
            | Ret (x'', s'', o') => Ret (x'', s'', o ++ o')
            end
        end
      else Ret (x, s, [])
  end.

Lemma drain_loop_local fuel cap x c s :
  sets c !! (1 - active c) = Some s →
  drain_loop fuel cap x c =
  match loop_set fuel cap x s with
  | Panic => Panic
  | Ret (x', s', o) => Ret (x', with_inactive s' c, o)
  end.
Proof.
  revert x c s. induction fuel as [|fuel IH]; intros x c s Hs; cbn [drain_loop loop_set].
  { by rewrite with_inactive_id. }
  case_bool_decide; [|by cbn; rewrite with_inactive_id].
  rewrite <- (with_inactive_id c s Hs) at 1. rewrite with_inactive_id by done.
  pose proof (drain_turn_local cap x c s Hs) as E. destruct (turn_set cap x s) as [[[x' s'] o]|].
  - rewrite (comp_bind_ret _ _ _ _ _ _ E), (IH _ _ s').
    2: { unfold with_inactive. cbn [sets set_sets active]. apply list_lookup_insert_eq. by eapply lookup_lt_Some. }
    destruct (loop_set fuel cap x' s') as [[[x'' s''] o']|]; [|done].
    unfold with_inactive. cbn [sets set_sets active]. by rewrite list_insert_insert_eq.
  - unfold mbind, CompM_bind. by rewrite E.
Qed.

(** * Packing *)

Definition chan_enc (x : chan) : list Z := tlm_entry_enc (TlmEntry (c_id x) (c_time x) (as_slice (c_value x))).
Definition tlm_header : list Z := [0; 1]%Z.

(** The packets a run sends: entries in order, a packet closed when the next
    entry does not fit. *)
Definition pack_rest (cur : list Z) : list (list Z) := if decide (cur = tlm_header) then [] else [cur].
Fixpoint pack (cur : list Z) (xs : list chan) : list (list Z) :=
  match xs with
  | [] => pack_rest cur
  | x :: xs' =>
      if decide (length cur + length (chan_enc x) ≤ FW_COM_BUFFER_MAX_SIZE) then pack (cur ++ chan_enc x) xs'
      else cur :: pack (tlm_header ++ chan_enc x) xs'
  end.

Definition set_flag (u : bool) (x : chan) : chan := MkChan (c_id x) (c_time x) (c_value x) u.

(** The channels sent by a run that may send [m], and the flags after it. *)
Definition due (m : nat) (l : list chan) : list chan := take m (filter (λ x, c_updated x = true) l).
Fixpoint clear_first (m : nat) (l : list chan) : list chan :=
  match l with
  | [] => []
  | x :: l' =>
      if c_updated x then match m with O => x :: l' | S m' => set_flag false x :: clear_first m' l' end
      else x :: clear_first m l'
  end.

Lemma length_chan_enc x : chan_ok x → length (chan_enc x) = 15 + ser_loc (c_value x).
Proof. intros (_ & _ & [Hwf _] & _). unfold chan_enc. rewrite length_tlm_entry_enc. cbn [te_value]. by rewrite length_as_slice. Qed.

(** ** The packet in progress *)

Record pkt_rep (p : TlmPacket) (cur : list Z) : Prop := {
  pr_wf : wf (tlm_buffer p);
  pr_cap : capacity (tlm_buffer p) = FW_COM_BUFFER_MAX_SIZE;
  pr_bytes : as_slice (tlm_buffer p) = cur;
  pr_len : length tlm_header ≤ length cur;
  pr_count : (0 ≤ num_entries p)%Z;
  pr_empty : num_entries p = 0%Z → cur = tlm_header;
  pr_some : cur = tlm_header → num_entries p = 0%Z;
}.

Lemma pkt_reset_rep p :
  wf (tlm_buffer p) → capacity (tlm_buffer p) = FW_COM_BUFFER_MAX_SIZE →
  ∃ p', reset_pkt_ser p = (SOk tt, p') ∧ pkt_rep p' tlm_header.
Proof.
  intros Hb Hcap. set (b0 := SerBuf (data (tlm_buffer p)) 0 0).
  assert (wf b0) as Hb0. { destruct Hb as (? & ? & ?). split_and!; cbn; (done || lia). }
  assert (capacity b0 = FW_COM_BUFFER_MAX_SIZE) as Hc0 by done.
  exists (MkTlmPacket (appended b0 (be_bytes 2 (as_repr FwPacketTelem))) 0). split.
  - unfold reset_pkt_ser, on_tlm. cbn [tlm_buffer num_entries]. erewrite ser_bind_ok; [|done]. fold b0.
    rewrite (c_ser_ok u16_codec (as_repr FwPacketTelem) Big b0 Hb0); [done|].
    rewrite Hc0. cbn. unfold FW_COM_BUFFER_MAX_SIZE. lia.
  - constructor; cbn [tlm_buffer num_entries]; try done.
    + apply wf_appended; [done|apply be_bytes_is_byte|]. rewrite length_be_bytes, Hc0. cbn. unfold FW_COM_BUFFER_MAX_SIZE. lia.
    + rewrite capacity_appended; [done|]. rewrite length_be_bytes, Hc0. cbn. unfold FW_COM_BUFFER_MAX_SIZE. lia.
Qed.

(** [add_value] looks at the valid bytes of the value only. *)
Lemma add_value_slice id t v p : wf v → add_value id t v p = add_value id t (value_buffer (as_slice v)) p.
Proof.
  intros Hv. unfold add_value. cbn [ser_loc value_buffer]. rewrite (length_as_slice v Hv).
  replace (as_slice (value_buffer (as_slice v))) with (as_slice v); [done|].
  unfold value_buffer. unfold as_slice at 2. cbn [data ser_loc]. by rewrite take_ge.
Qed.

Lemma add_value_rep x p cur :
  chan_ok x → pkt_rep p cur →
  if decide (length cur + length (chan_enc x) ≤ FW_COM_BUFFER_MAX_SIZE)
  then ∃ p', add_value (c_id x) (c_time x) (c_value x) p = (SOk tt, p') ∧ pkt_rep p' (cur ++ chan_enc x)
  else add_value (c_id x) (c_time x) (c_value x) p = (SErr NoRoomLeft, p).
Proof.
  intros Hx Hp. pose proof Hx as (Hid & Ht & [Hv _] & Hlen). unfold value_fits in Hlen. pose proof (length_chan_enc x Hx) as Hel.
  assert (ser_loc (tlm_buffer p) = length cur) as Hloc by (rewrite <- (pr_bytes _ _ Hp); symmetry; apply length_as_slice, (pr_wf _ _ Hp)).
  case_decide as Hfit.
  - set (e := TlmEntry (c_id x) (c_time x) (as_slice (c_value x))).
    assert (tlm_entry_ok e) as He.
    { unfold tlm_entry_ok, e. cbn [te_id te_time te_value]. rewrite length_as_slice by done.
      split_and!; [done|done|unfold as_slice; apply Forall_take; by destruct Hv as (? & ? & ?)|].
      unfold FW_TLM_BUFFER_MAX_SIZE, FW_COM_BUFFER_MAX_SIZE in *. lia. }
    assert (Forall is_byte (chan_enc x)) as Hbytes by (by apply tlm_entry_enc_bytes).
    eexists. rewrite add_value_slice by done. split.
    + apply (add_value_ok e p He (pr_wf _ _ Hp)). change (tlm_entry_enc e) with (chan_enc x). rewrite (pr_cap _ _ Hp). lia.
    + change (tlm_entry_enc e) with (chan_enc x).
      assert (ser_loc (tlm_buffer p) + length (chan_enc x) ≤ capacity (tlm_buffer p)) as Hroom by (rewrite (pr_cap _ _ Hp); lia).
      pose proof (pr_count _ _ Hp). pose proof (pr_len _ _ Hp). pose proof (pr_wf _ _ Hp).
      constructor; cbn [tlm_buffer num_entries].
      * by apply wf_appended.
      * rewrite capacity_appended by done. apply (pr_cap _ _ Hp).
      * rewrite as_slice_appended by done. by rewrite (pr_bytes _ _ Hp).
      * rewrite length_app. lia.
      * lia.
      * lia.
      * intros E. assert (length (cur ++ chan_enc x) = 2) as E2 by (by rewrite E). rewrite length_app in E2. cbn in *. lia.
  - unfold add_value. rewrite bool_decide_eq_true_2; [done|]. rewrite (pr_cap _ _ Hp), Hloc. lia.
Qed.

(** Flags may change without disturbing a store. *)
Lemma set_ok_flags seed s bs' (u : nat → TlmBucket → bool) :
  set_ok seed s → length bs' = length (buckets s) →
  (∀ i b, buckets s !! i = Some b → bs' !! i = Some (with_updated (u i b) b)) → set_ok seed (set_buckets bs' s).
Proof.
  intros Hs Hl Hx. assert (∀ i b', bs' !! i = Some b' → ∃ b, buckets s !! i = Some b ∧ b' = with_updated (u i b) b) as Hy.
  { intros i b' Hb'. destruct (lookup_lt_is_Some_2 (buckets s) i) as [b Hb]; [rewrite <- Hl; by eapply lookup_lt_Some|].
    exists b. split; [done|]. rewrite (Hx i b Hb) in Hb'. congruence. }
  assert (c_id <$> chans (set_buckets bs' s) = c_id <$> chans s) as Hids.
  { unfold chans. cbn [free buckets set_buckets]. rewrite <- !list_fmap_compose, !fmap_take. f_equal.
    apply list_eq. intros i. rewrite !list_lookup_fmap. destruct (buckets s !! i) as [b|] eqn:Hb; [by rewrite (Hx i b Hb)|].
    by rewrite lookup_ge_None_2 by (rewrite Hl; by apply lookup_ge_None_1). }
  constructor; cbn [slots buckets free set_buckets].
  - apply (so_slots seed s Hs).
  - rewrite Hl. apply (so_buckets seed s Hs).
  - apply (so_free seed s Hs).
  - intros h Hh. destruct (so_chains seed s Hs h Hh) as (cur & l & Hcur & Hp & Hnd & Hin). exists cur, l.
    cbn [slots buckets free set_buckets]. split_and!; [done| |done|].
    + eapply path_ext; [exact Hp|]. intros i b _ Hb. eexists. split; [by apply Hx|done].
    + intros i. rewrite Hin. split; intros (Hi & b & Hb & Hhb); (split; [done|]).
      * eexists. split; [by apply Hx|done].
      * apply Hy in Hb as (b0 & Hb0 & ->). by exists b0.
  - rewrite Hids. apply (so_ids seed s Hs).
  - intros i b' (b & Hb & ->)%Hy. cbn. by apply (so_used seed s Hs).
  - apply Forall_lookup. intros i y Hi. rewrite chans_lookup in Hi by (cbn [buckets free set_buckets]; rewrite Hl; by apply (set_ok_len seed)).
    cbn [free buckets set_buckets] in Hi. case_decide as Hlt; [|done].
    destruct (set_ok_lookup seed s i Hs Hlt) as (b & Hb & Hc). rewrite (Hx i b Hb) in Hi. cbn in Hi. simplify_eq/=.
    pose proof (so_chans seed s Hs) as HF. rewrite Forall_lookup in HF. exact (HF i _ Hc).
Qed.

(** ** The loop *)

(** What an observer sees: of a packet, its bytes. *)
Inductive aout : Set :=
| APkt (bytes : list Z)
| APing (key : Z)
| AExhausted (id : Z)
| ACap (deferred cumulative : Z).
Definition obs (o : TlmOut) : aout :=
  match o with
  | TlPktSend b => APkt (as_slice b)
  | TlPingOut k => APing k
  | TlBucketPoolExhausted i => AExhausted i
  | TlCapReached d n => ACap d n
  end.

Definition updated_of (l : list chan) : list chan := filter (λ x, c_updated x = true) l.

Lemma chans_clear seed s k b :
  set_ok seed s → buckets s !! k = Some b → k < free s →
  let s' := set_buckets (<[k := with_updated false b]> (buckets s)) s in
  set_ok seed s' ∧ chans s' = <[k := set_flag false (chan_of b)]> (chans s).
Proof.
  intros Hs Hb Hk s'. pose proof (lookup_lt_Some _ _ _ Hb) as Hlen. split.
  - apply (set_ok_flags seed s _ (λ i c, if decide (i = k) then false else b_updated c) Hs); [by rewrite length_insert|].
    intros i c Hc. case_decide as E; [subst i|].
    + rewrite list_lookup_insert_eq by done. congruence.
    + rewrite list_lookup_insert_ne by done. rewrite Hc. by destruct c.
  - unfold chans, s'. cbn [free buckets set_buckets]. rewrite take_insert_lt by lia. by rewrite list_fmap_insert.
Qed.

Section loop.
Context (seed : Z) (cap : nat).

(** What is left to do at bucket [k] with packet [cur]. *)
Definition loop_done (x : RunCtx) (s : TlmSet) (cur : list Z) (x' : RunCtx) (s' : TlmSet) (o : list TlmOut) : Prop :=
  let k := rc_idx x in
  let m := cap - rc_processed x in
  set_ok seed s' ∧
  chans s' = take k (chans s) ++ clear_first m (drop k (chans s)) ∧
  rc_deferred x' = (rc_deferred x + Z.of_nat (length (updated_of (drop k (chans s))) - m))%Z ∧
  ∃ cur', pkt_rep (rc_pkt x') cur' ∧
    (obs <$> o) ++ (APkt <$> pack_rest cur') = APkt <$> pack cur (due m (drop k (chans s))).

(** One entry added to the packet. *)
Lemma turn_adds x s b cur :
  set_ok seed s → buckets s !! rc_idx x = Some b → rc_idx x < free s → b_updated b = true → rc_processed x < cap →
  pkt_rep (rc_pkt x) cur → length cur + length (chan_enc (chan_of b)) ≤ FW_COM_BUFFER_MAX_SIZE →
  ∃ p, turn_set cap x s = Ret (MkRunCtx (rc_idx x + 1) p (rc_processed x + 1) (rc_deferred x),
         set_buckets (<[rc_idx x := with_updated false b]> (buckets s)) s, []) ∧
       pkt_rep p (cur ++ chan_enc (chan_of b)).
Proof.
  intros Hs Hb Hk Hu Hcap Hp Hfit. unfold turn_set. rewrite (index_get_ok _ _ _ Hb), outcome_bind_ret.
  rewrite Hu, (so_used seed s Hs _ _ Hb), bool_decide_eq_true_2 by done. cbn [andb negb].
  rewrite bool_decide_eq_false_2 by lia.
  assert (chan_ok (chan_of b)) as Hok.
  { destruct (set_ok_lookup seed s _ Hs Hk) as (b' & Hb' & Hc). replace b' with b in * by congruence.
    pose proof (so_chans seed s Hs) as HF. rewrite Forall_lookup in HF. exact (HF _ _ Hc). }
  pose proof (add_value_rep (chan_of b) (rc_pkt x) cur Hok Hp) as Hadd. rewrite decide_True in Hadd by done.
  destruct Hadd as (p & Hadd & Hp'). cbn [c_id c_time c_value chan_of] in Hadd. rewrite Hadd.
  rewrite (bucket_update_ok _ _ _ _ Hb), outcome_bind_ret. by exists p.
Qed.

(** A full packet sent. *)
Lemma turn_flushes x s b cur :
  set_ok seed s → buckets s !! rc_idx x = Some b → rc_idx x < free s → b_updated b = true → rc_processed x < cap →
  pkt_rep (rc_pkt x) cur → ¬ length cur + length (chan_enc (chan_of b)) ≤ FW_COM_BUFFER_MAX_SIZE →
  length tlm_header + length (chan_enc (chan_of b)) ≤ FW_COM_BUFFER_MAX_SIZE ∧
  ∃ p, turn_set cap x s = Ret (MkRunCtx (rc_idx x) p (rc_processed x) (rc_deferred x), s, [TlPktSend (tlm_buffer (rc_pkt x))]) ∧
       pkt_rep p tlm_header.
Proof.
  intros Hs Hb Hk Hu Hcap Hp Hfit. unfold turn_set. rewrite (index_get_ok _ _ _ Hb), outcome_bind_ret.
  rewrite Hu, (so_used seed s Hs _ _ Hb), bool_decide_eq_true_2 by done. cbn [andb negb].
  rewrite bool_decide_eq_false_2 by lia.
  assert (chan_ok (chan_of b)) as Hok.
  { destruct (set_ok_lookup seed s _ Hs Hk) as (b' & Hb' & Hc). replace b' with b in * by congruence.
    pose proof (so_chans seed s Hs) as HF. rewrite Forall_lookup in HF. exact (HF _ _ Hc). }
  pose proof (length_chan_enc _ Hok) as Hel. pose proof Hok as (_ & _ & _ & Hsz).
  assert (length tlm_header + length (chan_enc (chan_of b)) ≤ FW_COM_BUFFER_MAX_SIZE) as Hone.
  { rewrite Hel. cbn [length tlm_header]. unfold value_fits, FW_COM_BUFFER_MAX_SIZE in *. lia. }
  split; [done|]. pose proof (add_value_rep (chan_of b) (rc_pkt x) cur Hok Hp) as Hadd. rewrite decide_False in Hadd by done.
  cbn [c_id c_time c_value chan_of] in Hadd. rewrite Hadd.
  assert (0 < num_entries (rc_pkt x))%Z as Hn.
  { pose proof (pr_count _ _ Hp). destruct (decide (num_entries (rc_pkt x) = 0%Z)) as [E|]; [|lia].
    rewrite (pr_empty _ _ Hp E) in Hfit. by rewrite decide_True in Hfit || lia. }
  rewrite (proj2 (Z.ltb_lt _ _) Hn).
  destruct (pkt_reset_rep (rc_pkt x)) as (p & Hr & Hpr); [apply (pr_wf _ _ Hp)|apply (pr_cap _ _ Hp)|].
  rewrite Hr. by exists p.
Qed.

Definition at_next (x x1 : RunCtx) (p d : nat) : Prop :=
  rc_idx x1 = rc_idx x + 1 ∧ rc_processed x1 = rc_processed x + p ∧ rc_deferred x1 = (rc_deferred x + Z.of_nat d)%Z.

(** A bucket with nothing to send. *)
Lemma loop_done_skip x x1 s cur x' s' o :
  at_next x x1 0 0 → (∀ y, chans s !! rc_idx x = Some y → c_updated y = false) →
  loop_done x1 s cur x' s' o → loop_done x s cur x' s' o.
Proof.
  intros (Hi & Hpr & Hd) Hy (Hok & Hc & Hde & Hpk). unfold loop_done. rewrite Hi, Hpr, Hd, Nat.add_0_r in *.
  destruct (chans s !! rc_idx x) as [y|] eqn:E.
  - rewrite (drop_S _ y (rc_idx x) E). specialize (Hy y eq_refl). unfold due, updated_of in *.
    rewrite (filter_cons_False _ y) by (by rewrite Hy). cbn [clear_first]. rewrite Hy.
    rewrite Nat.add_1_r in *. rewrite (take_S_r _ _ y E), <- app_assoc in Hc. split_and!; [done|done|lia|done].
  - apply lookup_ge_None_1 in E. rewrite (drop_ge _ (rc_idx x)), (take_ge _ (rc_idx x)) by lia.
    rewrite (drop_ge _ (rc_idx x + 1)) in Hc, Hde, Hpk by lia. rewrite take_ge in Hc by lia. split_and!; [done|done|lia|done].
Qed.

(** A channel left for later. *)
Lemma loop_done_defer x x1 s cur x' s' o y :
  at_next x x1 0 1 → chans s !! rc_idx x = Some y → c_updated y = true → cap ≤ rc_processed x →
  loop_done x1 s cur x' s' o → loop_done x s cur x' s' o.
Proof.
  intros (Hi & Hpr & Hd) E Hy Hcap (Hok & Hc & Hde & Hpk). unfold loop_done. rewrite Hi, Hpr, Hd, Nat.add_0_r in *.
  replace (cap - rc_processed x) with 0 in * by lia. rewrite (drop_S _ y (rc_idx x) E). unfold due, updated_of in *.
  rewrite (filter_cons_True _ y) by done. cbn [clear_first]. rewrite Hy, Nat.add_1_r in *.
  assert (∀ l, clear_first 0 l = l) as H0 by (induction l as [|z l IH]; [done|]; cbn [clear_first]; rewrite IH; by destruct (c_updated z)).
  rewrite H0, (take_S_r _ _ y E), <- app_assoc in Hc. split_and!; [done|done| |done].
  cbn [length]. rewrite !Nat.sub_0_r in *. lia.
Qed.

(** A channel sent. *)
Lemma loop_done_send x x1 s s1 cur x' s' o y :
  at_next x x1 1 0 → chans s !! rc_idx x = Some y → c_updated y = true → rc_processed x < cap →
  chans s1 = <[rc_idx x := set_flag false y]> (chans s) →
  length cur + length (chan_enc y) ≤ FW_COM_BUFFER_MAX_SIZE →
  loop_done x1 s1 (cur ++ chan_enc y) x' s' o → loop_done x s cur x' s' o.
Proof.
  intros (Hi & Hpr & Hd) E Hy Hcap Hs1 Hfit (Hok & Hc & Hde & Hpk). pose proof (lookup_lt_Some _ _ _ E) as Hlen. unfold loop_done.
  rewrite Hi, Hpr, Hd, Hs1 in *. rewrite drop_insert_lt in Hc, Hde, Hpk by lia.
  replace (rc_idx x + 1) with (S (rc_idx x)) in Hc, Hde, Hpk by lia.
  rewrite (drop_S _ y (rc_idx x) E). unfold due, updated_of in *. rewrite (filter_cons_True _ y) by done.
  replace (cap - rc_processed x) with (S (cap - (rc_processed x + 1))) by lia. cbn [clear_first take pack length]. rewrite Hy.
  rewrite decide_True by done. split_and!; [done| |lia|exact Hpk].
  rewrite Hc, (take_S_r _ _ (set_flag false y)) by (by rewrite list_lookup_insert_eq).
  rewrite take_insert_ge by lia. by rewrite <- app_assoc.
Qed.

(** A packet sent because the next channel did not fit. *)
Lemma loop_done_flush x x1 s cur b x' s' o y :
  rc_idx x1 = rc_idx x → rc_processed x1 = rc_processed x → rc_deferred x1 = rc_deferred x →
  chans s !! rc_idx x = Some y → c_updated y = true → rc_processed x < cap → as_slice b = cur →
  ¬ length cur + length (chan_enc y) ≤ FW_COM_BUFFER_MAX_SIZE →
  length tlm_header + length (chan_enc y) ≤ FW_COM_BUFFER_MAX_SIZE →
  loop_done x1 s tlm_header x' s' o → loop_done x s cur x' s' (TlPktSend b :: o).
Proof.
  intros Hi Hpr Hd E Hy Hcap Hb Hno Hone (Hok & Hc & Hde & cur' & Hp & Ho). unfold loop_done. rewrite Hi, Hpr, Hd in *.
  split_and!; [done|done|done|]. exists cur'. split; [done|]. cbn [fmap list_fmap obs app]. rewrite Ho, Hb.
  rewrite (drop_S _ y (rc_idx x) E). unfold due. rewrite (filter_cons_True _ y) by done.
  replace (cap - rc_processed x) with (S (cap - (rc_processed x + 1))) by lia. cbn [take pack].
  by rewrite decide_True, decide_False by done.
Qed.

Lemma loop_set_ok n fuel x s cur :
  rc_idx x + n = HASH_BUCKETS → 2 * n ≤ fuel → set_ok seed s → pkt_rep (rc_pkt x) cur →
  ∃ x' s' o, loop_set fuel cap x s = Ret (x', s', o) ∧ loop_done x s cur x' s' o.
Proof.
  revert fuel x s cur. induction n as [|n IH]; intros fuel x s cur Hk Hfuel Hs Hp.
  { exists x, s, []. split.
    - destruct fuel; [done|]. cbn [loop_set]. by rewrite bool_decide_eq_false_2 by lia.
    - unfold loop_done. pose proof (length_chans s (set_ok_len seed s Hs)) as Hl. pose proof (so_free seed s Hs).
      rewrite drop_ge, take_ge by lia. cbn [clear_first]. rewrite app_nil_r.
      split_and!; [done|done|cbn; lia|]. exists cur. split; [done|]. unfold due. by rewrite filter_nil, take_nil. }
  destruct fuel as [|fuel]; [lia|]. cbn [loop_set]. rewrite bool_decide_eq_true_2 by lia.
  destruct (lookup_lt_is_Some_2 (buckets s) (rc_idx x)) as [b Hb]; [rewrite (so_buckets seed s Hs); lia|].
  destruct (decide (rc_idx x < free s ∧ b_updated b = true)) as [[Hlt Hu]|Hskip].
  2: { assert (turn_set cap x s = Ret (MkRunCtx (rc_idx x + 1) (rc_pkt x) (rc_processed x) (rc_deferred x), s, [])) as ->.
       { unfold turn_set. rewrite (index_get_ok _ _ _ Hb), outcome_bind_ret, (so_used seed s Hs _ _ Hb).
         destruct (b_updated b); [|done]. rewrite bool_decide_eq_false_2 by tauto. done. }
       edestruct (IH fuel) as (x' & s' & o & -> & Hdone); [| |exact Hs| |]; [cbn [rc_idx]; lia|lia|exact Hp|].
       exists x', s', o. split; [done|]. eapply loop_done_skip; [| |exact Hdone].
       - unfold at_next. cbn. split_and!; lia.
       - intros y Hy. rewrite chans_lookup in Hy by (by apply (set_ok_len seed)). case_decide; [|done].
         rewrite Hb in Hy. cbn in Hy. injection Hy as <-. cbn. destruct (b_updated b); [tauto|done]. }
  assert (chans s !! rc_idx x = Some (chan_of b)) as Hy.
  { destruct (set_ok_lookup seed s _ Hs Hlt) as (b' & Hb' & Hc). by replace b with b' by congruence. }
  destruct (decide (cap ≤ rc_processed x)) as [Hfull|Hroom].
  { assert (turn_set cap x s = Ret (MkRunCtx (rc_idx x + 1) (rc_pkt x) (rc_processed x) (rc_deferred x + 1), s, [])) as ->.
    { unfold turn_set. rewrite (index_get_ok _ _ _ Hb), outcome_bind_ret, (so_used seed s Hs _ _ Hb).
      rewrite Hu, !bool_decide_eq_true_2 by done. done. }
    edestruct (IH fuel) as (x' & s' & o & -> & Hdone); [| |exact Hs| |]; [cbn [rc_idx]; lia|lia|exact Hp|].
    exists x', s', o. split; [done|]. eapply loop_done_defer; [|exact Hy|done|done|exact Hdone].
    unfold at_next. cbn. split_and!; lia. }
  destruct (chans_clear seed s (rc_idx x) b Hs Hb Hlt) as [Hs1 Hch1].
  destruct (decide (length cur + length (chan_enc (chan_of b)) ≤ FW_COM_BUFFER_MAX_SIZE)) as [Hfit|Hno].
  - destruct (turn_adds x s b cur) as (p & -> & Hp1); [done..|lia|done|done|].
    edestruct (IH fuel) as (x' & s' & o & -> & Hdone); [| |exact Hs1| |]; [cbn [rc_idx]; lia|lia|exact Hp1|].
    exists x', s', o. split; [done|]. eapply loop_done_send; [|exact Hy|done|lia|exact Hch1|done|exact Hdone].
    unfold at_next. cbn. split_and!; lia.
  - destruct (turn_flushes x s b cur) as (Hone & p & -> & Hp1); [done..|lia|done|done|].
    set (x1 := MkRunCtx (rc_idx x) p (rc_processed x) (rc_deferred x)). destruct fuel as [|fuel]; [lia|].
    cbn [loop_set]. rewrite bool_decide_eq_true_2 by (cbn; lia).
    destruct (turn_adds x1 s b tlm_header) as (p2 & -> & Hp2); [done..|cbn; lia|done|done|].
    edestruct (IH fuel) as (x' & s' & o & -> & Hdone); [| |exact Hs1| |]; [cbn [rc_idx x1]; lia|lia|exact Hp2|].
    exists x', s'. eexists. split; [done|]. cbn [app].
    eapply (loop_done_flush x x1); [done|done|done|exact Hy|done|lia|apply (pr_bytes _ _ Hp)|done|done|].
    eapply loop_done_send; [|exact Hy|done|cbn; lia|exact Hch1|done|exact Hdone].
    unfold at_next. cbn. split_and!; lia.
Qed.
End loop.
