(* ===== verification/TlmChanRuns.v ===== *)
(** The runs of [Svc::TlmChan]: the component refines two lists of channels,
    a Run sends what was received since the last one, a reader gets the latest
    value, and producers may write while a Run is draining. *)

From stdpp Require Import list gmap.
From S2P Require Import Prelude Serial SerialFacts Codec Time Fpp Packets Comp TlmChan.

(** * The component against its specification *)

Record atlm : Set := MkA {
  a_active : list chan;
  a_inactive : list chan;
  a_count : Z;
  a_throttle : EventThrottle;
}.

Inductive tlm_call : Set :=
| CRecv (id : Z) (t : Time) (v : serbuf)
| CGet (id : Z) (t : Time) (v : serbuf)
| CRun
| CPing (key : Z).

Definition tlm_result : Set := option (TlmValid * Time * serbuf).

(** Arguments in the range of their types; values that fit a packet. *)
Definition call_typed (k : tlm_call) : Prop :=
  match k with CRecv id t v => is_u 32 id ∧ Time_wf t ∧ value_ok v | _ => True end.
Definition call_fits (k : tlm_call) : Prop :=
  match k with CRecv _ _ v => value_fits v | _ => True end.
Definition call_ok (k : tlm_call) : Prop :=
  match k with CRecv id t v => chan_ok (MkChan id t v true) | _ => True end.

Lemma calls_ok ks : Forall call_typed ks → Forall call_fits ks → Forall call_ok ks.
Proof.
  intros Ht Hf. apply Forall_forall. intros k Hk. rewrite Forall_forall in Ht, Hf. specialize (Ht k Hk). specialize (Hf k Hk).
  destruct k; cbn in *; [|done..]. destruct Ht as (? & ? & ?). done.
Qed.

(** The newer of two values; without a common time base the unsent one. *)
Definition pick (x y : option chan) : option chan :=
  match x, y with
  | Some a, Some i =>
      Some (match compare (c_time i) (c_time a) with
            | Gt => i
            | Incomparable => if c_updated i then i else a
            | _ => a
            end)
  | Some a, None => Some a
  | None, y => y
  end.

Definition a_recv (id : Z) (t : Time) (v : serbuf) (a : atlm) : atlm * list aout :=
  if decide (chan_find id (a_active a) = None ∧ length (a_active a) = HASH_BUCKETS) then
    let '(ok, th) := ok_to_emit (a_throttle a) in
    (MkA (a_active a) (a_inactive a) (a_count a) th, if ok : bool then [AExhausted id] else [])
  else (MkA (chan_put (MkChan id t v true) (a_active a)) (a_inactive a) (a_count a) (a_throttle a), []).

Definition a_get (id : Z) (t : Time) (v : serbuf) (a : atlm) : TlmValid * Time * serbuf :=
  match pick (chan_find id (a_active a)) (chan_find id (a_inactive a)) with
  | Some x => (TlmValid_Valid, c_time x, c_value x)
  | None => (TlmInvalid, t, (reset_ser v).2)
  end.

(** The stores change roles; what was updated goes down, and the other store
    starts with clean flags. *)
Definition a_run (a : atlm) : atlm * list aout :=
  (MkA (set_flag false <$> a_inactive a) (clear_first HASH_BUCKETS (a_active a)) (a_count a) (a_throttle a),
   APkt <$> pack tlm_header (updated_of (a_active a))).

Definition a_step (k : tlm_call) (a : atlm) : tlm_result * atlm * list aout :=
  match k with
  | CRecv id t v => let '(a', o) := a_recv id t v a in (None, a', o)
  | CGet id t v => (Some (a_get id t v a), a, [])
  | CRun => let '(a', o) := a_run a in (None, a', o)
  | CPing key => (None, a, [APing key])
  end.
Fixpoint a_steps (ks : list tlm_call) (a : atlm) : list tlm_result * atlm * list aout :=
  match ks with
  | [] => ([], a, [])
  | k :: ks' =>
      let '(r, a1, o1) := a_step k a in
      let '(rs, a2, o2) := a_steps ks' a1 in
      (r :: rs, a2, o1 ++ o2)
  end.

Section refinement.
Context `{BuildProfile} (seed : Z).

Definition tlm_step (k : tlm_call) : M tlm_result :=
  match k with
  | CRecv id t v => _ ← tlm_recv_handler id t v; mret None
  | CGet id t v => r ← tlm_get_handler id t v; mret (Some r)
  | CRun => _ ← run_handler; mret None
  | CPing key => _ ← ping_in_handler key; mret None
  end.
Fixpoint tlm_steps (ks : list tlm_call) : M (list tlm_result) :=
  match ks with
  | [] => mret []
  | k :: ks' => r ← tlm_step k; rs ← tlm_steps ks'; mret (r :: rs)
  end.

Record rel (c : TlmChan) (a : atlm) : Prop := {
  r_seed : hash_seed c = seed;
  r_sets : length (sets c) = 2;
  r_active_le : active c ≤ 1;
  r_active : ∃ s, sets c !! active c = Some s ∧ set_ok seed s ∧ chans s = a_active a;
  r_inactive : ∃ s, sets c !! (1 - active c) = Some s ∧ set_ok seed s ∧ chans s = a_inactive a;
  r_count : proc_cap_count c = a_count a;
  r_throttle : bucket_pool_throttle c = a_throttle a;
  r_wired : pkt_send_connected c = true ∧ ping_out_connected c = true;
}.

Lemma tlm_recv_ok c a id t v :
  rel c a → chan_ok (MkChan id t v true) →
  ∃ c' o, tlm_recv_handler id t v c = Ret (tt, c', o) ∧ rel c' (a_recv id t v a).1 ∧ obs <$> o = (a_recv id t v a).2.
Proof.
  intros [Hseed Hl Hle (sa & Hsa & Hok & Hch) (si & Hsi & Hoki & Hchi) Hc Ht Hw] Hx.
  pose proof (lookup_lt_Some _ _ _ Hsa) as Hlt. unfold tlm_recv_handler, a_recv. erewrite comp_bind_quiet by reflexivity.
  rewrite (get_set_ok _ _ _ _ Hsa), Hseed. pose proof (recv_set_ok seed sa id t v Hok Hx) as Hr. rewrite Hch in Hr.
  case_decide as Hd.
  - rewrite (comp_lift_ok _ _ _ _ Hr). cbn [fst snd].
    erewrite comp_bind_quiet; [|by rewrite put_set_ok by done; cbn].
    rewrite (list_insert_id (sets c)) by done. replace (set_sets (sets c) c) with c by (by destruct c).
    erewrite comp_bind_quiet by reflexivity. rewrite Ht. destruct (ok_to_emit (a_throttle a)) as [ok th].
    erewrite comp_bind_quiet by reflexivity. exists (set_throttle th c). destruct ok; eexists; (split; [reflexivity|]); (split; [|done]).
    all: constructor; cbn; eauto.
  - destruct Hr as (i & s1 & s2 & Hr & Hu & Hok2 & Hch2). rewrite (comp_lift_ok _ _ _ _ Hr). cbn [fst snd].
    eexists _, []. split.
    { erewrite comp_bind_quiet; [reflexivity|]. rewrite (comp_lift_ok _ _ _ _ Hu).
      rewrite <- (comp_bind_quiet (mret tt) (λ _, put_set (active c) s2) c tt c) by done.
      unfold put_set. erewrite comp_bind_quiet by reflexivity. erewrite comp_bind_quiet by reflexivity.
      by rewrite (comp_lift_ok _ _ _ _ (index_set_ok _ _ _ Hlt)). }
    split; [|done]. constructor; cbn; try done.
    + by rewrite length_insert.
    + exists s2. by rewrite list_lookup_insert_eq by done.
    + exists si. rewrite list_lookup_insert_ne by lia. done.
Qed.

Lemma tlm_get_ok c a id t v :
  rel c a → tlm_get_handler id t v c = Ret (a_get id t v a, c, []).
Proof.
  intros [Hseed Hl Hle (sa & Hsa & Hok & Hch) (si & Hsi & Hoki & Hchi) Hc Ht Hw].
  unfold tlm_get_handler, a_get. erewrite comp_bind_quiet by reflexivity.
  rewrite (get_set_ok _ _ _ _ Hsa), (get_set_ok _ _ _ _ Hsi), Hseed.
  pose proof (find_entry_ok seed sa id Hok) as Ha. pose proof (find_entry_ok seed si id Hoki) as Hi. rewrite Hch in Ha. rewrite Hchi in Hi.
  destruct (chan_find id (a_active a)) as [x|]; [destruct Ha as (ia & ba & Ha & Hba & <-)|].
  all: rewrite (comp_lift_ok _ _ _ _ Ha).
  all: destruct (chan_find id (a_inactive a)) as [y|]; [destruct Hi as (ii & bi & Hi & Hbi & <-)|].
  all: rewrite (comp_lift_ok _ _ _ _ Hi); cbn [pick].
  - erewrite comp_bind_quiet;
      [|rewrite (comp_lift_ok _ _ _ _ (index_get_ok _ _ _ Hba)), (comp_lift_ok _ _ _ _ (index_get_ok _ _ _ Hbi)); reflexivity].
    unfold chan_of; cbn [c_time c_updated c_value]. by destruct (compare _ _), (b_updated bi).
  - by erewrite comp_bind_quiet; [|rewrite (comp_lift_ok _ _ _ _ (index_get_ok _ _ _ Hba)); reflexivity].
  - by erewrite comp_bind_quiet; [|rewrite (comp_lift_ok _ _ _ _ (index_get_ok _ _ _ Hbi)); reflexivity].
  - by erewrite comp_bind_quiet; [|reflexivity].
Qed.

Lemma new_packet_rep : ∃ p, reset_pkt_ser TlmPacket_new = (SOk tt, p) ∧ pkt_rep p tlm_header.
Proof. apply pkt_reset_rep; [apply wf_new|reflexivity]. Qed.

Lemma chans_flags (s : TlmSet) : chans (set_buckets (with_updated false <$> buckets s) s) = set_flag false <$> chans s.
Proof. unfold chans. cbn [free buckets set_buckets]. rewrite <- fmap_take, <- !list_fmap_compose. done. Qed.

Lemma set_ok_all_flags s : set_ok seed s → set_ok seed (set_buckets (with_updated false <$> buckets s) s).
Proof.
  intros Hs. apply (set_ok_flags seed s _ (λ _ _, false) Hs); [by rewrite length_fmap|].
  intros i b Hb. by rewrite list_lookup_fmap, Hb.
Qed.

(** The state after the swap: the store to drain is the one written so far. *)
Lemma run_begin_ok c a :
  rel c a →
  ∃ c1 p s, run_begin c = Ret (MkRunCtx 0 p 0 0, c1, []) ∧ pkt_rep p tlm_header ∧
    sets c1 !! (1 - active c1) = Some s ∧ chans s = a_active a ∧
    rel c1 (MkA (set_flag false <$> a_inactive a) (a_active a) (a_count a) (a_throttle a)).
Proof.
  intros [Hseed Hl Hle (sa & Hsa & Hok & Hch) (si & Hsi & Hoki & Hchi) Hc Ht Hw].
  destruct new_packet_rep as (p & Hp & Hrep). pose proof (lookup_lt_Some _ _ _ Hsi) as Hlt.
  unfold run_begin. erewrite comp_bind_quiet by reflexivity. erewrite comp_bind_quiet by reflexivity.
  rewrite (get_set_ok _ _ _ si) by done. rewrite put_set_ok by done. unfold pkt_reset. rewrite Hp.
  erewrite comp_bind_quiet by reflexivity. eexists _, p, sa. split; [reflexivity|]. split; [done|].
  cbn [sets set_sets set_active active]. replace (1 - (1 - active c)) with (active c) by lia.
  rewrite list_lookup_insert_ne by lia. split_and!; [done|done|].
  constructor; cbn [sets set_sets set_active active hash_seed proc_cap_count bucket_pool_throttle pkt_send_connected ping_out_connected
    a_active a_inactive a_count a_throttle]; try done.
  - by rewrite length_insert.
  - lia.
  - eexists. rewrite list_lookup_insert_eq by done. split; [done|]. rewrite chans_flags, Hchi. split; [by apply set_ok_all_flags|done].
  - exists sa. replace (1 - (1 - active c)) with (active c) by lia. by rewrite list_lookup_insert_ne by lia.
Qed.

Lemma due_all l : length l ≤ HASH_BUCKETS → due HASH_BUCKETS l = updated_of l ∧ length (updated_of l) - HASH_BUCKETS = 0.
Proof.
  intros Hl. unfold due, updated_of. pose proof (length_filter (λ x, c_updated x = true) l) as Hf.
  split; [apply take_ge; lia|lia].
Qed.

Lemma run_finish_ok c x cur :
  pkt_rep (rc_pkt x) cur → rc_deferred x = 0%Z →
  ∃ o, run_finish x c = Ret (tt, c, o) ∧ obs <$> o = APkt <$> pack_rest cur.
Proof.
  intros Hp Hd. unfold run_finish, pack_rest. rewrite Hd. cbn [Z.ltb Z.compare].
  destruct (decide (cur = tlm_header)) as [E|E].
  - rewrite (pr_some _ _ Hp E). exists []. split; reflexivity.
  - assert (0 < num_entries (rc_pkt x))%Z as Hn.
    { pose proof (pr_count _ _ Hp). destruct (decide (num_entries (rc_pkt x) = 0%Z)) as [E0|]; [|lia].
      by destruct E; apply (pr_empty _ _ Hp). }
    rewrite (proj2 (Z.ltb_lt _ _) Hn). eexists. split; [reflexivity|]. cbn. by rewrite (pr_bytes _ _ Hp).
Qed.

Lemma tlm_run_ok c a :
  rel c a → ∃ c' o, run_handler c = Ret (tt, c', o) ∧ rel c' (a_run a).1 ∧ obs <$> o = (a_run a).2.
Proof.
  intros Hrel. pose proof (r_wired _ _ Hrel) as [Hw _]. unfold run_handler, run_with_cap.
  erewrite comp_bind_quiet by reflexivity. rewrite Hw.
  destruct (run_begin_ok c a Hrel) as (c1 & p & s & Hb & Hp & Hs & Hch & Hrel1). rewrite (comp_bind_quiet _ _ _ _ _ Hb).
  assert (set_ok seed s) as Hok. { destruct (r_inactive _ _ Hrel1) as (s' & Hs' & Hok & _). congruence. }
  destruct (loop_set_ok seed MAX_ENTRIES_PER_RUN HASH_BUCKETS (2 * HASH_BUCKETS) (MkRunCtx 0 p 0 0) s tlm_header)
    as (x' & s' & o & Hloop & Hok' & Hch' & Hde & cur' & Hp' & Ho); [done|lia|done|done|].
  pose proof (drain_loop_local (2 * HASH_BUCKETS) MAX_ENTRIES_PER_RUN (MkRunCtx 0 p 0 0) c1 s Hs) as Hdrain. rewrite Hloop in Hdrain.
  cbn [rc_idx rc_processed rc_deferred take drop app] in Hch', Hde, Ho. unfold MAX_ENTRIES_PER_RUN in Hch', Hde, Ho.
  rewrite !Nat.sub_0_r in Hch', Hde, Ho. rewrite Hch, ?drop_0 in Hch', Hde, Ho. cbn [take app] in Hch'.
  destruct (due_all (a_active a)) as [Hdue Hd0].
  { rewrite <- Hch. rewrite length_chans by (by apply (set_ok_len seed)). apply (so_free seed s Hok). }
  rewrite Hdue in Ho. rewrite Hd0 in Hde.
  destruct (run_finish_ok (with_inactive s' c1) x' cur' Hp' Hde) as (o2 & Hfin & Ho2).
  rewrite (comp_bind_ret _ _ _ _ _ _ Hdrain), Hfin. eexists _, _. split; [reflexivity|]. split.
  - destruct Hrel1 as [Hseed Hl Hle (sa & Hsa & Hoka & Hcha) _ Hc Ht Hw1]. pose proof (lookup_lt_Some _ _ _ Hs) as Hlt.
    constructor; unfold with_inactive, a_run; cbn [sets set_sets active hash_seed proc_cap_count bucket_pool_throttle
      pkt_send_connected ping_out_connected a_active a_inactive a_count a_throttle fst]; try done.
    + by rewrite length_insert.
    + exists sa. by rewrite list_lookup_insert_ne by lia.
    + exists s'. by rewrite list_lookup_insert_eq by done.
  - rewrite fmap_app, Ho2. exact Ho.
Qed.

Lemma tlm_step_ok k c a :
  rel c a → call_ok k →
  ∃ c' o, tlm_step k c = Ret ((a_step k a).1.1, c', o) ∧ rel c' (a_step k a).1.2 ∧ obs <$> o = (a_step k a).2.
Proof.
  intros Hrel Hk. destruct k as [id t v|id t v| |key]; cbn [tlm_step a_step].
  - destruct (tlm_recv_ok c a id t v Hrel Hk) as (c' & o & E & Hr & Ho). destruct (a_recv id t v a) as [a' oa].
    rewrite (comp_bind_ret _ _ _ _ _ _ E). cbn. rewrite app_nil_r. eauto.
  - rewrite (comp_bind_quiet _ _ _ _ _ (tlm_get_ok c a id t v Hrel)). cbn. eauto.
  - destruct (tlm_run_ok c a Hrel) as (c' & o & E & Hr & Ho). destruct (a_run a) as [a' oa].
    rewrite (comp_bind_ret _ _ _ _ _ _ E). cbn. rewrite app_nil_r. eauto.
  - pose proof (r_wired _ _ Hrel) as [_ Hw]. exists c, [TlPingOut key]. split; [|done].
    erewrite comp_bind_ret; [|unfold ping_in_handler; erewrite comp_bind_quiet by reflexivity; rewrite comp_assert_ok by done; reflexivity].
    reflexivity.
Qed.

Lemma tlm_steps_ok ks c a :
  rel c a → Forall call_ok ks →
  ∃ c' o, tlm_steps ks c = Ret ((a_steps ks a).1.1, c', o) ∧ rel c' (a_steps ks a).1.2 ∧ obs <$> o = (a_steps ks a).2.
Proof.
  intros Hrel Hks. revert c a Hrel. induction Hks as [|k ks Hk _ IH]; intros c a Hrel; [exists c, []; done|].
  destruct (tlm_step_ok k c a Hrel Hk) as (c1 & o1 & E1 & Hr1 & Ho1). cbn [tlm_steps a_steps].
  destruct (a_step k a) as [[r a1] oa1]. cbn [fst snd] in *.
  destruct (IH c1 a1 Hr1) as (c2 & o2 & E2 & Hr2 & Ho2). destruct (a_steps ks a1) as [[rs a2] oa2]. cbn [fst snd] in *.
  rewrite (comp_bind_ret _ _ _ _ _ _ E1), (comp_bind_ret _ _ _ _ _ _ E2). exists c2. eexists. split; [reflexivity|].
  split; [done|]. cbn. rewrite app_nil_r, fmap_app. congruence.
Qed.

Definition a_new : atlm := MkA [] [] 0 (EventThrottle_new BUCKET_POOL_EXHAUSTED_THROTTLE).

Lemma set_ok_new : set_ok seed TlmSet_new.
Proof.
  constructor; unfold TlmSet_new; cbn [slots buckets free].
  - apply length_replicate.
  - apply length_replicate.
  - lia.
  - intros h Hh. exists None, []. cbn [slots buckets free]. split_and!; [by apply lookup_replicate_2|constructor|constructor|].
    intros i. split; [intros []%elem_of_nil|lia].
  - constructor.
  - intros i b Hb. apply lookup_replicate in Hb as [-> _]. done.
  - constructor.
Qed.

Lemma rel_new : rel (TlmChan_new_with_seed true true seed) a_new.
Proof.
  constructor; try done; cbn [sets active TlmChan_new_with_seed]; [lia|..].
  all: exists TlmSet_new; split; [reflexivity|]; split; [apply set_ok_new|reflexivity].
Qed.
End refinement.

(** * What a run sends *)

Lemma pack_ok xs r :
  Forall chan_ok xs → length (tlm_header ++ r) ≤ FW_COM_BUFFER_MAX_SIZE →
  ∃ ps, pack (tlm_header ++ r) xs = (λ p, tlm_header ++ p) <$> ps ∧ concat ps = r ++ concat (chan_enc <$> xs) ∧
    Forall (λ p, p ≠ [] ∧ length (tlm_header ++ p) ≤ FW_COM_BUFFER_MAX_SIZE) ps.
Proof.
  intros Hxs. revert r. induction Hxs as [|x xs Hx _ IH]; intros r Hr; cbn [pack].
  - unfold pack_rest. destruct (decide (tlm_header ++ r = tlm_header)) as [E|E].
    + exists []. assert (r = []) as -> by (by destruct r). split_and!; [done|done|constructor].
    + exists [r]. cbn. rewrite !app_nil_r. split_and!; [done|done|]. apply Forall_singleton. split; [|done].
      intros ->. by rewrite app_nil_r in E.
  - assert (chan_enc x ≠ []) as Hne by (intros E; pose proof (length_chan_enc x Hx) as Hl; rewrite E in Hl; done).
    case_decide as Hfit.
    + rewrite <- app_assoc. destruct (IH (r ++ chan_enc x)) as (ps & -> & Hc & Hps); [rewrite !length_app in *; lia|].
      exists ps. split_and!; [done| |done]. rewrite Hc. cbn. by rewrite <- app_assoc.
    + assert (length (tlm_header ++ chan_enc x) ≤ FW_COM_BUFFER_MAX_SIZE) as Hone.
      { rewrite length_app, (length_chan_enc x Hx). destruct Hx as (_ & _ & _ & Hs). cbn [length tlm_header].
        unfold value_fits, FW_COM_BUFFER_MAX_SIZE in *. lia. }
      destruct (IH (chan_enc x) Hone) as (ps & Hp & Hc & Hps). exists (r :: ps). cbn [fmap list_fmap concat].
      split_and!; [by rewrite <- Hp|by rewrite Hc|]. constructor; [|done]. split; [|done]. intros ->.
      rewrite app_nil_r, length_app in *. lia.
Qed.

(** ** The values received since the last run *)

Definition pending_step (m : gmap Z (Time * serbuf)) (k : tlm_call) : gmap Z (Time * serbuf) :=
  match k with
  | CRecv id t v => <[id := (t, v)]> m
  | CRun => ∅
  | _ => m
  end.
Definition pending (ks : list tlm_call) : gmap Z (Time * serbuf) := foldl pending_step ∅ ks.

(** All channels come from a list of [HASH_BUCKETS] at most. *)
Definition call_in (ids : list Z) (k : tlm_call) : Prop := match k with CRecv id _ _ => id ∈ ids | _ => True end.

Record store_in (ids : list Z) (l : list chan) : Prop := {
  si_nodup : NoDup (c_id <$> l);
  si_in : ∀ x, x ∈ l → c_id x ∈ ids;
  si_ok : Forall chan_ok l;
}.

Lemma chan_find_Some id l x : chan_find id l = Some x → x ∈ l ∧ c_id x = id.
Proof.
  induction l as [|y l IH]; cbn [chan_find]; [done|]. destruct (Z.eqb_spec (c_id y) id) as [He|Hne].
  - intros [= ->]. set_solver.
  - intros Hx. apply IH in Hx. set_solver.
Qed.

Lemma chan_find_iff ids id l x : store_in ids l → chan_find id l = Some x ↔ x ∈ l ∧ c_id x = id.
Proof.
  intros [Hnd _ _]. split; [apply chan_find_Some|]. intros [[i Hi]%list_elem_of_lookup Hid]. by eapply chan_find_at.
Qed.

Lemma chan_find_put x l id :
  chan_find id (chan_put x l) = if decide (id = c_id x) then Some x else chan_find id l.
Proof.
  induction l as [|y l IH]; cbn [chan_put chan_find].
  - case_decide as E; destruct (Z.eqb_spec (c_id x) id) as [|Hne]; try done; congruence.
  - destruct (Z.eqb_spec (c_id y) (c_id x)) as [He|Hne]; cbn [chan_find].
    + case_decide as E; destruct (Z.eqb_spec (c_id x) id), (Z.eqb_spec (c_id y) id); try done; congruence.
    + rewrite IH. destruct (Z.eqb_spec (c_id y) id); case_decide; try done. congruence.
Qed.

Lemma chan_put_elem x l y : y ∈ chan_put x l → y = x ∨ y ∈ l.
Proof.
  induction l as [|z l IH]; cbn [chan_put]; [set_solver|]. destruct (Z.eqb_spec (c_id z) (c_id x)); set_solver.
Qed.

Lemma chan_put_ids x l : c_id <$> chan_put x l = if decide (c_id x ∈ c_id <$> l) then c_id <$> l else (c_id <$> l) ++ [c_id x].
Proof.
  induction l as [|z l IH]; cbn [chan_put].
  - rewrite decide_False by apply not_elem_of_nil. done.
  - rewrite fmap_cons. destruct (Z.eqb_spec (c_id z) (c_id x)) as [He|Hne]; rewrite fmap_cons.
    + rewrite decide_True by (rewrite He; set_solver). by rewrite He.
    + rewrite IH. destruct (decide (c_id x ∈ c_id <$> l)); [rewrite decide_True by set_solver|rewrite decide_False by set_solver]; done.
Qed.

Lemma store_in_put ids l id t v :
  store_in ids l → id ∈ ids → chan_ok (MkChan id t v true) → store_in ids (chan_put (MkChan id t v true) l).
Proof.
  intros [Hnd Hin Hok] Hid Hx. constructor.
  - rewrite chan_put_ids. case_decide as E; [done|]. apply NoDup_app. split_and!; [done| |apply NoDup_singleton].
    intros i Hi ->%list_elem_of_singleton. done.
  - intros y [->|Hy]%chan_put_elem; [done|by apply Hin].
  - apply Forall_forall. intros y [->|Hy]%chan_put_elem; [done|]. rewrite Forall_forall in Hok. by apply Hok.
Qed.

(** Flags changed, channel by channel. *)
Lemma store_in_flags ids l l' :
  Forall2 (λ x y, ∃ u, y = set_flag u x) l l' → store_in ids l → store_in ids l'.
Proof.
  intros HF [Hnd Hin Hok]. assert (c_id <$> l' = c_id <$> l) as E.
  { induction HF as [|x y l l' [u ->] HF IH]; [done|]. cbn. f_equal. apply IH; [by inversion Hnd|set_solver|by inversion Hok]. }
  constructor; [by rewrite E| |].
  - intros y Hy. assert (c_id y ∈ c_id <$> l) as (x & -> & Hx)%list_elem_of_fmap by (rewrite <- E; by apply list_elem_of_fmap_2).
    by apply Hin.
  - clear Hnd Hin E. induction HF as [|x y l l' [u ->] HF IH]; [constructor|]. inversion Hok; subst. constructor; [done|by apply IH].
Qed.

Lemma clear_first_flags m l : Forall2 (λ x y, ∃ u, y = set_flag u x) l (clear_first m l).
Proof.
  assert (∀ x, ∃ u, x = set_flag u x) as Hid by (intros x; exists (c_updated x); by destruct x).
  revert m. induction l as [|x l IH]; intros m; cbn [clear_first]; [constructor|].
  destruct (c_updated x); [destruct m|]; constructor; eauto. apply Forall_Forall2_diag, Forall_forall. auto.
Qed.
Lemma set_flag_flags l : Forall2 (λ x y, ∃ u, y = set_flag u x) l (set_flag false <$> l).
Proof. induction l; constructor; eauto. Qed.

Lemma store_full ids l id :
  length ids ≤ HASH_BUCKETS → store_in ids l → id ∈ ids → ¬ (chan_find id l = None ∧ length l = HASH_BUCKETS).
Proof.
  intros Hlen [Hnd Hin _] Hid [Hnone Hfull]. rewrite chan_find_None in Hnone.
  assert (NoDup (id :: (c_id <$> l))) as Hnd'.
  { constructor; [|done]. intros (x & E & Hx)%list_elem_of_fmap. by apply (Hnone x). }
  assert (id :: (c_id <$> l) ⊆+ ids) as Hsub.
  { apply NoDup_submseteq; [done|]. intros i [->|(x & -> & Hx)%list_elem_of_fmap]%elem_of_cons; [done|by apply Hin]. }
  apply submseteq_length in Hsub. cbn [length] in Hsub. rewrite length_fmap in Hsub. lia.
Qed.

Definition a_in (ids : list Z) (a : atlm) : Prop := store_in ids (a_active a) ∧ store_in ids (a_inactive a).

Lemma a_step_in ids k a :
  length ids ≤ HASH_BUCKETS → a_in ids a → call_ok k → call_in ids k → a_in ids (a_step k a).1.2.
Proof.
  intros Hlen [Ha Hi] Hk Hin. destruct k as [id t v|id t v| |key]; cbn [a_step]; try done.
  - unfold a_recv. rewrite decide_False by (by eapply store_full). cbn. split; [by apply store_in_put|done].
  - split; [eapply store_in_flags; [apply set_flag_flags|exact Hi]|eapply store_in_flags; [apply clear_first_flags|exact Ha]].
Qed.

(** The updated channels of the active store are the values pending. *)
Definition pends (a : atlm) (m : gmap Z (Time * serbuf)) : Prop :=
  ∀ id t v, chan_find id (a_active a) = Some (MkChan id t v true) ↔ m !! id = Some (t, v).

Lemma a_step_pends ids k a m :
  length ids ≤ HASH_BUCKETS → a_in ids a → call_ok k → call_in ids k → pends a m → pends (a_step k a).1.2 (pending_step m k).
Proof.
  intros Hlen [Ha Hi] Hk Hin Hp. destruct k as [id t v|id t v| |key]; cbn [a_step pending_step]; try done.
  - unfold a_recv. rewrite decide_False by (by eapply store_full). cbn. intros id' t' v'. cbn [a_active]. rewrite chan_find_put.
    cbn [c_id]. case_decide as E; [subst id'|].
    + rewrite lookup_insert_eq. split; intros [=]; by subst.
    + rewrite lookup_insert_ne by done. apply Hp.
  - intros id' t' v'. cbn [a_run fst snd a_active]. rewrite lookup_empty. split; [|done].
    intros (Hx & _)%chan_find_Some. apply list_elem_of_fmap in Hx as (y & E & _). by destruct y.
Qed.

Lemma a_steps_pends ids ks a m :
  length ids ≤ HASH_BUCKETS → Forall call_ok ks → Forall (call_in ids) ks → a_in ids a → pends a m →
  a_in ids (a_steps ks a).1.2 ∧ pends (a_steps ks a).1.2 (foldl pending_step m ks).
Proof.
  intros Hlen Hok. revert a m. induction Hok as [|k ks Hk _ IH]; intros a m Hin Ha Hp; [done|].
  apply Forall_cons in Hin as [Hki Hin]. cbn [a_steps foldl].
  pose proof (a_step_in ids k a Hlen Ha Hk Hki) as Ha1. pose proof (a_step_pends ids k a m Hlen Ha Hk Hki Hp) as Hp1.
  destruct (a_step k a) as [[r a1] o1]. cbn [fst snd] in *. specialize (IH a1 _ Hin Ha1 Hp1).
  by destruct (a_steps ks a1) as [[rs a2] o2].
Qed.

Lemma a_steps_app ks1 ks2 a :
  a_steps (ks1 ++ ks2) a =
  let '(rs1, a1, o1) := a_steps ks1 a in let '(rs2, a2, o2) := a_steps ks2 a1 in (rs1 ++ rs2, a2, o1 ++ o2).
Proof.
  revert a. induction ks1 as [|k ks1 IH]; intros a; cbn [app a_steps]; [by destruct (a_steps ks2 a) as [[? ?] ?]|].
  destruct (a_step k a) as [[r a1] o1]. rewrite IH. destruct (a_steps ks1 a1) as [[rs1 a2] o2].
  destruct (a_steps ks2 a2) as [[rs2 a3] o3]. by rewrite app_assoc.
Qed.

Lemma a_new_in ids : a_in ids a_new.
Proof. split; (constructor; [constructor|set_solver|constructor]). Qed.
Lemma a_new_pends : pends a_new ∅.
Proof. intros id t v. cbn. by rewrite lookup_empty. Qed.

(** * What a reader gets *)

Definition latest_step (m : gmap Z (Time * serbuf)) (k : tlm_call) : gmap Z (Time * serbuf) :=
  match k with CRecv id t v => <[id := (t, v)]> m | _ => m end.
Definition latest (ks : list tlm_call) : gmap Z (Time * serbuf) := foldl latest_step ∅ ks.

Definition newer (t t' : Time) : Prop := time_base t = time_base t' ∧ (total_us t < total_us t')%Z.

(** Every value of a channel is newer than the one before. *)
Fixpoint times_increase (m : gmap Z (Time * serbuf)) (ks : list tlm_call) : Prop :=
  match ks with
  | [] => True
  | k :: ks' =>
      match k with
      | CRecv id t v => match m !! id with Some (t0, _) => newer t0 t | None => True end
      | _ => True
      end ∧ times_increase (latest_step m k) ks'
  end.

Lemma chan_find_flags l l' id :
  Forall2 (λ x y, ∃ u, y = set_flag u x) l l' →
  (chan_find id l = None ∧ chan_find id l' = None) ∨
  (∃ x u, chan_find id l = Some x ∧ chan_find id l' = Some (set_flag u x)).
Proof.
  induction 1 as [|x y l l' [u ->] HF IH]; [by left|]. cbn [chan_find c_id set_flag].
  destruct (_ =? _)%Z; [right; eauto|done].
Qed.

Definition older (t : Time) (o : option chan) : Prop := match o with None => True | Some y => newer (c_time y) t ∧ Time_wf (c_time y) end.
Definition has (id : Z) (t : Time) (v : serbuf) (l : list chan) : Prop := ∃ u, chan_find id l = Some (MkChan id t v u).

(** The latest value is in one store, and the other has an older one or
    none. *)
Definition holds_latest (a : atlm) (m : gmap Z (Time * serbuf)) : Prop :=
  ∀ id, match m !! id with
        | None => chan_find id (a_active a) = None ∧ chan_find id (a_inactive a) = None
        | Some (t, v) =>
            Time_wf t ∧
            ((has id t v (a_active a) ∧ older t (chan_find id (a_inactive a))) ∨
             (has id t v (a_inactive a) ∧ older t (chan_find id (a_active a))))
        end.

Lemma has_flags l l' id t v : Forall2 (λ x y, ∃ u, y = set_flag u x) l l' → has id t v l → has id t v l'.
Proof.
  intros HF [u Hu]. destruct (chan_find_flags l l' id HF) as [[E _]|(x & u' & E & E')]; [congruence|].
  rewrite E in Hu. injection Hu as ->. by exists u'.
Qed.
Lemma older_flags l l' id t :
  Forall2 (λ x y, ∃ u, y = set_flag u x) l l' → older t (chan_find id l) → older t (chan_find id l').
Proof.
  intros HF Ho. destruct (chan_find_flags l l' id HF) as [[E E']|(x & u' & E & E')]; rewrite E'; [done|]. by rewrite E in Ho.
Qed.
Lemma none_flags l l' id :
  Forall2 (λ x y, ∃ u, y = set_flag u x) l l' → chan_find id l = None → chan_find id l' = None.
Proof. intros HF E. destruct (chan_find_flags l l' id HF) as [[_ E']|(x & u' & E' & _)]; congruence. Qed.

Lemma newer_trans a b c : newer a b → newer b c → newer a c.
Proof. unfold newer. intros [? ?] [? ?]. split; [congruence|lia]. Qed.

(** A newer value received for a channel. *)
Lemma latest_recv t t0 v0 id a :
  newer t0 t → Time_wf t0 →
  (has id t0 v0 (a_active a) ∧ older t0 (chan_find id (a_inactive a))) ∨
  (has id t0 v0 (a_inactive a) ∧ older t0 (chan_find id (a_active a))) →
  older t (chan_find id (a_inactive a)).
Proof.
  intros Hn Hw [[_ Ho]|[[u Hu] _]]; [|by rewrite Hu].
  destruct (chan_find id (a_inactive a)) as [y|]; [|done]. destruct Ho as [? ?]. split; [by eapply newer_trans|done].
Qed.

Lemma a_step_latest ids k a m :
  length ids ≤ HASH_BUCKETS → a_in ids a → call_ok k → call_in ids k →
  match k with
  | CRecv id t v => match m !! id with Some (t0, _) => newer t0 t | None => True end
  | _ => True
  end → holds_latest a m → holds_latest (a_step k a).1.2 (latest_step m k).
Proof.
  intros Hlen [Ha Hi] Hk Hin Ht Hm. destruct k as [id t v|id t v| |key]; cbn [a_step latest_step]; try done.
  - unfold a_recv. rewrite decide_False by (by eapply store_full). cbn [fst snd]. intros id'. cbn [a_active a_inactive].
    specialize (Hm id'). rewrite !chan_find_put. cbn [c_id]. case_decide as E; [subst id'|].
    + rewrite lookup_insert_eq. split; [by destruct Hk as (_ & ? & _)|]. left. split.
      { exists true. rewrite chan_find_put. cbn [c_id]. by rewrite decide_True. }
      destruct (m !! id) as [[t0 v0]|]; [|by destruct Hm as [_ ->]]. destruct Hm as [Hw Hm]. by eapply latest_recv.
    + rewrite lookup_insert_ne by done. destruct (m !! id') as [[t0 v0]|]; [|done]. destruct Hm as [Hw Hm]. split; [done|].
      assert (has id' t0 v0 (a_active a) → has id' t0 v0 (chan_put (MkChan id t v true) (a_active a))) as Hh.
      { intros [u Hu]. exists u. rewrite chan_find_put. cbn [c_id]. by rewrite decide_False. }
      destruct Hm as [[Hx Ho]|[Hx Ho]]; [left; auto|right; auto].
  - intros id'. specialize (Hm id'). unfold a_run. cbn [fst snd a_active a_inactive].
    pose proof (set_flag_flags (a_inactive a)) as HF1. pose proof (clear_first_flags HASH_BUCKETS (a_active a)) as HF2.
    destruct (m !! id') as [[t0 v0]|].
    + destruct Hm as [Hw [[Hx Ho]|[Hx Ho]]]; (split; [done|]).
      * right. split; [by eapply has_flags|by eapply older_flags].
      * left. split; [by eapply has_flags|by eapply older_flags].
    + destruct Hm as [E1 E2]. split; by eapply none_flags.
Qed.

Lemma a_steps_latest ids ks a m :
  length ids ≤ HASH_BUCKETS → Forall call_ok ks → Forall (call_in ids) ks → times_increase m ks → a_in ids a →
  holds_latest a m → holds_latest (a_steps ks a).1.2 (foldl latest_step m ks).
Proof.
  intros Hlen Hok. revert a m. induction Hok as [|k ks Hk _ IH]; intros a m Hin Ht Ha Hm; [done|].
  apply Forall_cons in Hin as [Hki Hin]. destruct Ht as [Htk Ht]. cbn [a_steps foldl].
  pose proof (a_step_in ids k a Hlen Ha Hk Hki) as Ha1. pose proof (a_step_latest ids k a m Hlen Ha Hk Hki Htk Hm) as Hm1.
  destruct (a_step k a) as [[r a1] o1]. cbn [fst snd] in *. specialize (IH a1 _ Hin Ht Ha1 Hm1).
  by destruct (a_steps ks a1) as [[rs a2] o2].
Qed.

Lemma a_get_latest a m id t v :
  holds_latest a m →
  a_get id t v a = match m !! id with
                   | Some (t', v') => (TlmValid_Valid, t', v')
                   | None => (TlmInvalid, t, (reset_ser v).2)
                   end.
Proof.
  intros Hm. specialize (Hm id). unfold a_get. destruct (m !! id) as [[t' v']|]; [|by destruct Hm as [-> ->]].
  destruct Hm as [Hw [[[u Hu] Ho]|[[u Hu] Ho]]]; rewrite Hu.
  - destruct (chan_find id (a_inactive a)) as [y|]; [|done]. destruct Ho as [[Hb Hlt] Hwy]. cbn [pick c_time].
    rewrite compare_total by done. by rewrite (proj2 (Z.compare_lt_iff _ _) Hlt).
  - destruct (chan_find id (a_active a)) as [y|]; [|done]. destruct Ho as [[Hb Hlt] Hwy]. cbn [pick c_time].
    rewrite compare_total by done. by rewrite (proj2 (Z.compare_gt_iff _ _) Hlt).
Qed.

(** * The component *)

Section theorems.
Context `{BuildProfile}.

(** A value of 496 to 506 bytes fits a [TlmBuffer] but no packet: the Run after
    it fails an assertion. *)
Example oversized_value_panics :
  let v := SerBuf (replicate 496 1%Z) 496 0 in
  call_typed (CRecv 7 (MkTime TbProcTime 0 1 0) v) ∧
  @tlm_steps true [CRecv 7 (MkTime TbProcTime 0 1 0) v; CRun] (TlmChan_new_with_seed true true 42) = Panic.
Proof. split; [|by vm_compute]. split; [unfold is_u; lia|]. split; [fp_decide|]. split; [fp_decide|unfold FW_TLM_BUFFER_MAX_SIZE, FW_COM_BUFFER_MAX_SIZE; cbn; lia]. Qed.

(** C9. For every per-boot seed, with both output ports connected, over any
    sequence of TlmRecv, TlmGet, Run and
    ping calls in which every value received is at most 495 bytes, so that it
    fits an empty packet (a longer one, up to the 506 a [TlmBuffer] takes,
    makes the next Run fail an assertion, see [oversized_value_panics]), the
    component with its two hash tables of chained buckets
    never panics, answers every call and sends byte for byte what two plain
    lists of channels would: the hash, the chains and the bucket pool are not
    observable, and a channel is dropped, with an event at most ten times,
    exactly when its store already holds [HASH_BUCKETS] others. *)
Theorem tlm_chan_refines_channels (seed : Z) (ks : list tlm_call) :
  Forall call_typed ks → Forall call_fits ks →
  ∃ c' o, tlm_steps ks (TlmChan_new_with_seed true true seed) = Ret ((a_steps ks a_new).1.1, c', o) ∧
    obs <$> o = (a_steps ks a_new).2.
Proof.
  intros Ht Hf. destruct (tlm_steps_ok seed ks _ _ (rel_new seed) (calls_ok ks Ht Hf)) as (c' & o & E & _ & Ho). eauto.
Qed.

(** A Run sends each value received since the previous Run exactly once,
    the last one of each channel and nothing else, in packets that hold as
    many entries as fit, none empty and none over the size of a packet; this
    after any history over at most [HASH_BUCKETS] channels. *)
Theorem tlm_run_sends_pending (seed : Z) (ids : list Z) (ks : list tlm_call) :
  length ids ≤ HASH_BUCKETS → Forall call_ok ks → Forall (call_in ids) ks →
  ∃ c rs o c' o' xs ps,
    tlm_steps ks (TlmChan_new_with_seed true true seed) = Ret (rs, c, o) ∧ run_handler c = Ret (tt, c', o') ∧
    NoDup (c_id <$> xs) ∧ (∀ id t v, MkChan id t v true ∈ xs ↔ pending ks !! id = Some (t, v)) ∧
    (∀ x, x ∈ xs → c_updated x = true) ∧
    obs <$> o' = (λ p, APkt (tlm_header ++ p)) <$> ps ∧ concat ps = concat (chan_enc <$> xs) ∧
    Forall (λ p, p ≠ [] ∧ length (tlm_header ++ p) ≤ FW_COM_BUFFER_MAX_SIZE) ps.
Proof.
  intros Hlen Hks Hin. destruct (tlm_steps_ok seed ks _ _ (rel_new seed) Hks) as (c & o & E & Hrel & _).
  destruct (a_steps_pends ids ks a_new ∅ Hlen Hks Hin (a_new_in ids) a_new_pends) as [[Ha _] Hp].
  set (a := (a_steps ks a_new).1.2) in *. destruct (tlm_run_ok seed c a Hrel) as (c' & o' & E' & _ & Ho').
  destruct (pack_ok (updated_of (a_active a)) []) as (ps & Hpack & Hcat & Hps).
  { apply Forall_forall. intros x [_ Hx]%list_elem_of_filter. pose proof (si_ok _ _ Ha) as HF. rewrite Forall_forall in HF. by apply HF. }
  { unfold FW_COM_BUFFER_MAX_SIZE. cbn. lia. }
  exists c, (a_steps ks a_new).1.1, o, c', o', (updated_of (a_active a)), ps. split_and!; [done|done| | | | |done|done].
  - eapply sublist_NoDup; [|apply (fmap_sublist c_id), sublist_filter]. apply (si_nodup _ _ Ha).
  - intros id t v. unfold pending. rewrite <- (Hp id t v), (chan_find_iff ids) by done.
    unfold updated_of. rewrite list_elem_of_filter. cbn [c_updated c_id]. tauto.
  - intros x. unfold updated_of. rewrite list_elem_of_filter. tauto.
  - rewrite Ho'. unfold a_run. cbn [snd]. rewrite app_nil_r in Hpack. rewrite Hpack, <- list_fmap_compose. done.
Qed.

(** TlmGet returns the value last received for a channel, with its time,
    and is invalid exactly for a channel never received, whichever store holds
    it and however Runs fell in between; this when the times of a channel
    increase and there are at most [HASH_BUCKETS] channels. *)
Theorem tlm_get_returns_latest (seed : Z) (ids : list Z) (ks : list tlm_call) (id : Z) (t : Time) (v : serbuf) :
  length ids ≤ HASH_BUCKETS → Forall call_ok ks → Forall (call_in ids) ks → times_increase ∅ ks →
  ∃ c rs o, tlm_steps ks (TlmChan_new_with_seed true true seed) = Ret (rs, c, o) ∧
    tlm_get_handler id t v c =
      Ret (match latest ks !! id with
           | Some (t', v') => (TlmValid_Valid, t', v')
           | None => (TlmInvalid, t, (reset_ser v).2)
           end, c, []).
Proof.
  intros Hlen Hks Hin Ht. destruct (tlm_steps_ok seed ks _ _ (rel_new seed) Hks) as (c & o & E & Hrel & _).
  eexists c, _, o. split; [exact E|]. rewrite (tlm_get_ok seed c _ id t v Hrel). f_equal. f_equal. f_equal.
  apply a_get_latest. apply (a_steps_latest ids); try done. apply a_new_in.
Qed.
End theorems.

(** * Producers during a Run

    A Run holds the lock for one bucket at a time.  Between two turns
    producers may store values; they write the other store. *)

Inductive action : Set := ATurn | ARecv (id : Z) (t : Time) (v : serbuf).

(** The drain loop of a Run with other threads' TlmRecv calls between its
    turns. *)
Fixpoint interleaved (cap : nat) (acts : list action) (x : RunCtx) : M RunCtx :=
  match acts with
  | [] => mret x
  | ATurn :: acts' =>
      if bool_decide (rc_idx x < HASH_BUCKETS) then x' ← drain_turn cap x; interleaved cap acts' x'
      else interleaved cap acts' x
  | ARecv id t v :: acts' => _ ← tlm_recv_handler id t v; interleaved cap acts' x
  end.

Definition is_turn (k : action) : bool := match k with ATurn => true | _ => false end.
Definition is_packet (o : TlmOut) : bool := match o with TlPktSend _ => true | _ => false end.

(** The loop's context, the component, the packets and the events. *)
Definition seen (r : outcome (RunCtx * TlmChan * list TlmOut)) : option (RunCtx * TlmChan * list TlmOut * list TlmOut) :=
  match r with
  | Panic => None
  | Ret (x, c, o) => Some (x, c, filter (λ k, is_packet k = true) o, filter (λ k, is_packet k = false) o)
  end.

(** ** Each side works on its own store *)

Definition with_active (s : TlmSet) (c : TlmChan) : TlmChan := set_sets (<[active c := s]> (sets c)) c.

Definition recv_local (seed id : Z) (t : Time) (v : serbuf) (p : TlmSet * EventThrottle)
    : outcome (TlmSet * EventThrottle * list TlmOut) :=
  '(entry_to_use, exhausted, s1) ← recv_bucket (do_hash seed id) id p.1;
  s2 ← (match entry_to_use with
        | Some i => bucket_update i (with_value id t v) s1
        | None => if exhausted : bool then Ret s1 else Panic
        end);
  if exhausted : bool then
    let '(ok, th) := ok_to_emit p.2 in Ret (s2, th, if ok : bool then [TlBucketPoolExhausted id] else [])
  else Ret (s2, p.2, []).

Lemma recv_local_ok id t v c s :
  sets c !! active c = Some s →
  tlm_recv_handler id t v c =
  match recv_local (hash_seed c) id t v (s, bucket_pool_throttle c) with
  | Panic => Panic
  | Ret (s', th, o) => Ret (tt, set_throttle th (with_active s' c), o)
  end.
Proof.
  intros Hs. pose proof (lookup_lt_Some _ _ _ Hs) as Hlt. unfold tlm_recv_handler, recv_local. cbn [fst snd].
  erewrite comp_bind_quiet by reflexivity. rewrite (get_set_ok _ _ _ _ Hs).
  destruct (recv_bucket _ _ s) as [[[e ex] s1]|]; [|done]. rewrite (comp_lift_ok _ _ _ _ eq_refl), outcome_bind_ret.
  assert (∀ s2 : TlmSet, put_set (active c) s2 c = Ret (tt, with_active s2 c, [])) as Hput.
  { intros s2. unfold put_set. erewrite comp_bind_quiet by reflexivity. by rewrite (comp_lift_ok _ _ _ _ (index_set_ok _ _ _ Hlt)). }
  destruct e as [i|].
  - destruct (bucket_update i _ s1) as [s2|]; [|done]. rewrite outcome_bind_ret.
    erewrite comp_bind_quiet; [|rewrite (comp_lift_ok _ _ _ _ eq_refl); apply Hput].
    destruct ex; [|done]. erewrite comp_bind_quiet by reflexivity. cbn [bucket_pool_throttle with_active set_sets].
    destruct (ok_to_emit _) as [ok th]. erewrite comp_bind_quiet by reflexivity. by destruct ok.
  - destruct ex.
    + erewrite comp_bind_quiet; [|rewrite (comp_bind_quiet _ _ _ _ _ (Hput s1)); reflexivity]. rewrite outcome_bind_ret.
      erewrite comp_bind_quiet by reflexivity. cbn [bucket_pool_throttle with_active set_sets].
      destruct (ok_to_emit _) as [ok th]. erewrite comp_bind_quiet by reflexivity. by destruct ok.
    + unfold mbind at 1, CompM_bind. rewrite (comp_bind_quiet _ _ _ _ _ (Hput s1)). done.
Qed.

Lemma recv_local_events seed id t v p s th o :
  recv_local seed id t v p = Ret (s, th, o) →
  filter (λ k, is_packet k = true) o = [] ∧ filter (λ k, is_packet k = false) o = o.
Proof.
  unfold recv_local. intros ([[e ex] s1] & _ & (s2 & _ & E)%outcome_bind_inv)%outcome_bind_inv.
  destruct ex; [|by simplify_eq]. destruct (ok_to_emit p.2) as [ok th']. destruct ok; by simplify_eq.
Qed.

Lemma turn_set_packets cap x s x' s' o :
  turn_set cap x s = Ret (x', s', o) →
  filter (λ k, is_packet k = true) o = o ∧ filter (λ k, is_packet k = false) o = [].
Proof.
  unfold turn_set. intros (b & _ & E)%outcome_bind_inv. destruct (negb _); [by simplify_eq|].
  case_bool_decide; [by simplify_eq|]. destruct (add_value _ _ _ _) as [[[]|[]|] pkt]; try done.
  - apply outcome_bind_inv in E as (s1 & _ & E). by simplify_eq.
  - destruct (_ <? _)%Z; [|done]. destruct (reset_pkt_ser pkt) as [[[]|[]|] p']; try done. by simplify_eq.
Qed.

(** The two sides run separately. *)
Fixpoint turns_local (cap n : nat) (x : RunCtx) (s : TlmSet) : outcome (RunCtx * TlmSet * list TlmOut) :=
  match n with
  | O => Ret (x, s, [])
  | S n' =>
      if bool_decide (rc_idx x < HASH_BUCKETS) then
        '(x', s', o) ← turn_set cap x s;
        '(x'', s'', o') ← turns_local cap n' x' s';
        Ret (x'', s'', o ++ o')
      else turns_local cap n' x s
  end.
Fixpoint recvs_local (seed : Z) (acts : list action) (p : TlmSet * EventThrottle) : outcome (TlmSet * EventThrottle * list TlmOut) :=
  match acts with
  | [] => Ret (p, [])
  | ATurn :: acts' => recvs_local seed acts' p
  | ARecv id t v :: acts' =>
      '(p1, o) ← recv_local seed id t v p;
      '(p2, o') ← recvs_local seed acts' p1;
      Ret (p2, o ++ o')
  end.

Definition turns_in (acts : list action) : nat := length (filter (λ k, is_turn k = true) acts).

Definition both_sides (c : TlmChan) (l : outcome (RunCtx * TlmSet * list TlmOut)) (r : outcome (TlmSet * EventThrottle * list TlmOut))
    : option (RunCtx * TlmChan * list TlmOut * list TlmOut) :=
  match l, r with
  | Ret (x, si, o), Ret (sa, th, o') => Some (x, set_throttle th (with_active sa (with_inactive si c)), o, o')
  | _, _ => None
  end.

(** Updates of the two stores and of the throttle do not interfere. *)
Lemma sides_id c sa si :
  sets c !! active c = Some sa → sets c !! (1 - active c) = Some si →
  set_throttle (bucket_pool_throttle c) (with_active sa (with_inactive si c)) = c.
Proof.
  intros Ha Hi. rewrite with_inactive_id by done. unfold with_active, set_sets. rewrite list_insert_id by done. by destruct c.
Qed.
Lemma sides_inactive c si si' sa th :
  set_throttle th (with_active sa (with_inactive si' (with_inactive si c))) = set_throttle th (with_active sa (with_inactive si' c)).
Proof. unfold with_inactive, with_active, set_sets. cbn. by rewrite list_insert_insert_eq. Qed.
Lemma sides_active c si sa sa' th th' :
  active c ≤ 1 →
  set_throttle th' (with_active sa' (with_inactive si (set_throttle th (with_active sa c))))
  = set_throttle th' (with_active sa' (with_inactive si c)).
Proof.
  intros Hle. unfold with_inactive, with_active, set_throttle, set_sets.
  cbn [sets active proc_cap_count bucket_pool_throttle hash_seed pkt_send_connected ping_out_connected]. f_equal.
  rewrite (list_insert_insert_ne _ (1 - active c) (active c)) by lia. by rewrite list_insert_insert_eq.
Qed.

Lemma seen_bind {A} (m : M A) (f : A → M RunCtx) c a c1 o :
  m c = Ret (a, c1, o) →
  seen ((m ≫= f) c) =
  match seen (f a c1) with
  | Some (x, c2, ps, es) => Some (x, c2, filter (λ k, is_packet k = true) o ++ ps, filter (λ k, is_packet k = false) o ++ es)
  | None => None
  end.
Proof.
  intros E. rewrite (comp_bind_ret _ _ _ _ _ _ E). destruct (f a c1) as [[[x c2] o2]|]; [|done].
  cbn [seen]. by rewrite !filter_app.
Qed.

Lemma interleaved_local cap acts x c sa si :
  active c ≤ 1 → sets c !! active c = Some sa → sets c !! (1 - active c) = Some si →
  seen (interleaved cap acts x c)
  = both_sides c (turns_local cap (turns_in acts) x si) (recvs_local (hash_seed c) acts (sa, bucket_pool_throttle c)).
Proof.
  revert x c sa si. induction acts as [|k acts IH]; intros x c sa si Hle Ha Hi.
  { cbn [interleaved recvs_local turns_in filter list_filter length turns_local both_sides seen]. unfold mret, CompM_ret.
    by rewrite sides_id. }
  pose proof (lookup_lt_Some _ _ _ Ha) as Hla. pose proof (lookup_lt_Some _ _ _ Hi) as Hli.
  destruct k as [|id t v]; cbn [interleaved recvs_local].
  - unfold turns_in. rewrite filter_cons_True by done. cbn [length turns_local]. fold (turns_in acts).
    case_bool_decide; [|by apply IH]. pose proof (drain_turn_local cap x c si Hi) as E.
    destruct (turn_set cap x si) as [[[x1 s1] o1]|] eqn:Et; [|unfold mbind, CompM_bind; by rewrite E].
    rewrite (seen_bind _ _ _ _ _ _ E), outcome_bind_ret.
    destruct (turn_set_packets _ _ _ _ _ _ Et) as [-> ->].
    rewrite (IH x1 (with_inactive s1 c) sa s1);
      [|done|unfold with_inactive; cbn; by rewrite list_lookup_insert_ne by lia|unfold with_inactive; cbn; by rewrite list_lookup_insert_eq].
    destruct (turns_local cap (turns_in acts) x1 s1) as [[[x2 s2] o2]|]; [|done]. rewrite outcome_bind_ret.
    cbn [hash_seed bucket_pool_throttle with_inactive set_sets].
    destruct (recvs_local _ acts _) as [[[sa' th'] o']|]; [|done]. cbn [both_sides]. by rewrite sides_inactive.
  - unfold turns_in. rewrite filter_cons_False by done. fold (turns_in acts).
    pose proof (recv_local_ok id t v c sa Ha) as E.
    destruct (recv_local _ id t v _) as [[[s1 th1] o1]|] eqn:Er; [|unfold mbind at 1, CompM_bind; rewrite E; by destruct (turns_local _ _ _ _) as [[[? ?] ?]|]].
    rewrite (seen_bind _ _ _ _ _ _ E), outcome_bind_ret. destruct (recv_local_events _ _ _ _ _ _ _ _ Er) as [-> ->].
    rewrite (IH x (set_throttle th1 (with_active s1 c)) s1 si);
      [|done|unfold with_active; cbn; by rewrite list_lookup_insert_eq|unfold with_active; cbn; by rewrite list_lookup_insert_ne by lia].
    destruct (turns_local cap (turns_in acts) x si) as [[[x2 s2] o2]|]; [|done].
    cbn [hash_seed bucket_pool_throttle with_active set_sets set_throttle].
    destruct (recvs_local _ acts _) as [[[sa' th'] o']|]; [|done]. rewrite outcome_bind_ret. cbn [both_sides]. by rewrite sides_active.
Qed.

Lemma turns_in_app a b : turns_in (a ++ b) = turns_in a + turns_in b.
Proof. unfold turns_in. by rewrite filter_app, length_app. Qed.
Lemma recvs_local_app seed a b p : turns_in a = length a → recvs_local seed (a ++ b) p = recvs_local seed b p.
Proof.
  unfold turns_in. induction a as [|k a IH]; intros Hk; [done|]. destruct k; cbn [app recvs_local].
  - apply IH. rewrite filter_cons_True in Hk by done. cbn in Hk. lia.
  - rewrite filter_cons_False in Hk by done. pose proof (length_filter (λ k, is_turn k = true) a). cbn in Hk. lia.
Qed.
Lemma recvs_local_filter seed a p : recvs_local seed (filter (λ k, is_turn k = false) a) p = recvs_local seed a p.
Proof.
  revert p. induction a as [|k a IH]; intros p; [done|]. destruct k as [|id t v].
  - rewrite filter_cons_False by done. apply IH.
  - rewrite filter_cons_True by done. cbn [recvs_local]. destruct (recv_local seed id t v p) as [[p1 o]|]; [|done].
    rewrite !outcome_bind_ret. by rewrite IH.
Qed.

(** C36. A Run drains its store bucket by bucket with the lock released in
    between.  However producers' TlmRecv calls fall between its turns, the
    outcome is that of the whole drain followed by the calls: the same packets
    in the same order, the same events, the same state of the component, and
    no panic that was not there. *)
Theorem tlm_run_atomic (cap : nat) (acts : list action) (x : RunCtx) (c : TlmChan) :
  length (sets c) = 2 → active c ≤ 1 →
  seen (interleaved cap acts x c)
  = seen (interleaved cap (filter (λ k, is_turn k = true) acts ++ filter (λ k, is_turn k = false) acts) x c).
Proof.
  intros Hl Hle. destruct (lookup_lt_is_Some_2 (sets c) (active c)) as [sa Ha]; [lia|].
  destruct (lookup_lt_is_Some_2 (sets c) (1 - active c)) as [si Hi]; [lia|].
  rewrite !(interleaved_local cap _ x c sa si) by done.
  assert (turns_in (filter (λ k, is_turn k = true) acts) = length (filter (λ k, is_turn k = true) acts)) as Ht.
  { unfold turns_in. induction acts as [|[|id t v] acts IH]; [done|..].
    - rewrite !(filter_cons_True (λ k, is_turn k = true)) by done. cbn [length]. by rewrite IH.
    - rewrite !(filter_cons_False (λ k, is_turn k = true)) by done. apply IH. }
  assert (turns_in (filter (λ k, is_turn k = false) acts) = 0) as H0.
  { unfold turns_in. clear. induction acts as [|[|id t v] acts IH]; [done|..].
    - rewrite (filter_cons_False (λ k, is_turn k = false)) by done. apply IH.
    - rewrite (filter_cons_True (λ k, is_turn k = false)), filter_cons_False by done. apply IH. }
  rewrite turns_in_app, Ht, H0, Nat.add_0_r, recvs_local_app, recvs_local_filter by done. done.
Qed.

(** * Witnesses *)

Definition val1 : serbuf := SerBuf [1; 2]%Z 2 0.
Definition val2 : serbuf := SerBuf [3]%Z 1 0.
Definition at_s (n : Z) : Time := MkTime TbProcTime 0 n 0.
Definition demo_calls : list tlm_call :=
  [CRecv 7 (at_s 1) val1; CRun; CRecv 9 (at_s 2) val1; CRecv 7 (at_s 3) val2; CRecv 9 (at_s 4) val2].

Lemma demo_calls_ok : Forall call_ok demo_calls.
Proof. repeat constructor; vm_compute; (lia || done || (split; [lia|done])). Qed.

Lemma demo_calls_in : Forall (call_in [7; 9]%Z) demo_calls.
Proof. repeat constructor. Qed.

(** Channel 7 goes down in the first Run, then 7 and 9 with their last
    values. *)
Lemma tlm_chan_refines_channels_witness :
  ∃ c' o, @tlm_steps true (demo_calls ++ [CRun]) (TlmChan_new_with_seed true true 42)
          = Ret (replicate 6 None, c', o) ∧
    obs <$> o = [APkt (tlm_header ++ [0; 0; 0; 7; 0; 1; 0; 0; 0; 0; 1; 0; 0; 0; 0; 1; 2]%Z);
                 APkt (tlm_header ++ [0; 0; 0; 9; 0; 1; 0; 0; 0; 0; 4; 0; 0; 0; 0; 3]%Z
                                  ++ [0; 0; 0; 7; 0; 1; 0; 0; 0; 0; 3; 0; 0; 0; 0; 3]%Z)].
Proof.
  destruct (@tlm_chan_refines_channels true 42 (demo_calls ++ [CRun])) as (c' & o & E & Ho).
  { repeat constructor; vm_compute; (lia || done || (split; [lia|done])). }
  { repeat constructor; vm_compute; lia. }
  exists c', o. split; [rewrite E|rewrite Ho]; vm_compute; reflexivity.
Defined.

Lemma tlm_run_sends_pending_witness :
  ∃ c rs o c' o' xs,
    @tlm_steps true demo_calls (TlmChan_new_with_seed true true 42) = Ret (rs, c, o) ∧
    @run_handler true c = Ret (tt, c', o') ∧ MkChan 9 (at_s 4) val2 true ∈ xs ∧ NoDup (c_id <$> xs).
Proof.
  destruct (@tlm_run_sends_pending true 42 [7; 9]%Z demo_calls) as (c & rs & o & c' & o' & xs & ps & E & E' & Hnd & Hin & _);
    [unfold HASH_BUCKETS; cbn; lia|apply demo_calls_ok|apply demo_calls_in|].
  exists c, rs, o, c', o', xs. split_and!; [done|done| |done]. apply (proj2 (Hin 9%Z (at_s 4) val2)). vm_compute. reflexivity.
Defined.

Lemma tlm_get_returns_latest_witness :
  ∃ c rs o, @tlm_steps true demo_calls (TlmChan_new_with_seed true true 42) = Ret (rs, c, o) ∧
    tlm_get_handler 7 Time_ZERO val1 c = Ret ((TlmValid_Valid, at_s 3, val2), c, []).
Proof.
  destruct (@tlm_get_returns_latest true 42 [7; 9]%Z demo_calls 7 Time_ZERO val1) as (c & rs & o & E & Hg);
    [unfold HASH_BUCKETS; cbn; lia|apply demo_calls_ok|apply demo_calls_in| |].
  { repeat split; vm_compute; reflexivity. }
  exists c, rs, o. split; [exact E|]. rewrite Hg. vm_compute. reflexivity.
Defined.

Lemma tlm_run_atomic_witness :
  let c := TlmChan_new_with_seed true true 42 in
  let x := MkRunCtx 0 TlmPacket_new 0 0 in
  seen (interleaved 500 [ATurn; ARecv 7 (at_s 1) val1; ATurn] x c)
  = seen (interleaved 500 [ATurn; ATurn; ARecv 7 (at_s 1) val1] x c).
Proof.
  apply (tlm_run_atomic 500 [ATurn; ARecv 7 (at_s 1) val1; ATurn] (MkRunCtx 0 TlmPacket_new 0 0)
    (TlmChan_new_with_seed true true 42)); [reflexivity|cbn; lia].
Defined.

(** With two values of the same time the first one wins once the stores change
    roles: the second value of channel 7 is read until the next Run, the first
    one after it. *)
Lemma tlm_get_equal_times_stale :
  let ks := [CRecv 7 (at_s 5) val1; CRun; CRecv 7 (at_s 5) val2; CGet 7 Time_ZERO val1; CRun; CGet 7 Time_ZERO val1] in
  ∃ c o, @tlm_steps true ks (TlmChan_new_with_seed true true 42)
    = Ret ([None; None; None; Some (TlmValid_Valid, at_s 5, val2); None; Some (TlmValid_Valid, at_s 5, val1)], c, o).
Proof.
  destruct (@tlm_steps_ok true 42 [CRecv 7 (at_s 5) val1; CRun; CRecv 7 (at_s 5) val2; CGet 7 Time_ZERO val1; CRun; CGet 7 Time_ZERO val1]
    _ _ (rel_new 42)) as (c & o & E & _).
  { repeat constructor; vm_compute; (lia || done || (split; [lia|done])). }
  exists c, o. rewrite E. vm_compute. reflexivity.
Qed.
