(* ===== verification/Framing.v ===== *)
(** The F Prime frame protocol: [FprimeFramer] and [FprimeDeframer],
    [crates/fprime-svc/src/fprime_framer.rs] and [fprime_deframer.rs].

    A frame is [start word u32][length u32][payload][CRC-32 u32], big-endian,
    the CRC over header and payload.  Outputs carry the buffer handed over:
    a buffer given to a port is no longer the component's. *)

From S2P Require Import Prelude Serial SerialFacts Codec Fpp Crc32 Buffer Comp.

(** * Constants *)

Definition START_WORD : Z := 0xdeadbeef.
Definition HEADER_SIZE : nat := 8.
Definition TRAILER_SIZE : nat := 4.
Definition MIN_FRAME_SIZE : nat := HEADER_SIZE + TRAILER_SIZE.
Definition EVENTID_NO_BUFFER_AVAILABLE_THROTTLE : Z := 5.

(** The wire image of a payload. *)
Definition frame_head (p : list Z) : list Z :=
  be_bytes 4 START_WORD ++ be_bytes 4 (Z.of_nat (length p)) ++ p.
Definition frame_of (p : list Z) : list Z := frame_head p ++ be_bytes 4 (hash_u32 (frame_head p)).

(** * The framer *)

Inductive FramerOut : Set :=
| FrNoBufferAvailable
| FrBufferDeallocate (b : Buffer)
| FrDataOut (b : Buffer) (ctx : FrameContext)
| FrDataReturnOut (b : Buffer) (ctx : FrameContext)
| FrComStatusOut (c : Success).

Record FprimeFramer (A : Type) : Type := MkFramer {
  no_buffer_available_throttle : EventThrottle;
  com_status_connected : bool;
  fr_allocator : A;
}.
Arguments MkFramer {A} _ _ _.
Arguments no_buffer_available_throttle {A} _.
Arguments com_status_connected {A} _.
Arguments fr_allocator {A} _.

(** Write through [get_serializer()], every status asserted [Ok]. *)
Definition on_window (f : SerM unit) (b : Buffer) : outcome Buffer :=
  ser ← get_serializer b;
  match f ser with
  | (SOk _, ser') =>
      Ret (MkBuffer (splice (offset b) (data ser') (storage b)) (offset b) (size b) (context b))
  | _ => Panic
  end.

(** Read through [get_deserializer()], every status asserted [Ok]. *)
Definition from_window {A} (f : SerM A) (b : Buffer) : outcome A :=
  ser ← get_deserializer b;
  match f ser with (SOk a, _) => Ret a | _ => Panic end.

Section framer.
Context `{BuildProfile} `{Allocator A}.

Definition FprimeFramer_new (connected : bool) (a : A) : FprimeFramer A :=
  MkFramer (EventThrottle_new EVENTID_NO_BUFFER_AVAILABLE_THROTTLE) connected a.

Definition clear_no_buffer_available_throttle (f : FprimeFramer A) : FprimeFramer A :=
  MkFramer (throttle_clear (no_buffer_available_throttle f)) (com_status_connected f) (fr_allocator f).

Definition framer_allocate (n : nat) : CompM (FprimeFramer A) FramerOut Buffer := λ f,
  let '(b, a) := alloc_get n (fr_allocator f) in
  Ret (b, MkFramer (no_buffer_available_throttle f) (com_status_connected f) a, []).

Definition framer_ok_to_emit : CompM (FprimeFramer A) FramerOut bool := λ f,
  let '(ok, t) := ok_to_emit (no_buffer_available_throttle f) in
  Ret (ok, MkFramer t (com_status_connected f) (fr_allocator f), []).

(** [data_in_handler]. *)
Definition framer_data_in (data : Buffer) (ctx : FrameContext)
    : CompM (FprimeFramer A) FramerOut unit :=
  let frame_size := HEADER_SIZE + size data + TRAILER_SIZE in
  _ ← assert (bool_decide (Z.of_nat (size data) ≤ 0xFFFFFFFF)%Z);
  frame_buffer ← framer_allocate frame_size;
  if negb (is_valid frame_buffer) || bool_decide (size frame_buffer < frame_size) then
    ok ← framer_ok_to_emit;
    _ ← when ok (emit FrNoBufferAvailable);
    _ ← when (is_valid frame_buffer) (emit (FrBufferDeallocate frame_buffer));
    emit (FrDataReturnOut data ctx)
  else
    payload ← lift (buffer_data data);
    fb1 ← lift (on_window
             (_ ← serialize_u32 START_WORD Big;
              _ ← serialize_u32 (Z.of_nat (size data)) Big;
              serialize_bytes payload OmitLength Big) frame_buffer);
    window1 ← lift (buffer_data fb1);
    head ← lift (copy_from 0 (frame_size - TRAILER_SIZE) window1);
    let crc := hash_u32 head in
    fb2 ← lift (on_window
             (_ ← move_ser_to_offset (frame_size - TRAILER_SIZE);
              serialize_u32 crc Big) fb1);
    fb3 ← lift (set_size frame_size fb2);
    _ ← emit (FrDataOut fb3 ctx);
    emit (FrDataReturnOut data ctx).

(** [data_return_in_handler] and the [comStatusIn] handler. *)
Definition framer_data_return_in (b : Buffer) : CompM (FprimeFramer A) FramerOut unit :=
  emit (FrBufferDeallocate b).
Definition framer_com_status_in (c : Success) : CompM (FprimeFramer A) FramerOut unit :=
  f ← get_state; when (com_status_connected f) (emit (FrComStatusOut c)).
End framer.

(** * The deframer *)

Inductive DeframerOut : Set :=
| DfInvalidBufferReceived
| DfInvalidStartWord
| DfInvalidLengthReceived
| DfInvalidChecksum
| DfPayloadTooShort
| DfDataOut (b : Buffer) (ctx : FrameContext)
| DfDataReturnOut (b : Buffer) (ctx : FrameContext).

Definition set_apid (a : ComPacketType) (c : FrameContext) : FrameContext :=
  MkFrameContext (com_queue_index c) a (has_sec_hdr c) (sequence_flags c) (sequence_count c)
    (vc_id c) (pvn c) (send_now c) (sa_index c) (first_header_pointer c).

Definition drop_frame (ev : DeframerOut) (data : Buffer) (ctx : FrameContext)
    : CompM unit DeframerOut unit :=
  _ ← emit ev; emit (DfDataReturnOut data ctx).

(** [data_in_handler]. *)
Definition deframer_data_in (data : Buffer) (ctx : FrameContext) : CompM unit DeframerOut unit :=
  if bool_decide (size data < MIN_FRAME_SIZE) then drop_frame DfInvalidBufferReceived data ctx
  else
    '(start_word, length_field) ← lift (from_window
        (s ← deserialize_u32 Big; l ← deserialize_u32 Big; mret (s, l)) data);
    if negb (bool_decide (start_word = START_WORD)) then drop_frame DfInvalidStartWord data ctx
    else if negb (bool_decide (Z.of_nat (size data)
                               = Z.of_nat HEADER_SIZE + length_field + Z.of_nat TRAILER_SIZE)%Z)
    then drop_frame DfInvalidLengthReceived data ctx
    else
      let len := Z.to_nat length_field in
      context_copy ←
        (if bool_decide (size data - HEADER_SIZE < TRAILER_SIZE + 2) then
           _ ← emit DfPayloadTooShort; mret ctx
         else
           descriptor ← lift (from_window
             (_ ← move_deser_to_offset HEADER_SIZE; deserialize_u16 Big) data);
           mret (set_apid (default ApidInvalidUninitialized (try_from descriptor)) ctx));
      transmitted_crc ← lift (from_window
        (_ ← move_deser_to_offset (HEADER_SIZE + len); deserialize_u32 Big) data);
      window ← lift (buffer_data data);
      head ← lift (copy_from 0 (HEADER_SIZE + len) window);
      if negb (bool_decide (transmitted_crc = hash_u32 head))
      then drop_frame DfInvalidChecksum data ctx
      else
        d1 ← lift (advance (Z.of_nat HEADER_SIZE) data);
        d2 ← lift (set_size (size d1 - TRAILER_SIZE) d1);
        emit (DfDataOut d2 context_copy).

(** [data_return_in_handler]. *)
Definition deframer_data_return_in (data : Buffer) (ctx : FrameContext)
    : CompM unit DeframerOut unit := emit (DfDataReturnOut data ctx).

(** * Lemmas *)

Lemma length_frame_head p : length (frame_head p) = HEADER_SIZE + length p.
Proof. unfold frame_head. by rewrite !length_app, !length_be_bytes. Qed.

Lemma length_frame_of p : length (frame_of p) = HEADER_SIZE + length p + TRAILER_SIZE.
Proof. unfold frame_of. by rewrite length_app, length_frame_head, length_be_bytes. Qed.

Lemma frame_head_bytes p : Forall is_byte p → Forall is_byte (frame_head p).
Proof. intros. unfold frame_head. rewrite !Forall_app. auto using be_bytes_is_byte. Qed.

Lemma frame_of_bytes p : Forall is_byte p → Forall is_byte (frame_of p).
Proof. intros. unfold frame_of. apply Forall_app. auto using frame_head_bytes, be_bytes_is_byte. Qed.

(** ** Serializer and deserializer views of a buffer *)

Lemma on_window_ok f b ser' :
  buffer_ok b → storage b ≠ [] → size b ≠ 0 →
  f (ext_buf_new (window b)) = (SOk tt, ser') → length (data ser') = size b → Forall is_byte (data ser') →
  ∃ b', on_window f b = Ret b' ∧ buffer_ok b' ∧ window b' = data ser' ∧ size b' = size b ∧
        offset b' = offset b ∧ storage b' ≠ [] ∧ length (storage b') = length (storage b).
Proof.
  intros Hb Hs Hz Hf Hl Hd. unfold on_window, get_serializer.
  rewrite !bool_decide_eq_false_2 by done. cbn [orb]. rewrite buffer_data_ok by done. cbn.
  rewrite Hf. eexists. split; [done|]. destruct Hb as [Ho Hby].
  assert (length (splice (offset b) (data ser') (storage b)) = length (storage b)) as Hls
    by (apply length_splice; lia).
  split_and!; cbn; try done.
  - split; cbn; [lia|]. by apply Forall_splice.
  - unfold window. cbn. rewrite <- Hl. apply slice_splice. lia.
  - intros E. apply (f_equal length) in E. rewrite Hls in E. by apply Hs, nil_length_inv.
Qed.

(** Reading a big-endian integer at an offset of a window. *)
Lemma from_window_at n off b :
  buffer_ok b → n ≠ 0 → off + n ≤ size b →
  from_window (_ ← move_deser_to_offset off; deserialize_uint n Big) b
    = Ret (be_value (slice off n (window b))).
Proof.
  intros Hb Hn Hle. destruct (get_deserializer_ok b Hb) as (ser & E & Hw & Hd & Has & Hsl); [lia|].
  pose proof (length_window b Hb) as Hlw. unfold from_window. rewrite E, outcome_bind_ret.
  assert (move_deser_to_offset off ser = (SOk tt, set_deser_loc off ser)) as Em.
  { unfold move_deser_to_offset. erewrite ser_bind_ok; [|done]. unfold deserialize_skip. cbn.
    rewrite !bool_decide_eq_false_2 by lia. done. }
  rewrite (ser_bind_ok _ _ _ _ _ Em).
  assert (remaining_slice (set_deser_loc off ser) = slice off n (window b) ++ drop (off + n) (window b)) as Hr.
  { unfold remaining_slice. change (as_slice (set_deser_loc off ser)) with (as_slice ser). rewrite Has.
    cbn. unfold slice. rewrite <- drop_drop. by rewrite take_drop. }
  assert (wf (set_deser_loc off ser)) as Hwd by (apply wf_set_deser_loc; [done|lia]).
  rewrite (deserialize_be n _ _ _ Hwd Hn) with (2 := Hr); [done|]. apply length_slice. lia.
Qed.

Lemma from_window_header b :
  buffer_ok b → 8 ≤ size b →
  from_window (s ← deserialize_u32 Big; l ← deserialize_u32 Big; mret (s, l)) b
    = Ret (be_value (slice 0 4 (window b)), be_value (slice 4 4 (window b))).
Proof.
  intros Hb Hle. destruct (get_deserializer_ok b Hb) as (ser & E & Hw & Hd & Has & Hsl); [lia|].
  pose proof (length_window b Hb) as Hlw. unfold from_window. rewrite E, outcome_bind_ret.
  assert (remaining_slice ser = slice 0 4 (window b) ++ slice 4 4 (window b) ++ drop 8 (window b)) as Hr.
  { unfold remaining_slice. rewrite Has, Hd, drop_0. unfold slice. rewrite drop_0.
    change 8 with (4 + 4). rewrite <- drop_drop, take_drop. by rewrite take_drop. }
  assert (length (slice 0 4 (window b)) = 4) as H4 by (apply length_slice; lia).
  assert (length (slice 4 4 (window b)) = 4) as H4' by (apply length_slice; lia).
  unfold deserialize_u32.
  rewrite (ser_bind_ok _ _ _ _ _ (deserialize_be 4 _ _ ser Hw ltac:(done) H4 Hr)).
  pose proof (wf_advanced ser _ _ Hw Hr) as Hw1. pose proof (remaining_advanced ser _ _ Hw Hr) as Hr1.
  rewrite H4 in *.
  rewrite (ser_bind_ok _ _ _ _ _ (deserialize_be 4 _ _ _ Hw1 ltac:(done) H4' Hr1)). done.
Qed.

(** ** Framing *)

Lemma write_header_ok w p :
  Forall is_byte w → Forall is_byte p → HEADER_SIZE + length p ≤ length w →
  (_ ← serialize_u32 START_WORD Big; _ ← serialize_u32 (Z.of_nat (length p)) Big;
   serialize_bytes p OmitLength Big) (ext_buf_new w)
    = (SOk tt, appended (ext_buf_new w) (frame_head p)).
Proof.
  intros Hw Hp Hl.
  assert (writes (_ ← serialize_u32 START_WORD Big; _ ← serialize_u32 (Z.of_nat (length p)) Big;
    serialize_bytes p OmitLength Big) (frame_head p)) as Hwr.
  { ser_step_at u32_codec Big START_WORD. ser_step_at u32_codec Big (Z.of_nat (length p)).
    intros b _ Hc. by apply write_raw_room. }
  apply Hwr; [by apply wf_ext_new|]. rewrite length_frame_head. exact Hl.
Qed.

Lemma write_trailer_ok `{BuildProfile} w k v :
  Forall is_byte w → k + 4 ≤ length w → usize_ok k →
  (_ ← move_ser_to_offset k; serialize_u32 v Big) (ext_buf_new w)
    = (SOk tt, SerBuf (splice k (be_bytes 4 v) w) (k + 4) 0).
Proof.
  intros Hw Hk Hu.
  pose proof (move_ser_to_offset_ok k (ext_buf_new w) ltac:(unfold capacity; cbn; lia) Hu) as Em.
  rewrite (ser_bind_ok _ _ _ _ _ Em). unfold serialize_u32, serialize_uint.
  rewrite write_raw_room; [done|]. unfold capacity. cbn. lia.
Qed.

Section framer_facts.
Context `{BuildProfile} `{AllocatorLaws A}.

(** The frame is built in the allocated buffer and handed to [dataOut]; the
    payload buffer goes back to its sender. *)
Lemma framer_data_in_ok (f : FprimeFramer A) data ctx :
  buffer_ok data → (Z.of_nat (size data) ≤ 0xFFFFFFFF)%Z →
  let fb := (alloc_get (HEADER_SIZE + size data + TRAILER_SIZE) (fr_allocator f)).1 in
  is_valid fb = true →
  ∃ f' fb', framer_data_in data ctx f = Ret (tt, f', [FrDataOut fb' ctx; FrDataReturnOut data ctx]) ∧
    buffer_ok fb' ∧ window fb' = frame_of (window data) ∧
    length (storage fb') = length (storage fb) ∧ offset fb' = offset fb.
Proof.
  intros Hd Hmax fb Hv. pose proof (length_window data Hd) as Hlp.
  set (fs := HEADER_SIZE + size data + TRAILER_SIZE) in *.
  pose proof (alloc_ok fs (fr_allocator f)) as Hfb. pose proof (alloc_size fs (fr_allocator f) Hv) as Hsz.
  fold fb in Hfb, Hsz.
  assert (fs = size data + 12) as Hfs by (unfold fs, HEADER_SIZE, TRAILER_SIZE; lia).
  assert (storage fb ≠ []) as Hst.
  { unfold is_valid in Hv. apply andb_true_iff in Hv as [Hv _]. intros E. by rewrite E in Hv. }
  pose proof (length_window fb Hfb) as Hlw. pose proof (window_bytes fb Hfb) as Hbw.
  unfold framer_data_in. fold fs. rewrite comp_assert_ok by (by apply bool_decide_eq_true_2).
  assert (framer_allocate fs f = Ret (fb, MkFramer (no_buffer_available_throttle f)
    (com_status_connected f) (alloc_get fs (fr_allocator f)).2, [])) as Ea.
  { unfold framer_allocate, fb. by destruct (alloc_get fs (fr_allocator f)). }
  rewrite (comp_bind_quiet _ _ _ _ _ Ea). rewrite Hv. cbn [negb orb].
  rewrite bool_decide_eq_false_2 by lia.
  rewrite (comp_lift_ok _ _ _ _ (buffer_data_ok data Hd)).
  pose proof (write_header_ok (window fb) (window data) Hbw (window_bytes _ Hd)) as Ehead.
  rewrite Hlp in Ehead. specialize (Ehead ltac:(unfold HEADER_SIZE; lia)).
  pose proof (length_frame_head (window data)) as Hlh.
  destruct (on_window_ok _ fb _ Hfb Hst ltac:(lia) Ehead) as (fb1 & E1 & Hok1 & Hw1 & Hs1 & Ho1 & Hst1 & Hl1).
  { cbn [Serial.data appended ext_buf_new ser_loc]. rewrite length_splice; unfold HEADER_SIZE in *; lia. }
  { cbn [Serial.data appended ext_buf_new ser_loc]. apply Forall_splice; [done|].
    by apply frame_head_bytes, window_bytes. }
  rewrite (comp_lift_ok _ _ _ _ E1), (comp_lift_ok _ _ _ _ (buffer_data_ok fb1 Hok1)).
  cbn [Serial.data appended ext_buf_new ser_loc] in Hw1. pose proof (length_window fb1 Hok1) as Hlw1.
  assert (slice 0 (fs - TRAILER_SIZE) (window fb1) = frame_head (window data)) as Hhead.
  { rewrite Hw1. replace (fs - TRAILER_SIZE) with (length (frame_head (window data)))
      by (unfold HEADER_SIZE, TRAILER_SIZE in *; lia). apply slice_splice. lia. }
  assert (copy_from 0 (fs - TRAILER_SIZE) (window fb1) = Ret (frame_head (window data))) as Ec.
  { rewrite copy_from_ok, Hhead; [done|]. lia. }
  rewrite (comp_lift_ok _ _ _ _ Ec). set (crc := hash_u32 (frame_head (window data))).
  pose proof (write_trailer_ok (window fb1) (fs - TRAILER_SIZE) crc (window_bytes _ Hok1)
                ltac:(unfold TRAILER_SIZE; lia) ltac:(unfold usize_ok; lia)) as Etr.
  destruct (on_window_ok _ fb1 _ Hok1 Hst1 ltac:(lia) Etr) as (fb2 & E2 & Hok2 & Hw2 & Hs2 & Ho2 & _ & Hl2).
  { cbn [Serial.data]. rewrite length_splice; rewrite ?length_be_bytes; unfold TRAILER_SIZE; lia. }
  { cbn [Serial.data]. apply Forall_splice; [by apply window_bytes|apply be_bytes_is_byte]. }
  rewrite (comp_lift_ok _ _ _ _ E2). cbn [Serial.data] in Hw2.
  assert (set_size fs fb2 = Ret (set_window (offset fb2) fs fb2)) as E3.
  { unfold set_size, Buffer_capacity. destruct Hok2. by rewrite bool_decide_eq_true_2 by lia. }
  rewrite (comp_lift_ok _ _ _ _ E3), comp_emit.
  eexists _, (set_window (offset fb2) fs fb2). split; [reflexivity|].
  split; [split; cbn [offset size storage set_window]; [destruct Hok2; lia|apply Hok2]|].
  cbn [storage offset set_window]. split; [|split; congruence].
  unfold window at 1. cbn [storage offset size set_window]. pose proof (length_window fb2 Hok2) as Hlw2.
  replace (slice (offset fb2) fs (storage fb2)) with (take fs (window fb2)).
  2: { unfold window, slice. rewrite take_take. f_equal. lia. }
  rewrite Hw2. replace fs with (fs - TRAILER_SIZE + length (be_bytes 4 crc)) at 1
    by (rewrite length_be_bytes; unfold TRAILER_SIZE; lia).
  rewrite take_splice by lia. unfold frame_of. fold crc. f_equal.
  rewrite <- Hhead. unfold slice. by rewrite drop_0.
Qed.
End framer_facts.

(** ** Deframing *)

(** The context forwarded with a payload. *)
Definition payload_context (p : list Z) (ctx : FrameContext) : FrameContext :=
  if decide (length p < 2) then ctx
  else set_apid (default ApidInvalidUninitialized (try_from (be_value (slice 0 2 p)))) ctx.

(** The payload's window: same storage, header and trailer cut off. *)
Definition payload_buffer (b : Buffer) : Buffer :=
  set_window (offset b + HEADER_SIZE) (size b - HEADER_SIZE - TRAILER_SIZE) b.

Lemma be_value_slice_bytes n w off :
  Forall is_byte w → off + n ≤ length w → be_bytes n (be_value (slice off n w)) = slice off n w.
Proof.
  intros Hw Hl. rewrite <- (be_bytes_be_value (slice off n w)) at 2 by (by apply Forall_slice).
  by rewrite length_slice.
Qed.

(** A window that passes the four checks is a frame. *)
Lemma checks_frame w len :
  Forall is_byte w → length w = HEADER_SIZE + len + TRAILER_SIZE →
  be_value (slice 0 4 w) = START_WORD → be_value (slice 4 4 w) = Z.of_nat len →
  be_value (slice (HEADER_SIZE + len) 4 w) = hash_u32 (slice 0 (HEADER_SIZE + len) w) →
  w = frame_of (slice HEADER_SIZE len w).
Proof.
  intros Hw Hl Hs Hn Hc. unfold HEADER_SIZE, TRAILER_SIZE in *.
  assert (slice 0 (8 + len) w = frame_head (slice 8 len w)) as Hh.
  { unfold frame_head. rewrite length_slice by lia.
    rewrite <- Hs, <- Hn, !be_value_slice_bytes by (done || lia).
    change (8 + len) with (4 + (4 + len)). rewrite !slice_app. done. }
  unfold frame_of. rewrite <- Hh, <- Hc, be_value_slice_bytes by (done || lia).
  symmetry. pose proof (slice_split (8 + len) w ltac:(lia)) as Hsp.
  replace (length w - (8 + len)) with 4 in Hsp by lia. done.
Qed.

(** ... and a frame passes them. *)
Lemma frame_checks p :
  Forall is_byte p → (Z.of_nat (length p) ≤ 0xFFFFFFFF)%Z →
  be_value (slice 0 4 (frame_of p)) = START_WORD ∧
  be_value (slice 4 4 (frame_of p)) = Z.of_nat (length p) ∧
  slice HEADER_SIZE (length p) (frame_of p) = p ∧
  slice 0 (HEADER_SIZE + length p) (frame_of p) = frame_head p ∧
  be_value (slice (HEADER_SIZE + length p) 4 (frame_of p)) = hash_u32 (frame_head p).
Proof.
  intros Hp Hmax.
  assert (∀ (x y z : list Z), slice (length x) (length y) (x ++ y ++ z) = y) as Hsl.
  { intros x y z. unfold slice. by rewrite drop_app_length, take_app_length. }
  assert (frame_of p = be_bytes 4 START_WORD ++ be_bytes 4 (Z.of_nat (length p)) ++ p ++
    be_bytes 4 (hash_u32 (frame_head p))) as Ef by (unfold frame_of, frame_head; by rewrite <- !app_assoc).
  split_and!.
  - replace (slice 0 4 _) with (be_bytes 4 START_WORD); [by rewrite be_value_be_bytes|].
    rewrite Ef. symmetry. exact (Hsl [] (be_bytes 4 START_WORD) _).
  - replace (slice 4 4 _) with (be_bytes 4 (Z.of_nat (length p))).
    + rewrite be_value_be_bytes. apply Z.mod_small. cbn. lia.
    + rewrite Ef. symmetry. exact (Hsl (be_bytes 4 START_WORD) (be_bytes 4 (Z.of_nat (length p))) _).
  - rewrite Ef, app_assoc. exact (Hsl (be_bytes 4 START_WORD ++ be_bytes 4 (Z.of_nat (length p))) p _).
  - unfold frame_of. rewrite <- length_frame_head. exact (Hsl [] (frame_head p) _).
  - replace (slice _ 4 _) with (be_bytes 4 (hash_u32 (frame_head p))).
    2: { rewrite <- length_frame_head. symmetry.
         rewrite <- (app_nil_r (frame_of p)). unfold frame_of at 1. rewrite <- app_assoc.
         exact (Hsl (frame_head p) (be_bytes 4 (hash_u32 (frame_head p))) []). }
    rewrite be_value_be_bytes. apply Z.mod_small. by apply (hash_u32_range _ (frame_head_bytes p Hp)).
Qed.

(** The handler up to the CRC check, on a window with a good header. *)
Definition deframer_verdict (data : Buffer) (ctx : FrameContext) (len : nat) : list DeframerOut :=
  let w := window data in
  (if decide (len < 2) then [DfPayloadTooShort] else []) ++
  (if decide (be_value (slice (HEADER_SIZE + len) 4 w) = hash_u32 (slice 0 (HEADER_SIZE + len) w))
   then [DfDataOut (payload_buffer data) (payload_context (slice HEADER_SIZE len w) ctx)]
   else [DfInvalidChecksum; DfDataReturnOut data ctx]).

Definition deframer_spec (data : Buffer) (ctx : FrameContext) : list DeframerOut :=
  let w := window data in
  if decide (length w < MIN_FRAME_SIZE) then [DfInvalidBufferReceived; DfDataReturnOut data ctx]
  else if decide (be_value (slice 0 4 w) ≠ START_WORD) then [DfInvalidStartWord; DfDataReturnOut data ctx]
  else if decide (length w ≠ HEADER_SIZE + Z.to_nat (be_value (slice 4 4 w)) + TRAILER_SIZE)
  then [DfInvalidLengthReceived; DfDataReturnOut data ctx]
  else deframer_verdict data ctx (Z.to_nat (be_value (slice 4 4 w))).

Lemma deframer_data_in_spec data ctx :
  buffer_ok data → deframer_data_in data ctx tt = Ret (tt, tt, deframer_spec data ctx).
Proof.
  intros Hd. pose proof (length_window data Hd) as Hl. pose proof (window_bytes data Hd) as Hb.
  unfold deframer_data_in, deframer_spec. rewrite Hl.
  case_bool_decide as Hmin; [by rewrite decide_True|]. rewrite decide_False by done.
  unfold MIN_FRAME_SIZE, HEADER_SIZE, TRAILER_SIZE in Hmin.
  rewrite (comp_lift_ok _ _ _ _ (from_window_header data Hd ltac:(lia))).
  set (lf := be_value (slice 4 4 (window data))).
  assert (0 ≤ lf)%Z as Hlf by (apply be_value_bounds; by apply Forall_slice).
  case_bool_decide as Hsw; cbn [negb]; [rewrite decide_False by tauto|by rewrite decide_True].
  case_bool_decide as Hlen; cbn [negb]; [rewrite decide_False by lia|by rewrite decide_True by lia].
  set (len := Z.to_nat lf) in *.
  assert (size data = HEADER_SIZE + len + TRAILER_SIZE) as Hsz by lia.
  unfold deframer_verdict. unfold HEADER_SIZE, TRAILER_SIZE in *.
  assert (storage data ≠ []) as Hst by (intros E; destruct Hd as [Ho _]; rewrite E in Ho; cbn in Ho; lia).
  assert (∀ o, copy_from 0 (8 + len) (window data) = Ret o → o = slice 0 (8 + len) (window data)) as Hcp.
  { intros o. rewrite copy_from_ok by lia. congruence. }
  pose proof (advance_forward 8 data Hd ltac:(lia) Hst) as Eadv.
  assert (set_size (size data - 8 - 4) (set_window (offset data + 8) (size data - 8) data)
          = Ret (payload_buffer data)) as Eset.
  { unfold set_size, Buffer_capacity. cbn. destruct Hd. by rewrite bool_decide_eq_true_2 by lia. }
  assert (∀ cc, (transmitted_crc ← lift (from_window (_ ← move_deser_to_offset (8 + len); deserialize_u32 Big) data);
      window0 ← lift (buffer_data data); head ← lift (copy_from 0 (8 + len) window0);
      if negb (bool_decide (transmitted_crc = hash_u32 head)) then drop_frame DfInvalidChecksum data ctx
      else d1 ← lift (advance (Z.of_nat 8) data); d2 ← lift (set_size (size d1 - 4) d1);
           emit (DfDataOut d2 cc)) tt
    = Ret (tt, tt, if decide (be_value (slice (8 + len) 4 (window data)) = hash_u32 (slice 0 (8 + len) (window data)))
        then [DfDataOut (payload_buffer data) cc] else [DfInvalidChecksum; DfDataReturnOut data ctx])) as Htail.
  { intros cc. rewrite (comp_lift_ok _ _ _ _ (from_window_at 4 (8 + len) data Hd ltac:(done) ltac:(lia))).
    rewrite (comp_lift_ok _ _ _ _ (buffer_data_ok data Hd)).
    rewrite (comp_lift_ok _ _ _ _ (copy_from_ok 0 (8 + len) (window data) ltac:(lia))).
    case_bool_decide as Hc; cbn [negb]; [rewrite decide_True by done|by rewrite decide_False by done].
    rewrite (comp_lift_ok _ _ _ _ Eadv). cbn [size set_window]. by rewrite (comp_lift_ok _ _ _ _ Eset). }
  unfold payload_context. rewrite length_slice by lia.
  case_bool_decide as Hshort.
  - rewrite !(decide_True (P := len < 2)) by lia. erewrite comp_bind_ret; [|reflexivity].
    rewrite Htail. reflexivity.
  - rewrite !(decide_False (P := len < 2)) by lia. erewrite comp_bind_quiet; [apply Htail|].
    rewrite (comp_lift_ok _ _ _ _ (from_window_at 2 8 data Hd ltac:(done) ltac:(lia))).
    replace (slice 0 2 (slice 8 len (window data))) with (slice 8 2 (window data)); [done|].
    unfold slice. rewrite drop_0, take_take. f_equal. lia.
Qed.

Definition is_event (o : DeframerOut) : Prop :=
  match o with DfDataOut _ _ | DfDataReturnOut _ _ => False | _ => True end.

Lemma deframer_spec_frame data ctx p :
  buffer_ok data → window data = frame_of p → Forall is_byte p → (Z.of_nat (length p) ≤ 0xFFFFFFFF)%Z →
  deframer_spec data ctx =
    (if decide (length p < 2) then [DfPayloadTooShort] else []) ++
    [DfDataOut (payload_buffer data) (payload_context p ctx)] ∧
  window (payload_buffer data) = p ∧ buffer_ok (payload_buffer data).
Proof.
  intros Hd Hw Hp Hmax. pose proof (length_frame_of p) as Hl.
  pose proof (length_window data Hd) as Hs. rewrite Hw in Hs.
  destruct (frame_checks p Hp Hmax) as (Hsw & Hlen & Hsl & Hh & Hc).
  unfold deframer_spec, deframer_verdict. rewrite Hw, Hsw, Hlen, Nat2Z.id, Hh, Hc, Hsl.
  rewrite (decide_False (P := length (frame_of p) < MIN_FRAME_SIZE)) by (unfold MIN_FRAME_SIZE; lia).
  rewrite (decide_False (P := START_WORD ≠ START_WORD)) by tauto.
  rewrite (decide_False (P := length (frame_of p) ≠ _)) by lia.
  rewrite (decide_True (P := hash_u32 _ = _)) by done. split; [done|].
  unfold HEADER_SIZE, TRAILER_SIZE in *. split.
  - rewrite <- Hsl, <- Hw. unfold payload_buffer, window. cbn [offset size storage set_window].
    unfold slice, HEADER_SIZE, TRAILER_SIZE. rewrite skipn_firstn_comm, take_take, drop_drop. f_equal. lia.
  - destruct Hd as [? ?]. split; cbn [offset size storage set_window payload_buffer]; [|done].
    unfold HEADER_SIZE, TRAILER_SIZE. lia.
Qed.

Lemma deframer_spec_reject data ctx :
  buffer_ok data →
  (∀ p, Forall is_byte p → (Z.of_nat (length p) ≤ 0xFFFFFFFF)%Z → window data ≠ frame_of p) →
  ∃ evs, deframer_spec data ctx = evs ++ [DfDataReturnOut data ctx] ∧ evs ≠ [] ∧ Forall is_event evs.
Proof.
  intros Hd Hno. pose proof (window_bytes data Hd) as Hb. unfold deframer_spec.
  case_decide as Hmin; [exists [DfInvalidBufferReceived]; by split_and!; [| |repeat constructor]|].
  case_decide as Hsw; [exists [DfInvalidStartWord]; by split_and!; [| |repeat constructor]|].
  case_decide as Hlen; [exists [DfInvalidLengthReceived]; by split_and!; [| |repeat constructor]|].
  assert (be_value (slice 0 4 (window data)) = START_WORD) as Hsw' by lia.
  set (lf := be_value (slice 4 4 (window data))) in *. set (len := Z.to_nat lf) in *.
  assert (length (window data) = HEADER_SIZE + len + TRAILER_SIZE) as Hl by lia.
  unfold MIN_FRAME_SIZE, HEADER_SIZE, TRAILER_SIZE in *.
  assert (0 ≤ lf < 2 ^ 32)%Z as Hlf.
  { pose proof (be_value_bounds (slice 4 4 (window data)) ltac:(by apply Forall_slice)) as Hbd.
    rewrite length_slice in Hbd by lia. exact Hbd. }
  unfold deframer_verdict. rewrite (decide_False (P := be_value (slice (HEADER_SIZE + len) 4 _) = _)).
  2: { intros Hc. apply (Hno (slice 8 len (window data))).
       - by apply Forall_slice.
       - rewrite length_slice; lia.
       - apply checks_frame; [done|done|done|fold lf; lia|done]. }
  case_decide; [exists [DfPayloadTooShort; DfInvalidChecksum]|exists [DfInvalidChecksum]];
    by split_and!; [| |repeat constructor].
Qed.

(** * The protocol's guarantees *)

(** C33. The deframer accepts exactly the frames: on any buffer it returns
    without panicking; when the window is the frame of some payload, the one
    buffer it hands over goes to [dataOut], with the same storage, the payload
    as its window and the payload's descriptor as the APID; on any other
    window it logs at least one event and returns the buffer unchanged with
    the original context, so a buffer is never lost or delivered twice. *)
Theorem deframer_accepts_exactly_frames (data : Buffer) (ctx : FrameContext) :
  buffer_ok data →
  ∃ outs, deframer_data_in data ctx tt = Ret (tt, tt, outs) ∧
    (∀ p, Forall is_byte p → (Z.of_nat (length p) ≤ 0xFFFFFFFF)%Z → window data = frame_of p →
       ∃ b, outs = (if decide (length p < 2) then [DfPayloadTooShort] else []) ++
                   [DfDataOut b (payload_context p ctx)] ∧
            window b = p ∧ storage b = storage data ∧ context b = context data) ∧
    ((∀ p, Forall is_byte p → (Z.of_nat (length p) ≤ 0xFFFFFFFF)%Z → window data ≠ frame_of p) →
       ∃ evs, outs = evs ++ [DfDataReturnOut data ctx] ∧ evs ≠ [] ∧ Forall is_event evs).
Proof.
  intros Hd. eexists. split; [by apply deframer_data_in_spec|]. split.
  - intros p Hp Hmax Hw. destruct (deframer_spec_frame data ctx p Hd Hw Hp Hmax) as (-> & Hwp & _).
    by eexists.
  - by apply deframer_spec_reject.
Qed.

Lemma deframer_accepts_exactly_frames_witness :
  let data := from_storage [1; 2; 3]%Z 0 in
  ∃ outs, deframer_data_in data FrameContext_default tt = Ret (tt, tt, outs) ∧
    (∀ p, Forall is_byte p → (Z.of_nat (length p) ≤ 0xFFFFFFFF)%Z → window data = frame_of p →
       ∃ b, outs = (if decide (length p < 2) then [DfPayloadTooShort] else []) ++
                   [DfDataOut b (payload_context p FrameContext_default)] ∧
            window b = p ∧ storage b = storage data ∧ context b = context data) ∧
    ((∀ p, Forall is_byte p → (Z.of_nat (length p) ≤ 0xFFFFFFFF)%Z → window data ≠ frame_of p) →
       ∃ evs, outs = evs ++ [DfDataReturnOut data FrameContext_default] ∧ evs ≠ [] ∧ Forall is_event evs).
Proof. apply (deframer_accepts_exactly_frames (from_storage [1; 2; 3]%Z 0)). fp_decide. Defined.

(** A concrete allocator: fresh zeroed buffers. *)
#[export] Instance heap_allocator : Allocator unit := λ n u, (allocate n, u).

#[export] Instance heap_allocator_laws : AllocatorLaws unit.
Proof.
  split; intros n [].
  - apply from_storage_ok, Forall_replicate. unfold is_byte. lia.
  - intros _. unfold alloc_get, heap_allocator, allocate, from_storage. cbn. by rewrite length_replicate.
Qed.

#[export] Instance heap_allocator_live : AllocatorLive unit.
Proof. intros [|n] []; [lia|done]. Qed.

(** Framing then deframing is the identity on payloads: whatever buffer
    the allocator provides (as large as requested or larger, at any offset,
    with any old content), the framer emits exactly one frame and returns the
    payload buffer, and the deframer delivers from that frame a buffer whose
    window is the payload, with the APID of its descriptor. *)
Theorem framer_deframer_roundtrip `{BuildProfile} `{AllocatorLaws A} (f : FprimeFramer A) (data : Buffer)
    (ctx ctx' : FrameContext) :
  buffer_ok data → (Z.of_nat (size data) ≤ 0xFFFFFFFF)%Z →
  is_valid (alloc_get (HEADER_SIZE + size data + TRAILER_SIZE) (fr_allocator f)).1 = true →
  ∃ f' fb b, framer_data_in data ctx f = Ret (tt, f', [FrDataOut fb ctx; FrDataReturnOut data ctx]) ∧
    deframer_data_in fb ctx' tt =
      Ret (tt, tt, (if decide (size data < 2) then [DfPayloadTooShort] else []) ++
                   [DfDataOut b (payload_context (window data) ctx')]) ∧
    window b = window data ∧ storage b = storage fb.
Proof.
  intros Hd Hmax Hv. destruct (framer_data_in_ok f data ctx Hd Hmax Hv) as (f' & fb & E & Hok & Hw & _).
  pose proof (length_window data Hd) as Hl. pose proof (window_bytes data Hd) as Hb.
  destruct (deframer_spec_frame fb ctx' (window data) Hok Hw Hb ltac:(by rewrite Hl)) as (Es & Hp & _).
  exists f', fb, (payload_buffer fb). split; [done|]. split; [|done].
  rewrite deframer_data_in_spec, Es, Hl by done. done.
Qed.

Lemma framer_deframer_roundtrip_witness :
  let P := true : BuildProfile in
  let data := from_storage [0; 3; 9]%Z 7 in
  ∃ f' fb b, framer_data_in data FrameContext_default (FprimeFramer_new true tt)
      = Ret (tt, f', [FrDataOut fb FrameContext_default; FrDataReturnOut data FrameContext_default]) ∧
    deframer_data_in fb FrameContext_default tt =
      Ret (tt, tt, [DfDataOut b (payload_context [0; 3; 9]%Z FrameContext_default)]) ∧
    window b = [0; 3; 9]%Z ∧ storage b = storage fb.
Proof.
  intros P. apply (framer_deframer_roundtrip (FprimeFramer_new true tt) (from_storage [0; 3; 9]%Z 7));
    [fp_decide|vm_compute; discriminate|reflexivity].
Defined.

(** Corruption is caught: a frame in which up to four consecutive payload
    bytes were changed is never delivered; the deframer reports
    [InvalidChecksum] and returns the buffer. *)
Theorem deframer_rejects_burst (data : Buffer) (ctx : FrameContext) (pre x y suf : list Z) :
  buffer_ok data → Forall is_byte (pre ++ x ++ suf) → Forall is_byte y →
  length x = length y → length x ≤ 4 → x ≠ y → (Z.of_nat (length (pre ++ x ++ suf)) ≤ 0xFFFFFFFF)%Z →
  window data = frame_head (pre ++ y ++ suf) ++ be_bytes 4 (hash_u32 (frame_head (pre ++ x ++ suf))) →
  ∃ evs, deframer_data_in data ctx tt =
           Ret (tt, tt, evs ++ [DfInvalidChecksum; DfDataReturnOut data ctx]) ∧ Forall is_event evs.
Proof.
  intros Hd Hp Hy Hxy Hx4 Hne Hmax Hw.
  apply Forall_app in Hp as [Hpre [Hx Hsuf]%Forall_app].
  set (p := pre ++ x ++ suf) in *. set (q := pre ++ y ++ suf) in *.
  assert (length q = length p) as Hql by (unfold p, q; rewrite !length_app; lia).
  assert (Forall is_byte q) as Hq by (unfold q; rewrite !Forall_app; auto).
  assert (hash_u32 (frame_head q) ≠ hash_u32 (frame_head p)) as Hh.
  { unfold frame_head. rewrite Hql. unfold p, q. rewrite !app_assoc, <- !(app_assoc _ _ suf).
    intros E. symmetry in E. revert E. apply hash_burst; try done.
    rewrite !Forall_app. auto using be_bytes_is_byte. }
  rewrite deframer_data_in_spec by done.
  destruct (frame_checks q Hq ltac:(by rewrite Hql)) as (Hsw & Hlen & _ & _ & _).
  assert (∀ off n, off + n ≤ HEADER_SIZE + length q → slice off n (window data) = slice off n (frame_of q)) as Hsl.
  { intros off n Hn. rewrite Hw. unfold frame_of, slice.
    rewrite !drop_app_le, !take_app_le by (rewrite ?length_drop, length_frame_head; lia). done. }
  assert (length (window data) = HEADER_SIZE + length q + TRAILER_SIZE) as Hl
    by (by rewrite Hw, length_app, length_frame_head, length_be_bytes).
  unfold deframer_spec, deframer_verdict. rewrite (Hsl 0 4), (Hsl 4 4) by (unfold HEADER_SIZE; lia).
  rewrite Hsw, Hlen, Nat2Z.id.
  rewrite (decide_False (P := length _ < MIN_FRAME_SIZE)) by (unfold MIN_FRAME_SIZE; lia).
  rewrite (decide_False (P := START_WORD ≠ START_WORD)) by tauto.
  rewrite (decide_False (P := length _ ≠ _)) by lia.
  rewrite (decide_False (P := be_value _ = _)).
  - eexists. split; [done|]. case_decide; repeat constructor.
  - rewrite Hw. rewrite <- length_frame_head. unfold slice. rewrite drop_app_length, drop_0, take_app_length.
    rewrite take_ge by (by rewrite length_be_bytes). rewrite be_value_be_bytes, Z.mod_small; [congruence|].
    apply hash_u32_range, frame_head_bytes. unfold p. rewrite !Forall_app. auto.
Qed.

Lemma deframer_rejects_burst_witness :
  let data := from_storage (frame_head [5; 7; 6]%Z ++ be_bytes 4 (hash_u32 (frame_head [5; 1; 6]%Z))) 0 in
  ∃ evs, deframer_data_in data FrameContext_default tt =
           Ret (tt, tt, evs ++ [DfInvalidChecksum; DfDataReturnOut data FrameContext_default]) ∧
         Forall is_event evs.
Proof.
  apply (deframer_rejects_burst
    (from_storage (frame_head [5; 7; 6]%Z ++ be_bytes 4 (hash_u32 (frame_head [5; 1; 6]%Z))) 0)
    FrameContext_default [5]%Z [1]%Z [7]%Z [6]%Z); try fp_decide; try done.
Defined.
