(* ===== verification/CcsdsTypes.v ===== *)
(** The CCSDS headers and trailers, [crates/fprime-svc/src/ccsds/types.rs]:
    the structs declared with [fpp_struct!] (big-endian words, no padding) and
    the bit fields packed inside the words.

    Accessors carry a prefix ([sp_], [tm_], [tc_]) where the source uses one
    name in several [impl] blocks. *)

From S2P Require Import Prelude Serial SerialFacts Codec Fpp Crc16 Buffer Framing.
Local Open Scope Z_scope.

(** * Configuration constants *)

Definition SPACECRAFT_ID : Z := 0x0044.
Definition TM_FRAME_FIXED_SIZE : nat := 1024.

(** * [FrameError] *)

Inductive FrameError : Set :=
| SpInvalidPacket | SpInvalidLength | TcInvalidScid | TcInvalidLength | TcInvalidVcid
| TcInvalidCrc | AosInvalidScid | AosInvalidLength | AosInvalidVcid | AosInvalidCrc
| AosInvalidVersion | AosInvalidEpp | AosVcFrameCountGap | SdlsDecryptionFailure.
#[export] Instance FrameError_eq_dec : EqDecision FrameError.
Proof. solve_decision. Defined.
Definition FrameError_repr (v : FrameError) : Z :=
  match v with
  | SpInvalidPacket => 0 | SpInvalidLength => 1 | TcInvalidScid => 2 | TcInvalidLength => 3
  | TcInvalidVcid => 4 | TcInvalidCrc => 5 | AosInvalidScid => 6 | AosInvalidLength => 7
  | AosInvalidVcid => 8 | AosInvalidCrc => 9 | AosInvalidVersion => 10 | AosInvalidEpp => 11
  | AosVcFrameCountGap => 12 | SdlsDecryptionFailure => 13
  end.
Definition FrameError_VALUES : list (Z * FrameError) :=
  [(0, SpInvalidPacket); (1, SpInvalidLength); (2, TcInvalidScid); (3, TcInvalidLength);
   (4, TcInvalidVcid); (5, TcInvalidCrc); (6, AosInvalidScid); (7, AosInvalidLength);
   (8, AosInvalidVcid); (9, AosInvalidCrc); (10, AosInvalidVersion); (11, AosInvalidEpp);
   (12, AosVcFrameCountGap); (13, SdlsDecryptionFailure)].
#[export] Program Instance FrameError_enum : FppEnum FrameError := {|
  repr_bytes := 1; as_repr := FrameError_repr; try_from := table_try_from FrameError_VALUES |}.
Solve All Obligations with fpp_enum_laws.

(** * Space packet header *)

Definition SP_PVN_MASK : Z := 0xE000.
Definition SP_PKT_TYPE_MASK : Z := 0x1000.
Definition SP_SEC_HDR_MASK : Z := 0x0800.
Definition SP_APID_MASK : Z := 0x07FF.
Definition SP_PVN_OFFSET : Z := 13.
Definition SP_PKT_TYPE_OFFSET : Z := 12.
Definition SP_SEC_HDR_OFFSET : Z := 11.
Definition SP_SEQ_FLAGS_MASK : Z := 0xC000.
Definition SP_SEQ_COUNT_MASK : Z := 0x3FFF.
Definition SP_SEQ_FLAGS_OFFSET : Z := 14.
Definition SP_APID_WIDTH : Z := 11.
Definition SP_SEQ_COUNT_WIDTH : Z := 14.

Record SpacePacketHeader : Set := MkSpHeader {
  packet_identification : Z;
  packet_sequence_control : Z;
  packet_data_length : Z;
}.
Definition SP_HEADER_SIZE : nat := 6.

Definition SpacePacketHeader_serialize_to (h : SpacePacketHeader) (e : Endianness) : SerM unit :=
  _ ← serialize_u16 (packet_identification h) e;
  _ ← serialize_u16 (packet_sequence_control h) e;
  serialize_u16 (packet_data_length h) e.

Definition SpacePacketHeader_deserialize_from (e : Endianness) : SerM SpacePacketHeader :=
  pid ← deserialize_u16 e;
  psc ← deserialize_u16 e;
  pdl ← deserialize_u16 e;
  mret (MkSpHeader pid psc pdl).

Definition build_packet_identification (pvn packet_type : Z) (has_sec_hdr : bool) (apid : Z) : Z :=
  let sec_hdr_flag := if has_sec_hdr then 1 else 0 in
  Z.lor (Z.lor (Z.lor (Z.land (shl16 pvn SP_PVN_OFFSET) SP_PVN_MASK)
                      (Z.land (shl16 packet_type SP_PKT_TYPE_OFFSET) SP_PKT_TYPE_MASK))
               (Z.land (shl16 sec_hdr_flag SP_SEC_HDR_OFFSET) SP_SEC_HDR_MASK))
        (Z.land apid SP_APID_MASK).

Definition build_packet_sequence_control (sequence_flags sequence_count : Z) : Z :=
  Z.lor (Z.land (shl16 sequence_flags SP_SEQ_FLAGS_OFFSET) SP_SEQ_FLAGS_MASK)
        (Z.land sequence_count SP_SEQ_COUNT_MASK).

Definition sp_pvn (h : SpacePacketHeader) : Z :=
  wrap 8 (Z.shiftr (Z.land (packet_identification h) SP_PVN_MASK) SP_PVN_OFFSET).
Definition sp_packet_type (h : SpacePacketHeader) : Z :=
  wrap 8 (Z.shiftr (Z.land (packet_identification h) SP_PKT_TYPE_MASK) SP_PKT_TYPE_OFFSET).
Definition sp_has_sec_hdr (h : SpacePacketHeader) : bool :=
  negb (Z.land (packet_identification h) SP_SEC_HDR_MASK =? 0).
Definition apid_value (h : SpacePacketHeader) : Z := Z.land (packet_identification h) SP_APID_MASK.
Definition sp_sequence_flags (h : SpacePacketHeader) : Z :=
  wrap 8 (Z.shiftr (Z.land (packet_sequence_control h) SP_SEQ_FLAGS_MASK) SP_SEQ_FLAGS_OFFSET).
Definition sp_sequence_count (h : SpacePacketHeader) : Z :=
  Z.land (packet_sequence_control h) SP_SEQ_COUNT_MASK.
(** Widened to [u32] before the increment. *)
Definition data_field_length (h : SpacePacketHeader) : Z := packet_data_length h + 1.
(** [u16] subtraction. *)
Definition length_token `{BuildProfile} (data_field_length : Z) : outcome Z := sub_w 16 data_field_length 1.

(** * TM transfer frame header and trailer *)

Definition TM_SPACECRAFT_ID_OFFSET : Z := 4.
Definition TM_VIRTUAL_CHANNEL_ID_OFFSET : Z := 1.
Definition TM_SEG_LENGTH_OFFSET : Z := 11.
Definition TM_FRAME_VERSION_OFFSET : Z := 14.
Definition TM_FRAME_VERSION_MASK : Z := 0xC000.
Definition TM_SPACECRAFT_ID_MASK : Z := 0x3FF0.
Definition TM_VIRTUAL_CHANNEL_ID_MASK : Z := 0x000E.
Definition TM_OCF_FLAG_MASK : Z := 0x0001.
Definition TM_SEC_HDR_FLAG_MASK : Z := 0x8000.
Definition TM_SYNC_FLAG_MASK : Z := 0x4000.
Definition TM_PACKET_ORDER_FLAG_MASK : Z := 0x2000.
Definition TM_SEG_LENGTH_MASK : Z := 0x1800.
Definition TM_FIRST_HEADER_POINTER_MASK : Z := 0x07FF.
Definition FHP_MASK : Z := TM_FIRST_HEADER_POINTER_MASK.

Record TMHeader : Set := MkTMHeader {
  global_vc_id : Z;
  master_frame_count : Z;
  virtual_frame_count : Z;
  data_field_status : Z;
}.
Definition TM_HEADER_SIZE : nat := 6.
Definition TM_TRAILER_SIZE : nat := 2.

Definition TMHeader_serialize_to (h : TMHeader) (e : Endianness) : SerM unit :=
  _ ← serialize_u16 (global_vc_id h) e;
  _ ← serialize_u8 (master_frame_count h) e;
  _ ← serialize_u8 (virtual_frame_count h) e;
  serialize_u16 (data_field_status h) e.

Definition TMHeader_deserialize_from (e : Endianness) : SerM TMHeader :=
  g ← deserialize_u16 e;
  m ← deserialize_u8 e;
  v ← deserialize_u8 e;
  s ← deserialize_u16 e;
  mret (MkTMHeader g m v s).

(** Neither identifier is masked. *)
Definition build_global_vc_id (spacecraft_id vc_id : Z) (ocf_flag : bool) : Z :=
  let ocf := if ocf_flag then 1 else 0 in
  Z.lor (Z.lor (shl16 vc_id TM_VIRTUAL_CHANNEL_ID_OFFSET) (shl16 spacecraft_id TM_SPACECRAFT_ID_OFFSET)) ocf.

Definition build_data_field_status (sec_hdr_flag sync_flag packet_order_flag : bool)
    (segment_length_id first_header_pointer : Z) : Z :=
  let sec := if sec_hdr_flag then TM_SEC_HDR_FLAG_MASK else 0 in
  let sync := if sync_flag then TM_SYNC_FLAG_MASK else 0 in
  let order := if packet_order_flag then TM_PACKET_ORDER_FLAG_MASK else 0 in
  Z.lor (Z.lor (Z.lor (Z.lor sec sync) order)
               (Z.land (shl16 segment_length_id TM_SEG_LENGTH_OFFSET) TM_SEG_LENGTH_MASK))
        (Z.land first_header_pointer TM_FIRST_HEADER_POINTER_MASK).

Definition tm_frame_version (h : TMHeader) : Z :=
  wrap 8 (Z.shiftr (Z.land (global_vc_id h) TM_FRAME_VERSION_MASK) TM_FRAME_VERSION_OFFSET).
Definition tm_spacecraft_id (h : TMHeader) : Z :=
  Z.shiftr (Z.land (global_vc_id h) TM_SPACECRAFT_ID_MASK) TM_SPACECRAFT_ID_OFFSET.
Definition tm_vc_id (h : TMHeader) : Z :=
  wrap 8 (Z.shiftr (Z.land (global_vc_id h) TM_VIRTUAL_CHANNEL_ID_MASK) TM_VIRTUAL_CHANNEL_ID_OFFSET).
Definition tm_ocf_flag (h : TMHeader) : bool := negb (Z.land (global_vc_id h) TM_OCF_FLAG_MASK =? 0).
Definition tm_segment_length_id (h : TMHeader) : Z :=
  wrap 8 (Z.shiftr (Z.land (data_field_status h) TM_SEG_LENGTH_MASK) TM_SEG_LENGTH_OFFSET).
Definition tm_first_header_pointer (h : TMHeader) : Z :=
  Z.land (data_field_status h) TM_FIRST_HEADER_POINTER_MASK.

Record TMTrailer : Set := MkTMTrailer { tm_fecf : Z }.
Definition TMTrailer_serialize_to (t : TMTrailer) (e : Endianness) : SerM unit := serialize_u16 (tm_fecf t) e.

(** * TC transfer frame header and trailer *)

Definition TC_FRAME_VERSION_MASK : Z := 0xC000.
Definition TC_BYPASS_FLAG_MASK : Z := 0x2000.
Definition TC_CONTROL_FLAG_MASK : Z := 0x1000.
Definition TC_SPACECRAFT_ID_MASK : Z := 0x03FF.
Definition TC_BYPASS_FLAG_OFFSET : Z := 13.
Definition TC_VC_ID_MASK : Z := 0xFC00.
Definition TC_FRAME_LENGTH_MASK : Z := 0x03FF.
Definition TC_VC_ID_OFFSET : Z := 10.

Record TCHeader : Set := MkTCHeader {
  flags_and_sc_id : Z;
  vc_id_and_length : Z;
  frame_sequence_num : Z;
}.
Definition TC_HEADER_SIZE : nat := 5.
Definition TC_TRAILER_SIZE : nat := 2.

Definition TCHeader_serialize_to (h : TCHeader) (e : Endianness) : SerM unit :=
  _ ← serialize_u16 (flags_and_sc_id h) e;
  _ ← serialize_u16 (vc_id_and_length h) e;
  serialize_u8 (frame_sequence_num h) e.

Definition TCHeader_deserialize_from (e : Endianness) : SerM TCHeader :=
  f ← deserialize_u16 e;
  v ← deserialize_u16 e;
  s ← deserialize_u8 e;
  mret (MkTCHeader f v s).

Definition build_flags_and_sc_id (bypass_flag control_command_flag : bool) (spacecraft_id : Z) : Z :=
  let bypass := if bypass_flag then TC_BYPASS_FLAG_MASK else 0 in
  let control := if control_command_flag then TC_CONTROL_FLAG_MASK else 0 in
  Z.lor (Z.lor bypass control) (Z.land spacecraft_id TC_SPACECRAFT_ID_MASK).

Definition build_vc_id_and_length `{BuildProfile} (vc_id total_frame_length : Z) : outcome Z :=
  token ← sub_w 16 total_frame_length 1;
  Ret (Z.lor (Z.land (shl16 vc_id TC_VC_ID_OFFSET) TC_VC_ID_MASK) (Z.land token TC_FRAME_LENGTH_MASK)).

Definition tc_frame_version (h : TCHeader) : Z :=
  wrap 8 (Z.shiftr (Z.land (flags_and_sc_id h) TC_FRAME_VERSION_MASK) 14).
Definition tc_bypass_flag (h : TCHeader) : bool := negb (Z.land (flags_and_sc_id h) TC_BYPASS_FLAG_MASK =? 0).
Definition tc_control_command_flag (h : TCHeader) : bool :=
  negb (Z.land (flags_and_sc_id h) TC_CONTROL_FLAG_MASK =? 0).
Definition tc_spacecraft_id (h : TCHeader) : Z := Z.land (flags_and_sc_id h) TC_SPACECRAFT_ID_MASK.
Definition tc_vc_id (h : TCHeader) : Z :=
  wrap 8 (Z.shiftr (Z.land (vc_id_and_length h) TC_VC_ID_MASK) TC_VC_ID_OFFSET).
Definition total_frame_length (h : TCHeader) : Z := Z.land (vc_id_and_length h) TC_FRAME_LENGTH_MASK + 1.

Record TCTrailer : Set := MkTCTrailer { tc_fecf : Z }.
Definition TCTrailer_serialize_to (t : TCTrailer) (e : Endianness) : SerM unit := serialize_u16 (tc_fecf t) e.
Definition TCTrailer_deserialize_from (e : Endianness) : SerM TCTrailer :=
  f ← deserialize_u16 e; mret (MkTCTrailer f).

(** * Codecs *)

Ltac header_bytes := rewrite ?Forall_app; split_and?; apply int_bytes_is_byte.
Ltac header_safe :=
  repeat (apply safe_bind; [apply deserialize_uint_safe|intros ?]); apply safe_ret.

Definition SpacePacketHeader_wf (h : SpacePacketHeader) : Prop :=
  is_u 16 (packet_identification h) ∧ is_u 16 (packet_sequence_control h) ∧ is_u 16 (packet_data_length h).
Definition SpacePacketHeader_enc (e : Endianness) (h : SpacePacketHeader) : list Z :=
  int_bytes 2 e (packet_identification h) ++ int_bytes 2 e (packet_sequence_control h) ++
  int_bytes 2 e (packet_data_length h).

Program Definition SpacePacketHeader_codec : codec SpacePacketHeader :=
  Codec SpacePacketHeader SpacePacketHeader_wf SpacePacketHeader_enc SpacePacketHeader_serialize_to
    SpacePacketHeader_deserialize_from _ _ _ _.
Next Obligation. intros. unfold SpacePacketHeader_enc. header_bytes. Qed.
Next Obligation.
  intros h e. ser_step u16_codec (packet_identification h). ser_step u16_codec (packet_sequence_control h).
  ser_last u16_codec (packet_data_length h).
Qed.
Next Obligation.
  intros h e (? & ? & ?). deser_step u16_codec (packet_identification h); [done|].
  deser_step u16_codec (packet_sequence_control h); [done|].
  deser_last u16_codec (packet_data_length h); [done|]. destruct h. apply reads_ret.
Qed.
Next Obligation. intros e. header_safe. Qed.

Definition TMHeader_wf (h : TMHeader) : Prop :=
  is_u 16 (global_vc_id h) ∧ is_u 8 (master_frame_count h) ∧ is_u 8 (virtual_frame_count h) ∧
  is_u 16 (data_field_status h).
Definition TMHeader_enc (e : Endianness) (h : TMHeader) : list Z :=
  int_bytes 2 e (global_vc_id h) ++ int_bytes 1 e (master_frame_count h) ++
  int_bytes 1 e (virtual_frame_count h) ++ int_bytes 2 e (data_field_status h).

Program Definition TMHeader_codec : codec TMHeader :=
  Codec TMHeader TMHeader_wf TMHeader_enc TMHeader_serialize_to TMHeader_deserialize_from _ _ _ _.
Next Obligation. intros. unfold TMHeader_enc. header_bytes. Qed.
Next Obligation.
  intros h e. ser_step u16_codec (global_vc_id h). ser_step u8_codec (master_frame_count h).
  ser_step u8_codec (virtual_frame_count h). ser_last u16_codec (data_field_status h).
Qed.
Next Obligation.
  intros h e (? & ? & ? & ?). deser_step u16_codec (global_vc_id h); [done|].
  deser_step u8_codec (master_frame_count h); [done|]. deser_step u8_codec (virtual_frame_count h); [done|].
  deser_last u16_codec (data_field_status h); [done|]. destruct h. apply reads_ret.
Qed.
Next Obligation. intros e. header_safe. Qed.

Definition TCHeader_wf (h : TCHeader) : Prop :=
  is_u 16 (flags_and_sc_id h) ∧ is_u 16 (vc_id_and_length h) ∧ is_u 8 (frame_sequence_num h).
Definition TCHeader_enc (e : Endianness) (h : TCHeader) : list Z :=
  int_bytes 2 e (flags_and_sc_id h) ++ int_bytes 2 e (vc_id_and_length h) ++
  int_bytes 1 e (frame_sequence_num h).

Program Definition TCHeader_codec : codec TCHeader :=
  Codec TCHeader TCHeader_wf TCHeader_enc TCHeader_serialize_to TCHeader_deserialize_from _ _ _ _.
Next Obligation. intros. unfold TCHeader_enc. header_bytes. Qed.
Next Obligation.
  intros h e. ser_step u16_codec (flags_and_sc_id h). ser_step u16_codec (vc_id_and_length h).
  ser_last u8_codec (frame_sequence_num h).
Qed.
Next Obligation.
  intros h e (? & ? & ?). deser_step u16_codec (flags_and_sc_id h); [done|].
  deser_step u16_codec (vc_id_and_length h); [done|].
  deser_last u8_codec (frame_sequence_num h); [done|]. destruct h. apply reads_ret.
Qed.
Next Obligation. intros e. header_safe. Qed.

(** * Bit fields *)

Lemma field_get k n x :
  0 ≤ k → 0 ≤ n → Z.shiftr (Z.land x (Z.shiftl (Z.ones k) n)) n = (x / 2 ^ n) mod 2 ^ k.
Proof.
  intros Hk Hn. rewrite Z.shiftr_land, Z.shiftr_shiftl_l, Z.sub_diag, Z.shiftl_0_r by lia.
  by rewrite Z.land_ones, Z.shiftr_div_pow2 by lia.
Qed.

Lemma field_put k n v :
  0 ≤ k → 0 ≤ n → n + k ≤ 16 → Z.land (shl16 v n) (Z.shiftl (Z.ones k) n) = Z.shiftl (v mod 2 ^ k) n.
Proof.
  intros Hk Hn Hle. rewrite shl16_ones, <- Z.land_assoc by done.
  assert (Z.land (Z.ones 16) (Z.shiftl (Z.ones k) n) = Z.shiftl (Z.ones k) n) as ->.
  { rewrite Z.land_comm, Z.land_ones by lia. apply Z.mod_small.
    rewrite Z.shiftl_mul_pow2, Z.ones_equiv by lia.
    assert (2 ^ (n + k) ≤ 2 ^ 16) by (apply Z.pow_le_mono_r; lia). rewrite Z.pow_add_r in * by lia.
    pose proof (Z.pow_pos_nonneg 2 n ltac:(lia) Hn). pose proof (Z.pow_pos_nonneg 2 k ltac:(lia) Hk). nia. }
  rewrite <- Z.shiftl_land. by rewrite Z.land_ones by lia.
Qed.

Lemma flag_get n x : 0 ≤ n → negb (Z.land x (2 ^ n) =? 0) = Z.testbit x n.
Proof.
  intros Hn. destruct (Z.testbit x n) eqn:E.
  - apply negb_true_iff, Z.eqb_neq. intros H. apply (f_equal (λ z, Z.testbit z n)) in H.
    by rewrite Z.land_spec, E, Z.bits_0, Z.pow2_bits_true in H by lia.
  - apply negb_false_iff, Z.eqb_eq, Z.bits_inj'. intros i Hi. rewrite Z.land_spec, Z.bits_0.
    destruct (decide (i = n)) as [->|Hne]; [by rewrite E|]. by rewrite Z.pow2_bits_false, andb_false_r by lia.
Qed.

(** Words as sums of their fields. *)
Lemma packet_identification_sum v t s a :
  build_packet_identification v t s a =
    (v mod 8) * 2 ^ 13 + ((t mod 2) * 2 ^ 12 + ((if s then 1 else 0) * 2 ^ 11 + a mod 2 ^ 11)).
Proof.
  unfold build_packet_identification.
  change SP_PVN_MASK with (Z.shiftl (Z.ones 3) 13). change SP_PVN_OFFSET with 13.
  change SP_PKT_TYPE_MASK with (Z.shiftl (Z.ones 1) 12). change SP_PKT_TYPE_OFFSET with 12.
  change SP_SEC_HDR_MASK with (Z.shiftl (Z.ones 1) 11). change SP_SEC_HDR_OFFSET with 11.
  change SP_APID_MASK with (Z.ones 11). rewrite !field_put, Z.land_ones by lia.
  change (2 ^ 3) with 8. change (2 ^ 1) with 2. rewrite (Z.mod_small (if s then 1 else 0)) by (destruct s; lia).
  pose proof (Z.mod_pos_bound a (2 ^ 11) ltac:(lia)). pose proof (Z.mod_pos_bound t 2 ltac:(lia)).
  rewrite <- !Z.lor_assoc. rewrite (shift_or 11) by (destruct s; lia).
  rewrite (shift_or 12) by (destruct s; lia). rewrite (shift_or 13) by (destruct s; lia). done.
Qed.

Lemma packet_sequence_control_sum f c :
  build_packet_sequence_control f c = (f mod 4) * 2 ^ 14 + c mod 2 ^ 14.
Proof.
  unfold build_packet_sequence_control. change SP_SEQ_FLAGS_MASK with (Z.shiftl (Z.ones 2) 14).
  change SP_SEQ_FLAGS_OFFSET with 14. change SP_SEQ_COUNT_MASK with (Z.ones 14).
  rewrite field_put, Z.land_ones by lia. pose proof (Z.mod_pos_bound c (2 ^ 14) ltac:(lia)).
  by rewrite (shift_or 14) by lia.
Qed.

Lemma data_field_status_sum s y o g p :
  build_data_field_status s y o g p =
    (if s then 1 else 0) * 2 ^ 15 + ((if y then 1 else 0) * 2 ^ 14 +
    ((if o then 1 else 0) * 2 ^ 13 + ((g mod 4) * 2 ^ 11 + p mod 2 ^ 11))).
Proof.
  unfold build_data_field_status. change TM_SEG_LENGTH_MASK with (Z.shiftl (Z.ones 2) 11).
  change TM_SEG_LENGTH_OFFSET with 11. change TM_FIRST_HEADER_POINTER_MASK with (Z.ones 11).
  rewrite field_put, Z.land_ones by lia. pose proof (Z.mod_pos_bound p (2 ^ 11) ltac:(lia)).
  pose proof (Z.mod_pos_bound g 4 ltac:(lia)). rewrite <- !Z.lor_assoc. rewrite (shift_or 11) by lia.
  change (2 ^ 2) with 4.
  replace (if o then TM_PACKET_ORDER_FLAG_MASK else 0) with (Z.shiftl (if o then 1 else 0) 13) by (by destruct o).
  replace (if y then TM_SYNC_FLAG_MASK else 0) with (Z.shiftl (if y then 1 else 0) 14) by (by destruct y).
  replace (if s then TM_SEC_HDR_FLAG_MASK else 0) with (Z.shiftl (if s then 1 else 0) 15) by (by destruct s).
  rewrite (shift_or 13) by lia. rewrite (shift_or 14) by (destruct o; lia).
  rewrite (shift_or 15) by (destruct y, o; lia). done.
Qed.

Lemma flags_and_sc_id_sum b c s :
  build_flags_and_sc_id b c s =
    (if b then 1 else 0) * 2 ^ 13 + ((if c then 1 else 0) * 2 ^ 12 + s mod 2 ^ 10).
Proof.
  unfold build_flags_and_sc_id. change TC_SPACECRAFT_ID_MASK with (Z.ones 10).
  rewrite Z.land_ones by lia. pose proof (Z.mod_pos_bound s (2 ^ 10) ltac:(lia)). rewrite <- Z.lor_assoc.
  replace (if c then TC_CONTROL_FLAG_MASK else 0) with (Z.shiftl (if c then 1 else 0) 12) by (by destruct c).
  replace (if b then TC_BYPASS_FLAG_MASK else 0) with (Z.shiftl (if b then 1 else 0) 13) by (by destruct b).
  rewrite (shift_or 12) by lia. by rewrite (shift_or 13) by (destruct c; lia).
Qed.

Lemma vc_id_and_length_sum `{BuildProfile} v n :
  1 ≤ n < 2 ^ 16 → build_vc_id_and_length v n = Ret ((v mod 64) * 2 ^ 10 + (n - 1) mod 2 ^ 10).
Proof.
  intros Hn. unfold build_vc_id_and_length, sub_w. rewrite overflowing_in by (unfold is_u; lia).
  rewrite outcome_bind_ret. f_equal. change TC_VC_ID_MASK with (Z.shiftl (Z.ones 6) 10).
  change TC_VC_ID_OFFSET with 10. change TC_FRAME_LENGTH_MASK with (Z.ones 10).
  rewrite field_put, Z.land_ones by lia. pose proof (Z.mod_pos_bound (n - 1) (2 ^ 10) ltac:(lia)).
  by rewrite (shift_or 10) by lia.
Qed.

Lemma global_vc_id_sum s v :
  0 ≤ s < 2 ^ 10 → 0 ≤ v < 8 → build_global_vc_id s v false = s * 2 ^ 4 + v * 2.
Proof.
  intros Hs Hv. unfold build_global_vc_id, shl16. rewrite Z.lor_0_r.
  change TM_VIRTUAL_CHANNEL_ID_OFFSET with 1. change TM_SPACECRAFT_ID_OFFSET with 4.
  rewrite !wrap_small by (unfold is_u; rewrite Z.shiftl_mul_pow2 by lia; lia).
  rewrite Z.lor_comm, (shift_or 4) by (rewrite ?Z.shiftl_mul_pow2 by lia; lia).
  by rewrite Z.shiftl_mul_pow2 by lia.
Qed.

(** Fields as quotients and remainders of their words. *)
Lemma sp_accessors h :
  is_u 16 (packet_identification h) → is_u 16 (packet_sequence_control h) →
  sp_pvn h = packet_identification h / 2 ^ 13 ∧
  sp_packet_type h = (packet_identification h / 2 ^ 12) mod 2 ∧
  sp_has_sec_hdr h = Z.odd (packet_identification h / 2 ^ 11) ∧
  apid_value h = packet_identification h mod 2 ^ 11 ∧
  sp_sequence_flags h = packet_sequence_control h / 2 ^ 14 ∧
  sp_sequence_count h = packet_sequence_control h mod 2 ^ 14.
Proof.
  unfold is_u. intros Hp Hc.
  unfold sp_pvn, sp_packet_type, sp_has_sec_hdr, apid_value, sp_sequence_flags, sp_sequence_count.
  change SP_PVN_MASK with (Z.shiftl (Z.ones 3) 13). change SP_PVN_OFFSET with 13.
  change SP_PKT_TYPE_MASK with (Z.shiftl (Z.ones 1) 12). change SP_PKT_TYPE_OFFSET with 12.
  change SP_SEC_HDR_MASK with (2 ^ 11). change SP_APID_MASK with (Z.ones 11).
  change SP_SEQ_FLAGS_MASK with (Z.shiftl (Z.ones 2) 14).
  change SP_SEQ_FLAGS_OFFSET with 14. change SP_SEQ_COUNT_MASK with (Z.ones 14).
  rewrite !field_get, !Z.land_ones, flag_get by lia. unfold wrap.
  split_and!; try done.
  - Z.to_euclidean_division_equations; lia.
  - rewrite Z.mod_small; [done|]. Z.to_euclidean_division_equations; lia.
  - by rewrite Z.testbit_odd, Z.shiftr_div_pow2 by lia.
  - Z.to_euclidean_division_equations; lia.
Qed.

Lemma tc_accessors h :
  is_u 16 (flags_and_sc_id h) → is_u 16 (vc_id_and_length h) →
  tc_spacecraft_id h = flags_and_sc_id h mod 2 ^ 10 ∧
  tc_vc_id h = vc_id_and_length h / 2 ^ 10 ∧
  total_frame_length h = vc_id_and_length h mod 2 ^ 10 + 1.
Proof.
  unfold is_u. intros Hf Hv. unfold tc_spacecraft_id, tc_vc_id, total_frame_length.
  change TC_SPACECRAFT_ID_MASK with (Z.ones 10). change TC_VC_ID_MASK with (Z.shiftl (Z.ones 6) 10).
  change TC_VC_ID_OFFSET with 10. change TC_FRAME_LENGTH_MASK with (Z.ones 10).
  rewrite field_get, !Z.land_ones by lia. unfold wrap. split_and!; try done.
  Z.to_euclidean_division_equations; lia.
Qed.

(** * Headers in the window of a buffer *)

Lemma from_window_codec {A} (c : codec A) (a : A) rest b :
  buffer_ok b → c_valid c a → size b ≠ 0%nat → window b = c_enc c Big a ++ rest →
  from_window (c_deser c Big) b = Ret a.
Proof.
  intros Hb Ha Hz Hw. destruct (get_deserializer_ok b Hb Hz) as (ser & E & Hwf & Hd & Has & _).
  unfold from_window. rewrite E, outcome_bind_ret.
  rewrite (c_deser_ok c a Big Ha ser rest Hwf); [done|]. unfold remaining_slice. by rewrite Has, Hd, drop_0.
Qed.

Lemma slice_word_u n off w : Forall is_byte w → (off + n ≤ length w)%nat → is_u (8 * Z.of_nat n) (be_value (slice off n w)).
Proof.
  intros Hw Hl. unfold is_u. rewrite <- pow256.
  pose proof (be_value_bounds (slice off n w) ltac:(by apply Forall_slice)) as H.
  by rewrite (length_slice off n w Hl) in H.
Qed.

(** The header words at the start of a window. *)
Definition sp_header_of (w : list Z) : SpacePacketHeader :=
  MkSpHeader (be_value (slice 0 2 w)) (be_value (slice 2 2 w)) (be_value (slice 4 2 w)).
Definition tc_header_of (w : list Z) : TCHeader :=
  MkTCHeader (be_value (slice 0 2 w)) (be_value (slice 2 2 w)) (be_value (slice 4 1 w)).

Lemma sp_header_of_ok w :
  Forall is_byte w → (SP_HEADER_SIZE ≤ length w)%nat →
  SpacePacketHeader_wf (sp_header_of w) ∧ w = SpacePacketHeader_enc Big (sp_header_of w) ++ drop SP_HEADER_SIZE w.
Proof.
  unfold SP_HEADER_SIZE. intros Hw Hl. split.
  - split_and!; cbn [packet_identification packet_sequence_control packet_data_length sp_header_of];
      apply (slice_word_u 2); (done || lia).
  - unfold SpacePacketHeader_enc, sp_header_of. cbn [packet_identification packet_sequence_control packet_data_length int_bytes].
    rewrite !be_value_slice_bytes by (done || lia).
    rewrite <- (slice_app 2 2 2), <- (slice_app 0 2 (2 + 2)).
    unfold slice. rewrite drop_0. symmetry. apply take_drop.
Qed.

Lemma tc_header_of_ok w :
  Forall is_byte w → (TC_HEADER_SIZE ≤ length w)%nat →
  TCHeader_wf (tc_header_of w) ∧ w = TCHeader_enc Big (tc_header_of w) ++ drop TC_HEADER_SIZE w.
Proof.
  unfold TC_HEADER_SIZE. intros Hw Hl. split.
  - split_and!; cbn [flags_and_sc_id vc_id_and_length frame_sequence_num tc_header_of];
      [apply (slice_word_u 2)|apply (slice_word_u 2)|apply (slice_word_u 1)]; (done || lia).
  - unfold TCHeader_enc, tc_header_of. cbn [flags_and_sc_id vc_id_and_length frame_sequence_num int_bytes].
    rewrite !be_value_slice_bytes by (done || lia).
    rewrite <- (slice_app 2 2 1), <- (slice_app 0 2 (2 + 1)).
    unfold slice. rewrite drop_0. symmetry. apply take_drop.
Qed.
