(* ===== verification/ApidManager.v ===== *)
(** [Svc::Ccsds::ApidManager], [crates/fprime-svc/src/ccsds/apid_manager.rs]:
    one 14-bit sequence counter per APID in a fixed table of slots, read and
    advanced by the framer, checked and resynchronized by the deframer. *)

From S2P Require Import Prelude Fpp CcsdsTypes Comp.
Local Open Scope Z_scope.

(** * Data and operations *)

Definition SEQ_COUNT_MODULUS : Z := Z.shiftl 1 SP_SEQ_COUNT_WIDTH.
(** [Apid::NUM_CONSTANTS]. *)
Definition MAX_TRACKED_APIDS : nat := length ComPacketType_VALUES.

Record ApidEntry : Set := MkApidEntry { entry_apid : ComPacketType; seq_count : Z }.
Record ApidState : Set := MkApidState { entries : list (option ApidEntry) }.

Inductive ApidOut : Set := UnexpectedSequenceCount (transmitted expected : Z).

(** [entries.iter().flatten().find(..)]. *)
Definition apid_find (apid : ComPacketType) (s : ApidState) : option Z :=
  seq_count ∘ snd <$> list_find (λ e, entry_apid e = apid) (omap (id : option ApidEntry → option ApidEntry) (entries s)).

(** The loop of [insert]: the updated slots, [None] when no slot took it. *)
Fixpoint slots_insert (apid : ComPacketType) (count : Z) (l : list (option ApidEntry))
    : option (list (option ApidEntry)) :=
  match l with
  | [] => None
  | Some e :: l' =>
      if bool_decide (entry_apid e = apid) then Some (Some (MkApidEntry apid count) :: l')
      else cons (Some e) <$> slots_insert apid count l'
  | None :: l' => Some (Some (MkApidEntry apid count) :: l')
  end.

Definition apid_insert (apid : ComPacketType) (count : Z) (s : ApidState) : bool * ApidState :=
  match slots_insert apid count (entries s) with
  | Some l => (true, MkApidState l)
  | None => (false, s)
  end.

Definition ApidManager_new : ApidState := MkApidState (replicate MAX_TRACKED_APIDS None).

Definition calculate_next_seq_count (c : Z) : Z := wrap 16 ((c + 1) mod SEQ_COUNT_MODULUS).

(** [let inserted = state.insert(..); fw_assert!(inserted)]. *)
Definition apid_store (apid : ComPacketType) (count : Z) : CompM ApidState ApidOut unit := λ s,
  let '(inserted, s') := apid_insert apid count s in
  if inserted then Ret (tt, s', []) else Panic.

Definition get_and_increment_locked (apid : ComPacketType) : CompM ApidState ApidOut Z :=
  s ← get_state;
  let c := default 0 (apid_find apid s) in
  _ ← apid_store apid (calculate_next_seq_count c);
  mret c.

Definition get_apid_seq_count_in (apid : ComPacketType) (_unused : Z) : CompM ApidState ApidOut Z :=
  get_and_increment_locked apid.

Definition validate_apid_seq_count_in (apid : ComPacketType) (received : Z) : CompM ApidState ApidOut Z :=
  expected ← get_and_increment_locked apid;
  _ ← (if bool_decide (received = expected) then mret tt
       else _ ← apid_store apid (calculate_next_seq_count received);
            emit (UnexpectedSequenceCount received expected));
  mret received.

(** * Invariant *)

(** The occupied slots come first, one per APID, with 14-bit counts. *)
Definition apid_ok (s : ApidState) : Prop :=
  ∃ es k, entries s = (Some <$> es) ++ replicate k None ∧ NoDup (entry_apid <$> es) ∧
    (length es + k = MAX_TRACKED_APIDS)%nat ∧ Forall (λ e, 0 ≤ seq_count e < 2 ^ 14) es.

(** The next count of an APID; one that was never seen starts at 0. *)
Definition next_count (s : ApidState) (a : ComPacketType) : Z := default 0 (apid_find a s).

Lemma apid_ok_new : apid_ok ApidManager_new.
Proof. exists [], MAX_TRACKED_APIDS. split_and!; try done; constructor. Qed.

Lemma next_count_new a : next_count ApidManager_new a = 0.
Proof. done. Qed.

(** No more APIDs than slots. *)
Lemma apid_all (a : ComPacketType) : a ∈ (snd <$> ComPacketType_VALUES).
Proof. destruct a; cbn; set_solver. Qed.

Lemma apid_pigeonhole (l : list ComPacketType) : NoDup l → (length l ≤ MAX_TRACKED_APIDS)%nat.
Proof.
  intros Hl. change MAX_TRACKED_APIDS with (length (snd <$> ComPacketType_VALUES)).
  apply submseteq_length, NoDup_submseteq; [done|]. intros a _. apply apid_all.
Qed.

(** The entries after an insertion. *)
Fixpoint es_insert (a : ComPacketType) (c : Z) (es : list ApidEntry) : list ApidEntry :=
  match es with
  | [] => [MkApidEntry a c]
  | e :: es' => if bool_decide (entry_apid e = a) then MkApidEntry a c :: es' else e :: es_insert a c es'
  end.

Lemma es_insert_apids a c es :
  entry_apid <$> es_insert a c es = (entry_apid <$> es) ++ (if decide (a ∈ entry_apid <$> es) then [] else [a]).
Proof.
  induction es as [|e es IH]; [by rewrite decide_False by set_solver|]. cbn.
  case_bool_decide as He; cbn.
  - subst. rewrite decide_True by set_solver. by rewrite app_nil_r.
  - rewrite IH. f_equal. f_equal. case_decide; case_decide; set_solver.
Qed.

Lemma slots_insert_ok a c es k :
  (a ∉ entry_apid <$> es → k ≠ 0%nat) →
  ∃ k', slots_insert a c ((Some <$> es) ++ replicate k None) = Some ((Some <$> es_insert a c es) ++ replicate k' None) ∧
        (length (es_insert a c es) + k' = length es + k)%nat.
Proof.
  intros Hk. induction es as [|e es IH]; cbn.
  - destruct k as [|k]; [destruct Hk; set_solver|]. exists k. split; [done|lia].
  - case_bool_decide as He.
    + exists k. split; [done|cbn; lia].
    + destruct IH as (k' & E & Hl); [set_solver|]. exists k'. rewrite E. split; [done|cbn; lia].
Qed.

Lemma entries_flat (es : list ApidEntry) k :
  omap (id : option ApidEntry → option ApidEntry) ((Some <$> es) ++ replicate k None) = es.
Proof. rewrite omap_app. induction es as [|e es IH]; cbn; [by induction k|]. by rewrite IH. Qed.

Lemma find_insert a c b es :
  NoDup (entry_apid <$> es) →
  seq_count ∘ snd <$> list_find (λ e, entry_apid e = b) (es_insert a c es) =
    if decide (b = a) then Some c else seq_count ∘ snd <$> list_find (λ e, entry_apid e = b) es.
Proof.
  induction es as [|e es IH]; cbn; intros Hn.
  - destruct (decide (a = b)) as [->|]; [by rewrite decide_True|by rewrite decide_False].
  - apply NoDup_cons in Hn as [Hni Hn]. specialize (IH Hn).
    case_bool_decide as He; cbn.
    + destruct (decide (a = b)) as [->|Hab]; [by rewrite decide_True|].
      rewrite (decide_False (P := b = a)) by done. by rewrite decide_False by congruence.
    + destruct (decide (entry_apid e = b)) as [<-|Heb]; [by rewrite decide_False by congruence|].
      destruct (list_find _ (es_insert a c es)) as [[i x]|], (list_find _ es) as [[j y]|]; cbn in *; done.
Qed.

Lemma es_insert_counts a c es (P : Z → Prop) :
  P c → Forall (λ e, P (seq_count e)) es → Forall (λ e, P (seq_count e)) (es_insert a c es).
Proof.
  intros Hc. induction 1 as [|e es He Hes IH]; cbn; [by repeat constructor|].
  case_bool_decide; by constructor.
Qed.

Lemma apid_store_ok a c s :
  apid_ok s → 0 ≤ c < 2 ^ 14 →
  ∃ s', apid_store a c s = Ret (tt, s', []) ∧ apid_ok s' ∧
        ∀ b, next_count s' b = if decide (b = a) then c else next_count s b.
Proof.
  intros (es & k & E & Hn & Hl & Hc) Hr. unfold apid_store, apid_insert. rewrite E.
  assert (NoDup (entry_apid <$> es_insert a c es)) as Hn'.
  { rewrite es_insert_apids. apply NoDup_app. split_and!; [done|..].
    - intros x Hx. case_decide; set_solver.
    - case_decide; [constructor|apply NoDup_singleton]. }
  destruct (slots_insert_ok a c es k) as (k' & -> & Hl').
  { intros Hna ->. pose proof (apid_pigeonhole _ Hn') as Hp. rewrite es_insert_apids, decide_False in Hp by done.
    rewrite length_app, length_fmap in Hp. cbn [length] in Hp. lia. }
  eexists. split; [done|]. split.
  - exists (es_insert a c es), k'. split_and!; [done|done|lia|].
    by apply (es_insert_counts a c es (λ z, 0 ≤ z < 2 ^ 14)).
  - intros b. unfold next_count, apid_find. cbn [entries]. rewrite E, !entries_flat, find_insert by done.
    by case_decide.
Qed.

Lemma next_count_range s a : apid_ok s → 0 ≤ next_count s a < 2 ^ 14.
Proof.
  intros (es & k & E & _ & _ & Hc). unfold next_count, apid_find. rewrite E, entries_flat.
  destruct (list_find _ es) as [[i e]|] eqn:Ef; cbn; [|lia].
  apply list_find_Some in Ef as (Hi & _). by rewrite Forall_lookup in Hc; apply (Hc i).
Qed.

Lemma next_seq_count_eq c : calculate_next_seq_count c = (c + 1) mod 2 ^ 14.
Proof.
  unfold calculate_next_seq_count. change SEQ_COUNT_MODULUS with (2 ^ 14).
  pose proof (Z.mod_pos_bound (c + 1) (2 ^ 14) ltac:(lia)). apply wrap_small. unfold is_u. lia.
Qed.

(** What a client sees of one call: the count handed out, and the counter
    of that APID moved on. *)
Lemma get_apid_ok a u s :
  apid_ok s →
  ∃ s', get_apid_seq_count_in a u s = Ret (next_count s a, s', []) ∧ apid_ok s' ∧
        ∀ b, next_count s' b = if decide (b = a) then (next_count s a + 1) mod 2 ^ 14 else next_count s b.
Proof.
  intros Hs. unfold get_apid_seq_count_in, get_and_increment_locked.
  erewrite comp_bind_quiet; [|reflexivity]. fold (next_count s a). rewrite next_seq_count_eq.
  destruct (apid_store_ok a ((next_count s a + 1) mod 2 ^ 14) s Hs) as (s' & E & Hs' & Hn).
  { apply Z.mod_pos_bound. lia. }
  exists s'. erewrite comp_bind_quiet; [|exact E]. done.
Qed.

(** A received count: reported exactly when it is not the expected one, and
    in both cases the counter continues after what was received. *)
Lemma validate_apid_ok a c s :
  apid_ok s →
  ∃ s', validate_apid_seq_count_in a c s =
          Ret (c, s', if decide (c = next_count s a) then [] else [UnexpectedSequenceCount c (next_count s a)]) ∧
        apid_ok s' ∧
        ∀ b, next_count s' b = if decide (b = a) then (c + 1) mod 2 ^ 14 else next_count s b.
Proof.
  intros Hs. destruct (get_apid_ok a 0 s Hs) as (s1 & E1 & Hs1 & Hn1).
  unfold validate_apid_seq_count_in. unfold get_apid_seq_count_in in E1.
  erewrite comp_bind_quiet; [|exact E1]. case_bool_decide as Hc.
  - exists s1. rewrite decide_True by done. split_and!; [done|done|]. by rewrite Hc.
  - rewrite next_seq_count_eq.
    destruct (apid_store_ok a ((c + 1) mod 2 ^ 14) s1 Hs1) as (s2 & E2 & Hs2 & Hn2).
    { apply Z.mod_pos_bound. lia. }
    exists s2. rewrite decide_False by done. erewrite comp_bind_ret.
    2: { erewrite comp_bind_quiet; [|exact E2]. reflexivity. }
    split_and!; [done|done|]. intros b. rewrite Hn2. case_decide; [done|]. rewrite Hn1. by rewrite decide_False.
Qed.

(** * The table is a counter per APID *)

Inductive ApidCall : Set :=
| GetCount (a : ComPacketType)
| ValidateCount (a : ComPacketType) (received : Z).

Definition apid_call (c : ApidCall) : CompM ApidState ApidOut Z :=
  match c with
  | GetCount a => get_apid_seq_count_in a 0
  | ValidateCount a r => validate_apid_seq_count_in a r
  end.

Fixpoint apid_run (cs : list ApidCall) : CompM ApidState ApidOut (list Z) :=
  match cs with
  | [] => mret []
  | c :: cs' => r ← apid_call c; rs ← apid_run cs'; mret (r :: rs)
  end.

(** The abstract counters: a total function. *)
Definition set_count (f : ComPacketType → Z) (a : ComPacketType) (c : Z) : ComPacketType → Z :=
  λ b, if decide (b = a) then c else f b.

Fixpoint counters_run (cs : list ApidCall) (f : ComPacketType → Z) : list Z * list ApidOut :=
  match cs with
  | [] => ([], [])
  | GetCount a :: cs' =>
      let '(rs, os) := counters_run cs' (set_count f a ((f a + 1) mod 2 ^ 14)) in (f a :: rs, os)
  | ValidateCount a r :: cs' =>
      let '(rs, os) := counters_run cs' (set_count f a ((r + 1) mod 2 ^ 14)) in
      (r :: rs, (if decide (r = f a) then [] else [UnexpectedSequenceCount r (f a)]) ++ os)
  end.

Lemma counters_run_get a cs f :
  counters_run (GetCount a :: cs) f =
    (f a :: (counters_run cs (set_count f a ((f a + 1) mod 2 ^ 14))).1,
     (counters_run cs (set_count f a ((f a + 1) mod 2 ^ 14))).2).
Proof. cbn [counters_run]. by destruct (counters_run cs _). Qed.

Lemma counters_run_ext cs f g : (∀ a, f a = g a) → counters_run cs f = counters_run cs g.
Proof.
  revert f g. induction cs as [|[a|a r] cs IH]; intros f g Hfg; [done|..]; cbn; rewrite (Hfg a).
  - rewrite (IH (set_count f a _) (set_count g a ((g a + 1) mod 2 ^ 14))); [done|].
    intros b. unfold set_count. by case_decide.
  - rewrite (IH (set_count f a _) (set_count g a ((r + 1) mod 2 ^ 14))); [done|].
    intros b. unfold set_count. by case_decide.
Qed.

Lemma apid_run_refines cs s :
  apid_ok s →
  ∃ s', apid_run cs s = Ret ((counters_run cs (next_count s)).1, s', (counters_run cs (next_count s)).2) ∧ apid_ok s'.
Proof.
  revert s. induction cs as [|[a|a r] cs IH]; intros s Hs; [by exists s|..]; cbn [apid_run apid_call counters_run].
  - destruct (get_apid_ok a 0 s Hs) as (s1 & E1 & Hs1 & Hn1). destruct (IH s1 Hs1) as (s2 & E2 & Hs2).
    exists s2. split; [|done]. erewrite comp_bind_quiet; [|exact E1]. rewrite comp_map, E2.
    rewrite (counters_run_ext cs (next_count s1) (set_count (next_count s) a ((next_count s a + 1) mod 2 ^ 14))).
    + by destruct (counters_run cs (set_count _ _ _)).
    + intros b. rewrite Hn1. done.
  - destruct (validate_apid_ok a r s Hs) as (s1 & E1 & Hs1 & Hn1). destruct (IH s1 Hs1) as (s2 & E2 & Hs2).
    exists s2. split; [|done]. rewrite (comp_bind_ret _ _ _ _ _ _ E1), comp_map, E2.
    rewrite (counters_run_ext cs (next_count s1) (set_count (next_count s) a ((r + 1) mod 2 ^ 14))).
    + by destruct (counters_run cs (set_count _ _ _)).
    + intros b. rewrite Hn1. done.
Qed.

(** The APID table is one independent 14-bit counter per APID: any
    interleaving of requests and validations, from the framer's and the
    deframer's thread, runs without a failed assertion (the table never
    fills), every request gets the count after the previous one of its own
    APID modulo [2 ^ 14], starting at 0, and a received count is reported as
    unexpected exactly when it differs from the counter, which then continues
    after what was received. *)
Theorem apid_manager_refines_counters (cs : list ApidCall) :
  ∃ s, apid_run cs ApidManager_new =
    Ret ((counters_run cs (λ _, 0)).1, s, (counters_run cs (λ _, 0)).2) ∧ apid_ok s.
Proof. destruct (apid_run_refines cs ApidManager_new apid_ok_new) as (s & E & Hs). by exists s. Qed.
