(* ===== verification/SpacePacket.v ===== *)
(** The CCSDS space packet protocol: [SpacePacketFramer] and
    [SpacePacketDeframer] over the APID manager,
    [crates/fprime-svc/src/ccsds/space_packet_framer.rs] and
    [space_packet_deframer.rs].

    The port to the APID manager is a parameter of both components (another
    component answers it); what it emits while answering appears among the
    outputs. *)

From S2P Require Import Prelude Serial SerialFacts Codec Fpp Crc16 Buffer Comp Framing CcsdsTypes ApidManager.

(** * The framer *)

Inductive SpFrOut (O : Type) : Type :=
| SpFrNoBufferAvailable
| SpFrBufferDeallocate (b : Buffer)
| SpFrApid (o : O)
| SpFrDataOut (b : Buffer) (ctx : FrameContext)
| SpFrDataReturnOut (b : Buffer) (ctx : FrameContext)
| SpFrComStatusOut (c : Success).
Arguments SpFrNoBufferAvailable {O}.
Arguments SpFrBufferDeallocate {O} _.
Arguments SpFrApid {O} _.
Arguments SpFrDataOut {O} _ _.
Arguments SpFrDataReturnOut {O} _ _.
Arguments SpFrComStatusOut {O} _.

Record SpacePacketFramer (A M : Type) : Type := MkSpFramer {
  spf_throttle : EventThrottle;
  spf_com_status_connected : bool;
  spf_allocator : A;
  spf_manager : M;
}.
Arguments MkSpFramer {A M} _ _ _ _.
Arguments spf_throttle {A M} _.
Arguments spf_com_status_connected {A M} _.
Arguments spf_allocator {A M} _.
Arguments spf_manager {A M} _.

Section sp_framer.
Context `{BuildProfile} `{Allocator A} {M O : Type}.
Context (get_apid_seq_count : ComPacketType → Z → CompM M O Z).
Abbreviation F := (CompM (SpacePacketFramer A M) (SpFrOut O)).

Definition SpacePacketFramer_new (connected : bool) (a : A) (m : M) : SpacePacketFramer A M :=
  MkSpFramer (EventThrottle_new EVENTID_NO_BUFFER_AVAILABLE_THROTTLE) connected a m.

Definition spf_clear_throttle (f : SpacePacketFramer A M) : SpacePacketFramer A M :=
  MkSpFramer (throttle_clear (spf_throttle f)) (spf_com_status_connected f) (spf_allocator f) (spf_manager f).

Definition spf_allocate (n : nat) : F Buffer := λ f,
  let '(b, a) := alloc_get n (spf_allocator f) in
  Ret (b, MkSpFramer (spf_throttle f) (spf_com_status_connected f) a (spf_manager f), []).

Definition spf_ok_to_emit : F bool := λ f,
  let '(ok, t) := ok_to_emit (spf_throttle f) in
  Ret (ok, MkSpFramer t (spf_com_status_connected f) (spf_allocator f) (spf_manager f), []).

(** [get_apid_seq_count.get().invoke(apid, 0)]. *)
Definition spf_get_count (a : ComPacketType) (c : Z) : F Z := λ f,
  match get_apid_seq_count a c (spf_manager f) with
  | Panic => Panic
  | Ret (v, m, o) =>
      Ret (v, MkSpFramer (spf_throttle f) (spf_com_status_connected f) (spf_allocator f) m, SpFrApid <$> o)
  end.

(** [data_in_handler]. *)
Definition spf_data_in (data : Buffer) (ctx : FrameContext) : F unit :=
  let frame_size := SP_HEADER_SIZE + size data in
  _ ← assert (bool_decide (Z.of_nat (size data) ≤ 0xFFFFFFFF - Z.of_nat SP_HEADER_SIZE)%Z);
  _ ← assert (bool_decide (0 < size data));
  frame_buffer ← spf_allocate frame_size;
  if negb (is_valid frame_buffer) || bool_decide (size frame_buffer < frame_size) then
    ok ← spf_ok_to_emit;
    _ ← when ok (emit SpFrNoBufferAvailable);
    _ ← when (is_valid frame_buffer) (emit (SpFrBufferDeallocate frame_buffer));
    emit (SpFrDataReturnOut data ctx)
  else
    let apid := apid ctx in
    _ ← assert (Z.shiftr (as_repr apid) SP_APID_WIDTH =? 0)%Z;
    let packet_identification := build_packet_identification 0 0 (has_sec_hdr ctx) (as_repr apid) in
    sequence_count ← spf_get_count apid 0;
    let packet_sequence_control := build_packet_sequence_control (sequence_flags ctx) sequence_count in
    _ ← assert (bool_decide (Z.of_nat (size data) ≤ 0xFFFF)%Z);
    packet_data_length ← lift (length_token (Z.of_nat (size data)));
    let header := MkSpHeader packet_identification packet_sequence_control packet_data_length in
    payload ← lift (buffer_data data);
    fb1 ← lift (on_window
             (_ ← SpacePacketHeader_serialize_to header Big;
              serialize_bytes payload OmitLength Big) frame_buffer);
    fb2 ← lift (set_size frame_size fb1);
    _ ← emit (SpFrDataOut fb2 ctx);
    emit (SpFrDataReturnOut data ctx).

(** [data_return_in_handler] and the [comStatusIn] handler. *)
Definition spf_data_return_in (b : Buffer) : F unit := emit (SpFrBufferDeallocate b).
Definition spf_com_status_in (c : Success) : F unit :=
  f ← get_state; when (spf_com_status_connected f) (emit (SpFrComStatusOut c)).
End sp_framer.

(** * The deframer *)

Inductive SpDfOut (O : Type) : Type :=
| SpDfInvalidPacket
| SpDfInvalidLength (transmitted actual : Z)
| SpDfErrorNotify (error : FrameError)
| SpDfApid (o : O)
| SpDfDataOut (b : Buffer) (ctx : FrameContext)
| SpDfDataReturnOut (b : Buffer) (ctx : FrameContext).
Arguments SpDfInvalidPacket {O}.
Arguments SpDfInvalidLength {O} _ _.
Arguments SpDfErrorNotify {O} _.
Arguments SpDfApid {O} _.
Arguments SpDfDataOut {O} _ _.
Arguments SpDfDataReturnOut {O} _ _.

Record SpacePacketDeframer (M : Type) : Type := MkSpDeframer {
  spd_error_notify_connected : bool;
  spd_manager : M;
}.
Arguments MkSpDeframer {M} _ _.
Arguments spd_error_notify_connected {M} _.
Arguments spd_manager {M} _.

(** Read through [get_deserializer()]; [None] when the status is not [Ok]. *)
Definition try_window {A} (f : SerM A) (b : Buffer) : outcome (option A) :=
  ser ← get_deserializer b;
  match f ser with (SOk a, _) => Ret (Some a) | (SErr _, _) => Ret None | (SPanic, _) => Panic end.

Definition set_packet_fields (a : ComPacketType) (sh : bool) (flags count : Z) (c : FrameContext) : FrameContext :=
  MkFrameContext (com_queue_index c) a sh flags count
    (vc_id c) (pvn c) (send_now c) (sa_index c) (first_header_pointer c).

Section sp_deframer.
Context {M O : Type}.
Context (validate_apid_seq_count : ComPacketType → Z → CompM M O Z).
Abbreviation D := (CompM (SpacePacketDeframer M) (SpDfOut O)).

Definition spd_error_notify (e : FrameError) : D unit :=
  d ← get_state; when (spd_error_notify_connected d) (emit (SpDfErrorNotify e)).

Definition reject_invalid_packet (data : Buffer) (ctx : FrameContext) : D unit :=
  _ ← emit SpDfInvalidPacket;
  _ ← spd_error_notify SpInvalidPacket;
  emit (SpDfDataReturnOut data ctx).

Definition spd_validate (a : ComPacketType) (c : Z) : D Z := λ d,
  match validate_apid_seq_count a c (spd_manager d) with
  | Panic => Panic
  | Ret (v, m, o) => Ret (v, MkSpDeframer (spd_error_notify_connected d) m, SpDfApid <$> o)
  end.

(** [data_in_handler]. *)
Definition spd_data_in (data : Buffer) (ctx : FrameContext) : D unit :=
  if bool_decide (size data ≤ SP_HEADER_SIZE) then reject_invalid_packet data ctx
  else
    h ← lift (try_window (SpacePacketHeader_deserialize_from Big) data);
    match h with
    | None => reject_invalid_packet data ctx
    | Some header =>
        if negb (sp_pvn header =? as_repr SpacePacketProtocol)%Z then reject_invalid_packet data ctx
        else
          let pkt_length := data_field_length header in
          let max_data_available := size data - SP_HEADER_SIZE in
          if bool_decide (Z.of_nat max_data_available < pkt_length)%Z then
            _ ← emit (SpDfInvalidLength pkt_length (Z.of_nat max_data_available));
            _ ← spd_error_notify SpInvalidLength;
            emit (SpDfDataReturnOut data ctx)
          else
            let apid := default ApidInvalidUninitialized (try_from (apid_value header)) in
            let received := sp_sequence_count header in
            _ ← spd_validate apid received;
            let context_copy :=
              set_packet_fields apid (sp_has_sec_hdr header) (sp_sequence_flags header) received ctx in
            d1 ← lift (advance (Z.of_nat SP_HEADER_SIZE) data);
            d2 ← lift (set_size (Z.to_nat pkt_length) d1);
            emit (SpDfDataOut d2 context_copy)
    end.

(** [data_return_in_handler]. *)
Definition spd_data_return_in (data : Buffer) (ctx : FrameContext) : D unit :=
  emit (SpDfDataReturnOut data ctx).
End sp_deframer.

(** * The wire image *)

Definition sp_header_for (ctx : FrameContext) (count : Z) (len : nat) : SpacePacketHeader :=
  MkSpHeader (build_packet_identification 0 0 (has_sec_hdr ctx) (as_repr (apid ctx)))
             (build_packet_sequence_control (sequence_flags ctx) count) (Z.of_nat len - 1).
Definition packet_of (ctx : FrameContext) (count : Z) (p : list Z) : list Z :=
  SpacePacketHeader_enc Big (sp_header_for ctx count (length p)) ++ p.

Lemma length_sp_enc h : length (SpacePacketHeader_enc Big h) = SP_HEADER_SIZE.
Proof. unfold SpacePacketHeader_enc. by rewrite !length_app, !length_int_bytes. Qed.

Lemma length_packet_of ctx c p : length (packet_of ctx c p) = SP_HEADER_SIZE + length p.
Proof. unfold packet_of. by rewrite length_app, length_sp_enc. Qed.

Lemma packet_of_bytes ctx c p : Forall is_byte p → Forall is_byte (packet_of ctx c p).
Proof. intros. apply Forall_app. split; [apply (c_enc_bytes SpacePacketHeader_codec)|done]. Qed.

(** ** Framing *)

Lemma write_packet_ok w h p :
  Forall is_byte w → Forall is_byte p → SP_HEADER_SIZE + length p ≤ length w →
  (_ ← SpacePacketHeader_serialize_to h Big; serialize_bytes p OmitLength Big) (ext_buf_new w)
    = (SOk tt, appended (ext_buf_new w) (SpacePacketHeader_enc Big h ++ p)).
Proof.
  intros Hw Hp Hl.
  assert (writes (_ ← SpacePacketHeader_serialize_to h Big; serialize_bytes p OmitLength Big)
    (SpacePacketHeader_enc Big h ++ p)) as Hwr.
  { ser_step_at SpacePacketHeader_codec Big h. intros b _ Hc. by apply write_raw_room. }
  apply Hwr; [by apply wf_ext_new|]. rewrite length_app, length_sp_enc. exact Hl.
Qed.

(** The window cut down to what was written at its start. *)
Lemma trim_window b x n :
  buffer_ok b → length x = n → n ≤ size b → window b = splice 0 x (window b) →
  ∃ b', set_size n b = Ret b' ∧ buffer_ok b' ∧ window b' = x ∧ b' = set_window (offset b) n b.
Proof.
  intros Hb Hx Hn Hw. pose proof (length_window b Hb) as Hl. destruct Hb as [Ho Hby].
  exists (set_window (offset b) n b). unfold set_size, Buffer_capacity. rewrite bool_decide_eq_true_2 by lia.
  split; [done|]. split; [split; cbn; [lia|done]|]. split; [|done].
  replace (window (set_window (offset b) n b)) with (take n (window b)).
  - rewrite Hw. unfold splice. rewrite take_0. cbn [app]. by apply take_app_length'.
  - unfold window, slice. cbn [offset size storage set_window]. rewrite take_take. f_equal. lia.
Qed.

Lemma splice_idem {X} off (x l : list X) :
  off + length x ≤ length l → splice off x (splice off x l) = splice off x l.
Proof.
  intros Hl. apply list_eq. intros i. rewrite !lookup_splice by (rewrite ?length_splice; lia).
  by case_decide.
Qed.

Section sp_framer_facts.
Context `{BuildProfile} `{AllocatorLaws A} {M O : Type}.
Context (get_count : ComPacketType → Z → CompM M O Z).

(** The packet is built in the allocated buffer and handed to [dataOut]; the
    payload buffer goes back to its sender. *)
Lemma spf_data_in_ok (f : SpacePacketFramer A M) data ctx c m o :
  buffer_ok data → 0 < size data → (Z.of_nat (size data) ≤ 0xFFFF)%Z → apid ctx ≠ ApidInvalidUninitialized →
  is_valid (alloc_get (SP_HEADER_SIZE + size data) (spf_allocator f)).1 = true →
  get_count (apid ctx) 0%Z (spf_manager f) = Ret (c, m, o) →
  ∃ f' fb, spf_data_in get_count data ctx f
             = Ret (tt, f', (SpFrApid <$> o) ++ [SpFrDataOut fb ctx; SpFrDataReturnOut data ctx]) ∧
    spf_manager f' = m ∧ buffer_ok fb ∧ window fb = packet_of ctx c (window data).
Proof.
  intros Hd Hpos Hmax Hapid. set (fs := SP_HEADER_SIZE + size data).
  set (fb := (alloc_get fs (spf_allocator f)).1). intros Hv Hget.
  pose proof (length_window data Hd) as Hlp. pose proof (alloc_ok fs (spf_allocator f)) as Hfb.
  pose proof (alloc_size fs (spf_allocator f) Hv) as Hsz. fold fb in Hfb, Hsz.
  assert (storage fb ≠ []) as Hst.
  { unfold is_valid in Hv. apply andb_true_iff in Hv as [Hv _]. intros E. fold fb in Hv. by rewrite E in Hv. }
  pose proof (length_window fb Hfb) as Hlw. pose proof (window_bytes fb Hfb) as Hbw.
  unfold spf_data_in. fold fs.
  rewrite !comp_assert_ok by (apply bool_decide_eq_true_2; unfold SP_HEADER_SIZE; lia).
  set (f1 := MkSpFramer (spf_throttle f) (spf_com_status_connected f) (alloc_get fs (spf_allocator f)).2 (spf_manager f)).
  assert (spf_allocate fs f = Ret (fb, f1, [] : list (SpFrOut O))) as Ea.
  { unfold spf_allocate, fb, f1. by destruct (alloc_get fs (spf_allocator f)). }
  rewrite (comp_bind_quiet _ _ _ _ _ Ea). rewrite Hv. cbn [negb orb]. rewrite bool_decide_eq_false_2 by lia.
  cbv zeta. rewrite comp_assert_ok by (by destruct (apid ctx)).
  set (f2 := MkSpFramer (spf_throttle f) (spf_com_status_connected f) (alloc_get fs (spf_allocator f)).2 m).
  assert (spf_get_count get_count (apid ctx) 0 f1 = Ret (c, f2, SpFrApid <$> o)) as Eg.
  { unfold spf_get_count, f1, f2. cbn [spf_manager]. by rewrite Hget. }
  rewrite (comp_bind_ret _ _ _ _ _ _ Eg). rewrite comp_assert_ok by (by apply bool_decide_eq_true_2).
  assert (length_token (Z.of_nat (size data)) = Ret (Z.of_nat (size data) - 1)%Z) as Et.
  { unfold length_token, sub_w. apply overflowing_in. unfold is_u. lia. }
  rewrite (comp_lift_ok _ _ _ _ Et), (comp_lift_ok _ _ _ _ (buffer_data_ok data Hd)).
  set (hd := sp_header_for ctx c (length (window data))).
  replace (MkSpHeader _ _ (Z.of_nat (size data) - 1)) with hd by (unfold hd, sp_header_for; by rewrite Hlp).
  pose proof (write_packet_ok (window fb) hd (window data) Hbw (window_bytes _ Hd) ltac:(lia)) as Ew.
  change (SpacePacketHeader_enc Big hd ++ window data) with (packet_of ctx c (window data)) in Ew.
  pose proof (length_packet_of ctx c (window data)) as Hlk. set (pk := packet_of ctx c (window data)) in *.
  destruct (on_window_ok _ fb _ Hfb Hst ltac:(lia) Ew) as (fb1 & E1 & Hok1 & Hw1 & Hs1 & _).
  { cbn [Serial.data appended ext_buf_new ser_loc]. rewrite length_splice; lia. }
  { cbn [Serial.data appended ext_buf_new ser_loc]. apply Forall_splice; [done|].
    by apply packet_of_bytes, window_bytes. }
  cbn [Serial.data appended ext_buf_new ser_loc] in Hw1.
  rewrite (comp_lift_ok _ _ _ _ E1).
  destruct (trim_window fb1 pk fs Hok1 ltac:(lia) ltac:(lia)) as (fb2 & E2 & Hok2 & Hw2 & _).
  { rewrite Hw1. symmetry. apply splice_idem. lia. }
  rewrite (comp_lift_ok _ _ _ _ E2), comp_emit. exists f2, fb2. done.
Qed.
End sp_framer_facts.

(** ** The header of a packet *)

Lemma sp_header_of_enc h rest :
  SpacePacketHeader_wf h → Forall is_byte rest → sp_header_of (SpacePacketHeader_enc Big h ++ rest) = h.
Proof.
  intros Hh Hr. set (w := SpacePacketHeader_enc Big h ++ rest).
  assert (Forall is_byte w) as Hw.
  { apply Forall_app. split; [apply (c_enc_bytes SpacePacketHeader_codec)|done]. }
  destruct (sp_header_of_ok w Hw) as [Hwf E].
  { unfold w. rewrite length_app, length_sp_enc. lia. }
  symmetry. by apply (codec_prefix_free SpacePacketHeader_codec h (sp_header_of w) Big rest (drop SP_HEADER_SIZE w)).
Qed.

Lemma sp_header_for_ok ctx c n :
  (0 ≤ c < 2 ^ 14)%Z → 0 < n → (Z.of_nat n ≤ 0xFFFF)%Z → apid ctx ≠ ApidInvalidUninitialized →
  let h := sp_header_for ctx c n in
  SpacePacketHeader_wf h ∧ sp_pvn h = 0%Z ∧ sp_has_sec_hdr h = has_sec_hdr ctx ∧
  apid_value h = as_repr (apid ctx) ∧ sp_sequence_flags h = (sequence_flags ctx mod 4)%Z ∧
  sp_sequence_count h = c ∧ data_field_length h = Z.of_nat n.
Proof.
  intros Hc Hn Hmax Ha h.
  pose proof (packet_identification_sum 0 0 (has_sec_hdr ctx) (as_repr (apid ctx))) as Hp.
  pose proof (packet_sequence_control_sum (sequence_flags ctx) c) as Hs.
  assert (0 ≤ as_repr (apid ctx) < 2 ^ 11)%Z as Hr by (destruct (apid ctx); cbn; (done || lia)).
  rewrite (Z.mod_small (as_repr _)), !Zmod_0_l, !Z.mul_0_l, !Z.add_0_l in Hp by lia. rewrite (Z.mod_small c) in Hs by lia.
  pose proof (Z.mod_pos_bound (sequence_flags ctx) 4 ltac:(lia)) as Hf.
  assert (SpacePacketHeader_wf h) as Hwf.
  { split_and!; cbn [h sp_header_for packet_identification packet_sequence_control packet_data_length]; unfold is_u.
    - rewrite Hp. destruct (has_sec_hdr ctx); lia.
    - rewrite Hs. lia.
    - lia. }
  destruct Hwf as (H1 & H2 & H3). destruct (sp_accessors h H1 H2) as (-> & _ & -> & -> & -> & ->).
  split; [done|]. cbn [h sp_header_for packet_identification packet_sequence_control].
  rewrite Hp, Hs. split_and!.
  - destruct (has_sec_hdr ctx); Z.to_euclidean_division_equations; lia.
  - replace (_ / 2 ^ 11)%Z with (if has_sec_hdr ctx then 1 else 0)%Z; [by destruct (has_sec_hdr ctx)|].
    destruct (has_sec_hdr ctx); Z.to_euclidean_division_equations; lia.
  - destruct (has_sec_hdr ctx); Z.to_euclidean_division_equations; lia.
  - Z.to_euclidean_division_equations; lia.
  - Z.to_euclidean_division_equations; lia.
  - unfold data_field_length, h, sp_header_for. cbn [packet_data_length]. lia.
Qed.

(** ** Deframing *)

Definition notify_outs {O} (connected : bool) (e : FrameError) : list (SpDfOut O) :=
  if connected then [SpDfErrorNotify e] else [].

(** The packet's data field as a view of the same storage. *)
Definition data_field_buffer (n : nat) (b : Buffer) : Buffer := set_window (offset b + SP_HEADER_SIZE) n b.

Lemma data_field_window n b :
  n + SP_HEADER_SIZE ≤ size b → window (data_field_buffer n b) = slice SP_HEADER_SIZE n (window b).
Proof.
  intros Hn. unfold data_field_buffer, window, slice. cbn [offset size storage set_window].
  rewrite skipn_firstn_comm, take_take, drop_drop. f_equal. lia.
Qed.

Section sp_deframer_facts.
Context {M O : Type} (validate : ComPacketType → Z → CompM M O Z).

Lemma spd_error_notify_ok e (d : SpacePacketDeframer M) :
  spd_error_notify e d = Ret (tt, d, notify_outs (O := O) (spd_error_notify_connected d) e).
Proof. unfold spd_error_notify. erewrite comp_bind_quiet; [|reflexivity]. by destruct (spd_error_notify_connected d). Qed.

Lemma reject_invalid_packet_ok data ctx (d : SpacePacketDeframer M) :
  reject_invalid_packet data ctx d =
    Ret (tt, d, SpDfInvalidPacket :: notify_outs (O := O) (spd_error_notify_connected d) SpInvalidPacket
                  ++ [SpDfDataReturnOut data ctx]).
Proof. unfold reject_invalid_packet. rewrite comp_emit, (comp_bind_ret _ _ _ _ _ _ (spd_error_notify_ok _ d)). done. Qed.

Lemma try_window_header data :
  buffer_ok data → SP_HEADER_SIZE < size data →
  try_window (SpacePacketHeader_deserialize_from Big) data = Ret (Some (sp_header_of (window data))).
Proof.
  intros Hd Hs. pose proof (length_window data Hd) as Hl.
  destruct (sp_header_of_ok (window data) (window_bytes _ Hd)) as [Hwf E]; [lia|].
  destruct (get_deserializer_ok data Hd) as (ser & Eg & Hw & Hz & Has & _); [lia|].
  unfold try_window. rewrite Eg, outcome_bind_ret.
  pose proof (c_deser_ok SpacePacketHeader_codec _ Big Hwf ser (drop SP_HEADER_SIZE (window data)) Hw) as Hr.
  cbn [c_deser c_enc SpacePacketHeader_codec] in Hr. rewrite Hr; [done|].
  unfold remaining_slice. by rewrite Has, Hz, drop_0.
Qed.

(** The handler on every branch. *)
Lemma spd_data_in_reject data ctx (d : SpacePacketDeframer M) :
  buffer_ok data → size data ≤ SP_HEADER_SIZE ∨ sp_pvn (sp_header_of (window data)) ≠ 0%Z →
  spd_data_in validate data ctx d =
    Ret (tt, d, SpDfInvalidPacket :: notify_outs (spd_error_notify_connected d) SpInvalidPacket
                  ++ [SpDfDataReturnOut data ctx]).
Proof.
  intros Hd Hbad. unfold spd_data_in. case_bool_decide as Hs; [apply reject_invalid_packet_ok|].
  rewrite (comp_lift_ok _ _ _ _ (try_window_header data Hd ltac:(lia))).
  destruct Hbad as [?|Hp]; [lia|]. apply Z.eqb_neq in Hp.
  change (as_repr SpacePacketProtocol) with 0%Z. rewrite Hp. apply reject_invalid_packet_ok.
Qed.

Lemma spd_data_in_too_long data ctx (d : SpacePacketDeframer M) :
  let h := sp_header_of (window data) in let av := Z.of_nat (size data - SP_HEADER_SIZE) in
  buffer_ok data → SP_HEADER_SIZE < size data → sp_pvn h = 0%Z → (av < data_field_length h)%Z →
  spd_data_in validate data ctx d =
    Ret (tt, d, SpDfInvalidLength (data_field_length h) av ::
                  notify_outs (spd_error_notify_connected d) SpInvalidLength ++ [SpDfDataReturnOut data ctx]).
Proof.
  intros h av Hd Hs Hp Hl. unfold spd_data_in. rewrite bool_decide_eq_false_2 by lia.
  rewrite (comp_lift_ok _ _ _ _ (try_window_header data Hd Hs)). fold h.
  change (as_repr SpacePacketProtocol) with 0%Z. rewrite Hp. cbn [Z.eqb negb]. cbv zeta. fold av.
  rewrite bool_decide_eq_true_2 by done. rewrite comp_emit, (comp_bind_ret _ _ _ _ _ _ (spd_error_notify_ok _ d)).
  done.
Qed.

Lemma spd_data_in_accept data ctx (d : SpacePacketDeframer M) v m o :
  let h := sp_header_of (window data) in
  let a := default ApidInvalidUninitialized (try_from (apid_value h)) in
  buffer_ok data → SP_HEADER_SIZE < size data → sp_pvn h = 0%Z →
  (0 ≤ data_field_length h ≤ Z.of_nat (size data - SP_HEADER_SIZE))%Z →
  validate a (sp_sequence_count h) (spd_manager d) = Ret (v, m, o) →
  spd_data_in validate data ctx d =
    Ret (tt, MkSpDeframer (spd_error_notify_connected d) m,
         (SpDfApid <$> o) ++
         [SpDfDataOut (data_field_buffer (Z.to_nat (data_field_length h)) data)
            (set_packet_fields a (sp_has_sec_hdr h) (sp_sequence_flags h) (sp_sequence_count h) ctx)]).
Proof.
  intros h a Hd Hs Hp Hl Hval. unfold spd_data_in. rewrite bool_decide_eq_false_2 by lia.
  rewrite (comp_lift_ok _ _ _ _ (try_window_header data Hd Hs)). fold h.
  change (as_repr SpacePacketProtocol) with 0%Z. rewrite Hp. cbn [Z.eqb negb]. cbv zeta.
  rewrite bool_decide_eq_false_2 by lia. fold a.
  erewrite comp_bind_ret; [|unfold spd_validate; rewrite Hval; reflexivity].
  assert (storage data ≠ []) as Hst.
  { intros E. destruct Hd as [Ho _]. rewrite E in Ho. cbn in Ho. lia. }
  rewrite (comp_lift_ok _ _ _ _ (advance_forward SP_HEADER_SIZE data Hd ltac:(lia) Hst)).
  assert (set_size (Z.to_nat (data_field_length h))
    (set_window (offset data + SP_HEADER_SIZE) (size data - SP_HEADER_SIZE) data)
    = Ret (data_field_buffer (Z.to_nat (data_field_length h)) data)) as Es.
  { unfold set_size, Buffer_capacity. cbn. destruct Hd as [Ho _]. by rewrite bool_decide_eq_true_2 by lia. }
  by rewrite (comp_lift_ok _ _ _ _ Es).
Qed.
End sp_deframer_facts.

(** * Guarantees *)

(** The space packet deframer accepts exactly the packets, on any buffer
    and with the APID manager in any reachable state: too short a buffer or a
    non-zero version is reported as [InvalidPacket], a length field beyond the
    received bytes as [InvalidLength] (both notified when a listener is
    connected, the buffer returned unchanged with its original context);
    anything else is delivered once, as the announced number of bytes after
    the header in the same storage, with the header's APID, flags and count
    in the context, after one report if the count was not the expected one. *)
Theorem sp_deframer_exact (data : Buffer) (ctx : FrameContext) (d : SpacePacketDeframer ApidState) :
  buffer_ok data → apid_ok (spd_manager d) →
  let h := sp_header_of (window data) in
  let a := default ApidInvalidUninitialized (try_from (apid_value h)) in
  let n := sp_sequence_count h in
  let notify := notify_outs (spd_error_notify_connected d) in
  ∃ d' outs, spd_data_in validate_apid_seq_count_in data ctx d = Ret (tt, d', outs) ∧ apid_ok (spd_manager d') ∧
    if decide (size data ≤ 6 ∨ sp_pvn h ≠ 0%Z)
    then outs = SpDfInvalidPacket :: notify SpInvalidPacket ++ [SpDfDataReturnOut data ctx] ∧ d' = d
    else if decide (Z.of_nat (size data - 6) < packet_data_length h + 1)%Z
    then outs = SpDfInvalidLength (packet_data_length h + 1) (Z.of_nat (size data - 6))
                  :: notify SpInvalidLength ++ [SpDfDataReturnOut data ctx] ∧ d' = d
    else ∃ b, outs = (if decide (n = next_count (spd_manager d) a) then []
                      else [SpDfApid (UnexpectedSequenceCount n (next_count (spd_manager d) a))]) ++
                     [SpDfDataOut b (set_packet_fields a (sp_has_sec_hdr h) (sp_sequence_flags h) n ctx)] ∧
              window b = slice 6 (Z.to_nat (packet_data_length h + 1)) (window data) ∧
              storage b = storage data ∧ context b = context data ∧
              next_count (spd_manager d') a = ((n + 1) mod 2 ^ 14)%Z.
Proof.
  intros Hd Hm h a n notify. case_decide as Hbad.
  { exists d. eexists. split; [by apply spd_data_in_reject|]. done. }
  assert (SP_HEADER_SIZE < size data) as Hs by (unfold SP_HEADER_SIZE; lia).
  assert (sp_pvn h = 0%Z) as Hp0 by lia.
  case_decide as Hl.
  { exists d. eexists. split; [by apply spd_data_in_too_long|]. done. }
  destruct (sp_header_of_ok (window data) (window_bytes _ Hd)) as [(_ & _ & Hu) _].
  { rewrite length_window by done. unfold SP_HEADER_SIZE. lia. }
  fold h in Hu. unfold is_u in Hu.
  destruct (validate_apid_ok a n (spd_manager d) Hm) as (m & Ev & Hm' & Hn).
  assert (0 ≤ data_field_length h ≤ Z.of_nat (size data - SP_HEADER_SIZE))%Z as Hlen
    by (unfold data_field_length, SP_HEADER_SIZE; lia).
  eexists _, _. split; [by apply (spd_data_in_accept validate_apid_seq_count_in data ctx d _ _ _ Hd Hs Hp0 Hlen Ev)|].
  split; [done|]. exists (data_field_buffer (Z.to_nat (data_field_length h)) data).
  split; [|split; [apply data_field_window; unfold SP_HEADER_SIZE in *; lia|]].
  - fold h a n. by case_decide.
  - split_and!; [done|done|]. cbn [spd_manager]. by rewrite Hn, decide_True.
Qed.

Lemma sp_deframer_exact_witness :
  let data := from_storage [0; 1; 192; 5; 0; 1; 7; 8; 9]%Z 0 in
  let d := MkSpDeframer true ApidManager_new in
  ∃ d' outs, spd_data_in validate_apid_seq_count_in data FrameContext_default d = Ret (tt, d', outs) ∧
    apid_ok (spd_manager d') ∧
    ∃ b, outs = [SpDfApid (UnexpectedSequenceCount 5 0)] ++
                [SpDfDataOut b (set_packet_fields FwPacketTelem false 3 5 FrameContext_default)] ∧
         window b = [7; 8]%Z ∧ storage b = storage data ∧ context b = context data ∧
         next_count (spd_manager d') FwPacketTelem = 6%Z.
Proof.
  apply (sp_deframer_exact (from_storage [0; 1; 192; 5; 0; 1; 7; 8; 9]%Z 0) FrameContext_default
    (MkSpDeframer true ApidManager_new)); [fp_decide|apply apid_ok_new].
Defined.

(** ** A lossless link *)

Section link.
Context `{BuildProfile} `{AllocatorLive A}.

Fixpoint spf_run (items : list (Buffer * FrameContext))
    : CompM (SpacePacketFramer A ApidState) (SpFrOut ApidOut) unit :=
  match items with
  | [] => mret tt
  | (data, ctx) :: items' => _ ← spf_data_in get_apid_seq_count_in data ctx; spf_run items'
  end.
End link.

Fixpoint spd_run (bs : list Buffer) (ctx : FrameContext)
    : CompM (SpacePacketDeframer ApidState) (SpDfOut ApidOut) unit :=
  match bs with
  | [] => mret tt
  | b :: bs' => _ ← spd_data_in validate_apid_seq_count_in b ctx; spd_run bs' ctx
  end.

(** The packets sent, and the payload buffers given back. *)
Definition packets_sent (outs : list (SpFrOut ApidOut)) : list Buffer :=
  omap (λ o, match o with SpFrDataOut b _ => Some b | _ => None end) outs.
Definition payloads_returned (outs : list (SpFrOut ApidOut)) : list (Buffer * FrameContext) :=
  omap (λ o, match o with SpFrDataReturnOut b c => Some (b, c) | _ => None end) outs.

Definition item_ok (i : Buffer * FrameContext) : Prop :=
  buffer_ok i.1 ∧ 0 < size i.1 ∧ (Z.of_nat (size i.1) ≤ 0xFFFF)%Z ∧ apid i.2 ≠ ApidInvalidUninitialized.
#[export] Instance item_ok_dec i : Decision (item_ok i).
Proof. unfold item_ok; apply _. Defined.

(** The context of a received packet. *)
Definition received_context (sent : FrameContext) (count : Z) (ctx : FrameContext) : FrameContext :=
  set_packet_fields (apid sent) (has_sec_hdr sent) (sequence_flags sent mod 4) count ctx.

Lemma spd_packet_ok b sent c p ctx (d : SpacePacketDeframer ApidState) :
  buffer_ok b → window b = packet_of sent c p → Forall is_byte p →
  0 < length p → (Z.of_nat (length p) ≤ 0xFFFF)%Z → apid sent ≠ ApidInvalidUninitialized →
  apid_ok (spd_manager d) → c = next_count (spd_manager d) (apid sent) →
  ∃ d' b', spd_data_in validate_apid_seq_count_in b ctx d
             = Ret (tt, d', [SpDfDataOut b' (received_context sent c ctx)]) ∧
    window b' = p ∧ apid_ok (spd_manager d') ∧
    ∀ a, next_count (spd_manager d') a =
         if decide (a = apid sent) then ((c + 1) mod 2 ^ 14)%Z else next_count (spd_manager d) a.
Proof.
  intros Hb Hw Hp Hpos Hmax Ha Hm Hc.
  pose proof (next_count_range (spd_manager d) (apid sent) Hm) as Hcr. rewrite <- Hc in Hcr.
  destruct (sp_header_for_ok sent c (length p) Hcr Hpos Hmax Ha) as (Hwf & H1 & H2 & H3 & H4 & H5 & H6).
  assert (sp_header_of (window b) = sp_header_for sent c (length p)) as Eh.
  { rewrite Hw. by apply sp_header_of_enc. }
  pose proof (length_window b Hb) as Hl. rewrite Hw, length_packet_of in Hl.
  destruct (validate_apid_ok (apid sent) c (spd_manager d) Hm) as (m & Ev & Hm' & Hn).
  rewrite decide_True in Ev by done.
  eexists _, (data_field_buffer (length p) b).
  pose proof (spd_data_in_accept validate_apid_seq_count_in b ctx d c m []) as Eacc. cbv zeta in Eacc.
  rewrite Eh, H1, H2, H3, H4, H5, H6 in Eacc. rewrite try_from_as_repr, Nat2Z.id in Eacc. cbn [default] in Eacc.
  unfold received_context. split; [apply Eacc; (done || lia)|]. split; [|done].
  rewrite data_field_window by lia. rewrite Hw. unfold packet_of, slice.
  rewrite <- (length_sp_enc (sp_header_for sent c (length p))), drop_app_length. by apply take_ge.
Qed.

Section link_facts.
Context `{BuildProfile} `{AllocatorLive A}.

Lemma sp_link_run items rctx (f : SpacePacketFramer A ApidState) (d : SpacePacketDeframer ApidState) :
  Forall item_ok items → apid_ok (spf_manager f) → apid_ok (spd_manager d) →
  (∀ a, next_count (spf_manager f) a = next_count (spd_manager d) a) →
  ∃ f' d' fouts douts, spf_run items f = Ret (tt, f', fouts) ∧ payloads_returned fouts = items ∧
    spd_run (packets_sent fouts) rctx d = Ret (tt, d', douts) ∧
    Forall3 (λ i n o, ∃ b, o = SpDfDataOut b (received_context i.2 n rctx) ∧ window b = window i.1)
      items (counters_run (GetCount ∘ apid ∘ snd <$> items) (next_count (spf_manager f))).1 douts.
Proof.
  intros Hit. revert f d. induction Hit as [|[data ctx] items (Hd & Hpos & Hmax & Ha) _ IH]; intros f d Hf Hdm Heq.
  { exists f, d, [], []. split_and!; try done. constructor. }
  cbn [fst snd] in *. set (c := next_count (spf_manager f) (apid ctx)).
  destruct (get_apid_ok (apid ctx) 0 (spf_manager f) Hf) as (m & Eg & Hm & Hn). fold c in Eg, Hn.
  destruct (spf_data_in_ok get_apid_seq_count_in f data ctx c m [] Hd Hpos Hmax Ha) as (f1 & fb & E1 & Hf1 & Hfb & Hw).
  { apply alloc_valid. unfold SP_HEADER_SIZE. lia. }
  { exact Eg. }
  pose proof (length_window data Hd) as Hlw.
  destruct (spd_packet_ok fb ctx c (window data) rctx d Hfb Hw (window_bytes _ Hd)) as (d1 & b & E2 & Hwb & Hd1 & Hn1);
    [lia|lia|done|done|by rewrite <- Heq|].
  assert (∀ a, next_count (spf_manager f1) a = set_count (next_count (spf_manager f)) (apid ctx) ((c + 1) mod 2 ^ 14)%Z a) as Hset.
  { intros a. rewrite Hf1, Hn. done. }
  destruct (IH f1 d1) as (f' & d' & fouts & douts & E3 & Hret & E4 & Hall).
  { by rewrite Hf1. } { done. } { intros a. rewrite Hset, Hn1. unfold set_count. by rewrite Heq. }
  exists f', d', ([SpFrDataOut fb ctx; SpFrDataReturnOut data ctx] ++ fouts),
    ([SpDfDataOut b (received_context ctx c rctx)] ++ douts).
  cbn [spf_run]. rewrite (comp_bind_ret _ _ _ _ _ _ E1), E3. split; [done|]. split.
  { unfold payloads_returned in *. cbn. by rewrite Hret. }
  change (packets_sent ([SpFrDataOut fb ctx; SpFrDataReturnOut data ctx] ++ fouts)) with (fb :: packets_sent fouts).
  cbn [spd_run]. rewrite (comp_bind_ret _ _ _ _ _ _ E2), E4. split; [done|].
  cbn [fmap list_fmap counters_run compose]. fold c.
  rewrite (counters_run_ext _ _ _ Hset) in Hall. unfold compose in Hall. cbn [snd].
  destruct (counters_run _ _) as [rs os]. cbn [fst app] in *. constructor; [|done]. by exists b.
Qed.

(** C34. A lossless space packet link: any sequence of payloads of 1 to 65535
    bytes, with any declared APIDs interleaved, is framed without a panic,
    every payload buffer goes back to its sender, and the deframer delivers
    exactly the payloads in order, each with its APID, secondary-header flag,
    sequence flags and the consecutive count of its APID, and reports
    nothing, when both ends' APID managers agree at the start. *)
Theorem space_packet_link_lossless (items : list (Buffer * FrameContext)) (rctx : FrameContext)
    (f : SpacePacketFramer A ApidState) (d : SpacePacketDeframer ApidState) :
  Forall item_ok items → apid_ok (spf_manager f) → apid_ok (spd_manager d) →
  (∀ a, next_count (spf_manager f) a = next_count (spd_manager d) a) →
  ∃ f' d' fouts douts, spf_run items f = Ret (tt, f', fouts) ∧ payloads_returned fouts = items ∧
    spd_run (packets_sent fouts) rctx d = Ret (tt, d', douts) ∧
    Forall3 (λ i n o, ∃ b, o = SpDfDataOut b (received_context i.2 n rctx) ∧ window b = window i.1)
      items (counters_run (GetCount ∘ apid ∘ snd <$> items) (next_count (spf_manager f))).1 douts.
Proof. apply sp_link_run. Qed.
End link_facts.

Definition demo_profile : BuildProfile := true.
Definition demo_telem : FrameContext := set_apid FwPacketTelem FrameContext_default.
Definition demo_items : list (Buffer * FrameContext) :=
  [(from_storage [1; 2]%Z 0, demo_telem); (from_storage [3]%Z 0, set_apid FwPacketLog FrameContext_default);
   (from_storage [4; 5; 6]%Z 0, demo_telem)].

Lemma space_packet_link_lossless_witness :
  ∃ f' d' fouts douts,
    spf_run (H := demo_profile) demo_items (SpacePacketFramer_new true tt ApidManager_new) = Ret (tt, f', fouts) ∧
    payloads_returned fouts = demo_items ∧
    spd_run (packets_sent fouts) FrameContext_default (MkSpDeframer true ApidManager_new) = Ret (tt, d', douts) ∧
    Forall3 (λ i n o, ∃ b, o = SpDfDataOut b (received_context i.2 n FrameContext_default) ∧ window b = window i.1)
      demo_items [0; 0; 1]%Z douts.
Proof.
  apply (space_packet_link_lossless (H := demo_profile) demo_items FrameContext_default
    (SpacePacketFramer_new true tt ApidManager_new) (MkSpDeframer true ApidManager_new));
    [fp_decide|apply apid_ok_new|apply apid_ok_new|done].
Defined.
