(* ===== verification/TmFramer.v ===== *)
(** Telemetry transfer frames: the idle packet and [Svc::Ccsds::TmFramer],
    [crates/fprime-svc/src/ccsds/idle_packet.rs] and [tm_framer.rs].

    The framer owns one frame buffer of fixed size: it moves it out with each
    frame and must get it back before the next. *)

From S2P Require Import Prelude Serial SerialFacts Codec Fpp Crc32 Crc16 Buffer Comp Framing CcsdsTypes ApidManager SpacePacket.

(** * The idle packet *)

Definition DATA_PATTERN : Z := 0x44.
Definition IDLE_MIN_SIZE : nat := SP_HEADER_SIZE + 1.

(** The fill loop. *)
Fixpoint idle_fill (n : nat) : SerM unit :=
  match n with
  | O => mret tt
  | S n' => _ ← serialize_u8 DATA_PATTERN Big; idle_fill n'
  end.

Definition idle_packet_serialize (size : nat) : SerM unit :=
  _ ← ser_assert (bool_decide (IDLE_MIN_SIZE ≤ size));
  let length_token := size - SP_HEADER_SIZE - 1 in
  _ ← ser_assert (bool_decide (Z.of_nat length_token ≤ 0xFFFF)%Z);
  let header := MkSpHeader (as_repr SppIdlePacket) (shl16 0x3 SP_SEQ_FLAGS_OFFSET)
                  (wrap 16 (Z.of_nat length_token)) in
  _ ← SpacePacketHeader_serialize_to header Big;
  idle_fill (size - SP_HEADER_SIZE).

(** * The framer *)

Definition TRAILER_OFFSET : nat := TM_FRAME_FIXED_SIZE - TM_TRAILER_SIZE.
Definition TM_PAYLOAD_CAPACITY : nat := TM_FRAME_FIXED_SIZE - TM_HEADER_SIZE - TM_TRAILER_SIZE.
Definition MIN_IDLE_PACKET_SIZE : nat := IDLE_MIN_SIZE.
Definition SEGMENT_LENGTH_ID : Z := 0x3.

Record TmState : Set := MkTmState {
  frame_storage : option (list Z);
  tm_master_count : Z;
  tm_virtual_count : Z;
  tm_com_status_connected : bool;
}.

Inductive TmOut : Set :=
| TmDataOut (b : Buffer) (ctx : FrameContext)
| TmDataReturnOut (b : Buffer) (ctx : FrameContext)
| TmComStatusOut (c : Success).

Definition TmFramer_new (connected : bool) : TmState :=
  MkTmState (Some (replicate TM_FRAME_FIXED_SIZE 0%Z)) 0 0 connected.
Definition owns_frame_buffer (s : TmState) : bool := bool_decide (is_Some (frame_storage s)).

Definition fill_with_idle_packet : SerM unit :=
  ser ← ser_get;
  let start_index := ser_loc ser in
  _ ← ser_assert (bool_decide (start_index ≤ TRAILER_OFFSET));
  let idle_packet_size := TRAILER_OFFSET - start_index in
  _ ← ser_assert (bool_decide (MIN_IDLE_PACKET_SIZE ≤ idle_packet_size));
  _ ← ser_assert (bool_decide (idle_packet_size ≤ TM_FRAME_FIXED_SIZE));
  idle_packet_serialize idle_packet_size.

(** [frame_storage.take()] and the assertion that it was owned. *)
Definition take_storage : CompM TmState TmOut (list Z) := λ s,
  match frame_storage s with
  | Some st =>
      Ret (st, MkTmState None (tm_master_count s) (tm_virtual_count s) (tm_com_status_connected s), [])
  | None => Panic
  end.

(** Both counts, read for the header and incremented afterwards. *)
Definition next_frame_counts : CompM TmState TmOut (Z * Z) := λ s,
  Ret ((tm_master_count s, tm_virtual_count s),
       MkTmState (frame_storage s) (wrap 8 (tm_master_count s + 1)) (wrap 8 (tm_virtual_count s + 1))
         (tm_com_status_connected s), []).

(** [data_in_handler]. *)
Definition tm_data_in `{BuildProfile} (data : Buffer) (ctx : FrameContext) : CompM TmState TmOut unit :=
  _ ← assert (bool_decide (size data ≤ TM_PAYLOAD_CAPACITY));
  let residual := TM_PAYLOAD_CAPACITY - size data in
  _ ← assert (bool_decide (residual = 0) || bool_decide (MIN_IDLE_PACKET_SIZE ≤ residual));
  _ ← assert (bool_decide (first_header_pointer ctx ≤ FHP_MASK)%Z);
  storage ← take_storage;
  '(mc, vc) ← next_frame_counts;
  let header := MkTMHeader (build_global_vc_id SPACECRAFT_ID (vc_id ctx) false) mc vc
                  (build_data_field_status false false false SEGMENT_LENGTH_ID (first_header_pointer ctx)) in
  let frame_buffer := from_storage storage NO_CONTEXT in
  payload ← lift (buffer_data data);
  fb1 ← lift (on_window
           (_ ← TMHeader_serialize_to header Big;
            _ ← serialize_bytes payload OmitLength Big;
            if bool_decide (0 < residual) then fill_with_idle_packet else mret tt) frame_buffer);
  window1 ← lift (buffer_data fb1);
  head ← lift (copy_from 0 TRAILER_OFFSET window1);
  let crc := Crc16_compute head in
  fb2 ← lift (on_window
           (_ ← move_ser_to_offset TRAILER_OFFSET;
            TMTrailer_serialize_to (MkTMTrailer crc) Big) fb1);
  _ ← emit (TmDataOut fb2 ctx);
  emit (TmDataReturnOut data ctx).

(** [data_return_in_handler]. *)
Definition tm_data_return_in (frame_buffer : Buffer) : CompM TmState TmOut unit := λ s,
  if bool_decide (frame_storage s = None) && bool_decide (Buffer_capacity frame_buffer = TM_FRAME_FIXED_SIZE)
  then Ret (tt, MkTmState (Some (storage frame_buffer)) (tm_master_count s) (tm_virtual_count s)
                  (tm_com_status_connected s), [])
  else Panic.

(** The [comStatusIn] handler. *)
Definition tm_com_status_in (c : Success) : CompM TmState TmOut unit :=
  s ← get_state; when (tm_com_status_connected s) (emit (TmComStatusOut c)).

(** * The wire image *)

Definition idle_header (n : nat) : SpacePacketHeader :=
  MkSpHeader 0x7FF 0xC000 (Z.of_nat (n - IDLE_MIN_SIZE)).
Definition idle_of (n : nat) : list Z :=
  if decide (n = 0) then [] else SpacePacketHeader_enc Big (idle_header n) ++ replicate (n - SP_HEADER_SIZE) DATA_PATTERN.

Definition tm_header_for (ctx : FrameContext) (mc vc : Z) : TMHeader :=
  MkTMHeader (build_global_vc_id SPACECRAFT_ID (vc_id ctx) false) mc vc
    (build_data_field_status false false false SEGMENT_LENGTH_ID (first_header_pointer ctx)).
Definition tm_head (ctx : FrameContext) (mc vc : Z) (p : list Z) : list Z :=
  TMHeader_enc Big (tm_header_for ctx mc vc) ++ p ++ idle_of (TM_PAYLOAD_CAPACITY - length p).
Definition tm_frame (ctx : FrameContext) (mc vc : Z) (p : list Z) : list Z :=
  tm_head ctx mc vc p ++ be_bytes 2 (Crc16_compute (tm_head ctx mc vc p)).

(** What a frame can carry. *)
Definition tm_payload_ok (n : nat) : Prop := n = 1016 ∨ n ≤ 1009.
#[export] Instance tm_payload_ok_dec n : Decision (tm_payload_ok n).
Proof. unfold tm_payload_ok; apply _. Defined.

Lemma tm_payload_residual n :
  tm_payload_ok n ↔ n ≤ TM_PAYLOAD_CAPACITY ∧ (TM_PAYLOAD_CAPACITY - n = 0 ∨ MIN_IDLE_PACKET_SIZE ≤ TM_PAYLOAD_CAPACITY - n).
Proof. change TM_PAYLOAD_CAPACITY with 1016. change MIN_IDLE_PACKET_SIZE with 7. unfold tm_payload_ok. lia. Qed.

Lemma length_tm_enc h : length (TMHeader_enc Big h) = TM_HEADER_SIZE.
Proof. unfold TMHeader_enc. by rewrite !length_app, !length_int_bytes. Qed.

Lemma length_idle_of n : n = 0 ∨ IDLE_MIN_SIZE ≤ n → length (idle_of n) = n.
Proof.
  intros Hn. unfold idle_of. case_decide; [done|]. rewrite length_app, length_sp_enc, length_replicate.
  unfold IDLE_MIN_SIZE, SP_HEADER_SIZE in *. lia.
Qed.

Lemma length_tm_head ctx mc vc p : tm_payload_ok (length p) → length (tm_head ctx mc vc p) = TRAILER_OFFSET.
Proof.
  intros Hp. unfold tm_head. rewrite !length_app, length_tm_enc.
  rewrite length_idle_of by (apply tm_payload_residual in Hp as [_ [?|?]]; [by left|by right]).
  change TM_PAYLOAD_CAPACITY with 1016. change TRAILER_OFFSET with 1022. unfold TM_HEADER_SIZE, tm_payload_ok in *. lia.
Qed.

Lemma idle_of_bytes n : Forall is_byte (idle_of n).
Proof.
  unfold idle_of. case_decide; [done|]. apply Forall_app.
  split; [apply (c_enc_bytes SpacePacketHeader_codec)|]. apply Forall_replicate. unfold is_byte, DATA_PATTERN. lia.
Qed.

Lemma tm_head_bytes ctx mc vc p : Forall is_byte p → Forall is_byte (tm_head ctx mc vc p).
Proof.
  intros Hp. unfold tm_head. rewrite !Forall_app.
  split_and!; [apply (c_enc_bytes TMHeader_codec)|done|apply idle_of_bytes].
Qed.

(** * The writers *)

Lemma idle_fill_writes n : writes (idle_fill n) (replicate n DATA_PATTERN) ∨ n = 0.
Proof.
  induction n as [|n IH]; [by right|left]. destruct (decide (n = 0)) as [->|Hn].
  - intros b Hb Hc. cbn [idle_fill replicate]. cbn in Hc.
    erewrite ser_bind_ok; [|apply (serialize_uint_ok 1 DATA_PATTERN Big b Hb); rewrite length_int_bytes; cbn; lia].
    done.
  - destruct IH as [IH|]; [|done]. cbn [idle_fill replicate].
    apply (writes_bind _ _ [DATA_PATTERN]); [apply (serialize_uint_ok 1)| |done].
    repeat constructor; unfold DATA_PATTERN; lia.
Qed.

Lemma ser_assert_bind {B} c (k : unit → SerM B) b : c = true → (ser_assert c ≫= k) b = k tt b.
Proof. by intros ->. Qed.

Lemma idle_packet_writes n :
  IDLE_MIN_SIZE ≤ n ≤ TM_FRAME_FIXED_SIZE → writes (idle_packet_serialize n) (idle_of n).
Proof.
  intros Hn b Hb Hc. change IDLE_MIN_SIZE with 7 in Hn. change TM_FRAME_FIXED_SIZE with 1024 in Hn.
  unfold idle_packet_serialize. rewrite !ser_assert_bind
    by (apply bool_decide_eq_true_2; unfold IDLE_MIN_SIZE, SP_HEADER_SIZE; lia).
  cbv zeta. rewrite wrap_small by (unfold is_u, SP_HEADER_SIZE; lia).
  change (shl16 3 SP_SEQ_FLAGS_OFFSET) with 0xC000%Z. change (as_repr SppIdlePacket) with 0x7FF%Z.
  replace (n - SP_HEADER_SIZE - 1) with (n - IDLE_MIN_SIZE) by (unfold IDLE_MIN_SIZE, SP_HEADER_SIZE; lia).
  fold (idle_header n). unfold idle_of in *. rewrite decide_False in * by lia. revert b Hb Hc.
  change (writes (_ ← SpacePacketHeader_serialize_to (idle_header n) Big; idle_fill (n - SP_HEADER_SIZE))
    (SpacePacketHeader_enc Big (idle_header n) ++ replicate (n - SP_HEADER_SIZE) DATA_PATTERN)).
  ser_step_at SpacePacketHeader_codec Big (idle_header n).
  destruct (idle_fill_writes (n - SP_HEADER_SIZE)) as [?|E]; [done|]. unfold SP_HEADER_SIZE in E. lia.
Qed.

Lemma write_frame_ok w ctx mc vc p :
  Forall is_byte w → length w = TM_FRAME_FIXED_SIZE → Forall is_byte p → tm_payload_ok (length p) →
  (_ ← TMHeader_serialize_to (tm_header_for ctx mc vc) Big;
   _ ← serialize_bytes p OmitLength Big;
   if bool_decide (0 < TM_PAYLOAD_CAPACITY - length p) then fill_with_idle_packet else mret tt) (ext_buf_new w)
  = (SOk tt, appended (ext_buf_new w) (tm_head ctx mc vc p)).
Proof.
  intros Hw Hl Hp Hok. set (h := tm_header_for ctx mc vc).
  pose proof (length_tm_enc h) as Hlh. pose proof (length_tm_head ctx mc vc p Hok) as Hlt.
  pose proof (wf_ext_new w Hw) as Hwf. change TRAILER_OFFSET with 1022 in *.
  change TM_FRAME_FIXED_SIZE with 1024 in *. change TM_HEADER_SIZE with 6 in *.
  assert (length p ≤ 1016) as Hp1016 by (unfold tm_payload_ok in Hok; lia).
  assert (TMHeader_serialize_to h Big (ext_buf_new w) = (SOk tt, appended (ext_buf_new w) (TMHeader_enc Big h))) as E1.
  { apply (c_ser_ok TMHeader_codec h Big _ Hwf). cbn [c_enc TMHeader_codec]. rewrite Hlh. unfold capacity. cbn. lia. }
  rewrite (ser_bind_ok _ _ _ _ _ E1). set (b1 := appended (ext_buf_new w) (TMHeader_enc Big h)).
  assert (capacity b1 = 1024) as Hc1.
  { unfold b1. rewrite capacity_appended; [exact Hl|]. unfold capacity. cbn. lia. }
  assert (ser_loc b1 = 6) as Hl1 by (unfold b1; rewrite ser_loc_appended, Hlh; done).
  assert (serialize_bytes p OmitLength Big b1 = (SOk tt, appended b1 p)) as E2.
  { apply (writes_raw p); [|lia]. apply wf_appended; [done|apply (c_enc_bytes TMHeader_codec)|].
    unfold capacity. cbn. lia. }
  rewrite (ser_bind_ok _ _ _ _ _ E2).
  assert (appended b1 p = appended (ext_buf_new w) (TMHeader_enc Big h ++ p)) as E3.
  { apply appended_app. unfold capacity. cbn. lia. }
  unfold tm_head in *. fold h in Hlt |- *. rewrite !length_app, Hlh in Hlt. change TM_PAYLOAD_CAPACITY with 1016 in *.
  case_bool_decide as Hres.
  - unfold fill_with_idle_packet. erewrite ser_bind_ok; [|reflexivity]. cbv zeta.
    rewrite ser_loc_appended, Hl1. change TRAILER_OFFSET with 1022.
    replace (1022 - (6 + length p)) with (1016 - length p) by lia.
    change TM_FRAME_FIXED_SIZE with 1024. change MIN_IDLE_PACKET_SIZE with 7.
    rewrite !ser_assert_bind by (apply bool_decide_eq_true_2; unfold tm_payload_ok in Hok; lia).
    rewrite E3. rewrite (idle_packet_writes (1016 - length p)).
    + rewrite appended_app; [by rewrite <- app_assoc|]. rewrite length_app, Hlh. unfold capacity. cbn [ser_loc ext_buf_new Serial.data]. lia.
    + change IDLE_MIN_SIZE with 7. change TM_FRAME_FIXED_SIZE with 1024. unfold tm_payload_ok in Hok. lia.
    + apply wf_appended; [done| |]; [|rewrite length_app, Hlh; unfold capacity; cbn [ser_loc ext_buf_new Serial.data]; lia].
      apply Forall_app. split; [apply (c_enc_bytes TMHeader_codec)|done].
    + rewrite ser_loc_appended, capacity_appended by (rewrite length_app, Hlh; unfold capacity; cbn [ser_loc ext_buf_new Serial.data]; lia).
      rewrite length_app, Hlh. unfold capacity. cbn [ser_loc ext_buf_new Serial.data]. lia.
  - replace (1016 - length p) with 0 by lia. unfold idle_of. rewrite decide_True by done. rewrite app_nil_r, <- E3. done.
Qed.

(** The frame that is built, in the storage of the framer. *)
Lemma tm_data_in_ok `{BuildProfile} data ctx s st :
  buffer_ok data → tm_payload_ok (size data) → (first_header_pointer ctx ≤ FHP_MASK)%Z →
  frame_storage s = Some st → Forall is_byte st → length st = TM_FRAME_FIXED_SIZE →
  ∃ fb, tm_data_in data ctx s =
    Ret (tt, MkTmState None (wrap 8 (tm_master_count s + 1)) (wrap 8 (tm_virtual_count s + 1)) (tm_com_status_connected s),
         [TmDataOut fb ctx; TmDataReturnOut data ctx]) ∧
    buffer_ok fb ∧ window fb = tm_frame ctx (tm_master_count s) (tm_virtual_count s) (window data) ∧
    storage fb = window fb.
Proof.
  intros Hd Hp Hfhp Hst Hby Hlen. pose proof (length_window data Hd) as Hlp.
  pose proof (window_bytes data Hd) as Hpb. pose proof (proj1 (tm_payload_residual _) Hp) as [Hcap Hres].
  unfold tm_data_in. rewrite comp_assert_ok by (by apply bool_decide_eq_true_2). cbv zeta.
  rewrite comp_assert_ok by (apply orb_true_iff; rewrite !bool_decide_eq_true; exact Hres).
  rewrite comp_assert_ok by (by apply bool_decide_eq_true_2).
  erewrite comp_bind_quiet; [|unfold take_storage; rewrite Hst; reflexivity].
  erewrite comp_bind_quiet; [|reflexivity]. cbn [tm_master_count tm_virtual_count tm_com_status_connected].
  set (mc := tm_master_count s). set (vc := tm_virtual_count s). fold (tm_header_for ctx mc vc).
  rewrite (comp_lift_ok _ _ _ _ (buffer_data_ok data Hd)).
  set (fb := from_storage st NO_CONTEXT).
  assert (buffer_ok fb) as Hfb by (by apply from_storage_ok).
  assert (window fb = st) as Hwfb by apply window_from_storage.
  assert (size fb = TM_FRAME_FIXED_SIZE) as Hsfb by done.
  assert (storage fb ≠ []) as Hne by (intros E; cbn in E; rewrite E in Hlen; done).
  rewrite <- Hlp in Hp. pose proof (write_frame_ok (window fb) ctx mc vc (window data)) as Ew.
  rewrite Hwfb in Ew. specialize (Ew Hby Hlen Hpb Hp). rewrite Hlp in Ew. rewrite <- Hwfb in Ew at 1.
  pose proof (length_tm_head ctx mc vc (window data) Hp) as Hlt. set (hd := tm_head ctx mc vc (window data)) in *.
  assert (Forall is_byte hd) as Hhb by (by apply tm_head_bytes).
  change TRAILER_OFFSET with 1022 in *. change TM_FRAME_FIXED_SIZE with 1024 in *.
  destruct (on_window_ok _ fb _ Hfb Hne ltac:(lia) Ew) as (fb1 & E1 & Hok1 & Hw1 & Hs1 & Ho1 & Hne1 & Hl1).
  { cbn [Serial.data appended ext_buf_new ser_loc]. rewrite length_splice; lia. }
  { cbn [Serial.data appended ext_buf_new ser_loc]. by apply Forall_splice. }
  cbn [Serial.data appended ext_buf_new ser_loc] in Hw1.
  rewrite (comp_lift_ok _ _ _ _ E1), (comp_lift_ok _ _ _ _ (buffer_data_ok fb1 Hok1)).
  pose proof (length_window fb1 Hok1) as Hlw1.
  assert (copy_from 0 1022 (window fb1) = Ret hd) as Ec.
  { rewrite copy_from_ok by lia. f_equal. rewrite Hw1, <- Hlt. apply slice_splice. lia. }
  rewrite (comp_lift_ok _ _ _ _ Ec). set (crc := Crc16_compute hd).
  assert ((_ ← move_ser_to_offset 1022; TMTrailer_serialize_to (MkTMTrailer crc) Big) (ext_buf_new (window fb1))
    = (SOk tt, SerBuf (splice 1022 (be_bytes 2 crc) (window fb1)) 1024 0)) as Et.
  { pose proof (move_ser_to_offset_ok 1022 (ext_buf_new (window fb1)) ltac:(unfold capacity; cbn [Serial.data ext_buf_new]; lia) ltac:(unfold usize_ok; lia)) as Em.
    rewrite (ser_bind_ok _ _ _ _ _ Em). unfold TMTrailer_serialize_to, serialize_u16, serialize_uint.
    rewrite write_raw_room; [done|]. unfold capacity. cbn [Serial.data ser_loc ext_buf_new]. rewrite length_int_bytes. lia. }
  destruct (on_window_ok _ fb1 _ Hok1 Hne1 ltac:(lia) Et) as (fb2 & E2 & Hok2 & Hw2 & Hs2 & Ho2 & _ & Hl2).
  { cbn [Serial.data]. rewrite length_splice; rewrite ?length_be_bytes; lia. }
  { cbn [Serial.data]. apply Forall_splice; [by apply window_bytes|apply be_bytes_is_byte]. }
  cbn [Serial.data] in Hw2. rewrite (comp_lift_ok _ _ _ _ E2), comp_emit. exists fb2. split; [done|]. split; [done|].
  assert (offset fb2 = 0) as H0 by (rewrite Ho2, Ho1; done).
  assert (length (storage fb2) = 1024) as Hl3 by (rewrite Hl2, Hl1; exact Hlen). split.
  - rewrite Hw2, Hw1. unfold tm_frame. fold hd crc. unfold splice at 1.
    rewrite drop_ge by (rewrite length_splice, length_be_bytes; lia). rewrite app_nil_r. f_equal.
    unfold splice. rewrite take_0. cbn [app]. by rewrite take_app_length'.
  - unfold window. rewrite H0. symmetry. apply slice_0_full. lia.
Qed.

(** * Guarantees *)

Definition tm_ok (s : TmState) : Prop :=
  is_u 8 (tm_master_count s) ∧ is_u 8 (tm_virtual_count s) ∧
  match frame_storage s with Some st => Forall is_byte st ∧ length st = TM_FRAME_FIXED_SIZE | None => True end.

Definition tm_accepts (s : TmState) (data : Buffer) (ctx : FrameContext) : Prop :=
  tm_payload_ok (size data) ∧ (first_header_pointer ctx ≤ 0x7FF)%Z ∧ is_Some (frame_storage s).
#[export] Instance tm_accepts_dec s data ctx : Decision (tm_accepts s data ctx).
Proof. unfold tm_accepts; apply _. Defined.

Lemma comp_assert_bind {S O B} (c : bool) (k : unit → CompM S O B) s :
  (assert c ≫= k) s = if c then k tt s else Panic.
Proof. destruct c; [by apply comp_assert_ok|done]. Qed.

Lemma tm_data_in_refuses `{BuildProfile} data ctx s : ¬ tm_accepts s data ctx → tm_data_in data ctx s = Panic.
Proof.
  intros Hno. unfold tm_data_in. cbv zeta. rewrite comp_assert_bind.
  destruct (bool_decide (size data ≤ TM_PAYLOAD_CAPACITY)) eqn:Hcap; [|done].
  rewrite comp_assert_bind. destruct (bool_decide _ || bool_decide _) eqn:Hres; [|done].
  rewrite comp_assert_bind. destruct (bool_decide (first_header_pointer ctx ≤ FHP_MASK)%Z) eqn:Hfhp; [|done].
  apply orb_true_iff in Hres. rewrite !bool_decide_eq_true in *.
  unfold take_storage, mbind at 1, CompM_bind. destruct (frame_storage s) as [st|] eqn:Es; [|done].
  destruct Hno. split_and!; [by apply tm_payload_residual|exact Hfhp|by eexists].
Qed.

(** One frame per payload, or an assertion: the TM framer accepts exactly
    payloads of 1016 or at most 1009 bytes, with a first header pointer of 11
    bits, while it owns its frame buffer, and panics otherwise; accepted, it
    emits one transfer frame (header with both counts, payload, idle fill,
    frame error control field) whatever its buffer held before, hands the
    buffer over, returns the payload and advances both 8-bit counts. *)
Theorem tm_framer_exact `{BuildProfile} (data : Buffer) (ctx : FrameContext) (s : TmState) :
  buffer_ok data → tm_ok s →
  if decide (tm_accepts s data ctx)
  then ∃ fb s', tm_data_in data ctx s = Ret (tt, s', [TmDataOut fb ctx; TmDataReturnOut data ctx]) ∧
         window fb = tm_frame ctx (tm_master_count s) (tm_virtual_count s) (window data) ∧
         buffer_ok fb ∧ Buffer_capacity fb = 1024 ∧ size fb = 1024 ∧ tm_ok s' ∧ owns_frame_buffer s' = false ∧
         tm_master_count s' = ((tm_master_count s + 1) mod 256)%Z ∧
         tm_virtual_count s' = ((tm_virtual_count s + 1) mod 256)%Z
  else tm_data_in data ctx s = Panic.
Proof.
  intros Hd (_ & _ & Hst). case_decide as Hacc; [|by apply tm_data_in_refuses].
  destruct Hacc as (Hp & Hfhp & [st Es]). rewrite Es in Hst. destruct Hst as [Hby Hlen].
  destruct (tm_data_in_ok data ctx s st Hd Hp Hfhp Es Hby Hlen) as (fb & E & Hok & Hw & Hs).
  exists fb. eexists. split; [exact E|]. pose proof (length_window fb Hok) as Hlw.
  assert (length (window fb) = 1024) as Hl.
  { rewrite Hw. unfold tm_frame. rewrite length_app, length_be_bytes, length_tm_head; [done|].
    by rewrite length_window. }
  split_and!; try done.
  - unfold Buffer_capacity. by rewrite Hs.
  - lia.
  - split_and!; [apply Z.mod_pos_bound; lia..|done].
Qed.

Lemma tm_framer_exact_witness :
  let P := true : BuildProfile in
  ∃ fb s', tm_data_in (from_storage [1; 2; 3]%Z 0) FrameContext_default (TmFramer_new true)
      = Ret (tt, s', [TmDataOut fb FrameContext_default;
                      TmDataReturnOut (from_storage [1; 2; 3]%Z 0) FrameContext_default]) ∧
    window fb = tm_frame FrameContext_default 0 0 [1; 2; 3]%Z ∧
    buffer_ok fb ∧ Buffer_capacity fb = 1024 ∧ size fb = 1024 ∧ tm_ok s' ∧ owns_frame_buffer s' = false ∧
    tm_master_count s' = 1%Z ∧ tm_virtual_count s' = 1%Z.
Proof.
  intros P. apply (tm_framer_exact (from_storage [1; 2; 3]%Z 0) FrameContext_default (TmFramer_new true)); [fp_decide|].
  split; [done|]. split; [done|]. cbn [frame_storage TmFramer_new]. split; [|by rewrite length_replicate].
  apply Forall_replicate. unfold is_byte. lia.
Defined.

(** ** Successive frames *)

(** Each payload with its context, and the frame buffer as the link hands it
    back, whatever is left in it. *)
Fixpoint tm_run `{BuildProfile} (items : list (Buffer * FrameContext * Buffer)) : CompM TmState TmOut unit :=
  match items with
  | [] => mret tt
  | (data, ctx, back) :: items' => _ ← tm_data_in data ctx; _ ← tm_data_return_in back; tm_run items'
  end.

Definition tm_frames (outs : list TmOut) : list (list Z) :=
  omap (λ o, match o with TmDataOut b _ => Some (window b) | _ => None end) outs.
Definition tm_returned (outs : list TmOut) : list (Buffer * FrameContext) :=
  omap (λ o, match o with TmDataReturnOut b c => Some (b, c) | _ => None end) outs.

Definition tm_item_ok (i : Buffer * FrameContext * Buffer) : Prop :=
  buffer_ok i.1.1 ∧ tm_payload_ok (size i.1.1) ∧ (first_header_pointer i.1.2 ≤ 0x7FF)%Z ∧
  buffer_ok i.2 ∧ Buffer_capacity i.2 = TM_FRAME_FIXED_SIZE.
#[export] Instance tm_item_ok_dec i : Decision (tm_item_ok i).
Proof. unfold tm_item_ok; apply _. Defined.

Definition numbered_frame (k : Z) (i : nat) (item : Buffer * FrameContext * Buffer) : list Z :=
  tm_frame item.1.2 ((k + Z.of_nat i) mod 256) ((k + Z.of_nat i) mod 256) (window item.1.1).

Lemma tm_run_ok `{BuildProfile} items k s st :
  Forall tm_item_ok items → frame_storage s = Some st → Forall is_byte st → length st = TM_FRAME_FIXED_SIZE →
  tm_master_count s = (k mod 256)%Z → tm_virtual_count s = (k mod 256)%Z →
  ∃ s' outs, tm_run items s = Ret (tt, s', outs) ∧ owns_frame_buffer s' = true ∧
    tm_frames outs = imap (numbered_frame k) items ∧ tm_returned outs = fst <$> items.
Proof.
  intros Hit. revert k s st. induction Hit as [|[[data ctx] back] items (Hd & Hp & Hf & Hb & Hcap) _ IH];
    intros k s st Es Hby Hlen Hm Hv.
  { exists s, []. split_and!; try done. unfold owns_frame_buffer. rewrite Es. by apply bool_decide_eq_true_2. }
  cbn [fst snd] in *. destruct (tm_data_in_ok data ctx s st Hd Hp Hf Es Hby Hlen) as (fb & E & Hok & Hw & _).
  cbn [tm_run]. rewrite (comp_bind_ret _ _ _ _ _ _ E).
  set (s2 := MkTmState (Some (storage back)) (wrap 8 (tm_master_count s + 1)) (wrap 8 (tm_virtual_count s + 1))
    (tm_com_status_connected s)).
  erewrite comp_bind_quiet with (s1 := s2).
  2: { unfold tm_data_return_in. cbn [frame_storage]. rewrite bool_decide_eq_true_2 by done.
       rewrite bool_decide_eq_true_2 by done. reflexivity. }
  assert (∀ c, c = k mod 256 → wrap 8 (c + 1) = (k + 1) mod 256)%Z as Hwr.
  { intros c ->. unfold wrap. change (2 ^ 8)%Z with 256%Z. apply Z.add_mod_idemp_l. lia. }
  destruct (IH (k + 1)%Z s2 (storage back)) as (s' & outs & E' & Ho & Hfr & Hret); try done.
  { apply Hb. } { by apply Hwr. } { by apply Hwr. }
  rewrite E'. eexists s', _. split; [reflexivity|]. split; [done|].
  unfold tm_frames, tm_returned in *. cbn [omap list_omap app]. rewrite Hfr, Hret. split; [|done].
  assert (numbered_frame k 0 (data, ctx, back) = window fb) as Hhd.
  { rewrite Hw, Hm, Hv. unfold numbered_frame. cbn [fst snd Z.of_nat]. rewrite Z.add_0_r. reflexivity. }
  rewrite imap_cons, Hhd. apply (f_equal (cons (window fb))), imap_ext. intros i x _. unfold numbered_frame, compose.
  by replace (k + 1 + Z.of_nat i)%Z with (k + Z.of_nat (S i))%Z by lia.
Qed.

(** A downlink of any length: with one frame in flight at a time and the
    frame buffer handed back after each (with any content), a new TM framer
    frames every payload, the [i]-th frame carries both counts [i mod 256],
    no byte of an earlier frame shows in a later one, and every payload
    buffer goes back to its sender in order. *)
Theorem tm_frames_numbered `{BuildProfile} (connected : bool) (items : list (Buffer * FrameContext * Buffer)) :
  Forall tm_item_ok items →
  ∃ s' outs, tm_run items (TmFramer_new connected) = Ret (tt, s', outs) ∧ owns_frame_buffer s' = true ∧
    tm_frames outs = imap (numbered_frame 0) items ∧ tm_returned outs = fst <$> items.
Proof.
  intros Hit. apply (tm_run_ok items 0 (TmFramer_new connected) (replicate TM_FRAME_FIXED_SIZE 0%Z) Hit);
    [reflexivity| |apply length_replicate|reflexivity|reflexivity].
  apply Forall_replicate. unfold is_byte. lia.
Qed.

Lemma tm_frames_numbered_witness :
  let P := true : BuildProfile in
  let item := (from_storage [1; 2; 3]%Z 0, FrameContext_default, from_storage (replicate 1024 9%Z) 0) in
  ∃ s' outs, tm_run [item; item] (TmFramer_new true) = Ret (tt, s', outs) ∧ owns_frame_buffer s' = true ∧
    tm_frames outs = [numbered_frame 0 0 item; numbered_frame 0 1 item] ∧
    tm_returned outs = [item.1; item.1].
Proof.
  intros P. apply (tm_frames_numbered true
    [(from_storage [1; 2; 3]%Z 0, FrameContext_default, from_storage (replicate 1024 9%Z) 0);
     (from_storage [1; 2; 3]%Z 0, FrameContext_default, from_storage (replicate 1024 9%Z) 0)]).
  fp_decide.
Defined.

(** ** What the ground reads *)

Lemma tm_header_fields ctx mc vc :
  (0 ≤ vc_id ctx < 8)%Z → (0 ≤ first_header_pointer ctx ≤ 0x7FF)%Z → is_u 8 mc → is_u 8 vc →
  let h := tm_header_for ctx mc vc in
  TMHeader_wf h ∧ tm_frame_version h = 0%Z ∧ tm_spacecraft_id h = SPACECRAFT_ID ∧ tm_vc_id h = vc_id ctx ∧
  tm_ocf_flag h = false ∧ tm_segment_length_id h = 3%Z ∧ tm_first_header_pointer h = first_header_pointer ctx.
Proof.
  intros Hv Hf Hmc Hvc h.
  pose proof (global_vc_id_sum SPACECRAFT_ID (vc_id ctx) ltac:(unfold SPACECRAFT_ID; lia) Hv) as Hg.
  pose proof (data_field_status_sum false false false SEGMENT_LENGTH_ID (first_header_pointer ctx)) as Hs.
  change (SEGMENT_LENGTH_ID mod 4)%Z with 3%Z in Hs. unfold SPACECRAFT_ID in Hg at 2.
  rewrite (Z.mod_small (first_header_pointer ctx)) in Hs by lia.
  unfold tm_frame_version, tm_spacecraft_id, tm_vc_id, tm_ocf_flag, tm_segment_length_id, tm_first_header_pointer.
  unfold h, tm_header_for. cbn [global_vc_id data_field_status].
  change TM_FRAME_VERSION_MASK with (Z.shiftl (Z.ones 2) 14). change TM_FRAME_VERSION_OFFSET with 14%Z.
  change TM_SPACECRAFT_ID_MASK with (Z.shiftl (Z.ones 10) 4). change TM_SPACECRAFT_ID_OFFSET with 4%Z.
  change TM_VIRTUAL_CHANNEL_ID_MASK with (Z.shiftl (Z.ones 3) 1). change TM_VIRTUAL_CHANNEL_ID_OFFSET with 1%Z.
  change TM_OCF_FLAG_MASK with (2 ^ 0)%Z. change TM_SEG_LENGTH_MASK with (Z.shiftl (Z.ones 2) 11).
  change TM_SEG_LENGTH_OFFSET with 11%Z. change TM_FIRST_HEADER_POINTER_MASK with (Z.ones 11).
  rewrite !field_get, flag_get, Z.land_ones, Z.bit0_odd by lia. unfold wrap.
  set (g := build_global_vc_id _ _ _) in *. set (d := build_data_field_status _ _ _ _ _) in *.
  split_and!.
  - unfold is_u. split_and!; cbn [global_vc_id data_field_status master_frame_count virtual_frame_count];
      unfold is_u in *; lia.
  - Z.to_euclidean_division_equations; lia.
  - unfold SPACECRAFT_ID. Z.to_euclidean_division_equations; lia.
  - Z.to_euclidean_division_equations; lia.
  - rewrite Hg, Z.odd_add, !Z.odd_mul. by destruct (Z.odd (vc_id ctx)).
  - Z.to_euclidean_division_equations; lia.
  - Z.to_euclidean_division_equations; lia.
Qed.

Lemma idle_header_fields n :
  IDLE_MIN_SIZE ≤ n ≤ TM_FRAME_FIXED_SIZE →
  sp_header_of (idle_of n) = idle_header n ∧ sp_pvn (idle_header n) = 0%Z ∧
  apid_value (idle_header n) = as_repr SppIdlePacket ∧ data_field_length (idle_header n) = Z.of_nat (n - SP_HEADER_SIZE).
Proof.
  intros Hn. change IDLE_MIN_SIZE with 7 in Hn. change TM_FRAME_FIXED_SIZE with 1024 in Hn. split_and!.
  - unfold idle_of. rewrite decide_False by lia. apply sp_header_of_enc.
    + split_and!; cbn [packet_identification packet_sequence_control packet_data_length idle_header]; unfold is_u; lia.
    + apply Forall_replicate. unfold is_byte, DATA_PATTERN. lia.
  - done.
  - done.
  - unfold data_field_length, idle_header. cbn [packet_data_length]. unfold IDLE_MIN_SIZE, SP_HEADER_SIZE. lia.
Qed.

(** The first [length x] bytes, and those after them, of a concatenation. *)
Lemma slice_middle {X} (x y z : list X) : slice (length x) (length y) (x ++ y ++ z) = y.
Proof. unfold slice. by rewrite drop_app_length, take_app_length. Qed.

(** A TM transfer frame decodes to what was framed: it is 1024 bytes, its
    header reads back version 0, this spacecraft, the virtual channel, both
    counts, segment length id 3 and the first header pointer; the payload
    follows the header; the rest of the data field is one idle space packet
    that fills it exactly; the last two bytes are the CRC-16 of all before. *)
Theorem tm_frame_decodes (ctx : FrameContext) (mc vc : Z) (p : list Z) :
  Forall is_byte p → tm_payload_ok (length p) → (0 ≤ vc_id ctx < 8)%Z →
  (0 ≤ first_header_pointer ctx ≤ 0x7FF)%Z → is_u 8 mc → is_u 8 vc →
  let w := tm_frame ctx mc vc p in
  let idle := slice (6 + length p) (1016 - length p) w in
  length w = 1024 ∧
  (∃ h b, TMHeader_deserialize_from Big (SerBuf w 1024 0) = (SOk h, b) ∧ tm_frame_version h = 0%Z ∧
     tm_spacecraft_id h = 0x44%Z ∧ tm_vc_id h = vc_id ctx ∧ tm_ocf_flag h = false ∧
     master_frame_count h = mc ∧ virtual_frame_count h = vc ∧ tm_segment_length_id h = 3%Z ∧
     tm_first_header_pointer h = first_header_pointer ctx) ∧
  slice 6 (length p) w = p ∧
  (length p ≠ 1016 → sp_pvn (sp_header_of idle) = 0%Z ∧ apid_value (sp_header_of idle) = 0x7FF%Z ∧
     data_field_length (sp_header_of idle) = Z.of_nat (length idle - 6)) ∧
  be_value (slice 1022 2 w) = Crc16_compute (take 1022 w).
Proof.
  intros Hp Hok Hv Hf Hmc Hvc w idle. set (h := tm_header_for ctx mc vc).
  destruct (tm_header_fields ctx mc vc Hv Hf Hmc Hvc) as (Hwf & Hfields). fold h in Hwf, Hfields.
  pose proof (length_tm_head ctx mc vc p Hok) as Hlt. change TRAILER_OFFSET with 1022 in Hlt.
  pose proof (tm_head_bytes ctx mc vc p Hp) as Hhb. set (crc := Crc16_compute (tm_head ctx mc vc p)).
  assert (w = TMHeader_enc Big h ++ p ++ idle_of (1016 - length p) ++ be_bytes 2 crc) as Ew.
  { unfold w, tm_frame, tm_head. fold crc h. change TM_PAYLOAD_CAPACITY with 1016. by rewrite <- !app_assoc. }
  pose proof (length_tm_enc h) as Hle. change TM_HEADER_SIZE with 6 in Hle.
  assert (length (idle_of (1016 - length p)) = 1016 - length p) as Hli.
  { apply length_idle_of. change IDLE_MIN_SIZE with 7. unfold tm_payload_ok in Hok. lia. }
  assert (length w = 1024) as Hlw.
  { rewrite Ew, !length_app, Hle, Hli, length_be_bytes. unfold tm_payload_ok in Hok. lia. }
  assert (Forall is_byte w) as Hwb by (apply Forall_app; split; [done|apply be_bytes_is_byte]).
  split; [done|]. split; [|split; [|split]].
  - exists h. eexists. split; [|by destruct Hfields as (? & ? & ? & ? & ? & ?)].
    assert (wf (SerBuf w 1024 0)) as Hwfb.
    { split_and!; cbn [deser_loc ser_loc Serial.data]; [lia|unfold capacity; cbn [Serial.data]; lia|done]. }
    apply (c_deser_ok TMHeader_codec h Big Hwf (SerBuf w 1024 0)
      (p ++ idle_of (1016 - length p) ++ be_bytes 2 crc) Hwfb).
    unfold remaining_slice, as_slice. cbn [deser_loc ser_loc Serial.data]. rewrite drop_0, take_ge by lia. exact Ew.
  - rewrite Ew, <- Hle. apply slice_middle.
  - intros Hne. assert (idle = idle_of (1016 - length p)) as ->.
    { unfold idle. rewrite Ew, app_assoc. rewrite <- Hle, <- length_app. rewrite <- Hli at 1. apply slice_middle. }
    destruct (idle_header_fields (1016 - length p)) as (-> & -> & -> & ->).
    { change IDLE_MIN_SIZE with 7. change TM_FRAME_FIXED_SIZE with 1024. unfold tm_payload_ok in Hok. lia. }
    by rewrite Hli.
  - unfold w, tm_frame. fold crc. rewrite take_app_length' by done.
    rewrite <- Hlt. rewrite <- (app_nil_r (be_bytes 2 crc)). change 2 with (length (be_bytes 2 crc)) at 1.
    rewrite slice_middle, be_value_be_bytes. apply Z.mod_small. by apply (compute16_range _ Hhb).
Qed.

Lemma tm_frame_decodes_witness :
  let w := tm_frame FrameContext_default 7 7 [1; 2; 3]%Z in
  let idle := slice (6 + 3) (1016 - 3) w in
  length w = 1024 ∧
  (∃ h b, TMHeader_deserialize_from Big (SerBuf w 1024 0) = (SOk h, b) ∧ tm_frame_version h = 0%Z ∧
     tm_spacecraft_id h = 0x44%Z ∧ tm_vc_id h = 1%Z ∧ tm_ocf_flag h = false ∧
     master_frame_count h = 7%Z ∧ virtual_frame_count h = 7%Z ∧ tm_segment_length_id h = 3%Z ∧
     tm_first_header_pointer h = 0%Z) ∧
  slice 6 3 w = [1; 2; 3]%Z ∧
  (3 ≠ 1016 → sp_pvn (sp_header_of idle) = 0%Z ∧ apid_value (sp_header_of idle) = 0x7FF%Z ∧
     data_field_length (sp_header_of idle) = Z.of_nat (length idle - 6)) ∧
  be_value (slice 1022 2 w) = Crc16_compute (take 1022 w).
Proof.
  apply (tm_frame_decodes FrameContext_default 7 7 [1; 2; 3]%Z);
    [fp_decide|right; cbn; lia|cbn; lia|cbn; lia|fp_decide|fp_decide].
Defined.
