(* ===== verification/FrameAccumulator.v ===== *)
(** The frame accumulator [Svc::FrameAccumulator] and the F Prime frame
    detector, [crates/fprime-svc/src/frame_accumulator.rs]: byte chunks are
    appended to a ring from which a pluggable detector extracts frames.

    The detector is an interface ([FrameDetector], [FrameDetectorLaws]) the
    accumulator is proved against; the buffer allocator is the parameter of
    [Comp]. *)

From S2P Require Import Prelude Serial Fpp CircularBuffer Crc32 Buffer Comp Framing.

(** * Detectors *)

Inductive DetectorStatus : Set :=
| FrameDetected (size : nat)
| NoFrameDetected
| MoreDataNeeded (size : nat).
#[export] Instance DetectorStatus_eq_dec : EqDecision DetectorStatus.
Proof. solve_decision. Defined.

(** The trait [FrameDetector]. *)
Class FrameDetector (D : Type) : Type := detect : D → CircularBuffer → outcome DetectorStatus.

(** What the accumulator does on a status, given the ring's capacity. *)
Inductive action : Set := Deliver (n : nat) | Skip | Wait_more.

Definition verdict (cap : nat) (st : DetectorStatus) : action :=
  match st with
  | FrameDetected n => if decide (cap < n) then Skip else Deliver n
  | NoFrameDetected => Skip
  | MoreDataNeeded n => if decide (cap < n) then Skip else Wait_more
  end.

(** A detector looks only at the content and the capacity, reports sizes the
    accumulator can act on, and does not change its mind when more bytes
    arrive. *)
Class FrameDetectorLaws (D : Type) `{FrameDetector D} : Type := {
  detect_bytes : D → nat → list Z → DetectorStatus;
  detect_ok : ∀ d r, ring_wf r → detect d r = Ret (detect_bytes d (length (store r)) (contents r));
  detect_frame : ∀ d cap l n, detect_bytes d cap l = FrameDetected n → 0 < n ≤ length l;
  detect_more : ∀ d cap l n, detect_bytes d cap l = MoreDataNeeded n → length l < n;
  detect_stable : ∀ d cap l c, Forall is_byte (l ++ c) →
    verdict cap (detect_bytes d cap l) ≠ Wait_more →
    verdict cap (detect_bytes d cap (l ++ c)) = verdict cap (detect_bytes d cap l);
}.

(** ** [FprimeFrameDetector] *)

Inductive FprimeFrameDetector : Set := FprimeFrameDetector_new.

(** The byte-by-byte hash of the first [n] bytes of the ring. *)
Fixpoint ring_hash `{BuildProfile} (n i : nat) (h : Hash) (r : CircularBuffer) : outcome Hash :=
  match n with
  | O => Ret h
  | S n' =>
      v ← peek_u8 i r;
      match v with
      | inr byte => ring_hash n' (S i) (Hash_update [byte] h) r
      | inl _ => Panic
      end
  end.

Definition fprime_detect `{BuildProfile} (d : FprimeFrameDetector) (r : CircularBuffer) : outcome DetectorStatus :=
  let available := get_allocated_size r in
  if bool_decide (available < MIN_FRAME_SIZE) then Ret (MoreDataNeeded MIN_FRAME_SIZE)
  else
    sw ← peek_u32_be 0 r;
    match sw with
    | inl _ => Ret NoFrameDetected
    | inr start_word =>
        if negb (bool_decide (start_word = START_WORD)) then Ret NoFrameDetected
        else
          lf ← peek_u32_be 4 r;
          match lf with
          | inl _ => Ret NoFrameDetected
          | inr length_field =>
              let len := Z.to_nat length_field in
              let expected := len + MIN_FRAME_SIZE in
              if bool_decide (get_capacity r < expected) then Ret NoFrameDetected
              else if bool_decide (available < expected) then Ret (MoreDataNeeded expected)
              else
                tc ← peek_u32_be (HEADER_SIZE + len) r;
                match tc with
                | inl _ => Ret NoFrameDetected
                | inr transmitted_crc =>
                    h ← ring_hash (HEADER_SIZE + len) 0 (Hash_init Hash_new) r;
                    if negb (bool_decide (transmitted_crc = finalize h)) then Ret NoFrameDetected
                    else Ret (FrameDetected expected)
                end
          end
    end.
#[export] Instance FprimeFrameDetector_detector `{BuildProfile} : FrameDetector FprimeFrameDetector := fprime_detect.

(** * The accumulator *)

Inductive AccOut : Set :=
| AccNoBufferAvailable
| AccFrameDetectionSizeError (size_out : nat)
| AccFrameDetectionValidFrameDropped
| AccDataOut (b : Buffer) (ctx : FrameContext)
| AccDataReturnOut (b : Buffer) (ctx : FrameContext)
| AccBufferDeallocate (b : Buffer).

Record AccumulatorState (D A : Type) : Type := MkAcc {
  ring : option CircularBuffer;
  detector : option D;
  acc_allocator : A;
}.
Arguments MkAcc {D A} _ _ _.
Arguments ring {D A} _.
Arguments detector {D A} _.
Arguments acc_allocator {D A} _.

Section accumulator.
Context `{BuildProfile} `{FrameDetector D} `{Allocator A}.
Abbreviation M := (CompM (AccumulatorState D A) AccOut).

Definition FrameAccumulator_new (a : A) : AccumulatorState D A := MkAcc None None a.

(** [configure(detector, store_size)]. *)
Definition configure (d : D) (store_size : nat) (s : AccumulatorState D A)
    : outcome (AccumulatorState D A) :=
  r ← ring_new store_size; Ret (MkAcc (Some r) (Some d) (acc_allocator s)).

(** [.expect("configure() must be called")]. *)
Definition get_ring : M CircularBuffer :=
  s ← get_state; lift (match ring s with Some r => Ret r | None => Panic end).
Definition get_detector : M D :=
  s ← get_state; lift (match detector s with Some d => Ret d | None => Panic end).
Definition put_ring (r : CircularBuffer) : M unit :=
  modify_state (λ s, MkAcc (Some r) (detector s) (acc_allocator s)).
Definition acc_allocate (n : nat) : M Buffer := λ s,
  let '(b, a) := alloc_get n (acc_allocator s) in Ret (b, MkAcc (ring s) (detector s) a, []).

(** [ring.rotate(n)] and the size check after it. *)
Definition rotate_checked (n remaining : nat) (must : bool) : M unit :=
  r ← get_ring;
  '(st, r') ← lift (rotate n r);
  _ ← assert (negb must || bool_decide (st = StOk));
  _ ← put_ring r';
  assert (bool_decide (get_allocated_size r' = remaining - n)).

(** A detected frame: copied out, or reported and, with a full ring, dropped.
    The result tells whether the loop goes on. *)
Definition extract_frame (n remaining : nat) (ctx : FrameContext) : M bool :=
  _ ← assert (bool_decide (n ≠ 0));
  _ ← assert (bool_decide (n ≤ remaining));
  buffer ← acc_allocate n;
  if is_valid buffer then
    _ ← assert (bool_decide (n ≤ size buffer));
    r ← get_ring;
    p ← lift (peek_bytes n 0 r);
    bytes ← lift (match p with inr bs => Ret bs | inl _ => Panic end);
    b1 ← lift (data_write 0 bytes buffer);
    b2 ← lift (set_size n b1);
    _ ← rotate_checked n remaining true;
    _ ← emit (AccDataOut b2 ctx);
    mret true
  else
    _ ← emit AccNoBufferAvailable;
    r ← get_ring;
    free ← lift (get_free_size r);
    _ ← when (bool_decide (free = 0))
          (_ ← rotate_checked n remaining true; emit AccFrameDetectionValidFrameDropped);
    mret false.

(** The loop of [process_ring]; at most [ring_capacity] rounds. *)
Fixpoint process_ring_loop (fuel : nat) (ctx : FrameContext) : M unit :=
  match fuel with
  | O => mret tt
  | S fuel' =>
      r ← get_ring;
      let remaining := get_allocated_size r in
      if bool_decide (remaining = 0) then mret tt
      else
        d ← get_detector;
        status ← lift (detect d r);
        let size_out := match status with
                        | FrameDetected n | MoreDataNeeded n => n
                        | NoFrameDetected => 0
                        end in
        if bool_decide (get_capacity r < size_out) then
          _ ← emit (AccFrameDetectionSizeError size_out);
          _ ← rotate_checked 1 remaining false;
          process_ring_loop fuel' ctx
        else
          match status with
          | FrameDetected n =>
              go ← extract_frame n remaining ctx;
              if go : bool then process_ring_loop fuel' ctx else mret tt
          | MoreDataNeeded n => assert (bool_decide (remaining < n))
          | NoFrameDetected =>
              _ ← rotate_checked 1 remaining false;
              process_ring_loop fuel' ctx
          end
  end.

Definition process_ring (ctx : FrameContext) : M unit :=
  _ ← get_detector;
  r ← get_ring;
  process_ring_loop (get_capacity r) ctx.

(** The loop of [process_buffer]: the bytes left when it ends. *)
Fixpoint process_buffer_loop (fuel : nat) (data : list Z) (offset remaining : nat)
    (ctx : FrameContext) : M nat :=
  match fuel with
  | O => mret remaining
  | S fuel' =>
      r ← get_ring;
      ring_free ← lift (get_free_size r);
      if bool_decide (remaining = 0) || bool_decide (ring_free = 0) then mret remaining
      else
        let ser_size := ring_free `min` remaining in
        chunk ← lift (copy_from offset ser_size data);
        '(st, r') ← lift (ring_serialize chunk r);
        _ ← assert (bool_decide (st = StOk));
        _ ← put_ring r';
        _ ← process_ring ctx;
        process_buffer_loop fuel' data (offset + ser_size) (remaining - ser_size) ctx
  end.

Definition process_buffer (data : list Z) (ctx : FrameContext) : M unit :=
  remaining ← process_buffer_loop (length data) data 0 (length data) ctx;
  r ← get_ring;
  free ← lift (get_free_size r);
  assert (bool_decide (remaining = 0) || bool_decide (free = 0)).

(** [data_in_handler] and [data_return_in_handler]. *)
Definition acc_data_in (buffer : Buffer) (ctx : FrameContext) : M unit :=
  _ ← (if is_valid buffer then d ← lift (buffer_data buffer); process_buffer d ctx else mret tt);
  emit (AccDataReturnOut buffer ctx).
Definition acc_data_return_in (b : Buffer) : M unit := emit (AccBufferDeallocate b).
End accumulator.

(** * The F Prime detector meets the laws *)

Definition fprime_detect_bytes (d : FprimeFrameDetector) (cap : nat) (l : list Z) : DetectorStatus :=
  if decide (length l < MIN_FRAME_SIZE) then MoreDataNeeded MIN_FRAME_SIZE
  else if decide (be_value (slice 0 4 l) ≠ START_WORD) then NoFrameDetected
  else
    let len := Z.to_nat (be_value (slice 4 4 l)) in
    if decide (cap < len + MIN_FRAME_SIZE) then NoFrameDetected
    else if decide (length l < len + MIN_FRAME_SIZE) then MoreDataNeeded (len + MIN_FRAME_SIZE)
    else if decide (be_value (slice (HEADER_SIZE + len) 4 l) = hash_u32 (slice 0 (HEADER_SIZE + len) l))
    then FrameDetected (len + MIN_FRAME_SIZE) else NoFrameDetected.

Lemma ring_hash_ok `{BuildProfile} r n i h :
  ring_wf r → i + n ≤ allocated_size r →
  ring_hash n i h r = Ret (Hash_update (slice i n (contents r)) h).
Proof.
  intros Hr. revert i h. induction n as [|n IH]; intros i h Hn.
  { by destruct h. }
  cbn [ring_hash]. destruct (peek_u8_ok r i Hr ltac:(lia)) as (x & Hx & ->).
  rewrite outcome_bind_ret, IH by lia. f_equal.
  assert (slice i (S n) (contents r) = x :: slice (S i) n (contents r)) as ->; [|done].
  unfold slice. by rewrite (drop_S _ _ _ Hx).
Qed.

Lemma fprime_detect_ok `{BuildProfile} d r :
  ring_wf r → fprime_detect d r = Ret (fprime_detect_bytes d (length (store r)) (contents r)).
Proof.
  intros Hr. unfold fprime_detect, fprime_detect_bytes, get_allocated_size, get_capacity.
  rewrite length_contents. pose proof (contents_bytes r Hr) as Hb.
  case_bool_decide as Hmin; [by rewrite decide_True|rewrite decide_False by done].
  unfold MIN_FRAME_SIZE, HEADER_SIZE, TRAILER_SIZE in *.
  rewrite (peek_u32_be_ok r 0), outcome_bind_ret by (done || lia).
  case_bool_decide as Hsw; cbn [negb]; [rewrite decide_False by tauto|by rewrite decide_True].
  rewrite (peek_u32_be_ok r 4), outcome_bind_ret by (done || lia).
  set (len := Z.to_nat _). cbv zeta.
  case_bool_decide as Hcap; [by rewrite decide_True|rewrite decide_False by done].
  case_bool_decide as Hav; [by rewrite decide_True|rewrite decide_False by done].
  rewrite peek_u32_be_ok, outcome_bind_ret by (done || lia).
  rewrite ring_hash_ok, outcome_bind_ret by (done || lia).
  change (finalize (Hash_update ?x (Hash_init Hash_new))) with (hash_u32 x).
  case_bool_decide as Hc; cbn [negb]; [by rewrite decide_True|by rewrite decide_False].
Qed.

Lemma slice_app_prefix {X} off n (l c : list X) :
  off + n ≤ length l → slice off n (l ++ c) = slice off n l.
Proof.
  intros. unfold slice. rewrite drop_app_le, take_app_le by (rewrite ?length_drop; lia). done.
Qed.

#[export] Instance FprimeFrameDetector_laws `{BuildProfile} : FrameDetectorLaws FprimeFrameDetector.
Proof.
  refine {| detect_bytes := fprime_detect_bytes; detect_ok := fprime_detect_ok |}.
  - intros d cap l n. unfold fprime_detect_bytes. repeat case_decide; try done.
    intros [= <-]. unfold MIN_FRAME_SIZE, HEADER_SIZE, TRAILER_SIZE in *. lia.
  - intros d cap l n. unfold fprime_detect_bytes. repeat case_decide; try done; by intros [= <-].
  - intros d cap l c Hb. unfold fprime_detect_bytes.
    unfold MIN_FRAME_SIZE, HEADER_SIZE, TRAILER_SIZE. rewrite length_app.
    destruct (decide (length l < 8 + 4)) as [Hs|Hs].
    { cbn [verdict]. destruct (decide (cap < 8 + 4)) as [Hc|Hc]; [|done]. intros _.
      case_decide; [cbn [verdict]; by rewrite decide_True|]. case_decide; [done|].
      rewrite decide_True by lia. done. }
    rewrite (decide_False (P := length l + length c < 8 + 4)) by lia.
    rewrite !slice_app_prefix by lia. case_decide; [done|]. case_decide; [done|].
    set (len := Z.to_nat _) in *.
    destruct (decide (length l < len + (8 + 4))) as [Hl|Hl].
    { cbn [verdict]. by rewrite decide_False by lia. }
    rewrite (decide_False (P := length l + length c < _)) by lia. rewrite !slice_app_prefix by lia. done.
Defined.

(** * What a run over the ring delivers *)

Section scans.
Context `{FrameDetectorLaws D} (d : D) (cap : nat).

(** Frames extracted from the byte sequence [l], and what is left. *)
Inductive scans : list Z → list (list Z) → list Z → Prop :=
| scans_stop l : l = [] ∨ verdict cap (detect_bytes d cap l) = Wait_more → scans l [] l
| scans_skip l fs rest :
    l ≠ [] → verdict cap (detect_bytes d cap l) = Skip → scans (drop 1 l) fs rest → scans l fs rest
| scans_deliver l n fs rest :
    l ≠ [] → verdict cap (detect_bytes d cap l) = Deliver n → scans (drop n l) fs rest →
    scans l (take n l :: fs) rest.

Lemma verdict_deliver l n :
  verdict cap (detect_bytes d cap l) = Deliver n → detect_bytes d cap l = FrameDetected n ∧ 0 < n ≤ length l ∧ n ≤ cap.
Proof.
  destruct (detect_bytes d cap l) as [m| |m] eqn:E; cbn; [|done|by case_decide].
  case_decide; [done|]. intros [= <-]. pose proof (detect_frame _ _ _ _ E). split_and!; [done|lia..].
Qed.

Lemma scans_unique l fs rest fs' rest' :
  scans l fs rest → scans l fs' rest' → fs = fs' ∧ rest = rest'.
Proof.
  intros H1. revert fs' rest'. induction H1 as [l Hl|l fs rest Hne Hv _ IH|l n fs rest Hne Hv _ IH];
    intros fs' rest' H2; inversion H2 as [? Hl'|? ? ? ? Hv'|? ? ? ? ? Hv']; subst.
  all: try done.
  all: try (destruct Hl as [->|Hl]; [done|congruence]).
  all: try (destruct Hl' as [->|Hl']; [done|congruence]).
  all: try congruence.
  - by apply IH.
  - rewrite Hv in Hv'. injection Hv' as <-. destruct (IH fs0 rest') as [-> ->]; done.
Qed.

(** More bytes may arrive later: scanning in pieces is scanning at once. *)
Lemma scans_app l fs rest c fs' rest' :
  scans l fs rest → Forall is_byte (l ++ c) → scans (rest ++ c) fs' rest' → scans (l ++ c) (fs ++ fs') rest'.
Proof.
  intros H1. induction H1 as [l Hl|l fs rest Hne Hv _ IH|l n fs rest Hne Hv _ IH]; intros Hb H2; [done|..].
  - assert (verdict cap (detect_bytes d cap (l ++ c)) = Skip) as Hv'.
    { rewrite detect_stable; [done|done|by rewrite Hv]. }
    apply scans_skip; [by destruct l|done|].
    rewrite drop_app_le by (destruct l; cbn; [done|lia]). apply IH; [|done].
    apply Forall_app in Hb as [? ?]. apply Forall_app. split; [by apply Forall_drop|done].
  - pose proof (verdict_deliver l n Hv) as (_ & Hn & _).
    assert (verdict cap (detect_bytes d cap (l ++ c)) = Deliver n) as Hv'.
    { rewrite detect_stable; [done|done|by rewrite Hv]. }
    rewrite <- app_comm_cons. rewrite <- (take_app_le l c) by lia.
    apply scans_deliver; [by destruct l|done|]. rewrite drop_app_le by lia. apply IH; [|done].
    apply Forall_app in Hb as [? ?]. apply Forall_app. split; [by apply Forall_drop|done].
Qed.
End scans.

(** * The accumulator follows its detector *)

Section accumulator_facts.
Context `{BuildProfile} `{FrameDetectorLaws D} `{AllocatorLaws A}.

(** The allocator was out of buffers. *)
Definition allocation_failed : Prop :=
  ∃ (n : nat) (a : A), 0 < n ∧ is_valid (alloc_get n a).1 = false.

(** One pass over the ring: content before, outputs, content after. *)
Inductive scanning (d : D) (cap : nat) (ctx : FrameContext) : list Z → list AccOut → list Z → Prop :=
| scanning_stop l :
    l = [] ∨ verdict cap (detect_bytes d cap l) = Wait_more → scanning d cap ctx l [] l
| scanning_skip l outs rest :
    l ≠ [] → verdict cap (detect_bytes d cap l) = Skip → detect_bytes d cap l = NoFrameDetected →
    scanning d cap ctx (drop 1 l) outs rest → scanning d cap ctx l outs rest
| scanning_too_large l n outs rest :
    l ≠ [] → verdict cap (detect_bytes d cap l) = Skip → cap < n →
    scanning d cap ctx (drop 1 l) outs rest →
    scanning d cap ctx l (AccFrameDetectionSizeError n :: outs) rest
| scanning_deliver l n b outs rest :
    l ≠ [] → verdict cap (detect_bytes d cap l) = Deliver n → buffer_ok b → window b = take n l →
    scanning d cap ctx (drop n l) outs rest → scanning d cap ctx l (AccDataOut b ctx :: outs) rest
| scanning_kept l n :
    l ≠ [] → verdict cap (detect_bytes d cap l) = Deliver n → allocation_failed → length l < cap →
    scanning d cap ctx l [AccNoBufferAvailable] l
| scanning_dropped l n :
    l ≠ [] → verdict cap (detect_bytes d cap l) = Deliver n → allocation_failed → length l = cap →
    scanning d cap ctx l [AccNoBufferAvailable; AccFrameDetectionValidFrameDropped] (drop n l).

Definition acc_ok (s : AccumulatorState D A) (d : D) (r : CircularBuffer) : Prop :=
  ring s = Some r ∧ detector s = Some d ∧ ring_wf r.

Lemma get_ring_ok s d r : acc_ok s d r → get_ring s = Ret (r, s, []).
Proof. intros (E & _). unfold get_ring. unfold mbind, CompM_bind. cbn. by rewrite E. Qed.
Lemma get_detector_ok s d r : acc_ok s d r → get_detector s = Ret (d, s, []).
Proof. intros (_ & E & _). unfold get_detector. unfold mbind, CompM_bind. cbn. by rewrite E. Qed.

Lemma rotate_checked_ok s d r n must :
  acc_ok s d r → n ≤ allocated_size r →
  ∃ s' r', rotate_checked n (allocated_size r) must s = Ret (tt, s', []) ∧ acc_ok s' d r' ∧
    contents r' = drop n (contents r) ∧ store r' = store r ∧ allocated_size r' = allocated_size r - n.
Proof.
  intros Hs Hn. pose proof Hs as (Er & Ed & Hr).
  destruct (rotate_ok r n Hr Hn) as (r' & E & Hr' & Hc & Hst & Ha & _).
  exists (MkAcc (Some r') (detector s) (acc_allocator s)), r'. unfold rotate_checked.
  rewrite (comp_bind_quiet _ _ _ _ _ (get_ring_ok s d r Hs)), (comp_lift_ok _ _ _ _ E).
  rewrite comp_assert_ok by (by rewrite bool_decide_eq_true_2, orb_true_r).
  erewrite comp_bind_quiet; [|reflexivity]. unfold assert, get_allocated_size.
  rewrite bool_decide_eq_true_2 by done. split_and!; try done.
Qed.

Lemma extract_frame_valid s d r n ctx :
  acc_ok s d r → 0 < n ≤ allocated_size r → is_valid (alloc_get n (acc_allocator s)).1 = true →
  ∃ s' r' b, extract_frame n (allocated_size r) ctx s = Ret (true, s', [AccDataOut b ctx]) ∧
    acc_ok s' d r' ∧ contents r' = drop n (contents r) ∧ store r' = store r ∧
    allocated_size r' = allocated_size r - n ∧ buffer_ok b ∧ window b = take n (contents r).
Proof.
  intros Hs Hn Hv. pose proof Hs as (Er & Ed & Hr). unfold extract_frame.
  rewrite !comp_assert_ok by (apply bool_decide_eq_true_2; lia).
  set (buf := (alloc_get n (acc_allocator s)).1) in *.
  set (s1 := MkAcc (ring s) (detector s) (alloc_get n (acc_allocator s)).2).
  assert (acc_allocate n s = Ret (buf, s1, [])) as Ea.
  { unfold acc_allocate, buf, s1. by destruct (alloc_get n (acc_allocator s)). }
  assert (acc_ok s1 d r) as Hs1 by done.
  rewrite (comp_bind_quiet _ _ _ _ _ Ea), Hv.
  pose proof (alloc_ok n (acc_allocator s)) as Hbuf. fold buf in Hbuf.
  pose proof (alloc_size n (acc_allocator s) Hv) as Hsz. fold buf in Hsz.
  rewrite comp_assert_ok by (by apply bool_decide_eq_true_2).
  rewrite (comp_bind_quiet _ _ _ _ _ (get_ring_ok s1 d r Hs1)).
  rewrite (comp_lift_ok _ _ _ _ (peek_bytes_ok r n 0 Hr ltac:(lia))).
  assert (length (slice 0 n (contents r)) = n) as Hlen by (apply length_slice; rewrite length_contents; lia).
  rewrite (comp_lift_ok _ _ _ _ eq_refl).
  destruct (data_write_ok 0 (slice 0 n (contents r)) buf Hbuf) as (b1 & E1 & Hok1 & Hs1' & _ & _ & _ & Hw1);
    [by apply Forall_slice, contents_bytes|lia|]. rewrite (comp_lift_ok _ _ _ _ E1).
  assert (set_size n b1 = Ret (set_window (offset b1) n b1)) as E2.
  { unfold set_size, Buffer_capacity. destruct Hok1. by rewrite bool_decide_eq_true_2 by lia. }
  rewrite (comp_lift_ok _ _ _ _ E2).
  destruct (rotate_checked_ok s1 d r n true Hs1 ltac:(lia)) as (s2 & r2 & E3 & Hs2 & Hc2 & Hst2 & Ha2).
  rewrite (comp_bind_quiet _ _ _ _ _ E3).
  exists s2, r2, (set_window (offset b1) n b1). split_and!; try done.
  - split; cbn [offset size storage set_window]; [destruct Hok1; lia|apply Hok1].
  - unfold window. cbn [offset size storage set_window].
    replace (slice (offset b1) n (storage b1)) with (take n (window b1)).
    2: { unfold window, slice. rewrite take_take. f_equal. lia. }
    rewrite Hw1. rewrite <- Hlen at 1. rewrite (take_splice 0 (slice 0 n (contents r))) by lia. cbn [take app].
    unfold slice. by rewrite drop_0.
Qed.

Lemma extract_frame_invalid s d r n ctx :
  acc_ok s d r → 0 < n ≤ allocated_size r → is_valid (alloc_get n (acc_allocator s)).1 = false →
  ∃ s' r', acc_ok s' d r' ∧ store r' = store r ∧
    if decide (allocated_size r = length (store r)) then
      extract_frame n (allocated_size r) ctx s
        = Ret (false, s', [AccNoBufferAvailable; AccFrameDetectionValidFrameDropped]) ∧
      contents r' = drop n (contents r)
    else extract_frame n (allocated_size r) ctx s = Ret (false, s', [AccNoBufferAvailable]) ∧
         contents r' = contents r.
Proof.
  intros Hs Hn Hv. pose proof Hs as (Er & Ed & Hr). unfold extract_frame.
  rewrite !comp_assert_ok by (apply bool_decide_eq_true_2; lia).
  set (s1 := MkAcc (ring s) (detector s) (alloc_get n (acc_allocator s)).2).
  assert (acc_allocate n s = Ret ((alloc_get n (acc_allocator s)).1, s1, [])) as Ea.
  { unfold acc_allocate, s1. by destruct (alloc_get n (acc_allocator s)). }
  assert (acc_ok s1 d r) as Hs1 by done.
  rewrite (comp_bind_quiet _ _ _ _ _ Ea), Hv, comp_emit.
  rewrite (comp_bind_quiet _ _ _ _ _ (get_ring_ok s1 d r Hs1)).
  rewrite (comp_lift_ok _ _ _ _ (get_free_size_ok r Hr)).
  pose proof Hr as (_ & _ & Hle & _). case_decide as Hfull.
  - rewrite bool_decide_eq_true_2 by lia. cbn [when].
    destruct (rotate_checked_ok s1 d r n true Hs1 ltac:(lia)) as (s2 & r2 & E & Hs2 & Hc & Hst & _).
    exists s2, r2. split; [done|]. split; [done|]. split; [|done].
    erewrite comp_bind_ret; [|by rewrite (comp_bind_quiet _ _ _ _ _ E)]. done.
  - rewrite bool_decide_eq_false_2 by lia. exists s1, r. done.
Qed.

Lemma process_ring_loop_ok fuel ctx s d r :
  acc_ok s d r → allocated_size r ≤ fuel →
  ∃ s' r' outs, process_ring_loop fuel ctx s = Ret (tt, s', outs) ∧ acc_ok s' d r' ∧
    length (store r') = length (store r) ∧
    scanning d (length (store r)) ctx (contents r) outs (contents r') ∧
    allocated_size r' < length (store r').
Proof.
  revert s r. induction fuel as [|fuel IH]; intros s r Hs Hf; pose proof Hs as (Er & Ed & Hr);
    pose proof Hr as (Hpos & _ & Hle & _); pose proof (length_contents r) as Hlc.
  { exists s, r, []. assert (contents r = []) as -> by (apply nil_length_inv; lia).
    split_and!; try done; [by apply scanning_stop; left|lia]. }
  cbn [process_ring_loop]. rewrite (comp_bind_quiet _ _ _ _ _ (get_ring_ok s d r Hs)).
  unfold get_allocated_size, get_capacity. case_bool_decide as Hz0.
  { exists s, r, []. assert (contents r = []) as -> by (apply nil_length_inv; lia).
    split_and!; try done; [by apply scanning_stop; left|lia]. }
  assert (contents r ≠ []) as Hne by (intros E; rewrite E in Hlc; cbn in Hlc; lia).
  rewrite (comp_bind_quiet _ _ _ _ _ (get_detector_ok s d r Hs)), (comp_lift_ok _ _ _ _ (detect_ok d r Hr)).
  set (l := contents r) in *. set (cap := length (store r)) in *.
  destruct (rotate_checked_ok s d r 1 false Hs ltac:(lia)) as (s1 & r1 & E1 & Hs1 & Hc1 & Hst1 & Ha1).
  destruct (IH s1 r1 Hs1 ltac:(lia)) as (s2 & r2 & outs & E2 & Hs2 & Hl2 & Hsc & Hlt).
  rewrite Hst1, Hc1 in Hsc. rewrite Hst1 in Hl2. fold cap in Hsc, Hl2. fold l in Hsc.
  assert (∀ n, verdict cap (detect_bytes d cap l) = Skip → cap < n →
    ∃ s' r' outs', (_ ← emit (AccFrameDetectionSizeError n); _ ← rotate_checked 1 (allocated_size r) false;
      process_ring_loop fuel ctx) s = Ret (tt, s', outs') ∧ acc_ok s' d r' ∧ length (store r') = cap ∧
      scanning d cap ctx l outs' (contents r') ∧ allocated_size r' < length (store r')) as Hbig.
  { intros n Hv Hn. exists s2, r2, (AccFrameDetectionSizeError n :: outs).
    rewrite comp_emit, (comp_bind_quiet _ _ _ _ _ E1), E2. split_and!; try done.
    by apply (scanning_too_large d cap ctx l n). }
  destruct (detect_bytes d cap l) as [n| |n] eqn:Edet.
  - case_bool_decide as Hcap.
    { apply Hbig; [|done]. cbn. by rewrite decide_True. }
    assert (verdict cap (detect_bytes d cap l) = Deliver n) as Hv
      by (rewrite Edet; cbn; by rewrite decide_False).
    pose proof (detect_frame _ _ _ _ Edet) as Hn. rewrite Hlc in Hn.
    destruct (is_valid (alloc_get n (acc_allocator s)).1) eqn:Eval.
    + destruct (extract_frame_valid s d r n ctx Hs Hn Eval)
        as (s3 & r3 & b & E3 & Hs3 & Hc3 & Hst3 & Ha3 & Hb & Hw).
      destruct (IH s3 r3 Hs3 ltac:(lia)) as (s4 & r4 & outs4 & E4 & Hs4 & Hl4 & Hsc4 & Hlt4).
      rewrite Hst3, Hc3 in Hsc4. rewrite Hst3 in Hl4.
      exists s4, r4, (AccDataOut b ctx :: outs4). rewrite (comp_bind_ret _ _ _ _ _ _ E3), E4.
      split_and!; try done. by apply (scanning_deliver d cap ctx l n).
    + assert (allocation_failed) as Haf by (exists n, (acc_allocator s); split; [lia|done]).
      destruct (extract_frame_invalid s d r n ctx Hs Hn Eval) as (s3 & r3 & Hs3 & Hst3 & Hcase).
      assert (length (contents r3) = allocated_size r3) as Hl3 by apply length_contents.
      case_decide as Hfull; destruct Hcase as [E3 Hc3]; rewrite (comp_bind_ret _ _ _ _ _ _ E3);
        eexists s3, r3, _; (split; [done|]); (split; [done|]); rewrite Hst3, Hc3; (split; [done|]).
      * split; [by apply (scanning_dropped d cap ctx l n); [..|lia]|].
        rewrite Hc3, length_drop, length_contents in Hl3. fold cap. lia.
      * split; [apply (scanning_kept d cap ctx l n); [done..|lia]|].
        rewrite Hc3, length_contents in Hl3. fold cap. lia.
  - rewrite bool_decide_eq_false_2 by lia. exists s2, r2, outs.
    rewrite (comp_bind_quiet _ _ _ _ _ E1), E2. split_and!; try done.
    apply (scanning_skip d cap ctx l); [done| |done|done]. by rewrite Edet.
  - pose proof (detect_more _ _ _ _ Edet) as Hn. case_bool_decide as Hcap.
    { apply Hbig; [|done]. cbn. by rewrite decide_True. }
    exists s, r, []. unfold assert. rewrite bool_decide_eq_true_2 by lia.
    split_and!; try done; [|lia]. apply (scanning_stop d cap ctx l). right. rewrite Edet. cbn. by rewrite decide_False.
Qed.

Lemma process_ring_ok ctx s d r :
  acc_ok s d r →
  ∃ s' r' outs, process_ring ctx s = Ret (tt, s', outs) ∧ acc_ok s' d r' ∧
    length (store r') = length (store r) ∧
    scanning d (length (store r)) ctx (contents r) outs (contents r') ∧
    allocated_size r' < length (store r').
Proof.
  intros Hs. unfold process_ring. rewrite (comp_bind_quiet _ _ _ _ _ (get_detector_ok s d r Hs)).
  rewrite (comp_bind_quiet _ _ _ _ _ (get_ring_ok s d r Hs)).
  apply process_ring_loop_ok; [done|]. destruct Hs as (_ & _ & _ & _ & ? & _). done.
Qed.

(** Feeding bytes in pieces of the free size, with a pass after each. *)
Inductive feeding (d : D) (cap : nat) (ctx : FrameContext) : list Z → list Z → list AccOut → list Z → Prop :=
| feeding_done l : feeding d cap ctx l [] [] l
| feeding_chunk l c bytes outs1 l1 outs2 l2 :
    c ≠ [] → length l + length c ≤ cap → scanning d cap ctx (l ++ c) outs1 l1 →
    feeding d cap ctx l1 bytes outs2 l2 → feeding d cap ctx l (c ++ bytes) (outs1 ++ outs2) l2.

Lemma process_buffer_loop_ok fuel data off ctx s d r :
  acc_ok s d r → allocated_size r < length (store r) → Forall is_byte data →
  off ≤ length data → length data - off ≤ fuel →
  ∃ s' r' outs, process_buffer_loop fuel data off (length data - off) ctx s = Ret (0, s', outs) ∧
    acc_ok s' d r' ∧ length (store r') = length (store r) ∧
    feeding d (length (store r)) ctx (contents r) (drop off data) outs (contents r') ∧
    allocated_size r' < length (store r').
Proof.
  revert off s r. induction fuel as [|fuel IH]; intros off s r Hs Hlt Hb Hoff Hfuel;
    pose proof Hs as (Er & Ed & Hr).
  { exists s, r, []. replace (length data - off) with 0 by lia. rewrite drop_ge by lia.
    split_and!; try done. constructor. }
  cbn [process_buffer_loop]. rewrite (comp_bind_quiet _ _ _ _ _ (get_ring_ok s d r Hs)).
  rewrite (comp_lift_ok _ _ _ _ (get_free_size_ok r Hr)).
  rewrite (bool_decide_eq_false_2 (length (store r) - allocated_size r = 0)) by lia. rewrite orb_false_r.
  case_bool_decide as Hz0.
  { exists s, r, []. rewrite Hz0, drop_ge by lia. split_and!; try done. constructor. }
  set (n := (length (store r) - allocated_size r) `min` (length data - off)).
  assert (0 < n ∧ n ≤ length data - off ∧ allocated_size r + n ≤ length (store r)) as Hn by lia.
  rewrite (comp_lift_ok _ _ _ _ (copy_from_ok off n data ltac:(lia))).
  assert (length (slice off n data) = n) as Hls by (apply length_slice; lia).
  destruct (ring_serialize_ok r (slice off n data) Hr) as (r1 & E1 & Hr1 & Hc1 & Hl1 & _);
    [by apply Forall_slice|lia|]. rewrite (comp_lift_ok _ _ _ _ E1).
  rewrite comp_assert_ok by (by apply bool_decide_eq_true_2).
  set (s1 := MkAcc (Some r1) (detector s) (acc_allocator s)).
  assert (put_ring r1 s = Ret (tt, s1, [])) as Ep by done.
  rewrite (comp_bind_quiet _ _ _ _ _ Ep).
  destruct (process_ring_ok ctx s1 d r1) as (s2 & r2 & outs2 & E2 & Hs2 & Hl2 & Hsc2 & Hlt2); [done|].
  rewrite (comp_bind_ret _ _ _ _ _ _ E2).
  destruct (IH (off + n) s2 r2) as (s3 & r3 & outs3 & E3 & Hs3 & Hl3 & Hfe & Hlt3); [done..|lia|lia|].
  replace (length data - off - n) with (length data - (off + n)) by lia. rewrite E3.
  exists s3, r3, (outs2 ++ outs3). split; [done|]. split; [done|]. split; [congruence|]. split; [|done].
  rewrite Hl1, Hc1 in Hsc2. rewrite Hl2, Hl1 in Hfe.
  assert (drop off data = slice off n data ++ drop (off + n) data) as ->
    by (unfold slice; by rewrite <- drop_drop, take_drop).
  apply feeding_chunk with (l1 := contents r2); [intros E; rewrite E in Hls; cbn in Hls; lia| |done|done].
  rewrite length_contents. lia.
Qed.

(** The handler takes every byte, returns the incoming buffer last and keeps
    room in the ring. *)
Lemma acc_data_in_ok buffer ctx s d r :
  acc_ok s d r → allocated_size r < length (store r) → buffer_ok buffer →
  ∃ s' r' outs, acc_data_in buffer ctx s = Ret (tt, s', outs ++ [AccDataReturnOut buffer ctx]) ∧
    acc_ok s' d r' ∧ length (store r') = length (store r) ∧
    feeding d (length (store r)) ctx (contents r) (window buffer) outs (contents r') ∧
    allocated_size r' < length (store r').
Proof.
  intros Hs Hlt Hb. unfold acc_data_in. destruct (is_valid buffer) eqn:Ev.
  - destruct (process_buffer_loop_ok (length (window buffer)) (window buffer) 0 ctx s d r)
      as (s' & r' & outs & E & Hs' & Hl & Hf & Hlt'); [done|done|by apply window_bytes|lia|lia|].
    rewrite Nat.sub_0_r in E.
    assert (process_buffer (window buffer) ctx s = Ret (tt, s', outs)) as Ep.
    { unfold process_buffer. rewrite (comp_bind_ret _ _ _ _ _ _ E).
      rewrite (comp_bind_quiet _ _ _ _ _ (get_ring_ok s' d r' Hs')).
      destruct Hs' as (_ & _ & Hr'). rewrite (comp_lift_ok _ _ _ _ (get_free_size_ok r' Hr')).
      unfold assert. rewrite (bool_decide_eq_true_2 (0 = 0)) by done. cbn. by rewrite app_nil_r. }
    exists s', r', outs.
    erewrite comp_bind_ret; [|rewrite (comp_lift_ok _ _ _ _ (buffer_data_ok buffer Hb)); exact Ep].
    by split_and!.
  - exists s, r, []. split_and!; try done.
    replace (window buffer) with (@nil Z); [constructor|]. symmetry. apply nil_length_inv.
    rewrite length_window by done. unfold is_valid in Ev.
    destruct Hb as [Hsz _]. apply andb_false_iff in Ev as [Ev|Ev].
    + apply negb_false_iff, bool_decide_eq_true_1 in Ev. rewrite Ev in Hsz. cbn in Hsz. lia.
    + apply bool_decide_eq_false_1 in Ev. lia.
Qed.
End accumulator_facts.

(** * Guarantees *)

(** The [dataIn] calls of a byte stream. *)
Fixpoint acc_run `{BuildProfile} `{FrameDetector D} `{Allocator A} (bs : list Buffer) (ctx : FrameContext)
    : CompM (AccumulatorState D A) AccOut unit :=
  match bs with
  | [] => mret tt
  | b :: bs' => _ ← acc_data_in b ctx; acc_run bs' ctx
  end.

(** Buffers sent downstream and buffers given back, in order. *)
Definition delivered (outs : list AccOut) : list Buffer :=
  omap (λ o, match o with AccDataOut b _ => Some b | _ => None end) outs.
Definition given_back (outs : list AccOut) : list Buffer :=
  omap (λ o, match o with AccDataReturnOut b _ => Some b | _ => None end) outs.

(** The events reported. *)
Definition is_acc_event (o : AccOut) : bool :=
  match o with
  | AccNoBufferAvailable | AccFrameDetectionSizeError _ | AccFrameDetectionValidFrameDropped => true
  | AccDataOut _ _ | AccDataReturnOut _ _ | AccBufferDeallocate _ => false
  end.
Definition acc_events (outs : list AccOut) : list AccOut := filter is_acc_event outs.

Section guarantees.
Context `{BuildProfile} `{FrameDetectorLaws D} `{AllocatorLaws A}.

(** Every delivered buffer holds a frame the detector found. *)
Definition is_frame (d : D) (cap : nat) (b : Buffer) : Prop :=
  buffer_ok b ∧ ∃ l, detect_bytes d cap l = FrameDetected (size b) ∧ window b = take (size b) l.

Lemma scanning_outs d cap ctx l outs rest :
  scanning d cap ctx l outs rest (A := A) → Forall (is_frame d cap) (delivered outs) ∧ given_back outs = [].
Proof.
  induction 1 as [| |? ? ? ? ? ? ? _ [IH1 IH2]|l n b outs rest Hne Hv Hb Hw _ [IH1 IH2]| |]; try done.
  split; [|exact IH2]. change (Forall (is_frame d cap) (b :: delivered outs)). constructor; [|done].
  apply verdict_deliver in Hv as (Hd & Hn & _). split; [done|]. exists l.
  assert (size b = n) as ->; [|done]. rewrite <- (length_window b Hb), Hw, length_take. lia.
Qed.

Lemma feeding_outs d cap ctx l bytes outs rest :
  feeding d cap ctx l bytes outs rest (A := A) → Forall (is_frame d cap) (delivered outs) ∧ given_back outs = [].
Proof.
  unfold delivered, given_back. induction 1 as [|? ? ? ? ? ? ? ? ? Hs _ [IH1 IH2]]; [done|].
  apply scanning_outs in Hs as [Hs1 Hs2]. unfold delivered, given_back in *.
  rewrite !omap_app, IH2, Hs2. split; [by apply Forall_app|done].
Qed.

Lemma acc_run_ok bs ctx s d r :
  acc_ok s d r → allocated_size r < length (store r) → Forall buffer_ok bs →
  ∃ s' r' outs, acc_run bs ctx s = Ret (tt, s', outs) ∧ acc_ok s' d r' ∧
    length (store r') = length (store r) ∧ allocated_size r' < length (store r') ∧
    Forall (is_frame d (length (store r))) (delivered outs) ∧ given_back outs = bs.
Proof.
  intros Hs Hlt Hbs. revert s r Hs Hlt. induction Hbs as [|b bs Hb _ IH]; intros s r Hs Hlt.
  { exists s, r, []. by split_and!. }
  destruct (acc_data_in_ok b ctx s d r Hs Hlt Hb) as (s1 & r1 & o1 & E1 & Hs1 & Hl1 & Hf & Hlt1).
  destruct (IH s1 r1 Hs1 Hlt1) as (s2 & r2 & o2 & E2 & Hs2 & Hl2 & Hlt2 & Hd2 & Hg2).
  apply feeding_outs in Hf as [Hd1 Hg1].
  exists s2, r2, ((o1 ++ [AccDataReturnOut b ctx]) ++ o2). cbn [acc_run].
  rewrite (comp_bind_ret _ _ _ _ _ _ E1), E2. split; [done|]. split; [done|]. split; [congruence|].
  split; [done|]. unfold delivered, given_back in *. rewrite !omap_app, Hg1, Hg2. split; [|done].
  rewrite Hl1 in Hd2. rewrite !Forall_app. split_and!; [done|by constructor|done].
Qed.
End guarantees.

Section live.
Context `{BuildProfile} `{FrameDetectorLaws D} `{AllocatorLive A}.

Lemma scanning_live d cap ctx l outs rest :
  scanning d cap ctx l outs rest (A := A) → scans d cap l (window <$> delivered outs) rest.
Proof.
  assert (¬ allocation_failed (A := A)) as Hno.
  { intros (n & a & Hn & Hv). by rewrite alloc_valid in Hv. }
  unfold delivered.
  induction 1 as [l Hl|l outs rest Hne Hv _ _ IH|l n outs rest Hne Hv _ _ IH
    |l n b outs rest Hne Hv Hb Hw _ IH|l n Hne Hv Hf|l n Hne Hv Hf]; try done.
  - by constructor.
  - by apply scans_skip.
  - by apply scans_skip.
  - cbn. rewrite Hw. by apply (scans_deliver _ _ l n).
Qed.

Lemma scanning_rest_bytes d cap ctx l outs rest :
  scanning d cap ctx l outs rest (A := A) → Forall is_byte l → Forall is_byte rest.
Proof. induction 1; auto using Forall_drop. Qed.

Lemma feeding_live d cap ctx l bytes outs rest :
  feeding d cap ctx l bytes outs rest (A := A) → Forall is_byte (l ++ bytes) →
  verdict cap (detect_bytes d cap l) = Wait_more ∨ l = [] →
  scans d cap (l ++ bytes) (window <$> delivered outs) rest.
Proof.
  induction 1 as [l|l c bytes outs1 l1 outs2 l2 Hc Hle Hs Hf IH]; intros Hb Hw.
  - rewrite app_nil_r. constructor. tauto.
  - rewrite app_assoc. unfold delivered. rewrite omap_app, fmap_app.
    pose proof (scanning_live _ _ _ _ _ _ Hs) as Hsc.
    rewrite app_assoc in Hb. pose proof (proj1 (proj1 (Forall_app _ _ _) Hb)) as Hb1.
    pose proof (proj2 (proj1 (Forall_app _ _ _) Hb)) as Hb2.
    eapply scans_app; [exact Hsc|done|]. apply IH.
    + apply Forall_app. split; [by eapply scanning_rest_bytes|done].
    + clear -Hsc. induction Hsc as [? [?|?]| |]; auto.
Qed.

Lemma acc_run_live bs ctx s d r :
  acc_ok s d r → allocated_size r < length (store r) → Forall buffer_ok bs →
  verdict (length (store r)) (detect_bytes d (length (store r)) (contents r)) = Wait_more ∨ contents r = [] →
  ∃ s' outs rest, acc_run bs ctx s = Ret (tt, s', outs) ∧
    scans d (length (store r)) (contents r ++ concat (window <$> bs)) (window <$> delivered outs) rest.
Proof.
  intros Hs Hlt Hbs. revert s r Hs Hlt. induction Hbs as [|b bs Hb Hbs IH]; intros s r Hs Hlt Hw.
  { exists s, [], (contents r). cbn [fmap list_fmap concat]. rewrite app_nil_r. split; [done|]. constructor. tauto. }
  destruct (acc_data_in_ok b ctx s d r Hs Hlt Hb) as (s1 & r1 & o1 & E1 & Hs1 & Hl1 & Hf & Hlt1).
  assert (Forall is_byte (contents r ++ window b)) as Hby.
  { apply Forall_app. split; [apply contents_bytes; by destruct Hs as (_ & _ & ?)|by apply window_bytes]. }
  pose proof (feeding_live _ _ _ _ _ _ _ Hf Hby Hw) as Hsc.
  assert (verdict (length (store r1)) (detect_bytes d (length (store r1)) (contents r1)) = Wait_more
          ∨ contents r1 = []) as Hw1.
  { rewrite Hl1. clear -Hsc. induction Hsc as [? [?|?]| |]; auto. }
  destruct (IH s1 r1 Hs1 Hlt1 Hw1) as (s2 & o2 & rest & E2 & Hsc2).
  exists s2, ((o1 ++ [AccDataReturnOut b ctx]) ++ o2), rest. cbn [acc_run].
  rewrite (comp_bind_ret _ _ _ _ _ _ E1), E2. split; [done|]. rewrite Hl1 in Hsc2.
  unfold delivered. rewrite !omap_app, !fmap_app. cbn [fmap list_fmap concat omap list_omap].
  rewrite app_nil_r, app_assoc. eapply scans_app; [exact Hsc| |exact Hsc2].
  apply Forall_app. split; [done|]. clear -Hbs. induction Hbs; [constructor|].
  cbn. apply Forall_app. split; [by apply window_bytes|done].
Qed.

(** Every byte that comes in is delivered, kept or skipped, and an event costs
    a skipped byte. *)
Lemma scanning_events d cap ctx l outs rest :
  scanning d cap ctx l outs rest (A := A) →
  length (concat (window <$> delivered outs)) + length rest + length (acc_events outs) ≤ length l.
Proof.
  assert (¬ allocation_failed (A := A)) as Hno.
  { intros (n & a & Hn & Hv). by rewrite alloc_valid in Hv. }
  unfold delivered, acc_events.
  induction 1 as [l Hl|l outs rest Hne Hv _ _ IH|l n outs rest Hne Hv _ _ IH
    |l n b outs rest Hne Hv Hb Hw _ IH|l n Hne Hv Hf|l n Hne Hv Hf]; try done;
    rewrite ?length_drop in *; destruct l as [|x l]; try done.
  - cbn. lia.
  - cbn in *. lia.
  - rewrite filter_cons_True by done. cbn [length omap list_omap] in *. lia.
  - apply verdict_deliver in Hv as (_ & Hn & _). cbn [omap list_omap fmap list_fmap concat].
    rewrite filter_cons_False by (by intros []). rewrite length_app, Hw, length_take. lia.
Qed.

Lemma feeding_events d cap ctx l bytes outs rest :
  feeding d cap ctx l bytes outs rest (A := A) →
  length (concat (window <$> delivered outs)) + length rest + length (acc_events outs) ≤ length l + length bytes.
Proof.
  unfold delivered, acc_events. induction 1 as [l|l c bytes outs1 l1 outs2 l2 Hc Hle Hs Hf IH]; [cbn; lia|].
  apply scanning_events in Hs. unfold delivered, acc_events in Hs.
  rewrite omap_app, fmap_app, concat_app, filter_app, !length_app in *. lia.
Qed.

Lemma acc_run_events bs ctx s d r :
  acc_ok s d r → allocated_size r < length (store r) → Forall buffer_ok bs →
  ∃ s' outs, acc_run bs ctx s = Ret (tt, s', outs) ∧
    length (concat (window <$> delivered outs)) + length (acc_events outs)
      ≤ length (contents r) + length (concat (window <$> bs)).
Proof.
  intros Hs Hlt Hbs. revert s r Hs Hlt. induction Hbs as [|b bs Hb Hbs IH]; intros s r Hs Hlt.
  { exists s, []. split; [done|]. cbn. lia. }
  destruct (acc_data_in_ok b ctx s d r Hs Hlt Hb) as (s1 & r1 & o1 & E1 & Hs1 & Hl1 & Hf & Hlt1).
  destruct (IH s1 r1 Hs1 Hlt1) as (s2 & o2 & E2 & Hle).
  exists s2, ((o1 ++ [AccDataReturnOut b ctx]) ++ o2). cbn [acc_run].
  rewrite (comp_bind_ret _ _ _ _ _ _ E1), E2. split; [done|]. apply feeding_events in Hf.
  unfold delivered, acc_events in *. rewrite !omap_app, !filter_app, !fmap_app, !concat_app. cbn [fmap list_fmap concat].
  rewrite filter_cons_False, filter_nil by (by intros []). rewrite !length_app. cbn [omap list_omap fmap list_fmap concat length] in *. lia.
Qed.

(** A stream that consists of frames only is delivered without an event. *)
Lemma acc_run_no_event bs ctx s d r s' outs :
  acc_ok s d r → allocated_size r < length (store r) → Forall buffer_ok bs → contents r = [] →
  acc_run bs ctx s = Ret (tt, s', outs) → concat (window <$> delivered outs) = concat (window <$> bs) →
  acc_events outs = [].
Proof.
  intros Hs Hlt Hbs Hc E Heq. destruct (acc_run_events bs ctx s d r Hs Hlt Hbs) as (s1 & outs1 & E1 & Hle).
  rewrite E in E1. injection E1 as <- <-. rewrite Hc, Heq in Hle. cbn in Hle. apply nil_length_inv. lia.
Qed.
End live.

(** A configured, empty accumulator. *)
Lemma configure_ok `{BuildProfile} `{FrameDetector D} {A} (d : D) (a : A) cap :
  0 < cap → (Z.of_nat cap ≤ ISIZE_MAX)%Z →
  ∃ s r, configure d cap (FrameAccumulator_new a) = Ret s ∧ acc_ok s d r ∧ length (store r) = cap ∧
         allocated_size r = 0 ∧ contents r = [].
Proof.
  intros Hcap Hmax. destruct (ring_new_ok cap Hcap Hmax) as (r & E & Hr & Hc & Hl & Ha & _).
  unfold configure. rewrite E. by exists (MkAcc (Some r) (Some d) a), r.
Qed.

(** A ring over [isize::MAX] bytes cannot be allocated. *)
Lemma configure_panics `{FrameDetector D} {A} (d : D) (a : A) cap :
  ¬ (Z.of_nat cap ≤ ISIZE_MAX)%Z → configure d cap (FrameAccumulator_new a) = Panic.
Proof.
  intros Hmax. unfold configure, ring_new. destruct (bool_decide (0 < cap)); [|done].
  cbn [fw_assert]. rewrite outcome_bind_ret, vec_alloc_panics by lia. done.
Qed.

(** C32. The accumulator never stops: with any detector and any allocator
    that keep their contracts (the allocator may fail at any time), a
    configured accumulator processes any sequence of incoming buffers without
    an assertion failing, gives back every incoming buffer exactly once and in
    order, always has room for more bytes afterwards, and sends downstream
    only buffers that hold a frame its detector recognised. (Configuring a
    ring of more than [isize::MAX] bytes panics.) *)
Theorem accumulator_never_stuck `{BuildProfile} `{FrameDetectorLaws D} `{AllocatorLaws A} (d : D) (a : A) (cap : nat)
    (bs : list Buffer) (ctx : FrameContext) :
  0 < cap → Forall buffer_ok bs →
  if decide (Z.of_nat cap ≤ ISIZE_MAX)%Z then
    ∃ s s' r outs, configure d cap (FrameAccumulator_new a) = Ret s ∧
      acc_run bs ctx s = Ret (tt, s', outs) ∧ given_back outs = bs ∧
      Forall (is_frame d cap) (delivered outs) ∧
      ring s' = Some r ∧ allocated_size r < cap ∧ length (store r) = cap
  else configure d cap (FrameAccumulator_new a) = Panic.
Proof.
  intros Hcap Hbs. case_decide as Hmax; [|by apply configure_panics].
  destruct (configure_ok d a cap Hcap Hmax) as (s & r & E & Hs & Hl & Ha & _).
  destruct (acc_run_ok bs ctx s d r Hs ltac:(lia) Hbs) as (s' & r' & outs & E' & (Hr' & _) & Hl' & Hlt & Hd & Hg).
  exists s, s', r', outs. rewrite Hl in *. split_and!; try done; lia.
Qed.

Lemma accumulator_never_stuck_witness :
  let P := true : BuildProfile in
  let bs := [from_storage [1; 2; 3]%Z 0; from_storage (frame_of [7; 8]%Z) 1] in
  ∃ s s' r outs, configure FprimeFrameDetector_new 16 (FrameAccumulator_new tt) = Ret s ∧
    acc_run bs FrameContext_default s = Ret (tt, s', outs) ∧ given_back outs = bs ∧
    Forall (is_frame FprimeFrameDetector_new 16) (delivered outs) ∧
    ring s' = Some r ∧ allocated_size r < 16 ∧ length (store r) = 16.
Proof.
  intros P. apply (accumulator_never_stuck FprimeFrameDetector_new tt 16
    [from_storage [1; 2; 3]%Z 0; from_storage (frame_of [7; 8]%Z) 1] FrameContext_default); [lia|fp_decide].
Defined.

(** C26. Delivery does not depend on how the byte stream was cut: while the
    allocator has buffers, two sequences of incoming buffers that carry the
    same bytes make the accumulator deliver the same frames in the same
    order, for any detector that keeps its contract and any ring size (a ring
    of more than [isize::MAX] bytes cannot be configured: that panics). *)
Theorem accumulator_chunking_independent `{BuildProfile} `{FrameDetectorLaws D} `{AllocatorLive A} (d : D) (a : A)
    (cap : nat) (bs bs' : list Buffer) (ctx : FrameContext) :
  0 < cap → Forall buffer_ok bs → Forall buffer_ok bs' →
  concat (window <$> bs) = concat (window <$> bs') →
  if decide (Z.of_nat cap ≤ ISIZE_MAX)%Z then
    ∃ s s1 s2 outs outs', configure d cap (FrameAccumulator_new a) = Ret s ∧
      acc_run bs ctx s = Ret (tt, s1, outs) ∧ acc_run bs' ctx s = Ret (tt, s2, outs') ∧
      window <$> delivered outs = window <$> delivered outs'
  else configure d cap (FrameAccumulator_new a) = Panic.
Proof.
  intros Hcap Hbs Hbs' Heq. case_decide as Hmax; [|by apply configure_panics].
  destruct (configure_ok d a cap Hcap Hmax) as (s & r & E & Hs & Hl & Ha & Hc).
  destruct (acc_run_live bs ctx s d r Hs ltac:(lia) Hbs (or_intror Hc)) as (s1 & outs & rest & E1 & Hsc1).
  destruct (acc_run_live bs' ctx s d r Hs ltac:(lia) Hbs' (or_intror Hc)) as (s2 & outs' & rest' & E2 & Hsc2).
  exists s, s1, s2, outs, outs'. split_and!; try done. rewrite <- Heq in Hsc2.
  by destruct (scans_unique _ _ _ _ _ _ _ Hsc1 Hsc2).
Qed.

Lemma accumulator_chunking_independent_witness :
  let P := true : BuildProfile in
  let f := frame_of [7; 8]%Z in
  let bs := [from_storage f 0] in
  let bs' := [from_storage (take 5 f) 0; from_storage (drop 5 f) 0] in
  ∃ s s1 s2 outs outs', configure FprimeFrameDetector_new 16 (FrameAccumulator_new tt) = Ret s ∧
    acc_run bs FrameContext_default s = Ret (tt, s1, outs) ∧
    acc_run bs' FrameContext_default s = Ret (tt, s2, outs') ∧
    window <$> delivered outs = window <$> delivered outs'.
Proof.
  intros P. apply (accumulator_chunking_independent FprimeFrameDetector_new tt 16 [from_storage (frame_of [7; 8]%Z) 0]
    [from_storage (take 5 (frame_of [7; 8]%Z)) 0; from_storage (drop 5 (frame_of [7; 8]%Z)) 0]);
    [lia|fp_decide|fp_decide|vm_compute; reflexivity].
Defined.

(** * F Prime streams *)

Definition payload_fits (cap : nat) (p : list Z) : Prop :=
  Forall is_byte p ∧ (Z.of_nat (length p) ≤ 0xFFFFFFFF)%Z ∧ length p + MIN_FRAME_SIZE ≤ cap.
#[export] Instance payload_fits_dec cap p : Decision (payload_fits cap p).
Proof. unfold payload_fits; apply _. Defined.

Lemma fprime_detects_frame d cap p rest :
  payload_fits cap p → fprime_detect_bytes d cap (frame_of p ++ rest) = FrameDetected (length p + MIN_FRAME_SIZE).
Proof.
  intros (Hp & Hmax & Hfit). pose proof (length_frame_of p) as Hl.
  destruct (frame_checks p Hp Hmax) as (Hsw & Hlen & _ & Hh & Hc).
  unfold fprime_detect_bytes. unfold MIN_FRAME_SIZE, HEADER_SIZE, TRAILER_SIZE in *. rewrite length_app.
  rewrite (decide_False (P := _ < 8 + 4)) by lia.
  rewrite !(slice_app_prefix 0 4), !(slice_app_prefix 4 4), Hsw, Hlen, Nat2Z.id by lia.
  rewrite (decide_False (P := START_WORD ≠ START_WORD)) by tauto.
  rewrite (decide_False (P := cap < _)) by lia. rewrite (decide_False (P := _ + _ < _)) by lia.
  rewrite !slice_app_prefix, Hh, Hc by lia. by rewrite decide_True.
Qed.

Lemma fprime_stream_scans `{BuildProfile} d cap ps :
  Forall (payload_fits cap) ps → scans d cap (concat (frame_of <$> ps)) (frame_of <$> ps) [].
Proof.
  induction 1 as [|p ps Hp _ IH]; [by constructor; left|]. cbn [fmap list_fmap concat].
  pose proof (length_frame_of p) as Hl. pose proof Hp as (_ & _ & Hfit).
  assert (length p + MIN_FRAME_SIZE = length (frame_of p)) as Hn by (unfold MIN_FRAME_SIZE; lia).
  rewrite <- (take_app_length (frame_of p) (concat (frame_of <$> ps))) at 2.
  apply scans_deliver.
  - intros [E _]%app_eq_nil. rewrite E in Hl. cbn in Hl. lia.
  - cbn [detect_bytes FprimeFrameDetector_laws]. rewrite fprime_detects_frame by done. cbn [verdict].
    by rewrite decide_False, Hn by lia.
  - by rewrite drop_app_length.
Qed.

(** C1. End to end over a byte link: any number of payloads, framed by the
    F Prime framer and sent as one stream cut into buffers at arbitrary
    places, come out of the accumulator as exactly their frames, in order,
    and the deframer turns the frame of each into a buffer whose window is the
    payload (with its descriptor as APID), as long as frames fit the ring and
    the allocator has buffers. (Configuring a ring of more than [isize::MAX]
    bytes panics.) *)
Theorem fprime_link_end_to_end `{BuildProfile} `{AllocatorLive A} (a : A) (cap : nat) (ps : list (list Z))
    (bs : list Buffer) (ctx : FrameContext) :
  0 < cap → Forall (payload_fits cap) ps → Forall buffer_ok bs →
  concat (window <$> bs) = concat (frame_of <$> ps) →
  if decide (Z.of_nat cap ≤ ISIZE_MAX)%Z then
    ∃ s s' outs, configure FprimeFrameDetector_new cap (FrameAccumulator_new a) = Ret s ∧
      acc_run bs ctx s = Ret (tt, s', outs) ∧ given_back outs = bs ∧
      window <$> delivered outs = frame_of <$> ps ∧
      Forall2 (λ b p, ∃ b', deframer_data_in b ctx tt =
          Ret (tt, tt, (if decide (length p < 2) then [DfPayloadTooShort] else []) ++
                       [DfDataOut b' (payload_context p ctx)]) ∧ window b' = p)
        (delivered outs) ps
  else configure FprimeFrameDetector_new cap (FrameAccumulator_new a) = Panic.
Proof.
  intros Hcap Hps Hbs Heq. case_decide as Hmax; [|by apply configure_panics].
  destruct (configure_ok FprimeFrameDetector_new a cap Hcap Hmax) as (s & r & E & Hs & Hl & Ha & Hc).
  destruct (acc_run_live bs ctx s _ r Hs ltac:(lia) Hbs (or_intror Hc)) as (s1 & outs & rest & E1 & Hsc1).
  destruct (acc_run_ok bs ctx s _ r Hs ltac:(lia) Hbs) as (s2 & r2 & outs2 & E2 & _ & _ & _ & Hd & Hg).
  rewrite E1 in E2. injection E2 as <- <-. rewrite Hc, Hl, Heq in Hsc1. cbn [app] in Hsc1.
  destruct (scans_unique _ _ _ _ _ _ _ Hsc1 (fprime_stream_scans FprimeFrameDetector_new cap ps Hps)) as [Hw _].
  exists s, s1, outs. split_and!; try done.
  clear -Hw Hd Hps. revert ps Hw Hps. induction Hd as [|b bs [Hb _] _ IH]; intros [|p ps] Hw Hps; try done.
  cbn in Hw. injection Hw as Hw1 Hw2. apply Forall_cons in Hps as [(Hp & Hmax & _) Hps].
  constructor; [|by apply IH].
  destruct (deframer_spec_frame b ctx p Hb Hw1 Hp Hmax) as (Es & Hwp & _).
  exists (payload_buffer b). by rewrite deframer_data_in_spec, Es by done.
Qed.

Lemma fprime_link_end_to_end_witness :
  let P := true : BuildProfile in
  let f := frame_of [0; 1; 8]%Z ++ frame_of [9]%Z in
  let bs := [from_storage (take 4 f) 0; from_storage (drop 4 f) 0] in
  ∃ s s' outs, configure FprimeFrameDetector_new 15 (FrameAccumulator_new tt) = Ret s ∧
    acc_run bs FrameContext_default s = Ret (tt, s', outs) ∧ given_back outs = bs ∧
    window <$> delivered outs = [frame_of [0; 1; 8]%Z; frame_of [9]%Z] ∧
    Forall2 (λ b p, ∃ b', deframer_data_in b FrameContext_default tt =
        Ret (tt, tt, (if decide (length p < 2) then [DfPayloadTooShort] else []) ++
                     [DfDataOut b' (payload_context p FrameContext_default)]) ∧ window b' = p)
      (delivered outs) [[0; 1; 8]; [9]]%Z.
Proof.
  intros P. apply (fprime_link_end_to_end tt 15 [[0; 1; 8]; [9]]%Z
    [from_storage (take 4 (frame_of [0; 1; 8]%Z ++ frame_of [9]%Z)) 0;
     from_storage (drop 4 (frame_of [0; 1; 8]%Z ++ frame_of [9]%Z)) 0]);
    [lia|fp_decide|fp_decide|vm_compute; reflexivity].
Defined.
