(* ===== verification/TcFrames.v ===== *)
(** Telecommand transfer frames: [Svc::Ccsds::TcDeframer],
    [crates/fprime-svc/src/ccsds/tc_deframer.rs], and the detector
    [CcsdsTcFrameDetector] of [crates/fprime-svc/src/frame_accumulator.rs],
    which meets the detector interface of the frame accumulator. *)

From S2P Require Import Prelude Serial SerialFacts Codec Fpp CircularBuffer Crc32 Crc16 Buffer Comp Framing CcsdsTypes ApidManager SpacePacket FrameAccumulator.

(** * The deframer *)

Definition MIN_TC_FRAME_SIZE : nat := TC_HEADER_SIZE + TC_TRAILER_SIZE.

Record TcState : Set := MkTcState {
  tc_cfg_vc_id : Z;
  tc_cfg_spacecraft_id : Z;
  accept_all_vcid : bool;
  tc_error_notify_connected : bool;
}.

Inductive TcOut : Set :=
| TcEvInvalidPacket
| TcEvInvalidSpacecraftId (transmitted configured : Z)
| TcEvInvalidFrameLength (transmitted actual : Z)
| TcEvInvalidVcId (transmitted configured : Z)
| TcEvInvalidCrc (first second : Z)
| TcErrorNotify (error : FrameError)
| TcDataOut (b : Buffer) (ctx : FrameContext)
| TcDataReturnOut (b : Buffer) (ctx : FrameContext).

Definition TcDeframer_new (notify_connected : bool) : TcState :=
  MkTcState 0 SPACECRAFT_ID true notify_connected.

Definition tc_configure (vc_id spacecraft_id : Z) (accept_all : bool) (s : TcState) : TcState :=
  MkTcState vc_id spacecraft_id accept_all (tc_error_notify_connected s).

Abbreviation TcM := (CompM TcState TcOut).

Definition tc_error_notify (e : FrameError) : TcM unit :=
  s ← get_state; when (tc_error_notify_connected s) (emit (TcErrorNotify e)).

Definition set_vc_id (v : Z) (c : FrameContext) : FrameContext :=
  MkFrameContext (com_queue_index c) (apid c) (has_sec_hdr c) (sequence_flags c) (sequence_count c)
    v (pvn c) (send_now c) (sa_index c) (first_header_pointer c).

(** An event, its notification and the buffer back with the original context. *)
Definition tc_drop (ev : TcOut) (e : FrameError) (data : Buffer) (ctx : FrameContext) : TcM unit :=
  _ ← emit ev;
  _ ← tc_error_notify e;
  emit (TcDataReturnOut data ctx).

(** [data_in_handler]. *)
Definition tc_data_in (data : Buffer) (ctx : FrameContext) : TcM unit :=
  state ← get_state;
  if bool_decide (size data ≤ MIN_TC_FRAME_SIZE) then
    _ ← emit TcEvInvalidPacket; emit (TcDataReturnOut data ctx)
  else
    header ← lift (from_window (TCHeader_deserialize_from Big) data);
    let total := total_frame_length header in
    let vc_id := tc_vc_id header in
    let spacecraft_id := tc_spacecraft_id header in
    if negb (spacecraft_id =? tc_cfg_spacecraft_id state)%Z then
      tc_drop (TcEvInvalidSpacecraftId spacecraft_id (tc_cfg_spacecraft_id state)) TcInvalidScid data ctx
    else if bool_decide (size data < Z.to_nat total) || bool_decide (Z.to_nat total < MIN_TC_FRAME_SIZE) then
      tc_drop (TcEvInvalidFrameLength total (Z.of_nat (size data))) TcInvalidLength data ctx
    else if negb (accept_all_vcid state) && negb (vc_id =? tc_cfg_vc_id state)%Z then
      tc_drop (TcEvInvalidVcId vc_id (tc_cfg_vc_id state)) TcInvalidVcid data ctx
    else
      let crc_len := Z.to_nat total - TC_TRAILER_SIZE in
      window ← lift (buffer_data data);
      head ← lift (copy_from 0 crc_len window);
      let computed_crc := Crc16_compute head in
      trailer ← lift (from_window
        (_ ← move_deser_to_offset crc_len; TCTrailer_deserialize_from Big) data);
      let transmitted_crc := tc_fecf trailer in
      if negb (transmitted_crc =? computed_crc)%Z then
        tc_drop (TcEvInvalidCrc computed_crc transmitted_crc) TcInvalidCrc data ctx
      else
        d1 ← lift (advance (Z.of_nat TC_HEADER_SIZE) data);
        d2 ← lift (set_size (Z.to_nat total - TC_HEADER_SIZE - TC_TRAILER_SIZE) d1);
        emit (TcDataOut d2 (set_vc_id (wrap 8 vc_id) ctx)).

(** [data_return_in_handler]. *)
Definition tc_data_return_in (data : Buffer) (ctx : FrameContext) : TcM unit :=
  emit (TcDataReturnOut data ctx).

(** * The detector *)

Record CcsdsTcFrameDetector : Set := MkTcDetector { expected_flags_and_sc_id : Z }.

Definition for_spacecraft (spacecraft_id : Z) : CcsdsTcFrameDetector :=
  MkTcDetector (Z.lor (Z.shiftl 1 TC_BYPASS_FLAG_OFFSET) spacecraft_id).
Definition CcsdsTcFrameDetector_new : CcsdsTcFrameDetector := for_spacecraft SPACECRAFT_ID.
Definition TC_DETECTOR_MIN_FRAME_SIZE : nat := TC_HEADER_SIZE + TC_TRAILER_SIZE.

(** The byte-by-byte CRC of [n] bytes of the ring from [i]. *)
Fixpoint ring_crc `{BuildProfile} (n i : nat) (c : Crc16) (r : CircularBuffer) : outcome Crc16 :=
  match n with
  | O => Ret c
  | S n' =>
      v ← peek_u8 i r;
      match v with
      | inr byte => ring_crc n' (S i) (Crc16_update byte c) r
      | inl _ => Panic
      end
  end.

(** [ExtBuf::with_len(bytes, n)] and a decode asserted [Ok]. *)
Definition decode_bytes {A} (f : SerM A) (bs : list Z) : outcome A :=
  ser ← ext_buf_with_len bs (length bs);
  match f ser with (SOk a, _) => Ret a | _ => Panic end.

Definition tc_detect `{BuildProfile} (d : CcsdsTcFrameDetector) (r : CircularBuffer) : outcome DetectorStatus :=
  let available := get_allocated_size r in
  if bool_decide (available < TC_DETECTOR_MIN_FRAME_SIZE) then Ret (MoreDataNeeded TC_DETECTOR_MIN_FRAME_SIZE)
  else
    hb ← peek_bytes TC_HEADER_SIZE 0 r;
    match hb with
    | inl _ => Ret NoFrameDetected
    | inr header_bytes =>
        header ← decode_bytes (TCHeader_deserialize_from Big) header_bytes;
        if negb (flags_and_sc_id header =? expected_flags_and_sc_id d)%Z then Ret NoFrameDetected
        else
          let expected := Z.to_nat (total_frame_length header) in
          if bool_decide (available < expected) then Ret (MoreDataNeeded expected)
          else if bool_decide (expected < TC_DETECTOR_MIN_FRAME_SIZE) then Ret NoFrameDetected
          else
            let data_to_crc_length := expected - TC_TRAILER_SIZE in
            crc ← ring_crc data_to_crc_length 0 Crc16_new r;
            let computed_fecf := Crc16_finalize crc in
            tb ← peek_bytes TC_TRAILER_SIZE data_to_crc_length r;
            match tb with
            | inl _ => Ret NoFrameDetected
            | inr trailer_bytes =>
                trailer ← decode_bytes (TCTrailer_deserialize_from Big) trailer_bytes;
                if negb (tc_fecf trailer =? computed_fecf)%Z then Ret NoFrameDetected
                else Ret (FrameDetected expected)
            end
    end.
#[export] Instance CcsdsTcFrameDetector_detector `{BuildProfile} : FrameDetector CcsdsTcFrameDetector := tc_detect.

(** * The deframer on every branch *)

Definition tc_notify (s : TcState) (e : FrameError) : list TcOut :=
  if tc_error_notify_connected s then [TcErrorNotify e] else [].

Lemma tc_drop_ok ev e data ctx s :
  tc_drop ev e data ctx s = Ret (tt, s, ev :: tc_notify s e ++ [TcDataReturnOut data ctx]).
Proof.
  unfold tc_drop, tc_error_notify, tc_notify. rewrite comp_emit. erewrite comp_bind_ret; [|].
  2: { erewrite comp_bind_quiet; [|reflexivity]. unfold when.
       instantiate (1 := if tc_error_notify_connected s then [TcErrorNotify e] else []).
       by destruct (tc_error_notify_connected s). }
  done.
Qed.

(** The data field as a view of the same storage. *)
Definition tc_data_buffer (total : nat) (b : Buffer) : Buffer :=
  set_window (offset b + TC_HEADER_SIZE) (total - TC_HEADER_SIZE - TC_TRAILER_SIZE) b.

(** Outputs and verdict, by the content of the window. *)
Definition tc_deframe_spec (s : TcState) (data : Buffer) (ctx : FrameContext) : list TcOut :=
  let w := window data in
  let h := tc_header_of w in
  let total := Z.to_nat (total_frame_length h) in
  let crc := Crc16_compute (take (total - 2) w) in
  let fecf := be_value (slice (total - 2) 2 w) in
  let drop ev e := ev :: tc_notify s e ++ [TcDataReturnOut data ctx] in
  if decide (length w ≤ 7) then [TcEvInvalidPacket; TcDataReturnOut data ctx]
  else if decide (tc_spacecraft_id h ≠ tc_cfg_spacecraft_id s) then
    drop (TcEvInvalidSpacecraftId (tc_spacecraft_id h) (tc_cfg_spacecraft_id s)) TcInvalidScid
  else if decide (length w < total ∨ total < 7) then
    drop (TcEvInvalidFrameLength (Z.of_nat total) (Z.of_nat (length w))) TcInvalidLength
  else if decide (accept_all_vcid s = false ∧ tc_vc_id h ≠ tc_cfg_vc_id s) then
    drop (TcEvInvalidVcId (tc_vc_id h) (tc_cfg_vc_id s)) TcInvalidVcid
  else if decide (fecf ≠ crc) then drop (TcEvInvalidCrc crc fecf) TcInvalidCrc
  else [TcDataOut (tc_data_buffer total data) (set_vc_id (tc_vc_id h) ctx)].

Lemma from_window_map {X Y} (m : SerM unit) (d : SerM X) (g : X → Y) b :
  from_window (_ ← m; x ← d; mret (g x)) b = match from_window (_ ← m; d) b with Ret x => Ret (g x) | Panic => Panic end.
Proof.
  unfold from_window. destruct (get_deserializer b) as [ser|]; [|done]. rewrite !outcome_bind_ret.
  unfold mbind, SerM_bind. destruct (m ser) as [[?|?|] ser1]; try done. by destruct (d ser1) as [[?|?|] ser2].
Qed.

Lemma tc_total_range w :
  Forall is_byte w → 5 ≤ length w → (1 ≤ total_frame_length (tc_header_of w) ≤ 1024)%Z ∧ (0 ≤ tc_vc_id (tc_header_of w) < 64)%Z.
Proof.
  intros Hw Hl. destruct (tc_header_of_ok w Hw Hl) as [(H1 & H2 & _) _].
  destruct (tc_accessors (tc_header_of w) H1 H2) as (_ & -> & ->). unfold is_u in H2.
  split; Z.to_euclidean_division_equations; lia.
Qed.

Lemma tc_data_in_spec data ctx s :
  buffer_ok data → tc_data_in data ctx s = Ret (tt, s, tc_deframe_spec s data ctx).
Proof.
  intros Hd. pose proof (length_window data Hd) as Hl. pose proof (window_bytes data Hd) as Hb.
  unfold tc_data_in, tc_deframe_spec. erewrite comp_bind_quiet; [|reflexivity].
  change MIN_TC_FRAME_SIZE with 7. change TC_TRAILER_SIZE with 2. change TC_HEADER_SIZE with 5. rewrite Hl.
  case_bool_decide as Hmin; [by rewrite decide_True|]. rewrite decide_False by done.
  destruct (tc_header_of_ok (window data) Hb) as [Hwf Ew]; [change TC_HEADER_SIZE with 5; lia|].
  destruct (tc_total_range (window data) Hb ltac:(lia)) as [Htot Hvc].
  set (h := tc_header_of (window data)) in *. cbv zeta.
  rewrite (comp_lift_ok _ _ _ _ (from_window_codec TCHeader_codec h _ data Hd Hwf ltac:(lia) Ew)).
  case_decide as Hsc; [apply Z.eqb_neq in Hsc; rewrite Hsc; apply tc_drop_ok|].
  rewrite (proj2 (Z.eqb_eq _ _)) by lia. cbn [negb].
  set (total := Z.to_nat (total_frame_length h)) in *.
  assert (bool_decide (size data < total) || bool_decide (total < 7)
          = bool_decide (size data < total ∨ total < 7)) as ->.
  { do 3 case_bool_decide; try done; lia. }
  case_decide as Hlen.
  { rewrite bool_decide_eq_true_2 by done. rewrite tc_drop_ok. unfold total. by rewrite Z2Nat.id by lia. }
  rewrite bool_decide_eq_false_2 by done.
  assert (negb (accept_all_vcid s) && negb (tc_vc_id h =? tc_cfg_vc_id s)%Z
          = bool_decide (accept_all_vcid s = false ∧ tc_vc_id h ≠ tc_cfg_vc_id s)) as ->.
  { destruct (accept_all_vcid s), (Z.eqb_spec (tc_vc_id h) (tc_cfg_vc_id s)); case_bool_decide; naive_solver. }
  case_decide as Hv; [rewrite bool_decide_eq_true_2 by done; apply tc_drop_ok|].
  rewrite bool_decide_eq_false_2 by done.
  rewrite (comp_lift_ok _ _ _ _ (buffer_data_ok data Hd)).
  rewrite (comp_lift_ok _ _ _ _ (copy_from_ok 0 (total - 2) (window data) ltac:(lia))).
  change (slice 0 (total - 2) (window data)) with (take (total - 2) (window data)).
  assert (from_window (_ ← move_deser_to_offset (total - 2); TCTrailer_deserialize_from Big) data
          = Ret (MkTCTrailer (be_value (slice (total - 2) 2 (window data))))) as Et.
  { unfold TCTrailer_deserialize_from, deserialize_u16. rewrite from_window_map.
    by rewrite (from_window_at 2 (total - 2) data Hd) by lia. }
  rewrite (comp_lift_ok _ _ _ _ Et). cbn [tc_fecf].
  case_decide as Hc; [apply Z.eqb_neq in Hc; rewrite Hc; apply tc_drop_ok|].
  rewrite (proj2 (Z.eqb_eq _ _)) by lia. cbn [negb].
  assert (storage data ≠ []) as Hst by (intros E; destruct Hd as [Ho _]; rewrite E in Ho; cbn in Ho; lia).
  rewrite (comp_lift_ok _ _ _ _ (advance_forward 5 data Hd ltac:(lia) Hst)).
  assert (set_size (total - 5 - 2) (set_window (offset data + 5) (size data - 5) data) = Ret (tc_data_buffer total data)) as Es.
  { unfold set_size, Buffer_capacity. cbn. destruct Hd. by rewrite bool_decide_eq_true_2 by lia. }
  rewrite (comp_lift_ok _ _ _ _ Es). rewrite wrap_small by (unfold is_u; lia). done.
Qed.

Lemma tc_data_window total b :
  7 ≤ total → total ≤ size b → window (tc_data_buffer total b) = slice 5 (total - 7) (window b).
Proof.
  intros Hn Hs. unfold tc_data_buffer, window, slice. cbn [offset size storage set_window].
  change TC_HEADER_SIZE with 5. change TC_TRAILER_SIZE with 2.
  rewrite skipn_firstn_comm, take_take, drop_drop. f_equal. lia.
Qed.

(** * The detector meets the laws *)

Definition tc_detect_bytes (d : CcsdsTcFrameDetector) (cap : nat) (l : list Z) : DetectorStatus :=
  let h := tc_header_of l in
  let n := Z.to_nat (total_frame_length h) in
  if decide (length l < 7) then MoreDataNeeded 7
  else if decide (flags_and_sc_id h ≠ expected_flags_and_sc_id d) then NoFrameDetected
  else if decide (length l < n) then MoreDataNeeded n
  else if decide (n < 7) then NoFrameDetected
  else if decide (be_value (slice (n - 2) 2 l) = Crc16_compute (slice 0 (n - 2) l)) then FrameDetected n
  else NoFrameDetected.

Lemma ring_crc_ok `{BuildProfile} r n i c :
  ring_wf r → i + n ≤ allocated_size r → ring_crc n i c r = Ret (Crc16_update_all (slice i n (contents r)) c).
Proof.
  intros Hr. revert i c. induction n as [|n IH]; intros i c Hn; [done|].
  cbn [ring_crc]. destruct (peek_u8_ok r i Hr ltac:(lia)) as (x & Hx & ->).
  rewrite outcome_bind_ret, IH by lia. f_equal.
  assert (slice i (S n) (contents r) = x :: slice (S i) n (contents r)) as ->; [|done].
  unfold slice. by rewrite (drop_S _ _ _ Hx).
Qed.

Lemma decode_bytes_ok {A} (c : codec A) a bs :
  c_valid c a → bs = c_enc c Big a → decode_bytes (c_deser c Big) bs = Ret a.
Proof.
  intros Ha ->. unfold decode_bytes, ext_buf_with_len. rewrite bool_decide_eq_true_2 by done.
  cbn [fw_assert]. rewrite !outcome_bind_ret.
  rewrite (c_deser_ok c a Big Ha _ []); [done| |].
  - split_and!; cbn; [lia|unfold capacity; cbn; lia|apply c_enc_bytes].
  - unfold remaining_slice, as_slice. cbn. by rewrite take_ge, app_nil_r by lia.
Qed.

Lemma decode_map {X Y} (d : SerM X) (g : X → Y) bs :
  decode_bytes (x ← d; mret (g x)) bs = match decode_bytes d bs with Ret x => Ret (g x) | Panic => Panic end.
Proof.
  unfold decode_bytes. destruct (ext_buf_with_len bs (length bs)) as [ser|]; [|done].
  rewrite !outcome_bind_ret. unfold mbind, SerM_bind. by destruct (d ser) as [[?|?|] ?].
Qed.

Lemma length_tc_enc h : length (TCHeader_enc Big h) = 5.
Proof. unfold TCHeader_enc. by rewrite !length_app, !length_int_bytes. Qed.

Lemma tc_detect_ok `{BuildProfile} d r :
  ring_wf r → tc_detect d r = Ret (tc_detect_bytes d (length (store r)) (contents r)).
Proof.
  intros Hr. unfold tc_detect, tc_detect_bytes, get_allocated_size. rewrite length_contents.
  pose proof (contents_bytes r Hr) as Hb. pose proof (length_contents r) as Hl.
  change TC_DETECTOR_MIN_FRAME_SIZE with 7. change TC_HEADER_SIZE with 5. change TC_TRAILER_SIZE with 2. cbv zeta.
  case_bool_decide as Hmin; [by rewrite decide_True|rewrite decide_False by done].
  rewrite peek_bytes_ok, outcome_bind_ret by (done || lia).
  destruct (tc_header_of_ok (contents r) Hb) as [Hwf Ew]; [change TC_HEADER_SIZE with 5; lia|].
  destruct (tc_total_range (contents r) Hb ltac:(lia)) as [Htot _].
  set (h := tc_header_of (contents r)) in *.
  assert (decode_bytes (TCHeader_deserialize_from Big) (slice 0 5 (contents r)) = Ret h) as Eh.
  { apply (decode_bytes_ok TCHeader_codec h); [done|]. unfold slice. rewrite drop_0, Ew.
    exact (take_app_length' (TCHeader_enc Big h) _ 5 (length_tc_enc h)). }
  rewrite Eh, outcome_bind_ret. set (n := Z.to_nat (total_frame_length h)) in *.
  case_decide as Hf; [apply Z.eqb_neq in Hf; by rewrite Hf|].
  rewrite (proj2 (Z.eqb_eq _ _)) by lia. cbn [negb].
  case_bool_decide as Hav; [by rewrite decide_True|rewrite decide_False by done].
  case_bool_decide as Hsm; [by rewrite decide_True|rewrite decide_False by done].
  rewrite ring_crc_ok, outcome_bind_ret by (done || lia).
  rewrite peek_bytes_ok, outcome_bind_ret by (done || lia).
  change (Crc16_finalize (Crc16_update_all ?x Crc16_new)) with (Crc16_compute x).
  set (tb := slice (n - 2) 2 (contents r)).
  assert (Forall is_byte tb ∧ length tb = 2) as [Htb Hltb] by (split; [by apply Forall_slice|apply length_slice; lia]).
  assert (decode_bytes (TCTrailer_deserialize_from Big) tb = Ret (MkTCTrailer (be_value tb))) as Et.
  { unfold TCTrailer_deserialize_from. rewrite decode_map.
    assert (decode_bytes (deserialize_u16 Big) tb = Ret (be_value tb)) as ->; [|done].
    apply (decode_bytes_ok u16_codec (be_value tb) tb).
    - pose proof (be_value_bounds tb Htb) as Hbd. rewrite Hltb in Hbd. exact Hbd.
    - pose proof (be_bytes_be_value tb Htb) as E. rewrite Hltb in E. by symmetry. }
  rewrite Et, outcome_bind_ret. cbn [tc_fecf].
  case_decide as Hc; [rewrite (proj2 (Z.eqb_eq _ _)) by done; done|apply Z.eqb_neq in Hc; by rewrite Hc].
Qed.

Lemma tc_header_of_prefix l c : 5 ≤ length l → tc_header_of (l ++ c) = tc_header_of l.
Proof. intros Hl. unfold tc_header_of. by rewrite !slice_app_prefix by lia. Qed.

#[export] Instance CcsdsTcFrameDetector_laws `{BuildProfile} : FrameDetectorLaws CcsdsTcFrameDetector.
Proof.
  refine {| detect_bytes := tc_detect_bytes; detect_ok := tc_detect_ok |}.
  - intros d cap l n. unfold tc_detect_bytes. repeat case_decide; try done. intros [= <-]. lia.
  - intros d cap l n. unfold tc_detect_bytes. repeat case_decide; try done; by intros [= <-].
  - intros d cap l c Hb. unfold tc_detect_bytes. rewrite length_app.
    destruct (decide (length l < 7)) as [Hs|Hs].
    { cbn [verdict]. destruct (decide (cap < 7)) as [Hc|Hc]; [|done]. intros _.
      case_decide; [cbn [verdict]; by rewrite decide_True|]. case_decide; [done|].
      case_decide; [cbn [verdict]; by rewrite decide_True by lia|]. case_decide; [done|].
      case_decide; [cbn [verdict]; by rewrite decide_True by lia|done]. }
    rewrite (decide_False (P := length l + length c < 7)) by lia. rewrite tc_header_of_prefix by lia.
    case_decide; [done|]. set (n := Z.to_nat _) in *.
    destruct (decide (length l < n)) as [Hn|Hn].
    { cbn [verdict]. destruct (decide (cap < n)) as [Hc|Hc]; [|done]. intros _.
      case_decide; [cbn [verdict]; by rewrite decide_True|]. rewrite decide_False by lia.
      case_decide; [cbn [verdict]; by rewrite decide_True|done]. }
    rewrite (decide_False (P := length l + length c < n)) by lia. case_decide; [done|].
    rewrite !slice_app_prefix by lia. done.
Defined.

(** * Frames on the wire *)

Definition tc_wire (h : TCHeader) (p : list Z) : list Z :=
  TCHeader_enc Big h ++ p ++ be_bytes 2 (Crc16_compute (TCHeader_enc Big h ++ p)).

Lemma length_tc_wire h p : length (tc_wire h p) = length p + 7.
Proof. unfold tc_wire. rewrite !length_app, length_tc_enc, length_be_bytes. lia. Qed.

Lemma tc_enc_bytes h p : Forall is_byte p → Forall is_byte (TCHeader_enc Big h ++ p).
Proof. intros. apply Forall_app. split; [apply (c_enc_bytes TCHeader_codec)|done]. Qed.

Lemma tc_wire_bytes h p : Forall is_byte p → Forall is_byte (tc_wire h p).
Proof.
  intros Hp. unfold tc_wire. rewrite app_assoc. apply Forall_app. split; [by apply tc_enc_bytes|apply be_bytes_is_byte].
Qed.

Lemma tc_header_of_wire h p rest :
  TCHeader_wf h → Forall is_byte p → tc_header_of (tc_wire h p ++ rest) = h.
Proof.
  intros Hh Hp. rewrite tc_header_of_prefix by (rewrite length_tc_wire; lia).
  destruct (tc_header_of_ok (tc_wire h p) (tc_wire_bytes h p Hp)) as [Hwf E].
  { rewrite length_tc_wire. change TC_HEADER_SIZE with 5. lia. }
  symmetry. apply (codec_prefix_free TCHeader_codec h (tc_header_of (tc_wire h p)) Big
    (p ++ be_bytes 2 (Crc16_compute (TCHeader_enc Big h ++ p))) (drop TC_HEADER_SIZE (tc_wire h p))); [done|done| |done].
  apply Forall_app. split; [done|apply be_bytes_is_byte].
Qed.

(** The checks of detector and deframer on a frame. *)
Lemma tc_wire_checks h p rest :
  TCHeader_wf h → Forall is_byte p → total_frame_length h = Z.of_nat (length p + 7) →
  let w := tc_wire h p ++ rest in
  let n := length p + 7 in
  tc_header_of w = h ∧ slice 0 (n - 2) w = TCHeader_enc Big h ++ p ∧
  be_value (slice (n - 2) 2 w) = Crc16_compute (slice 0 (n - 2) w) ∧ slice 5 (n - 7) w = p.
Proof.
  intros Hh Hp Htot w n. pose proof (length_tc_enc h) as Hle. set (crc := Crc16_compute (TCHeader_enc Big h ++ p)).
  assert (w = (TCHeader_enc Big h ++ p) ++ be_bytes 2 crc ++ rest) as Ew.
  { unfold w, tc_wire. fold crc. by rewrite <- !app_assoc. }
  assert (n - 2 = length (TCHeader_enc Big h ++ p)) as Hn2 by (rewrite length_app, Hle; unfold n; lia).
  assert (slice 0 (n - 2) w = TCHeader_enc Big h ++ p) as Hs.
  { unfold slice. rewrite drop_0, Ew, Hn2. apply take_app_length. }
  split; [by apply tc_header_of_wire|]. split; [done|]. split.
  - rewrite Hs. fold crc. rewrite Ew, Hn2. unfold slice. rewrite drop_app_length, take_app_length' by (by rewrite length_be_bytes).
    rewrite be_value_be_bytes. apply Z.mod_small. by apply (compute16_range _ (tc_enc_bytes h p Hp)).
  - unfold w, tc_wire. rewrite <- !app_assoc. replace (n - 7) with (length p) by (unfold n; lia).
    unfold slice. rewrite <- Hle, drop_app_length. apply take_app_length.
Qed.

(** ... and what passes them is a frame. *)
Lemma tc_checks_wire w n :
  Forall is_byte w → 7 ≤ n ≤ length w →
  be_value (slice (n - 2) 2 w) = Crc16_compute (take (n - 2) w) →
  w = tc_wire (tc_header_of w) (slice 5 (n - 7) w) ++ drop n w.
Proof.
  intros Hw Hn Hc. destruct (tc_header_of_ok w Hw) as [Hwf E]; [change TC_HEADER_SIZE with 5; lia|].
  change TC_HEADER_SIZE with 5 in E. set (h := tc_header_of w) in *.
  assert (take (n - 2) w = TCHeader_enc Big h ++ slice 5 (n - 7) w) as Hh.
  { rewrite E at 1. rewrite take_app_ge by (rewrite length_tc_enc; lia). rewrite length_tc_enc.
    unfold slice. do 2 f_equal. lia. }
  unfold tc_wire. rewrite <- Hh, <- Hc, be_value_slice_bytes by (done || lia).
  rewrite !app_assoc, <- Hh. rewrite <- (take_drop (n - 2) w) at 1. rewrite <- app_assoc. f_equal.
  unfold slice. replace n with (n - 2 + 2) at 3 by lia. rewrite <- drop_drop. symmetry. apply take_drop.
Qed.

(** * The deframer accepts exactly the frames addressed to it *)

(** The configuration accepts the frame header. *)
Definition tc_addressed (s : TcState) (h : TCHeader) : Prop :=
  tc_spacecraft_id h = tc_cfg_spacecraft_id s ∧ (accept_all_vcid s = true ∨ tc_vc_id h = tc_cfg_vc_id s).

Definition tc_is_event (o : TcOut) : Prop :=
  match o with TcErrorNotify _ | TcDataOut _ _ | TcDataReturnOut _ _ => False | _ => True end.

Lemma tc_spec_accept s data ctx h p rest :
  buffer_ok data → TCHeader_wf h → Forall is_byte p → total_frame_length h = Z.of_nat (length p + 7) →
  tc_addressed s h → 7 < size data → window data = tc_wire h p ++ rest →
  tc_deframe_spec s data ctx = [TcDataOut (tc_data_buffer (length p + 7) data) (set_vc_id (tc_vc_id h) ctx)] ∧
  window (tc_data_buffer (length p + 7) data) = p ∧ buffer_ok (tc_data_buffer (length p + 7) data).
Proof.
  intros Hd Hh Hp Htot [Hsc Hvc] Hsz Hw. pose proof (length_window data Hd) as Hl.
  destruct (tc_wire_checks h p rest Hh Hp Htot) as (Eh & Es & Ec & Ep). rewrite <- Hw in *.
  assert (length p + 7 ≤ size data) as Hfit.
  { rewrite <- Hl, Hw, length_app, length_tc_wire. lia. }
  unfold tc_deframe_spec. rewrite Eh, Htot, Nat2Z.id, Hl. rewrite (decide_False (P := size data ≤ 7)) by lia.
  rewrite (decide_False (P := tc_spacecraft_id h ≠ _)) by lia.
  rewrite (decide_False (P := size data < _ ∨ _)) by lia.
  rewrite (decide_False (P := accept_all_vcid s = false ∧ _)) by (destruct Hvc as [->|]; naive_solver).
  unfold slice at 1 in Ec. change (slice 0 (length p + 7 - 2) (window data)) with (take (length p + 7 - 2) (window data)) in Ec.
  rewrite (decide_False (P := be_value _ ≠ _)) by (intros []; exact Ec). split; [done|]. split.
  - rewrite tc_data_window by lia. exact Ep.
  - destruct Hd as [Ho Hb]. split; [|done]. unfold tc_data_buffer. cbn [offset size storage set_window].
    change TC_HEADER_SIZE with 5. change TC_TRAILER_SIZE with 2. lia.
Qed.

Lemma tc_spec_reject s data ctx :
  buffer_ok data →
  (∀ h p rest, TCHeader_wf h → Forall is_byte p → total_frame_length h = Z.of_nat (length p + 7) →
     tc_addressed s h → 7 < size data → window data ≠ tc_wire h p ++ rest) →
  ∃ ev es, tc_deframe_spec s data ctx = ev :: es ++ [TcDataReturnOut data ctx] ∧ tc_is_event ev ∧
           Forall (λ o, ∃ e, o = TcErrorNotify e) es.
Proof.
  intros Hd Hno. pose proof (window_bytes data Hd) as Hb. pose proof (length_window data Hd) as Hl.
  assert (∀ e, Forall (λ o, ∃ e', o = TcErrorNotify e') (tc_notify s e)) as Hnot.
  { intros e. unfold tc_notify. destruct (tc_error_notify_connected s); repeat constructor. by eexists. }
  unfold tc_deframe_spec. case_decide as Hmin; [by eexists _, []|].
  case_decide as Hsc; [eexists _, _; split; [done|]; by split|].
  destruct (tc_total_range (window data) Hb ltac:(lia)) as [Htot _].
  set (h := tc_header_of (window data)) in *. set (n := Z.to_nat (total_frame_length h)) in *.
  case_decide as Hlen; [eexists _, _; split; [done|]; by split|].
  case_decide as Hv; [eexists _, _; split; [done|]; by split|].
  case_decide as Hc; [eexists _, _; split; [done|]; by split|]. exfalso.
  apply (Hno h (slice 5 (n - 7) (window data)) (drop n (window data))).
  - apply tc_header_of_ok; [done|change TC_HEADER_SIZE with 5; lia].
  - by apply Forall_slice.
  - rewrite length_slice by lia. replace (n - 7 + 7) with n by lia. unfold n. lia.
  - split; [lia|]. destruct (accept_all_vcid s) eqn:Ea; [by left|right].
    destruct (decide (tc_vc_id h = tc_cfg_vc_id s)); [done|]. destruct Hv; done.
  - lia.
  - apply tc_checks_wire; [done|lia|].
    by destruct (decide (be_value (slice (n - 2) 2 (window data)) = Crc16_compute (take (n - 2) (window data)))).
Qed.

(** The TC deframer accepts exactly the frames addressed to it, on any
    buffer and in any configuration: when the window starts with a transfer
    frame of the configured spacecraft and channel whose length field and
    frame error control field are right, the data field is delivered once, as
    a view of the same storage, with the frame's virtual channel in the
    context; otherwise exactly one event is logged and the buffer goes back
    unchanged with its original context. *)
Theorem tc_deframer_accepts_exactly (s : TcState) (data : Buffer) (ctx : FrameContext) :
  buffer_ok data →
  ∃ outs, tc_data_in data ctx s = Ret (tt, s, outs) ∧
    (∀ h p rest, TCHeader_wf h → Forall is_byte p → total_frame_length h = Z.of_nat (length p + 7) →
       tc_addressed s h → 7 < size data → window data = tc_wire h p ++ rest →
       ∃ b, outs = [TcDataOut b (set_vc_id (tc_vc_id h) ctx)] ∧ window b = p ∧
            storage b = storage data ∧ context b = context data) ∧
    ((∀ h p rest, TCHeader_wf h → Forall is_byte p → total_frame_length h = Z.of_nat (length p + 7) →
        tc_addressed s h → 7 < size data → window data ≠ tc_wire h p ++ rest) →
     ∃ ev es, outs = ev :: es ++ [TcDataReturnOut data ctx] ∧ tc_is_event ev ∧
              Forall (λ o, ∃ e, o = TcErrorNotify e) es).
Proof.
  intros Hd. eexists. split; [by apply tc_data_in_spec|]. split.
  - intros h p rest Hh Hp Ht Ha Hs Hw.
    destruct (tc_spec_accept s data ctx h p rest Hd Hh Hp Ht Ha Hs Hw) as (-> & Hwp & _). by eexists.
  - by apply tc_spec_reject.
Qed.

Lemma tc_deframer_accepts_exactly_witness :
  let h := MkTCHeader 0x2044 0x0409 0 in
  let data := from_storage (tc_wire h [1; 2; 3]%Z ++ [9]%Z) 0 in
  let s := TcDeframer_new true in
  ∃ outs, tc_data_in data FrameContext_default s = Ret (tt, s, outs) ∧
    (∀ h p rest, TCHeader_wf h → Forall is_byte p → total_frame_length h = Z.of_nat (length p + 7) →
       tc_addressed s h → 7 < size data → window data = tc_wire h p ++ rest →
       ∃ b, outs = [TcDataOut b (set_vc_id (tc_vc_id h) FrameContext_default)] ∧ window b = p ∧
            storage b = storage data ∧ context b = context data) ∧
    ((∀ h p rest, TCHeader_wf h → Forall is_byte p → total_frame_length h = Z.of_nat (length p + 7) →
        tc_addressed s h → 7 < size data → window data ≠ tc_wire h p ++ rest) →
     ∃ ev es, outs = ev :: es ++ [TcDataReturnOut data FrameContext_default] ∧ tc_is_event ev ∧
              Forall (λ o, ∃ e, o = TcErrorNotify e) es).
Proof.
  apply (tc_deframer_accepts_exactly (TcDeframer_new true)
    (from_storage (tc_wire (MkTCHeader 0x2044 0x0409 0) [1; 2; 3]%Z ++ [9]%Z) 0) FrameContext_default).
  fp_decide.
Defined.

(** * The uplink: accumulator, TC deframer, space packet deframer *)

(** A space packet in a transfer frame: channel, frame sequence number,
    context and payload of the packet. *)
Record UplinkItem : Set := MkUplink {
  up_vc : Z;
  up_seq : Z;
  up_ctx : FrameContext;
  up_payload : list Z;
}.

Definition tc_header_for (vc seq : Z) (n : nat) : TCHeader :=
  MkTCHeader (build_flags_and_sc_id true false SPACECRAFT_ID) (vc * 2 ^ 10 + (Z.of_nat n - 1)) seq.
Definition uplink_packet (i : UplinkItem) (count : Z) : list Z := packet_of (up_ctx i) count (up_payload i).
Definition uplink_frame (i : UplinkItem) (count : Z) : list Z :=
  tc_wire (tc_header_for (up_vc i) (up_seq i) (length (up_payload i) + 13)) (uplink_packet i count).

Definition uplink_fits (cap : nat) (i : UplinkItem) : Prop :=
  (0 ≤ up_vc i < 64)%Z ∧ is_u 8 (up_seq i) ∧ apid (up_ctx i) ≠ ApidInvalidUninitialized ∧
  Forall is_byte (up_payload i) ∧ 0 < length (up_payload i) ∧ length (up_payload i) + 13 ≤ 1024 ∧
  length (up_payload i) + 13 ≤ cap.
#[export] Instance uplink_fits_dec cap i : Decision (uplink_fits cap i).
Proof. unfold uplink_fits; apply _. Defined.

Lemma tc_header_for_ok vc seq n :
  (0 ≤ vc < 64)%Z → is_u 8 seq → 1 ≤ n ≤ 1024 →
  let h := tc_header_for vc seq n in
  TCHeader_wf h ∧ flags_and_sc_id h = expected_flags_and_sc_id CcsdsTcFrameDetector_new ∧
  tc_spacecraft_id h = SPACECRAFT_ID ∧ tc_vc_id h = vc ∧ total_frame_length h = Z.of_nat n.
Proof.
  intros Hv Hs Hn h.
  assert (TCHeader_wf h) as (H1 & H2 & H3).
  { split_and!; cbn [flags_and_sc_id vc_id_and_length frame_sequence_num tc_header_for h]; [done| |done].
    unfold is_u. lia. }
  split; [done|]. split; [done|]. destruct (tc_accessors h H1 H2) as (-> & -> & ->).
  cbn [flags_and_sc_id vc_id_and_length tc_header_for h]. split; [done|].
  split; Z.to_euclidean_division_equations; lia.
Qed.

(** The builders of the code compute the header words. *)
Lemma tc_header_for_built `{BuildProfile} vc seq n :
  (0 ≤ vc < 64)%Z → 1 ≤ n ≤ 1024 →
  build_vc_id_and_length vc (Z.of_nat n) = Ret (vc_id_and_length (tc_header_for vc seq n)).
Proof.
  intros Hv Hn. rewrite vc_id_and_length_sum by lia. cbn [vc_id_and_length tc_header_for].
  by rewrite !Z.mod_small by lia.
Qed.

Section item.
Context (cap : nat) (i : UplinkItem) (c : Z) (Hi : uplink_fits cap i).
Let h := tc_header_for (up_vc i) (up_seq i) (length (up_payload i) + 13).

Lemma uplink_header :
  TCHeader_wf h ∧ flags_and_sc_id h = expected_flags_and_sc_id CcsdsTcFrameDetector_new ∧
  tc_spacecraft_id h = SPACECRAFT_ID ∧ tc_vc_id h = up_vc i ∧
  total_frame_length h = Z.of_nat (length (uplink_packet i c) + 7).
Proof.
  destruct Hi as (Hv & Hs & _ & _ & Hp & Hn & _).
  destruct (tc_header_for_ok (up_vc i) (up_seq i) (length (up_payload i) + 13) Hv Hs) as (? & ? & ? & ? & Ht); [lia|].
  unfold uplink_packet. rewrite length_packet_of. unfold SP_HEADER_SIZE. split_and!; try done.
  unfold h. rewrite Ht. lia.
Qed.

Lemma uplink_packet_bytes : Forall is_byte (uplink_packet i c).
Proof. unfold uplink_packet. apply packet_of_bytes. by destruct Hi as (_ & _ & _ & ? & _). Qed.

Lemma uplink_detected rest :
  tc_detect_bytes CcsdsTcFrameDetector_new cap (uplink_frame i c ++ rest) = FrameDetected (length (up_payload i) + 13).
Proof.
  destruct uplink_header as (Hwf & Hf & _ & _ & Ht). pose proof uplink_packet_bytes as Hb.
  assert (length (uplink_packet i c) = length (up_payload i) + 6) as Hl.
  { unfold uplink_packet. rewrite length_packet_of. unfold SP_HEADER_SIZE. lia. }
  destruct (tc_wire_checks h (uplink_packet i c) rest Hwf Hb Ht) as (Eh & _ & Ec & _).
  unfold uplink_frame. fold h. unfold tc_detect_bytes. rewrite Eh, Ht, Nat2Z.id, length_app, length_tc_wire, Hl in *.
  rewrite (decide_False (P := _ < 7)) by lia. rewrite (decide_False (P := flags_and_sc_id h ≠ _)) by tauto.
  rewrite (decide_False (P := _ < length (up_payload i) + 6 + 7)) by lia.
  rewrite (decide_False (P := length (up_payload i) + 6 + 7 < 7)) by lia.
  rewrite decide_True by done. f_equal. lia.
Qed.

Lemma length_uplink_frame : length (uplink_frame i c) = length (up_payload i) + 13.
Proof. unfold uplink_frame, uplink_packet. rewrite length_tc_wire, length_packet_of. unfold SP_HEADER_SIZE. lia. Qed.

Lemma uplink_deframes b ctx notify :
  buffer_ok b → window b = uplink_frame i c →
  ∃ b', tc_data_in b ctx (TcDeframer_new notify) =
          Ret (tt, TcDeframer_new notify, [TcDataOut b' (set_vc_id (up_vc i) ctx)]) ∧
        window b' = uplink_packet i c ∧ buffer_ok b'.
Proof.
  intros Hb Hw. destruct uplink_header as (Hwf & _ & Hsc & Hvc & Ht). pose proof uplink_packet_bytes as Hby.
  pose proof (length_window b Hb) as Hl. rewrite Hw, length_uplink_frame in Hl.
  destruct (tc_spec_accept (TcDeframer_new notify) b ctx h (uplink_packet i c) [] Hb Hwf Hby Ht) as (Es & Hwp & Hok).
  - split; [exact Hsc|by left].
  - destruct Hi as (_ & _ & _ & _ & ? & _). lia.
  - by rewrite app_nil_r.
  - exists (tc_data_buffer (length (uplink_packet i c) + 7) b). rewrite tc_data_in_spec, Es, Hvc by done. done.
Qed.
End item.

(** The chain behind the accumulator: each frame through both deframers. *)
Fixpoint tc_run (bs : list Buffer) (ctx : FrameContext) : TcM unit :=
  match bs with
  | [] => mret tt
  | b :: bs' => _ ← tc_data_in b ctx; tc_run bs' ctx
  end.
Fixpoint spd_run_ctx (bs : list (Buffer * FrameContext))
    : CompM (SpacePacketDeframer ApidState) (SpDfOut ApidOut) unit :=
  match bs with
  | [] => mret tt
  | (b, ctx) :: bs' => _ ← spd_data_in validate_apid_seq_count_in b ctx; spd_run_ctx bs'
  end.
Definition tc_delivered (outs : list TcOut) : list (Buffer * FrameContext) :=
  omap (λ o, match o with TcDataOut b c => Some (b, c) | _ => None end) outs.

(** The counts the ground puts into the packets. *)
Definition uplink_counts (items : list UplinkItem) (s : ApidState) : list Z :=
  (counters_run (GetCount ∘ apid ∘ up_ctx <$> items) (next_count s)).1.

Lemma uplink_counts_cons i items f :
  let c := f (apid (up_ctx i)) in
  (counters_run (GetCount ∘ apid ∘ up_ctx <$> i :: items) f).1 =
    c :: (counters_run (GetCount ∘ apid ∘ up_ctx <$> items) (set_count f (apid (up_ctx i)) ((c + 1) mod 2 ^ 14)%Z)).1.
Proof. intros c. rewrite fmap_cons.
  change ((GetCount ∘ apid ∘ up_ctx) i) with (GetCount (apid (up_ctx i))). by rewrite counters_run_get. Qed.

Lemma length_uplink_counts items s : length (uplink_counts items s) = length items.
Proof.
  unfold uplink_counts. generalize (next_count s). clear s. induction items as [|i items IH]; intros f; [done|].
  rewrite uplink_counts_cons. cbn [length]. by rewrite IH.
Qed.

Lemma uplink_stream_scans `{BuildProfile} cap items counts :
  Forall (uplink_fits cap) items → length counts = length items →
  scans CcsdsTcFrameDetector_new cap (concat (zip_with uplink_frame items counts)) (zip_with uplink_frame items counts) [].
Proof.
  intros Hit. revert counts. induction Hit as [|i items Hi _ IH]; intros [|c counts] Hl; try done; [by constructor; left|].
  cbn [zip_with concat]. pose proof (length_uplink_frame i c) as Hlf. pose proof (uplink_detected cap i c Hi) as Hdet.
  pose proof Hi as (_ & _ & _ & _ & _ & _ & Hcap). cbn in Hl.
  rewrite <- (take_app_length (uplink_frame i c) (concat (zip_with uplink_frame items counts))) at 2.
  apply scans_deliver.
  - intros [E _]%app_eq_nil. rewrite E in Hlf. cbn in Hlf. lia.
  - cbn [detect_bytes CcsdsTcFrameDetector_laws]. rewrite Hdet. cbn [verdict]. by rewrite decide_False, Hlf by lia.
  - rewrite drop_app_length. apply IH. lia.
Qed.

(** Both deframers over the frames, in order. *)
Lemma uplink_chain cap items bs ctx notify (d : SpacePacketDeframer ApidState) :
  Forall (uplink_fits cap) items → Forall buffer_ok bs → apid_ok (spd_manager d) →
  window <$> bs = zip_with uplink_frame items (uplink_counts items (spd_manager d)) →
  ∃ touts d' douts, tc_run bs ctx (TcDeframer_new notify) = Ret (tt, TcDeframer_new notify, touts) ∧
    Forall3 (λ i n o, ∃ b, o = TcDataOut b (set_vc_id (up_vc i) ctx) ∧ window b = uplink_packet i n)
      items (uplink_counts items (spd_manager d)) touts ∧
    spd_run_ctx (tc_delivered touts) d = Ret (tt, d', douts) ∧
    Forall3 (λ i n o, ∃ b, o = SpDfDataOut b (received_context (up_ctx i) n (set_vc_id (up_vc i) ctx)) ∧
                           window b = up_payload i)
      items (uplink_counts items (spd_manager d)) douts.
Proof.
  intros Hit. revert bs d. induction Hit as [|i items Hi _ IH]; intros bs d Hbs Hm Hw.
  { destruct bs; [|done]. exists [], d, []. split_and!; try done; constructor. }
  unfold uplink_counts in *. rewrite uplink_counts_cons in *. cbv zeta in *. cbn [zip_with] in Hw.
  destruct bs as [|b bs]; [done|]. cbn [fmap list_fmap] in Hw. injection Hw as Hwb Hws.
  apply Forall_cons in Hbs as [Hb Hbs]. set (c := next_count (spd_manager d) (apid (up_ctx i))) in *.
  destruct (uplink_deframes cap i c Hi b ctx notify Hb Hwb) as (b1 & E1 & Hw1 & Hok1).
  pose proof Hi as (_ & _ & Ha & Hpb & Hp0 & Hp1 & _).
  destruct (spd_packet_ok b1 (up_ctx i) c (up_payload i) (set_vc_id (up_vc i) ctx) d) as (d1 & b2 & E2 & Hw2 & Hm1 & Hn1);
    [done|done|done|done|lia|done|done|done|].
  set (g := set_count _ _ _) in *.
  assert (counters_run (GetCount ∘ apid ∘ up_ctx <$> items) (next_count (spd_manager d1))
    = counters_run (GetCount ∘ apid ∘ up_ctx <$> items) g) as Ers.
  { apply counters_run_ext. intros a. rewrite Hn1. done. }
  destruct (IH bs d1 Hbs Hm1) as (touts & d' & douts & E3 & Htc & E4 & Hall); [by rewrite Ers|].
  rewrite Ers in Hall, Htc.
  exists ([TcDataOut b1 (set_vc_id (up_vc i) ctx)] ++ touts), d',
    ([SpDfDataOut b2 (received_context (up_ctx i) c (set_vc_id (up_vc i) ctx))] ++ douts).
  cbn [tc_run]. rewrite (comp_bind_ret _ _ _ _ _ _ E1), E3. split; [done|]. split; [constructor; [by exists b1|done]|].
  change (tc_delivered ([TcDataOut b1 (set_vc_id (up_vc i) ctx)] ++ touts))
    with ((b1, set_vc_id (up_vc i) ctx) :: tc_delivered touts).
  cbn [spd_run_ctx]. rewrite (comp_bind_ret _ _ _ _ _ _ E2), E4. split; [done|].
  constructor; [|done]. by exists b2.
Qed.

(** C2. The CCSDS uplink end to end: any number of space packets, each in a TC
    transfer frame for this spacecraft on any virtual channel, sent as one
    byte stream cut into buffers at arbitrary places, come out of the
    accumulator as exactly their frames, and behind the TC deframer and the
    space packet deframer as exactly their payloads, in order, each with its
    virtual channel, APID, flags and count, with every incoming buffer given
    back. No component reports an event: the accumulator's outputs contain
    none, and each deframer emits one data output per item and nothing else.
    This holds as long as frames fit the ring, the allocator has buffers and
    the counts continue the onboard ones. (Configuring a ring of more than
    [isize::MAX] bytes panics.) *)
Theorem ccsds_uplink_end_to_end `{BuildProfile} `{AllocatorLive A} (a : A) (cap : nat) (items : list UplinkItem)
    (bs : list Buffer) (ctx : FrameContext) (notify : bool) (d : SpacePacketDeframer ApidState) :
  0 < cap → Forall (uplink_fits cap) items → Forall buffer_ok bs → apid_ok (spd_manager d) →
  concat (window <$> bs) = concat (zip_with uplink_frame items (uplink_counts items (spd_manager d))) →
  if decide (Z.of_nat cap ≤ ISIZE_MAX)%Z then
    ∃ s s' outs touts d' douts,
      configure CcsdsTcFrameDetector_new cap (FrameAccumulator_new a) = Ret s ∧
      acc_run bs ctx s = Ret (tt, s', outs) ∧ given_back outs = bs ∧ acc_events outs = [] ∧
      window <$> delivered outs = zip_with uplink_frame items (uplink_counts items (spd_manager d)) ∧
      tc_run (delivered outs) ctx (TcDeframer_new notify) = Ret (tt, TcDeframer_new notify, touts) ∧
      Forall3 (λ i n o, ∃ b, o = TcDataOut b (set_vc_id (up_vc i) ctx) ∧ window b = uplink_packet i n)
        items (uplink_counts items (spd_manager d)) touts ∧
      spd_run_ctx (tc_delivered touts) d = Ret (tt, d', douts) ∧
      Forall3 (λ i n o, ∃ b, o = SpDfDataOut b (received_context (up_ctx i) n (set_vc_id (up_vc i) ctx)) ∧
                             window b = up_payload i)
        items (uplink_counts items (spd_manager d)) douts
  else configure CcsdsTcFrameDetector_new cap (FrameAccumulator_new a) = Panic.
Proof.
  intros Hcap Hit Hbs Hm Heq. case_decide as Hmax; [|by apply configure_panics].
  destruct (configure_ok CcsdsTcFrameDetector_new a cap Hcap Hmax) as (s & r & E & Hs & Hl & Ha & Hc).
  destruct (acc_run_live bs ctx s _ r Hs ltac:(lia) Hbs (or_intror Hc)) as (s1 & outs & rest & E1 & Hsc1).
  destruct (acc_run_ok bs ctx s _ r Hs ltac:(lia) Hbs) as (s2 & r2 & outs2 & E2 & _ & _ & _ & Hd & Hg).
  rewrite E1 in E2. injection E2 as <- <-. rewrite Hc, Hl, Heq in Hsc1. cbn [app] in Hsc1.
  pose proof (uplink_stream_scans cap items _ Hit (length_uplink_counts items (spd_manager d))) as Hsc2.
  destruct (scans_unique _ _ _ _ _ _ _ Hsc1 Hsc2) as [Hw _].
  assert (Forall buffer_ok (delivered outs)) as Hok by (eapply Forall_impl; [exact Hd|]; by intros b [? _]).
  destruct (uplink_chain cap items (delivered outs) ctx notify d Hit Hok Hm Hw)
    as (touts & d' & douts & E3 & Htc & E4 & Hall).
  exists s, s1, outs, touts, d', douts. split_and!; try done.
  eapply (acc_run_no_event bs ctx s _ r); [done|lia|done|done|done|by rewrite Hw].
Qed.

Definition demo_uplink : list UplinkItem :=
  [MkUplink 1 0 (set_apid FwPacketCommand FrameContext_default) [1; 2; 3]%Z;
   MkUplink 2 1 (set_apid FwPacketFile FrameContext_default) [4]%Z;
   MkUplink 1 2 (set_apid FwPacketCommand FrameContext_default) [5; 6]%Z].
Definition demo_stream : list Z := concat (zip_with uplink_frame demo_uplink [0; 0; 1]%Z).

Lemma ccsds_uplink_end_to_end_witness :
  let P := true : BuildProfile in
  let bs := [from_storage (take 11 demo_stream) 0; from_storage (drop 11 demo_stream) 0] in
  let d := MkSpDeframer true ApidManager_new in
  ∃ s s' outs touts d' douts,
    configure CcsdsTcFrameDetector_new 32 (FrameAccumulator_new tt) = Ret s ∧
    acc_run bs FrameContext_default s = Ret (tt, s', outs) ∧ given_back outs = bs ∧ acc_events outs = [] ∧
    window <$> delivered outs = zip_with uplink_frame demo_uplink [0; 0; 1]%Z ∧
    tc_run (delivered outs) FrameContext_default (TcDeframer_new true) = Ret (tt, TcDeframer_new true, touts) ∧
    Forall3 (λ i n o, ∃ b, o = TcDataOut b (set_vc_id (up_vc i) FrameContext_default) ∧ window b = uplink_packet i n)
      demo_uplink [0; 0; 1]%Z touts ∧
    spd_run_ctx (tc_delivered touts) d = Ret (tt, d', douts) ∧
    Forall3 (λ i n o, ∃ b, o = SpDfDataOut b (received_context (up_ctx i) n (set_vc_id (up_vc i) FrameContext_default)) ∧
                           window b = up_payload i)
      demo_uplink [0; 0; 1]%Z douts.
Proof.
  intros P. apply (ccsds_uplink_end_to_end tt 32 demo_uplink
    [from_storage (take 11 demo_stream) 0; from_storage (drop 11 demo_stream) 0] FrameContext_default true
    (MkSpDeframer true ApidManager_new)); [lia|fp_decide|fp_decide|apply apid_ok_new|vm_compute; reflexivity].
Defined.

(** TC frame corruption is caught: a frame in which two consecutive bytes
    of the data field were changed is never delivered; the deframer reports
    the computed and the transmitted CRC and returns the buffer. *)
Theorem tc_deframer_rejects_burst (s : TcState) (data : Buffer) (ctx : FrameContext) (h : TCHeader)
    (pre suf rest : list Z) (a b a' b' : Z) :
  let p := pre ++ [a; b] ++ suf in let q := pre ++ [a'; b'] ++ suf in
  let crc := Crc16_compute (TCHeader_enc Big h ++ p) in
  buffer_ok data → TCHeader_wf h → total_frame_length h = Z.of_nat (length p + 7) → tc_addressed s h →
  Forall is_byte p → is_byte a' → is_byte b' → (a, b) ≠ (a', b') →
  window data = TCHeader_enc Big h ++ q ++ be_bytes 2 crc ++ rest →
  tc_data_in data ctx s =
    Ret (tt, s, TcEvInvalidCrc (Crc16_compute (TCHeader_enc Big h ++ q)) crc :: tc_notify s TcInvalidCrc
                  ++ [TcDataReturnOut data ctx]).
Proof.
  intros p q crc Hd Hh Ht [Hsc Hvc] Hp Ha' Hb' Hne Hw. pose proof (length_window data Hd) as Hl.
  apply Forall_app in Hp as [Hpre [Hab Hsuf]%Forall_app]. apply Forall_cons in Hab as [Ha [Hb _]%Forall_cons].
  assert (Forall is_byte q) as Hq by (unfold q; rewrite !Forall_app; auto).
  assert (length q = length p) as Hlq by (unfold p, q; rewrite !length_app; done).
  assert (crc ≠ Crc16_compute (TCHeader_enc Big h ++ q)) as Hcrc.
  { unfold crc, p, q. rewrite !app_assoc, <- !(app_assoc _ _ suf).
    apply (crc16_burst (TCHeader_enc Big h ++ pre)); try done. by apply tc_enc_bytes. }
  assert (is_u 16 crc) as Hcr.
  { apply compute16_range, tc_enc_bytes. unfold p. rewrite !Forall_app. auto. }
  assert (tc_header_of (window data) = h) as Eh.
  { pose proof (tc_header_of_wire h q [] Hh Hq) as E. unfold tc_wire in E. rewrite app_nil_r in E. rewrite Hw.
    unfold tc_header_of in *. rewrite !(slice_app_prefix _ _ (TCHeader_enc Big h)) in * by (rewrite length_tc_enc; lia).
    done. }
  assert (length (window data) = length q + 7 + length rest) as Hlw.
  { rewrite Hw, !length_app, length_tc_enc, length_be_bytes. lia. }
  assert (take (length p + 7 - 2) (window data) = TCHeader_enc Big h ++ q) as Etk.
  { rewrite Hw, app_assoc. apply take_app_length'. rewrite length_app, length_tc_enc. lia. }
  assert (be_value (slice (length p + 7 - 2) 2 (window data)) = crc) as Efe.
  { unfold slice. rewrite Hw, app_assoc. rewrite drop_app_length' by (rewrite length_app, length_tc_enc; lia).
    rewrite take_app_length' by (by rewrite length_be_bytes). rewrite be_value_be_bytes. by apply Z.mod_small. }
  assert (2 ≤ length p) as Hp2 by (unfold p; rewrite !length_app; cbn; lia).
  rewrite tc_data_in_spec by done. unfold tc_deframe_spec. rewrite Eh, Ht, Nat2Z.id, Etk, Efe.
  rewrite (decide_False (P := _ ≤ 7)) by lia. rewrite (decide_False (P := tc_spacecraft_id h ≠ _)) by lia.
  rewrite (decide_False (P := _ < _ ∨ _)) by lia.
  rewrite (decide_False (P := accept_all_vcid s = false ∧ _)) by (destruct Hvc as [->|]; naive_solver).
  by rewrite decide_True by done.
Qed.

Lemma tc_deframer_rejects_burst_witness :
  let h := MkTCHeader 0x2044 0x0409 0 in
  let s := TcDeframer_new true in
  let crc := Crc16_compute (TCHeader_enc Big h ++ [1; 2; 3]%Z) in
  let data := from_storage (TCHeader_enc Big h ++ [1; 7; 3]%Z ++ be_bytes 2 crc ++ []) 0 in
  tc_data_in data FrameContext_default s =
    Ret (tt, s, TcEvInvalidCrc (Crc16_compute (TCHeader_enc Big h ++ [1; 7; 3]%Z)) crc :: [TcErrorNotify TcInvalidCrc]
                  ++ [TcDataReturnOut data FrameContext_default]).
Proof.
  set (h := MkTCHeader 0x2044 0x0409 0).
  apply (tc_deframer_rejects_burst (TcDeframer_new true)
    (from_storage (TCHeader_enc Big h ++ [1; 7; 3]%Z ++
       be_bytes 2 (Crc16_compute (TCHeader_enc Big h ++ [1; 2; 3]%Z)) ++ []) 0)
    FrameContext_default h [1]%Z [] [] 2 3 7 3);
    [fp_decide|split_and!; fp_decide|reflexivity|split; [reflexivity|by left]|fp_decide|fp_decide|fp_decide|done|reflexivity].
Defined.
