(* ===== verification/BufferManager.v ===== *)
(** The buffer pool [Svc::BufferManager],
    [crates/fprime-svc/src/buffer_manager.rs]: fixed slots handed out first
    fit and identified on return by the context word of the buffer.

    A slot's storage moves into the buffer on loan and back on return.  The
    [u32] counters follow the build profile. *)

From S2P Require Import Prelude Buffer Comp.

(** * Data *)

Record BufferBin : Set := MkBin { buffer_size : nat; num_buffers : nat }.

Record Slot : Set := MkSlot {
  slot_storage : option (list Z);
  slot_size : nat;
  allocated : bool;
}.

Record BufferManager : Set := MkBM {
  setup_done : bool;
  was_setup : bool;
  mgr_id : Z;
  slots : list Slot;
  high_water : Z;
  curr_buffs : Z;
  no_buffs : Z;
  empty_buffs : Z;
  last_tlm : list (option Z);
  no_buffs_throttle : EventThrottle;
  null_empty_throttle : EventThrottle;
}.

Inductive BmOut : Set :=
| BmNoBuffsAvailable (size : nat)
| BmNullEmptyBuffer
| BmTlmWrite (chan : Z) (value : Z).

Definition MAX_NUM_BINS : nat := 10.
Definition EVENT_THROTTLE : Z := 10.
Definition CHANID_TOTAL_BUFFS : Z := 0.
Definition CHANID_CURR_BUFFS : Z := 1.
Definition CHANID_HI_BUFFS : Z := 2.
Definition CHANID_NO_BUFFS : Z := 3.
Definition CHANID_EMPTY_BUFFS : Z := 4.

Definition BufferManager_new : BufferManager :=
  MkBM false false 0 [] 0 0 0 0 (replicate 5 None)
    (EventThrottle_new EVENT_THROTTLE) (EventThrottle_new EVENT_THROTTLE).

Definition set_slots (sl : list Slot) (m : BufferManager) : BufferManager :=
  MkBM (setup_done m) (was_setup m) (mgr_id m) sl (high_water m) (curr_buffs m) (no_buffs m)
    (empty_buffs m) (last_tlm m) (no_buffs_throttle m) (null_empty_throttle m).
Definition set_counts (hw cb nb eb : Z) (m : BufferManager) : BufferManager :=
  MkBM (setup_done m) (was_setup m) (mgr_id m) (slots m) hw cb nb eb (last_tlm m)
    (no_buffs_throttle m) (null_empty_throttle m).

(** * Operations *)

(** The slot count, asserted to fit 16 bits. *)
Fixpoint count_slots (bins : list BufferBin) (n : nat) : outcome nat :=
  match bins with
  | [] => Ret n
  | b :: bins' =>
      _ ← fw_assert (bool_decide (Z.of_nat (n + num_buffers b) ≤ 65535)%Z);
      count_slots bins' (n + num_buffers b)
  end.

Definition bin_slots (b : BufferBin) : list Slot :=
  replicate (num_buffers b) (MkSlot (Some (replicate (buffer_size b) 0%Z)) (buffer_size b) false).

(** [setup(mgr_id, bins)]. *)
Definition setup (mgr : Z) (bins : list BufferBin) (m : BufferManager) : outcome BufferManager :=
  _ ← fw_assert (bool_decide (length bins ≤ MAX_NUM_BINS));
  _ ← fw_assert (negb (setup_done m));
  _ ← count_slots bins 0;
  Ret (MkBM true true mgr (concat (bin_slots <$> bins)) (high_water m) (curr_buffs m) (no_buffs m)
         (empty_buffs m) (last_tlm m) (no_buffs_throttle m) (null_empty_throttle m)).

(** [cleanup()]. *)
Definition cleanup (m : BufferManager) : outcome BufferManager :=
  _ ← fw_assert (was_setup m);
  Ret (if setup_done m
       then MkBM false (was_setup m) (mgr_id m) [] (high_water m) (curr_buffs m) (no_buffs m)
              (empty_buffs m) (last_tlm m) (no_buffs_throttle m) (null_empty_throttle m)
       else m).

(** [slots.iter().position(..)]: the first free slot that is large enough. *)
Fixpoint first_fit (size : nat) (sl : list Slot) : option nat :=
  match sl with
  | [] => None
  | s :: sl' =>
      if negb (allocated s) && bool_decide (size ≤ slot_size s) then Some 0
      else S <$> first_fit size sl'
  end.

Section ops.
Context `{BuildProfile}.
Abbreviation M := (CompM BufferManager BmOut).

Definition ok_no_buffs : M bool := λ m,
  let '(ok, t) := ok_to_emit (no_buffs_throttle m) in
  Ret (ok, MkBM (setup_done m) (was_setup m) (mgr_id m) (slots m) (high_water m) (curr_buffs m)
             (no_buffs m) (empty_buffs m) (last_tlm m) t (null_empty_throttle m), []).
Definition ok_null_empty : M bool := λ m,
  let '(ok, t) := ok_to_emit (null_empty_throttle m) in
  Ret (ok, MkBM (setup_done m) (was_setup m) (mgr_id m) (slots m) (high_water m) (curr_buffs m)
             (no_buffs m) (empty_buffs m) (last_tlm m) (no_buffs_throttle m) t, []).

(** [buffer_get_callee_handler(size)]. *)
Definition buffer_get (size : nat) : M Buffer :=
  m ← get_state;
  _ ← assert (setup_done m);
  match first_fit size (slots m) with
  | Some index =>
      cb ← lift (add_w 32 (curr_buffs m) 1);
      let hw := if (high_water m <? cb)%Z then cb else high_water m in
      slot ← lift (index_get (slots m) index);
      storage ← lift (match slot_storage slot with Some st => Ret st | None => Panic end);
      _ ← put_state (set_slots (<[index := MkSlot None (slot_size slot) true]> (slots m))
                      (set_counts hw cb (no_buffs m) (empty_buffs m) m));
      let context := Z.lor (Z.shiftl (mgr_id m) 16) (Z.of_nat index) in
      lift (set_size size (from_storage storage context))
  | None =>
      nb ← lift (add_w 32 (no_buffs m) 1);
      _ ← put_state (set_counts (high_water m) (curr_buffs m) nb (empty_buffs m) m);
      ok ← ok_no_buffs;
      _ ← when ok (emit (BmNoBuffsAvailable size));
      mret Buffer_empty
  end.

(** [buffer_send_in_handler(buffer)]. *)
Definition buffer_send_in (buffer : Buffer) : M unit :=
  m ← get_state;
  _ ← assert (setup_done m);
  if bool_decide (Buffer_capacity buffer = 0) && bool_decide (size buffer = 0) then
    eb ← lift (add_w 32 (empty_buffs m) 1);
    _ ← put_state (set_counts (high_water m) (curr_buffs m) (no_buffs m) eb m);
    ok ← ok_null_empty;
    when ok (emit BmNullEmptyBuffer)
  else
    let id := Z.to_nat (Z.land (context buffer) 0xFFFF) in
    let mgr := Z.shiftr (context buffer) 16 in
    _ ← assert (bool_decide (id < length (slots m)));
    _ ← assert (mgr =? mgr_id m)%Z;
    slot ← lift (index_get (slots m) id);
    _ ← assert (allocated slot);
    _ ← assert (bool_decide (Buffer_capacity buffer = slot_size slot));
    _ ← assert (bool_decide (size buffer ≤ slot_size slot));
    cb ← lift (sub_w 32 (curr_buffs m) 1);
    put_state (set_slots (<[id := MkSlot (Some (storage buffer)) (slot_size slot) false]> (slots m))
                (set_counts (high_water m) cb (no_buffs m) (empty_buffs m) m)).

(** The channels [sched_in_handler] writes when their value changed. *)
Fixpoint changed (vals : list (Z * Z)) (last : list (option Z)) : list (option Z) * list (Z * Z) :=
  match vals, last with
  | (chan, v) :: vals', l :: last' =>
      let '(last'', ws) := changed vals' last' in
      if decide (l = Some v) then (l :: last'', ws) else (Some v :: last'', (chan, v) :: ws)
  | _, _ => (last, [])
  end.

Fixpoint write_all (ws : list (Z * Z)) : M unit :=
  match ws with
  | [] => mret tt
  | (chan, v) :: ws' => _ ← emit (BmTlmWrite chan v); write_all ws'
  end.

(** [sched_in_handler]. *)
Definition bm_sched_in : M unit :=
  m ← get_state;
  let vals := [(CHANID_HI_BUFFS, high_water m); (CHANID_CURR_BUFFS, curr_buffs m);
               (CHANID_TOTAL_BUFFS, Z.of_nat (length (slots m))); (CHANID_NO_BUFFS, no_buffs m);
               (CHANID_EMPTY_BUFFS, empty_buffs m)] in
  let '(last, ws) := changed vals (last_tlm m) in
  _ ← put_state (MkBM (setup_done m) (was_setup m) (mgr_id m) (slots m) (high_water m) (curr_buffs m)
                   (no_buffs m) (empty_buffs m) last (no_buffs_throttle m) (null_empty_throttle m));
  write_all ws.
End ops.

(** * Invariant *)

(** A slot holds its storage exactly while it is free. *)
Definition slot_ok (s : Slot) : Prop :=
  match slot_storage s with
  | Some st => allocated s = false ∧ length st = slot_size s ∧ Forall is_byte st
  | None => allocated s = true
  end.

(** The slot a buffer came from and the context word of a slot. *)
Definition slot_of (b : Buffer) : nat := Z.to_nat (Z.land (context b) 0xFFFF).
Definition slot_context (m : BufferManager) (i : nat) : Z :=
  Z.lor (Z.shiftl (mgr_id m) 16) (Z.of_nat i).

(** The pool with the buffers [out] on loan. *)
Record pool_rel (m : BufferManager) (out : list Buffer) : Prop := {
  pr_setup : setup_done m = true;
  pr_mgr : is_u 16 (mgr_id m);
  pr_count : (Z.of_nat (length (slots m)) ≤ 65535)%Z;
  pr_slots : Forall slot_ok (slots m);
  pr_dup : NoDup (slot_of <$> out);
  pr_loaned : ∀ i, i ∈ (slot_of <$> out) ↔ allocated <$> slots m !! i = Some true;
  pr_out : Forall (λ b, context b = slot_context m (slot_of b) ∧
                        slot_size <$> slots m !! slot_of b = Some (length (storage b))) out;
  pr_curr : curr_buffs m = Z.of_nat (length out);
  pr_high : (curr_buffs m ≤ high_water m)%Z;
}.

(** * Lemmas *)

Lemma context_decode mgr i :
  is_u 16 mgr → (Z.of_nat i ≤ 65535)%Z →
  Z.to_nat (Z.land (Z.lor (Z.shiftl mgr 16) (Z.of_nat i)) 0xFFFF) = i ∧
  Z.shiftr (Z.lor (Z.shiftl mgr 16) (Z.of_nat i)) 16 = mgr.
Proof.
  intros [H1 H2] Hi. rewrite shift_or by lia.
  change 0xFFFF%Z with (Z.ones 16). rewrite Z.land_ones, Z.shiftr_div_pow2 by lia.
  rewrite Z.add_comm, Z.mod_add, Z.div_add, Z.mod_small, Z.div_small by lia. lia.
Qed.

Lemma first_fit_spec n sl :
  match first_fit n sl with
  | Some i => ∃ s, sl !! i = Some s ∧ allocated s = false ∧ n ≤ slot_size s
  | None => Forall (λ s, allocated s = true ∨ slot_size s < n) sl
  end.
Proof.
  induction sl as [|s sl IH]; [constructor|]. cbn [first_fit].
  destruct (negb (allocated s) && bool_decide (n ≤ slot_size s)) eqn:E.
  - apply andb_true_iff in E as [E1%negb_true_iff E2%bool_decide_eq_true_1]. by exists s.
  - destruct (first_fit n sl) as [i|]; cbn; [done|]. constructor; [|done].
    apply andb_false_iff in E as [E%negb_false_iff|E%bool_decide_eq_false_1]; [by left|right; lia].
Qed.

(** No more loans than slots. *)
Lemma loans_bound m out : pool_rel m out → length out ≤ length (slots m).
Proof.
  intros []. rewrite <- (length_fmap slot_of), <- (length_seq (length (slots m)) 0).
  apply submseteq_length, NoDup_submseteq; [done|]. intros i Hi. apply elem_of_seq.
  apply pr_loaned0 in Hi. destruct (slots m !! i) eqn:E; [|done]. apply lookup_lt_Some in E. lia.
Qed.

Lemma slots_alter_loaned (sl : list Slot) i s s' j :
  sl !! i = Some s →
  allocated <$> <[i:=s']> sl !! j = if decide (j = i) then Some (allocated s') else allocated <$> sl !! j.
Proof.
  intros Hi. pose proof (lookup_lt_Some _ _ _ Hi). case_decide as Hj.
  - subst j. by rewrite list_lookup_insert_eq.
  - by rewrite list_lookup_insert_ne.
Qed.

Lemma slots_alter_size (sl : list Slot) i s s' j :
  sl !! i = Some s → slot_size s' = slot_size s →
  slot_size <$> <[i:=s']> sl !! j = slot_size <$> sl !! j.
Proof.
  intros Hi Hs. pose proof (lookup_lt_Some _ _ _ Hi). destruct (decide (j = i)) as [->|Hj].
  - rewrite list_lookup_insert_eq by done. rewrite Hi. cbn. by rewrite Hs.
  - by rewrite list_lookup_insert_ne.
Qed.

Section facts.
Context `{BuildProfile}.

(** A successful request. *)
Lemma buffer_get_fits m out n i s :
  pool_rel m out → first_fit n (slots m) = Some i → slots m !! i = Some s → n ≤ slot_size s →
  ∃ b m', buffer_get n m = Ret (b, m', []) ∧ pool_rel m' (b :: out) ∧ size b = n ∧ offset b = 0 ∧
    buffer_ok b ∧ slot_of b = i ∧ length (storage b) = slot_size s ∧ no_buffs m' = no_buffs m ∧
    (slot_size <$> slots m') = (slot_size <$> slots m).
Proof.
  intros Hp Hf Hi Hn. pose proof (loans_bound m out Hp) as Hbound. pose proof Hp as [].
  pose proof (lookup_lt_Some _ _ _ Hi) as Hlt.
  pose proof (first_fit_spec n (slots m)) as Hs. rewrite Hf in Hs. destruct Hs as (s0 & Hi0 & Ha & _).
  rewrite Hi in Hi0. injection Hi0 as <-.
  pose proof (Forall_lookup_1 _ _ _ _ pr_slots0 Hi) as Hok. unfold slot_ok in Hok.
  destruct (slot_storage s) as [st|] eqn:Est; [|congruence]. destruct Hok as (_ & Hst & Hby).
  assert (add_w 32 (curr_buffs m) 1 = Ret (curr_buffs m + 1)%Z) as Eadd
    by (apply overflowing_in; unfold is_u; lia).
  destruct (context_decode (mgr_id m) i pr_mgr0 ltac:(lia)) as [Hd1 Hd2].
  set (ctx := slot_context m i). set (b := set_window 0 n (from_storage st ctx)).
  assert (set_size n (from_storage st ctx) = Ret b) as Eset.
  { unfold set_size, Buffer_capacity. cbn. by rewrite bool_decide_eq_true_2 by lia. }
  assert (slot_of b = i) as Hsb by exact Hd1.
  set (m' := set_slots (<[i := MkSlot None (slot_size s) true]> (slots m))
    (set_counts (if (high_water m <? curr_buffs m + 1)%Z then (curr_buffs m + 1)%Z else high_water m)
       (curr_buffs m + 1) (no_buffs m) (empty_buffs m) m)).
  exists b, m'. split_and!; try done.
  - unfold buffer_get. erewrite comp_bind_quiet; [|reflexivity].
    rewrite comp_assert_ok by done. rewrite Hf, (comp_lift_ok _ _ _ _ Eadd).
    rewrite (comp_lift_ok _ _ _ _ (index_get_ok _ _ _ Hi)), Est. erewrite comp_lift_ok; [|reflexivity].
    erewrite comp_bind_quiet; [|reflexivity]. unfold lift. fold (slot_context m i). fold ctx. by rewrite Eset.
  - assert (i ∉ slot_of <$> out) as Hnin by (rewrite pr_loaned0, Hi; cbn; congruence).
    constructor; cbn [setup_done mgr_id slots curr_buffs high_water m' set_slots set_counts fmap list_fmap length];
      rewrite ?Hsb; try done.
    + by rewrite length_insert.
    + by apply Forall_insert.
    + by constructor.
    + intros j. rewrite (slots_alter_loaned _ _ _ _ _ Hi). rewrite elem_of_cons. case_decide; naive_solver.
    + constructor.
      * rewrite Hsb. split; [done|]. rewrite (slots_alter_size _ _ s) by done. rewrite Hi. cbn. by rewrite Hst.
      * eapply Forall_impl; [done|]. intros b' [Hc Hz]. split; [done|]. by rewrite (slots_alter_size _ _ s).
    + lia.
    + destruct (Z.ltb_spec (high_water m) (curr_buffs m + 1)); lia.
  - split; [cbn; lia|done].
  - cbn. apply list_eq. intros j. rewrite !list_lookup_fmap. by apply (slots_alter_size _ _ s).
Qed.

(** A refused request changes only the failure counter and the throttle. *)
Lemma buffer_get_refused m out n :
  pool_rel m out → first_fit n (slots m) = None →
  (overflow_checks = true → is_u 32 (no_buffs m + 1)) →
  ∃ m' outs, buffer_get n m = Ret (Buffer_empty, m', outs) ∧ pool_rel m' out ∧ slots m' = slots m ∧
    (is_u 32 (no_buffs m + 1) → no_buffs m' = no_buffs m + 1)%Z.
Proof.
  intros Hp Hf Ho. pose proof Hp as [].
  assert (∃ nb, add_w 32 (no_buffs m) 1 = Ret nb ∧
    (is_u 32 (no_buffs m + 1) → nb = no_buffs m + 1)%Z) as (nb & Enb & Hnb).
  { unfold add_w, overflowing. case_bool_decide as Hb; [by eexists|].
    destruct overflow_checks; [|by eexists]. exfalso. by apply Hb, Ho. }
  unfold buffer_get. erewrite comp_bind_quiet; [|reflexivity]. rewrite comp_assert_ok by done.
  rewrite Hf, (comp_lift_ok _ _ _ _ Enb). erewrite comp_bind_quiet; [|reflexivity].
  destruct (ok_to_emit (no_buffs_throttle m)) as [ok t] eqn:Et.
  erewrite comp_bind_quiet; [|unfold ok_no_buffs; cbn [no_buffs_throttle set_counts]; rewrite Et; reflexivity].
  destruct ok; (eexists _, _; split; [reflexivity|]; split; [constructor; done|split; [reflexivity|exact Hnb]]).
Qed.

(** The return of a loaned buffer, whatever the borrower did to its content
    and window. *)
Lemma buffer_send_in_ok m l1 b l2 b' :
  pool_rel m (l1 ++ b :: l2) → context b' = context b → length (storage b') = length (storage b) →
  storage b' ≠ [] → buffer_ok b' →
  ∃ m', buffer_send_in b' m = Ret (tt, m', []) ∧ pool_rel m' (l1 ++ l2) ∧
        (slot_size <$> slots m') = (slot_size <$> slots m) ∧ no_buffs m' = no_buffs m.
Proof.
  intros Hp Hctx Hlen Hne [Hwin Hby]. pose proof (loans_bound m _ Hp) as Hbound. pose proof Hp as [].
  assert (slot_of b' = slot_of b) as Hso by (unfold slot_of; by rewrite Hctx).
  apply Forall_app in pr_out0 as [Ho1 [[Hc Hz] Ho2]%Forall_cons].
  assert (allocated <$> slots m !! slot_of b = Some true) as Hal.
  { apply pr_loaned0. rewrite fmap_app, fmap_cons. set_solver. }
  destruct (slots m !! slot_of b) as [s|] eqn:Hi; [|done]. cbn in Hal, Hz.
  injection Hal as Hal. injection Hz as Hz. pose proof (lookup_lt_Some _ _ _ Hi) as Hlt.
  destruct (context_decode (mgr_id m) (slot_of b) pr_mgr0 ltac:(lia)) as [Hd1 Hd2].
  assert (context b' = Z.lor (Z.shiftl (mgr_id m) 16) (Z.of_nat (slot_of b))) as Hcw by (by rewrite Hctx).
  rewrite length_app in pr_curr0, Hbound. cbn [length] in pr_curr0, Hbound.
  assert (sub_w 32 (curr_buffs m) 1 = Ret (curr_buffs m - 1)%Z) as Esub
    by (apply overflowing_in; unfold is_u; lia).
  set (m' := set_slots (<[slot_of b := MkSlot (Some (storage b')) (slot_size s) false]> (slots m))
    (set_counts (high_water m) (curr_buffs m - 1) (no_buffs m) (empty_buffs m) m)).
  exists m'. split_and!.
  - unfold buffer_send_in. erewrite comp_bind_quiet; [|reflexivity]. rewrite comp_assert_ok by done.
    rewrite (bool_decide_eq_false_2 (Buffer_capacity b' = 0)).
    2: { unfold Buffer_capacity. intros E. by apply Hne, nil_length_inv. }
    cbn [andb]. fold (slot_of b'). rewrite Hso.
    rewrite comp_assert_ok by (by apply bool_decide_eq_true_2).
    rewrite comp_assert_ok by (apply Z.eqb_eq; by rewrite Hcw).
    rewrite (comp_lift_ok _ _ _ _ (index_get_ok _ _ _ Hi)), comp_assert_ok by done.
    rewrite !comp_assert_ok by (apply bool_decide_eq_true_2; unfold Buffer_capacity; lia).
    by rewrite (comp_lift_ok _ _ _ _ Esub).
  - assert (NoDup (slot_of b :: (slot_of <$> l1 ++ l2))) as Hnd.
    { rewrite fmap_app. rewrite fmap_app, fmap_cons in pr_dup0.
      by rewrite Permutation_middle. }
    apply NoDup_cons in Hnd as [Hnin Hnd].
    constructor; cbn [setup_done mgr_id slots curr_buffs high_water m' set_slots set_counts]; try done.
    + by rewrite length_insert.
    + apply Forall_insert; [done|]. cbn. split_and!; [done|lia|done].
    + intros j. rewrite (slots_alter_loaned _ _ _ _ _ Hi). case_decide as Hj; cbn [allocated].
      * subst j. split; [done|congruence].
      * rewrite <- pr_loaned0, !fmap_app, fmap_cons. set_solver.
    + assert (∀ x, slot_size <$> <[slot_of b:=MkSlot (Some (storage b')) (slot_size s) false]> (slots m) !! x
                   = slot_size <$> slots m !! x) as Hsz by (intros x; by apply (slots_alter_size _ _ s)).
      apply Forall_app. split; (eapply Forall_impl; [done|]); intros c [? ?]; (split; [done|]); by rewrite Hsz.
    + rewrite length_app. lia.
    + lia.
  - cbn. apply list_eq. intros j. rewrite !list_lookup_fmap. by apply (slots_alter_size _ _ s).
  - done.
Qed.
End facts.

(** ** Setup *)

Lemma count_slots_ok bins n :
  (Z.of_nat (n + sum_list (num_buffers <$> bins)) ≤ 65535)%Z →
  count_slots bins n = Ret (n + sum_list (num_buffers <$> bins)).
Proof.
  revert n. induction bins as [|b bins IH]; intros n Hn; cbn in *; [by rewrite Nat.add_0_r|].
  rewrite bool_decide_eq_true_2 by lia. cbn. rewrite IH by lia. f_equal. lia.
Qed.

Lemma setup_ok mgr bins :
  is_u 16 mgr → length bins ≤ MAX_NUM_BINS → (Z.of_nat (sum_list (num_buffers <$> bins)) ≤ 65535)%Z →
  ∃ m, setup mgr bins BufferManager_new = Ret m ∧ pool_rel m [] ∧ no_buffs m = 0%Z ∧
       slots m = concat (bin_slots <$> bins).
Proof.
  intros Hm Hb Hs. unfold setup. rewrite bool_decide_eq_true_2 by done. cbn [fw_assert].
  rewrite outcome_bind_ret. cbn [BufferManager_new setup_done negb fw_assert]. rewrite outcome_bind_ret.
  rewrite count_slots_ok, outcome_bind_ret by done. eexists. split; [reflexivity|].
  assert (length (concat (bin_slots <$> bins)) = sum_list (num_buffers <$> bins)) as Hlen.
  { clear. induction bins as [|b bins IH]; [done|]. cbn. rewrite length_app, IH. unfold bin_slots.
    by rewrite length_replicate. }
  assert (∀ s, s ∈ concat (bin_slots <$> bins) → slot_ok s ∧ allocated s = false) as Hall.
  { intros s Hin. apply list_elem_of_In, in_concat in Hin as (l & Hl & Hin).
    apply list_elem_of_In, list_elem_of_fmap in Hl as (b & -> & _).
    apply list_elem_of_In, elem_of_replicate in Hin as [-> _]. split; [|done].
    split_and!; [done|apply length_replicate|apply Forall_replicate; unfold is_byte; lia]. }
  split_and!; [|done|done]. constructor; cbn; try done.
  - by rewrite Hlen.
  - apply Forall_forall. intros s Hin. by apply Hall.
  - constructor.
  - intros i. split; [by intros ?%not_elem_of_nil|].
    destruct (concat (bin_slots <$> bins) !! i) as [s|] eqn:E; cbn; [|done].
    apply list_elem_of_lookup_2 in E. apply Hall in E as [_ ->]. done.
Qed.

(** * Runs: requests and returns in any order *)

Inductive pool_op : Set :=
| PGet (n : nat)
| PReturn (k : nat) (content : list Z) (off sz : nat).

(** The borrower may rewrite the bytes and move the window of the [k]-th
    loaned buffer, within its storage, before giving it back. *)
Definition can_return (b : Buffer) (content : list Z) (off sz : nat) : Prop :=
  length content = length (storage b) ∧ off + sz ≤ length content ∧ Forall is_byte content.
#[export] Instance can_return_dec b c o z : Decision (can_return b c o z).
Proof. unfold can_return; apply _. Defined.

Definition pool_step `{BuildProfile} (o : pool_op) (m : BufferManager) (out : list Buffer)
    : outcome (BufferManager * list Buffer) :=
  match o with
  | PGet n =>
      '(b, m', _) ← buffer_get n m;
      Ret (m', if decide (storage b = []) then out else b :: out)
  | PReturn k content off sz =>
      match out !! k with
      | None => Ret (m, out)
      | Some b =>
          if decide (can_return b content off sz) then
            '(_, m', _) ← buffer_send_in (MkBuffer content off sz (context b)) m;
            Ret (m', take k out ++ drop (S k) out)
          else Ret (m, out)
      end
  end.

Fixpoint pool_run `{BuildProfile} (os : list pool_op) (m : BufferManager) (out : list Buffer)
    : outcome (BufferManager * list Buffer) :=
  match os with
  | [] => Ret (m, out)
  | o :: os' => '(m', out') ← pool_step o m out; pool_run os' m' out'
  end.

(** The pool state between operations. *)
Definition pool_state (m : BufferManager) (out : list Buffer) (k : Z) : Prop :=
  pool_rel m out ∧ Forall (λ s, 0 < slot_size s) (slots m) ∧ Forall (λ b, storage b ≠ []) out ∧
  (0 ≤ no_buffs m ≤ k)%Z.

Lemma sizes_positive m m' :
  (slot_size <$> slots m') = (slot_size <$> slots m) →
  Forall (λ s, 0 < slot_size s) (slots m) → Forall (λ s, 0 < slot_size s) (slots m').
Proof.
  intros E. change (Forall (λ s, 0 < slot_size s) ?l) with (Forall (Nat.lt 0 ∘ slot_size) l).
  rewrite <- !Forall_fmap. by rewrite E.
Qed.

Lemma pool_get_state `{BuildProfile} m out k n :
  pool_state m out k → (k < 2 ^ 32 - 1)%Z →
  ∃ b m' outs, buffer_get n m = Ret (b, m', outs) ∧
    pool_state m' (if decide (storage b = []) then out else b :: out) (k + 1) ∧
    (if decide (Exists (λ s, allocated s = false ∧ n ≤ slot_size s) (slots m))
     then storage b ≠ [] ∧ size b = n ∧ offset b = 0 ∧ buffer_ok b ∧ slot_of b ∉ (slot_of <$> out)
     else b = Buffer_empty).
Proof.
  intros (Hp & Hpos & Hne & Hnb) Hk. pose proof (first_fit_spec n (slots m)) as Hf.
  destruct (first_fit n (slots m)) as [i|] eqn:Ef.
  - destruct Hf as (s & Hi & Ha & Hn).
    destruct (buffer_get_fits m out n i s Hp Ef Hi Hn) as (b & m' & E & Hp' & Hsz & Hoff & Hok & Hso & Hls & Hnb' & Hss).
    assert (0 < slot_size s) as Hs by (by apply (Forall_lookup_1 _ _ _ _ Hpos Hi)).
    assert (storage b ≠ []) as Hst by (intros E0; rewrite E0 in Hls; cbn in Hls; lia).
    exists b, m', []. split; [done|]. rewrite decide_False by done. split.
    + split_and!; [done|by eapply sizes_positive|by constructor|lia|lia].
    + rewrite decide_True.
      2: { apply Exists_exists. exists s. split; [by eapply list_elem_of_lookup_2|done]. }
      split_and!; try done. pose proof (pr_dup _ _ Hp') as Hd. cbn in Hd. by apply NoDup_cons in Hd as [? _].
  - destruct (buffer_get_refused m out n Hp Ef) as (m' & outs & E & Hp' & Hsl & Hnb').
    { intros _. unfold is_u. lia. }
    exists Buffer_empty, m', outs. split; [done|]. rewrite decide_True by done. split.
    + specialize (Hnb' ltac:(unfold is_u; lia)). split_and!; [done|by rewrite Hsl|done|lia|lia].
    + rewrite decide_False; [done|]. intros Hex. rewrite Forall_forall in Hf.
      apply Exists_exists in Hex as (s & Hs & Hs1 & Hs2). destruct (Hf s Hs); [congruence|lia].
Qed.

Lemma pool_return_state `{BuildProfile} m out k b j content off sz :
  pool_state m out k → out !! j = Some b → can_return b content off sz →
  ∃ m', buffer_send_in (MkBuffer content off sz (context b)) m = Ret (tt, m', []) ∧
    pool_state m' (take j out ++ drop (S j) out) k.
Proof.
  intros (Hp & Hpos & Hne & Hnb) Hj (Hc1 & Hc2 & Hc3).
  pose proof (take_drop_middle _ _ _ Hj) as Hmid. rewrite <- Hmid in Hp.
  assert (storage b ≠ []) as Hst by (by apply (Forall_lookup_1 _ _ _ _ Hne Hj)).
  destruct (buffer_send_in_ok m _ b _ (MkBuffer content off sz (context b)) Hp)
    as (m' & E & Hp' & Hss & Hnb'); [done|done| |by split|].
  { cbn. intros ->. apply Hst. by apply nil_length_inv. }
  exists m'. split; [done|]. rewrite <- Hmid in Hne. apply Forall_app in Hne as [Hn1 [_ Hn2]%Forall_cons].
  split_and!; [done|by eapply sizes_positive|by apply Forall_app|lia|lia].
Qed.

Lemma pool_run_state `{BuildProfile} os m out k :
  pool_state m out k → (k + Z.of_nat (length os) < 2 ^ 32)%Z →
  ∃ m' out', pool_run os m out = Ret (m', out') ∧ pool_state m' out' (k + Z.of_nat (length os)).
Proof.
  revert m out k. induction os as [|o os IH]; intros m out k Hs Hk.
  { exists m, out. by rewrite Z.add_0_r. }
  cbn [pool_run length] in *.
  assert (∃ m1 out1, pool_step o m out = Ret (m1, out1) ∧ pool_state m1 out1 (k + 1)) as (m1 & out1 & -> & Hs1).
  { assert (pool_state m out (k + 1)) as Hs' by (destruct Hs as (? & ? & ? & ?); split_and!; (done || lia)).
    destruct o as [n|j content off sz]; cbn [pool_step].
    - destruct (pool_get_state m out k n Hs ltac:(lia)) as (b & m' & outs & E & Hst & _). rewrite E. by eexists _, _.
    - destruct (out !! j) as [b|] eqn:Ej; [|by eexists _, _].
      case_decide as Hc; [|by eexists _, _].
      destruct (pool_return_state m out (k + 1) b j content off sz Hs' Ej Hc) as (m' & E & Hst).
      rewrite E. by eexists _, _. }
  rewrite outcome_bind_ret. destruct (IH m1 out1 (k + 1)%Z Hs1 ltac:(lia)) as (m' & out' & E & Hst).
  exists m', out'. split; [done|]. by replace (k + Z.of_nat (S (length os)))%Z with (k + 1 + Z.of_nat (length os))%Z by lia.
Qed.

Lemma setup_state mgr bins :
  is_u 16 mgr → length bins ≤ MAX_NUM_BINS → (Z.of_nat (sum_list (num_buffers <$> bins)) ≤ 65535)%Z →
  Forall (λ b, 0 < buffer_size b) bins →
  ∃ m, setup mgr bins BufferManager_new = Ret m ∧ pool_state m [] 0.
Proof.
  intros Hm Hb Hs Hpos. destruct (setup_ok mgr bins Hm Hb Hs) as (m & E & Hp & Hnb & Hsl).
  exists m. split; [done|]. split_and!; [done| |constructor|lia|lia]. rewrite Hsl.
  apply Forall_concat, Forall_fmap. eapply Forall_impl; [done|]. intros b Hb'. by apply Forall_replicate.
Qed.

(** * Guarantees *)

(** C27. Loans are sound, for bins whose buffers have at least one byte (the
    return of an empty buffer is not recognised, see
    [zero_capacity_slot_leaks]): after any sequence of fewer than 2^32 - 1
    requests and returns (the
    borrower may have rewritten the bytes and moved the window), no assertion
    failed, every buffer on loan comes from a slot of its own, [curr_buffs]
    is their number and at most [high_water]; and the next request of [n]
    bytes is answered by a buffer with a window of [n] bytes from a slot not
    on loan exactly when some free slot is large enough, otherwise by an
    empty buffer. *)
Theorem pool_loans_sound `{BuildProfile} (mgr : Z) (bins : list BufferBin) (os : list pool_op) (n : nat) :
  is_u 16 mgr → length bins ≤ MAX_NUM_BINS → (Z.of_nat (sum_list (num_buffers <$> bins)) ≤ 65535)%Z →
  Forall (λ b, 0 < buffer_size b) bins → (Z.of_nat (length os) < 2 ^ 32 - 1)%Z →
  ∃ m0 m out, setup mgr bins BufferManager_new = Ret m0 ∧ pool_run os m0 [] = Ret (m, out) ∧
    NoDup (slot_of <$> out) ∧ curr_buffs m = Z.of_nat (length out) ∧ (curr_buffs m ≤ high_water m)%Z ∧
    ∃ b m' outs, buffer_get n m = Ret (b, m', outs) ∧
      if decide (Exists (λ s, allocated s = false ∧ n ≤ slot_size s) (slots m))
      then storage b ≠ [] ∧ size b = n ∧ offset b = 0 ∧ buffer_ok b ∧ slot_of b ∉ (slot_of <$> out)
      else b = Buffer_empty.
Proof.
  intros Hm Hb Hs Hpos Hk. destruct (setup_state mgr bins Hm Hb Hs Hpos) as (m0 & E0 & Hs0).
  destruct (pool_run_state os m0 [] 0 Hs0 ltac:(lia)) as (m & out & E & Hst).
  destruct (pool_get_state m out _ n Hst ltac:(lia)) as (b & m' & outs & Eg & _ & Hb').
  destruct Hst as (Hp & _). exists m0, m, out. split_and!; [done|done|apply Hp|apply Hp|apply Hp|].
  by exists b, m', outs.
Qed.

Lemma pool_loans_sound_witness :
  let os := [PGet 3; PGet 5; PReturn 0 [1; 2; 3; 4; 5; 6; 7; 8]%Z 0 2; PGet 9] in
  ∃ m0 m out, setup 7 [MkBin 4 2; MkBin 8 1] BufferManager_new = Ret m0 ∧
    pool_run (H := true) os m0 [] = Ret (m, out) ∧
    NoDup (slot_of <$> out) ∧ curr_buffs m = Z.of_nat (length out) ∧ (curr_buffs m ≤ high_water m)%Z ∧
    ∃ b m' outs, buffer_get (H := true) 4 m = Ret (b, m', outs) ∧
      if decide (Exists (λ s, allocated s = false ∧ 4 ≤ slot_size s) (slots m))
      then storage b ≠ [] ∧ size b = 4 ∧ offset b = 0 ∧ buffer_ok b ∧ slot_of b ∉ (slot_of <$> out)
      else b = Buffer_empty.
Proof.
  apply (pool_loans_sound (H := true) 7 [MkBin 4 2; MkBin 8 1]
    [PGet 3; PGet 5; PReturn 0 [1; 2; 3; 4; 5; 6; 7; 8]%Z 0 2; PGet 9] 4);
    [fp_decide|fp_decide|fp_decide|fp_decide|reflexivity].
Defined.

(** A slot of capacity zero cannot be returned: its buffer is taken for an
    empty one and the slot stays allocated. *)
Example zero_capacity_slot_leaks :
  (m0 ← setup 1 [MkBin 0 1] BufferManager_new;
   '(b, m1, _) ← buffer_get (H := true) 0 m0;
   '(_, m2, o) ← buffer_send_in (H := true) b m1;
   Ret (allocated <$> slots m2, curr_buffs m2, empty_buffs m2, o))
  = Ret ([true], 1%Z, 1%Z, [BmNullEmptyBuffer]).
Proof. reflexivity. Qed.

(** * The pool as the allocator of other components *)

(** Release builds: the failure counter wraps. *)
Definition release_profile : BuildProfile := false.

Record pool : Set := MkPool {
  pool_bm : BufferManager;
  pool_out : list Buffer;
  pool_ok : pool_rel pool_bm pool_out;
}.

Lemma pool_get_ok (p : pool) n b m' o :
  buffer_get (H := release_profile) n (pool_bm p) = Ret (b, m', o) →
  pool_rel m' (if decide (b = Buffer_empty) then pool_out p else b :: pool_out p) ∧ buffer_ok b ∧
  (is_valid b = true → size b = n).
Proof.
  destruct p as [m out Hp]. cbn. intros E. pose proof (first_fit_spec n (slots m)) as Hf.
  destruct (first_fit n (slots m)) as [i|] eqn:Ef.
  - destruct Hf as (s & Hi & Ha & Hn).
    destruct (buffer_get_fits (H := release_profile) m out n i s Hp Ef Hi Hn)
      as (b' & m'' & E' & Hp' & Hsz & _ & Hok & _).
    rewrite E in E'. injection E' as -> -> ->. rewrite decide_False; [done|].
    intros ->. pose proof (pr_out _ _ Hp') as Ho. apply Forall_cons in Ho as [[Hc Hz] _].
    assert (Z.of_nat (slot_of Buffer_empty) = 65535)%Z as He by (unfold slot_of; by rewrite Z2Nat.id).
    pose proof (pr_count _ _ Hp') as Hcnt.
    destruct (slots m'' !! slot_of Buffer_empty) eqn:El; [|done]. apply lookup_lt_Some in El. lia.
  - destruct (buffer_get_refused (H := release_profile) m out n Hp Ef) as (m'' & o' & E' & Hp' & _); [done|].
    rewrite E in E'. injection E' as -> -> ->. rewrite decide_True by done. split; [done|]. split; [|done].
    split; [cbn; lia|constructor].
Qed.

#[export] Instance pool_allocator : Allocator pool := λ n p,
  match buffer_get (H := release_profile) n (pool_bm p) as r
    return buffer_get (H := release_profile) n (pool_bm p) = r → Buffer * pool
  with
  | Ret (b, m', o) => λ E, (b, MkPool m' _ (proj1 (pool_get_ok p n b m' o E)))
  | Panic => λ _, (Buffer_empty, p)
  end eq_refl.

Lemma pool_alloc_cases n (p : pool) :
  (alloc_get n p).1 = Buffer_empty ∨
  ∃ b m' o, buffer_get (H := release_profile) n (pool_bm p) = Ret (b, m', o) ∧ (alloc_get n p).1 = b.
Proof.
  unfold alloc_get, pool_allocator. generalize (pool_get_ok p n).
  destruct (buffer_get n (pool_bm p)) as [[[b m'] o]|]; intros Hg; [right|by left]. by eexists _, _, _.
Qed.

(** The pool keeps the contract the framer and the accumulator rely on. *)
#[export] Instance pool_allocator_laws : AllocatorLaws pool.
Proof.
  split; intros n p; destruct (pool_alloc_cases n p) as [->|(b & m' & o & E & ->)].
  - split; [cbn; lia|constructor].
  - by eapply pool_get_ok.
  - done.
  - intros Hv. apply pool_get_ok in E as (_ & _ & Hs). rewrite (Hs Hv). lia.
Qed.
