(* ===== verification/FwString.v ===== *)
(** Fixed-capacity truncating strings, [crates/fprime-fw/src/string.rs].

    [FwString<N>] is an array of [N] bytes and a length; the capacity [N] is
    the length of the array.  UTF-8 views ([as_str], [Display], [format]) are
    not modelled: [set] and [append] are their byte versions applied to the
    UTF-8 bytes of the text. *)

From S2P Require Import Prelude Serial SerialFacts Codec.

(** * Data and operations *)

Record FwString : Set := MkString { bytes : list Z; len : nat }.

(** The index of the first NUL, or the length. *)
Fixpoint c_str_len (bs : list Z) : nat :=
  match bs with
  | [] => 0
  | b :: bs' => if (b =? 0)%Z then 0 else S (c_str_len bs')
  end.

Definition FwString_new (N : nat) : FwString := MkString (replicate N 0%Z) 0.

(** The string types the services use, by their capacity. *)
Definition FW_CMD_STRING_MAX_SIZE : nat := 40.
Definition FW_LOG_STRING_MAX_SIZE : nat := 200.
Definition FW_FIXED_LENGTH_STRING_SIZE : nat := 256.
Definition FwDefaultString_new : FwString := FwString_new FW_FIXED_LENGTH_STRING_SIZE.

Definition string_capacity (s : FwString) : nat := length (bytes s).

Definition set_bytes (src : list Z) (s : FwString) : FwString :=
  let n := c_str_len src `min` string_capacity s in
  MkString (splice 0 (take n src) (bytes s)) n.

Definition append_bytes (src : list Z) (s : FwString) : FwString :=
  let room := string_capacity s - len s in
  let n := c_str_len src `min` room in
  MkString (splice (len s) (take n src) (bytes s)) (len s + n).

Definition clear (s : FwString) : FwString := MkString (bytes s) 0.

Definition as_bytes (s : FwString) : list Z := take (len s) (bytes s).

(** [PartialEq]: the contents, not the storage. *)
Definition string_eqb (s t : FwString) : bool := bool_decide (as_bytes s = as_bytes t).

Definition string_serialized_size (s : FwString) : nat := 2 + len s.

Definition string_serialize_to (s : FwString) (_ : Endianness) : SerM unit :=
  serialize_bytes (as_bytes s) IncludeLength Big.

Definition serialize_to_truncated (s : FwString) (max_len : nat) (_ : Endianness) : SerM unit :=
  serialize_bytes (take (len s `min` max_len) (bytes s)) IncludeLength Big.

(** [deserialize_from]: the content is replaced on success only. *)
Definition string_deserialize_from (_ : Endianness) (s : FwString) : SerM FwString :=
  '(scratch, l) ← deserialize_bytes (replicate (string_capacity s) 0%Z) (string_capacity s) IncludeLength Big;
  let n := c_str_len (take l scratch) in
  mret (MkString (splice 0 (take n scratch) (bytes s)) n).

(** * Lemmas *)

(** Content without NUL, inside the storage. *)
Definition string_ok (s : FwString) : Prop :=
  len s ≤ string_capacity s ∧ Forall is_byte (bytes s) ∧ 0%Z ∉ as_bytes s.
#[export] Instance string_ok_dec s : Decision (string_ok s).
Proof. unfold string_ok. apply _. Defined.

Lemma c_str_len_le bs : c_str_len bs ≤ length bs.
Proof. induction bs as [|b bs IH]; cbn; [lia|]. destruct (b =? 0)%Z; lia. Qed.

Lemma c_str_len_no_nul bs n : n ≤ c_str_len bs → 0%Z ∉ take n bs.
Proof.
  revert n. induction bs as [|b bs IH]; intros [|n] Hn; cbn in *; try apply not_elem_of_nil.
  destruct (Z.eqb_spec b 0) as [|Hb]; [lia|]. apply not_elem_of_cons. split; [done|]. apply IH. lia.
Qed.

Lemma c_str_len_full bs : 0%Z ∉ bs → c_str_len bs = length bs.
Proof.
  induction bs as [|b bs IH]; intros H; cbn; [done|]. apply not_elem_of_cons in H as [Hb H].
  destruct (Z.eqb_spec b 0); [congruence|]. by rewrite IH.
Qed.

Lemma length_as_bytes s : string_ok s → length (as_bytes s) = len s.
Proof. intros (? & _). unfold as_bytes, string_capacity in *. rewrite length_take. lia. Qed.

(** A copy of [n] bytes at the front is the content. *)
Lemma as_bytes_splice bs n st :
  n ≤ length bs → n ≤ length st → as_bytes (MkString (splice 0 (take n bs) st) n) = take n bs.
Proof.
  intros H1 H2. unfold as_bytes. cbn. assert (n = length (take n bs)) as E by (rewrite length_take; lia).
  rewrite E at 1. apply (take_splice 0). lia.
Qed.

Lemma set_bytes_spec src s :
  Forall is_byte src → string_ok s →
  string_ok (set_bytes src s) ∧ string_capacity (set_bytes src s) = string_capacity s ∧
  as_bytes (set_bytes src s) = take (c_str_len src `min` string_capacity s) src.
Proof.
  intros Hsrc (Hl & Hb & _). pose proof (c_str_len_le src). unfold set_bytes, string_ok.
  set (n := c_str_len src `min` string_capacity s).
  assert (as_bytes (MkString (splice 0 (take n src) (bytes s)) n) = take n src) as E.
  { apply as_bytes_splice; unfold string_capacity in *; lia. }
  assert (length (splice 0 (take n src) (bytes s)) = length (bytes s)) as El.
  { rewrite length_splice; [done|]. rewrite length_take. unfold string_capacity in *. lia. }
  split_and!; try done.
  - unfold string_capacity in *. cbn. lia.
  - cbn. apply Forall_splice; [done|by apply Forall_take].
  - rewrite E. apply c_str_len_no_nul. lia.
Qed.

Lemma append_bytes_spec src s :
  Forall is_byte src → string_ok s →
  string_ok (append_bytes src s) ∧ string_capacity (append_bytes src s) = string_capacity s ∧
  as_bytes (append_bytes src s) = as_bytes s ++ take (c_str_len src `min` (string_capacity s - len s)) src.
Proof.
  intros Hsrc (Hl & Hb & Hn). pose proof (c_str_len_le src). unfold append_bytes, string_ok.
  set (n := c_str_len src `min` (string_capacity s - len s)).
  assert (length (take n src) = n) as Elen by (rewrite length_take; lia).
  assert (as_bytes (MkString (splice (len s) (take n src) (bytes s)) (len s + n)) = as_bytes s ++ take n src) as E.
  { unfold as_bytes at 1. cbn. rewrite <-Elen at 1. apply take_splice. unfold string_capacity in *. lia. }
  assert (length (splice (len s) (take n src) (bytes s)) = length (bytes s)) as El.
  { apply length_splice. unfold string_capacity in *. lia. }
  split_and!; try done.
  - unfold string_capacity in *. cbn. lia.
  - cbn. apply Forall_splice; [done|by apply Forall_take].
  - rewrite E. intros [?|Hin]%elem_of_app; [done|]. revert Hin. apply c_str_len_no_nul. lia.
Qed.

(** The wire form. *)
Definition string_enc (s : FwString) : list Z := be_bytes 2 (Z.of_nat (len s)) ++ as_bytes s.

Lemma string_serialize_ok s e :
  string_ok s → string_capacity s ≤ Z.to_nat 65535 → writes (string_serialize_to s e) (string_enc s).
Proof.
  intros Hs Hc. unfold string_serialize_to, serialize_bytes, string_enc.
  rewrite bool_decide_eq_true_2 by done. rewrite length_as_bytes by done.
  apply writes_bind; [|apply (int_bytes_is_byte 2 Big)|apply writes_raw].
  rewrite wrap_small; [apply (serialize_uint_ok 2 _ Big)|]. destruct Hs as (? & _). split; lia.
Qed.

(** Reading [[u16 n][n bytes]] of any bytes: everything is consumed, the
    content is what comes before the first NUL; a content that does not fit
    is refused after the prefix. *)
Lemma string_deserialize_spec e t b bs rest :
  (Z.of_nat (length bs) ≤ 65535)%Z → wf b → remaining_slice b = be_bytes 2 (Z.of_nat (length bs)) ++ bs ++ rest →
  if decide (length bs ≤ string_capacity t) then
    ∃ t', string_deserialize_from e t b = (SOk t', advanced (2 + length bs) b) ∧
          string_capacity t' = string_capacity t ∧ as_bytes t' = take (c_str_len bs) bs
  else string_deserialize_from e t b = (SErr DeserSizeMismatch, advanced 2 b).
Proof.
  intros Hl Hb Hr. unfold string_deserialize_from, deserialize_bytes.
  assert (is_u 16 (Z.of_nat (length bs))) as Hu by (split; lia).
  pose proof (wf_advanced _ _ _ Hb Hr) as Hb1. pose proof (remaining_advanced _ _ _ Hb Hr) as Hr1.
  pose proof (c_deser_ok u16_codec _ Big Hu b _ Hb Hr) as E1.
  change (c_enc u16_codec Big (Z.of_nat (length bs))) with (be_bytes 2 (Z.of_nat (length bs))) in E1.
  rewrite length_be_bytes in *.
  pose proof (length_remaining_slice _ Hb1) as Hl1. rewrite Hr1, length_app in Hl1.
  unfold ser_assert. rewrite bool_decide_eq_true_2 by (by rewrite length_replicate).
  case_decide as Hc.
  - exists (MkString (splice 0 (take (c_str_len bs) (splice 0 bs (replicate (string_capacity t) 0%Z))) (bytes t)) (c_str_len bs)).
    pose proof (c_str_len_le bs) as Hcl.
    assert (take (c_str_len bs) (splice 0 bs (replicate (string_capacity t) 0%Z)) = take (c_str_len bs) bs) as Et.
    { unfold splice. rewrite take_0, app_nil_l. by rewrite take_app_le. }
    split_and!.
    + erewrite ser_bind_ok; [|erewrite ser_bind_ok; [|reflexivity]; rewrite (ser_bind_ok _ _ _ _ _ E1);
        rewrite (ser_bind_ok _ _ _ _ _ (deserialize_size_left_spec _ Hb1));
        cbv zeta; rewrite Nat2Z.id, bool_decide_eq_false_2 by lia;
        rewrite (ser_bind_ok _ _ _ _ _ (reads_copy_out _ bs _ rest Hb1 Hr1)); reflexivity].
      cbn. rewrite advanced_add. replace (take (length bs) _) with bs; [done|].
      symmetry. apply (take_splice 0). lia.
    + unfold string_capacity in *. cbn. rewrite Et. apply length_splice. rewrite length_take. lia.
    + rewrite Et. apply as_bytes_splice; unfold string_capacity in *; lia.
  - erewrite ser_bind_err; [done|]. erewrite ser_bind_ok; [|reflexivity]. rewrite (ser_bind_ok _ _ _ _ _ E1).
    rewrite (ser_bind_ok _ _ _ _ _ (deserialize_size_left_spec _ Hb1)).
    cbv zeta. by rewrite Nat2Z.id, bool_decide_eq_true_2 by lia.
Qed.

(** A string read off any buffer is well-formed. *)
Lemma string_deserialize_yields e t :
  string_ok t → yields (string_deserialize_from e t) (λ t', string_ok t' ∧ string_capacity t' = string_capacity t).
Proof.
  intros (Hl & Hb & _). unfold string_deserialize_from. eapply yields_bind with
    (P := λ r, r.2 ≤ length r.1 ∧ length r.1 = string_capacity t ∧ Forall is_byte r.1).
  - unfold deserialize_bytes. apply yields_bind with (P := λ _, True).
    { intros b Hb'. unfold ser_assert. by rewrite bool_decide_eq_true_2 by (by rewrite length_replicate). }
    intros _ _. eapply yields_bind; [apply (yields_uint 2)|]. intros n Hn. cbv beta zeta.
    destruct (decide (Z.to_nat n ≤ string_capacity t)) as [Hle|Hgt].
    + pose proof (yields_copy_out (Z.to_nat n) (replicate (string_capacity t) 0%Z)) as Hc. rewrite length_replicate in Hc. apply Hc; [by apply Forall_replicate|done].
    + intros b Hb'. unfold mbind, SerM_bind. rewrite deserialize_size_left_spec by done. by rewrite bool_decide_eq_true_2 by lia.
  - intros [scratch n] (H1 & H2 & H3). cbn [fst snd] in *. apply yields_ret. cbv zeta. pose proof (c_str_len_le (take n scratch)) as Hc.
    rewrite length_take in Hc. unfold string_capacity in *.
    assert (length (splice 0 (take (c_str_len (take n scratch)) scratch) (bytes t)) = length (bytes t)) as E
      by (apply length_splice; rewrite length_take; lia).
    unfold string_ok, string_capacity. cbn [len bytes]. split_and!; [lia|by apply Forall_splice; [|apply Forall_take]| |done].
    assert (as_bytes (MkString (splice 0 (take (c_str_len (take n scratch)) scratch) (bytes t)) (c_str_len (take n scratch))) =
      take (c_str_len (take n scratch)) (take n scratch)) as ->.
    { unfold as_bytes. cbn. unfold splice. rewrite take_0, app_nil_l. rewrite take_app_le by (rewrite length_take; lia).
      rewrite !take_take. f_equal. lia. }
    by apply c_str_len_no_nul.
Qed.

(** * Guarantees *)

Inductive string_op : Set := SSet (src : list Z) | SAppend (src : list Z) | SClear.

Definition string_op_bytes (o : string_op) : list Z := match o with SSet l | SAppend l => l | SClear => [] end.

Definition run_string_op (s : FwString) (o : string_op) : FwString :=
  match o with SSet l => set_bytes l s | SAppend l => append_bytes l s | SClear => clear s end.

(** What the operations mean: C strings cut at the capacity. *)
Definition string_spec_op (N : nat) (c : list Z) (o : string_op) : list Z :=
  match o with
  | SSet l => take (c_str_len l `min` N) l
  | SAppend l => take N (c ++ take (c_str_len l) l)
  | SClear => []
  end.

Lemma run_string_ops ops s :
  string_ok s → Forall (λ o, Forall is_byte (string_op_bytes o)) ops →
  let s' := foldl run_string_op s ops in
  string_ok s' ∧ string_capacity s' = string_capacity s ∧
  as_bytes s' = foldl (string_spec_op (string_capacity s)) (as_bytes s) ops.
Proof.
  intros Hs Hops. revert s Hs. induction Hops as [|o ops Ho _ IH]; intros s Hs; [done|]. cbn in *.
  assert (string_ok (run_string_op s o) ∧ string_capacity (run_string_op s o) = string_capacity s ∧
          as_bytes (run_string_op s o) = string_spec_op (string_capacity s) (as_bytes s) o) as (H1 & H2 & H3).
  { destruct o as [l|l|]; cbn [run_string_op string_spec_op string_op_bytes] in *.
    - by apply set_bytes_spec.
    - destruct (append_bytes_spec l s Ho Hs) as (? & ? & ->). split_and!; [done..|].
      pose proof (length_as_bytes s Hs) as Hl. destruct Hs as (? & _ & _).
      rewrite take_app, Hl, take_take, (take_ge (as_bytes s)) by lia. f_equal. f_equal. lia.
    - destruct Hs as (_ & ? & _). unfold string_ok, as_bytes. cbn. split_and!; try done; [lia|apply not_elem_of_nil]. }
  destruct (IH _ H1) as (? & ? & E). by rewrite E, H2, H3 in *.
Qed.

Lemma string_new_ok N : string_ok (FwString_new N).
Proof.
  unfold string_ok, FwString_new, as_bytes. cbn. split_and!; [lia|by apply Forall_replicate|apply not_elem_of_nil].
Qed.

(** Strings behave as C strings cut at their capacity: after any
    assignments, appends and clears a string holds what they mean, without
    NUL and within its capacity; it is written as a big-endian length and its
    bytes whatever byte order is asked for; and reading that back into any
    string gives the same content, or fails with [DeserSizeMismatch] after
    the prefix exactly when it does not fit. *)
Theorem string_ops_roundtrip (N : nat) (ops : list string_op) (e e' : Endianness) (b b' : serbuf)
    (t : FwString) (rest : list Z) :
  Forall (λ o, Forall is_byte (string_op_bytes o)) ops → N ≤ Z.to_nat 65535 →
  wf b → ser_loc b + (2 + N) ≤ capacity b →
  let s := foldl run_string_op (FwString_new N) ops in
  wf b' → remaining_slice b' = string_enc s ++ rest →
  as_bytes s = foldl (string_spec_op N) [] ops ∧ len s ≤ N ∧ (0%Z ∉ as_bytes s) ∧
  string_serialize_to s e b = (SOk tt, appended b (string_enc s)) ∧
  if decide (len s ≤ string_capacity t) then
    ∃ t', string_deserialize_from e' t b' = (SOk t', advanced (2 + len s) b') ∧ string_eqb t' s = true
  else string_deserialize_from e' t b' = (SErr DeserSizeMismatch, advanced 2 b').
Proof.
  intros Hops HN Hb Hc s Hb' Hr. destruct (run_string_ops ops _ (string_new_ok N) Hops) as (Hs & Hcap & Ha).
  fold s in Hs, Hcap, Ha. assert (string_capacity (FwString_new N) = N) as EN by apply length_replicate.
  rewrite EN in *. pose proof (length_as_bytes s Hs) as Hl. pose proof Hs as (Hle & _ & Hn).
  split_and!; [done|lia|done| |].
  - apply string_serialize_ok; [done|lia|done|]. unfold string_enc. rewrite length_app, length_be_bytes. lia.
  - unfold string_enc in Hr. rewrite <-app_assoc, <-Hl in Hr.
    pose proof (string_deserialize_spec e' t b' (as_bytes s) rest ltac:(lia) Hb' Hr) as Hd.
    rewrite Hl in Hd. case_decide; [|done]. destruct Hd as (t' & E & _ & Et). exists t'. split; [done|].
    unfold string_eqb. rewrite Et, c_str_len_full by done. apply bool_decide_eq_true_2, take_ge. lia.
Qed.

Lemma string_ops_roundtrip_witness :
  let s := foldl run_string_op (FwString_new 4) [SSet [65; 66]; SAppend [67; 0; 68]; SAppend [69; 70]]%Z in
  let b' := SerBuf (string_enc s ++ [7]%Z) 7 0 in
  as_bytes s = [65; 66; 67; 69]%Z ∧ len s ≤ 4 ∧ (0%Z ∉ as_bytes s) ∧
  string_serialize_to s Little (linear_buffer_new 8) = (SOk tt, appended (linear_buffer_new 8) (string_enc s)) ∧
  if decide (len s ≤ string_capacity (FwString_new 6)) then
    ∃ t', string_deserialize_from Little (FwString_new 6) b' = (SOk t', advanced (2 + len s) b') ∧ string_eqb t' s = true
  else string_deserialize_from Little (FwString_new 6) b' = (SErr DeserSizeMismatch, advanced 2 b').
Proof.
  apply (string_ops_roundtrip 4 [SSet [65; 66]; SAppend [67; 0; 68]; SAppend [69; 70]]%Z Little Little
    (linear_buffer_new 8) (SerBuf [0; 4; 65; 66; 67; 69; 7]%Z 7 0) (FwString_new 6) [7%Z]);
    first [reflexivity | fp_decide | cbn; lia].
Defined.
