(* ===== verification/FilePaths.v ===== *)
(** Lexical path resolution and the sandbox,
    [crates/fprime-os/src/file_path_utils.rs] and
    [crates/fprime-os/src/sandboxed_file.rs].

    A path is resolved in a single pass over a fixed buffer, with a read and a
    write position; the specification splits it at the slashes.  The working
    directory and the operating system's files are parameters. *)

From stdpp Require Import list strings.
From S2P Require Import Prelude Serial SerialFacts Codec FwString OsFile.

(** * Data *)

Definition FILE_NAME_STRING_SIZE : nat := 240.
Definition MAX_PATH_LENGTH : nat := FILE_NAME_STRING_SIZE.

Inductive PathStatus : Set := PathValid | PathOutsideSandbox | PathInvalidPath | PathTooLong.
#[export] Instance PathStatus_eq_dec : EqDecision PathStatus.
Proof. solve_decision. Defined.

Definition slash : Z := 47.
Definition dot : Z := 46.

Definition starts_with_slash (p : list Z) : bool := bool_decide (head p = Some slash).

(** * Operations *)

(** [build_absolute_path]: the status and the buffer. *)
Definition build_absolute_path (path base : list Z) (out : list Z) : outcome (PathStatus * list Z) :=
  if negb (starts_with_slash path) then
    if bool_decide (MAX_PATH_LENGTH ≤ length base) then Ret (PathInvalidPath, out)
    else if bool_decide (base = []) || negb (starts_with_slash base) then Ret (PathInvalidPath, out)
    else if bool_decide (MAX_PATH_LENGTH ≤ length path) then Ret (PathInvalidPath, out)
    else
      last ← index_get base (length base - 1);
      let needs_slash := if (last =? slash)%Z then 0 else 1 in
      if bool_decide (MAX_PATH_LENGTH < length base + needs_slash + length path + 1) then Ret (PathTooLong, out)
      else
        out1 ← copy_into 0 base out;
        let pos := length base in
        '(pos, out2) ← (if bool_decide (needs_slash = 1) then o ← index_set pos slash out1; Ret (pos + 1, o) else Ret (pos, out1));
        out3 ← copy_into pos path out2;
        out4 ← index_set (pos + length path) 0%Z out3;
        Ret (PathValid, out4)
  else
    if bool_decide (MAX_PATH_LENGTH ≤ length path) then Ret (PathInvalidPath, out)
    else if bool_decide (MAX_PATH_LENGTH < length path + 1) then Ret (PathTooLong, out)
    else
      out1 ← copy_into 0 path out;
      out2 ← index_set (length path) 0%Z out1;
      Ret (PathValid, out2).

Definition c_len (buf : list Z) : option nat :=
  let n := c_str_len buf in if bool_decide (n < length buf) then Some n else None.

(** The inner loops: to the end of a segment, and back over one. *)
Fixpoint seg_end (fuel read_pos path_length : nat) (buf : list Z) : outcome nat :=
  match fuel with
  | O => Ret read_pos
  | S fuel' =>
      if bool_decide (read_pos < path_length) then
        b ← index_get buf read_pos;
        if (b =? slash)%Z then Ret read_pos else seg_end fuel' (read_pos + 1) path_length buf
      else Ret read_pos
  end.
Fixpoint retreat (fuel write_pos : nat) (buf : list Z) : outcome nat :=
  match fuel with
  | O => Ret write_pos
  | S fuel' =>
      if bool_decide (1 < write_pos) then
        b ← index_get buf (write_pos - 1);
        if (b =? slash)%Z then Ret write_pos else retreat fuel' (write_pos - 1) buf
      else Ret write_pos
  end.

(** Whether [buf[start]] and the next byte (for [n = 2]) are dots. *)
Fixpoint dots_at (n start : nat) (buf : list Z) : outcome bool :=
  match n with
  | O => Ret true
  | S n' => b ← index_get buf start; if (b =? dot)%Z then dots_at n' (start + 1) buf else Ret false
  end.

(** The main loop of [resolve_in_place]: the write position and the buffer. *)
Fixpoint resolve_loop (fuel read_pos write_pos path_length : nat) (buf : list Z) : outcome (nat * list Z) :=
  match fuel with
  | O => Ret (write_pos, buf)
  | S fuel' =>
      if bool_decide (read_pos ≤ path_length) then
        let seg_start := read_pos in
        e ← seg_end (path_length - read_pos) read_pos path_length buf;
        let seg_len := e - seg_start in
        let read_pos := if bool_decide (e < path_length) then e + 1 else path_length + 1 in
        if bool_decide (seg_len = 0) then resolve_loop fuel' read_pos write_pos path_length buf
        else
          one ← (if bool_decide (seg_len = 1) then dots_at 1 seg_start buf else Ret false);
          if one : bool then resolve_loop fuel' read_pos write_pos path_length buf
          else
            two ← (if bool_decide (seg_len = 2) then dots_at 2 seg_start buf else Ret false);
            if two : bool then
              if bool_decide (1 < write_pos) then
                w ← retreat (write_pos - 1) (write_pos - 1) buf;
                resolve_loop fuel' read_pos w path_length buf
              else resolve_loop fuel' read_pos write_pos path_length buf
            else
              seg ← copy_from seg_start seg_len buf;
              buf1 ← copy_into write_pos seg buf;
              let w := write_pos + seg_len in
              buf2 ← index_set w slash buf1;
              resolve_loop fuel' read_pos (w + 1) path_length buf2
      else Ret (write_pos, buf)
  end.

Definition resolve_in_place (buf : list Z) : outcome (PathStatus * list Z) :=
  b0 ← index_get buf 0;
  _ ← fw_assert (b0 =? slash)%Z;
  match c_len buf with
  | None => Ret (PathInvalidPath, buf)
  | Some path_length =>
      '(write_pos, buf1) ← resolve_loop (path_length + 1) 1 1 path_length buf;
      let w := if bool_decide (1 < write_pos) then write_pos - 1 else write_pos in
      buf2 ← index_set w 0%Z buf1;
      Ret (PathValid, buf2)
  end.

(** [resolve_path]: the status and the output string. *)
Definition resolve_path (path base : list Z) (resolved : FwString) : outcome (PathStatus * FwString) :=
  if bool_decide (path = []) then Ret (PathInvalidPath, resolved)
  else
    '(st, buf) ← build_absolute_path path base (replicate MAX_PATH_LENGTH 0%Z);
    if negb (bool_decide (st = PathValid)) then Ret (st, resolved)
    else
      '(st, buf) ← resolve_in_place buf;
      if negb (bool_decide (st = PathValid)) then Ret (st, resolved)
      else
        let n := default 0 (c_len buf) in
        r ← copy_from 0 n buf;
        Ret (PathValid, set_bytes r resolved).

Definition check_containment (resolved_path allowed_directory : list Z) : outcome PathStatus :=
  if bool_decide (MAX_PATH_LENGTH ≤ length allowed_directory) || bool_decide (MAX_PATH_LENGTH ≤ length resolved_path)
  then Ret PathInvalidPath
  else if bool_decide (allowed_directory = []) || bool_decide (resolved_path = []) then Ret PathOutsideSandbox
  else
    last ← index_get allowed_directory (length allowed_directory - 1);
    if negb (last =? slash)%Z then Ret PathOutsideSandbox
    else if bool_decide (length resolved_path = length allowed_directory - 1)
         && bool_decide (resolved_path = take (length resolved_path) allowed_directory) then Ret PathValid
    else if bool_decide (length resolved_path < length allowed_directory) then Ret PathOutsideSandbox
    else if negb (bool_decide (take (length allowed_directory) resolved_path = allowed_directory)) then Ret PathOutsideSandbox
    else Ret PathValid.

(** * Specification *)

(** The parts between slashes. *)
Fixpoint segments (l : list Z) : list (list Z) :=
  match l with
  | [] => [[]]
  | b :: l' =>
      if (b =? slash)%Z then [] :: segments l'
      else match segments l' with s :: ss => (b :: s) :: ss | [] => [[b]] end
  end.

(** One part onto the components so far. *)
Definition push (st : list (list Z)) (s : list Z) : list (list Z) :=
  if decide (s = [] ∨ s = [dot]) then st
  else if decide (s = [dot; dot]) then take (length st - 1) st
  else st ++ [s].

(** The components of a path, and components as a path. *)
Definition normalize (p : list Z) : list (list Z) := foldl push [] (segments p).
Definition render (cs : list (list Z)) : list Z := if decide (cs = []) then [slash] else concat ((cons slash) <$> cs).
Definition as_directory (cs : list (list Z)) : list Z := slash :: concat ((λ s, s ++ [slash]) <$> cs).

(** A component a path can name below a directory. *)
Definition plain (s : list Z) : Prop := s ≠ [] ∧ s ≠ [dot] ∧ s ≠ [dot; dot] ∧ (slash ∉ s) ∧ (0%Z ∉ s).

(** * Segments *)

Lemma segments_cons s y : slash ∉ s → segments (s ++ slash :: y) = s :: segments y.
Proof.
  induction s as [|b s IH]; intros Hs; [done|]. apply not_elem_of_cons in Hs as [Hb Hs]. cbn [app segments].
  rewrite (proj2 (Z.eqb_neq _ _)) by congruence. by rewrite IH.
Qed.
Lemma segments_last s : slash ∉ s → segments s = [s].
Proof.
  induction s as [|b s IH]; intros Hs; [done|]. apply not_elem_of_cons in Hs as [Hb Hs]. cbn [segments].
  rewrite (proj2 (Z.eqb_neq _ _)) by congruence. by rewrite IH.
Qed.

(** Every path is a segment, then nothing or a slash and a path. *)
Lemma segment_split l : ∃ s, (slash ∉ s) ∧ (l = s ∨ ∃ y, l = s ++ slash :: y).
Proof.
  induction l as [|b l (s & Hs & Hl)]; [exists []; split; [apply not_elem_of_nil|by left]|].
  destruct (decide (b = slash)) as [->|Hb]; [exists []; split; [apply not_elem_of_nil|right; by exists l]|].
  exists (b :: s). split; [by apply not_elem_of_cons|]. destruct Hl as [->|[y ->]]; [by left|right; by exists y].
Qed.

Lemma segments_nonempty l : segments l ≠ [].
Proof. destruct l as [|b l]; [done|]. cbn. destruct (_ =? _)%Z; [done|]. by destruct (segments l). Qed.

Lemma segments_plain l s : 0%Z ∉ l → s ∈ segments l → (slash ∉ s) ∧ (0%Z ∉ s).
Proof.
  revert s. induction l as [|b l IH]; intros s H0 Hs; cbn [segments] in Hs.
  { apply list_elem_of_singleton in Hs as ->. split; apply not_elem_of_nil. }
  apply not_elem_of_cons in H0 as [Hb H0]. destruct (Z.eqb_spec b slash) as [->|Hne].
  - apply elem_of_cons in Hs as [->|Hs]; [split; apply not_elem_of_nil|by apply IH].
  - destruct (segments l) as [|s0 ss]; [by apply list_elem_of_singleton in Hs as ->; split; set_solver|].
    apply elem_of_cons in Hs as [->|Hs]; [|apply IH; [done|set_solver]].
    destruct (IH s0 H0) as [? ?]; [set_solver|]. split; set_solver.
Qed.

Lemma push_plain st s : Forall plain st → (slash ∉ s) ∧ (0%Z ∉ s) → Forall plain (push st s).
Proof.
  intros Hst [H1 H2]. unfold push. case_decide as E1; [done|]. case_decide as E2; [by apply Forall_take|].
  apply Forall_app. split; [done|]. apply Forall_singleton. unfold plain. naive_solver.
Qed.

Lemma normalize_plain p : 0%Z ∉ p → Forall plain (normalize p).
Proof.
  intros Hp. unfold normalize. assert (∀ s, s ∈ segments p → (slash ∉ s) ∧ (0%Z ∉ s)) as Hs by (intros s; by apply segments_plain).
  revert Hs. generalize (segments p). intros ss. assert (Forall plain []) as Hst by constructor. revert Hst. generalize (@nil (list Z)).
  induction ss as [|s ss IH]; intros st Hst Hs; [done|]. cbn [foldl]. apply IH; [|set_solver].
  apply push_plain; [done|]. apply Hs. set_solver.
Qed.

(** ** Components as bytes *)

Lemma as_directory_snoc st s : as_directory (st ++ [s]) = as_directory st ++ s ++ [slash].
Proof. unfold as_directory. rewrite fmap_app, concat_app. cbn. by rewrite app_nil_r. Qed.

Lemma render_as_directory cs : cs ≠ [] → render cs ++ [slash] = as_directory cs.
Proof.
  intros Hne. unfold render. rewrite decide_False by done. unfold as_directory. clear Hne.
  assert (∀ l : list (list Z), concat ((cons slash) <$> l) ++ [slash] = slash :: concat ((λ s, s ++ [slash]) <$> l)) as H; [|apply H].
  intros l. induction l as [|s l IH]; [done|]. cbn. f_equal. rewrite <- app_assoc, IH. by rewrite <- app_assoc.
Qed.

Lemma segments_directory cs y : Forall plain cs → segments (tail (as_directory cs) ++ y) = cs ++ segments y.
Proof.
  unfold as_directory. cbn [tail]. induction 1 as [|s cs (_ & _ & _ & Hs & _) _ IH]; [done|]. cbn [fmap list_fmap concat app].
  rewrite <- !app_assoc. cbn [app]. rewrite segments_cons by done. by rewrite IH.
Qed.

Lemma segments_render cs : Forall plain cs → cs ≠ [] → segments (tail (render cs)) = cs.
Proof.
  intros Hcs Hne. destruct cs as [|s cs _] using rev_ind; [done|]. apply Forall_app in Hcs as [Hcs Hs].
  apply Forall_cons in Hs as [(_ & _ & _ & Hs & _) _].
  assert (render (cs ++ [s]) = as_directory cs ++ s) as ->.
  { pose proof (render_as_directory (cs ++ [s]) Hne) as E. rewrite as_directory_snoc, app_assoc in E. by apply app_inj_tail in E as [E _]. }
  unfold as_directory at 1. cbn [app tail]. change (concat _ ++ s) with (tail (as_directory cs) ++ s).
  rewrite segments_directory by done. by rewrite segments_last.
Qed.

(** ** The loops *)

Lemma seg_end_ok s pre rest fuel plen :
  slash ∉ s → length s ≤ fuel → length pre + length s ≤ plen →
  (length pre + length s = plen ∨ (∃ r, rest = slash :: r) ∧ length s < fuel) →
  seg_end fuel (length pre) plen (pre ++ s ++ rest) = Ret (length pre + length s).
Proof.
  revert pre fuel. induction s as [|b s IH]; intros pre fuel Hs Hf Hle Hend; cbn [length] in *.
  - rewrite Nat.add_0_r in *. destruct fuel as [|fuel]; [done|]. cbn [seg_end app]. destruct Hend as [E|[[r ->] _]].
    + by rewrite bool_decide_eq_false_2 by lia.
    + case_bool_decide; [|done]. rewrite (index_get_ok _ _ slash) by (by apply list_lookup_middle). done.
  - apply not_elem_of_cons in Hs as [Hb Hs]. destruct fuel as [|fuel]; [lia|]. cbn [seg_end].
    rewrite bool_decide_eq_true_2 by lia. rewrite (index_get_ok _ _ b) by (by apply list_lookup_middle). rewrite outcome_bind_ret.
    rewrite (proj2 (Z.eqb_neq _ _)) by congruence.
    replace (pre ++ (b :: s) ++ rest) with ((pre ++ [b]) ++ s ++ rest) by (by rewrite <- app_assoc).
    replace (length pre + 1) with (length (pre ++ [b])) by (rewrite length_app; cbn; lia).
    rewrite IH; [rewrite length_app; cbn; f_equal; lia|done|lia|rewrite length_app; cbn; lia|].
    rewrite length_app. cbn. destruct Hend as [|[? ?]]; [left; lia|right; split; [done|lia]].
Qed.

Lemma retreat_ok s d rest fuel :
  slash ∉ s → length s ≤ fuel →
  (fuel = length s → d = []) →
  retreat fuel (S (length d) + length s) (d ++ slash :: s ++ rest) = Ret (S (length d)).
Proof.
  revert rest fuel. induction s as [|b s IH] using rev_ind; intros rest fuel Hs Hf Hd.
  - cbn [length app]. rewrite Nat.add_0_r. destruct fuel as [|fuel]; [done|]. cbn [retreat].
    case_bool_decide; [|done]. cbn [Nat.sub]. rewrite Nat.sub_0_r. by rewrite (index_get_ok _ _ slash) by (by apply list_lookup_middle).
  - apply not_elem_of_app in Hs as [Hs Hb]. rewrite length_app in *. cbn [length] in *. destruct fuel as [|fuel]; [lia|].
    cbn [retreat]. rewrite bool_decide_eq_true_2 by lia.
    rewrite (index_get_ok _ _ b).
    2: { replace (S (length d) + (length s + 1) - 1) with (length (d ++ slash :: s)) by (rewrite length_app; cbn; lia).
         replace (d ++ slash :: (s ++ [b]) ++ rest) with ((d ++ slash :: s) ++ b :: rest) by (by rewrite <- !app_assoc).
         by apply list_lookup_middle. }
    rewrite outcome_bind_ret, (proj2 (Z.eqb_neq _ _)) by set_solver.
    replace (S (length d) + (length s + 1) - 1) with (S (length d) + length s) by lia.
    rewrite <- app_assoc. cbn [app]. apply IH; [done|lia|]. intros. apply Hd. lia.
Qed.

Lemma dots_at_ok s pre rest : dots_at (length s) (length pre) (pre ++ s ++ rest) = Ret (bool_decide (s = replicate (length s) dot)).
Proof.
  revert pre. induction s as [|b s IH]; intros pre; cbn [length dots_at replicate].
  - by rewrite bool_decide_eq_true_2.
  - rewrite (index_get_ok _ _ b) by (by apply list_lookup_middle). rewrite outcome_bind_ret.
    destruct (Z.eqb_spec b dot) as [->|Hb].
    + replace (pre ++ (dot :: s) ++ rest) with ((pre ++ [dot]) ++ s ++ rest) by (by rewrite <- app_assoc).
      replace (length pre + 1) with (length (pre ++ [dot])) by (rewrite length_app; cbn; lia). rewrite IH. f_equal.
      apply bool_decide_ext. split; [congruence|by intros [= <-]].
    + rewrite bool_decide_eq_false_2; [done|]. by intros [= ->].
Qed.

Lemma splice_app {A} (d s x : list A) : splice (length d) s (d ++ x) = d ++ s ++ drop (length s) x.
Proof. unfold splice. rewrite take_app_length, drop_app_ge by lia. by replace (length d + length s - length d) with (length s) by lia. Qed.

(** A segment and its slash written over what was read. *)
Lemma write_segment d s j rest :
  length s < length j →
  ∃ buf1, copy_into (length d) s (d ++ j ++ rest) = Ret buf1 ∧
    index_set (length d + length s) slash buf1 = Ret ((d ++ s ++ [slash]) ++ drop (S (length s)) j ++ rest).
Proof.
  intros Hlen. eexists. split; [apply copy_into_ok; rewrite !length_app; lia|]. rewrite splice_app.
  rewrite drop_app_le by lia. destruct (drop (length s) j) as [|z j'] eqn:E.
  { apply (f_equal length) in E. rewrite length_drop in E. cbn in E. lia. }
  assert (drop (S (length s)) j = j') as ->.
  { rewrite <- Nat.add_1_r, <- drop_drop, E. done. }
  rewrite index_set_ok by (rewrite !length_app; cbn; lia). f_equal.
  rewrite app_assoc. rewrite <- length_app. cbn [app].
  rewrite insert_app_r_alt by lia. rewrite Nat.sub_diag. cbn. by rewrite <- !app_assoc.
Qed.

Lemma as_directory_end st : ∃ d, as_directory st = d ++ [slash].
Proof.
  destruct st as [|s st _] using rev_ind; [by exists []|]. rewrite as_directory_snoc. exists (as_directory st ++ s).
  by rewrite <- app_assoc.
Qed.

(** The branch a segment takes. *)
Definition seg_branch (s : list Z) : Z :=
  if decide (s = [] ∨ s = [dot]) then 0 else if decide (s = [dot; dot]) then 1 else 2.

Lemma resolve_turn fuel st junk s rest plen :
  slash ∉ s → Forall (λ x, slash ∉ x) st → rest ≠ [] →
  let d := as_directory st in
  let r := length d + length junk in
  let r' := if bool_decide (r + length s < plen) then r + length s + 1 else plen + 1 in
  (r + length s = plen ∨ (∃ y, rest = slash :: y) ∧ r + length s < plen) →
  ∃ junk', length (as_directory (push st s)) + length junk' = r + length s + 1 ∧
    resolve_loop (S fuel) r (length d) plen (d ++ junk ++ s ++ rest)
    = resolve_loop fuel r' (length (as_directory (push st s))) plen (as_directory (push st s) ++ junk' ++ tail rest).
Proof.
  intros Hs Hst Hrest d r r' Hend. destruct rest as [|z rest]; [done|]. cbn [tail].
  cbn [resolve_loop]. rewrite (bool_decide_eq_true_2 (r ≤ plen)) by (destruct Hend as [|[_ ?]]; lia).
  assert (seg_end (plen - r) r plen (d ++ junk ++ s ++ z :: rest) = Ret (r + length s)) as ->.
  { unfold r. rewrite app_assoc, <- length_app. apply seg_end_ok; [done| | |].
    - rewrite length_app. destruct Hend as [|[_ ?]]; lia.
    - rewrite length_app. destruct Hend as [|[_ ?]]; lia.
    - rewrite length_app. destruct Hend as [E|[[y E] ?]]; [left; done|right; split; [by exists y; congruence|lia]]. }
  rewrite outcome_bind_ret. cbv zeta. fold r'. clearbody r'. replace (r + length s - r) with (length s) by lia.
  assert (∀ n, length s = n → dots_at n r (d ++ junk ++ s ++ z :: rest) = Ret (bool_decide (s = replicate (length s) dot))) as Hdots.
  { intros n <-. unfold r. rewrite app_assoc, <- length_app. apply dots_at_ok. }
  assert (d ++ junk ++ s ++ z :: rest = d ++ (junk ++ s ++ [z]) ++ rest) as Ebuf by (by rewrite <- !app_assoc).
  unfold push. destruct (decide (s = [] ∨ s = [dot])) as [[->| ->]|Hn1].
  - cbn [length]. rewrite bool_decide_eq_true_2 by done. exists (junk ++ [] ++ [z]). rewrite Ebuf.
    split; [rewrite !length_app; cbn; unfold r; fold d; lia|done].
  - cbn [length]. rewrite (bool_decide_eq_false_2 (1 = 0)), (bool_decide_eq_true_2 (1 = 1)) by done. rewrite (Hdots 1) by done.
    cbn [length replicate]. rewrite outcome_bind_ret, bool_decide_eq_true_2 by done. exists (junk ++ [dot] ++ [z]). rewrite Ebuf.
    split; [rewrite !length_app; cbn; unfold r; fold d; lia|done].
  - rewrite (bool_decide_eq_false_2 (length s = 0)) by (intros E; apply length_zero_iff_nil in E; tauto).
    assert ((if bool_decide (length s = 1) then dots_at 1 r (d ++ junk ++ s ++ z :: rest) else Ret false) = Ret false) as ->.
    { destruct (decide (length s = 1)) as [E|E]; [rewrite (bool_decide_eq_true_2 _ E)|by rewrite (bool_decide_eq_false_2 _ E)].
      rewrite (Hdots 1) by done. rewrite E. rewrite bool_decide_eq_false_2; [done|]. intros ->. tauto. }
    rewrite outcome_bind_ret. destruct (decide (s = [dot; dot])) as [->|Hn2].
    + cbn [length]. rewrite (bool_decide_eq_true_2 (2 = 2)) by done. rewrite (Hdots 2) by done. cbn [length replicate].
      rewrite outcome_bind_ret, bool_decide_eq_true_2 by done.
      destruct st as [|x st _] using rev_ind.
      * rewrite bool_decide_eq_false_2 by (unfold d, as_directory; cbn; lia). exists (junk ++ [dot; dot] ++ [z]). rewrite Ebuf.
        split; [rewrite !length_app; cbn; unfold r, d, as_directory; cbn; lia|done].
      * clear Hdots. apply Forall_app in Hst as [_ [Hx _]%Forall_cons]. rewrite length_app. cbn [length].
        replace (length st + 1 - 1) with (length st) by lia. rewrite take_app_length.
        destruct (as_directory_end st) as [e He]. assert (d = (e ++ [slash]) ++ x ++ [slash]) as Ed by (unfold d; by rewrite as_directory_snoc, He).
        assert (length d - 1 = S (length e) + length x) as Ew by (rewrite Ed, !length_app; cbn; lia).
        rewrite bool_decide_eq_true_2 by lia.
        assert (retreat (length d - 1) (length d - 1) (d ++ junk ++ [dot; dot] ++ z :: rest) = Ret (S (length e))) as ->.
        { rewrite Ew, Ed, <- !app_assoc. cbn [app]. apply retreat_ok; [done|lia|lia]. }
        rewrite outcome_bind_ret. exists (x ++ [slash] ++ junk ++ [dot; dot] ++ [z]). rewrite He. split.
        -- unfold r. rewrite Ed, !length_app. cbn. lia.
        -- rewrite length_app. cbn [length]. rewrite Nat.add_1_r. f_equal. rewrite Ed, <- !app_assoc. done.
    + assert ((if bool_decide (length s = 2) then dots_at 2 r (d ++ junk ++ s ++ z :: rest) else Ret false) = Ret false) as ->.
      { destruct (decide (length s = 2)) as [E|E]; [rewrite (bool_decide_eq_true_2 _ E)|by rewrite (bool_decide_eq_false_2 _ E)].
      rewrite (Hdots 2) by done. rewrite E. rewrite bool_decide_eq_false_2; [done|]. intros ->. tauto. }
      rewrite outcome_bind_ret.
      assert (copy_from r (length s) (d ++ junk ++ s ++ z :: rest) = Ret s) as ->.
      { rewrite copy_from_ok by (unfold r; rewrite !length_app; cbn; lia). f_equal. unfold slice, r.
        rewrite app_assoc, <- length_app, drop_app_length. apply take_app_length. }
      rewrite outcome_bind_ret, Ebuf.
      destruct (write_segment d s (junk ++ s ++ [z]) rest) as (buf1 & -> & Hset); [rewrite !length_app; cbn; lia|].
      rewrite outcome_bind_ret, Hset, outcome_bind_ret. exists (drop (S (length s)) (junk ++ s ++ [z])).
      rewrite as_directory_snoc. fold d. split.
      * rewrite length_drop, !length_app. cbn. unfold r. lia.
      * f_equal. rewrite !length_app. cbn. lia.
Qed.

Lemma push_no_slash st s : Forall (λ x, slash ∉ x) st → slash ∉ s → Forall (λ x, slash ∉ x) (push st s).
Proof.
  intros Hst Hs. unfold push. case_decide; [done|]. case_decide; [by apply Forall_take|]. apply Forall_app.
  split; [done|by apply Forall_singleton].
Qed.

Lemma resolve_loop_ok rem st junk tl fuel plen :
  Forall (λ x, slash ∉ x) st → tl ≠ [] → length (segments rem) ≤ fuel →
  plen = length (as_directory st) + length junk + length rem →
  ∃ junk', let st' := foldl push st (segments rem) in
    resolve_loop fuel (length (as_directory st) + length junk) (length (as_directory st)) plen (as_directory st ++ junk ++ rem ++ tl)
    = Ret (length (as_directory st'), as_directory st' ++ junk' ++ tail tl) ∧
    length (as_directory st') + length junk' = plen + 1.
Proof.
  revert rem st junk. induction fuel as [|fuel IH]; intros rem st junk Hst Htl Hfuel Hplen.
  { destruct (segments rem) eqn:E; [by apply segments_nonempty in E|cbn in Hfuel; lia]. }
  destruct (segment_split rem) as (s & Hs & [->|[y ->]]).
  - rewrite segments_last by done. cbn [foldl].
    destruct (resolve_turn fuel st junk s tl plen Hs Hst Htl) as (junk' & Hl & ->); [by left|].
    rewrite bool_decide_eq_false_2 by lia. exists junk'. split; [|lia].
    destruct fuel; [done|]. cbn [resolve_loop]. by rewrite bool_decide_eq_false_2 by lia.
  - rewrite segments_cons in * by done. cbn [foldl length] in *. rewrite length_app in Hplen. cbn [length] in Hplen.
    rewrite <- app_assoc. cbn [app].
    destruct (resolve_turn fuel st junk s (slash :: y ++ tl) plen Hs Hst) as (junk' & Hl & ->); [done|right; split; [eauto|lia]|].
    rewrite bool_decide_eq_true_2 by lia. cbn [tail]. rewrite <- Hl. apply IH; [by apply push_no_slash|done|lia|lia].
Qed.

Lemma length_segments l : length (segments l) ≤ S (length l).
Proof. induction l as [|b l IH]; cbn; [lia|]. destruct (_ =? _)%Z; cbn; [lia|]. destruct (segments l); cbn in *; lia. Qed.

Lemma c_str_len_app p x : 0%Z ∉ p → c_str_len (p ++ 0%Z :: x) = length p.
Proof.
  induction p as [|b p IH]; intros Hp; [done|]. apply not_elem_of_cons in Hp as [Hb Hp]. cbn.
  rewrite (proj2 (Z.eqb_neq _ _)) by congruence. by rewrite IH.
Qed.

Lemma c_len_app p x : 0%Z ∉ p → c_len (p ++ 0%Z :: x) = Some (length p).
Proof. intros Hp. unfold c_len. rewrite c_str_len_app by done. rewrite bool_decide_eq_true_2; [done|]. rewrite length_app. cbn. lia. Qed.

Lemma plain_concat f cs : Forall plain cs → (∀ s, 0%Z ∉ s → 0%Z ∉ f s) → 0%Z ∉ concat (f <$> cs).
Proof.
  induction 1 as [|s cs (_ & _ & _ & _ & H0) _ IH]; intros Hf; cbn; [apply not_elem_of_nil|]. apply not_elem_of_app.
  split; [by apply Hf|by apply IH].
Qed.
Lemma render_no_nul cs : Forall plain cs → 0%Z ∉ render cs.
Proof.
  intros Hcs. unfold render. case_decide; [set_solver|]. apply plain_concat; [done|]. intros s Hs. unfold slash. set_solver.
Qed.

(** The pass leaves the normalized path in the buffer. *)
Lemma resolve_in_place_ok rem tl :
  0%Z ∉ rem →
  ∃ x, resolve_in_place (slash :: rem ++ 0%Z :: tl) = Ret (PathValid, render (normalize rem) ++ 0%Z :: x) ∧
    length (render (normalize rem) ++ 0%Z :: x) = length (slash :: rem ++ 0%Z :: tl).
Proof.
  intros H0. unfold resolve_in_place. cbn [index_get lookup list_lookup]. rewrite outcome_bind_ret, Z.eqb_refl. cbn [fw_assert].
  rewrite outcome_bind_ret. assert (c_len (slash :: rem ++ 0%Z :: tl) = Some (S (length rem))) as ->.
  { rewrite app_comm_cons, c_len_app; [done|]. unfold slash. set_solver. }
  pose proof (length_segments rem) as Hseg.
  destruct (resolve_loop_ok rem [] [] (0%Z :: tl) (S (length rem) + 1) (S (length rem))) as (j & Hloop & Hlen); [constructor|done|lia|done|].
  assert (resolve_loop (S (length rem) + 1) 1 1 (S (length rem)) (slash :: rem ++ 0%Z :: tl)
    = Ret (length (as_directory (normalize rem)), as_directory (normalize rem) ++ j ++ tl)) as -> by exact Hloop. clear Hloop.
  fold (normalize rem) in Hlen. rewrite outcome_bind_ret. pose proof (normalize_plain rem H0) as Hpl.
  destruct (decide (normalize rem = [])) as [E|E].
  - rewrite E in *. cbn in Hlen. rewrite bool_decide_eq_false_2 by (cbn; lia). destruct j as [|b j]; [cbn in Hlen; lia|].
    cbn. rewrite index_set_ok by (cbn; lia). rewrite outcome_bind_ret. exists (j ++ tl). split; [done|]. cbn in Hlen. change (render []) with [slash]. cbn. rewrite !length_app. cbn. lia.
  - pose proof (render_as_directory _ E) as Er. pose proof (f_equal length Er) as Hl. rewrite length_app in Hl. cbn [length] in Hl.
    assert (0 < length (render (normalize rem))) as Hpos.
    { unfold render. rewrite decide_False by done. destruct (normalize rem); [done|]. cbn. lia. }
    rewrite bool_decide_eq_true_2 by lia. rewrite <- Er. rewrite <- app_assoc. cbn [app].
    replace (length (render (normalize rem) ++ [slash]) - 1) with (length (render (normalize rem))) by (rewrite length_app; cbn; lia).
    rewrite index_set_ok by (rewrite length_app; cbn; lia). rewrite outcome_bind_ret. exists (j ++ tl). split.
    + f_equal. f_equal. rewrite insert_app_r_alt by lia. by rewrite Nat.sub_diag.
    + rewrite !length_app. cbn. rewrite !length_app. cbn. lia.
Qed.

(** ** Resolution *)

Definition absolute (path base : list Z) : list Z :=
  if starts_with_slash path then path
  else base ++ (if decide (last base = Some slash) then [] else [slash]) ++ path.
Definition c_string (p : list Z) : list Z := take (c_str_len p) p.

(** When resolution succeeds, and the status when it does not. *)
Definition resolve_status (path base : list Z) : PathStatus :=
  if decide (path = []) then PathInvalidPath
  else if starts_with_slash path then if decide (MAX_PATH_LENGTH ≤ length path) then PathInvalidPath else PathValid
  else if decide (MAX_PATH_LENGTH ≤ length base ∨ starts_with_slash base = false ∨ MAX_PATH_LENGTH ≤ length path) then PathInvalidPath
  else if decide (MAX_PATH_LENGTH ≤ length (absolute path base)) then PathTooLong
  else PathValid.

Lemma splice_zeros pre n p : length p ≤ n → splice (length pre) p (pre ++ replicate n 0%Z) = (pre ++ p) ++ replicate (n - length p) 0%Z.
Proof. intros Hp. rewrite splice_app, drop_replicate. by rewrite <- app_assoc. Qed.

Lemma zeros_set pre n : 0 < n → index_set (length pre) 0%Z (pre ++ replicate n 0%Z) = Ret (pre ++ replicate n 0%Z).
Proof.
  intros Hn. rewrite index_set_ok by (rewrite length_app, length_replicate; lia). f_equal. rewrite insert_app_r_alt by lia.
  rewrite Nat.sub_diag. by destruct n.
Qed.

Lemma build_absolute_ok path base :
  path ≠ [] →
  match resolve_status path base with
  | PathValid => build_absolute_path path base (replicate MAX_PATH_LENGTH 0%Z)
                 = Ret (PathValid, absolute path base ++ replicate (MAX_PATH_LENGTH - length (absolute path base)) 0%Z)
                 ∧ length (absolute path base) < MAX_PATH_LENGTH ∧ head (absolute path base) = Some slash
  | st => build_absolute_path path base (replicate MAX_PATH_LENGTH 0%Z) = Ret (st, replicate MAX_PATH_LENGTH 0%Z)
  end.
Proof.
  intros Hne. unfold resolve_status, build_absolute_path, absolute. rewrite decide_False by done.
  destruct (starts_with_slash path) eqn:Es; cbn [negb].
  - case_decide as Hlen; [by rewrite bool_decide_eq_true_2 by done|]. rewrite !bool_decide_eq_false_2 by lia.
    rewrite copy_into_ok by (rewrite length_replicate; lia). rewrite outcome_bind_ret.
    pose proof (splice_zeros [] MAX_PATH_LENGTH path) as E. cbn [length app] in E. rewrite E by lia.
    rewrite zeros_set by lia. rewrite outcome_bind_ret.
    split_and!; [done|lia|]. by apply bool_decide_eq_true_1 in Es.
  - destruct (decide (MAX_PATH_LENGTH ≤ length base)) as [Hb|Hb].
    { rewrite decide_True by auto. by rewrite bool_decide_eq_true_2. }
    rewrite (bool_decide_eq_false_2 _ Hb). destruct (starts_with_slash base) eqn:Eb; cbn [negb].
    2: { rewrite decide_True by auto. by rewrite orb_true_r. }
    rewrite orb_false_r. apply bool_decide_eq_true_1 in Eb. rewrite bool_decide_eq_false_2 by (by intros ->).
    destruct (decide (MAX_PATH_LENGTH ≤ length path)) as [Hp|Hp].
    { rewrite decide_True by auto. by rewrite bool_decide_eq_true_2. }
    rewrite decide_False by (intros [?|[?|?]]; [lia|done|lia]). rewrite (bool_decide_eq_false_2 _ Hp).
    destruct base as [|z base _] using rev_ind; [done|].
    assert (index_get (base ++ [z]) (length (base ++ [z]) - 1) = Ret z) as ->.
    { apply index_get_ok. rewrite length_app. cbn [length]. replace (length base + 1 - 1) with (length base) by lia.
      by apply list_lookup_middle. }
    rewrite outcome_bind_ret, last_snoc.
    assert (head (base ++ [z]) = Some slash → ∀ x, head ((base ++ [z]) ++ x) = Some slash) as Hhead.
    { intros Hh x. destruct base; done. }
    set (b := base ++ [z]) in *. destruct (Z.eqb_spec z slash) as [->|Hz].
    + rewrite (decide_True (P := Some slash = Some slash)) by done. cbn [app]. rewrite length_app.
      case_decide as Ht; [by rewrite bool_decide_eq_true_2 by lia|]. rewrite bool_decide_eq_false_2 by lia.
      rewrite copy_into_ok by (rewrite length_replicate; lia). rewrite outcome_bind_ret.
      rewrite bool_decide_eq_false_2 by lia. rewrite outcome_bind_ret.
      pose proof (splice_zeros [] MAX_PATH_LENGTH b) as E. cbn [length app] in E. rewrite E by lia.
      rewrite copy_into_ok by (rewrite length_app, length_replicate; lia). rewrite outcome_bind_ret.
      rewrite splice_zeros by lia. rewrite <- length_app, zeros_set by lia.
      rewrite outcome_bind_ret. split_and!; [|rewrite ?length_app; cbn [length]; lia|by apply Hhead].
      f_equal. f_equal. f_equal. f_equal. rewrite ?length_app. lia.
    + rewrite (decide_False (P := Some z = Some slash)) by congruence. rewrite !length_app. cbn [length].
      case_decide as Ht; [by rewrite bool_decide_eq_true_2 by lia|]. rewrite bool_decide_eq_false_2 by lia.
      rewrite copy_into_ok by (rewrite length_replicate; lia). rewrite outcome_bind_ret.
      rewrite bool_decide_eq_true_2 by lia.
      pose proof (splice_zeros [] MAX_PATH_LENGTH b) as E. cbn [length app] in E. rewrite E by lia.
      rewrite index_set_ok by (rewrite length_app, length_replicate; lia). rewrite outcome_bind_ret, outcome_bind_ret.
      assert (<[length b := slash]> (b ++ replicate (MAX_PATH_LENGTH - length b) 0%Z)
        = (b ++ [slash]) ++ replicate (MAX_PATH_LENGTH - length b - 1) 0%Z) as ->.
      { rewrite insert_app_r_alt by lia. rewrite Nat.sub_diag, <- app_assoc. f_equal.
        destruct (MAX_PATH_LENGTH - length b) as [|k] eqn:Ek; [lia|]. cbn. by rewrite Nat.sub_0_r. }
      replace (length b + 1) with (length (b ++ [slash])) by (rewrite length_app; done).
      rewrite copy_into_ok by (rewrite !length_app, length_replicate; cbn [length]; lia). rewrite outcome_bind_ret.
      rewrite splice_zeros by lia. rewrite <- length_app, zeros_set by lia.
      rewrite outcome_bind_ret. split_and!; [|rewrite ?length_app; cbn [length]; lia|by apply Hhead].
      f_equal. f_equal. rewrite <- !app_assoc. cbn [app]. f_equal. f_equal. f_equal. f_equal. rewrite ?length_app. cbn [length]. lia.
Qed.

Lemma c_string_no_nul p : 0%Z ∉ c_string p.
Proof. by apply c_str_len_no_nul. Qed.

Lemma c_string_zeros p n : 0 < n → ∃ x, p ++ replicate n 0%Z = c_string p ++ 0%Z :: x.
Proof.
  intros Hn. unfold c_string. induction p as [|b p [x IH]]; cbn [c_str_len take app].
  - destruct n; [lia|]. by exists (replicate n 0%Z).
  - destruct (Z.eqb_spec b 0) as [->|Hb]; [by eexists|]. exists x. cbn. by rewrite IH.
Qed.

(** What a path resolves to. *)
Definition resolved_to (path base : list Z) : list Z := render (normalize (tail (c_string (absolute path base)))).

Lemma resolve_path_ok path base r :
  string_capacity r = FILE_NAME_STRING_SIZE →
  match resolve_status path base with
  | PathValid => ∃ r', resolve_path path base r = Ret (PathValid, r') ∧ as_bytes r' = resolved_to path base ∧ len r' = length (resolved_to path base) ∧
                   string_capacity r' = FILE_NAME_STRING_SIZE ∧ length (resolved_to path base) < MAX_PATH_LENGTH
  | st => resolve_path path base r = Ret (st, r)
  end.
Proof.
  intros Hr. unfold resolve_path. destruct (decide (path = [])) as [->|Hne].
  { done. }
  rewrite bool_decide_eq_false_2 by done. pose proof (build_absolute_ok path base Hne) as Hb.
  destruct (resolve_status path base) eqn:Es; try (rewrite Hb, outcome_bind_ret; done).
  destruct Hb as (-> & Hlen & Hhead). rewrite outcome_bind_ret, bool_decide_eq_true_2 by done. cbn [negb].
  set (abs := absolute path base) in *. destruct (c_string_zeros abs (MAX_PATH_LENGTH - length abs)) as [x Hx]; [lia|].
  assert (∃ rem, c_string abs = slash :: rem) as [rem Hrem].
  { unfold c_string. destruct abs as [|b l]; [done|]. injection Hhead as ->. cbn. by eexists. }
  assert (0%Z ∉ rem) as H0 by (pose proof (c_string_no_nul abs) as Hz; rewrite Hrem in Hz; set_solver).
  unfold resolved_to. fold abs. rewrite Hrem. cbn [tail]. rewrite Hx, Hrem. cbn [app].
  destruct (resolve_in_place_ok rem x H0) as (y & -> & Hly). rewrite outcome_bind_ret, bool_decide_eq_true_2 by done. cbn [negb].
  set (res := render (normalize rem)) in *. assert (0%Z ∉ res) as Hres by (apply render_no_nul, normalize_plain; done).
  assert (length res < MAX_PATH_LENGTH) as Hlr.
  { assert (length (slash :: rem ++ 0%Z :: x) = MAX_PATH_LENGTH) as E.
    { change (slash :: rem ++ 0%Z :: x) with ((slash :: rem) ++ 0%Z :: x). rewrite <- Hrem, <- Hx, length_app, length_replicate. lia. }
    rewrite E, length_app in Hly. cbn [length] in Hly. lia. }
  rewrite c_len_app by done. cbn [from_option Datatypes.id].
  rewrite copy_from_ok by (rewrite length_app; cbn; lia). rewrite outcome_bind_ret. unfold slice. rewrite drop_0, take_app_length.
  eexists. split; [done|]. unfold set_bytes. rewrite c_str_len_full by done. rewrite Hr.
  replace (length res `min` FILE_NAME_STRING_SIZE) with (length res) by (unfold MAX_PATH_LENGTH in *; lia).
  assert (length res ≤ length (bytes r)) as Hcap by (unfold string_capacity in Hr; rewrite Hr; unfold MAX_PATH_LENGTH in *; lia).
  split_and!; [|done|unfold string_capacity in *; cbn [bytes]|done].
  - rewrite as_bytes_splice by done. by apply take_ge.
  - rewrite length_splice; [done|]. rewrite length_take. lia.
Qed.

(** ** Containment *)

Lemma render_inj cs ds : Forall plain cs → Forall plain ds → render cs = render ds → cs = ds.
Proof.
  intros Hc Hd E. destruct (decide (cs = [])) as [->|Hcn], (decide (ds = [])) as [->|Hdn]; try done.
  - apply (f_equal (λ l, segments (tail l))) in E. rewrite (segments_render ds) in E by done. change (segments (tail (render []))) with [@nil Z] in E.
    destruct ds as [|s [|? ?]]; try done. apply Forall_cons in Hd as [(? & _) _]. congruence.
  - apply (f_equal (λ l, segments (tail l))) in E. rewrite (segments_render cs) in E by done. change (segments (tail (render []))) with [@nil Z] in E.
    destruct cs as [|s [|? ?]]; try done. apply Forall_cons in Hc as [(? & _) _]. congruence.
  - apply (f_equal (λ l, segments (tail l))) in E. by rewrite !segments_render in E.
Qed.

Lemma render_prefix cs ds y : Forall plain cs → Forall plain ds → render cs = as_directory ds ++ y → ds `prefix_of` cs.
Proof.
  intros Hc Hd E. destruct (decide (cs = [])) as [->|Hcn].
  - destruct ds as [|s ds]; [done|]. exfalso. change (render []) with [slash] in E. apply (f_equal length) in E. unfold as_directory in E. cbn in E.
    rewrite !length_app in E. cbn in E. lia.
  - pose proof (f_equal (λ l, segments (tail l)) E) as E'. cbn beta in E'. rewrite segments_render in E' by done.
    assert (tail (as_directory ds ++ y) = tail (as_directory ds) ++ y) as Et by done.
    rewrite Et, segments_directory in E' by done. rewrite E'. by eexists.
Qed.

(** Exactly the paths whose components extend those of the directory. *)
Lemma check_containment_ok cs ds :
  Forall plain cs → Forall plain ds → length (render cs) < MAX_PATH_LENGTH → length (as_directory ds) < MAX_PATH_LENGTH →
  check_containment (render cs) (as_directory ds) = Ret (if decide (ds `prefix_of` cs) then PathValid else PathOutsideSandbox).
Proof.
  intros Hc Hd Hlc Hld. unfold check_containment. rewrite !bool_decide_eq_false_2 by lia. cbn [orb].
  assert (render cs ≠ []) as Hne. { unfold render. case_decide; [done|]. by destruct cs. }
  rewrite (bool_decide_eq_false_2 (as_directory ds = [])), (bool_decide_eq_false_2 (render cs = [])) by done. cbn [orb].
  destruct (as_directory_end ds) as [e He].
  assert (index_get (as_directory ds) (length (as_directory ds) - 1) = Ret slash) as ->.
  { apply index_get_ok. rewrite He, length_app. cbn [length]. replace (length e + 1 - 1) with (length e) by lia. by apply list_lookup_middle. }
  rewrite outcome_bind_ret, Z.eqb_refl. cbn [negb].
  destruct (decide (ds `prefix_of` cs)) as [[ys Hys]|Hn].
  - destruct (decide (ys = [])) as [->|Hys0].
    + rewrite app_nil_r in Hys. subst cs. destruct (decide (ds = [])) as [->|Hds].
      * done.
      * pose proof (render_as_directory ds Hds) as E. pose proof (f_equal length E) as El. rewrite length_app in El. cbn [length] in El.
        rewrite bool_decide_eq_true_2 by lia. rewrite bool_decide_eq_true_2; [done|]. rewrite <- E, take_app_length. done.
    + assert (cs ≠ []) as Hcs by (subst; by destruct ds). assert (∃ y, render cs = as_directory ds ++ y) as [y Hy].
      { destruct ys as [|y ys _] using rev_ind; [done|]. exists (tail (as_directory ys) ++ y).
        assert (render cs ++ [slash] = (as_directory ds ++ tail (as_directory ys) ++ y) ++ [slash]) as E; [|by apply app_inj_tail in E as [E _]].
        rewrite render_as_directory, Hys, app_assoc, as_directory_snoc by done. rewrite !app_assoc. f_equal. f_equal.
        unfold as_directory. cbn [tail]. rewrite fmap_app, concat_app. done. }
      rewrite (bool_decide_eq_false_2 (length (render cs) = _)) by (rewrite Hy, length_app, He, length_app; cbn; lia). cbn [andb].
      rewrite bool_decide_eq_false_2 by (rewrite Hy, length_app; lia). rewrite bool_decide_eq_true_2; [done|].
      by rewrite Hy, take_app_length.
  - case_bool_decide as Hl; [case_bool_decide as Ht|]; cbn [andb].
    + exfalso. apply Hn. destruct (decide (ds = [])) as [->|Hds]; [apply prefix_nil|].
      pose proof (render_as_directory ds Hds) as E. pose proof (f_equal length E) as El. rewrite length_app in El. cbn [length] in El.
      rewrite <- E in Ht. rewrite take_app_le, take_ge in Ht by lia. by rewrite (render_inj cs ds Hc Hd Ht).
    + pose proof (f_equal length He) as Hle. rewrite length_app in Hle. cbn [length] in Hle. by rewrite bool_decide_eq_true_2 by lia.
    + case_bool_decide as Hlt; [done|]. rewrite bool_decide_eq_false_2; [done|]. intros Ht. apply Hn.
      apply (render_prefix cs ds (drop (length (as_directory ds)) (render cs))); [done|done|]. rewrite <- Ht at 1. by rewrite take_drop.
Qed.

(** * The sandboxed file *)

(** [core::str::from_utf8]: well-formed UTF-8. *)
Definition in_range (lo hi b : Z) : bool := ((lo <=? b) && (b <=? hi))%Z.
Definition utf8_cont (b : Z) : bool := in_range 128 191 b.
Fixpoint valid_utf8 (l : list Z) : bool :=
  match l with
  | [] => true
  | b :: l1 =>
      if in_range 0 127 b then valid_utf8 l1
      else match l1 with
      | [] => false
      | b1 :: l2 =>
          if in_range 194 223 b && utf8_cont b1 then valid_utf8 l2
          else match l2 with
          | [] => false
          | b2 :: l3 =>
              let second :=
                if (b =? 224)%Z then in_range 160 191 b1 else if (b =? 237)%Z then in_range 128 159 b1 else utf8_cont b1 in
              if in_range 224 239 b && second && utf8_cont b2 then valid_utf8 l3
              else match l3 with
              | [] => false
              | b3 :: l4 =>
                  let second :=
                    if (b =? 240)%Z then in_range 144 191 b1 else if (b =? 244)%Z then in_range 128 143 b1 else utf8_cont b1 in
                  if in_range 240 244 b && second && utf8_cont b2 && utf8_cont b3 then valid_utf8 l4 else false
              end
          end
      end
  end.

Definition as_str (s : FwString) : option (list Z) := if valid_utf8 (as_bytes s) then Some (as_bytes s) else None.

Section sandbox.
Context {F : Type} `{OsFile F}.
(** The working directory, when the system reports one. *)
Context (cwd : option FwString).

Definition resolve_from_cwd (path : list Z) (resolved : FwString) : outcome (PathStatus * FwString) :=
  if negb (starts_with_slash path) then
    match cwd with
    | None => Ret (PathInvalidPath, resolved)
    | Some c =>
        match as_str c with
        | Some base => resolve_path path base resolved
        | None => Ret (PathInvalidPath, resolved)
        end
    end
  else resolve_path path [slash] resolved.

Record SandboxedFile : Type := MkSandbox {
  sf_file : F;
  allowed_directory : FwString;
  configured : bool;
}.

Definition FileNameString_new : FwString := FwString_new FILE_NAME_STRING_SIZE.
Definition SandboxedFile_new (f : F) : SandboxedFile := MkSandbox f (set_bytes [slash] FileNameString_new) true.

Definition sf_configure (directory : list Z) (sf : SandboxedFile) : outcome SandboxedFile :=
  _ ← fw_assert (negb (os_is_open (sf_file sf)));
  '(status, resolved) ← resolve_from_cwd directory FileNameString_new;
  _ ← fw_assert (bool_decide (status = PathValid));
  let n := len resolved in
  _ ← fw_assert (bool_decide (0 < n));
  _ ← fw_assert (bool_decide (n + 2 ≤ MAX_PATH_LENGTH));
  last ← index_get (as_bytes resolved) (n - 1);
  let resolved := if negb (last =? slash)%Z then append_bytes [slash] resolved else resolved in
  Ret (MkSandbox (sf_file sf) resolved true).

Definition set_file (f : F) (sf : SandboxedFile) : SandboxedFile := MkSandbox f (allowed_directory sf) (configured sf).

Definition sf_open (path : list Z) (mode : FileMode) (sf : SandboxedFile) : outcome (FileStatus * SandboxedFile) :=
  if negb (configured sf) then Ret (FsOutsideSandbox, sf)
  else
    '(status, resolved) ← resolve_from_cwd path FileNameString_new;
    if negb (bool_decide (status = PathValid)) then Ret (FsOutsideSandbox, sf)
    else
      match as_str resolved, as_str (allowed_directory sf) with
      | Some r, Some a =>
          status ← check_containment r a;
          if negb (bool_decide (status = PathValid)) then Ret (FsOutsideSandbox, sf)
          else '(st, f) ← os_open r mode (sf_file sf); Ret (st, set_file f sf)
      | _, _ => Ret (FsOutsideSandbox, sf)
      end.

(** The methods that forward. *)
Definition sf_close (sf : SandboxedFile) : SandboxedFile := set_file (os_close (sf_file sf)) sf.
Definition sf_is_open (sf : SandboxedFile) : bool := os_is_open (sf_file sf).
Definition sf_size (sf : SandboxedFile) : FileStatus * option nat * SandboxedFile :=
  let '(st, n, f) := os_size (sf_file sf) in (st, n, set_file f sf).
Definition sf_seek (offset : Z) (t : SeekType) (sf : SandboxedFile) : outcome (FileStatus * SandboxedFile) :=
  '(st, f) ← os_seek offset t (sf_file sf); Ret (st, set_file f sf).
Definition sf_read (n : nat) (wait : WaitType) (sf : SandboxedFile) : FileStatus * list Z * SandboxedFile :=
  let '(st, bs, f) := os_read n wait (sf_file sf) in (st, bs, set_file f sf).
Definition sf_write (bs : list Z) (wait : WaitType) (sf : SandboxedFile) : FileStatus * nat * SandboxedFile :=
  let '(st, n, f) := os_write bs wait (sf_file sf) in (st, n, set_file f sf).

(** The base a path is resolved against, when there is one. *)
Definition base_of (path : list Z) : option (list Z) :=
  if starts_with_slash path then Some [slash] else c ← cwd; as_str c.
(** The components a path stands for. *)
Definition components (path : list Z) : option (list (list Z)) :=
  base ← base_of path;
  if decide (resolve_status path base = PathValid) then Some (normalize (tail (c_string (absolute path base)))) else None.

Definition sandboxed (ds : list (list Z)) (sf : SandboxedFile) : Prop :=
  configured sf = true ∧ as_bytes (allowed_directory sf) = as_directory ds ∧ Forall plain ds ∧ length (as_directory ds) < MAX_PATH_LENGTH.

Lemma components_plain path cs : components path = Some cs → Forall plain cs.
Proof.
  unfold components. destruct (base_of path) as [base|]; cbn; [|done]. case_decide; [|done]. intros [= <-].
  apply normalize_plain. pose proof (c_string_no_nul (absolute path base)) as Hz. intros Hin. apply Hz.
  destruct (c_string (absolute path base)); [done|]. by right.
Qed.

Lemma resolve_from_cwd_ok path :
  match components path with
  | Some cs => ∃ r, resolve_from_cwd path FileNameString_new = Ret (PathValid, r) ∧ as_bytes r = render cs ∧ len r = length (render cs) ∧
                 string_capacity r = FILE_NAME_STRING_SIZE ∧ length (render cs) < MAX_PATH_LENGTH
  | None => ∃ st r, resolve_from_cwd path FileNameString_new = Ret (st, r) ∧ st ≠ PathValid
  end.
Proof.
  unfold components, base_of, resolve_from_cwd. assert (string_capacity FileNameString_new = FILE_NAME_STRING_SIZE) as Hcap
    by (unfold string_capacity, FileNameString_new, FwString_new; cbn [bytes]; apply length_replicate).
  destruct (starts_with_slash path); cbn [negb].
  - cbn [mbind option_bind]. pose proof (resolve_path_ok path [slash] FileNameString_new Hcap) as Hr.
    destruct (resolve_status path [slash]); [rewrite decide_True by done; exact Hr|rewrite decide_False by done; eauto..].
  - destruct cwd as [c|]; cbn [mbind option_bind]; [|eauto]. destruct (as_str c) as [base|]; cbn [mbind option_bind]; [|eauto].
    pose proof (resolve_path_ok path base FileNameString_new Hcap) as Hr.
    destruct (resolve_status path base); [rewrite decide_True by done; exact Hr|rewrite decide_False by done; eauto..].
Qed.

Lemma sandboxed_new f : sandboxed [] (SandboxedFile_new f).
Proof. split_and!; [done|vm_compute; reflexivity|constructor|cbn; unfold MAX_PATH_LENGTH, FILE_NAME_STRING_SIZE; lia]. Qed.

Lemma sf_configure_ok dir f ds :
  os_is_open f = false → components dir = Some ds → length (render ds) + 2 ≤ MAX_PATH_LENGTH →
  ∃ sf, sf_configure dir (SandboxedFile_new f) = Ret sf ∧ sf_file sf = f ∧ sandboxed ds sf.
Proof.
  intros Ho Hc Hlen. unfold sf_configure. cbn [sf_file SandboxedFile_new]. rewrite Ho. cbn [negb fw_assert]. rewrite outcome_bind_ret.
  pose proof (resolve_from_cwd_ok dir) as Hr. rewrite Hc in Hr. destruct Hr as (r & -> & Hb & Hn & Hcap & Hl). rewrite outcome_bind_ret.
  rewrite (bool_decide_eq_true_2 (PathValid = PathValid)) by done. cbn [fw_assert]. rewrite outcome_bind_ret.
  pose proof (components_plain dir ds Hc) as Hpl.
  assert (render ds ≠ []) as Hne. { unfold render. case_decide; [done|]. by destruct ds. }
  assert (0 < length (render ds)) as Hpos by (destruct (render ds); [done|cbn; lia]).
  rewrite Hn, !bool_decide_eq_true_2 by lia. cbn [fw_assert]. rewrite !outcome_bind_ret.
  destruct (decide (ds = [])) as [->|Hds].
  - rewrite Hb. change (render []) with [slash]. cbn. eexists. split; [done|]. split; [done|].
    split_and!; [done|done|constructor|cbn; unfold MAX_PATH_LENGTH, FILE_NAME_STRING_SIZE; lia].
  - pose proof (render_as_directory ds Hds) as E. pose proof (f_equal length E) as El. rewrite length_app in El. cbn [length] in El.
    assert (∃ b, index_get (as_bytes r) (length (render ds) - 1) = Ret b ∧ b ≠ slash) as (b & -> & Hbs).
    { destruct ds as [|s ds _] using rev_ind; [done|]. apply Forall_app in Hpl as [_ [Hs _]%Forall_cons].
      assert (render (ds ++ [s]) = as_directory ds ++ s) as Er.
      { rewrite as_directory_snoc, app_assoc in E. by apply app_inj_tail in E as [E _]. }
      rewrite Hb, Er. destruct Hs as (Hs0 & _ & _ & Hs1 & _). destruct s as [|b s _] using rev_ind; [done|]. exists b.
      split; [|set_solver]. apply index_get_ok. rewrite app_assoc, length_app. cbn [length].
      rewrite Nat.add_sub. by apply list_lookup_middle. }
    rewrite outcome_bind_ret, (proj2 (Z.eqb_neq _ _) Hbs). cbn [negb]. eexists. split; [done|]. split; [done|].
    split_and!; [done| |done|lia]. cbn [allowed_directory]. rewrite <- E, <- Hb.
    unfold append_bytes. rewrite Hcap, Hn. change (c_str_len [slash]) with 1.
    replace (1 `min` (FILE_NAME_STRING_SIZE - length (render ds))) with 1 by (unfold MAX_PATH_LENGTH in *; lia). cbn [take].
    unfold as_bytes in *. cbn [len bytes]. rewrite Hn in *.
    replace (length (render ds) + 1) with (length (take (length (render ds)) (bytes r) ++ [slash]))
      by (rewrite length_app, Hb; done).
    unfold splice. rewrite app_assoc. by rewrite take_app_length.
Qed.

(** What [open] does on a sandbox over the components [ds]. *)
Lemma sf_open_ok path mode sf ds :
  sandboxed ds sf →
  match components path with
  | Some cs =>
      Forall plain cs ∧
      sf_open path mode sf =
        if decide (ds `prefix_of` cs ∧ valid_utf8 (render cs) = true ∧ valid_utf8 (as_directory ds) = true)
        then '(st, f') ← os_open (render cs) mode (sf_file sf); Ret (st, MkSandbox f' (allowed_directory sf) true)
        else Ret (FsOutsideSandbox, sf)
  | None => sf_open path mode sf = Ret (FsOutsideSandbox, sf)
  end.
Proof.
  intros (Hconf & Hdir & Hpd & Hld). unfold sf_open. rewrite Hconf. cbn [negb]. pose proof (resolve_from_cwd_ok path) as Hr.
  destruct (components path) as [cs|] eqn:Ec.
  - pose proof (components_plain path cs Ec) as Hpc. split; [done|]. destruct Hr as (r & -> & Hb & _ & _ & Hl).
    rewrite outcome_bind_ret, bool_decide_eq_true_2 by done. cbn [negb]. unfold as_str. rewrite Hb, Hdir.
    destruct (valid_utf8 (render cs)); [|by rewrite decide_False by naive_solver].
    destruct (valid_utf8 (as_directory ds)); [|by rewrite decide_False by naive_solver].
    rewrite check_containment_ok by done. rewrite outcome_bind_ret. destruct (decide (ds `prefix_of` cs)) as [Hp|Hp].
    + rewrite decide_True by done. rewrite bool_decide_eq_true_2 by done. cbn [negb]. unfold set_file. by rewrite Hconf.
    + by rewrite decide_False by naive_solver.
  - destruct Hr as (st & r & -> & Hst). rewrite outcome_bind_ret, bool_decide_eq_false_2 by done. done.
Qed.

(** C14. A sandboxed file lets exactly the paths below its directory through.
    After configuration with a directory that stands for the components [ds],
    opening any path either passes to the operating system the normal form of
    components [cs] that extend [ds], none of which is empty, [.] or [..] or
    holds a slash, or reports the path as outside the sandbox with nothing
    opened; which of the two is decided by the components alone (and by the
    names being text). *)
Theorem sandbox_confines dir path mode f ds :
  os_is_open f = false → components dir = Some ds → length (render ds) + 2 ≤ MAX_PATH_LENGTH →
  ∃ sf, sf_configure dir (SandboxedFile_new f) = Ret sf ∧
    match components path with
    | Some cs =>
        Forall plain cs ∧
        sf_open path mode sf =
          if decide (ds `prefix_of` cs ∧ valid_utf8 (render cs) = true ∧ valid_utf8 (as_directory ds) = true)
          then '(st, f') ← os_open (render cs) mode f; Ret (st, MkSandbox f' (allowed_directory sf) true)
          else Ret (FsOutsideSandbox, sf)
    | None => sf_open path mode sf = Ret (FsOutsideSandbox, sf)
    end.
Proof.
  intros Ho Hd Hlen. destruct (sf_configure_ok dir f ds Ho Hd Hlen) as (sf & Hcfg & Hf & Hconf & Hdir & Hpd & Hld).
  exists sf. split; [done|]. pose proof (sf_open_ok path mode sf ds (conj Hconf (conj Hdir (conj Hpd Hld)))) as Hop. by rewrite Hf in Hop.
Qed.

(** ** Panics *)

Lemma check_containment_ret r a : ∃ st, check_containment r a = Ret st.
Proof.
  unfold check_containment. case_match; [eauto|]. destruct (bool_decide (a = [])) eqn:Ea; [eauto|].
  cbn [orb]. case_match; [eauto|]. apply bool_decide_eq_false_1 in Ea as Ha. destruct a as [|x a _] using rev_ind; [done|].
  rewrite length_app. cbn [length]. rewrite Nat.add_sub.
  rewrite (index_get_ok _ _ x) by (by apply list_lookup_middle). rewrite outcome_bind_ret. repeat case_match; eauto.
Qed.

Lemma sf_open_ret `{!OsFileLaws F} path mode sf : mode ≠ OpenNoMode → ∃ st sf', sf_open path mode sf = Ret (st, sf').
Proof.
  intros Hm. unfold sf_open. destruct (configured sf); cbn [negb]; [|eauto]. pose proof (resolve_from_cwd_ok path) as Hr.
  assert (∃ st r, resolve_from_cwd path FileNameString_new = Ret (st, r)) as (st & r & ->) by (destruct (components path); naive_solver).
  rewrite outcome_bind_ret. destruct (negb (bool_decide (st = _))); [eauto|]. destruct (as_str r) as [r'|]; [|eauto]. destruct (as_str _) as [a|]; [|eauto].
  destruct (check_containment_ret r' a) as [st' ->]. rewrite outcome_bind_ret. destruct (negb _); [eauto|].
  destruct (os_open_ret r' mode (sf_file sf) Hm) as (st2 & f' & ->). eauto.
Qed.
End sandbox.

(** The in-place pass computes the normal form: a path of at most 239
    bytes, absolute or joined to an absolute base, resolves to its components
    (the parts between slashes, with empty parts and [.] removed and [..]
    taking back one) joined by single slashes; every other path is refused
    with the status of the first check it fails; no index is ever out of
    range. *)
Theorem resolve_path_normalizes path base r :
  string_capacity r = FILE_NAME_STRING_SIZE →
  match resolve_status path base with
  | PathValid => ∃ r', resolve_path path base r = Ret (PathValid, r') ∧ as_bytes r' = resolved_to path base
  | st => resolve_path path base r = Ret (st, r)
  end.
Proof.
  intros Hr. pose proof (resolve_path_ok path base r Hr) as Hp. destruct (resolve_status path base); [|done..].
  destruct Hp as (r' & E & Hb & _). eauto.
Qed.

(** * Witnesses *)

Definition str (s : string) : list Z := (λ a, Z.of_N (Ascii.N_of_ascii a)) <$> String.list_ascii_of_string s.

Lemma resolve_path_normalizes_witness :
  ∃ r', resolve_path (str "/a/./b//../c/") [slash] FileNameString_new = Ret (PathValid, r') ∧ as_bytes r' = str "/a/c".
Proof.
  destruct (resolve_path_normalizes (str "/a/./b//../c/") [slash] FileNameString_new) as (r' & E & Hb); [reflexivity|].
  exists r'. split; [exact E|]. rewrite Hb. vm_compute. reflexivity.
Defined.

(** A file that remembers what it opened. *)
Definition opened : Type := list (list Z).
#[local] Instance opened_file : OsFile opened := {|
  os_is_open := λ _, false; os_open := λ p _ l, Ret (FsOpOk, p :: l); os_close := λ l, l; os_size := λ l, (FsOpOk, None, l);
  os_seek := λ _ _ l, Ret (FsOpOk, l); os_read := λ _ _ l, (FsOpOk, [], l); os_write := λ d _ l, (FsOpOk, length d, l) |}.

Lemma sandbox_confines_witness :
  ∃ sf : @SandboxedFile opened, sf_configure None (str "/up/./link") (SandboxedFile_new (F := opened) []) = Ret sf ∧
    sf_open None (str "/up/link/x/../y") OpenWrite sf = Ret (FsOpOk, MkSandbox [str "/up/link/y"] (allowed_directory sf) true).
Proof.
  destruct (sandbox_confines None (str "/up/./link") (str "/up/link/x/../y") OpenWrite ([] : opened) [str "up"; str "link"])
    as (sf & E & Ho); [reflexivity|vm_compute; reflexivity|fp_decide|].
  exists sf. split; [exact E|].
  assert (components None (str "/up/link/x/../y") = Some [str "up"; str "link"; str "y"]) as Ec by (vm_compute; reflexivity).
  rewrite Ec in Ho. destruct Ho as [_ ->]. rewrite decide_True by (split_and!; [by exists [str "y"]|reflexivity|reflexivity]). reflexivity.
Defined.
