(* ===== verification/FilePacket.v ===== *)
(** The file-transfer packets, [crates/fprime-fw/src/file_packet.rs]: START,
    DATA, END and CANCEL, their encoder over the serialization buffer and
    their decoder over a read cursor.  Slices that borrow the source buffer are
    the bytes themselves. *)

From S2P Require Import Prelude Serial SerialFacts Codec Fpp.

(** * Data *)

Inductive FilePacketType : Set := FptStart | FptData | FptEnd | FptCancel | FptNone.
#[export] Instance FilePacketType_eq_dec : EqDecision FilePacketType.
Proof. solve_decision. Defined.
Definition FilePacketType_repr (t : FilePacketType) : Z :=
  match t with FptStart => 0 | FptData => 1 | FptEnd => 2 | FptCancel => 3 | FptNone => 255 end.
Definition FilePacketType_VALUES : list (Z * FilePacketType) :=
  [(0, FptStart); (1, FptData); (2, FptEnd); (3, FptCancel); (255, FptNone)]%Z.
#[export] Program Instance FilePacketType_enum : FppEnum FilePacketType := {|
  repr_bytes := 1; as_repr := FilePacketType_repr; try_from := table_try_from FilePacketType_VALUES |}.
Solve All Obligations with fpp_enum_laws.

Definition HEADER_SIZE : nat := 5.
Definition DATA_PACKET_HEADER_SIZE : nat := HEADER_SIZE + 4 + 2.
Definition PATH_NAME_MAX_LENGTH : nat := 255.

Record Header : Set := MkHeader { packet_type : FilePacketType; sequence_index : Z }.
Record StartPacket : Set := MkStart {
  start_header : Header; file_size : Z; source_path : list Z; destination_path : list Z }.
Record DataPacket : Set := MkData {
  data_header : Header; byte_offset : Z; data_size : Z; payload : list Z }.
Record EndPacket : Set := MkEnd { end_header : Header; checksum_value : Z }.
Record CancelPacket : Set := MkCancel { cancel_header : Header }.

Inductive FilePacket : Set :=
| PStart (p : StartPacket)
| PData (p : DataPacket)
| PEnd (p : EndPacket)
| PCancel (p : CancelPacket).

(** * Construction and sizes *)

Definition truncate_path (path : list Z) : list Z :=
  if bool_decide (PATH_NAME_MAX_LENGTH < length path) then take PATH_NAME_MAX_LENGTH path else path.

Definition StartPacket_initialize (file_size : Z) (source_path destination_path : list Z) : StartPacket :=
  MkStart (MkHeader FptStart 0) file_size (truncate_path source_path) (truncate_path destination_path).

Definition DataPacket_initialize (sequence_index byte_offset data_size : Z) (data : list Z) : DataPacket :=
  let len := Z.to_nat data_size `min` length data in
  MkData (MkHeader FptData sequence_index) byte_offset (wrap 16 (Z.of_nat len)) (take len data).

Definition EndPacket_initialize (sequence_index checksum_value : Z) : EndPacket :=
  MkEnd (MkHeader FptEnd sequence_index) checksum_value.
Definition CancelPacket_initialize (sequence_index : Z) : CancelPacket :=
  MkCancel (MkHeader FptCancel sequence_index).

Definition packet_header (p : FilePacket) : Header :=
  match p with
  | PStart p => start_header p
  | PData p => data_header p
  | PEnd p => end_header p
  | PCancel p => cancel_header p
  end.

Definition buffer_size (p : FilePacket) : nat :=
  match p with
  | PStart p => HEADER_SIZE + 4 + (1 + length (source_path p)) + (1 + length (destination_path p))
  | PData p => DATA_PACKET_HEADER_SIZE + Z.to_nat (data_size p)
  | PEnd p => HEADER_SIZE + 4
  | PCancel p => HEADER_SIZE
  end.

(** * Encoding *)

Definition Header_serialize_to (h : Header) : SerM unit :=
  _ ← serialize_u8 (as_repr (packet_type h)) Big;
  serialize_u32 (sequence_index h) Big.

Definition serialize_path (path : list Z) : SerM unit :=
  let path := truncate_path path in
  _ ← serialize_u8 (wrap 8 (Z.of_nat (length path))) Big;
  serialize_bytes path OmitLength Big.

Definition StartPacket_serialize_to (p : StartPacket) : SerM unit :=
  _ ← Header_serialize_to (start_header p);
  _ ← serialize_u32 (file_size p) Big;
  _ ← serialize_path (source_path p);
  serialize_path (destination_path p).

Definition DataPacket_serialize_to (p : DataPacket) : SerM unit :=
  _ ← Header_serialize_to (data_header p);
  _ ← serialize_u32 (byte_offset p) Big;
  _ ← serialize_u16 (data_size p) Big;
  serialize_bytes (payload p) OmitLength Big.

Definition EndPacket_serialize_to (p : EndPacket) : SerM unit :=
  _ ← Header_serialize_to (end_header p);
  serialize_u32 (checksum_value p) Big.

Definition CancelPacket_serialize_to (p : CancelPacket) : SerM unit := Header_serialize_to (cancel_header p).

Definition FilePacket_serialize_to (p : FilePacket) : SerM unit :=
  match p with
  | PStart p => StartPacket_serialize_to p
  | PData p => DataPacket_serialize_to p
  | PEnd p => EndPacket_serialize_to p
  | PCancel p => CancelPacket_serialize_to p
  end.

(** * The read cursor *)

Record Cursor : Set := MkCursor { cur_data : list Z; pos : nat }.
Definition CurM (A : Type) : Type := Cursor → serres A * Cursor.

#[export] Instance CurM_ret : MRet CurM := λ A a c, (SOk a, c).
#[export] Instance CurM_bind : MBind CurM := λ A B f m c,
  match m c with
  | (SOk a, c') => f a c'
  | (SErr s, c') => (SErr s, c')
  | (SPanic, c') => (SPanic, c')
  end.
Definition cur_fail {A} (s : SerializeStatus) : CurM A := λ c, (SErr s, c).

Definition Cursor_new (data : list Z) : Cursor := MkCursor data 0.
Definition cur_remaining (c : Cursor) : nat := length (cur_data c) - pos c.

Definition cur_get_remaining : CurM nat := λ c, (SOk (cur_remaining c), c).

(** [&self.data[self.pos..self.pos + len]] and the advance. *)
Definition cur_slice (n : nat) : CurM (list Z) := λ c,
  if bool_decide (length (cur_data c) < pos c + n) then (SPanic, c)
  else (SOk (slice (pos c) n (cur_data c)), MkCursor (cur_data c) (pos c + n)).

Definition read_primitive (n : nat) : CurM (list Z) := λ c,
  if bool_decide (cur_remaining c = 0) then (SErr DeserBufferEmpty, c)
  else if bool_decide (cur_remaining c < n) then (SErr DeserSizeMismatch, c)
  else cur_slice n c.

(** [read_u8], [read_u16] and [read_u32]: the big-endian value of 1, 2 and 4
    bytes. *)
Definition read_be (n : nat) : CurM Z := bs ← read_primitive n; mret (be_value bs).
Definition read_u8 : CurM Z := read_be 1.
Definition read_u16 : CurM Z := read_be 2.
Definition read_u32 : CurM Z := read_be 4.

Definition cur_path_bytes (n : nat) : CurM (list Z) := λ c,
  if bool_decide (cur_remaining c < n) then (SErr DeserSizeMismatch, c) else cur_slice n c.
Definition read_path : CurM (list Z) := len ← read_u8; cur_path_bytes (Z.to_nat len).
Definition cur_take_rest : CurM (list Z) := λ c,
  if bool_decide (length (cur_data c) < pos c) then (SPanic, c)
  else (SOk (drop (pos c) (cur_data c)), MkCursor (cur_data c) (length (cur_data c))).

Definition expect_empty : CurM unit := λ c,
  if bool_decide (cur_remaining c = 0) then (SOk tt, c) else (SErr DeserSizeMismatch, c).

(** * Decoding *)

(** The [match packet_type] of [from_buffer]. *)
Definition read_body (header : Header) : CurM FilePacket :=
  match packet_type header with
  | FptStart =>
      file_size ← read_u32;
      source_path ← read_path;
      destination_path ← read_path;
      _ ← expect_empty;
      mret (PStart (MkStart header file_size source_path destination_path))
  | FptData =>
      byte_offset ← read_u32;
      data_size ← read_u16;
      remaining ← cur_get_remaining;
      if negb (bool_decide (remaining = Z.to_nat data_size)) then cur_fail DeserSizeMismatch
      else
        payload ← cur_take_rest;
        mret (PData (MkData header byte_offset data_size payload))
  | FptEnd =>
      checksum_value ← read_u32;
      _ ← expect_empty;
      mret (PEnd (MkEnd header checksum_value))
  | FptCancel =>
      _ ← expect_empty;
      mret (PCancel (MkCancel header))
  | FptNone => cur_fail DeserTypeMismatch
  end.

Definition read_packet : CurM FilePacket :=
  raw_type ← read_u8;
  sequence_index ← read_u32;
  match try_from raw_type with
  | None => cur_fail DeserInvalidData
  | Some packet_type => read_body (MkHeader packet_type sequence_index)
  end.

Definition from_buffer (data : list Z) : serres FilePacket := (read_packet (Cursor_new data)).1.

(** * The wire image *)

Definition header_ok (t : FilePacketType) (h : Header) : Prop := packet_type h = t ∧ is_u 32 (sequence_index h).
Definition path_ok (p : list Z) : Prop := length p ≤ PATH_NAME_MAX_LENGTH ∧ Forall is_byte p.

(** What a value of the Rust types built by this module satisfies. *)
Definition packet_ok (p : FilePacket) : Prop :=
  match p with
  | PStart p => header_ok FptStart (start_header p) ∧ is_u 32 (file_size p) ∧ path_ok (source_path p) ∧ path_ok (destination_path p)
  | PData p => header_ok FptData (data_header p) ∧ is_u 32 (byte_offset p) ∧ is_u 16 (data_size p) ∧
               data_size p = Z.of_nat (length (payload p)) ∧ Forall is_byte (payload p)
  | PEnd p => header_ok FptEnd (end_header p) ∧ is_u 32 (checksum_value p)
  | PCancel p => header_ok FptCancel (cancel_header p)
  end.

#[export] Instance packet_ok_dec p : Decision (packet_ok p).
Proof. destruct p; unfold packet_ok, header_ok, path_ok, is_u; apply _. Defined.

Definition header_image (h : Header) : list Z := be_bytes 1 (as_repr (packet_type h)) ++ be_bytes 4 (sequence_index h).
Definition path_image (p : list Z) : list Z := be_bytes 1 (Z.of_nat (length p)) ++ p.
Definition image (p : FilePacket) : list Z :=
  match p with
  | PStart p => header_image (start_header p) ++ be_bytes 4 (file_size p) ++ path_image (source_path p) ++ path_image (destination_path p)
  | PData p => header_image (data_header p) ++ be_bytes 4 (byte_offset p) ++ be_bytes 2 (data_size p) ++ payload p
  | PEnd p => header_image (end_header p) ++ be_bytes 4 (checksum_value p)
  | PCancel p => header_image (cancel_header p)
  end.

Lemma length_image p : packet_ok p → length (image p) = buffer_size p.
Proof.
  unfold image, header_image, path_image, buffer_size, DATA_PACKET_HEADER_SIZE, HEADER_SIZE.
  destruct p as [p|p|p|p]; intros Hp; rewrite ?length_app, ?length_be_bytes; try lia.
  destruct Hp as (_ & _ & _ & -> & _). lia.
Qed.

(** * Writing *)

Lemma header_writes h : writes (Header_serialize_to h) (header_image h).
Proof. ser_step_at u8_codec Big (as_repr (packet_type h)). ser_last u32_codec (sequence_index h). Qed.

Lemma path_writes p : path_ok p → writes (serialize_path p) (path_image p).
Proof.
  intros [Hl Hb]. unfold serialize_path, truncate_path. rewrite bool_decide_eq_false_2 by lia. cbv zeta.
  unfold PATH_NAME_MAX_LENGTH in Hl. rewrite wrap_small by (split; lia).
  ser_step_at u8_codec Big (Z.of_nat (length p)). apply writes_raw.
Qed.

Lemma header_image_bytes h : Forall is_byte (header_image h).
Proof. unfold header_image. apply Forall_app. split; apply be_bytes_is_byte. Qed.
Lemma path_image_bytes p : path_ok p → Forall is_byte (path_image p).
Proof. intros [_ ?]. unfold path_image. apply Forall_app. split; [apply be_bytes_is_byte|done]. Qed.

Lemma image_bytes p : packet_ok p → Forall is_byte (image p).
Proof.
  destruct p as [p|p|p|p]; cbn [packet_ok image]; intros Hp.
  - destruct Hp as (_ & _ & Hs & Hd). rewrite !Forall_app. auto using header_image_bytes, be_bytes_is_byte, path_image_bytes.
  - destruct Hp as (_ & _ & _ & _ & Hd). rewrite !Forall_app. auto using header_image_bytes, be_bytes_is_byte.
  - rewrite Forall_app. auto using header_image_bytes, be_bytes_is_byte.
  - apply header_image_bytes.
Qed.

Lemma FilePacket_writes p : packet_ok p → writes (FilePacket_serialize_to p) (image p).
Proof.
  destruct p as [p|p|p|p]; intros Hp; cbn [FilePacket_serialize_to image]; unfold StartPacket_serialize_to, DataPacket_serialize_to, EndPacket_serialize_to, CancelPacket_serialize_to.
  - destruct Hp as (_ & _ & Hs & Hd). apply writes_bind; [apply header_writes|apply header_image_bytes|].
    ser_step_at u32_codec Big (file_size p). apply writes_bind; [by apply path_writes|by apply path_image_bytes|by apply path_writes].
  - apply writes_bind; [apply header_writes|apply header_image_bytes|].
    ser_step_at u32_codec Big (byte_offset p). ser_step_at u16_codec Big (data_size p). apply writes_raw.
  - apply writes_bind; [apply header_writes|apply header_image_bytes|]. ser_last u32_codec (checksum_value p).
  - apply header_writes.
Qed.

(** * Reading

    A read either fails or consumes exactly the image of the value it returns
    ([consumes]); a read to the end of the data succeeds exactly on images
    ([parses]). *)

Record consumes {A} (m : CurM A) (ok : A → Prop) (enc : A → list Z) : Prop := {
  con_ok : ∀ d p a rest, p ≤ length d → ok a → drop p d = enc a ++ rest →
    m (MkCursor d p) = (SOk a, MkCursor d (p + length (enc a)));
  con_cases : ∀ d p, p ≤ length d → Forall is_byte d →
    (∃ st c', m (MkCursor d p) = (SErr st, c')) ∨
    ∃ a, ok a ∧ m (MkCursor d p) = (SOk a, MkCursor d (p + length (enc a))) ∧
         p + length (enc a) ≤ length d ∧ drop p d = enc a ++ drop (p + length (enc a)) d;
}.

Definition parses {A} (m : CurM A) (R : A → list Z → Prop) : Prop :=
  ∀ d p, p ≤ length d → Forall is_byte d →
    (∀ a, R a (drop p d) → ∃ c', m (MkCursor d p) = (SOk a, c')) ∧
    ((∃ st c', m (MkCursor d p) = (SErr st, c')) ∨
     ∃ a c', m (MkCursor d p) = (SOk a, c') ∧ R a (drop p d)).

Lemma drop_image {A} (x rest : list A) p d :
  p ≤ length d → drop p d = x ++ rest → drop (p + length x) d = rest ∧ p + length x ≤ length d.
Proof.
  intros Hp E. split.
  - by rewrite <- drop_drop, E, drop_app_length.
  - apply (f_equal length) in E. rewrite length_drop, length_app in E. lia.
Qed.

Lemma parses_bind {A B} (m : CurM A) (k : A → CurM B) ok enc (R : A → B → list Z → Prop) :
  consumes m ok enc → (∀ a, ok a → parses (k a) (R a)) →
  parses (m ≫= k) (λ b x, ∃ a y, ok a ∧ x = enc a ++ y ∧ R a b y).
Proof.
  intros Hm Hk d p Hp Hd. unfold mbind, CurM_bind. split.
  - intros b (a & y & Ha & E & Hb). rewrite (con_ok _ _ _ Hm _ _ _ _ Hp Ha E). destruct (drop_image _ _ _ _ Hp E) as [E' Hp'].
    destruct (Hk _ Ha d _ Hp' Hd) as [Hc _]. apply Hc. by rewrite E'.
  - destruct (con_cases _ _ _ Hm d p Hp Hd) as [(st & c' & ->)|(a & Ha & -> & Hp' & E)]; [left; eauto|].
    destruct (Hk a Ha d _ Hp' Hd) as [_ [(st & c' & ->)|(b & c' & -> & Hb)]]; [left; eauto|]. right. eauto 10.
Qed.

Lemma parses_ext {A} (m : CurM A) (R R' : A → list Z → Prop) : (∀ a x, R a x ↔ R' a x) → parses m R → parses m R'.
Proof.
  intros HR Hm d p Hp Hd. destruct (Hm d p Hp Hd) as [H1 H2]. split; [intros a Ha; apply H1; by apply HR|].
  destruct H2 as [?|(a & c' & ? & Ha)]; [by left|]. right. exists a, c'. split; [done|]. by apply HR.
Qed.

(** Nothing is left. *)
Lemma parses_end {B} (b : B) : parses (_ ← expect_empty; mret b) (λ b' x, b' = b ∧ x = []).
Proof.
  intros d p Hp _. unfold mbind, CurM_bind, expect_empty, cur_remaining. cbn. split.
  - intros ? [-> E%(f_equal length)]. rewrite length_drop in E. cbn in E. rewrite bool_decide_eq_true_2 by lia. by eexists.
  - case_bool_decide; [right|left; eauto]. exists b, (MkCursor d p). split_and!; [done|done|]. by apply drop_ge; lia.
Qed.

Lemma parses_fail {A} st : parses (A := A) (cur_fail st) (λ _ _, False).
Proof. intros d p _ _. split; [by intros ? ?|]. left. eauto. Qed.

(** ** The reads *)

Lemma read_primitive_consumes n : n ≠ 0 → consumes (read_primitive n) (λ bs, length bs = n ∧ Forall is_byte bs) id.
Proof.
  intros Hn. split.
  - intros d p bs rest Hp [<- Hb] E. destruct (drop_image _ _ _ _ Hp E) as [_ Hl].
    unfold read_primitive, cur_slice, cur_remaining. cbn in *.
    rewrite !bool_decide_eq_false_2 by lia. do 2 f_equal. unfold slice. by rewrite E, take_app_length.
  - intros d p Hp Hd. unfold read_primitive, cur_slice, cur_remaining. cbn.
    case_bool_decide; [left; eauto|]. case_bool_decide; [left; eauto|]. rewrite bool_decide_eq_false_2 by lia. right.
    assert (length (slice p n d) = n) as Hl by (apply length_slice; lia).
    exists (slice p n d). rewrite Hl. split_and!; [done|by apply Forall_slice|done|lia|].
    unfold slice. by rewrite <- drop_drop, take_drop.
Qed.

Lemma read_be_consumes n : n ≠ 0 → consumes (read_be n) (is_u (8 * Z.of_nat n)) (be_bytes n).
Proof.
  intros Hn. destruct (read_primitive_consumes n Hn) as [Ho Hc]. unfold read_be, mbind, CurM_bind. split.
  - intros d p v rest Hp Hv E. rewrite (Ho d p (be_bytes n v) rest); [|done|by rewrite length_be_bytes; auto using be_bytes_is_byte|done].
    cbn. rewrite be_value_be_bytes, pow256, Z.mod_small by apply Hv. done.
  - intros d p Hp Hd. destruct (Hc d p Hp Hd) as [(st & c' & ->)|(bs & [Hl Hb] & -> & Hp' & E)]; [left; eauto|right].
    exists (be_value bs). cbn in *. rewrite length_be_bytes. pose proof (be_value_bounds bs Hb) as Hv. rewrite Hl in *.
    split_and!; [by rewrite pow256 in Hv|done|done|].
    pose proof (be_bytes_be_value bs Hb) as Ev. rewrite Hl in Ev. by rewrite Ev.
Qed.

Lemma cur_path_bytes_consumes n : consumes (cur_path_bytes n) (λ bs, length bs = n ∧ Forall is_byte bs) id.
Proof.
  split.
  - intros d p bs rest Hp [<- Hb] E. destruct (drop_image _ _ _ _ Hp E) as [_ Hl].
    unfold cur_path_bytes, cur_slice, cur_remaining. cbn in *.
    rewrite !bool_decide_eq_false_2 by lia. do 2 f_equal. unfold slice. by rewrite E, take_app_length.
  - intros d p Hp Hd. unfold cur_path_bytes, cur_slice, cur_remaining. cbn.
    case_bool_decide; [left; eauto|]. rewrite bool_decide_eq_false_2 by lia. right.
    assert (length (slice p n d) = n) as Hl by (apply length_slice; lia).
    exists (slice p n d). rewrite Hl. split_and!; [done|by apply Forall_slice|done|lia|].
    unfold slice. by rewrite <- drop_drop, take_drop.
Qed.

Lemma read_path_consumes : consumes read_path path_ok path_image.
Proof.
  destruct (read_be_consumes 1 ltac:(done)) as [Ho Hc]. unfold read_path, mbind, CurM_bind, read_u8. split.
  - intros d p s rest Hp [Hs Hb] E. unfold path_image, PATH_NAME_MAX_LENGTH in *. rewrite <- app_assoc in E.
    assert (is_u (8 * Z.of_nat 1) (Z.of_nat (length s))) as Hu by (change (is_u 8 (Z.of_nat (length s))); split; lia).
    rewrite (Ho d p _ _ Hp Hu E). destruct (drop_image _ _ _ _ Hp E) as [E' Hp'].
    rewrite (con_ok _ _ _ (cur_path_bytes_consumes _) _ _ s rest Hp'); [|split; [lia|done]|done].
    unfold id. by rewrite length_app, Nat.add_assoc.
  - intros d p Hp Hd. destruct (Hc d p Hp Hd) as [(st & c' & ->)|(v & Hv & -> & Hp' & E)]; [left; eauto|].
    destruct (con_cases _ _ _ (cur_path_bytes_consumes (Z.to_nat v)) d _ Hp' Hd) as [(st & c' & ->)|(s & [Hl Hs] & -> & Hp2 & E2)];
      [left; eauto|right].
    unfold is_u, id in *. change (2 ^ (8 * Z.of_nat 1))%Z with 256%Z in Hv. rewrite length_be_bytes in *.
    exists s. unfold path_ok, path_image, PATH_NAME_MAX_LENGTH. rewrite length_app, length_be_bytes, Nat.add_assoc.
    split_and!; [lia|done|done|done|]. rewrite <- app_assoc, E, E2, Hl, Z2Nat.id by lia. done.
Qed.

(** The payload of a DATA packet is all that is left. *)
Lemma data_tail_parses h o sz :
  parses (remaining ← cur_get_remaining;
          if negb (bool_decide (remaining = Z.to_nat sz)) then cur_fail DeserSizeMismatch
          else payload ← cur_take_rest; mret (PData (MkData h o sz payload)))
    (λ b x, b = PData (MkData h o sz x) ∧ Z.to_nat sz = length x ∧ Forall is_byte x).
Proof.
  intros d p Hp Hd. unfold mbind, CurM_bind, cur_get_remaining, cur_remaining, cur_take_rest. cbn. split.
  - intros b (-> & Hl & _). rewrite bool_decide_eq_true_2 by (by rewrite <- length_drop). cbn.
    rewrite bool_decide_eq_false_2 by lia. by eexists.
  - case_bool_decide as Hl; cbn; [|left; eexists _, _; reflexivity]. rewrite bool_decide_eq_false_2 by lia. right.
    eexists _, _. split; [done|]. rewrite length_drop. split_and!; [done|done|by apply Forall_drop].
Qed.

(** ** Packets *)

Ltac parses_int n := apply (parses_bind _ _ (is_u (8 * Z.of_nat n)) (be_bytes n)); [by apply read_be_consumes|intros ? _].
Ltac parses_path := apply (parses_bind _ _ path_ok path_image); [apply read_path_consumes|intros ? _].

Ltac packet_cbn :=
  cbn [image packet_ok packet_header start_header data_header end_header cancel_header file_size source_path destination_path
       byte_offset data_size payload checksum_value] in *.

(** The variant of a packet is the one its header names. *)
Lemma packet_ok_type p : packet_ok p → packet_type (packet_header p) =
  match p with PStart _ => FptStart | PData _ => FptData | PEnd _ => FptEnd | PCancel _ => FptCancel end.
Proof. destruct p; cbn; unfold header_ok; tauto. Qed.

Lemma read_body_parses h :
  is_u 32 (sequence_index h) →
  parses (read_body h) (λ b x, packet_ok b ∧ packet_header b = h ∧ image b = header_image h ++ x).
Proof.
  intros Hs. unfold read_body. destruct (packet_type h) eqn:Ht.
  - eapply parses_ext; [|parses_int 4; parses_path; parses_path; apply parses_end]. intros b x. cbn beta. split.
    + intros (fs & y & Hfs & -> & src & z & Hsrc & -> & dst & w & Hdst & -> & -> & ->). packet_cbn. rewrite app_nil_r. done.
    + intros (Hok & <- & Hi). pose proof (packet_ok_type b Hok) as E. rewrite Ht in E. destruct b as [[hh fs src dst]|?|?|?]; try done.
      packet_cbn. apply app_inv_head in Hi as <-. destruct Hok as (_ & ? & ? & ?).
      exists fs, (path_image src ++ path_image dst). split_and!; [done|done|]. exists src, (path_image dst). split_and!; [done|done|].
      exists dst, []. by rewrite app_nil_r.
  - eapply parses_ext; [|parses_int 4; parses_int 2; apply data_tail_parses]. intros b x. cbn beta. split.
    + intros (o & y & Ho & -> & sz & z & Hsz & -> & -> & Hl & Hb). packet_cbn. unfold is_u in *. split_and!; try done; lia.
    + intros (Hok & <- & Hi). pose proof (packet_ok_type b Hok) as E. rewrite Ht in E. destruct b as [?|[hh o sz pl]|?|?]; try done.
      packet_cbn. apply app_inv_head in Hi as <-. destruct Hok as (_ & ? & ? & -> & ?).
      exists o, (be_bytes 2 (Z.of_nat (length pl)) ++ pl). split_and!; [done|done|]. eexists _, pl. split_and!; [|done|done|lia|done]. done.
  - eapply parses_ext; [|parses_int 4; apply parses_end]. intros b x. cbn beta. split.
    + intros (ck & y & Hck & -> & -> & ->). packet_cbn. rewrite app_nil_r. done.
    + intros (Hok & <- & Hi). pose proof (packet_ok_type b Hok) as E. rewrite Ht in E. destruct b as [?|?|[hh ck]|?]; try done.
      packet_cbn. apply app_inv_head in Hi as <-. destruct Hok as (_ & ?). exists ck, []. by rewrite app_nil_r.
  - eapply parses_ext; [|apply parses_end]. intros b x. cbn beta. split.
    + intros (-> & ->). packet_cbn. rewrite app_nil_r. done.
    + intros (Hok & <- & Hi). pose proof (packet_ok_type b Hok) as E. rewrite Ht in E. destruct b as [?|?|?|[hh]]; try done.
      packet_cbn. rewrite <- (app_nil_r (header_image hh)) in Hi at 1. by apply app_inv_head in Hi as <-.
  - eapply parses_ext; [|apply parses_fail]. intros b x. split; [done|]. intros (Hok & <- & _).
    pose proof (packet_ok_type b Hok) as E. rewrite Ht in E. by destruct b.
Qed.

Lemma packet_seq_ok p : packet_ok p → is_u 32 (sequence_index (packet_header p)).
Proof. destruct p; cbn; unfold header_ok; tauto. Qed.

Lemma image_header p : image p = header_image (packet_header p) ++ drop HEADER_SIZE (image p).
Proof.
  assert (length (header_image (packet_header p)) = HEADER_SIZE) as Hl by (unfold header_image; by rewrite length_app, !length_be_bytes).
  rewrite <- Hl. destruct p as [p|p|p|p]; cbn [image packet_header] in *; rewrite ?drop_app_length; [done..|].
  rewrite drop_ge by done. by rewrite app_nil_r.
Qed.

Lemma read_packet_parses : parses read_packet (λ b x, packet_ok b ∧ x = image b).
Proof.
  unfold read_packet. eapply parses_ext with
    (R := λ b x, ∃ a y, is_u 8 a ∧ x = be_bytes 1 a ++ y ∧ ∃ s z, is_u 32 s ∧ y = be_bytes 4 s ++ z ∧
            match try_from a with
            | Some t => packet_ok b ∧ packet_header b = MkHeader t s ∧ image b = header_image (MkHeader t s) ++ z
            | None => False
            end).
  - intros b x. split.
    + intros (a & y & Ha & -> & s & z & Hs & -> & Hb). destruct (try_from a) as [t|] eqn:Et; [|done].
      destruct Hb as (Hok & Hh & Hi). split; [done|]. rewrite Hi. unfold header_image. cbn [packet_type sequence_index].
      by rewrite (as_repr_try_from _ _ Et), <- app_assoc.
    + intros [Hok ->]. pose proof (packet_seq_ok b Hok) as Hs. set (h := packet_header b) in *.
      exists (as_repr (packet_type h)), (be_bytes 4 (sequence_index h) ++ drop HEADER_SIZE (image b)).
      split; [by destruct (packet_type h)|]. split; [by rewrite image_header at 1; unfold header_image; rewrite <- app_assoc|].
      eexists _, _. split; [done|]. split; [done|]. rewrite try_from_as_repr. split; [done|].
      split; [by destruct h|]. rewrite image_header at 1. by fold h; destruct h.
  - apply (parses_bind _ _ (is_u 8) (be_bytes 1)); [by apply (read_be_consumes 1)|intros a Ha].
    apply (parses_bind _ _ (is_u 32) (be_bytes 4)); [by apply (read_be_consumes 4)|intros s Hs].
    destruct (try_from a) as [t|]; [|apply parses_fail]. by apply read_body_parses.
Qed.

Lemma from_buffer_iff data p : Forall is_byte data → from_buffer data = SOk p ↔ packet_ok p ∧ data = image p.
Proof.
  intros Hd. unfold from_buffer, Cursor_new. destruct (read_packet_parses data 0 ltac:(lia) Hd) as [H1 H2]. rewrite drop_0 in *. split.
  - intros E. destruct H2 as [(st & c' & E')|(a & c' & E' & Ha)]; rewrite E' in E; cbn in E; [done|]. by injection E as <-.
  - intros Ha. by destruct (H1 p Ha) as [c' ->].
Qed.

Lemma from_buffer_cases data :
  Forall is_byte data → match from_buffer data with SOk p => packet_ok p | SErr _ => True | SPanic => False end.
Proof.
  intros Hd. destruct (from_buffer data) as [p|st|] eqn:E; [by apply from_buffer_iff in E as [? _]|done|].
  revert E. unfold from_buffer, Cursor_new. destruct (read_packet_parses data 0 ltac:(lia) Hd) as [_ H2].
  by destruct H2 as [(st & c' & ->)|(a & c' & -> & Ha)].
Qed.

(** C39. The decoder accepts exactly the images of packets.  Every byte string
    either is the image of one packet, which [from_buffer] returns, or is
    refused with a status; it never panics.  The encoder writes that image,
    of [buffer_size] bytes, wherever there is room, so the two are inverse. *)
Theorem file_packet_codec_exact data p :
  Forall is_byte data →
  (from_buffer data = SOk p ↔ packet_ok p ∧ data = image p) ∧
  from_buffer data ≠ SPanic ∧
  (packet_ok p → length (image p) = buffer_size p ∧ writes (FilePacket_serialize_to p) (image p)).
Proof.
  intros Hd. split_and!; [by apply from_buffer_iff| |eauto using length_image, FilePacket_writes].
  pose proof (from_buffer_cases data Hd) as Hc. by destruct (from_buffer data).
Qed.

Lemma file_packet_codec_exact_witness :
  from_buffer [1; 0; 0; 0; 7; 0; 0; 0; 4; 0; 2; 170; 187]%Z = SOk (PData (MkData (MkHeader FptData 7) 4 2 [170; 187]%Z)).
Proof.
  apply (file_packet_codec_exact [1; 0; 0; 0; 7; 0; 0; 0; 4; 0; 2; 170; 187]%Z (PData (MkData (MkHeader FptData 7) 4 2 [170; 187]%Z))).
  - repeat (constructor; [done|]). constructor.
  - split; [|vm_compute; reflexivity]. cbn. unfold header_ok, is_u. cbn. split_and!; try done; repeat (constructor; [done|]); constructor.
Defined.
