(* ===== verification/FileUplink.v ===== *)
(** File receive [Svc::FileUplink], [crates/fprime-svc/src/file_uplink.rs].

    A buffer carries one packet; a two-state machine writes DATA payloads into
    a sandboxed file and checks the checksum at END.  The handler holds its
    lock to completion, so it is one step; the file and the system behind it
    are part of the state. *)

From stdpp Require Import list.
From S2P Require Import Prelude Serial SerialFacts Codec Fpp Buffer Checksum Comp FwString OsFile FilePaths FilePacket.

(** * Data *)

Definition EVENT_STRING_SIZE : nat := 40.
Definition THROTTLE_5 : Z := 5.
Definition THROTTLE_20 : Z := 20.
Definition CHANID_FILES_RECEIVED : Z := 0.
Definition CHANID_PACKETS_RECEIVED : Z := 1.
Definition CHANID_WARNINGS : Z := 2.
Definition CHANID_FILES_RECEIVED_FAILED : Z := 3.

Inductive ReceiveMode : Set := RmStart | RmData.
#[export] Instance ReceiveMode_eq_dec : EqDecision ReceiveMode.
Proof. solve_decision. Defined.
Definition ReceiveMode_repr (m : ReceiveMode) : Z := match m with RmStart => 0 | RmData => 1 end.

(** Events with their arguments; a name is cut to [EVENT_STRING_SIZE]. *)
Inductive UplinkEvent : Set :=
| BadChecksum (name : list Z) (computed read : Z)
| FileOpenError (name : list Z)
| FileReceived (name : list Z)
| FileWriteError (name : list Z)
| InvalidReceiveMode (packet_type mode : Z)
| PacketOutOfBounds (index : Z) (name : list Z)
| PacketOutOfOrder (index last : Z)
| PacketDuplicate (index : Z)
| UplinkCanceled
| DecodeError (status : SerializeStatus)
| InvalidPacketReceived (packet_type : Z).

Inductive UpOut : Set :=
| UpLog (e : UplinkEvent)
| UpTlm (chan value : Z)
| UpReturn (b : Buffer)
| UpAnnounce (name : FwString)
| UpPing (key : Z).

Section uplink.
Context `{BuildProfile} {F : Type} `{OsFile F}.
(** The working directory, for relative destinations. *)
Context (cwd : option FwString).

Record UplinkFile : Type := MkUpFile {
  up_size : Z;
  up_name : FwString;
  os_file : @SandboxedFile F;
  up_checksum : Checksum;
}.

Record FileUplink : Type := MkUplink {
  receive_mode : ReceiveMode;
  last_sequence_index : Z;
  last_packet_write_status : option FileStatus;
  up_file : UplinkFile;
  files_received : Z;
  files_received_failed : Z;
  packets_received : Z;
  warnings : Z;
  file_write_error_throttle : EventThrottle;
  invalid_receive_mode_throttle : EventThrottle;
  packet_out_of_bounds_throttle : EventThrottle;
  packet_out_of_order_throttle : EventThrottle;
  packet_duplicate_throttle : EventThrottle;
  (** Whether [fileAnnounce] is connected. *)
  announce_connected : bool;
}.

Definition UplinkFile_new (f : F) : UplinkFile :=
  MkUpFile 0 (FwString_new FW_LOG_STRING_MAX_SIZE) (SandboxedFile_new f) Checksum_new.

Definition FileUplink_new (f : F) (announce : bool) : FileUplink :=
  MkUplink RmStart 0 None (UplinkFile_new f) 0 0 0 0
    (EventThrottle_new THROTTLE_5) (EventThrottle_new THROTTLE_5) (EventThrottle_new THROTTLE_5)
    (EventThrottle_new THROTTLE_20) (EventThrottle_new THROTTLE_20) announce.

(** ** Updates *)

Definition set_mode (m : ReceiveMode) (s : FileUplink) : FileUplink :=
  MkUplink m 0 None (up_file s) (files_received s) (files_received_failed s) (packets_received s) (warnings s)
    (file_write_error_throttle s) (invalid_receive_mode_throttle s) (packet_out_of_bounds_throttle s)
    (packet_out_of_order_throttle s) (packet_duplicate_throttle s) (announce_connected s).
Definition set_last (i : Z) (s : FileUplink) : FileUplink :=
  MkUplink (receive_mode s) i (last_packet_write_status s) (up_file s) (files_received s) (files_received_failed s)
    (packets_received s) (warnings s) (file_write_error_throttle s) (invalid_receive_mode_throttle s)
    (packet_out_of_bounds_throttle s) (packet_out_of_order_throttle s) (packet_duplicate_throttle s) (announce_connected s).
Definition set_status (st : FileStatus) (s : FileUplink) : FileUplink :=
  MkUplink (receive_mode s) (last_sequence_index s) (Some st) (up_file s) (files_received s) (files_received_failed s)
    (packets_received s) (warnings s) (file_write_error_throttle s) (invalid_receive_mode_throttle s)
    (packet_out_of_bounds_throttle s) (packet_out_of_order_throttle s) (packet_duplicate_throttle s) (announce_connected s).
Definition set_up_file (f : UplinkFile) (s : FileUplink) : FileUplink :=
  MkUplink (receive_mode s) (last_sequence_index s) (last_packet_write_status s) f (files_received s) (files_received_failed s)
    (packets_received s) (warnings s) (file_write_error_throttle s) (invalid_receive_mode_throttle s)
    (packet_out_of_bounds_throttle s) (packet_out_of_order_throttle s) (packet_duplicate_throttle s) (announce_connected s).
Definition set_counts (received failed packets warned : Z) (s : FileUplink) : FileUplink :=
  MkUplink (receive_mode s) (last_sequence_index s) (last_packet_write_status s) (up_file s) received failed packets warned
    (file_write_error_throttle s) (invalid_receive_mode_throttle s)
    (packet_out_of_bounds_throttle s) (packet_out_of_order_throttle s) (packet_duplicate_throttle s) (announce_connected s).
Definition set_throttles (w m b o d : EventThrottle) (s : FileUplink) : FileUplink :=
  MkUplink (receive_mode s) (last_sequence_index s) (last_packet_write_status s) (up_file s) (files_received s)
    (files_received_failed s) (packets_received s) (warnings s) w m b o d (announce_connected s).
Definition set_os_file (sf : SandboxedFile) (f : UplinkFile) : UplinkFile := MkUpFile (up_size f) (up_name f) sf (up_checksum f).

(** * The file being received *)

Definition upfile_open (start : StartPacket) (f : UplinkFile) : outcome (FileStatus * UplinkFile) :=
  let dest := destination_path start in
  if bool_decide (PATH_NAME_MAX_LENGTH < length dest) then Ret (FsBadSize, f)
  else
    let f := MkUpFile (file_size start) (set_bytes dest (up_name f)) (os_file f) Checksum_new in
    if valid_utf8 dest then
      '(st, sf) ← sf_open cwd dest OpenWrite (os_file f);
      Ret (st, set_os_file sf f)
    else Ret (FsBadSize, f).

Definition upfile_write (data : list Z) (byte_offset : Z) (f : UplinkFile) : outcome (FileStatus * UplinkFile) :=
  '(st, sf) ← sf_seek byte_offset Absolute (os_file f);
  let f := set_os_file sf f in
  if negb (bool_decide (st = FsOpOk)) then Ret (st, f)
  else
    let '(st, written, sf) := sf_write data NoWait (os_file f) in
    let f := set_os_file sf f in
    if negb (bool_decide (st = FsOpOk)) then Ret (st, f)
    else if negb (bool_decide (written = length data)) then Ret (FsNoSpace, f)
    else Ret (FsOpOk, MkUpFile (up_size f) (up_name f) (os_file f) (update data byte_offset (up_checksum f))).

(** * Counters, warnings, events *)

Local Notation UpM := (CompM FileUplink UpOut).

Definition event_name (s : FileUplink) : list Z :=
  let n := up_name (up_file s) in take (len n `min` EVENT_STRING_SIZE) (bytes n).

Definition tlm_write (chan value : Z) : UpM unit := emit (UpTlm chan value).

Definition packet_received : UpM unit :=
  s ← get_state;
  n ← lift (add_w 32 (packets_received s) 1);
  _ ← put_state (set_counts (files_received s) (files_received_failed s) n (warnings s) s);
  tlm_write CHANID_PACKETS_RECEIVED n.

Definition warning : UpM unit :=
  s ← get_state;
  n ← lift (add_w 32 (warnings s) 1);
  _ ← put_state (set_counts (files_received s) (files_received_failed s) (packets_received s) n s);
  tlm_write CHANID_WARNINGS n.

Definition log_invalid_packet_received (packet_type : Z) : UpM unit := emit (UpLog (InvalidPacketReceived packet_type)).

Definition log_if (ok : bool) (e : UplinkEvent) : UpM unit := if ok then emit (UpLog e) else mret tt.

Definition warning_invalid_receive_mode (t : FilePacketType) : UpM unit :=
  s ← get_state;
  let '(ok, th) := ok_to_emit (invalid_receive_mode_throttle s) in
  _ ← put_state (set_throttles (file_write_error_throttle s) th (packet_out_of_bounds_throttle s)
                   (packet_out_of_order_throttle s) (packet_duplicate_throttle s) s);
  _ ← log_if ok (InvalidReceiveMode (as_repr t) (ReceiveMode_repr (receive_mode s)));
  warning.

Definition warning_file_open : UpM unit :=
  s ← get_state;
  _ ← emit (UpLog (FileOpenError (event_name s)));
  warning.

Definition warning_file_write : UpM unit :=
  s ← get_state;
  let '(ok, th) := ok_to_emit (file_write_error_throttle s) in
  _ ← put_state (set_throttles th (invalid_receive_mode_throttle s) (packet_out_of_bounds_throttle s)
                   (packet_out_of_order_throttle s) (packet_duplicate_throttle s) s);
  _ ← log_if ok (FileWriteError (event_name s));
  warning.

Definition warning_packet_out_of_bounds (sequence_index : Z) : UpM unit :=
  s ← get_state;
  let '(ok, th) := ok_to_emit (packet_out_of_bounds_throttle s) in
  _ ← put_state (set_throttles (file_write_error_throttle s) (invalid_receive_mode_throttle s) th
                   (packet_out_of_order_throttle s) (packet_duplicate_throttle s) s);
  _ ← log_if ok (PacketOutOfBounds sequence_index (event_name s));
  warning.

Definition warning_packet_out_of_order (sequence_index : Z) : UpM unit :=
  s ← get_state;
  let '(ok, th) := ok_to_emit (packet_out_of_order_throttle s) in
  _ ← put_state (set_throttles (file_write_error_throttle s) (invalid_receive_mode_throttle s)
                   (packet_out_of_bounds_throttle s) th (packet_duplicate_throttle s) s);
  _ ← log_if ok (PacketOutOfOrder sequence_index (last_sequence_index s));
  warning.

Definition warning_packet_duplicate (sequence_index : Z) : UpM unit :=
  s ← get_state;
  let '(ok, th) := ok_to_emit (packet_duplicate_throttle s) in
  _ ← put_state (set_throttles (file_write_error_throttle s) (invalid_receive_mode_throttle s)
                   (packet_out_of_bounds_throttle s) (packet_out_of_order_throttle s) th s);
  _ ← log_if ok (PacketDuplicate sequence_index);
  warning.

Definition warning_bad_checksum (computed read : Z) : UpM unit :=
  s ← get_state;
  _ ← emit (UpLog (BadChecksum (event_name s) computed read));
  warning.

(** * Handlers *)

Definition close_file (s : FileUplink) : FileUplink :=
  set_up_file (set_os_file (sf_close (os_file (up_file s))) (up_file s)) s.
Definition go_to_start_mode : UpM unit := modify_state (λ s, set_mode RmStart (close_file s)).
Definition go_to_data_mode : UpM unit := modify_state (set_mode RmData).

Definition check_sequence_index (sequence_index : Z) : UpM unit :=
  s ← get_state;
  _ ← when (negb (sequence_index =? wrap 32 (last_sequence_index s + 1))%Z) (warning_packet_out_of_order sequence_index);
  modify_state (set_last sequence_index).

Definition check_duplicated_packet (sequence_index : Z) : UpM bool :=
  s ← get_state;
  if (sequence_index =? last_sequence_index s)%Z then _ ← warning_packet_duplicate sequence_index; mret true
  else mret false.

Definition compare_checksums (e : EndPacket) : UpM bool :=
  s ← get_state;
  let computed := get_value (up_checksum (up_file s)) in
  if negb (computed =? checksum_value e)%Z then _ ← warning_bad_checksum computed (checksum_value e); mret false
  else mret true.

Definition clear_throttles (s : FileUplink) : FileUplink :=
  set_throttles (throttle_clear (file_write_error_throttle s)) (throttle_clear (invalid_receive_mode_throttle s))
    (throttle_clear (packet_out_of_bounds_throttle s)) (throttle_clear (packet_out_of_order_throttle s))
    (packet_duplicate_throttle s) s.

Definition handle_start_packet (start : StartPacket) : UpM unit :=
  _ ← modify_state clear_throttles;
  _ ← packet_received;
  s ← get_state;
  _ ← when (negb (bool_decide (receive_mode s = RmStart)))
        (_ ← modify_state close_file; warning_invalid_receive_mode FptStart);
  s ← get_state;
  '(status, f) ← lift (upfile_open start (up_file s));
  _ ← put_state (set_up_file f s);
  if bool_decide (status = FsOpOk) then go_to_data_mode
  else _ ← warning_file_open; go_to_start_mode.

Definition handle_data_packet (packet : DataPacket) : UpM unit :=
  _ ← packet_received;
  s ← get_state;
  if negb (bool_decide (receive_mode s = RmData)) then warning_invalid_receive_mode FptData
  else
    let sequence_index := sequence_index (data_header packet) in
    duplicate ← (if bool_decide (last_packet_write_status s = Some FsOpOk) then check_duplicated_packet sequence_index
                 else mret false);
    if duplicate : bool then mret tt
    else
      _ ← check_sequence_index sequence_index;
      s ← get_state;
      let byte_offset := byte_offset packet in
      let data_size := data_size packet in
      if ((0xFFFFFFFF - byte_offset <? data_size) || (up_size (up_file s) <? byte_offset + data_size))%Z then
        warning_packet_out_of_bounds sequence_index
      else
        '(status, f) ← lift (upfile_write (payload packet) byte_offset (up_file s));
        _ ← put_state (set_up_file f s);
        _ ← when (negb (bool_decide (status = FsOpOk))) warning_file_write;
        modify_state (set_status status).

(** The verdict of [handle_end_packet] on a file in progress. *)
Definition report_file (e : EndPacket) : UpM unit :=
  good ← compare_checksums e;
  s ← get_state;
  if good : bool then
    n ← lift (add_w 32 (files_received s) 1);
    _ ← put_state (set_counts n (files_received_failed s) (packets_received s) (warnings s) s);
    _ ← tlm_write CHANID_FILES_RECEIVED n;
    _ ← emit (UpLog (FileReceived (event_name s)));
    when (announce_connected s) (emit (UpAnnounce (set_bytes (as_bytes (up_name (up_file s))) FileNameString_new)))
  else
    n ← lift (add_w 32 (files_received_failed s) 1);
    _ ← put_state (set_counts (files_received s) n (packets_received s) (warnings s) s);
    tlm_write CHANID_FILES_RECEIVED_FAILED n.

Definition handle_end_packet (e : EndPacket) : UpM unit :=
  _ ← packet_received;
  s ← get_state;
  _ ← (if bool_decide (receive_mode s = RmData) then
         _ ← check_sequence_index (sequence_index (end_header e));
         report_file e
       else warning_invalid_receive_mode FptEnd);
  go_to_start_mode.

Definition handle_cancel_packet : UpM unit :=
  _ ← packet_received;
  _ ← emit (UpLog UplinkCanceled);
  go_to_start_mode.

Definition return_buffer (b : Buffer) : UpM unit := emit (UpReturn b).

Definition handle_packet (p : FilePacket) : UpM unit :=
  match p with
  | PStart p => handle_start_packet p
  | PData p => handle_data_packet p
  | PEnd p => handle_end_packet p
  | PCancel _ => handle_cancel_packet
  end.

Definition DESCRIPTOR_SIZE : nat := 2.

Definition buffer_send_in_handler (buffer : Buffer) : UpM unit :=
  if bool_decide (size buffer < DESCRIPTOR_SIZE) then
    _ ← log_invalid_packet_received (as_repr FwPacketUnknown);
    return_buffer buffer
  else
    data ← lift (buffer_data buffer);
    b0 ← lift (index_get data 0);
    b1 ← lift (index_get data 1);
    let packet_type := be_value [b0; b1] in
    if negb (packet_type =? as_repr FwPacketFile)%Z then
      _ ← log_invalid_packet_received packet_type;
      return_buffer buffer
    else
      rest ← lift (copy_from DESCRIPTOR_SIZE (length data - DESCRIPTOR_SIZE) data);
      _ ← (match from_buffer rest with
           | SErr status => emit (UpLog (DecodeError status))
           | SOk packet => handle_packet packet
           | SPanic => lift Panic
           end);
      return_buffer buffer.

Definition up_ping_handler (key : Z) : UpM unit := emit (UpPing key).

(** [configure]. *)
Definition up_configure (directory : list Z) (s : FileUplink) : outcome FileUplink :=
  sf ← sf_configure cwd directory (os_file (up_file s));
  Ret (set_up_file (set_os_file sf (up_file s)) s).

(** Buffers one after the other. *)
Fixpoint receive_all (bs : list Buffer) : UpM unit :=
  match bs with
  | [] => mret tt
  | b :: bs' => _ ← buffer_send_in_handler b; receive_all bs'
  end.
End uplink.

(** * Safety *)

Definition returned (o : list UpOut) : list Buffer := omap (λ x, match x with UpReturn b => Some b | _ => None end) o.
Definition logs (o : list UpOut) : list UplinkEvent := omap (λ x, match x with UpLog e => Some e | _ => None end) o.
Definition announced (o : list UpOut) : list FwString := omap (λ x, match x with UpAnnounce n => Some n | _ => None end) o.
Lemma returned_app o o' : returned (o ++ o') = returned o ++ returned o'.
Proof. apply omap_app. Qed.
Lemma logs_app o o' : logs (o ++ o') = logs o ++ logs o'.
Proof. apply omap_app. Qed.
Lemma announced_app o o' : announced (o ++ o') = announced o ++ announced o'.
Proof. apply omap_app. Qed.

Section safety.
Context `{BuildProfile} {F : Type} `{OsFileLaws F}.
Context (cwd : option FwString).
Local Notation FileUplink := (FileUplink (F := F)).
Local Notation UpM := (CompM FileUplink UpOut).

(** Every counter is at most [k]. *)
Definition low (k : Z) (s : FileUplink) : Prop :=
  (0 ≤ files_received s ≤ k ∧ 0 ≤ files_received_failed s ≤ k ∧ 0 ≤ packets_received s ≤ k ∧ 0 ≤ warnings s ≤ k)%Z.

(** [m] runs to its end from a state whose counters have room for [n] more,
    and returns no buffer. *)
Definition runs {A} (n : Z) (m : UpM A) : Prop :=
  ∀ k s, low k s → (k + n < 2 ^ 32)%Z → ∃ a s' o, m s = Ret (a, s', o) ∧ low (k + n) s' ∧ returned o = [].

Lemma low_mono k k' s : low k s → (k ≤ k')%Z → low k' s.
Proof. unfold low. lia. Qed.

Lemma runs_weaken {A} n n' (m : UpM A) : (n ≤ n')%Z → runs n m → runs n' m.
Proof.
  intros Hn Hm k s Hs Hk. destruct (Hm k s Hs ltac:(lia)) as (a & s' & o & E & Hs' & Ho). exists a, s', o.
  split_and!; [done| |done]. apply (low_mono _ _ _ Hs'). lia.
Qed.
Lemma runs_ret {A} (a : A) : runs 0 (mret a : UpM A).
Proof. intros k s Hs _. exists a, s, []. by rewrite Z.add_0_r. Qed.
Lemma runs_bind {A B} n n' (m : UpM A) (f : A → UpM B) : (0 ≤ n')%Z → runs n m → (∀ a, runs n' (f a)) → runs (n + n') (m ≫= f).
Proof.
  intros Hn Hm Hf k s Hs Hk. destruct (Hm k s Hs ltac:(lia)) as (a & s1 & o1 & E & Hs1 & Ho1).
  destruct (Hf a (k + n)%Z s1 Hs1 ltac:(lia)) as (b & s2 & o2 & E2 & Hs2 & Ho2). exists b, s2, (o1 ++ o2).
  rewrite (comp_bind_ret _ _ _ _ _ _ E), E2, returned_app, Ho1, Ho2. split_and!; [done| |done]. by rewrite Z.add_assoc.
Qed.
(** What follows a look at the state runs from that state. *)
Definition runs_from {A} (n : Z) (s : FileUplink) (m : UpM A) : Prop :=
  ∀ k, low k s → (k + n < 2 ^ 32)%Z → ∃ a s' o, m s = Ret (a, s', o) ∧ low (k + n) s' ∧ returned o = [].
Lemma runs_get {B} n (f : FileUplink → UpM B) : (∀ s, runs_from n s (f s)) → runs n (s ← get_state; f s).
Proof.
  intros Hf k s Hs Hk. destruct (Hf s k Hs Hk) as (a & s' & o & E & Hr). exists a, s', o. split; [|done].
  rewrite <- E. by apply (comp_bind_quiet get_state f).
Qed.
Lemma runs_from_runs {A} n s (m : UpM A) : runs n m → runs_from n s m.
Proof. intros Hm k. apply Hm. Qed.
Lemma runs_from_put {B} n s s' (m : UpM B) : (∀ k, low k s → low k s') → runs_from n s' m → runs_from n s (_ ← put_state s'; m).
Proof.
  intros Hl Hm k Hs Hk. destruct (Hm k (Hl k Hs) Hk) as (a & s2 & o & E & Hr). exists a, s2, o. split; [|done].
  rewrite <- E. by apply (comp_bind_quiet (put_state s') (λ _, m) s tt s').
Qed.

Lemma runs_emit o : returned [o] = [] → runs 0 (emit o : UpM unit).
Proof. intros Ho k s Hs _. exists tt, s, [o]. by rewrite Z.add_0_r. Qed.
Lemma runs_modify (f : FileUplink → FileUplink) : (∀ k s, low k s → low k (f s)) → runs 0 (modify_state f : UpM unit).
Proof. intros Hf k s Hs _. exists tt, (f s), []. rewrite Z.add_0_r. auto. Qed.
Lemma runs_when n b (m : UpM unit) : (0 ≤ n)%Z → runs n m → runs n (when b m).
Proof. intros Hn Hm. destruct b; [done|]. apply (runs_weaken 0); [done|apply runs_ret]. Qed.

Lemma runs_packet_received : runs 1 (packet_received : UpM unit).
Proof.
  intros k s Hs Hk. unfold packet_received. cbn -[Z.add]. unfold mbind, CompM_bind, lift, add_w. cbn -[Z.add].
  rewrite overflowing_in by (unfold low, is_u in *; lia). cbn -[Z.add]. eexists _, _, _. split; [done|]. split; [|done].
  unfold low in *. cbn -[Z.add]. lia.
Qed.
Lemma runs_warning : runs 1 (warning : UpM unit).
Proof.
  intros k s Hs Hk. unfold warning. cbn -[Z.add]. unfold mbind, CompM_bind, lift, add_w. cbn -[Z.add].
  rewrite overflowing_in by (unfold low, is_u in *; lia). cbn -[Z.add]. eexists _, _, _. split; [done|]. split; [|done].
  unfold low in *. cbn -[Z.add]. lia.
Qed.
Lemma runs_log_if ok e : runs 0 (log_if ok e : UpM unit).
Proof. destruct ok; [by apply runs_emit|apply runs_ret]. Qed.

Lemma runs_throttled (g : FileUplink → EventThrottle) (upd : EventThrottle → FileUplink → FileUplink) (e : FileUplink → UplinkEvent) :
  (∀ th k s, low k s → low k (upd th s)) →
  runs 1 (s ← get_state; let '(ok, th) := ok_to_emit (g s) in _ ← put_state (upd th s); _ ← log_if ok (e s); warning).
Proof.
  intros Hu. apply runs_get. intros s. destruct (ok_to_emit (g s)) as [ok th]. apply runs_from_put; [intros k; apply Hu|].
  apply runs_from_runs. apply (runs_bind 0 1); [done|apply runs_log_if|intros _; apply runs_warning].
Qed.

Lemma runs_warning_mode t : runs 1 (warning_invalid_receive_mode t : UpM unit).
Proof. apply (runs_throttled invalid_receive_mode_throttle (λ th s, set_throttles _ th _ _ _ s) (λ s, InvalidReceiveMode _ _)). done. Qed.
Lemma runs_warning_write : runs 1 (warning_file_write : UpM unit).
Proof. apply (runs_throttled file_write_error_throttle (λ th s, set_throttles th _ _ _ _ s) (λ s, FileWriteError _)). done. Qed.
Lemma runs_warning_bounds i : runs 1 (warning_packet_out_of_bounds i : UpM unit).
Proof. apply (runs_throttled packet_out_of_bounds_throttle (λ th s, set_throttles _ _ th _ _ s) (λ s, PacketOutOfBounds _ _)). done. Qed.
Lemma runs_warning_order i : runs 1 (warning_packet_out_of_order i : UpM unit).
Proof. apply (runs_throttled packet_out_of_order_throttle (λ th s, set_throttles _ _ _ th _ s) (λ s, PacketOutOfOrder _ _)). done. Qed.
Lemma runs_warning_duplicate i : runs 1 (warning_packet_duplicate i : UpM unit).
Proof. apply (runs_throttled packet_duplicate_throttle (λ th s, set_throttles _ _ _ _ th s) (λ s, PacketDuplicate _)). done. Qed.

Lemma runs_check_sequence i : runs 1 (check_sequence_index i : UpM unit).
Proof.
  apply runs_get. intros s. apply runs_from_runs. apply (runs_bind 1 0); [done|by apply runs_when, runs_warning_order|].
  intros _. by apply runs_modify.
Qed.
Lemma runs_check_duplicated i : runs 1 (check_duplicated_packet i : UpM bool).
Proof.
  apply runs_get. intros s. apply runs_from_runs. destruct (_ =? _)%Z; [|apply (runs_weaken 0); [done|apply runs_ret]].
  apply (runs_bind 1 0); [done|apply runs_warning_duplicate|intros _; apply runs_ret].
Qed.
Lemma runs_compare e : runs 1 (compare_checksums e : UpM bool).
Proof.
  apply runs_get. intros s. apply runs_from_runs. destruct (negb _); [|apply (runs_weaken 0); [done|apply runs_ret]].
  apply (runs_bind 1 0); [done| |intros _; apply runs_ret]. apply runs_get. intros s'. apply runs_from_runs.
  apply (runs_bind 0 1); [done|by apply runs_emit|intros _; apply runs_warning].
Qed.

Lemma upfile_open_ret st f : ∃ r f', upfile_open cwd st f = Ret (r, f').
Proof.
  unfold upfile_open. case_match; [eauto|]. case_match; [|eauto].
  destruct (sf_open_ret cwd (destination_path st) OpenWrite (os_file f)) as (r & sf & E); [done|]. cbn [os_file]. rewrite E. eauto.
Qed.
Lemma upfile_write_ret bs off (f : UplinkFile (F := F)) : (0 ≤ off)%Z → ∃ r f', upfile_write bs off f = Ret (r, f').
Proof.
  intros Ho. unfold upfile_write, sf_seek. destruct (os_seek_ret off Absolute (sf_file (os_file f)) Ho) as (st & f1 & ->).
  rewrite !outcome_bind_ret. destruct (negb _); [eauto|]. destruct (sf_write _ _ _) as [[r n] sf]. repeat destruct (negb _); eauto.
Qed.

Lemma runs_from_lift {A B} n s (m : outcome A) a (f : A → UpM B) : m = Ret a → runs_from n s (f a) → runs_from n s (a ← lift m; f a).
Proof.
  intros Hm Hf k Hs Hk. destruct (Hf k Hs Hk) as (b & s' & o & E & Hr). exists b, s', o. split; [|done].
  rewrite <- E. by apply comp_lift_ok.
Qed.

Lemma runs_start p : runs 4 (handle_start_packet cwd p).
Proof.
  apply (runs_bind 0 4); [done|by apply runs_modify|intros _]. apply (runs_bind 1 3); [done|apply runs_packet_received|intros _].
  apply runs_get. intros s. apply runs_from_runs. apply (runs_bind 1 2); [done| |intros _].
  { apply runs_when; [done|]. apply (runs_bind 0 1); [done|by apply runs_modify|intros _; apply runs_warning_mode]. }
  apply runs_get. intros s1. destruct (upfile_open_ret p (up_file s1)) as (r & f & E).
  apply (runs_from_lift _ _ _ (r, f)); [done|]. apply runs_from_put; [done|]. apply runs_from_runs. case_bool_decide.
  - apply (runs_weaken 0); [done|]. by apply runs_modify.
  - apply (runs_bind 1 1); [done| |intros _; apply (runs_weaken 0); [done|by apply runs_modify]].
    apply runs_get. intros s2. apply runs_from_runs. apply (runs_bind 0 1); [done|by apply runs_emit|intros _; apply runs_warning].
Qed.

Lemma runs_data p : is_u 32 (byte_offset p) → runs 4 (handle_data_packet (F := F) p).
Proof.
  intros Ho. apply (runs_bind 1 3); [done|apply runs_packet_received|intros _]. apply runs_get. intros s. apply runs_from_runs.
  case_bool_decide; cbn [negb]; [|apply (runs_weaken 1); [done|apply runs_warning_mode]].
  apply (runs_bind 1 2); [done| |].
  { case_bool_decide; [apply runs_check_duplicated|apply (runs_weaken 0); [done|apply runs_ret]]. }
  intros [|]; [apply (runs_weaken 0); [done|apply runs_ret]|].
  apply (runs_bind 1 1); [done|apply runs_check_sequence|intros _]. apply runs_get. intros s1. cbv zeta.
  case_match; [apply runs_from_runs, runs_warning_bounds|].
  destruct (upfile_write_ret (payload p) (byte_offset p) (up_file s1)) as (r & f & E); [apply Ho|].
  apply (runs_from_lift _ _ _ (r, f)); [done|]. apply runs_from_put; [done|]. apply runs_from_runs.
  apply (runs_bind 1 0); [done|apply runs_when; [done|apply runs_warning_write]|intros _; by apply runs_modify].
Qed.

(** A counter of the state is incremented. *)
Lemma runs_from_bump {B} n s v (s' : Z → FileUplink) (m : Z → UpM B) :
  (∀ k, low k s → (0 ≤ v ≤ k)%Z ∧ low (k + 1) (s' (v + 1)%Z)) → (0 ≤ n)%Z → runs n (m (v + 1)%Z) →
  runs_from (1 + n) s (x ← lift (add_w 32 v 1); _ ← put_state (s' x); m x).
Proof.
  intros Hv Hn Hm k Hs Hk. destruct (Hv k Hs) as [Hvk Hs']. destruct (Hm (k + 1)%Z _ Hs' ltac:(lia)) as (b & s2 & o & E & Hl & Ho).
  exists b, s2, o. rewrite Z.add_assoc. split; [|done]. rewrite <- E. etransitivity.
  - apply (comp_lift_ok _ (λ x, _ ← put_state (s' x); m x)). apply overflowing_in. split; lia.
  - by apply (comp_bind_quiet (put_state (s' (v + 1)%Z)) (λ _, m (v + 1)%Z) s tt).
Qed.

Lemma runs_end e : runs 4 (handle_end_packet (F := F) e).
Proof.
  apply (runs_bind 1 3); [done|apply runs_packet_received|intros _]. apply runs_get. intros s. apply runs_from_runs.
  apply (runs_bind 3 0); [done| |intros _; by apply runs_modify].
  case_bool_decide; [|apply (runs_weaken 1); [done|apply runs_warning_mode]].
  apply (runs_bind 1 2); [done|apply runs_check_sequence|intros _]. apply (runs_bind 1 1); [done|apply runs_compare|intros good].
  apply runs_get. intros s1. destruct good.
  - apply (runs_from_bump 0); [unfold low; cbn; lia|done|]. apply (runs_bind 0 0); [done|by apply runs_emit|intros _].
    apply (runs_bind 0 0); [done|by apply runs_emit|intros _]. apply runs_when; [done|by apply runs_emit].
  - apply (runs_from_bump 0); [unfold low; cbn; lia|done|]. by apply runs_emit.
Qed.

Lemma runs_packet p : packet_ok p → runs 4 (handle_packet (F := F) cwd p).
Proof.
  destruct p as [p|p|p|p]; intros Hp; cbn [handle_packet].
  - apply runs_start.
  - apply runs_data. apply Hp.
  - apply runs_end.
  - apply (runs_weaken 1); [done|]. apply (runs_bind 1 0); [done|apply runs_packet_received|intros _].
    apply (runs_bind 0 0); [done|by apply runs_emit|intros _; by apply runs_modify].
Qed.

(** One buffer in, the same buffer out. *)
Lemma handler_returns b k s :
  buffer_ok b → low k s → (k + 4 < 2 ^ 32)%Z →
  ∃ s' o, buffer_send_in_handler cwd b s = Ret (tt, s', o ++ [UpReturn b]) ∧ low (k + 4) s' ∧ returned o = [].
Proof.
  intros Hb Hs Hk. unfold buffer_send_in_handler, DESCRIPTOR_SIZE. assert (low (k + 4) s) as Hs4 by (apply (low_mono k); [done|lia]).
  case_bool_decide as Hsz; [by eexists s, [_]|]. pose proof (length_window b Hb) as Hl.
  rewrite (comp_lift_ok _ _ _ _ (buffer_data_ok b Hb)). assert (Forall is_byte (window b)) as Hby by (apply Forall_slice, Hb).
  destruct (window b) as [|b0 [|b1 rest]]; cbn [length] in Hl; [lia..|].
  rewrite (comp_lift_ok _ _ _ b0 eq_refl), (comp_lift_ok _ _ _ b1 eq_refl). case_match; [by eexists s, [_]|].
  erewrite comp_lift_ok; [|apply (copy_from_ok 2); cbn [length]; lia]. cbn [length Nat.sub]. rewrite Nat.sub_0_r.
  assert (slice 2 (length rest) (b0 :: b1 :: rest) = rest) as -> by (apply (slice_0_full (length rest) rest); lia).
  apply Forall_cons in Hby as [_ Hby]. apply Forall_cons in Hby as [_ Hby].
  pose proof (from_buffer_cases rest Hby) as Hc. destruct (from_buffer rest) as [p|st|]; [|by eexists s, [_]|done].
  destruct (runs_packet p Hc k s Hs Hk) as ([] & s' & o & E & Hs' & Ho). exists s', o. split; [|done].
  rewrite (comp_bind_ret _ _ _ _ _ _ E). done.
Qed.

Lemma receive_all_returns bs k s :
  Forall buffer_ok bs → low k s → (k + 4 * Z.of_nat (length bs) < 2 ^ 32)%Z →
  ∃ s' o, receive_all cwd bs s = Ret (tt, s', o) ∧ returned o = bs.
Proof.
  intros Hbs. revert k s. induction Hbs as [|b bs Hb _ IH]; intros k s Hl Hk; [by eexists s, []|]. cbn [length] in Hk. cbn [receive_all].
  destruct (handler_returns b k s Hb Hl ltac:(lia)) as (s1 & o1 & E1 & Hl1 & Ho1).
  destruct (IH (k + 4)%Z s1 Hl1 ltac:(lia)) as (s2 & o2 & E2 & Ho2). rewrite (comp_bind_ret _ _ _ _ _ _ E1), E2.
  eexists _, _. split; [done|]. rewrite !returned_app, Ho1, Ho2. done.
Qed.
End safety.

(** C25. Whatever arrives and whatever the file system does, the receiver does
    not panic and gives every buffer back, once, in the order received: after
    any sequence of buffers (well-formed packets in any order, garbage, short
    buffers) from a fresh component, with any destination, working directory
    and file errors.  The only bound is on the length of the sequence, so that
    no 32-bit counter overflows. *)
Theorem uplink_returns_every_buffer `{BuildProfile} `{OsFileLaws F} cwd (f : F) announce bs :
  Forall buffer_ok bs → (4 * Z.of_nat (length bs) < 2 ^ 32)%Z →
  ∃ s' o, receive_all cwd bs (FileUplink_new f announce) = Ret (tt, s', o) ∧ returned o = bs.
Proof.
  intros Hbs Hlen. apply (receive_all_returns cwd bs 0); [done|unfold low; cbn; lia|lia].
Qed.

(** A wrong descriptor, then a truncated packet, then a DATA packet out of
    turn, on a system whose next call fails. *)
Lemma uplink_returns_every_buffer_witness :
  let P := true : BuildProfile in
  let bs := [from_storage [0; 1; 9]%Z 7; from_storage [0; 3; 1; 0]%Z 8; from_storage [0; 3; 1; 0; 0; 0; 1; 0; 0; 0; 0; 0; 1; 5]%Z 9] in
  ∃ s' o, receive_all None bs (FileUplink_new (F := FileW) (File_new, one_file [] [] [IoFault StorageFull]) true) = Ret (tt, s', o) ∧ returned o = bs.
Proof.
  intros P bs. apply (uplink_returns_every_buffer (F := FileW) None).
  - repeat (apply Forall_cons; split; [split; [cbn; lia|repeat (constructor; [done|]); constructor]|]). constructor.
  - done.
Defined.
