(* ===== verification/FileUplinkRuns.v ===== *)
(** File transfers to [Svc::FileUplink] on a system without faults: what is
    on the file system afterwards and what is announced, for any sequence of
    DATA packets. *)

From stdpp Require Import list gmap strings.
From S2P Require Import Prelude Serial SerialFacts Codec Fpp Buffer Checksum Comp FwString OsFile FilePaths FilePacket FileUplink.

(** * Specification *)

(** A chunk goes to its offset; an empty one changes nothing. *)
Definition write_chunk (c : list Z) (ch : Z * list Z) : list Z :=
  if decide (ch.2 = []) then c else write_at (Z.to_nat ch.1) ch.2 c.

(** The chunks taken of a sequence of DATA packets: a packet that repeats the
    index of its predecessor is skipped once something was written, and one
    that reaches past the declared size always. *)
Fixpoint accepted (size last : Z) (wrote : bool) (ps : list DataPacket) : list (Z * list Z) :=
  match ps with
  | [] => []
  | p :: ps' =>
      let i := sequence_index (data_header p) in
      if wrote && (i =? last)%Z then accepted size last wrote ps'
      else if (size <? byte_offset p + data_size p)%Z then accepted size i wrote ps'
      else (byte_offset p, payload p) :: accepted size i true ps'
  end.

(** * Frames *)

Section runs.
Context `{BuildProfile} (cwd : option FwString).
Local Notation FileUplink := (FileUplink (F := FileW)).
Local Notation UpM := (CompM FileUplink UpOut).

(** What the warnings do not touch. *)
Definition core (s : FileUplink) : ReceiveMode * Z * option FileStatus * UplinkFile * bool :=
  (receive_mode s, last_sequence_index s, last_packet_write_status s, up_file s, announce_connected s).

Definition is_warning (e : UplinkEvent) : Prop := match e with FileReceived _ => False | _ => True end.

Definition warns (m : UpM unit) : Prop :=
  ∀ k s, low k s → (k + 1 < 2 ^ 32)%Z → ∃ s' o, m s = Ret (tt, s', o) ∧ core s' = core s ∧ low (k + 1) s' ∧
    announced o = [] ∧ Forall is_warning (logs o).

Lemma packet_received_ok k s :
  low k s → (k + 1 < 2 ^ 32)%Z → ∃ s' v, packet_received s = Ret (tt, s', [UpTlm CHANID_PACKETS_RECEIVED v]) ∧ core s' = core s ∧ low (k + 1) s'.
Proof.
  intros Hs Hk. unfold packet_received. cbn -[Z.add]. unfold mbind, CompM_bind, lift, add_w. cbn -[Z.add].
  rewrite overflowing_in by (unfold low, is_u in *; lia). cbn -[Z.add]. eexists _, _. split; [done|]. split; [done|].
  unfold low in *. cbn -[Z.add]. lia.
Qed.

Lemma warning_ok : warns warning.
Proof.
  intros k s Hs Hk. unfold warning. cbn -[Z.add]. unfold mbind, CompM_bind, lift, add_w. cbn -[Z.add].
  rewrite overflowing_in by (unfold low, is_u in *; lia). cbn -[Z.add]. eexists _, _. split; [done|]. split; [done|]. split; [|done].
  unfold low in *. cbn -[Z.add]. lia.
Qed.

Lemma throttled_ok (g : FileUplink → EventThrottle) (upd : EventThrottle → FileUplink → FileUplink) (e : FileUplink → UplinkEvent) :
  (∀ th k s, low k s → low k (upd th s)) → (∀ th s, core (upd th s) = core s) → (∀ s, is_warning (e s)) →
  warns (s ← get_state; let '(ok, th) := ok_to_emit (g s) in _ ← put_state (upd th s); _ ← log_if ok (e s); warning).
Proof.
  intros Hl Hc He k s Hs Hk. destruct (ok_to_emit (g s)) as [ok th] eqn:E.
  destruct (warning_ok k (upd th s) (Hl th k s Hs) Hk) as (s' & o & Ew & Hc' & Hl' & Ho & Hlog).
  exists s', ((if ok then [UpLog (e s)] else []) ++ o). split_and!; [|congruence|done|by destruct ok|].
  - unfold mbind, CompM_bind at 1. cbn. rewrite E. unfold CompM_bind, put_state, log_if. destruct ok; cbn; by rewrite Ew.
  - rewrite logs_app. apply Forall_app. split; [|done]. destruct ok; cbn; [|done]. by apply Forall_singleton.
Qed.

Lemma warning_bounds_ok i : warns (warning_packet_out_of_bounds i).
Proof. by apply (throttled_ok packet_out_of_bounds_throttle (λ th s, set_throttles _ _ th _ _ s) (λ s, PacketOutOfBounds _ _)). Qed.
Lemma warning_order_ok i : warns (warning_packet_out_of_order i).
Proof. by apply (throttled_ok packet_out_of_order_throttle (λ th s, set_throttles _ _ _ th _ s) (λ s, PacketOutOfOrder _ _)). Qed.
Lemma warning_duplicate_ok i : warns (warning_packet_duplicate i).
Proof. by apply (throttled_ok packet_duplicate_throttle (λ th s, set_throttles _ _ _ _ th s) (λ s, PacketDuplicate _)). Qed.

(** * A transfer in progress *)

(** [f] receives into node [i], which holds [c]. *)
Definition receiving (w0 : World) (i : nat) (c : list Z) (f : UplinkFile (F := FileW)) : Prop :=
  ∃ pos r b w, sf_file (os_file f) = (MkFile (Some (MkFd i pos false false)) OpenWrite r b, w) ∧ filling w0 i c w.

Lemma upfile_write_ok w0 i c f bs off :
  receiving w0 i c f → is_u 32 off →
  ∃ f', upfile_write bs off f = Ret (FsOpOk, f') ∧ receiving w0 i (write_chunk c (off, bs)) f' ∧
    up_size f' = up_size f ∧ up_name f' = up_name f ∧ up_checksum f' = update bs off (up_checksum f) ∧
    (∀ ds, sandboxed ds (os_file f) → sandboxed ds (os_file f')).
Proof.
  intros (pos & r & b & w & Ef & Hw) Ho. unfold upfile_write, sf_seek. cbn [os_seek FileW_file]. rewrite Ef.
  unfold file_seek. rewrite (proj2 (Z.leb_le _ _)) by apply Ho. rewrite orb_true_r. cbn [fw_assert]. rewrite !outcome_bind_ret.
  rewrite (bool_decide_eq_true_2 (Absolute = Absolute)) by done. unfold seek_from. cbn [fd fst snd]. unfold std_seek.
  rewrite next_event_quiet by apply Hw. unfold is_u, I64_MAX in *.
  rewrite (proj2 (Z.leb_le 0 off)), (proj2 (Z.leb_le off _)) by lia. cbn [andb]. rewrite outcome_bind_ret.
  rewrite (bool_decide_eq_true_2 (FsOpOk = FsOpOk)) by done. cbn [negb]. unfold sf_write. cbn [os_write FileW_file].
  unfold set_file, set_os_file, set_fd, set_pos. cbn [os_file sf_file fst snd fd_node fd_pos fd_read fd_append mode crc crc_buffer].
  set (fw := (_, w) : FileW). assert (writing fw (MkFd i (Z.to_nat off) false false)) as Hwr by done.
  assert (quiet fw) as Hq by apply Hw.
  destruct (decide (bs = [])) as [->|Hb].
  - cbn. eexists. split; [done|]. unfold write_chunk. rewrite decide_True by done. split; [|done].
    eexists _, _, _, _. split; [done|]. exact Hw.
  - rewrite (file_write_quiet _ _ _ _ Hwr Hq Hb). unfold set_fd, set_pos. cbn -[write_at update].
    rewrite (bool_decide_eq_true_2 (FsOpOk = FsOpOk)), (bool_decide_eq_true_2 (length bs = length bs)) by done. cbn [negb].
    eexists. split; [done|]. split; [|done]. eexists _, _, _, _. split; [done|]. unfold write_chunk. rewrite decide_False by done.
    destruct Hw as [? ? ? Hc Ho']. split; cbn [script names next_node set_node]; try done.
    + unfold node at 1. cbn [nodes set_node]. by rewrite lookup_insert_eq, <- Hc.
    + intros j Hj. unfold node at 1. cbn [nodes set_node]. rewrite lookup_insert_ne by done. by apply Ho'.
Qed.

(** The receiver between START and END: [cs] was written over [c0]. *)
Record transfer (w0 : World) (i : nat) (c0 : list Z) (sz : Z) (name : FwString) (ann : bool) (ds : list (list Z))
    (last : Z) (cs : list (Z * list Z)) (s : FileUplink) : Prop := {
  tr_mode : receive_mode s = RmData;
  tr_last : last_sequence_index s = last;
  tr_status : last_packet_write_status s = if decide (cs = []) then None else Some FsOpOk;
  tr_size : up_size (up_file s) = sz;
  tr_name : up_name (up_file s) = name;
  tr_ann : announce_connected s = ann;
  tr_file : receiving w0 i (foldl write_chunk c0 cs) (up_file s);
  tr_box : sandboxed ds (os_file (up_file s));
  tr_sum : up_checksum (up_file s) = foldl update_chunk Checksum_new cs;
}.

Lemma transfer_core w0 i c0 sz name ann ds last cs s s' :
  core s' = core s → transfer w0 i c0 sz name ann ds last cs s → transfer w0 i c0 sz name ann ds last cs s'.
Proof. intros [= E1 E2 E3 E4 E5] []. split; by rewrite ?E1, ?E2, ?E3, ?E4, ?E5. Qed.

Definition no_news (o : list UpOut) : Prop := announced o = [] ∧ Forall is_warning (logs o).
Lemma no_news_app o o' : no_news o → no_news o' → no_news (o ++ o').
Proof. intros [H1 H2] [H3 H4]. split; [by rewrite announced_app, H1, H3|]. rewrite logs_app. by apply Forall_app. Qed.

Lemma check_sequence_ok j k s :
  low k s → (k + 1 < 2 ^ 32)%Z → ∃ s' o, check_sequence_index j s = Ret (tt, s', o) ∧ core s' = core (set_last j s) ∧ low (k + 1) s' ∧
    no_news o ∧ (j = wrap 32 (last_sequence_index s + 1) → o = []).
Proof.
  intros Hs Hk. unfold check_sequence_index. destruct (Z.eqb_spec j (wrap 32 (last_sequence_index s + 1))) as [Ej|Ej].
  - exists (set_last j s), []. split; [|split_and!; [done|by apply (low_mono k); [done|lia]|done|done]].
    rewrite (comp_bind_quiet get_state _ s s s eq_refl). rewrite (proj2 (Z.eqb_eq _ _) Ej). done.
  - destruct (warning_order_ok j k s Hs Hk) as (s' & o & E & Hc & Hl & Ho). exists (set_last j s'), o.
    split; [|split_and!; [|done|done|done]].
    + rewrite (comp_bind_quiet get_state _ s s s eq_refl). rewrite (proj2 (Z.eqb_neq _ _) Ej). cbn [negb when].
      rewrite (comp_bind_ret _ _ _ _ _ _ E). cbn. by rewrite app_nil_r.
    + injection Hc as E1 E2 E3 E4 E5. unfold core. cbn. by rewrite E1, E3, E4, E5.
Qed.

(** One DATA packet. *)
Definition next_index (wrote : bool) (last : Z) (p : DataPacket) : Z := if wrote && (sequence_index (data_header p) =? last)%Z then last else sequence_index (data_header p).

Lemma data_step w0 i c0 sz name ann ds last cs p k s :
  transfer w0 i c0 sz name ann ds last cs s → low k s → (k + 4 < 2 ^ 32)%Z → packet_ok (PData p) → is_u 32 sz →
  ∃ s' o, handle_data_packet p s = Ret (tt, s', o) ∧ low (k + 4) s' ∧ no_news o ∧
    transfer w0 i c0 sz name ann ds (next_index (bool_decide (cs ≠ [])) last p) (cs ++ accepted sz last (bool_decide (cs ≠ [])) [p]) s' ∧
    (sequence_index (data_header p) = wrap 32 (last + 1) → sequence_index (data_header p) ≠ last →
     (byte_offset p + data_size p ≤ sz)%Z → logs o = []).
Proof.
  intros Ht Hs Hk (_ & Ho & Hd & Hdl & _) Hsz. unfold handle_data_packet.
  destruct (packet_received_ok k s Hs ltac:(lia)) as (s1 & v & E1 & Hc1 & Hl1). apply (transfer_core _ _ _ _ _ _ _ _ _ _ _ Hc1) in Ht.
  rewrite (comp_bind_ret _ _ _ _ _ _ E1). rewrite (comp_bind_quiet get_state _ s1 s1 s1 eq_refl).
  rewrite (tr_mode _ _ _ _ _ _ _ _ _ _ Ht), (bool_decide_eq_true_2 (RmData = RmData)) by done. cbn [negb].
  rewrite (tr_status _ _ _ _ _ _ _ _ _ _ Ht). set (j := sequence_index (data_header p)).
  assert (bool_decide ((if decide (cs = []) then None else Some FsOpOk) = Some FsOpOk) = bool_decide (cs ≠ [])) as ->.
  { case_decide; [by rewrite !bool_decide_eq_false_2 by naive_solver|by rewrite !bool_decide_eq_true_2 by done]. }
  unfold next_index. cbn [accepted]. fold j. destruct (bool_decide (cs ≠ []) && (j =? last)%Z) eqn:Edup.
  - apply andb_true_iff in Edup as [-> Ej]. destruct (warning_duplicate_ok j (k + 1)%Z s1 Hl1 ltac:(lia)) as (s2 & o2 & E2 & Hc2 & Hl2 & Ho2).
    exists s2, (UpTlm CHANID_PACKETS_RECEIVED v :: o2). rewrite app_nil_r. split_and!.
    + unfold check_duplicated_packet. rewrite (comp_bind_ret _ _ _ true s2 o2); [cbn; by rewrite app_nil_r|].
      rewrite (comp_bind_quiet get_state _ s1 s1 s1 eq_refl). rewrite (tr_last _ _ _ _ _ _ _ _ _ _ Ht), Ej.
      rewrite (comp_bind_ret _ _ _ _ _ _ E2). cbn. by rewrite app_nil_r.
    + apply (low_mono _ _ _ Hl2). lia.
    + apply (no_news_app [_]); [done|exact Ho2].
    + by apply (transfer_core _ _ _ _ _ _ _ _ _ _ _ Hc2).
    + intros _ Hne. by apply Z.eqb_eq in Ej.
  - rewrite (comp_bind_quiet _ _ s1 false s1).
    2: { destruct (bool_decide (cs ≠ [])); [|done]. cbn in Edup. unfold check_duplicated_packet.
         rewrite (comp_bind_quiet get_state _ s1 s1 s1 eq_refl). by rewrite (tr_last _ _ _ _ _ _ _ _ _ _ Ht), Edup. }
    destruct (check_sequence_ok j (k + 1)%Z s1 Hl1 ltac:(lia)) as (s2 & o2 & E2 & Hc2 & Hl2 & Ho2 & Hq2).
    rewrite (tr_last _ _ _ _ _ _ _ _ _ _ Ht) in Hq2.
    assert (transfer w0 i c0 sz name ann ds j cs s2) as Ht2.
    { injection Hc2 as F1 F2 F3 F4 F5. destruct Ht. split; by rewrite ?F1, ?F2, ?F3, ?F4, ?F5. }
    rewrite (comp_bind_ret _ _ _ _ _ _ E2). rewrite (comp_bind_quiet get_state _ s2 s2 s2 eq_refl). cbv zeta.
    rewrite (tr_size _ _ _ _ _ _ _ _ _ _ Ht2).
    assert (((0xFFFFFFFF - byte_offset p <? data_size p) || (sz <? byte_offset p + data_size p))%Z = (sz <? byte_offset p + data_size p)%Z) as ->.
    { destruct (Z.ltb_spec sz (byte_offset p + data_size p)); [apply orb_true_r|]. rewrite orb_false_r. apply Z.ltb_ge. unfold is_u in *. lia. }
    destruct (Z.ltb_spec sz (byte_offset p + data_size p)) as [Hoob|Hin].
    + destruct (warning_bounds_ok j (k + 1 + 1)%Z s2 Hl2 ltac:(lia)) as (s3 & o3 & E3 & Hc3 & Hl3 & Ho3). rewrite E3.
      eexists _, _. split; [done|]. rewrite app_nil_r. split_and!; [apply (low_mono _ _ _ Hl3); lia| |by apply (transfer_core _ _ _ _ _ _ _ _ _ _ _ Hc3)|lia].
      apply (no_news_app [_]); [done|]. by apply no_news_app.
    + destruct (upfile_write_ok _ _ _ _ (payload p) (byte_offset p) (tr_file _ _ _ _ _ _ _ _ _ _ Ht2) Ho) as (f & Ef & Hf & Hfs & Hfn & Hfc & Hfb).
      rewrite (comp_lift_ok _ _ _ _ Ef). exists (set_status FsOpOk (set_up_file f s2)), (UpTlm CHANID_PACKETS_RECEIVED v :: o2).
      split; [|split_and!].
      * set (k0 := _ ← put_state _; _). assert (k0 s2 = Ret (tt, set_status FsOpOk (set_up_file f s2), [])) as -> by done. by rewrite app_nil_r.
      * apply (low_mono _ _ _ Hl2). lia.
      * apply (no_news_app [_]); [done|exact Ho2].
      * destruct Ht2. split; cbn [set_status set_up_file receive_mode last_sequence_index last_packet_write_status up_file announce_connected]; try done.
        -- rewrite decide_False; [done|]. by destruct cs.
        -- by rewrite Hfs.
        -- by rewrite Hfn.
        -- by rewrite foldl_app.
        -- auto.
        -- rewrite foldl_app, <- tr_sum0. exact Hfc.
      * intros Ej _ _. by rewrite Hq2.
Qed.

(** * Whole transfers *)

(** Between transfers, over world [w]. *)
Record idle (ds : list (list Z)) (w : World) (s : FileUplink) : Prop := {
  idle_mode : receive_mode s = RmStart;
  idle_box : sandboxed ds (os_file (up_file s));
  idle_file : ∃ r b, sf_file (os_file (up_file s)) = (MkFile None OpenNoMode r b, w);
  idle_quiet : script w = [];
  idle_world : world_ok w;
}.

(** The name the events and the announcement carry. *)
Definition received_name (s : FileUplink) (dest : list Z) : FwString := set_bytes dest (up_name (up_file s)).

(** [path] is inside the sandbox over [ds], under the name [p]. *)
Definition reaches (ds : list (list Z)) (dest p : list Z) : Prop :=
  ∃ cs, components cwd dest = Some cs ∧ p = render cs ∧ ds `prefix_of` cs ∧
    valid_utf8 dest = true ∧ valid_utf8 p = true ∧ valid_utf8 (as_directory ds) = true.

Lemma start_step ds w s start p k :
  idle ds w s → low k s → (k + 4 < 2 ^ 32)%Z → packet_ok (PStart start) → reaches ds (destination_path start) p →
  ∃ s' v w1 i, handle_start_packet cwd start s = Ret (tt, s', [UpTlm CHANID_PACKETS_RECEIVED v]) ∧ low (k + 4) s' ∧
    names w1 !! p = Some i ∧ only_changed p (default [] (file_at w p)) w w1 ∧
    transfer w1 i (default [] (file_at w p)) (file_size start) (received_name s (destination_path start)) (announce_connected s) ds 0 [] s'.
Proof.
  intros [Hm Hbox (r & b & Hfile) Hq Hw] Hs Hk (_ & _ & _ & Hlen & _) (cs & Hcs & Ep & Hpre & Hu1 & Hu2 & Hu3). unfold handle_start_packet.
  rewrite (comp_bind_quiet (modify_state clear_throttles) _ s tt (clear_throttles s) eq_refl).
  destruct (packet_received_ok k (clear_throttles s) Hs ltac:(lia)) as (s1 & v & E1 & Hc1 & Hl1). rewrite (comp_bind_ret _ _ _ _ _ _ E1).
  injection Hc1 as C1 C2 C3 C4 C5. cbn [clear_throttles set_throttles receive_mode last_sequence_index last_packet_write_status up_file announce_connected] in *.
  rewrite (comp_bind_quiet get_state _ s1 s1 s1 eq_refl). rewrite C1, Hm, (bool_decide_eq_true_2 (RmStart = RmStart)) by done. cbn [negb when].
  rewrite (comp_bind_quiet (mret tt) _ s1 tt s1 eq_refl). rewrite (comp_bind_quiet get_state _ s1 s1 s1 eq_refl).
  destruct (std_open_write p w Hq Hw) as (i & w1 & Eo & Hp & Hch & Hn).
  assert (upfile_open cwd start (up_file s1) = Ret (FsOpOk, MkUpFile (file_size start) (received_name s (destination_path start))
    (MkSandbox (MkFile (Some (MkFd i 0 false false)) OpenWrite INITIAL_CRC b, w1) (allowed_directory (os_file (up_file s))) true) Checksum_new)) as Eu.
  { unfold upfile_open. unfold path_ok in Hlen. rewrite bool_decide_eq_false_2 by lia. rewrite Hu1. cbn [os_file]. rewrite C4.
    pose proof (sf_open_ok cwd (destination_path start) OpenWrite (os_file (up_file s)) ds Hbox) as Hop. rewrite Hcs in Hop.
    destruct Hop as [_ ->]. rewrite decide_True by (rewrite <- Ep; done). rewrite <- Ep, Hfile.
    cbn [os_open FileW_file]. unfold file_open, open_with_overwrite. cbn [fw_assert]. rewrite (bool_decide_eq_false_2 (OpenWrite = OpenNoMode)) by done.
    cbn [negb fw_assert]. rewrite !outcome_bind_ret. unfold is_open. cbn [fst snd mode]. rewrite (bool_decide_eq_true_2 (OpenNoMode = OpenNoMode)) by done.
    cbn [negb]. rewrite Eo. done. }
  rewrite (comp_lift_ok _ _ _ _ Eu). eexists _, v, w1, i. split; [done|]. split_and!; [|done|done|].
  - apply (low_mono (k + 1)); [|lia]. exact Hl1.
  - split; cbn; try done.
    + eexists _, _, _, w1. split; [done|]. destruct Hch as (? & ? & ? & ?). by split.
    + destruct Hbox as (? & ? & ? & ?). by split_and!.
Qed.

(** What END reports. *)
Definition cut (name : FwString) : list Z := take (len name `min` EVENT_STRING_SIZE) (bytes name).
Definition verdict (ann good : bool) (name : FwString) (o : list UpOut) : Prop :=
  if good then announced o = (if ann then [set_bytes (as_bytes name) FileNameString_new] else []) ∧
               ∃ ws, Forall is_warning ws ∧ logs o = ws ++ [FileReceived (cut name)]
  else no_news o.

Lemma verdict_app ann good name o o' : no_news o → verdict ann good name o' → verdict ann good name (o ++ o').
Proof.
  intros [Ha Hl] Hv. destruct good; cbn in *; [|by apply no_news_app]. destruct Hv as (Ha' & ws & Hws & Hl'). split; [by rewrite announced_app, Ha, Ha'|].
  exists (logs o ++ ws). rewrite logs_app, Hl', app_assoc. split; [|done]. by apply Forall_app.
Qed.

Lemma report_step w0 i c0 sz name ann ds last cs e k s :
  transfer w0 i c0 sz name ann ds last cs s → low k s → (k + 2 < 2 ^ 32)%Z →
  let good := (get_value (foldl update_chunk Checksum_new cs) =? checksum_value e)%Z in
  ∃ s' o, report_file e s = Ret (tt, s', o) ∧ low (k + 2) s' ∧ core s' = core s ∧ verdict ann good name o ∧
    (good = true → logs o = [FileReceived (cut name)]).
Proof.
  intros Ht Hs Hk good. unfold report_file, compare_checksums.
  destruct good eqn:Eg.
  - rewrite (comp_bind_quiet _ _ s true s).
    2: { rewrite (comp_bind_quiet get_state _ s s s eq_refl). rewrite (tr_sum _ _ _ _ _ _ _ _ _ _ Ht). fold good. by rewrite Eg. }
    rewrite (comp_bind_quiet get_state _ s s s eq_refl).
    rewrite (comp_lift_ok _ _ _ (files_received s + 1)%Z) by (apply overflowing_in; unfold low, is_u in *; lia).
    unfold event_name. rewrite (tr_ann _ _ _ _ _ _ _ _ _ _ Ht), (tr_name _ _ _ _ _ _ _ _ _ _ Ht).
    destruct ann; (eexists _, _; split; [done|]; split; [unfold low in *; cbn; lia|]; split; [done|]; split; [|done]; split; [done|by exists []]).
  - destruct (warning_ok k s Hs ltac:(lia)) as (s1 & o1 & E1 & Hc1 & Hl1 & Ho1).
    set (bc := BadChecksum (event_name s) (get_value (up_checksum (up_file s))) (checksum_value e)).
    rewrite (comp_bind_ret _ _ s false s1 (UpLog bc :: o1)).
    2: { rewrite (comp_bind_quiet get_state _ s s s eq_refl). rewrite (tr_sum _ _ _ _ _ _ _ _ _ _ Ht). fold good. rewrite Eg. cbn [negb].
         unfold warning_bad_checksum. rewrite <- (tr_sum _ _ _ _ _ _ _ _ _ _ Ht). rewrite (comp_bind_ret _ _ s tt s1 (UpLog bc :: o1)); [cbn; by rewrite app_nil_r|].
         rewrite (comp_bind_quiet get_state _ s s s eq_refl). rewrite comp_emit, E1. done. }
    rewrite (comp_bind_quiet get_state _ s1 s1 s1 eq_refl).
    rewrite (comp_lift_ok _ _ _ (files_received_failed s1 + 1)%Z) by (apply overflowing_in; unfold low, is_u in *; lia).
    eexists _, _. split; [done|]. split; [unfold low in *; cbn; lia|]. split; [done|]. split; [|done].
    apply (no_news_app [UpLog bc]); [split; [done|by apply Forall_singleton]|]. by apply no_news_app.
Qed.

Lemma end_step w0 i c0 sz name ann ds last cs e k s :
  transfer w0 i c0 sz name ann ds last cs s → low k s → (k + 4 < 2 ^ 32)%Z →
  ∃ s' o w r b, handle_end_packet e s = Ret (tt, s', o) ∧ low (k + 4) s' ∧
    receive_mode s' = RmStart ∧ sandboxed ds (os_file (up_file s')) ∧ sf_file (os_file (up_file s')) = (MkFile None OpenNoMode r b, w) ∧
    filling w0 i (foldl write_chunk c0 cs) w ∧
    let good := (get_value (foldl update_chunk Checksum_new cs) =? checksum_value e)%Z in
    verdict ann good name o ∧
    (sequence_index (end_header e) = wrap 32 (last + 1) → good = true → logs o = [FileReceived (cut name)]).
Proof.
  intros Ht Hs Hk. unfold handle_end_packet. destruct (packet_received_ok k s Hs ltac:(lia)) as (s1 & v & E1 & Hc1 & Hl1).
  apply (transfer_core _ _ _ _ _ _ _ _ _ _ _ Hc1) in Ht. rewrite (comp_bind_ret _ _ _ _ _ _ E1). rewrite (comp_bind_quiet get_state _ s1 s1 s1 eq_refl).
  rewrite (tr_mode _ _ _ _ _ _ _ _ _ _ Ht), (bool_decide_eq_true_2 (RmData = RmData)) by done.
  destruct (check_sequence_ok (sequence_index (end_header e)) (k + 1)%Z s1 Hl1 ltac:(lia)) as (s2 & o2 & E2 & Hc2 & Hl2 & Ho2 & Hq2).
  rewrite (tr_last _ _ _ _ _ _ _ _ _ _ Ht) in Hq2.
  assert (transfer w0 i c0 sz name ann ds (sequence_index (end_header e)) cs s2) as Ht2.
  { injection Hc2 as F1 F2 F3 F4 F5. destruct Ht. split; by rewrite ?F1, ?F2, ?F3, ?F4, ?F5. }
  set (good := (get_value (foldl update_chunk Checksum_new cs) =? checksum_value e)%Z).
  destruct (report_step w0 i c0 sz name ann ds _ cs e (k + 2)%Z s2 Ht2) as (s3 & o3 & E3 & Hl3 & Hc3 & Hv3 & Hg3);
    [by replace (k + 2)%Z with (k + 1 + 1)%Z by lia|lia|].
  replace (k + 2 + 2)%Z with (k + 4)%Z in Hl3 by lia.
  assert (transfer w0 i c0 sz name ann ds (sequence_index (end_header e)) cs s3) as Ht3 by (by apply (transfer_core _ _ _ _ _ _ _ _ _ _ _ Hc3)).
  destruct (tr_file _ _ _ _ _ _ _ _ _ _ Ht3) as (pos & r & b & w & Ef & Hw).
  exists (set_mode RmStart (close_file s3)), ((UpTlm CHANID_PACKETS_RECEIVED v :: o2) ++ o3), w, r, b. split_and!.
  - rewrite (comp_bind_ret _ _ _ tt s3 (o2 ++ o3)).
    2: { rewrite (comp_bind_ret _ _ _ _ _ _ E2). by rewrite E3. }
    cbn. by rewrite app_nil_r.
  - done.
  - done.
  - exact (tr_box _ _ _ _ _ _ _ _ _ _ Ht3).
  - cbn. unfold file_close. by rewrite Ef.
  - done.
  - apply verdict_app; [|done]. apply (no_news_app [_]); [done|exact Ho2].
  - intros Hi Hg. rewrite Hq2 by done. cbn. by apply Hg3.
Qed.

(** ** Packets in buffers *)

Definition carries (b : Buffer) (p : FilePacket) : Prop :=
  buffer_ok b ∧ packet_ok p ∧ window b = be_bytes 2 (as_repr FwPacketFile) ++ image p.

Lemma handler_packet b p s s' o :
  carries b p → handle_packet cwd p s = Ret (tt, s', o) → buffer_send_in_handler cwd b s = Ret (tt, s', o ++ [UpReturn b]).
Proof.
  intros (Hb & Hp & Hw) E. unfold buffer_send_in_handler, DESCRIPTOR_SIZE. pose proof (length_window b Hb) as Hl.
  rewrite Hw, length_app, length_be_bytes in Hl. rewrite bool_decide_eq_false_2 by lia. rewrite (comp_lift_ok _ _ _ _ (buffer_data_ok b Hb)).
  assert (Forall is_byte (window b)) as Hby by (apply Forall_slice, Hb). rewrite Hw in *. cbn [be_bytes app] in *.
  do 2 (erewrite comp_lift_ok; [|reflexivity]). cbv zeta. match goal with |- context [(be_value ?l =? ?v)%Z] => change (be_value l =? v)%Z with true end. cbn [negb].
  erewrite comp_lift_ok; [|apply (copy_from_ok 2); cbn [length]; lia]. cbn [length Nat.sub]. rewrite Nat.sub_0_r.
  match goal with |- context [slice 2 ?n (?a :: ?b :: image p)] => assert (slice 2 n (a :: b :: image p) = image p) as -> by (apply (slice_0_full n (image p)); lia) end.
  apply Forall_cons in Hby as [_ Hby]. apply Forall_cons in Hby as [_ Hby].
  rewrite (proj2 (from_buffer_iff (image p) p Hby)) by done. by rewrite (comp_bind_ret _ _ _ _ _ _ E).
Qed.

Lemma no_news_return b : no_news [UpReturn b].
Proof. done. Qed.

(** In sequence and within the declared size. *)
Fixpoint in_sequence (sz last : Z) (ps : list DataPacket) : Prop :=
  match ps with
  | [] => True
  | p :: ps' => sequence_index (data_header p) = wrap 32 (last + 1) ∧ (byte_offset p + data_size p ≤ sz)%Z ∧
                in_sequence sz (sequence_index (data_header p)) ps'
  end.
Definition last_index (last : Z) (ps : list DataPacket) : Z := default last (sequence_index ∘ data_header <$> list.last ps).

Lemma wrap_next_ne l : is_u 32 l → wrap 32 (l + 1) ≠ l.
Proof. intros Hl E. unfold wrap, is_u in *. destruct (decide (l + 1 = 2 ^ 32)%Z) as [E'|E']; [rewrite E' in E; vm_compute in E; lia|]. rewrite Z.mod_small in E by lia. lia. Qed.

Lemma accepted_cons sz last wrote p ps :
  accepted sz last wrote (p :: ps) =
  accepted sz last wrote [p] ++ accepted sz (next_index wrote last p) (wrote || bool_decide (accepted sz last wrote [p] ≠ [])) ps.
Proof.
  cbn [accepted]. unfold next_index. destruct (wrote && _) eqn:E1; cbn [app].
  - apply andb_true_iff in E1 as [-> _]. done.
  - destruct (_ <? _)%Z; cbn [app]; [by rewrite orb_false_r|]. by rewrite orb_true_r.
Qed.

Lemma data_run w0 i c0 sz name ann ds ps : ∀ bs last cs k s,
  Forall2 carries bs (PData <$> ps) → transfer w0 i c0 sz name ann ds last cs s → low k s →
  (k + 4 * Z.of_nat (length ps) < 2 ^ 32)%Z → is_u 32 sz → is_u 32 last →
  ∃ s' o last', receive_all cwd bs s = Ret (tt, s', o) ∧ low (k + 4 * Z.of_nat (length ps)) s' ∧ no_news o ∧
    transfer w0 i c0 sz name ann ds last' (cs ++ accepted sz last (bool_decide (cs ≠ [])) ps) s' ∧
    (in_sequence sz last ps → logs o = [] ∧ last' = last_index last ps).
Proof.
  induction ps as [|p ps IH]; intros bs last cs k s Hbs Ht Hs Hk Hsz Hlast.
  { apply Forall2_nil_inv_r in Hbs as ->. exists s, [], last. cbn [accepted]. rewrite app_nil_r. split_and!; try done.
    by cbn; rewrite Z.add_0_r. }
  destruct bs as [|b bs]; [by inversion Hbs|]. cbn [fmap list_fmap] in Hbs. apply Forall2_cons in Hbs as [Hb Hbs]. cbn [length] in Hk.
  destruct (data_step _ _ _ _ _ _ _ _ _ p k s Ht Hs ltac:(lia) ltac:(apply Hb) Hsz) as (s1 & o1 & E1 & Hl1 & Ho1 & Ht1 & Hq1).
  assert (is_u 32 (sequence_index (data_header p))) as Hseq by (by destruct Hb as (_ & ((_ & ?) & _) & _)).
  assert (is_u 32 (next_index (bool_decide (cs ≠ [])) last p)) as Hni by (unfold next_index; by case_match).
  destruct (IH bs _ _ (k + 4)%Z s1 Hbs Ht1 Hl1 ltac:(lia) Hsz Hni) as (s2 & o2 & l2 & E2 & Hl2 & Ho2 & Ht2 & Hq2).
  pose proof (handler_packet b (PData p) s s1 o1 Hb E1) as Eh. cbn [receive_all].
  rewrite (comp_bind_ret _ _ _ _ _ _ Eh), E2. exists s2, ((o1 ++ [UpReturn b]) ++ o2), l2. split; [done|]. split_and!.
  - replace (k + 4 * Z.of_nat (length (p :: ps)))%Z with (k + 4 + 4 * Z.of_nat (length ps))%Z by (cbn [length]; lia). done.
  - apply no_news_app; [apply no_news_app; [done|apply no_news_return]|done].
  - rewrite accepted_cons, app_assoc. match type of Ht2 with transfer _ _ _ _ _ _ _ _ (_ ++ accepted _ _ ?x _) _ =>
      match goal with |- transfer _ _ _ _ _ _ _ _ (_ ++ accepted _ _ ?y _) _ => replace y with x; [done|] end end.
    destruct cs as [|c cs]; [done|]. rewrite (bool_decide_eq_true_2 (c :: cs ≠ [])) by done. by rewrite bool_decide_eq_true_2.
  - cbn [in_sequence]. intros (Hn & Hin & Hrest). assert (next_index (bool_decide (cs ≠ [])) last p = sequence_index (data_header p)) as En.
    { unfold next_index. rewrite (proj2 (Z.eqb_neq _ _)); [by rewrite andb_false_r|]. rewrite Hn. by apply wrap_next_ne. }
    rewrite En in Hq2. destruct (Hq2 Hrest) as [Hlog ->]. split.
    + rewrite !logs_app, Hlog, Hq1; [done|done|rewrite Hn; by apply wrap_next_ne|done].
    + unfold last_index. destruct ps as [|p' ps]; [done|]. rewrite last_cons_cons.
      destruct (list.last (p' :: ps)) eqn:El; [done|]. by apply last_None in El.
Qed.

Lemma receive_app bs bs' s s1 o1 s2 o2 :
  receive_all cwd bs s = Ret (tt, s1, o1) → receive_all cwd bs' s1 = Ret (tt, s2, o2) → receive_all cwd (bs ++ bs') s = Ret (tt, s2, o1 ++ o2).
Proof.
  revert s o1. induction bs as [|b bs IH]; intros s o1 E1 E2; cbn [receive_all app] in *; [by injection E1 as <- <-|].
  unfold mbind, CompM_bind in *. destruct (buffer_send_in_handler cwd b s) as [[[[] s'] o]|]; [|done].
  destruct (receive_all cwd bs s') as [[[[] s''] o']|] eqn:E; [|done]. injection E1 as <- <-. rewrite (IH _ _ E E2). by rewrite app_assoc.
Qed.

(** The packets of a transfer. *)
Definition session (start : StartPacket) (ps : list DataPacket) (e : EndPacket) : list FilePacket := PStart start :: (PData <$> ps) ++ [PEnd e].

Lemma transfer_run ds w s k start ps e p bs :
  idle ds w s → low k s → (k + 4 * Z.of_nat (length ps + 2) < 2 ^ 32)%Z → reaches ds (destination_path start) p →
  Forall2 carries bs (session start ps e) →
  let cs := accepted (file_size start) 0 false ps in
  let good := (get_value (foldl update_chunk Checksum_new cs) =? checksum_value e)%Z in
  ∃ s' o w', receive_all cwd bs s = Ret (tt, s', o) ∧ returned o = bs ∧ idle ds w' s' ∧ low (k + 4 * Z.of_nat (length ps + 2)) s' ∧
    only_changed p (foldl write_chunk (default [] (file_at w p)) cs) w w' ∧
    verdict (announce_connected s) good (received_name s (destination_path start)) o ∧
    (in_sequence (file_size start) 0 ps → sequence_index (end_header e) = wrap 32 (last_index 0 ps + 1) → good = true →
     logs o = [FileReceived (cut (received_name s (destination_path start)))]).
Proof.
  intros Hi Hs Hk Hr Hbs cs good. destruct bs as [|b0 bs]; [by inversion Hbs|]. apply Forall2_cons in Hbs as [Hb0 Hbs].
  apply Forall2_app_inv_r in Hbs as (bd & be & Hbd & Hbe & ->). destruct be as [|b1 [|? ?]]; [by inversion Hbe| |apply Forall2_length in Hbe; done].
  apply Forall2_cons in Hbe as [Hb1 _]. rewrite Nat2Z.inj_add in Hk.
  destruct (start_step ds w s start p k Hi Hs ltac:(lia) ltac:(apply Hb0) Hr) as (s1 & v & w1 & i & E1 & Hl1 & Hp & Hch & Ht1).
  assert (is_u 32 (file_size start)) as Hsz by (by destruct Hb0 as (_ & (_ & ? & _) & _)).
  destruct (data_run w1 i _ _ _ _ _ ps bd 0 [] (k + 4)%Z s1 Hbd Ht1 Hl1 ltac:(lia) Hsz ltac:(done)) as (s2 & o2 & l2 & E2 & Hl2 & Ho2 & Ht2 & Hq2).
  change (bool_decide (@nil (Z * list Z) ≠ [])) with false in Ht2. cbn [app] in Ht2. fold cs in Ht2.
  destruct (end_step _ _ _ _ _ _ _ _ _ e _ s2 Ht2 Hl2 ltac:(lia)) as (s3 & o3 & w3 & r & b & E3 & Hl3 & Hm3 & Hbox3 & Hf3 & Hfill & Hv & Hlog).
  pose proof (handler_packet b0 (PStart start) _ _ _ Hb0 E1) as H1. pose proof (handler_packet b1 (PEnd e) _ _ _ Hb1 E3) as H3.
  pose proof (filling_changed _ _ _ _ _ _ _ Hp Hch Hfill) as Hw3. fold good in Hv, Hlog.
  assert (receive_all cwd ([b0] ++ bd ++ [b1]) s = Ret (tt, s3, [UpTlm CHANID_PACKETS_RECEIVED v; UpReturn b0] ++ o2 ++ o3 ++ [UpReturn b1])) as E.
  { eapply receive_app; [cbn [receive_all]; rewrite (comp_bind_ret _ _ _ _ _ _ H1); cbn; reflexivity|]. eapply receive_app; [exact E2|].
    cbn [receive_all]. rewrite (comp_bind_ret _ _ _ _ _ _ H3). cbn. by rewrite app_nil_r. }
  destruct (receive_all_returns cwd (b0 :: bd ++ [b1]) k s) as (s3' & o' & E' & Hret); [|done| |].
  { apply Forall_cons. split; [apply Hb0|]. apply Forall_app. split; [|apply Forall_singleton, Hb1].
    apply Forall_lookup. intros n b' Hb'. destruct (Forall2_lookup_l _ _ _ _ _ Hbd Hb') as (? & _ & Hc). apply Hc. }
  { cbn [length]. rewrite length_app. apply Forall2_length in Hbd. rewrite length_fmap in Hbd. rewrite Hbd. cbn [length]. lia. }
  cbn [app] in E. rewrite E in E'. injection E' as <- <-. eexists _, _, w3. split; [exact E|]. split_and!; [done| | |done| |].
  - destruct Hw3 as (? & ? & _ & _). split; eauto.
  - replace (k + 4 * Z.of_nat (length ps + 2))%Z with (k + 4 + 4 * Z.of_nat (length ps) + 4)%Z by lia. done.
  - apply (verdict_app _ _ _ [_; _]); [done|]. apply verdict_app; [done|]. destruct good; cbn in *; [|by apply no_news_app].
    destruct Hv as (Ha & ws & Hws & Hl). rewrite announced_app, logs_app, Ha, Hl. cbn. rewrite !app_nil_r. eauto.
  - intros Hin He Hg. destruct (Hq2 Hin) as [Hl2' ->]. change (logs (o2 ++ o3 ++ [UpReturn b1]) = [FileReceived (cut (received_name s (destination_path start)))]).
    by rewrite !logs_app, Hl2', Hlog.
Qed.

(** C24. A transfer, whatever its DATA packets.  Between transfers, a START
    whose destination lies in the sandbox, any DATA packets (repeated, out of
    order, overlapping, past the end) and an END: on a system without faults
    the destination afterwards holds its old content with the accepted chunks
    written over it in the order they came, no other file has changed, every
    buffer has been returned, and the file is reported as received, and
    announced under its name, exactly when the checksum of the accepted chunks
    is the one in END; the receiver is ready for the next transfer. *)
Theorem uplink_transfer_exact ds w s k start ps e p bs :
  idle ds w s → low k s → (k + 4 * Z.of_nat (length ps + 2) < 2 ^ 32)%Z → reaches ds (destination_path start) p →
  Forall2 carries bs (session start ps e) →
  let cs := accepted (file_size start) 0 false ps in
  let good := (get_value (foldl update_chunk Checksum_new cs) =? checksum_value e)%Z in
  ∃ s' o w', receive_all cwd bs s = Ret (tt, s', o) ∧ returned o = bs ∧ idle ds w' s' ∧
    only_changed p (foldl write_chunk (default [] (file_at w p)) cs) w w' ∧
    verdict (announce_connected s) good (received_name s (destination_path start)) o.
Proof.
  intros Hi Hs Hk Hr Hbs cs good. destruct (transfer_run ds w s k start ps e p bs Hi Hs Hk Hr Hbs) as (s' & o & w' & ? & ? & ? & _ & ? & ? & _).
  exists s', o, w'. done.
Qed.

(** ** A file sent in blocks *)

(** The DATA packets of a file cut into blocks, numbered from [i]. *)
Fixpoint block_packets (i off : Z) (blocks : list (list Z)) : list DataPacket :=
  match blocks with
  | [] => []
  | b :: blocks' => DataPacket_initialize i off (Z.of_nat (length b)) b :: block_packets (i + 1) (off + Z.of_nat (length b)) blocks'
  end.

Definition block_ok (b : list Z) : Prop := (Z.of_nat (length b) ≤ 65535)%Z ∧ Forall is_byte b.

Lemma block_packet_fields i off b :
  (Z.of_nat (length b) ≤ 65535)%Z →
  DataPacket_initialize i off (Z.of_nat (length b)) b = MkData (MkHeader FptData i) off (Z.of_nat (length b)) b.
Proof.
  intros Hb. unfold DataPacket_initialize. rewrite Nat2Z.id, Nat.min_id, firstn_all, wrap_small by (split; lia). done.
Qed.

Lemma accepted_blocks sz blocks : ∀ i off wrote,
  Forall block_ok blocks → is_u 32 (i - 1) → (i + Z.of_nat (length blocks) < 2 ^ 32)%Z → (off + Z.of_nat (length (mjoin blocks)) ≤ sz)%Z →
  accepted sz (i - 1) wrote (block_packets i off blocks) = at_offsets off blocks ∧ in_sequence sz (i - 1) (block_packets i off blocks) ∧
  last_index (i - 1) (block_packets i off blocks) = (i - 1 + Z.of_nat (length blocks))%Z.
Proof.
  induction blocks as [|b blocks IH]; intros i off wrote Hbs Hi Hlen Hsz.
  { split_and!; [done|done|]. cbn. lia. }
  apply Forall_cons in Hbs as [[Hb _] Hbs]. cbn [length] in Hlen.
  assert (length (mjoin (b :: blocks)) = length b + length (mjoin blocks)) as El by apply length_app. rewrite El in Hsz. clear El.
  cbn [block_packets accepted at_offsets in_sequence]. rewrite block_packet_fields by done.
  cbn [data_header sequence_index byte_offset data_size payload].
  rewrite (proj2 (Z.eqb_neq i (i - 1))) by lia. rewrite andb_false_r. rewrite (proj2 (Z.ltb_ge _ _)) by lia.
  destruct (IH (i + 1)%Z (off + Z.of_nat (length b))%Z true Hbs) as (E1 & E2 & E3); [unfold is_u in *; lia|lia|lia|].
  replace (i + 1 - 1)%Z with i in * by lia. split_and!.
  - by rewrite E1.
  - rewrite Z.sub_add. symmetry. apply wrap_small. unfold is_u in *. lia.
  - lia.
  - done.
  - unfold last_index in *. destruct (block_packets (i + 1) (off + Z.of_nat (length b)) blocks) as [|p ps] eqn:Ep.
    + destruct blocks; [|done]. cbn. lia.
    + rewrite last_cons_cons. destruct (list.last (p :: ps)) eqn:El; [cbn in *; lia|]. by apply last_None in El.
Qed.

Lemma length_block_packets i off blocks : length (block_packets i off blocks) = length blocks.
Proof. revert i off. induction blocks; intros i off; cbn; auto. Qed.

Lemma write_chunk_append x b c : write_chunk (x ++ drop (length x) c) (Z.of_nat (length x), b) = (x ++ b) ++ drop (length (x ++ b)) c.
Proof.
  unfold write_chunk. cbn [fst snd]. case_decide as Hb; [by rewrite Hb, app_nil_r|]. unfold write_at. rewrite Nat2Z.id.
  rewrite <- (app_assoc x), take_app_length. rewrite drop_app_ge, drop_drop by lia. rewrite <- app_assoc. do 2 f_equal. rewrite length_app. f_equal. lia.
Qed.

Lemma write_blocks blocks : ∀ x c,
  foldl write_chunk (x ++ drop (length x) c) (at_offsets (Z.of_nat (length x)) blocks) = (x ++ mjoin blocks) ++ drop (length (x ++ mjoin blocks)) c.
Proof.
  induction blocks as [|b blocks IH]; intros x c; [by cbn; rewrite app_nil_r|]. cbn [at_offsets foldl].
  change (mjoin (b :: blocks)) with (b ++ mjoin blocks).
  rewrite write_chunk_append. replace (Z.of_nat (length x) + Z.of_nat (length b))%Z with (Z.of_nat (length (x ++ b))) by (rewrite length_app; lia).
  rewrite IH. by rewrite <- (app_assoc x b).
Qed.

(** A file cut into blocks, sent as START, the blocks in order and END with
    the file's checksum, is received: the destination then starts with exactly
    the file, followed by whatever an older, longer file had beyond that
    length; nothing else on the system changed, and the one event is the
    reception. *)
Lemma deliver_blocks ds w s k src dest blocks p bs :
  idle ds w s → low k s → (k + 4 * Z.of_nat (length blocks + 2) < 2 ^ 32)%Z → reaches ds dest p → path_ok dest →
  Forall block_ok blocks → (Z.of_nat (length (mjoin blocks)) < 2 ^ 32)%Z →
  Forall2 carries bs (session (StartPacket_initialize (Z.of_nat (length (mjoin blocks))) src dest) (block_packets 1 0 blocks)
                        (EndPacket_initialize (1 + Z.of_nat (length blocks)) (get_value (update (mjoin blocks) 0 Checksum_new)))) →
  ∃ s' o w', receive_all cwd bs s = Ret (tt, s', o) ∧ returned o = bs ∧ idle ds w' s' ∧
    only_changed p (mjoin blocks ++ drop (length (mjoin blocks)) (default [] (file_at w p))) w w' ∧
    logs o = [FileReceived (cut (received_name s dest))] ∧
    announced o = if announce_connected s then [set_bytes (as_bytes (received_name s dest)) FileNameString_new] else [].
Proof.
  intros Hi Hs Hk Hr Hd Hbl Hlen Hbs. set (start := StartPacket_initialize _ src dest) in *. set (e := EndPacket_initialize _ _) in *.
  assert (destination_path start = dest) as Ed by (cbn; unfold truncate_path; destruct Hd; by rewrite bool_decide_eq_false_2 by lia).
  assert (0 ≤ k)%Z as Hk0 by (unfold low in Hs; lia).
  destruct (accepted_blocks (Z.of_nat (length (mjoin blocks))) blocks 1 0 false Hbl) as (Ea & Hin & Hlast); [done|lia|lia|].
  change (1 - 1)%Z with 0%Z in *. rewrite <- Ed in Hr.
  destruct (transfer_run ds w s k start (block_packets 1 0 blocks) e p bs Hi Hs) as (s' & o & w' & E & Hret & Hi' & _ & Hw & Hv & Hl);
    [by rewrite length_block_packets|done|done|].
  assert (accepted (file_size start) 0 false (block_packets 1 0 blocks) = at_offsets 0 blocks) as Ea' by exact Ea. rewrite Ea' in *.
  assert (foldl update_chunk Checksum_new (at_offsets 0 blocks) = update (mjoin blocks) 0 Checksum_new) as Es.
  { rewrite update_chunks, chunks_sum_offsets, update_sum by (done || by apply at_offsets_nonneg). done. }
  rewrite Es in *. change (checksum_value e) with (get_value (update (mjoin blocks) 0 Checksum_new)) in *. rewrite Z.eqb_refl in *.
  rewrite Ed in *. exists s', o, w'. split_and!; [done|done|done| | |by destruct Hv].
  - pose proof (write_blocks blocks [] (default [] (file_at w p))) as Hwb. cbn [app length] in Hwb. rewrite drop_0 in Hwb.
    change (Z.of_nat 0) with 0%Z in Hwb. by rewrite Hwb in Hw.
  - apply Hl; [done| |done]. cbn. rewrite Hlast. symmetry. rewrite Z.add_0_l, Z.add_comm. apply wrap_small. split; lia.
Qed.

(** A buffer that carries a packet. *)
Definition packet_buffer (p : FilePacket) : Buffer := from_storage (be_bytes 2 (as_repr FwPacketFile) ++ image p) NO_CONTEXT.
Lemma packet_buffer_carries p : packet_ok p → carries (packet_buffer p) p.
Proof.
  intros Hp. split_and!; [|done|].
  - split; [cbn; lia|]. cbn [storage packet_buffer from_storage]. apply Forall_app. split; [apply be_bytes_is_byte|]. by apply image_bytes.
  - unfold window. cbn [offset size storage packet_buffer from_storage]. by apply slice_0_full.
Qed.
Lemma packet_buffers_carry ps : Forall packet_ok ps → Forall2 carries (packet_buffer <$> ps) ps.
Proof. induction 1; constructor; auto using packet_buffer_carries. Qed.

Lemma idle_new w ann : script w = [] → world_ok w → idle [] w (FileUplink_new (File_new, w) ann).
Proof. intros Hq Hw. split; [done|apply sandboxed_new|cbn; eauto|done|done]. Qed.
Lemma low_new w ann : low 0 (FileUplink_new (F := FileW) (File_new, w) ann).
Proof. unfold low. cbn. lia. Qed.
End runs.

(** * Witnesses *)

Definition old_file : World := one_file (str "/f") [9; 9; 9; 9]%Z [].

Lemma reaches_witness : reaches None [] (str "/f") (str "/f").
Proof. exists [str "f"]. split_and!; try (vm_compute; reflexivity). apply prefix_nil. Qed.

(** A repeated packet and one past the end are not written; the checksum then
    decides. *)
Lemma uplink_transfer_exact_witness :
  let P := true : BuildProfile in
  let ps := [DataPacket_initialize 1 1 2 [5; 6]%Z; DataPacket_initialize 1 0 1 [7]%Z; DataPacket_initialize 2 3 2 [8; 8]%Z] in
  let bs := packet_buffer <$> session (StartPacket_initialize 4 [] (str "/f")) ps (EndPacket_initialize 3 0) in
  ∃ s' o w', receive_all None bs (FileUplink_new (File_new, old_file) true) = Ret (tt, s', o) ∧
    file_at w' (str "/f") = Some [9; 5; 6; 9]%Z ∧ announced o = [] ∧ returned o = bs.
Proof.
  intros P ps bs.
  destruct (uplink_transfer_exact None [] old_file (FileUplink_new (File_new, old_file) true) 0 (StartPacket_initialize 4 [] (str "/f")) ps
    (EndPacket_initialize 3 0) (str "/f") bs) as (s' & o & w' & E & Hr & _ & (_ & _ & Hf & _) & Hv).
  - apply idle_new; [done|apply one_file_ok].
  - apply low_new.
  - done.
  - apply reaches_witness.
  - apply packet_buffers_carry. fp_decide.
  - exists s', o, w'. split; [exact E|]. split; [exact Hf|]. split; [|exact Hr]. vm_compute in Hv. apply Hv.
Defined.
