(* ===== verification/FileDownlink.v ===== *)
(** File send [Svc::FileDownlink],
    [crates/fprime-svc/src/file_downlink.rs].

    Requests wait in a bounded queue; a [Run] starts the next one, and each
    packet is sent when the previous one has come back.  The mode has a lock
    of its own in the code, but everything that changes it runs on the
    component's thread (the guarded port only adds to the queue), so a handler
    is one step.  The file and the system behind it are part of the state. *)

From stdpp Require Import list.
From S2P Require Import Prelude Serial SerialFacts Codec Fpp Packets Buffer Checksum Comp Framing FwString OsFile FilePaths FilePacket.

(** * Data *)

Definition INTERNAL_BUFFER_SIZE : nat := FW_COM_BUFFER_MAX_SIZE.
Definition COMMAND_FAILURES_DISABLED : bool := true.
Definition MAX_DATA_SIZE : nat := INTERNAL_BUFFER_SIZE - DATA_PACKET_HEADER_SIZE - 2.
Definition PACKET_ARENA_COUNT : nat := 2.
Definition DL_EVENT_STRING_SIZE : nat := 100.
Definition OPCODE_SEND_FILE : Z := 0.
Definition OPCODE_CANCEL : Z := 1.
Definition OPCODE_SEND_PARTIAL : Z := 2.
Definition CHANID_FILES_SENT : Z := 0.
Definition CHANID_PACKETS_SENT : Z := 1.
Definition DL_CHANID_WARNINGS : Z := 2.

Inductive SendFileStatus : Set := StatusOk | StatusError | StatusInvalid | StatusBusy.
Record SendFileResponse : Set := MkResponse { resp_status : SendFileStatus; resp_context : Z }.

Inductive Mode : Set := DlIdle | DlDownlink | DlCancel | DlWait | DlCooldown.
#[export] Instance Mode_eq_dec : EqDecision Mode.
Proof. solve_decision. Defined.

Inductive CallerSource : Set := FromCommand | FromPort.

Record FileEntry : Set := MkEntry {
  src_filename : FwString;
  dest_filename : FwString;
  entry_offset : Z;
  entry_length : Z;
  entry_source : CallerSource;
  entry_op_code : Z;
  entry_cmd_seq : Z;
  entry_context : Z;
}.
Definition FileEntry_default : FileEntry := MkEntry FileNameString_new FileNameString_new 0 0 FromCommand 0 0 0.

(** Events with their arguments; a name is cut to [DL_EVENT_STRING_SIZE]. *)
Inductive DownlinkEvent : Set :=
| DlFileOpenError (name : list Z)
| DlFileReadError (name : list Z) (status : FileStatus)
| DlFileSent (source dest : list Z)
| DlCanceled (source dest : list Z)
| DlPartialWarning (start_offset length file_size : Z) (source dest : list Z)
| DlPartialFail (source dest : list Z) (start_offset file_size : Z)
| DlSendDataFail (source : list Z) (byte_offset : Z)
| DlSendStarted (length : Z) (source dest : list Z)
| DlZeroSizeFile (source : list Z)
| DlFilenameSourceOverflow
| DlFilenameDestinationOverflow
| DlSourceOutOfSandbox (name : list Z).

Inductive DlOut : Set :=
| DlLog (e : DownlinkEvent)
| DlTlm (chan value : Z)
| DlSend (b : Buffer)
| DlComplete (r : SendFileResponse)
| DlCmdResponse (op cmd_seq : Z) (r : CmdResponse)
| DlPing (key : Z).

(** [statusToCmdResp] and [failure_status]. *)
Definition status_to_cmd_resp (s : SendFileStatus) : CmdResponse :=
  match s with StatusOk => CmdOk | StatusError => ExecutionError | StatusInvalid => ValidationError | StatusBusy => Busy end.
Definition failure_status (failure : SendFileStatus) : SendFileStatus := if COMMAND_FAILURES_DISABLED then StatusOk else failure.

Definition new_storage : list Z := replicate INTERNAL_BUFFER_SIZE 0%Z.

Section downlink.
Context `{BuildProfile} {F : Type} `{OsFile F}.
(** The working directory, for relative sources; the ports that are
    connected: [FileComplete] and the command response. *)
Context (cwd : option FwString) (complete_connected cmd_response_out : bool).

Record DownlinkFile : Type := MkDlFile {
  source_name : FwString;
  dest_name : FwString;
  dl_size : Z;
  dl_os_file : @SandboxedFile F;
  dl_checksum : Checksum;
}.

(** Where the transfer stands. *)
Record Progress : Set := MkProgress {
  pr_sequence_index : Z;
  pr_timer : Z;
  pr_offset : Z;
  pr_end : Z;
  last_completed_type : FilePacketType;
  last_buffer_id : Z;
  cur_context : Z;
}.

Record FileDownlink : Type := MkDownlink {
  dl_mode : Mode;
  dl_configured : bool;
  cooldown : Z;
  cycle_time : Z;
  file_queue : list FileEntry;
  file_queue_depth : nat;
  cntx_id : Z;
  cur_entry : FileEntry;
  dl_file : DownlinkFile;
  progress : Progress;
  free_storage : list (list Z);
  files_sent : Z;
  packets_sent : Z;
  dl_warnings : Z;
}.

Definition DownlinkFile_new (f : F) : DownlinkFile :=
  MkDlFile (FwString_new FW_LOG_STRING_MAX_SIZE) (FwString_new FW_LOG_STRING_MAX_SIZE) 0 (SandboxedFile_new f) Checksum_new.
Definition FileDownlink_new (f : F) : FileDownlink :=
  MkDownlink DlIdle false 0 0 [] 0 0 FileEntry_default (DownlinkFile_new f) (MkProgress 0 0 0 0 FptNone 0 0)
    (replicate PACKET_ARENA_COUNT new_storage) 0 0 0.

(** ** Updates *)

Definition dl_set_mode (m : Mode) (s : FileDownlink) : FileDownlink :=
  MkDownlink m (dl_configured s) (cooldown s) (cycle_time s) (file_queue s) (file_queue_depth s) (cntx_id s) (cur_entry s)
    (dl_file s) (progress s) (free_storage s) (files_sent s) (packets_sent s) (dl_warnings s).
Definition dl_set_queue (q : list FileEntry) (s : FileDownlink) : FileDownlink :=
  MkDownlink (dl_mode s) (dl_configured s) (cooldown s) (cycle_time s) q (file_queue_depth s) (cntx_id s) (cur_entry s)
    (dl_file s) (progress s) (free_storage s) (files_sent s) (packets_sent s) (dl_warnings s).
Definition dl_set_cntx (c : Z) (s : FileDownlink) : FileDownlink :=
  MkDownlink (dl_mode s) (dl_configured s) (cooldown s) (cycle_time s) (file_queue s) (file_queue_depth s) c (cur_entry s)
    (dl_file s) (progress s) (free_storage s) (files_sent s) (packets_sent s) (dl_warnings s).
Definition dl_set_entry (e : FileEntry) (s : FileDownlink) : FileDownlink :=
  MkDownlink (dl_mode s) (dl_configured s) (cooldown s) (cycle_time s) (file_queue s) (file_queue_depth s) (cntx_id s) e
    (dl_file s) (progress s) (free_storage s) (files_sent s) (packets_sent s) (dl_warnings s).
Definition dl_set_file (f : DownlinkFile) (s : FileDownlink) : FileDownlink :=
  MkDownlink (dl_mode s) (dl_configured s) (cooldown s) (cycle_time s) (file_queue s) (file_queue_depth s) (cntx_id s) (cur_entry s)
    f (progress s) (free_storage s) (files_sent s) (packets_sent s) (dl_warnings s).
Definition dl_set_progress (p : Progress) (s : FileDownlink) : FileDownlink :=
  MkDownlink (dl_mode s) (dl_configured s) (cooldown s) (cycle_time s) (file_queue s) (file_queue_depth s) (cntx_id s) (cur_entry s)
    (dl_file s) p (free_storage s) (files_sent s) (packets_sent s) (dl_warnings s).
Definition dl_set_storage (l : list (list Z)) (s : FileDownlink) : FileDownlink :=
  MkDownlink (dl_mode s) (dl_configured s) (cooldown s) (cycle_time s) (file_queue s) (file_queue_depth s) (cntx_id s) (cur_entry s)
    (dl_file s) (progress s) l (files_sent s) (packets_sent s) (dl_warnings s).
Definition dl_set_counts (sent packets warned : Z) (s : FileDownlink) : FileDownlink :=
  MkDownlink (dl_mode s) (dl_configured s) (cooldown s) (cycle_time s) (file_queue s) (file_queue_depth s) (cntx_id s) (cur_entry s)
    (dl_file s) (progress s) (free_storage s) sent packets warned.
Definition set_dl_os_file (sf : SandboxedFile) (f : DownlinkFile) : DownlinkFile :=
  MkDlFile (source_name f) (dest_name f) (dl_size f) sf (dl_checksum f).

Definition with_timer (t : Z) (p : Progress) : Progress :=
  MkProgress (pr_sequence_index p) t (pr_offset p) (pr_end p) (last_completed_type p) (last_buffer_id p) (cur_context p).
Definition with_type (t : FilePacketType) (p : Progress) : Progress :=
  MkProgress (pr_sequence_index p) (pr_timer p) (pr_offset p) (pr_end p) t (last_buffer_id p) (cur_context p).
Definition with_end (e : Z) (p : Progress) : Progress :=
  MkProgress (pr_sequence_index p) (pr_timer p) (pr_offset p) e (last_completed_type p) (last_buffer_id p) (cur_context p).
Definition with_sequence (i : Z) (p : Progress) : Progress :=
  MkProgress i (pr_timer p) (pr_offset p) (pr_end p) (last_completed_type p) (last_buffer_id p) (cur_context p).
Definition with_offset (o : Z) (p : Progress) : Progress :=
  MkProgress (pr_sequence_index p) (pr_timer p) o (pr_end p) (last_completed_type p) (last_buffer_id p) (cur_context p).
Definition with_buffer (last cur : Z) (p : Progress) : Progress :=
  MkProgress (pr_sequence_index p) (pr_timer p) (pr_offset p) (pr_end p) (last_completed_type p) last cur.

(** * The file being sent *)

Definition dlfile_open (source dest : FwString) (f : DownlinkFile) : outcome (FileStatus * DownlinkFile) :=
  let f := MkDlFile (set_bytes (as_bytes source) (source_name f)) (set_bytes (as_bytes dest) (dest_name f)) (dl_size f)
             (dl_os_file f) Checksum_new in
  match as_str source with
  | None => Ret (FsOtherError, f)
  | Some path =>
      '(st, sf) ← sf_open cwd path OpenRead (dl_os_file f);
      let f := set_dl_os_file sf f in
      if negb (bool_decide (st = FsOpOk)) then Ret (st, f)
      else
        let '(st, n, sf) := sf_size (dl_os_file f) in
        let f := set_dl_os_file sf f in
        let file_size := Z.of_nat (default 0 n) in
        if negb (bool_decide (st = FsOpOk)) then Ret (FsBadSize, set_dl_os_file (sf_close (dl_os_file f)) f)
        else if (0xFFFFFFFF <? file_size)%Z then Ret (FsBadSize, set_dl_os_file (sf_close (dl_os_file f)) f)
        else Ret (FsOpOk, MkDlFile (source_name f) (dest_name f) file_size (dl_os_file f) (dl_checksum f))
  end.

(** [read] of [n] bytes at an offset: the status and the bytes. *)
Definition dlfile_read (n : nat) (off : Z) (f : DownlinkFile) : outcome (FileStatus * list Z * DownlinkFile) :=
  '(st, sf) ← sf_seek off Absolute (dl_os_file f);
  let f := set_dl_os_file sf f in
  if negb (bool_decide (st = FsOpOk)) then Ret (st, [], f)
  else
    let '(st, bs, sf) := sf_read n Wait (dl_os_file f) in
    let f := set_dl_os_file sf f in
    if negb (bool_decide (st = FsOpOk)) then Ret (st, [], f)
    else if negb (bool_decide (length bs = n)) then Ret (FsBadSize, [], f)
    else Ret (FsOpOk, bs, MkDlFile (source_name f) (dest_name f) (dl_size f) (dl_os_file f) (update bs off (dl_checksum f))).

(** * Events and telemetry *)

Local Notation DlM := (CompM FileDownlink DlOut).

Definition dl_cut (n : FwString) : list Z := take (len n `min` DL_EVENT_STRING_SIZE) (bytes n).
Definition dl_source (s : FileDownlink) : list Z := dl_cut (source_name (dl_file s)).
Definition dl_dest (s : FileDownlink) : list Z := dl_cut (dest_name (dl_file s)).
Definition dl_log (e : FileDownlink → DownlinkEvent) : DlM unit := s ← get_state; emit (DlLog (e s)).

Definition dl_warning : DlM unit :=
  s ← get_state;
  n ← lift (add_w 32 (dl_warnings s) 1);
  _ ← put_state (dl_set_counts (files_sent s) (packets_sent s) n s);
  emit (DlTlm DL_CHANID_WARNINGS n).

Definition warning_file_open_error : DlM unit := _ ← dl_log (λ s, DlFileOpenError (dl_source s)); dl_warning.
Definition warning_source_out_of_sandbox : DlM unit := _ ← dl_log (λ s, DlSourceOutOfSandbox (dl_source s)); dl_warning.
Definition warning_zero_size : DlM unit := _ ← dl_log (λ s, DlZeroSizeFile (dl_source s)); dl_warning.
Definition warning_file_read (st : FileStatus) : DlM unit := _ ← dl_log (λ s, DlFileReadError (dl_source s) st); dl_warning.

(** * Sending *)

Definition pop_storage : DlM (list Z) :=
  s ← get_state;
  match list.last (free_storage s) with
  | Some st => _ ← put_state (dl_set_storage (take (length (free_storage s) - 1) (free_storage s)) s); mret st
  | None => mret new_storage
  end.
Definition push_storage (st : list Z) (s : FileDownlink) : FileDownlink :=
  if bool_decide (length st = INTERNAL_BUFFER_SIZE) && bool_decide (length (free_storage s) < PACKET_ARENA_COUNT)
  then dl_set_storage (free_storage s ++ [st]) s else s.

Definition send_file_packet (packet : FilePacket) (ctx : Z) : DlM unit :=
  let n := buffer_size packet + 2 in
  storage ← pop_storage;
  _ ← assert (bool_decide (n ≤ length storage));
  b ← lift (on_window (_ ← serialize_u16 (as_repr FwPacketFile) Big; FilePacket_serialize_to packet) (from_storage storage ctx));
  b ← lift (set_size n b);
  _ ← emit (DlSend b);
  s ← get_state;
  k ← lift (add_w 32 (packets_sent s) 1);
  _ ← put_state (dl_set_counts (files_sent s) k (dl_warnings s) s);
  emit (DlTlm CHANID_PACKETS_SENT k).

Definition get_buffer (s : FileDownlink) : FileDownlink :=
  let p := progress s in
  dl_set_progress (with_buffer (wrap 32 (last_buffer_id p + 1)) (last_buffer_id p) p) s.

Definition send_start_packet : DlM unit :=
  s ← get_state;
  let f := dl_file s in
  send_file_packet (PStart (StartPacket_initialize (dl_size f) (as_bytes (source_name f)) (as_bytes (dest_name f)))) (cur_context (progress s)).

Definition send_end_packet : DlM unit :=
  s ← get_state;
  send_file_packet (PEnd (EndPacket_initialize (pr_sequence_index (progress s)) (get_value (dl_checksum (dl_file s))))) (cur_context (progress s)).

Definition send_cancel_packet : DlM unit :=
  s ← get_state;
  let p := progress s in
  let ctx := last_buffer_id p in
  _ ← put_state (dl_set_progress (with_buffer (wrap 32 (last_buffer_id p + 1)) (cur_context p) p) s);
  send_file_packet (PCancel (CancelPacket_initialize (pr_sequence_index p))) ctx.

Definition send_data_packet : DlM FileStatus :=
  s ← get_state;
  let p := progress s in
  if (pr_end p <=? pr_offset p)%Z then mret FsInvalidArgument
  else
    let remaining := Z.to_nat (pr_end p - pr_offset p) in
    let data_size := remaining `min` MAX_DATA_SIZE in
    let byte_offset := pr_offset p in
    top ← lift (add_w 32 (Z.of_nat data_size) byte_offset);
    _ ← when (top =? pr_end p)%Z (modify_state (λ s, dl_set_progress (with_type FptData (progress s)) s));
    s ← get_state;
    '(status, data, f) ← lift (dlfile_read data_size byte_offset (dl_file s));
    _ ← put_state (dl_set_file f s);
    if negb (bool_decide (status = FsOpOk)) then _ ← warning_file_read status; mret status
    else
      s ← get_state;
      let packet := PData (DataPacket_initialize (pr_sequence_index (progress s)) byte_offset (wrap 16 (Z.of_nat data_size)) data) in
      i ← lift (add_w 32 (pr_sequence_index (progress s)) 1);
      _ ← put_state (dl_set_progress (with_sequence i (progress s)) s);
      _ ← send_file_packet packet (cur_context (progress s));
      s ← get_state;
      o ← lift (add_w 32 (pr_offset (progress s)) (Z.of_nat data_size));
      _ ← put_state (dl_set_progress (with_offset o (progress s)) s);
      mret FsOpOk.

Definition cmd_response (op cmd_seq : Z) (r : CmdResponse) : DlM unit :=
  _ ← assert cmd_response_out; emit (DlCmdResponse op cmd_seq r).

Definition send_response (status : SendFileStatus) : DlM unit :=
  s ← get_state;
  match entry_source (cur_entry s) with
  | FromCommand => cmd_response (entry_op_code (cur_entry s)) (entry_cmd_seq (cur_entry s)) (status_to_cmd_resp status)
  | FromPort => when complete_connected (emit (DlComplete (MkResponse status (entry_context (cur_entry s)))))
  end.

Definition close_source (s : FileDownlink) : FileDownlink :=
  dl_set_file (set_dl_os_file (sf_close (dl_os_file (dl_file s))) (dl_file s)) s.
Definition enter_cooldown (s : FileDownlink) : FileDownlink :=
  let s := dl_set_mode DlCooldown (close_source s) in
  dl_set_progress (with_timer 0 (with_type FptNone (progress s))) s.

(** [send_file]. *)
Definition send_file (source dest : FwString) (start_offset length : Z) : DlM unit :=
  s ← get_state;
  '(status, f) ← lift (dlfile_open source dest (dl_file s));
  _ ← put_state (dl_set_file f s);
  if negb (bool_decide (status = FsOpOk)) then
    _ ← modify_state (dl_set_mode DlIdle);
    _ ← (if bool_decide (status = FsOutsideSandbox) then warning_source_out_of_sandbox else warning_file_open_error);
    send_response (failure_status StatusError)
  else
    let file_size := dl_size f in
    if (file_size =? 0)%Z then
      _ ← modify_state (λ s, dl_set_mode DlIdle (close_source s));
      _ ← warning_zero_size;
      send_response (failure_status StatusInvalid)
    else if (file_size <=? start_offset)%Z then
      _ ← modify_state enter_cooldown;
      _ ← dl_log (λ s, DlPartialFail (dl_source s) (dl_dest s) start_offset file_size);
      send_response (failure_status StatusInvalid)
    else
      let too_long := (file_size - start_offset <? length)%Z in
      _ ← when too_long (dl_log (λ s, DlPartialWarning start_offset length file_size (dl_source s) (dl_dest s)));
      let length := if too_long then (file_size - start_offset)%Z else length in
      _ ← modify_state get_buffer;
      _ ← send_start_packet;
      _ ← modify_state (λ s, dl_set_progress (with_type FptStart (with_offset start_offset (with_timer 0 (with_sequence 1 (progress s)))))
                               (dl_set_mode DlWait s));
      if (0 <? length)%Z then
        _ ← dl_log (λ s, DlSendStarted length (dl_source s) (dl_dest s));
        e ← lift (add_w 32 start_offset length);
        modify_state (λ s, dl_set_progress (with_end e (progress s)) s)
      else
        _ ← dl_log (λ s, DlSendStarted (file_size - start_offset) (dl_source s) (dl_dest s));
        modify_state (λ s, dl_set_progress (with_end file_size (progress s)) s).

Definition downlink_packet : DlM unit :=
  s ← get_state;
  let t := last_completed_type (progress s) in
  _ ← assert (negb (bool_decide (t = FptNone)));
  let m := dl_mode s in
  _ ← assert (bool_decide (m = DlCancel) || bool_decide (m = DlDownlink));
  let to_wait := modify_state (λ s, dl_set_progress (with_timer 0 (progress s)) (dl_set_mode DlWait s)) in
  let mark t := modify_state (λ s, dl_set_progress (with_type t (progress s)) s) in
  if bool_decide (m = DlCancel) && bool_decide (t = FptStart) then
    _ ← send_cancel_packet; _ ← mark FptCancel; to_wait
  else if bool_decide (m = DlDownlink) && bool_decide (t = FptStart) then
    status ← send_data_packet;
    if negb (bool_decide (status = FsOpOk)) then
      _ ← dl_log (λ s, DlSendDataFail (dl_source s) (pr_offset (progress s)));
      _ ← modify_state enter_cooldown;
      send_response (failure_status StatusError)
    else to_wait
  else if bool_decide (t = FptData) then
    _ ← send_end_packet; _ ← mark FptEnd; to_wait
  else to_wait.

Definition finish_helper (cancel : bool) : DlM unit :=
  _ ← (if cancel then dl_log (λ s, DlCanceled (dl_source s) (dl_dest s))
       else
         s ← get_state;
         n ← lift (add_w 32 (files_sent s) 1);
         _ ← put_state (dl_set_counts n (packets_sent s) (dl_warnings s) s);
         _ ← emit (DlTlm CHANID_FILES_SENT n);
         dl_log (λ s, DlFileSent (dl_source s) (dl_dest s)));
  _ ← modify_state enter_cooldown;
  send_response StatusOk.

(** * Handlers *)

Definition dl_run_handler : DlM unit :=
  s ← get_state;
  match dl_mode s with
  | DlIdle =>
      match file_queue s with
      | [] => mret tt
      | e :: q =>
          _ ← put_state (dl_set_entry e (dl_set_queue q s));
          send_file (src_filename e) (dest_filename e) (entry_offset e) (entry_length e)
      end
  | DlCooldown =>
      if (cooldown s <=? pr_timer (progress s))%Z then
        put_state (dl_set_mode DlIdle (dl_set_progress (with_timer 0 (progress s)) s))
      else
        t ← lift (add_w 32 (pr_timer (progress s)) (cycle_time s));
        put_state (dl_set_progress (with_timer t (progress s)) s)
  | DlWait =>
      t ← lift (add_w 32 (pr_timer (progress s)) (cycle_time s));
      put_state (dl_set_progress (with_timer t (progress s)) s)
  | DlDownlink | DlCancel => mret tt
  end.

Definition buffer_return_handler (b : Buffer) : DlM unit :=
  _ ← modify_state (push_storage (storage b));
  s ← get_state;
  let m := dl_mode s in
  let p := progress s in
  if negb (last_buffer_id p =? wrap 32 (context b + 1))%Z || bool_decide (m = DlIdle) then mret tt
  else
    _ ← assert (bool_decide (m = DlWait) || bool_decide (m = DlCancel));
    if bool_decide (last_completed_type p = FptEnd) || bool_decide (last_completed_type p = FptCancel) then
      finish_helper (bool_decide (last_completed_type p = FptCancel))
    else
      _ ← when (bool_decide (m = DlWait)) (modify_state (dl_set_mode DlDownlink));
      downlink_packet.

Definition enqueue (e : FileEntry) : DlM bool :=
  s ← get_state;
  if bool_decide (file_queue_depth s ≤ length (file_queue s)) then mret false
  else _ ← put_state (dl_set_queue (file_queue s ++ [e]) s); mret true.

Definition queue_command_request (op cmd_seq : Z) (source dest : FwString) (offset length : Z) : DlM unit :=
  if bool_decide (FILE_NAME_STRING_SIZE ≤ len source) then
    _ ← emit (DlLog DlFilenameSourceOverflow); cmd_response op cmd_seq ValidationError
  else if bool_decide (FILE_NAME_STRING_SIZE ≤ len dest) then
    _ ← emit (DlLog DlFilenameDestinationOverflow); cmd_response op cmd_seq ValidationError
  else
    let e := MkEntry (set_bytes (as_bytes source) FileNameString_new) (set_bytes (as_bytes dest) FileNameString_new)
               offset length FromCommand op cmd_seq 0xFFFFFFFF in
    queued ← enqueue e;
    if queued : bool then mret tt else cmd_response op cmd_seq ExecutionError.

(** The arguments of a command: [None] when they do not decode or leave
    bytes over. *)
Definition dl_parse_args {A} (m : SerM A) (args : serbuf) : outcome (option A) :=
  match (a ← m; n ← deserialize_size_left; mret (a, n)) args with
  | (SOk (a, n), _) => Ret (if bool_decide (n = 0) then Some a else None)
  | (SErr _, _) => Ret None
  | (SPanic, _) => Panic
  end.
Definition read_names : SerM (FwString * FwString) :=
  source ← string_deserialize_from Big (FwString_new FW_CMD_STRING_MAX_SIZE);
  dest ← string_deserialize_from Big (FwString_new FW_CMD_STRING_MAX_SIZE);
  mret (source, dest).

Definition send_file_cmd_handler (op cmd_seq : Z) (args : serbuf) : DlM unit :=
  r ← lift (dl_parse_args read_names args);
  match r with
  | None => cmd_response op cmd_seq CmdFormatError
  | Some (source, dest) => queue_command_request op cmd_seq source dest 0 0
  end.
Definition send_partial_cmd_handler (op cmd_seq : Z) (args : serbuf) : DlM unit :=
  r ← lift (dl_parse_args (names ← read_names; offset ← deserialize_u32 Big; n ← deserialize_u32 Big; mret (names, offset, n)) args);
  match r with
  | None => cmd_response op cmd_seq CmdFormatError
  | Some ((source, dest), offset, n) => queue_command_request op cmd_seq source dest offset n
  end.
Definition cancel_cmd_handler (op cmd_seq : Z) (args : serbuf) : DlM unit :=
  r ← lift (dl_parse_args (mret tt) args);
  match r with
  | None => cmd_response op cmd_seq CmdFormatError
  | Some _ =>
      s ← get_state;
      _ ← when (bool_decide (dl_mode s = DlDownlink) || bool_decide (dl_mode s = DlWait)) (modify_state (dl_set_mode DlCancel));
      cmd_response op cmd_seq CmdOk
  end.

(** The opcode dispatch, relative to the component's base id. *)
Definition dl_command (id_base op cmd_seq : Z) (args : serbuf) : DlM unit :=
  let rel := wrap 32 (op - id_base) in
  if (rel =? OPCODE_SEND_FILE)%Z then send_file_cmd_handler op cmd_seq args
  else if (rel =? OPCODE_CANCEL)%Z then cancel_cmd_handler op cmd_seq args
  else if (rel =? OPCODE_SEND_PARTIAL)%Z then send_partial_cmd_handler op cmd_seq args
  else cmd_response op cmd_seq InvalidOpcode.

Definition send_file_port_handler (source dest : FwString) (offset length : Z) : DlM SendFileResponse :=
  s ← get_state;
  let ctx := cntx_id s in
  _ ← put_state (dl_set_cntx (wrap 32 (ctx + 1)) s);
  if bool_decide (FILE_NAME_STRING_SIZE ≤ len source) then
    _ ← emit (DlLog DlFilenameSourceOverflow); mret (MkResponse StatusError 0xFFFFFFFF)
  else if bool_decide (FILE_NAME_STRING_SIZE ≤ len dest) then
    _ ← emit (DlLog DlFilenameDestinationOverflow); mret (MkResponse StatusError 0xFFFFFFFF)
  else
    let e := MkEntry (set_bytes (as_bytes source) FileNameString_new) (set_bytes (as_bytes dest) FileNameString_new)
               offset length FromPort 0 0 ctx in
    queued ← enqueue e;
    mret (if queued : bool then MkResponse StatusOk ctx else MkResponse StatusError 0xFFFFFFFF).

Definition dl_ping_handler (key : Z) : DlM unit := emit (DlPing key).

Definition dl_configure (cool cycle : Z) (depth : nat) (s : FileDownlink) : FileDownlink :=
  MkDownlink (dl_mode s) true cool cycle [] depth (cntx_id s) (cur_entry s) (dl_file s) (progress s) (free_storage s)
    (files_sent s) (packets_sent s) (dl_warnings s).
Definition configure_sandbox (directory : list Z) (s : FileDownlink) : outcome FileDownlink :=
  sf ← sf_configure cwd directory (dl_os_file (dl_file s));
  Ret (dl_set_file (set_dl_os_file sf (dl_file s)) s).
End downlink.
