(* ===== verification/FileDownlinkRuns.v ===== *)
(** What [Svc::FileDownlink] sends: the runs of the component with the
    buffers it has in flight, whatever the order of ticks, commands, requests
    and returned buffers. *)

From stdpp Require Import list gmap strings.
From S2P Require Import Prelude Serial SerialFacts Codec Fpp Packets Buffer Checksum Comp Framing FwString OsFile FilePaths FilePacket FileUplink FileUplinkRuns FileDownlink.

(** * Packets in buffers *)

Lemma on_window_context f b b' : on_window f b = Ret b' → context b' = context b.
Proof.
  unfold on_window. destruct (get_serializer b) as [ser|]; [|done]. rewrite outcome_bind_ret.
  destruct (f ser) as [[[]|?|] ser']; [|done..]. by intros [= <-].
Qed.

Definition arena_ok (st : list Z) : Prop := length st = INTERNAL_BUFFER_SIZE ∧ Forall is_byte st.

Lemma packet_written p st ctx :
  packet_ok p → arena_ok st → buffer_size p + 2 ≤ INTERNAL_BUFFER_SIZE →
  ∃ b1 b, on_window (_ ← serialize_u16 (as_repr FwPacketFile) Big; FilePacket_serialize_to p) (from_storage st ctx) = Ret b1 ∧
    set_size (buffer_size p + 2) b1 = Ret b ∧ carries b p ∧ context b = ctx ∧ arena_ok (storage b).
Proof.
  intros Hp [Hl Hb] Hs. set (b0 := from_storage st ctx).
  assert (buffer_ok b0) as Hb0 by (split; [cbn; lia|done]).
  assert (window b0 = st) as Hw0 by (unfold window; cbn; by apply slice_0_full).
  set (img := be_bytes 2 (as_repr FwPacketFile) ++ image p).
  assert (length img = buffer_size p + 2) as Hli by (unfold img; rewrite length_app, length_be_bytes, (length_image p Hp); lia).
  assert (Forall is_byte img) as Hbi by (unfold img; apply Forall_app; auto using be_bytes_is_byte, image_bytes).
  assert (writes (_ ← serialize_u16 (as_repr FwPacketFile) Big; FilePacket_serialize_to p) img) as Hwr.
  { apply writes_bind; [apply (serialize_uint_ok 2 _ Big)|apply be_bytes_is_byte|by apply FilePacket_writes]. }
  pose proof (Hwr (ext_buf_new (window b0))) as E. rewrite Hw0 in E. cbn [ser_loc ext_buf_new] in E.
  specialize (E (wf_ext_new _ Hb)). unfold capacity in E. cbn [data ext_buf_new] in E. specialize (E ltac:(lia)).
  rewrite <- Hw0 in E at 1.
  assert (st ≠ []) as Hne by (intros ->; by cbn in Hl).
  assert (length (splice 0 img st) = length st) as Hls by (apply length_splice; lia).
  destruct (on_window_ok _ b0 _ Hb0 Hne ltac:(cbn; rewrite Hl; done) E Hls ltac:(by apply Forall_splice))
    as (b1 & E1 & Hok1 & Hw1 & Hs1 & Ho1 & _ & Hl1). cbn [appended data ext_buf_new ser_loc] in Hw1.
  exists b1. eexists. split; [exact E1|]. unfold set_size. cbn [b0 from_storage offset storage size] in *.
  rewrite bool_decide_eq_true_2 by (unfold Buffer_capacity; rewrite Ho1, Hl1; lia). cbn [fw_assert]. rewrite outcome_bind_ret. split; [done|].
  unfold set_window. rewrite Ho1. cbn [context storage]. split_and!; [|by apply on_window_context in E1|unfold arena_ok; rewrite Hl1; split; [done|apply Hok1]].
  split_and!; [|done|].
  - split; cbn; [|apply Hok1]. rewrite Hl1, Hl. lia.
  - unfold window in *. rewrite Ho1, Hs1 in Hw1. cbn [offset size storage] in *.
    rewrite slice_0_full in Hw1 by lia. rewrite Hw1. fold img. rewrite <- Hli. unfold slice, splice. rewrite drop_0, take_0, app_nil_l. by rewrite take_app_length.
Qed.

(** * The system underneath *)

Lemma next_event_nodes w : nodes (next_event w).2 = nodes w.
Proof. unfold next_event. by destruct (script w). Qed.

Lemma open_read_nodes p f st f' : file_open p OpenRead f = Ret (st, f') → nodes f'.2 = nodes f.2.
Proof.
  unfold file_open, open_with_overwrite. rewrite (bool_decide_eq_false_2 (OpenRead = OpenNoMode)) by done. cbn [negb fw_assert].
  rewrite outcome_bind_ret. destruct (is_open f); [by intros [= _ <-]|]. unfold std_open. pose proof (next_event_nodes f.2) as E.
  destruct (next_event f.2) as [[k|n|] w]; cbn [options_of opt_create_new opt_read opt_append opt_truncate opt_create orb] in *;
    [|destruct (names w !! p)..]; intros [= _ <-]; done.
Qed.
Lemma size_nodes f : nodes (file_size_of f).2.2 = nodes f.2.
Proof.
  unfold file_size_of, std_len. destruct (fd f.1); [|done]. pose proof (next_event_nodes f.2) as E.
  by destruct (next_event f.2) as [[k|n|] w].
Qed.
Lemma seek_nodes off t f st f' : file_seek off t f = Ret (st, f') → nodes f'.2 = nodes f.2.
Proof.
  unfold file_seek. destruct (bool_decide (t = Relative) || _); [|done]. cbn [fw_assert]. rewrite outcome_bind_ret. intros [= E].
  revert E. unfold seek_from. destruct (fd f.1) as [d|]; [|by intros [= _ <-]]. unfold std_seek. pose proof (next_event_nodes f.2) as En.
  destruct (next_event f.2) as [[k|n|] w]; repeat case_match; naive_solver.
Qed.

Lemma std_read_bytes n d w :
  world_bytes w → nodes (std_read n d w).2 = nodes w ∧ match (std_read n d w).1.1 with inr bs => Forall is_byte bs | inl _ => True end.
Proof.
  intros Hw. unfold std_read. pose proof (next_event_nodes w) as E. destruct (next_event w) as [e w'].
  pose proof (nodes_bytes _ _ E Hw) as Hw'. destruct e as [k|m|]; [done|..]; destruct (fd_read d); cbn; auto using Forall_slice.
Qed.

Lemma read_loop_nodes it req wt acc d w :
  world_bytes w → Forall is_byte acc →
  nodes (read_loop it req wt acc d w).2 = nodes w ∧ Forall is_byte (read_loop it req wt acc d w).1.1.2.
Proof.
  revert acc d w. induction it as [|it IH]; intros acc d w Hw Ha; cbn [read_loop]; [done|]. case_bool_decide; [|done].
  destruct (std_read_bytes (req - length acc) d w Hw) as [En Hb]. destruct (std_read _ d w) as [[[k|bs] d'] w']; cbn [fst snd] in *.
  - case_bool_decide; [|done]. rewrite <- En. apply IH; [by apply (nodes_bytes w)|done].
  - case_bool_decide; [done|]. assert (Forall is_byte (acc ++ bs)) by (by apply Forall_app). case_bool_decide; [done|].
    rewrite <- En. apply IH; [by apply (nodes_bytes w)|done].
Qed.

Lemma file_read_bytes n wt f :
  world_bytes f.2 → nodes (file_read n wt f).2.2 = nodes f.2 ∧ Forall is_byte (file_read n wt f).1.2.
Proof.
  intros Hw. unfold file_read. case_bool_decide; [done|]. case_bool_decide; [|done]. cbn [negb]. destruct (fd f.1) as [d|]; [|done].
  destruct (read_loop_nodes (2 * n) n wt [] d f.2 Hw (Forall_nil_2 _)) as [En Hb].
  by destruct (read_loop _ _ _ _ _ _) as [[[e bs] d'] w'].
Qed.

(** * The invariant *)

Definition name_ok (n : FwString) : Prop := string_ok n ∧ string_capacity n = FW_LOG_STRING_MAX_SIZE.
Definition entry_ok (e : FileEntry) : Prop :=
  string_ok (src_filename e) ∧ string_ok (dest_filename e) ∧ is_u 32 (entry_offset e) ∧ is_u 32 (entry_length e).
Definition dlfile_ok (f : DownlinkFile (F := FileW)) : Prop :=
  name_ok (source_name f) ∧ name_ok (dest_name f) ∧ is_u 32 (dl_size f) ∧ is_u 32 (value (dl_checksum f)) ∧
  world_bytes (sf_file (dl_os_file f)).2.

Lemma name_ok_new : name_ok (FwString_new FW_LOG_STRING_MAX_SIZE).
Proof. split; [apply string_new_ok|]. apply length_replicate. Qed.
Lemma name_ok_set n src : name_ok n → string_ok src → name_ok (set_bytes (as_bytes src) n).
Proof.
  intros [Hn Hc] (_ & Hb & _). destruct (set_bytes_spec (as_bytes src) n) as (? & E & _); [by apply Forall_take|done|]. split; [done|]. by rewrite E.
Qed.
Lemma name_path n : name_ok n → truncate_path (as_bytes n) = as_bytes n ∧ path_ok (as_bytes n) ∧ length (as_bytes n) ≤ FW_LOG_STRING_MAX_SIZE.
Proof.
  intros [Hn Hc]. pose proof (length_as_bytes n Hn) as Hl. destruct Hn as (Hle & Hb & _). rewrite Hc in Hle.
  unfold path_ok, truncate_path, PATH_NAME_MAX_LENGTH, FW_LOG_STRING_MAX_SIZE in *. rewrite Hl.
  rewrite bool_decide_eq_false_2 by lia. split_and!; [done|lia|by apply Forall_take|lia].
Qed.

Lemma update_u32 bs off c : (0 ≤ off)%Z → is_u 32 (value c) → is_u 32 (value (update bs off c)).
Proof.
  intros Ho Hc. rewrite (update_sum _ _ _ Ho (plus_valid _ Hc)). unfold plus, is_u, wrap. cbn [value]. apply Z.mod_pos_bound. lia.
Qed.

(** ** The component *)

Record base (cyc k : Z) (s : FileDownlink (F := FileW)) : Prop := {
  b_arenas : Forall arena_ok (free_storage s);
  b_queue : Forall entry_ok (file_queue s);
  b_depth : length (file_queue s) ≤ file_queue_depth s;
  b_file : dlfile_ok (dl_file s);
  b_cycle : cycle_time s = cyc;
  b_offset : is_u 32 (pr_offset (progress s));
  b_end : is_u 32 (pr_end (progress s));
  b_id : is_u 32 (last_buffer_id (progress s));
  b_files : (0 ≤ files_sent s ≤ k)%Z;
  b_packets : (0 ≤ packets_sent s ≤ k)%Z;
  b_warnings : (0 ≤ dl_warnings s ≤ k)%Z;
  b_timer : (0 ≤ pr_timer (progress s) ≤ k)%Z;
  b_sequence : (0 ≤ pr_sequence_index (progress s) ≤ k)%Z;
}.

Ltac base_tac :=
  match goal with Hb : base _ _ ?s |- base _ _ _ => destruct Hb; split; cbn [enter_cooldown close_source dl_set_mode dl_set_queue dl_set_cntx
    dl_set_entry dl_set_file dl_set_progress dl_set_storage dl_set_counts set_dl_os_file with_timer with_type with_end with_sequence with_offset
    with_buffer get_buffer free_storage file_queue file_queue_depth dl_file cycle_time progress last_buffer_id pr_offset pr_end files_sent packets_sent dl_warnings
    pr_timer pr_sequence_index]; try done; try lia end.

Section runs.
Context `{BuildProfile} (cwd : option FwString).
Local Notation D := (FileDownlink (F := FileW)).
Local Notation DlM := (CompM D DlOut).

(** ** The file *)

Lemma sf_open_bytes path (sf : SandboxedFile (F := FileW)) :
  ∃ st sf', sf_open cwd path OpenRead sf = Ret (st, sf') ∧ nodes (sf_file sf').2 = nodes (sf_file sf).2.
Proof.
  unfold sf_open. destruct (configured sf); cbn [negb]; [|eauto].
  pose proof (resolve_from_cwd_ok cwd path) as Hr.
  assert (∃ st r, resolve_from_cwd cwd path FileNameString_new = Ret (st, r)) as (st & r & ->) by (destruct (components cwd path); naive_solver).
  rewrite outcome_bind_ret. destruct (negb _); [eauto|]. destruct (as_str r) as [r'|]; [|eauto]. destruct (as_str _) as [a|]; [|eauto].
  destruct (check_containment_ret r' a) as [st' ->]. rewrite outcome_bind_ret. destruct (negb _); [eauto|].
  destruct (os_open_ret r' OpenRead (sf_file sf) ltac:(done)) as (st2 & f' & E). rewrite E, outcome_bind_ret. eexists _, _. split; [done|].
  by apply open_read_nodes in E.
Qed.

Lemma dlfile_open_ok source dest f :
  dlfile_ok f → string_ok source → string_ok dest → ∃ st f', dlfile_open cwd source dest f = Ret (st, f') ∧ dlfile_ok f'.
Proof.
  intros (Hs & Hd & Hz & _ & Hw) Hsrc Hdst. unfold dlfile_open.
  pose proof (name_ok_set _ _ Hs Hsrc) as Hs'. pose proof (name_ok_set _ _ Hd Hdst) as Hd'.
  assert (∀ sf, nodes (sf_file sf).2 = nodes (sf_file (dl_os_file f)).2 →
    dlfile_ok (MkDlFile (set_bytes (as_bytes source) (source_name f)) (set_bytes (as_bytes dest) (dest_name f)) (dl_size f) sf Checksum_new)) as Hok.
  { intros sf E. split_and!; cbn; try done. by apply (nodes_bytes _ _ E). }
  destruct (as_str source) as [path|]; [|by eauto]. cbn [dl_os_file]. destruct (sf_open_bytes path (dl_os_file f)) as (st & sf & -> & E).
  rewrite outcome_bind_ret. cbn [set_dl_os_file source_name dest_name dl_size dl_os_file dl_checksum]. destruct (negb _); [by eauto|].
  unfold sf_size. cbn [os_size FileW_file]. pose proof (size_nodes (sf_file sf)) as En.
  destruct (file_size_of (sf_file sf)) as [[st2 n] f2]. cbn [fst snd] in En.
  assert (nodes (sf_file (set_file f2 sf)).2 = nodes (sf_file (dl_os_file f)).2) as E2 by (cbn; congruence).
  destruct (negb _); [eexists _, _; split; [done|]; by apply Hok|].
  destruct (Z.ltb_spec 4294967295 (Z.of_nat (default 0 n))) as [|Hle]; [eexists _, _; split; [done|]; by apply Hok|].
  eexists _, _. split; [done|]. destruct (Hok _ E2) as (? & ? & _ & ? & ?). split_and!; cbn in *; try done. unfold is_u. lia.
Qed.

Lemma dlfile_read_ok n off f :
  dlfile_ok f → (0 ≤ off)%Z →
  ∃ st bs f', dlfile_read n off f = Ret (st, bs, f') ∧ dlfile_ok f' ∧ (st = FsOpOk → length bs = n ∧ Forall is_byte bs).
Proof.
  intros (Hs & Hd & Hz & Hc & Hw) Ho. unfold dlfile_read, sf_seek. cbn [os_seek FileW_file].
  destruct (os_seek_ret off Absolute (sf_file (dl_os_file f)) Ho) as (st & f1 & E). cbn [os_seek FileW_file] in E. rewrite E, outcome_bind_ret.
  apply seek_nodes in E. assert (world_bytes f1.2) as Hw1 by (by apply (nodes_bytes _ _ E)).
  rewrite outcome_bind_ret. cbn [set_dl_os_file set_file dl_os_file sf_file]. destruct (negb _) eqn:Est; [|clear Est].
  { eexists _, _, _. split; [done|]. split; [by split_and!|]. intros ->. done. }
  unfold sf_read. cbn [os_read FileW_file set_dl_os_file set_file dl_os_file sf_file].
  destruct (file_read_bytes n Wait f1 Hw1) as [En Hb]. destruct (file_read n Wait f1) as [[st2 bs] f2]. cbn [fst snd] in *.
  assert (world_bytes f2.2) as Hw2 by (by apply (nodes_bytes _ _ En)).
  cbn [set_dl_os_file set_file dl_os_file sf_file source_name dest_name dl_size dl_checksum]. destruct (negb _) eqn:Est.
  { eexists _, _, _. split; [done|]. split; [by split_and!|]. intros ->. done. }
  clear Est. case_bool_decide as Hl; cbn [negb].
  - eexists _, _, _. split; [done|]. split; [|done]. split_and!; cbn; try done. by apply update_u32.
  - eexists _, _, _. split; [done|]. split; [by split_and!|done].
Qed.

(** The packets handed out and the answers given. *)
Definition sent (o : list DlOut) : list Buffer := omap (λ x, match x with DlSend b => Some b | _ => None end) o.
Definition is_answer (x : DlOut) : bool := match x with DlComplete _ | DlCmdResponse _ _ _ => true | _ => false end.
Definition responses (o : list DlOut) : list DlOut := filter is_answer o.

Lemma sent_app o o' : sent (o ++ o') = sent o ++ sent o'.
Proof. apply omap_app. Qed.
Lemma responses_app o o' : responses (o ++ o') = responses o ++ responses o'.
Proof. apply filter_app. Qed.

(** The answer a request gets. *)
Definition answer (e : FileEntry) : DlOut :=
  match entry_source e with
  | FromCommand => DlCmdResponse (entry_op_code e) (entry_cmd_seq e) CmdOk
  | FromPort => DlComplete (MkResponse StatusOk (entry_context e))
  end.

Lemma answer_only e : sent [answer e] = [] ∧ responses [answer e] = [answer e].
Proof. unfold answer. by destruct (entry_source e). Qed.
Lemma answered_after e o : sent o = [] → responses o = [] → sent (o ++ [answer e]) = [] ∧ responses (o ++ [answer e]) = [answer e].
Proof. intros Es Er. rewrite sent_app, responses_app, Es, Er. apply answer_only. Qed.

Definition resting (m : Mode) : Prop := m = DlIdle ∨ m = DlCooldown.

(** [b] is the packet in flight. *)
Definition flying (s : D) (b : Buffer) : Prop :=
  last_buffer_id (progress s) = wrap 32 (context b + 1) ∧ arena_ok (storage b) ∧ last_completed_type (progress s) ≠ FptNone ∧
  (last_completed_type (progress s) ≠ FptCancel → last_buffer_id (progress s) = wrap 32 (cur_context (progress s) + 1)).

(** The transfer of [e] goes on with one more packet, or is over. *)
Definition continues (e : FileEntry) (s' : D) (o : list DlOut) : Prop :=
  (resting (dl_mode s') ∧ sent o = [] ∧ responses o = [answer e]) ∨
  (dl_mode s' = DlWait ∧ cur_entry s' = e ∧ responses o = [] ∧ ∃ b, sent o = [b] ∧ flying s' b).

Lemma continues_app e s' o o' : sent o = [] → responses o = [] → continues e s' o' → continues e s' (o ++ o').
Proof. intros E1 E2 Hc. unfold continues. by rewrite sent_app, responses_app, E1, E2. Qed.

Lemma add_32 a b : (0 ≤ a + b < 2 ^ 32)%Z → add_w 32 a b = Ret (a + b)%Z.
Proof. intros Hab. by apply overflowing_in. Qed.

Lemma dl_warning_wp s (Q : unit → D → list DlOut → Prop) :
  (0 ≤ dl_warnings s + 1 < 2 ^ 32)%Z →
  Q tt (dl_set_counts (files_sent s) (packets_sent s) (dl_warnings s + 1) s) [DlTlm DL_CHANID_WARNINGS (dl_warnings s + 1)] → wp dl_warning s Q.
Proof. intros Hw HQ. unfold dl_warning. wp_steps. eapply wp_lift; [by apply add_32|]. by wp_steps. Qed.

Lemma named_warning_wp e s (Q : unit → D → list DlOut → Prop) :
  (0 ≤ dl_warnings s + 1 < 2 ^ 32)%Z →
  Q tt (dl_set_counts (files_sent s) (packets_sent s) (dl_warnings s + 1) s) [DlLog (e s); DlTlm DL_CHANID_WARNINGS (dl_warnings s + 1)] →
  wp (_ ← dl_log e; dl_warning) s Q.
Proof. intros Hw HQ. unfold dl_log. wp_steps. by apply dl_warning_wp. Qed.

Lemma send_response_wp s (Q : unit → D → list DlOut → Prop) : Q tt s [answer (cur_entry s)] → wp (send_response true true StatusOk) s Q.
Proof. intros HQ. unfold send_response. wp_steps. unfold answer in HQ. by destruct (entry_source (cur_entry s)). Qed.

Lemma send_file_packet_wp p ctx s (Q : unit → D → list DlOut → Prop) :
  Forall arena_ok (free_storage s) → packet_ok p → buffer_size p + 2 ≤ INTERNAL_BUFFER_SIZE → (0 ≤ packets_sent s + 1 < 2 ^ 32)%Z →
  (∀ b st, carries b p → context b = ctx → arena_ok (storage b) → Forall arena_ok st →
     Q tt (dl_set_counts (files_sent s) (packets_sent s + 1) (dl_warnings s) (dl_set_storage st s))
       [DlSend b; DlTlm CHANID_PACKETS_SENT (packets_sent s + 1)]) →
  wp (send_file_packet p ctx) s Q.
Proof.
  intros Ha Hp Hs Hk HQ. unfold send_file_packet. apply wp_bind.
  assert (∃ st sts, arena_ok st ∧ Forall arena_ok sts ∧ pop_storage s = Ret (st, dl_set_storage sts s, [])) as (st & sts & Hst & Hsts & E).
  { unfold pop_storage. rewrite (comp_bind_quiet get_state _ s s s eq_refl). destruct (list.last (free_storage s)) as [st|] eqn:El.
    - exists st. eexists. split_and!; [|by apply Forall_take|done]. rewrite Forall_forall in Ha. by apply Ha, last_Some_elem_of.
    - exists new_storage, (free_storage s). split_and!; [|done|by destruct s]. split; [done|]. by apply Forall_replicate. }
  unfold wp at 1. rewrite E. cbv beta.
  destruct (packet_written p st ctx Hp Hst Hs) as (b1 & b & E1 & E2 & Hc & Hctx & Hb).
  eapply wp_assert; [apply bool_decide_eq_true_2; by rewrite (proj1 Hst)|]. eapply wp_lift; [done|]. eapply wp_lift; [done|].
  wp_steps. eapply wp_lift; [by apply add_32|]. wp_steps. by apply HQ.
Qed.

(** ** Transfers *)

Definition proceeds (cyc k : Z) (s s' : D) (o : list DlOut) : Prop :=
  base cyc (k + 4) s' ∧ file_queue s' = file_queue s ∧ continues (cur_entry s) s' o.

Lemma dlfile_ok_close f : dlfile_ok f → dlfile_ok (set_dl_os_file (sf_close (dl_os_file f)) f).
Proof. intros (? & ? & ? & ? & ?). by split_and!. Qed.

Lemma base_cooldown cyc k s : base cyc k s → (0 ≤ k)%Z → base cyc k (enter_cooldown s).
Proof. intros Hb Hk. base_tac. Qed.

Lemma start_packet_ok f :
  dlfile_ok f → packet_ok (PStart (StartPacket_initialize (dl_size f) (as_bytes (source_name f)) (as_bytes (dest_name f)))) ∧
  buffer_size (PStart (StartPacket_initialize (dl_size f) (as_bytes (source_name f)) (as_bytes (dest_name f)))) + 2 ≤ INTERNAL_BUFFER_SIZE.
Proof.
  intros (Hs & Hd & Hz & _ & _). destruct (name_path _ Hs) as (E1 & Hp1 & Hl1), (name_path _ Hd) as (E2 & Hp2 & Hl2).
  unfold StartPacket_initialize. rewrite E1, E2. split; [by split_and!|]. cbn [buffer_size source_path destination_path].
  unfold INTERNAL_BUFFER_SIZE, FW_COM_BUFFER_MAX_SIZE, HEADER_SIZE, FW_LOG_STRING_MAX_SIZE in *. lia.
Qed.

Lemma send_file_wp cyc k e s :
  base cyc k s → entry_ok e → cur_entry s = e → (0 ≤ k)%Z → (k + 4 < 2 ^ 32)%Z →
  wp (send_file cwd true true (src_filename e) (dest_filename e) (entry_offset e) (entry_length e)) s (λ _ s' o, proceeds cyc k s s' o).
Proof.
  intros Hb (Hs & Hd & Ho & Hl) He Hk0 Hk. unfold send_file. wp_steps.
  destruct (dlfile_open_ok _ _ _ (b_file _ _ _ Hb) Hs Hd) as (st & f & E & Hf). eapply wp_lift; [exact E|]. cbv beta iota. wp_steps.
  set (s1 := dl_set_file f s).
  destruct (negb (bool_decide (st = FsOpOk))).
  { wp_steps. apply wp_bind. assert (wp (if bool_decide (st = FsOutsideSandbox) then warning_source_out_of_sandbox else warning_file_open_error)
      (dl_set_mode DlIdle s1) (λ _ s' o, base cyc (k + 4) s' ∧ file_queue s' = file_queue s ∧ dl_mode s' = DlIdle ∧ cur_entry s' = e ∧ sent o = [] ∧ responses o = [])) as Hw.
    { assert (base cyc (k + 4) (dl_set_counts (files_sent s) (packets_sent s) (dl_warnings s + 1) (dl_set_mode DlIdle s1))) by (unfold s1; base_tac).
      destruct (bool_decide _); (apply named_warning_wp; [cbn; destruct Hb; lia|done]). }
    eapply wp_mono; [exact Hw|]. intros [] s' o (? & ? & Hm & Ee & Es & Er). apply send_response_wp. split_and!; [done|done|]. left. rewrite Ee, He.
    split; [by left|]. by apply answered_after. }
  destruct (Z.eqb_spec (dl_size f) 0) as [Hz|Hz].
  { wp_steps. apply wp_bind. apply named_warning_wp; [cbn; destruct Hb; lia|].
    apply send_response_wp. split_and!; [unfold s1; base_tac|done|]. left. split; [by left|]. by apply (answered_after (cur_entry s) [_; _]). }
  destruct (Z.leb_spec (dl_size f) (entry_offset e)) as [Hoff|Hoff].
  { wp_steps. unfold dl_log. wp_steps. apply send_response_wp. split_and!; [|done|left; split; [by right|by apply (answered_after (cur_entry s) [_])]].
    apply base_cooldown; [unfold s1; base_tac|lia]. }
  set (too_long := (dl_size f - entry_offset e <? entry_length e)%Z).
  set (length := if too_long then (dl_size f - entry_offset e)%Z else entry_length e).
  assert (0 ≤ length ≤ dl_size f - entry_offset e)%Z as Hlen.
  { unfold length, too_long, is_u in *. destruct (Z.ltb_spec (dl_size f - entry_offset e) (entry_length e)); lia. }
  clearbody length. apply wp_bind.
  eapply wp_mono with (Q := λ _ s' o, s' = s1 ∧ sent o = [] ∧ responses o = []); [by destruct too_long; unfold when, dl_log; wp_steps|].
  intros [] ? o0 (-> & Es0 & Er0). wp_steps. apply wp_bind. unfold send_start_packet. wp_steps.
  destruct (start_packet_ok f Hf) as [Hpk Hsz].
  apply send_file_packet_wp; [by destruct Hb|done|done|cbn; destruct Hb; lia|].
  intros b sts Hc Hctx Har Hsts. wp_steps.
  assert (is_u 32 (dl_size f)) as Hdl by apply Hf.
  assert (∀ e', is_u 32 e' → proceeds cyc k s (dl_set_progress (with_end e' (with_type FptStart (with_offset (entry_offset e) (with_timer 0 (with_sequence 1 (progress (get_buffer s1))))))) 
     (dl_set_mode DlWait (dl_set_counts (files_sent s) (packets_sent s + 1) (dl_warnings s) (dl_set_storage sts (get_buffer s1)))))
     [DlSend b]) as Hp.
  { intros e' He'. split_and!; [unfold s1; base_tac; cbn; unfold is_u, wrap; apply Z.mod_pos_bound; lia|done|]. right. split_and!; [done|done|done|].
    exists b. split; [done|]. split_and!; [cbn; by rewrite Hctx|done|done|done]. }
  assert (∀ o s', proceeds cyc k s s' [DlSend b] → sent o = [b] → responses o = [] → proceeds cyc k s s' (o0 ++ o)) as Hq.
  { intros o s' (? & ? & Hc') Eo Er. split_and!; [done|done|]. apply continues_app; [done|done|]. destruct Hc' as [(_ & ? & _)|Hc']; [done|]. right.
    by rewrite Eo, Er. }
  destruct (0 <? length)%Z.
  - unfold dl_log. wp_steps. eapply wp_lift; [apply add_32; unfold is_u in *; lia|]. wp_steps. apply Hq; [|done|done]. apply Hp. unfold is_u in *. lia.
  - unfold dl_log. wp_steps. apply Hq; [|done|done]. by apply Hp.
Qed.

Lemma data_packet_ok i off bs :
  is_u 32 i → is_u 32 off → length bs ≤ MAX_DATA_SIZE → Forall is_byte bs →
  let p := PData (DataPacket_initialize i off (wrap 16 (Z.of_nat (length bs))) bs) in
  p = PData (MkData (MkHeader FptData i) off (Z.of_nat (length bs)) bs) ∧ packet_ok p ∧ buffer_size p + 2 ≤ INTERNAL_BUFFER_SIZE.
Proof.
  intros Hi Ho Hl Hb. cbv zeta.
  assert (length bs ≤ 499) as Hl' by exact Hl.
  assert (is_u 16 (Z.of_nat (length bs))) as Hu by (unfold is_u; lia).
  rewrite wrap_small, block_packet_fields by (done || lia). split; [done|]. split; [by split_and!|].
  cbn [buffer_size data_size]. unfold DATA_PACKET_HEADER_SIZE, HEADER_SIZE, INTERNAL_BUFFER_SIZE, FW_COM_BUFFER_MAX_SIZE. lia.
Qed.

(** What [send_data_packet] leaves alone. *)
Definition kept (s s' : D) : Prop :=
  dl_mode s' = dl_mode s ∧ file_queue s' = file_queue s ∧ cur_entry s' = cur_entry s ∧
  last_buffer_id (progress s') = last_buffer_id (progress s) ∧ cur_context (progress s') = cur_context (progress s).

Lemma with_same_type (s : D) : dl_set_progress (with_type (last_completed_type (progress s)) (progress s)) s = s.
Proof. by destruct s as [????????? [] ????]. Qed.

Lemma send_data_wp cyc k s :
  base cyc k s → (0 ≤ k)%Z → (k + 4 < 2 ^ 32)%Z → last_completed_type (progress s) = FptStart →
  wp send_data_packet s (λ st s' o, base cyc (k + 1) s' ∧ kept s s' ∧ responses o = [] ∧
    (last_completed_type (progress s') = FptStart ∨ last_completed_type (progress s') = FptData) ∧
    if bool_decide (st = FsOpOk) then ∃ b, sent o = [b] ∧ context b = cur_context (progress s) ∧ arena_ok (storage b) else sent o = []).
Proof.
  intros Hb Hk0 Hk Ht. unfold send_data_packet. wp_steps. set (p := progress s).
  destruct (Z.leb_spec (pr_end p) (pr_offset p)) as [Hle|Hlt].
  { apply wp_ret. split_and!; [base_tac|done|done|by left|done]. }
  set (n := Z.to_nat (pr_end p - pr_offset p) `min` MAX_DATA_SIZE).
  pose proof (b_offset _ _ _ Hb) as Ho. pose proof (b_end _ _ _ Hb) as He. fold p in Ho, He.
  assert (is_u 32 (pr_offset p + Z.of_nat n)) as Hn by (unfold is_u, n in *; lia).
  eapply wp_lift; [apply add_32; unfold is_u in *; lia|]. cbv beta. apply wp_bind.
  set (t := if (Z.of_nat n + pr_offset p =? pr_end p)%Z then FptData else FptStart).
  eapply wp_mono with (Q := λ _ s' o, s' = dl_set_progress (with_type t p) s ∧ o = []).
  { unfold t. destruct (_ =? _)%Z; cbn [when]; unfold wp, modify_state; cbn; [done|]. split; [|done]. rewrite <- Ht. symmetry. apply with_same_type. }
  intros [] ? ? [-> ->]. set (s1 := dl_set_progress (with_type t p) s). wp_steps.
  destruct (dlfile_read_ok n (pr_offset p) (dl_file s) (b_file _ _ _ Hb) ltac:(apply Ho)) as (st & bs & f & E & Hf & Hbs).
  eapply wp_lift; [exact E|]. cbv beta iota. wp_steps.
  assert (t = FptStart ∨ t = FptData) as Htt by (unfold t; destruct (_ =? _)%Z; auto).
  case_bool_decide as Hst; cbn [negb].
  2: { wp_steps. apply wp_bind. apply named_warning_wp; [cbn; destruct Hb; lia|]. apply wp_ret. rewrite bool_decide_eq_false_2 by done.
       split_and!; [unfold s1, p; base_tac|done|done|done|done]. }
  destruct (Hbs Hst) as [Hl Hby]. wp_steps. eapply wp_lift; [apply add_32; unfold s1, p; cbn; destruct Hb; lia|]. cbv beta. wp_steps. apply wp_bind.
  destruct (data_packet_ok (pr_sequence_index p) (pr_offset p) bs) as (Ep & Hpk & Hsz);
    [unfold is_u; destruct Hb; unfold p; lia|done|unfold n in Hl; lia|done|].
  cbn [s1 dl_set_file dl_set_progress progress with_type pr_sequence_index cur_context]. rewrite Hl in Hpk, Hsz.
  apply send_file_packet_wp; [by destruct Hb|exact Hpk|exact Hsz|cbn; destruct Hb; lia|].
  intros b sts Hc Hctx Har Hsts. wp_steps. eapply wp_lift; [apply add_32; cbn; unfold is_u in *; lia|]. cbv beta. wp_steps.
  rewrite (bool_decide_eq_true_2 (FsOpOk = FsOpOk)) by done. split_and!; [unfold s1, p; base_tac|done|done|done|]. by exists b.
Qed.

Lemma downlink_packet_wp cyc k s :
  base cyc k s → (0 ≤ k)%Z → (k + 4 < 2 ^ 32)%Z → last_completed_type (progress s) ≠ FptNone →
  (dl_mode s = DlCancel ∨ dl_mode s = DlDownlink) →
  (last_completed_type (progress s) = FptStart ∨ last_completed_type (progress s) = FptData) →
  last_buffer_id (progress s) = wrap 32 (cur_context (progress s) + 1) →
  wp (downlink_packet true true) s (λ _ s' o, proceeds cyc k s s' o).
Proof.
  intros Hb Hk0 Hk Ht Hm Ht' Hid. unfold downlink_packet. wp_steps. eapply wp_assert; [by rewrite bool_decide_eq_false_2|].
  eapply wp_assert; [by destruct Hm as [-> | ->]|]. destruct Ht' as [Et|Et]; rewrite Et.
  - destruct Hm as [Hm|Hm]; rewrite Hm.
    + rewrite (bool_decide_eq_true_2 (DlCancel = DlCancel)), (bool_decide_eq_true_2 (FptStart = FptStart)) by done. cbn [andb].
      apply wp_bind. unfold send_cancel_packet. wp_steps.
      apply send_file_packet_wp; [by destruct Hb|split; [done|unfold is_u; destruct Hb; cbn; lia]|cbn; unfold INTERNAL_BUFFER_SIZE, FW_COM_BUFFER_MAX_SIZE; lia|cbn; destruct Hb; lia|].
      intros b sts Hc Hctx Har Hsts. wp_steps. split_and!; [base_tac; cbn; unfold is_u, wrap; apply Z.mod_pos_bound; lia|done|]. right. split_and!; [done|done|done|].
      exists b. split; [done|]. split_and!; [cbn; by rewrite Hctx|done|done|done].
    + rewrite (bool_decide_eq_false_2 (DlDownlink = DlCancel)), (bool_decide_eq_true_2 (DlDownlink = DlDownlink)), (bool_decide_eq_true_2 (FptStart = FptStart)) by done. cbn [andb].
      apply wp_bind. eapply wp_mono; [by apply (send_data_wp cyc k)|]. intros st s' o (Hb' & (K1 & K2 & K3 & K4 & K5) & Er & Ht2 & Ho).
      destruct (bool_decide (st = FsOpOk)); cbn [negb].
      * destruct Ho as (b & Es & Hctx & Har). wp_steps. rewrite app_nil_r. split_and!; [base_tac|done|]. right. cbn [dl_mode dl_set_mode dl_set_progress cur_entry progress with_timer].
        split_and!; [done|done|done|]. exists b. split; [done|]. split_and!; [cbn; by rewrite K4, Hctx, Hid|done|cbn; destruct Ht2 as [-> | ->]; done|cbn; intros _; by rewrite K4, K5].
      * unfold dl_log. wp_steps. apply send_response_wp. split_and!; [|done|].
        -- apply base_cooldown; [base_tac|lia].
        -- left. split; [by right|]. change (cur_entry (enter_cooldown s')) with (cur_entry s'). rewrite K3.
           rewrite (app_assoc o [_]). apply answered_after; [by rewrite sent_app, Ho|by rewrite responses_app, Er].
  - rewrite (bool_decide_eq_false_2 (FptData = FptStart)), (bool_decide_eq_true_2 (FptData = FptData)), !andb_false_r by done.
    apply wp_bind. unfold send_end_packet. wp_steps.
    apply send_file_packet_wp; [by destruct Hb|split; [split; [done|unfold is_u; destruct Hb; cbn; lia]|destruct Hb as [_ _ _ (_ & _ & _ & ? & _)]; done]
      |cbn; unfold INTERNAL_BUFFER_SIZE, FW_COM_BUFFER_MAX_SIZE; lia|cbn; destruct Hb; lia|].
    intros b sts Hc Hctx Har Hsts. wp_steps. split_and!; [base_tac|done|]. right. split_and!; [done|done|done|].
    exists b. split; [done|]. split_and!; [cbn; by rewrite Hctx|done|done|done].
Qed.

Lemma finish_wp cyc k cancel s :
  base cyc k s → (0 ≤ k)%Z → (k + 4 < 2 ^ 32)%Z → wp (finish_helper true true cancel) s (λ _ s' o, proceeds cyc k s s' o).
Proof.
  intros Hb Hk0 Hk. unfold finish_helper, dl_log. destruct cancel; wp_steps.
  - apply send_response_wp. split_and!; [apply base_cooldown; [base_tac|lia]|done|]. left. split; [by right|]. by apply (answered_after (cur_entry s) [_]).
  - eapply wp_lift; [apply add_32; destruct Hb; lia|]. wp_steps. apply send_response_wp.
    split_and!; [apply base_cooldown; [base_tac|lia]|done|]. left. split; [by right|]. by apply (answered_after (cur_entry s) [_; _]).
Qed.

Lemma base_push cyc k st s : base cyc k s → arena_ok st → base cyc k (push_storage st s).
Proof.
  intros Hb Hst. unfold push_storage. destruct (bool_decide _ && bool_decide _); [|done]. base_tac. apply Forall_app. split; [done|by apply Forall_singleton].
Qed.

(** The packet in flight comes back. *)
Lemma return_wp cyc k b s :
  base cyc k s → (0 ≤ k)%Z → (k + 4 < 2 ^ 32)%Z → (dl_mode s = DlWait ∨ dl_mode s = DlCancel) → flying s b →
  wp (buffer_return_handler true true b) s (λ _ s' o, proceeds cyc k s s' o).
Proof.
  intros Hb Hk0 Hk Hm (Hid & Har & Ht & Hcur). unfold buffer_return_handler. wp_steps.
  pose proof (base_push _ _ _ _ Hb Har) as Hb1. set (s1 := push_storage (storage b) s) in *.
  assert (dl_mode s1 = dl_mode s ∧ progress s1 = progress s ∧ file_queue s1 = file_queue s ∧ cur_entry s1 = cur_entry s) as (Em & Ep & Eq & Ee).
  { unfold s1, push_storage. by destruct (bool_decide _ && bool_decide _). }
  assert (∀ s' o, proceeds cyc k s1 s' o → proceeds cyc k s s' o) as Hpr by (intros s' o; unfold proceeds; by rewrite Eq, Ee).
  rewrite Em, Ep. rewrite <- Hid, Z.eqb_refl. rewrite bool_decide_eq_false_2 by (destruct Hm as [-> | ->]; done). cbn [negb orb].
  eapply wp_assert; [by destruct Hm as [-> | ->]|].
  case_bool_decide as He; cbn [orb]; [eapply wp_mono; [by apply (finish_wp cyc k)|auto]|].
  case_bool_decide as Hc; cbn [orb]; [eapply wp_mono; [by apply (finish_wp cyc k)|auto]|].
  specialize (Hcur Hc). assert (last_completed_type (progress s) = FptStart ∨ last_completed_type (progress s) = FptData) as Ht2
    by (destruct (last_completed_type (progress s)); auto; done).
  destruct Hm as [Hm|Hm]; rewrite Hm; cbn [when].
  - rewrite (bool_decide_eq_true_2 (DlWait = DlWait)) by done. cbn [when]. wp_steps. eapply wp_mono; [apply (downlink_packet_wp cyc k); try done|].
    + base_tac.
    + cbn. by rewrite Ep.
    + by right.
    + cbn. by rewrite Ep.
    + cbn. by rewrite Ep.
    + intros [] s' o Hp. by apply Hpr.
  - rewrite (bool_decide_eq_false_2 (DlCancel = DlWait)) by done. cbn [when]. apply wp_bind, wp_ret.
    eapply wp_mono; [apply (downlink_packet_wp cyc k); try done; rewrite ?Ep; auto|]. { left. congruence. }
    intros [] s' o Hp. by apply Hpr.
Qed.

(** ** Requests and commands *)

(** A request was taken or refused: the transfer is as before, except that a
    cancellation may have been noted ([c]). *)
Definition quietly (cyc k : Z) (c : bool) (s s' : D) (o : list DlOut) : Prop :=
  base cyc k s' ∧ sent o = [] ∧ progress s' = progress s ∧ cur_entry s' = cur_entry s ∧ dl_file s' = dl_file s ∧
  (dl_mode s' = dl_mode s ∨ c = true ∧ dl_mode s = DlWait ∧ dl_mode s' = DlCancel) ∧ ∃ es, file_queue s' = file_queue s ++ es.

Lemma quietly_refl cyc k c s o : base cyc k s → sent o = [] → quietly cyc k c s s o.
Proof. intros Hb Ho. split_and!; [done..|by left|]. exists []. by rewrite app_nil_r. Qed.

Lemma enqueue_wp cyc k c e s (Q : bool → D → list DlOut → Prop) :
  base cyc k s → entry_ok e → (∀ b s', quietly cyc k c s s' [] → Q b s' []) → wp (enqueue e) s Q.
Proof.
  intros Hb He HQ. unfold enqueue. wp_steps. case_bool_decide as Hd; wp_steps; apply HQ.
  - by apply quietly_refl.
  - split_and!; [|done..|by left|by exists [e]]. base_tac; [apply Forall_app; split; [done|by apply Forall_singleton]|rewrite length_app; cbn; lia].
Qed.

Lemma entry_names_ok src dst off len so op seq ctx :
  string_ok src → string_ok dst → is_u 32 off → is_u 32 len →
  entry_ok (MkEntry (set_bytes (as_bytes src) FileNameString_new) (set_bytes (as_bytes dst) FileNameString_new) off len so op seq ctx).
Proof.
  intros (_ & Hs & _) (_ & Hd & _) Ho Hl.
  split_and!; [apply set_bytes_spec; [by apply Forall_take|apply string_new_ok]..|done|done].
Qed.

Lemma cmd_response_wp cyc k c op seq r s : base cyc k s → wp (cmd_response true op seq r) s (λ _ s' o, quietly cyc k c s s' o).
Proof. intros Hb. unfold cmd_response. eapply wp_assert; [done|]. wp_steps. by apply quietly_refl. Qed.

Lemma quietly_app cyc k c s s1 s2 o1 o2 : quietly cyc k c s s1 o1 → quietly cyc k c s1 s2 o2 → quietly cyc k c s s2 (o1 ++ o2).
Proof.
  intros (_ & S1 & P1 & C1 & F1 & M1 & es1 & Q1) (B2 & S2 & P2 & C2 & F2 & M2 & es2 & Q2). split_and!; [done|by rewrite sent_app, S1, S2|congruence|congruence|congruence| |].
  - destruct M1 as [M1|(? & M1 & M1')], M2 as [M2|(? & M2 & M2')]; rewrite ?M1, ?M1' in *; try done; auto.
  - exists (es1 ++ es2). by rewrite Q2, Q1, app_assoc.
Qed.

Lemma queue_command_wp cyc k c op seq src dst off len s :
  base cyc k s → string_ok src → string_ok dst → is_u 32 off → is_u 32 len →
  wp (queue_command_request true op seq src dst off len) s (λ _ s' o, quietly cyc k c s s' o).
Proof.
  intros Hb Hs Hd Ho Hl. unfold queue_command_request.
  case_bool_decide; [wp_steps; eapply wp_mono; [by apply cmd_response_wp|]; intros [] s' o Hq; by apply (quietly_app _ _ _ _ s _ [_]); [apply quietly_refl|]|].
  case_bool_decide; [wp_steps; eapply wp_mono; [by apply cmd_response_wp|]; intros [] s' o Hq; by apply (quietly_app _ _ _ _ s _ [_]); [apply quietly_refl|]|].
  apply wp_bind. eapply enqueue_wp; [done|by apply entry_names_ok|]. intros [] s' Hq; [by apply wp_ret|].
  eapply wp_mono; [apply cmd_response_wp; apply Hq|]. intros [] s2 o Hq2. by apply (quietly_app _ _ _ _ s').
Qed.

Lemma parse_wp {A B} (m : SerM A) (P : A → Prop) args (f : option A → DlM B) s (Q : B → D → list DlOut → Prop) :
  yields m P → wf args → wp (f None) s Q → (∀ a, P a → wp (f (Some a)) s Q) → wp (lift (dl_parse_args m args) ≫= f) s Q.
Proof.
  intros Hm Hw HN HS.
  assert (yields (a ← m; n ← deserialize_size_left; mret (a, n)) (λ r, P r.1)) as Hy.
  { eapply yields_bind; [exact Hm|]. intros a Ha. eapply yields_bind; [apply yields_size_left|]. intros n _. by apply yields_ret. }
  specialize (Hy args Hw). unfold dl_parse_args. destruct ((a ← m; n ← deserialize_size_left; mret (a, n)) args) as [[[a n]|?|] b']; [|by eapply wp_lift|done].
  eapply wp_lift; [done|]. case_bool_decide; [|done]. apply HS, Hy.
Qed.

Lemma yields_names : yields read_names (λ r, string_ok r.1 ∧ string_ok r.2).
Proof.
  unfold read_names. eapply yields_bind; [apply string_deserialize_yields, string_new_ok|]. intros src [Hs _].
  eapply yields_bind; [apply string_deserialize_yields, string_new_ok|]. intros dst [Hd _]. by apply yields_ret.
Qed.

Lemma command_wp cyc k id op seq args s :
  base cyc k s → dl_mode s ≠ DlDownlink → wf args → wp (dl_command true id op seq args) s (λ _ s' o, quietly cyc k (wrap 32 (op - id) =? OPCODE_CANCEL)%Z s s' o).
Proof.
  intros Hb Hm Hw. unfold dl_command. cbv zeta. destruct (_ =? OPCODE_SEND_FILE)%Z; [|destruct (_ =? OPCODE_CANCEL)%Z; [|destruct (_ =? OPCODE_SEND_PARTIAL)%Z]].
  - unfold send_file_cmd_handler. eapply parse_wp; [apply yields_names|done|by apply cmd_response_wp|]. intros [src dst] [? ?]. by apply queue_command_wp.
  - unfold cancel_cmd_handler. eapply (parse_wp _ (λ _, True)); [by apply yields_ret|done|by apply cmd_response_wp|]. intros _ _. wp_steps.
    destruct (bool_decide (dl_mode s = DlDownlink) || bool_decide (dl_mode s = DlWait)) eqn:E; cbn [when].
    + wp_steps. assert (quietly cyc k true s (dl_set_mode DlCancel s) []) as Hq.
      { split_and!; [base_tac|done|done|done|done| |exists []; by rewrite app_nil_r]. right. split_and!; [done| |done].
        rewrite bool_decide_eq_false_2 in E by done. by apply bool_decide_eq_true_1 in E. }
      eapply wp_mono; [apply cmd_response_wp; apply Hq|]. intros [] s' o Hq'. by apply (quietly_app _ _ _ _ _ _ [] o Hq).
    + apply wp_bind, wp_ret. eapply wp_mono; [by apply (cmd_response_wp cyc k true)|]. intros [] s' o Hq. exact Hq.
  - unfold send_partial_cmd_handler. eapply (parse_wp _ (λ '((src, dst), off, n), string_ok src ∧ string_ok dst ∧ is_u 32 off ∧ is_u 32 n)); [|done|by apply cmd_response_wp|].
    + eapply yields_bind; [apply yields_names|]. intros [src dst] [? ?]. eapply yields_bind; [apply (yields_uint 4)|]. intros off Ho.
      eapply yields_bind; [apply (yields_uint 4)|]. intros n Hn. by apply yields_ret.
    + intros [[[src dst] off] n] (? & ? & ? & ?). by apply queue_command_wp.
  - by apply cmd_response_wp.
Qed.

Lemma request_wp cyc k c src dst off len s :
  base cyc k s → string_ok src → string_ok dst → is_u 32 off → is_u 32 len →
  wp (send_file_port_handler src dst off len) s (λ _ s' o, quietly cyc k c s s' o).
Proof.
  intros Hb Hs Hd Ho Hl. unfold send_file_port_handler. wp_steps. set (s1 := dl_set_cntx _ s).
  assert (quietly cyc k c s s1 []) as Hq1 by (split_and!; [unfold s1; base_tac|done..|by left|exists []; by rewrite app_nil_r]).
  assert (base cyc k s1) as Hb1 by apply Hq1.
  case_bool_decide; [wp_steps; apply (quietly_app _ _ _ _ _ _ [] [_] Hq1); by apply quietly_refl|].
  case_bool_decide; [wp_steps; apply (quietly_app _ _ _ _ _ _ [] [_] Hq1); by apply quietly_refl|].
  apply wp_bind. eapply enqueue_wp; [done|by apply entry_names_ok|]. intros b s' Hq. wp_steps. by apply (quietly_app _ _ _ _ _ _ [] [] Hq1).
Qed.

(** * Runs *)

(** The component, the packets it has in flight, and, for the record, the
    requests it took and the answers it gave to them. *)
Record Line : Type := MkLine {
  comp : D;
  flight : list Buffer;
  taken : list FileEntry;
  answers : list DlOut;
}.
Local Notation LineM := (CompM Line DlOut).

(** What happens to it.  [AReturn]: the oldest packet in flight comes back.
    [AWorld]: other programs changed the file system. *)
Inductive DlAction : Type :=
| ARun
| AReturn
| ACommand (op cmd_seq : Z) (args : serbuf)
| ARequest (source dest : FwString) (offset length : Z)
| APing (key : Z)
| AWorld (w : World).

Definition action_ok (a : DlAction) : Prop :=
  match a with
  | ACommand _ _ args => wf args
  | ARequest source dest offset length => string_ok source ∧ string_ok dest ∧ is_u 32 offset ∧ is_u 32 length
  | AWorld w => world_bytes w
  | _ => True
  end.

(** A handler runs; [fl] stays in flight.  The answers given by a tick or a
    return are those to requests; a command's own are not recorded. *)
Definition commit {A} (ticks : bool) (fl : list Buffer) (m : DlM A) : LineM unit := λ l,
  match m (comp l) with
  | Panic => Panic
  | Ret (_, s', o) =>
      Ret (tt, MkLine s' (fl ++ sent o) (taken l ++ drop (length (file_queue (comp l))) (file_queue s'))
                 (answers l ++ if ticks then responses o else []), o)
  end.

Definition set_world (w : World) (s : D) : D :=
  let f := dl_os_file (dl_file s) in dl_set_file (set_dl_os_file (set_file ((sf_file f).1, w) f) (dl_file s)) s.

Definition act (id_base : Z) (a : DlAction) : LineM unit := λ l,
  match a with
  | ARun => commit true (flight l) (dl_run_handler cwd true true) l
  | AReturn => match flight l with [] => Ret (tt, l, []) | b :: fl => commit true fl (buffer_return_handler true true b) l end
  | ACommand op seq args => commit false (flight l) (dl_command true id_base op seq args) l
  | ARequest src dst off len => commit false (flight l) (send_file_port_handler src dst off len) l
  | APing key => commit false (flight l) (dl_ping_handler key) l
  | AWorld w => Ret (tt, MkLine (set_world w (comp l)) (flight l) (taken l) (answers l), [])
  end.
Fixpoint act_all (id_base : Z) (acts : list DlAction) : LineM unit :=
  match acts with
  | [] => mret tt
  | a :: acts' => _ ← act id_base a; act_all id_base acts'
  end.

Definition line_new (w : World) (cool cycle : Z) (depth : nat) : Line :=
  MkLine (dl_configure cool cycle depth (FileDownlink_new (File_new, w))) [] [] [].

(** The requests not answered yet, the one being sent first. *)
Definition sending (m : Mode) : bool := match m with DlWait | DlCancel | DlDownlink => true | _ => false end.
Definition unanswered (s : D) : list FileEntry := (if sending (dl_mode s) then [cur_entry s] else []) ++ file_queue s.

(** One packet is in flight exactly while a file is sent. *)
Definition credit (s : D) (fl : list Buffer) : Prop :=
  match dl_mode s with
  | DlIdle | DlCooldown => fl = []
  | DlWait | DlCancel => ∃ b, fl = [b] ∧ flying s b
  | DlDownlink => False
  end.

Record line_ok (cyc k : Z) (l : Line) : Prop := {
  l_base : base cyc k (comp l);
  l_credit : credit (comp l) (flight l);
  l_account : ∃ done : list FileEntry, taken l = done ++ unanswered (comp l) ∧ answers l = answer <$> done;
}.

Lemma base_mono cyc k k' s : base cyc k s → (k ≤ k')%Z → base cyc k' s.
Proof. intros Hb Hk. base_tac. Qed.

Lemma commit_wp {A} (ticks : bool) fl (m : DlM A) l (Q : unit → Line → list DlOut → Prop) :
  wp m (comp l) (λ _ s' o, Q tt (MkLine s' (fl ++ sent o) (taken l ++ drop (length (file_queue (comp l))) (file_queue s'))
                                (answers l ++ if ticks then responses o else [])) o) → wp (commit ticks fl m) l Q.
Proof. unfold wp, commit. by destruct (m (comp l)) as [[[a s'] o]|]. Qed.

(** A transfer moves on by one step; [q] is the queue it leaves. *)
Lemma proceeds_line cyc k q l s s' o done :
  base cyc k s → proceeds cyc k s s' o → file_queue s = q → taken l = done ++ [cur_entry s] ++ q → answers l = answer <$> done →
  q `suffix_of` file_queue (comp l) →
  line_ok cyc (k + 4) (MkLine s' ([] ++ sent o) (taken l ++ drop (length (file_queue (comp l))) (file_queue s')) (answers l ++ responses o)).
Proof.
  intros Hb (Hb' & Eq & Hc) Hq Ht Ha [x Hx]. rewrite (drop_ge (file_queue s')) by (rewrite Eq, Hq, Hx, length_app; lia). rewrite app_nil_r, app_nil_l.
  destruct Hc as [(Hr & Es & Er)|(Hm & Ee & Er & b & Es & Hf)]; rewrite Es, Er; split; cbn [comp flight taken answers]; try done.
  - unfold credit. by destruct Hr as [-> | ->].
  - exists (done ++ [cur_entry s]). rewrite Ht, Ha, fmap_app. split; [|done]. rewrite <- app_assoc. do 2 f_equal. unfold unanswered.
    rewrite Eq, Hq. by destruct Hr as [-> | ->].
  - unfold credit. rewrite Hm. eauto.
  - exists done. rewrite Ht, Ha, app_nil_r. split; [|done]. unfold unanswered. by rewrite Hm, Ee, Eq, Hq.
Qed.

(** A request or a command. *)
Lemma quietly_line cyc k c l s' o :
  line_ok cyc k l → quietly cyc k c (comp l) s' o →
  line_ok cyc k (MkLine s' (flight l ++ sent o) (taken l ++ drop (length (file_queue (comp l))) (file_queue s')) (answers l ++ [])).
Proof.
  intros [Hb Hc (done & Ht & Ha)] (Hb' & Es & Ep & Ee & _ & Hm & es & Eq). rewrite Es, !app_nil_r, Eq, drop_app_length. split; cbn [comp flight taken answers]; [done| |].
  - unfold credit, flying in *. rewrite Ep. destruct Hm as [-> |(_ & Hw & ->)]; [done|]. by rewrite Hw in Hc.
  - exists done. split; [|done]. rewrite Ht, <- app_assoc. f_equal. unfold unanswered. rewrite Eq, Ee, <- app_assoc. f_equal.
    destruct Hm as [-> |(_ & Hw & ->)]; [done|]. by rewrite Hw.
Qed.

Lemma line_mono cyc k k' l : line_ok cyc k l → (k ≤ k')%Z → line_ok cyc k' l.
Proof. intros [Hb Hc Ha] Hk. split; [by apply (base_mono _ k)|done|done]. Qed.

(** Ticks that start nothing. *)
Lemma idle_tick cyc k l s' :
  line_ok cyc k l → base cyc (k + cyc + 4) s' → file_queue s' = file_queue (comp l) → cur_entry s' = cur_entry (comp l) →
  (dl_mode s' = dl_mode (comp l) ∧ (∀ b, flying (comp l) b → flying s' b) ∨ dl_mode (comp l) = DlCooldown ∧ dl_mode s' = DlIdle) →
  line_ok cyc (k + cyc + 4) (MkLine s' (flight l ++ []) (taken l ++ drop (length (file_queue (comp l))) (file_queue s')) (answers l ++ [])).
Proof.
  intros [Hb Hc (done & Ht & Ha)] Hb' Eq Ee Hm. rewrite Eq, drop_ge, !app_nil_r by done. split; cbn [comp flight taken answers]; [done| |].
  - unfold credit in *. destruct Hm as [[-> Hf]|[E ->]]; [|by rewrite E in Hc]. destruct (dl_mode (comp l)); naive_solver.
  - exists done. split; [|done]. rewrite Ht. unfold unanswered. rewrite Eq, Ee. by destruct Hm as [[-> _]|[-> ->]].
Qed.

Lemma run_step cyc k l :
  line_ok cyc k l → (0 ≤ cyc)%Z → (0 ≤ k)%Z → (k + cyc + 4 < 2 ^ 32)%Z →
  wp (commit true (flight l) (dl_run_handler cwd true true)) l (λ _ l' _, line_ok cyc (k + cyc + 4) l').
Proof.
  intros Hl Hcyc Hk0 Hk. pose proof Hl as [Hb Hc (done & Ht & Ha)]. apply commit_wp. unfold dl_run_handler. wp_steps.
  pose proof (b_cycle _ _ _ Hb) as Ecyc. set (s := comp l) in *.
  assert (∀ t, (0 ≤ t ≤ k + cyc + 4)%Z → line_ok cyc (k + cyc + 4) (MkLine (dl_set_progress (with_timer t (progress s)) s) (flight l ++ [])
    (taken l ++ drop (length (file_queue s)) (file_queue (dl_set_progress (with_timer t (progress s)) s))) (answers l ++ []))) as Htick.
  { intros t Hlt. apply idle_tick; [done|unfold s in *; base_tac|done|done|]. left. split; [done|]. done. }
  assert (0 ≤ pr_timer (progress s) ≤ k)%Z as Htm by (destruct Hb; lia).
  destruct (dl_mode s) eqn:Em.
  - destruct (file_queue s) as [|e q] eqn:Eq.
    + wp_steps. change (sent []) with (@nil Buffer). change (responses []) with (@nil DlOut). rewrite <- Eq. apply idle_tick; [done|by apply (base_mono _ k); [|lia]|done|done|by left].
    + wp_steps. set (s1 := dl_set_entry e (dl_set_queue q s)).
      assert (base cyc k s1) as Hb1.
      { pose proof (b_queue _ _ _ Hb) as Hq. pose proof (b_depth _ _ _ Hb) as Hd. rewrite Eq in Hq, Hd. apply Forall_cons in Hq as [_ Hq]. cbn [length] in Hd. unfold s1; base_tac. }
      pose proof (b_queue _ _ _ Hb) as Hq. rewrite Eq in Hq. apply Forall_cons in Hq as [He _].
      eapply wp_mono; [apply (send_file_wp cyc k e s1); try done; lia|]. intros [] s' o Hp. unfold credit in Hc. rewrite Em in Hc. rewrite Hc.
      rewrite <- Eq. apply (line_mono _ (k + 4)); [|lia]. apply (proceeds_line cyc k q l s1 s' o done Hb1 Hp); [done| |done|].
      * rewrite Ht. unfold unanswered. fold s. by rewrite Em, Eq.
      * fold s. rewrite Eq. by exists [e].
  - unfold credit in Hc. by rewrite Em in Hc.
  - wp_steps. apply idle_tick; [done|by apply (base_mono _ k); [|lia]|done|done|by left].
  - eapply wp_lift; [apply add_32; lia|]. cbv beta. wp_steps. apply Htick. lia.
  - destruct (_ <=? _)%Z.
    + wp_steps. apply idle_tick; [done|unfold s in *; base_tac|done|done|]. right. done.
    + eapply wp_lift; [apply add_32; lia|]. cbv beta. wp_steps. apply Htick. lia.
Qed.

Lemma act_step cyc k id a l :
  line_ok cyc k l → action_ok a → (0 ≤ cyc)%Z → (0 ≤ k)%Z → (k + cyc + 4 < 2 ^ 32)%Z →
  wp (act id a) l (λ _ l' _, line_ok cyc (k + cyc + 4) l').
Proof.
  intros Hl Ha Hcyc Hk0 Hk. pose proof Hl as [Hb Hc Hacc].
  assert (∀ A c (m : DlM A), wp m (comp l) (λ _ s' o, quietly cyc k c (comp l) s' o) → wp (commit false (flight l) m) l (λ _ l' _, line_ok cyc (k + cyc + 4) l')) as Hquiet.
  { intros A c m Hm. apply commit_wp. eapply wp_mono; [exact Hm|]. intros x s' o Hq. apply (line_mono _ k); [|lia]. by apply (quietly_line _ _ c). }
  destruct a as [| |op seq args|src dst off len|key|w]; unfold wp, act.
  - by apply run_step.
  - destruct (flight l) as [|b fl] eqn:Ef.
    + apply (line_mono _ k); [done|lia].
    + refine (commit_wp true fl (buffer_return_handler true true b) l _ _). destruct Hacc as (done & Ht & Han).
      assert ((dl_mode (comp l) = DlWait ∨ dl_mode (comp l) = DlCancel) ∧ fl = [] ∧ flying (comp l) b) as (Hm & -> & Hf).
      { unfold credit in Hc. destruct (dl_mode (comp l)); naive_solver. }
      eapply wp_mono; [apply (return_wp cyc k); try done; lia|]. intros [] s' o Hp. apply (line_mono _ (k + 4)); [|lia].
      apply (proceeds_line cyc k (file_queue (comp l)) l (comp l) s' o done); [done|done|done| |done|done].
      rewrite Ht. unfold unanswered. by destruct Hm as [-> | ->].
  - eapply Hquiet. apply command_wp; [done| |done]. intros E. unfold credit in Hc. by rewrite E in Hc.
  - apply (Hquiet _ false). destruct Ha as (? & ? & ? & ?). by apply request_wp.
  - apply (Hquiet _ false). unfold dl_ping_handler. wp_steps. by apply quietly_refl.
  - apply (line_mono _ k); [|lia]. split; cbn [comp flight taken answers]; [|done|done].
    destruct Hb; split; cbn; try done. destruct b_file0 as (? & ? & ? & ? & _). by split_and!.
Qed.

Lemma act_all_ok cyc id acts : ∀ k l,
  line_ok cyc k l → Forall action_ok acts → (0 ≤ cyc)%Z → (0 ≤ k)%Z → (k + (cyc + 4) * Z.of_nat (length acts) < 2 ^ 32)%Z →
  wp (act_all id acts) l (λ _ l' _, line_ok cyc (k + (cyc + 4) * Z.of_nat (length acts)) l').
Proof.
  induction acts as [|a acts IH]; intros k l Hl Hacts Hcyc Hk0 Hk; cbn [act_all length] in *.
  { apply wp_ret. apply (line_mono _ k); [done|lia]. }
  apply Forall_cons in Hacts as [Ha Hacts]. apply wp_bind.
  eapply wp_mono; [apply (act_step cyc k); try done; lia|]. intros [] l1 o1 Hl1.
  eapply wp_mono; [apply (IH (k + cyc + 4)%Z); try done; lia|]. intros [] l2 o2 Hl2. apply (line_mono _ _ _ _ Hl2). lia.
Qed.

Lemma line_new_ok w cool cyc depth : world_bytes w → line_ok cyc 0 (line_new w cool cyc depth).
Proof.
  intros Hw. split; cbn; [|done|by exists []]. split; cbn; try done; try lia.
  - repeat constructor; cbn; try done; by apply Forall_replicate.
  - split_and!; try done; apply name_ok_new.
Qed.

(** C12. One packet at a time, and one answer per request.  Whatever the
    order of ticks, commands, requests and returned packets, and whatever the
    operating system and other programs do to the files, as long as the cycle
    time plus four, times the number of these calls, stays below 2^32 (the
    counters of files, packets and warnings and the millisecond timer, to which every
    tick adds the cycle time, are [u32]s that overflow otherwise, see
    [wait_timer_overflows]), the component never
    panics; it has one packet in flight exactly while it is sending a file,
    so no handler ever finds it in between; the request queue stays within
    its depth; and the requests it has taken are answered in order, once
    each, the unanswered ones being the one in progress and those queued. *)
Theorem downlink_one_packet_one_answer w cool cyc depth id acts :
  world_bytes w → (0 ≤ cyc)%Z → Forall action_ok acts → ((cyc + 4) * Z.of_nat (length acts) < 2 ^ 32)%Z →
  ∃ l o, act_all id acts (line_new w cool cyc depth) = Ret (tt, l, o) ∧
    length (flight l) = (if sending (dl_mode (comp l)) then 1 else 0) ∧ dl_mode (comp l) ≠ DlDownlink ∧
    length (file_queue (comp l)) ≤ file_queue_depth (comp l) ∧
    ∃ done, taken l = done ++ unanswered (comp l) ∧ answers l = answer <$> done.
Proof.
  intros Hw Hcyc Hacts Hk. pose proof (act_all_ok cyc id acts 0 _ (line_new_ok w cool cyc depth Hw) Hacts Hcyc ltac:(done) ltac:(lia)) as Hr.
  apply wp_returns in Hr as ([] & l & o & E & [Hb Hc Ha]). exists l, o. split; [exact E|]. unfold credit in Hc. split_and!; [|by intros Ed; rewrite Ed in Hc|by destruct Hb|done].
  destruct (dl_mode (comp l)); [by rewrite Hc|done|by destruct Hc as (b & -> & _)..|by rewrite Hc].
Qed.
End runs.

(** * Witnesses *)

Definition port_name (s : string) : FwString := set_bytes (str s) (FwString_new 100).

(** The timer that nothing reads while a packet is in flight: with a cycle time
    of 2^31 ms, the second tick in WAIT overflows it, which panics in a build
    with overflow checks. *)
Example wait_timer_overflows :
  let P := true : BuildProfile in
  act_all None 0 [ARequest (port_name "/f") (port_name "/g") 0 0; ARun; ARun; ARun]
    (line_new (one_file (str "/f") [1; 2; 3]%Z []) 1 (2 ^ 31) 4) = Panic.
Proof. by vm_compute. Qed.

(** A request, cancelled while START is in flight: CANCEL is sent in place of
    the data, and the request is answered when it has come back. *)
Lemma downlink_one_packet_one_answer_witness :
  let P := true : BuildProfile in
  let w := one_file (str "/f") [1; 2; 3]%Z [] in
  let acts := [ARequest (port_name "/f") (port_name "/g") 0 0; ARun; ACommand 1 9 (ext_buf_new []); AReturn; ARun; AReturn] in
  ∃ l o, act_all None 0 acts (line_new w 1 1 4) = Ret (tt, l, o) ∧ flight l = [] ∧ length (taken l) = 1 ∧
    answers l = [DlComplete (MkResponse StatusOk 0)].
Proof.
  intros P w acts. destruct (downlink_one_packet_one_answer None w 1 1 4 0 acts) as (l & o & E & Hfl & _ & _ & dn & Ht & Ha).
  - apply one_file_bytes. fp_decide.
  - done.
  - repeat (constructor; [first [done|fp_decide|by apply wf_ext_new]|]). constructor.
  - vm_compute. reflexivity.
  - exists l, o. split; [exact E|]. vm_compute in E. injection E as <- <-. vm_compute. done.
Defined.
