(* ===== verification/FileDownlinkTransfer.v ===== *)
(** The packets of one file sent by [Svc::FileDownlink] on a system without
    faults, and the file that arrives when [Svc::FileUplink] receives them. *)

From stdpp Require Import list gmap strings.
From S2P Require Import Prelude Serial SerialFacts Codec Fpp Packets Buffer Checksum Comp Framing FwString OsFile FilePaths FilePacket FileUplink FileUplinkRuns FileDownlink FileDownlinkRuns.

(** * Specification *)

(** A file cut into the payloads of DATA packets; [length l] turns are enough. *)
Fixpoint cut_loop (turns : nat) (l : list Z) : list (list Z) :=
  match turns with
  | O => []
  | S turns' => if decide (l = []) then [] else take MAX_DATA_SIZE l :: cut_loop turns' (drop MAX_DATA_SIZE l)
  end.
Definition cut_blocks (l : list Z) : list (list Z) := cut_loop (length l) l.

Lemma max_data_size : MAX_DATA_SIZE = 499.
Proof. done. Qed.

Lemma cut_loop_more n m l : length l ≤ n → length l ≤ m → cut_loop n l = cut_loop m l.
Proof.
  revert m l. induction n as [|n IH]; intros m l Hn Hm; destruct m as [|m]; cbn [cut_loop]; try (destruct l; [done|cbn in *; lia]).
  case_decide as Hl; [done|]. f_equal. assert (0 < length l) by (destruct l; [done|cbn; lia]). apply IH; rewrite length_drop, max_data_size; lia.
Qed.
Lemma cut_blocks_unfold l : l ≠ [] → cut_blocks l = take MAX_DATA_SIZE l :: cut_blocks (drop MAX_DATA_SIZE l).
Proof.
  intros Hl. unfold cut_blocks. destruct l as [|x l]; [done|]. cbn [length cut_loop]. rewrite decide_False by done. f_equal.
  apply cut_loop_more; [|done]. rewrite length_drop, max_data_size. cbn [length]. lia.
Qed.
Lemma cut_blocks_ind (P : list Z → Prop) : P [] → (∀ l, l ≠ [] → P (drop MAX_DATA_SIZE l) → P l) → ∀ l, P l.
Proof.
  intros H0 HS l. remember (length l) as n eqn:E. revert l E. induction n as [n IH] using lt_wf_ind. intros l ->. destruct (decide (l = [])) as [->|Hl]; [done|].
  apply HS; [done|]. assert (0 < length l) by (destruct l; [done|cbn; lia]). eapply IH; [|done]. rewrite length_drop, max_data_size. lia.
Qed.
Lemma cut_blocks_join l : mjoin (cut_blocks l) = l.
Proof.
  induction l as [|l Hl IH] using cut_blocks_ind; [done|]. rewrite cut_blocks_unfold by done.
  change (mjoin (?b :: ?bs)) with (b ++ mjoin bs). rewrite IH. apply take_drop.
Qed.
Lemma cut_blocks_ok l : Forall is_byte l → Forall block_ok (cut_blocks l).
Proof.
  induction l as [|l Hl IH] using cut_blocks_ind; intros Hb; [constructor|]. rewrite cut_blocks_unfold by done. constructor; [|by apply IH, Forall_drop].
  split; [|by apply Forall_take]. rewrite length_take, max_data_size. lia.
Qed.
Lemma cut_blocks_length l : length (cut_blocks l) ≤ length l.
Proof.
  induction l as [|l Hl IH] using cut_blocks_ind; [done|]. rewrite cut_blocks_unfold by done. cbn [length].
  rewrite length_drop, max_data_size in IH. destruct l; [done|cbn in *; lia].
Qed.

(** The bytes a request asks for: a length of 0, or past the end, means to
    the end of the file. *)
Definition region_length (e : FileEntry) (c : list Z) : nat :=
  let rest := length c - Z.to_nat (entry_offset e) in
  if (entry_length e =? 0)%Z then rest else Z.to_nat (entry_length e) `min` rest.
Definition region (e : FileEntry) (c : list Z) : list Z := slice (Z.to_nat (entry_offset e)) (region_length e c) c.

(** The packets of a request for the file with content [c]. *)
Definition downlink_session (e : FileEntry) (c : list Z) : list FilePacket :=
  let blocks := cut_blocks (region e c) in
  session (StartPacket_initialize (Z.of_nat (length c)) (as_bytes (src_filename e)) (as_bytes (dest_filename e)))
    (block_packets 1 (entry_offset e) blocks)
    (EndPacket_initialize (1 + Z.of_nat (length blocks)) (get_value (update (region e c) (entry_offset e) Checksum_new))).

Section transfer.
Context `{BuildProfile} (cwd : option FwString).
Local Notation D := (FileDownlink (F := FileW)).
Local Notation DlM := (CompM D DlOut).

(** * The source file *)

(** [f] is open for reading on node [i] of world [w]. *)
Definition reading_node (w : World) (i : nat) (f : DownlinkFile (F := FileW)) : Prop :=
  ∃ pos r b, sf_file (dl_os_file f) = (MkFile (Some (MkFd i pos true false)) OpenRead r b, w).

Lemma dlfile_read_exact w i ds f n off :
  reading_node w i f → script w = [] → sandboxed ds (dl_os_file f) → is_u 32 off → 0 < n → Z.to_nat off + n ≤ length (node w i) →
  let bs := slice (Z.to_nat off) n (node w i) in
  ∃ f', dlfile_read n off f = Ret (FsOpOk, bs, f') ∧ reading_node w i f' ∧ sandboxed ds (dl_os_file f') ∧
    source_name f' = source_name f ∧ dest_name f' = dest_name f ∧ dl_checksum f' = update bs off (dl_checksum f).
Proof.
  intros (pos & r & b & Ef) Hq Hbox Ho Hn Hl bs. unfold dlfile_read, sf_seek. cbn [os_seek FileW_file]. rewrite Ef.
  unfold file_seek. rewrite (proj2 (Z.leb_le _ _)) by apply Ho. rewrite orb_true_r. cbn [fw_assert]. rewrite !outcome_bind_ret.
  rewrite (bool_decide_eq_true_2 (Absolute = Absolute)) by done. unfold seek_from. cbn [fd fst snd]. unfold std_seek.
  rewrite next_event_quiet by done. unfold is_u, I64_MAX in *.
  rewrite (proj2 (Z.leb_le 0 off)), (proj2 (Z.leb_le off _)) by lia. cbn [andb]. rewrite outcome_bind_ret.
  rewrite (bool_decide_eq_true_2 (FsOpOk = FsOpOk)) by done. cbn [negb]. unfold sf_read. cbn [os_read FileW_file].
  unfold set_file, set_dl_os_file, set_fd, set_pos. cbn [dl_os_file sf_file fst snd fd_node fd_pos fd_read fd_append mode crc crc_buffer].
  set (fw := (_, w) : FileW). assert (reading fw (MkFd i (Z.to_nat off) true false)) as Hrd by done.
  rewrite (file_read_quiet n Wait fw _ Hrd Hq Hn). cbn [fd_pos fd_node fw fst snd]. fold bs.
  assert (length bs = n) as Hlb by (apply length_slice; lia).
  rewrite (bool_decide_eq_true_2 (FsOpOk = FsOpOk)), (bool_decide_eq_true_2 (length bs = n)) by done. cbn [negb].
  eexists. split; [done|]. split_and!; try done. by eexists _, _, _.
Qed.

(** Opening an existing file. *)
Lemma dlfile_open_exact w ds (f : DownlinkFile (F := FileW)) e p i r b :
  sf_file (dl_os_file f) = (MkFile None OpenNoMode r b, w) → script w = [] → sandboxed ds (dl_os_file f) →
  reaches cwd ds (as_bytes (src_filename e)) p → names w !! p = Some i → (Z.of_nat (length (node w i)) < 2 ^ 32)%Z →
  ∃ f', dlfile_open cwd (src_filename e) (dest_filename e) f = Ret (FsOpOk, f') ∧ reading_node w i f' ∧ sandboxed ds (dl_os_file f') ∧
    source_name f' = set_bytes (as_bytes (src_filename e)) (source_name f) ∧ dest_name f' = set_bytes (as_bytes (dest_filename e)) (dest_name f) ∧
    dl_checksum f' = Checksum_new ∧ dl_size f' = Z.of_nat (length (node w i)).
Proof.
  intros Hf Hq Hbox (cs & Hcs & -> & Hpre & Hu1 & Hu2 & Hu3) Hi Hlen. unfold dlfile_open, as_str. rewrite Hu1. cbn [dl_os_file].
  pose proof (sf_open_ok cwd (as_bytes (src_filename e)) OpenRead (dl_os_file f) ds Hbox) as Hop. rewrite Hcs in Hop.
  destruct Hop as [_ ->]. rewrite decide_True by done. rewrite Hf.
  cbn [os_open FileW_file]. unfold file_open, open_with_overwrite. rewrite (bool_decide_eq_false_2 (OpenRead = OpenNoMode)) by done.
  cbn [negb fw_assert]. rewrite !outcome_bind_ret. unfold is_open. cbn [fst snd mode]. rewrite (bool_decide_eq_true_2 (OpenNoMode = OpenNoMode)) by done.
  cbn [negb]. unfold std_open. rewrite next_event_quiet by done. rewrite Hi. cbn [options_of opt_create_new opt_truncate opt_read opt_append crc_buffer].
  rewrite !outcome_bind_ret. rewrite (bool_decide_eq_true_2 (FsOpOk = FsOpOk)) by done. cbn [negb]. unfold sf_size, set_dl_os_file, set_file.
  cbn [os_size FileW_file sf_file dl_os_file]. unfold file_size_of. cbn [fd fst snd]. unfold std_len. rewrite next_event_quiet by done. cbn [fd_node].
  rewrite (bool_decide_eq_true_2 (FsOpOk = FsOpOk)) by done. cbn [negb from_option]. unfold id. rewrite (proj2 (Z.ltb_ge _ _)) by lia.
  eexists. split; [done|]. destruct Hbox as (? & ? & ? & ?). split_and!; try done. by eexists _, _, _.
Qed.

(** * A transfer in progress *)

(** The bytes still to be sent. *)
Definition left_over (c : list Z) (p : Progress) : list Z := slice (Z.to_nat (pr_offset p)) (Z.to_nat (pr_end p - pr_offset p)) c.

(** The packets that follow the one in flight; [total] is the checksum END
    will carry. *)
Definition next_packets (c : list Z) (total : Z) (p : Progress) : list FilePacket :=
  let todo := cut_blocks (left_over c p) in
  (PData <$> block_packets (pr_sequence_index p) (pr_offset p) todo) ++
  [PEnd (EndPacket_initialize (pr_sequence_index p + Z.of_nat (length todo)) total)].

Record wiring (e : FileEntry) (w : World) (i : nat) (ds : list (list Z)) (total : Z) (ps : list FilePacket) (s : D) : Prop := {
  w_mode : dl_mode s = DlWait;
  w_entry : cur_entry s = e;
  w_box : sandboxed ds (dl_os_file (dl_file s));
  w_reading : reading_node w i (dl_file s);
  w_source : as_bytes (source_name (dl_file s)) = as_bytes (src_filename e);
  w_dest : as_bytes (dest_name (dl_file s)) = as_bytes (dest_filename e);
  w_rest : let p := progress s in
    (last_completed_type p = FptEnd ∧ ps = []) ∨
    ((0 ≤ pr_offset p ≤ pr_end p)%Z ∧ (pr_end p ≤ Z.of_nat (length (node w i)))%Z ∧
     last_completed_type p = (if decide (left_over (node w i) p = []) then FptData else FptStart) ∧
     get_value (update (left_over (node w i) p) (pr_offset p) (dl_checksum (dl_file s))) = total ∧ ps = next_packets (node w i) total p);
}.

Lemma length_left_over c p : (0 ≤ pr_offset p ≤ pr_end p)%Z → (pr_end p ≤ Z.of_nat (length c))%Z → length (left_over c p) = Z.to_nat (pr_end p - pr_offset p).
Proof. intros Ho He. apply length_slice. lia. Qed.

Lemma left_over_empty c p :
  (0 ≤ pr_offset p ≤ pr_end p)%Z → (pr_end p ≤ Z.of_nat (length c))%Z → left_over c p = [] ↔ pr_offset p = pr_end p.
Proof.
  intros Ho He. pose proof (length_left_over c p Ho He) as Hl. split.
  - intros E. rewrite E in Hl. cbn in Hl. lia.
  - intros E. apply nil_length_inv. rewrite Hl, E. lia.
Qed.

Lemma update_app a b off ck : (0 ≤ off)%Z → is_u 32 (value ck) → update b (off + Z.of_nat (length a)) (update a off ck) = update (a ++ b) off ck.
Proof.
  intros Ho Hc. pose proof (update_u32 a off ck Ho Hc) as Hu. rewrite !(update_sum _ _ _) by (lia || by apply plus_valid).
  rewrite plus_plus, weighted_sum_app. done.
Qed.
Lemma update_nil off ck : (0 ≤ off)%Z → is_u 32 (value ck) → update [] off ck = ck.
Proof. intros Ho Hc. rewrite update_sum by (done || by apply plus_valid). cbn. symmetry. by apply plus_valid. Qed.

(** One DATA packet taken off. *)
Definition after_data (n : nat) (c : list Z) (p : Progress) : Progress :=
  MkProgress (pr_sequence_index p + 1) (pr_timer p) (pr_offset p + Z.of_nat n) (pr_end p)
    (if (Z.of_nat n + pr_offset p =? pr_end p)%Z then FptData else FptStart) (last_buffer_id p) (cur_context p).

Lemma send_data_exact cyc k w i ds s :
  base cyc k s → (0 ≤ k)%Z → (k + 4 < 2 ^ 32)%Z → last_completed_type (progress s) = FptStart →
  reading_node w i (dl_file s) → script w = [] → sandboxed ds (dl_os_file (dl_file s)) →
  (pr_offset (progress s) < pr_end (progress s))%Z → (pr_end (progress s) ≤ Z.of_nat (length (node w i)))%Z →
  let p := progress s in
  let n := Z.to_nat (pr_end p - pr_offset p) `min` MAX_DATA_SIZE in
  let bs := slice (Z.to_nat (pr_offset p)) n (node w i) in
  wp send_data_packet s (λ st s' o, st = FsOpOk ∧ responses o = [] ∧
    (∃ b, sent o = [b] ∧ carries b (PData (DataPacket_initialize (pr_sequence_index p) (pr_offset p) (Z.of_nat n) bs))) ∧
    progress s' = after_data n (node w i) p ∧ cur_entry s' = cur_entry s ∧ reading_node w i (dl_file s') ∧ sandboxed ds (dl_os_file (dl_file s')) ∧
    source_name (dl_file s') = source_name (dl_file s) ∧ dest_name (dl_file s') = dest_name (dl_file s) ∧
    dl_checksum (dl_file s') = update bs (pr_offset p) (dl_checksum (dl_file s))).
Proof.
  intros Hb Hk0 Hk Ht Hrd Hq Hbox Hlt Hend p n bs. unfold send_data_packet. wp_steps. fold p. fold n.
  rewrite (proj2 (Z.leb_gt _ _)) by done.
  pose proof (b_offset _ _ _ Hb) as Ho. pose proof (b_end _ _ _ Hb) as He. fold p in Ho, He, Ht, Hlt, Hend.
  assert (0 < n ≤ MAX_DATA_SIZE) as Hn by (unfold n; rewrite max_data_size; lia).
  assert (Z.of_nat n ≤ pr_end p - pr_offset p)%Z as Hn' by (unfold n; lia).
  eapply wp_lift; [apply add_32; unfold is_u in *; lia|]. cbv beta. apply wp_bind.
  set (t := if (Z.of_nat n + pr_offset p =? pr_end p)%Z then FptData else FptStart).
  eapply wp_mono with (Q := λ _ s' o, s' = dl_set_progress (with_type t p) s ∧ o = []).
  { unfold t. destruct (_ =? _)%Z; cbn [when]; [by wp_steps|]. apply wp_ret. split; [|done]. rewrite <- Ht. symmetry. apply with_same_type. }
  intros [] ? ? [-> ->]. set (s1 := dl_set_progress (with_type t p) s). wp_steps.
  destruct (dlfile_read_exact w i ds (dl_file s) n (pr_offset p) Hrd Hq Hbox Ho) as (f & E & Hrd' & Hbox' & Es & Ed & Ec); [lia|unfold is_u in *; lia|].
  fold bs in E, Ec. eapply wp_lift; [exact E|]. cbv beta iota. wp_steps. rewrite (bool_decide_eq_true_2 (FsOpOk = FsOpOk)) by done. cbn [negb].
  assert (length bs = n) as Hlb by (apply length_slice; unfold is_u in *; lia).
  assert (Forall is_byte bs) as Hby by (apply Forall_slice; destruct Hb as [_ _ _ (_ & _ & _ & _ & Hw)]; destruct Hrd as (? & ? & ? & Ef); rewrite Ef in Hw; apply Hw).
  wp_steps. eapply wp_lift; [apply add_32; unfold s1, p; cbn; destruct Hb; lia|]. cbv beta. wp_steps. apply wp_bind.
  destruct (data_packet_ok (pr_sequence_index p) (pr_offset p) bs) as (Ep & Hpk & Hsz); [unfold is_u; destruct Hb; unfold p; lia|done|lia|done|].
  cbn [s1 dl_set_file dl_set_progress progress with_type pr_sequence_index cur_context]. rewrite Hlb in Hpk, Hsz, Ep.
  apply send_file_packet_wp; [by destruct Hb|exact Hpk|exact Hsz|cbn; destruct Hb; lia|].
  intros b sts Hc Hctx Har Hsts. wp_steps. eapply wp_lift; [apply add_32; cbn; unfold is_u in *; lia|]. cbv beta. wp_steps.
  split_and!; try done. exists b. split; [done|]. rewrite <- Hlb at 1. rewrite block_packet_fields, Hlb by (rewrite Hlb, max_data_size in *; lia).
  by rewrite <- Ep.
Qed.

Lemma left_over_split c p :
  (0 ≤ pr_offset p < pr_end p)%Z → (pr_end p ≤ Z.of_nat (length c))%Z →
  let n := Z.to_nat (pr_end p - pr_offset p) `min` MAX_DATA_SIZE in
  let bs := slice (Z.to_nat (pr_offset p)) n c in
  left_over c p = bs ++ left_over c (after_data n c p) ∧ length bs = n ∧ left_over c p ≠ [] ∧ take MAX_DATA_SIZE (left_over c p) = bs ∧
  drop MAX_DATA_SIZE (left_over c p) = left_over c (after_data n c p).
Proof.
  intros Ho He n bs. assert (0 < n ≤ MAX_DATA_SIZE) as Hn by (unfold n; rewrite max_data_size; lia).
  assert (length bs = n) as Hlb by (apply length_slice; lia).
  pose proof (length_left_over c p ltac:(lia) He) as Hl.
  assert (left_over c p = bs ++ left_over c (after_data n c p)) as E.
  { unfold left_over, after_data, bs. cbn [pr_offset pr_end]. rewrite Z2Nat.inj_add, Nat2Z.id by lia.
    replace (Z.to_nat (pr_end p - pr_offset p)) with (n + Z.to_nat (pr_end p - (pr_offset p + Z.of_nat n))) by lia. by rewrite slice_app. }
  split; [done|]. split; [done|]. split; [intros E0; rewrite E0 in Hl; cbn in Hl; lia|].
  destruct (decide (n = MAX_DATA_SIZE)) as [En|En].
  - rewrite E, <- En, <- Hlb. by rewrite take_app_length, drop_app_length.
  - assert (left_over c (after_data n c p) = []) as E0.
    { apply nil_length_inv. rewrite E, length_app, Hlb in Hl. unfold n in *. lia. }
    rewrite E, E0, app_nil_r. rewrite take_ge, drop_ge by lia. done.
Qed.

Lemma next_packets_data c total p :
  (0 ≤ pr_offset p < pr_end p)%Z → (pr_end p ≤ Z.of_nat (length c))%Z →
  let n := Z.to_nat (pr_end p - pr_offset p) `min` MAX_DATA_SIZE in
  next_packets c total p =
    PData (DataPacket_initialize (pr_sequence_index p) (pr_offset p) (Z.of_nat n) (slice (Z.to_nat (pr_offset p)) n c)) ::
    next_packets c total (after_data n c p).
Proof.
  intros Ho He n. destruct (left_over_split c p Ho He) as (_ & Hlb & Hne & Et & Ed). fold n in Hlb, Et, Ed. unfold next_packets.
  rewrite (cut_blocks_unfold _ Hne), Et, Ed. cbn [block_packets fmap list_fmap app length]. rewrite Hlb.
  cbn [after_data pr_sequence_index pr_offset]. match goal with |- context [EndPacket_initialize (?a + Z.of_nat (S ?m))%Z] => replace (a + Z.of_nat (S m))%Z with (a + 1 + Z.of_nat m)%Z by lia end. done.
Qed.

Lemma next_packets_end c total p : left_over c p = [] → next_packets c total p = [PEnd (EndPacket_initialize (pr_sequence_index p) total)].
Proof. intros E. unfold next_packets. rewrite E. cbn. by rewrite Z.add_0_r. Qed.

(** The packet in flight comes back: the next one goes out. *)
Lemma return_exact cyc k e w i ds total q ps b s :
  base cyc k s → (0 ≤ k)%Z → (k + 4 < 2 ^ 32)%Z → script w = [] → flying s b → wiring e w i ds total (q :: ps) s →
  wp (buffer_return_handler true true b) s (λ _ s' o, wiring e w i ds total ps s' ∧ responses o = [] ∧ ∃ b', sent o = [b'] ∧ carries b' q).
Proof.
  intros Hb Hk0 Hk Hq (Hid & Har & Ht & Hcur) [Wm We Wb Wr Ws Wd [[_ ?]|(Wo & Wend & Wt & Wck & Wps)]]; [done|].
  unfold buffer_return_handler. wp_steps. pose proof (base_push _ _ _ _ Hb Har) as Hb1. set (s1 := push_storage (storage b) s) in *.
  assert (dl_mode s1 = dl_mode s ∧ progress s1 = progress s ∧ dl_file s1 = dl_file s ∧ cur_entry s1 = cur_entry s) as (Em & Ep & Ef & Ee).
  { unfold s1, push_storage. by destruct (bool_decide _ && bool_decide _). }
  rewrite Em, Ep, <- Hid, Z.eqb_refl, Wm. rewrite (bool_decide_eq_false_2 (DlWait = DlIdle)) by done. cbn [negb orb].
  eapply wp_assert; [done|]. assert (last_completed_type (progress s) = FptStart ∨ last_completed_type (progress s) = FptData) as Ht2.
  { rewrite Wt. case_decide; auto. }
  rewrite (bool_decide_eq_false_2 (_ = FptEnd)), (bool_decide_eq_false_2 (_ = FptCancel)) by (by destruct Ht2 as [-> | ->]). cbn [orb].
  rewrite (bool_decide_eq_true_2 (DlWait = DlWait)) by done. cbn [when]. wp_steps. set (s2 := dl_set_mode DlDownlink s1).
  assert (base cyc k s2) as Hb2 by (clear Hb; unfold s2; base_tac).
  unfold downlink_packet. wp_steps. cbn [s2 dl_set_mode progress dl_mode]. rewrite Ep. eapply wp_assert; [by rewrite bool_decide_eq_false_2|].
  eapply wp_assert; [done|]. set (c := node w i) in *. set (p := progress s) in *.
  destruct (decide (left_over c p = [])) as [Hlo|Hlo]; rewrite Wt.
  - (* END *)
    rewrite (bool_decide_eq_false_2 (FptData = FptStart)), (bool_decide_eq_true_2 (FptData = FptData)), !andb_false_r by done.
    apply wp_bind. unfold send_end_packet. wp_steps. rewrite Hlo in Wck. rewrite (next_packets_end c total p Hlo) in Wps. injection Wps as -> ->.
    assert (is_u 32 (value (dl_checksum (dl_file s)))) as Hck by (destruct Hb as [_ _ _ (_ & _ & _ & ? & _)]; done).
    rewrite update_nil in Wck by (done || lia). change (progress s2) with (progress s1). change (dl_file s2) with (dl_file s1). rewrite Ep, Ef, Wck. fold p.
    assert (is_u 32 total) as Htot by (by rewrite <- Wck).
    apply send_file_packet_wp; [by destruct Hb2|split; [split; [done|unfold p, is_u; destruct Hb; cbn; lia]|exact Htot]
      |cbn; unfold INTERNAL_BUFFER_SIZE, FW_COM_BUFFER_MAX_SIZE; lia|destruct Hb2; lia|].
    intros b' sts Hc Hctx Har' Hsts. wp_steps. split; [|split; [done|by exists b']].
    split; cbn; rewrite ?Ef, ?Ep, ?Ee; try done. by left.
  - (* DATA *)
    rewrite (bool_decide_eq_false_2 (DlDownlink = DlCancel)), (bool_decide_eq_true_2 (DlDownlink = DlDownlink)), (bool_decide_eq_true_2 (FptStart = FptStart)) by done.
    cbn [andb]. apply wp_bind.
    assert (pr_offset p < pr_end p)%Z as Hlt by (rewrite (left_over_empty c p Wo Wend) in Hlo; lia).
    eapply wp_mono; [apply (send_data_exact cyc k w i ds s2); try done; cbn [s2 dl_set_mode progress dl_file]; rewrite ?Ep, ?Ef; try done|].
    change (progress s2) with (progress s1). change (dl_file s2) with (dl_file s1). change (cur_entry s2) with (cur_entry s1). rewrite Ep, Ef, Ee. fold p c.
    intros st s' o (-> & Er & (b' & Es & Hc') & Ep' & Ee' & Wr' & Wb' & Esrc & Edst & Eck).
    rewrite (bool_decide_eq_true_2 (FsOpOk = FsOpOk)) by done. cbn [negb]. wp_steps.
    rewrite (next_packets_data c total p) in Wps by (done || lia). injection Wps as -> ->.
    destruct (left_over_split c p ltac:(lia) Wend) as (El & Hlb & _ & _ & _). set (n := Z.to_nat (pr_end p - pr_offset p) `min` MAX_DATA_SIZE) in *.
    rewrite app_nil_r. split; [|split; [done|by exists b']].
    split; cbn [dl_mode dl_set_mode dl_set_progress cur_entry dl_file progress]; try congruence; [done..|]. right. rewrite Ep'.
    cbn [with_timer after_data pr_offset pr_end last_completed_type].
    assert (Z.of_nat n ≤ pr_end p - pr_offset p)%Z as Hn by (unfold n; lia).
    assert (left_over c (with_timer 0 (after_data n c p)) = left_over c (after_data n c p)) as Elo by done. fold c. rewrite Elo. split_and!; [lia|lia|done| | |done].
    + pose proof (left_over_empty c (after_data n c p)) as Hem. cbn [after_data pr_offset pr_end] in Hem. specialize (Hem ltac:(lia) Wend).
      case_decide as Hd; [rewrite Hem in Hd; rewrite (proj2 (Z.eqb_eq _ _)) by lia; done|]. rewrite Hem in Hd. by rewrite (proj2 (Z.eqb_neq _ _)) by lia.
    + rewrite Eck. rewrite <- Hlb at 2. rewrite update_app; [by rewrite <- El|lia|]. destruct Hb as [_ _ _ (_ & _ & _ & ? & _)]; done.
Qed.

Lemma dl_cut_bytes n : dl_cut n = take DL_EVENT_STRING_SIZE (as_bytes n).
Proof. unfold dl_cut, as_bytes. by rewrite take_take, Nat.min_comm. Qed.

(** Closed, over world [w], in the sandbox. *)
Definition closed_over (w : World) (ds : list (list Z)) (s : D) : Prop :=
  (∃ r b, sf_file (dl_os_file (dl_file s)) = (MkFile None OpenNoMode r b, w)) ∧ sandboxed ds (dl_os_file (dl_file s)).

Definition file_sent_event (e : FileEntry) : DlOut :=
  DlLog (DlFileSent (take DL_EVENT_STRING_SIZE (as_bytes (src_filename e))) (take DL_EVENT_STRING_SIZE (as_bytes (dest_filename e)))).

(** END comes back. *)
Lemma finish_exact cyc k e w i ds total b s :
  base cyc k s → (k + 4 < 2 ^ 32)%Z → flying s b → wiring e w i ds total [] s →
  wp (buffer_return_handler true true b) s (λ _ s' o, sent o = [] ∧ responses o = [answer e] ∧ file_sent_event e ∈ o ∧
    dl_mode s' = DlCooldown ∧ closed_over w ds s').
Proof.
  intros Hb Hk (Hid & Har & Ht & Hcur) [Wm We Wb Wr Ws Wd [[Wt _]|(_ & _ & _ & _ & Wps)]]; [|by symmetry in Wps; apply app_nil in Wps as [_ ?]].
  unfold buffer_return_handler. wp_steps. set (s1 := push_storage (storage b) s) in *.
  assert (dl_mode s1 = dl_mode s ∧ progress s1 = progress s ∧ dl_file s1 = dl_file s ∧ cur_entry s1 = cur_entry s ∧ files_sent s1 = files_sent s) as (Em & Ep & Ef & Ee & Efs).
  { unfold s1, push_storage. by destruct (bool_decide _ && bool_decide _). }
  rewrite Em, Ep, <- Hid, Z.eqb_refl, Wm. rewrite (bool_decide_eq_false_2 (DlWait = DlIdle)) by done. cbn [negb orb].
  eapply wp_assert; [done|]. rewrite Wt. rewrite (bool_decide_eq_true_2 (FptEnd = FptEnd)), (bool_decide_eq_false_2 (FptEnd = FptCancel)) by done. cbn [orb].
  unfold finish_helper, dl_log. wp_steps. eapply wp_lift; [apply add_32; rewrite Efs; destruct Hb; lia|]. wp_steps. apply send_response_wp.
  change (cur_entry (enter_cooldown _)) with (cur_entry s1). rewrite Ee, We.
  destruct (answered_after e [DlTlm CHANID_FILES_SENT (files_sent s1 + 1); DlLog (DlFileSent (dl_source s1) (dl_dest s1))] eq_refl eq_refl) as [E1 E2].
  split; [exact E1|]. split; [exact E2|]. split; [|split; [done|split]].
  - assert (file_sent_event e = DlLog (DlFileSent (dl_source s1) (dl_dest s1))) as ->; [|set_solver].
    unfold file_sent_event, dl_source, dl_dest. by rewrite !dl_cut_bytes, Ef, Ws, Wd.
  - destruct Wr as (pos & r & b' & E). exists r, b'. cbn. unfold file_close. by rewrite Ef, E.
  - cbn. by rewrite Ef.
Qed.

(** ** Everything else that may happen meanwhile *)

(** Not a cancellation, nor a change of the file system. *)
Definition gentle (id : Z) (a : DlAction) : Prop :=
  match a with
  | ACommand op _ _ => wrap 32 (op - id) ≠ OPCODE_CANCEL
  | AWorld _ => False
  | _ => True
  end.
Definition is_return (a : DlAction) : Prop := match a with AReturn => True | _ => False end.
#[local] Instance is_return_dec a : Decision (is_return a).
Proof. destruct a; apply _. Defined.
Definition returns (acts : list DlAction) : nat := length (filter is_return acts).

Lemma wiring_kept e w i ds total ps s s' t :
  wiring e w i ds total ps s → dl_mode s' = dl_mode s → cur_entry s' = cur_entry s → dl_file s' = dl_file s → progress s' = with_timer t (progress s) →
  wiring e w i ds total ps s'.
Proof. intros [] E1 E2 E3 E4. split; rewrite ?E1, ?E2, ?E3, ?E4; done. Qed.
Lemma same_timer (p : Progress) : p = with_timer (pr_timer p) p.
Proof. by destruct p. Qed.

(** An action that is not a return. *)
Lemma other_step cyc k id e w i ds total ps a l :
  line_ok cyc k l → action_ok a → gentle id a → ~ is_return a → (0 ≤ cyc)%Z → (0 ≤ k)%Z → (k + cyc + 4 < 2 ^ 32)%Z →
  wiring e w i ds total ps (comp l) →
  wp (act cwd id a) l (λ _ l' o, wiring e w i ds total ps (comp l') ∧ answers l' = answers l ∧ sent o = []).
Proof.
  intros [Hb Hc _] Ha Hg Hr Hcyc Hk0 Hk Hw. pose proof (w_mode _ _ _ _ _ _ _ Hw) as Hm.
  assert (∀ A (m : DlM A), wp m (comp l) (λ _ s' o, quietly cyc k false (comp l) s' o) →
    wp (commit false (flight l) m) l (λ _ l' o, wiring e w i ds total ps (comp l') ∧ answers l' = answers l ∧ sent o = [])) as Hquiet.
  { intros A m H'. apply commit_wp. eapply wp_mono; [exact H'|]. intros x s' o (_ & Es & Ep & Ee & Ef & [Em|(? & _)] & _); [|done].
    split_and!; [|apply app_nil_r|done]. eapply wiring_kept; [done..|]. cbn. rewrite Ep. apply same_timer. }
  destruct a as [| |op seq args|src dst off len|key|w']; unfold wp, act; try done.
  - refine (commit_wp true (flight l) (dl_run_handler cwd true true) l _ _). unfold dl_run_handler. wp_steps. rewrite Hm.
    eapply wp_lift; [apply add_32; destruct Hb; lia|]. cbv beta. wp_steps. split_and!; [|apply app_nil_r|done]. by eapply wiring_kept.
  - apply Hquiet. eapply wp_mono; [apply (command_wp cyc k); [done|by rewrite Hm|done]|]. cbn [gentle] in Hg. rewrite (proj2 (Z.eqb_neq _ _) Hg). done.
  - apply Hquiet. destruct Ha as (? & ? & ? & ?). by apply request_wp.
  - apply Hquiet. unfold dl_ping_handler. wp_steps. by apply quietly_refl.
Qed.

Lemma flying_of cyc k l : line_ok cyc k l → dl_mode (comp l) = DlWait → ∃ b, flight l = [b] ∧ flying (comp l) b.
Proof. intros [_ Hc _] Hm. unfold credit in Hc. by rewrite Hm in Hc. Qed.

Lemma return_step cyc k id e w i ds total q ps l :
  line_ok cyc k l → (0 ≤ k)%Z → (k + 4 < 2 ^ 32)%Z → script w = [] → wiring e w i ds total (q :: ps) (comp l) →
  wp (act cwd id AReturn) l (λ _ l' o, wiring e w i ds total ps (comp l') ∧ answers l' = answers l ∧ ∃ b, sent o = [b] ∧ carries b q).
Proof.
  intros Hl Hk0 Hk Hq Hw. destruct (flying_of cyc k l Hl (w_mode _ _ _ _ _ _ _ Hw)) as (b & Ef & Hf). unfold wp, act. rewrite Ef.
  refine (commit_wp true [] (buffer_return_handler true true b) l _ _).
  eapply wp_mono; [apply (return_exact cyc k e w i ds total q ps); try done; apply Hl|]. intros [] s' o (Hw' & Er & Hb'). cbn. rewrite Er, app_nil_r. done.
Qed.

Lemma gentle_run cyc id e w i ds total acts : ∀ k l ps,
  line_ok cyc k l → wiring e w i ds total ps (comp l) → Forall action_ok acts → Forall (gentle id) acts → returns acts ≤ length ps →
  script w = [] → (0 ≤ cyc)%Z → (0 ≤ k)%Z → (k + (cyc + 4) * Z.of_nat (length acts) < 2 ^ 32)%Z →
  wp (act_all cwd id acts) l (λ _ l' o, line_ok cyc (k + (cyc + 4) * Z.of_nat (length acts)) l' ∧
    wiring e w i ds total (drop (returns acts) ps) (comp l') ∧ answers l' = answers l ∧ Forall2 carries (sent o) (take (returns acts) ps)).
Proof.
  induction acts as [|a acts IH]; intros k l ps Hl Hw Hok Hg Hr Hq Hcyc Hk0 Hk; cbn [act_all length] in *.
  { apply wp_ret. cbn. rewrite drop_0. split_and!; [by apply (line_mono _ k); [|lia]|done|done|constructor]. }
  apply Forall_cons in Hok as [Ha Hok]. apply Forall_cons in Hg as [Hga Hg]. apply wp_bind.
  assert (∃ r ps', returns (a :: acts) = r + returns acts ∧ drop r ps = ps' ∧ r ≤ length ps ∧
    wp (act cwd id a) l (λ _ l' o, wiring e w i ds total ps' (comp l') ∧ answers l' = answers l ∧ Forall2 carries (sent o) (take r ps))) as (r & ps' & Er & <- & Hrl & Hstep).
  { unfold returns in *. destruct (decide (is_return a)) as [Hret|Hret].
    - destruct a; try done. rewrite filter_cons_True in * by done. cbn [length] in *. destruct ps as [|q ps]; [cbn in Hr; lia|].
      exists 1, ps. split_and!; [done|done|cbn; lia|]. eapply wp_mono; [apply (return_step cyc k); try done; lia|].
      intros [] l' o (H1 & H2 & b & Es & Hb). rewrite Es. cbn [take]. rewrite take_0. split_and!; try done. apply Forall2_cons. split; [done|by apply Forall2_nil].
    - rewrite filter_cons_False in * by done. exists 0, ps. split_and!; [done|by rewrite drop_0|lia|].
      eapply wp_mono; [apply (other_step cyc k); try done; lia|]. intros [] l' o (H1 & H2 & Es). rewrite Es. split_and!; done. }
  eapply wp_mono; [apply wp_and; [apply (act_step cwd cyc k); try done; lia|exact Hstep]|]. intros [] l1 o1 (Hl1 & Hw1 & Ea1 & Hs1).
  eapply wp_mono; [apply (IH (k + cyc + 4)%Z l1 (drop r ps)); try done; [rewrite length_drop; lia|lia|lia]|].
  intros [] l2 o2 (Hl2 & Hw2 & Ea2 & Hs2). rewrite Er. split_and!.
  - apply (line_mono _ _ _ _ Hl2). lia.
  - by rewrite drop_drop in Hw2.
  - congruence.
  - rewrite sent_app, <- take_take_drop. by apply Forall2_app.
Qed.

(** ** The start *)

Lemma set_name n src : name_ok n → string_ok src → len src ≤ FW_LOG_STRING_MAX_SIZE → as_bytes (set_bytes (as_bytes src) n) = as_bytes src.
Proof.
  intros [Hn Hc] Hs Hl. pose proof (length_as_bytes src Hs) as Hlb. pose proof Hs as (_ & Hb & Hz).
  destruct (set_bytes_spec (as_bytes src) n) as (_ & _ & ->); [by apply Forall_take|done|]. rewrite Hc, c_str_len_full by done. apply take_ge. lia.
Qed.

(** The end of what a request asks for. *)
Lemma region_end e c : is_u 32 (entry_offset e) → is_u 32 (entry_length e) → (entry_offset e < Z.of_nat (length c))%Z →
  let rest := (Z.of_nat (length c) - entry_offset e)%Z in
  let n := if (rest <? entry_length e)%Z then rest else entry_length e in
  Z.of_nat (region_length e c) = (if 0 <? n then n else rest)%Z ∧ (0 < Z.of_nat (region_length e c) ≤ rest)%Z.
Proof.
  intros Ho Hl Hlt rest n. unfold region_length, n, is_u in *.
  destruct (Z.ltb_spec rest (entry_length e)), (Z.eqb_spec (entry_length e) 0); try lia.
  - rewrite (proj2 (Z.ltb_lt 0 rest)) by lia. lia.
  - rewrite (proj2 (Z.ltb_ge 0 (entry_length e))) by lia. lia.
  - rewrite (proj2 (Z.ltb_lt 0 (entry_length e))) by lia. lia.
Qed.

Definition total_of (e : FileEntry) (c : list Z) : Z := get_value (update (region e c) (entry_offset e) Checksum_new).

Lemma send_file_exact cyc k e w ds p i s :
  base cyc k s → entry_ok e → cur_entry s = e → (0 ≤ k)%Z → (k + 4 < 2 ^ 32)%Z → closed_over w ds s → script w = [] →
  reaches cwd ds (as_bytes (src_filename e)) p → names w !! p = Some i → (Z.of_nat (length (node w i)) < 2 ^ 32)%Z →
  (entry_offset e < Z.of_nat (length (node w i)))%Z →
  len (src_filename e) ≤ FW_LOG_STRING_MAX_SIZE → len (dest_filename e) ≤ FW_LOG_STRING_MAX_SIZE →
  let c := node w i in
  let start := StartPacket_initialize (Z.of_nat (length c)) (as_bytes (src_filename e)) (as_bytes (dest_filename e)) in
  wp (send_file cwd true true (src_filename e) (dest_filename e) (entry_offset e) (entry_length e)) s (λ _ s' o,
    wiring e w i ds (total_of e c) (tail (downlink_session e c)) s' ∧ responses o = [] ∧ ∃ b, sent o = [b] ∧ carries b (PStart start)).
Proof.
  intros Hb He Hce Hk0 Hk [(r0 & b0 & Hfile) Hbox] Hq Hr Hi Hlen Hoff Hls Hld c start. unfold send_file. wp_steps.
  destruct (dlfile_open_exact w ds (dl_file s) e p i r0 b0 Hfile Hq Hbox Hr Hi Hlen) as (f & E & Wr & Wb & Esrc & Edst & Eck & Esz). fold c in Esz, Hoff, Hlen.
  pose proof (b_file _ _ _ Hb) as Hdl. pose proof He as (Hs & Hd & Ho & Hl).
  destruct (dlfile_open_ok cwd _ _ _ Hdl Hs Hd) as (st & f' & E' & Hf). rewrite E in E'. injection E' as <- <-.
  eapply wp_lift; [exact E|]. cbv beta iota. wp_steps. rewrite (bool_decide_eq_true_2 (FsOpOk = FsOpOk)) by done. cbn [negb]. rewrite Esz.
  rewrite (proj2 (Z.eqb_neq _ _)) by (unfold is_u in *; lia). rewrite (proj2 (Z.leb_gt _ _)) by done.
  destruct (region_end e c Ho Hl Hoff) as [Hre Hrl].
  set (rest := (Z.of_nat (length c) - entry_offset e)%Z) in *. set (n := if (rest <? entry_length e)%Z then rest else entry_length e) in *.
  set (s1 := dl_set_file f s). apply wp_bind.
  eapply wp_mono with (Q := λ _ s' o, s' = s1 ∧ sent o = [] ∧ responses o = []); [by destruct (rest <? entry_length e)%Z; unfold when, dl_log; wp_steps|].
  intros [] ? o0 (-> & Es0 & Er0). wp_steps. apply wp_bind. unfold send_start_packet. wp_steps.
  assert (as_bytes (source_name f) = as_bytes (src_filename e)) as Hsn by (rewrite Esrc; apply set_name; [apply Hdl|done|done]).
  assert (as_bytes (dest_name f) = as_bytes (dest_filename e)) as Hdn by (rewrite Edst; apply set_name; [apply Hdl|done|done]).
  destruct (start_packet_ok f Hf) as [Hpk Hsz]. rewrite Esz, Hsn, Hdn in Hpk, Hsz. cbn [get_buffer s1 dl_set_file dl_set_progress dl_file]. rewrite Esz, Hsn, Hdn.
  apply send_file_packet_wp; [by destruct Hb|done|done|cbn; destruct Hb; lia|].
  intros b sts Hc Hctx Har Hsts. wp_steps.
  assert (∀ e', e' = (entry_offset e + Z.of_nat (region_length e c))%Z → wiring e w i ds (total_of e c) (tail (downlink_session e c))
    (dl_set_progress (with_end e' (with_type FptStart (with_offset (entry_offset e) (with_timer 0 (with_sequence 1 (progress (get_buffer s1)))))))
     (dl_set_mode DlWait (dl_set_counts (files_sent s) (packets_sent s + 1) (dl_warnings s) (dl_set_storage sts (get_buffer s1)))))) as Hwi.
  { intros e' ->. split; cbn; try done. right. fold c.
    match goal with |- context [left_over c ?p] => assert (left_over c p = region e c) as Elo end.
    { unfold left_over, region. cbn. f_equal. lia. }
    rewrite Elo, Eck. unfold is_u in *. split_and!; [lia|lia|lia| |done|].
    - rewrite decide_False; [done|]. intros E0%(f_equal length). unfold region in E0. rewrite length_slice in E0 by lia. cbn in E0. lia.
    - unfold downlink_session, session, next_packets. cbn [tail pr_sequence_index pr_offset with_end with_type with_offset with_timer with_sequence]. by rewrite Elo. }
  assert (∀ s' o, wiring e w i ds (total_of e c) (tail (downlink_session e c)) s' → sent o = [b] → responses o = [] →
    wiring e w i ds (total_of e c) (tail (downlink_session e c)) s' ∧ responses (o0 ++ o) = [] ∧ ∃ b, sent (o0 ++ o) = [b] ∧ carries b (PStart start)) as Hpost.
  { intros s' o Hwi' Eo Er. rewrite sent_app, responses_app, Es0, Er0, Eo, Er. split_and!; [done|done|]. by exists b. }
  destruct (Z.ltb_spec 0 n) as [Hn|Hn].
  - unfold dl_log. wp_steps. eapply wp_lift; [apply add_32; unfold is_u in *; lia|]. wp_steps. apply Hpost; [|done|done]. apply Hwi. lia.
  - unfold dl_log. wp_steps. apply Hpost; [|done|done]. apply Hwi. lia.
Qed.

(** * Whole files *)

Lemma act_all_app id a b l (Q : unit → Line → list DlOut → Prop) :
  wp (act_all cwd id a) l (λ _ l' o, wp (act_all cwd id b) l' (λ _ l'' o', Q tt l'' (o ++ o'))) → wp (act_all cwd id (a ++ b)) l Q.
Proof.
  revert l Q. induction a as [|x a IH]; intros l Q; cbn [act_all app].
  - unfold wp. cbn. by destruct (act_all cwd id b l) as [[[[] ?] ?]|].
  - intros Hw. apply wp_bind. unfold wp in Hw |- *. unfold mbind, CompM_bind in Hw. destruct (act cwd id x l) as [[[[] l1] o1]|]; [|done].
    apply IH. unfold wp. destruct (act_all cwd id a l1) as [[[[] l2] o2]|]; [|done]. destruct (act_all cwd id b l2) as [[[[] l3] o3]|]; [|done].
    by rewrite app_assoc.
Qed.

(** [e] is next in an idle component, and names the file [p] with content
    [c]. *)
Record ready (cyc k : Z) (w : World) (ds : list (list Z)) (e : FileEntry) (p c : list Z) (l : Line) : Prop := {
  r_line : line_ok cyc k l;
  r_idle : dl_mode (comp l) = DlIdle;
  r_next : head (file_queue (comp l)) = Some e;
  r_closed : closed_over w ds (comp l);
  r_quiet : script w = [];
  r_reaches : reaches cwd ds (as_bytes (src_filename e)) p;
  r_content : file_at w p = Some c;
  r_size : (Z.of_nat (length c) < 2 ^ 32)%Z;
  r_offset : (entry_offset e < Z.of_nat (length c))%Z;
  r_names : len (src_filename e) ≤ FW_LOG_STRING_MAX_SIZE ∧ len (dest_filename e) ≤ FW_LOG_STRING_MAX_SIZE;
}.

Lemma start_exact cyc k id w ds e p c l :
  ready cyc k w ds e p c l → (0 ≤ cyc)%Z → (0 ≤ k)%Z → (k + cyc + 4 < 2 ^ 32)%Z →
  wp (act cwd id ARun) l (λ _ l' o, ∃ i, node w i = c ∧ wiring e w i ds (total_of e c) (tail (downlink_session e c)) (comp l') ∧ answers l' = answers l ∧
    Forall2 carries (sent o) [PStart (StartPacket_initialize (Z.of_nat (length c)) (as_bytes (src_filename e)) (as_bytes (dest_filename e)))]).
Proof.
  intros [[Hb _ _] Hm Hn Hcl Hq Hr Hc Hsz Hoff [Hl1 Hl2]] Hcyc Hk0 Hk. unfold file_at in Hc. destruct (names w !! p) as [i|] eqn:Hi; [|done]. cbn in Hc. injection Hc as <-.
  destruct (file_queue (comp l)) as [|e' q] eqn:Eq; [done|]. injection Hn as ->. pose proof (b_queue _ _ _ Hb) as Hqs. rewrite Eq in Hqs. apply Forall_cons in Hqs as [He Hqs].
  refine (commit_wp true (flight l) (dl_run_handler cwd true true) l _ _). unfold dl_run_handler. wp_steps. rewrite Hm, Eq. wp_steps.
  eapply wp_mono; [apply (send_file_exact cyc k e w ds p i); try done|].
  - pose proof (b_depth _ _ _ Hb) as Hd. rewrite Eq in Hd. cbn [length] in Hd. base_tac.
  - lia.
  - intros [] s' o (Hw & Er & b & Es & Hcar). exists i. split_and!; [done|done|cbn; by rewrite Er, app_nil_r|]. rewrite Es. apply Forall2_cons. split; [done|by apply Forall2_nil].
Qed.

Lemma send_run cyc k id w ds e p c l acts :
  ready cyc k w ds e p c l → Forall action_ok acts → Forall (gentle id) acts → returns acts = length (cut_blocks (region e c)) + 1 →
  (0 ≤ cyc)%Z → (0 ≤ k)%Z → (k + (cyc + 4) * Z.of_nat (length acts + 2) < 2 ^ 32)%Z →
  wp (act_all cwd id (ARun :: acts ++ [AReturn])) l (λ _ l' o, Forall2 carries (sent o) (downlink_session e c) ∧
    flight l' = [] ∧ answers l' = answers l ++ [answer e] ∧ file_sent_event e ∈ o ∧ dl_mode (comp l') = DlCooldown ∧ closed_over w ds (comp l')).
Proof.
  intros Hrd Hok Hg Hret Hcyc Hk0 Hk. cbn [act_all]. apply wp_bind.
  eapply wp_mono; [apply wp_and; [apply (act_step cwd cyc k id ARun); [apply Hrd|done..|lia]|apply (start_exact cyc k id w ds e p c); try done; lia]|].
  intros [] l1 o1 (Hl1 & i & <- & Hw1 & Ea1 & Hs1). set (c := node w i) in *. apply act_all_app.
  assert (length (tail (downlink_session e c)) = returns acts) as Hlen.
  { unfold downlink_session, session. cbn [tail]. rewrite length_app, length_fmap, length_block_packets. cbn [length]. lia. }
  eapply wp_mono; [apply (gentle_run cyc id e w i ds (total_of e c) acts (k + cyc + 4)%Z l1 _ Hl1 Hw1); try done; try lia; apply Hrd|].
  intros [] l2 o2 (Hl2 & Hw2 & Ea2 & Hs2). rewrite take_ge in Hs2 by lia. rewrite drop_ge in Hw2 by lia.
  cbn [act_all]. apply wp_bind. destruct (flying_of _ _ l2 Hl2 (w_mode _ _ _ _ _ _ _ Hw2)) as (b & Ef & Hf). unfold wp at 1, act. rewrite Ef.
  refine (commit_wp true [] (buffer_return_handler true true b) l2 _ _).
  eapply wp_mono; [apply (finish_exact cyc (k + cyc + 4 + (cyc + 4) * Z.of_nat (length acts))%Z e w i ds (total_of e c)); [apply Hl2|lia|done|done]|].
  intros [] s' o3 (Es3 & Er3 & Hev & Hm3 & Hcl). apply wp_ret. rewrite app_nil_r. cbn [flight answers comp]. rewrite Es3, Er3, Ea2, Ea1. split_and!; try done.
  - rewrite !sent_app, Es3, app_nil_r. exact (Forall2_app Hs1 Hs2).
  - apply elem_of_app. right. apply elem_of_app. by right.
Qed.

(** C13. The packets of a file, when nothing cancels it.  On a file system
    without faults whose files do not change during the transfer, with a
    request for an existing file of fewer than 2^32 bytes, beyond the offset
    requested, next in the queue of a component at rest ([ready]): a
    tick sends START, and each packet that comes back is followed by the next,
    so that, however ticks, pings, further requests and commands other than
    CANCEL ([gentle]) are interleaved, the packets sent are exactly START with
    the file's size and names, the requested bytes cut into pieces of 499 in
    order at their offsets, and END with their checksum; when END has come
    back the transfer is reported, the request answered with success, nothing
    is in flight and the file is closed.  The calls are few enough for the
    32-bit counters and timer: the cycle time plus four, times their number,
    stays below 2^32. *)
Theorem downlink_sends_file cyc k id w ds e p c l acts :
  ready cyc k w ds e p c l → Forall action_ok acts → Forall (gentle id) acts → returns acts = length (cut_blocks (region e c)) + 1 →
  (0 ≤ cyc)%Z → (0 ≤ k)%Z → (k + (cyc + 4) * Z.of_nat (length acts + 2) < 2 ^ 32)%Z →
  ∃ l' o, act_all cwd id (ARun :: acts ++ [AReturn]) l = Ret (tt, l', o) ∧ Forall2 carries (sent o) (downlink_session e c) ∧
    flight l' = [] ∧ answers l' = answers l ++ [answer e] ∧ file_sent_event e ∈ o ∧ dl_mode (comp l') = DlCooldown ∧ closed_over w ds (comp l').
Proof.
  intros Hrd Hok Hg Hret Hcyc Hk0 Hk. pose proof (send_run cyc k id w ds e p c l acts Hrd Hok Hg Hret Hcyc Hk0 Hk) as Hw.
  apply wp_returns in Hw as ([] & l' & o & E & HQ). eauto.
Qed.

Lemma whole_region e c : entry_offset e = 0%Z → entry_length e = 0%Z → region e c = c.
Proof. intros Ho Hl. unfold region, region_length. rewrite Ho, Hl. cbn. rewrite Nat.sub_0_r. by apply slice_0_full. Qed.

(** C11. File transfer end to end: what one component sends the other stores.
    Under the conditions of the transfer of a file (no fault, no change of the
    source, no CANCEL, counters in range), the packets [FileDownlink] sends
    for a whole file, each acknowledged by
    its return, are delivered in order to a [FileUplink] that is between
    transfers, on a system without faults where the destination can be opened.
    Then the destination holds the source's bytes followed by
    whatever an older, longer file had beyond them - so exactly the file sent
    when there was none or one no longer than it -, no other file of the
    receiver has changed, its one event is the reception under the name
    requested, and every buffer is handed back. *)
Theorem downlink_uplink_delivers cwd' cyc k id w ds e p c l acts ds' w' s' k' q :
  ready cyc k w ds e p c l → entry_offset e = 0%Z → entry_length e = 0%Z →
  Forall action_ok acts → Forall (gentle id) acts → returns acts = length (cut_blocks c) + 1 →
  (0 ≤ cyc)%Z → (0 ≤ k)%Z → (k + (cyc + 4) * Z.of_nat (length acts + 2) < 2 ^ 32)%Z →
  idle ds' w' s' → low k' s' → (k' + 4 * Z.of_nat (length (cut_blocks c) + 2) < 2 ^ 32)%Z → reaches cwd' ds' (as_bytes (dest_filename e)) q →
  ∃ l1 o1 s1 o2 w1, act_all cwd id (ARun :: acts ++ [AReturn]) l = Ret (tt, l1, o1) ∧ answers l1 = answers l ++ [answer e] ∧
    receive_all cwd' (sent o1) s' = Ret (tt, s1, o2) ∧ returned o2 = sent o1 ∧ idle ds' w1 s1 ∧
    only_changed q (c ++ drop (length c) (default [] (file_at w' q))) w' w1 ∧
    logs o2 = [FileReceived (cut (received_name s' (as_bytes (dest_filename e))))].
Proof.
  intros Hrd Ho Hl Hok Hg Hret Hcyc Hk0 Hk Hi Hlow Hk' Hr. pose proof (whole_region e c Ho Hl) as Ereg.
  pose proof (send_run cyc k id w ds e p c l acts Hrd Hok Hg ltac:(by rewrite Ereg) Hcyc Hk0 Hk) as Hw.
  apply wp_returns in Hw as ([] & l1 & o1 & E & Hs & _ & Ha & _). destruct Hrd as [[Hb _ _] _ Hn Hcl _ _ Hc Hsz _ [_ Hl2]].
  assert (entry_ok e) as (_ & Hd & _) by (pose proof (b_queue _ _ _ Hb) as Hq; destruct (file_queue (comp l)); [done|]; injection Hn as ->; by apply Forall_cons in Hq as [? _]).
  assert (Forall is_byte c) as Hby.
  { destruct Hb as [_ _ _ (_ & _ & _ & _ & Hwb)]. destruct Hcl as [(r & b & Ef) _]. rewrite Ef in Hwb. unfold file_at in Hc.
    destruct (names w !! p) as [i|]; [|done]. cbn in Hc. injection Hc as <-. apply Hwb. }
  unfold downlink_session in Hs. rewrite Ereg, Ho in Hs. pose proof (cut_blocks_join c) as Ej.
  destruct (deliver_blocks cwd' ds' w' s' k' (as_bytes (src_filename e)) (as_bytes (dest_filename e)) (cut_blocks c) q (sent o1) Hi Hlow Hk' Hr)
    as (s1 & o2 & w1 & E2 & Hret2 & Hi2 & Hch & Hlog & _); rewrite ?Ej; try done.
  - split; [rewrite length_as_bytes by done; unfold PATH_NAME_MAX_LENGTH, FW_LOG_STRING_MAX_SIZE in *; lia|]. apply Forall_take, Hd.
  - by apply cut_blocks_ok.
  - rewrite Ej in Hch. exists l1, o1, s1, o2, w1. done.
Qed.
End transfer.

(** * Witnesses *)

Definition source_world : World := one_file (str "/f") [1; 2; 3]%Z [].
Definition the_request : DlAction := ARequest (port_name "/f") (port_name "/g") 0 0.
(** A component that has taken one request. *)
Definition requested `{BuildProfile} : Line :=
  match act None 0 the_request (line_new source_world 1 1 4) with Ret (_, l, _) => l | Panic => line_new source_world 1 1 4 end.
Definition the_entry : FileEntry :=
  MkEntry (set_bytes (str "/f") FileNameString_new) (set_bytes (str "/g") FileNameString_new) 0 0 FromPort 0 0 0.

Lemma requested_ready `{BuildProfile} : ready None 1 5 source_world [] the_entry (str "/f") [1; 2; 3]%Z requested.
Proof.
  split; try (vm_compute; done).
  - assert (wp (act None 0 the_request) (line_new source_world 1 1 4) (λ _ l' _, line_ok 1 (0 + 1 + 4) l')) as Hw.
    { apply act_step; [apply line_new_ok, one_file_bytes; fp_decide|fp_decide|done..]. }
    unfold wp in Hw. unfold requested. by destruct (act None 0 the_request (line_new source_world 1 1 4)) as [[[[] l] o]|].
  - split; [vm_compute; eauto|]. apply sandboxed_new.
  - exists [str "f"]. split_and!; try (vm_compute; reflexivity). apply prefix_nil.
  - vm_compute. lia.
Qed.

(** A ping and a tick come in between. *)
Lemma downlink_sends_file_witness :
  let P := true : BuildProfile in
  ∃ l' o, act_all None 0 (ARun :: [AReturn; APing 3; ARun; AReturn] ++ [AReturn]) requested = Ret (tt, l', o) ∧
    Forall2 carries (sent o) (session (StartPacket_initialize 3 (str "/f") (str "/g")) [DataPacket_initialize 1 0 3 [1; 2; 3]%Z] (EndPacket_initialize 2 0x01020300)) ∧
    answers l' = [DlComplete (MkResponse StatusOk 0)].
Proof.
  intros P. destruct (downlink_sends_file None 1 5 0 source_world [] the_entry (str "/f") [1; 2; 3]%Z requested [AReturn; APing 3; ARun; AReturn])
    as (l' & o & E & Hs & _ & Ha & _).
  - apply requested_ready.
  - repeat (constructor; [done|]). constructor.
  - repeat (constructor; [done|]). constructor.
  - vm_compute. reflexivity.
  - done.
  - done.
  - vm_compute. reflexivity.
  - exists l', o. split; [exact E|]. split; [|rewrite Ha; vm_compute; reflexivity].
    assert (downlink_session the_entry [1; 2; 3]%Z = session (StartPacket_initialize 3 (str "/f") (str "/g")) [DataPacket_initialize 1 0 3 [1; 2; 3]%Z] (EndPacket_initialize 2 0x01020300)) as <-
      by (vm_compute; reflexivity).
    exact Hs.
Defined.

Lemma downlink_uplink_delivers_witness :
  let P := true : BuildProfile in
  let old := one_file (str "/g") [9]%Z [] in
  ∃ l1 o1 s1 o2 w1, act_all None 0 (ARun :: [AReturn; AReturn] ++ [AReturn]) requested = Ret (tt, l1, o1) ∧
    receive_all None (sent o1) (FileUplink_new (File_new, old) true) = Ret (tt, s1, o2) ∧ file_at w1 (str "/g") = Some [1; 2; 3]%Z ∧
    logs o2 = [FileReceived (str "/g")].
Proof.
  intros P old. destruct (downlink_uplink_delivers None None 1 5 0 source_world [] the_entry (str "/f") [1; 2; 3]%Z requested [AReturn; AReturn] []
    old (FileUplink_new (File_new, old) true) 0 (str "/g")) as (l1 & o1 & s1 & o2 & w1 & E1 & _ & E2 & _ & _ & (_ & _ & Hf & _) & Hlog).
  - apply requested_ready.
  - done.
  - done.
  - repeat (constructor; [done|]). constructor.
  - repeat (constructor; [done|]). constructor.
  - vm_compute. reflexivity.
  - done.
  - done.
  - vm_compute. reflexivity.
  - apply idle_new; [done|apply one_file_ok].
  - apply low_new.
  - vm_compute. reflexivity.
  - exists [str "g"]. split_and!; try (vm_compute; reflexivity). apply prefix_nil.
  - exists l1, o1, s1, o2, w1. split; [exact E1|]. split; [exact E2|]. split; [exact Hf|]. rewrite Hlog. vm_compute. reflexivity.
Defined.
