(* ===== verification/PrmDb.v ===== *)
(** The parameter database [Svc::PrmDb], [crates/fprime-svc/src/prm_db.rs].

    Two bounded, insertion-ordered stores, active and staging; a file-load
    state machine; a file with a CRC and one record per parameter.  Handlers
    that touch files open one of their own and leave it closed, so the file
    system is the part of the state that remains.  [getPrm] runs on the
    caller's thread under the lock; every other handler runs on the
    component's thread, and what [getPrm] reads changes only in one locked
    assignment, so a handler is one step. *)

From stdpp Require Import list.
From S2P Require Import Prelude Serial SerialFacts Codec Fpp Packets Crc32 Comp FwString OsFile FilePaths.

(** * Data *)

Definition NUM_DB_ENTRIES : nat := 25.
Definition ENTRY_DELIMITER : Z := 0xA5.
Definition FW_PARAM_BUFFER_MAX_SIZE : nat := FW_COM_BUFFER_MAX_SIZE - 4 - 2.
Definition MIN_RECORD_SIZE : Z := 4.
Definition MAX_RECORD_SIZE : Z := Z.of_nat (FW_PARAM_BUFFER_MAX_SIZE + 4).
Definition OPCODE_PRM_SAVE_FILE : Z := 0.
Definition OPCODE_PRM_LOAD_FILE : Z := 1.
Definition OPCODE_PRM_COMMIT_STAGED : Z := 2.
Definition PRM_ID_NOT_FOUND_THROTTLE : Z := 5.

Definition ParamBuffer_new : serbuf := linear_buffer_new FW_PARAM_BUFFER_MAX_SIZE.

Inductive PrmDbType : Set := DbActive | DbStaging.
#[export] Instance PrmDbType_eq_dec : EqDecision PrmDbType.
Proof. solve_decision. Defined.
Inductive PrmDbFileLoadState : Set := PrmIdle | LoadingFileUpdates | FileUpdatesStaged.
#[export] Instance PrmDbFileLoadState_eq_dec : EqDecision PrmDbFileLoadState.
Proof. solve_decision. Defined.

Inductive PrmReadError : Set :=
| RdOpen | RdDelimiter | RdDelimiterSize | RdDelimiterValue | RdRecordSize | RdRecordSizeSize | RdRecordSizeValue
| RdParameterId | RdParameterIdSize | RdParameterValue | RdParameterValueSize | RdCrc | RdCrcSize | RdCrcBuffer | RdSeekZero.
Inductive PrmWriteError : Set :=
| WrOpen | WrDelimiter | WrDelimiterSize | WrRecordSize | WrRecordSizeSize | WrParameterId | WrParameterIdSize
| WrParameterValue | WrParameterValueSize | WrCrcPlace | WrCrcReal | WrCurrPosition | WrSeekZero | WrSeekPosition.

Inductive Merge : Set := Merge_ | Reset_.
#[export] Instance Merge_eq_dec : EqDecision Merge.
Proof. solve_decision. Defined.
Definition Merge_repr (m : Merge) : Z := match m with Merge_ => 0 | Reset_ => 1 end.
Definition Merge_VALUES : list (Z * Merge) := [(0, Merge_); (1, Reset_)]%Z.
#[export] Program Instance Merge_enum : FppEnum Merge := {|
  repr_bytes := 1; as_repr := Merge_repr; try_from := table_try_from Merge_VALUES |}.
Solve All Obligations with fpp_enum_laws.

Inductive PrmLoadAction : Set := SetParameter | SaveFileCommand | LoadFileCommand | CommitStagedCommand.
Inductive PrmUpdateType : Set := NoSlots | ParamAdded | ParamUpdated.
Inductive PrmLoadStatus : Set := LoadSuccess | LoadError.
#[export] Instance PrmLoadStatus_eq_dec : EqDecision PrmLoadStatus.
Proof. solve_decision. Defined.

Inductive PrmEvent : Set :=
| PrmIdNotFound (id : Z)
| PrmIdUpdated (id : Z)
| PrmDbFull (id : Z)
| PrmIdAdded (id : Z)
| PrmFileWriteError (stage : PrmWriteError) (record error : Z)
| PrmFileSaveComplete (records : nat)
| PrmFileReadError (stage : PrmReadError) (record error : Z)
| PrmFileLoadComplete (db : PrmDbType) (total added updated : nat)
| PrmDbCommitComplete
| PrmDbCopyAllComplete (src dest : PrmDbType)
| PrmDbFileLoadFailed
| PrmDbFileLoadInvalidAction (state : PrmDbFileLoadState) (action : PrmLoadAction)
| PrmFileBadCrc (read_crc comp_crc : Z).

Inductive PrmOut : Set :=
| PrmLog (e : PrmEvent)
| PrmCmdResponse (op cmd_seq : Z) (r : CmdResponse)
| PrmPing (key : Z).

(** * The store *)

Definition PrmDbStore : Type := list (Z * serbuf).

Fixpoint store_find (id : Z) (s : PrmDbStore) : option serbuf :=
  match s with
  | [] => None
  | (key, value) :: s' => if (key =? id)%Z then Some value else store_find id s'
  end.

(** The first entry with the key gets the value. *)
Fixpoint store_replace (id : Z) (value : serbuf) (s : PrmDbStore) : option PrmDbStore :=
  match s with
  | [] => None
  | (key, v) :: s' =>
      if (key =? id)%Z then Some ((key, value) :: s') else cons (key, v) <$> store_replace id value s'
  end.
Definition store_insert (id : Z) (value : serbuf) (s : PrmDbStore) : bool * PrmDbStore :=
  match store_replace id value s with
  | Some s' => (true, s')
  | None => if bool_decide (length s < NUM_DB_ENTRIES) then (true, s ++ [(id, value)]) else (false, s)
  end.

(** * The component *)

Record PrmDb : Type := MkPrmDb {
  prm_active : PrmDbStore;
  prm_staging : PrmDbStore;
  prm_load_state : PrmDbFileLoadState;
  prm_file_name : FwString;
  sandbox_dir : FwString;
  not_found_throttle : EventThrottle;
  prm_world : World;
}.

Definition PrmDb_new (w : World) : PrmDb :=
  MkPrmDb [] [] PrmIdle FwDefaultString_new FwDefaultString_new (EventThrottle_new PRM_ID_NOT_FOUND_THROTTLE) w.

Definition prm_set_active (a : PrmDbStore) (s : PrmDb) : PrmDb :=
  MkPrmDb a (prm_staging s) (prm_load_state s) (prm_file_name s) (sandbox_dir s) (not_found_throttle s) (prm_world s).
Definition prm_set_staging (a : PrmDbStore) (s : PrmDb) : PrmDb :=
  MkPrmDb (prm_active s) a (prm_load_state s) (prm_file_name s) (sandbox_dir s) (not_found_throttle s) (prm_world s).
Definition prm_set_state (l : PrmDbFileLoadState) (s : PrmDb) : PrmDb :=
  MkPrmDb (prm_active s) (prm_staging s) l (prm_file_name s) (sandbox_dir s) (not_found_throttle s) (prm_world s).
Definition prm_set_throttle (t : EventThrottle) (s : PrmDb) : PrmDb :=
  MkPrmDb (prm_active s) (prm_staging s) (prm_load_state s) (prm_file_name s) (sandbox_dir s) t (prm_world s).
Definition prm_set_world (w : World) (s : PrmDb) : PrmDb :=
  MkPrmDb (prm_active s) (prm_staging s) (prm_load_state s) (prm_file_name s) (sandbox_dir s) (not_found_throttle s) w.

(** [db_mut]. *)
Definition get_db (t : PrmDbType) (s : PrmDb) : PrmDbStore := match t with DbActive => prm_active s | DbStaging => prm_staging s end.
Definition set_db (t : PrmDbType) (d : PrmDbStore) (s : PrmDb) : PrmDb :=
  match t with DbActive => prm_set_active d s | DbStaging => prm_set_staging d s end.
Definition copy_db (dest src : PrmDbType) (s : PrmDb) : PrmDb :=
  if bool_decide (dest = src) then s
  else match dest with DbActive => prm_set_active (prm_staging s) s | DbStaging => prm_set_staging (prm_active s) s end.

Definition prm_configure (file : list Z) (s : PrmDb) : PrmDb :=
  MkPrmDb (prm_active s) (prm_staging s) (prm_load_state s) (set_bytes file (prm_file_name s)) (sandbox_dir s) (not_found_throttle s) (prm_world s).

Section prmdb.
Context (cwd : option FwString) (cmd_response_out : bool).
Local Notation PrmM := (CompM PrmDb PrmOut).

Definition configure_load_sandbox (directory : list Z) (s : PrmDb) : outcome PrmDb :=
  '(status, resolved) ← resolve_from_cwd cwd directory FileNameString_new;
  _ ← fw_assert (bool_decide (status = PathValid));
  let resolved := if bool_decide (list.last (as_bytes resolved) = Some slash) then resolved else append_bytes [slash] resolved in
  Ret (MkPrmDb (prm_active s) (prm_staging s) (prm_load_state s) (prm_file_name s) (set_bytes (default [] (as_str resolved)) (sandbox_dir s))
         (not_found_throttle s) (prm_world s)).

(** ** Events and responses *)

Definition prm_log (e : PrmEvent) : PrmM unit := emit (PrmLog e).
Definition prm_response (op cmd_seq : Z) (r : CmdResponse) : PrmM unit :=
  _ ← assert cmd_response_out; emit (PrmCmdResponse op cmd_seq r).
Definition log_prm_db_full (id : Z) : PrmM unit := prm_log (PrmDbFull id).
Definition log_file_load_invalid_action (st : PrmDbFileLoadState) (a : PrmLoadAction) : PrmM unit := prm_log (PrmDbFileLoadInvalidAction st a).
Definition log_read_error (stage : PrmReadError) (record error : Z) : PrmM unit := prm_log (PrmFileReadError stage record error).
Definition log_write_error (stage : PrmWriteError) (record error : Z) : PrmM unit := prm_log (PrmFileWriteError stage record error).
Definition fail_save (op cmd_seq : Z) (stage : PrmWriteError) (record error : Z) : PrmM unit :=
  _ ← log_write_error stage record error; prm_response op cmd_seq ExecutionError.

(** ** Ports *)

(** [getPrm]: the value and its validity; [val] is untouched on a miss. *)
Definition get_prm_handler (id : Z) (val : serbuf) : PrmM (ParamValid * serbuf) :=
  s ← get_state;
  match store_find id (prm_active s) with
  | Some value => mret (ParamValid_Valid, value)
  | None =>
      let '(ok, th) := ok_to_emit (not_found_throttle s) in
      _ ← put_state (prm_set_throttle th s);
      _ ← when ok (prm_log (PrmIdNotFound id));
      mret (ParamInvalid, val)
  end.

Definition update_add_prm (id : Z) (val : serbuf) (t : PrmDbType) : PrmM PrmUpdateType :=
  s ← get_state;
  let db := get_db t s in
  let '(ok, db') := store_insert id val db in
  _ ← put_state (set_db t db' s);
  mret (if negb ok then NoSlots else if bool_decide (length db < length db') then ParamAdded else ParamUpdated).

Definition set_prm_handler (id : Z) (val : serbuf) : PrmM unit :=
  s ← get_state;
  if negb (bool_decide (prm_load_state s = PrmIdle)) then log_file_load_invalid_action (prm_load_state s) SetParameter
  else
    r ← update_add_prm id val DbActive;
    match r with
    | ParamUpdated => prm_log (PrmIdUpdated id)
    | NoSlots => log_prm_db_full id
    | ParamAdded => prm_log (PrmIdAdded id)
    end.

Definition prm_ping_handler (key : Z) : PrmM unit := emit (PrmPing key).

(** ** Saving *)

(** [write_field]: the stage and the error when it fails. *)
Definition write_field (bs : list Z) (record : Z) (error_stage size_stage : PrmWriteError) (f : FileW) : option (PrmWriteError * Z * Z) * FileW :=
  let '(stat, n, f) := file_write bs Wait f in
  if negb (bool_decide (stat = FsOpOk)) then (Some (error_stage, record, FileStatus_repr stat), f)
  else if negb (bool_decide (n = length bs)) then (Some (size_stage, record, to_signed 32 (wrap 32 (Z.of_nat n))), f)
  else (None, f).

Definition record_fields (id : Z) (value : serbuf) : list (list Z * PrmWriteError * PrmWriteError) :=
  [([ENTRY_DELIMITER], WrDelimiter, WrDelimiterSize);
   (u32_bytes (wrap 32 (Z.of_nat (4 + ser_loc value))), WrRecordSize, WrRecordSizeSize);
   (u32_bytes id, WrParameterId, WrParameterIdSize);
   (as_slice value, WrParameterValue, WrParameterValueSize)].

Fixpoint write_fields (fields : list (list Z * PrmWriteError * PrmWriteError)) (record : Z) (f : FileW) (h : Hash)
    : option (PrmWriteError * Z * Z) * FileW * Hash :=
  match fields with
  | [] => (None, f, h)
  | (bs, stage, size_stage) :: fields' =>
      match write_field bs record stage size_stage f with
      | (Some e, f) => (Some e, f, h)
      | (None, f) => write_fields fields' record f (Hash_update bs h)
      end
  end.

(** [write_records]: an error, or the number of records. *)
Fixpoint write_records (n : nat) (db : PrmDbStore) (f : FileW) (h : Hash) : ((PrmWriteError * Z * Z) + nat) * FileW * Hash :=
  match db with
  | [] => (inr n, f, h)
  | (id, value) :: db' =>
      match write_fields (record_fields id value) (Z.of_nat n) f h with
      | (Some e, f, h) => (inl e, f, h)
      | (None, f, h) => write_records (n + 1) db' f h
      end
  end.

(** The file part of [PRM_SAVE_FILE]: an error, or the number of records. *)
Definition save_file (path : list Z) (db : PrmDbStore) (w : World) : outcome (((PrmWriteError * Z * Z) + nat) * World) :=
  '(stat, f) ← open_with_overwrite path OpenWrite Overwrite (File_new, w);
  if negb (bool_decide (stat = FsOpOk)) then Ret (inl (WrOpen, 0%Z, FileStatus_repr stat), f.2)
  else
    let '(stat, _, f) := file_write (u32_bytes 0xFFFFFFFF) Wait f in
    if negb (bool_decide (stat = FsOpOk)) then Ret (inl (WrCrcPlace, 0%Z, FileStatus_repr stat), f.2)
    else
      let '(r, f, h) := write_records 0 db f Hash_new in
      match r with
      | inl e => Ret (inl e, f.2)
      | inr num_records =>
          let '(stat, pos, f) := file_position f in
          if negb (bool_decide (stat = FsOpOk)) then Ret (inl (WrCurrPosition, 0%Z, FileStatus_repr stat), f.2)
          else
            '(stat, f) ← file_seek 0 Absolute f;
            if negb (bool_decide (stat = FsOpOk)) then Ret (inl (WrSeekZero, 0%Z, FileStatus_repr stat), f.2)
            else
              let '(stat, _, f) := file_write (u32_bytes (not32 (finalize h))) Wait f in
              if negb (bool_decide (stat = FsOpOk)) then Ret (inl (WrCrcReal, 0%Z, FileStatus_repr stat), f.2)
              else
                '(stat, f) ← file_seek (Z.of_nat (default 0 pos)) Absolute f;
                if negb (bool_decide (stat = FsOpOk)) then Ret (inl (WrSeekPosition, 0%Z, FileStatus_repr stat), f.2)
                else Ret (inr num_records, f.2)
      end.

Definition prm_save_file_cmd_handler (op cmd_seq : Z) : PrmM unit :=
  s ← get_state;
  if negb (bool_decide (prm_load_state s = PrmIdle)) then
    _ ← log_file_load_invalid_action (prm_load_state s) SaveFileCommand; prm_response op cmd_seq Busy
  else
    let path := default [] (as_str (prm_file_name s)) in
    _ ← assert (negb (bool_decide (path = [])));
    '(r, w) ← lift (save_file path (prm_active s) (prm_world s));
    _ ← put_state (prm_set_world w s);
    match r with
    | inl (stage, record, error) => fail_save op cmd_seq stage record error
    | inr n => _ ← prm_log (PrmFileSaveComplete n); prm_response op cmd_seq CmdOk
    end.

(** ** Loading *)

Definition db_copy (dest src : PrmDbType) : PrmM unit :=
  _ ← modify_state (copy_db dest src); prm_log (PrmDbCopyAllComplete src dest).

(** A read of [n] bytes with its two checks: the bytes, or [None] after the
    error was logged. *)
Definition read_field (n : nat) (record : Z) (error_stage size_stage : PrmReadError) (f : FileW) : PrmM (option (list Z) * FileW) :=
  let '(stat, bs, f) := file_read n Wait f in
  if negb (bool_decide (stat = FsOpOk)) then _ ← log_read_error error_stage record (FileStatus_repr stat); mret (None, f)
  else if negb (bool_decide (length bs = n)) then _ ← log_read_error size_stage record (to_signed 32 (wrap 32 (Z.of_nat (length bs)))); mret (None, f)
  else mret (Some bs, f).

(** A record: its size, its id and its value. *)
Definition read_record (record : Z) (f : FileW) : PrmM (option (Z * list Z) * FileW) :=
  '(r, f) ← read_field 4 record RdRecordSize RdRecordSizeSize f;
  match r with
  | None => mret (None, f)
  | Some size_bytes =>
      let record_size := be_value size_bytes in
      if negb ((MIN_RECORD_SIZE <=? record_size) && (record_size <=? MAX_RECORD_SIZE))%Z then
        _ ← log_read_error RdRecordSizeValue record (to_signed 32 record_size); mret (None, f)
      else
        '(r, f) ← read_field 4 record RdParameterId RdParameterIdSize f;
        match r with
        | None => mret (None, f)
        | Some id_bytes =>
            let value_len := Z.to_nat (record_size - 4) in
            '(r, f) ← read_field value_len record RdParameterValue RdParameterValueSize f;
            mret ((λ v, (be_value id_bytes, v)) <$> r, f)
        end
  end.

(** The loop over at most [turns] records; the counts are those of the
    records seen, added, updated and dropped.  [None]: the load failed. *)
Fixpoint read_records (turns : nat) (t : PrmDbType) (f : FileW) (total added updated dropped : nat)
    : PrmM (option (nat * nat * nat * nat) * FileW) :=
  match turns with
  | O => mret (Some (total, added, updated, dropped), f)
  | S turns' =>
      let record := Z.of_nat total in
      let '(stat, bs, f) := file_read 1 Wait f in
      if bool_decide (stat = FsOpOk) && bool_decide (bs = []) then mret (Some (total, added, updated, dropped), f)
      else if negb (bool_decide (stat = FsOpOk)) then _ ← log_read_error RdDelimiter record (FileStatus_repr stat); mret (None, f)
      else if negb (bool_decide (length bs = 1)) then _ ← log_read_error RdDelimiterSize record (Z.of_nat (length bs)); mret (None, f)
      else
        let delimiter := bs !!! 0 in
        if negb (delimiter =? ENTRY_DELIMITER)%Z then _ ← log_read_error RdDelimiterValue record delimiter; mret (None, f)
        else
          '(r, f) ← read_record record f;
          match r with
          | None => mret (None, f)
          | Some (id, value) =>
              let '(status, b) := set_buff value ParamBuffer_new in
              _ ← assert (match status with SOk _ => true | _ => false end);
              u ← update_add_prm id b t;
              match u with
              | ParamAdded => read_records turns' t f (total + 1) (added + 1) updated dropped
              | ParamUpdated => read_records turns' t f (total + 1) added (updated + 1) dropped
              | NoSlots => _ ← log_prm_db_full id; read_records turns' t f (total + 1) added updated (dropped + 1)
              end
          end
  end.

(** The checksum of the rest of the file; the loop of [calculate_crc] takes
    no more turns than the file has bytes, and one. *)
Definition crc_fuel (f : FileW) : nat := match fd f.1 with Some d => S (length (node f.2 (fd_node d))) | None => 1 end.
Definition rest_crc (f : FileW) : outcome (FileStatus * Z * FileW) :=
  r ← calculate_crc (crc_fuel f) f; match r with Some r => Ret r | None => Panic end.

Definition read_param_file_work (f : FileW) (open_status : FileStatus) (t : PrmDbType) : PrmM (PrmLoadStatus * FileW) :=
  if negb (bool_decide (open_status = FsOpOk)) then _ ← log_read_error RdOpen 0 (FileStatus_repr open_status); mret (LoadError, f)
  else
    '(r, f) ← read_field 4 0 RdCrc RdCrcSize f;
    match r with
    | None => mret (LoadError, f)
    | Some crc_bytes =>
        let file_crc := be_value crc_bytes in
        '(stat, crc, f) ← lift (rest_crc f);
        if negb (bool_decide (stat = FsOpOk)) then _ ← log_read_error RdCrcBuffer 0 (FileStatus_repr stat); mret (LoadError, f)
        else if negb (file_crc =? crc)%Z then _ ← prm_log (PrmFileBadCrc file_crc crc); mret (LoadError, f)
        else
          '(stat, f) ← lift (file_seek 4 Absolute f);
          if negb (bool_decide (stat = FsOpOk)) then _ ← log_read_error RdSeekZero 0 (FileStatus_repr stat); mret (LoadError, f)
          else
            '(r, f) ← read_records NUM_DB_ENTRIES t f 0 0 0 0;
            match r with
            | None => mret (LoadError, f)
            | Some (total, added, updated, dropped) =>
                if bool_decide (0 < dropped) then mret (LoadError, f)
                else _ ← prm_log (PrmFileLoadComplete t total added updated); mret (LoadSuccess, f)
            end
    end.

(** The file object: opened by its resolved name when it must lie in the
    sandbox. *)
Definition open_param_file (file_name sandbox : list Z) (t : PrmDbType) (w : World) : outcome (FileStatus * FileW) :=
  if bool_decide (t = DbStaging) && negb (bool_decide (sandbox = [])) then
    '(status, resolved) ← resolve_from_cwd cwd file_name FileNameString_new;
    contained ← (if bool_decide (status = PathValid) then
                   match as_str resolved with
                   | Some r => st ← check_containment r sandbox; Ret (bool_decide (st = PathValid))
                   | None => Ret false
                   end
                 else Ret false);
    if contained : bool then file_open (default [] (as_str resolved)) OpenRead (File_new, w)
    else Ret (FsOutsideSandbox, (File_new, w))
  else file_open file_name OpenRead (File_new, w).

Definition read_param_file_impl (file_name : list Z) (t : PrmDbType) : PrmM PrmLoadStatus :=
  _ ← assert (negb (bool_decide (file_name = [])));
  s ← get_state;
  '(open_status, f) ← lift (open_param_file file_name (default [] (as_str (sandbox_dir s))) t (prm_world s));
  '(r, f) ← read_param_file_work f open_status t;
  _ ← modify_state (prm_set_world f.2);
  mret r.

(** [readParamFile], before the task starts. *)
Definition read_param_file : PrmM unit :=
  s ← get_state;
  _ ← assert (bool_decide (prm_load_state s = PrmIdle));
  _ ← put_state (prm_set_active [] (prm_set_staging [] s));
  _ ← read_param_file_impl (default [] (as_str (prm_file_name s))) DbActive;
  mret tt.

Definition prm_load_file_cmd_handler (op cmd_seq : Z) (file_name : FwString) (merge : Merge) : PrmM unit :=
  s ← get_state;
  if negb (bool_decide (prm_load_state s = PrmIdle)) then
    _ ← log_file_load_invalid_action (prm_load_state s) LoadFileCommand; prm_response op cmd_seq Busy
  else
    _ ← put_state (prm_set_state LoadingFileUpdates s);
    _ ← (if bool_decide (merge = Merge_) then db_copy DbStaging DbActive else modify_state (prm_set_staging []));
    status ← read_param_file_impl (default [] (as_str file_name)) DbStaging;
    if bool_decide (status = LoadSuccess) then
      _ ← prm_response op cmd_seq CmdOk;
      modify_state (prm_set_state FileUpdatesStaged)
    else
      _ ← prm_log PrmDbFileLoadFailed;
      _ ← modify_state (λ s, prm_set_state PrmIdle (prm_set_staging [] s));
      prm_response op cmd_seq ExecutionError.

Definition prm_commit_staged_cmd_handler (op cmd_seq : Z) : PrmM unit :=
  s ← get_state;
  if negb (bool_decide (prm_load_state s = FileUpdatesStaged)) then
    _ ← log_file_load_invalid_action (prm_load_state s) CommitStagedCommand; prm_response op cmd_seq ValidationError
  else
    _ ← put_state (prm_set_state PrmIdle (prm_set_staging [] (prm_set_active (prm_staging s) s)));
    _ ← prm_log PrmDbCommitComplete;
    prm_response op cmd_seq CmdOk.

(** ** Commands *)

Definition cmd_in_handler (id_base op cmd_seq : Z) (args : serbuf) : PrmM unit :=
  let format_error := prm_response op cmd_seq CmdFormatError in
  let rel := wrap 32 (op - id_base) in
  if (rel =? OPCODE_PRM_SAVE_FILE)%Z then
    n ← size_left args;
    if negb (bool_decide (n = 0)) then format_error else prm_save_file_cmd_handler op cmd_seq
  else if (rel =? OPCODE_PRM_LOAD_FILE)%Z then
    '(name, args) ← on_args (string_deserialize_from Big (FwString_new FW_CMD_STRING_MAX_SIZE)) args;
    match name with
    | None => format_error
    | Some file_name =>
        '(raw, args) ← on_args (deserialize_u8 Big) args;
        match raw with
        | None => format_error
        | Some merge_raw =>
            match try_from merge_raw : option Merge with
            | None => prm_response op cmd_seq ValidationError
            | Some merge =>
                n ← size_left args;
                if negb (bool_decide (n = 0)) then format_error else prm_load_file_cmd_handler op cmd_seq file_name merge
            end
        end
    end
  else if (rel =? OPCODE_PRM_COMMIT_STAGED)%Z then
    n ← size_left args;
    if negb (bool_decide (n = 0)) then format_error else prm_commit_staged_cmd_handler op cmd_seq
  else prm_response op cmd_seq InvalidOpcode.
End prmdb.
