(* ===== verification/PrmDbRuns.v ===== *)
(** What [Svc::PrmDb] keeps, whatever the file system does, and what its
    files hold. *)

From stdpp Require Import list gmap strings.
From S2P Require Import Prelude Serial SerialFacts Codec Fpp Packets Crc32 Comp FwString OsFile FilePaths PrmDb.

(** * The store *)

Definition ids (s : PrmDbStore) : list Z := s.*1.
Definition store_ok (s : PrmDbStore) : Prop := NoDup (ids s) ∧ length s ≤ NUM_DB_ENTRIES.

Lemma store_replace_spec id v s :
  match store_replace id v s with
  | Some s' => ids s' = ids s ∧ id ∈ ids s ∧ ∀ k, store_find k s' = if (id =? k)%Z then Some v else store_find k s
  | None => id ∉ ids s
  end.
Proof.
  induction s as [|[key w] s IH]; cbn; [apply not_elem_of_nil|]. destruct (Z.eqb_spec key id) as [->|Hk].
  - split_and!; [done|left|]. intros k. cbn. by destruct (id =? k)%Z.
  - destruct (store_replace id v s) as [s'|]; cbn.
    + destruct IH as (E & Hin & Hf). split_and!; [change (key :: ids s' = key :: ids s); by rewrite E|by right|]. intros k. cbn. destruct (Z.eqb_spec key k) as [->|].
      * rewrite (proj2 (Z.eqb_neq _ _)) by done. done.
      * apply Hf.
    + unfold ids in *. set_solver.
Qed.

Lemma store_find_app id k v s : store_find k (s ++ [(id, v)]) = match store_find k s with Some w => Some w | None => if (id =? k)%Z then Some v else None end.
Proof. induction s as [|[key w] s IH]; cbn; [done|]. by destruct (key =? k)%Z. Qed.
Lemma store_find_None k s : store_find k s = None ↔ k ∉ ids s.
Proof.
  induction s as [|[key w] s IH]; cbn; [split; [intros _; apply not_elem_of_nil|done]|]. rewrite not_elem_of_cons, <- IH.
  destruct (Z.eqb_spec key k) as [->|]; [split; [done|by intros [? _]]|]. naive_solver.
Qed.

(** [insert] is the update of a bounded map in insertion order. *)
Lemma store_insert_spec id v s :
  store_ok s →
  let '(ok, s') := store_insert id v s in
  store_ok s' ∧ ok = bool_decide (id ∈ ids s ∨ length s < NUM_DB_ENTRIES) ∧
  (if ok then (∀ k, store_find k s' = if (id =? k)%Z then Some v else store_find k s) ∧ ids s' = (if decide (id ∈ ids s) then ids s else ids s ++ [id])
   else s' = s).
Proof.
  intros [Hn Hl]. unfold store_insert. pose proof (store_replace_spec id v s) as Hr. destruct (store_replace id v s) as [s'|].
  - destruct Hr as (E & Hin & Hf). assert (length s' = length s) as El by (unfold ids in E; apply (f_equal length) in E; by rewrite !length_fmap in E).
    split_and!; [unfold store_ok; by rewrite E, El|by rewrite bool_decide_eq_true_2 by auto|done|]. by rewrite decide_True.
  - case_bool_decide as Hlt.
    + split_and!; [|by rewrite bool_decide_eq_true_2 by auto| |].
      * unfold store_ok, ids. rewrite fmap_app, length_app. cbn. split; [|lia]. apply NoDup_app. split_and!; [done| |apply NoDup_singleton]. set_solver.
      * intros k. rewrite store_find_app. destruct (Z.eqb_spec id k) as [->|].
        -- by rewrite (proj2 (store_find_None k s)).
        -- by destruct (store_find k s).
      * rewrite decide_False by done. unfold ids. by rewrite fmap_app.
    + split_and!; [done| |done]. by rewrite bool_decide_eq_false_2 by tauto.
Qed.

(** * Files, whatever the system does *)

(** Freshly opened for reading. *)
Definition fresh_reader (f : FileW) : Prop := ∃ d, reading f d ∧ crc f.1 = INITIAL_CRC ∧ length (crc_buffer f.1) = FW_FILE_CHUNK_SIZE.

Lemma open_reader p w :
  ∃ st f, file_open p OpenRead (File_new, w) = Ret (st, f) ∧ (st = FsOpOk → fresh_reader f).
Proof.
  destruct (open_read_ok p w) as (st & f & E & _ & Hf & _). exists st, f. split; [done|]. intros Hst. destruct (Hf Hst) as (d & _ & Hr & _ & Hc & Hb). by exists d.
Qed.

Lemma reader_read n f : fresh_reader f → fresh_reader (file_read n Wait f).2.
Proof.
  intros (d & Hr & Hc & Hb). destruct (file_read n Wait f) as [[st bs] f'] eqn:E.
  destruct (file_read_from _ _ _ _ _ _ _ Hr E) as (d' & w' & -> & _ & _ & Hr'). by exists d'.
Qed.

Lemma reader_crc f : fresh_reader f → ∃ st c f', rest_crc f = Ret (st, c, f').
Proof.
  intros (d & Hr & Hc & Hb). unfold rest_crc, crc_fuel. rewrite (proj1 (proj2 Hr)).
  destruct (calculate_crc_ok f d (S (length (node f.2 (fd_node d)))) Hr Hc Hb) as (st & bs & f' & d' & _ & _ & _ & _ & -> & _); [|rewrite outcome_bind_ret; eauto].
  rewrite length_drop. pose proof (Nat.div_le_upper_bound (length (node f.2 (fd_node d)) - fd_pos d) FW_FILE_CHUNK_SIZE (length (node f.2 (fd_node d)))) as Hd.
  unfold FW_FILE_CHUNK_SIZE in *. specialize (Hd ltac:(done) ltac:(lia)). lia.
Qed.

Lemma seek_ret off f : (0 ≤ off)%Z → ∃ st f', file_seek off Absolute f = Ret (st, f').
Proof. intros Ho. destruct (os_seek_ret off Absolute f Ho) as (st & f' & E). exists st, f'. exact E. Qed.

Section runs.
Context (cwd : option FwString).
Local Notation PrmM := (CompM PrmDb PrmOut).

Definition prm_responses (o : list PrmOut) : list (Z * Z * CmdResponse) := omap (λ x, match x with PrmCmdResponse op seq r => Some (op, seq, r) | _ => None end) o.
Lemma prm_responses_app o o' : prm_responses (o ++ o') = prm_responses o ++ prm_responses o'.
Proof. apply omap_app. Qed.

Lemma read_field_wp n record e1 e2 f s (Q : option (list Z) * FileW → PrmDb → list PrmOut → Prop) :
  (∀ r o, prm_responses o = [] → (∀ bs, r = Some bs → length bs = n) → Q (r, (file_read n Wait f).2) s o) → wp (read_field n record e1 e2 f) s Q.
Proof.
  intros HQ. unfold read_field. destruct (file_read n Wait f) as [[st bs] f']. cbn [snd] in HQ.
  case_bool_decide; cbn [negb]; [|unfold log_read_error, prm_log; wp_steps; by apply HQ].
  case_bool_decide; cbn [negb]; [|unfold log_read_error, prm_log; wp_steps; by apply HQ].
  wp_steps. apply HQ; [done|]. by intros ? [= <-].
Qed.

Lemma read_record_wp record f s (Q : option (Z * list Z) * FileW → PrmDb → list PrmOut → Prop) :
  (∀ r f' o, prm_responses o = [] → (∀ id v, r = Some (id, v) → length v ≤ FW_PARAM_BUFFER_MAX_SIZE) → Q (r, f') s o) → wp (read_record record f) s Q.
Proof.
  intros HQ. unfold read_record. apply wp_bind, read_field_wp. intros [sz|] o Ho _; [|wp_steps; by apply HQ; [rewrite app_nil_r|]].
  destruct ((MIN_RECORD_SIZE <=? be_value sz) && (be_value sz <=? MAX_RECORD_SIZE))%Z eqn:Hsz; cbn [negb].
  2: { unfold log_read_error, prm_log. wp_steps. by apply HQ; [rewrite prm_responses_app, Ho|]. }
  apply andb_true_iff in Hsz as [Hmin%Z.leb_le Hmax%Z.leb_le]. apply wp_bind, read_field_wp. intros [ib|] o1 Ho1 _.
  2: { wp_steps. by apply HQ; [rewrite !prm_responses_app, Ho, Ho1|]. }
  apply wp_bind, read_field_wp. intros r o2 Ho2 Hr. wp_steps. apply HQ; [by rewrite !prm_responses_app, Ho, Ho1, Ho2|].
  intros id v E. destruct r as [v'|]; [|done]. injection E as _ <-. specialize (Hr v' eq_refl). unfold MAX_RECORD_SIZE, MIN_RECORD_SIZE in *. lia.
Qed.

(** Only store [t] differs, and it is well-formed. *)
Definition loads (t : PrmDbType) (s s' : PrmDb) : Prop := ∃ db, s' = set_db t db s ∧ store_ok db.

Lemma loads_refl t s : store_ok (get_db t s) → loads t s s.
Proof. intros Hs. exists (get_db t s). split; [|done]. by destruct t, s. Qed.
Lemma loads_trans t s1 s2 s3 : loads t s1 s2 → loads t s2 s3 → loads t s1 s3.
Proof. intros (db & -> & _) (db' & -> & Hd). exists db'. split; [by destruct t|done]. Qed.
Lemma loads_get t s s' : loads t s s' → store_ok (get_db t s').
Proof. intros (db & -> & Hd). by destruct t. Qed.

Lemma update_add_wp id v t s (Q : PrmUpdateType → PrmDb → list PrmOut → Prop) :
  store_ok (get_db t s) →
  (∀ u, loads t s (set_db t (store_insert id v (get_db t s)).2 s) → Q u (set_db t (store_insert id v (get_db t s)).2 s) []) →
  wp (update_add_prm id v t) s Q.
Proof.
  intros Hs HQ. unfold update_add_prm. wp_steps. pose proof (store_insert_spec id v (get_db t s) Hs) as Hi.
  destruct (store_insert id v (get_db t s)) as [ok db]. wp_steps. apply HQ. exists db. split; [done|]. apply Hi.
Qed.

Lemma read_records_wp t turns : ∀ f total added updated dropped s,
  store_ok (get_db t s) → wp (read_records turns t f total added updated dropped) s (λ _ s' o, loads t s s' ∧ prm_responses o = []).
Proof.
  induction turns as [|turns IH]; intros f total added updated dropped s Hs; cbn [read_records]; [wp_steps; auto using loads_refl|].
  destruct (file_read 1 Wait f) as [[st bs] f1]. destruct (bool_decide (st = FsOpOk) && bool_decide (bs = [])); [wp_steps; auto using loads_refl|].
  unfold log_read_error, prm_log. destruct (negb _); [wp_steps; auto using loads_refl|]. destruct (negb _); [wp_steps; auto using loads_refl|].
  cbv zeta. destruct (negb _); [wp_steps; auto using loads_refl|]. apply wp_bind, read_record_wp. intros [[id v]|] f2 o Ho Hv.
  2: { wp_steps. rewrite app_nil_r. auto using loads_refl. }
  specialize (Hv id v eq_refl). assert (∃ b, set_buff v ParamBuffer_new = (SOk tt, b)) as (b & ->).
  { unfold set_buff. rewrite bool_decide_eq_false_2; [eauto|]. unfold capacity, ParamBuffer_new, linear_buffer_new. cbn [data]. rewrite length_replicate. lia. }
  eapply wp_assert; [done|]. apply wp_bind, update_add_wp; [done|]. intros u Hl. pose proof (loads_get _ _ _ Hl) as Hok.
  assert (∀ s' o', loads t (set_db t (store_insert id b (get_db t s)).2 s) s' ∧ prm_responses o' = [] → loads t s s' ∧ prm_responses (o ++ [] ++ o') = []) as Hpost.
  { intros s' o' [Hl' Ho']. split; [by eapply loads_trans|]. by rewrite !prm_responses_app, Ho, Ho'. }
  destruct u.
  - unfold log_prm_db_full, prm_log. wp_steps. eapply wp_mono; [by apply IH|]. intros a s' o' [Hl' Ho']. by apply (Hpost s' (PrmLog (PrmDbFull id) :: o')).
  - eapply wp_mono; [by apply IH|]. intros a s' o'. by apply Hpost.
  - eapply wp_mono; [by apply IH|]. intros a s' o'. by apply Hpost.
Qed.

Lemma work_wp t f st s :
  store_ok (get_db t s) → (st = FsOpOk → fresh_reader f) → wp (read_param_file_work f st t) s (λ _ s' o, loads t s s' ∧ prm_responses o = []).
Proof.
  intros Hs Hf. unfold read_param_file_work, log_read_error, prm_log. case_bool_decide as Hst; cbn [negb]; [|wp_steps; auto using loads_refl].
  specialize (Hf Hst). pose proof (reader_read 4 f Hf) as Hf1. apply wp_bind, read_field_wp. intros [cb|] o Ho _; [|wp_steps; rewrite app_nil_r; auto using loads_refl].
  destruct (reader_crc _ Hf1) as (st2 & c & f2 & E). eapply wp_lift; [exact E|]. cbv beta iota.
  assert (∀ e, loads t s s ∧ prm_responses (o ++ [PrmLog e]) = []) as Hend by (intros e; rewrite prm_responses_app, Ho; auto using loads_refl).
  destruct (negb _); [wp_steps; apply Hend|]. destruct (negb _); [wp_steps; apply Hend|].
  destruct (seek_ret 4 f2 ltac:(lia)) as (st3 & f3 & E3). eapply wp_lift; [exact E3|]. cbv beta iota. destruct (negb _); [wp_steps; apply Hend|].
  apply wp_bind. eapply wp_mono; [by apply read_records_wp|]. intros [[[[[total added] updated] dropped]|] f4] s' o' [Hl Ho'].
  - destruct (bool_decide _); wp_steps; rewrite !prm_responses_app, Ho, Ho'; auto.
  - wp_steps. rewrite !prm_responses_app, Ho, Ho'. auto.
Qed.

Lemma open_param_file_ok name box t w :
  ∃ st f, open_param_file cwd name box t w = Ret (st, f) ∧ (st = FsOpOk → fresh_reader f).
Proof.
  unfold open_param_file. destruct (bool_decide _ && _); [|apply open_reader]. pose proof (resolve_from_cwd_ok cwd name) as Hr.
  assert (∃ st r, resolve_from_cwd cwd name FileNameString_new = Ret (st, r)) as (st & r & ->) by (destruct (components cwd name); naive_solver).
  rewrite outcome_bind_ret. assert (∃ c : bool, (if bool_decide (st = PathValid) then match as_str r with
      | Some r0 => st0 ← check_containment r0 box; Ret (bool_decide (st0 = PathValid)) | None => Ret false end else Ret false) = Ret c) as (c & ->).
  { destruct (bool_decide _); [|eauto]. destruct (as_str r) as [r'|]; [|eauto]. destruct (check_containment_ret r' box) as (st' & ->). rewrite outcome_bind_ret. eauto. }
  rewrite outcome_bind_ret. destruct c; [apply open_reader|]. eexists _, _. split; [done|]. done.
Qed.

(** A file was read, or not: store [t] and the system's script may differ. *)
Lemma read_impl_wp name t s :
  store_ok (get_db t s) → name ≠ [] →
  wp (read_param_file_impl cwd name t) s (λ _ s' o, ∃ db w, s' = prm_set_world w (set_db t db s) ∧ store_ok db ∧ prm_responses o = []).
Proof.
  intros Hs Hn. unfold read_param_file_impl. eapply wp_assert; [by rewrite bool_decide_eq_false_2|]. wp_steps.
  destruct (open_param_file_ok name (default [] (as_str (sandbox_dir s))) t (prm_world s)) as (st & f & E & Hf). eapply wp_lift; [exact E|]. cbv beta iota.
  apply wp_bind. eapply wp_mono; [by apply (work_wp t f st s)|]. intros [r f'] s' o [(db & -> & Hd) Ho]. wp_steps. rewrite app_nil_r. eauto 10.
Qed.

Lemma save_file_ret path db w : ∃ r w', save_file path db w = Ret (r, w').
Proof.
  unfold save_file.
  assert (∃ st f, open_with_overwrite path OpenWrite Overwrite (File_new, w) = Ret (st, f)) as (st & f & ->).
  { unfold open_with_overwrite. rewrite (bool_decide_eq_false_2 (OpenWrite = OpenNoMode)) by done. cbn [negb fw_assert]. rewrite outcome_bind_ret.
    destruct (is_open _); [eauto|]. destruct (std_open _ _ _) as [[k|d] w']; eauto. }
  rewrite outcome_bind_ret. destruct (negb _); [eauto|]. destruct (file_write _ Wait f) as [[st1 n1] f1]. destruct (negb _); [eauto|].
  destruct (write_records 0 db f1 Hash_new) as [[[e|n] f2] h]; [eauto|]. destruct (file_position f2) as [[st2 pos] f3]. destruct (negb _); [eauto|].
  destruct (seek_ret 0 f3 ltac:(lia)) as (st3 & f4 & ->). rewrite outcome_bind_ret. destruct (negb _); [eauto|].
  destruct (file_write _ Wait f4) as [[st4 n4] f5]. destruct (negb _); [eauto|].
  destruct (seek_ret (Z.of_nat (default 0 pos)) f5 ltac:(lia)) as (st5 & f6 & ->). rewrite outcome_bind_ret. destruct (negb _); eauto.
Qed.

(** * Specification

    What is promised about the parameters: the ones in force, and a set that
    waits for its commit.  A load either stages a set or leaves nothing. *)

Record Params : Type := MkParams { in_force : PrmDbStore; staged : option PrmDbStore }.

Definition params_of (s : PrmDb) : Params :=
  MkParams (prm_active s) (if bool_decide (prm_load_state s = FileUpdatesStaged) then Some (prm_staging s) else None).

Inductive PrmCall : Type :=
| CallGet (id : Z) (val : serbuf)
| CallSet (id : Z) (val : serbuf)
| CallPing (key : Z)
| CallCommand (op cmd_seq : Z) (args : serbuf).

(** What a command asks for, or why it is refused. *)
Inductive PrmCommand : Type := SaveCmd | LoadCmd (name : FwString) (merge : Merge) | CommitCmd.
Definition ends (args : serbuf) (c : PrmCommand) : CmdResponse + PrmCommand :=
  if bool_decide (deser_loc args = ser_loc args) then inr c else inl CmdFormatError.
Definition decode_load (args : serbuf) : CmdResponse + PrmCommand :=
  match string_deserialize_from Big (FwString_new FW_CMD_STRING_MAX_SIZE) args with
  | (SOk name, args) =>
      match deserialize_u8 Big args with
      | (SOk raw, args) => match try_from raw with Some merge => ends args (LoadCmd name merge) | None => inl ValidationError end
      | _ => inl CmdFormatError
      end
  | _ => inl CmdFormatError
  end.
Definition decode_command (id_base op : Z) (args : serbuf) : CmdResponse + PrmCommand :=
  let rel := wrap 32 (op - id_base) in
  if (rel =? OPCODE_PRM_SAVE_FILE)%Z then ends args SaveCmd
  else if (rel =? OPCODE_PRM_LOAD_FILE)%Z then decode_load args
  else if (rel =? OPCODE_PRM_COMMIT_STAGED)%Z then ends args CommitCmd
  else inl InvalidOpcode.

(** A step of the parameters under a call, with the responses sent. *)
Inductive prm_spec (id_base : Z) : PrmCall → Params → Params → list (Z * Z * CmdResponse) → Prop :=
| spec_get id v p : prm_spec id_base (CallGet id v) p p []
| spec_ping key p : prm_spec id_base (CallPing key) p p []
| spec_set id v db : prm_spec id_base (CallSet id v) (MkParams db None) (MkParams (store_insert id v db).2 None) []
| spec_set_busy id v db st : prm_spec id_base (CallSet id v) (MkParams db (Some st)) (MkParams db (Some st)) []
| spec_refused op seq args p r :
    decode_command id_base op args = inl r → prm_spec id_base (CallCommand op seq args) p p [(op, seq, r)]
| spec_save op seq args db r :
    decode_command id_base op args = inr SaveCmd → r = CmdOk ∨ r = ExecutionError →
    prm_spec id_base (CallCommand op seq args) (MkParams db None) (MkParams db None) [(op, seq, r)]
| spec_load op seq args name merge db st :
    decode_command id_base op args = inr (LoadCmd name merge) → store_ok st →
    prm_spec id_base (CallCommand op seq args) (MkParams db None) (MkParams db (Some st)) [(op, seq, CmdOk)]
| spec_load_failed op seq args name merge db :
    decode_command id_base op args = inr (LoadCmd name merge) →
    prm_spec id_base (CallCommand op seq args) (MkParams db None) (MkParams db None) [(op, seq, ExecutionError)]
| spec_busy op seq args c db st :
    decode_command id_base op args = inr c → c ≠ CommitCmd →
    prm_spec id_base (CallCommand op seq args) (MkParams db (Some st)) (MkParams db (Some st)) [(op, seq, Busy)]
| spec_commit op seq args db st :
    decode_command id_base op args = inr CommitCmd →
    prm_spec id_base (CallCommand op seq args) (MkParams db (Some st)) (MkParams st None) [(op, seq, CmdOk)]
| spec_no_commit op seq args db :
    decode_command id_base op args = inr CommitCmd →
    prm_spec id_base (CallCommand op seq args) (MkParams db None) (MkParams db None) [(op, seq, ValidationError)].

Inductive prm_specs (id_base : Z) : list PrmCall → Params → Params → list (Z * Z * CmdResponse) → Prop :=
| specs_nil p : prm_specs id_base [] p p []
| specs_cons c cs p1 p2 p3 r rs : prm_spec id_base c p1 p2 r → prm_specs id_base cs p2 p3 rs → prm_specs id_base (c :: cs) p1 p3 (r ++ rs).

Definition prm_call (id_base : Z) (c : PrmCall) : PrmM unit :=
  match c with
  | CallGet id v => _ ← get_prm_handler id v; mret tt
  | CallSet id v => set_prm_handler id v
  | CallPing key => prm_ping_handler key
  | CallCommand op seq args => cmd_in_handler cwd true id_base op seq args
  end.
Fixpoint prm_calls (id_base : Z) (cs : list PrmCall) : PrmM unit :=
  match cs with [] => mret tt | c :: cs' => _ ← prm_call id_base c; prm_calls id_base cs' end.

(** A file name that is text and not empty. *)
Definition named (n : FwString) : Prop := default [] (as_str n) ≠ [].
#[global] Instance named_dec n : Decision (named n).
Proof. unfold named. apply _. Defined.

(** The argument buffers are well-formed, and a load names a file. *)
Definition call_ok (id_base : Z) (c : PrmCall) : Prop :=
  match c with
  | CallCommand op seq args => wf args ∧ match decode_command id_base op args with inr (LoadCmd name _) => named name | _ => True end
  | _ => True
  end.

Record prm_ok (s : PrmDb) : Prop := {
  ok_active : store_ok (prm_active s);
  ok_staging : store_ok (prm_staging s);
  ok_state : prm_load_state s ≠ LoadingFileUpdates;
  ok_idle : prm_load_state s = PrmIdle → prm_staging s = [];
  ok_name : named (prm_file_name s);
}.

Lemma store_ok_nil : store_ok [].
Proof. split; [apply NoDup_nil_2|]. cbn. unfold NUM_DB_ENTRIES. lia. Qed.

Definition steps_to (id_base : Z) (c : PrmCall) (s s' : PrmDb) (o : list PrmOut) : Prop :=
  prm_ok s' ∧ prm_spec id_base c (params_of s) (params_of s') (prm_responses o).

Lemma response_wp op seq r s (Q : unit → PrmDb → list PrmOut → Prop) : Q tt s [PrmCmdResponse op seq r] → wp (prm_response true op seq r) s Q.
Proof. intros HQ. unfold prm_response. eapply wp_assert; [done|]. by wp_steps. Qed.

Lemma params_idle s : prm_load_state s = PrmIdle → params_of s = MkParams (prm_active s) None.
Proof. intros E. unfold params_of. by rewrite E. Qed.
Lemma params_staged s : prm_load_state s = FileUpdatesStaged → params_of s = MkParams (prm_active s) (Some (prm_staging s)).
Proof. intros E. unfold params_of. by rewrite E. Qed.

Lemma prm_state_cases s : prm_ok s → prm_load_state s = PrmIdle ∨ prm_load_state s = FileUpdatesStaged.
Proof. intros Hs. pose proof (ok_state s Hs). destruct (prm_load_state s); auto; done. Qed.

Lemma get_wp id_base id v s : prm_ok s → wp (prm_call id_base (CallGet id v)) s (λ _ s' o, steps_to id_base (CallGet id v) s s' o).
Proof.
  intros Hs. cbn [prm_call]. unfold get_prm_handler. wp_steps. destruct (store_find id (prm_active s)); [wp_steps; split; [done|apply spec_get]|].
  destruct (ok_to_emit (not_found_throttle s)) as [ok th]. wp_steps. unfold prm_log. destruct ok; cbn [when]; wp_steps;
    (split; [by destruct Hs|apply (spec_get id_base id v (params_of s))]).
Qed.

Lemma set_wp id_base id v s : prm_ok s → wp (prm_call id_base (CallSet id v)) s (λ _ s' o, steps_to id_base (CallSet id v) s s' o).
Proof.
  intros Hs. cbn [prm_call]. unfold set_prm_handler. wp_steps. destruct (prm_state_cases s Hs) as [E|E]; rewrite E.
  - rewrite (bool_decide_eq_true_2 (PrmIdle = PrmIdle)) by done. cbn [negb]. apply wp_bind, update_add_wp; [apply Hs|]. intros u (db & Edb & Hdb).
    set (s' := set_db DbActive _ s) in *. assert (steps_to id_base (CallSet id v) s s' []) as Hst.
    { split.
      - assert (prm_active s' = db) as Ea by (by rewrite Edb). destruct Hs. split; try done. by rewrite Ea.
      - rewrite (params_idle s E), (params_idle s' E). apply spec_set. }
    destruct u; unfold log_prm_db_full, prm_log; wp_steps; exact Hst.
  - rewrite (bool_decide_eq_false_2 (FileUpdatesStaged = PrmIdle)) by done. cbn [negb]. unfold log_file_load_invalid_action, prm_log. wp_steps.
    split; [done|]. rewrite (params_staged s E). apply spec_set_busy.
Qed.

Lemma refused_wp id_base op seq args r s :
  prm_ok s → decode_command id_base op args = inl r →
  wp (prm_response true op seq r) s (λ _ s' o, steps_to id_base (CallCommand op seq args) s s' o).
Proof. intros Hs Hr. apply response_wp. split; [done|]. by apply spec_refused. Qed.

Lemma save_wp id_base op seq args s :
  prm_ok s → decode_command id_base op args = inr SaveCmd →
  wp (prm_save_file_cmd_handler true op seq) s (λ _ s' o, steps_to id_base (CallCommand op seq args) s s' o).
Proof.
  intros Hs Hop. unfold prm_save_file_cmd_handler, log_file_load_invalid_action, prm_log. wp_steps. destruct (prm_state_cases s Hs) as [E|E]; rewrite E.
  - rewrite (bool_decide_eq_true_2 (PrmIdle = PrmIdle)) by done. cbn [negb]. eapply wp_assert; [rewrite bool_decide_eq_false_2; [done|apply Hs]|].
    destruct (save_file_ret (default [] (as_str (prm_file_name s))) (prm_active s) (prm_world s)) as (r & w & Es). eapply wp_lift; [exact Es|]. cbv beta iota. wp_steps.
    assert (prm_ok (prm_set_world w s)) as Hs' by (by destruct Hs).
    assert (∀ r o, prm_responses o = [(op, seq, r)] → r = CmdOk ∨ r = ExecutionError → steps_to id_base (CallCommand op seq args) s (prm_set_world w s) o) as Hst.
    { intros r' o Ho Hr. split; [done|]. rewrite Ho, (params_idle s E), (params_idle (prm_set_world w s) E). by apply spec_save. }
    destruct r as [[[stage record] error]|n].
    + unfold fail_save, log_write_error, prm_log. wp_steps. apply response_wp. by eapply Hst; [|right].
    + wp_steps. apply response_wp. by eapply Hst; [|left].
  - rewrite (bool_decide_eq_false_2 (FileUpdatesStaged = PrmIdle)) by done. cbn [negb]. wp_steps. apply response_wp.
    split; [done|]. rewrite (params_staged s E). by eapply spec_busy.
Qed.

Lemma load_wp id_base op seq args name merge s :
  prm_ok s → decode_command id_base op args = inr (LoadCmd name merge) → named name →
  wp (prm_load_file_cmd_handler cwd true op seq name merge) s (λ _ s' o, steps_to id_base (CallCommand op seq args) s s' o).
Proof.
  intros Hs Hop Hn. unfold prm_load_file_cmd_handler, log_file_load_invalid_action, prm_log. wp_steps. destruct (prm_state_cases s Hs) as [E|E]; rewrite E.
  - rewrite (bool_decide_eq_true_2 (PrmIdle = PrmIdle)) by done. cbn [negb]. wp_steps. set (s1 := prm_set_state LoadingFileUpdates s). apply wp_bind.
    eapply wp_mono with (Q := λ _ s' o, ∃ db, s' = prm_set_staging db s1 ∧ store_ok db ∧ prm_responses o = []).
    { case_bool_decide; [unfold db_copy, prm_log; wp_steps; exists (prm_active s); split; [done|split; [apply Hs|done]]|].
      wp_steps. exists []. split; [done|split; [apply store_ok_nil|done]]. }
    intros [] s2 o2 (db & -> & Hdb & Ho2). apply wp_bind. eapply wp_mono; [by apply (read_impl_wp _ DbStaging)|].
    intros st s3 o3 (db3 & w & -> & Hdb3 & Ho3). case_bool_decide as Hst.
    + apply wp_bind, response_wp. wp_steps. rewrite app_nil_r. split.
      * destruct Hs. by split.
      * rewrite !prm_responses_app, Ho2, Ho3, (params_idle s E). by eapply spec_load.
    + wp_steps. apply response_wp. split.
      * destruct Hs. split; try done. apply store_ok_nil.
      * rewrite !prm_responses_app, Ho2, Ho3, (params_idle s E). by eapply spec_load_failed.
  - rewrite (bool_decide_eq_false_2 (FileUpdatesStaged = PrmIdle)) by done. cbn [negb]. wp_steps. apply response_wp.
    split; [done|]. rewrite (params_staged s E). by eapply spec_busy.
Qed.

Lemma prm_commit_wp id_base op seq args s :
  prm_ok s → decode_command id_base op args = inr CommitCmd →
  wp (prm_commit_staged_cmd_handler true op seq) s (λ _ s' o, steps_to id_base (CallCommand op seq args) s s' o).
Proof.
  intros Hs Hop. unfold prm_commit_staged_cmd_handler, log_file_load_invalid_action, prm_log. wp_steps. destruct (prm_state_cases s Hs) as [E|E]; rewrite E.
  - rewrite (bool_decide_eq_false_2 (PrmIdle = FileUpdatesStaged)) by done. cbn [negb]. wp_steps. apply response_wp.
    split; [done|]. rewrite (params_idle s E). by apply spec_no_commit.
  - rewrite (bool_decide_eq_true_2 (FileUpdatesStaged = FileUpdatesStaged)) by done. cbn [negb]. wp_steps. apply response_wp. split.
    + destruct Hs. split; try done. apply store_ok_nil.
    + rewrite (params_staged s E). by apply spec_commit.
Qed.

(** ** Every call *)

(** The last test of every command: nothing is left of the arguments. *)
Lemma ends_wp id_base op seq args args' c (m : PrmM unit) s :
  prm_ok s → wf args' → decode_command id_base op args = ends args' c →
  (decode_command id_base op args = inr c → wp m s (λ _ s' o, steps_to id_base (CallCommand op seq args) s s' o)) →
  wp (n ← size_left args'; if negb (bool_decide (n = 0)) then prm_response true op seq CmdFormatError else m) s
    (λ _ s' o, steps_to id_base (CallCommand op seq args) s s' o).
Proof.
  intros Hs Hw Hd Hm. apply size_left_wp; [done|]. rewrite Hd in Hm. unfold ends in *. destruct Hw as (Hw & _).
  case_bool_decide; case_bool_decide; cbn [negb]; [by apply Hm|lia|lia|]. by apply refused_wp; [|rewrite Hd].
Qed.

Lemma load_cmd_wp id_base op seq args s :
  prm_ok s → call_ok id_base (CallCommand op seq args) → wrap 32 (op - id_base) = OPCODE_PRM_LOAD_FILE →
  wp (cmd_in_handler cwd true id_base op seq args) s (λ _ s' o, steps_to id_base (CallCommand op seq args) s s' o).
Proof.
  intros Hs [Hw Hn] Hop. assert (decode_command id_base op args = decode_load args) as Hd by (unfold decode_command; by rewrite Hop).
  rewrite Hd in Hn. unfold cmd_in_handler. rewrite Hop. cbn [Z.eqb OPCODE_PRM_LOAD_FILE OPCODE_PRM_SAVE_FILE]. unfold decode_load in *.
  eapply on_args_wp; [apply string_deserialize_yields, string_new_ok|done|].
  destruct (string_deserialize_from Big _ args) as [[name|st|] args1]; [|by apply refused_wp..]. intros _ Hw1.
  eapply on_args_wp; [apply (yields_uint 1)|done|]. change (deserialize_uint 1 Big) with (deserialize_u8 Big).
  destruct (deserialize_u8 Big args1) as [[raw|st|] args2]; [|by apply refused_wp..]. intros _ Hw2. cbv beta iota.
  destruct (try_from raw : option Merge) as [merge|]; [|by apply refused_wp].
  eapply ends_wp; [done|done|exact Hd|]. rewrite Hd. intros He. rewrite He in Hn. apply load_wp; [done|by rewrite Hd|done].
Qed.

Lemma prm_command_wp id_base op seq args s :
  prm_ok s → call_ok id_base (CallCommand op seq args) →
  wp (cmd_in_handler cwd true id_base op seq args) s (λ _ s' o, steps_to id_base (CallCommand op seq args) s s' o).
Proof.
  intros Hs Hc. destruct (Z.eq_dec (wrap 32 (op - id_base)) OPCODE_PRM_LOAD_FILE) as [E|E]; [by apply load_cmd_wp|]. destruct Hc as [Hw _].
  apply Z.eqb_neq in E. unfold cmd_in_handler. rewrite E.
  assert (decode_command id_base op args = if (wrap 32 (op - id_base) =? OPCODE_PRM_SAVE_FILE)%Z then ends args SaveCmd
    else if (wrap 32 (op - id_base) =? OPCODE_PRM_COMMIT_STAGED)%Z then ends args CommitCmd else inl InvalidOpcode) as Hd by (unfold decode_command; by rewrite E).
  destruct (_ =? OPCODE_PRM_SAVE_FILE)%Z; [by apply (ends_wp _ _ _ _ _ SaveCmd), save_wp|].
  destruct (_ =? OPCODE_PRM_COMMIT_STAGED)%Z; [by apply (ends_wp _ _ _ _ _ CommitCmd), prm_commit_wp|]. by apply refused_wp.
Qed.

Lemma call_wp id_base c s : prm_ok s → call_ok id_base c → wp (prm_call id_base c) s (λ _ s' o, steps_to id_base c s s' o).
Proof.
  intros Hs Hc. destruct c as [id v|id v|key|op seq args]; [by apply get_wp|by apply set_wp| |by apply prm_command_wp].
  unfold prm_call, prm_ping_handler. wp_steps. split; [done|]. apply spec_ping.
Qed.

Lemma calls_wp id_base cs : ∀ s, prm_ok s → Forall (call_ok id_base) cs →
  wp (prm_calls id_base cs) s (λ _ s' o, prm_ok s' ∧ prm_specs id_base cs (params_of s) (params_of s') (prm_responses o)).
Proof.
  induction cs as [|c cs IH]; intros s Hs Hcs; cbn [prm_calls]; [wp_steps; split; [done|constructor]|]. apply Forall_cons in Hcs as [Hc Hcs].
  apply wp_bind. eapply wp_mono; [by apply call_wp|]. intros [] s1 o1 [Hs1 H1]. eapply wp_mono; [by apply IH|]. intros [] s2 o2 [Hs2 H2].
  split; [done|]. rewrite prm_responses_app. by econstructor.
Qed.

Lemma prm_new_ok file w : named (set_bytes file FwDefaultString_new) → prm_ok (prm_configure file (PrmDb_new w)).
Proof. intros Hn. split; cbn; try done; apply store_ok_nil. Qed.

Lemma get_prm_value id v s : ∃ s' o, get_prm_handler id v s =
  Ret (match store_find id (prm_active s) with Some x => (ParamValid_Valid, x) | None => (ParamInvalid, v) end, s', o).
Proof.
  unfold get_prm_handler, mbind, CompM_bind, get_state. cbn. destruct (store_find id (prm_active s)); [eauto|].
  destruct (ok_to_emit (not_found_throttle s)) as [[] th]; cbn; eauto.
Qed.

Lemma boot_wp file w :
  named (set_bytes file FwDefaultString_new) →
  wp (read_param_file cwd) (prm_configure file (PrmDb_new w))
    (λ _ s o, prm_ok s ∧ params_of s = MkParams (prm_active s) None ∧ prm_responses o = []).
Proof.
  intros Hn. unfold read_param_file. wp_steps. eapply wp_assert; [done|]. wp_steps. apply wp_bind. eapply wp_mono; [apply (read_impl_wp _ DbActive); [apply store_ok_nil|exact Hn]|].
  intros r s o (db & w' & -> & Hdb & Ho). wp_steps. rewrite app_nil_r. split_and!; [|done|done]. split; try done. apply store_ok_nil.
Qed.

(** Boot, then calls in any order. *)
Definition prm_run (id_base : Z) (cs : list PrmCall) : PrmM unit := _ ← read_param_file cwd; prm_calls id_base cs.

Definition commands (cs : list PrmCall) : list (Z * Z) := omap (λ c, match c with CallCommand op seq _ => Some (op, seq) | _ => None end) cs.
Lemma specs_answer id_base cs p p' rs : prm_specs id_base cs p p' rs → rs.*1 = commands cs.
Proof.
  induction 1 as [|c cs p1 p2 p3 r rs Hc _ IH]; [done|]. rewrite fmap_app, IH. by destruct Hc.
Qed.

(** C21. The parameter database implements its contract.  Whatever is in the
    files, and whatever the file system answers to each call, a component
    that was configured with a file name that is not empty and valid UTF-8,
    loaded its file at boot and then takes port calls and commands in any
    order, a [PRM_LOAD_FILE] naming a file the same way (an empty or non-UTF-8
    name fails an assertion, see [load_empty_name_panics]),
    does not panic; its parameters in force and its staged set move as
    the contract allows: a load stages a whole set or leaves nothing, only a
    commit puts a staged set in force, and [setPrm] and the file commands are
    refused until then; each command gets one response, in order, with its own
    opcode and sequence number; and [getPrm] answers from the parameters in
    force. *)
Theorem prm_refines_spec id_base file w calls :
  named (set_bytes file FwDefaultString_new) → Forall (call_ok id_base) calls →
  ∃ s o db, prm_run id_base calls (prm_configure file (PrmDb_new w)) = Ret (tt, s, o) ∧ prm_ok s ∧ store_ok db ∧
    prm_specs id_base calls (MkParams db None) (params_of s) (prm_responses o) ∧
    (prm_responses o).*1 = commands calls ∧
    ∀ id v, ∃ s' o', get_prm_handler id v s =
      Ret (match store_find id (in_force (params_of s)) with Some x => (ParamValid_Valid, x) | None => (ParamInvalid, v) end, s', o').
Proof.
  intros Hn Hc. assert (wp (prm_run id_base calls) (prm_configure file (PrmDb_new w)) (λ _ s o, ∃ db, prm_ok s ∧ store_ok db ∧
    prm_specs id_base calls (MkParams db None) (params_of s) (prm_responses o))) as Hw.
  { unfold prm_run. apply wp_bind. eapply wp_mono; [by apply boot_wp|]. intros [] s o (Hs & Hp & Ho). eapply wp_mono; [by apply calls_wp|].
    intros [] s' o' [Hs' H']. exists (prm_active s). rewrite prm_responses_app, Ho, <- Hp. split_and!; [done|apply Hs|done]. }
  apply wp_returns in Hw as ([] & s & o & E & db & Hs & Hdb & Hsp). exists s, o, db. split_and!; [done..|by eapply specs_answer|]. intros id v. apply get_prm_value.
Qed.
End runs.

(** The value of a parameter, the arguments of a command. *)
Definition value (bs : list Z) : serbuf := (set_buff bs ParamBuffer_new).2.
Definition args_of (bs : list Z) : serbuf := SerBuf bs (length bs) 0.
Definition values (s : PrmDbStore) : list (Z * list Z) := (λ p, (p.1, as_slice p.2)) <$> s.

Lemma prm_refines_spec_witness :
  let w := one_file (str "/other") [] [] in
  let calls := [CallSet 7 (value [1; 2]); CallCommand 0x100 1 (args_of []); CallCommand 0x101 2 (args_of [0; 2; 47; 112; 1]);
                CallSet 9 (value [3]); CallCommand 0x102 3 (args_of []); CallCommand 0x103 4 (args_of [])]%Z in
  ∃ s o, prm_run None 0x100 calls (prm_configure (str "/p") (PrmDb_new w)) = Ret (tt, s, o) ∧
    prm_responses o = [(0x100, 1, CmdOk); (0x101, 2, CmdOk); (0x102, 3, CmdOk); (0x103, 4, InvalidOpcode)]%Z ∧
    values (in_force (params_of s)) = [(7, [1; 2])]%Z.
Proof.
  intros w calls. destruct (prm_refines_spec None 0x100 (str "/p") w calls) as (s & o & db & E & _).
  - fp_decide.
  - repeat (constructor; [first [done|split; [fp_decide|first [exact I|vm_compute; discriminate]]]|]). constructor.
  - exists s, o. split; [exact E|]. vm_compute in E. injection E as <- <-. vm_compute. done.
Defined.
