(* ===== verification/PrmDbFiles.v ===== *)
(** What a parameter file holds: the image that [PRM_SAVE_FILE] writes, what a
    load makes of any file, and that a load restores what a save wrote. *)

From stdpp Require Import list gmap strings.
From S2P Require Import Prelude Serial SerialFacts Codec Fpp Packets Crc32 Comp FwString OsFile FilePaths PrmDb PrmDbRuns.

(** * The format *)

Definition record_image (p : Z * list Z) : list Z :=
  [ENTRY_DELIMITER] ++ u32_bytes (4 + Z.of_nat (length p.2)) ++ u32_bytes p.1 ++ p.2.
Definition db_image (vs : list (Z * list Z)) : list Z := concat (record_image <$> vs).
Definition file_image (vs : list (Z * list Z)) : list Z := u32_bytes (not32 (hash_u32 (db_image vs))) ++ db_image vs.

(** The record after a delimiter: id, value and the rest. *)
Definition parse_record (c : list Z) : option (Z * list Z * list Z) :=
  let size := be_value (take 4 c) in
  let n := Z.to_nat (size - 4) in
  if decide (length c < 8 ∨ ¬ (4 ≤ size ≤ MAX_RECORD_SIZE)%Z ∨ length c < 8 + n) then None
  else Some (be_value (slice 4 4 c), slice 8 n c, drop (8 + n) c).

(** The records of at most [turns] entries, and whether they are all sound. *)
Fixpoint parse_records (turns : nat) (c : list Z) : list (Z * list Z) * bool :=
  match turns, c with
  | O, _ | _, [] => ([], true)
  | S turns', d :: c' =>
      if (d =? ENTRY_DELIMITER)%Z then
        match parse_record c' with
        | Some (id, v, rest) => let '(rs, ok) := parse_records turns' rest in ((id, v) :: rs, ok)
        | None => ([], false)
        end
      else ([], false)
  end.

(** The store after the records, and how many found no slot. *)
Fixpoint apply_records (rs : list (Z * list Z)) (db : PrmDbStore) : PrmDbStore * nat :=
  match rs with
  | [] => (db, 0)
  | (id, v) :: rs' =>
      let '(ok, db') := store_insert id (value v) db in
      let '(db'', n) := apply_records rs' db' in (db'', if ok then n else S n)
  end.

(** A load of content [c] into [base]: the store, and whether it succeeds. *)
Definition load_spec (c : list Z) (base : PrmDbStore) : PrmDbStore * bool :=
  if decide (length c < 4 ∨ be_value (take 4 c) ≠ not32 (hash_u32 (drop 4 c))) then (base, false)
  else let '(rs, ok) := parse_records NUM_DB_ENTRIES (drop 4 c) in
       let '(db, dropped) := apply_records rs base in (db, ok && bool_decide (dropped = 0)).

(** * Loading *)

(** Open for reading at [pos] of node [i] in the quiet world [w]. *)
Definition reads_at (w : World) (i pos : nat) (f : FileW) : Prop :=
  script w = [] ∧ pos ≤ length (node w i) ∧ f.2 = w ∧ ∃ d, reading f d ∧ fd_node d = i ∧ fd_pos d = pos.

Lemma read_exact n w i pos f :
  reads_at w i pos f →
  ∃ f', file_read n Wait f = (FsOpOk, slice pos n (node w i), f') ∧ reads_at w i (pos + length (slice pos n (node w i))) f' ∧
    crc f'.1 = crc f.1 ∧ crc_buffer f'.1 = crc_buffer f.1.
Proof.
  intros (Hq & Hp & <- & d & Hr & <- & <-). assert (fd_pos d + length (slice (fd_pos d) n (node f.2 (fd_node d))) ≤ length (node f.2 (fd_node d))) as Hp'.
  { unfold slice. rewrite length_take, length_drop. lia. }
  rewrite (file_read_quiet_all n Wait f d Hr Hq). eexists. split; [done|]. split; [|done]. split_and!; [done|done|done|].
  eexists (set_pos _ d). destruct Hr as (? & ? & ?). by split_and!.
Qed.

Section load.
Context (cwd : option FwString).
Local Notation PrmM := (CompM PrmDb PrmOut).
Context (w : World) (i : nat).
Let c := node w i.

Lemma field_exact n record e1 e2 pos f s (Q : option (list Z) * FileW → PrmDb → list PrmOut → Prop) :
  reads_at w i pos f →
  (∀ f' o, prm_responses o = [] → crc f'.1 = crc f.1 → crc_buffer f'.1 = crc_buffer f.1 →
     (if decide (pos + n ≤ length c) then reads_at w i (pos + n) f' else ∃ pos', reads_at w i pos' f') →
     Q (if decide (pos + n ≤ length c) then Some (slice pos n c) else None, f') s o) →
  wp (read_field n record e1 e2 f) s Q.
Proof.
  intros Hf HQ. unfold read_field. destruct (read_exact n w i pos f Hf) as (f' & -> & Hf' & Hc & Hb). fold c in Hf' |- *.
  rewrite (bool_decide_eq_true_2 (FsOpOk = FsOpOk)) by done. cbn [negb].
  destruct (decide (pos + n ≤ length c)) as [Hl|Hl].
  - rewrite bool_decide_eq_true_2 by (apply length_slice; lia). cbn [negb]. wp_steps. apply HQ; [done..|]. rewrite length_slice in Hf' by lia. done.
  - rewrite bool_decide_eq_false_2 by (destruct Hf as (_ & Hp & _); unfold slice; rewrite length_take, length_drop; fold c in Hp; lia).
    cbn [negb]. unfold log_read_error, prm_log. wp_steps. apply HQ; eauto.
Qed.

Lemma record_exact record pos f s (Q : option (Z * list Z) * FileW → PrmDb → list PrmOut → Prop) :
  reads_at w i pos f →
  (∀ f' o, prm_responses o = [] →
     match parse_record (drop pos c) with
     | Some (id, v, rest) => ∀ pos', length v ≤ FW_PARAM_BUFFER_MAX_SIZE → reads_at w i pos' f' → drop pos' c = rest → Q (Some (id, v), f') s o
     | None => ∀ pos', reads_at w i pos' f' → Q (None, f') s o
     end) →
  wp (read_record record f) s Q.
Proof.
  intros Hf HQ. unfold read_record, parse_record in *. rewrite length_drop in HQ. apply wp_bind, field_exact with (pos := pos); [done|].
  intros f1 o1 Ho1 _ _ Hf1. destruct (decide (pos + 4 ≤ length c)) as [H4|H4].
  2: { destruct Hf1 as [pos' Hf1]. wp_steps. rewrite app_nil_r. specialize (HQ f1 o1 Ho1). rewrite decide_True in HQ by lia. by apply HQ in Hf1. }
  change (take 4 (drop pos c)) with (slice pos 4 c) in HQ. set (size := be_value (slice pos 4 c)) in *.
  destruct ((MIN_RECORD_SIZE <=? size) && (size <=? MAX_RECORD_SIZE))%Z eqn:Hsz; cbn [negb].
  2: { unfold log_read_error, prm_log. wp_steps. assert (prm_responses (o1 ++ [PrmLog (PrmFileReadError RdRecordSizeValue record (to_signed 32 size))]) = []) as Ho.
       { by rewrite prm_responses_app, Ho1. }
       specialize (HQ f1 _ Ho). rewrite decide_True in HQ; [by apply HQ in Hf1|]. right. left. unfold MIN_RECORD_SIZE in *. lia. }
  apply andb_true_iff in Hsz as [Hmin%Z.leb_le Hmax%Z.leb_le]. unfold MIN_RECORD_SIZE in *.
  apply wp_bind, field_exact with (pos := pos + 4); [done|]. intros f2 o2 Ho2 _ _ Hf2. destruct (decide (pos + 4 + 4 ≤ length c)) as [H8|H8].
  2: { destruct Hf2 as [pos' Hf2]. wp_steps. rewrite app_nil_r. assert (prm_responses (o1 ++ o2) = []) as Ho by (by rewrite prm_responses_app, Ho1, Ho2).
       specialize (HQ f2 _ Ho). rewrite decide_True in HQ by lia. by apply HQ in Hf2. }
  apply wp_bind, field_exact with (pos := pos + 4 + 4); [done|]. intros f3 o3 Ho3 _ _ Hf3. wp_steps. rewrite app_nil_r.
  assert (prm_responses (o1 ++ o2 ++ o3) = []) as Ho by (by rewrite !prm_responses_app, Ho1, Ho2, Ho3). specialize (HQ f3 _ Ho).
  destruct (decide (pos + 4 + 4 + Z.to_nat (size - 4) ≤ length c)) as [Hn|Hn].
  - rewrite decide_False in HQ by lia. unfold slice in HQ |- *. rewrite !drop_drop in HQ. replace (pos + 8) with (pos + 4 + 4) in HQ by lia.
    eapply HQ; [|exact Hf3|f_equal; lia]. rewrite length_take. unfold MAX_RECORD_SIZE in Hmax. lia.
  - rewrite decide_True in HQ by lia. destruct Hf3 as [pos' Hf3]. by apply HQ in Hf3.
Qed.

Lemma set_db_twice t d1 d2 s : set_db t d2 (set_db t d1 s) = set_db t d2 s.
Proof. by destruct t. Qed.
Lemma get_set_db t d s : get_db t (set_db t d s) = d.
Proof. by destruct t. Qed.
Lemma set_get_db t s : set_db t (get_db t s) s = s.
Proof. by destruct t, s. Qed.

Lemma value_fits v : length v ≤ FW_PARAM_BUFFER_MAX_SIZE → set_buff v ParamBuffer_new = (SOk tt, value v).
Proof.
  intros Hv. unfold value, set_buff. rewrite bool_decide_eq_false_2; [done|]. unfold capacity, ParamBuffer_new, linear_buffer_new. cbn [data]. rewrite length_replicate. lia.
Qed.

Lemma records_exact t turns : ∀ pos f total added updated dropped s,
  reads_at w i pos f →
  wp (read_records turns t f total added updated dropped) s (λ r s' o,
    prm_responses o = [] ∧ r.2.2 = w ∧
    let '(rs, ok) := parse_records turns (drop pos c) in
    let '(db, n) := apply_records rs (get_db t s) in
    s' = set_db t db s ∧ if ok then ∃ tot a u, r.1 = Some (tot, a, u, dropped + n) else r.1 = None).
Proof.
  induction turns as [|turns IH]; intros pos f total added updated dropped s Hf; cbn [read_records parse_records].
  { wp_steps. cbn [apply_records]. rewrite set_get_db, Nat.add_0_r. split_and!; [done|apply Hf|done|eauto]. }
  destruct (read_exact 1 w i pos f Hf) as (f1 & -> & Hf1 & _). fold c in Hf1 |- *.
  rewrite (bool_decide_eq_true_2 (FsOpOk = FsOpOk)) by done. cbn [negb andb]. unfold slice in Hf1 |- *. destruct (drop pos c) as [|d rest] eqn:Ed.
  { cbn [take]. rewrite (bool_decide_eq_true_2 ([] = [])) by done. wp_steps. cbn [apply_records]. rewrite set_get_db, Nat.add_0_r. split_and!; [done|apply Hf1|done|eauto]. }
  cbn [take length] in Hf1 |- *. rewrite take_0 in Hf1 |- *. rewrite (bool_decide_eq_false_2 ([d] = [])), (bool_decide_eq_true_2 (length [d] = 1)) by done. cbn [negb].
  change ([d] !!! 0) with d. cbv zeta. destruct (d =? ENTRY_DELIMITER)%Z; cbn [negb].
  2: { unfold log_read_error, prm_log. wp_steps. cbn [apply_records]. rewrite set_get_db. split_and!; [done|apply Hf1|done|done]. }
  apply wp_bind, record_exact with (pos := pos + length [d]); [done|]. intros f2 o Ho.
  assert (drop (pos + length [d]) c = rest) as -> by (by rewrite <- drop_drop, Ed). destruct (parse_record rest) as [[[id v] rest']|].
  2: { intros pos' Hf2. wp_steps. rewrite app_nil_r. cbn [apply_records]. rewrite set_get_db. split_and!; [done|apply Hf2|done|done]. }
  intros pos' Hv Hf2 Hrest. rewrite (value_fits v Hv). eapply wp_assert; [done|]. unfold update_add_prm. apply wp_bind. wp_steps.
  assert (∀ tot a u dr, wp (read_records turns t f2 tot a u dr) (set_db t (store_insert id (value v) (get_db t s)).2 s) (λ r s' o',
    prm_responses (o ++ o') = [] ∧ r.2.2 = w ∧
    let '(rs, ok) := parse_records turns rest' in let '(db, n) := apply_records rs (store_insert id (value v) (get_db t s)).2 in
    s' = set_db t db s ∧ if ok then ∃ tot a u, r.1 = Some (tot, a, u, dr + n) else r.1 = None)) as Hnext.
  { intros tot a u dr. eapply wp_mono; [by apply IH|]. intros r s' o' (Ho' & Hw & Hr). rewrite prm_responses_app, Ho, Ho'. split_and!; [done..|].
    rewrite Hrest, get_set_db in Hr. destruct (parse_records turns rest') as [rs ok], (apply_records rs _) as [db n]. by rewrite set_db_twice in Hr. }
  destruct (parse_records turns rest') as [rs ok]. cbn [apply_records]. destruct (store_insert id (value v) (get_db t s)) as [fit db'] eqn:Ei. cbn [snd] in Hnext.
  destruct (apply_records rs db') as [db n]. wp_steps. destruct fit; cbn [negb].
  - case_bool_decide; apply Hnext.
  - unfold log_prm_db_full, prm_log. wp_steps. eapply wp_mono; [apply Hnext|]. intros r s' o' (Ho' & Hw & -> & Hr). rewrite prm_responses_app in *. cbn.
    split_and!; [done..|]. replace (dropped + S n) with (dropped + 1 + n) by lia. done.
Qed.

(** After the CRC of the rest, the file is positioned anew. *)
Lemma crc_seek_exact pos f n :
  reads_at w i pos f → crc f.1 = INITIAL_CRC → length (crc_buffer f.1) = FW_FILE_CHUNK_SIZE → n ≤ length c → (Z.of_nat n ≤ I64_MAX)%Z →
  ∃ f' f'', rest_crc f = Ret (FsOpOk, not32 (hash_u32 (drop pos c)), f') ∧ f'.2 = w ∧
    file_seek (Z.of_nat n) Absolute f' = Ret (FsOpOk, f'') ∧ reads_at w i n f''.
Proof.
  intros (Hq & Hp & Ew & d & Hr & Ei & Ep) Hc Hb Hn Hn'. unfold rest_crc, crc_fuel. pose proof Hr as (_ & -> & _).
  destruct (calculate_crc_ok f d (S (length (node f.2 (fd_node d)))) Hr Hc Hb) as (st & bs & f' & d' & _ & Hw & Hr' & Hd' & -> & Hquiet).
  { rewrite length_drop. pose proof (Nat.div_le_upper_bound (length (node f.2 (fd_node d)) - fd_pos d) FW_FILE_CHUNK_SIZE (length (node f.2 (fd_node d)))) as Hd.
    unfold FW_FILE_CHUNK_SIZE in *. specialize (Hd ltac:(done) ltac:(lia)). lia. }
  rewrite Ew, Ei, Ep in *. fold c in Hquiet |- *. destruct Hquiet as (Hq' & -> & ->); [unfold quiet; by rewrite Ew|]. rewrite decide_True, outcome_bind_ret by done.
  assert (f'.2 = w) as Ew'. { destruct Hw as (H1 & H2 & H3). destruct (f'.2) as [a1 a2 a3 a4] eqn:E, w. unfold quiet in *. cbn in *. rewrite E in Hq'. cbn in *. congruence. }
  eexists f', (set_fd (set_pos n d') f'.1, f'.2). split; [done|]. split; [done|]. split.
  - unfold file_seek. rewrite (proj2 (Z.leb_le 0 _)), orb_true_r by lia. cbn [fw_assert]. rewrite outcome_bind_ret, (bool_decide_eq_true_2 (Absolute = Absolute)) by done.
    f_equal. change (seek_from (SeekStart (Z.of_nat n)) f') with (seek_absolute (Z.of_nat n) f'). rewrite (seek_absolute_ok _ _ d'); [|apply Hr'|done|lia].
    by rewrite Nat2Z.id.
  - split_and!; [done|done|done|]. exists (set_pos n d'). destruct Hr' as (? & ? & ?). split_and!; [by split_and!|done|done].
Qed.

Lemma work_exact t f s :
  reads_at w i 0 f → crc f.1 = INITIAL_CRC → length (crc_buffer f.1) = FW_FILE_CHUNK_SIZE →
  wp (read_param_file_work f FsOpOk t) s (λ r s' o, prm_responses o = [] ∧ r.2.2 = w ∧
    let '(db, ok) := load_spec c (get_db t s) in s' = set_db t db s ∧ r.1 = if ok then LoadSuccess else LoadError).
Proof.
  intros Hf Hc Hb. unfold read_param_file_work. rewrite (bool_decide_eq_true_2 (FsOpOk = FsOpOk)) by done. cbn [negb].
  apply wp_bind, field_exact with (pos := 0); [done|]. intros f1 o1 Ho1 Hc1 Hb1 Hf1. cbn [Nat.add] in *. unfold load_spec. destruct (decide (4 ≤ length c)) as [H4|H4].
  2: { destruct Hf1 as [pos Hf1]. rewrite decide_True by lia. wp_steps. rewrite app_nil_r, set_get_db. split_and!; [done|apply Hf1|done|done]. }
  destruct (crc_seek_exact 4 f1 4) as (f2 & f3 & E2 & Hw2 & E3 & Hf3); [done|congruence|congruence|done|done|].
  eapply wp_lift; [exact E2|]. cbv beta iota. rewrite (bool_decide_eq_true_2 (FsOpOk = FsOpOk)) by done. cbn [negb]. change (slice 0 4 c) with (take 4 c).
  destruct (Z.eqb_spec (be_value (take 4 c)) (not32 (hash_u32 (drop 4 c)))) as [Ecrc|Ecrc]; cbn [negb].
  2: { rewrite decide_True by auto. unfold prm_log. wp_steps. rewrite prm_responses_app, Ho1, set_get_db. by split_and!. }
  rewrite decide_False by naive_solver lia. change 4%Z with (Z.of_nat 4). eapply wp_lift; [exact E3|]. cbv beta iota. rewrite (bool_decide_eq_true_2 (FsOpOk = FsOpOk)) by done. cbn [negb].
  apply wp_bind. eapply wp_mono; [by apply records_exact|]. intros [r f4] s' o (Ho & Hw & Hr). cbn [fst snd] in *. destruct (parse_records _ _) as [rs ok], (apply_records rs _) as [db n].
  destruct Hr as [-> Hr]. destruct ok.
  - destruct Hr as (tot & a & u & ->). cbn [Nat.add andb]. destruct n.
    + rewrite !bool_decide_eq_false_2 by lia. unfold prm_log. wp_steps. rewrite !prm_responses_app, Ho1, Ho. by split_and!.
    + rewrite !bool_decide_eq_true_2 by lia. wp_steps. rewrite !prm_responses_app, Ho1, Ho. by split_and!.
  - subst r. wp_steps. rewrite !prm_responses_app, Ho1, Ho. by split_and!.
Qed.
End load.

(** * Saving *)

(** What a store can hold: 32-bit ids and values of at most the size of a
    [ParamBuffer]. *)
Definition savable (db : PrmDbStore) : Prop := Forall (λ p, is_u 32 p.1 ∧ wf p.2 ∧ ser_loc p.2 ≤ FW_PARAM_BUFFER_MAX_SIZE) db.

Section save.
Context (w0 : World) (i : nat) (r : Z) (b : list Z).

Lemma write_fields_exact fields record : ∀ c w pos h,
  filling w0 i c w → pos ≤ length c →
  let bs := concat (fields.*1.*1) in
  ∃ w', write_fields fields record (writer i pos r b w) h = (None, writer i (pos + length bs) r b w', Hash_update bs h) ∧ filling w0 i (write_at pos bs c) w'.
Proof.
  induction fields as [|[[x st] sz] fields IH]; intros c w pos h Hw Hp; cbn [write_fields fmap list_fmap fst concat length].
  { exists w. rewrite write_at_nil, Nat.add_0_r by done. split; [|done]. by destruct h. }
  destruct (write_filling w0 i c w x pos r b Hw Hp) as (w1 & E & Hw1). unfold write_field. rewrite E.
  rewrite (bool_decide_eq_true_2 (FsOpOk = FsOpOk)), (bool_decide_eq_true_2 (length x = length x)) by done. cbn [negb].
  destruct (IH _ w1 (pos + length x) (Hash_update x h) Hw1) as (w2 & -> & Hw2); [rewrite length_write_at; lia|].
  exists w2. rewrite length_app, Nat.add_assoc, hash_app. split; [done|]. by rewrite <- write_at_app.
Qed.

Lemma record_fields_image id v :
  wf v → ser_loc v ≤ FW_PARAM_BUFFER_MAX_SIZE → concat ((record_fields id v).*1.*1) = record_image (id, as_slice v).
Proof.
  intros (_ & Hs & _) Hl. unfold record_image, record_fields. cbn [fst snd fmap list_fmap concat]. rewrite app_nil_r. do 2 f_equal. f_equal.
  unfold as_slice. rewrite length_take. unfold capacity in Hs. rewrite Nat.min_l by done. rewrite wrap_small; [f_equal; lia|].
  unfold is_u, FW_PARAM_BUFFER_MAX_SIZE, FW_COM_BUFFER_MAX_SIZE in *. lia.
Qed.

Lemma write_records_exact db : ∀ n c w pos h,
  savable db → filling w0 i c w → pos ≤ length c →
  let bs := db_image (values db) in
  ∃ w', write_records n db (writer i pos r b w) h = (inr (n + length db), writer i (pos + length bs) r b w', Hash_update bs h) ∧ filling w0 i (write_at pos bs c) w'.
Proof.
  induction db as [|[id v] db IH]; intros n c w pos h Hdb Hw Hp; cbn [write_records length].
  { exists w. change (db_image (values [])) with (@nil Z). cbn [length]. rewrite write_at_nil, !Nat.add_0_r by done. split; [|done]. by destruct h. }
  apply Forall_cons in Hdb as [(Hid & Hv & Hl) Hdb]. cbn [fst snd] in *.
  destruct (write_fields_exact (record_fields id v) (Z.of_nat n) c w pos h Hw Hp) as (w1 & -> & Hw1). rewrite record_fields_image in * by done.
  destruct (IH (n + 1) _ w1 (pos + length (record_image (id, as_slice v))) (Hash_update (record_image (id, as_slice v)) h) Hdb Hw1) as (w2 & -> & Hw2).
  { rewrite length_write_at. lia. }
  exists w2. change (db_image (values ((id, v) :: db))) with (record_image (id, as_slice v) ++ db_image (values db)).
  rewrite length_app, !Nat.add_assoc, hash_app, <- write_at_app. split; [|done]. do 3 f_equal. lia.
Qed.
End save.

Lemma position_writer i pos r b w : script w = [] → file_position (writer i pos r b w) = (FsOpOk, Some pos, writer i pos r b w).
Proof. intros Hq. unfold file_position, writer. cbn. unfold std_position. by rewrite next_event_quiet. Qed.
Lemma seek_writer n i pos r b w :
  script w = [] → (Z.of_nat n ≤ I64_MAX)%Z → file_seek (Z.of_nat n) Absolute (writer i pos r b w) = Ret (FsOpOk, writer i n r b w).
Proof.
  intros Hq Hn. unfold file_seek. rewrite (proj2 (Z.leb_le 0 _)), orb_true_r by lia. cbn [fw_assert]. rewrite outcome_bind_ret, (bool_decide_eq_true_2 (Absolute = Absolute)) by done.
  f_equal. change (seek_from (SeekStart (Z.of_nat n)) (writer i pos r b w)) with (seek_absolute (Z.of_nat n) (writer i pos r b w)).
  rewrite (seek_absolute_ok _ _ (MkFd i pos false false)) by (done || lia). by rewrite Nat2Z.id.
Qed.

Lemma length_db_image db : savable db → length (db_image (values db)) ≤ length db * (9 + FW_PARAM_BUFFER_MAX_SIZE).
Proof.
  induction 1 as [|[id v] db (_ & _ & Hl) _ IH]; [done|]. change (db_image (values ((id, v) :: db))) with (record_image (id, as_slice v) ++ db_image (values db)).
  unfold record_image. cbn [fst snd length] in *. rewrite !length_app, !length_u32_bytes. unfold as_slice. rewrite length_take. cbn [length]. lia.
Qed.

(** A save puts the image at the start of the file and leaves what follows. *)
Lemma save_file_exact path db w :
  script w = [] → world_ok w → savable db → length db ≤ NUM_DB_ENTRIES →
  ∃ w', save_file path db w = Ret (inr (length db), w') ∧
    only_changed path (write_at 0 (file_image (values db)) (default [] (file_at w path))) w w'.
Proof.
  intros Hq Hw Hdb Hlen. unfold save_file, open_with_overwrite. rewrite (bool_decide_eq_false_2 (OpenWrite = OpenNoMode)) by done. cbn [negb fw_assert]. rewrite !outcome_bind_ret.
  unfold is_open. cbn [fst snd mode File_new]. rewrite (bool_decide_eq_true_2 (OpenNoMode = OpenNoMode)) by done. cbn [negb].
  destruct (std_open_write path w Hq Hw) as (i & w1 & Eo & Hp & Hch & Hc0). change (options_of OpenWrite Overwrite) with (options_of OpenWrite NoOverwrite). rewrite Eo, outcome_bind_ret.
  rewrite (bool_decide_eq_true_2 (FsOpOk = FsOpOk)) by done. cbn [negb]. set (c0 := default [] (file_at w path)) in *.
  assert (filling w1 i c0 w1) as Hf1 by (split; try done; apply Hch).
  change (MkFile (Some (MkFd i 0 false false)) OpenWrite INITIAL_CRC (crc_buffer File_new), w1) with (writer i 0 INITIAL_CRC (crc_buffer File_new) w1).
  destruct (write_filling w1 i c0 w1 (u32_bytes 0xFFFFFFFF) 0 INITIAL_CRC (crc_buffer File_new) Hf1) as (w2 & -> & Hf2); [lia|].
  rewrite (bool_decide_eq_true_2 (FsOpOk = FsOpOk)) by done. cbn [negb].
  destruct (write_records_exact w1 i INITIAL_CRC (crc_buffer File_new) db 0 _ w2 (0 + length (u32_bytes 0xFFFFFFFF)) Hash_new Hdb Hf2) as (w3 & -> & Hf3); [rewrite length_write_at; lia|].
  rewrite position_writer by apply Hf3. rewrite (bool_decide_eq_true_2 (FsOpOk = FsOpOk)) by done. cbn [negb].
  change 0%Z with (Z.of_nat 0) at 2. rewrite (seek_writer 0) by (apply Hf3 || done). rewrite outcome_bind_ret, (bool_decide_eq_true_2 (FsOpOk = FsOpOk)) by done. cbn [negb].
  edestruct write_filling as (w4 & -> & Hf4); [exact Hf3|apply Nat.le_0_l|]. rewrite (bool_decide_eq_true_2 (FsOpOk = FsOpOk)) by done. cbn [negb default from_option].
  rewrite length_u32_bytes. cbn [Nat.add]. unfold id. rewrite seek_writer; [|apply Hf4|].
  2: { pose proof (length_db_image db Hdb) as Hl. unfold NUM_DB_ENTRIES, I64_MAX, FW_PARAM_BUFFER_MAX_SIZE, FW_COM_BUFFER_MAX_SIZE in *. lia. }
 
  rewrite outcome_bind_ret, (bool_decide_eq_true_2 (FsOpOk = FsOpOk)) by done. cbn [negb]. eexists. split; [done|].
  eapply filling_changed; [exact Hp|exact Hch|].
  rewrite write_at_app, !write_at_over in Hf4. rewrite !write_at_over. rewrite <- app_assoc, drop_app_le, (drop_ge (u32_bytes _)), app_nil_l in Hf4 by (rewrite !length_u32_bytes; lia).
  unfold file_image. rewrite <- !app_assoc. rewrite !length_app, !length_u32_bytes in *. exact Hf4.
Qed.

(** * Reading back *)

Definition record_ok (p : Z * list Z) : Prop := is_u 32 p.1 ∧ length p.2 ≤ FW_PARAM_BUFFER_MAX_SIZE.

Lemma parse_record_image id v rest :
  record_ok (id, v) → parse_record (u32_bytes (4 + Z.of_nat (length v)) ++ u32_bytes id ++ v ++ rest) = Some (id, v, rest).
Proof.
  intros [Hid Hv]. cbn [fst snd] in *. unfold parse_record. rewrite take_u32.
  rewrite be_value_u32 by (unfold is_u, FW_PARAM_BUFFER_MAX_SIZE, FW_COM_BUFFER_MAX_SIZE in *; lia).
  replace (Z.to_nat (4 + Z.of_nat (length v) - 4)) with (length v) by lia. rewrite !length_app, !length_u32_bytes. unfold MAX_RECORD_SIZE. rewrite decide_False by lia.
  assert (∀ n, drop (8 + n) (u32_bytes (4 + Z.of_nat (length v)) ++ u32_bytes id ++ v ++ rest) = drop n (v ++ rest)) as Hd.
  { intros n. rewrite app_assoc, drop_app_ge, length_app, !length_u32_bytes by (rewrite length_app, !length_u32_bytes; lia). f_equal. lia. }
  unfold slice. change 8 with (8 + 0) at 1. rewrite !Hd, drop_0, (take_app_length v), drop_app_length, drop_u32, take_u32. by rewrite be_value_u32.
Qed.

Lemma parse_image vs : ∀ turns, Forall record_ok vs → length vs ≤ turns → parse_records turns (db_image vs) = (vs, true).
Proof.
  induction vs as [|[id v] vs IH]; intros turns Hvs Hl; [by destruct turns|]. destruct turns as [|turns]; [cbn in Hl; lia|]. apply Forall_cons in Hvs as [Hv Hvs].
  change (db_image ((id, v) :: vs)) with (ENTRY_DELIMITER :: (u32_bytes (4 + Z.of_nat (length v)) ++ u32_bytes id ++ v) ++ db_image vs). rewrite <- !app_assoc.
  cbn [parse_records]. rewrite Z.eqb_refl, parse_record_image by done. rewrite IH; [done|done|cbn in Hl; lia].
Qed.

Lemma store_insert_fresh id v db : id ∉ ids db → length db < NUM_DB_ENTRIES → store_insert id v db = (true, db ++ [(id, v)]).
Proof.
  intros Hid Hl. unfold store_insert. pose proof (store_replace_spec id v db) as Hr. destruct (store_replace id v db) as [s'|]; [by destruct Hr as (_ & ? & _)|].
  by rewrite bool_decide_eq_true_2.
Qed.

Definition loaded (vs : list (Z * list Z)) : PrmDbStore := (λ p, (p.1, value p.2)) <$> vs.
Lemma apply_fresh vs : ∀ db,
  NoDup (ids db ++ vs.*1) → length db + length vs ≤ NUM_DB_ENTRIES → apply_records vs db = (db ++ loaded vs, 0).
Proof.
  induction vs as [|[id v] vs IH]; intros db Hn Hl; cbn [apply_records loaded fmap list_fmap fst snd]; [by rewrite app_nil_r|].
  cbn in Hn, Hl. rewrite store_insert_fresh; [|by apply NoDup_app in Hn; set_solver|lia].
  rewrite IH; [by rewrite <- app_assoc| |rewrite length_app; cbn; lia]. unfold ids. rewrite fmap_app, <- app_assoc. exact Hn.
Qed.

Lemma load_image vs :
  Forall record_ok vs → Forall (λ p, Forall is_byte p.2) vs → NoDup vs.*1 → length vs ≤ NUM_DB_ENTRIES → load_spec (file_image vs) [] = (loaded vs, true).
Proof.
  intros Hvs Hby Hn Hl. unfold load_spec, file_image. rewrite take_u32, drop_u32, length_app, length_u32_bytes.
  assert (Forall is_byte (db_image vs)) as Hb.
  { unfold db_image. apply Forall_concat, Forall_fmap. eapply Forall_impl; [exact Hby|]. intros [id v] Hv. unfold record_image, compose.
    repeat apply Forall_app_2; [by repeat constructor|apply be_bytes_is_byte|apply be_bytes_is_byte|done]. }
  rewrite be_value_u32 by (apply not32_u32, hash_u32_range, Hb). rewrite decide_False by (intros [?|?]; [lia|done]).
  by rewrite parse_image, apply_fresh by done.
Qed.

Lemma value_slice v : length v ≤ FW_PARAM_BUFFER_MAX_SIZE → as_slice (value v) = v.
Proof.
  intros Hv. assert (set_buff v ParamBuffer_new = (SOk tt, SerBuf (splice 0 v (data ParamBuffer_new)) (length v) 0)) as E.
  { unfold set_buff. rewrite bool_decide_eq_false_2; [done|]. unfold capacity, ParamBuffer_new, linear_buffer_new. cbn [data]. rewrite length_replicate. lia. }
  unfold value. rewrite E. unfold as_slice. cbn [ser_loc data snd]. unfold splice. by rewrite take_0, app_nil_l, take_app_length.
Qed.

Lemma values_loaded vs : Forall record_ok vs → values (loaded vs) = vs.
Proof.
  induction 1 as [|[id v] vs [_ Hv] _ IH]; [done|]. change (values (loaded ((id, v) :: vs))) with ((id, as_slice (value v)) :: values (loaded vs)).
  by rewrite IH, value_slice.
Qed.

Lemma savable_records db : savable db → Forall record_ok (values db) ∧ Forall (λ p, Forall is_byte p.2) (values db).
Proof.
  intros Hdb. split; apply Forall_fmap; (eapply Forall_impl; [exact Hdb|]); intros [id v] (Hid & (_ & _ & Hb) & Hl); cbn [fst snd] in *; unfold compose; cbn [fst snd].
  - split; [done|]. cbn [fst snd]. unfold as_slice. rewrite length_take. lia.
  - by apply Forall_take.
Qed.

(** What a load by name makes of a store. *)
Definition load_file (w : World) (name : list Z) (base : PrmDbStore) : PrmDbStore * bool :=
  match file_at w name with Some c => load_spec c base | None => (base, false) end.

Definition unboxed (t : PrmDbType) (s : PrmDb) : Prop := t = DbActive ∨ default [] (as_str (sandbox_dir s)) = [].

Section commands.
Context (cwd : option FwString).

Lemma impl_exact name t s :
  script (prm_world s) = [] → name ≠ [] → unboxed t s →
  wp (read_param_file_impl cwd name t) s (λ r s' o, prm_responses o = [] ∧
    let '(db, ok) := load_file (prm_world s) name (get_db t s) in s' = set_db t db s ∧ r = if ok then LoadSuccess else LoadError).
Proof.
  intros Hq Hn Hbox. unfold read_param_file_impl. eapply wp_assert; [by rewrite bool_decide_eq_false_2|]. wp_steps.
  assert (open_param_file cwd name (default [] (as_str (sandbox_dir s))) t (prm_world s) = file_open name OpenRead (File_new, prm_world s)) as ->.
  { unfold open_param_file. destruct Hbox as [->| ->]; [done|]. by rewrite (bool_decide_eq_true_2 ([] = [])), andb_false_r by done. }
  unfold file_open, open_with_overwrite. rewrite (bool_decide_eq_false_2 (OpenRead = OpenNoMode)) by done. cbn [negb fw_assert]. rewrite outcome_bind_ret.
  unfold is_open. cbn [fst snd mode File_new]. rewrite (bool_decide_eq_true_2 (OpenNoMode = OpenNoMode)) by done. cbn [negb].
  unfold std_open. rewrite next_event_quiet by done. unfold load_file, file_at. cbn [options_of opt_create_new opt_create opt_truncate opt_read opt_append orb].
  assert (∀ db, prm_set_world (prm_world s) (set_db t db s) = set_db t db s) as Hset by (intros db; by destruct t, s).
  destruct (names (prm_world s) !! name) as [i|]; cbn [fmap option_fmap option_map].
  - eapply wp_lift; [done|]. cbv beta iota. apply wp_bind. eapply wp_mono; [apply (work_exact (prm_world s) i)|].
    + split_and!; [done|cbn; lia|done|]. by eexists.
    + done.
    + apply length_replicate.
    + intros [r f] s' o (Ho & Hw & Hr). cbn [fst snd] in *. destruct (load_spec _ _) as [db ok]. destruct Hr as [-> ->]. wp_steps. rewrite app_nil_r, Hw, Hset. by split_and!.
  - eapply wp_lift; [done|]. cbv beta iota. unfold read_param_file_work, log_read_error, prm_log. cbn [map_io_error].
    rewrite (bool_decide_eq_false_2 (FsDoesntExist = FsOpOk)) by done. cbn [negb]. wp_steps. rewrite set_get_db. split_and!; [done| |done]. by destruct s.
Qed.


(** C22. Saved parameters are restored at boot, when the file saved over is not
    longer than the new one.  On a system without faults,
    with a parameter file that is absent or no longer than what is written
    (the save does not truncate: a longer one keeps its tail, and the CRC of
    the next boot fails),
    [PRM_SAVE_FILE] answers OK and the file then is the image of the store: a
    CRC, and a record per parameter in insertion order; no other file changes;
    and a component that boots with that file has the same ids with the same
    value bytes in the same order. *)
Theorem prm_roundtrip op seq s :
  prm_load_state s = PrmIdle → named (prm_file_name s) → store_ok (prm_active s) → savable (prm_active s) →
  script (prm_world s) = [] → world_ok (prm_world s) →
  let path := default [] (as_str (prm_file_name s)) in
  let image := file_image (values (prm_active s)) in
  length (default [] (file_at (prm_world s) path)) ≤ length image →
  ∃ w o, prm_save_file_cmd_handler true op seq s = Ret (tt, prm_set_world w s, o) ∧
    prm_responses o = [(op, seq, CmdOk)] ∧ only_changed path image (prm_world s) w ∧
    ∀ s0, prm_load_state s0 = PrmIdle → prm_file_name s0 = prm_file_name s → prm_world s0 = w →
      ∃ s1 o1, read_param_file cwd s0 = Ret (tt, s1, o1) ∧ values (prm_active s1) = values (prm_active s) ∧ prm_world s1 = w.
Proof.
  intros Hi Hn [Hnd Hlen] Hsv Hq Hw path image Hold. destruct (save_file_exact path (prm_active s) (prm_world s) Hq Hw Hsv Hlen) as (w & E & Hch).
  rewrite write_at_over, drop_ge, app_nil_r in Hch by done. fold image in Hch.
  assert (wp (prm_save_file_cmd_handler true op seq) s (λ _ s' o, s' = prm_set_world w s ∧ prm_responses o = [(op, seq, CmdOk)])) as Hsave.
  { unfold prm_save_file_cmd_handler, prm_log. wp_steps. rewrite Hi, (bool_decide_eq_true_2 (PrmIdle = PrmIdle)) by done. cbn [negb]. eapply wp_assert; [by rewrite bool_decide_eq_false_2|].
    eapply wp_lift; [exact E|]. cbv beta iota. wp_steps. by apply response_wp. }
  apply wp_returns in Hsave as ([] & s' & o & Es & -> & Ho). exists w, o. split_and!; [done..|]. intros s0 Hi0 Hn0 Hw0.
  assert (wp (read_param_file cwd) s0 (λ _ s1 o1, prm_active s1 = loaded (values (prm_active s)) ∧ prm_world s1 = w)) as Hboot.
  { unfold read_param_file. wp_steps. eapply wp_assert; [by rewrite bool_decide_eq_true_2|]. wp_steps. apply wp_bind. rewrite Hn0.
    eapply wp_mono; [apply (impl_exact _ DbActive); [cbn; rewrite Hw0; apply Hch|done|by left]|]. cbn [prm_world prm_set_active prm_set_staging get_db prm_active]. rewrite Hw0.
    unfold load_file. fold path. destruct Hch as (_ & _ & -> & _). destruct (savable_records _ Hsv) as [Hr Hb]. unfold image. rewrite load_image; [|done|done| |].
    - intros r s1 o1 (_ & -> & _). by wp_steps.
    - unfold values. rewrite <- list_fmap_compose. exact Hnd.
    - unfold values. by rewrite length_fmap. }
  apply wp_returns in Hboot as ([] & s1 & o1 & E1 & Ha & Hw1). exists s1, o1. split_and!; [done| |done]. rewrite Ha. by apply values_loaded, savable_records.
Qed.
End commands.

(** * Examples *)

(** A configured component with parameters, over a quiet system. *)
Definition sample (w : World) (db : PrmDbStore) : PrmDb := prm_set_active db (prm_configure (str "/p") (PrmDb_new w)).

Lemma sample_savable : savable [(7, value [1; 2]); (9, value [])]%Z.
Proof. repeat (constructor; [split_and!; [done|fp_decide|fp_decide]|]). constructor. Qed.


Lemma prm_roundtrip_witness :
  let s := sample (one_file (str "/other") [1]%Z []) [(7, value [1; 2]); (9, value [])]%Z in
  ∃ w o, prm_save_file_cmd_handler true 0x100 1 s = Ret (tt, prm_set_world w s, o) ∧ prm_responses o = [(0x100, 1, CmdOk)]%Z ∧
    ∃ s1 o1, read_param_file None (prm_configure (str "/p") (PrmDb_new w)) = Ret (tt, s1, o1) ∧ values (prm_active s1) = [(7, [1; 2]); (9, [])]%Z.
Proof.
  intros s. destruct (prm_roundtrip None 0x100 1 s) as (w & o & E & Ho & _ & Hboot).
  - done.
  - fp_decide.
  - split; fp_decide.
  - apply sample_savable.
  - done.
  - apply one_file_ok.
  - vm_compute. lia.
  - exists w, o. split; [exact E|]. split; [exact Ho|]. destruct (Hboot (prm_configure (str "/p") (PrmDb_new w)) eq_refl eq_refl eq_refl) as (s1 & o1 & E1 & Hv & _).
    exists s1, o1. split; [exact E1|]. rewrite Hv. vm_compute. done.
Defined.

(** [PRM_LOAD_FILE] with an empty name trips the assertion of
    [read_param_file_impl]: no response is sent. *)
Example load_empty_name_panics :
  cmd_in_handler None true 0x100 0x101 1 (args_of [0; 0; 0]%Z) (prm_configure (str "/p") (PrmDb_new (one_file (str "/p") [] []))) = Panic.
Proof. vm_compute. reflexivity. Qed.

(** A shorter image over a longer file keeps the old tail, and the next boot
    finds a bad CRC and no parameter. *)
Example save_over_longer_file :
  let s := sample (one_file (str "/p") (file_image [(7, [1; 2; 3])])%Z []) [(7, value [1])]%Z in
  ∃ s' s'' o o', prm_save_file_cmd_handler true 0x100 1 s = Ret (tt, s', o) ∧ prm_responses o = [(0x100, 1, CmdOk)]%Z ∧
    read_param_file None (prm_configure (str "/p") (PrmDb_new (prm_world s'))) = Ret (tt, s'', o') ∧ prm_active s'' = [].
Proof. intros s. eexists _, _, _, _. split; [vm_compute; reflexivity|]. split; [vm_compute; reflexivity|]. split; vm_compute; reflexivity. Qed.
