(* ===== verification/Msg.v ===== *)
(** The messages behind the asynchronous ports,
    [crates/fprime-comp/src/msg.rs]: the envelope every adapter writes and
    every [dispatch_message] reads, and the arguments the components share. *)

From S2P Require Import Prelude Serial SerialFacts Codec Comp.

(** * Envelope *)

Inductive MsgDispatchStatus : Set := MdOk | MdEmpty | MdError | MdExit.

Definition write_envelope_header (msg_type port_num : Z) : SerM unit :=
  _ ← serialize_i32 msg_type Big; serialize_i16 port_num Big.
Definition read_msg_type : SerM Z := deserialize_i32 Big.
Definition read_port_num : SerM Z := deserialize_i16 Big.

(** An adapter's message: every status is asserted. *)
Definition written (N : nat) (m : SerM unit) : outcome serbuf :=
  match m (linear_buffer_new N) with (SOk _, b) => Ret b | _ => Panic end.

(** [dispatch_message]: the arguments are read off the message, then the
    handler runs. *)
Definition with_msg {S O A} (m : SerM A) (buf : serbuf) (handler : A → CompM S O unit) : CompM S O MsgDispatchStatus :=
  match m buf with
  | (SPanic, _) => lift Panic
  | (SErr _, _) => mret MdError
  | (SOk a, _) => _ ← handler a; mret MdOk
  end.

(** A new buffer filled with [bs]. *)
Definition filled (N : nat) (bs : list Z) : serbuf := SerBuf (splice 0 bs (replicate N 0%Z)) (length bs) 0.

(** The bytes of a message. *)
Definition envelope (msg_type port_num : Z) (args : list Z) : list Z := be_bytes 4 msg_type ++ be_bytes 2 port_num ++ args.

(** * Facts *)

Lemma write_u32 v : writes (serialize_u32 v Big) (be_bytes 4 v).
Proof. apply (serialize_uint_ok 4 v Big). Qed.
Lemma read_u32 v : is_u 32 v → reads (deserialize_u32 Big) (be_bytes 4 v) v.
Proof. apply (deserialize_uint_ok 4 ltac:(done) v Big). Qed.
Lemma be_bytes_bytes n v : Forall is_byte (be_bytes n v).
Proof. apply (int_bytes_is_byte n Big). Qed.
Lemma length_small b N : wf b → ser_loc b ≤ N → length (as_slice b) ≤ N.
Proof. intros. by rewrite length_as_slice. Qed.
Lemma buffer_enc_bytes e bs : Forall is_byte bs → Forall is_byte (buffer_enc e bs).
Proof. intros. apply Forall_app. auto with bytes. Qed.

(** A buffer as an argument. *)
Lemma buffer_arg_writes b N :
  wf b → ser_loc b ≤ N → N ≤ 512 →
  writes (serialize_buffer b Big) (buffer_enc Big (as_slice b)) ∧ Forall is_byte (buffer_enc Big (as_slice b)) ∧
  length (buffer_enc Big (as_slice b)) ≤ 2 + N.
Proof.
  intros Hb Hl HN. rewrite length_buffer_enc, length_as_slice by done. split_and!; [|..|lia].
  - apply serialize_buffer_writes; [done|lia].
  - apply buffer_enc_bytes. apply Forall_take, Hb.
Qed.
Lemma buffer_arg_reads N bs :
  length bs ≤ N → N ≤ 512 → reads (deserialize_buffer (linear_buffer_new N) Big) (buffer_enc Big bs) (filled N bs).
Proof. intros Hl HN. apply deserialize_buffer_reads; [|lia]. unfold capacity. cbn. by rewrite length_replicate. Qed.

Lemma envelope_writes t p k x : writes k x → writes (_ ← write_envelope_header t p; k) (envelope t p x).
Proof.
  intros Hk. unfold envelope. rewrite app_assoc. apply writes_bind; [| |done].
  - apply writes_bind; [apply (c_ser_ok i32_codec t Big)|apply be_bytes_bytes|apply (c_ser_ok i16_codec p Big)].
  - apply Forall_app; split; apply be_bytes_bytes.
Qed.
Lemma envelope_bytes t p x : Forall is_byte x → Forall is_byte (envelope t p x).
Proof. intros. repeat (apply Forall_app; split); by try apply be_bytes_bytes. Qed.
Lemma length_envelope t p x : length (envelope t p x) = 6 + length x.
Proof. unfold envelope. rewrite !length_app, !length_be_bytes. lia. Qed.

Lemma written_ok N m bs : writes m bs → Forall is_byte bs → length bs ≤ N → ∃ msg, written N m = Ret msg ∧ as_slice msg = bs.
Proof.
  intros Hm Hb Hl. unfold written. rewrite (Hm (linear_buffer_new N)); [|apply wf_new|unfold capacity; cbn; rewrite length_replicate; lia].
  eexists. split; [done|]. by rewrite as_slice_appended by apply wf_new.
Qed.

(** A received envelope: the type, then the port, then the arguments. *)
Lemma envelope_type t p x view :
  is_i 32 t → wf view → remaining_slice view = envelope t p x →
  read_msg_type view = (SOk t, advanced 4 view) ∧ wf (advanced 4 view) ∧ remaining_slice (advanced 4 view) = be_bytes 2 p ++ x.
Proof.
  intros Ht Hv Hr. split_and!; [by apply (c_deser_ok i32_codec t Big Ht view _ Hv Hr)|exact (wf_advanced _ _ _ Hv Hr)|exact (remaining_advanced _ _ _ Hv Hr)].
Qed.
Lemma envelope_port p x b :
  is_i 16 p → wf b → remaining_slice b = be_bytes 2 p ++ x →
  ∃ b', read_port_num b = (SOk p, b') ∧ wf b' ∧ remaining_slice b' = x.
Proof.
  intros Hp Hb Hr. exists (advanced 2 b). split_and!; [by apply (c_deser_ok i16_codec p Big Hp b _ Hb Hr)|exact (wf_advanced _ _ _ Hb Hr)|exact (remaining_advanced _ _ _ Hb Hr)].
Qed.
Lemma with_msg_reads {S O A} (m : SerM A) bs a b (handler : A → CompM S O unit) s :
  reads m bs a → wf b → remaining_slice b = bs → with_msg m b handler s = (handler a ≫= λ _, mret MdOk) s.
Proof. intros Hm Hb Hr. unfold with_msg. rewrite (Hm b [] Hb); [done|]. by rewrite app_nil_r. Qed.
