(* ===== verification/CmdDispatcher.v ===== *)
(** The command dispatcher [Svc::CommandDispatcher],
    [crates/fprime-svc/src/cmd_dispatcher.rs].

    [CdPorts] is the wiring, fixed before traffic starts; an index outside a
    port array panics.  Events are outputs with their arguments. *)

From stdpp Require Import gmap.
From S2P Require Import Prelude Serial SerialFacts Codec Fpp FwString Packets Comp Msg.

(** * Data *)

Definition CMD_DISPATCHER_COMMAND_PORTS : nat := 30.
Definition CMD_DISPATCHER_SEQUENCE_PORTS : nat := 5.
Definition DISPATCH_TABLE_SIZE : nat := 150.
Definition SEQUENCER_TABLE_SIZE : nat := 25.
Definition COMMAND_DROPPED_THROTTLE : Z := 5.
Definition QUEUE_MSG_SIZE : nat := 524.
Definition MSG_TYPE_COMP_CMD_STAT : Z := 1.
Definition MSG_TYPE_SEQ_CMD_BUFF : Z := 2.
Definition MSG_TYPE_PING_IN : Z := 3.
Definition MSG_TYPE_RUN : Z := 4.
Definition MSG_TYPE_CMD : Z := 5.
Definition OPCODE_CMD_NO_OP : Z := 0.
Definition OPCODE_CMD_NO_OP_STRING : Z := 1.
Definition OPCODE_CMD_TEST_CMD_1 : Z := 2.
Definition OPCODE_CMD_CLEAR_TRACKING : Z := 3.
Definition CHANID_COMMANDS_DISPATCHED : Z := 0.
Definition CHANID_COMMAND_ERRORS : Z := 1.
Definition CHANID_COMMANDS_DROPPED : Z := 2.
Definition INCLUDE_COMMAND_OPCODES_IN_EVENTS : bool := true.

Definition get_event_opcode (op : Z) : Z :=
  if INCLUDE_COMMAND_OPCODES_IN_EVENTS then op else (2 ^ 32 - 1)%Z.

Record SequenceTrackerEntry : Set := MkTracked {
  op_code : Z;
  cmd_context : Z;
  caller_port : Z;
}.

Definition SequenceTracker : Set := list (option (Z * SequenceTrackerEntry)).

Definition SequenceTracker_new : SequenceTracker := replicate SEQUENCER_TABLE_SIZE None.

(** [insert]: an existing key is overwritten, otherwise the first free slot
    is taken; [None] when there is neither. *)
Fixpoint tracker_overwrite (k : Z) (e : SequenceTrackerEntry) (t : SequenceTracker)
    : option SequenceTracker :=
  match t with
  | [] => None
  | Some (k', e') :: t' =>
      if (k' =? k)%Z then Some (Some (k', e) :: t') else cons (Some (k', e')) <$> tracker_overwrite k e t'
  | None :: t' => cons None <$> tracker_overwrite k e t'
  end.
Fixpoint tracker_take_free (k : Z) (e : SequenceTrackerEntry) (t : SequenceTracker)
    : option SequenceTracker :=
  match t with
  | [] => None
  | None :: t' => Some (Some (k, e) :: t')
  | Some x :: t' => cons (Some x) <$> tracker_take_free k e t'
  end.
Definition tracker_insert (k : Z) (e : SequenceTrackerEntry) (t : SequenceTracker)
    : option SequenceTracker :=
  match tracker_overwrite k e t with Some t' => Some t' | None => tracker_take_free k e t end.

Fixpoint tracker_remove (k : Z) (t : SequenceTracker) : option (SequenceTrackerEntry * SequenceTracker) :=
  match t with
  | [] => None
  | Some (k', e) :: t' =>
      if (k' =? k)%Z then Some (e, None :: t')
      else '(r, t'') ← tracker_remove k t'; Some (r, Some (k', e) :: t'')
  | None :: t' => '(r, t'') ← tracker_remove k t'; Some (r, None :: t'')
  end.

Record CmdDispatcher : Set := MkCd {
  entry_table : gmap Z Z;
  sequence_tracker : SequenceTracker;
  seq : Z;
  num_cmds_dispatched : Z;
  num_cmd_errors : Z;
  num_cmds_dropped : Z;
  last_dispatched : option Z;
  last_errors : option Z;
  last_dropped : option Z;
  dropped_throttle : EventThrottle;
}.

Definition CmdDispatcher_new : CmdDispatcher :=
  MkCd ∅ SequenceTracker_new 0 0 0 0 None None None (EventThrottle_new COMMAND_DROPPED_THROTTLE).

Record CdPorts : Set := MkPorts {
  comp_cmd_send : list bool;
  seq_cmd_status : list bool;
  ping_out : bool;
  cmd_response_out : bool;
  id_base : Z;
}.

Inductive CdOut : Set :=
| CdOpCodeRegistered (op port slot : Z)
| CdOpCodeReregistered (op port : Z)
| CdOpCodeDispatched (op port : Z)
| CdOpCodeCompleted (op : Z)
| CdOpCodeError (op : Z) (response : CmdResponse)
| CdMalformedCommand (status : DeserialStatus)
| CdInvalidCommand (op : Z)
| CdTooManyCommands (op : Z)
| CdNoOpReceived
| CdNoOpStringReceived (text : FwString)
| CdTestCmd1Args (i32 f32 u8 : Z)
| CdCommandDroppedQueueOverflow (op context : Z)
| CdCompCmdSend (port op cmd_seq : Z) (args : serbuf)
| CdSeqCmdStatus (port op context : Z) (response : CmdResponse)
| CdCmdResponse (op cmd_seq : Z) (response : CmdResponse)
| CdPingOut (key : Z)
| CdTlmWrite (chan value : Z).


(** * Operations *)

(** [array[port as usize].is_connected()]. *)
Definition port_connected (ports : list bool) (port : Z) : outcome bool :=
  if (port <? 0)%Z then Panic else index_get ports (Z.to_nat port).

(** [DeserialStatus::try_from(stat as u8).unwrap_or(FormatError)]. *)
Definition status_ordinal (s : SerializeStatus) : Z :=
  match s with
  | StOk => 0 | FormatError => 1 | NoRoomLeft => 2 | DeserBufferEmpty => 3 | DeserFormatError => 4
  | DeserSizeMismatch => 5 | DeserTypeMismatch => 6 | DeserImmutable => 7 | DeserInvalidData => 8
  | DiscardedExisting => 9
  end.
Definition deserial_status (s : SerializeStatus) : DeserialStatus :=
  default DsFormatError (try_from (status_ordinal s)).

(** Field updates. *)
Definition set_table (t : gmap Z Z) (s : CmdDispatcher) : CmdDispatcher :=
  MkCd t (sequence_tracker s) (seq s) (num_cmds_dispatched s) (num_cmd_errors s) (num_cmds_dropped s)
    (last_dispatched s) (last_errors s) (last_dropped s) (dropped_throttle s).
Definition set_tracker (t : SequenceTracker) (s : CmdDispatcher) : CmdDispatcher :=
  MkCd (entry_table s) t (seq s) (num_cmds_dispatched s) (num_cmd_errors s) (num_cmds_dropped s)
    (last_dispatched s) (last_errors s) (last_dropped s) (dropped_throttle s).
Definition set_seq (n : Z) (s : CmdDispatcher) : CmdDispatcher :=
  MkCd (entry_table s) (sequence_tracker s) n (num_cmds_dispatched s) (num_cmd_errors s) (num_cmds_dropped s)
    (last_dispatched s) (last_errors s) (last_dropped s) (dropped_throttle s).
Definition set_counters (d e dr : Z) (s : CmdDispatcher) : CmdDispatcher :=
  MkCd (entry_table s) (sequence_tracker s) (seq s) d e dr
    (last_dispatched s) (last_errors s) (last_dropped s) (dropped_throttle s).
Definition set_last (d e dr : option Z) (s : CmdDispatcher) : CmdDispatcher :=
  MkCd (entry_table s) (sequence_tracker s) (seq s) (num_cmds_dispatched s) (num_cmd_errors s)
    (num_cmds_dropped s) d e dr (dropped_throttle s).
Definition set_throttle (t : EventThrottle) (s : CmdDispatcher) : CmdDispatcher :=
  MkCd (entry_table s) (sequence_tracker s) (seq s) (num_cmds_dispatched s) (num_cmd_errors s)
    (num_cmds_dropped s) (last_dispatched s) (last_errors s) (last_dropped s) t.

Section handlers.
Context `{BuildProfile} (w : CdPorts).
Abbreviation M := (CompM CmdDispatcher CdOut).

Definition inc_dispatched : M unit :=
  s ← get_state; n ← lift (add_w 32 (num_cmds_dispatched s) 1);
  put_state (set_counters n (num_cmd_errors s) (num_cmds_dropped s) s).
Definition inc_errors : M unit :=
  s ← get_state; n ← lift (add_w 32 (num_cmd_errors s) 1);
  put_state (set_counters (num_cmds_dispatched s) n (num_cmds_dropped s) s).
Definition inc_dropped : M unit :=
  s ← get_state; n ← lift (add_w 32 (num_cmds_dropped s) 1);
  put_state (set_counters (num_cmds_dispatched s) (num_cmd_errors s) n s).

(** [comp_cmd_reg_handler] behind the port check of [CmdRegPort::invoke]. *)
Definition comp_cmd_reg (port op : Z) : M unit :=
  _ ← assert ((0 <=? port)%Z && (port <? Z.of_nat CMD_DISPATCHER_COMMAND_PORTS)%Z);
  s ← get_state;
  match entry_table s !! op with
  | Some existing_port =>
      _ ← assert (existing_port =? port)%Z;
      emit (CdOpCodeReregistered (get_event_opcode op) port)
  | None =>
      let slot := size (entry_table s) in
      _ ← assert (bool_decide (slot < DISPATCH_TABLE_SIZE));
      _ ← put_state (set_table (<[op := port]> (entry_table s)) s);
      emit (CdOpCodeRegistered (get_event_opcode op) port (Z.of_nat slot))
  end.

Definition seq_status_reply (caller op ctx : Z) (response : CmdResponse) : M unit :=
  connected ← lift (port_connected (seq_cmd_status w) caller);
  when connected (emit (CdSeqCmdStatus caller op ctx response)).

(** [entry_port.filter(|p| comp_cmd_send[p].is_connected())]. *)
Definition connected_target (op : Z) : M (option Z) :=
  s ← get_state;
  match entry_table s !! op with
  | None => mret None
  | Some p =>
      connected ← lift (port_connected (comp_cmd_send w) p);
      mret (if (connected : bool) then Some p else None)
  end.

(** The command is tracked when the caller's status port is connected;
    [false] when the tracker is full. *)
Definition track_command (port op ctx : Z) : M bool :=
  connected ← lift (port_connected (seq_cmd_status w) port);
  if (connected : bool) then
    s ← get_state;
    match tracker_insert (seq s) (MkTracked op ctx port) (sequence_tracker s) with
    | Some t => _ ← put_state (set_tracker t s); mret true
    | None => mret false
    end
  else mret true.

Definition bump_seq : M unit := s ← get_state; put_state (set_seq (wrap 32 (seq s + 1)) s).

(** [seq_cmd_buff_handler]. *)
Definition seq_cmd_buff_handler (port : Z) (data : serbuf) (ctx : Z) : M unit :=
  match CmdPacket_deserialize_from Big CmdPacket_new data with
  | (SPanic, _, _) => lift Panic
  | (SErr stat, pkt, _) =>
      _ ← emit (CdMalformedCommand (deserial_status stat));
      seq_status_reply port (opcode pkt) ctx ValidationError
  | (SOk _, pkt, _) =>
      let op := opcode pkt in
      target ← connected_target op;
      match target with
      | Some entry_port =>
          s ← get_state;
          inserted ← track_command port op ctx;
          if (inserted : bool) then
            _ ← emit (CdCompCmdSend entry_port op (seq s) (arg_buffer pkt));
            _ ← emit (CdOpCodeDispatched (get_event_opcode op) entry_port);
            _ ← inc_dispatched;
            bump_seq
          else
            _ ← emit (CdTooManyCommands (get_event_opcode op));
            seq_status_reply port op ctx ExecutionError
      | None =>
          _ ← emit (CdInvalidCommand (get_event_opcode op));
          _ ← inc_errors;
          _ ← seq_status_reply port op ctx InvalidOpcode;
          bump_seq
      end
  end.

(** [comp_cmd_stat_handler]. *)
Definition comp_cmd_stat_handler (op cmd_seq : Z) (response : CmdResponse) : M unit :=
  _ ← (if decide (response = CmdOk) then emit (CdOpCodeCompleted (get_event_opcode op))
       else _ ← inc_errors; emit (CdOpCodeError (get_event_opcode op) response));
  s ← get_state;
  match tracker_remove cmd_seq (sequence_tracker s) with
  | Some (tracked, t) =>
      _ ← put_state (set_tracker t s);
      _ ← assert (op =? op_code tracked)%Z;
      _ ← assert ((0 <=? caller_port tracked)%Z && (caller_port tracked <? Z.of_nat CMD_DISPATCHER_SEQUENCE_PORTS)%Z);
      seq_status_reply (caller_port tracked) op (cmd_context tracked) response
  | None => mret tt
  end.

(** [run_handler]: the channels whose value changed, in the order dropped,
    errors, dispatched. *)
Definition on_change (last : option Z) (chan value : Z) : list CdOut :=
  if decide (last = Some value) then [] else [CdTlmWrite chan value].
Definition run_handler : M unit := λ s,
  Ret (tt, set_last (Some (num_cmds_dispatched s)) (Some (num_cmd_errors s)) (Some (num_cmds_dropped s)) s,
       on_change (last_dropped s) CHANID_COMMANDS_DROPPED (num_cmds_dropped s) ++
       on_change (last_errors s) CHANID_COMMAND_ERRORS (num_cmd_errors s) ++
       on_change (last_dispatched s) CHANID_COMMANDS_DISPATCHED (num_cmds_dispatched s)).

Definition ping_in_handler (key : Z) : M unit := _ ← assert (ping_out w); emit (CdPingOut key).

(** [seq_cmd_buff_overflow_hook], on the sender's thread. *)
Definition throttle_ok : M bool := λ s,
  let '(ok, t) := ok_to_emit (dropped_throttle s) in Ret (ok, set_throttle t s, []).
Definition seq_cmd_buff_overflow_hook (data : serbuf) (ctx : Z) : M unit :=
  opc ← (if INCLUDE_COMMAND_OPCODES_IN_EVENTS then
           match CmdPacket_deserialize_from Big CmdPacket_new data with
           | (SOk _, pkt, _) => mret (opcode pkt)
           | (SErr _, _, _) => mret 0%Z
           | (SPanic, _, _) => lift Panic
           end
         else mret 0%Z);
  ok ← throttle_ok;
  _ ← when ok (emit (CdCommandDroppedQueueOverflow (get_event_opcode opc) ctx));
  inc_dropped.

(** The component's own commands.  [None]: the arguments do not decode or
    leave bytes over. *)
Definition cmd_response (op cmd_seq : Z) (response : CmdResponse) : M unit :=
  _ ← assert (cmd_response_out w); emit (CdCmdResponse op cmd_seq response).

Definition parse_args {A} (m : SerM A) (args : serbuf) : M (option A) :=
  match m args with
  | (SPanic, _) => lift Panic
  | (SErr _, _) => mret None
  | (SOk a, args') =>
      match deserialize_size_left args' with
      | (SOk n, _) => mret (if bool_decide (n = 0) then Some a else None)
      | _ => lift Panic
      end
  end.

(** The skeleton the four handlers share: a format error, or the action and
    [Ok]. *)
Definition with_args {A} (m : SerM A) (act : A → M unit) (op cmd_seq : Z) (args : serbuf) : M unit :=
  r ← parse_args m args;
  match r with
  | None => cmd_response op cmd_seq CmdFormatError
  | Some a => _ ← act a; cmd_response op cmd_seq CmdOk
  end.

Definition cmd_no_op_handler : Z → Z → serbuf → M unit :=
  with_args (mret tt) (λ _, emit CdNoOpReceived).
Definition cmd_no_op_string_handler : Z → Z → serbuf → M unit :=
  with_args (string_deserialize_from Big (FwString_new FW_CMD_STRING_MAX_SIZE))
    (λ arg1, emit (CdNoOpStringReceived arg1)).
Definition cmd_test_cmd_1_handler : Z → Z → serbuf → M unit :=
  with_args (a ← deserialize_i32 Big; b ← deserialize_f32 Big; c ← deserialize_u8 Big; mret (a, b, c))
    (λ '(a, b, c), emit (CdTestCmd1Args a b c)).
Definition cmd_clear_tracking_handler : Z → Z → serbuf → M unit :=
  with_args (mret tt) (λ _, modify_state (set_tracker SequenceTracker_new)).

(** The [match] on the component-relative opcode. *)
Definition own_command (op cmd_seq : Z) (args : serbuf) : M unit :=
  let local := wrap 32 (op - id_base w) in
  if (local =? OPCODE_CMD_NO_OP)%Z then cmd_no_op_handler op cmd_seq args
  else if (local =? OPCODE_CMD_NO_OP_STRING)%Z then cmd_no_op_string_handler op cmd_seq args
  else if (local =? OPCODE_CMD_TEST_CMD_1)%Z then cmd_test_cmd_1_handler op cmd_seq args
  else if (local =? OPCODE_CMD_CLEAR_TRACKING)%Z then cmd_clear_tracking_handler op cmd_seq args
  else cmd_response op cmd_seq InvalidOpcode.

(** [dispatch_message]: the arguments are read off the message, then the
    handler runs. *)
Definition dispatch_message (msg_type : Z) (buf : serbuf) : M MsgDispatchStatus :=
  match read_port_num buf with
  | (SPanic, _) => lift Panic
  | (SErr _, _) => mret MdError
  | (SOk port_num, buf) =>
      if (msg_type =? MSG_TYPE_COMP_CMD_STAT)%Z then
        with_msg (op ← deserialize_u32 Big; sq ← deserialize_u32 Big;
                  r ← enum_deserialize_from Big; mret (op, sq, r)) buf
          (λ '(op, sq, r), comp_cmd_stat_handler op sq r)
      else if (msg_type =? MSG_TYPE_SEQ_CMD_BUFF)%Z then
        _ ← assert ((0 <=? port_num)%Z && (port_num <? Z.of_nat CMD_DISPATCHER_SEQUENCE_PORTS)%Z);
        with_msg (data ← deserialize_buffer (linear_buffer_new FW_COM_BUFFER_MAX_SIZE) Big;
                  ctx ← deserialize_u32 Big; mret (data, ctx)) buf
          (λ '(data, ctx), seq_cmd_buff_handler port_num data ctx)
      else if (msg_type =? MSG_TYPE_PING_IN)%Z then
        with_msg (deserialize_u32 Big) buf ping_in_handler
      else if (msg_type =? MSG_TYPE_RUN)%Z then
        with_msg (deserialize_u32 Big) buf (λ _, run_handler)
      else if (msg_type =? MSG_TYPE_CMD)%Z then
        with_msg (op ← deserialize_u32 Big; sq ← deserialize_u32 Big;
                  args ← deserialize_buffer (linear_buffer_new FW_CMD_ARG_BUFFER_MAX_SIZE) Big;
                  mret (op, sq, args)) buf
          (λ '(op, sq, args), own_command op sq args)
      else mret MdError
  end.
End handlers.

(** * The asynchronous ports *)

(** The messages of the input adapters. *)
Inductive async_call : Set :=
| CallCompCmdStat (port op cmd_seq : Z) (response : CmdResponse)
| CallSeqCmdBuff (port : Z) (data : serbuf) (ctx : Z)
| CallPing (port key : Z)
| CallRun (port ctx : Z)
| CallCmd (port op cmd_seq : Z) (args : serbuf).

Definition write_call (c : async_call) : SerM unit :=
  match c with
  | CallCompCmdStat port op sq r =>
      _ ← write_envelope_header MSG_TYPE_COMP_CMD_STAT port;
      _ ← serialize_u32 op Big; _ ← serialize_u32 sq Big; enum_serialize_to r Big
  | CallSeqCmdBuff port data ctx =>
      _ ← write_envelope_header MSG_TYPE_SEQ_CMD_BUFF port;
      _ ← serialize_buffer data Big; serialize_u32 ctx Big
  | CallPing port key => _ ← write_envelope_header MSG_TYPE_PING_IN port; serialize_u32 key Big
  | CallRun port ctx => _ ← write_envelope_header MSG_TYPE_RUN port; serialize_u32 ctx Big
  | CallCmd port op sq args =>
      _ ← write_envelope_header MSG_TYPE_CMD port;
      _ ← serialize_u32 op Big; _ ← serialize_u32 sq Big; serialize_buffer args Big
  end.

Definition call_message (c : async_call) : outcome serbuf := written QUEUE_MSG_SIZE (write_call c).

(** * The ports deliver their arguments *)

Definition call_type (c : async_call) : Z :=
  match c with
  | CallCompCmdStat _ _ _ _ => MSG_TYPE_COMP_CMD_STAT
  | CallSeqCmdBuff _ _ _ => MSG_TYPE_SEQ_CMD_BUFF
  | CallPing _ _ => MSG_TYPE_PING_IN
  | CallRun _ _ => MSG_TYPE_RUN
  | CallCmd _ _ _ _ => MSG_TYPE_CMD
  end.
Definition call_port (c : async_call) : Z :=
  match c with
  | CallCompCmdStat p _ _ _ | CallSeqCmdBuff p _ _ | CallPing p _ | CallRun p _ | CallCmd p _ _ _ => p
  end.

(** The arguments after the envelope header. *)
Definition call_args_enc (c : async_call) : list Z :=
  match c with
  | CallCompCmdStat _ op sq r => be_bytes 4 op ++ be_bytes 4 sq ++ c_enc enum_codec Big r
  | CallSeqCmdBuff _ data ctx => buffer_enc Big (as_slice data) ++ be_bytes 4 ctx
  | CallPing _ k => be_bytes 4 k
  | CallRun _ ctx => be_bytes 4 ctx
  | CallCmd _ op sq args => be_bytes 4 op ++ be_bytes 4 sq ++ buffer_enc Big (as_slice args)
  end.

(** Arguments in the range of their types; a command buffer comes in on one
    of the sequencer ports, as the port factory asserts. *)
Definition call_ok (c : async_call) : Prop :=
  is_i 16 (call_port c) ∧
  match c with
  | CallCompCmdStat _ op sq _ => is_u 32 op ∧ is_u 32 sq
  | CallSeqCmdBuff p data ctx =>
      (0 ≤ p < Z.of_nat CMD_DISPATCHER_SEQUENCE_PORTS)%Z ∧ wf data ∧ ser_loc data ≤ FW_COM_BUFFER_MAX_SIZE ∧ is_u 32 ctx
  | CallPing _ k => is_u 32 k
  | CallRun _ ctx => is_u 32 ctx
  | CallCmd _ op sq args => is_u 32 op ∧ is_u 32 sq ∧ wf args ∧ ser_loc args ≤ FW_CMD_ARG_BUFFER_MAX_SIZE
  end.
#[export] Instance call_ok_dec c : Decision (call_ok c).
Proof. unfold call_ok. destruct c; apply _. Defined.

(** The handler an asynchronous call is meant to reach. *)
Definition handler_of `{BuildProfile} (w : CdPorts) (c : async_call) : CompM CmdDispatcher CdOut unit :=
  match c with
  | CallCompCmdStat _ op sq r => comp_cmd_stat_handler w op sq r
  | CallSeqCmdBuff p data ctx => seq_cmd_buff_handler w p (filled FW_COM_BUFFER_MAX_SIZE (as_slice data)) ctx
  | CallPing _ k => ping_in_handler w k
  | CallRun _ _ => run_handler
  | CallCmd _ op sq args => own_command w op sq (filled FW_CMD_ARG_BUFFER_MAX_SIZE (as_slice args))
  end.

Lemma write_call_ok c :
  call_ok c →
  writes (write_call c) (envelope (call_type c) (call_port c) (call_args_enc c)) ∧
  Forall is_byte (call_args_enc c) ∧ length (call_args_enc c) ≤ 518.
Proof.
  intros (_ & Hc). destruct c as [p op sq r|p data ctx|p k|p ctx|p op sq args]; cbn [write_call call_args_enc call_type call_port].
  - split_and!.
    + apply envelope_writes. apply writes_bind; [apply write_u32|apply be_bytes_bytes|].
      apply writes_bind; [apply write_u32|apply be_bytes_bytes|]. apply (c_ser_ok enum_codec).
    + repeat (apply Forall_app; split); try apply be_bytes_bytes.
    + rewrite !length_app, !length_be_bytes. destruct r; cbn; lia.
  - destruct Hc as (_ & Hd & Hl & _). destruct (buffer_arg_writes data 512 Hd Hl ltac:(lia)) as (? & ? & ?). split_and!.
    + apply envelope_writes. apply writes_bind; [done|done|apply write_u32].
    + apply Forall_app; split; [done|apply be_bytes_bytes].
    + rewrite length_app, length_be_bytes. lia.
  - split_and!; [apply envelope_writes, write_u32|apply be_bytes_bytes|rewrite length_be_bytes; lia].
  - split_and!; [apply envelope_writes, write_u32|apply be_bytes_bytes|rewrite length_be_bytes; lia].
  - destruct Hc as (_ & _ & Hd & Hl). destruct (buffer_arg_writes args 506 Hd Hl ltac:(lia)) as (? & ? & ?). split_and!.
    + apply envelope_writes. do 2 (apply writes_bind; [apply write_u32|apply be_bytes_bytes|]). done.
    + apply Forall_app; split; [apply be_bytes_bytes|]. apply Forall_app; split; [apply be_bytes_bytes|done].
    + rewrite !length_app, !length_be_bytes. lia.
Qed.

Lemma dispatch_call `{BuildProfile} w c b s :
  call_ok c → wf b → remaining_slice b = be_bytes 2 (call_port c) ++ call_args_enc c →
  dispatch_message w (call_type c) b s = (handler_of w c ≫= λ _, mret MdOk) s.
Proof.
  intros (Hp & Hc) Hb Hr. unfold dispatch_message. destruct (envelope_port _ _ b Hp Hb Hr) as (b1 & -> & Hb1 & Hr1).
  destruct c as [p op sq r|p data ctx|p k|p ctx|p op sq args];
    cbn [call_type call_port call_args_enc handler_of] in *; unfold MSG_TYPE_COMP_CMD_STAT, MSG_TYPE_SEQ_CMD_BUFF,
      MSG_TYPE_PING_IN, MSG_TYPE_RUN, MSG_TYPE_CMD; cbn [Z.eqb Pos.eqb].
  - destruct Hc as [Ho Hq]. etransitivity; [apply (with_msg_reads _ _ (op, sq, r)) with (2 := Hb1) (3 := Hr1)|done].
    apply (reads_bind _ _ _ _ op); [by apply read_u32|]. apply (reads_bind _ _ _ _ sq); [by apply read_u32|].
    apply (reads_bind_last _ _ _ r); [by apply (c_deser_ok enum_codec)|apply reads_ret].
  - destruct Hc as (Hpp & Hd & Hl & Hx).
    rewrite comp_assert_ok by (apply andb_true_intro; split; [apply Z.leb_le|apply Z.ltb_lt]; lia).
    etransitivity; [apply (with_msg_reads _ _ (filled 512 (as_slice data), ctx)) with (2 := Hb1) (3 := Hr1)|done].
    eapply reads_bind; [apply buffer_arg_reads; [by apply length_small|done]|].
    apply (reads_bind_last _ _ _ ctx); [by apply read_u32|apply reads_ret].
  - etransitivity; [apply (with_msg_reads _ _ k) with (2 := Hb1) (3 := Hr1)|done]. by apply read_u32.
  - by apply (with_msg_reads _ _ ctx _ (λ _, run_handler) _ (read_u32 ctx Hc) Hb1 Hr1).
  - destruct Hc as (Ho & Hq & Hd & Hl).
    etransitivity; [apply (with_msg_reads _ _ (op, sq, filled 506 (as_slice args))) with (2 := Hb1) (3 := Hr1)|done].
    apply (reads_bind _ _ _ _ op); [by apply read_u32|]. apply (reads_bind _ _ _ _ sq); [by apply read_u32|].
    eapply reads_bind_last; [apply buffer_arg_reads; [by apply length_small|cbn; lia]|apply reads_ret].
Qed.

(** The bytes of a call's message. *)
Definition call_bytes (c : async_call) : list Z := envelope (call_type c) (call_port c) (call_args_enc c).

Lemma call_bytes_ok c :
  call_ok c → Forall is_byte (call_bytes c) ∧ length (call_bytes c) ≤ QUEUE_MSG_SIZE ∧
  ∃ msg, call_message c = Ret msg ∧ as_slice msg = call_bytes c.
Proof.
  intros Hc. destruct (write_call_ok c Hc) as (Hw & Hb & Hl).
  assert (length (call_bytes c) ≤ QUEUE_MSG_SIZE) as Hlen by (unfold call_bytes; rewrite length_envelope; unfold QUEUE_MSG_SIZE; lia).
  split_and!; [by apply envelope_bytes|done|]. apply written_ok; [done|by apply envelope_bytes|done].
Qed.

(** A received message is read and dispatched to the handler of its call. *)
Lemma received_call `{BuildProfile} w c view s :
  call_ok c → wf view → remaining_slice view = call_bytes c →
  read_msg_type view = (SOk (call_type c), advanced 4 view) ∧ call_type c ≠ 0%Z ∧
  dispatch_message w (call_type c) (advanced 4 view) s = (handler_of w c ≫= λ _, mret MdOk) s.
Proof.
  intros Hc Hv Hr. assert (is_i 32 (call_type c)) as Ht by (by destruct c). destruct (envelope_type _ _ _ view Ht Hv Hr) as (E & Hw & Hr1).
  split_and!; [done|by destruct c|]. by apply dispatch_call.
Qed.

(** An asynchronous port call reaches its handler with its arguments:
    for arguments in the range of their types the adapter's message always
    fits its buffer, and whoever receives those bytes reads a message type
    that is not the exit sentinel and dispatches exactly the handler of that
    port, with the same arguments, in every state. *)
Theorem async_ports_faithful `{BuildProfile} (w : CdPorts) (c : async_call) (view : serbuf) (s : CmdDispatcher) :
  call_ok c → wf view → Ret (remaining_slice view) = (as_slice <$> call_message c) →
  read_msg_type view = (SOk (call_type c), advanced 4 view) ∧ call_type c ≠ 0%Z ∧
  dispatch_message w (call_type c) (advanced 4 view) s = (handler_of w c ≫= λ _, mret MdOk) s.
Proof.
  intros Hc Hv Hm. destruct (call_bytes_ok c Hc) as (_ & _ & msg & E & Hs). rewrite E in Hm.
  apply received_call; [done|done|]. rewrite <-Hs. by injection Hm.
Qed.

Lemma async_ports_faithful_witness :
  let w := MkPorts (replicate 30 true) (replicate 5 true) true true 0x500 in
  let c := CallSeqCmdBuff 1 (SerBuf [0; 0; 0; 0; 5; 0] 6 0)%Z 77 in
  let view := SerBuf [0; 0; 0; 2; 0; 1; 0; 6; 0; 0; 0; 0; 5; 0; 0; 0; 0; 77; 9; 9]%Z 18 0 in
  read_msg_type view = (SOk 2%Z, advanced 4 view) ∧ (2 ≠ 0)%Z ∧
  dispatch_message (H := true) w 2 (advanced 4 view) CmdDispatcher_new
    = (handler_of (H := true) w c ≫= λ _, mret MdOk) CmdDispatcher_new.
Proof.
  intros w c view. apply (async_ports_faithful (H := true) w c view CmdDispatcher_new); [fp_decide|fp_decide|reflexivity].
Defined.

(** * Every command is answered once *)

(** What is in flight. *)
Definition outstanding (t : SequenceTracker) : list (Z * Z) :=
  (λ x : Z * SequenceTrackerEntry, (caller_port x.2, cmd_context x.2)) <$> omap id t.

(** The replies among the outputs, and the commands sent to components. *)
Definition reply_of (o : CdOut) : option (Z * Z) :=
  match o with CdSeqCmdStatus port _ ctx _ => Some (port, ctx) | _ => None end.
Definition sent_of (o : CdOut) : option (Z * Z) :=
  match o with CdCompCmdSend _ op sq _ => Some (op, sq) | _ => None end.

Definition is_connected (w : CdPorts) (port : Z) : bool := default false (seq_cmd_status w !! Z.to_nat port).

(** Traffic: a command buffer comes in, the component that was sent the
    [k]-th command responds (any number of times), telemetry runs. *)
Inductive cd_op : Set :=
| DCmd (port : Z) (data : serbuf) (ctx : Z)
| DRespond (k : nat) (response : CmdResponse)
| DRun.

Definition cd_op_ok (o : cd_op) : Prop :=
  match o with
  | DCmd port data _ => (0 ≤ port < Z.of_nat CMD_DISPATCHER_SEQUENCE_PORTS)%Z ∧ wf data
  | _ => True
  end.
#[export] Instance cd_op_ok_dec o : Decision (cd_op_ok o).
Proof. unfold cd_op_ok. destruct o; apply _. Defined.

Definition cd_step `{BuildProfile} (w : CdPorts) (sent : list (Z * Z)) (o : cd_op) : CompM CmdDispatcher CdOut unit :=
  match o with
  | DCmd port data ctx => seq_cmd_buff_handler w port data ctx
  | DRespond k r =>
      match sent !! k with Some (op, sq) => comp_cmd_stat_handler w op sq r | None => mret tt end
  | DRun => run_handler
  end.


(** The commands that ask for a reply: their caller's status port is
    connected. *)
Definition asked (w : CdPorts) (o : cd_op) : option (Z * Z) :=
  match o with
  | DCmd port _ ctx => if is_connected w port then Some (port, ctx) else None
  | _ => None
  end.

(** The wiring: both port arrays have their declared size and the
    registrations name ports in range. *)
Definition wired (w : CdPorts) (table : gmap Z Z) : Prop :=
  length (comp_cmd_send w) = CMD_DISPATCHER_COMMAND_PORTS ∧
  length (seq_cmd_status w) = CMD_DISPATCHER_SEQUENCE_PORTS ∧
  map_Forall (λ _ p, 0 ≤ p < Z.of_nat CMD_DISPATCHER_COMMAND_PORTS)%Z table.

(** Between operations, with at most [n] of them so far: sequence numbers in
    use are below [seq] and identify the opcode they were sent with. *)
Record cd_inv (w : CdPorts) (s : CmdDispatcher) (sent : list (Z * Z)) (n : Z) : Prop := {
  cd_wired : wired w (entry_table s);
  cd_seq : (0 ≤ seq s ≤ n)%Z;
  cd_counts : (0 ≤ num_cmds_dispatched s ≤ n)%Z ∧ (0 ≤ num_cmd_errors s ≤ n)%Z ∧ (0 ≤ num_cmds_dropped s ≤ n)%Z;
  cd_sent : ∀ op k, (op, k) ∈ sent → (k < seq s)%Z;
  cd_sent_nodup : NoDup (sent.*2);
  cd_len : length (sequence_tracker s) = SEQUENCER_TABLE_SIZE;
  cd_tracked_fun : ∀ k e e', Some (k, e) ∈ sequence_tracker s → Some (k, e') ∈ sequence_tracker s → e = e';
  cd_tracked : ∀ k e, Some (k, e) ∈ sequence_tracker s →
    (op_code e, k) ∈ sent ∧ (0 ≤ caller_port e < Z.of_nat CMD_DISPATCHER_SEQUENCE_PORTS)%Z ∧
    is_connected w (caller_port e) = true;
}.

(** Distinct keys identify their values. *)
Lemma NoDup_snd_fun {A B : Type} (l : list (A * B)) a a' b : NoDup (l.*2) → (a, b) ∈ l → (a', b) ∈ l → a = a'.
Proof.
  intros Hnd [i Hi]%list_elem_of_lookup [j Hj]%list_elem_of_lookup.
  assert (i = j) as ->; [|congruence]. apply (NoDup_lookup _ _ _ b Hnd); rewrite list_lookup_fmap; [by rewrite Hi|by rewrite Hj].
Qed.

Lemma port_connected_in ports p N :
  length ports = N → (0 ≤ p < Z.of_nat N)%Z →
  port_connected ports p = Ret (default false (ports !! Z.to_nat p)).
Proof.
  intros Hl Hp. unfold port_connected, index_get. rewrite (proj2 (Z.ltb_ge _ _)) by lia.
  destruct (lookup_lt_is_Some_2 ports (Z.to_nat p)) as [x ->]; [lia|done].
Qed.

Lemma tracker_insert_fresh k e t :
  (∀ e', Some (k, e') ∉ t) → tracker_insert k e t = tracker_take_free k e t.
Proof.
  intros Hf. unfold tracker_insert. cut (tracker_overwrite k e t = None); [by intros ->|].
  induction t as [|[[k' e']|] t IH]; [done|..]; cbn.
  - destruct (Z.eqb_spec k' k) as [->|]; [by destruct (Hf e'); left|].
    rewrite IH; [done|]. intros e1 He1. apply (Hf e1). by right.
  - rewrite IH; [done|]. intros e1 He1. apply (Hf e1). by right.
Qed.

Lemma tracker_take_free_spec k e t t' :
  tracker_take_free k e t = Some t' →
  outstanding t' ≡ₚ (caller_port e, cmd_context e) :: outstanding t ∧
  (∀ x, Some x ∈ t' ↔ x = (k, e) ∨ Some x ∈ t) ∧ length t' = length t.
Proof.
  revert t'. induction t as [|[x|] t IH]; intros t' Ht; cbn in *; [done| |].
  - destruct (tracker_take_free k e t) as [t1|]; [|done]. injection Ht as <-.
    destruct (IH t1 eq_refl) as (Hp & Hm & Hl). split_and!; [|..|cbn; congruence].
    + unfold outstanding in *. cbn. rewrite Hp. by apply Permutation_swap.
    + intros y. rewrite !elem_of_cons, Hm. naive_solver.
  - injection Ht as <-. split_and!; [done| |done]. intros y. rewrite !elem_of_cons. naive_solver.
Qed.

Lemma tracker_remove_spec k t :
  match tracker_remove k t with
  | Some (e, t') => Some (k, e) ∈ t ∧ outstanding t ≡ₚ (caller_port e, cmd_context e) :: outstanding t' ∧
      (∀ x, Some x ∈ t' → Some x ∈ t) ∧ (∀ x, Some x ∈ t → x.1 ≠ k → Some x ∈ t') ∧ length t' = length t
  | None => ∀ e, Some (k, e) ∉ t
  end.
Proof.
  induction t as [|[[k' e']|] t IH]; cbn.
  - intros e. apply not_elem_of_nil.
  - destruct (Z.eqb_spec k' k) as [->|Hk].
    + split_and!; [by left|done| | |done]; intros x; rewrite !elem_of_cons; naive_solver.
    + destruct (tracker_remove k t) as [[e t']|]; cbn.
      * destruct IH as (Hin & Hp & Hsub & Hkeep & Hl). split_and!; [by right| | | |lia].
        -- unfold outstanding in *. cbn. rewrite Hp. by apply Permutation_swap.
        -- intros x. rewrite !elem_of_cons. naive_solver.
        -- intros x. rewrite !elem_of_cons. naive_solver.
      * intros e. rewrite elem_of_cons. intros [[= ??]|Hin]; [congruence|]. by apply (IH e).
  - destruct (tracker_remove k t) as [[e t']|]; cbn.
    + destruct IH as (Hin & Hp & Hsub & Hkeep & Hl). split_and!; [by right|done| | |lia];
        intros x; rewrite !elem_of_cons; naive_solver.
    + intros e. rewrite elem_of_cons. intros [?|Hin]; [done|]. by apply (IH e).
Qed.

Lemma length_outstanding t : length (outstanding t) ≤ length t.
Proof. unfold outstanding. rewrite length_fmap. induction t as [|[x|] l IH]; cbn in *; lia. Qed.


Section steps.
Context `{BuildProfile} (w : CdPorts).

(** The outputs of a reply. *)
Definition reply (port op ctx : Z) (r : CmdResponse) : list CdOut :=
  if is_connected w port then [CdSeqCmdStatus port op ctx r] else [].

(** The port a command would go to. *)
Definition target_of (table : gmap Z Z) (op : Z) : option Z :=
  p ← table !! op; if default false (comp_cmd_send w !! Z.to_nat p) then Some p else None.

Lemma omap_reply_reply port op ctx r :
  omap reply_of (reply port op ctx r) = if is_connected w port then [(port, ctx)] else [].
Proof. unfold reply. by destruct (is_connected w port). Qed.
Lemma omap_sent_reply port op ctx r : omap sent_of (reply port op ctx r) = [].
Proof. unfold reply. by destruct (is_connected w port). Qed.

Context (s : CmdDispatcher) (Hw : wired w (entry_table s)).

Lemma seq_status_reply_ok s' port op ctx r :
  (0 ≤ port < Z.of_nat CMD_DISPATCHER_SEQUENCE_PORTS)%Z →
  seq_status_reply w port op ctx r s' = Ret (tt, s', reply port op ctx r).
Proof.
  intros Hp. unfold seq_status_reply.
  rewrite (comp_lift_ok _ _ _ _ (port_connected_in _ _ _ (proj1 (proj2 Hw)) Hp)).
  unfold reply, is_connected. by destruct (default false _).
Qed.

Lemma connected_target_ok op : connected_target w op s = Ret (target_of (entry_table s) op, s, []).
Proof.
  unfold connected_target, target_of. erewrite comp_bind_quiet by reflexivity.
  destruct (entry_table s !! op) as [p|] eqn:E; [|done]. cbn [mbind option_bind].
  by rewrite (comp_lift_ok _ _ _ _ (port_connected_in _ _ _ (proj1 Hw) (proj2 (proj2 Hw) _ _ E))).
Qed.

Lemma inc_errors_ok s' :
  (0 ≤ num_cmd_errors s' < 2 ^ 32 - 1)%Z →
  inc_errors s' = Ret (tt, set_counters (num_cmds_dispatched s') (num_cmd_errors s' + 1) (num_cmds_dropped s') s', []).
Proof.
  intros He. unfold inc_errors. erewrite comp_bind_quiet by reflexivity.
  erewrite comp_lift_ok; [done|]. apply overflowing_in. split; lia.
Qed.

Context (port : Z) (data : serbuf) (ctx : Z) (pkt : CmdPacket) (rest : serbuf).
Context (Hp : (0 ≤ port < Z.of_nat CMD_DISPATCHER_SEQUENCE_PORTS)%Z).

(** The four ends of [seq_cmd_buff_handler]. *)
Lemma seq_cmd_malformed st :
  CmdPacket_deserialize_from Big CmdPacket_new data = (SErr st, pkt, rest) →
  seq_cmd_buff_handler w port data ctx s =
    Ret (tt, s, CdMalformedCommand (deserial_status st) :: reply port (opcode pkt) ctx ValidationError).
Proof.
  intros E. unfold seq_cmd_buff_handler. rewrite E, comp_emit. by rewrite seq_status_reply_ok.
Qed.

Context (Hpkt : CmdPacket_deserialize_from Big CmdPacket_new data = (SOk tt, pkt, rest)).

Lemma seq_cmd_invalid :
  (0 ≤ num_cmd_errors s < 2 ^ 32 - 1)%Z → target_of (entry_table s) (opcode pkt) = None →
  seq_cmd_buff_handler w port data ctx s =
    Ret (tt, set_seq (wrap 32 (seq s + 1))
               (set_counters (num_cmds_dispatched s) (num_cmd_errors s + 1) (num_cmds_dropped s) s),
         CdInvalidCommand (opcode pkt) :: reply port (opcode pkt) ctx InvalidOpcode).
Proof.
  intros He Ht. unfold seq_cmd_buff_handler. rewrite Hpkt.
  rewrite (comp_bind_quiet _ _ _ _ _ (connected_target_ok _)), Ht, comp_emit.
  rewrite (comp_bind_quiet _ _ _ _ _ (inc_errors_ok s He)).
  rewrite (comp_bind_ret _ _ _ _ _ _ (seq_status_reply_ok _ _ _ _ _ Hp)). unfold bump_seq. erewrite comp_bind_quiet by reflexivity. cbn [put_state]. by rewrite app_nil_r.
Qed.

Lemma track_command_ok op :
  track_command w port op ctx s =
    if is_connected w port then
      match tracker_insert (seq s) (MkTracked op ctx port) (sequence_tracker s) with
      | Some t => Ret (true, set_tracker t s, [])
      | None => Ret (false, s, [])
      end
    else Ret (true, s, []).
Proof.
  unfold track_command. rewrite (comp_lift_ok _ _ _ _ (port_connected_in _ _ _ (proj1 (proj2 Hw)) Hp)).
  fold (is_connected w port). destruct (is_connected w port); [|done].
  erewrite comp_bind_quiet by reflexivity. by destruct (tracker_insert _ _ _).
Qed.

Lemma seq_cmd_full q :
  target_of (entry_table s) (opcode pkt) = Some q → is_connected w port = true →
  tracker_insert (seq s) (MkTracked (opcode pkt) ctx port) (sequence_tracker s) = None →
  seq_cmd_buff_handler w port data ctx s =
    Ret (tt, s, CdTooManyCommands (opcode pkt) :: reply port (opcode pkt) ctx ExecutionError).
Proof.
  intros Ht Hc Hi. unfold seq_cmd_buff_handler. rewrite Hpkt.
  rewrite (comp_bind_quiet _ _ _ _ _ (connected_target_ok _)), Ht.
  erewrite comp_bind_quiet by reflexivity. pose proof (track_command_ok (opcode pkt)) as E. rewrite Hc, Hi in E.
  rewrite (comp_bind_quiet _ _ _ _ _ E), comp_emit. by rewrite seq_status_reply_ok.
Qed.

Lemma seq_cmd_dispatched q t :
  target_of (entry_table s) (opcode pkt) = Some q →
  (if is_connected w port
   then tracker_insert (seq s) (MkTracked (opcode pkt) ctx port) (sequence_tracker s)
   else Some (sequence_tracker s)) = Some t →
  (0 ≤ num_cmds_dispatched s < 2 ^ 32 - 1)%Z →
  seq_cmd_buff_handler w port data ctx s =
    Ret (tt, set_seq (wrap 32 (seq s + 1))
               (set_counters (num_cmds_dispatched s + 1) (num_cmd_errors s) (num_cmds_dropped s) (set_tracker t s)),
         [CdCompCmdSend q (opcode pkt) (seq s) (arg_buffer pkt); CdOpCodeDispatched (opcode pkt) q]).
Proof.
  intros Ht Hi Hd. unfold seq_cmd_buff_handler. rewrite Hpkt.
  rewrite (comp_bind_quiet _ _ _ _ _ (connected_target_ok _)), Ht.
  erewrite comp_bind_quiet by reflexivity.
  assert (track_command w port (opcode pkt) ctx s = Ret (true, set_tracker t s, [])) as E.
  { rewrite track_command_ok. destruct (is_connected w port); [by rewrite Hi|].
    injection Hi as <-. by destruct s. }
  rewrite (comp_bind_quiet _ _ _ _ _ E), !comp_emit.
  assert (inc_dispatched (set_tracker t s) =
    Ret (tt, set_counters (num_cmds_dispatched s + 1) (num_cmd_errors s) (num_cmds_dropped s) (set_tracker t s), [])) as Ed.
  { unfold inc_dispatched. erewrite comp_bind_quiet by reflexivity.
    erewrite comp_lift_ok; [done|]. apply overflowing_in. cbn. split; lia. }
  by rewrite (comp_bind_quiet _ _ _ _ _ Ed).
Qed.
End steps.

Section runs.
Context `{BuildProfile} (w : CdPorts).

(** One operation keeps the invariant and the balance of replies. *)
Definition step_good (s : CmdDispatcher) (sent : list (Z * Z)) (n : Z) (o : cd_op) : Prop :=
  ∃ s' outs, cd_step w sent o s = Ret (tt, s', outs) ∧
    cd_inv w s' (sent ++ omap sent_of outs) (n + 1) ∧ entry_table s' = entry_table s ∧
    omap reply_of outs ++ outstanding (sequence_tracker s')
      ≡ₚ option_list (asked w o) ++ outstanding (sequence_tracker s) ∧
    ∀ k e, Some (k, e) ∈ sequence_tracker s → (∀ i r op, o = DRespond i r → sent !! i ≠ Some (op, k)) →
      Some (k, e) ∈ sequence_tracker s'.

Lemma cd_inv_quiet s sent n t d e dr ld le ldr th :
  cd_inv w s sent n → (∀ x, Some x ∈ t → Some x ∈ sequence_tracker s) → length t = length (sequence_tracker s) →
  (0 ≤ d ≤ n + 1)%Z → (0 ≤ e ≤ n + 1)%Z → (0 ≤ dr ≤ n + 1)%Z →
  cd_inv w (MkCd (entry_table s) t (seq s) d e dr ld le ldr th) (sent ++ []) (n + 1).
Proof.
  intros [? ? ? ? ? ? Hf Ht] Hsub Hl Hd He Hdr. rewrite app_nil_r. split; cbn; try done; [lia|congruence|..].
  - intros k x x' Hx Hx'. apply (Hf k); by apply Hsub.
  - intros k x Hx. apply (Ht k x), Hsub, Hx.
Qed.

Lemma cd_inv_next s sent n t sent' d e :
  cd_inv w s sent n → (n + 1 < 2 ^ 32)%Z → (0 ≤ d ≤ n + 1)%Z → (0 ≤ e ≤ n + 1)%Z →
  (∀ op k, (op, k) ∈ sent' → k = seq s) → NoDup (sent'.*2) →
  length t = length (sequence_tracker s) → (∀ k x x', Some (k, x) ∈ t → Some (k, x') ∈ t → x = x') →
  (∀ k x, Some (k, x) ∈ t → Some (k, x) ∈ sequence_tracker s ∨
     (op_code x, k) ∈ sent' ∧ (0 ≤ caller_port x < Z.of_nat CMD_DISPATCHER_SEQUENCE_PORTS)%Z ∧
     is_connected w (caller_port x) = true) →
  cd_inv w (set_seq (wrap 32 (seq s + 1)) (set_counters d e (num_cmds_dropped s) (set_tracker t s)))
    (sent ++ sent') (n + 1).
Proof.
  intros [? Hq Hcs Hs Hnd Hl Hf Ht] Hn Hd He Hs' Hnd' Hl' Hf' Ht'. rewrite wrap_small by (split; lia).
  assert (0 ≤ num_cmds_dropped s ≤ n + 1)%Z as Hdr by lia.
  assert (∀ op k, (op, k) ∈ sent ++ sent' → (k < seq s + 1)%Z) as Hlt.
  { intros op k [Hk|Hk]%elem_of_app; [apply Hs in Hk|apply Hs' in Hk]; lia. }
  split; cbn; try done; [lia| |congruence|].
  - rewrite fmap_app. apply NoDup_app. split_and!; [done| |done].
    intros k [[op k'] [-> Hk]]%list_elem_of_fmap [[op' k2] [E Hk']]%list_elem_of_fmap. cbn in E. subst.
    apply Hs in Hk. apply Hs' in Hk'. cbn in *. lia.
  - intros k x [Hx|[Hx ?]]%Ht'; (split; [apply elem_of_app|]); [left|..]; try by apply (Ht k x). by right.
    done.
Qed.

(** The sequence number about to be used is not in the tracker. *)
Lemma seq_fresh s sent n : cd_inv w s sent n → ∀ e, Some (seq s, e) ∉ sequence_tracker s.
Proof.
  intros Hi e He. apply (cd_tracked _ _ _ _ Hi) in He as [Hx _]. apply (cd_sent _ _ _ _ Hi) in Hx. lia.
Qed.

Lemma cd_inv_same s sent n : cd_inv w s sent n → cd_inv w s (sent ++ []) (n + 1).
Proof.
  intros Hi. pose proof (cd_counts _ _ _ _ Hi). destruct s. apply (cd_inv_quiet _ _ _ _ _ _ _ _ _ _ _ Hi); cbn in *; done || lia.
Qed.

Lemma cd_inv_invalid s sent n :
  cd_inv w s sent n → (n + 1 < 2 ^ 32)%Z →
  cd_inv w (set_seq (wrap 32 (seq s + 1))
              (set_counters (num_cmds_dispatched s) (num_cmd_errors s + 1) (num_cmds_dropped s) s)) (sent ++ []) (n + 1).
Proof.
  intros Hi Hn. pose proof (cd_counts _ _ _ _ Hi). pose proof (cd_tracked_fun _ _ _ _ Hi).
  destruct s. apply (cd_inv_next _ _ _ _ [] _ _ Hi); cbn in *; try lia; try done.
  - by intros ? ? ?%elem_of_nil.
  - constructor.
  - by left.
Qed.

(** Dispatching: the tracker has a new entry, or is unchanged when nobody
    waits for the reply. *)
Lemma cd_inv_dispatch s sent n op t :
  cd_inv w s sent n → (n + 1 < 2 ^ 32)%Z →
  (t = sequence_tracker s ∨ ∃ e, tracker_take_free (seq s) e (sequence_tracker s) = Some t ∧ op_code e = op ∧
    (0 ≤ caller_port e < Z.of_nat CMD_DISPATCHER_SEQUENCE_PORTS)%Z ∧ is_connected w (caller_port e) = true) →
  cd_inv w (set_seq (wrap 32 (seq s + 1))
              (set_counters (num_cmds_dispatched s + 1) (num_cmd_errors s) (num_cmds_dropped s) (set_tracker t s)))
    (sent ++ [(op, seq s)]) (n + 1).
Proof.
  intros Hi Hn Ht. pose proof (cd_counts _ _ _ _ Hi). pose proof (cd_tracked_fun _ _ _ _ Hi) as Hf.
  pose proof (seq_fresh _ _ _ Hi) as Hfresh.
  apply (cd_inv_next _ _ _ _ _ _ _ Hi); try lia.
  - by intros op' k [[= -> ->]|?%elem_of_nil]%elem_of_cons.
  - apply NoDup_singleton.
  - destruct Ht as [->|(e & Ef & _)]; [done|]. by destruct (tracker_take_free_spec _ _ _ _ Ef) as (_ & _ & ?).
  - destruct Ht as [->|(e & Ef & _)]; [done|]. destruct (tracker_take_free_spec _ _ _ _ Ef) as (_ & Hm & _).
    intros k x x' Hx Hx'. apply Hm in Hx as [[= Hk He]|Hx], Hx' as [[= Hk' He']|Hx']; subst;
      [done|by destruct (Hfresh x')|by destruct (Hfresh x)|by apply (Hf k)].
  - destruct Ht as [->|(e & Ef & <- & Hp & Hc)]; [by left|]. destruct (tracker_take_free_spec _ _ _ _ Ef) as (_ & Hm & _).
    intros k x [[= -> ->]|Hx]%Hm; [right|by left]. split; [by left|done].
Qed.

Lemma step_cmd s sent n port data ctx :
  cd_inv w s sent n → (n + 1 < 2 ^ 32)%Z → cd_op_ok (DCmd port data ctx) → step_good s sent n (DCmd port data ctx).
Proof.
  intros Hi Hn [Hp Hd]. pose proof (cd_wired _ _ _ _ Hi) as Hw. pose proof (cd_counts _ _ _ _ Hi) as [Hcd Hce].
  destruct (CmdPacket_deserialize_safe Big CmdPacket_new data Hd) as [Hnp _].
  unfold step_good, cd_step. cbn [asked].
  assert (∀ op r t, outstanding t ≡ₚ outstanding (sequence_tracker s) →
    omap reply_of (reply w port op ctx r) ++ outstanding t ≡ₚ
    option_list (if is_connected w port then Some (port, ctx) else None) ++ outstanding (sequence_tracker s)) as Hbal.
  { intros op r t Ht. rewrite omap_reply_reply, Ht. by destruct (is_connected w port). }
  destruct (CmdPacket_deserialize_from Big CmdPacket_new data) as [[[[]|st|] pkt] rest] eqn:E; [| |done].
  2: { eexists _, _. split; [by apply (seq_cmd_malformed w s Hw port data ctx pkt rest Hp st E)|].
       cbn [omap list_omap sent_of reply_of]. rewrite omap_sent_reply. split_and!; [by apply cd_inv_same|done|by apply Hbal|done]. }
  destruct (target_of w (entry_table s) (opcode pkt)) as [q|] eqn:Et.
  2: { eexists _, _. split; [apply (seq_cmd_invalid w s Hw port data ctx pkt rest Hp E); [lia|done]|].
       cbn [omap list_omap sent_of reply_of]. rewrite omap_sent_reply. split_and!; [by apply cd_inv_invalid|done|by apply Hbal|done]. }
  destruct (is_connected w port) eqn:Hc.
  - pose proof (tracker_insert_fresh (seq s) (MkTracked (opcode pkt) ctx port) _ (seq_fresh _ _ _ Hi)) as Ef'.
    destruct (tracker_take_free (seq s) (MkTracked (opcode pkt) ctx port) (sequence_tracker s)) as [t|] eqn:Ef.
    + eexists _, _. split.
      { apply (seq_cmd_dispatched w s Hw port data ctx pkt rest Hp E q t Et); [by rewrite Hc|lia]. }
      cbn [omap list_omap sent_of reply_of]. destruct (tracker_take_free_spec _ _ _ _ Ef) as (? & Hm & _).
      split_and!; [|done|done|by intros k e He _; apply Hm; right].
      apply cd_inv_dispatch; [done|done|]. right. by eexists.
    + eexists _, _. split; [by apply (seq_cmd_full w s Hw port data ctx pkt rest Hp E q Et Hc Ef')|].
      cbn [omap list_omap sent_of reply_of]. rewrite omap_sent_reply. split_and!; [by apply cd_inv_same|done|by apply Hbal|done].
  - eexists _, _. split.
    { apply (seq_cmd_dispatched w s Hw port data ctx pkt rest Hp E q (sequence_tracker s) Et); [by rewrite Hc|lia]. }
    cbn [omap list_omap sent_of reply_of]. split_and!; [|done..]. apply cd_inv_dispatch; [done|done|by left].
Qed.

Lemma stat_event s op r :
  (0 ≤ num_cmd_errors s < 2 ^ 32 - 1)%Z →
  ∃ e ev, (if decide (r = CmdOk) then emit (CdOpCodeCompleted (get_event_opcode op))
           else _ ← inc_errors; emit (CdOpCodeError (get_event_opcode op) r)) s
    = Ret (tt, set_counters (num_cmds_dispatched s) e (num_cmds_dropped s) s, [ev]) ∧
    (num_cmd_errors s ≤ e ≤ num_cmd_errors s + 1)%Z ∧ reply_of ev = None ∧ sent_of ev = None.
Proof.
  intros He. destruct (decide (r = CmdOk)).
  - exists (num_cmd_errors s), (CdOpCodeCompleted (get_event_opcode op)). destruct s. split_and!; try done; cbn; lia.
  - exists (num_cmd_errors s + 1)%Z. rewrite (comp_bind_quiet _ _ _ _ _ (inc_errors_ok s He)).
    eexists. split; [done|]. split_and!; try done; lia.
Qed.

Lemma step_respond s sent n k r :
  cd_inv w s sent n → (n + 1 < 2 ^ 32)%Z → step_good s sent n (DRespond k r).
Proof.
  intros Hi Hn. pose proof (cd_counts _ _ _ _ Hi) as [Hcd Hce]. unfold step_good, cd_step. cbn [asked].
  destruct (sent !! k) as [[op sq]|] eqn:Ek.
  2: { eexists s, []. split; [done|]. split_and!; [by apply cd_inv_same|done..]. }
  destruct (stat_event s op r ltac:(lia)) as (e & ev & Ee & He & Hr1 & Hr2). unfold comp_cmd_stat_handler.
  rewrite (comp_bind_ret _ _ _ _ _ _ Ee). erewrite comp_bind_quiet by reflexivity.
  set (s1 := set_counters _ _ _ _). change (sequence_tracker s1) with (sequence_tracker s).
  pose proof (tracker_remove_spec sq (sequence_tracker s)) as Hrm.
  destruct (tracker_remove sq (sequence_tracker s)) as [[x t]|].
  - destruct Hrm as (Hin & Hperm & Hsub & Hkeep & Hl). apply (cd_tracked _ _ _ _ Hi) in Hin as (Hop & Hport & Hconn).
    pose proof (list_elem_of_lookup_2 _ _ _ Ek) as Hop'. pose proof (NoDup_snd_fun _ _ _ _ (cd_sent_nodup _ _ _ _ Hi) Hop Hop') as Heq.
    erewrite comp_bind_quiet by reflexivity. rewrite comp_assert_ok by (apply Z.eqb_eq; congruence).
    rewrite comp_assert_ok by (apply andb_true_intro; split; [apply Z.leb_le|apply Z.ltb_lt]; lia).
    rewrite (seq_status_reply_ok w s (cd_wired _ _ _ _ Hi)) by done.
    eexists _, _. split; [reflexivity|]. cbn [omap list_omap app]. rewrite Hr1, Hr2, omap_sent_reply, omap_reply_reply.
    split_and!; [destruct s; by apply (cd_inv_quiet _ _ _ _ _ _ _ _ _ _ _ Hi); cbn in *; try lia|done|by rewrite Hperm, Hconn|].
    intros k' e' He' Hno. apply Hkeep; [done|]. cbn. intros ->. by apply (Hno k r op).
  - eexists _, _. split; [reflexivity|]. cbn [omap list_omap app]. rewrite Hr1, Hr2. split_and!; [|done..].
    destruct s. by apply (cd_inv_quiet _ _ _ _ _ _ _ _ _ _ _ Hi); cbn in *; try lia.
Qed.

Lemma step_ok s sent n o :
  cd_inv w s sent n → (n + 1 < 2 ^ 32)%Z → cd_op_ok o → step_good s sent n o.
Proof.
  intros Hi Hn Ho. destruct o as [port data ctx|k r|]; [by apply step_cmd|by apply step_respond|].
  eexists _, _. split; [reflexivity|]. pose proof (cd_counts _ _ _ _ Hi).
  assert (∀ f : CdOut → option (Z * Z), (∀ c v, f (CdTlmWrite c v) = None) → ∀ l1 c1 v1 l2 c2 v2 l3 c3 v3,
    omap f (on_change l1 c1 v1 ++ on_change l2 c2 v2 ++ on_change l3 c3 v3) = []) as Hq.
  { intros f Hf l1 c1 v1 l2 c2 v2 l3 c3 v3. unfold on_change. repeat case_decide; cbn; by rewrite ?Hf. }
  rewrite !Hq by done. split_and!; [|done..]. destruct s.
  by apply (cd_inv_quiet _ _ _ _ _ _ _ _ _ _ _ Hi); cbn in *; try lia.
Qed.

End runs.

Section complete.
Context `{BuildProfile} (w : CdPorts).


End complete.

(** * Registration *)

Fixpoint register (regs : list (Z * Z)) : CompM CmdDispatcher CdOut unit :=
  match regs with
  | [] => mret tt
  | (port, op) :: regs' => _ ← comp_cmd_reg port op; register regs'
  end.

(** Registrations of a topology: ports in range, one port per opcode, no
    more than the table holds. *)
Definition regs_ok (regs : list (Z * Z)) : Prop :=
  Forall (λ r, 0 ≤ r.1 < Z.of_nat CMD_DISPATCHER_COMMAND_PORTS)%Z regs ∧
  (∀ r r', r ∈ regs → r' ∈ regs → r.2 = r'.2 → r.1 = r'.1) ∧ length regs ≤ DISPATCH_TABLE_SIZE.

Lemma register_from regs tbl s :
  regs_ok regs → size tbl + length regs ≤ DISPATCH_TABLE_SIZE →
  (∀ r, r ∈ regs → ∀ p, tbl !! r.2 = Some p → p = r.1) →
  ∃ tbl' outs, register regs (set_table tbl s) = Ret (tt, set_table tbl' s, outs) ∧
    ∀ op p, tbl' !! op = Some p ↔ (p, op) ∈ regs ∨ tbl !! op = Some p.
Proof.
  revert tbl. induction regs as [|[port op] regs IH]; intros tbl (Hr & Hc & Hl) Hsz Hcons.
  { exists tbl, []. split; [done|]. intros op p. rewrite elem_of_nil. naive_solver. }
  apply Forall_cons in Hr as [Hport Hr]. cbn [fst snd length] in *.
  assert (regs_ok regs) as Hok.
  { split_and!; [done| |lia]. intros r r' ??. apply Hc; by right. }
  cbn [register]. unfold comp_cmd_reg at 1.
  assert ((0 <=? port)%Z && (port <? Z.of_nat CMD_DISPATCHER_COMMAND_PORTS)%Z = true) as Hb.
  { apply andb_true_intro; split; [apply Z.leb_le|apply Z.ltb_lt]; lia. }
  destruct (tbl !! op) as [p|] eqn:Et.
  - pose proof (Hcons (port, op) ltac:(by left) p Et) as Hp. cbn in Hp. subst p.
    destruct (IH tbl Hok ltac:(lia)) as (tbl' & outs & E & Hm); [intros r Hin; apply Hcons; by right|].
    eexists tbl', _. split.
    { erewrite comp_bind_ret; [rewrite E; reflexivity|]. rewrite comp_assert_ok by done.
      erewrite comp_bind_quiet by reflexivity. cbn [entry_table set_table]. rewrite Et.
      rewrite comp_assert_ok by apply Z.eqb_refl. reflexivity. }
    intros op' p. rewrite Hm, elem_of_cons. naive_solver.
  - destruct (IH (<[op := port]> tbl) Hok) as (tbl' & outs & E & Hm).
    { rewrite map_size_insert_None by done. lia. }
    { intros r Hin p [[Ho <-]|[? Hp]]%lookup_insert_Some.
      - apply (Hc (port, op) r); [by left|by right|done].
      - apply Hcons; [by right|done]. }
    eexists tbl', _. split.
    { erewrite comp_bind_ret; [rewrite E; reflexivity|]. rewrite comp_assert_ok by done.
      erewrite comp_bind_quiet by reflexivity. cbn [entry_table set_table]. rewrite Et.
      rewrite comp_assert_ok by (apply bool_decide_eq_true_2; lia). reflexivity. }
    intros op' p. rewrite Hm, elem_of_cons, lookup_insert_Some. naive_solver congruence.
Qed.

Lemma register_ok w regs :
  regs_ok regs → length (comp_cmd_send w) = CMD_DISPATCHER_COMMAND_PORTS →
  length (seq_cmd_status w) = CMD_DISPATCHER_SEQUENCE_PORTS →
  ∃ s outs, register regs CmdDispatcher_new = Ret (tt, s, outs) ∧ cd_inv w s [] 0 ∧
    sequence_tracker s = SequenceTracker_new ∧ ∀ op p, entry_table s !! op = Some p ↔ (p, op) ∈ regs.
Proof.
  intros Hok H1 H2. pose proof Hok as (Hr & _ & Hl).
  destruct (register_from regs ∅ CmdDispatcher_new Hok) as (tbl & outs & E & Hm).
  { by rewrite map_size_empty. }
  { intros r _ p. by rewrite lookup_empty. }
  assert (∀ op p, tbl !! op = Some p ↔ (p, op) ∈ regs) as Hm'.
  { intros op p. rewrite Hm, lookup_empty. naive_solver. }
  assert (∀ x, Some x ∉ SequenceTracker_new) as Hempty.
  { intros x. unfold SequenceTracker_new. by intros [? _]%elem_of_replicate. }
  eexists _, outs. split; [exact E|]. split_and!; [|done|done]. split; cbn; try done.
  - split_and!; [done|done|]. intros op p Hp. apply Hm' in Hp. by rewrite Forall_forall in Hr; apply Hr in Hp.
  - by intros ? ? ?%elem_of_nil.
  - constructor.
  - intros k e e' He. by destruct (Hempty (k, e)).
  - intros k e He. by destruct (Hempty (k, e)).
Qed.

(** * Own commands, drops and pings *)

(** All the traffic of the component: besides [cd_op], its own commands (with
    any arguments), command buffers dropped because the queue is full, and
    pings. *)
Inductive cd_event : Set :=
| EvTraffic (o : cd_op)
| EvOwn (op cmd_seq : Z) (args : serbuf)
| EvDrop (data : serbuf) (ctx : Z)
| EvPing (key : Z).

Definition cd_event_ok (e : cd_event) : Prop :=
  match e with
  | EvTraffic o => cd_op_ok o
  | EvOwn _ _ args => wf args
  | EvDrop data _ => wf data
  | EvPing _ => True
  end.
#[export] Instance cd_event_ok_dec e : Decision (cd_event_ok e).
Proof. unfold cd_event_ok. destruct e; apply _. Defined.

Definition ev_step `{BuildProfile} (w : CdPorts) (sent : list (Z * Z)) (e : cd_event) : CompM CmdDispatcher CdOut unit :=
  match e with
  | EvTraffic o => cd_step w sent o
  | EvOwn op sq args => own_command w op sq args
  | EvDrop data ctx => seq_cmd_buff_overflow_hook data ctx
  | EvPing key => ping_in_handler w key
  end.

(** A well-formed [CMD_CLEAR_TRACKING]. *)
Definition clears (w : CdPorts) (e : cd_event) : bool :=
  match e with
  | EvOwn op _ args => (wrap 32 (op - id_base w) =? OPCODE_CMD_CLEAR_TRACKING)%Z && bool_decide (remaining_slice args = [])
  | _ => false
  end.

(** The state, the outputs and the commands that were tracked when a
    [CMD_CLEAR_TRACKING] ran. *)
Fixpoint ev_run `{BuildProfile} (w : CdPorts) (sent : list (Z * Z)) (es : list cd_event) (s : CmdDispatcher)
    : outcome (CmdDispatcher * list CdOut * list (Z * Z)) :=
  match es with
  | [] => Ret (s, [], [])
  | e :: es' =>
      '(_, s1, o1) ← ev_step w sent e s;
      '(s2, o2, lost) ← ev_run w (sent ++ omap sent_of o1) es' s1;
      Ret (s2, o1 ++ o2, (if clears w e then outstanding (sequence_tracker s) else []) ++ lost)
  end.

Definition ev_asked (w : CdPorts) (e : cd_event) : option (Z * Z) :=
  match e with EvTraffic o => asked w o | _ => None end.

Section events.
Context `{BuildProfile} (w : CdPorts).
Context (Hping : ping_out w = true) (Hresp : cmd_response_out w = true).

(** What an own command does: with arguments that decode completely its
    action and [Ok], else a format error. *)
Lemma with_args_eq {A} (m : SerM A) (act : A → CompM CmdDispatcher CdOut unit) op sq args s :
  safe m → wf args →
  with_args w m act op sq args s =
    match m args with
    | (SOk a, args') =>
        if bool_decide (remaining_slice args' = []) then (_ ← act a; emit (CdCmdResponse op sq CmdOk)) s
        else Ret (tt, s, [CdCmdResponse op sq CmdFormatError])
    | _ => Ret (tt, s, [CdCmdResponse op sq CmdFormatError])
    end.
Proof.
  intros Hm Hd. unfold with_args, parse_args, cmd_response. rewrite Hresp. destruct (Hm args Hd) as (Hnp & Hw & _).
  destruct (m args) as [[a|st|] args'] eqn:E; [|done..]. cbn [snd] in Hw. rewrite deserialize_size_left_spec by done.
  pose proof (length_remaining_slice args' Hw) as Hl.
  destruct (decide (remaining_slice args' = [])) as [Er|Er].
  - rewrite !bool_decide_eq_true_2 by (try done; rewrite Er in Hl; cbn in Hl; lia). erewrite comp_bind_quiet by reflexivity.
    unfold mbind, CompM_bind. destruct (act a s) as [[[[] s1] o1]|]; done.
  - rewrite !bool_decide_eq_false_2; [by erewrite comp_bind_quiet by reflexivity|done|].
    intros Hz. apply Er, nil_length_inv. lia.
Qed.

Lemma string_deserialize_safe e t : safe (string_deserialize_from e t).
Proof.
  apply safe_bind; [apply deserialize_bytes_safe; by rewrite length_replicate|]. intros [sc l]. apply safe_ret.
Qed.

Lemma own_command_ok op sq args s :
  wf args →
  ∃ o, own_command w op sq args s
      = Ret (tt, if clears w (EvOwn op sq args) then set_tracker SequenceTracker_new s else s, o) ∧
    omap reply_of o = [] ∧ omap sent_of o = [].
Proof.
  intros Hd. unfold own_command, clears. set (local := wrap 32 (op - id_base w)).
  destruct (Z.eqb_spec local OPCODE_CMD_CLEAR_TRACKING) as [->|Hc].
  { cbn [Z.eqb OPCODE_CMD_NO_OP OPCODE_CMD_NO_OP_STRING OPCODE_CMD_TEST_CMD_1 OPCODE_CMD_CLEAR_TRACKING Pos.eqb andb].
    unfold cmd_clear_tracking_handler. rewrite with_args_eq by (done || apply safe_ret). cbn [mret SerM_ret].
    case_bool_decide; by eexists. }
  cbn [andb]. destruct (local =? OPCODE_CMD_NO_OP)%Z; [|destruct (local =? OPCODE_CMD_NO_OP_STRING)%Z;
    [|destruct (local =? OPCODE_CMD_TEST_CMD_1)%Z; [|unfold cmd_response; rewrite Hresp; by eexists]]].
  - unfold cmd_no_op_handler. rewrite with_args_eq by (done || apply safe_ret). cbn [mret SerM_ret]. case_bool_decide; by eexists.
  - unfold cmd_no_op_string_handler. rewrite with_args_eq by (done || apply string_deserialize_safe).
    destruct (string_deserialize_from _ _ _) as [[a|st|] args']; [case_bool_decide|..]; by eexists.
  - unfold cmd_test_cmd_1_handler. rewrite with_args_eq; [|repeat (apply safe_bind; [apply deserialize_sint_safe || apply deserialize_uint_safe|intros ?]); apply safe_ret|done].
    match goal with |- context [match ?m args with _ => _ end] => destruct (m args) as [[[[a b] c]|st|] args'] end; [case_bool_decide|..]; by eexists.
Qed.

Lemma overflow_hook_ok data ctx s :
  wf data → (0 ≤ num_cmds_dropped s < 2 ^ 32 - 1)%Z →
  ∃ th o, seq_cmd_buff_overflow_hook data ctx s
      = Ret (tt, set_counters (num_cmds_dispatched s) (num_cmd_errors s) (num_cmds_dropped s + 1) (set_throttle th s), o) ∧
    omap reply_of o = [] ∧ omap sent_of o = [].
Proof.
  intros Hd Hn. unfold seq_cmd_buff_overflow_hook. cbn [INCLUDE_COMMAND_OPCODES_IN_EVENTS].
  destruct (CmdPacket_deserialize_safe Big CmdPacket_new data Hd) as [Hnp _].
  assert (∃ opc, match CmdPacket_deserialize_from Big CmdPacket_new data with
    | (SOk _, pkt, _) => mret (opcode pkt) | (SErr _, _, _) => mret 0%Z | (SPanic, _, _) => lift Panic
    end s = Ret (opc, s, @nil CdOut)) as [opc E].
  { destruct (CmdPacket_deserialize_from _ _ _) as [[[?|?|] ?] ?]; [by eexists..|done]. }
  rewrite (comp_bind_quiet _ _ _ _ _ E).
  assert (throttle_ok s = Ret ((ok_to_emit (dropped_throttle s)).1, set_throttle (ok_to_emit (dropped_throttle s)).2 s, [])) as Et.
  { unfold throttle_ok. by destruct (ok_to_emit (dropped_throttle s)). }
  rewrite (comp_bind_quiet _ _ _ _ _ Et). destruct (ok_to_emit (dropped_throttle s)) as [ok th]. cbn [fst snd].
  assert (inc_dropped (set_throttle th s) = Ret (tt, set_counters (num_cmds_dispatched s) (num_cmd_errors s) (num_cmds_dropped s + 1) (set_throttle th s), [])) as Ed.
  { unfold inc_dropped, add_w. erewrite comp_bind_quiet by reflexivity. cbn [num_cmds_dropped set_throttle].
    by rewrite overflowing_in by (unfold is_u; lia). }
  destruct ok; cbn [when]; [rewrite comp_emit|erewrite comp_bind_quiet by reflexivity]; rewrite Ed; eexists th, _; by split_and!.
Qed.

Lemma tracker_new_empty x : Some x ∉ SequenceTracker_new.
Proof. unfold SequenceTracker_new. by intros [? _]%elem_of_replicate. Qed.

(** One event keeps the invariant and the balance of replies. *)
Lemma ev_step_ok e s sent n :
  cd_inv w s sent n → (n + 1 < 2 ^ 32)%Z → cd_event_ok e →
  ∃ s' outs, ev_step w sent e s = Ret (tt, s', outs) ∧ cd_inv w s' (sent ++ omap sent_of outs) (n + 1) ∧
    omap reply_of outs ++ outstanding (sequence_tracker s') ++ (if clears w e then outstanding (sequence_tracker s) else [])
      ≡ₚ option_list (ev_asked w e) ++ outstanding (sequence_tracker s).
Proof.
  intros Hi Hn He. pose proof (cd_counts _ _ _ _ Hi) as Hc. destruct e as [o|op sq args|data ctx|key]; cbn [ev_step ev_asked cd_event_ok] in *.
  - destruct (step_ok w s sent n o Hi Hn He) as (s' & outs & E & Hi' & _ & Hb & _). exists s', outs. split_and!; [done..|].
    cbn [clears]. by rewrite app_nil_r.
  - destruct (own_command_ok op sq args s He) as (o & -> & Hr & Hs). eexists _, o. split; [done|]. rewrite Hr, Hs.
    destruct (clears w (EvOwn op sq args)); [|by split; [apply cd_inv_same|rewrite app_nil_r]].
    split; [|done]. pose proof (cd_len _ _ _ _ Hi) as Hl. destruct s. apply (cd_inv_quiet _ _ _ _ _ _ _ _ _ _ _ _ Hi); cbn in *; try lia; [|by rewrite Hl].
    intros x Hx. by destruct (tracker_new_empty x).
  - destruct (overflow_hook_ok data ctx s He) as (th & o & -> & Hr & Hs); [lia|]. eexists _, o. split; [done|]. rewrite Hr, Hs.
    cbn [clears]. split; [|by rewrite app_nil_r]. destruct s. by apply (cd_inv_quiet _ _ _ _ _ _ _ _ _ _ _ _ Hi); cbn in *; try lia.
  - unfold ping_in_handler. rewrite Hping. rewrite comp_assert_ok by done. eexists _, _. split; [reflexivity|].
    cbn [clears omap list_omap sent_of reply_of]. split; [by apply cd_inv_same|by rewrite app_nil_r].
Qed.

Lemma ev_run_ok es s sent n :
  cd_inv w s sent n → (n + Z.of_nat (length es) < 2 ^ 32)%Z → Forall cd_event_ok es →
  ∃ s' outs lost, ev_run w sent es s = Ret (s', outs, lost) ∧
    cd_inv w s' (sent ++ omap sent_of outs) (n + Z.of_nat (length es)) ∧
    omap reply_of outs ++ outstanding (sequence_tracker s') ++ lost ≡ₚ omap (ev_asked w) es ++ outstanding (sequence_tracker s) ∧
    (Forall (λ e, clears w e = false) es → lost = []).
Proof.
  intros Hi Hn Hos. revert s sent n Hi Hn. induction Hos as [|e es He _ IH]; intros s sent n Hi Hn; cbn [length] in *.
  { exists s, [], []. cbn. by rewrite !app_nil_r, Z.add_0_r. }
  destruct (ev_step_ok e s sent n Hi ltac:(lia) He) as (s1 & o1 & E1 & Hi1 & Hb1).
  destruct (IH s1 _ (n + 1)%Z Hi1 ltac:(lia)) as (s2 & o2 & lost & E2 & Hi2 & Hb2 & Hl2).
  eexists s2, (o1 ++ o2), _. cbn [ev_run]. rewrite E1. cbn [mbind outcome_bind]. rewrite E2. split; [reflexivity|].
  rewrite omap_app, app_assoc. split_and!.
  - by replace (n + Z.of_nat (S (length es)))%Z with (n + 1 + Z.of_nat (length es))%Z by lia.
  - set (l := if clears w e then _ else _) in *. rewrite omap_app.
    transitivity ((omap reply_of o1 ++ l) ++ omap reply_of o2 ++ outstanding (sequence_tracker s2) ++ lost); [solve_Permutation|].
    rewrite Hb2. transitivity (omap (ev_asked w) es ++ omap reply_of o1 ++ outstanding (sequence_tracker s1) ++ l); [solve_Permutation|].
    rewrite Hb1. cbn [omap list_omap]. destruct (ev_asked w e); cbn [option_list app]; [by rewrite Permutation_middle|done].
  - intros [-> Hf]%Forall_cons. by apply Hl2.
Qed.
End events.

(** * Guarantees *)

(** C3. Every command that asks for a reply gets at most one, and exactly one
    unless it is still tracked or was tracked when a [CMD_CLEAR_TRACKING]
    ran.  After the components registered and any traffic of command buffers
    (any bytes, from any sequencer port), component responses (late, in any
    order, even repeated), the dispatcher's own commands (any opcode and
    arguments, well-formed or not), buffers dropped on a full queue, pings and
    telemetry runs, fewer than 2^32 in all, with the ping and command response
    ports connected: no assertion failed, and the replies sent so far together
    with the commands still tracked and those forgotten by a
    [CMD_CLEAR_TRACKING] are exactly the commands handled from callers whose
    status port is connected, each under its caller port and context.  At most
    [SEQUENCER_TABLE_SIZE] are tracked, and without a [CMD_CLEAR_TRACKING]
    none is forgotten.  (A buffer dropped on a full queue is not handled: the
    drop is counted and reported, but not answered.) *)
Theorem commands_answered_once `{BuildProfile} (w : CdPorts) (regs : list (Z * Z)) (es : list cd_event) :
  regs_ok regs → length (comp_cmd_send w) = CMD_DISPATCHER_COMMAND_PORTS →
  length (seq_cmd_status w) = CMD_DISPATCHER_SEQUENCE_PORTS → ping_out w = true → cmd_response_out w = true →
  Forall cd_event_ok es → (Z.of_nat (length es) < 2 ^ 32)%Z →
  ∃ s0 outs0 s outs lost, register regs CmdDispatcher_new = Ret (tt, s0, outs0) ∧
    ev_run w [] es s0 = Ret (s, outs, lost) ∧
    omap reply_of outs ++ outstanding (sequence_tracker s) ++ lost ≡ₚ omap (ev_asked w) es ∧
    length (outstanding (sequence_tracker s)) ≤ SEQUENCER_TABLE_SIZE ∧
    (Forall (λ e, clears w e = false) es → lost = []).
Proof.
  intros Hr H1 H2 Hp Hc Hos Hn. destruct (register_ok w regs Hr H1 H2) as (s0 & outs0 & E0 & Hi0 & Ht0 & _).
  destruct (ev_run_ok w Hp Hc es s0 [] 0 Hi0 ltac:(lia) Hos) as (s & outs & lost & E & Hi & Hb & Hl).
  exists s0, outs0, s, outs, lost. split_and!; [done..| | |done].
  - rewrite Ht0 in Hb. by rewrite app_nil_r in Hb.
  - rewrite <-(cd_len _ _ _ _ Hi). apply length_outstanding.
Qed.

Lemma commands_answered_once_witness :
  let w := MkPorts (replicate 30 true) [true; true; false; true; true] true true 0x500 in
  let cmd b := SerBuf ([0; 0; 0; 0] ++ b)%Z (4 + length b) 0 in
  let es := [EvTraffic (DCmd 1 (cmd [1; 0; 7]%Z) 77); EvTraffic (DCmd 2 (cmd [1; 0]%Z) 5);
             EvTraffic (DCmd 0 (SerBuf [9] 1 0)%Z 78); EvTraffic (DCmd 0 (cmd [9; 9]%Z) 79);
             EvTraffic (DRespond 0 CmdOk); EvTraffic (DRespond 0 CmdOk); EvDrop (cmd [1; 0]%Z) 80; EvPing 3;
             EvTraffic (DCmd 3 (cmd [5; 3]%Z) 81); EvOwn 0x503 3 (linear_buffer_new 506); EvOwn 0x500 4 (cmd []);
             EvTraffic (DRespond 2 CmdOk); EvTraffic DRun] in
  ∃ s0 outs0 s outs lost, register [(0, 0x100); (3, 0x503)]%Z CmdDispatcher_new = Ret (tt, s0, outs0) ∧
    ev_run (H := true) w [] es s0 = Ret (s, outs, lost) ∧
    omap reply_of outs ++ outstanding (sequence_tracker s) ++ lost ≡ₚ [(1, 77); (0, 78); (0, 79); (3, 81)]%Z ∧
    length (outstanding (sequence_tracker s)) ≤ SEQUENCER_TABLE_SIZE ∧
    (Forall (λ e, clears w e = false) es → lost = []).
Proof.
  intros w cmd es. apply (commands_answered_once (H := true) w [(0, 0x100); (3, 0x503)]%Z es);
    [split_and!; [fp_decide| |fp_decide]|reflexivity|reflexivity|reflexivity|reflexivity|fp_decide|reflexivity].
  intros r r'. set_unfold. naive_solver.
Defined.



(** [CMD_CLEAR_TRACKING] also forgets the command being executed, so its own
    completion is not forwarded to the caller that sent it. *)
Example clear_tracking_unanswered :
  let w := MkPorts (replicate 30 true) (replicate 5 true) true true 0x500 in
  let run : CompM CmdDispatcher CdOut unit :=
    _ ← register [(0, 0x503)]%Z;
    _ ← seq_cmd_buff_handler (H := true) w 1 (SerBuf [0; 0; 0; 0; 5; 3]%Z 6 0) 77;
    _ ← own_command w 0x503 0 (linear_buffer_new 506);
    comp_cmd_stat_handler (H := true) w 0x503 0 CmdOk in
  match run CmdDispatcher_new with
  | Ret (_, s, outs) =>
      omap sent_of outs = [(0x503, 0)]%Z ∧ omap reply_of outs = [] ∧ outstanding (sequence_tracker s) = []
  | Panic => False
  end.
Proof. vm_compute. done. Qed.
