(* ===== verification/Queued.v ===== *)
(** Queued components, [crates/fprime-comp/src/queued.rs]: the message queue
    behind the asynchronous ports, the queue-full policies, and the dispatch
    loop; the command dispatcher as such a component.

    The queue is any delegate that satisfies the laws of [OsQueue].  A
    component is its [dispatch_message]; what its handlers send appears in
    the outputs. *)

From S2P Require Import Prelude Serial SerialFacts Codec OsQueue PriorityQueue Comp Msg CmdDispatcher.

(** * Data *)

Inductive QueueFullPolicy : Set := PolicyAssert | PolicyDrop | PolicyBlock | PolicyHook.

Record QueuedBase (D : Type) : Type := MkQueued {
  qb_queue : Queue D;
  msgs_dropped : Z;
  msg_buffer : list Z;
}.
Arguments MkQueued {D} _ _ _.
Arguments qb_queue {D} _.
Arguments msgs_dropped {D} _.
Arguments msg_buffer {D} _.

Definition EXIT_MSG_TYPE : Z := 0.

(** The trait [ComponentDispatch]. *)
Class ComponentDispatch (St Out : Type) : Type :=
  component_dispatch : Z → serbuf → CompM St Out MsgDispatchStatus.

Section queued.
Context `{QueueInterface D}.

Definition QueuedBase_new : QueuedBase D := MkQueued Queue_new 0 [].

(** [create_queue(depth, msg_size)]. *)
Definition create_queue (dep msize : nat) (qb : QueuedBase D) : outcome (QueuedBase D) :=
  '(status, q) ← create dep msize (qb_queue qb);
  _ ← fw_assert (bool_decide (status = OpOk));
  Ret (MkQueued q (msgs_dropped qb) (replicate msize 0%Z)).

(** The counter is a 64-bit atomic, whose addition wraps. *)
Definition inc_num_msgs_dropped (qb : QueuedBase D) : QueuedBase D :=
  MkQueued (qb_queue qb) (wrap 64 (msgs_dropped qb + 1)) (msg_buffer qb).

Definition send_message (message : serbuf) (priority : Z) (policy : QueueFullPolicy) (qb : QueuedBase D)
    : outcome (call Status * QueuedBase D) :=
  let blocking := match policy with PolicyBlock => Blocking | _ => NonBlocking end in
  '(r, q) ← send_serial message priority blocking (qb_queue qb);
  let qb' := MkQueued q (msgs_dropped qb) (msg_buffer qb) in
  match r with
  | Waiting => Ret (Waiting, qb')
  | Returned status =>
      match policy with
      | PolicyAssert | PolicyBlock =>
          _ ← fw_assert (bool_decide (status = OpOk)); Ret (Returned status, qb')
      | PolicyDrop =>
          if decide (status = Full) then Ret (Returned status, inc_num_msgs_dropped qb')
          else _ ← fw_assert (bool_decide (status = OpOk)); Ret (Returned status, qb')
      | PolicyHook =>
          if decide (status = Full) then Ret (Returned status, qb')
          else _ ← fw_assert (bool_decide (status = OpOk)); Ret (Returned status, qb')
      end
  end.

Context {St Out : Type} `{ComponentDispatch St Out}.

(** [do_dispatch(component, blocking)] on the queue and the component's
    state. *)
Definition do_dispatch (bt : BlockingType) : CompM (QueuedBase D * St) Out (call MsgDispatchStatus) := λ '(qb, s),
  '(r, q) ← receive (msg_buffer qb) bt (qb_queue qb);
  match r with
  | Waiting => Ret (Waiting, (MkQueued q (msgs_dropped qb) (msg_buffer qb), s), [])
  | Returned (RStatus status) =>
      if decide (status = Empty) then
        Ret (Returned MdEmpty, (MkQueued q (msgs_dropped qb) (msg_buffer qb), s), [])
      else Panic
  | Returned (RMessage scratch len _) =>
      let qb' := MkQueued q (msgs_dropped qb) scratch in
      view ← ext_buf_with_len scratch len;
      match read_msg_type view with
      | (SPanic, _) => Panic
      | (SErr _, _) => Ret (Returned MdError, (qb', s), [])
      | (SOk msg_type, view) =>
          if decide (msg_type = EXIT_MSG_TYPE) then Ret (Returned MdExit, (qb', s), [])
          else
            '(status, s', outs) ← component_dispatch msg_type view s;
            Ret (Returned status, (qb', s'), outs)
      end
  end.

(** The bounded loop of [dispatch_available_messages]. *)
Fixpoint dispatch_n (n : nat) : CompM (QueuedBase D * St) Out (call MsgDispatchStatus) :=
  match n with
  | O => mret (Returned MdOk)
  | S n' =>
      r ← do_dispatch NonBlocking;
      match r with
      | Returned MdOk => dispatch_n n'
      | r => mret r
      end
  end.

(** A handler of the component, beside its queue. *)
Definition on_component {A} (m : CompM St Out A) : CompM (QueuedBase D * St) Out A :=
  λ '(qb, s), '(a, s', outs) ← m s; Ret (a, (qb, s'), outs).

Definition dispatch_available_messages : CompM (QueuedBase D * St) Out (call MsgDispatchStatus) := λ '(qb, s),
  dispatch_n (get_messages_available (qb_queue qb)) (qb, s).
End queued.

(** * The command dispatcher as a queued component *)

Definition QUEUE_PRIORITY : Z := 1.

#[export] Instance dispatcher_dispatch `{BuildProfile} (w : CdPorts) : ComponentDispatch CmdDispatcher CdOut :=
  dispatch_message w.

Section dispatcher.
Context `{BuildProfile} (w : CdPorts) `{QueueInterface D}.

(** A call on an asynchronous port: the adapter serializes it and queues the
    message; [seqCmdBuff] handles a full queue, the others assert. *)
Definition async_invoke (c : async_call) : CompM (QueuedBase D * CmdDispatcher) CdOut unit := λ '(qb, s),
  msg ← call_message c;
  match c with
  | CallSeqCmdBuff _ data ctx =>
      '(r, qb') ← send_message msg QUEUE_PRIORITY PolicyHook qb;
      match r with
      | Returned Full => on_component (seq_cmd_buff_overflow_hook data ctx) (qb', s)
      | _ => Ret (tt, (qb', s), [])
      end
  | _ =>
      '(_, qb') ← send_message msg QUEUE_PRIORITY PolicyAssert qb;
      Ret (tt, (qb', s), [])
  end.

(** Senders and the component's thread, in any order. *)
Inductive active_op : Set := OpCall (c : async_call) | OpDispatch.

Definition active_step (o : active_op)
    : CompM (QueuedBase D * CmdDispatcher) CdOut (option (call MsgDispatchStatus)) :=
  match o with
  | OpCall c => _ ← async_invoke c; mret None
  | OpDispatch => r ← do_dispatch (H0 := dispatcher_dispatch w) NonBlocking; mret (Some r)
  end.
End dispatcher.

(** * The specification: calls in arrival order *)

Section spec.
Context `{BuildProfile} (w : CdPorts) (dep : nat).

Definition spec_step (o : active_op)
    : CompM (list async_call * CmdDispatcher) CdOut (option (call MsgDispatchStatus)) := λ '(pend, s),
  match o with
  | OpCall c =>
      if decide (length pend < dep) then Ret (None, (pend ++ [c], s), [])
      else match c with
           | CallSeqCmdBuff _ data ctx =>
               '(_, s', outs) ← seq_cmd_buff_overflow_hook data ctx s; Ret (None, (pend, s'), outs)
           | _ => Panic
           end
  | OpDispatch =>
      match pend with
      | [] => Ret (Some (Returned MdEmpty), ([], s), [])
      | c :: pend' => '(_, s', outs) ← handler_of w c s; Ret (Some (Returned MdOk), (pend', s'), outs)
      end
  end.
End spec.

(** Runs, with the answers of every operation. *)
Fixpoint run_steps {X St Out A : Type} (step : X → CompM St Out A) (os : list X) : CompM St Out (list A) :=
  match os with
  | [] => mret []
  | o :: os' => a ← step o; l ← run_steps step os'; mret (a :: l)
  end.

(** * Refinement *)

(** Messages of one priority leave in arrival order. *)
Lemma take_best_fifo x l : Forall (λ y, y.1 = x.1) l → take_best (x :: l) = Some (x, l).
Proof.
  intros Hl. cbn. destruct (take_best l) as [[y r]|] eqn:E.
  - apply take_best_spec in E as (l1 & l2 & -> & -> & _). apply Forall_app in Hl as [_ Hl].
    apply Forall_cons in Hl as [Hy _]. rewrite Hy, Z.ltb_irrefl. done.
  - by apply take_best_None in E as ->.
Qed.

(** The view a received message is read from. *)
Lemma view_ok scratch bs :
  Forall is_byte scratch → Forall is_byte bs → length bs ≤ length scratch →
  ∃ view, ext_buf_with_len (splice 0 bs scratch) (length bs) = Ret view ∧ wf view ∧ remaining_slice view = bs.
Proof.
  intros Hs Hb Hl. unfold ext_buf_with_len. rewrite length_splice by done.
  rewrite bool_decide_eq_true_2 by done. eexists. split; [done|].
  split; [|unfold remaining_slice, as_slice; cbn; by apply (take_splice 0); lia].
  split_and!; cbn; [lia|unfold capacity; cbn; by rewrite length_splice|by apply Forall_splice].
Qed.

(** The calls of a queued component: their messages, which fit [msize] bytes,
    and the handlers that receiving one of them runs. *)
Class QueuedCalls (C St Out : Type) `{ComponentDispatch St Out} (msize : nat) : Type := {
  qc_ok : C → Prop;
  qc_bytes : C → list Z;
  qc_handler : C → CompM St Out unit;
  qc_fits c : qc_ok c → Forall is_byte (qc_bytes c) ∧ length (qc_bytes c) ≤ msize;
  qc_received c view s : qc_ok c → wf view → remaining_slice view = qc_bytes c →
    ∃ t, read_msg_type view = (SOk t, advanced 4 view) ∧ t ≠ EXIT_MSG_TYPE ∧
      component_dispatch t (advanced 4 view) s = (qc_handler c ≫= λ _, mret MdOk) s;
}.

Section calls.
Context {C St Out : Type} {Disp : ComponentDispatch St Out} {msize : nat} {QC : QueuedCalls C St Out msize}.
Context `{QueueLaws D} (dep : nat) (prio : Z).

(** The queue holds the pending calls; [n] calls were queued so far. *)
Record holds (qb : QueuedBase D) (pend : list C) (n : Z) : Prop := {
  holds_queue : ∃ p, queue_repr dep msize (qb_queue qb) p ∧
    queued p = (λ c, (prio, qc_bytes c)) <$> pend ∧ (0 ≤ sent_count p ≤ n)%Z;
  holds_calls : Forall qc_ok pend;
  holds_scratch : length (msg_buffer qb) = msize ∧ Forall is_byte (msg_buffer qb);
}.

(** The component's thread: nothing to do, or the oldest call runs. *)
Lemma dispatch_empty qb s n :
  holds qb [] n → ∃ qb', do_dispatch NonBlocking (qb, s)
    = Ret (Returned MdEmpty, (qb', s), []) ∧ holds qb' [] n.
Proof.
  intros [(p & Hp & Hq & Hn) Hc [Hl Hb]].
  destruct (receive_ok dep msize (qb_queue qb) p (msg_buffer qb) NonBlocking Hp ltac:(lia)) as (q' & E & Hr).
  unfold do_dispatch. rewrite E. unfold spec_receive in *. rewrite Hq in *. cbn in *.
  eexists. split; [done|]. split; [|done|done]. by exists p.
Qed.

Lemma dispatch_call_runs qb c pend s n :
  holds qb (c :: pend) n → ∃ qb', holds qb' pend n ∧
    do_dispatch NonBlocking (qb, s)
      = '(_, s', outs) ← (qc_handler c s : outcome _); Ret (Returned MdOk, (qb', s'), outs).
Proof.
  intros [(p & Hp & Hq & Hn) Hc [Hl Hb]]. apply Forall_cons in Hc as [Hc Hcs].
  destruct (qc_fits c Hc) as [Hby Hlen].
  destruct (receive_ok dep msize (qb_queue qb) p (msg_buffer qb) NonBlocking Hp ltac:(lia)) as (q' & E & Hr).
  assert (take_best (queued p) = Some ((prio, qc_bytes c), (λ c, (prio, qc_bytes c)) <$> pend)) as Et.
  { rewrite Hq. apply take_best_fifo. apply Forall_fmap. by apply Forall_true. }
  unfold spec_receive in *. rewrite Et in *. cbn [fst snd] in *.
  destruct (view_ok (msg_buffer qb) (qc_bytes c) Hb Hby ltac:(lia)) as (view & Ev & Hv & Hrem).
  destruct (qc_received c view s Hc Hv Hrem) as (t & E1 & Hne & E2).
  exists (MkQueued q' (msgs_dropped qb) (splice 0 (qc_bytes c) (msg_buffer qb))). split.
  - split; cbn [qb_queue msg_buffer]; [|done|split; [rewrite length_splice; lia|by apply Forall_splice]]. by eexists.
  - unfold do_dispatch. rewrite E. cbn [mbind outcome_bind]. rewrite Ev. cbn [mbind outcome_bind]. rewrite E1, decide_False by done.
    rewrite E2. unfold mbind at 2, CompM_bind.
    destruct (qc_handler c s) as [[[[] s'] outs]|]; [|done]. cbn. by rewrite app_nil_r.
Qed.

(** A sender: the message is queued, or the queue is full. *)
Lemma send_call qb pend n c msg policy :
  holds qb pend n → qc_ok c → (n < 2 ^ 64 - 1)%Z → policy = PolicyAssert ∨ policy = PolicyHook →
  as_slice msg = qc_bytes c →
  if decide (length pend < dep) then
    ∃ qb', send_message msg prio policy qb = Ret (Returned OpOk, qb') ∧ holds qb' (pend ++ [c]) (n + 1)
  else match policy with
       | PolicyHook => ∃ qb', send_message msg prio policy qb = Ret (Returned Full, qb') ∧ holds qb' pend (n + 1)
       | _ => send_message msg prio policy qb = Panic
       end.
Proof.
  intros [(p & Hp & Hq & Hn) Hcs Hscr] Hc Hlt Hpol Hmsg. destruct (qc_fits c Hc) as [Hby Hlen].
  unfold send_message. replace (match policy with PolicyBlock => Blocking | _ => NonBlocking end) with NonBlocking
    by (destruct Hpol as [->| ->]; done).
  destruct (send_ok dep msize (qb_queue qb) p (qc_bytes c) prio NonBlocking Hp Hby ltac:(lia))
    as (q' & E & Hr).
  unfold send_serial. rewrite Hmsg, E.
  assert (length (queued p) = length pend) as Hlq by (by rewrite Hq, length_fmap).
  assert (spec_send dep msize (qc_bytes c) prio NonBlocking p =
    if decide (length pend < dep) then
      (Returned OpOk, Pending (queued p ++ [(prio, qc_bytes c)]) (peak_count p `max` S (length (queued p))) (sent_count p + 1))
    else (Returned Full, p)) as Hspec.
  { unfold spec_send. rewrite decide_False, Hlq by lia. do 2 case_decide; done || lia. }
  rewrite Hspec in *. destruct (decide (length pend < dep)) as [Hroom|Hfull]; cbn [fst snd mbind outcome_bind] in *.
  - exists (MkQueued q' (msgs_dropped qb) (msg_buffer qb)). split.
    + destruct Hpol as [->| ->]; [by rewrite bool_decide_eq_true_2|].
      rewrite decide_False by done. by rewrite bool_decide_eq_true_2.
    + split; cbn [qb_queue msg_buffer]; [|apply Forall_app; by split; [|constructor]|done].
      eexists. split; [done|]. cbn. rewrite Hq, fmap_app. split; [done|lia].
  - assert (holds (MkQueued q' (msgs_dropped qb) (msg_buffer qb)) pend (n + 1)) as Hh.
    { split; cbn [qb_queue msg_buffer]; [|done|done]. exists p. split; [done|]. split; [done|lia]. }
    destruct Hpol as [->| ->]; [done|]. eexists. split; [|done]. by rewrite decide_True.
Qed.

Lemma holds_weaken qb pend n : holds qb pend n → holds qb pend (n + 1).
Proof.
  intros [(p & ? & ? & ?) ? ?]. split; [|done|done]. exists p. split; [done|]. split; [done|lia].
Qed.

Lemma create_queue_holds :
  q_fits (D := D) dep msize → ∃ qb, create_queue (D := D) dep msize QueuedBase_new = Ret qb ∧ holds qb [] 0.
Proof.
  intros Hf. destruct (create_ok (D := D) dep msize Hf) as (q & E & Hr).
  unfold create_queue. cbn [qb_queue QueuedBase_new]. rewrite E. eexists. split; [done|]. split; cbn [qb_queue msg_buffer].
  - by eexists.
  - constructor.
  - rewrite length_replicate. split; [done|]. by apply Forall_replicate.
Qed.
End calls.

#[export] Program Instance dispatcher_calls `{BuildProfile} (w : CdPorts) : @QueuedCalls async_call CmdDispatcher CdOut (dispatcher_dispatch w) QUEUE_MSG_SIZE := {|
  qc_ok := call_ok; qc_bytes := call_bytes; qc_handler := handler_of w |}.
Next Obligation. intros Hp w c Hc. destruct (call_bytes_ok c Hc) as (? & ? & _). done. Qed.
Next Obligation. intros Hp w c view s Hc Hv Hr. exists (call_type c). by apply received_call. Qed.

Section refine.
Context `{BuildProfile} (w : CdPorts) `{QueueLaws D} (dep : nat).
(** The queue of the dispatcher. *)
Local Notation holding := (holds (QC := dispatcher_calls w) dep QUEUE_PRIORITY).

Definition active_op_ok (o : active_op) : Prop := match o with OpCall c => call_ok c | OpDispatch => True end.
#[global] Instance active_op_ok_dec o : Decision (active_op_ok o).
Proof. unfold active_op_ok. destruct o; apply _. Defined.

Lemma step_refines o qb pend s n :
  holding qb pend n → active_op_ok o → (n < 2 ^ 64 - 1)%Z →
  match spec_step w dep o (pend, s) with
  | Panic => active_step w o (qb, s) = Panic
  | Ret (a, (pend', s'), outs) =>
      ∃ qb', active_step w o (qb, s) = Ret (a, (qb', s'), outs) ∧ holding qb' pend' (n + 1)
  end.
Proof.
  intros Hh Ho Hn. destruct o as [c|]; cbn [spec_step active_step].
  - destruct (call_bytes_ok c Ho) as (_ & _ & msg & Em & Hmsg).
    pose proof (λ pol Hpol, send_call (QC := dispatcher_calls w) dep QUEUE_PRIORITY qb pend n c msg pol Hh Ho Hn Hpol Hmsg) as Hsend.
    rewrite (comp_map (async_invoke c) (λ _, None)). unfold async_invoke. rewrite Em. cbn [mbind outcome_bind].
    case_decide as Hroom.
    + destruct c as [| p d x | | |]; [|destruct (Hsend PolicyHook (or_intror eq_refl)) as (qb' & E & Hh')|..];
        try destruct (Hsend PolicyAssert (or_introl eq_refl)) as (qb' & E & Hh');
        exists qb'; rewrite E; done.
    + destruct c as [| p d x | | |]; [|destruct (Hsend PolicyHook (or_intror eq_refl)) as (qb' & E & Hh')|..];
        try (by rewrite (Hsend PolicyAssert (or_introl eq_refl))).
      rewrite E. cbn [mbind outcome_bind]. unfold on_component.
      destruct (seq_cmd_buff_overflow_hook d x s) as [[[[] s'] outs]|]; cbn [mbind outcome_bind]; [|done]. by exists qb'.
  - rewrite comp_map. destruct pend as [|c pend]; cbn [spec_step].
    + destruct (dispatch_empty (QC := dispatcher_calls w) dep QUEUE_PRIORITY qb s n Hh) as (qb' & -> & Hh'). exists qb'. split; [done|by apply (holds_weaken (QC := dispatcher_calls w))].
    + destruct (dispatch_call_runs (QC := dispatcher_calls w) dep QUEUE_PRIORITY qb c pend s n Hh) as (qb' & Hh' & ->).
      cbn [qc_handler dispatcher_calls]. destruct (handler_of w c s) as [[[[] s'] outs]|]; cbn; [|done].
      exists qb'. split; [done|by apply (holds_weaken (QC := dispatcher_calls w))].
Qed.

Lemma run_refines os qb pend s n :
  holding qb pend n → Forall active_op_ok os → (n + Z.of_nat (length os) < 2 ^ 64)%Z →
  match run_steps (spec_step w dep) os (pend, s) with
  | Panic => run_steps (active_step w) os (qb, s) = Panic
  | Ret (l, (pend', s'), outs) =>
      ∃ qb', run_steps (active_step w) os (qb, s) = Ret (l, (qb', s'), outs)
  end.
Proof.
  intros Hh Hos. revert qb pend s n Hh. induction Hos as [|o os Ho _ IH]; intros qb pend s n Hh Hn; cbn [length] in *.
  { cbn. by exists qb. }
  pose proof (step_refines o qb pend s n Hh Ho ltac:(lia)) as Hstep. cbn [run_steps].
  unfold mbind, CompM_bind. destruct (spec_step w dep o (pend, s)) as [[[a [pend1 s1]] o1]|]; [|by rewrite Hstep].
  destruct Hstep as (qb1 & -> & Hh1). specialize (IH qb1 pend1 s1 (n + 1)%Z Hh1 ltac:(lia)).
  destruct (run_steps (spec_step w dep) os (pend1, s1)) as [[[l [pend2 s2]] o2]|]; [|by rewrite IH].
  destruct IH as [qb2 ->]. by exists qb2.
Qed.
End refine.

(** * Guarantees *)

(** C4. The queued command dispatcher is its calls in arrival order. The
    queue's creation panics exactly for the depths that do not fit
    ([queue_fits]: zero, or a slab or heap over [isize::MAX] bytes). For
    every other queue depth, every interleaving of asynchronous port calls by the
    senders with the dispatch turns of the component's thread, over the
    serialized messages, the priority queue and the receive scratch buffer,
    answers, changes the component and emits exactly as a bounded FIFO of the
    calls themselves: a dispatch runs the handler of the oldest call with the
    arguments of that call, a call on a full queue runs the overflow hook
    ([seqCmdBuff]) or panics (all other ports), and nothing else panics. *)
Theorem active_dispatcher_refines_calls `{BuildProfile} (w : CdPorts) (dep : nat) (os : list active_op)
    (s : CmdDispatcher) :
  Forall active_op_ok os → (Z.of_nat (length os) < 2 ^ 64)%Z →
  if decide (queue_fits dep QUEUE_MSG_SIZE) then ∃ qb0, create_queue (D := PriorityQueue) dep QUEUE_MSG_SIZE QueuedBase_new = Ret qb0 ∧
    match run_steps (spec_step w dep) os ([], s) with
    | Panic => run_steps (active_step w) os (qb0, s) = Panic
    | Ret (l, (pend', s'), outs) => ∃ qb', run_steps (active_step w) os (qb0, s) = Ret (l, (qb', s'), outs)
    end
  else create_queue (D := PriorityQueue) dep QUEUE_MSG_SIZE QueuedBase_new = Panic.
Proof.
  intros Hos Hn. case_decide as Hf.
  2: { unfold create_queue. cbn [qb_queue QueuedBase_new]. by rewrite create_panics. }
  destruct (create_queue_holds (QC := dispatcher_calls w) (D := PriorityQueue) dep QUEUE_PRIORITY) as (qb0 & E & Hh); [exact Hf|].
  exists qb0. split; [done|]. by apply (run_refines w dep os qb0 [] s 0).
Qed.

Lemma active_dispatcher_refines_calls_witness :
  let w := MkPorts (replicate 30 true) (replicate 5 true) true true 0x500 in
  let os := [OpCall (CallPing 0 42); OpCall (CallSeqCmdBuff 1 (SerBuf [0; 0; 0; 0; 1; 0]%Z 6 0) 77); OpDispatch;
             OpCall (CallRun 0 0); OpDispatch; OpDispatch; OpDispatch] in
  ∃ qb0, create_queue (D := PriorityQueue) 1 QUEUE_MSG_SIZE QueuedBase_new = Ret qb0 ∧
    match run_steps (spec_step (H := true) w 1) os ([], CmdDispatcher_new) with
    | Panic => run_steps (active_step (H := true) w) os (qb0, CmdDispatcher_new) = Panic
    | Ret (l, (pend', s'), outs) =>
        ∃ qb', run_steps (active_step (H := true) w) os (qb0, CmdDispatcher_new) = Ret (l, (qb', s'), outs)
    end.
Proof.
  intros w os. apply (active_dispatcher_refines_calls (H := true) w 1 os); [fp_decide|reflexivity].
Defined.
