(* ===== verification/Escrow.v ===== *)
(** The buffer escrow, [crates/fprime-comp/src/escrow.rs]: an owned buffer
    rides a byte message as a token.  Slots are recycled through a free list,
    a generation counter retires the tokens of earlier occupants.

    [EscrowedBuffer], the serialized descriptor around a token, is not
    modelled. *)

From stdpp Require Import gmap.
From S2P Require Import Prelude Buffer.

(** * Data and operations *)

Record Slot : Set := MkSlot { generation : Z; slot_buffer : option Buffer }.

(** [free] is a stack whose top is the head of the list. *)
Record BufferEscrow : Set := MkEscrow { slots : list Slot; free : list nat }.

Definition BufferEscrow_new : BufferEscrow := MkEscrow [] [].

Definition token_of (gen : Z) (index : nat) : Z := Z.lor (Z.shiftl gen 32) (Z.of_nat index).

Definition deposit (b : Buffer) (e : BufferEscrow) : outcome (Z * BufferEscrow) :=
  '(index, e') ← match free e with
    | index :: free' =>
        slot ← index_get (slots e) index;
        _ ← fw_assert (bool_decide (slot_buffer slot = None));
        Ret (index, MkEscrow (<[index := MkSlot (generation slot) (Some b)]> (slots e)) free')
    | [] => Ret (length (slots e), MkEscrow (slots e ++ [MkSlot 0 (Some b)]) [])
    end;
  slot ← index_get (slots e') index;
  Ret (token_of (generation slot) index, e').

Definition claim (token : Z) (e : BufferEscrow) : outcome (Buffer * BufferEscrow) :=
  let index := Z.to_nat (Z.land token 0xFFFFFFFF) in
  let gen := wrap 32 (Z.shiftr token 32) in
  _ ← fw_assert (bool_decide (index < length (slots e)));
  slot ← index_get (slots e) index;
  _ ← fw_assert (generation slot =? gen)%Z;
  match slot_buffer slot with
  | None => Panic
  | Some b =>
      Ret (b, MkEscrow (<[index := MkSlot (wrap 32 (generation slot + 1)) None]> (slots e)) (index :: free e))
  end.

Definition escrow_len (e : BufferEscrow) : nat := length (omap slot_buffer (slots e)).

(** * The specification: a map from tokens to buffers *)

(** Slots are addressable by the low half of a token, the free list names
    exactly the empty ones, once. *)
Record escrow_ok (e : BufferEscrow) : Prop := {
  escrow_small : (Z.of_nat (length (slots e)) < 2 ^ 32)%Z;
  escrow_gen : Forall (λ s, is_u 32 (generation s)) (slots e);
  escrow_free : ∀ i, i ∈ free e ↔ ∃ s, slots e !! i = Some s ∧ slot_buffer s = None;
  escrow_nodup : NoDup (free e);
}.

(** The buffer a token stands for. *)
Definition escrow_lookup (e : BufferEscrow) (token : Z) : option Buffer :=
  if decide (is_u 64 token) then
    s ← slots e !! Z.to_nat (token mod 2 ^ 32);
    if decide (generation s = token / 2 ^ 32)%Z then slot_buffer s else None
  else None.

(** * Lemmas *)

Lemma token_split gen i :
  is_u 32 gen → (Z.of_nat i < 2 ^ 32)%Z →
  is_u 64 (token_of gen i) ∧ (token_of gen i mod 2 ^ 32)%Z = Z.of_nat i ∧ (token_of gen i / 2 ^ 32)%Z = gen.
Proof.
  intros Hg Hi. unfold token_of. rewrite shift_or by lia. split_and!.
  - unfold is_u in *. split; nia.
  - rewrite Z.add_comm, Z.mod_add, Z.mod_small by lia. done.
  - rewrite Z.add_comm, Z.div_add, Z.div_small by lia. done.
Qed.

Lemma token_join token :
  is_u 64 token →
  Z.to_nat (Z.land token 0xFFFFFFFF) = Z.to_nat (token mod 2 ^ 32) ∧ wrap 32 (Z.shiftr token 32) = (token / 2 ^ 32)%Z.
Proof.
  intros Ht. change 0xFFFFFFFF%Z with (Z.ones 32). rewrite Z.land_ones, Z.shiftr_div_pow2 by lia.
  split; [done|]. apply wrap_small. unfold is_u in *. split; [apply Z.div_pos; lia|]. apply Z.div_lt_upper_bound; lia.
Qed.

Lemma tokens_eq t t' :
  is_u 64 t → is_u 64 t' → (t mod 2 ^ 32 = t' mod 2 ^ 32)%Z → (t / 2 ^ 32 = t' / 2 ^ 32)%Z → t = t'.
Proof. intros _ _ Hm Hd. rewrite (Z.div_mod t (2 ^ 32)), (Z.div_mod t' (2 ^ 32)) by lia. lia. Qed.

(** Changing one slot changes the tokens of that slot only. *)
Lemma escrow_lookup_alter e i s f t :
  i < length (slots e) →
  escrow_lookup (MkEscrow (<[i := s]> (slots e)) f) t =
    if decide (Z.to_nat (t mod 2 ^ 32) = i) then
      if decide (is_u 64 t ∧ generation s = t / 2 ^ 32)%Z then slot_buffer s else None
    else escrow_lookup e t.
Proof.
  intros Hi. unfold escrow_lookup. cbn [slots]. destruct (decide (is_u 64 t)) as [Ht|Ht].
  2: { repeat case_decide; naive_solver. }
  case_decide as E.
  - rewrite <-E, list_lookup_insert_eq by lia. cbn. repeat case_decide; naive_solver.
  - by rewrite list_lookup_insert_ne by congruence.
Qed.

Lemma escrow_lookup_token e i s gen :
  slots e !! i = Some s → is_u 32 (generation s) → (Z.of_nat i < 2 ^ 32)%Z → is_u 32 gen →
  escrow_lookup e (token_of gen i) = if decide (generation s = gen) then slot_buffer s else None.
Proof.
  intros Hs Hg Hi Hgen. destruct (token_split gen i Hgen Hi) as (H1 & H2 & H3).
  unfold escrow_lookup. by rewrite decide_True, H2, Nat2Z.id, Hs, H3 by done.
Qed.

Lemma escrow_ok_new : escrow_ok BufferEscrow_new.
Proof.
  split; cbn; [lia|constructor| |constructor]. intros i. rewrite elem_of_nil. split; [done|]. by intros (s & ? & _).
Qed.

(** What a deposit under the token [t] does. *)
Definition deposited (b : Buffer) (e : BufferEscrow) (t : Z) (e' : BufferEscrow) : Prop :=
  escrow_ok e' ∧ is_u 64 t ∧ escrow_lookup e t = None ∧
  (∀ t', escrow_lookup e' t' = if decide (t' = t) then Some b else escrow_lookup e t') ∧
  length (slots e') ≤ S (length (slots e)).

(** No free slot: a new one at the end. *)
Lemma deposit_grow b e :
  escrow_ok e → (Z.of_nat (length (slots e)) < 2 ^ 32 - 1)%Z → free e = [] →
  ∃ t e', deposit b e = Ret (t, e') ∧ deposited b e t e'.
Proof.
  intros [Hsm Hg Hf Hnd] Hl Ef. unfold deposit. rewrite Ef in *.
  cbn [mbind outcome_bind slots]. rewrite (index_get_ok _ _ (MkSlot 0 (Some b))) by (by rewrite lookup_app_r, Nat.sub_diag).
  cbn [mbind outcome_bind generation]. eexists _, _. split; [done|].
  assert (is_u 32 0) as H0 by done.
  destruct (token_split 0 (length (slots e)) H0 ltac:(lia)) as (Ht1 & Ht2 & Ht3).
  assert (escrow_lookup e (token_of 0 (length (slots e))) = None) as Hnone.
  { unfold escrow_lookup. rewrite decide_True, Ht2, Nat2Z.id by done. by rewrite lookup_ge_None_2. }
  split_and!; [|done|done| |cbn; rewrite length_app; cbn; lia].
  + split; cbn [slots free]; [rewrite length_app; cbn; lia|apply Forall_app; split; [done|by constructor]| |constructor].
    intros j. rewrite elem_of_nil. split; [done|]. intros (s & Hs & Hb).
    apply lookup_app_Some in Hs as [Hs|[_ [_ Hs]%list_lookup_singleton_Some]]; [|by subst].
    assert (j ∈ @nil nat) as []%elem_of_nil. apply Hf. by exists s.
  + intros t'. unfold escrow_lookup at 1. cbn [slots]. case_decide as Ht'.
    2: { rewrite decide_False; [|congruence]. unfold escrow_lookup. by rewrite decide_False. }
    destruct (decide (Z.to_nat (t' mod 2 ^ 32) < length (slots e))) as [Hlt|Hge].
    * rewrite lookup_app_l by done. rewrite decide_False; [unfold escrow_lookup; by rewrite decide_True|].
      intros ->. rewrite Ht2, Nat2Z.id in Hlt. lia.
    * rewrite lookup_app_r by lia. destruct (decide (t' = token_of 0 (length (slots e)))) as [->|Hne].
      { rewrite Ht2, Nat2Z.id, Nat.sub_diag. cbn. by rewrite decide_True by (by rewrite Ht3). }
      unfold escrow_lookup. rewrite decide_True by done. rewrite (lookup_ge_None_2 (slots e)) by lia. cbn.
      destruct (Z.to_nat (t' mod 2 ^ 32) - length (slots e)) eqn:Ed; [|done]. cbn.
      rewrite decide_False; [done|]. intros Hz. apply Hne, tokens_eq; [done|done| |congruence].
      rewrite Ht2. assert (0 ≤ t' mod 2 ^ 32)%Z by (apply Z.mod_pos_bound; lia). lia.
Qed.

(** The top of the free list is reused. *)
Lemma deposit_reuse b e i fr :
  escrow_ok e → free e = i :: fr → ∃ t e', deposit b e = Ret (t, e') ∧ deposited b e t e'.
Proof.
  intros [Hsm Hg Hf Hnd] Ef. unfold deposit. rewrite Ef in *.
  assert (i ∈ i :: fr) as Hi by (by left). apply Hf in Hi as (s & Hs & Hb).
  pose proof (lookup_lt_Some _ _ _ Hs) as Hlt. pose proof (Forall_lookup_1 _ _ _ _ Hg Hs) as Hgs.
  rewrite (index_get_ok _ _ _ Hs). cbn [mbind outcome_bind]. rewrite bool_decide_eq_true_2 by done.
  cbn [mbind outcome_bind fw_assert slots]. erewrite index_get_ok by (apply list_lookup_insert_eq; done).
  cbn [mbind outcome_bind generation]. eexists _, _. split; [done|].
  destruct (token_split (generation s) i Hgs ltac:(lia)) as (Ht1 & Ht2 & Ht3).
  split_and!; [|done| | |cbn; rewrite length_insert; lia].
  + rewrite NoDup_cons in Hnd. destruct Hnd as [Hni Hnd].
    split; cbn [slots free]; [by rewrite length_insert|by apply Forall_insert| |done].
    intros j. destruct (decide (j = i)) as [->|Hj].
    * split; [done|]. intros (s' & Hs' & Hb'). rewrite list_lookup_insert_eq in Hs' by done. by injection Hs' as <-.
    * rewrite list_lookup_insert_ne by done. rewrite <-Hf, elem_of_cons. naive_solver.
  + rewrite (escrow_lookup_token _ _ s) by (done || lia). by rewrite decide_True.
  + intros t'. rewrite escrow_lookup_alter by done. cbn [generation slot_buffer].
    destruct (decide (t' = token_of (generation s) i)) as [->|Hne].
    { by rewrite decide_True, decide_True by (by rewrite ?Ht2, ?Nat2Z.id). }
    case_decide as E; [|done]. rewrite decide_False.
    * unfold escrow_lookup. case_decide; [|done]. rewrite E, Hs. cbn. case_decide; [done|done].
    * intros [Hu Hgen]. apply Hne, tokens_eq; [done|done| |congruence]. rewrite Ht2.
      assert (0 ≤ t' mod 2 ^ 32)%Z by (apply Z.mod_pos_bound; lia). lia.
Qed.

Lemma deposit_ok b e :
  escrow_ok e → (Z.of_nat (length (slots e)) < 2 ^ 32 - 1)%Z →
  ∃ t e', deposit b e = Ret (t, e') ∧ deposited b e t e'.
Proof.
  intros He Hl. destruct (free e) as [|i fr] eqn:Ef; [by apply deposit_grow|by eapply deposit_reuse].
Qed.

(** The tokens of the slots. *)
Definition slot_tokens (e : BufferEscrow) : list Z := imap (λ i s, token_of (generation s) i) (slots e).

Lemma slot_tokens_lookup e i s :
  escrow_ok e → slots e !! i = Some s → escrow_lookup e (token_of (generation s) i) = slot_buffer s.
Proof.
  intros [Hsm Hg _ _] Hs. pose proof (lookup_lt_Some _ _ _ Hs). pose proof (Forall_lookup_1 _ _ _ _ Hg Hs) as Hgs.
  by rewrite (escrow_lookup_token e i s), decide_True by (done || lia).
Qed.

Lemma slot_tokens_nodup e : escrow_ok e → NoDup (slot_tokens e).
Proof.
  intros [Hsm Hg _ _]. apply NoDup_alt. intros i j t. unfold slot_tokens.
  rewrite !list_lookup_imap, !fmap_Some. intros (s & Hs & ->) (s' & Hs' & E).
  pose proof (lookup_lt_Some _ _ _ Hs). pose proof (lookup_lt_Some _ _ _ Hs').
  destruct (token_split (generation s) i) as (_ & Hi & _); [by apply (Forall_lookup_1 _ _ _ _ Hg Hs)|lia|].
  destruct (token_split (generation s') j) as (_ & Hj & _); [by apply (Forall_lookup_1 _ _ _ _ Hg Hs')|lia|].
  rewrite E in Hi. lia.
Qed.

Lemma slot_tokens_complete e t b : escrow_ok e → escrow_lookup e t = Some b → t ∈ slot_tokens e.
Proof.
  intros [Hsm Hg _ _]. unfold escrow_lookup. case_decide as Ht; [|done].
  destruct (slots e !! _) as [s|] eqn:Hs; cbn; [|done]. case_decide as Hgen; [|done]. intros _.
  apply list_elem_of_lookup. exists (Z.to_nat (t mod 2 ^ 32)). unfold slot_tokens. rewrite list_lookup_imap, Hs. cbn. f_equal.
  assert (0 ≤ t mod 2 ^ 32 < 2 ^ 32)%Z by (apply Z.mod_pos_bound; lia).
  destruct (token_split (generation s) (Z.to_nat (t mod 2 ^ 32))) as (H1 & H2 & H3); [by apply (Forall_lookup_1 _ _ _ _ Hg Hs)|lia|].
  apply tokens_eq; [done|done|rewrite H2; lia|congruence].
Qed.

(** With no slot free, the slots are no more than the tokens in use. *)
Lemma escrow_slots_held e T :
  escrow_ok e → free e = [] → (∀ t b, escrow_lookup e t = Some b → t ∈ T) → length (slots e) ≤ length T.
Proof.
  intros He Ef HT. rewrite <-(length_imap (λ i s, token_of (generation s) i)).
  apply submseteq_length, NoDup_submseteq; [by apply slot_tokens_nodup|].
  intros t (i & Hi)%list_elem_of_lookup. rewrite list_lookup_imap in Hi. apply fmap_Some in Hi as (s & Hs & ->).
  pose proof (slot_tokens_lookup e i s He Hs) as Hl. destruct (slot_buffer s) as [b|] eqn:Eb; [by eapply HT|].
  assert (i ∈ free e) as Hi by (apply (escrow_free _ He); by exists s). rewrite Ef in Hi. by apply elem_of_nil in Hi.
Qed.

(** The buffers in escrow are those the tokens in use stand for. *)
Lemma omap_imap_shift {A B C} (f : nat → A → B) (g : B → option C) (h : A → option C) (l : list A) k :
  (∀ i x, l !! i = Some x → g (f (k + i) x) = h x) → omap g (imap (λ i, f (k + i)) l) = omap h l.
Proof.
  revert k. induction l as [|x l IH]; intros k H; [done|]. rewrite imap_cons. cbn [omap list_omap].
  rewrite (H 0 x eq_refl). erewrite (imap_ext (_ ∘ S)); [rewrite (IH (S k))|].
  - done.
  - intros i y Hy. rewrite Nat.add_succ_l, <-Nat.add_succ_r. by apply H.
  - intros i y _. cbn. by rewrite Nat.add_succ_r.
Qed.

Lemma escrow_contents e T B :
  escrow_ok e → NoDup T → Forall2 (λ t b, escrow_lookup e t = Some b) T B →
  (∀ t b, escrow_lookup e t = Some b → t ∈ T) → omap slot_buffer (slots e) ≡ₚ B.
Proof.
  intros He Hnd HTB Honly.
  rewrite <-(omap_imap_shift (λ i s, token_of (generation s) i) (escrow_lookup e) _ _ 0)
    by (intros i s; by apply slot_tokens_lookup). cbn [Nat.add]. fold (slot_tokens e).
  assert (omap (escrow_lookup e) T = B) as <-.
  { clear -HTB. induction HTB as [|t b T B E _ IH]; cbn; [done|]. by rewrite E, IH. }
  assert (filter (λ t, is_Some (escrow_lookup e t)) (slot_tokens e) ≡ₚ T) as HP.
  { apply NoDup_Permutation; [by apply NoDup_filter, slot_tokens_nodup|done|]. intros t. rewrite list_elem_of_filter. split.
    - intros [[b Hb] _]. by eapply Honly.
    - intros (i & Hi)%list_elem_of_lookup. destruct (Forall2_lookup_l _ _ _ _ _ HTB Hi) as (b & _ & Hb).
      split; [by exists b|by eapply slot_tokens_complete]. }
  rewrite <-HP. clear. induction (slot_tokens e) as [|t l IH]; [done|]. rewrite filter_cons. cbn.
  case_decide as Hd; [|destruct (escrow_lookup e t); [by destruct Hd|done]]. cbn. destruct (escrow_lookup e t); [by rewrite IH|done].
Qed.

(** So the slots stay bounded by the greatest number of tokens in use. *)
Lemma deposit_bounded b e T n :
  escrow_ok e → (∀ t b', escrow_lookup e t = Some b' → t ∈ T) → length T ≤ n → length (slots e) ≤ S n →
  (Z.of_nat n < 2 ^ 32 - 2)%Z →
  ∃ t e', deposit b e = Ret (t, e') ∧ deposited b e t e' ∧ length (slots e') ≤ S n.
Proof.
  intros He HT Hn Hs Hz. destruct (deposit_ok b e He ltac:(lia)) as (t & e' & Ed & Hd).
  exists t, e'. split_and!; [done|done|]. destruct (free e) as [|i fr] eqn:Ef.
  - pose proof (escrow_slots_held e T He Ef HT). destruct Hd as (_ & _ & _ & _ & ?). lia.
  - unfold deposit in Ed. rewrite Ef in Ed. destruct (index_get (slots e) i); [|done]. cbn in Ed.
    destruct (fw_assert _); [|done]. cbn in Ed. destruct (index_get _ i); [|done]. cbn in Ed. injection Ed as _ <-.
    cbn. rewrite length_insert. lia.
Qed.

(** A claim takes out exactly the buffer of its token, or panics. *)
Lemma claim_ok t e :
  escrow_ok e → is_u 64 t →
  match escrow_lookup e t with
  | Some b => ∃ e', claim t e = Ret (b, e') ∧ escrow_ok e' ∧ length (slots e') = length (slots e) ∧
      ∀ t', escrow_lookup e' t' = if decide (t' = t) then None else escrow_lookup e t'
  | None => claim t e = Panic
  end.
Proof.
  intros [Hsm Hg Hf Hnd] Ht. destruct (token_join t Ht) as [H1 H2]. unfold claim. rewrite H1, H2.
  unfold escrow_lookup at 1. rewrite decide_True by done. set (i := Z.to_nat (t mod 2 ^ 32)).
  destruct (slots e !! i) as [s|] eqn:Hs; cbn [mbind option_bind].
  2: { rewrite bool_decide_eq_false_2; [done|]. apply lookup_ge_None in Hs. lia. }
  pose proof (lookup_lt_Some _ _ _ Hs) as Hi. rewrite bool_decide_eq_true_2 by done.
  cbn [mbind outcome_bind fw_assert]. rewrite (index_get_ok _ _ _ Hs). cbn [mbind outcome_bind].
  case_decide as Hgen; [|by rewrite (proj2 (Z.eqb_neq _ _) Hgen)]. rewrite Hgen, Z.eqb_refl.
  cbn [mbind outcome_bind fw_assert]. destruct (slot_buffer s) as [b|] eqn:Hb; [|done].
  eexists. split; [done|]. pose proof (Forall_lookup_1 _ _ _ _ Hg Hs) as Hgs. split_and!.
  - split; cbn [slots free]; [by rewrite length_insert| | |].
    + apply Forall_insert; [done|]. cbn. apply Z.mod_pos_bound. lia.
    + intros j. rewrite elem_of_cons. destruct (decide (j = i)) as [->|Hj].
      * split; [|by left]. intros _. eexists. split; [by apply list_lookup_insert_eq|done].
      * rewrite list_lookup_insert_ne by done. rewrite <-Hf. naive_solver.
    + constructor; [|done]. intros (s' & Hs' & Hb')%Hf. congruence.
  - cbn. by rewrite length_insert.
  - intros t'. rewrite escrow_lookup_alter by done. cbn [generation slot_buffer].
    destruct (decide (t' = t)) as [->|Hne]; [by repeat case_decide|].
    case_decide as E; [|done]. unfold escrow_lookup. rewrite E.
    destruct (decide (is_u 64 t')); [|by repeat case_decide]. fold i in Hs. rewrite Hs. cbn.
    rewrite (decide_False (P := generation s = _)); [by repeat case_decide|].
    intros Hg'. apply Hne, tokens_eq; [done|done| |congruence].
    assert (0 ≤ t' mod 2 ^ 32 ∧ 0 ≤ t mod 2 ^ 32)%Z by (split; apply Z.mod_pos_bound; lia). subst i. lia.
Qed.

(** * Guarantees *)

Inductive escrow_op : Set := EDeposit (b : Buffer) | EClaim (token : Z).
Inductive escrow_answer : Set := ADeposited (token : Z) | AClaimed (b : Buffer).

Definition escrow_step (o : escrow_op) (e : BufferEscrow) : outcome (escrow_answer * BufferEscrow) :=
  match o with
  | EDeposit b => '(t, e') ← deposit b e; Ret (ADeposited t, e')
  | EClaim t => '(b, e') ← claim t e; Ret (AClaimed b, e')
  end.

Fixpoint escrow_run (os : list escrow_op) (e : BufferEscrow) : outcome (list escrow_answer * BufferEscrow) :=
  match os with
  | [] => Ret ([], e)
  | o :: os' => '(a, e1) ← escrow_step o e; '(l, e2) ← escrow_run os' e1; Ret (a :: l, e2)
  end.

(** The buffers in escrow after a run with these answers, when the answers
    are right: a deposit answers a token not in use, a claim the buffer of
    its token. *)
Definition held_step (m : gmap Z Buffer) (o : escrow_op) (a : escrow_answer) : option (gmap Z Buffer) :=
  match o, a with
  | EDeposit b, ADeposited t => if decide (m !! t = None) then Some (<[t := b]> m) else None
  | EClaim t, AClaimed b => if decide (m !! t = Some b) then Some (delete t m) else None
  | _, _ => None
  end.

Fixpoint held (m : gmap Z Buffer) (os : list escrow_op) (l : list escrow_answer) : option (gmap Z Buffer) :=
  match os, l with
  | [], [] => Some m
  | o :: os', a :: l' => m' ← held_step m o a; held m' os' l'
  | _, _ => None
  end.

Definition escrow_op_ok (o : escrow_op) : Prop := match o with EClaim t => is_u 64 t | _ => True end.
#[export] Instance escrow_op_ok_dec o : Decision (escrow_op_ok o).
Proof. unfold escrow_op_ok. destruct o; apply _. Defined.

(** The claim of a token that is not in escrow is next. *)
Definition bad_claim_next (m : gmap Z Buffer) (os : list escrow_op) : Prop :=
  ∃ t post, os = EClaim t :: post ∧ m !! t = None.

Lemma escrow_run_ok os e m :
  escrow_ok e → (∀ t, escrow_lookup e t = m !! t) → Forall escrow_op_ok os →
  (Z.of_nat (length (slots e) + length os) < 2 ^ 32)%Z →
  match escrow_run os e with
  | Ret (l, e') => ∃ m', held m os l = Some m' ∧ ∀ t, escrow_lookup e' t = m' !! t
  | Panic => ∃ pre post l m' e', os = pre ++ post ∧ escrow_run pre e = Ret (l, e') ∧ held m pre l = Some m' ∧
      bad_claim_next m' post
  end.
Proof.
  intros He Hm Hos. revert e m He Hm. induction Hos as [|o os Ho _ IH]; intros e m He Hm Hl; cbn [length] in *.
  { cbn. by exists m. }
  assert (∀ a e1 m1, escrow_step o e = Ret (a, e1) → held_step m o a = Some m1 → escrow_ok e1 →
    (∀ t, escrow_lookup e1 t = m1 !! t) → length (slots e1) ≤ S (length (slots e)) →
    match escrow_run (o :: os) e with
    | Ret (l, e') => ∃ m', held m (o :: os) l = Some m' ∧ ∀ t, escrow_lookup e' t = m' !! t
    | Panic => ∃ pre post l m' e', o :: os = pre ++ post ∧ escrow_run pre e = Ret (l, e') ∧ held m pre l = Some m' ∧
        bad_claim_next m' post
    end) as Hgo.
  { intros a e1 m1 Es Eh He1 Hm1 Hl1. specialize (IH e1 m1 He1 Hm1 ltac:(lia)). cbn [escrow_run]. rewrite Es.
    cbn [mbind outcome_bind]. destruct (escrow_run os e1) as [[l e2]|]; cbn [mbind outcome_bind].
    - destruct IH as (m' & E & ?). exists m'. cbn. by rewrite Eh.
    - destruct IH as (pre & post & l & m' & e' & -> & E & E' & Hb).
      exists (o :: pre), post, (a :: l), m', e'. split_and!; [done| | |done]; cbn.
      + by rewrite Es; cbn; rewrite E.
      + by rewrite Eh. }
  destruct o as [b|t].
  - destruct (deposit_ok b e He ltac:(lia)) as (t & e1 & Ed & He1 & Ht & Hn & Hlk & Hlen).
    apply (Hgo (ADeposited t) e1 (<[t := b]> m)); try done.
    + cbn. by rewrite Ed.
    + cbn. rewrite decide_True; [done|]. by rewrite <-Hm.
    + intros t'. rewrite Hlk. destruct (decide (t' = t)) as [->|]; [by rewrite lookup_insert_eq|].
      by rewrite lookup_insert_ne.
  - pose proof (claim_ok t e He Ho) as Hc. rewrite Hm in Hc. destruct (m !! t) as [b|] eqn:Hmt.
    + destruct Hc as (e1 & Ec & He1 & Hlen & Hlk). apply (Hgo (AClaimed b) e1 (delete t m)); try done; [| | |lia].
      * cbn. by rewrite Ec.
      * cbn. by rewrite decide_True.
      * intros t'. rewrite Hlk. destruct (decide (t' = t)) as [->|]; [by rewrite lookup_delete_eq|].
        by rewrite lookup_delete_ne.
    + cbn [escrow_run escrow_step]. rewrite Hc. cbn [mbind outcome_bind].
      exists [], (EClaim t :: os), [], m, e. split_and!; try done. by eexists _, _.
Qed.

(** The escrow is a map from tokens to buffers: over any sequence of
    fewer than 2^32 deposits and claims, with arbitrary 64-bit tokens, every
    deposit answers a token that stands for nothing else, every claim of a
    token in escrow hands out exactly the buffer deposited under it and
    retires the token, and the only failure is the claim of a token that is
    not in escrow (never issued, or claimed before). *)
Theorem escrow_is_token_map (os : list escrow_op) :
  Forall escrow_op_ok os → (Z.of_nat (length os) < 2 ^ 32)%Z →
  match escrow_run os BufferEscrow_new with
  | Ret (l, e') => ∃ m', held ∅ os l = Some m' ∧ ∀ t, escrow_lookup e' t = m' !! t
  | Panic => ∃ pre post l m' e', os = pre ++ post ∧ escrow_run pre BufferEscrow_new = Ret (l, e') ∧
      held ∅ pre l = Some m' ∧ bad_claim_next m' post
  end.
Proof.
  intros Hos Hl. apply escrow_run_ok; [apply escrow_ok_new| |done|done].
  intros t. rewrite lookup_empty. unfold escrow_lookup. by case_decide.
Qed.

Lemma escrow_is_token_map_witness :
  let os := [EDeposit (from_storage [1]%Z 1); EDeposit (from_storage [2]%Z 2); EClaim 0;
             EDeposit (from_storage [3]%Z 3); EClaim 0] in
  match escrow_run os BufferEscrow_new with
  | Ret (l, e') => ∃ m', held ∅ os l = Some m' ∧ ∀ t, escrow_lookup e' t = m' !! t
  | Panic => ∃ pre post l m' e', os = pre ++ post ∧ escrow_run pre BufferEscrow_new = Ret (l, e') ∧
      held ∅ pre l = Some m' ∧ bad_claim_next m' post
  end.
Proof.
  intros os. apply (escrow_is_token_map os); [fp_decide|reflexivity].
Defined.
