(* ===== verification/ComQueue.v ===== *)
(** The downlink queue [Svc::ComQueue],
    [crates/fprime-svc/src/com_queue.rs]: prioritized queues with one
    outstanding send.

    Com queues hold fixed-size records of packet bytes, buffer queues hold
    escrow tokens.  [dataReturnIn] runs on the returning caller's thread and
    touches only the ownership flag and the recycled storage, so a return
    during the send commutes with the rest of the handler and is a step of
    its own here.  The adapters that queue the asynchronous calls are not
    modelled here. *)

From S2P Require Import Prelude Serial SerialFacts Codec Fpp Packets Buffer CircularBuffer MsgQueue Escrow Comp.

(** * Data *)

Definition COM_PORT_COUNT : nat := 2.
Definition BUFFER_PORT_COUNT : nat := 1.
Definition TOTAL_PORT_COUNT : nat := COM_PORT_COUNT + BUFFER_PORT_COUNT.
Definition COM_RECORD_SIZE : nat := 2 + FW_COM_BUFFER_MAX_SIZE.
Definition BUFFER_RECORD_SIZE : nat := 8.
Definition OPCODE_FLUSH_QUEUE : Z := 0.
Definition OPCODE_FLUSH_ALL_QUEUES : Z := 1.
Definition OPCODE_SET_QUEUE_PRIORITY : Z := 2.

Inductive QueueType : Set := TypeComQueue | TypeBufferQueue.
Definition QueueType_try_from (v : Z) : option QueueType :=
  if (v =? 0)%Z then Some TypeComQueue else if (v =? 1)%Z then Some TypeBufferQueue else None.

Inductive SendState : Set := SendReady | SendWaiting.
#[export] Instance SendState_eq_dec : EqDecision SendState.
Proof. solve_decision. Defined.

Record QueueConfigurationEntry : Set := MkConfig {
  cfg_depth : nat;
  cfg_priority : Z;
  cfg_mode : QueueMode;
  cfg_overflow_mode : QueueOverflowMode;
}.

Record QueueMetadata : Set := MkMeta {
  meta_depth : nat;
  meta_priority : Z;
  meta_overflow_mode : QueueOverflowMode;
  meta_index : nat;
}.

(** [ComQueueState] with the escrow, the ownership flag ([true] is
    [BUFFER_STATE_OWNED]) and the recycled storage. *)
Record ComQueue : Set := MkCq {
  queues : list Queue;
  prioritized : list QueueMetadata;
  throttle : list bool;
  send_state : SendState;
  escrow : BufferEscrow;
  buffer_owned : bool;
  recycle : option (list Z);
}.

Definition ComQueue_new : ComQueue :=
  MkCq [] [] (replicate TOTAL_PORT_COUNT false) SendWaiting BufferEscrow_new true None.

Record CqPorts : Set := MkCqPorts {
  data_out : bool;
  buffer_return_out : list bool;
  cq_cmd_response_out : bool;
  cq_id_base : Z;
}.

Inductive CqOut : Set :=
| CqQueueOverflow (t : QueueType) (port : Z)
| CqQueuePriorityChanged (t : QueueType) (index new_priority : Z)
| CqDataOut (b : Buffer) (ctx : FrameContext)
| CqBufferReturnOut (port : nat) (b : Buffer)
| CqComQueueDepth (depths : list Z)
| CqBuffQueueDepth (depths : list Z)
| CqCmdResponse (op cmd_seq : Z) (response : CmdResponse).

(** * Operations *)

Definition set_queues (qs : list Queue) (s : ComQueue) : ComQueue :=
  MkCq qs (prioritized s) (throttle s) (send_state s) (escrow s) (buffer_owned s) (recycle s).
Definition set_prioritized (l : list QueueMetadata) (s : ComQueue) : ComQueue :=
  MkCq (queues s) l (throttle s) (send_state s) (escrow s) (buffer_owned s) (recycle s).
Definition set_throttles (t : list bool) (s : ComQueue) : ComQueue :=
  MkCq (queues s) (prioritized s) t (send_state s) (escrow s) (buffer_owned s) (recycle s).
Definition set_send_state (st : SendState) (s : ComQueue) : ComQueue :=
  MkCq (queues s) (prioritized s) (throttle s) st (escrow s) (buffer_owned s) (recycle s).
Definition set_escrow (e : BufferEscrow) (s : ComQueue) : ComQueue :=
  MkCq (queues s) (prioritized s) (throttle s) (send_state s) e (buffer_owned s) (recycle s).
Definition set_owned (o : bool) (s : ComQueue) : ComQueue :=
  MkCq (queues s) (prioritized s) (throttle s) (send_state s) (escrow s) o (recycle s).
Definition set_recycle (r : option (list Z)) (s : ComQueue) : ComQueue :=
  MkCq (queues s) (prioritized s) (throttle s) (send_state s) (escrow s) (buffer_owned s) r.

(** The priority walk of [configure]: priorities in order, entries in order
    within a priority. *)
Definition metas_of (p : nat) (entries : list QueueConfigurationEntry) : list QueueMetadata :=
  omap (λ ie : nat * QueueConfigurationEntry,
    let '(i, e) := ie in
    if (cfg_priority e =? Z.of_nat p)%Z
    then Some (MkMeta (cfg_depth e) (cfg_priority e) (cfg_overflow_mode e) i) else None) (imap pair entries).
Definition build_prioritized (entries : list QueueConfigurationEntry) : list QueueMetadata :=
  mjoin ((λ p, metas_of p entries) <$> seq 0 TOTAL_PORT_COUNT).

Fixpoint check_entries (entries : list QueueConfigurationEntry) : outcome unit :=
  match entries with
  | [] => Ret tt
  | e :: es =>
      _ ← fw_assert ((0 <=? cfg_priority e)%Z && (cfg_priority e <? Z.of_nat TOTAL_PORT_COUNT)%Z);
      _ ← fw_assert (bool_decide (0 < cfg_depth e));
      check_entries es
  end.

Fixpoint build_queues `{bp : BuildProfile} (i : nat) (entries : list QueueConfigurationEntry) : outcome (list Queue) :=
  match entries with
  | [] => Ret []
  | e :: es =>
      let msg_size := if bool_decide (i < COM_PORT_COUNT) then COM_RECORD_SIZE else BUFFER_RECORD_SIZE in
      q ← queue_new (cfg_depth e) msg_size (cfg_mode e) (cfg_overflow_mode e);
      qs ← build_queues (S i) es;
      Ret (q :: qs)
  end.

Definition configure `{bp : BuildProfile} (entries : list QueueConfigurationEntry) (s : ComQueue) : outcome ComQueue :=
  _ ← check_entries entries;
  let l := build_prioritized entries in
  _ ← fw_assert (bool_decide (length l = TOTAL_PORT_COUNT));
  qs ← build_queues 0 entries;
  Ret (set_queues qs (set_prioritized l s)).

Section handlers.
Context `{bp : BuildProfile} (w : CqPorts).
Abbreviation M := (CompM ComQueue CqOut).

Definition get_queue (i : nat) : M Queue := s ← get_state; lift (index_get (queues s) i).
Definition put_queue (i : nat) (q : Queue) : M unit := modify_state (λ s, set_queues (<[i := q]> (queues s)) s).

(** [dequeue]/[pop_front] of queue [i] into a zeroed record, the status
    asserted. *)
Definition take_record (take : list Z → Queue → outcome (SerializeStatus * list Z * Queue)) (i n : nat) : M (list Z) :=
  q ← get_queue i;
  '(status, record, q') ← lift (take (replicate n 0%Z) q);
  _ ← put_queue i q';
  _ ← assert (bool_decide (status = StOk));
  mret record.

Definition claim_buffer (token : Z) : M Buffer :=
  s ← get_state;
  '(b, e) ← lift (claim token (escrow s));
  _ ← put_state (set_escrow e s);
  mret b.
Definition deposit_buffer (b : Buffer) : M Z :=
  s ← get_state;
  '(t, e) ← lift (deposit b (escrow s));
  _ ← put_state (set_escrow e s);
  mret t.

(** [state.throttle[i] = v]. *)
Definition set_throttle (i : nat) (v : bool) : M unit :=
  s ← get_state;
  _ ← assert (bool_decide (i < length (throttle s)));
  put_state (set_throttles (<[i := v]> (throttle s)) s).

(** [bufferReturnOut[port].get()] and the call. *)
Definition return_buffer (port : nat) (b : Buffer) : M unit :=
  connected ← lift (index_get (buffer_return_out w) port);
  _ ← assert connected;
  emit (CqBufferReturnOut port b).

(** [send_prepared]. *)
Definition send_prepared (b : Buffer) (queue_index : nat) : M unit :=
  deser ← lift (get_deserializer b);
  match deserialize_u16 Big deser with
  | (SOk descriptor, _) =>
      let ctx := MkFrameContext (Z.of_nat queue_index) (default ApidInvalidUninitialized (try_from descriptor))
                   (has_sec_hdr FrameContext_default) (sequence_flags FrameContext_default)
                   (sequence_count FrameContext_default) (vc_id FrameContext_default) (pvn FrameContext_default)
                   (send_now FrameContext_default) (sa_index FrameContext_default)
                   (first_header_pointer FrameContext_default) in
      s ← get_state;
      _ ← put_state (set_owned false s);
      _ ← assert (buffer_owned s);
      _ ← assert (data_out w);
      _ ← emit (CqDataOut b ctx);
      modify_state (set_send_state SendWaiting)
  | _ => lift Panic
  end.

(** [send_com_record]. *)
Definition send_com_record (record : list Z) (queue_index : nat) : M unit :=
  s ← get_state;
  _ ← assert (bool_decide (send_state s = SendReady));
  hi ← lift (index_get record 0);
  lo ← lift (index_get record 1);
  let len := Z.to_nat (hi * 256 + lo) in
  let storage := default (replicate FW_COM_BUFFER_MAX_SIZE 0%Z) (recycle s) in
  _ ← put_state (set_recycle None s);
  bytes ← lift (copy_from 2 len record);
  b ← lift (data_write 0 bytes (from_storage storage NO_CONTEXT));
  b ← lift (set_size len b);
  send_prepared b queue_index.

(** [send_buffer]. *)
Definition send_buffer (b : Buffer) (queue_index : nat) : M unit :=
  s ← get_state;
  _ ← assert (bool_decide (send_state s = SendReady));
  send_prepared b queue_index.

(** The search of [process_queue]: the position of the first entry in
    priority order whose queue is not empty. *)
Fixpoint first_nonempty (qs : list Queue) (l : list QueueMetadata) (i : nat) : outcome nat :=
  match l with
  | [] => Ret i
  | m :: l' =>
      q ← index_get qs (meta_index m);
      if bool_decide (get_queue_size q = 0) then first_nonempty qs l' (S i) else Ret i
  end.

(** The swap loop that moves the dispatched entry to the end of its run. *)
Fixpoint rotate_loop (fuel i : nat) (prio : Z) (l : list QueueMetadata) : list QueueMetadata :=
  match fuel with
  | O => l
  | S fuel' =>
      match l !! i, l !! (i - 1) with
      | Some m, Some p =>
          if (meta_priority m =? prio)%Z
          then rotate_loop fuel' (S i) prio (<[i := p]> (<[i - 1 := m]> l)) else l
      | _, _ => l
      end
  end.

(** The two arms of [process_queue] that take the next message of queue [i]
    and send it. *)
Definition dispatch_entry (i : nat) : M unit :=
  if bool_decide (i < COM_PORT_COUNT) then
    s ← get_state;
    _ ← assert (buffer_owned s);
    record ← take_record dequeue i COM_RECORD_SIZE;
    send_com_record record i
  else
    record ← take_record dequeue i BUFFER_RECORD_SIZE;
    b ← claim_buffer (be_value record);
    send_buffer b i.

(** [process_queue]. *)
Definition process_queue : M unit :=
  s ← get_state;
  _ ← assert (bool_decide (send_state s = SendReady));
  let total := length (prioritized s) in
  k ← lift (first_nonempty (queues s) (prioritized s) 0);
  match prioritized s !! k with
  | None => mret tt
  | Some entry =>
      _ ← dispatch_entry (meta_index entry);
      _ ← set_throttle (meta_index entry) false;
      modify_state (λ s, set_prioritized (rotate_loop total (S k) (meta_priority entry) (prioritized s)) s)
  end.

(** [handle_enqueue_status]: whether the message was accepted. *)
Definition handle_enqueue_status (queue_num : nat) (t : QueueType) (port : Z) (pre_emptive : bool)
    (status : SerializeStatus) : M bool :=
  let overflowed := pre_emptive || bool_decide (status = NoRoomLeft) || bool_decide (status = DiscardedExisting) in
  s ← get_state;
  _ ← (if overflowed then
         throttled ← lift (index_get (throttle s) queue_num);
         when (negb throttled) (_ ← emit (CqQueueOverflow t port); set_throttle queue_num true)
       else mret tt);
  s ← get_state;
  _ ← when (bool_decide (send_state s = SendReady)) process_queue;
  mret (negb (bool_decide (status = NoRoomLeft))).

Definition enqueue_record (i : nat) (record : list Z) : M SerializeStatus :=
  q ← get_queue i;
  '(status, q') ← lift (enqueue record q);
  _ ← put_queue i q';
  mret status.

(** [enqueue_com]. *)
Definition enqueue_com (queue_num : nat) (bytes : list Z) : M bool :=
  _ ← assert (bool_decide (queue_num < COM_PORT_COUNT));
  s ← get_state;
  _ ← assert (bool_decide (queue_num < length (queues s)));
  _ ← assert (bool_decide (length bytes ≤ FW_COM_BUFFER_MAX_SIZE));
  let record := splice 2 bytes (splice 0 (be_bytes 2 (wrap 16 (Z.of_nat (length bytes)))) (replicate COM_RECORD_SIZE 0%Z)) in
  status ← enqueue_record queue_num record;
  handle_enqueue_status queue_num TypeComQueue (Z.of_nat queue_num) false status.

(** [com_packet_queue_in_handler]; the packet is the valid region of the
    buffer. *)
Definition com_packet_queue_in (port : Z) (data : serbuf) : M unit :=
  _ ← assert ((0 <=? port)%Z && (port <? Z.of_nat COM_PORT_COUNT)%Z);
  _ ← enqueue_com (Z.to_nat port) (as_slice data);
  mret tt.

Definition find_meta (i : nat) (l : list QueueMetadata) : option QueueMetadata :=
  snd <$> list_find (λ m, meta_index m = i) l.

(** The pre-emptive removal of [buffer_queue_in_handler]: whether the oldest
    buffer was returned to make room. *)
Definition make_room (queue_num port : nat) : M bool :=
  s ← get_state;
  match find_meta queue_num (prioritized s) with
  | Some meta =>
      if decide (meta_overflow_mode meta = DropOldest) then
        q ← get_queue queue_num;
        if bool_decide (meta_depth meta ≤ get_queue_size q) then
          record ← take_record pop_front queue_num BUFFER_RECORD_SIZE;
          dropped ← claim_buffer (be_value record);
          _ ← return_buffer port dropped;
          mret true
        else mret false
      else mret false
  | None => mret false
  end.

(** [buffer_queue_in_handler]. *)
Definition buffer_queue_in (port : Z) (b : Buffer) : M unit :=
  _ ← assert ((0 <=? port)%Z && (port <? Z.of_nat BUFFER_PORT_COUNT)%Z);
  let queue_num := Z.to_nat port + COM_PORT_COUNT in
  s ← get_state;
  _ ← assert (bool_decide (queue_num < length (queues s)));
  pre_emptive ← make_room queue_num (Z.to_nat port);
  token ← deposit_buffer b;
  status ← enqueue_record queue_num (be_bytes 8 token);
  accepted ← handle_enqueue_status queue_num TypeBufferQueue port pre_emptive status;
  when (negb accepted) (b' ← claim_buffer token; return_buffer (Z.to_nat port) b').

(** [com_status_in_handler]. *)
Definition com_status_in (condition : Success) : M unit :=
  s ← get_state;
  match send_state s with
  | SendWaiting =>
      if decide (condition = Success_Success) then
        _ ← put_state (set_send_state SendReady s);
        process_queue
      else put_state (set_send_state SendWaiting s)
  | SendReady => lift Panic
  end.

(** [run_handler]: the high-water marks, then cleared. *)
Fixpoint take_marks (i n : nat) : M (list Z) :=
  match n with
  | O => mret []
  | S n' =>
      q ← get_queue i;
      _ ← put_queue i (queue_clear_hwm q);
      l ← take_marks (S i) n';
      mret (wrap 32 (Z.of_nat (queue_high_water_mark q)) :: l)
  end.
Definition cq_run : M unit :=
  s ← get_state;
  _ ← assert (bool_decide (length (queues s) = TOTAL_PORT_COUNT));
  com ← take_marks 0 COM_PORT_COUNT;
  buff ← take_marks COM_PORT_COUNT BUFFER_PORT_COUNT;
  _ ← emit (CqComQueueDepth com);
  emit (CqBuffQueueDepth buff).

(** [data_return_in_handler]; [FwIndexType] is 16 bits wide. *)
Definition data_return_in (b : Buffer) (ctx : FrameContext) : M unit :=
  s ← get_state;
  _ ← put_state (set_owned true s);
  _ ← assert (negb (buffer_owned s));
  let port := (com_queue_index ctx - Z.of_nat COM_PORT_COUNT)%Z in
  port ← lift (if bool_decide (- 2 ^ 15 ≤ port)%Z then Ret port
               else if overflow_checks then Panic else Ret (to_signed 16 (wrap 16 port)));
  _ ← assert (port <? Z.of_nat BUFFER_PORT_COUNT)%Z;
  if (0 <=? port)%Z then return_buffer (Z.to_nat port) b
  else modify_state (set_recycle (Some (storage b))).

(** ** Commands *)

Definition cq_cmd_response (op cmd_seq : Z) (r : CmdResponse) : M unit :=
  _ ← assert (cq_cmd_response_out w); emit (CqCmdResponse op cmd_seq r).

(** [get_queue_num]: wrapping 16-bit addition. *)
Definition get_queue_num (t : QueueType) (port : Z) : Z :=
  to_signed 16 (wrap 16 (port + match t with TypeComQueue => 0 | TypeBufferQueue => Z.of_nat COM_PORT_COUNT end)).

(** [drain_queue]. *)
Fixpoint drain_loop (n index : nat) : M unit :=
  match n with
  | O => mret tt
  | S n' =>
      _ ← (if bool_decide (index < COM_PORT_COUNT) then
             _ ← take_record dequeue index COM_RECORD_SIZE; mret tt
           else
             record ← take_record dequeue index BUFFER_RECORD_SIZE;
             b ← claim_buffer (be_value record);
             return_buffer (index - COM_PORT_COUNT) b);
      drain_loop n' index
  end.
Definition drain_queue (index : nat) : M unit :=
  _ ← assert (bool_decide (index < TOTAL_PORT_COUNT));
  q ← get_queue index;
  drain_loop (get_queue_size q) index.

Definition flush_queue_cmd (op cmd_seq : Z) (t : QueueType) (index : Z) : M unit :=
  let i := get_queue_num t index in
  if (i <? 0)%Z || (Z.of_nat TOTAL_PORT_COUNT <=? i)%Z then cq_cmd_response op cmd_seq ValidationError
  else _ ← drain_queue (Z.to_nat i); cq_cmd_response op cmd_seq CmdOk.

Fixpoint drain_all (i n : nat) : M unit :=
  match n with O => mret tt | S n' => _ ← drain_queue i; drain_all (S i) n' end.
Definition flush_all_queues_cmd (op cmd_seq : Z) : M unit :=
  _ ← drain_all 0 TOTAL_PORT_COUNT; cq_cmd_response op cmd_seq CmdOk.

(** The update of the matching entry and the bubble sort of
    [set_queue_priority_cmd_handler]. *)
Fixpoint update_priority (i : nat) (p : Z) (l : list QueueMetadata) : list QueueMetadata :=
  match l with
  | [] => []
  | m :: l' =>
      if bool_decide (meta_index m = i) then MkMeta (meta_depth m) p (meta_overflow_mode m) (meta_index m) :: l'
      else m :: update_priority i p l'
  end.
Fixpoint bubble_pass (k : nat) (l : list QueueMetadata) : list QueueMetadata :=
  match k, l with
  | S k', a :: b :: r =>
      if (meta_priority b <? meta_priority a)%Z then b :: bubble_pass k' (a :: r) else a :: bubble_pass k' (b :: r)
  | _, _ => l
  end.
Fixpoint bubble_sort (k : nat) (l : list QueueMetadata) : list QueueMetadata :=
  match k with O => l | S k' => bubble_sort k' (bubble_pass k l) end.

Definition set_queue_priority_cmd (op cmd_seq : Z) (t : QueueType) (index new_priority : Z) : M unit :=
  let i := get_queue_num t index in
  if (i <? 0)%Z || (Z.of_nat TOTAL_PORT_COUNT <=? i)%Z then cq_cmd_response op cmd_seq ValidationError
  else if (new_priority <? 0)%Z || (Z.of_nat TOTAL_PORT_COUNT <=? new_priority)%Z
  then cq_cmd_response op cmd_seq ValidationError
  else
    _ ← modify_state (λ s,
          let l := update_priority (Z.to_nat i) new_priority (prioritized s) in
          set_prioritized (bubble_sort (length l - 1) l) s);
    _ ← emit (CqQueuePriorityChanged t index new_priority);
    cq_cmd_response op cmd_seq CmdOk.

(** [handle_command]: a failed read is a format error, a bad queue type a
    validation error, left-over bytes a format error. *)
Definition read_or {A} (m : SerM A) (args : serbuf) (fail : M unit) (k : A → serbuf → M unit) : M unit :=
  match m args with
  | (SOk a, args') => k a args'
  | (SErr _, _) => fail
  | (SPanic, _) => lift Panic
  end.

Definition no_residue (args : serbuf) (fail k : M unit) : M unit :=
  read_or deserialize_size_left args fail (λ n _, if bool_decide (n = 0) then k else fail).

Definition handle_command (op cmd_seq : Z) (args : serbuf) : M unit :=
  let format := cq_cmd_response op cmd_seq CmdFormatError in
  let local := wrap 32 (op - cq_id_base w) in
  if (local =? OPCODE_FLUSH_QUEUE)%Z then
    read_or (deserialize_u8 Big) args format (λ raw args,
      match QueueType_try_from raw with
      | None => cq_cmd_response op cmd_seq ValidationError
      | Some t =>
          read_or (deserialize_i16 Big) args format (λ index args,
            no_residue args format (flush_queue_cmd op cmd_seq t index))
      end)
  else if (local =? OPCODE_FLUSH_ALL_QUEUES)%Z then
    no_residue args format (flush_all_queues_cmd op cmd_seq)
  else if (local =? OPCODE_SET_QUEUE_PRIORITY)%Z then
    read_or (deserialize_u8 Big) args format (λ raw args,
      match QueueType_try_from raw with
      | None => cq_cmd_response op cmd_seq ValidationError
      | Some t =>
          read_or (deserialize_i16 Big) args format (λ index args,
            read_or (deserialize_i16 Big) args format (λ new_priority args,
              no_residue args format (set_queue_priority_cmd op cmd_seq t index new_priority)))
      end)
  else cq_cmd_response op cmd_seq InvalidOpcode.
End handlers.
