(* ===== verification/ComQueueFacts.v ===== *)
(** Facts on the downlink queue of [ComQueue]: the priority order, the
    contents of the queues, conservation of buffers and what is sent next. *)

From stdpp Require Import sorting.
From S2P Require Import Prelude Serial SerialFacts Codec Fpp Packets Buffer CircularBuffer MsgQueue Escrow Comp ComQueue.

(** * The priority order *)

Abbreviation by_priority := (λ a b : QueueMetadata, (meta_priority a ≤ meta_priority b)%Z).

(** The served entry goes behind the entries of its own priority. *)
Fixpoint sink (m : QueueMetadata) (l : list QueueMetadata) : list QueueMetadata :=
  match l with
  | [] => [m]
  | x :: l' => if (meta_priority x =? meta_priority m)%Z then x :: sink m l' else m :: l
  end.

(** Which is what the swap loop of [process_queue] does. *)
Lemma rotate_loop_sink fuel pre m post :
  length post < fuel →
  rotate_loop fuel (S (length pre)) (meta_priority m) (pre ++ m :: post) = pre ++ sink m post.
Proof.
  revert fuel pre. induction post as [|x post IH]; intros fuel pre Hf; (destruct fuel as [|fuel]; [cbn in Hf; lia|]);
    cbn [rotate_loop sink].
  - by rewrite (lookup_ge_None_2 (pre ++ [m])) by (rewrite length_app; cbn; lia).
  - replace (S (length pre) - 1) with (length pre) by lia.
    rewrite !(lookup_app_r pre) by lia. rewrite Nat.sub_diag. replace (S (length pre) - length pre) with 1 by lia.
    cbn [lookup list_lookup]. destruct (_ =? _)%Z; [|done].
    rewrite (insert_app_r_alt pre _ (length pre)), Nat.sub_diag by lia.
    rewrite insert_app_r_alt by lia. replace (S (length pre) - length pre) with 1 by lia. cbn.
    specialize (IH fuel (pre ++ [x])). rewrite length_app, Nat.add_1_r, <-!app_assoc in IH. apply IH. cbn in Hf. lia.
Qed.

Lemma sink_perm m l : sink m l ≡ₚ m :: l.
Proof. induction l as [|x l IH]; cbn; [done|]. case_match; [|done]. rewrite IH. apply Permutation_swap. Qed.

Lemma sink_priorities m l : meta_priority <$> sink m l = meta_priority <$> m :: l.
Proof.
  induction l as [|x l IH]; cbn; [done|]. destruct (Z.eqb_spec (meta_priority x) (meta_priority m)) as [E|]; [|done].
  cbn in *. by rewrite IH, E.
Qed.

Lemma update_priority_index i p l : meta_index <$> update_priority i p l = meta_index <$> l.
Proof. induction l as [|m l IH]; cbn; [done|]. case_bool_decide; cbn; congruence. Qed.

Lemma bubble_pass_perm k l : bubble_pass k l ≡ₚ l.
Proof.
  revert l. induction k as [|k IH]; intros l; [by destruct l as [|?[|??]]|]. destruct l as [|a [|b r]]; [done|done|].
  cbn. destruct (_ <? _)%Z; rewrite IH; [by apply Permutation_swap|done].
Qed.

Lemma bubble_sort_perm k l : bubble_sort k l ≡ₚ l.
Proof. revert l. induction k as [|k IH]; intros l; cbn [bubble_sort]; [done|]. by rewrite IH, bubble_pass_perm. Qed.

(** A pass over the first [k + 1] entries leaves their greatest last. *)
Lemma bubble_pass_max k l1 l2 :
  length l1 = S k → ∃ l1' x, bubble_pass k (l1 ++ l2) = l1' ++ x :: l2 ∧ length l1' = k ∧
    l1' ++ [x] ≡ₚ l1 ∧ Forall (λ y, by_priority y x) l1'.
Proof.
  revert l1. induction k as [|k IH]; intros l1 Hl.
  { destruct l1 as [|x [|??]]; [done| |done]. exists [], x. split_and!; [by destruct l2|done..]. }
  destruct l1 as [|a [|b r]]; [done|done|]. cbn. destruct (Z.ltb_spec (meta_priority b) (meta_priority a)).
  - destruct (IH (a :: r)) as (l1' & x & E & Hlen & Hp & Hf); [cbn in *; lia|].
    exists (b :: l1'), x. cbn in E. rewrite E. split_and!; [done|cbn; lia| |].
    + cbn. rewrite Hp. by apply Permutation_swap.
    + constructor; [|done]. assert (a ∈ l1' ++ [x]) as Ha by (rewrite Hp; by left).
      apply elem_of_app in Ha as [Ha|Ha%list_elem_of_singleton]; [|subst; lia].
      rewrite Forall_forall in Hf. apply Hf in Ha. lia.
  - destruct (IH (b :: r)) as (l1' & x & E & Hlen & Hp & Hf); [cbn in *; lia|].
    exists (a :: l1'), x. cbn in E. rewrite E. split_and!; [done|cbn; lia| |].
    + cbn. by rewrite Hp.
    + constructor; [|done]. assert (b ∈ l1' ++ [x]) as Ha by (rewrite Hp; by left).
      apply elem_of_app in Ha as [Ha|Ha%list_elem_of_singleton]; [|subst; lia].
      rewrite Forall_forall in Hf. apply Hf in Ha. lia.
Qed.

Lemma bubble_sort_sorted k l1 l2 :
  length l1 = S k → StronglySorted by_priority l2 → (∀ x y, x ∈ l1 → y ∈ l2 → by_priority x y) →
  StronglySorted by_priority (bubble_sort k (l1 ++ l2)).
Proof.
  revert l1 l2. induction k as [|k IH]; intros l1 l2 Hl Hs Hle.
  { destruct l1 as [|x [|??]]; [done| |done]. cbn. constructor; [done|]. apply Forall_forall. intros y Hy.
    apply Hle; [by left|done]. }
  cbn [bubble_sort]. destruct (bubble_pass_max (S k) l1 l2 Hl) as (l1' & x & -> & Hlen & Hp & Hf).
  apply IH; [done| |].
  - constructor; [done|]. apply Forall_forall. intros y Hy. apply Hle; [|done]. rewrite <-Hp. apply elem_of_app. right. by left.
  - intros z y Hz [->|Hy]%elem_of_cons; [by rewrite Forall_forall in Hf; apply Hf|].
    apply Hle; [|done]. rewrite <-Hp. apply elem_of_app. by left.
Qed.

(** Sorting by priority, as [set_queue_priority] does it. *)
Lemma bubble_sort_ok l : StronglySorted by_priority (bubble_sort (length l - 1) l).
Proof.
  destruct l as [|m l]; [constructor|]. rewrite <-(app_nil_r (m :: l)) at 2.
  apply bubble_sort_sorted; [cbn; lia|constructor|]. intros x y _ Hy. by apply elem_of_nil in Hy.
Qed.

(** Equal priority lists are sorted alike. *)
Lemma sorted_by_priorities (l l' : list QueueMetadata) :
  meta_priority <$> l' = meta_priority <$> l → StronglySorted by_priority l → StronglySorted by_priority l'.
Proof.
  revert l'. induction l as [|m l IH]; intros [|m' l'] E Hs; try done. cbn in E. injection E as Em El.
  inversion Hs as [|? ? Hs' Hf]; subst. constructor; [by apply IH|].
  rewrite Forall_forall in *. intros y Hy. apply (list_elem_of_fmap_2 meta_priority) in Hy. rewrite El in Hy.
  apply list_elem_of_fmap in Hy as (z & Ez & Hz). apply Hf in Hz. lia.
Qed.
