(* ===== verification/ComQueueSpec.v ===== *)
(** What [Svc::ComQueue] promises: bounded queues of packets and buffers, a
    priority order with round-robin among equals, one send outstanding; and
    the relation of the queues and the escrow of [ComQueue] to it. *)

From stdpp Require Import sorting.
From S2P Require Import Prelude Serial SerialFacts Codec Fpp Packets Buffer CircularBuffer MsgQueue Escrow Comp ComQueue ComQueueFacts.

(** * The specification *)

(** What a queue holds: packets by value, or the buffers themselves. *)
Inductive item : Set := ICom (bs : list Z) | IBuf (b : Buffer).

Definition item_buffer (it : item) : option Buffer := match it with IBuf b => Some b | ICom _ => None end.

(** Queues are lists of items, oldest first, with the peak count since the
    last report; [a_busy] is the queue whose message is with the framer. *)
Record ACq : Set := MkA {
  a_queues : list (list item * nat);
  a_order : list QueueMetadata;
  a_throttle : list bool;
  a_send : SendState;
  a_busy : option nat;
  a_recycle : option (list Z);
}.

Definition a_set_queue (i : nat) (x : list item * nat) (a : ACq) : ACq :=
  MkA (<[i := x]> (a_queues a)) (a_order a) (a_throttle a) (a_send a) (a_busy a) (a_recycle a).
Definition a_set_order (l : list QueueMetadata) (a : ACq) : ACq :=
  MkA (a_queues a) l (a_throttle a) (a_send a) (a_busy a) (a_recycle a).
Definition a_set_throttle (i : nat) (v : bool) (a : ACq) : ACq :=
  MkA (a_queues a) (a_order a) (<[i := v]> (a_throttle a)) (a_send a) (a_busy a) (a_recycle a).
Definition a_set_send (st : SendState) (a : ACq) : ACq :=
  MkA (a_queues a) (a_order a) (a_throttle a) st (a_busy a) (a_recycle a).

Section spec.
Context (id_base : Z) (cfg : list QueueConfigurationEntry).

Definition a_items (i : nat) (a : ACq) : list item := default [] (fst <$> a_queues a !! i).
Definition a_peak (i : nat) (a : ACq) : nat := default 0 (snd <$> a_queues a !! i).

(** The position the next message of a queue is taken from. *)
Definition next_pos (m : QueueMode) (n : nat) : nat := match m with Fifo => 0 | Lifo => n - 1 end.

(** The context of a message: its queue and the APID its first two bytes
    name. *)
Definition message_context (bs : list Z) (i : nat) : FrameContext :=
  let c := FrameContext_default in
  MkFrameContext (Z.of_nat i) (default ApidInvalidUninitialized (try_from (be_value (take 2 bs)))) (has_sec_hdr c)
    (sequence_flags c) (sequence_count c) (vc_id c) (pvn c) (send_now c) (sa_index c) (first_header_pointer c).

(** A packet travels in the recycled storage, a buffer as itself. *)
Definition message_buffer (it : item) (recycled : option (list Z)) : Buffer :=
  match it with
  | ICom bs => MkBuffer (splice 0 bs (default (replicate FW_COM_BUFFER_MAX_SIZE 0%Z) recycled)) 0 (length bs) NO_CONTEXT
  | IBuf b => b
  end.
Definition message_bytes (it : item) : list Z := match it with ICom bs => bs | IBuf b => window b end.

Definition a_dispatch (it : item) (i : nat) (a : ACq) : CqOut * ACq :=
  (CqDataOut (message_buffer it (a_recycle a)) (message_context (message_bytes it) i),
   MkA (a_queues a) (a_order a) (a_throttle a) SendWaiting (Some i)
     (match it with ICom _ => None | IBuf _ => a_recycle a end)).

(** The first entry in priority order whose queue holds something. *)
Definition a_next (a : ACq) : option (nat * QueueMetadata) :=
  list_find (λ m, a_items (meta_index m) a ≠ []) (a_order a).

Definition mode_of (i : nat) : QueueMode := default Fifo (cfg_mode <$> cfg !! i).

Definition a_process (a : ACq) : list CqOut * ACq :=
  match a_next a with
  | None => ([], a)
  | Some (k, m) =>
      let i := meta_index m in
      let l := a_items i a in
      let p := next_pos (mode_of i) (length l) in
      match l !! p with
      | None => ([], a)
      | Some it =>
          let '(o, a1) := a_dispatch it i (a_set_queue i (delete p l, a_peak i a) a) in
          ([o], a_set_order (take k (a_order a) ++ sink m (drop (S k) (a_order a))) (a_set_throttle i false a1))
      end
  end.

Definition a_enqueue (i : nat) (it : item) (a : ACq) : SerializeStatus * ACq :=
  let l := a_items i a in
  match cfg !! i with
  | None => (StOk, a)
  | Some e =>
      if decide (length l < cfg_depth e) then
        (StOk, a_set_queue i (l ++ [it], a_peak i a `max` S (length l)) a)
      else match cfg_overflow_mode e with
      | DropNewest => (NoRoomLeft, a_set_queue i (l, a_peak i a) a)
      | DropOldest => (DiscardedExisting, a_set_queue i (tail l ++ [it], a_peak i a `max` cfg_depth e) a)
      end
  end.

(** One overflow event per episode, then the message goes out at once when
    nothing is outstanding. *)
Definition a_settle (i : nat) (t : QueueType) (port : Z) (overflowed : bool) (a : ACq) : list CqOut * ACq :=
  let warn := overflowed && bool_decide (a_throttle a !! i = Some false) in
  let a1 := if warn then a_set_throttle i true a else a in
  let '(o, a2) := if decide (a_send a1 = SendReady) then a_process a1 else ([], a1) in
  ((if warn then [CqQueueOverflow t port] else []) ++ o, a2).

Definition drain_order {A} (m : QueueMode) (l : list A) : list A := match m with Fifo => l | Lifo => reverse l end.

Definition a_drain (i : nat) (a : ACq) : list CqOut * ACq :=
  (CqBufferReturnOut (i - COM_PORT_COUNT) <$> omap item_buffer (drain_order (mode_of i) (a_items i a)),
   a_set_queue i ([], a_peak i a) a).

(** A full drop-oldest buffer queue gives its oldest buffer back first. *)
Definition a_make_room (a : ACq) : bool * list Buffer * ACq :=
  let l := a_items COM_PORT_COUNT a in
  match cfg !! COM_PORT_COUNT with
  | Some e =>
      if bool_decide (cfg_overflow_mode e = DropOldest) && bool_decide (cfg_depth e ≤ length l) then
        (true, omap item_buffer (take 1 l), a_set_queue COM_PORT_COUNT (delete 0 l, a_peak COM_PORT_COUNT a) a)
      else (false, [], a)
  | None => (false, [], a)
  end.

Inductive cq_cmd : Set :=
| CFlush (t : QueueType) (index : Z)
| CFlushAll
| CSetPriority (t : QueueType) (index new_priority : Z).

(** The commands as argument bytes: a queue type, then 16-bit numbers in
    network order, and nothing else. *)
Definition i16_of (hi lo : Z) : Z := to_signed 16 (hi * 256 + lo).
Definition decode_typed (bs : list Z) (k : QueueType → list Z → CmdResponse + cq_cmd) : CmdResponse + cq_cmd :=
  match bs with
  | [] => inl CmdFormatError
  | t :: rest => match QueueType_try_from t with None => inl ValidationError | Some t => k t rest end
  end.
Definition decode_cmd (local : Z) (bs : list Z) : CmdResponse + cq_cmd :=
  if (local =? OPCODE_FLUSH_QUEUE)%Z then
    decode_typed bs (λ t rest, match rest with [h; l] => inr (CFlush t (i16_of h l)) | _ => inl CmdFormatError end)
  else if (local =? OPCODE_FLUSH_ALL_QUEUES)%Z then
    match bs with [] => inr CFlushAll | _ => inl CmdFormatError end
  else if (local =? OPCODE_SET_QUEUE_PRIORITY)%Z then
    decode_typed bs (λ t rest, match rest with
      | [h; l; h'; l'] => inr (CSetPriority t (i16_of h l) (i16_of h' l')) | _ => inl CmdFormatError end)
  else inl InvalidOpcode.

Definition in_range (z : Z) : bool := ((0 <=? z) && (z <? Z.of_nat TOTAL_PORT_COUNT))%Z.

Definition spec_cmd (op cmd_seq : Z) (c : cq_cmd) (a : ACq) : list CqOut * ACq :=
  match c with
  | CFlush t index =>
      if in_range (get_queue_num t index) then
        let '(o, a1) := a_drain (Z.to_nat (get_queue_num t index)) a in (o ++ [CqCmdResponse op cmd_seq CmdOk], a1)
      else ([CqCmdResponse op cmd_seq ValidationError], a)
  | CFlushAll =>
      let '(o0, a0) := a_drain 0 a in
      let '(o1, a1) := a_drain 1 a0 in
      let '(o2, a2) := a_drain 2 a1 in
      (o0 ++ o1 ++ o2 ++ [CqCmdResponse op cmd_seq CmdOk], a2)
  | CSetPriority t index p =>
      if in_range (get_queue_num t index) && in_range p then
        let l := update_priority (Z.to_nat (get_queue_num t index)) p (a_order a) in
        ([CqQueuePriorityChanged t index p; CqCmdResponse op cmd_seq CmdOk], a_set_order (bubble_sort (length l - 1) l) a)
      else ([CqCmdResponse op cmd_seq ValidationError], a)
  end.

Inductive cq_op : Set :=
| OCom (port : nat) (data : serbuf)
| OBuf (b : Buffer)
| OStatus (c : Success)
| OReturn (b : Buffer) (ctx : FrameContext)
| ORun
| OCommand (op cmd_seq : Z) (args : serbuf).

Definition spec_step (o : cq_op) (a : ACq) : list CqOut * ACq :=
  match o with
  | OCom port data =>
      let '(st, a1) := a_enqueue port (ICom (as_slice data)) a in
      a_settle port TypeComQueue (Z.of_nat port) (negb (bool_decide (st = StOk))) a1
  | OBuf b =>
      let '(full, dropped, a0) := a_make_room a in
      let '(st, a1) := a_enqueue COM_PORT_COUNT (IBuf b) a0 in
      let '(o, a2) := a_settle COM_PORT_COUNT TypeBufferQueue 0 (full || negb (bool_decide (st = StOk))) a1 in
      ((CqBufferReturnOut 0 <$> dropped) ++ o ++ (if decide (st = NoRoomLeft) then [CqBufferReturnOut 0 b] else []), a2)
  | OStatus Success_Success => a_process (a_set_send SendReady a)
  | OStatus _ => ([], a)
  | OReturn b ctx =>
      let a1 r := MkA (a_queues a) (a_order a) (a_throttle a) (a_send a) None r in
      if (com_queue_index ctx <? Z.of_nat COM_PORT_COUNT)%Z then ([], a1 (Some (storage b)))
      else ([CqBufferReturnOut 0 b], a1 (a_recycle a))
  | ORun =>
      ([CqComQueueDepth ((λ i, wrap 32 (Z.of_nat (a_peak i a))) <$> [0; 1]);
        CqBuffQueueDepth [wrap 32 (Z.of_nat (a_peak 2 a))]],
       MkA ((λ x, (x.1, 0)) <$> a_queues a) (a_order a) (a_throttle a) (a_send a) (a_busy a) (a_recycle a))
  | OCommand op cmd_seq args =>
      match decode_cmd (wrap 32 (op - id_base)) (remaining_slice args) with
      | inl r => ([CqCmdResponse op cmd_seq r], a)
      | inr c => spec_cmd op cmd_seq c a
      end
  end.

(** The protocol of the ports: packets and buffers carry at least a packet
    descriptor, the status follows the return of the outstanding buffer, the
    buffer returned is the one handed out (its bytes may have changed). *)
Definition op_ok (o : cq_op) (a : ACq) : Prop :=
  match o with
  | OCom port data => port < COM_PORT_COUNT ∧ Forall is_byte (as_slice data) ∧
      2 ≤ length (as_slice data) ≤ FW_COM_BUFFER_MAX_SIZE
  | OBuf b => buffer_ok b ∧ 2 ≤ size b
  | OStatus _ => a_send a = SendWaiting ∧ a_busy a = None
  | OReturn b ctx =>
      match a_busy a with
      | Some i => com_queue_index ctx = Z.of_nat i ∧
          (i < COM_PORT_COUNT → length (storage b) = FW_COM_BUFFER_MAX_SIZE ∧ Forall is_byte (storage b))
      | None => False
      end
  | OCommand _ _ args => wf args
  | ORun => True
  end.
End spec.

(** * The abstraction relation *)

Definition record_size (i : nat) : nat := if decide (i < COM_PORT_COUNT) then COM_RECORD_SIZE else BUFFER_RECORD_SIZE.

Definition com_record (bs : list Z) : list Z :=
  splice 2 bs (splice 0 (be_bytes 2 (wrap 16 (Z.of_nat (length bs)))) (replicate COM_RECORD_SIZE 0%Z)).

(** The stored records of queue [i]: packets in their records, the tokens
    [T] in the buffer queue. *)
Definition records (i : nat) (T : list Z) (l : list item) : list (list Z) :=
  if decide (i < COM_PORT_COUNT) then com_record ∘ message_bytes <$> l else be_bytes 8 <$> T.

Definition item_ok (i : nat) (it : item) : Prop :=
  match it with
  | ICom bs => i < COM_PORT_COUNT ∧ Forall is_byte bs ∧ 2 ≤ length bs ≤ FW_COM_BUFFER_MAX_SIZE
  | IBuf b => COM_PORT_COUNT ≤ i ∧ buffer_ok b ∧ 2 ≤ size b
  end.

Record queue_rel (i : nat) (e : QueueConfigurationEntry) (T : list Z) (q : Queue) (x : list item * nat) : Prop := {
  qr_repr : represents (cfg_depth e) q (QSpec (records i T x.1) x.2);
  qr_size : message_size q = record_size i;
  qr_mode : mode q = cfg_mode e;
  qr_overflow : overflow_mode q = cfg_overflow_mode e;
  qr_items : Forall (item_ok i) x.1;
}.

(** The tokens stand for the queued buffers, in order, and nothing else is in
    escrow. *)
Record tokens_rel (n : nat) (e : BufferEscrow) (T : list Z) (l : list item) : Prop := {
  tr_ok : escrow_ok e;
  tr_nodup : NoDup T;
  tr_lookup : Forall2 (λ t it, is_u 64 t ∧ ∃ b, it = IBuf b ∧ escrow_lookup e t = Some b) T l;
  tr_only : ∀ t b, escrow_lookup e t = Some b → t ∈ T;
  tr_slots : length (slots e) ≤ S n;
}.

Record order_ok (cfg : list QueueConfigurationEntry) (l : list QueueMetadata) : Prop := {
  oo_perm : meta_index <$> l ≡ₚ seq 0 TOTAL_PORT_COUNT;
  oo_cfg : Forall (λ m, ∃ e, cfg !! meta_index m = Some e ∧ meta_depth m = cfg_depth e ∧
                           meta_overflow_mode m = cfg_overflow_mode e) l;
  oo_sorted : StronglySorted by_priority l;
}.

Record config_ok (cfg : list QueueConfigurationEntry) : Prop := {
  co_length : length cfg = TOTAL_PORT_COUNT;
  co_entries : Forall (λ e, 0 < cfg_depth e ∧ (Z.of_nat (cfg_depth e) < 2 ^ 32 - 2)%Z ∧ in_range (cfg_priority e) = true) cfg;
}.

(** The queues and the escrow hold [aqs], the buffers under the tokens [T]. *)
Record store_rel (cfg : list QueueConfigurationEntry) (qs : list Queue) (esc : BufferEscrow)
    (aqs : list (list item * nat)) (T : list Z) : Prop := {
  sr_lengths : length qs = TOTAL_PORT_COUNT ∧ length aqs = TOTAL_PORT_COUNT;
  sr_queues : ∀ i e q x, cfg !! i = Some e → qs !! i = Some q → aqs !! i = Some x → queue_rel i e T q x;
  sr_tokens : ∀ e x, cfg !! COM_PORT_COUNT = Some e → aqs !! COM_PORT_COUNT = Some x → tokens_rel (cfg_depth e) esc T x.1;
}.

Record cq_rel (cfg : list QueueConfigurationEntry) (s : ComQueue) (a : ACq) : Prop := {
  cr_store : ∃ T, store_rel cfg (queues s) (escrow s) (a_queues a) T;
  cr_order : prioritized s = a_order a ∧ order_ok cfg (a_order a);
  cr_throttle : throttle s = a_throttle a ∧ length (a_throttle a) = TOTAL_PORT_COUNT;
  cr_send : send_state s = a_send a ∧ (a_send a = SendReady → a_busy a = None);
  cr_busy : buffer_owned s = bool_decide (a_busy a = None) ∧ (∀ i, a_busy a = Some i → i < TOTAL_PORT_COUNT);
  cr_recycle : recycle s = a_recycle a ∧
    ∀ st, a_recycle a = Some st → length st = FW_COM_BUFFER_MAX_SIZE ∧ Forall is_byte st;
}.

(** ** Records *)

Lemma length_com_record bs : length bs ≤ FW_COM_BUFFER_MAX_SIZE → length (com_record bs) = COM_RECORD_SIZE.
Proof.
  intros H. unfold com_record, COM_RECORD_SIZE in *. rewrite !length_splice, length_replicate; [lia|..];
    rewrite ?length_be_bytes, ?length_splice, ?length_replicate; rewrite ?length_be_bytes, ?length_replicate; lia.
Qed.

Lemma com_record_bytes bs : Forall is_byte bs → Forall is_byte (com_record bs).
Proof.
  intros H. apply Forall_splice; [|done]. apply Forall_splice; [|apply be_bytes_is_byte].
  apply Forall_replicate. unfold is_byte. lia.
Qed.

Lemma com_record_payload bs :
  length bs ≤ FW_COM_BUFFER_MAX_SIZE → slice 2 (length bs) (com_record bs) = bs.
Proof.
  intros H. unfold com_record. apply slice_splice.
  rewrite length_splice, length_replicate by (rewrite ?length_be_bytes, ?length_replicate; unfold COM_RECORD_SIZE; lia).
  unfold COM_RECORD_SIZE. lia.
Qed.

Lemma com_record_length bs :
  length bs ≤ FW_COM_BUFFER_MAX_SIZE →
  ∃ hi lo, com_record bs !! 0 = Some hi ∧ com_record bs !! 1 = Some lo ∧ Z.to_nat (hi * 256 + lo) = length bs.
Proof.
  intros H. assert (FW_COM_BUFFER_MAX_SIZE = 512) as E by reflexivity.
  assert (is_u 16 (Z.of_nat (length bs))) as Hu by (unfold is_u; lia).
  pose proof (be_value_be_bytes 2 (wrap 16 (Z.of_nat (length bs)))) as Hv.
  rewrite (wrap_small 16) in Hv by done. rewrite Z.mod_small in Hv by (unfold is_u in Hu; lia).
  pose proof (length_be_bytes 2 (wrap 16 (Z.of_nat (length bs)))) as Hl.
  assert (take 2 (com_record bs) = be_bytes 2 (wrap 16 (Z.of_nat (length bs)))) as Ht.
  { unfold com_record. rewrite take_splice_le, <-Hl at 1.
    - pose proof (slice_splice 0 (be_bytes 2 (wrap 16 (Z.of_nat (length bs)))) (replicate COM_RECORD_SIZE 0%Z)) as Hs.
      rewrite length_be_bytes, length_replicate in Hs. rewrite length_be_bytes. apply Hs. unfold COM_RECORD_SIZE. lia.
    - lia.
    - rewrite length_splice, length_replicate by (rewrite ?length_be_bytes, ?length_replicate; unfold COM_RECORD_SIZE; lia).
      unfold COM_RECORD_SIZE. lia. }
  rewrite (wrap_small 16) in Ht, Hl by done.
  destruct (be_bytes 2 (Z.of_nat (length bs))) as [|hi [|lo [|]]] eqn:Eb; try done.
  exists hi, lo. rewrite <-(lookup_take_lt _ 2 0), <-(lookup_take_lt _ 2 1), Ht by lia.
  split_and!; [done|done|]. unfold be_value in Hv. cbn in Hv. lia.
Qed.

(** ** The stored queues *)

Lemma spec_dequeue_pos m ms pk r :
  ms !! next_pos m (length ms) = Some r →
  spec_dequeue m (QSpec ms pk) = Some (r, QSpec (delete (next_pos m (length ms)) ms) pk).
Proof.
  destruct m; cbn [next_pos spec_dequeue].
  - destruct ms as [|x l]; [done|]. by intros [= ->].
  - destruct ms as [|x l _] using rev_ind; [done|]. cbn [msgs peak]. rewrite length_app. cbn [length].
    replace (length l + 1 - 1) with (length l) by lia. rewrite last_snoc, lookup_app_r, Nat.sub_diag by lia.
    intros [= ->]. rewrite take_app_length. do 3 f_equal. rewrite delete_take_drop, take_app_length, drop_ge; [|rewrite length_app; cbn; lia].
    by rewrite app_nil_r.
Qed.

(** The two ways a record is taken, and from where. *)
Definition takes `{bp : BuildProfile} (take : list Z → Queue → outcome (SerializeStatus * list Z * Queue)) (m : QueueMode) (n k : nat) : Prop :=
  (take = dequeue ∧ k = next_pos m n) ∨ (take = pop_front ∧ k = 0).

Lemma take_record_ok `{bp : BuildProfile} take i d q ms pk k r s :
  queues s !! i = Some q → represents d q (QSpec ms pk) → takes take (mode q) (length ms) k → ms !! k = Some r →
  ∃ q', take_record take i (message_size q) s = Ret (r, set_queues (<[i := q']> (queues s)) s, @nil CqOut) ∧
    represents d q' (QSpec (delete k ms) pk) ∧ same_config q q'.
Proof.
  intros Hq Hrep Ht Hr.
  assert (∃ q', take (replicate (message_size q) 0%Z) q = Ret (StOk, splice 0 r (replicate (message_size q) 0%Z), q') ∧
    represents d q' (QSpec (delete k ms) pk) ∧ same_config q q') as (q' & Et & Hrep' & Hc).
  { destruct Ht as [[-> ->]|[-> ->]].
    - pose proof (dequeue_refines d q _ (replicate (message_size q) 0%Z) Hrep) as H. rewrite length_replicate in H.
      specialize (H ltac:(lia)). by rewrite (spec_dequeue_pos _ _ _ _ Hr) in H.
    - pose proof (take_front_refines d q _ (replicate (message_size q) 0%Z) Hrep) as H. rewrite length_replicate in H.
      specialize (H ltac:(lia)). unfold pop_front. rewrite fw_assert_true, outcome_bind_ret
        by (apply bool_decide_eq_true_2; rewrite length_replicate; lia).
      destruct ms as [|x ms]; [done|]. injection Hr as ->. done. }
  exists q'. split; [|done]. unfold take_record, get_queue, put_queue.
  rewrite (comp_bind_quiet _ _ _ q s) by (erewrite comp_bind_quiet by done; unfold lift; by rewrite (index_get_ok _ _ _ Hq)).
  rewrite (comp_lift_ok _ _ _ _ Et). cbn. rewrite splice_all; [done|]. rewrite length_replicate.
  destruct Hrep as (_ & _ & _ & _ & Hall & _). by eapply Forall_lookup_1 in Hall.
Qed.

Lemma enqueue_record_ok `{bp : BuildProfile} i d q ms pk r s :
  queues s !! i = Some q → represents d q (QSpec ms pk) → Forall is_byte r → length r = message_size q → 0 < d →
  let '(st, ms') := spec_enqueue d (overflow_mode q) r (QSpec ms pk) in
  ∃ q', enqueue_record i r s = Ret (st, set_queues (<[i := q']> (queues s)) s, @nil CqOut) ∧
    represents d q' ms' ∧ same_config q q'.
Proof.
  intros Hq Hrep Hb Hl Hd. pose proof (enqueue_refines d q _ r Hrep Hb Hl Hd) as H.
  destruct (spec_enqueue d (overflow_mode q) r (QSpec ms pk)) as [st ms']. destruct H as (q' & Ee & ? & ?).
  exists q'. split; [|done]. unfold enqueue_record, get_queue, put_queue.
  rewrite (comp_bind_quiet _ _ _ q s) by (erewrite comp_bind_quiet by done; unfold lift; by rewrite (index_get_ok _ _ _ Hq)).
  by rewrite (comp_lift_ok _ _ _ _ Ee).
Qed.

(** ** Tokens *)

Lemma Forall2_impl_in {A B} (P Q : A → B → Prop) l k :
  Forall2 P l k → (∀ x y, x ∈ l → P x y → Q x y) → Forall2 Q l k.
Proof.
  induction 1 as [|x y l k Hxy _ IH]; intros H; constructor; [apply H; [by left|done]|].
  apply IH. intros x' y' Hx. apply H. by right.
Qed.

Lemma tokens_claim n e T l k t :
  tokens_rel n e T l → T !! k = Some t →
  ∃ b e', claim t e = Ret (b, e') ∧ l !! k = Some (IBuf b) ∧ tokens_rel n e' (delete k T) (delete k l).
Proof.
  intros [He Hnd Hl Ho Hs] Hk. destruct (Forall2_lookup_l _ _ _ _ _ Hl Hk) as (it & Hit & Ht & b & -> & Hb).
  pose proof (claim_ok t e He Ht) as Hc. pose proof (delete_Permutation _ _ _ Hk) as HP.
  rewrite HP in Hnd. apply NoDup_cons in Hnd as [Hni Hnd].
  rewrite Hb in Hc. destruct Hc as (e' & Ec & He' & Hlen & Hlk). exists b, e'. split_and!; [done|done|].
  split; [done|done| | |lia].
  - eapply Forall2_impl_in; [by apply Forall2_delete|]. intros t' it Hin (Hu & b' & -> & Hb').
    split; [done|]. exists b'. rewrite Hlk, decide_False; [done|]. by intros ->.
  - intros t' b' H. rewrite Hlk in H. case_decide; [done|]. apply Ho in H. rewrite HP in H.
    by apply elem_of_cons in H as [?|?].
Qed.

Lemma tokens_deposit n e T l b :
  tokens_rel n e T l → length l ≤ n → (Z.of_nat n < 2 ^ 32 - 2)%Z →
  ∃ t e', deposit b e = Ret (t, e') ∧ is_u 64 t ∧ tokens_rel n e' (T ++ [t]) (l ++ [IBuf b]).
Proof.
  intros [He Hnd Hl Ho Hs] Hn Hz. pose proof (Forall2_length _ _ _ Hl) as Hlen.
  destruct (deposit_bounded b e T n He Ho ltac:(lia) Hs Hz) as (t & e' & Ed & (He' & Hu & Hnone & Hlk & _) & Hs').
  exists t, e'. split_and!; [done|done|].
  assert (t ∉ T) as Hni.
  { intros (k & Hk)%list_elem_of_lookup. destruct (Forall2_lookup_l _ _ _ _ _ Hl Hk) as (? & _ & _ & ? & _ & ?). congruence. }
  split; [done| | | |done].
  - apply NoDup_app. split_and!; [done| |apply NoDup_singleton]. by intros x Hx ->%list_elem_of_singleton.
  - apply Forall2_app.
    + eapply Forall2_impl_in; [done|]. intros t' it Hin (Hu' & b' & -> & Hb'). split; [done|]. exists b'.
      rewrite Hlk, decide_False; [done|]. by intros ->.
    + constructor; [|constructor]. split; [done|]. exists b. by rewrite Hlk, decide_True.
  - intros t' b' H. rewrite Hlk in H. apply elem_of_app. case_decide; [subst; right; by left|]. left. by eapply Ho.
Qed.

(** ** The store *)

Section store.
Context `{bp : BuildProfile} {cfg : list QueueConfigurationEntry} (Hcfg : config_ok cfg).

Lemma config_lookup i : i < TOTAL_PORT_COUNT → ∃ e, cfg !! i = Some e ∧ 0 < cfg_depth e ∧ (Z.of_nat (cfg_depth e) < 2 ^ 32 - 2)%Z.
Proof.
  intros Hi. destruct (lookup_lt_is_Some_2 cfg i) as [e He]; [by rewrite (co_length _ Hcfg)|].
  exists e. split; [done|]. pose proof (Forall_lookup_1 _ _ _ _ (co_entries _ Hcfg) He) as H. naive_solver.
Qed.

Lemma store_lookup qs esc a T i :
  store_rel cfg qs esc (a_queues a) T → i < TOTAL_PORT_COUNT →
  ∃ e q, cfg !! i = Some e ∧ qs !! i = Some q ∧ a_queues a !! i = Some (a_items i a, a_peak i a) ∧
    queue_rel i e T q (a_items i a, a_peak i a).
Proof.
  intros HS Hi. destruct (config_lookup i Hi) as (e & He & _). destruct (sr_lengths _ _ _ _ _ HS) as [Hq Ha].
  destruct (lookup_lt_is_Some_2 qs i) as [q Eq]; [by rewrite Hq|].
  destruct (lookup_lt_is_Some_2 (a_queues a) i) as [[l pk] Ea]; [by rewrite Ha|].
  exists e, q. unfold a_items, a_peak. rewrite Ea. cbn. split_and!; try done. by eapply sr_queues.
Qed.

Lemma store_sizes qs esc a T i q :
  store_rel cfg qs esc (a_queues a) T → i < TOTAL_PORT_COUNT → qs !! i = Some q →
  get_queue_size q = length (a_items i a) ∧ queue_high_water_mark q = a_peak i a.
Proof.
  intros HS Hi Hq. destruct (store_lookup _ _ _ _ i HS Hi) as (e & q' & He & Hq' & Ha & HR).
  assert (q' = q) as -> by congruence. destruct (queue_sizes _ _ _ (qr_repr _ _ _ _ _ HR)) as [-> ->]. cbn [msgs peak fst snd].
  split; [|done]. unfold records. case_decide; rewrite length_fmap; [done|].
  assert (i = COM_PORT_COUNT) as -> by (unfold TOTAL_PORT_COUNT, COM_PORT_COUNT, BUFFER_PORT_COUNT in *; lia).
  apply (Forall2_length _ _ _ (tr_lookup _ _ _ _ (sr_tokens _ _ _ _ _ HS e _ He Ha))).
Qed.

(** Changing one queue; the buffer queue with its tokens. *)
Lemma store_update qs esc aqs T i e q x esc' T' :
  store_rel cfg qs esc aqs T → cfg !! i = Some e → queue_rel i e T' q x →
  (if decide (i < COM_PORT_COUNT) then T' = T ∧ esc' = esc else tokens_rel (cfg_depth e) esc' T' x.1) →
  store_rel cfg (<[i := q]> qs) esc' (<[i := x]> aqs) T'.
Proof.
  intros HS He Hq Ht. pose proof (lookup_lt_Some _ _ _ He) as Hi. rewrite (co_length _ Hcfg) in Hi.
  destruct (sr_lengths _ _ _ _ _ HS) as [Hlq Hla]. split; [by rewrite !length_insert| |].
  - intros j e' q' x' He' Hq' Hx'. destruct (decide (j = i)) as [->|Hj].
    { rewrite list_lookup_insert_eq in Hq' by lia; rewrite list_lookup_insert_eq in Hx' by lia. by simplify_eq. }
    rewrite list_lookup_insert_ne in Hq' by done; rewrite list_lookup_insert_ne in Hx' by done. destruct (sr_queues _ _ _ _ _ HS j e' q' x') as [H1 H2 H3 H4 H5]; try done.
    split; try done. unfold records in *. destruct (decide (i < COM_PORT_COUNT)); [by destruct Ht as [-> _]|].
    case_decide; [done|]. apply lookup_lt_Some in He'. rewrite (co_length _ Hcfg) in He'.
    unfold TOTAL_PORT_COUNT, COM_PORT_COUNT, BUFFER_PORT_COUNT in *. lia.
  - intros e' x' He' Hx'. destruct (decide (COM_PORT_COUNT = i)) as [<-|Hj].
    { rewrite list_lookup_insert_eq in Hx' by lia. by simplify_eq. }
    rewrite list_lookup_insert_ne in Hx' by done. case_decide as Hc.
    { destruct Ht as [-> ->]. by eapply sr_tokens. }
    unfold TOTAL_PORT_COUNT, COM_PORT_COUNT, BUFFER_PORT_COUNT in *. lia.
Qed.

(** Taking the packet at position [k] of a com queue. *)
Lemma take_com_ok take i k it s a T :
  store_rel cfg (queues s) (escrow s) (a_queues a) T → i < COM_PORT_COUNT → a_items i a !! k = Some it →
  takes take (mode_of cfg i) (length (a_items i a)) k →
  ∃ bs q', it = ICom bs ∧ item_ok i it ∧
    take_record take i COM_RECORD_SIZE s = Ret (com_record bs, set_queues (<[i := q']> (queues s)) s, @nil CqOut) ∧
    store_rel cfg (<[i := q']> (queues s)) (escrow s) (<[i := (delete k (a_items i a), a_peak i a)]> (a_queues a)) T.
Proof.
  intros HS Hi Hk Ht. destruct (store_lookup _ _ _ _ i HS) as (e & q & He & Hq & Ha & [Hrep Hsz Hm Ho Hit]);
    [unfold TOTAL_PORT_COUNT, COM_PORT_COUNT in *; lia|].
  pose proof (Forall_lookup_1 _ _ _ _ Hit Hk) as Hok. destruct it as [bs|b]; cbn in Hok; [|lia].
  cbn [fst snd] in *. unfold records in Hrep. rewrite decide_True in Hrep by done.
  unfold record_size in Hsz. rewrite decide_True in Hsz by done. unfold mode_of in Ht. rewrite He in Ht. cbn in Ht. rewrite <-Hm in Ht.
  destruct (take_record_ok take i _ q _ _ k (com_record bs) s Hq Hrep) as (q' & Et & Hrep' & Hc1 & Hc2 & Hc3).
  { by rewrite length_fmap. }
  { by rewrite list_lookup_fmap, Hk. }
  exists bs, q'. rewrite <-Hsz. split_and!; [done|done|done|].
  eapply store_update; [done|done| |by rewrite decide_True].
  split; cbn; [|unfold record_size; rewrite decide_True by done; congruence|congruence|congruence|by apply Forall_delete].
  unfold records. rewrite decide_True by done. by rewrite list_fmap_delete.
Qed.

(** Taking the buffer at position [k] of the buffer queue, through its
    token. *)
Lemma take_buffer_ok {A} take k it s a T (f : Buffer → CompM ComQueue CqOut A) :
  store_rel cfg (queues s) (escrow s) (a_queues a) T → a_items COM_PORT_COUNT a !! k = Some it →
  takes take (mode_of cfg COM_PORT_COUNT) (length (a_items COM_PORT_COUNT a)) k →
  ∃ b q' esc' T', it = IBuf b ∧ item_ok COM_PORT_COUNT it ∧
    (record ← take_record take COM_PORT_COUNT BUFFER_RECORD_SIZE; b ← claim_buffer (be_value record); f b) s =
      f b (set_escrow esc' (set_queues (<[COM_PORT_COUNT := q']> (queues s)) s)) ∧
    store_rel cfg (<[COM_PORT_COUNT := q']> (queues s)) esc'
      (<[COM_PORT_COUNT := (delete k (a_items COM_PORT_COUNT a), a_peak COM_PORT_COUNT a)]> (a_queues a)) T'.
Proof.
  intros HS Hk Ht. destruct (store_lookup _ _ _ _ COM_PORT_COUNT HS) as (e & q & He & Hq & Ha & [Hrep Hsz Hm Ho Hit]);
    [unfold TOTAL_PORT_COUNT, BUFFER_PORT_COUNT; lia|].
  pose proof (sr_tokens _ _ _ _ _ HS e _ He Ha) as Htok. cbn [fst snd] in *.
  pose proof (Forall2_length _ _ _ (tr_lookup _ _ _ _ Htok)) as HlT.
  destruct (lookup_lt_is_Some_2 T k) as [t HTk]; [rewrite HlT; by eapply lookup_lt_Some|].
  destruct (tokens_claim _ _ _ _ _ _ Htok HTk) as (b & esc' & Ec & Hb & Htok').
  unfold mode_of in Ht. rewrite He in Ht. cbn in Ht. rewrite <-Hm in Ht.
  unfold records in Hrep. rewrite decide_False in Hrep by lia.
  unfold record_size in Hsz. rewrite decide_False in Hsz by lia.
  destruct (take_record_ok take COM_PORT_COUNT _ q _ _ k (be_bytes 8 t) s Hq Hrep) as (q' & Et & Hrep' & Hc1 & Hc2 & Hc3).
  { by rewrite length_fmap, HlT. }
  { by rewrite list_lookup_fmap, HTk. }
  assert (be_value (be_bytes 8 t) = t) as Ebv.
  { rewrite be_value_be_bytes, pow256, Z.mod_small; [done|].
    destruct (Forall2_lookup_l _ _ _ _ _ (tr_lookup _ _ _ _ Htok) HTk) as (_ & _ & Hu & _). exact Hu. }
  assert (it = IBuf b) as -> by congruence. exists b, q', esc', (delete k T). rewrite <-Hsz.
  split_and!; [done|by eapply (Forall_lookup_1 _ _ _ _ Hit)| |].
  - rewrite (comp_bind_quiet _ _ _ _ _ Et), Ebv. erewrite (comp_bind_quiet (claim_buffer t)); [done|].
    unfold claim_buffer. erewrite comp_bind_quiet by done. cbn [escrow set_queues]. by rewrite (comp_lift_ok _ _ _ _ Ec).
  - eapply store_update; [done|done| |by rewrite decide_False by lia].
    split; cbn [fst snd]; [|unfold record_size; rewrite decide_False by lia; congruence|congruence|congruence|by apply Forall_delete].
    unfold records. rewrite decide_False by lia. by rewrite list_fmap_delete.
Qed.

(** A packet enters its com queue. *)
Lemma enqueue_com_ok i bs s a T :
  store_rel cfg (queues s) (escrow s) (a_queues a) T → item_ok i (ICom bs) →
  let '(st, a1) := a_enqueue cfg i (ICom bs) a in
  ∃ q', enqueue_record i (com_record bs) s = Ret (st, set_queues (<[i := q']> (queues s)) s, @nil CqOut) ∧
    store_rel cfg (<[i := q']> (queues s)) (escrow s) (a_queues a1) T.
Proof.
  intros HS (Hi & Hb & Hlen). destruct (store_lookup _ _ _ _ i HS) as (e & q & He & Hq & Ha & [Hrep Hsz Hm Ho Hit]);
    [unfold TOTAL_PORT_COUNT, COM_PORT_COUNT in *; lia|].
  destruct (config_lookup i) as (e' & He' & Hd & _); [unfold TOTAL_PORT_COUNT, COM_PORT_COUNT in *; lia|].
  assert (e' = e) as -> by congruence. cbn [fst snd] in *.
  unfold records in Hrep. rewrite decide_True in Hrep by done. unfold record_size in Hsz. rewrite decide_True in Hsz by done.
  pose proof (enqueue_record_ok i _ q _ _ (com_record bs) s Hq Hrep (com_record_bytes _ Hb)) as H.
  rewrite length_com_record in H by lia. specialize (H ltac:(by symmetry) Hd). rewrite Ho in H.
  unfold a_enqueue. rewrite He. unfold spec_enqueue in H. cbn [msgs peak] in H. rewrite length_fmap in H.
  assert (∀ q' l' pk', represents (cfg_depth e) q' (QSpec (com_record ∘ message_bytes <$> l') pk') → same_config q q' →
    Forall (item_ok i) l' →
    store_rel cfg (<[i := q']> (queues s)) (escrow s) (a_queues (a_set_queue i (l', pk') a)) T) as Hup.
  { intros q' l' pk' Hr (Hc1 & Hc2 & Hc3) Hi'. eapply store_update; [done|done| |by rewrite decide_True].
    split; cbn [fst snd]; [|unfold record_size; rewrite decide_True by done; congruence|congruence|congruence|done].
    unfold records. by rewrite decide_True. }
  assert (item_ok i (ICom bs)) as Hnew by done. case_decide; [|destruct (cfg_overflow_mode e)].
  - destruct H as (q' & -> & Hr & Hc). exists q'. split; [done|]. apply Hup; [|done|by apply Forall_app_2; [|constructor]].
    by rewrite fmap_app.
  - destruct H as (q' & -> & Hr & Hc). exists q'. split; [done|]. by apply Hup.
  - destruct H as (q' & -> & Hr & Hc). exists q'. split; [done|]. apply Hup; [|done|].
    + rewrite fmap_app. by destruct (a_items i a).
    + apply Forall_app_2; [|by constructor]. destruct (a_items i a); [done|]. by inversion Hit.
Qed.

(** A token enters the buffer queue, which drops nothing itself. *)
Lemma enqueue_buffer_ok b t s a T e :
  store_rel cfg (queues s) (escrow s) (a_queues a) T → item_ok COM_PORT_COUNT (IBuf b) → cfg !! COM_PORT_COUNT = Some e →
  (cfg_overflow_mode e = DropOldest → length (a_items COM_PORT_COUNT a) < cfg_depth e) →
  ∀ esc', tokens_rel (cfg_depth e) esc' (T ++ [t]) (a_items COM_PORT_COUNT a ++ [IBuf b]) →
  ∃ q', let '(st, a1) := a_enqueue cfg COM_PORT_COUNT (IBuf b) a in
    enqueue_record COM_PORT_COUNT (be_bytes 8 t) (set_escrow esc' s) =
      Ret (st, set_queues (<[COM_PORT_COUNT := q']> (queues s)) (set_escrow esc' s), @nil CqOut) ∧
    if decide (length (a_items COM_PORT_COUNT a) < cfg_depth e)
    then st = StOk ∧ store_rel cfg (<[COM_PORT_COUNT := q']> (queues s)) esc' (a_queues a1) (T ++ [t])
    else st = NoRoomLeft ∧ ∀ esc2, tokens_rel (cfg_depth e) esc2 T (a_items COM_PORT_COUNT a) →
      store_rel cfg (<[COM_PORT_COUNT := q']> (queues s)) esc2 (a_queues a1) T.
Proof.
  intros HS Hnew He Hov esc' Htok.
  destruct (store_lookup _ _ _ _ COM_PORT_COUNT HS) as (e' & q & He' & Hq & Ha & [Hrep Hsz Hm Ho Hit]);
    [unfold TOTAL_PORT_COUNT, BUFFER_PORT_COUNT; lia|]. assert (e' = e) as -> by congruence. clear He'.
  destruct (config_lookup COM_PORT_COUNT) as (e' & He' & Hd & _); [unfold TOTAL_PORT_COUNT, BUFFER_PORT_COUNT; lia|].
  assert (e' = e) as -> by congruence. cbn [fst snd] in *.
  pose proof (Forall2_length _ _ _ (tr_lookup _ _ _ _ (sr_tokens _ _ _ _ _ HS e _ He Ha))) as HlT. cbn [fst] in HlT.
  unfold records in Hrep. rewrite decide_False in Hrep by lia. unfold record_size in Hsz. rewrite decide_False in Hsz by lia.
  pose proof (enqueue_record_ok COM_PORT_COUNT _ q _ _ (be_bytes 8 t) (set_escrow esc' s) Hq Hrep (be_bytes_is_byte 8 t)) as H.
  rewrite length_be_bytes in H. specialize (H ltac:(by symmetry) Hd). rewrite Ho in H.
  unfold spec_enqueue in H. cbn [msgs peak] in H. rewrite length_fmap, HlT in H. unfold a_enqueue. rewrite He.
  assert (∀ q' T' esc2 l' pk', represents (cfg_depth e) q' (QSpec (be_bytes 8 <$> T') pk') → same_config q q' →
    tokens_rel (cfg_depth e) esc2 T' l' → Forall (item_ok COM_PORT_COUNT) l' →
    store_rel cfg (<[COM_PORT_COUNT := q']> (queues s)) esc2 (a_queues (a_set_queue COM_PORT_COUNT (l', pk') a)) T') as Hup.
  { intros q' T' esc2 l' pk' Hr (Hc1 & Hc2 & Hc3) Ht Hi'. eapply store_update; [done|done| |by rewrite decide_False by lia].
    split; cbn [fst snd]; [|unfold record_size; rewrite decide_False by lia; congruence|congruence|congruence|done].
    unfold records. by rewrite decide_False by lia. }
  case_decide as Hroom; [|destruct (cfg_overflow_mode e) eqn:Eo; [|by specialize (Hov eq_refl)]].
  - destruct H as (q' & -> & Hr & Hc). exists q'. split_and!; [done|done|].
    apply Hup; [by rewrite fmap_app|done|done|by apply Forall_app_2; [|constructor]].
  - destruct H as (q' & -> & Hr & Hc). exists q'. split_and!; [done|done|]. intros esc2 Ht. by apply Hup.
Qed.
End store.
