(* ===== verification/ComQueueProof.v ===== *)
(** [Svc::ComQueue] refines its specification: handler by handler, then over
    every sequence of calls that keeps the protocol of the ports. *)

From stdpp Require Import sorting.
From S2P Require Import Prelude Serial SerialFacts Codec Fpp Packets Buffer CircularBuffer MsgQueue Escrow Comp ComQueue ComQueueFacts ComQueueSpec.

(** * Sending *)

Lemma set_throttle_ok i v s :
  i < length (throttle s) → set_throttle i v s = Ret (tt, set_throttles (<[i := v]> (throttle s)) s, @nil CqOut).
Proof.
  intros Hi. unfold set_throttle. erewrite comp_bind_quiet by done. by rewrite comp_assert_ok by (by apply bool_decide_eq_true_2).
Qed.

Section handlers.
Context `{bp : BuildProfile} {cfg : list QueueConfigurationEntry} (Hcfg : config_ok cfg) (w : CqPorts).
Context (Hdata : data_out w = true) (Hret : buffer_return_out w = [true]) (Hresp : cq_cmd_response_out w = true).

Lemma send_prepared_ok b i s :
  buffer_ok b → 2 ≤ size b → buffer_owned s = true →
  send_prepared w b i s =
    Ret (tt, set_send_state SendWaiting (set_owned false s), [CqDataOut b (message_context (window b) i)]).
Proof.
  intros Hb Hz Ho. destruct (get_deserializer_ok b Hb) as (ser & E & Hw & Hd & Has & _); [lia|].
  unfold send_prepared. rewrite (comp_lift_ok _ _ _ _ E). unfold deserialize_u16.
  rewrite (deserialize_be 2 (take 2 (window b)) (drop 2 (window b))); [|done|done| |].
  - erewrite comp_bind_quiet by done. erewrite comp_bind_quiet by done. rewrite comp_assert_ok by done.
    by rewrite comp_assert_ok by done.
  - rewrite length_take, length_window by done. lia.
  - unfold remaining_slice. by rewrite Has, Hd, drop_0, take_drop.
Qed.

Lemma send_com_record_ok bs i s :
  Forall is_byte bs → 2 ≤ length bs ≤ FW_COM_BUFFER_MAX_SIZE → buffer_owned s = true → send_state s = SendReady →
  (∀ st, recycle s = Some st → length st = FW_COM_BUFFER_MAX_SIZE ∧ Forall is_byte st) →
  send_com_record w (com_record bs) i s =
    Ret (tt, set_send_state SendWaiting (set_owned false (set_recycle None s)),
         [CqDataOut (message_buffer (ICom bs) (recycle s)) (message_context bs i)]).
Proof.
  intros Hb Hl Ho Hst Hrc. unfold send_com_record. erewrite comp_bind_quiet by done.
  rewrite comp_assert_ok by (by apply bool_decide_eq_true_2).
  destruct (com_record_length bs) as (hi & lo & Ehi & Elo & El); [lia|].
  rewrite (comp_lift_ok _ _ _ _ (index_get_ok _ _ _ Ehi)), (comp_lift_ok _ _ _ _ (index_get_ok _ _ _ Elo)), El.
  erewrite comp_bind_quiet by done.
  rewrite (comp_lift_ok _ _ _ bs).
  2: { rewrite copy_from_ok, com_record_payload; [done|lia|]. rewrite length_com_record by lia. unfold COM_RECORD_SIZE. lia. }
  set (st := default _ (recycle s)).
  assert (length st = FW_COM_BUFFER_MAX_SIZE ∧ Forall is_byte st) as [Hsl Hsb].
  { subst st. destruct (recycle s); [by apply Hrc|]. unfold default, from_option. rewrite length_replicate. split; [done|].
    apply Forall_replicate. unfold is_byte. lia. }
  rewrite (comp_lift_ok _ _ _ (MkBuffer (splice 0 bs st) 0 (length st) NO_CONTEXT)).
  2: { unfold data_write. rewrite buffer_data_ok, outcome_bind_ret by (by apply from_storage_ok).
    rewrite window_from_storage, copy_into_ok, outcome_bind_ret by lia. cbn [offset storage size context from_storage]. rewrite splice_all; [done|].
    by rewrite length_splice by lia. }
  assert (length (splice 0 bs st) = length st) as Hls by (rewrite length_splice; lia).
  rewrite (comp_lift_ok _ _ _ (MkBuffer (splice 0 bs st) 0 (length bs) NO_CONTEXT)).
  2: { unfold set_size. rewrite fw_assert_true; [done|]. apply bool_decide_eq_true_2. unfold Buffer_capacity. cbn. lia. }
  rewrite send_prepared_ok; [|split; cbn; [lia|by apply Forall_splice]|cbn; lia|done].
  unfold window. cbn [storage offset size]. rewrite slice_splice by lia. done.
Qed.

(** The search of [process_queue]. *)
Lemma first_nonempty_ok qs esc a T l i :
  store_rel cfg qs esc (a_queues a) T → Forall (λ m, meta_index m < TOTAL_PORT_COUNT) l →
  first_nonempty qs l i = Ret (i + match list_find (λ m, a_items (meta_index m) a ≠ []) l with
    | Some (k, _) => k | None => length l end).
Proof.
  intros HS Hl. revert i. induction Hl as [|m l Hm _ IH]; intros i; cbn; [by rewrite Nat.add_0_r|].
  destruct (store_lookup Hcfg _ _ _ _ (meta_index m) HS Hm) as (e & q & _ & Hq & _).
  rewrite (index_get_ok _ _ _ Hq), outcome_bind_ret.
  destruct (store_sizes Hcfg _ _ _ _ _ q HS Hm Hq) as [-> _].
  destruct (a_items (meta_index m) a) as [|it l'] eqn:Ei; cbn.
  - rewrite IH. case_decide; [done|]. destruct (list_find _ l) as [[k ?]|]; cbn; f_equal; lia.
  - by rewrite Nat.add_0_r.
Qed.

Lemma order_indices l : order_ok cfg l → Forall (λ m, meta_index m < TOTAL_PORT_COUNT) l.
Proof.
  intros Ho. apply Forall_forall. intros m Hm. apply (list_elem_of_fmap_2 meta_index) in Hm.
  rewrite (oo_perm _ _ Ho), elem_of_seq in Hm. lia.
Qed.

(** Serving an entry keeps the order. *)
Lemma order_sink pre m post : order_ok cfg (pre ++ m :: post) → order_ok cfg (pre ++ sink m post).
Proof.
  intros [Hp Hc Hs]. pose proof (sink_perm m post) as HP. split.
  - by rewrite HP.
  - by rewrite HP.
  - eapply sorted_by_priorities; [|done]. by rewrite !fmap_app, sink_priorities.
Qed.

(** One message leaves its queue. *)
Lemma dispatch_ok s a i it :
  let p := next_pos (mode_of cfg i) (length (a_items i a)) in
  cq_rel cfg s a → a_send a = SendReady → i < TOTAL_PORT_COUNT → a_items i a !! p = Some it →
  let '(o, a1) := a_dispatch it i (a_set_queue i (delete p (a_items i a), a_peak i a) a) in
  ∃ s1, dispatch_entry w i s = Ret (tt, s1, [o]) ∧ cq_rel cfg s1 a1.
Proof.
  intros p [[T HS] Hord Hth [Hst Hbz] [How Hbi] [Hrc Hrcl]] Hready Hi Hit.
  assert (buffer_owned s = true) as Hown by (rewrite How; apply bool_decide_eq_true_2; auto).
  unfold dispatch_entry, a_dispatch. destruct (decide (i < COM_PORT_COUNT)) as [Hc|Hc].
  - rewrite bool_decide_eq_true_2 by done. erewrite comp_bind_quiet by done. rewrite comp_assert_ok by done.
    destruct (take_com_ok Hcfg dequeue i p it s a T HS Hc Hit) as (bs & q' & -> & Hok & Et & HS'); [by left|].
    rewrite (comp_bind_quiet _ _ _ _ _ Et). destruct Hok as (_ & Hb & Hl).
    rewrite send_com_record_ok; cbn; [|done|done|done|congruence|by rewrite Hrc].
    eexists. split; [by rewrite Hrc|]. split; cbn; try done; [by exists T|naive_solver].
  - rewrite bool_decide_eq_false_2 by done.
    assert (i = COM_PORT_COUNT) as -> by (unfold TOTAL_PORT_COUNT, COM_PORT_COUNT, BUFFER_PORT_COUNT in *; lia).
    destruct (take_buffer_ok Hcfg dequeue p it s a T (λ b, send_buffer w b COM_PORT_COUNT) HS Hit)
      as (b & q' & esc' & T' & -> & (_ & Hb & Hz) & -> & HS'); [by left|].
    unfold send_buffer. erewrite comp_bind_quiet by done.
    rewrite comp_assert_ok by (apply bool_decide_eq_true_2; cbn; congruence).
    rewrite send_prepared_ok by done. eexists. split; [done|].
    split; cbn; try done; [by exists T'|naive_solver].
Qed.

(** [process_queue] serves the next message of the first non-empty queue in
    priority order. *)
Lemma process_ok s a :
  cq_rel cfg s a → a_send a = SendReady →
  ∃ s', process_queue w s = Ret (tt, s', (a_process cfg a).1) ∧ cq_rel cfg s' (a_process cfg a).2.
Proof.
  intros HR Hready. pose proof HR as [[T HS] [Ho Hord] _ [Hst _] _ _].
  pose proof (order_indices _ Hord) as Hidx.
  unfold process_queue. erewrite comp_bind_quiet by done.
  rewrite comp_assert_ok by (apply bool_decide_eq_true_2; congruence).
  erewrite comp_lift_ok by (eapply first_nonempty_ok; [done|by rewrite Ho]).
  unfold a_process, a_next. rewrite Ho. destruct (list_find _ (a_order a)) as [[k m]|] eqn:Ef.
  2: { rewrite lookup_ge_None_2 by lia. exists s. done. }
  apply list_find_Some in Ef as (Hk & Hne & _). cbn [Nat.add]. rewrite Hk.
  pose proof (Forall_lookup_1 _ _ _ _ Hidx Hk) as Hi. cbn in Hi. set (i := meta_index m) in *.
  assert (∃ it, a_items i a !! next_pos (mode_of cfg i) (length (a_items i a)) = Some it) as [it Hit].
  { apply lookup_lt_is_Some_2. destruct (a_items i a); [done|]. unfold next_pos. destruct (mode_of cfg i); cbn; lia. }
  rewrite Hit. pose proof (dispatch_ok s a i it HR Hready Hi Hit) as Hd.
  destruct (a_dispatch _ _ _) as [o a1] eqn:Ea. destruct Hd as (s1 & Ed & [HS1 [Ho1 Hord1] [Hth1 Hthl1] Hst1 How1 Hrc1]).
  rewrite (comp_bind_ret _ _ _ _ _ _ Ed), (comp_bind_quiet _ _ _ _ _ (set_throttle_ok i false s1 ltac:(by rewrite Hth1, Hthl1))).
  cbn. eexists. split; [done|].
  assert (a_order a1 = a_order a) as Eo by (by unfold a_dispatch in Ea; injection Ea as <- <-).
  pose proof (take_drop_middle _ _ _ Hk) as Emid. pose proof (lookup_lt_Some _ _ _ Hk) as Hlt.
  assert (rotate_loop (length (a_order a)) (S k) (meta_priority m) (a_order a) =
    take k (a_order a) ++ sink m (drop (S k) (a_order a))) as Er.
  { pose proof (rotate_loop_sink (length (a_order a)) (take k (a_order a)) m (drop (S k) (a_order a))) as Hr.
    rewrite Emid, length_take, Nat.min_l in Hr by lia. apply Hr. rewrite length_drop. lia. }
  split; cbn; try done.
  - rewrite Ho1, Eo, Er. split; [done|]. apply order_sink. by rewrite Emid.
  - rewrite length_insert. split; [by rewrite Hth1|done].
Qed.

(** * Accepting messages *)

Lemma handle_enqueue_status_eq i t port pre st s th :
  throttle s !! i = Some th →
  let warn := (pre || bool_decide (st = NoRoomLeft) || bool_decide (st = DiscardedExisting)) && negb th in
  let s1 := if warn then set_throttles (<[i := true]> (throttle s)) s else s in
  handle_enqueue_status w i t port pre st s =
    match when (bool_decide (send_state s = SendReady)) (process_queue w) s1 with
    | Panic => Panic
    | Ret (_, s2, o) => Ret (negb (bool_decide (st = NoRoomLeft)), s2, (if warn then [CqQueueOverflow t port] else []) ++ o)
    end.
Proof.
  intros Hth. cbn zeta. unfold handle_enqueue_status. erewrite comp_bind_quiet by done.
  pose proof (lookup_lt_Some _ _ _ Hth) as Hlt. destruct (_ || _) eqn:Eov; cbn [andb].
  - destruct th; cbn [negb].
    + erewrite comp_bind_quiet by (by rewrite (comp_lift_ok _ _ _ _ (index_get_ok _ _ _ Hth))).
      erewrite comp_bind_quiet by done. by rewrite comp_map; destruct (when _ _ s) as [[[? ?] ?]|].
    + erewrite (comp_bind_ret _ _ s tt (set_throttles (<[i := true]> (throttle s)) s) [CqQueueOverflow t port]).
      2: { rewrite (comp_lift_ok _ _ _ _ (index_get_ok _ _ _ Hth)). cbn [negb when]. by rewrite comp_emit, set_throttle_ok. }
      erewrite comp_bind_quiet by done. cbn [send_state set_throttles].
      rewrite comp_map. by destruct (when _ _ _) as [[[? ?] ?]|].
  - erewrite comp_bind_quiet by done. erewrite comp_bind_quiet by done. by rewrite comp_map; destruct (when _ _ s) as [[[? ?] ?]|].
Qed.

Lemma rel_throttle s a i v : cq_rel cfg s a → cq_rel cfg (set_throttles (<[i := v]> (throttle s)) s) (a_set_throttle i v a).
Proof. intros [? ? [Et ?] ? ? ?]. split; cbn; try done. rewrite length_insert. split; [by rewrite Et|done]. Qed.

Lemma settle_ok i t port pre st s a :
  cq_rel cfg s a → i < TOTAL_PORT_COUNT →
  let ov := pre || bool_decide (st = NoRoomLeft) || bool_decide (st = DiscardedExisting) in
  ∃ s', handle_enqueue_status w i t port pre st s =
      Ret (negb (bool_decide (st = NoRoomLeft)), s', (a_settle cfg i t port ov a).1) ∧
    cq_rel cfg s' (a_settle cfg i t port ov a).2.
Proof.
  intros HR Hi ov. pose proof (cr_throttle _ _ _ HR) as [Et Hl].
  destruct (lookup_lt_is_Some_2 (throttle s) i) as [th Hth]; [by rewrite Et, Hl|].
  rewrite (handle_enqueue_status_eq i t port pre st s th Hth). fold ov. unfold a_settle. rewrite <-Et, Hth.
  rewrite (bool_decide_ext (Some th = Some false) (negb th = true)) by (destruct th; naive_solver).
  replace (bool_decide (negb th = true)) with (negb th) by (by destruct th).
  set (s1 := if ov && negb th then _ else s). set (a1 := if ov && negb th then _ else a).
  assert (cq_rel cfg s1 a1 ∧ a_send a1 = send_state s) as [HR1 Hs1].
  { subst s1 a1. destruct (ov && negb th); cbn; (split; [by try apply rel_throttle|by destruct (cr_send _ _ _ HR)]). }
  rewrite Hs1. case_decide as Hs; cbn zeta.
  - rewrite bool_decide_eq_true_2 by done. cbn [when]. destruct (process_ok s1 a1 HR1) as (s2 & -> & HR2); [congruence|].
    destruct (a_process cfg a1) as [o a2]. by exists s2.
  - rewrite bool_decide_eq_false_2 by done. cbn. rewrite app_nil_r. by exists s1.
Qed.

Lemma rel_queue s a qs esc aqs T :
  cq_rel cfg s a → store_rel cfg qs esc aqs T →
  cq_rel cfg (set_escrow esc (set_queues qs s)) (MkA aqs (a_order a) (a_throttle a) (a_send a) (a_busy a) (a_recycle a)).
Proof. intros [] ?. split; cbn; try done. by exists T. Qed.

Lemma a_enqueue_rest i it a : 
  let a1 := (a_enqueue cfg i it a).2 in
  a1 = MkA (a_queues a1) (a_order a) (a_throttle a) (a_send a) (a_busy a) (a_recycle a) ∧
  (a_enqueue cfg i it a).1 ∈ [StOk; NoRoomLeft; DiscardedExisting].
Proof.
  clear Hcfg Hdata Hret Hresp. unfold a_enqueue. destruct (cfg !! i) as [e|]; [|destruct a; set_solver].
  case_decide; [|destruct (cfg_overflow_mode e)]; (split; [done|set_solver]).
Qed.

Lemma com_in_ok port data s a :
  cq_rel cfg s a → op_ok (OCom port data) a →
  ∃ s', com_packet_queue_in w (Z.of_nat port) data s = Ret (tt, s', (spec_step (cq_id_base w) cfg (OCom port data) a).1) ∧
    cq_rel cfg s' (spec_step (cq_id_base w) cfg (OCom port data) a).2.
Proof.
  intros HR (Hp & Hb & Hl). pose proof (cr_store _ _ _ HR) as [T HS].
  unfold com_packet_queue_in. rewrite comp_assert_ok by (rewrite (proj2 (Z.leb_le _ _)), (proj2 (Z.ltb_lt _ _)) by lia; done).
  rewrite Nat2Z.id. set (bs := as_slice data) in *. pose proof (enqueue_com_ok Hcfg port bs s a T HS) as He.
  pose proof (a_enqueue_rest port (ICom bs) a) as [Ea Est]. cbn [spec_step]. fold bs.
  destruct (a_enqueue cfg port (ICom bs) a) as [st a1]. cbn [fst snd] in *. destruct He as (q' & Ee & HS1); [done|].
  assert (port < TOTAL_PORT_COUNT) as Hp3 by (unfold TOTAL_PORT_COUNT; lia).
  destruct (settle_ok port TypeComQueue (Z.of_nat port) false st
    (set_queues (<[port := q']> (queues s)) s) a1) as (s' & Es & HR'); [|done|].
  { rewrite Ea. destruct HR as []. split; cbn; try done. by exists T. }
  exists s'. cbn [orb] in *.
  replace (negb (bool_decide (st = StOk))) with (bool_decide (st = NoRoomLeft) || bool_decide (st = DiscardedExisting))
    by (rewrite !elem_of_cons, elem_of_nil in Est; naive_solver).
  split; [|done]. unfold enqueue_com. erewrite (comp_bind_ret _ _ s); [by cbn; rewrite app_nil_r|].
  rewrite comp_assert_ok by (by apply bool_decide_eq_true_2). erewrite comp_bind_quiet by done.
  destruct (sr_lengths _ _ _ _ _ HS) as [Hlq _].
  rewrite comp_assert_ok by (apply bool_decide_eq_true_2; by rewrite Hlq).
  rewrite comp_assert_ok by (apply bool_decide_eq_true_2; lia). fold (com_record bs).
  rewrite (comp_bind_quiet _ _ _ _ _ Ee). exact Es.
Qed.

Lemma return_buffer_eq b s : return_buffer w 0 b s = Ret (tt, s, [CqBufferReturnOut 0 b]).
Proof. unfold return_buffer. by rewrite Hret. Qed.

Lemma find_meta_ok l i : order_ok cfg l → i < TOTAL_PORT_COUNT → ∃ m, find_meta i l = Some m ∧ m ∈ l ∧ meta_index m = i.
Proof.
  intros Ho Hi. assert (i ∈ meta_index <$> l) as Hin by (rewrite (oo_perm _ _ Ho); apply elem_of_seq; lia).
  apply list_elem_of_fmap in Hin as (m & -> & Hm). unfold find_meta.
  destruct (list_find_elem_of (λ m', meta_index m' = meta_index m) l m Hm eq_refl) as [[k m'] E]. rewrite E.
  exists m'. split; [done|]. apply list_find_Some in E as (E & ? & _). split; [by eapply list_elem_of_lookup_2|done].
Qed.

Lemma make_room_ok s a :
  cq_rel cfg s a →
  let '(full, dropped, a0) := a_make_room cfg a in
  ∃ s', make_room w COM_PORT_COUNT 0 s = Ret (full, s', CqBufferReturnOut 0 <$> dropped) ∧ cq_rel cfg s' a0 ∧
    a_send a0 = a_send a ∧ length (a_items COM_PORT_COUNT a0) ≤ length (a_items COM_PORT_COUNT a) ∧
    ∀ e, cfg !! COM_PORT_COUNT = Some e → length (a_items COM_PORT_COUNT a0) ≤ cfg_depth e ∧
      (cfg_overflow_mode e = DropOldest → length (a_items COM_PORT_COUNT a0) < cfg_depth e).
Proof.
  intros HR. pose proof HR as [[T HS] [Eo Hord] _ _ _ _]. unfold make_room. erewrite comp_bind_quiet by done. rewrite Eo.
  assert (COM_PORT_COUNT < TOTAL_PORT_COUNT) as H2 by (unfold TOTAL_PORT_COUNT, BUFFER_PORT_COUNT; lia).
  destruct (find_meta_ok _ _ Hord H2) as (m & -> & Hin & Hmi).
  pose proof (oo_cfg _ _ Hord) as Hc. rewrite Forall_forall in Hc. destruct (Hc m Hin) as (e & He & Hmd & Hmo). rewrite Hmi in He.
  destruct (store_lookup Hcfg _ _ _ _ COM_PORT_COUNT HS H2) as (e' & q & He' & Hq & Ha & HQ).
  assert (e' = e) as -> by congruence. clear He'. destruct (config_lookup Hcfg _ H2) as (e' & He' & Hd & _).
  assert (e' = e) as -> by congruence. clear He'.
  pose proof (represents_size _ _ _ (qr_repr _ _ _ _ _ HQ)) as [_ Hmax]. destruct (store_sizes Hcfg _ _ _ _ _ q HS H2 Hq) as [Hsz _].
  pose proof (queue_sizes _ _ _ (qr_repr _ _ _ _ _ HQ)) as [Hsz' _]. rewrite Hsz in Hsz'. rewrite <-Hsz' in Hmax.
  unfold a_make_room. rewrite He, Hmd, Hmo.
  destruct (decide (cfg_overflow_mode e = DropOldest)) as [Eov|Eov]; cbn.
  2: { rewrite bool_decide_eq_false_2 by done. cbn. exists s. split_and!; try done. intros e' He'. assert (e' = e) as -> by congruence. naive_solver. }
  rewrite (bool_decide_eq_true_2 (_ = DropOldest)) by done. cbn [andb].
  erewrite (comp_bind_quiet (get_queue COM_PORT_COUNT) _ s q s)
    by (unfold get_queue; erewrite comp_bind_quiet by done; unfold lift; by rewrite (index_get_ok _ _ _ Hq)).
  rewrite Hsz. case_bool_decide as Hfull.
  2: { exists s. split_and!; try done. intros e' He'. assert (e' = e) as -> by congruence. split; [done|]. lia. }
  destruct (a_items COM_PORT_COUNT a) as [|it l] eqn:Ei; [cbn in Hfull; lia|].
  destruct (take_buffer_ok Hcfg pop_front 0 it s a T (λ d, _ ← return_buffer w 0 d; mret true) HS)
    as (b & q' & esc' & T' & -> & _ & -> & HS'); [by rewrite Ei|by right|].
  rewrite (comp_bind_ret _ _ _ _ _ _ (return_buffer_eq b _)). eexists. split; [done|]. rewrite Ei in HS'.
  assert (a_items COM_PORT_COUNT (a_set_queue COM_PORT_COUNT (delete 0 (IBuf b :: l), a_peak COM_PORT_COUNT a) a) = l) as El.
  { unfold a_items. cbn [a_set_queue a_queues].
    by rewrite list_lookup_insert_eq by (by rewrite (proj2 (sr_lengths _ _ _ _ _ HS))). }
  rewrite El. split_and!; [by eapply rel_queue|done|cbn; lia|].
  intros e' He'. assert (e' = e) as -> by congruence. cbn in *. lia.
Qed.

(** Nothing waits while the component may send. *)
Definition idle_ok (a : ACq) : Prop := a_send a = SendReady → ∀ i, a_items i a = [].

Lemma buffer_in_ok b s a :
  cq_rel cfg s a → idle_ok a → op_ok (OBuf b) a →
  ∃ s', buffer_queue_in w 0 b s = Ret (tt, s', (spec_step (cq_id_base w) cfg (OBuf b) a).1) ∧ cq_rel cfg s' (spec_step (cq_id_base w) cfg (OBuf b) a).2.
Proof.
  intros HR Hidle (Hb & Hz). pose proof (cr_store _ _ _ HR) as [T0 HS0].
  assert (COM_PORT_COUNT < TOTAL_PORT_COUNT) as H2 by (unfold TOTAL_PORT_COUNT, BUFFER_PORT_COUNT; lia).
  unfold buffer_queue_in. rewrite comp_assert_ok by done. erewrite comp_bind_quiet by done. change (Z.to_nat 0 + COM_PORT_COUNT) with COM_PORT_COUNT.
  rewrite comp_assert_ok by (apply bool_decide_eq_true_2; by rewrite (proj1 (sr_lengths _ _ _ _ _ HS0))).
  pose proof (make_room_ok s a HR) as Hm. cbn [spec_step]. destruct (a_make_room cfg a) as [[full dropped] a0].
  destruct Hm as (s0 & Em & HR0 & Hsd & Hle & Hroom). rewrite (comp_bind_ret _ _ _ _ _ _ Em).
  pose proof HR0 as [[T HS] _ [Et Htl] [Est _] _ _].
  destruct (config_lookup Hcfg _ H2) as (e & He & Hd & Hz32). destruct (Hroom e He) as [Hlen Hdo].
  destruct (store_lookup Hcfg _ _ _ _ COM_PORT_COUNT HS H2) as (_ & _ & _ & _ & Ha & _).
  pose proof (sr_tokens _ _ _ _ _ HS e _ He Ha) as Htok. cbn [fst] in Htok.
  destruct (tokens_deposit _ _ _ _ b Htok Hlen Hz32) as (t & esc1 & Edep & Hu & Htok1).
  assert (deposit_buffer b s0 = Ret (t, set_escrow esc1 s0, @nil CqOut)) as Ed1.
  { unfold deposit_buffer. erewrite comp_bind_quiet by done. by rewrite (comp_lift_ok _ _ _ _ Edep). }
  rewrite (comp_bind_quiet _ _ _ _ _ Ed1).
  destruct (enqueue_buffer_ok Hcfg b t s0 a0 T e HS ltac:(done) He Hdo esc1 Htok1) as (q' & Henq).
  pose proof (a_enqueue_rest COM_PORT_COUNT (IBuf b) a0) as [Ea _].
  destruct (a_enqueue cfg COM_PORT_COUNT (IBuf b) a0) as [st a1]. cbn [fst snd] in Ea. destruct Henq as [Ee Hres].
  rewrite (comp_bind_quiet _ _ _ _ _ Ee). case_decide as Hfit; destruct Hres as [-> HS1].
  - destruct (settle_ok COM_PORT_COUNT TypeBufferQueue 0 full StOk
      (set_queues (<[COM_PORT_COUNT := q']> (queues s0)) (set_escrow esc1 s0)) a1) as (s' & Es & HR'); [|done|].
    { rewrite Ea. destruct HR0. split; cbn; try done. by exists (T ++ [t]). }
    cbn [orb negb] in *. rewrite (comp_bind_ret _ _ _ _ _ _ Es). cbn. rewrite !orb_false_r in *.
    destruct (a_settle _ _ _ _ _ _) as [o a2]. exists s'. split; [|done]. done.
  - assert (send_state s0 = SendWaiting) as Hw.
    { rewrite Est. destruct (a_send a0) eqn:Es; [|done]. rewrite (Hidle ltac:(congruence)) in Hle. cbn in Hle. lia. }
    destruct (lookup_lt_is_Some_2 (throttle s0) COM_PORT_COUNT) as [th Hth]; [by rewrite Et, Htl|].
    set (s1 := set_queues _ _). pose proof (handle_enqueue_status_eq COM_PORT_COUNT TypeBufferQueue 0 full NoRoomLeft s1 th Hth) as Hst.
    cbn zeta in Hst. rewrite (bool_decide_eq_true_2 (NoRoomLeft = NoRoomLeft)) in Hst by done.
    rewrite orb_true_r in Hst. cbn [orb andb negb] in Hst.
    rewrite (bool_decide_eq_false_2 (send_state s1 = SendReady)) in Hst by (cbn; by rewrite Hw). cbn [when mret CompM_ret] in Hst.
    rewrite (comp_bind_ret _ _ _ _ _ _ Hst). cbn [negb when]. clear Hst.
    pose proof (Forall2_length _ _ _ (tr_lookup _ _ _ _ Htok)) as HlT.
    destruct (tokens_claim _ _ _ _ (length T) t Htok1) as (b' & esc2 & Ec & Hb' & Htok2); [by rewrite lookup_app_r, Nat.sub_diag by lia|].
    rewrite HlT, lookup_app_r, Nat.sub_diag in Hb' by lia. injection Hb' as <-.
    rewrite delete_middle, app_nil_r, HlT, delete_middle, app_nil_r in Htok2.
    set (s2 := if negb th then _ else s1).
    assert (claim_buffer t s2 = Ret (b, set_escrow esc2 s2, @nil CqOut)) as Ecl.
    { unfold claim_buffer. erewrite comp_bind_quiet by done. replace (escrow s2) with esc1 by (subst s2; by destruct th).
      by rewrite (comp_lift_ok _ _ _ _ Ec). }
    rewrite (comp_bind_quiet _ _ _ _ _ Ecl), return_buffer_eq.
    specialize (HS1 esc2 Htok2). unfold a_settle. rewrite orb_true_r. cbn [andb].
    assert (a_throttle a1 = throttle s0 ∧ a_send a1 = SendWaiting) as [Eth1 Esd1] by (rewrite Ea, Et; cbn; split; congruence).
    rewrite Eth1, Hth. assert (cq_rel cfg (set_escrow esc2 s1) a1) as HR1.
    { rewrite Ea. destruct HR0. split; cbn; try done. by exists T. }
    exists (set_escrow esc2 s2). subst s2. rewrite (decide_True _ _ (eq_refl NoRoomLeft)).
    destruct th; cbn [negb]; [rewrite (bool_decide_eq_false_2 (Some true = _)) by done|rewrite bool_decide_eq_true_2 by done];
      cbn [a_set_throttle a_send]; rewrite decide_False by (by rewrite Esd1); (split; [done|]); [exact HR1|].
    destruct HR1 as [? ? [Ex ?] ? ? ?]. split; cbn; try done. rewrite length_insert. split; [by rewrite Eth1|done].
Qed.

(** * Flushing *)

Lemma drain_order_next {A} m (l : list A) x :
  l !! next_pos m (length l) = Some x → drain_order m l = x :: drain_order m (delete (next_pos m (length l)) l).
Proof.
  destruct m; cbn.
  - destruct l; [done|]. by intros [= ->].
  - destruct l as [|y l _] using rev_ind; [done|]. rewrite length_app. cbn. replace (length l + 1 - 1) with (length l) by lia.
    rewrite lookup_app_r, Nat.sub_diag by lia. intros [= ->]. by rewrite delete_middle, app_nil_r, reverse_snoc.
Qed.

Lemma a_set_queue_lookup i x a : i < length (a_queues a) → a_items i (a_set_queue i x a) = x.1 ∧ a_peak i (a_set_queue i x a) = x.2.
Proof. intros Hi. unfold a_items, a_peak. cbn. by rewrite list_lookup_insert_eq. Qed.

Lemma a_set_queue_twice i x y a : a_set_queue i y (a_set_queue i x a) = a_set_queue i y a.
Proof. unfold a_set_queue. cbn. by rewrite list_insert_insert_eq. Qed.

Lemma a_drain_next i a it :
  i < length (a_queues a) →
  let p := next_pos (mode_of cfg i) (length (a_items i a)) in
  a_items i a !! p = Some it →
  let a1 := a_set_queue i (delete p (a_items i a), a_peak i a) a in
  a_drain cfg i a = ((CqBufferReturnOut (i - COM_PORT_COUNT) <$> option_list (item_buffer it)) ++ (a_drain cfg i a1).1, (a_drain cfg i a1).2).
Proof.
  intros Hi p Hit a1. unfold a_drain. destruct (a_set_queue_lookup i (delete p (a_items i a), a_peak i a) a Hi) as [E1 E2].
  subst a1. rewrite E1, E2, a_set_queue_twice, (drain_order_next _ _ _ Hit). cbn. by destruct (item_buffer it).
Qed.

Lemma drain_loop_ok n i s a :
  cq_rel cfg s a → i < TOTAL_PORT_COUNT → length (a_items i a) = n →
  ∃ s', drain_loop w n i s = Ret (tt, s', (a_drain cfg i a).1) ∧ cq_rel cfg s' (a_drain cfg i a).2.
Proof.
  revert s a. induction n as [|n IH]; intros s a HR Hi Hn; pose proof (cr_store _ _ _ HR) as [T HS].
  { exists s. apply nil_length_inv in Hn. unfold a_drain. rewrite Hn.
    replace (drain_order (mode_of cfg i) []) with (@nil item) by (by destruct (mode_of cfg i)). split; [done|].
    destruct (store_lookup Hcfg _ _ _ _ i HS Hi) as (_ & _ & _ & _ & Ha & _). rewrite Hn in Ha.
    unfold a_set_queue. rewrite list_insert_id by done. by destruct a. }
  pose proof (proj2 (sr_lengths _ _ _ _ _ HS)) as Hla. set (p := next_pos (mode_of cfg i) (length (a_items i a))).
  destruct (lookup_lt_is_Some_2 (a_items i a) p) as [it Hit]; [subst p; destruct (mode_of cfg i); cbn; lia|].
  rewrite (a_drain_next i a it) by (done || lia). fold p. cbn [fst snd drain_loop].
  set (a1 := a_set_queue i _ a).
  assert (length (a_items i a1) = n) as Hn1.
  { destruct (a_set_queue_lookup i (delete p (a_items i a), a_peak i a) a) as [E _]; [by rewrite Hla|].
    subst a1. rewrite E. cbn [fst]. rewrite length_delete; [lia|by exists it]. }
  destruct (decide (i < COM_PORT_COUNT)) as [Hc|Hc].
  - rewrite bool_decide_eq_true_2 by done.
    destruct (take_com_ok Hcfg dequeue i p it s a T HS Hc Hit) as (bs & q' & -> & _ & Et & HS'); [by left|].
    erewrite (comp_bind_quiet _ _ s) by (by rewrite (comp_bind_quiet _ _ _ _ _ Et)).
    destruct (IH (set_queues (<[i := q']> (queues s)) s) a1) as (s' & -> & HR'); [|done|done|by exists s'].
    destruct HR. split; cbn; try done. by exists T.
  - rewrite bool_decide_eq_false_2 by done.
    assert (i = COM_PORT_COUNT) as -> by (unfold TOTAL_PORT_COUNT, COM_PORT_COUNT, BUFFER_PORT_COUNT in *; lia).
    destruct (take_buffer_ok Hcfg dequeue p it s a T (λ b, return_buffer w (COM_PORT_COUNT - COM_PORT_COUNT) b) HS Hit)
      as (b & q' & esc' & T' & -> & _ & Et & HS'); [by left|].
    change (COM_PORT_COUNT - COM_PORT_COUNT) with 0 in *. rewrite return_buffer_eq in Et.
    rewrite (comp_bind_ret _ _ _ _ _ _ Et).
    destruct (IH (set_escrow esc' (set_queues (<[COM_PORT_COUNT := q']> (queues s)) s)) a1) as (s' & -> & HR');
      [by eapply rel_queue|done|done|by exists s'].
Qed.

Lemma drain_queue_ok i s a :
  cq_rel cfg s a → i < TOTAL_PORT_COUNT →
  ∃ s', drain_queue w i s = Ret (tt, s', (a_drain cfg i a).1) ∧ cq_rel cfg s' (a_drain cfg i a).2.
Proof.
  intros HR Hi. pose proof (cr_store _ _ _ HR) as [T HS]. unfold drain_queue.
  rewrite comp_assert_ok by (by apply bool_decide_eq_true_2).
  destruct (store_lookup Hcfg _ _ _ _ i HS Hi) as (_ & q & _ & Hq & _).
  erewrite (comp_bind_quiet (get_queue i) _ s q s)
    by (unfold get_queue; erewrite comp_bind_quiet by done; unfold lift; by rewrite (index_get_ok _ _ _ Hq)).
  rewrite (proj1 (store_sizes Hcfg _ _ _ _ _ q HS Hi Hq)). by apply drain_loop_ok.
Qed.

Lemma cmd_response_eq op cmd_seq r s : cq_cmd_response w op cmd_seq r s = Ret (tt, s, [CqCmdResponse op cmd_seq r]).
Proof. unfold cq_cmd_response. by rewrite Hresp. Qed.

Lemma in_range_spec z : in_range z = negb ((z <? 0)%Z || (Z.of_nat TOTAL_PORT_COUNT <=? z)%Z).
Proof. unfold in_range. lia. Qed.

Lemma flush_ok op cmd_seq t index s a :
  cq_rel cfg s a →
  let r := spec_cmd cfg op cmd_seq (CFlush t index) a in
  ∃ s', flush_queue_cmd w op cmd_seq t index s = Ret (tt, s', r.1) ∧ cq_rel cfg s' r.2.
Proof.
  intros HR. cbn [spec_cmd]. unfold flush_queue_cmd. rewrite in_range_spec. set (i := get_queue_num t index).
  destruct (_ || _) eqn:Er; cbn [negb]; [rewrite cmd_response_eq; by exists s|].
  apply orb_false_iff in Er as [E1%Z.ltb_ge E2%Z.leb_gt].
  destruct (drain_queue_ok (Z.to_nat i) s a HR) as (s' & Ed & HR'); [lia|].
  rewrite (comp_bind_ret _ _ _ _ _ _ Ed), cmd_response_eq. destruct (a_drain _ _ _) as [o a1]. by exists s'.
Qed.

Lemma flush_all_ok op cmd_seq s a :
  cq_rel cfg s a →
  let r := spec_cmd cfg op cmd_seq CFlushAll a in
  ∃ s', flush_all_queues_cmd w op cmd_seq s = Ret (tt, s', r.1) ∧ cq_rel cfg s' r.2.
Proof.
  intros HR. cbn [spec_cmd]. unfold flush_all_queues_cmd. change TOTAL_PORT_COUNT with 3. cbn [drain_all].
  destruct (drain_queue_ok 0 s a HR) as (s0 & E0 & HR0); [unfold TOTAL_PORT_COUNT, COM_PORT_COUNT; lia|].
  destruct (a_drain cfg 0 a) as [o0 a0]. cbn [fst snd] in *.
  destruct (drain_queue_ok 1 s0 a0 HR0) as (s1 & E1 & HR1); [unfold TOTAL_PORT_COUNT, COM_PORT_COUNT; lia|].
  destruct (a_drain cfg 1 a0) as [o1 a1]. cbn [fst snd] in *.
  destruct (drain_queue_ok 2 s1 a1 HR1) as (s2 & E2 & HR2); [unfold TOTAL_PORT_COUNT, COM_PORT_COUNT, BUFFER_PORT_COUNT; lia|].
  destruct (a_drain cfg 2 a1) as [o2 a2]. cbn [fst snd] in *. exists s2. split; [|done].
  erewrite comp_bind_ret.
  2: { rewrite (comp_bind_ret _ _ _ _ _ _ E0), (comp_bind_ret _ _ _ _ _ _ E1), (comp_bind_ret _ _ _ _ _ _ E2). done. }
  rewrite cmd_response_eq. by rewrite app_nil_r, <-!app_assoc.
Qed.

(** * The other handlers *)

Lemma status_ok c s a :
  cq_rel cfg s a → op_ok (OStatus c) a →
  let r := spec_step (cq_id_base w) cfg (OStatus c) a in
  ∃ s', com_status_in w c s = Ret (tt, s', r.1) ∧ cq_rel cfg s' r.2.
Proof.
  intros HR [Hw Hb]. pose proof (cr_send _ _ _ HR) as [Es _]. unfold com_status_in. erewrite comp_bind_quiet by done.
  rewrite Es, Hw. destruct c; cbn [spec_step].
  - rewrite decide_False by done. exists (set_send_state SendWaiting s). split; [done|]. destruct HR. split; cbn; try done; by rewrite ?Hw.
  - rewrite decide_True by done. erewrite comp_bind_quiet by done.
    apply (process_ok (set_send_state SendReady s) (a_set_send SendReady a)); [|done].
    destruct HR. split; cbn; try done.
Qed.

Lemma return_ok b ctx s a :
  cq_rel cfg s a → op_ok (OReturn b ctx) a →
  let r := spec_step (cq_id_base w) cfg (OReturn b ctx) a in
  ∃ s', data_return_in w b ctx s = Ret (tt, s', r.1) ∧ cq_rel cfg s' r.2.
Proof.
  intros HR Ho. cbn [op_ok] in Ho. destruct (a_busy a) as [i|] eqn:Hb; [|done]. destruct Ho as [Hi Hst]. pose proof HR as [HS Ho Ht [Es _] [How Hlt] [Hrc Hrl]]. specialize (Hlt i Hb).
  unfold data_return_in. erewrite comp_bind_quiet by done. erewrite comp_bind_quiet by done.
  rewrite comp_assert_ok by (rewrite How, Hb; done).
  assert (TOTAL_PORT_COUNT = 3 ∧ COM_PORT_COUNT = 2) as [E3 E2] by done.
  rewrite bool_decide_eq_true_2 by lia. erewrite comp_lift_ok by done.
  rewrite comp_assert_ok by (apply Z.ltb_lt; rewrite Hi, E2; change BUFFER_PORT_COUNT with 1; lia). cbn [spec_step]. rewrite Hi.
  assert (∀ s' r, send_state s' = send_state s → queues s' = queues s → prioritized s' = prioritized s →
    throttle s' = throttle s → escrow s' = escrow s → buffer_owned s' = true → recycle s' = r →
    (∀ st, r = Some st → length st = FW_COM_BUFFER_MAX_SIZE ∧ Forall is_byte st) →
    cq_rel cfg s' (MkA (a_queues a) (a_order a) (a_throttle a) (a_send a) None r)) as Hrel.
  { intros s' r E1 E4 E5 E6 E7 E8 E9 Hr. split; cbn; rewrite ?E1, ?E4, ?E5, ?E6, ?E7, ?E8, ?E9; try done. }
  destruct (decide (i < COM_PORT_COUNT)) as [Hc|Hc].
  - rewrite (proj2 (Z.leb_gt _ _)), (proj2 (Z.ltb_lt _ _)) by lia.
    eexists. split; [done|]. apply Hrel; try done. by intros st [= <-]; apply Hst.
  - rewrite (proj2 (Z.leb_le _ _)), (proj2 (Z.ltb_ge _ _)) by lia.
    assert (i = 2) as -> by lia. rewrite E2. cbn [Z.to_nat Z.sub]. change (Z.to_nat (Z.of_nat 2 - Z.of_nat 2)) with 0.
    rewrite return_buffer_eq. eexists. split; [done|]. by apply Hrel.
Qed.

Lemma set_priority_ok op cmd_seq t index p s a :
  cq_rel cfg s a →
  let r := spec_cmd cfg op cmd_seq (CSetPriority t index p) a in
  ∃ s', set_queue_priority_cmd w op cmd_seq t index p s = Ret (tt, s', r.1) ∧ cq_rel cfg s' r.2.
Proof.
  intros HR. cbn [spec_cmd]. unfold set_queue_priority_cmd. rewrite !in_range_spec. set (i := get_queue_num t index).
  destruct (_ || _); cbn [negb andb]; [rewrite cmd_response_eq; by exists s|].
  destruct (_ || _); cbn [negb]; [rewrite cmd_response_eq; by exists s|].
  erewrite comp_bind_quiet by done. rewrite comp_emit, cmd_response_eq. eexists. split; [done|].
  pose proof HR as [HS [Eo Hord] Ht Hs Hb Hr]. split; cbn; try done. rewrite Eo. split; [done|].
  set (l := update_priority (Z.to_nat i) p (a_order a)). pose proof (bubble_sort_perm (length l - 1) l) as HP. split.
  - rewrite HP. subst l. rewrite update_priority_index. apply (oo_perm _ _ Hord).
  - rewrite HP. subst l. pose proof (oo_cfg _ _ Hord) as Hc. clear -Hc. induction Hc as [|m l Hm Hl IH]; cbn; [constructor|].
    case_bool_decide; by constructor.
  - apply bubble_sort_ok.
Qed.

Lemma clear_mark_ok {A} i s a (f : Queue → CompM ComQueue CqOut A) :
  cq_rel cfg s a → i < TOTAL_PORT_COUNT →
  ∃ q s', (q ← get_queue i; _ ← put_queue i (queue_clear_hwm q); f q) s = f q s' ∧
    queue_high_water_mark q = a_peak i a ∧ cq_rel cfg s' (a_set_queue i (a_items i a, 0) a).
Proof.
  intros HR Hi. pose proof (cr_store _ _ _ HR) as [T HS].
  destruct (store_lookup Hcfg _ _ _ _ i HS Hi) as (e & q & He & Hq & Ha & HQ).
  exists q, (set_queues (<[i := queue_clear_hwm q]> (queues s)) s). split_and!.
  - rewrite (comp_bind_quiet (get_queue i) _ s q s)
      by (unfold get_queue; erewrite comp_bind_quiet by done; unfold lift; by rewrite (index_get_ok _ _ _ Hq)).
    by erewrite comp_bind_quiet by done.
  - by destruct (store_sizes Hcfg _ _ _ _ _ q HS Hi Hq).
  - destruct HR. split; cbn; try done. exists T. eapply (store_update Hcfg); [done|done| |].
    + destruct HQ as [(?&?&?&?&?&?) ? ? ? ?]. by split.
    + case_decide as Hc; [done|].
      assert (i = COM_PORT_COUNT) as -> by (unfold TOTAL_PORT_COUNT, COM_PORT_COUNT, BUFFER_PORT_COUNT in *; lia).
      by apply (sr_tokens _ _ _ _ _ HS e _ He Ha).
Qed.

Lemma run_ok s a :
  cq_rel cfg s a →
  let r := spec_step (cq_id_base w) cfg ORun a in
  ∃ s', cq_run s = Ret (tt, s', r.1) ∧ cq_rel cfg s' r.2.
Proof.
  intros HR. pose proof (cr_store _ _ _ HR) as [T HS]. destruct (sr_lengths _ _ _ _ _ HS) as [Hlq Hla].
  assert (TOTAL_PORT_COUNT = 3 ∧ COM_PORT_COUNT = 2 ∧ BUFFER_PORT_COUNT = 1) as (E3 & E2 & E1) by done.
  unfold cq_run. erewrite comp_bind_quiet by done. rewrite comp_assert_ok by (by apply bool_decide_eq_true_2).
  rewrite E1, E2. cbn [take_marks]. rewrite E3 in Hla.
  destruct a as [aqs ao ath asd ab ar]. cbn in Hla. destruct aqs as [|x0 [|x1 [|x2 [|]]]]; try done.
  destruct (clear_mark_ok (A := list Z) 0 s _ (λ q, l ← (q ← get_queue 1; _ ← put_queue 1 (queue_clear_hwm q); l ← mret [];
    mret (wrap 32 (Z.of_nat (queue_high_water_mark q)) :: l)); mret (wrap 32 (Z.of_nat (queue_high_water_mark q)) :: l)) HR)
    as (q0 & s0 & Em0 & P0 & HR0); [lia|].
  destruct (clear_mark_ok (A := list Z) 1 s0 _ (λ q, l ← mret []; mret (wrap 32 (Z.of_nat (queue_high_water_mark q)) :: l)) HR0)
    as (q1 & s1 & Em1 & P1 & HR1); [lia|].
  destruct (clear_mark_ok (A := list Z) 2 s1 _ (λ q, l ← mret []; mret (wrap 32 (Z.of_nat (queue_high_water_mark q)) :: l)) HR1)
    as (q2 & s2 & Em2 & P2 & HR2); [lia|].
  exists s2. erewrite (comp_bind_quiet _ _ s); [|by rewrite Em0; erewrite comp_bind_quiet; [done|by rewrite Em1]].
  erewrite (comp_bind_quiet _ _ s1); [|by rewrite Em2]. rewrite P0, P1, P2. split; [done|].
  cbn in HR2 |- *. destruct x0, x1, x2. exact HR2.
Qed.

(** * Commands *)

Lemma read_u8_or args fail k s :
  wf args →
  read_or (deserialize_u8 Big) args fail k s =
    match remaining_slice args with [] => fail s | x :: _ => k x (advanced 1 args) s end.
Proof.
  intros Hw. unfold read_or, deserialize_u8. pose proof (deserialize_uint_exact 1 args Hw ltac:(done)) as H.
  destruct (remaining_slice args) as [|x r]; cbn in H; case_decide; try lia.
  - by destruct H as [st ->].
  - by rewrite H.
Qed.

Lemma read_i16_or args fail k s :
  wf args →
  read_or (deserialize_i16 Big) args fail k s =
    match remaining_slice args with h :: l :: _ => k (i16_of h l) (advanced 2 args) s | _ => fail s end.
Proof.
  intros Hw. unfold read_or, deserialize_i16. pose proof (deserialize_sint_exact 2 args Hw ltac:(done)) as H.
  destruct (remaining_slice args) as [|h [|l r]]; cbn in H; case_decide; try lia.
  - by destruct H as [st ->].
  - by destruct H as [st ->].
  - by rewrite H.
Qed.

Lemma no_residue_eq args fail k s :
  wf args → no_residue args fail k s = match remaining_slice args with [] => k s | _ => fail s end.
Proof.
  intros Hw. unfold no_residue, read_or. pose proof (length_remaining_slice args Hw) as Hl.
  unfold deserialize_size_left. rewrite bool_decide_eq_true_2 by (by destruct Hw).
  rewrite <-Hl. by destruct (remaining_slice args).
Qed.

Lemma command_ok op cmd_seq args s a :
  cq_rel cfg s a → op_ok (OCommand op cmd_seq args) a →
  let r := spec_step (cq_id_base w) cfg (OCommand op cmd_seq args) a in
  ∃ s', handle_command w op cmd_seq args s = Ret (tt, s', r.1) ∧ cq_rel cfg s' r.2.
Proof.
  intros HR Hw. cbn [op_ok spec_step] in *. unfold handle_command, decode_cmd, decode_typed.
  assert (∀ r, ∃ s', cq_cmd_response w op cmd_seq r s = Ret (tt, s', [CqCmdResponse op cmd_seq r]) ∧ cq_rel cfg s' a) as Hr.
  { intros r. exists s. by rewrite cmd_response_eq. }
  destruct (_ =? OPCODE_FLUSH_QUEUE)%Z; [|destruct (_ =? OPCODE_FLUSH_ALL_QUEUES)%Z; [|destruct (_ =? _)%Z; [|apply Hr]]].
  - rewrite read_u8_or by done. destruct (remaining_slice args) as [|t r] eqn:E0; [apply Hr|].
    destruct (QueueType_try_from t) as [qt|]; [|apply Hr].
    destruct (advanced_ok 1 args Hw) as [Hw1 E1]; [rewrite E0; cbn; lia|]. rewrite E0 in E1. change (remaining_slice (advanced 1 args) = r) in E1.
    cbv beta. rewrite read_i16_or, E1 by done. destruct r as [|h [|l r]]; [apply Hr..|].
    destruct (advanced_ok 2 _ Hw1) as [Hw2 E2]; [rewrite E1; cbn; lia|]. rewrite E1 in E2. change (remaining_slice (advanced 2 (advanced 1 args)) = r) in E2.
    cbv beta. rewrite no_residue_eq, E2 by done. destruct r; [|apply Hr]. by apply flush_ok.
  - rewrite no_residue_eq by done. destruct (remaining_slice args); [|apply Hr]. by apply flush_all_ok.
  - rewrite read_u8_or by done. destruct (remaining_slice args) as [|t r] eqn:E0; [apply Hr|].
    destruct (QueueType_try_from t) as [qt|]; [|apply Hr].
    destruct (advanced_ok 1 args Hw) as [Hw1 E1]; [rewrite E0; cbn; lia|]. rewrite E0 in E1. change (remaining_slice (advanced 1 args) = r) in E1.
    cbv beta. rewrite read_i16_or, E1 by done. destruct r as [|h [|l r]]; [apply Hr..|].
    destruct (advanced_ok 2 _ Hw1) as [Hw2 E2]; [rewrite E1; cbn; lia|]. rewrite E1 in E2. change (remaining_slice (advanced 2 (advanced 1 args)) = r) in E2.
    cbv beta. rewrite read_i16_or, E2 by done. destruct r as [|h' [|l' r]]; [apply Hr..|].
    destruct (advanced_ok 2 _ Hw2) as [Hw3 E3]; [rewrite E2; cbn; lia|]. rewrite E2 in E3. change (remaining_slice (advanced 2 (advanced 2 (advanced 1 args))) = r) in E3.
    cbv beta. rewrite no_residue_eq, E3 by done. destruct r; [|apply Hr]. by apply set_priority_ok.
Qed.

(** * Steps *)

Definition cq_step (o : cq_op) : CompM ComQueue CqOut unit :=
  match o with
  | OCom port data => com_packet_queue_in w (Z.of_nat port) data
  | OBuf b => buffer_queue_in w 0 b
  | OStatus c => com_status_in w c
  | OReturn b ctx => data_return_in w b ctx
  | ORun => cq_run
  | OCommand op cmd_seq args => handle_command w op cmd_seq args
  end.

Lemma cq_step_ok o s a :
  cq_rel cfg s a → idle_ok a → op_ok o a →
  let r := spec_step (cq_id_base w) cfg o a in
  ∃ s', cq_step o s = Ret (tt, s', r.1) ∧ cq_rel cfg s' r.2.
Proof.
  intros HR Hi Ho. destruct o; cbn [cq_step].
  - by apply com_in_ok.
  - by apply buffer_in_ok.
  - by apply status_ok.
  - by apply return_ok.
  - by apply run_ok.
  - by apply command_ok.
Qed.
End handlers.
