(* ===== verification/ComQueueRuns.v ===== *)
(** [Svc::ComQueue] over whole runs: it behaves as specified, loses and
    duplicates no buffer, and starves no queue of the best priority. *)

From stdpp Require Import sorting.
From S2P Require Import Prelude Serial SerialFacts Codec Fpp Packets Buffer CircularBuffer MsgQueue Escrow Comp ComQueue ComQueueFacts ComQueueSpec ComQueueProof.

(** * Runs *)

(** Every output port is connected. *)
Definition connected (w : CqPorts) : Prop :=
  data_out w = true ∧ buffer_return_out w = [true] ∧ cq_cmd_response_out w = true.
#[export] Instance connected_dec w : Decision (connected w).
Proof. unfold connected. apply _. Defined.

#[export] Instance op_ok_dec o a : Decision (op_ok o a).
Proof. destruct o; cbn; try apply _. destruct (a_busy a); apply _. Defined.

Section runs.
Context `{bp : BuildProfile} (w : CqPorts).

Fixpoint cq_steps (os : list cq_op) (s : ComQueue) : outcome (ComQueue * list CqOut) :=
  match os with
  | [] => Ret (s, [])
  | o :: os' =>
      match cq_step w o s with
      | Panic => Panic
      | Ret (_, s1, o1) => '(s2, o2) ← cq_steps os' s1; Ret (s2, o1 ++ o2)
      end
  end.
Definition cq_run_from_new (cfg : list QueueConfigurationEntry) (os : list cq_op) : outcome (ComQueue * list CqOut) :=
  s ← configure cfg ComQueue_new; cq_steps os s.

Fixpoint spec_steps (cfg : list QueueConfigurationEntry) (os : list cq_op) (a : ACq) : list CqOut * ACq :=
  match os with
  | [] => ([], a)
  | o :: os' =>
      let '(o1, a1) := spec_step (cq_id_base w) cfg o a in
      let '(o2, a2) := spec_steps cfg os' a1 in (o1 ++ o2, a2)
  end.

(** The calls keep the protocol of the ports. *)
Fixpoint protocol (cfg : list QueueConfigurationEntry) (os : list cq_op) (a : ACq) : Prop :=
  match os with
  | [] => True
  | o :: os' => op_ok o a ∧ protocol cfg os' (spec_step (cq_id_base w) cfg o a).2
  end.
#[export] Instance protocol_dec cfg os a : Decision (protocol cfg os a).
Proof. revert a. induction os as [|o os IH]; intros a; cbn; apply _. Defined.
End runs.

Definition a_init (cfg : list QueueConfigurationEntry) : ACq :=
  MkA (replicate TOTAL_PORT_COUNT ([], 0)) (build_prioritized cfg) (replicate TOTAL_PORT_COUNT false) SendWaiting None None.

(** ** Configuration *)

Lemma in_range_cases z : in_range z = true → z = 0%Z ∨ z = 1%Z ∨ z = 2%Z.
Proof. unfold in_range. change (Z.of_nat TOTAL_PORT_COUNT) with 3%Z. lia. Qed.

Lemma build_prioritized_ok cfg : config_ok cfg → order_ok cfg (build_prioritized cfg).
Proof.
  intros [Hl He]. destruct cfg as [|[d0 p0 m0 o0] [|[d1 p1 m1 o1] [|[d2 p2 m2 o2] [|]]]]; try done.
  apply Forall_cons in He as [(_ & _ & H0%in_range_cases) [(_ & _ & H1%in_range_cases) [(_ & _ & H2%in_range_cases) _]%Forall_cons]%Forall_cons].
  cbn in H0, H1, H2.
  destruct H0 as [->|[->| ->]], H1 as [->|[->| ->]], H2 as [->|[->| ->]]; (split;
    [cbn; apply NoDup_Permutation; [apply (bool_decide_unpack _); done..|intros x; set_solver]
    |cbn; repeat constructor; eexists; done|cbn; repeat constructor; cbn; lia]).
Qed.

Lemma check_entries_ok cfg : config_ok cfg → check_entries cfg = Ret tt.
Proof.
  intros [_ He]. induction He as [|e l (Hd & _ & Hp) _ IH]; cbn [check_entries]; [done|].
  fold (in_range (cfg_priority e)). rewrite Hp, bool_decide_eq_true_2 by done. exact IH.
Qed.

Lemma build_queues_ok `{bp : BuildProfile} cfg i :
  Forall (λ e, 0 < cfg_depth e ∧ (Z.of_nat (cfg_depth e) < 2 ^ 32)%Z) cfg →
  ∃ qs, build_queues i cfg = Ret qs ∧ length qs = length cfg ∧
    ∀ j e q, cfg !! j = Some e → qs !! j = Some q → queue_rel (i + j) e [] q ([], 0).
Proof.
  intros He. revert i. induction He as [|e l [Hd Hmax] _ IH]; intros i; cbn [build_queues]; [by exists []|].
  destruct (queue_new_ok (cfg_depth e) (record_size i) (cfg_mode e) (cfg_overflow_mode e) Hd) as (q & Eq & Hr & Hs & Hm & Ho).
  { unfold record_size, COM_RECORD_SIZE, BUFFER_RECORD_SIZE. case_decide; lia. }
  { assert (Z.of_nat (record_size i) ≤ 2 ^ 16)%Z by (unfold record_size; case_decide; vm_compute; discriminate).
    unfold ISIZE_MAX. nia. }
  unfold record_size in Eq. rewrite decide_bool_decide in Eq. rewrite Eq, outcome_bind_ret.
  destruct (IH (S i)) as (qs & -> & Hl & Hq). rewrite outcome_bind_ret. exists (q :: qs). split; [done|]. split; [cbn; lia|].
  intros [|j] e' q' He' Hq'; cbn in *.
  - simplify_eq. rewrite Nat.add_0_r. split; cbn; try done. unfold records. by case_decide.
  - rewrite Nat.add_succ_r. by apply Hq.
Qed.

Lemma cq_configure_ok `{bp : BuildProfile} cfg : config_ok cfg → ∃ s, configure cfg ComQueue_new = Ret s ∧ cq_rel cfg s (a_init cfg).
Proof.
  intros Hc. pose proof (build_prioritized_ok cfg Hc) as Hord. unfold configure.
  rewrite check_entries_ok, outcome_bind_ret by done. rewrite fw_assert_true, outcome_bind_ret.
  2: { apply bool_decide_eq_true_2. pose proof (Permutation_length (oo_perm _ _ Hord)) as Hl. by rewrite length_fmap, length_seq in Hl. }
  destruct (build_queues_ok cfg 0) as (qs & -> & Hl & Hq). { eapply Forall_impl; [apply (co_entries _ Hc)|]. intros e (? & ? & _). split; [done|lia]. }
  rewrite outcome_bind_ret. eexists. split; [done|]. rewrite (co_length _ Hc) in Hl.
  split; cbn; try done. exists []. split; [done| |].
  - intros i e q x He Hqi Hx. assert (x = ([], 0)) as -> by (by apply (lookup_replicate_1 3) in Hx as [-> _]). by apply (Hq i).
  - intros e x _ Hx. assert (x = ([], 0)) as -> by (by apply (lookup_replicate_1 3 _ _ COM_PORT_COUNT) in Hx as [-> _]).
    split; cbn; [apply escrow_ok_new|constructor|constructor| |lia].
    intros t b Hb. unfold escrow_lookup in Hb. case_decide; done.
Qed.

(** ** Nothing waits while the component may send *)

Section idle.
Context {cfg : list QueueConfigurationEntry}.

Definition shape (a : ACq) : Prop := order_ok cfg (a_order a) ∧ length (a_queues a) = TOTAL_PORT_COUNT.

Lemma rel_shape s a : cq_rel cfg s a → shape a.
Proof. intros [[T HS] [_ Ho] _ _ _ _]. split; [done|]. by destruct (sr_lengths _ _ _ _ _ HS). Qed.

Lemma a_next_none a : shape a → a_next a = None → ∀ i, a_items i a = [].
Proof.
  intros [Ho Hl] Hn i. destruct (decide (i < TOTAL_PORT_COUNT)) as [Hi|Hi].
  2: { unfold a_items. by rewrite lookup_ge_None_2 by lia. }
  destruct (find_meta_ok _ _ Ho Hi) as (m & _ & Hm & <-). apply list_find_None in Hn. rewrite Forall_forall in Hn.
  by apply dec_stable, Hn.
Qed.

(** The message [a_process] serves, when there is one. *)
Lemma a_next_some a k m :
  a_next a = Some (k, m) →
  a_order a !! k = Some m ∧ a_items (meta_index m) a ≠ [] ∧
  (∀ j m', a_order a !! j = Some m' → j < k → a_items (meta_index m') a = []) ∧
  ∃ it, a_items (meta_index m) a !! next_pos (mode_of cfg (meta_index m)) (length (a_items (meta_index m) a)) = Some it.
Proof.
  intros (Hk & Hne & Hbefore)%list_find_Some. split_and!; [done|done| |].
  - intros j m' Hj Hlt. by apply dec_stable, (Hbefore j m').
  - apply lookup_lt_is_Some_2. destruct (a_items (meta_index m) a); [done|]. unfold next_pos. destruct (mode_of _ _); cbn; lia.
Qed.

Lemma process_idle (a : ACq) : shape a → idle_ok (a_process cfg a).2.
Proof.
  intros Hs. unfold a_process. destruct (a_next a) as [[k m]|] eqn:En; [|intros _; by apply a_next_none].
  destruct (a_next_some _ _ _ En) as (_ & _ & _ & it & Hit). rewrite Hit. by intros ?.
Qed.

Lemma idle_keep a a' : a_send a' = a_send a → (∀ i, a_items i a = [] → a_items i a' = []) → idle_ok a → idle_ok a'.
Proof. intros Es Hi Ha Hr i. apply Hi, Ha. congruence. Qed.

Lemma settle_idle i t port ov a : shape a → idle_ok (a_settle cfg i t port ov a).2.
Proof.
  intros Hs. unfold a_settle. set (a1 := if ov && _ then a_set_throttle i true a else a).
  assert (shape a1) as Hs1 by (subst a1; by case_match). case_decide.
  - pose proof (process_idle a1 Hs1). by destruct (a_process cfg a1).
  - by intros ?.
Qed.

Lemma enqueue_shape i it a : shape a → shape (a_enqueue cfg i it a).2.
Proof.
  intros [Ho Hl]. unfold a_enqueue. destruct (cfg !! i); [|done].
  case_decide; [|case_match]; (split; [done|cbn; by rewrite length_insert]).
Qed.

Lemma drain_idle i a : idle_ok a → idle_ok (a_drain cfg i a).2.
Proof.
  apply idle_keep; [done|]. intros j Hj. unfold a_items in *. cbn. destruct (decide (j = i)) as [->|].
  - destruct (decide (i < length (a_queues a))); [by rewrite list_lookup_insert_eq|].
    by rewrite lookup_ge_None_2 by (rewrite length_insert; lia).
  - by rewrite list_lookup_insert_ne.
Qed.

Lemma step_idle base o a : shape a → idle_ok a → idle_ok (spec_step base cfg o a).2.
Proof.
  intros Hs Hi. destruct o as [port data|b|c|b ctx| |op cmd_seq args]; cbn [spec_step].
  - pose proof (enqueue_shape port (ICom (as_slice data)) a Hs) as Hs1. destruct (a_enqueue _ _ _ _) as [st a1]. by apply settle_idle.
  - assert (shape (a_make_room cfg a).2) as Hs0.
    { destruct Hs as [Ho Hl]. unfold a_make_room. destruct (cfg !! _); [|done]. case_match; [|done].
      split; [done|]. cbn. by rewrite length_insert. }
    destruct (a_make_room cfg a) as [[full dropped] a0]. pose proof (enqueue_shape COM_PORT_COUNT (IBuf b) a0 Hs0) as Hs1.
    destruct (a_enqueue _ _ _ _) as [st a1]. pose proof (settle_idle COM_PORT_COUNT TypeBufferQueue 0 (full || negb (bool_decide (st = StOk))) a1 Hs1).
    by destruct (a_settle _ _ _ _ _ _).
  - destruct c; [done|]. by apply process_idle.
  - case_match; (eapply (idle_keep a); [done|intros i Ei; exact Ei|done]).
  - apply (idle_keep a); [done| |done]. intros i. unfold a_items. cbn. rewrite list_lookup_fmap. by destruct (a_queues a !! i).
  - destruct (decode_cmd _ _) as [|c]; [done|]. destruct c as [t i| |t i p]; cbn [spec_cmd].
    + case_match; [|done]. by apply (drain_idle (Z.to_nat (get_queue_num t i)) a).
    + change (idle_ok (a_drain cfg 2 (a_drain cfg 1 (a_drain cfg 0 a).2).2).2). by repeat apply drain_idle.
    + case_match; [|done]. eapply (idle_keep a); [done|intros j Ej; exact Ej|done].
Qed.
End idle.

(** ** Refinement over runs *)

Lemma steps_ok `{bp : BuildProfile} cfg w os s a :
  config_ok cfg → connected w → cq_rel cfg s a → idle_ok a → protocol w cfg os a →
  ∃ s', cq_steps w os s = Ret (s', (spec_steps w cfg os a).1) ∧ cq_rel cfg s' (spec_steps w cfg os a).2.
Proof.
  intros Hc (Hd & Hr & Hp). revert s a. induction os as [|o os IH]; intros s a HR Hi Ho; cbn [cq_steps spec_steps]; [by exists s|].
  destruct Ho as [Ho Hos]. destruct (cq_step_ok Hc w Hd Hr Hp o s a HR Hi Ho) as (s1 & -> & HR1).
  pose proof (step_idle (cq_id_base w) o a (rel_shape _ _ HR) Hi) as Hi1.
  destruct (IH _ _ HR1 Hi1 Hos) as (s2 & -> & HR2). destruct (spec_step _ _ _ _) as [o1 a1]. cbn [fst snd] in *.
  destruct (spec_steps w cfg os a1) as [o2 a2]. exists s2. done.
Qed.

(** ** The flow of buffers *)

(** The buffers that enter with a call and leave with an output; a packet's
    storage (a queue index below [COM_PORT_COUNT]) is the component's own. *)
Definition foreign (ctx : FrameContext) : bool := (Z.of_nat COM_PORT_COUNT <=? com_queue_index ctx)%Z.
Definition op_buffers (o : cq_op) : list Buffer :=
  match o with OBuf b => [b] | OReturn b ctx => if foreign ctx then [b] else [] | _ => [] end.
Definition out_buffers (o : CqOut) : list Buffer :=
  match o with CqBufferReturnOut _ b => [b] | CqDataOut b ctx => if foreign ctx then [b] else [] | _ => [] end.

Definition a_held (a : ACq) : list Buffer := omap item_buffer (a_items COM_PORT_COUNT a).

Section flow.
Context {cfg : list QueueConfigurationEntry}.

Definition typed (a : ACq) : Prop := ∀ i, Forall (item_ok i) (a_items i a).

Lemma rel_typed s a : config_ok cfg → cq_rel cfg s a → typed a.
Proof.
  intros Hc [[T HS] _ _ _ _ _] i. destruct (decide (i < TOTAL_PORT_COUNT)) as [Hi|Hi].
  - destruct (store_lookup Hc _ _ _ _ i HS Hi) as (e & q & _ & _ & _ & [_ _ _ _ Hit]). done.
  - unfold a_items. rewrite lookup_ge_None_2 by (rewrite (proj2 (sr_lengths _ _ _ _ _ HS)); lia). constructor.
Qed.

Lemma a_items_set i j x a :
  a_items j (a_set_queue i x a) = if decide (j = i ∧ i < length (a_queues a)) then x.1 else a_items j a.
Proof.
  unfold a_items. cbn. case_decide as E.
  - destruct E as [-> Hi]. by rewrite list_lookup_insert_eq.
  - destruct (decide (j = i)) as [->|Hj]; [|by rewrite list_lookup_insert_ne].
    by rewrite list_insert_ge by (destruct (decide (i < length (a_queues a))); [naive_solver|lia]).
Qed.

Lemma typed_set i l pk a : typed a → Forall (item_ok i) l → typed (a_set_queue i (l, pk) a).
Proof. intros Ha Hl j. rewrite a_items_set. case_decide as E; [by destruct E as [-> _]|apply Ha]. Qed.

(** Packets carry no buffer of others. *)
Lemma com_items i l : i < COM_PORT_COUNT → Forall (item_ok i) l → omap item_buffer l = [].
Proof. intros Hi. induction 1 as [|[bs|b] l Hit _ IH]; cbn; [done|done|]. destruct Hit. lia. Qed.

Lemma dispatch_flow i it a p :
  shape (cfg := cfg) a → typed a → i < TOTAL_PORT_COUNT → a_items i a !! p = Some it →
  let '(o, a1) := a_dispatch it i (a_set_queue i (delete p (a_items i a), a_peak i a) a) in
  a_held a ≡ₚ out_buffers o ++ a_held a1.
Proof.
  intros [_ Hl] Ht Hi Hit. pose proof (Forall_lookup_1 _ _ _ _ (Ht i) Hit) as Hok. unfold a_dispatch, a_held. cbn [out_buffers].
  change (a_items COM_PORT_COUNT (MkA ?q ?o ?t ?s ?b ?r)) with (a_items COM_PORT_COUNT (a_set_queue i (delete p (a_items i a), a_peak i a) a)).
  rewrite a_items_set. unfold foreign, message_context. cbn [com_queue_index]. destruct it as [bs|b]; cbn [item_ok] in Hok.
  - rewrite decide_False by lia. by rewrite (proj2 (Z.leb_gt _ _)) by lia.
  - assert (i = COM_PORT_COUNT) as -> by (unfold TOTAL_PORT_COUNT, COM_PORT_COUNT, BUFFER_PORT_COUNT in *; lia).
    rewrite decide_True by lia. rewrite Z.leb_refl. cbn [fst app message_buffer].
    rewrite (delete_Permutation _ _ _ Hit) at 1. done.
Qed.

Lemma process_flow a :
  shape (cfg := cfg) a → typed a → a_held a ≡ₚ ((a_process cfg a).1 ≫= out_buffers) ++ a_held (a_process cfg a).2.
Proof.
  intros Hs Ht. unfold a_process. destruct (a_next a) as [[k m]|] eqn:En; [|done].
  destruct (a_next_some (cfg := cfg) _ _ _ En) as (Hk & _ & _ & it & Hit). rewrite Hit.
  assert (meta_index m < TOTAL_PORT_COUNT) as Hi by (by apply (Forall_lookup_1 _ _ _ _ (order_indices _ (proj1 Hs)) Hk)).
  pose proof (dispatch_flow _ _ a _ Hs Ht Hi Hit) as Hf. destruct (a_dispatch _ _ _) as [o a1]. cbn. by rewrite app_nil_r.
Qed.

Lemma settle_flow i t port ov a :
  shape (cfg := cfg) a → typed a →
  a_held a ≡ₚ ((a_settle cfg i t port ov a).1 ≫= out_buffers) ++ a_held (a_settle cfg i t port ov a).2.
Proof.
  intros Hs Ht. unfold a_settle. set (warn := ov && _). set (a1 := if warn then a_set_throttle i true a else a).
  assert (shape (cfg := cfg) a1 ∧ typed a1 ∧ a_held a1 = a_held a) as (Hs1 & Ht1 & Eh) by (subst a1; by destruct warn).
  assert (∀ o a2, a_held a ≡ₚ (o ≫= out_buffers) ++ a_held a2 →
    a_held a ≡ₚ (((if warn then [CqQueueOverflow t port] else []) ++ o) ≫= out_buffers) ++ a_held a2) as Hw.
  { intros o a2 H. destruct warn; by rewrite bind_app. }
  case_decide.
  - pose proof (process_flow a1 Hs1 Ht1) as Hp. rewrite Eh in Hp. destruct (a_process cfg a1) as [o a2]. by apply Hw.
  - apply Hw. cbn. by rewrite Eh.
Qed.

Lemma drain_order_perm {A} m (l : list A) : drain_order m l ≡ₚ l.
Proof. destruct m; [done|]. apply reverse_Permutation. Qed.

Lemma returns_buffers n l : (CqBufferReturnOut n <$> l) ≫= out_buffers = l.
Proof. induction l; cbn; congruence. Qed.

Lemma drain_flow i a :
  shape (cfg := cfg) a → typed a → i < TOTAL_PORT_COUNT →
  let '(o, a1) := a_drain cfg i a in
  a_held a ≡ₚ (o ≫= out_buffers) ++ a_held a1 ∧ shape (cfg := cfg) a1 ∧ typed a1.
Proof.
  intros [Ho Hl] Ht Hi. cbn. rewrite returns_buffers. split_and!.
  - unfold a_held. rewrite a_items_set, drain_order_perm. destruct (decide (i = COM_PORT_COUNT)) as [->|Hn].
    + rewrite decide_True by lia. by rewrite app_nil_r.
    + rewrite decide_False by naive_solver. rewrite (com_items i (a_items i a)); [done| |apply Ht].
      unfold TOTAL_PORT_COUNT, BUFFER_PORT_COUNT in *. lia.
  - split; [done|]. cbn. by rewrite length_insert.
  - by apply typed_set.
Qed.
End flow.

(** What enters and what was held leaves or is held. *)
Section conservation.
Context {cfg : list QueueConfigurationEntry}.

Lemma enqueue_com_flow i bs a :
  typed a → item_ok i (ICom bs) →
  typed (a_enqueue cfg i (ICom bs) a).2 ∧ a_held (a_enqueue cfg i (ICom bs) a).2 = a_held a.
Proof.
  intros Ht Hok. pose proof Hok as (Hi & _). unfold a_enqueue. destruct (cfg !! i) as [e|]; [|done].
  assert (∀ l pk, Forall (item_ok i) l → typed (a_set_queue i (l, pk) a) ∧ a_held (a_set_queue i (l, pk) a) = a_held a) as Hset.
  { intros l pk Hl. split; [by apply typed_set|]. unfold a_held. rewrite a_items_set, decide_False; [done|]. lia. }
  pose proof (Ht i) as Hti. case_decide; [|case_match]; apply Hset; [|done|]; (apply Forall_app_2; [|by constructor]); [done|].
  destruct (a_items i a); [done|]. by inversion Hti.
Qed.

Lemma buffer_flow b a e :
  shape (cfg := cfg) a → typed a → item_ok COM_PORT_COUNT (IBuf b) → cfg !! COM_PORT_COUNT = Some e →
  0 < cfg_depth e → length (a_items COM_PORT_COUNT a) ≤ cfg_depth e →
  b :: a_held a ≡ₚ ((spec_step 0 cfg (OBuf b) a).1 ≫= out_buffers) ++ a_held (spec_step 0 cfg (OBuf b) a).2.
Proof.
  intros Hs Ht Hok He Hd Hle. cbn [spec_step]. assert (COM_PORT_COUNT < TOTAL_PORT_COUNT) as H2 by (unfold TOTAL_PORT_COUNT, BUFFER_PORT_COUNT; lia).
  assert (∃ full dropped a0, a_make_room cfg a = (full, dropped, a0) ∧ shape (cfg := cfg) a0 ∧ typed a0 ∧
    a_held a ≡ₚ dropped ++ a_held a0 ∧ (cfg_overflow_mode e = DropOldest → length (a_items COM_PORT_COUNT a0) < cfg_depth e))
    as (full & dropped & a0 & -> & Hs0 & Ht0 & Hh & Hroom).
  { unfold a_make_room. rewrite He. case_bool_decide as Eo; cbn [andb].
    2: { eexists _, _, _. split_and!; done. }
    case_bool_decide as Hf; [|eexists _, _, _; split_and!; try done; lia].
    eexists _, _, _. split; [done|]. destruct (a_items COM_PORT_COUNT a) as [|it l] eqn:Ei; [cbn in Hf; lia|].
    pose proof (Ht COM_PORT_COUNT) as H. rewrite Ei in H. apply Forall_cons in H as [Hit Hl].
    split_and!.
    - destruct Hs as [Ho Hl']. split; [done|]. cbn. by rewrite length_insert.
    - by apply typed_set.
    - unfold a_held. rewrite a_items_set, Ei, decide_True by (destruct Hs as [_ ->]; done). cbn [fst].
      cbn. rewrite ?take_0. by destruct (item_buffer it).
    - rewrite a_items_set, decide_True by (destruct Hs as [_ ->]; done). cbn in *. lia. }
  assert (shape (cfg := cfg) (a_enqueue cfg COM_PORT_COUNT (IBuf b) a0).2) as Hs1 by (by apply enqueue_shape).
  assert (typed (a_enqueue cfg COM_PORT_COUNT (IBuf b) a0).2 ∧ match (a_enqueue cfg COM_PORT_COUNT (IBuf b) a0).1 with
    | NoRoomLeft => a_held (a_enqueue cfg COM_PORT_COUNT (IBuf b) a0).2 = a_held a0
    | _ => a_held (a_enqueue cfg COM_PORT_COUNT (IBuf b) a0).2 = a_held a0 ++ [b] end) as [Ht1 Hh1].
  { unfold a_enqueue. rewrite He. pose proof (Ht0 COM_PORT_COUNT) as Hti. case_decide as Hr; [|destruct (cfg_overflow_mode e)].
    - split; [apply typed_set; [done|]; apply Forall_app_2; [done|by constructor]|].
      unfold a_held. cbn [fst snd]. rewrite a_items_set, decide_True by (destruct Hs0 as [_ ->]; done). cbn. by rewrite omap_app.
    - split; [by apply typed_set|]. unfold a_held. cbn [fst snd].
      by rewrite a_items_set, decide_True by (destruct Hs0 as [_ ->]; done).
    - by specialize (Hroom eq_refl). }
  destruct (a_enqueue _ _ _ _) as [st a1]. cbn [fst snd] in *.
  pose proof (settle_flow COM_PORT_COUNT TypeBufferQueue 0 (full || negb (bool_decide (st = StOk))) a1 Hs1 Ht1) as Hf.
  destruct (a_settle _ _ _ _ _ _) as [o a2]. cbn [fst snd] in *. rewrite !bind_app, returns_buffers, Hh.
  assert (b :: a_held a0 ≡ₚ (o ≫= out_buffers) ++ ((if decide (st = NoRoomLeft) then [CqBufferReturnOut 0 b] else []) ≫= out_buffers) ++ a_held a2) as Hg.
  { case_decide as Est; [subst st; rewrite Hh1 in Hf|assert (a_held a1 = a_held a0 ++ [b]) as Hf' by (by destruct st); rewrite Hf' in Hf].
    - rewrite Hf. cbn. by rewrite Permutation_middle.
    - cbn. rewrite <-Hf. by rewrite Permutation_app_comm. }
  rewrite <-app_assoc, <-app_assoc. rewrite <-Hg. by rewrite Permutation_middle.
Qed.

Lemma cmd_flow op cmd_seq c a :
  shape (cfg := cfg) a → typed a →
  a_held a ≡ₚ ((spec_cmd cfg op cmd_seq c a).1 ≫= out_buffers) ++ a_held (spec_cmd cfg op cmd_seq c a).2.
Proof.
  intros Hs Ht. destruct c as [t i| |t i p]; cbn [spec_cmd].
  - destruct (in_range _) eqn:Er; [|done]. apply in_range_cases in Er.
    pose proof (drain_flow (Z.to_nat (get_queue_num t i)) a Hs Ht) as Hf.
    destruct (a_drain _ _ _) as [o a1]. cbn [fst snd]. rewrite bind_app. cbn. rewrite app_nil_r. apply Hf.
    change TOTAL_PORT_COUNT with 3. lia.
  - pose proof (drain_flow 0 a Hs Ht ltac:(vm_compute; lia)) as H0. destruct (a_drain cfg 0 a) as [o0 a0]. destruct H0 as (H0 & Hs0 & Ht0).
    pose proof (drain_flow 1 a0 Hs0 Ht0 ltac:(vm_compute; lia)) as H1. destruct (a_drain cfg 1 a0) as [o1 a1]. destruct H1 as (H1 & Hs1 & Ht1).
    pose proof (drain_flow 2 a1 Hs1 Ht1 ltac:(vm_compute; lia)) as H2. destruct (a_drain cfg 2 a1) as [o2 a2]. destruct H2 as (H2 & _ & _).
    cbn [fst snd]. rewrite !bind_app. cbn. rewrite app_nil_r, <-!app_assoc. by rewrite H0, H1, H2.
  - destruct (_ && _); done.
Qed.

Lemma step_flow base o s a :
  config_ok cfg → cq_rel cfg s a → op_ok o a →
  let r := spec_step base cfg o a in op_buffers o ++ a_held a ≡ₚ (r.1 ≫= out_buffers) ++ a_held r.2.
Proof.
  intros Hc HR Ho. pose proof (rel_shape _ _ HR) as Hs. pose proof (rel_typed _ _ Hc HR) as Ht.
  destruct o as [port data|b|c|b ctx| |op cmd_seq args]; cbn [spec_step op_buffers].
  - destruct (enqueue_com_flow port (as_slice data) a Ht Ho) as [Ht1 Eh]. pose proof (enqueue_shape port (ICom (as_slice data)) a Hs) as Hs1.
    destruct (a_enqueue _ _ _ _) as [st a1]. cbn [fst snd] in *. cbn [app]. rewrite <-Eh. by apply settle_flow.
  - destruct (config_lookup Hc COM_PORT_COUNT) as (e & He & Hd & _); [vm_compute; lia|].
    apply (buffer_flow b a e); try done. pose proof (cr_store _ _ _ HR) as [T HS].
    destruct (store_lookup Hc _ _ _ _ COM_PORT_COUNT HS) as (e' & q & He' & Hq & _ & HQ); [vm_compute; lia|].
    assert (e' = e) as -> by congruence. pose proof (represents_size _ _ _ (qr_repr _ _ _ _ _ HQ)) as [_ Hmax].
    pose proof (queue_sizes _ _ _ (qr_repr _ _ _ _ _ HQ)) as [Hsz _].
    destruct (store_sizes Hc _ _ _ _ COM_PORT_COUNT q HS ltac:(vm_compute; lia) Hq) as [Hsz' _]. lia.
  - destruct c; [done|]. by apply (process_flow (a_set_send SendReady a)).
  - unfold foreign. rewrite Z.ltb_antisym. destruct (_ <=? _)%Z; done.
  - cbn. unfold a_held, a_items. cbn. rewrite list_lookup_fmap. by destruct (a_queues a !! _).
  - destruct (decode_cmd _ _) as [r|c]; [done|]. by apply cmd_flow.
Qed.

Lemma steps_flow `{bp : BuildProfile} w os s a :
  config_ok cfg → connected w → cq_rel cfg s a → idle_ok a → protocol w cfg os a →
  (os ≫= op_buffers) ++ a_held a ≡ₚ ((spec_steps w cfg os a).1 ≫= out_buffers) ++ a_held (spec_steps w cfg os a).2.
Proof.
  intros Hc Hw. pose proof Hw as (Hd & Hr & Hp). revert s a. induction os as [|o os IH]; intros s a HR Hi Ho; cbn [spec_steps]; [done|].
  destruct Ho as [Ho Hos]. destruct (cq_step_ok Hc w Hd Hr Hp o s a HR Hi Ho) as (s1 & _ & HR1).
  pose proof (step_idle (cq_id_base w) o a (rel_shape _ _ HR) Hi) as Hi1. pose proof (step_flow (cq_id_base w) o s a Hc HR Ho) as Hf.
  specialize (IH _ _ HR1 Hi1 Hos). destruct (spec_step _ _ _ _) as [o1 a1]. cbn [fst snd] in *.
  destruct (spec_steps w cfg os a1) as [o2 a2]. cbn [fst snd] in *. rewrite bind_app, bind_cons, <-!app_assoc, <-IH.
  by rewrite Permutation_app_swap_app, Hf, Permutation_app_swap_app.
Qed.
End conservation.

(** ** No starvation *)

Definition is_served (i : nat) (o : CqOut) : Prop :=
  match o with CqDataOut _ ctx => com_queue_index ctx = Z.of_nat i | _ => False end.

Definition success (o : cq_op) : bool := match o with OStatus Success_Success => true | _ => false end.
Definition successes (os : list cq_op) : nat := length (filter success os).
Definition is_command (o : cq_op) : bool := match o with OCommand _ _ _ => true | _ => false end.

Section liveness.
Context {cfg : list QueueConfigurationEntry}.

(** Queue [i] holds something and its entry, of the best priority, is at
    position [k] of the order. *)
Record waiting (a : ACq) (i k : nat) : Prop := {
  wt_entry : ∃ m, a_order a !! k = Some m ∧ meta_index m = i ∧
    Forall (λ m', (meta_priority m ≤ meta_priority m')%Z) (a_order a);
  wt_items : a_items i a ≠ [];
}.

Lemma sorted_lookup (l : list QueueMetadata) j k x y :
  StronglySorted by_priority l → l !! j = Some x → l !! k = Some y → j ≤ k → by_priority x y.
Proof.
  intros Hs. revert j k. induction Hs as [|z l _ IH Hf]; intros j k Hj Hk Hle; [done|].
  destruct j as [|j], k as [|k]; cbn in *; simplify_eq; [lia| |lia|by apply (IH j k); [..|lia]].
  rewrite Forall_forall in Hf. eapply Hf, list_elem_of_lookup_2, Hk.
Qed.

Lemma sink_lookup m l j x :
  l !! j = Some x → (∀ j' y, l !! j' = Some y → j' ≤ j → meta_priority y = meta_priority m) → sink m l !! j = Some x.
Proof.
  revert j. induction l as [|y l IH]; intros j Hj Heq; [done|]. cbn.
  rewrite (proj2 (Z.eqb_eq _ _)) by (apply (Heq 0); [done|lia]). destruct j as [|j]; [done|]. cbn in *.
  apply IH; [done|]. intros j' z Hz Hle. apply (Heq (S j')); [done|lia].
Qed.

(** Serving another queue of the same priority brings the entry forward. *)
Lemma process_waiting a i k :
  shape (cfg := cfg) a → waiting a i k →
  Exists (is_served i) (a_process cfg a).1 ∨ ∃ k', k = S k' ∧ waiting (a_process cfg a).2 i k'.
Proof.
  intros [Hord Hl] [(m & Hk & Hi & Hmin) Hne]. unfold a_process. destruct (a_next a) as [[k0 m0]|] eqn:En.
  2: { exfalso. apply Hne. by apply (a_next_none (cfg := cfg)). }
  destruct (a_next_some (cfg := cfg) _ _ _ En) as (Hk0 & Hne0 & Hbefore & it & Hit). rewrite Hit. cbn [a_dispatch fst snd].
  destruct (decide (meta_index m0 = i)) as [E0|E0]; [left; constructor; by rewrite E0|right].
  assert (k0 < k) as Hlt.
  { destruct (decide (k < k0)) as [?|?]; [exfalso; apply Hne; rewrite <-Hi; by apply (Hbefore k m Hk)|]. assert (k0 ≠ k) by congruence. lia. }
  rewrite Forall_forall in Hmin. pose proof (take_drop_middle _ _ _ Hk0) as Emid.
  assert (∀ j y, a_order a !! j = Some y → k0 ≤ j ≤ k → meta_priority y = meta_priority m0) as Heq.
  { intros j y Hj Hjk. pose proof (sorted_lookup _ k0 j _ _ (oo_sorted _ _ Hord) Hk0 Hj ltac:(lia)).
    pose proof (sorted_lookup _ j k _ _ (oo_sorted _ _ Hord) Hj Hk ltac:(lia)).
    pose proof (Hmin m0 (list_elem_of_lookup_2 _ _ _ Hk0)). cbv beta in *. lia. }
  exists (k - 1). split; [lia|]. split; cbn [a_order a_set_order].
  - exists m. split_and!; [|done|].
    + pose proof (lookup_lt_Some _ _ _ Hk0). rewrite lookup_app_r; rewrite length_take; [|lia].
      replace (k - 1 - k0 `min` length (a_order a)) with (k - S k0) by lia. apply sink_lookup.
      * rewrite lookup_drop. by replace (S k0 + (k - S k0)) with k by lia.
      * intros j y Hj Hle. rewrite lookup_drop in Hj. apply (Heq _ _ Hj). lia.
    + rewrite sink_perm. rewrite Emid. by apply Forall_forall.
  - change (a_items i (a_set_order _ _)) with (a_items i (a_set_queue (meta_index m0)
      (delete (next_pos (mode_of cfg (meta_index m0)) (length (a_items (meta_index m0) a))) (a_items (meta_index m0) a),
       a_peak (meta_index m0) a) a)).
    rewrite a_items_set, decide_False; [done|]. naive_solver.
Qed.

Lemma enqueue_nonempty i j it a : a_items i a ≠ [] → a_items i (a_enqueue cfg j it a).2 ≠ [].
Proof.
  intros Hne. unfold a_enqueue. destruct (cfg !! j) as [e|]; [|done].
  case_decide; [|case_match]; cbn [fst snd]; rewrite a_items_set; (case_decide as E; [|done]); cbn [fst].
  - by destruct (a_items j a).
  - destruct E as [-> _]. done.
  - by destruct (tail (a_items j a)).
Qed.

Lemma settle_waiting i t port ov a : a_send a = SendWaiting →
  a_order (a_settle cfg i t port ov a).2 = a_order a ∧ a_queues (a_settle cfg i t port ov a).2 = a_queues a.
Proof. intros Hs. unfold a_settle. destruct (ov && _); rewrite decide_False by (cbn; by rewrite Hs); done. Qed.

Lemma waiting_ext a a' i k : a_order a' = a_order a → a_items i a' ≠ [] → waiting a i k → waiting a' i k.
Proof. intros Eo Hne [Hm _]. split; [by rewrite Eo|done]. Qed.

Lemma step_waiting base o a i k :
  shape (cfg := cfg) a → idle_ok a → is_command o = false → waiting a i k →
  let r := spec_step base cfg o a in
  if success o then Exists (is_served i) r.1 ∨ ∃ k', k = S k' ∧ waiting r.2 i k' else waiting r.2 i k.
Proof.
  intros Hs Hidle Hc Hw. pose proof Hw as [_ Hne].
  assert (a_send a = SendWaiting) as Hsd by (destruct (a_send a) eqn:E; [by destruct Hne; apply Hidle|done]).
  destruct o as [port data|b|c|b ctx| |op cmd_seq args]; cbn [spec_step success]; [| | | | |done].
  - pose proof (a_enqueue_rest (cfg := cfg) port (ICom (as_slice data)) a) as [Ea _].
    pose proof (enqueue_nonempty i port (ICom (as_slice data)) a Hne) as Hne1. destruct (a_enqueue _ _ _ _) as [st a1]. cbn [fst snd] in *.
    destruct (settle_waiting port TypeComQueue (Z.of_nat port) (negb (bool_decide (st = StOk))) a1) as [E1 E2]; [by rewrite Ea|].
    apply (waiting_ext a); [|unfold a_items; rewrite E2; exact Hne1|done]. by rewrite E1, Ea.
  - assert (∃ full dropped a0, a_make_room cfg a = (full, dropped, a0) ∧ a_order a0 = a_order a ∧ a_send a0 = a_send a ∧
      (a_items i a0 ≠ [] ∨ i = COM_PORT_COUNT ∧ COM_PORT_COUNT < length (a_queues a0) ∧
        cfg_overflow_mode <$> cfg !! COM_PORT_COUNT = Some DropOldest)) as (full & dropped & a0 & -> & Eo & Es & Hi).
    { unfold a_make_room. destruct (cfg !! COM_PORT_COUNT) as [e|]; [|eexists _, _, _; split_and!; try done; by left].
      case_bool_decide as Eo; cbn [andb]; [|eexists _, _, _; split_and!; try done; by left].
      case_bool_decide; [|eexists _, _, _; split_and!; try done; by left]. eexists _, _, _. split_and!; try done.
      rewrite a_items_set. case_decide as E; [right|by left]. destruct E as [-> E]. cbn. by rewrite length_insert, Eo. }
    pose proof (a_enqueue_rest (cfg := cfg) COM_PORT_COUNT (IBuf b) a0) as [Ea _].
    assert (a_items i (a_enqueue cfg COM_PORT_COUNT (IBuf b) a0).2 ≠ []) as Hne1.
    { destruct Hi as [Hi|(-> & Hlt & Hov)]; [by apply enqueue_nonempty|]. unfold a_enqueue.
      destruct (cfg !! COM_PORT_COUNT) as [e|]; [|done]. injection Hov as Hov.
      case_decide; [|rewrite Hov]; cbn [fst snd]; rewrite a_items_set, decide_True by done; cbn [fst];
        [by destruct (a_items COM_PORT_COUNT a0)|by destruct (tail (a_items COM_PORT_COUNT a0))]. }
    destruct (a_enqueue _ _ _ _) as [st a1]. cbn [fst snd] in *.
    destruct (settle_waiting COM_PORT_COUNT TypeBufferQueue 0 (full || negb (bool_decide (st = StOk))) a1) as [E1 E2]; [rewrite Ea; cbn; congruence|].
    destruct (a_settle _ _ _ _ _ _) as [o a2]. cbn [fst snd] in *.
    apply (waiting_ext a); [|unfold a_items; rewrite E2; exact Hne1|done]. rewrite E1, Ea. done.
  - destruct c; [done|]. apply (process_waiting (a_set_send SendReady a)); [done|].
    apply (waiting_ext a); [done|exact Hne|done].
  - case_match; (apply (waiting_ext a); [done|exact Hne|done]).
  - apply (waiting_ext a); [done| |done]. unfold a_items in *. cbn. rewrite list_lookup_fmap. by destruct (a_queues a !! i).
Qed.

Lemma steps_serve `{bp : BuildProfile} w os s a i k :
  config_ok cfg → connected w → cq_rel cfg s a → idle_ok a → protocol w cfg os a →
  Forall (λ o, is_command o = false) os → waiting a i k → k < successes os → Exists (is_served i) (spec_steps w cfg os a).1.
Proof.
  intros Hc Hw. pose proof Hw as (Hd & Hr & Hp). revert s a k. induction os as [|o os IH]; intros s a k HR Hi Ho Hn Hwt Hlt; [cbn in Hlt; lia|].
  apply Forall_cons in Hn as [Hno Hn]. destruct Ho as [Ho Hos].
  destruct (cq_step_ok Hc w Hd Hr Hp o s a HR Hi Ho) as (s1 & _ & HR1).
  pose proof (step_idle (cq_id_base w) o a (rel_shape _ _ HR) Hi) as Hi1.
  pose proof (step_waiting (cq_id_base w) o a i k (rel_shape _ _ HR) Hi Hno Hwt) as Hst. cbn [spec_steps].
  destruct (spec_step _ _ _ _) as [o1 a1]. cbn [fst snd] in *. destruct (spec_steps w cfg os a1) as [o2 a2] eqn:E2. cbn [fst snd].
  apply Exists_app. unfold successes in *. rewrite filter_cons in Hlt. destruct (success o).
  - rewrite decide_True in Hlt by done. destruct Hst as [?|(k' & -> & Hst)]; [by left|]. right.
    specialize (IH s1 a1 k' HR1 Hi1 Hos Hn Hst). rewrite E2 in IH. apply IH. cbn in Hlt. lia.
  - rewrite decide_False in Hlt by (by intros ?). right. specialize (IH s1 a1 k HR1 Hi1 Hos Hn Hst). rewrite E2 in IH. by apply IH.
Qed.
End liveness.

(** * Guarantees *)

Lemma protocol_app w cfg os os' a :
  protocol w cfg (os ++ os') a ↔ protocol w cfg os a ∧ protocol w cfg os' (spec_steps w cfg os a).2.
Proof.
  revert a. induction os as [|o os IH]; intros a; cbn; [naive_solver|]. rewrite IH.
  destruct (spec_step _ _ _ _) as [o1 a1]. cbn. destruct (spec_steps w cfg os a1) as [o2 a2]. cbn. naive_solver.
Qed.

Lemma steps_idle w cfg os a : shape (cfg := cfg) a → idle_ok a → ∀ `{bp : BuildProfile} s, config_ok cfg → connected w → cq_rel cfg s a →
  protocol w cfg os a → idle_ok (spec_steps w cfg os a).2.
Proof.
  intros Hs Hi P s Hc Hw. pose proof Hw as (Hd & Hr & Hp). revert s a Hs Hi. induction os as [|o os IH]; intros s a Hs Hi HR Ho; [done|].
  destruct Ho as [Ho Hos]. cbn [spec_steps]. destruct (cq_step_ok Hc w Hd Hr Hp o s a HR Hi Ho) as (s1 & _ & HR1).
  pose proof (step_idle (cq_id_base w) o a Hs Hi) as Hi1. specialize (IH s1 _ (rel_shape _ _ HR1) Hi1 HR1 Hos).
  destruct (spec_step _ _ _ _) as [o1 a1]. cbn [fst snd] in *. by destruct (spec_steps w cfg os a1).
Qed.

(** From a fresh, configured component. *)
Lemma run_from_new_ok `{bp : BuildProfile} cfg w os :
  config_ok cfg → connected w → protocol w cfg os (a_init cfg) →
  ∃ s0 s', cq_rel cfg s0 (a_init cfg) ∧ idle_ok (a_init cfg) ∧
    cq_run_from_new w cfg os = Ret (s', (spec_steps w cfg os (a_init cfg)).1) ∧ cq_rel cfg s' (spec_steps w cfg os (a_init cfg)).2.
Proof.
  intros Hc Hw Hp. destruct (cq_configure_ok cfg Hc) as (s0 & Ec & HR). assert (idle_ok (a_init cfg)) as Hi by done.
  destruct (steps_ok cfg w os s0 _ Hc Hw HR Hi Hp) as (s' & E & HR'). exists s0, s'. split_and!; try done.
  unfold cq_run_from_new. by rewrite Ec, outcome_bind_ret.
Qed.

#[export] Instance config_ok_dec cfg : Decision (config_ok cfg).
Proof.
  refine (cast_if_and (decide (length cfg = TOTAL_PORT_COUNT)) (decide (Forall (λ e, 0 < cfg_depth e ∧
    (Z.of_nat (cfg_depth e) < 2 ^ 32 - 2)%Z ∧ in_range (cfg_priority e) = true) cfg))); [by split|by intros [] ..].
Defined.

(** A port on two com queues and one buffer queue, and what is used of it in
    the witnesses: two packets and two buffers, sent one at a time. *)
Definition demo_ports : CqPorts := MkCqPorts true [true] true 0x100.
Definition demo_config : list QueueConfigurationEntry :=
  [MkConfig 2 0 Fifo DropNewest; MkConfig 1 1 Lifo DropOldest; MkConfig 1 1 Fifo DropOldest].
Definition demo_context (i : Z) : FrameContext :=
  let c := FrameContext_default in
  MkFrameContext i (apid c) (has_sec_hdr c) (sequence_flags c) (sequence_count c) (vc_id c) (pvn c) (send_now c) (sa_index c)
    (first_header_pointer c).
Definition demo_calls : list cq_op :=
  [OBuf (from_storage [0; 3; 7]%Z 5); OBuf (from_storage [0; 3; 8]%Z 6); OStatus Success_Success;
   OCom 1 (SerBuf [0; 1; 9]%Z 3 0); OCom 1 (SerBuf [0; 1; 10]%Z 3 0); OReturn (from_storage [0; 3; 8]%Z 6) (demo_context 2);
   OStatus Success_Success; OCommand 0x102 1 (SerBuf [1; 0; 0; 0; 0]%Z 5 0); ORun].



(** C7. [Svc::ComQueue] loses and duplicates no buffer: over every such run,
    the buffers handed to it (by senders, and by the framer returning them)
    are, as a multiset, those it handed on (to the framer, or back to their
    sender when evicted, rejected, flushed or done) and those left in its
    escrow. *)
Theorem comqueue_conserves_buffers `{bp : BuildProfile} (cfg : list QueueConfigurationEntry) (w : CqPorts) (os : list cq_op)
    (Hc : config_ok cfg) (Hw : connected w) (Hp : protocol w cfg os (a_init cfg)) :
  ∃ s' outs, cq_run_from_new w cfg os = Ret (s', outs) ∧
    os ≫= op_buffers ≡ₚ (outs ≫= out_buffers) ++ omap slot_buffer (slots (escrow s')).
Proof.
  destruct (run_from_new_ok cfg w os Hc Hw Hp) as (s0 & s' & HR0 & Hi & E & HR). eexists _, _. split; [exact E|].
  pose proof (steps_flow w os s0 _ Hc Hw HR0 Hi Hp) as Hf. change (a_held (a_init cfg)) with (@nil Buffer) in Hf.
  rewrite app_nil_r in Hf. rewrite Hf. f_equiv. pose proof (cr_store _ _ _ HR) as [T HS].
  destruct (store_lookup Hc _ _ _ _ COM_PORT_COUNT HS ltac:(vm_compute; lia)) as (e & _ & He & _ & Ha & _).
  destruct (sr_tokens _ _ _ _ _ HS e _ He Ha) as [Hesc Hnd Hlk Honly _]. symmetry.
  eapply escrow_contents; [done|done| |done]. unfold a_held. cbn [fst] in Hlk. clear -Hlk.
  revert Hlk. generalize (a_items COM_PORT_COUNT (spec_steps w cfg os (a_init cfg)).2). intros l Hlk.
  induction Hlk as [|t it T l (_ & b & -> & Hb) _ IH]; cbn; by constructor.
Qed.

Lemma comqueue_conserves_buffers_witness :
  let P := false : BuildProfile in
  ∃ s' outs, cq_run_from_new demo_ports demo_config demo_calls = Ret (s', outs) ∧
    demo_calls ≫= op_buffers ≡ₚ (outs ≫= out_buffers) ++ omap slot_buffer (slots (escrow s')).
Proof. intros P. apply (comqueue_conserves_buffers demo_config demo_ports demo_calls); fp_decide. Defined.

(** Queue [i] holds something and no queue has a better priority. *)
Definition best_waiting (s : ComQueue) (i : nat) : Prop :=
  ∃ m q, m ∈ prioritized s ∧ meta_index m = i ∧ queues s !! i = Some q ∧ get_queue_size q ≠ 0 ∧
    Forall (λ m', (meta_priority m ≤ meta_priority m')%Z) (prioritized s).

(** C35. [Svc::ComQueue] starves no queue of the best priority: whenever, after
    any run, a queue holds something and no queue has a better priority, then
    in any continuation without commands that brings three successful status
    reports - whatever packets and buffers arrive in between - a message of
    that queue is sent. *)
Theorem comqueue_no_starvation `{bp : BuildProfile} (cfg : list QueueConfigurationEntry) (w : CqPorts) (os1 os2 : list cq_op) (i : nat)
    (Hc : config_ok cfg) (Hw : connected w) (Hp : protocol w cfg (os1 ++ os2) (a_init cfg))
    (Hn : Forall (λ o, is_command o = false) os2) (Hs : TOTAL_PORT_COUNT ≤ successes os2) :
  ∃ s1 o1, cq_run_from_new w cfg os1 = Ret (s1, o1) ∧
    (best_waiting s1 i → ∃ s2 o2, cq_steps w os2 s1 = Ret (s2, o2) ∧ Exists (is_served i) o2).
Proof.
  apply protocol_app in Hp as [Hp1 Hp2]. destruct (run_from_new_ok cfg w os1 Hc Hw Hp1) as (s0 & s1 & HR0 & Hi0 & E1 & HR1).
  eexists _, _. split; [exact E1|]. intros (m & q & Hm & Hmi & Hq & Hne & Hmin).
  pose proof (steps_idle w cfg os1 _ (rel_shape _ _ HR0) Hi0 s0 Hc Hw HR0 Hp1) as Hi1.
  set (a1 := (spec_steps w cfg os1 (a_init cfg)).2) in *. pose proof (cr_order _ _ _ HR1) as [Eo Hord]. rewrite Eo in Hm, Hmin.
  destruct (steps_ok cfg w os2 s1 a1 Hc Hw HR1 Hi1 Hp2) as (s2 & E2 & _). eexists _, _. split; [exact E2|].
  apply list_elem_of_lookup in Hm as (k & Hk). pose proof (lookup_lt_Some _ _ _ Hk) as Hlt.
  pose proof (Permutation_length (oo_perm _ _ Hord)) as Hlo. rewrite length_fmap, length_seq in Hlo.
  pose proof (cr_store _ _ _ HR1) as [T HS].
  apply (steps_serve w os2 s1 a1 i k); try done; [|lia]. split; [by exists m|]. intros Hnil. apply Hne.
  rewrite (proj1 (store_sizes Hc _ _ _ _ i q HS ltac:(by rewrite <-(proj1 (sr_lengths _ _ _ _ _ HS)); eapply lookup_lt_Some) Hq)).
  by rewrite Hnil.
Qed.

Lemma comqueue_no_starvation_witness :
  let P := true : BuildProfile in
  let os1 := [OCom 0 (SerBuf [0; 1; 9]%Z 3 0); OCom 0 (SerBuf [0; 1; 10]%Z 3 0); OBuf (from_storage [0; 3; 8]%Z 6)] in
  let back i := OReturn (from_storage (replicate FW_COM_BUFFER_MAX_SIZE 0%Z) 0) (demo_context i) in
  let cfg := [MkConfig 2 0 Fifo DropNewest; MkConfig 1 1 Lifo DropOldest; MkConfig 1 0 Fifo DropOldest] in
  let os2 := [OStatus Success_Success; back 0; OStatus Success_Success; back 2; OStatus Success_Success]%Z in
  ∃ s1 o1, cq_run_from_new demo_ports cfg os1 = Ret (s1, o1) ∧
    (best_waiting s1 2 → ∃ s2 o2, cq_steps demo_ports os2 s1 = Ret (s2, o2) ∧ Exists (is_served 2) o2).
Proof.
  intros P os1 back cfg os2. apply (comqueue_no_starvation cfg demo_ports os1 os2 2);
    [fp_decide|fp_decide|fp_decide|fp_decide|vm_compute; lia].
Defined.
