(* ===== verification/Router.v ===== *)
(** The packet router [Svc::FprimeRouter],
    [crates/fprime-svc/src/fprime_router.rs]: packets go out by the APID of
    their context; the context of a forwarded buffer is kept in a bounded
    table keyed by the buffer's data address until the buffer comes back. *)

From S2P Require Import Prelude Serial SerialFacts Fpp Packets Buffer Comp.

(** * Data *)

Definition BUFFER_CONTEXT_TABLE_SIZE : nat := 50.

Record TableEntry : Set := MkEntry { key : Z; frame_context : FrameContext }.

Record FprimeRouter : Set := MkRouter {
  table : list (option TableEntry);
  file_out_connected : bool;
  unknown_data_out_connected : bool;
}.

Inductive RouterOut : Set :=
| RtSerializationError (status : SerializeStatus)
| RtFileOutContextTableFull
| RtUnknownDataOutContextTableFull
| RtBufferContextNotFound
| RtCommandOut (com : serbuf)
| RtFileOut (b : Buffer)
| RtUnknownDataOut (b : Buffer) (ctx : FrameContext)
| RtDataReturnOut (b : Buffer) (ctx : FrameContext).

Definition FprimeRouter_new (file unknown : bool) : FprimeRouter :=
  MkRouter (replicate BUFFER_CONTEXT_TABLE_SIZE None) file unknown.

(** * Operations *)

(** The first free entry takes the association; [None] when the table is
    full. *)
Fixpoint table_insert (e : TableEntry) (t : list (option TableEntry))
    : option (list (option TableEntry)) :=
  match t with
  | [] => None
  | None :: t' => Some (Some e :: t')
  | Some x :: t' => cons (Some x) <$> table_insert e t'
  end.

(** The first entry of a key, removed. *)
Fixpoint table_take (k : Z) (t : list (option TableEntry))
    : option (FrameContext * list (option TableEntry)) :=
  match t with
  | [] => None
  | Some x :: t' =>
      if (key x =? k)%Z then Some (frame_context x, None :: t')
      else '(c, t'') ← table_take k t'; Some (c, Some x :: t'')
  | None :: t' => '(c, t'') ← table_take k t'; Some (c, None :: t'')
  end.

Section router.
(** [buffer.data().as_ptr()]: the address of the window. *)
Context (buffer_key : Buffer → Z).
Abbreviation M := (CompM FprimeRouter RouterOut).

Definition set_table (t : list (option TableEntry)) (r : FprimeRouter) : FprimeRouter :=
  MkRouter t (file_out_connected r) (unknown_data_out_connected r).

Definition insert_context (b : Buffer) (ctx : FrameContext) : M bool := λ r,
  match table_insert (MkEntry (buffer_key b) ctx) (table r) with
  | Some t => Ret (true, set_table t r, [])
  | None => Ret (false, r, [])
  end.

Definition take_context (b : Buffer) : M (option FrameContext) := λ r,
  match table_take (buffer_key b) (table r) with
  | Some (c, t) => Ret (Some c, set_table t r, [])
  | None => Ret (None, r, [])
  end.

(** [data_in_handler]. *)
Definition router_data_in (packet : Buffer) (ctx : FrameContext) : M unit :=
  r ← get_state;
  match apid ctx with
  | FwPacketCommand =>
      d ← lift (buffer_data packet);
      _ ← match set_buff d (linear_buffer_new FW_COM_BUFFER_MAX_SIZE) with
          | (SOk _, com) => emit (RtCommandOut com)
          | (SErr s, _) => emit (RtSerializationError s)
          | (SPanic, _) => lift Panic
          end;
      emit (RtDataReturnOut packet ctx)
  | FwPacketFile =>
      if file_out_connected r then
        ok ← insert_context packet ctx;
        _ ← when (negb ok) (emit RtFileOutContextTableFull);
        emit (RtFileOut packet)
      else emit (RtDataReturnOut packet ctx)
  | _ =>
      if unknown_data_out_connected r then
        ok ← insert_context packet ctx;
        _ ← when (negb ok) (emit RtUnknownDataOutContextTableFull);
        emit (RtUnknownDataOut packet ctx)
      else emit (RtDataReturnOut packet ctx)
  end.

(** [file_buffer_return_in_handler]. *)
Definition router_file_buffer_return_in (b : Buffer) : M unit :=
  o ← take_context b;
  c ← match o with
      | Some c => mret c
      | None => _ ← emit RtBufferContextNotFound; mret FrameContext_default
      end;
  emit (RtDataReturnOut b c).

(** * Lemmas *)

(** The context the table holds for a key. *)
Fixpoint table_lookup (k : Z) (t : list (option TableEntry)) : option FrameContext :=
  match t with
  | [] => None
  | Some x :: t' => if (key x =? k)%Z then Some (frame_context x) else table_lookup k t'
  | None :: t' => table_lookup k t'
  end.

Lemma table_insert_lookup e t t' k :
  table_insert e t = Some t' → table_lookup (key e) t = None →
  table_lookup k t' = if decide (k = key e) then Some (frame_context e) else table_lookup k t.
Proof.
  revert t'. induction t as [|[x|] t IH]; intros t' Ht Hn; cbn in *; [done| |].
  - destruct (table_insert e t) as [t1|]; [|done]. injection Ht as <-. cbn.
    destruct (Z.eqb_spec (key x) (key e)); [done|]. rewrite (IH t1) by done.
    destruct (Z.eqb_spec (key x) k); [|done]. subst. by rewrite decide_False.
  - injection Ht as <-. cbn. destruct (Z.eqb_spec (key e) k); case_decide; congruence.
Qed.

Lemma table_insert_other e t t' k :
  table_insert e t = Some t' → k ≠ key e → table_lookup k t' = table_lookup k t.
Proof.
  revert t'. induction t as [|[x|] t IH]; intros t' Ht Hn; cbn in *; [done| |].
  - destruct (table_insert e t) as [t1|]; [|done]. injection Ht as <-. cbn. by rewrite (IH t1).
  - injection Ht as <-. cbn. destruct (Z.eqb_spec (key e) k); congruence.
Qed.

Lemma table_take_spec k t :
  match table_take k t with
  | Some (c, t') => table_lookup k t = Some c ∧ ∀ j, j ≠ k → table_lookup j t' = table_lookup j t
  | None => table_lookup k t = None
  end.
Proof.
  induction t as [|[x|] t IH]; cbn; [done| |].
  - destruct (Z.eqb_spec (key x) k) as [Hx|Hx].
    + split; [done|]. intros j Hj. cbn. destruct (Z.eqb_spec (key x) j); [congruence|done].
    + destruct (table_take k t) as [[c t']|]; cbn; [|done]. destruct IH as [? IH]. split; [done|].
      intros j Hj. by rewrite IH.
  - destruct (table_take k t) as [[c t']|]; cbn; done.
Qed.

(** The buffer each output hands over. *)
Definition handed (o : RouterOut) : option Buffer :=
  match o with
  | RtFileOut b | RtUnknownDataOut b _ | RtDataReturnOut b _ => Some b
  | _ => None
  end.

Inductive router_op : Set := RIn (b : Buffer) (ctx : FrameContext) | RReturn (b : Buffer).

Definition op_buffer (o : router_op) : Buffer := match o with RIn b _ => b | RReturn b => b end.

Definition run_router_op (o : router_op) : M unit :=
  match o with RIn b ctx => router_data_in b ctx | RReturn b => router_file_buffer_return_in b end.

Fixpoint run_router (os : list router_op) : M unit :=
  match os with [] => mret tt | o :: os' => _ ← run_router_op o; run_router os' end.

(** Every call returns, hands over exactly the buffer it was given, and
    leaves the entries of other keys alone. *)
Lemma run_router_op_ok o r :
  buffer_ok (op_buffer o) →
  ∃ r' outs, run_router_op o r = Ret (tt, r', outs) ∧ omap handed outs = [op_buffer o] ∧
    ∀ k, k ≠ buffer_key (op_buffer o) → table_lookup k (table r') = table_lookup k (table r).
Proof.
  intros Hb. destruct o as [b ctx|b]; cbn [op_buffer run_router_op] in *.
  - assert (∀ ev mk (c : bool), handed ev = None → handed mk = Some b →
      ∃ r' outs, (if c then (ok ← insert_context b ctx; _ ← when (negb ok) (emit ev); emit mk)
                  else emit (RtDataReturnOut b ctx)) r = Ret (tt, r', outs) ∧ omap handed outs = [b] ∧
        ∀ k, k ≠ buffer_key b → table_lookup k (table r') = table_lookup k (table r)) as Hfwd.
    { intros ev mk c Hev Hmk. destruct c; [|by eexists r, _].
      unfold mbind, CompM_bind, insert_context.
      destruct (table_insert (MkEntry (buffer_key b) ctx) (table r)) as [t|] eqn:Et; cbn.
      - eexists _, _. split; [done|]. cbn. rewrite Hmk. split; [done|].
        intros k Hk. by apply (table_insert_other _ _ _ _ Et).
      - eexists _, _. split; [done|]. cbn. by rewrite Hev, Hmk. }
    unfold router_data_in. erewrite comp_bind_quiet; [|reflexivity].
    destruct (apid ctx); try (by apply Hfwd).
    rewrite (comp_lift_ok _ _ _ _ (buffer_data_ok b Hb)).
    unfold set_buff. case_bool_decide; eexists r, _; (split; [reflexivity|]); done.
  - unfold router_file_buffer_return_in, mbind, CompM_bind, take_context.
    pose proof (table_take_spec (buffer_key b) (table r)) as Ht.
    destruct (table_take (buffer_key b) (table r)) as [[c t]|]; cbn; (eexists _, _; split; [done|]; split; [done|]).
    + intros k Hk. by apply Ht.
    + done.
Qed.

Lemma run_router_ok os r :
  Forall (λ o, buffer_ok (op_buffer o)) os →
  ∃ r' outs, run_router os r = Ret (tt, r', outs) ∧ omap handed outs = op_buffer <$> os ∧
    ∀ k, Forall (λ o, buffer_key (op_buffer o) ≠ k) os → table_lookup k (table r') = table_lookup k (table r).
Proof.
  intros Hos. revert r. induction Hos as [|o os Ho _ IH]; intros r; [by exists r, []|].
  destruct (run_router_op_ok o r Ho) as (r1 & o1 & E1 & Hh1 & Hk1).
  destruct (IH r1) as (r2 & o2 & E2 & Hh2 & Hk2).
  exists r2, (o1 ++ o2). cbn [run_router]. rewrite (comp_bind_ret _ _ _ _ _ _ E1), E2. split; [done|].
  rewrite omap_app, Hh1, Hh2. split; [done|]. intros k Hk. apply Forall_cons in Hk as [Hko Hk].
  rewrite Hk2 by done. apply Hk1. congruence.
Qed.
End router.

(** * Guarantees *)

(** A table with a free entry takes one more association. *)
Lemma table_insert_free e t : None ∈ t → ∃ t', table_insert e t = Some t'.
Proof.
  induction t as [|[x|] l IH]; intros Hfree; [by apply not_elem_of_nil in Hfree| |by eexists].
  apply elem_of_cons in Hfree as [?|Hfree]; [done|]. destruct (IH Hfree) as [t Et].
  cbn. rewrite Et. by eexists.
Qed.

(** The router neither loses nor duplicates buffers and gives every
    forwarded buffer its context back: a file packet accepted into the table
    (its address not yet in the table, a free entry left) goes out, and when
    it comes back after any traffic of buffers at other addresses, in which
    every call handed over exactly the buffer it received, it is returned
    upstream with the context it came with. *)
Theorem router_restores_context (buffer_key : Buffer → Z) (r : FprimeRouter) (b b' : Buffer)
    (ctx : FrameContext) (between : list router_op) :
  Forall (λ o, buffer_ok (op_buffer o)) between → buffer_key b' = buffer_key b →
  Forall (λ o, buffer_key (op_buffer o) ≠ buffer_key b) between →
  apid ctx = FwPacketFile → file_out_connected r = true →
  table_lookup (buffer_key b) (table r) = None → None ∈ table r →
  ∃ r1 r2 r3 outs, router_data_in buffer_key b ctx r = Ret (tt, r1, [RtFileOut b]) ∧
    run_router buffer_key between r1 = Ret (tt, r2, outs) ∧
    omap handed outs = op_buffer <$> between ∧
    router_file_buffer_return_in buffer_key b' r2 = Ret (tt, r3, [RtDataReturnOut b' ctx]).
Proof.
  intros Hos Hkey Hbet Hap Hconn Hnone Hfree.
  destruct (table_insert_free (MkEntry (buffer_key b) ctx) _ Hfree) as [t Et].
  assert (router_data_in buffer_key b ctx r = Ret (tt, set_table t r, [RtFileOut b])) as E1.
  { unfold router_data_in. erewrite comp_bind_quiet; [|reflexivity]. rewrite Hap, Hconn.
    unfold mbind, CompM_bind, insert_context. by rewrite Et. }
  destruct (run_router_ok buffer_key between (set_table t r) Hos) as (r2 & outs2 & E2 & Hh2 & Hk2).
  assert (table_lookup (buffer_key b) (table r2) = Some ctx) as Hl.
  { rewrite Hk2 by done. cbn. rewrite (table_insert_lookup _ _ _ _ Et Hnone). by rewrite decide_True. }
  pose proof (table_take_spec (buffer_key b) (table r2)) as Ht.
  destruct (table_take (buffer_key b) (table r2)) as [[c t']|] eqn:Etk; [|congruence].
  destruct Ht as [Ht _]. rewrite Hl in Ht. injection Ht as <-.
  exists (set_table t r), r2, (set_table t' r2), outs2. split_and!; try done.
  unfold router_file_buffer_return_in, mbind, CompM_bind, take_context. by rewrite Hkey, Etk.
Qed.

(** The hypotheses hold in a fresh router, with a command packet and a
    second file packet in between. *)
Lemma router_restores_context_witness :
  let b := from_storage [1; 2; 3]%Z 7 in
  let ctx := MkFrameContext 0 FwPacketFile false 0 5 0 SpacePacketProtocol false 0 0 in
  let between := [RIn (from_storage [0; 0]%Z 8) (MkFrameContext 0 FwPacketCommand false 0 6 0 SpacePacketProtocol false 0 0);
                  RIn (from_storage [9]%Z 9) ctx] in
  ∃ r1 r2 r3 outs, router_data_in context b ctx (FprimeRouter_new true false) = Ret (tt, r1, [RtFileOut b]) ∧
    run_router context between r1 = Ret (tt, r2, outs) ∧
    omap handed outs = op_buffer <$> between ∧
    router_file_buffer_return_in context b r2 = Ret (tt, r3, [RtDataReturnOut b ctx]).
Proof.
  intros b ctx between. apply (router_restores_context context); try reflexivity; try fp_decide.
  apply elem_of_cons. by left.
Defined.
