(* ===== verification/Sequence.v ===== *)
(** Command sequence files: the interface [Sequence] of the command sequencer
    and its default format [FPrimeSequence],
    [crates/fprime-svc/src/cmd_sequencer.rs].

    A file is [[header 11][records][CRC 4]]; the buffer of a sequence holds
    the records, with a write and a read cursor, and is a [serbuf].  A load
    reads the file through [Os::File], checks its CRC, its time base and every
    record; each step gives [None] or the one event it reports. *)

From stdpp Require Import list.
From S2P Require Import Prelude Serial SerialFacts Codec Time Packets Crc32 FwString OsFile FilePaths.

(** * Data *)

Inductive FileReadStage : Set :=
| ReadHeader | ReadHeaderSize | DeserSize | DeserNumRecords | DeserTimeBase | DeserTimeContext | ReadSeqCrc | ReadSeqData | ReadSeqDataSize.

Definition SEQUENCE_HEADER_SIZE : nat := 11.
Definition SEQUENCE_CRC_SIZE : nat := 4.
Definition FW_CONTEXT_DONT_CARE : Z := 0xFF.

Record SequenceHeader : Set := MkSeqHeader {
  hdr_file_size : Z;
  hdr_num_records : Z;
  hdr_time_base : TimeBase;
  hdr_time_context : Z;
}.
Definition SequenceHeader_default : SequenceHeader := MkSeqHeader 0 0 TbDontCare FW_CONTEXT_DONT_CARE.

Inductive RecordDescriptor : Set := Absolute_ | Relative_ | EndOfSequence.
#[export] Instance RecordDescriptor_eq_dec : EqDecision RecordDescriptor.
Proof. solve_decision. Defined.

Record SequenceRecord : Type := MkRecord {
  rec_descriptor : RecordDescriptor;
  rec_time_tag : Time;
  rec_command : serbuf;
}.
Definition ComBuffer_new : serbuf := linear_buffer_new FW_COM_BUFFER_MAX_SIZE.
Definition SequenceRecord_default : SequenceRecord := MkRecord EndOfSequence Time_ZERO ComBuffer_new.

Inductive SequenceLoadEvent : Set :=
| FileNotFound
| FileReadError
| FileInvalid (stage : FileReadStage) (error : Z)
| FileSizeError (size : Z)
| FileCrcFailure (stored computed : Z)
| RecordInvalid (record_number error : Z)
| RecordMismatch (header_records extra_bytes : Z)
| TimeBaseMismatch (current seq : TimeBase)
| TimeContextMismatch (current seq : Z)
| NoRecords.

(** [status as i32]. *)
Definition SerializeStatus_repr (s : SerializeStatus) : Z :=
  match s with
  | StOk => 0 | FormatError => 1 | NoRoomLeft => 2 | DeserBufferEmpty => 3 | DeserFormatError => 4 | DeserSizeMismatch => 5
  | DeserTypeMismatch => 6 | DeserImmutable => 7 | DeserInvalidData => 8 | DiscardedExisting => 9
  end.

(** * The format interface *)

(** [load_file] takes the live time; it gives the success flag and the event,
    and may panic on a malformed time tag. *)
Class Sequence (T : Type) : Type := {
  seq_allocate_buffer : Z → nat → T → outcome T;
  seq_deallocate_buffer : T → T;
  seq_capacity : T → nat;
  seq_set_file_name : FwString → T → T;
  seq_file_name : T → FwString;
  seq_log_file_name : T → FwString;
  seq_string_file_name : T → FwString;
  seq_header : T → SequenceHeader;
  seq_load_file : FwString → Time → T → World → outcome (bool * option SequenceLoadEvent * T * World);
  seq_has_more_records : T → bool;
  seq_next_record : SequenceRecord → T → outcome (SequenceRecord * T);
  seq_reset : T → T;
  seq_clear : T → T;
}.

(** ** What the sequencer relies on

    [seq_content] is what was loaded and [seq_left] what [next_record] has not
    delivered yet.  A load can leave a buffer half filled: then only
    [seq_clear] is promised to work.  [seq_files_ok m] excludes the files on
    which a load stops the program, those with a time tag of a million
    microseconds or more, and those with a relative time tag of more than [m]
    seconds. *)

(** What a record says. *)
Inductive View : Set := VEnd | VCommand (relative : bool) (s us : Z) (com : list Z).

Definition view_ok (v : View) : Prop :=
  match v with
  | VEnd => True
  | VCommand _ s us com => is_u 32 s ∧ (0 ≤ us < 1000000)%Z ∧ length com + 2 ≤ FW_COM_BUFFER_MAX_SIZE ∧ Forall is_byte com
  end.

Definition within (m : Z) (v : View) : Prop := match v with VCommand true s _ _ => (s ≤ m)%Z | _ => True end.

Definition shows (v : View) (r : SequenceRecord) : Prop :=
  match v with
  | VEnd => rec_descriptor r = EndOfSequence
  | VCommand relative s us com =>
      rec_descriptor r = (if relative then Relative_ else Absolute_) ∧
      seconds (rec_time_tag r) = s ∧ useconds (rec_time_tag r) = us ∧ as_slice (rec_command r) = com
  end.
Definition record_ok (r : SequenceRecord) : Prop := capacity (rec_command r) = FW_COM_BUFFER_MAX_SIZE.

Class SequenceLaws (T : Type) `{Sequence T} : Type := {
  seq_usable : T → Prop;
  seq_ok : T → Prop;
  seq_files_ok : Z → World → Prop;
  seq_content : T → list View;
  seq_left : T → list View;
  law_usable t : seq_ok t → seq_usable t;
  law_views t : seq_ok t → Forall view_ok (seq_content t) ∧ ∃ done, seq_content t = done ++ seq_left t;
  law_has_more t : seq_ok t → seq_has_more_records t = bool_decide (seq_left t ≠ []);
  law_next t r v vs : seq_ok t → record_ok r → seq_left t = v :: vs →
    ∃ r' t', seq_next_record r t = Ret (r', t') ∧ shows v r' ∧ record_ok r' ∧ seq_ok t' ∧
      seq_left t' = vs ∧ seq_content t' = seq_content t ∧ seq_header t' = seq_header t;
  law_reset t : seq_ok t → seq_ok (seq_reset t) ∧ seq_left (seq_reset t) = seq_content t ∧ seq_content (seq_reset t) = seq_content t;
  law_clear t : seq_usable t → seq_ok (seq_clear t) ∧ seq_left (seq_clear t) = [] ∧ seq_content (seq_clear t) = [];
  law_load m name now t w : seq_usable t → seq_files_ok m w →
    ∃ st e t' w', seq_load_file name now t w = Ret (st, e, t', w') ∧ seq_usable t' ∧ same_files w w' ∧
      (st = true → seq_ok t' ∧ seq_left t' = seq_content t' ∧ seq_content t' ≠ [] ∧ Forall (within m) (seq_content t'));
  law_files m w w' : same_files w w' → seq_files_ok m w → seq_files_ok m w';
}.

(** * The members every format shares *)

Record SequenceBase : Type := MkSeqBase {
  sb_buffer : serbuf;
  sb_allocator_id : Z;
  sb_header : SequenceHeader;
  sb_file_name : FwString;
  sb_log_file_name : FwString;
  sb_string_file_name : FwString;
}.
Definition SequenceBase_new : SequenceBase :=
  MkSeqBase (ext_buf_new []) 0 SequenceHeader_default (FwString_new FW_CMD_STRING_MAX_SIZE) (FwString_new FW_LOG_STRING_MAX_SIZE) FwDefaultString_new.

Definition sb_set_buffer (b : serbuf) (s : SequenceBase) : SequenceBase :=
  MkSeqBase b (sb_allocator_id s) (sb_header s) (sb_file_name s) (sb_log_file_name s) (sb_string_file_name s).
Definition sb_set_header (h : SequenceHeader) (s : SequenceBase) : SequenceBase :=
  MkSeqBase (sb_buffer s) (sb_allocator_id s) h (sb_file_name s) (sb_log_file_name s) (sb_string_file_name s).

Definition sb_allocate_buffer (identifier : Z) (n : nat) (s : SequenceBase) : outcome SequenceBase :=
  _ ← fw_assert (bool_decide (SEQUENCE_HEADER_SIZE ≤ n));
  Ret (MkSeqBase (linear_buffer_new n) identifier (sb_header s) (sb_file_name s) (sb_log_file_name s) (sb_string_file_name s)).
Definition sb_deallocate_buffer (s : SequenceBase) : SequenceBase := sb_set_buffer (ext_buf_new []) s.
Definition sb_set_file_name (n : FwString) (s : SequenceBase) : SequenceBase :=
  MkSeqBase (sb_buffer s) (sb_allocator_id s) (sb_header s) n (set_bytes (as_bytes n) (sb_log_file_name s)) (set_bytes (as_bytes n) (sb_string_file_name s)).

(** [set_buff_len]: the write cursor, the read cursor back to 0. *)
Definition sb_set_buff_len (n : nat) (s : SequenceBase) : outcome SequenceBase :=
  _ ← fw_assert (bool_decide (n ≤ capacity (sb_buffer s)));
  Ret (sb_set_buffer (SerBuf (data (sb_buffer s)) n 0) s).

(** [with_deser]: a view of the storage up to the write cursor, from the read
    cursor; only the read cursor is kept. *)
Definition with_deser {R} (m : SerM R) (s : SequenceBase) : outcome (serres R * SequenceBase) :=
  let b := sb_buffer s in
  view ← ext_buf_with_len (data b) (ser_loc b);
  match m (set_deser_loc (deser_loc b) view) with
  | (SPanic, _) => Panic
  | (r, b') => Ret (r, sb_set_buffer (set_deser_loc (deser_loc b') b) s)
  end.

Definition sb_deserialize_size_left (s : SequenceBase) : nat := ser_loc (sb_buffer s) - deser_loc (sb_buffer s).
Definition sb_reset (s : SequenceBase) : SequenceBase := sb_set_buffer (set_deser_loc 0 (sb_buffer s)) s.
Definition sb_clear (s : SequenceBase) : SequenceBase := sb_set_buffer (SerBuf (data (sb_buffer s)) 0 0) s.

(** [validate_time] also writes the live base and context into the header. *)
Definition validate_time (now : Time) (s : SequenceBase) : option SequenceLoadEvent * SequenceBase :=
  let h := sb_header s in
  if negb (bool_decide (hdr_time_base h = time_base now)) && negb (bool_decide (hdr_time_base h = TbDontCare)) then
    (Some (TimeBaseMismatch (time_base now) (hdr_time_base h)), s)
  else if negb (hdr_time_context h =? time_context now)%Z && negb (hdr_time_context h =? FW_CONTEXT_DONT_CARE)%Z then
    (Some (TimeContextMismatch (time_context now) (hdr_time_context h)), s)
  else (None, sb_set_header (MkSeqHeader (hdr_file_size h) (hdr_num_records h) (time_base now) (time_context now)) s).

(** * [FPrimeSequence] *)

Record FPrimeSequence : Type := MkFPrime { fp_base : SequenceBase; fp_crc : Hash; fp_crc_stored : Z }.
Definition FPrimeSequence_new : FPrimeSequence := MkFPrime SequenceBase_new Hash_new 0.
Definition fp_set_base (b : SequenceBase) (s : FPrimeSequence) : FPrimeSequence := MkFPrime b (fp_crc s) (fp_crc_stored s).

(** [file.read(&mut self.base.storage[..n], ..)]: the status and the bytes
    read, which replace the start of the storage. *)
Definition read_storage (n : nat) (s : SequenceBase) (f : FileW) : outcome (FileStatus * nat * SequenceBase * FileW) :=
  _ ← fw_assert (bool_decide (n ≤ capacity (sb_buffer s)));
  let '(status, bs, f) := file_read n OsFile.Wait f in
  Ret (status, length bs, sb_set_buffer (set_data (splice 0 bs (data (sb_buffer s))) (sb_buffer s)) s, f).

Definition read_header (s : FPrimeSequence) (f : FileW) : outcome (option SequenceLoadEvent * FPrimeSequence * FileW) :=
  _ ← fw_assert (bool_decide (SEQUENCE_HEADER_SIZE ≤ capacity (sb_buffer (fp_base s))));
  '(status, n, b, f) ← read_storage SEQUENCE_HEADER_SIZE (fp_base s) f;
  if negb (bool_decide (status = FsOpOk)) then Ret (Some (FileInvalid ReadHeader (FileStatus_repr status)), fp_set_base b s, f)
  else if negb (bool_decide (n = SEQUENCE_HEADER_SIZE)) then Ret (Some (FileInvalid ReadHeaderSize (Z.of_nat n)), fp_set_base b s, f)
  else b ← sb_set_buff_len SEQUENCE_HEADER_SIZE b; Ret (None, fp_set_base b s, f).

(** The reads of the header, each with the stage it reports. *)
Definition stage {A} (st : FileReadStage) (m : SerM A) : SerM (SequenceLoadEvent + A) := λ b,
  match m b with
  | (SOk a, b') => (SOk (inr a), b')
  | (SErr e, b') => (SOk (inl (FileInvalid st (SerializeStatus_repr e))), b')
  | (SPanic, b') => (SPanic, b')
  end.
Definition stage_bind {A B} (m : SerM (SequenceLoadEvent + A)) (k : A → SerM (SequenceLoadEvent + B)) : SerM (SequenceLoadEvent + B) :=
  r ← m; match r with inl e => mret (inl e) | inr a => k a end.

Definition read_header_fields (cap : nat) : SerM (SequenceLoadEvent + SequenceHeader) :=
  stage_bind (stage DeserSize (deserialize_u32 Big)) (λ file_size,
  if (Z.of_nat cap <? file_size)%Z then mret (inl (FileSizeError file_size))
  else
    stage_bind (stage DeserNumRecords (deserialize_u32 Big)) (λ num_records,
    stage_bind (stage DeserTimeBase (enum_deserialize_from (A := TimeBase) Big)) (λ base,
    stage_bind (stage DeserTimeContext (deserialize_u8 Big)) (λ context,
    mret (inr (MkSeqHeader file_size num_records base context)))))).

Definition deserialize_header (s : FPrimeSequence) : outcome (option SequenceLoadEvent * FPrimeSequence) :=
  '(r, b) ← with_deser (read_header_fields (capacity (sb_buffer (fp_base s)))) (fp_base s);
  match r with
  | SOk (inr h) => Ret (None, fp_set_base (sb_set_header h b) s)
  | SOk (inl e) => Ret (Some e, fp_set_base b s)
  | _ => Panic
  end.

(** The records and the CRC are read over the header. *)
Definition read_records_and_crc (s : FPrimeSequence) (f : FileW) : outcome (option SequenceLoadEvent * FPrimeSequence * FileW) :=
  let size := Z.to_nat (hdr_file_size (sb_header (fp_base s))) in
  '(status, n, b, f) ← read_storage size (fp_base s) f;
  if negb (bool_decide (status = FsOpOk)) then Ret (Some (FileInvalid ReadSeqData (FileStatus_repr status)), fp_set_base b s, f)
  else if negb (bool_decide (n = size)) then Ret (Some (FileInvalid ReadSeqDataSize (to_signed 32 (wrap 32 (Z.of_nat n)))), fp_set_base b s, f)
  else b ← sb_set_buff_len size b; Ret (None, fp_set_base b s, f).

Definition extract_crc (s : FPrimeSequence) : outcome (option SequenceLoadEvent * FPrimeSequence) :=
  let b := sb_buffer (fp_base s) in
  if bool_decide (ser_loc b < SEQUENCE_CRC_SIZE) then Ret (Some (FileInvalid ReadSeqCrc (Z.of_nat (ser_loc b))), s)
  else
    let data_size := ser_loc b - SEQUENCE_CRC_SIZE in
    raw ← copy_from data_size SEQUENCE_CRC_SIZE (data b);
    base ← sb_set_buff_len data_size (fp_base s);
    Ret (None, MkFPrime base (fp_crc s) (be_value raw)).

Definition read_open_file (s : FPrimeSequence) (f : FileW) : outcome (option SequenceLoadEvent * FPrimeSequence * FileW) :=
  let s := MkFPrime (fp_base s) (Hash_init Hash_new) (fp_crc_stored s) in
  '(e, s, f) ← read_header s f;
  match e with
  | Some e => Ret (Some e, s, f)
  | None =>
      header_bytes ← copy_from 0 SEQUENCE_HEADER_SIZE (data (sb_buffer (fp_base s)));
      let s := MkFPrime (fp_base s) (Hash_update header_bytes (fp_crc s)) (fp_crc_stored s) in
      '(e, s) ← deserialize_header s;
      match e with
      | Some e => Ret (Some e, s, f)
      | None =>
          '(e, s, f) ← read_records_and_crc s f;
          match e with
          | Some e => Ret (Some e, s, f)
          | None =>
              '(e, s) ← extract_crc s;
              match e with
              | Some e => Ret (Some e, s, f)
              | None =>
                  let b := sb_buffer (fp_base s) in
                  Ret (None, MkFPrime (fp_base s) (Hash_update (take (ser_loc b) (data b)) (fp_crc s)) (fp_crc_stored s), f)
              end
          end
      end
  end.

Definition read_file (s : FPrimeSequence) (w : World) : outcome (option SequenceLoadEvent * FPrimeSequence * World) :=
  match as_str (sb_file_name (fp_base s)) with
  | None => Ret (Some FileReadError, s, w)
  | Some path =>
      '(status, f) ← file_open path OpenRead (File_new, w);
      if bool_decide (status = FsOpOk) then '(e, s, f) ← read_open_file s f; Ret (e, s, (file_close f).2)
      else Ret (Some (if bool_decide (status = FsDoesntExist) then FileNotFound else FileReadError), s, (file_close f).2)
  end.

Definition validate_crc (s : FPrimeSequence) : option SequenceLoadEvent :=
  let computed := finalize (fp_crc s) in
  if negb (fp_crc_stored s =? computed)%Z then Some (FileCrcFailure (fp_crc_stored s) computed) else None.

(** [deserialize_record]: the record keeps the fields that are not read.  A
    caller looks at the record only after [Ok]. *)
Definition ser_lift {A} (m : outcome A) : SerM A := λ b, match m with Ret a => (SOk a, b) | Panic => (SPanic, b) end.
Definition deserialize_record (r : SequenceRecord) : SerM SequenceRecord :=
  desc_entry ← deserialize_u8 Big;
  if (2 <? desc_entry)%Z then ser_fail DeserFormatError
  else
    let descriptor := if (desc_entry =? 0)%Z then Absolute_ else if (desc_entry =? 1)%Z then Relative_ else EndOfSequence in
    if bool_decide (descriptor = EndOfSequence) then mret (MkRecord EndOfSequence (rec_time_tag r) (rec_command r))
    else
      seconds ← deserialize_u32 Big;
      useconds ← deserialize_u32 Big;
      tag ← ser_lift (Time_set seconds useconds (rec_time_tag r));
      record_size ← deserialize_u32 Big;
      left ← deserialize_size_left;
      if (Z.of_nat left <? record_size)%Z then ser_fail DeserSizeMismatch
      else if (Z.of_nat FW_COM_BUFFER_MAX_SIZE <? record_size + 2)%Z then ser_fail DeserSizeMismatch
      else
        let size := Z.to_nat record_size in
        '(raw, _) ← deserialize_bytes (replicate size 0%Z) size OmitLength Big;
        match set_buff raw (rec_command r) with
        | (SOk _, command) => mret (MkRecord descriptor tag command)
        | (SErr e, _) => ser_fail e
        | (SPanic, _) => ser_lift Panic
        end.

(** [for record_number in 0..num_records]: every turn consumes a byte or
    ends the loop, so [fuel] beyond the bytes left is not used up. *)
Fixpoint validate_loop (fuel : nat) (record_number num_records : Z) (r : SequenceRecord) (s : SequenceBase)
    : outcome (option (option SequenceLoadEvent * SequenceBase)) :=
  if (num_records <=? record_number)%Z then Ret (Some (None, s))
  else
    match fuel with
    | O => Ret None
    | S fuel' =>
        '(res, s) ← with_deser (deserialize_record r) s;
        match res with
        | SOk r => validate_loop fuel' (record_number + 1) num_records r s
        | SErr e => Ret (Some (Some (RecordInvalid record_number (SerializeStatus_repr e)), s))
        | SPanic => Panic
        end
    end.

Definition validate_records (s : FPrimeSequence) : outcome (option SequenceLoadEvent * FPrimeSequence) :=
  let b := fp_base s in
  let num_records := hdr_num_records (sb_header b) in
  if (num_records =? 0)%Z then Ret (Some NoRecords, s)
  else
    r ← validate_loop (S (sb_deserialize_size_left b)) 0 num_records SequenceRecord_default b;
    match r with
    | None => Panic
    | Some (Some e, b) => Ret (Some e, fp_set_base b s)
    | Some (None, b) =>
        let left := sb_deserialize_size_left b in
        if bool_decide (0 < left) then Ret (Some (RecordMismatch num_records (wrap 32 (Z.of_nat left))), fp_set_base b s)
        else Ret (None, fp_set_base (sb_reset b) s)
    end.

Definition fp_load_file (file_name : FwString) (now : Time) (s : FPrimeSequence) (w : World)
    : outcome (bool * option SequenceLoadEvent * FPrimeSequence * World) :=
  _ ← fw_assert (negb (bool_decide (data (sb_buffer (fp_base s)) = [])));
  let s := fp_set_base (sb_set_file_name file_name (fp_base s)) s in
  '(e, s, w) ← read_file s w;
  match e with
  | Some e => Ret (false, Some e, s, w)
  | None =>
      match validate_crc s with
      | Some e => Ret (false, Some e, s, w)
      | None =>
          let '(e, b) := validate_time now (fp_base s) in
          let s := fp_set_base b s in
          match e with
          | Some e => Ret (false, Some e, s, w)
          | None =>
              '(e, s) ← validate_records s;
              Ret (bool_decide (e = None), e, s, w)
          end
      end
  end.

Definition fp_next_record (r : SequenceRecord) (s : FPrimeSequence) : outcome (SequenceRecord * FPrimeSequence) :=
  '(res, b) ← with_deser (deserialize_record r) (fp_base s);
  match res with SOk r => Ret (r, fp_set_base b s) | _ => Panic end.

#[export] Instance FPrimeSequence_format : Sequence FPrimeSequence := {|
  seq_allocate_buffer i n s := b ← sb_allocate_buffer i n (fp_base s); Ret (fp_set_base b s);
  seq_deallocate_buffer s := fp_set_base (sb_deallocate_buffer (fp_base s)) s;
  seq_capacity s := capacity (sb_buffer (fp_base s));
  seq_set_file_name n s := fp_set_base (sb_set_file_name n (fp_base s)) s;
  seq_file_name s := sb_file_name (fp_base s);
  seq_log_file_name s := sb_log_file_name (fp_base s);
  seq_string_file_name s := sb_string_file_name (fp_base s);
  seq_header s := sb_header (fp_base s);
  seq_load_file := fp_load_file;
  seq_has_more_records s := bool_decide (0 < sb_deserialize_size_left (fp_base s));
  seq_next_record := fp_next_record;
  seq_reset s := fp_set_base (sb_reset (fp_base s)) s;
  seq_clear s := fp_set_base (sb_clear (fp_base s)) s;
|}.
