(* ===== verification/SequenceFacts.v ===== *)
(** [FPrimeSequence] keeps the laws of a sequence format, and accepts exactly
    the sequence files. *)

From stdpp Require Import list gmap strings.
From S2P Require Import Prelude Serial SerialFacts Codec Time Packets Crc32 FwString OsFile FilePaths Sequence.

(** * The format *)

Definition descriptor_byte (relative : bool) : Z := if relative then 1 else 0.
Definition view_image (v : View) : list Z :=
  match v with
  | VEnd => [2%Z]
  | VCommand relative s us com => [descriptor_byte relative] ++ u32_bytes s ++ u32_bytes us ++ u32_bytes (Z.of_nat (length com)) ++ com
  end.
Definition views_image (vs : list View) : list Z := concat (view_image <$> vs).

(** A record at the start of [c]: the record and the rest, a malformed
    record, or a time tag that stops the program. *)
Inductive parsed : Set := PView (v : View) (rest : list Z) | PError | PBadTag.

Definition parse_view (c : list Z) : parsed :=
  match c with
  | [] => PError
  | d :: c =>
      if (d =? 2)%Z then PView VEnd c
      else if negb ((d =? 0) || (d =? 1))%Z then PError
      else if bool_decide (length c < 8) then PError
      else if (1000000 <=? be_value (slice 4 4 c))%Z then PBadTag
      else if bool_decide (length c < 12) then PError
      else
        let size := be_value (slice 8 4 c) in
        if ((Z.of_nat (length c - 12) <? size) || (Z.of_nat FW_COM_BUFFER_MAX_SIZE <? size + 2))%Z then PError
        else PView (VCommand (d =? 1)%Z (be_value (take 4 c)) (be_value (slice 4 4 c)) (slice 12 (Z.to_nat size) c)) (drop (12 + Z.to_nat size) c)
  end.

Lemma parse_view_image v rest : view_ok v → parse_view (view_image v ++ rest) = PView v rest.
Proof.
  destruct v as [|relative s us com]; [done|]. intros (Hs & Hu & Hl & _). cbn [view_image]. rewrite <- !app_assoc. cbn [app parse_view].
  assert ((descriptor_byte relative =? 2)%Z = false) as -> by (by destruct relative).
  assert (negb ((descriptor_byte relative =? 0) || (descriptor_byte relative =? 1))%Z = false) as -> by (by destruct relative).
  set (c := u32_bytes s ++ _). assert (length c = 12 + (length com + length rest)) as Hlc by (unfold c; rewrite !length_app, !length_u32_bytes; lia).
  assert (drop 4 c = u32_bytes us ++ u32_bytes (Z.of_nat (length com)) ++ com ++ rest) as H4 by apply drop_u32.
  assert (drop 8 c = u32_bytes (Z.of_nat (length com)) ++ com ++ rest) as H8 by (change 8 with (4 + 4); rewrite <- drop_drop, H4; apply drop_u32).
  assert (drop 12 c = com ++ rest) as H12 by (change 12 with (8 + 4); rewrite <- drop_drop, H8; apply drop_u32).
  unfold slice. rewrite H4, H8, H12, !take_u32. unfold FW_COM_BUFFER_MAX_SIZE in *.
  rewrite !be_value_u32 by (unfold is_u in *; lia). rewrite bool_decide_eq_false_2 by lia. rewrite (proj2 (Z.leb_gt _ _)) by lia.
  rewrite bool_decide_eq_false_2 by lia. rewrite (proj2 (Z.ltb_ge _ _)), (proj2 (Z.ltb_ge _ _)) by lia. cbn [orb].
  unfold c at 1. rewrite take_u32, be_value_u32 by done. rewrite Nat2Z.id, take_app_length. rewrite <- drop_drop, H12, drop_app_length. by destruct relative.
Qed.

Lemma be_u32_is_u bs : length bs = 4 → Forall is_byte bs → is_u 32 (be_value bs).
Proof. intros Hl Hb. pose proof (be_value_bounds bs Hb) as Hv. rewrite Hl in Hv. exact Hv. Qed.
Lemma u32_bytes_value bs : length bs = 4 → Forall is_byte bs → u32_bytes (be_value bs) = bs.
Proof. intros Hl Hb. unfold u32_bytes. rewrite <- Hl. by apply be_bytes_be_value. Qed.

Lemma slice_then_drop {A} k n (l : list A) : slice k n l ++ drop (k + n) l = drop k l.
Proof. unfold slice. by rewrite <- drop_drop, take_drop. Qed.

(** What is parsed is the image of the record. *)
Lemma parse_view_exact c v rest : Forall is_byte c → parse_view c = PView v rest → view_ok v ∧ c = view_image v ++ rest.
Proof.
  intros Hb. unfold parse_view. destruct c as [|d c]; [done|]. apply Forall_cons in Hb as [_ Hb].
  destruct (Z.eqb_spec d 2) as [->|_]; [by intros [= <- <-]|].
  destruct ((d =? 0) || (d =? 1))%Z eqn:Hd; cbn [negb]; [|done]. case_bool_decide as H8; [done|].
  destruct (Z.leb_spec 1000000 (be_value (slice 4 4 c))) as [|Hus]; [done|]. case_bool_decide as H12; [done|].
  destruct ((Z.of_nat (length c - 12) <? be_value (slice 8 4 c)) || _)%Z eqn:Hs; [done|]. intros [= <- <-]. apply orb_false_iff in Hs as [Hs1%Z.ltb_ge Hs2%Z.ltb_ge].
  assert (∀ k, k + 4 ≤ length c → length (slice k 4 c) = 4) as Hls by (intros; apply length_slice; lia).
  assert (∀ k, Forall is_byte (slice k 4 c)) as Hbs by (intros; by apply Forall_slice).
  change (take 4 c) with (slice 0 4 c). pose proof (be_u32_is_u _ (Hls 8 ltac:(lia)) (Hbs 8)) as [Hz _].
  set (n := Z.to_nat (be_value (slice 8 4 c))) in *. assert (length (slice 12 n c) = n) as Hln by (apply length_slice; lia). split.
  - pose proof (be_u32_is_u _ (Hls 4 ltac:(lia)) (Hbs 4)) as [? _]. split_and!; [apply be_u32_is_u; [apply Hls; lia|apply Hbs]|done|done|lia|by apply Forall_slice].
  - cbn [view_image]. rewrite Hln. unfold n at 1. rewrite Z2Nat.id by done. rewrite !u32_bytes_value by first [apply Hbs|apply Hls; lia].
    assert ([descriptor_byte (d =? 1)%Z] = [d]) as -> by (unfold descriptor_byte; destruct (Z.eqb_spec d 1); [by subst|]; rewrite orb_false_r in Hd; apply Z.eqb_eq in Hd; by subst).
    rewrite <- !app_assoc. cbn [app]. f_equal.
    rewrite (slice_then_drop 12 n c : _ ++ drop (S _) c = _), (slice_then_drop 8 4 c : _ ++ drop 12 c = _), (slice_then_drop 4 4 c : _ ++ drop 8 c = _).
    by rewrite (slice_then_drop 0 4 c : _ ++ drop 4 c = _).
Qed.

(** * Records in the buffer *)

Lemma uint_then {B} n (k : Z → SerM B) b (Q : serres B * serbuf → Prop) :
  wf b → n ≠ 0 →
  (n ≤ length (remaining_slice b) → Q (k (be_value (take n (remaining_slice b))) (advanced n b))) →
  (length (remaining_slice b) < n → ∀ e, Q (SErr e, b)) →
  Q ((deserialize_uint n Big ≫= k) b).
Proof.
  intros Hb Hn Hok Herr. pose proof (deserialize_uint_exact n b Hb Hn) as Hd. case_decide as Hl.
  - rewrite (ser_bind_ok _ _ _ _ _ Hd). by apply Hok.
  - destruct Hd as [e He]. rewrite (ser_bind_err _ _ _ _ _ He). apply Herr. lia.
Qed.

Lemma slice_of_drop {A} j k n (l : list A) : slice j n (drop k l) = slice (k + j) n l.
Proof. unfold slice. by rewrite drop_drop. Qed.

(** Raw bytes of a known length. *)
Lemma raw_then {B} n (k : list Z * nat → SerM B) b :
  wf b → n ≤ length (remaining_slice b) →
  (deserialize_bytes (replicate n 0%Z) n OmitLength Big ≫= k) b = k (take n (remaining_slice b), n) (advanced n b).
Proof.
  intros Hb Hn. apply ser_bind_ok. pose proof (eq_sym (take_drop n (remaining_slice b))) as E. pose proof (length_remaining_slice b Hb) as Hl.
  assert (length (take n (remaining_slice b)) = n) as Hlt by (rewrite length_take; lia).
  unfold deserialize_bytes. rewrite (ser_bind_ok _ _ b tt b) by (unfold ser_assert; by rewrite length_replicate, bool_decide_eq_true_2).
  rewrite (ser_bind_ok _ _ _ _ _ (deserialize_size_left_spec b Hb)). rewrite bool_decide_eq_false_2 by lia.
  pose proof (reads_copy_out (replicate n 0%Z) (take n (remaining_slice b)) b _ Hb E) as Hc. rewrite Hlt in Hc. rewrite (ser_bind_ok _ _ _ _ _ Hc).
  assert (splice 0 (take n (remaining_slice b)) (replicate n 0%Z) = take n (remaining_slice b)) as ->; [|done].
  unfold splice. rewrite take_0, app_nil_l, Hlt, drop_ge by (rewrite length_replicate; lia). apply app_nil_r.
Qed.

Lemma set_buff_fits bs c : capacity c = FW_COM_BUFFER_MAX_SIZE → length bs ≤ FW_COM_BUFFER_MAX_SIZE →
  ∃ c', set_buff bs c = (SOk tt, c') ∧ capacity c' = FW_COM_BUFFER_MAX_SIZE ∧ as_slice c' = bs.
Proof.
  intros Hc Hl. unfold set_buff. rewrite bool_decide_eq_false_2 by lia. eexists. split; [done|]. unfold capacity in *. cbn [data ser_loc]. split.
  - rewrite length_splice by lia. done.
  - unfold as_slice. cbn [ser_loc data]. unfold splice. by rewrite take_0, app_nil_l, take_app_length.
Qed.

Definition reads_view (r : SequenceRecord) (b : serbuf) (p : parsed) (res : serres SequenceRecord * serbuf) : Prop :=
  match p with
  | PView v rest => ∃ r' n, res = (SOk r', advanced n b) ∧ 0 < n ≤ length (remaining_slice b) ∧ drop n (remaining_slice b) = rest ∧ shows v r' ∧ record_ok r'
  | PError => ∃ e b', res = (SErr e, b')
  | PBadTag => res.1 = SPanic
  end.

Lemma command_tail_exact (d : Z) r b :
  wf b → record_ok r → d = 0%Z ∨ d = 1%Z →
  ∀ c, remaining_slice b = d :: c → 12 ≤ length c → (be_value (slice 4 4 c) < 1000000)%Z →
  let size := be_value (slice 8 4 c) in
  ∀ (tag : Time), seconds tag = be_value (take 4 c) → useconds tag = be_value (slice 4 4 c) →
  reads_view r b (parse_view (d :: c))
    ((left ← deserialize_size_left;
      if (Z.of_nat left <? size)%Z then ser_fail DeserSizeMismatch
      else if (Z.of_nat FW_COM_BUFFER_MAX_SIZE <? size + 2)%Z then ser_fail DeserSizeMismatch
      else
        '(raw, _) ← deserialize_bytes (replicate (Z.to_nat size) 0%Z) (Z.to_nat size) OmitLength Big;
        match set_buff raw (rec_command r) with
        | (SOk _, command) => mret (MkRecord (if (d =? 0)%Z then Absolute_ else Relative_) tag command)
        | (SErr e, _) => ser_fail e
        | (SPanic, _) => ser_lift Panic
        end) (advanced 13 b)).
Proof.
  intros Hb Hr Hd c Hc H12 Hus size tag Hts Htu. unfold parse_view.
  assert ((d =? 2)%Z = false) as -> by (destruct Hd; by subst). assert (negb ((d =? 0) || (d =? 1))%Z = false) as -> by (destruct Hd; by subst).
  rewrite bool_decide_eq_false_2 by lia. rewrite (proj2 (Z.leb_gt _ _)) by lia. rewrite bool_decide_eq_false_2 by lia. cbv zeta. fold size.
  destruct (advanced_ok 13 b Hb) as [Hw Hrem]; [rewrite Hc; cbn; lia|]. rewrite Hc in Hrem. cbn [drop] in Hrem.
  rewrite (ser_bind_ok _ _ _ _ _ (deserialize_size_left_spec _ Hw)). rewrite <- length_remaining_slice, Hrem, length_drop by done.
  destruct (Z.ltb_spec (Z.of_nat (length c - 12)) size) as [|Hs1]; cbn [orb]; [by eexists _, _|].
  destruct (Z.ltb_spec (Z.of_nat FW_COM_BUFFER_MAX_SIZE) (size + 2)) as [|Hs2]; [by eexists _, _|].
  set (n := Z.to_nat size). rewrite raw_then by (done || (rewrite Hrem, length_drop; lia)). rewrite Hrem.
  destruct (set_buff_fits (take n (drop 12 c)) (rec_command r) Hr) as (com & -> & Hcap & Hsl); [rewrite length_take; lia|].
  eexists _, (13 + n). rewrite advanced_add, Hc. cbn [length]. split_and!; [done|lia|lia|done| |done].
  unfold shows. cbn [rec_descriptor rec_time_tag rec_command]. split_and!; [destruct Hd; by subst|done..].
Qed.

Lemma bytes_remaining b : wf b → Forall is_byte (remaining_slice b).
Proof. intros (_ & _ & Hb). unfold remaining_slice, as_slice. by apply Forall_drop, Forall_take. Qed.

Lemma deserialize_record_exact r b :
  wf b → record_ok r → reads_view r b (parse_view (remaining_slice b)) (deserialize_record r b).
Proof.
  intros Hb Hr. pose proof (bytes_remaining b Hb) as Hby. unfold deserialize_record. apply (uint_then 1); [done|done| |].
  2: { intros Hl e. destruct (remaining_slice b); [by eexists _, _|cbn in Hl; lia]. }
  destruct (remaining_slice b) as [|d c] eqn:Hc; [cbn; lia|]. intros _. apply Forall_cons in Hby as [[Hd0 _] _].
  assert (be_value (take 1 (d :: c)) = d) as -> by (cbn [take]; rewrite take_0; unfold be_value; cbn; lia).
  destruct (Z.ltb_spec 2 d) as [Hd|Hd].
  { unfold parse_view. rewrite (proj2 (Z.eqb_neq d 2)), (proj2 (Z.eqb_neq d 0)), (proj2 (Z.eqb_neq d 1)) by lia. by eexists _, _. }
  destruct (decide (d = 2%Z)) as [->|Hd2].
  { cbn [Z.eqb]. rewrite bool_decide_eq_true_2 by done. eexists _, 1. rewrite Hc. cbn [length drop]. split_and!; try done; lia. }
  assert (d = 0 ∨ d = 1)%Z as Hd' by lia. cbv zeta.
  assert ((if (d =? 0)%Z then Absolute_ else if (d =? 1)%Z then Relative_ else EndOfSequence) = (if (d =? 0)%Z then Absolute_ else Relative_)) as ->
    by (destruct Hd' as [-> | ->]; done).
  rewrite bool_decide_eq_false_2 by (by destruct (d =? 0)%Z).
  assert (length c < 8 → parse_view (d :: c) = PError) as Hp8.
  { intros Hl. unfold parse_view. rewrite (proj2 (Z.eqb_neq d 2)), (bool_decide_eq_true_2 (length c < 8)) by lia. destruct Hd' as [-> | ->]; done. }
  destruct (advanced_ok 1 b Hb) as [Hw1 Hr1]; [rewrite Hc; cbn; lia|]. rewrite Hc in Hr1. change (drop 1 (d :: c)) with c in Hr1.
  apply (uint_then 4); [done|done| |]. 2: { rewrite Hr1. intros Hl e. rewrite Hp8 by lia. by eexists _, _. }
  rewrite Hr1. intros H4. destruct (advanced_ok 4 _ Hw1) as [Hw2 Hr2]; [by rewrite Hr1|]. rewrite Hr1, advanced_add in *.
  apply (uint_then 4); [done|done| |]. 2: { rewrite Hr2, length_drop. intros Hl e. rewrite Hp8 by lia. by eexists _, _. }
  rewrite Hr2, length_drop. intros H8. destruct (advanced_ok 4 _ Hw2) as [Hw3 Hr3]; [by rewrite Hr2, length_drop|]. rewrite Hr2, drop_drop, advanced_add in *.
  change (take 4 (drop 4 c)) with (slice 4 4 c). unfold Time_set, mbind at 1, SerM_bind at 1, ser_lift at 1.
  destruct (Z.ltb_spec (be_value (slice 4 4 c)) 1000000) as [Hus|Hus].
  2: { cbn. unfold parse_view. rewrite (proj2 (Z.eqb_neq d 2)), (bool_decide_eq_false_2 (length c < 8)), (proj2 (Z.leb_le _ _)) by lia. destruct Hd' as [-> | ->]; done. }
  cbn [fw_assert]. rewrite outcome_bind_ret. cbn [Nat.add] in *.
  apply (uint_then 4); [done|done| |].
  2: { rewrite Hr3, length_drop. intros Hl e. unfold parse_view. rewrite (proj2 (Z.eqb_neq d 2)), (bool_decide_eq_false_2 (length c < 8)), (proj2 (Z.leb_gt _ _)), (bool_decide_eq_true_2 (length c < 12)) by lia.
       destruct Hd' as [-> | ->]; by eexists _, _. }
  rewrite Hr3, length_drop. intros H12. rewrite advanced_add. cbn [Nat.add]. change (take 4 (drop 8 c)) with (slice 8 4 c).
  by apply command_tail_exact; [..|lia|done|done|done].
Qed.

(** * Lists of records *)

Fixpoint parse_views (fuel : nat) (c : list Z) : option (list View) :=
  match c, fuel with
  | [], _ => Some []
  | _ :: _, O => None
  | _ :: _, S fuel' => match parse_view c with PView v rest => cons v <$> parse_views fuel' rest | _ => None end
  end.
Definition views (c : list Z) : option (list View) := parse_views (length c) c.

Lemma view_image_nonempty v : ∃ d x, view_image v = d :: x.
Proof. destruct v; cbn; eauto. Qed.
Lemma view_image_bytes v : view_ok v → Forall is_byte (view_image v).
Proof.
  destruct v as [|relative s us com]; [by repeat constructor|]. intros (_ & _ & _ & Hc). cbn [view_image].
  repeat apply Forall_app_2; try apply be_bytes_is_byte; [|done]. by destruct relative; repeat constructor.
Qed.
Lemma views_image_cons v vs : views_image (v :: vs) = view_image v ++ views_image vs.
Proof. done. Qed.
Lemma views_image_app vs vs' : views_image (vs ++ vs') = views_image vs ++ views_image vs'.
Proof. unfold views_image. by rewrite fmap_app, concat_app. Qed.
Lemma views_image_bytes vs : Forall view_ok vs → Forall is_byte (views_image vs).
Proof. induction 1; [constructor|]. rewrite views_image_cons. apply Forall_app_2; [by apply view_image_bytes|done]. Qed.
Lemma views_image_nil vs : views_image vs = [] → vs = [].
Proof. destruct vs as [|v vs]; [done|]. rewrite views_image_cons. by destruct (view_image_nonempty v) as (d & x & ->). Qed.

Lemma views_of_image vs : Forall view_ok vs → views (views_image vs) = Some vs.
Proof.
  intros Hvs. unfold views. assert (∀ fuel, length (views_image vs) ≤ fuel → parse_views fuel (views_image vs) = Some vs) as H; [|by apply H].
  induction Hvs as [|v vs Hv _ IH]; intros fuel Hl; [by destruct fuel|]. rewrite views_image_cons in *.
  destruct (view_image_nonempty v) as (d & x & E). rewrite E in *. destruct fuel as [|fuel]; [cbn in Hl; lia|].
  change (parse_views (S fuel) ((d :: x) ++ views_image vs)) with (match parse_view ((d :: x) ++ views_image vs) with PView v rest => cons v <$> parse_views fuel rest | _ => None end).
  rewrite <- E, parse_view_image by done. rewrite IH; [done|]. cbn in Hl. rewrite length_app in Hl. lia.
Qed.

(** Sound records are read off in one way. *)
Lemma views_image_prefix vs : ∀ vs' rest rest', Forall view_ok vs → Forall view_ok vs' → length vs = length vs' →
  views_image vs ++ rest = views_image vs' ++ rest' → vs = vs' ∧ rest = rest'.
Proof.
  induction vs as [|v vs IH]; intros [|v' vs'] rest rest' Hv Hv' Hl E; try done. apply Forall_cons in Hv as [Hv1 Hv]. apply Forall_cons in Hv' as [Hv1' Hv'].
  rewrite !views_image_cons, <- !app_assoc in E. pose proof (parse_view_image v (views_image vs ++ rest) Hv1) as P. rewrite E, parse_view_image in P by done.
  injection P as -> E'. destruct (IH vs' rest rest' Hv Hv' ltac:(cbn in Hl; lia) (eq_sym E')) as [-> ->]. done.
Qed.

(** No record, read in order, has a time tag that stops the program. *)
Definition tags_ok (c : list Z) : Prop := ∀ vs rest, Forall view_ok vs → c = views_image vs ++ rest → parse_view rest ≠ PBadTag.

Lemma tags_ok_step c v rest : Forall is_byte c → tags_ok c → parse_view c = PView v rest → tags_ok rest.
Proof.
  intros Hb Ht Hp. apply parse_view_exact in Hp as [Hv ->]; [|done]. intros vs rest' Hvs ->.
  apply (Ht (v :: vs)); [by constructor|]. by rewrite views_image_cons, <- app_assoc.
Qed.
Lemma tags_ok_image vs : Forall view_ok vs → tags_ok (views_image vs).
Proof.
  induction 1 as [|v vs Hv Hvs IH]; intros vs' rest Hvs' E.
  - symmetry in E. apply app_eq_nil in E as [_ ->]. done.
  - destruct vs' as [|v' vs']; [change (views_image (v :: vs) = rest) in E; subst rest; by rewrite views_image_cons, parse_view_image|]. apply Forall_cons in Hvs' as [Hv' Hvs'].
    rewrite !views_image_cons, <- app_assoc in E. pose proof (parse_view_image v (views_image vs) Hv) as P. rewrite E, parse_view_image in P by done.
    injection P as _ E'. by apply (IH vs' rest).
Qed.

(** * The laws *)

Lemma with_deser_eq {R} (m : SerM R) s :
  wf (sb_buffer s) →
  with_deser m s = match m (sb_buffer s) with (SPanic, _) => Panic | (r, b') => Ret (r, sb_set_buffer (set_deser_loc (deser_loc b') (sb_buffer s)) s) end.
Proof.
  intros (_ & Hs & _). unfold with_deser, ext_buf_with_len. unfold capacity in Hs. rewrite bool_decide_eq_true_2 by done. cbn [fw_assert]. rewrite !outcome_bind_ret.
  by destruct (sb_buffer s).
Qed.

Definition fp_buffer (t : FPrimeSequence) : serbuf := sb_buffer (fp_base t).
Definition fp_usable (t : FPrimeSequence) : Prop := SEQUENCE_HEADER_SIZE ≤ capacity (fp_buffer t) ∧ Forall is_byte (data (fp_buffer t)).
Definition fp_content (t : FPrimeSequence) : list View := default [] (views (as_slice (fp_buffer t))).
Definition fp_left (t : FPrimeSequence) : list View := default [] (views (remaining_slice (fp_buffer t))).
Definition fp_ok (t : FPrimeSequence) : Prop :=
  fp_usable t ∧ wf (fp_buffer t) ∧ ∃ done left, Forall view_ok (done ++ left) ∧
    as_slice (fp_buffer t) = views_image (done ++ left) ∧ remaining_slice (fp_buffer t) = views_image left.

Lemma fp_content_eq t vs : Forall view_ok vs → as_slice (fp_buffer t) = views_image vs → fp_content t = vs.
Proof. intros Hv E. unfold fp_content. by rewrite E, views_of_image. Qed.
Lemma fp_left_eq t vs : Forall view_ok vs → remaining_slice (fp_buffer t) = views_image vs → fp_left t = vs.
Proof. intros Hv E. unfold fp_left. by rewrite E, views_of_image. Qed.

Lemma fp_ok_views t : fp_ok t → Forall view_ok (fp_content t) ∧ ∃ done, fp_content t = done ++ fp_left t.
Proof.
  intros (_ & _ & done & left & Hv & Ec & El). rewrite (fp_content_eq _ _ Hv Ec). split; [done|]. exists done. apply Forall_app in Hv as [_ Hl]. by rewrite (fp_left_eq _ _ Hl El).
Qed.

Lemma fp_has_more t : fp_ok t → seq_has_more_records t = bool_decide (fp_left t ≠ []).
Proof.
  intros (_ & Hw & done & left & Hv & Ec & El). apply Forall_app in Hv as [_ Hl]. rewrite (fp_left_eq _ _ Hl El). cbn. apply bool_decide_ext.
  pose proof (length_remaining_slice _ Hw) as Hlen. unfold sb_deserialize_size_left. fold (fp_buffer t). rewrite <- Hlen, El. destruct left as [|v left].
  - cbn. split; [lia|done].
  - rewrite views_image_cons. destruct (view_image_nonempty v) as (d & x & ->). cbn. split; [done|lia].
Qed.

Lemma fp_next t r v vs :
  fp_ok t → record_ok r → fp_left t = v :: vs →
  ∃ r' t', fp_next_record r t = Ret (r', t') ∧ shows v r' ∧ record_ok r' ∧ fp_ok t' ∧
    fp_left t' = vs ∧ fp_content t' = fp_content t ∧ seq_header t' = seq_header t.
Proof.
  intros (Hu & Hw & done & left & Hv & Ec & El) Hr Hleft. pose proof Hv as [Hvd Hvl]%Forall_app. rewrite (fp_left_eq _ _ Hvl El) in Hleft. subst left.
  pose proof (deserialize_record_exact r (fp_buffer t) Hw Hr) as Hd. apply Forall_cons in Hvl as [Hv1 Hvs]. rewrite El, views_image_cons, parse_view_image in Hd by done.
  destruct Hd as (r' & n & E & Hn & Hrest & Hsh & Hr'). unfold fp_next_record. rewrite (with_deser_eq _ _ Hw). fold (fp_buffer t). rewrite E, outcome_bind_ret.
  destruct (advanced_ok n (fp_buffer t) Hw ltac:(lia)) as [Hw' Hrem]. rewrite Hrest in Hrem.
  set (t' := fp_set_base _ t). assert (fp_buffer t' = advanced n (fp_buffer t)) as Eb by (unfold t', fp_buffer, fp_set_base, sb_set_buffer; cbn; by destruct (sb_buffer (fp_base t))).
  assert (as_slice (fp_buffer t') = as_slice (fp_buffer t)) as Ea by (by rewrite Eb).
  exists r', t'. split_and!; [done|done|done| |by apply fp_left_eq; [|rewrite Eb]| |done].
  - split_and!; [unfold fp_usable; rewrite Eb; exact Hu|by rewrite Eb|]. exists (done ++ [v]), vs. rewrite <- app_assoc, Ea, Eb. by split_and!.
  - unfold fp_content. by rewrite Ea.
Qed.

Lemma fp_reset_ok t : fp_ok t → fp_ok (seq_reset t) ∧ fp_left (seq_reset t) = fp_content t ∧ fp_content (seq_reset t) = fp_content t.
Proof.
  intros (Hu & (Hd & Hs & Hb) & done & left & Hv & Ec & El). rewrite (fp_content_eq _ _ Hv Ec).
  assert (remaining_slice (fp_buffer (seq_reset t)) = views_image (done ++ left)) as Er by (unfold remaining_slice; cbn; by rewrite drop_0).
  split_and!; [|by apply fp_left_eq|by apply fp_content_eq]. split_and!; [done|by split_and!; [cbn; lia|..]|]. by exists [], (done ++ left).
Qed.
Lemma fp_clear_ok t : fp_usable t → fp_ok (seq_clear t) ∧ fp_left (seq_clear t) = [] ∧ fp_content (seq_clear t) = [].
Proof.
  intros [Hc Hb]. assert (as_slice (fp_buffer (seq_clear t)) = []) as E1 by (unfold as_slice; cbn; by rewrite take_0).
  assert (remaining_slice (fp_buffer (seq_clear t)) = []) as E2 by (unfold remaining_slice; by rewrite E1, drop_nil).
  split_and!; [|by apply fp_left_eq|by apply fp_content_eq]. split_and!; [by split|by split_and!; [cbn; lia|cbn; lia|]|]. exists [], []. by split_and!.
Qed.

(** ** Validation of the records *)

(** [b'] is [b] with another read cursor. *)
Definition moved (b b' : serbuf) : Prop := data b' = data b ∧ ser_loc b' = ser_loc b ∧ wf b'.

Lemma validate_loop_ok fuel : ∀ n num r s,
  wf (sb_buffer s) → record_ok r → tags_ok (remaining_slice (sb_buffer s)) → length (remaining_slice (sb_buffer s)) < fuel →
  ∃ e b', validate_loop fuel n num r s = Ret (Some (e, sb_set_buffer b' s)) ∧ data b' = data (sb_buffer s) ∧ ser_loc b' = ser_loc (sb_buffer s) ∧
    (e = None → wf b' ∧ ∃ vs, Forall view_ok vs ∧ remaining_slice (sb_buffer s) = views_image vs ++ remaining_slice b' ∧ Z.of_nat (length vs) = (num - n) `max` 0)%Z ∧
    (∀ vs rest, Forall view_ok vs → Z.of_nat (length vs) = (num - n)%Z → remaining_slice (sb_buffer s) = views_image vs ++ rest → e = None).
Proof.
  induction fuel as [|fuel IH]; intros n num r s Hw Hr Ht Hf; [lia|]. cbn [validate_loop]. destruct (Z.leb_spec num n) as [Hn|Hn].
  { exists None, (sb_buffer s). split_and!; [by destruct s|done|done| |done]. intros _. split; [done|]. exists []. split_and!; [constructor|done|cbn; lia]. }
  rewrite (with_deser_eq _ _ Hw). pose proof (deserialize_record_exact r (sb_buffer s) Hw Hr) as Hd.
  destruct (parse_view (remaining_slice (sb_buffer s))) as [v rest| |] eqn:Hp.
  - destruct Hd as (r' & k & -> & Hk & Hrest & _ & Hr'). rewrite outcome_bind_ret. set (s' := sb_set_buffer _ s).
    destruct (advanced_ok k (sb_buffer s) Hw ltac:(lia)) as [Hw' Hrem]. rewrite Hrest in Hrem.
    assert (sb_buffer s' = advanced k (sb_buffer s)) as Eb by (unfold s'; cbn; by destruct (sb_buffer s)). pose proof (bytes_remaining _ Hw) as Hby.
    destruct (parse_view_exact _ _ _ Hby Hp) as [Hv Ec].
    destruct (IH (n + 1)%Z num r' s') as (e & b' & E & Hd' & Hs' & He & Hc'); rewrite ?Eb; [done|done| | |].
    + rewrite Hrem. by eapply tags_ok_step.
    + rewrite Hrem, <- Hrest, length_drop. lia.
    + exists e, b'. rewrite E. split_and!; [done|by rewrite Hd', Eb|by rewrite Hs', Eb| |].
      2: { intros [|v' vs'] rest' Hvs' Hl' E'; [cbn in Hl'; lia|]. apply Forall_cons in Hvs' as [Hv' Hvs']. rewrite views_image_cons, <- app_assoc in E'.
           rewrite E', parse_view_image in Hp by done. injection Hp as <- <-. apply (Hc' vs' rest'); [done|cbn in Hl'; lia|by rewrite Eb]. }
      intros Hn'. destruct (He Hn') as (Hwb & vs & Hvs & Ev & Hl).
      split; [done|]. exists (v :: vs). rewrite Eb, Hrem in Ev. split_and!; [by constructor|by rewrite Ec, Ev, views_image_cons, <- app_assoc|]. cbn [length]. lia.
  - destruct Hd as (e & b' & ->). rewrite outcome_bind_ret. eexists (Some _), (set_deser_loc (deser_loc b') (sb_buffer s)). split_and!; [done..|].
    intros [|v' vs'] rest' Hvs' Hl' E'; [cbn in Hl'; lia|]. apply Forall_cons in Hvs' as [Hv' _]. by rewrite E', views_image_cons, <- app_assoc, parse_view_image in Hp by done.
  - exfalso. by apply (Ht [] (remaining_slice (sb_buffer s))).
Qed.

(** ** The header *)

Definition parse_header (c : list Z) : option SequenceHeader :=
  base ← try_from (be_value (slice 8 2 c));
  Some (MkSeqHeader (be_value (take 4 c)) (be_value (slice 4 4 c)) base (be_value (slice 10 1 c))).

Lemma stage_then {A B} st (m : SerM A) (k : A → SerM (SequenceLoadEvent + B)) b a b' :
  m b = (SOk a, b') → stage_bind (stage st m) k b = k a b'.
Proof. intros E. unfold stage_bind, stage, mbind, SerM_bind. by rewrite E. Qed.
Lemma stage_fails {A B} st (m : SerM A) (k : A → SerM (SequenceLoadEvent + B)) b e b' :
  m b = (SErr e, b') → stage_bind (stage st m) k b = (SOk (inl (FileInvalid st (SerializeStatus_repr e))), b').
Proof. intros E. unfold stage_bind, stage, mbind, SerM_bind. by rewrite E. Qed.

Lemma uint_at n k c b :
  wf b → remaining_slice b = drop k c → n ≠ 0 → k + n ≤ length c →
  deserialize_uint n Big b = (SOk (be_value (slice k n c)), advanced n b) ∧ wf (advanced n b) ∧ remaining_slice (advanced n b) = drop (k + n) c.
Proof.
  intros Hb Hr Hn Hl. assert (n ≤ length (remaining_slice b)) as Hln by (rewrite Hr, length_drop; lia).
  destruct (advanced_ok n b Hb Hln) as [Hw Hrem]. split_and!; [|done|by rewrite Hrem, Hr, drop_drop].
  pose proof (deserialize_uint_exact n b Hb Hn) as He. rewrite decide_True in He by done. by rewrite He, Hr.
Qed.

Lemma header_fields_exact cap b c :
  wf b → remaining_slice b = c → length c = SEQUENCE_HEADER_SIZE →
  ∃ b', read_header_fields cap b =
    (SOk (if (Z.of_nat cap <? be_value (take 4 c))%Z then inl (FileSizeError (be_value (take 4 c)))
          else match parse_header c with Some h => inr h | None => inl (FileInvalid DeserTimeBase (SerializeStatus_repr DeserFormatError)) end), b').
Proof.
  intros Hb Hr Hl. unfold SEQUENCE_HEADER_SIZE in Hl. unfold read_header_fields. destruct (uint_at 4 0 c b) as (E1 & Hw1 & Hr1); [done|by rewrite drop_0|done|lia|].
  rewrite (stage_then _ _ _ _ _ _ E1). change (slice 0 4 c) with (take 4 c). destruct (Z.of_nat cap <? be_value (take 4 c))%Z; [by eexists|].
  destruct (uint_at 4 4 c _ Hw1 Hr1) as (E2 & Hw2 & Hr2); [done|lia|]. rewrite (stage_then _ _ _ _ _ _ E2).
  destruct (uint_at 2 8 c _ Hw2 Hr2) as (E3 & Hw3 & Hr3); [done|lia|]. unfold parse_header.
  destruct (try_from (be_value (slice 8 2 c)) : option TimeBase) as [base|] eqn:Eb.
  - assert (enum_deserialize_from (A := TimeBase) Big (advanced 4 (advanced 4 b)) = (SOk base, advanced 2 (advanced 4 (advanced 4 b)))) as E3'.
    { unfold enum_deserialize_from. rewrite (ser_bind_ok _ _ _ _ _ E3). by rewrite Eb. }
    rewrite (stage_then _ _ _ _ _ _ E3'). destruct (uint_at 1 10 c _ Hw3 Hr3) as (E4 & Hw4 & Hr4); [done|lia|]. rewrite (stage_then _ _ _ _ _ _ E4). by eexists.
  - assert (enum_deserialize_from (A := TimeBase) Big (advanced 4 (advanced 4 b)) = (SErr DeserFormatError, advanced 2 (advanced 4 (advanced 4 b)))) as E3'.
    { unfold enum_deserialize_from. rewrite (ser_bind_ok _ _ _ _ _ E3). by rewrite Eb. }
    rewrite (stage_fails _ _ _ _ _ _ E3'). by eexists.
Qed.

(** ** Reading the file *)

Lemma take_prefix_eq {A} (bs l : list A) n : bs `prefix_of` l → length bs = n → bs = take n l.
Proof. intros [r ->] <-. by rewrite take_app_length. Qed.

(** A read into the storage, whatever the system does. *)
Lemma read_storage_ok n s f d :
  n ≤ capacity (sb_buffer s) → Forall is_byte (data (sb_buffer s)) → reading f d → world_bytes f.2 →
  let c := node f.2 (fd_node d) in
  ∃ st m D f' d', read_storage n s f = Ret (st, m, sb_set_buffer (set_data D (sb_buffer s)) s, f') ∧
    length D = capacity (sb_buffer s) ∧ Forall is_byte D ∧ reading f' d' ∧ fd_node d' = fd_node d ∧ same_files f.2 f'.2 ∧
    (m = n → fd_pos d' = fd_pos d + n ∧ take n D = slice (fd_pos d) n c ∧ (0 < n → fd_pos d + n ≤ length c)) ∧
    (quiet f → f'.2 = f.2 ∧ st = FsOpOk ∧ (fd_pos d + n ≤ length c → m = n)).
Proof.
  intros Hn Hb Hr Hw c. unfold read_storage. rewrite bool_decide_eq_true_2 by done. cbn [fw_assert]. rewrite outcome_bind_ret.
  destruct (file_read n Wait f) as [[st bs] f'] eqn:E. destruct (file_read_from _ _ _ _ _ _ _ Hr E) as (d' & w' & -> & (Hp & Hd & Hsame) & Hlb & Hr').
  eexists st, (length bs), _, _, d'. split; [done|]. unfold capacity in *. fold c in Hp.
  assert (length (drop (fd_pos d) c) = length c - fd_pos d) as Hld by apply length_drop. split_and!; [apply length_splice; lia| |done|by rewrite Hd|done| |].
  - apply Forall_splice; [done|]. destruct Hp as [r Hp]. pose proof (Hw (fd_node d)) as Hc. fold c in Hc. apply (Forall_drop _ (fd_pos d)) in Hc. rewrite Hp in Hc. by apply Forall_app in Hc as [? _].
  - intros Hm. split_and!; [rewrite Hd; cbn; lia| |intros H0; destruct Hp as [r Hp]; rewrite Hp, length_app in Hld; lia].
    unfold splice. rewrite take_0, app_nil_l, <- Hm, take_app_length. unfold slice. rewrite Hm. by apply take_prefix_eq.
  - intros Hq. rewrite (file_read_quiet_all n Wait f d Hr Hq) in E. fold c in E. injection E as <- <- <- <-. split_and!; [done..|]. intros Hl. apply length_slice. lia.
Qed.

(** The block of a sequence file: its header is sound and all of it is
    there. *)
Record seq_block (cap : nat) (c : list Z) (h : SequenceHeader) : Prop := {
  blk_header : parse_header c = Some h;
  blk_fits : (hdr_file_size h ≤ Z.of_nat cap)%Z;
  blk_crc : (4 ≤ hdr_file_size h)%Z;
  blk_length : 11 + Z.to_nat (hdr_file_size h) ≤ length c;
}.

(** The records of a file, its CRC over header and records. *)
Definition file_size (c : list Z) : nat := Z.to_nat (be_value (take 4 c)).
Definition records_of (c : list Z) : list Z := slice 11 (file_size c - 4) c.

Record loaded (c : list Z) (t : FPrimeSequence) : Prop := {
  ld_wf : wf (fp_buffer t);
  ld_start : deser_loc (fp_buffer t) = 0;
  ld_records : as_slice (fp_buffer t) = records_of c;
  ld_crc : finalize (fp_crc t) = hash_u32 (take (7 + file_size c) c);
  ld_stored : fp_crc_stored t = be_value (slice (7 + file_size c) 4 c);
}.

Lemma parse_header_take n c : 11 ≤ n → parse_header (take n c) = parse_header c.
Proof.
  intros Hn. unfold parse_header, slice. rewrite take_take, !skipn_firstn_comm, !take_take.
  by rewrite !Nat.min_l by lia.
Qed.
Lemma parse_header_size c h : parse_header c = Some h → hdr_file_size h = be_value (take 4 c).
Proof. unfold parse_header. destruct (try_from _); [|done]. by intros [= <-]. Qed.

Lemma wf_intro D n : n ≤ length D → Forall is_byte D → wf (SerBuf D n 0).
Proof. intros Hn Hb. split_and!; [cbn; lia|done|done]. Qed.
Lemma remaining_start D n : remaining_slice (SerBuf D n 0) = take n D.
Proof. unfold remaining_slice, as_slice. cbn. apply drop_0. Qed.

Definition same_names (b b' : SequenceBase) : Prop :=
  sb_file_name b' = sb_file_name b ∧ sb_log_file_name b' = sb_log_file_name b ∧ sb_string_file_name b' = sb_string_file_name b ∧ capacity (sb_buffer b') = capacity (sb_buffer b).

Lemma set_buff_len_ok n s D : n ≤ length D → sb_set_buff_len n (sb_set_buffer (set_data D (sb_buffer s)) s) = Ret (sb_set_buffer (SerBuf D n 0) s).
Proof. intros Hn. unfold sb_set_buff_len. cbn. unfold capacity, set_data. cbn. by rewrite bool_decide_eq_true_2. Qed.

(** The parts of a sequence that a step of the load leaves alone. *)
Definition kept (t t' : FPrimeSequence) : Prop := same_names (fp_base t) (fp_base t') ∧ fp_usable t'.
Definition same_crc (t t' : FPrimeSequence) : Prop := fp_crc t' = fp_crc t ∧ fp_crc_stored t' = fp_crc_stored t.

Lemma kept_trans t1 t2 t3 : kept t1 t2 → kept t2 t3 → kept t1 t3.
Proof. intros [(? & ? & ? & ?) _] [(? & ? & ? & ?) ?]. split; [|done]. split_and!; congruence. Qed.

Lemma kept_buffer t b : fp_usable t → capacity b = capacity (fp_buffer t) → Forall is_byte (data b) → kept t (fp_set_base (sb_set_buffer b (fp_base t)) t).
Proof. intros [Hc _] Hb Hby. split; [by split_and!|]. split; [cbn; unfold fp_buffer in *; by rewrite Hb|done]. Qed.

Lemma read_header_ok t f d :
  fp_usable t → reading f d → fd_pos d = 0 → world_bytes f.2 →
  let c := node f.2 (fd_node d) in
  ∃ e t' f' d', read_header t f = Ret (e, t', f') ∧ kept t t' ∧ same_crc t t' ∧ reading f' d' ∧ fd_node d' = fd_node d ∧ same_files f.2 f'.2 ∧
    (e = None → fd_pos d' = 11 ∧ 11 ≤ length c ∧ ∃ D, fp_buffer t' = SerBuf D 11 0 ∧ take 11 D = take 11 c ∧ Forall is_byte D) ∧
    (quiet f → f'.2 = f.2 ∧ (11 ≤ length c → e = None)).
Proof.
  intros [Hc Hb] Hr Hp Hw c. unfold read_header. unfold SEQUENCE_HEADER_SIZE in *. unfold fp_buffer in Hc, Hb. rewrite bool_decide_eq_true_2 by done. cbn [fw_assert]. rewrite outcome_bind_ret.
  destruct (read_storage_ok 11 (fp_base t) f d Hc Hb Hr Hw) as (st & m & D & f' & d' & E & HD & HDb & Hr' & Hd' & Hs & Hm & Hq). rewrite E, outcome_bind_ret. fold c in Hm, Hq. rewrite Hp in Hm, Hq.
  assert (∀ n k, kept t (fp_set_base (sb_set_buffer (SerBuf D n k) (fp_base t)) t)) as Hk by (intros; by apply kept_buffer).
  assert (kept t (fp_set_base (sb_set_buffer (set_data D (sb_buffer (fp_base t))) (fp_base t)) t)) as Hk' by (by apply kept_buffer).
  case_bool_decide as Hst; cbn [negb]; [|eexists (Some _), _, _, d'; split; [done|]; split_and!; try done; intros Hq'; destruct (Hq Hq') as (? & ? & _); done].
  case_bool_decide as Hn; cbn [negb]; [|eexists (Some _), _, _, d'; split; [done|]; split_and!; try done; intros Hq'; destruct (Hq Hq') as (? & _ & H2); by split; [|intros ?%H2]].
  rewrite set_buff_len_ok by (unfold capacity in *; lia). rewrite outcome_bind_ret. eexists None, _, _, d'. split; [done|]. destruct (Hm Hn) as (H1 & H2 & H3).
  split_and!; try done; [intros _; split_and!; [done|apply H3; lia|]; by exists D|]. intros Hq'. by destruct (Hq Hq').
Qed.

Lemma deserialize_header_ok t D c :
  fp_usable t → fp_buffer t = SerBuf D 11 0 → take 11 D = take 11 c → 11 ≤ length c → Forall is_byte D →
  ∃ e t', deserialize_header t = Ret (e, t') ∧ kept t t' ∧ same_crc t t' ∧
    match e with
    | None => parse_header c = Some (sb_header (fp_base t')) ∧ (hdr_file_size (sb_header (fp_base t')) ≤ Z.of_nat (capacity (fp_buffer t)))%Z
    | Some _ => ∀ h, ¬ seq_block (capacity (fp_buffer t)) c h
    end.
Proof.
  intros Hu Hbuf HD Hl Hb. assert (11 ≤ length D) as HlD by (apply (f_equal length) in HD; rewrite !length_take in HD; lia).
  assert (wf (fp_buffer t)) as Hw by (rewrite Hbuf; by apply wf_intro). unfold deserialize_header. rewrite with_deser_eq by done. fold (fp_buffer t).
  destruct (header_fields_exact (capacity (fp_buffer t)) (fp_buffer t) (take 11 c)) as (b' & ->); [done|by rewrite Hbuf, remaining_start|rewrite length_take; unfold SEQUENCE_HEADER_SIZE; lia|].
  rewrite outcome_bind_ret. rewrite parse_header_take, take_take by lia. cbn [Nat.min].
  assert (∀ k, kept t (fp_set_base (sb_set_buffer (set_deser_loc k (fp_buffer t)) (fp_base t)) t)) as Hk by (intros; apply kept_buffer; [done|done|by rewrite Hbuf]).
  destruct (Z.ltb_spec (Z.of_nat (capacity (fp_buffer t))) (be_value (take 4 c))) as [Hsz|Hsz].
  { eexists (Some _), _. split; [done|]. split_and!; [apply Hk|done..|]. intros h [Hh Hf _ _]. rewrite (parse_header_size _ _ Hh) in Hf. lia. }
  destruct (parse_header c) as [h|] eqn:Hh.
  - eexists None, _. split; [done|]. split_and!; [apply (Hk (deser_loc b'))|done..|]. cbn. rewrite (parse_header_size _ _ Hh). done.
  - eexists (Some _), _. split; [done|]. split_and!; [apply Hk|done..|]. intros h [Hh' _ _ _]. congruence.
Qed.

Lemma read_records_ok t f d :
  fp_usable t → reading f d → fd_pos d = 11 → world_bytes f.2 →
  let c := node f.2 (fd_node d) in
  let size := Z.to_nat (hdr_file_size (sb_header (fp_base t))) in
  size ≤ capacity (fp_buffer t) →
  ∃ e t' f', read_records_and_crc t f = Ret (e, t', f') ∧ kept t t' ∧ same_crc t t' ∧ same_files f.2 f'.2 ∧ sb_header (fp_base t') = sb_header (fp_base t) ∧
    (e = None → (0 < size → 11 + size ≤ length c) ∧ ∃ D, fp_buffer t' = SerBuf D size 0 ∧ take size D = slice 11 size c ∧ Forall is_byte D ∧ size ≤ length D) ∧
    (quiet f → f'.2 = f.2 ∧ (11 + size ≤ length c → e = None)).
Proof.
  intros [Hc Hb] Hr Hp Hw c size Hsz. unfold read_records_and_crc. fold size. unfold fp_buffer in *.
  destruct (read_storage_ok size (fp_base t) f d Hsz Hb Hr Hw) as (st & m & D & f' & d' & E & HD & HDb & Hr' & Hd' & Hs & Hm & Hq). rewrite E, outcome_bind_ret. fold c in Hm, Hq. rewrite Hp in Hm, Hq.
  assert (∀ n k, kept t (fp_set_base (sb_set_buffer (SerBuf D n k) (fp_base t)) t)) as Hk by (intros; by apply kept_buffer).
  assert (kept t (fp_set_base (sb_set_buffer (set_data D (sb_buffer (fp_base t))) (fp_base t)) t)) as Hk' by (by apply kept_buffer).
  case_bool_decide as Hst; cbn [negb]; [|eexists (Some _), _, _; split; [done|]; split_and!; try done; intros Hq'; destruct (Hq Hq') as (? & ? & _); done].
  case_bool_decide as Hn; cbn [negb]; [|eexists (Some _), _, _; split; [done|]; split_and!; try done; intros Hq'; destruct (Hq Hq') as (? & _ & H2); by split; [|intros ?%H2]].
  unfold capacity in HD. rewrite set_buff_len_ok by (unfold capacity in Hsz; lia). rewrite outcome_bind_ret. eexists None, _, _. split; [done|]. destruct (Hm Hn) as (H1 & H2 & H3).
  split_and!; try done; [intros _; split; [done|]; exists D; split_and!; try done; unfold capacity in Hsz; lia|]. intros Hq'. by destruct (Hq Hq').
Qed.

Lemma extract_crc_ok t D size :
  fp_usable t → fp_buffer t = SerBuf D size 0 → size ≤ length D → Forall is_byte D →
  if decide (size < 4) then ∃ e, extract_crc t = Ret (Some e, t)
  else ∃ t', extract_crc t = Ret (None, t') ∧ kept t t' ∧ sb_header (fp_base t') = sb_header (fp_base t) ∧ fp_crc t' = fp_crc t ∧
    fp_buffer t' = SerBuf D (size - 4) 0 ∧ fp_crc_stored t' = be_value (slice (size - 4) 4 D).
Proof.
  intros Hu Hbuf Hl Hb. unfold extract_crc. fold (fp_buffer t). rewrite Hbuf. cbn [ser_loc data]. unfold SEQUENCE_CRC_SIZE. case_decide as H4.
  - rewrite bool_decide_eq_true_2 by done. by eexists.
  - rewrite bool_decide_eq_false_2 by done. rewrite copy_from_ok by lia. rewrite outcome_bind_ret. unfold sb_set_buff_len. fold (fp_buffer t). rewrite Hbuf. unfold capacity. cbn [data].
    rewrite bool_decide_eq_true_2 by lia. cbn [fw_assert]. rewrite !outcome_bind_ret. eexists. split; [done|]. split; [|done].
    assert (capacity (fp_buffer t) = length D) as Hcap by (by rewrite Hbuf). apply (kept_buffer t (SerBuf D (size - 4) 0)); [done|by rewrite Hcap|done].
Qed.

Lemma read_open_file_ok t f d :
  fp_usable t → reading f d → fd_pos d = 0 → world_bytes f.2 →
  let c := node f.2 (fd_node d) in
  ∃ e t' f', read_open_file t f = Ret (e, t', f') ∧ kept t t' ∧ same_files f.2 f'.2 ∧
    (e = None → seq_block (capacity (fp_buffer t)) c (sb_header (fp_base t')) ∧ loaded c t') ∧
    (quiet f → f'.2 = f.2 ∧ ∀ h, seq_block (capacity (fp_buffer t)) c h → e = None).
Proof.
  intros Hu Hr Hp Hw c. unfold read_open_file. set (t0 := MkFPrime (fp_base t) (Hash_init Hash_new) (fp_crc_stored t)).
  destruct (read_header_ok t0 f d Hu Hr Hp Hw) as (e1 & t1 & f1 & d1 & -> & Hk1 & Hc1 & Hr1 & Hd1 & Hs1 & He1 & Hq1). rewrite outcome_bind_ret. fold c in He1, Hq1.
  assert (kept t t0) as Hk0 by (by split; [split_and!|]). pose proof (kept_trans _ _ _ Hk0 Hk1) as Hk1'.
  assert (∀ h, seq_block (capacity (fp_buffer t)) c h → 11 ≤ length c) as Hblk11 by (intros h []; lia).
  destruct e1 as [e1|]; [exists (Some e1), t1, f1; split_and!; try done; intros Hq; destruct (Hq1 Hq) as [? Hx]; split; [done|]; intros h Hh; by discriminate (Hx (Hblk11 h Hh))|].
  destruct (He1 eq_refl) as (Hp1 & Hl11 & D & HB1 & HD1 & HDb1).
  assert (capacity (fp_buffer t1) = capacity (fp_buffer t)) as Hcap1 by apply Hk1'. assert (11 ≤ length D) as HlD by (apply (f_equal length) in HD1; rewrite !length_take in HD1; lia).
  fold (fp_buffer t1). rewrite HB1. cbn [data]. rewrite copy_from_ok by (unfold SEQUENCE_HEADER_SIZE; lia). rewrite outcome_bind_ret.
  set (t2 := MkFPrime (fp_base t1) _ _). assert (fp_crc t2 = Hash_update (take 11 c) Hash_new) as Hcrc2.
  { unfold t2. cbn. rewrite (proj1 Hc1). unfold slice. by rewrite drop_0, HD1. }
  destruct (deserialize_header_ok t2 D c) as (e3 & t3 & -> & Hk3 & Hc3 & He3); [apply Hk1|done..|]. rewrite outcome_bind_ret.
  assert (kept t t2) as Hk2 by (destruct Hk1'; by split). pose proof (kept_trans _ _ _ Hk2 Hk3) as Hk3'. change (fp_buffer t2) with (fp_buffer t1) in He3. rewrite Hcap1 in He3.
  destruct e3 as [e3|]; [exists (Some e3), t3, f1; split_and!; try done; intros Hq; destruct (Hq1 Hq) as [? _]; split; [done|]; intros h Hh; by destruct (He3 h)|].
  destruct He3 as [Hh Hfit]. set (h := sb_header (fp_base t3)) in *. assert (node f1.2 (fd_node d1) = c) as Hc' by (by rewrite (same_files_node _ _ _ Hs1), Hd1).
  assert (capacity (fp_buffer t3) = capacity (fp_buffer t)) as Hcap3 by apply Hk3'.
  destruct (read_records_ok t3 f1 d1) as (e4 & t4 & f4 & -> & Hk4 & Hc4 & Hs4 & Hh4 & He4 & Hq4); [apply Hk3|done|done|by eapply nodes_bytes; [apply Hs1|]|fold h; lia|].
  rewrite outcome_bind_ret, Hc' in *. fold h in He4, Hq4, Hh4. pose proof (kept_trans _ _ _ Hk3' Hk4) as Hk4'.
  assert (Z.to_nat (hdr_file_size h) = file_size c) as Hsz by (unfold file_size; by rewrite (parse_header_size _ _ Hh)). rewrite Hsz in *.
  assert (same_files f.2 f4.2) as Hs by (by transitivity f1.2).
  assert (quiet f → f4.2 = f.2 ∧ (11 + file_size c ≤ length c → e4 = None)) as Hq4'.
  { intros Hq. destruct (Hq1 Hq) as [E1 _]. destruct Hq4 as [E4 H4]; [unfold quiet in *; by rewrite E1|]. by rewrite E4. }
  assert (∀ h', seq_block (capacity (fp_buffer t)) c h' → 11 + file_size c ≤ length c ∧ 4 ≤ file_size c) as Hblk.
  { intros h' [Hh' _ Hc4' Hl']. assert (h' = h) as -> by congruence. rewrite Hsz in Hl'. split; [done|]. rewrite <- Hsz. lia. }
  destruct e4 as [e4|]; [exists (Some e4), t4, f4; split_and!; try done; intros Hq; destruct (Hq4' Hq) as [? Hx]; split; [done|]; intros h' [Hl' _]%Hblk; by discriminate (Hx Hl')|].
  destruct (He4 eq_refl) as (Hlen & D4 & HB4 & HD4 & HDb4 & HlD4). pose proof (extract_crc_ok t4 D4 (file_size c) (proj2 Hk4) HB4 HlD4 HDb4) as Hx.
  case_decide as H4.
  - destruct Hx as (e5 & ->). rewrite outcome_bind_ret. exists (Some e5), t4, f4. split_and!; try done. intros Hq. destruct (Hq4' Hq) as [? _]. split; [done|]. intros h' [_ ?]%Hblk. lia.
  - destruct Hx as (t5 & -> & Hk5 & Hh5 & Hc5 & HB5 & Hst5). rewrite outcome_bind_ret. eexists None, _, f4. split; [done|].
    pose proof (kept_trans _ _ _ Hk4' Hk5) as Hk5'. assert (11 + file_size c ≤ length c) as Hl11' by (apply Hlen; lia).
    assert (∀ k n, k + n ≤ file_size c → slice k n D4 = slice (11 + k) n c) as Hsl.
    { intros k n Hkn. assert (slice k n D4 = slice k n (take (file_size c) D4)) as ->.
      { unfold slice. rewrite skipn_firstn_comm, take_take. by rewrite Nat.min_l by lia. }
      rewrite HD4. unfold slice. rewrite skipn_firstn_comm, take_take, drop_drop. by rewrite Nat.min_l by lia. }
    assert (take (file_size c - 4) D4 = records_of c) as Hrec by (exact (Hsl 0 (file_size c - 4) ltac:(lia))).
    split_and!; [exact Hk5'|done| |].
    + intros _. split.
      * cbn [fp_base]. rewrite Hh5, Hh4. split; [done|done|lia|by rewrite Hsz].
      * assert (fp_buffer (MkFPrime (fp_base t5) (Hash_update (take (ser_loc (sb_buffer (fp_base t5))) (data (sb_buffer (fp_base t5)))) (fp_crc t5)) (fp_crc_stored t5)) = SerBuf D4 (file_size c - 4) 0) as HB by exact HB5.
        split; rewrite ?HB; cbn [fp_crc fp_crc_stored]; [by apply wf_intro; [lia|]|done|exact Hrec| |].
        -- change (sb_buffer (fp_base t5)) with (fp_buffer t5). rewrite HB5. cbn [ser_loc data]. rewrite Hrec, Hc5, (proj1 Hc4), (proj1 Hc3), Hcrc2, hash_app. unfold hash_u32. do 2 f_equal.
           unfold records_of, slice. rewrite <- (take_drop 11 (take (7 + file_size c) c)), take_take, skipn_firstn_comm. rewrite Nat.min_l by lia. replace (7 + file_size c - 11) with (file_size c - 4) by lia. done.
        -- rewrite Hst5. rewrite Hsl by lia. do 2 f_equal. lia.
    + intros Hq. by destruct (Hq4' Hq).
Qed.

(** ** Loads *)

(** The files on which a load does not stop the program. *)
Definition fp_readable (w : World) : Prop := world_bytes w ∧ ∀ i, tags_ok (records_of (node w i)).

(** A file that a load accepts at time [now], with its records. *)
Record accepted (cap : nat) (now : Time) (c : list Z) (h : SequenceHeader) (vs : list View) : Prop := {
  acc_block : seq_block cap c h;
  acc_crc : be_value (slice (7 + file_size c) 4 c) = hash_u32 (take (7 + file_size c) c);
  acc_base : hdr_time_base h = time_base now ∨ hdr_time_base h = TbDontCare;
  acc_context : hdr_time_context h = time_context now ∨ hdr_time_context h = FW_CONTEXT_DONT_CARE;
  acc_views : Forall view_ok vs;
  acc_some : vs ≠ [];
  acc_number : hdr_num_records h = Z.of_nat (length vs);
  acc_records : records_of c = views_image vs;
}.

Lemma num_records_nonneg c h : Forall is_byte c → parse_header c = Some h → (0 ≤ hdr_num_records h)%Z.
Proof.
  intros Hb. unfold parse_header. destruct (try_from _); [|done]. intros [= <-]. cbn. apply be_value_bounds. by apply Forall_slice.
Qed.

Lemma validate_time_ok now s :
  match validate_time now s with
  | (None, s') => s' = sb_set_header (MkSeqHeader (hdr_file_size (sb_header s)) (hdr_num_records (sb_header s)) (time_base now) (time_context now)) s ∧
      (hdr_time_base (sb_header s) = time_base now ∨ hdr_time_base (sb_header s) = TbDontCare) ∧
      (hdr_time_context (sb_header s) = time_context now ∨ hdr_time_context (sb_header s) = FW_CONTEXT_DONT_CARE)
  | (Some _, s') => s' = s ∧ ¬ ((hdr_time_base (sb_header s) = time_base now ∨ hdr_time_base (sb_header s) = TbDontCare) ∧
      (hdr_time_context (sb_header s) = time_context now ∨ hdr_time_context (sb_header s) = FW_CONTEXT_DONT_CARE))
  end.
Proof.
  unfold validate_time. do 2 case_bool_decide; cbn [negb andb]; try (destruct (Z.eqb_spec (hdr_time_context (sb_header s)) (time_context now)), (Z.eqb_spec (hdr_time_context (sb_header s)) FW_CONTEXT_DONT_CARE); cbn [negb andb]);
    (split; [done|tauto]).
Qed.

Lemma validate_records_ok t c :
  fp_usable t → loaded c t → tags_ok (records_of c) → (0 ≤ hdr_num_records (sb_header (fp_base t)))%Z →
  ∃ e t', validate_records t = Ret (e, t') ∧ fp_usable t' ∧ sb_header (fp_base t') = sb_header (fp_base t) ∧
    match e with
    | None => fp_ok t' ∧ ∃ vs, Forall view_ok vs ∧ vs ≠ [] ∧ hdr_num_records (sb_header (fp_base t)) = Z.of_nat (length vs) ∧ records_of c = views_image vs ∧ fp_content t' = vs ∧ fp_left t' = vs
    | Some _ => ∀ vs, ¬ (Forall view_ok vs ∧ vs ≠ [] ∧ hdr_num_records (sb_header (fp_base t)) = Z.of_nat (length vs) ∧ records_of c = views_image vs)
    end.
Proof.
  intros Hu [Hw Hst Hrec _ _] Ht Hnum. unfold validate_records. set (num := hdr_num_records (sb_header (fp_base t))) in *.
  destruct (Z.eqb_spec num 0) as [Hn0|Hn0]; [exists (Some NoRecords), t; split_and!; try done; intros [|] (_ & ? & ? & _); [done|cbn in *; lia]|].
  assert (remaining_slice (sb_buffer (fp_base t)) = records_of c) as Hrem by (fold (fp_buffer t); unfold remaining_slice; by rewrite Hst, drop_0).
  destruct (validate_loop_ok (S (sb_deserialize_size_left (fp_base t))) 0 num SequenceRecord_default (fp_base t)) as (e & b' & -> & Hd & Hs & He & Hno); [done|done|by rewrite Hrem| |].
  { rewrite length_remaining_slice by done. unfold sb_deserialize_size_left. lia. }
  rewrite outcome_bind_ret. rewrite Hrem in He, Hno.
  assert (∀ k, fp_usable (fp_set_base (sb_set_buffer (SerBuf (data b') (ser_loc b') k) (fp_base t)) t)) as Hu'.
  { intros k. destruct Hu as [Hc Hb]. unfold fp_usable, fp_buffer, capacity in *. cbn. by rewrite Hd. }
  assert (fp_usable (fp_set_base (sb_set_buffer b' (fp_base t)) t)) as Hu'' by (destruct b'; apply Hu').
  destruct e as [e|].
  { exists (Some e). eexists. split; [done|]. split_and!; [done|done|]. intros vs (Hvs & Hne & Hl & Ev). discriminate (Hno vs []); [done|lia|by rewrite app_nil_r]. }
  destruct (He eq_refl) as (Hwb & vs & Hvs & Ev & Hlv). pose proof (length_remaining_slice _ Hwb) as Hlr. unfold sb_deserialize_size_left at 1. cbn [sb_buffer sb_set_buffer]. case_bool_decide as Hleft.
  - eexists (Some _), _. split; [done|]. split_and!; [done|done|]. intros vs' (Hvs' & Hne & Hl & Ev'). rewrite <- (app_nil_r (views_image vs')) in Ev'. rewrite Ev' in Ev.
    apply (views_image_prefix vs' vs) in Ev as [_ Ev]; [rewrite <- Ev in Hlr; cbn in Hlr; lia|done|done|lia].
  - exists None. eexists. split; [done|]. assert (remaining_slice b' = []) as Er by (apply nil_length_inv; lia). rewrite Er, app_nil_r in Ev.
    set (t' := fp_set_base (sb_reset _) t). assert (fp_buffer t' = SerBuf (data b') (ser_loc b') 0) as Eb by done.
    assert (as_slice (fp_buffer t') = views_image vs) as Ea by (rewrite Eb, <- Ev, <- Hrec; unfold as_slice; cbn; by rewrite Hd, Hs).
    assert (remaining_slice (fp_buffer t') = views_image vs) as Erm by (rewrite <- Ea; unfold remaining_slice; by rewrite Eb, drop_0).
    assert (vs ≠ []) as Hne by (intros ->; cbn in Hlv; lia).
    split_and!; [apply Hu'|done| |].
    + split_and!; [apply Hu'| |by exists [], vs]. rewrite Eb. destruct Hwb as (_ & H2 & H3). by split_and!; [cbn; lia|..].
    + exists vs. split_and!; [done|done|lia|done|by apply fp_content_eq|by apply fp_left_eq].
Qed.

Lemma read_file_ok t w :
  fp_usable t → world_bytes w →
  ∃ e t' w', read_file t w = Ret (e, t', w') ∧ kept t t' ∧ same_files w w' ∧
    (e = None → ∃ p i, as_str (sb_file_name (fp_base t)) = Some p ∧ names w !! p = Some i ∧
      seq_block (capacity (fp_buffer t)) (node w i) (sb_header (fp_base t')) ∧ loaded (node w i) t') ∧
    (script w = [] → w' = w ∧ ∀ p i h, as_str (sb_file_name (fp_base t)) = Some p → names w !! p = Some i → seq_block (capacity (fp_buffer t)) (node w i) h → e = None).
Proof.
  intros Hu Hb. assert (kept t t) as Hk by (by split; [split_and!|]). unfold read_file. destruct (as_str (sb_file_name (fp_base t))) as [p|].
  2: { exists (Some FileReadError), t, w. split_and!; try done. }
  destruct (open_read_ok p w) as (st & f & -> & Hs & Hf & Hq). rewrite outcome_bind_ret. case_bool_decide as Hst.
  - destruct (Hf Hst) as (d & Hn & Hr & Hp & _). destruct (read_open_file_ok t f d Hu Hr Hp) as (e & t' & f' & -> & Hk' & Hs' & He & Hq'); [by eapply nodes_bytes; [apply Hs|]|].
    rewrite outcome_bind_ret. rewrite (same_files_node _ _ _ Hs) in He, Hq'. eexists e, t', _. split; [done|]. split_and!; [done|by transitivity f.2| |].
    + intros Hn'. destruct (He Hn') as [H1 H2]. by exists p, (fd_node d).
    + intros Hqw. destruct (Hq Hqw) as [Ew _]. destruct Hq' as [Ew' Hq']; [unfold quiet; by rewrite Ew|]. split; [cbn; congruence|].
      intros p' i h [= <-] Hi Hblk. assert (i = fd_node d) as -> by congruence. by apply (Hq' h).
  - eexists (Some _), t, _. split; [done|]. split_and!; [done|done|done|]. intros Hqw. destruct (Hq Hqw) as [Ew Hok]. split; [done|]. intros p' i h [= <-] Hi _. destruct Hst. apply Hok. by rewrite Hi.
Qed.

(** A load: what it promises on any system, and when it succeeds on a quiet
    one. *)
Lemma fp_load_ok name now t w :
  fp_usable t → fp_readable w →
  ∃ st e t' w', fp_load_file name now t w = Ret (st, e, t', w') ∧ fp_usable t' ∧ same_files w w' ∧
    (st = true → e = None ∧ fp_ok t' ∧ fp_left t' = fp_content t' ∧
      ∃ p c h, as_str name = Some p ∧ file_at w p = Some c ∧ accepted (capacity (fp_buffer t)) now c h (fp_content t')) ∧
    (script w = [] → w' = w ∧ ∀ p c h vs, as_str name = Some p → file_at w p = Some c → accepted (capacity (fp_buffer t)) now c h vs → st = true).
Proof.
  intros Hu [Hb Htags]. unfold fp_load_file. rewrite bool_decide_eq_false_2.
  2: { intros Hd. destruct Hu as [Hc _]. unfold fp_buffer, capacity, SEQUENCE_HEADER_SIZE in Hc. rewrite Hd in Hc. cbn in Hc. lia. }
  cbn [negb fw_assert]. rewrite outcome_bind_ret. set (t0 := fp_set_base (sb_set_file_name name (fp_base t)) t).
  destruct (read_file_ok t0 w Hu Hb) as (e1 & t1 & w1 & -> & Hk1 & Hs1 & He1 & Hq1). rewrite outcome_bind_ret. change (as_str (sb_file_name (fp_base t0))) with (as_str name) in *.
  change (fp_buffer t0) with (fp_buffer t) in *. set (cap := capacity (fp_buffer t)) in *. destruct Hk1 as [_ Hu1].
  assert (∀ e : SequenceLoadEvent, (∀ p c h vs, as_str name = Some p → file_at w p = Some c → accepted cap now c h vs → script w = [] → False) →
    (false = true → Some e = None ∧ fp_ok t1 ∧ fp_left t1 = fp_content t1 ∧ ∃ p c h, as_str name = Some p ∧ file_at w p = Some c ∧ accepted cap now c h (fp_content t1)) ∧
    (script w = [] → w1 = w ∧ ∀ p c h vs, as_str name = Some p → file_at w p = Some c → accepted cap now c h vs → false = true)) as Hfail.
  { intros e Hno. split; [done|]. intros Hq. split; [by apply Hq1|]. intros p c h vs Hp Hc Ha. by destruct (Hno p c h vs). }
  assert (∀ p c i, as_str name = Some p → file_at w p = Some c → names w !! p = Some i → node w i = c) as Hnode by (unfold file_at; intros p c i _ Hc Hi; rewrite Hi in Hc; by injection Hc).
  destruct e1 as [e1|].
  { exists false, (Some e1), t1, w1. split; [done|]. split; [done|]. split; [done|]. apply Hfail. intros p c h vs Hp Hc Ha Hq. destruct (Hq1 Hq) as [_ Hx].
    unfold file_at in Hc. destruct (names w !! p) as [i|] eqn:Hi; [|done]. injection Hc as <-. discriminate (Hx p i h Hp Hi (acc_block _ _ _ _ _ Ha)). }
  destruct (He1 eq_refl) as (p & i & Hp & Hi & Hblk & Hld). set (c := node w i) in *. assert (file_at w p = Some c) as Hfile by (unfold file_at; by rewrite Hi).
  assert (∀ p' c' h' vs, as_str name = Some p' → file_at w p' = Some c' → accepted cap now c' h' vs → c' = c ∧ h' = sb_header (fp_base t1)) as Hsame.
  { intros p' c' h' vs Hp' Hc' Ha. assert (p' = p) as -> by congruence. assert (c' = c) as -> by congruence. split; [done|]. destruct Ha as [[Hh _ _ _] _ _ _ _ _ _ _]. destruct Hblk as [Hh' _ _ _]. congruence. }
  unfold validate_crc. rewrite (ld_crc _ _ Hld), (ld_stored _ _ Hld). destruct (Z.eqb_spec (be_value (slice (7 + file_size c) 4 c)) (hash_u32 (take (7 + file_size c) c))) as [Hcrc|Hcrc]; cbn [negb].
  2: { eexists false, (Some _), t1, w1. split; [done|]. split; [done|]. split; [done|]. apply Hfail. intros p' c' h' vs Hp' Hc' Ha _. destruct (Hsame _ _ _ _ Hp' Hc' Ha) as [-> ->]. by destruct Ha. }
  pose proof (validate_time_ok now (fp_base t1)) as Hvt. destruct (validate_time now (fp_base t1)) as [[e2|] b2].
  { destruct Hvt as [-> Hno]. assert (fp_set_base (fp_base t1) t1 = t1) as -> by (by destruct t1). eexists false, (Some _), t1, w1. split; [done|]. split; [done|]. split; [done|].
    apply Hfail. intros p' c' h' vs Hp' Hc' Ha _. destruct (Hsame _ _ _ _ Hp' Hc' Ha) as [-> ->]. apply Hno. by destruct Ha. }
  destruct Hvt as (-> & Hbase & Hctx). set (t2 := fp_set_base (sb_set_header _ _) t1).
  destruct (validate_records_ok t2 c) as (e3 & t3 & -> & Hu3 & Hh3 & He3); [done|by destruct Hld|apply Htags|exact (num_records_nonneg c (sb_header (fp_base t1)) (Hb i) (blk_header _ _ _ Hblk))|].
  rewrite outcome_bind_ret. eexists _, e3, t3, w1. split; [done|]. split_and!; [done|done| |].
  - intros Hst. apply bool_decide_eq_true in Hst. subst e3. destruct He3 as (Hok & vs & Hvs & Hne & Hnum & Hrec & Ec & El). split_and!; [done|done|by rewrite Ec|].
    exists p, c, (sb_header (fp_base t1)). split_and!; [done|done|]. rewrite Ec. by split.
  - intros Hq. split; [by apply Hq1|]. intros p' c' h' vs Hp' Hc' Ha. destruct (Hsame _ _ _ _ Hp' Hc' Ha) as [-> ->]. destruct e3 as [e3|]; [|by rewrite bool_decide_eq_true_2].
    exfalso. apply (He3 vs). destruct Ha as [_ _ _ _ H1 H2 H3 H4]. by split_and!.
Qed.

(** Relative time tags of at most [m] seconds. *)
Definition tags_within (m : Z) (c : list Z) : Prop := ∀ vs rest, Forall view_ok vs → c = views_image vs ++ rest → Forall (within m) vs.
Definition fp_files_ok (m : Z) (w : World) : Prop := fp_readable w ∧ ∀ i, tags_within m (records_of (node w i)).

#[export] Program Instance FPrimeSequence_laws : SequenceLaws FPrimeSequence := {|
  seq_usable := fp_usable; seq_ok := fp_ok; seq_files_ok := fp_files_ok; seq_content := fp_content; seq_left := fp_left |}.
Next Obligation. by intros t [Hu _]. Qed.
Next Obligation. apply fp_ok_views. Qed.
Next Obligation. apply fp_has_more. Qed.
Next Obligation. apply fp_next. Qed.
Next Obligation. apply fp_reset_ok. Qed.
Next Obligation. apply fp_clear_ok. Qed.
Next Obligation.
  intros m name now t w Hu [Hw Hm]. destruct (fp_load_ok name now t w Hu Hw) as (st & e & t' & w' & E & Hu' & Hs & Hok & _). exists st, e, t', w'. split_and!; [done|done|done|].
  intros Hst. destruct (Hok Hst) as (_ & H1 & H2 & p & c & h & _ & Hc & [_ _ _ _ Hv Hne _ Hr]). split_and!; [done|done|done|].
  unfold file_at in Hc. destruct (names w !! p) as [i|]; [|done]. injection Hc as <-. apply (Hm i _ []); [done|]. by rewrite app_nil_r.
Qed.
Next Obligation.
  intros m w w' (_ & Hn & _) [[Hb Ht] Hm]. assert (∀ i, node w' i = node w i) as E by (intros i; unfold node; by rewrite Hn).
  split; [split; [by eapply nodes_bytes|]|]; intros i; rewrite E; [apply Ht|apply Hm].
Qed.

(** * Sequence files *)

Definition header_image (size n : Z) (base : TimeBase) (context : Z) : list Z :=
  u32_bytes size ++ u32_bytes n ++ be_bytes 2 (TimeBase_repr base) ++ [context].
Definition sequence_body (base : TimeBase) (context : Z) (vs : list View) : list Z :=
  header_image (Z.of_nat (length (views_image vs) + 4)) (Z.of_nat (length vs)) base context ++ views_image vs.
Definition sequence_image (base : TimeBase) (context : Z) (vs : list View) : list Z :=
  sequence_body base context vs ++ u32_bytes (hash_u32 (sequence_body base context vs)).

(** A file for time [now] with records [vs]; bytes after its CRC are not
    looked at. *)
Definition sequence_file (cap : nat) (now : Time) (c : list Z) (vs : list View) : Prop :=
  ∃ base context extra, c = sequence_image base context vs ++ extra ∧ is_byte context ∧
    (base = time_base now ∨ base = TbDontCare) ∧ (context = time_context now ∨ context = FW_CONTEXT_DONT_CARE) ∧
    Forall view_ok vs ∧ vs ≠ [] ∧ length (views_image vs) + 4 ≤ cap ∧ (Z.of_nat (length (views_image vs) + 4) < 2 ^ 32)%Z.

Lemma length_header_image size n base context : length (header_image size n base context) = 11.
Proof. done. Qed.

Lemma length_views vs : length vs ≤ length (views_image vs).
Proof.
  induction vs as [|v vs IH]; [done|]. rewrite views_image_cons. destruct (view_image_nonempty v) as (d & x & ->). cbn. rewrite length_app. lia.
Qed.

Lemma slice_app_mid {A} (x y z : list A) : slice (length x) (length y) (x ++ y ++ z) = y.
Proof. unfold slice. by rewrite drop_app_length, take_app_length. Qed.

Lemma parse_header_image size n base context rest :
  is_u 32 size → is_u 32 n → is_byte context →
  parse_header (header_image size n base context ++ rest) = Some (MkSeqHeader size n base context).
Proof.
  intros Hs Hn Hc. unfold parse_header, header_image. rewrite <- !app_assoc, take_u32.
  set (y := u32_bytes n ++ _). assert (slice 4 4 (u32_bytes size ++ y) = u32_bytes n) as -> by apply (slice_app_mid (u32_bytes size) (u32_bytes n)).
  assert (slice 8 2 (u32_bytes size ++ y) = be_bytes 2 (TimeBase_repr base)) as ->.
  { unfold y. rewrite app_assoc. apply (slice_app_mid (u32_bytes size ++ u32_bytes n) (be_bytes 2 (TimeBase_repr base))). }
  assert (slice 10 1 (u32_bytes size ++ y) = [context]) as ->.
  { unfold y. rewrite !app_assoc. rewrite <- (app_assoc _ [context]). apply (slice_app_mid ((u32_bytes size ++ u32_bytes n) ++ be_bytes 2 (TimeBase_repr base)) [context]). }
  rewrite !be_value_u32 by done. replace (be_value [context]) with context by (unfold be_value; cbn; unfold is_byte in Hc; lia).
  rewrite be_value_be_bytes. by destruct base.
Qed.

Lemma seq_header_image_bytes size n base context : is_byte context → Forall is_byte (header_image size n base context).
Proof. intros Hc. unfold header_image. repeat apply Forall_app_2; try apply be_bytes_is_byte. by constructor. Qed.

Lemma parse_header_exact c h :
  Forall is_byte c → 11 ≤ length c → parse_header c = Some h →
  is_byte (hdr_time_context h) ∧ c = header_image (hdr_file_size h) (hdr_num_records h) (hdr_time_base h) (hdr_time_context h) ++ drop 11 c.
Proof.
  intros Hb Hl. unfold parse_header. destruct (try_from (be_value (slice 8 2 c))) as [base|] eqn:Eb; [|done]. intros [= <-]. cbn [hdr_file_size hdr_num_records hdr_time_base hdr_time_context].
  assert (∀ k n, k + n ≤ 11 → length (slice k n c) = n) as Hls by (intros; apply length_slice; lia).
  assert (∀ k n, Forall is_byte (slice k n c)) as Hbs by (intros; by apply Forall_slice).
  assert (∃ x, slice 10 1 c = [x] ∧ is_byte x) as (x & Ex & Hx).
  { pose proof (Hls 10 1 ltac:(lia)) as H1. pose proof (Hbs 10 1) as H2. destruct (slice 10 1 c) as [|x [|]]; [done| |done]. exists x. by apply Forall_cons in H2 as [? _]. }
  rewrite Ex. replace (be_value [x]) with x by (unfold be_value; cbn; lia). split; [done|]. unfold header_image. change (take 4 c) with (slice 0 4 c).
  rewrite !u32_bytes_value by first [apply Hbs|apply Hls; lia].
  assert (be_bytes 2 (TimeBase_repr base) = slice 8 2 c) as ->.
  { apply as_repr_try_from in Eb. change (as_repr base) with (TimeBase_repr base) in Eb. rewrite Eb. rewrite <- (Hls 8 2 ltac:(lia)) at 1. by apply be_bytes_be_value. }
  rewrite <- Ex, <- !app_assoc, (slice_then_drop 10 1 c : _ ++ drop 11 c = _), (slice_then_drop 8 2 c : _ ++ drop 10 c = _), (slice_then_drop 4 4 c : _ ++ drop 8 c = _).
  by rewrite (slice_then_drop 0 4 c : _ ++ drop 4 c = _).
Qed.

Lemma sequence_body_length base context vs : length (sequence_body base context vs) = 11 + length (views_image vs).
Proof. unfold sequence_body. by rewrite length_app, length_header_image. Qed.
Lemma sequence_body_bytes base context vs : is_byte context → Forall view_ok vs → Forall is_byte (sequence_body base context vs).
Proof. intros Hc Hv. apply Forall_app_2; [by apply seq_header_image_bytes|by apply views_image_bytes]. Qed.

Lemma accepted_image cap now c vs : Forall is_byte c → (∃ h, accepted cap now c h vs) ↔ sequence_file cap now c vs.
Proof.
  intros Hb. split.
  - intros (h & [[Hh Hfit H4 Hlen] Hcrc Hbase Hctx Hv Hne Hnum Hrec]). destruct (parse_header_exact c h Hb ltac:(lia) Hh) as [Hc Ec].
    pose proof (parse_header_size _ _ Hh) as Hsz. assert (Z.to_nat (hdr_file_size h) = file_size c) as Hfs by (unfold file_size; by rewrite Hsz). rewrite Hfs in Hlen.
    assert (length (views_image vs) = file_size c - 4) as Hlv by (rewrite <- Hrec; apply length_slice; lia).
    assert (hdr_file_size h = Z.of_nat (length (views_image vs) + 4)) as Hfsz by lia.
    assert (sequence_body (hdr_time_base h) (hdr_time_context h) vs = take (7 + file_size c) c) as Eb.
    { unfold sequence_body. rewrite <- Hfsz, <- Hnum. rewrite Ec at 2. rewrite take_app_ge by (rewrite length_header_image; lia). f_equal. rewrite length_header_image, <- Hrec. unfold records_of, slice. replace (7 + file_size c - 11) with (file_size c - 4) by lia. done. }
    exists (hdr_time_base h), (hdr_time_context h), (drop (11 + file_size c) c). split_and!; [|done..|lia|].
    + unfold sequence_image. rewrite Eb, <- Hcrc, u32_bytes_value by first [by apply Forall_slice|apply length_slice; lia].
      rewrite <- app_assoc. replace (11 + file_size c) with (7 + file_size c + 4) by lia. by rewrite slice_then_drop, take_drop.
    + rewrite <- Hfsz, Hsz. apply be_u32_is_u; [rewrite length_take; lia|by apply Forall_take].
  - intros (base & context & extra & -> & Hc & Hbase & Hctx & Hv & Hne & Hfit & Hsize). pose proof (length_views vs) as Hlv.
    set (body := sequence_body base context vs) in *. pose proof (sequence_body_length base context vs) as Hlb. fold body in Hlb.
    assert (is_u 32 (Z.of_nat (length (views_image vs) + 4))) as Hu1 by (unfold is_u; lia). assert (is_u 32 (Z.of_nat (length vs))) as Hu2 by (unfold is_u in *; lia).
    assert (parse_header (sequence_image base context vs ++ extra) = Some (MkSeqHeader (Z.of_nat (length (views_image vs) + 4)) (Z.of_nat (length vs)) base context)) as Hh.
    { unfold sequence_image, sequence_body. rewrite <- !app_assoc. by apply parse_header_image. }
    assert (file_size (sequence_image base context vs ++ extra) = length (views_image vs) + 4) as Hfs.
    { unfold file_size. rewrite <- (parse_header_size _ _ Hh). cbn. lia. }
    assert (length (sequence_image base context vs) = 15 + length (views_image vs)) as Hli by (unfold sequence_image; rewrite length_app, length_u32_bytes; fold body; lia).
    exists (MkSeqHeader (Z.of_nat (length (views_image vs) + 4)) (Z.of_nat (length vs)) base context). split; [|rewrite Hfs|done|done|done|done|done|unfold records_of; rewrite Hfs].
    + split; [done|cbn; lia|cbn; lia|cbn [hdr_file_size]; rewrite length_app, Hli, Nat2Z.id; lia].
    + unfold sequence_image. fold body. replace (7 + (length (views_image vs) + 4)) with (length body) by lia. rewrite <- app_assoc, take_app_length.
      change 4 with (length (u32_bytes (hash_u32 body))). rewrite slice_app_mid. apply be_value_u32, hash_u32_range. by apply sequence_body_bytes.
    + unfold sequence_image, sequence_body. rewrite <- !app_assoc. replace (length (views_image vs) + 4 - 4) with (length (views_image vs)) by lia.
      change 11 with (length (header_image (Z.of_nat (length (views_image vs) + 4)) (Z.of_nat (length vs)) base context)). apply slice_app_mid.
Qed.

(** C17. A sequence load accepts exactly the sequence files.  Whatever the file
    system does, a load that succeeds has read a file that starts with the
    image of a sequence (a header that counts the records and their bytes, the
    records, and the CRC-32 of both) which fits the buffer and is for the live
    time base and context, and it delivers exactly its records; on a system
    without faults every such file is accepted.  Files with a time tag of a
    million microseconds or more, which stop the program, are excluded. *)
Theorem sequence_load_exact name p c now t w :
  fp_usable t → fp_readable w → as_str name = Some p → file_at w p = Some c →
  ∃ st e t' w', fp_load_file name now t w = Ret (st, e, t', w') ∧ same_files w w' ∧
    (st = true → fp_left t' = fp_content t' ∧ sequence_file (capacity (fp_buffer t)) now c (fp_content t')) ∧
    (∀ vs, script w = [] → sequence_file (capacity (fp_buffer t)) now c vs → st = true ∧ fp_content t' = vs).
Proof.
  intros Hu Hw Hp Hc. destruct (fp_load_ok name now t w Hu Hw) as (st & e & t' & w' & E & _ & Hs & Hok & Hq). exists st, e, t', w'.
  assert (Forall is_byte c) as Hb by (unfold file_at in Hc; destruct (names w !! p); [|done]; injection Hc as <-; apply Hw).
  assert (st = true → sequence_file (capacity (fp_buffer t)) now c (fp_content t')) as Hsound.
  { intros Hst. destruct (Hok Hst) as (_ & _ & _ & p' & c' & h & Hp' & Hc' & Ha). apply accepted_image; [done|]. exists h. assert (p' = p) as -> by congruence. by assert (c' = c) as -> by congruence. }
  split_and!; [done|done|intros Hst; split; [by apply Hok|by apply Hsound]|]. intros vs Hqw Hf. pose proof Hf as [h Ha]%accepted_image; [|done].
  assert (st = true) as Hst by (by apply (proj2 (Hq Hqw) p c h vs)). split; [done|]. specialize (Hsound Hst). apply accepted_image in Hsound as [h' Ha']; [|done].
  destruct Ha as [_ _ _ _ Hv _ _ Hr], Ha' as [_ _ _ _ Hv' _ _ Hr']. pose proof (views_of_image _ Hv) as V. rewrite <- Hr, Hr', views_of_image in V by done. by injection V.
Qed.

(** ** A file to run *)

Lemma tags_within_image m vs : Forall view_ok vs → Forall (within m) vs → tags_within m (views_image vs).
Proof.
  intros Hv. induction Hv as [|v vs Hv1 Hv IH]; intros Hw [|v' vs'] rest Hv' E; try done.
  - rewrite views_image_cons in E. destruct (view_image_nonempty v') as (d & x & Ex). rewrite Ex in E. discriminate E.
  - apply Forall_cons in Hw as [Hw1 Hw]. apply Forall_cons in Hv' as [Hv1' Hv']. rewrite !views_image_cons, <- app_assoc in E.
    pose proof (parse_view_image v (views_image vs) Hv1) as P. rewrite E, parse_view_image in P by done. injection P as -> E'.
    constructor; [done|]. by apply (IH Hw vs' rest).
Qed.

(** A system with one sequence file. *)
Lemma one_sequence_ok m p c vs ev :
  Forall is_byte c → records_of c = views_image vs → Forall view_ok vs → Forall (within m) vs → fp_files_ok m (one_file p c ev).
Proof.
  intros Hb Hr Hv Hw. assert (∀ i, records_of (node (one_file p c ev) i) = views_image vs ∨ records_of (node (one_file p c ev) i) = views_image []) as Hn.
  { intros i. unfold node. cbn [nodes one_file]. destruct (decide (i = 0)) as [->|Hi]; [rewrite lookup_singleton_eq; by left|rewrite lookup_singleton_ne by done; by right]. }
  split; [split; [by apply one_file_bytes|]|]; intros i; destruct (Hn i) as [-> | ->]; (apply tags_ok_image || apply tags_within_image); done.
Qed.

Lemma fp_new_ok identifier n t : seq_allocate_buffer identifier n FPrimeSequence_new = Ret t → fp_ok t ∧ fp_content t = [].
Proof.
  cbn. unfold sb_allocate_buffer, fw_assert. case_bool_decide as Hn; [|done]. intros [= <-].
  assert (fp_usable (fp_set_base (MkSeqBase (linear_buffer_new n) identifier SequenceHeader_default (FwString_new FW_CMD_STRING_MAX_SIZE) (FwString_new FW_LOG_STRING_MAX_SIZE) FwDefaultString_new) FPrimeSequence_new)) as Hu.
  { split; cbn; [unfold capacity; cbn; by rewrite length_replicate|]. apply Forall_replicate. done. }
  pose proof (fp_clear_ok _ Hu) as (H1 & _ & H2). done.
Qed.

Definition demo_records : list View := [VCommand false 0 0 [0; 0; 1]%Z; VCommand true 0 0 [0; 0; 2]%Z; VEnd].
Definition demo_file : list Z := sequence_image TbDontCare 255 demo_records.
Definition demo_world : World := one_file (str "/seq") demo_file [].
Definition demo_format : FPrimeSequence := match seq_allocate_buffer 0 64 FPrimeSequence_new with Ret t => t | Panic => FPrimeSequence_new end.
Lemma demo_records_ok : Forall view_ok demo_records ∧ Forall (within 0) demo_records.
Proof. split; repeat constructor; vm_compute; done. Qed.
Lemma demo_world_ok : fp_files_ok 0 demo_world.
Proof. apply one_sequence_ok with demo_records; [apply (bool_decide_unpack _); vm_compute; done|vm_compute; done|apply demo_records_ok..]. Qed.
Lemma demo_format_ok : fp_ok demo_format ∧ fp_content demo_format = [].
Proof. by apply (fp_new_ok 0 64). Qed.

Lemma sequence_load_exact_witness :
  let name := set_bytes (str "/seq") (FwString_new FW_CMD_STRING_MAX_SIZE) in
  ∃ t w, fp_load_file name Time_ZERO demo_format demo_world = Ret (true, None, t, w) ∧ fp_content t = demo_records.
Proof.
  cbn zeta. destruct (sequence_load_exact (set_bytes (str "/seq") (FwString_new FW_CMD_STRING_MAX_SIZE)) (str "/seq") demo_file Time_ZERO demo_format demo_world)
    as (st & e & t & w & E & _ & Hs & Hc).
  - apply demo_format_ok.
  - apply demo_world_ok.
  - vm_compute. done.
  - vm_compute. done.
  - exists t, w. assert ((st, e) = (true, None)) as [= -> ->] by (vm_compute in E; congruence). split; [exact E|].
    apply Hc; [done|]. exists TbDontCare, 255%Z, []. rewrite app_nil_r. split; [exact eq_refl|]. split; [unfold is_byte, is_u; lia|]. split; [by right|]. split; [by right|]. split; [apply demo_records_ok|].
    split; [discriminate|]. split; [apply (bool_decide_unpack _); vm_compute; exact I|]. vm_compute. done.
Defined.

(** ** A malformed time tag

    The file is sound but for a time tag of a million microseconds: the load
    reports no event, it stops in [Time::set]. *)
Definition bad_tag_file : list Z := sequence_image TbDontCare 255 [VCommand false 0 1000000 [0; 0; 1]%Z; VEnd].
Example bad_time_tag_panics :
  fp_load_file (set_bytes (str "/seq") (FwString_new FW_CMD_STRING_MAX_SIZE)) Time_ZERO demo_format (one_file (str "/seq") bad_tag_file []) = Panic.
Proof. vm_compute. reflexivity. Qed.
