(* ===== verification/CmdSequencer.v ===== *)
(** The command sequencer [Svc::CmdSequencer],
    [crates/fprime-svc/src/cmd_sequencer.rs], over any sequence format.

    One definition per handler and per private method that changes state.  The
    readings of the time port, as far as they decide anything, are the list
    [clock]: [time_get] takes the next one, and the zero time, which is what an
    unconnected port gives, when the list is used up.  [comCmdOut] hands the
    packet of the record to its receiver; the receivers of the deployment only
    read it. *)

From stdpp Require Import list strings.
From S2P Require Import Prelude Serial SerialFacts Codec Fpp Time Packets Crc32 Comp FwString OsFile FilePaths Sequence.

(** * Data *)

Inductive SeqMode : Set := ModeStep | ModeAuto.
Inductive RunMode : Set := Stopped | Running.
#[export] Instance RunMode_eq_dec : EqDecision RunMode.
Proof. solve_decision. Defined.
Inductive StepMode : Set := StepAuto | StepManual.
#[export] Instance StepMode_eq_dec : EqDecision StepMode.
Proof. solve_decision. Defined.

Inductive BlockState : Set := Block | NoBlock.
#[export] Instance BlockState_eq_dec : EqDecision BlockState.
Proof. solve_decision. Defined.
Definition BlockState_repr (b : BlockState) : Z := match b with Block => 0 | NoBlock => 1 end.
Definition BlockState_VALUES : list (Z * BlockState) := [(0, Block); (1, NoBlock)]%Z.
#[export] Program Instance BlockState_enum : FppEnum BlockState := {|
  repr_bytes := 1; as_repr := BlockState_repr; try_from := table_try_from BlockState_VALUES |}.
Solve All Obligations with fpp_enum_laws.

Definition SEQ_EVENT_STRING_SIZE : nat := 60.
Definition NO_SEQ : list Z := str "<no seq>".
Definition OPCODE_CS_RUN : Z := 0.
Definition OPCODE_CS_VALIDATE : Z := 1.
Definition OPCODE_CS_CANCEL : Z := 2.
Definition OPCODE_CS_START : Z := 3.
Definition OPCODE_CS_STEP : Z := 4.
Definition OPCODE_CS_AUTO : Z := 5.
Definition OPCODE_CS_MANUAL : Z := 6.
Definition OPCODE_CS_JOIN_WAIT : Z := 7.
Definition CHANID_CS_LOAD_COMMANDS : Z := 0.
Definition CHANID_CS_CANCEL_COMMANDS : Z := 1.
Definition CHANID_CS_ERRORS : Z := 2.
Definition CHANID_CS_COMMANDS_EXECUTED : Z := 3.
Definition CHANID_CS_SEQUENCES_COMPLETED : Z := 4.
Definition CS_INCLUDE_OPCODES_IN_EVENTS : bool := true.
Definition get_event_opcode (op : Z) : Z := if CS_INCLUDE_OPCODES_IN_EVENTS then op else 0xFFFFFFFF.

Inductive SeqEvent : Set :=
| CsSequenceLoaded (name : list Z)
| CsSequenceCanceled (name : list Z)
| CsFileReadError (name : list Z)
| CsFileInvalid (name : list Z) (stage : FileReadStage) (error : Z)
| CsRecordInvalid (name : list Z) (record error : Z)
| CsFileSizeError (name : list Z) (size : Z)
| CsFileNotFound (name : list Z)
| CsFileCrcFailure (name : list Z) (stored computed : Z)
| CsCommandComplete (name : list Z) (record op : Z)
| CsSequenceComplete (name : list Z)
| CsCommandError (name : list Z) (record op status : Z)
| CsInvalidMode
| CsRecordMismatch (name : list Z) (header_records extra : Z)
| CsTimeBaseMismatch (name : list Z) (current seq : TimeBase)
| CsTimeContextMismatch (name : list Z) (current seq : Z)
| CsPortSequenceStarted (name : list Z)
| CsUnexpectedCompletion (op : Z)
| CsModeSwitched (m : SeqMode)
| CsNoSequenceActive
| CsSequenceValid (name : list Z)
| CsSequenceTimeout (name : list Z) (command : Z)
| CsCmdStepped (name : list Z) (command : Z)
| CsCmdStarted (name : list Z)
| CsJoinWaiting (name : list Z) (record op : Z)
| CsJoinWaitingNotComplete
| CsNoRecords (name : list Z).

(** What leaves the component: events, telemetry, command packets, the two
    sequence notifications, command responses and pings. *)
Inductive SeqOut : Type :=
| SeqLog (e : SeqEvent)
| SeqTlm (chan value : Z)
| SeqTlmName (name : FwString)
| SeqCom (com : serbuf) (context : Z)
| SeqDone (r : CmdResponse)
| SeqStart (name : FwString)
| SeqResponse (op cmd_seq : Z) (r : CmdResponse)
| SeqPing (key : Z).

(** Which output ports are connected. *)
Record SeqWiring : Set := MkSeqWiring { com_cmd_out : bool; seq_done : bool; seq_start_out : bool; seq_cmd_response_out : bool; seq_ping_out : bool }.

(** ** Timer *)

Record Timer : Set := MkTimer { timer_armed : bool; timer_expiration : Time }.
Definition Timer_new : Timer := MkTimer false Time_ZERO.
Definition timer_set (t : Time) : Timer := MkTimer true t.
Definition timer_clear (t : Timer) : Timer := MkTimer false (timer_expiration t).
(** Incomparable times count as expired. *)
Definition is_expired_at (now : Time) (t : Timer) : bool := timer_armed t && negb (bool_decide (compare (timer_expiration t) now = Gt)).

Section sequencer.
Context {T : Type} `{Sequence T} `{BuildProfile} (wiring : SeqWiring).

(** * State *)

Record CmdSequencer : Type := MkSequencer {
  cs_sequence : T;
  load_cmd_count : Z;
  cancel_cmd_count : Z;
  error_count : Z;
  run_mode : RunMode;
  step_mode : StepMode;
  executed_count : Z;
  total_executed_count : Z;
  sequences_completed_count : Z;
  cs_timeout : Z;
  block_state : BlockState;
  cs_op_code : Z;
  cs_cmd_seq : Z;
  join_waiting : bool;
  cs_record : SequenceRecord;
  cmd_timer : Timer;
  cmd_timeout_timer : Timer;
  last_current_sequence : option FwString;
  cs_world : World;
  clock : list Time;
}.

Definition CmdSequencer_new (format : T) (w : World) (times : list Time) : CmdSequencer :=
  MkSequencer format 0 0 0 Stopped StepAuto 0 0 0 0 NoBlock 0 0 false SequenceRecord_default Timer_new Timer_new None w times.

Definition set_sequence (x : T) (s : CmdSequencer) : CmdSequencer :=
  MkSequencer x (load_cmd_count s) (cancel_cmd_count s) (error_count s) (run_mode s) (step_mode s) (executed_count s) (total_executed_count s) (sequences_completed_count s) (cs_timeout s) (block_state s) (cs_op_code s) (cs_cmd_seq s) (join_waiting s) (cs_record s) (cmd_timer s) (cmd_timeout_timer s) (last_current_sequence s) (cs_world s) (clock s).
Definition set_load_count (x : Z) (s : CmdSequencer) : CmdSequencer :=
  MkSequencer (cs_sequence s) x (cancel_cmd_count s) (error_count s) (run_mode s) (step_mode s) (executed_count s) (total_executed_count s) (sequences_completed_count s) (cs_timeout s) (block_state s) (cs_op_code s) (cs_cmd_seq s) (join_waiting s) (cs_record s) (cmd_timer s) (cmd_timeout_timer s) (last_current_sequence s) (cs_world s) (clock s).
Definition set_cancel_count (x : Z) (s : CmdSequencer) : CmdSequencer :=
  MkSequencer (cs_sequence s) (load_cmd_count s) x (error_count s) (run_mode s) (step_mode s) (executed_count s) (total_executed_count s) (sequences_completed_count s) (cs_timeout s) (block_state s) (cs_op_code s) (cs_cmd_seq s) (join_waiting s) (cs_record s) (cmd_timer s) (cmd_timeout_timer s) (last_current_sequence s) (cs_world s) (clock s).
Definition set_error_count (x : Z) (s : CmdSequencer) : CmdSequencer :=
  MkSequencer (cs_sequence s) (load_cmd_count s) (cancel_cmd_count s) x (run_mode s) (step_mode s) (executed_count s) (total_executed_count s) (sequences_completed_count s) (cs_timeout s) (block_state s) (cs_op_code s) (cs_cmd_seq s) (join_waiting s) (cs_record s) (cmd_timer s) (cmd_timeout_timer s) (last_current_sequence s) (cs_world s) (clock s).
Definition set_run_mode (x : RunMode) (s : CmdSequencer) : CmdSequencer :=
  MkSequencer (cs_sequence s) (load_cmd_count s) (cancel_cmd_count s) (error_count s) x (step_mode s) (executed_count s) (total_executed_count s) (sequences_completed_count s) (cs_timeout s) (block_state s) (cs_op_code s) (cs_cmd_seq s) (join_waiting s) (cs_record s) (cmd_timer s) (cmd_timeout_timer s) (last_current_sequence s) (cs_world s) (clock s).
Definition set_step_mode (x : StepMode) (s : CmdSequencer) : CmdSequencer :=
  MkSequencer (cs_sequence s) (load_cmd_count s) (cancel_cmd_count s) (error_count s) (run_mode s) x (executed_count s) (total_executed_count s) (sequences_completed_count s) (cs_timeout s) (block_state s) (cs_op_code s) (cs_cmd_seq s) (join_waiting s) (cs_record s) (cmd_timer s) (cmd_timeout_timer s) (last_current_sequence s) (cs_world s) (clock s).
Definition set_executed (x : Z) (s : CmdSequencer) : CmdSequencer :=
  MkSequencer (cs_sequence s) (load_cmd_count s) (cancel_cmd_count s) (error_count s) (run_mode s) (step_mode s) x (total_executed_count s) (sequences_completed_count s) (cs_timeout s) (block_state s) (cs_op_code s) (cs_cmd_seq s) (join_waiting s) (cs_record s) (cmd_timer s) (cmd_timeout_timer s) (last_current_sequence s) (cs_world s) (clock s).
Definition set_total (x : Z) (s : CmdSequencer) : CmdSequencer :=
  MkSequencer (cs_sequence s) (load_cmd_count s) (cancel_cmd_count s) (error_count s) (run_mode s) (step_mode s) (executed_count s) x (sequences_completed_count s) (cs_timeout s) (block_state s) (cs_op_code s) (cs_cmd_seq s) (join_waiting s) (cs_record s) (cmd_timer s) (cmd_timeout_timer s) (last_current_sequence s) (cs_world s) (clock s).
Definition set_completed (x : Z) (s : CmdSequencer) : CmdSequencer :=
  MkSequencer (cs_sequence s) (load_cmd_count s) (cancel_cmd_count s) (error_count s) (run_mode s) (step_mode s) (executed_count s) (total_executed_count s) x (cs_timeout s) (block_state s) (cs_op_code s) (cs_cmd_seq s) (join_waiting s) (cs_record s) (cmd_timer s) (cmd_timeout_timer s) (last_current_sequence s) (cs_world s) (clock s).
Definition set_timeout (x : Z) (s : CmdSequencer) : CmdSequencer :=
  MkSequencer (cs_sequence s) (load_cmd_count s) (cancel_cmd_count s) (error_count s) (run_mode s) (step_mode s) (executed_count s) (total_executed_count s) (sequences_completed_count s) x (block_state s) (cs_op_code s) (cs_cmd_seq s) (join_waiting s) (cs_record s) (cmd_timer s) (cmd_timeout_timer s) (last_current_sequence s) (cs_world s) (clock s).
Definition set_block (x : BlockState) (s : CmdSequencer) : CmdSequencer :=
  MkSequencer (cs_sequence s) (load_cmd_count s) (cancel_cmd_count s) (error_count s) (run_mode s) (step_mode s) (executed_count s) (total_executed_count s) (sequences_completed_count s) (cs_timeout s) x (cs_op_code s) (cs_cmd_seq s) (join_waiting s) (cs_record s) (cmd_timer s) (cmd_timeout_timer s) (last_current_sequence s) (cs_world s) (clock s).
Definition set_join (x : bool) (s : CmdSequencer) : CmdSequencer :=
  MkSequencer (cs_sequence s) (load_cmd_count s) (cancel_cmd_count s) (error_count s) (run_mode s) (step_mode s) (executed_count s) (total_executed_count s) (sequences_completed_count s) (cs_timeout s) (block_state s) (cs_op_code s) (cs_cmd_seq s) x (cs_record s) (cmd_timer s) (cmd_timeout_timer s) (last_current_sequence s) (cs_world s) (clock s).
Definition set_record (x : SequenceRecord) (s : CmdSequencer) : CmdSequencer :=
  MkSequencer (cs_sequence s) (load_cmd_count s) (cancel_cmd_count s) (error_count s) (run_mode s) (step_mode s) (executed_count s) (total_executed_count s) (sequences_completed_count s) (cs_timeout s) (block_state s) (cs_op_code s) (cs_cmd_seq s) (join_waiting s) x (cmd_timer s) (cmd_timeout_timer s) (last_current_sequence s) (cs_world s) (clock s).
Definition set_cmd_timer (x : Timer) (s : CmdSequencer) : CmdSequencer :=
  MkSequencer (cs_sequence s) (load_cmd_count s) (cancel_cmd_count s) (error_count s) (run_mode s) (step_mode s) (executed_count s) (total_executed_count s) (sequences_completed_count s) (cs_timeout s) (block_state s) (cs_op_code s) (cs_cmd_seq s) (join_waiting s) (cs_record s) x (cmd_timeout_timer s) (last_current_sequence s) (cs_world s) (clock s).
Definition set_timeout_timer (x : Timer) (s : CmdSequencer) : CmdSequencer :=
  MkSequencer (cs_sequence s) (load_cmd_count s) (cancel_cmd_count s) (error_count s) (run_mode s) (step_mode s) (executed_count s) (total_executed_count s) (sequences_completed_count s) (cs_timeout s) (block_state s) (cs_op_code s) (cs_cmd_seq s) (join_waiting s) (cs_record s) (cmd_timer s) x (last_current_sequence s) (cs_world s) (clock s).
Definition set_last_name (x : option FwString) (s : CmdSequencer) : CmdSequencer :=
  MkSequencer (cs_sequence s) (load_cmd_count s) (cancel_cmd_count s) (error_count s) (run_mode s) (step_mode s) (executed_count s) (total_executed_count s) (sequences_completed_count s) (cs_timeout s) (block_state s) (cs_op_code s) (cs_cmd_seq s) (join_waiting s) (cs_record s) (cmd_timer s) (cmd_timeout_timer s) x (cs_world s) (clock s).
Definition set_cs_world (x : World) (s : CmdSequencer) : CmdSequencer :=
  MkSequencer (cs_sequence s) (load_cmd_count s) (cancel_cmd_count s) (error_count s) (run_mode s) (step_mode s) (executed_count s) (total_executed_count s) (sequences_completed_count s) (cs_timeout s) (block_state s) (cs_op_code s) (cs_cmd_seq s) (join_waiting s) (cs_record s) (cmd_timer s) (cmd_timeout_timer s) (last_current_sequence s) x (clock s).
Definition set_clock (x : list Time) (s : CmdSequencer) : CmdSequencer :=
  MkSequencer (cs_sequence s) (load_cmd_count s) (cancel_cmd_count s) (error_count s) (run_mode s) (step_mode s) (executed_count s) (total_executed_count s) (sequences_completed_count s) (cs_timeout s) (block_state s) (cs_op_code s) (cs_cmd_seq s) (join_waiting s) (cs_record s) (cmd_timer s) (cmd_timeout_timer s) (last_current_sequence s) (cs_world s) x.
Definition set_caller (op seq : Z) (s : CmdSequencer) : CmdSequencer :=
  MkSequencer (cs_sequence s) (load_cmd_count s) (cancel_cmd_count s) (error_count s) (run_mode s) (step_mode s) (executed_count s) (total_executed_count s) (sequences_completed_count s) (cs_timeout s) (block_state s) op seq (join_waiting s) (cs_record s) (cmd_timer s) (cmd_timeout_timer s) (last_current_sequence s) (cs_world s) (clock s).

(** The setup calls. *)
Definition set_sequence_format (format : T) (s : CmdSequencer) : CmdSequencer := set_sequence format s.
Definition cs_allocate_buffer (identifier : Z) (n : nat) (s : CmdSequencer) : outcome CmdSequencer :=
  t ← seq_allocate_buffer identifier n (cs_sequence s); Ret (set_sequence t s).
Definition cs_deallocate_buffer (s : CmdSequencer) : CmdSequencer := set_sequence (seq_deallocate_buffer (cs_sequence s)) s.

(** * Outputs *)

Local Notation SeqM := (CompM CmdSequencer SeqOut).

Definition time_get : SeqM Time :=
  s ← get_state;
  match clock s with
  | [] => mret Time_ZERO
  | t :: ts => _ ← put_state (set_clock ts s); mret t
  end.
Definition seq_log (e : SeqEvent) : SeqM unit := emit (SeqLog e).
Definition tlm_u32 (chan value : Z) : SeqM unit := emit (SeqTlm chan value).
(** The name as the events carry it. *)
Definition event_name (s : CmdSequencer) : list Z := take SEQ_EVENT_STRING_SIZE (as_bytes (seq_log_file_name (cs_sequence s))).

Definition tlm_current_sequence (v : FwString) : SeqM unit :=
  s ← get_state;
  if bool_decide (as_bytes <$> last_current_sequence s = Some (as_bytes v)) then mret tt
  else
    _ ← put_state (set_last_name (Some v) s);
    emit (SeqTlmName (set_bytes (as_bytes v) FileNameString_new)).

Definition seq_response (op cmd_seq : Z) (r : CmdResponse) : SeqM unit :=
  _ ← assert (seq_cmd_response_out wiring); emit (SeqResponse op cmd_seq r).
Definition send_command (com : serbuf) : SeqM unit := _ ← assert (com_cmd_out wiring); emit (SeqCom com 0).
Definition emit_seq_start : SeqM unit :=
  s ← get_state; when (seq_start_out wiring) (emit (SeqStart (set_bytes (as_bytes (seq_string_file_name (cs_sequence s))) FileNameString_new))).
Definition seq_done_guarded (r : CmdResponse) : SeqM unit := when (seq_done wiring) (emit (SeqDone r)).
Definition seq_done_unguarded (r : CmdResponse) : SeqM unit := _ ← assert (seq_done wiring); emit (SeqDone r).

(** * Sequencing *)

Definition seq_error : SeqM unit :=
  s ← get_state;
  let n := wrap 32 (error_count s + 1) in
  _ ← put_state (set_error_count n s); tlm_u32 CHANID_CS_ERRORS n.

Definition require_run_mode (m : RunMode) : SeqM bool :=
  s ← get_state; if bool_decide (run_mode s = m) then mret true else _ ← seq_log CsInvalidMode; mret false.

Definition emit_sequence_event (e : SequenceLoadEvent) : SeqM unit :=
  s ← get_state;
  let name := event_name s in
  match e with
  | RecordMismatch h x => seq_log (CsRecordMismatch name h x)
  | FileNotFound => _ ← seq_log (CsFileNotFound name); seq_error
  | FileReadError => _ ← seq_log (CsFileReadError name); seq_error
  | FileInvalid st err => _ ← seq_log (CsFileInvalid name st err); seq_error
  | FileSizeError n => _ ← seq_log (CsFileSizeError name n); seq_error
  | FileCrcFailure a b => _ ← seq_log (CsFileCrcFailure name a b); seq_error
  | RecordInvalid n err => _ ← seq_log (CsRecordInvalid name n err); seq_error
  | TimeBaseMismatch a b => _ ← seq_log (CsTimeBaseMismatch name a b); seq_error
  | TimeContextMismatch a b => _ ← seq_log (CsTimeContextMismatch name a b); seq_error
  | NoRecords => _ ← seq_log (CsNoRecords name); seq_error
  end.

Definition cs_load_file (file_name : FwString) : SeqM bool :=
  now ← time_get;
  s ← get_state;
  '(status, event, t, w) ← lift (seq_load_file file_name now (cs_sequence s) (cs_world s));
  _ ← put_state (set_sequence t (set_cs_world w s));
  _ ← match event with Some e => emit_sequence_event e | None => mret tt end;
  s ← get_state;
  if status : bool then
    _ ← seq_log (CsSequenceLoaded (event_name s));
    let n := wrap 32 (load_cmd_count s + 1) in
    _ ← put_state (set_load_count n s);
    _ ← tlm_u32 CHANID_CS_LOAD_COMMANDS n;
    mret true
  else _ ← put_state (set_sequence (seq_clear (cs_sequence s)) s); mret false.

(** [load_sequence], before the task starts. *)
Definition load_sequence (file_name : FwString) : SeqM unit :=
  s ← get_state;
  _ ← assert (bool_decide (run_mode s = Stopped));
  ok ← cs_load_file file_name;
  if ok : bool then mret tt else modify_state (λ s, set_sequence (seq_clear (cs_sequence s)) s).

Definition set_cmd_timeout (now : Time) : SeqM unit :=
  s ← get_state;
  if (0 <? cs_timeout s)%Z && bool_decide (step_mode s = StepAuto) then
    expiration ← lift (add_duration (cs_timeout s) 0 now);
    put_state (set_timeout_timer (timer_set expiration) s)
  else mret tt.

Definition sequence_complete : SeqM unit :=
  s ← get_state;
  let n := wrap 32 (sequences_completed_count s + 1) in
  let s := set_sequence (seq_clear (cs_sequence s)) (set_completed n s) in
  _ ← put_state s;
  _ ← seq_log (CsSequenceComplete (event_name s));
  _ ← tlm_u32 CHANID_CS_SEQUENCES_COMPLETED n;
  _ ← modify_state (set_executed 0);
  _ ← seq_done_guarded CmdOk;
  _ ← when (bool_decide (block_state s = Block) || join_waiting s) (seq_response (cs_op_code s) (cs_cmd_seq s) CmdOk);
  _ ← modify_state (λ s, set_block NoBlock (set_join false s));
  tlm_current_sequence (set_bytes NO_SEQ FwDefaultString_new).

Definition perform_cmd_cancel : SeqM unit :=
  s ← get_state;
  let s := set_executed 0 (set_timeout_timer (timer_clear (cmd_timeout_timer s)) (set_cmd_timer (timer_clear (cmd_timer s))
             (set_run_mode Stopped (set_sequence (seq_reset (cs_sequence s)) s)))) in
  _ ← put_state s;
  _ ← seq_done_guarded ExecutionError;
  _ ← (if bool_decide (block_state s = Block) || join_waiting s then
         _ ← put_state (set_join false s); seq_response (cs_op_code s) (cs_cmd_seq s) ExecutionError
       else mret tt);
  modify_state (set_block NoBlock).

(** A due command is sent, one that is not waits for its timer; incomparable
    times wait too. *)
Definition perform_cmd_step_absolute (now : Time) : SeqM unit :=
  s ← get_state;
  let c := compare now (rec_time_tag (cs_record s)) in
  if bool_decide (c = Gt) || bool_decide (c = Eq) then
    _ ← send_command (rec_command (cs_record s)); set_cmd_timeout now
  else put_state (set_cmd_timer (timer_set (rec_time_tag (cs_record s))) s).

Definition with_tag (t : Time) (r : SequenceRecord) : SequenceRecord := MkRecord (rec_descriptor r) t (rec_command r).

Definition perform_cmd_step : SeqM unit :=
  s ← get_state;
  '(r, t) ← lift (seq_next_record (cs_record s) (cs_sequence s));
  let h := seq_header t in
  let r := with_tag (set_time_context (hdr_time_context h) (set_time_base (hdr_time_base h) (rec_time_tag r))) r in
  _ ← put_state (set_record r (set_sequence t s));
  now ← time_get;
  match rec_descriptor r with
  | EndOfSequence => _ ← modify_state (set_run_mode Stopped); sequence_complete
  | Relative_ =>
      tag ← lift (add_duration (seconds now) (useconds now) (rec_time_tag r));
      _ ← modify_state (set_record (with_tag tag r));
      perform_cmd_step_absolute now
  | Absolute_ => perform_cmd_step_absolute now
  end.

Definition command_complete (op : Z) : SeqM unit :=
  s ← get_state;
  _ ← seq_log (CsCommandComplete (event_name s) (executed_count s) (get_event_opcode op));
  let n := wrap 32 (total_executed_count s + 1) in
  _ ← put_state (set_total n (set_executed (wrap 32 (executed_count s + 1)) s));
  tlm_u32 CHANID_CS_COMMANDS_EXECUTED n.

Definition command_error (number op err : Z) : SeqM unit :=
  s ← get_state;
  _ ← seq_log (CsCommandError (event_name s) number (get_event_opcode op) err); seq_error.

Definition start_auto : SeqM unit :=
  _ ← modify_state (set_run_mode Running);
  s ← get_state;
  _ ← tlm_current_sequence (seq_string_file_name (cs_sequence s));
  _ ← emit_seq_start;
  perform_cmd_step.

(** * Commands *)

Definition cs_run_handler (op cmd_seq : Z) (file_name : FwString) (block : BlockState) : SeqM unit :=
  ok ← require_run_mode Stopped;
  if negb ok then
    s ← get_state;
    _ ← when (join_waiting s) (seq_log CsJoinWaitingNotComplete);
    seq_response op cmd_seq ExecutionError
  else
    s ← get_state;
    if bool_decide (block = Block) && bool_decide (step_mode s = StepManual) then
      _ ← seq_log CsInvalidMode; seq_response op cmd_seq ExecutionError
    else
      _ ← put_state (set_caller op cmd_seq (set_block block s));
      loaded ← cs_load_file file_name;
      if negb loaded then
        _ ← modify_state (λ s, set_caller 0 0 (set_block NoBlock s)); seq_response op cmd_seq ExecutionError
      else
        _ ← modify_state (set_executed 0);
        s ← get_state;
        _ ← when (bool_decide (step_mode s = StepAuto)) start_auto;
        when (bool_decide (block = NoBlock)) (seq_response op cmd_seq CmdOk).

Definition cs_validate_handler (op cmd_seq : Z) (file_name : FwString) : SeqM unit :=
  ok ← require_run_mode Stopped;
  if negb ok then seq_response op cmd_seq ExecutionError
  else
    loaded ← cs_load_file file_name;
    if negb loaded then seq_response op cmd_seq ExecutionError
    else
      _ ← modify_state (λ s, set_sequence (seq_clear (cs_sequence s)) s);
      s ← get_state;
      _ ← seq_log (CsSequenceValid (event_name s));
      seq_response op cmd_seq CmdOk.

Definition cancel_sequence : SeqM unit :=
  s ← get_state;
  if bool_decide (run_mode s = Running) then
    _ ← perform_cmd_cancel;
    s ← get_state;
    _ ← seq_log (CsSequenceCanceled (event_name s));
    let n := wrap 32 (cancel_cmd_count s + 1) in
    _ ← put_state (set_cancel_count n s);
    tlm_u32 CHANID_CS_CANCEL_COMMANDS n
  else seq_log CsNoSequenceActive.

Definition cs_cancel_handler (op cmd_seq : Z) : SeqM unit := _ ← cancel_sequence; seq_response op cmd_seq CmdOk.

Definition cs_start_handler (op cmd_seq : Z) : SeqM unit :=
  s ← get_state;
  if negb (seq_has_more_records (cs_sequence s)) then
    _ ← seq_log CsNoSequenceActive; seq_response op cmd_seq ExecutionError
  else
    ok ← require_run_mode Stopped;
    if negb ok then seq_response op cmd_seq ExecutionError
    else
      _ ← modify_state (λ s, set_run_mode Running (set_block NoBlock s));
      _ ← tlm_current_sequence (seq_string_file_name (cs_sequence s));
      s ← get_state;
      _ ← seq_log (CsCmdStarted (event_name s));
      _ ← perform_cmd_step;
      _ ← emit_seq_start;
      seq_response op cmd_seq CmdOk.

Definition cs_step_handler (op cmd_seq : Z) : SeqM unit :=
  ok ← require_run_mode Running;
  if negb ok then seq_response op cmd_seq ExecutionError
  else
    s ← get_state;
    if negb (bool_decide (step_mode s = StepManual)) then
      _ ← seq_log CsInvalidMode; seq_response op cmd_seq ExecutionError
    else if negb (seq_has_more_records (cs_sequence s)) then
      _ ← seq_log CsNoSequenceActive; seq_response op cmd_seq ExecutionError
    else
      _ ← perform_cmd_step;
      s ← get_state;
      _ ← when (negb (bool_decide (run_mode s = Stopped))) (seq_log (CsCmdStepped (event_name s) (executed_count s)));
      seq_response op cmd_seq CmdOk.

Definition cs_auto_handler (op cmd_seq : Z) : SeqM unit :=
  ok ← require_run_mode Stopped;
  if ok : bool then
    _ ← modify_state (set_step_mode StepAuto); _ ← seq_log (CsModeSwitched ModeAuto); seq_response op cmd_seq CmdOk
  else seq_response op cmd_seq ExecutionError.

Definition cs_manual_handler (op cmd_seq : Z) : SeqM unit :=
  ok ← require_run_mode Stopped;
  if ok : bool then
    _ ← modify_state (set_step_mode StepManual); _ ← seq_log (CsModeSwitched ModeStep); seq_response op cmd_seq CmdOk
  else seq_response op cmd_seq ExecutionError.

Definition cs_join_wait_handler (op cmd_seq : Z) : SeqM unit :=
  s ← get_state;
  if negb (bool_decide (run_mode s = Running)) then
    _ ← seq_log CsNoSequenceActive; seq_response op cmd_seq CmdOk
  else if bool_decide (block_state s = Block) || join_waiting s then
    _ ← seq_log CsJoinWaitingNotComplete; seq_response op cmd_seq ExecutionError
  else
    _ ← put_state (set_join true s);
    _ ← seq_log (CsJoinWaiting (event_name s) (cs_cmd_seq s) (get_event_opcode (cs_op_code s)));
    modify_state (set_caller op cmd_seq).

(** * Ports *)

Definition do_sequence_run (filename : FwString) : SeqM unit :=
  s ← get_state;
  if bool_decide (step_mode s = StepManual) then
    _ ← seq_log CsInvalidMode; seq_done_unguarded ExecutionError
  else
    ok ← require_run_mode Stopped;
    if negb ok then seq_done_unguarded ExecutionError
    else
      ready ← (if negb (bool_decide (as_bytes filename = [])) then
                 loaded ← cs_load_file (set_bytes (as_bytes filename) (FwString_new FW_CMD_STRING_MAX_SIZE));
                 if negb loaded then _ ← seq_done_unguarded ExecutionError; mret false else mret true
               else if negb (seq_has_more_records (cs_sequence s)) then
                 _ ← seq_log CsNoSequenceActive; _ ← seq_error; _ ← seq_done_unguarded ExecutionError; mret false
               else mret true);
      if negb ready then mret tt
      else
        _ ← modify_state (set_executed 0);
        s ← get_state;
        _ ← when (bool_decide (step_mode s = StepAuto)) start_auto;
        s ← get_state;
        seq_log (CsPortSequenceStarted (event_name s)).

Definition seq_run_in_handler (filename : FwString) : SeqM unit := do_sequence_run filename.
Definition seq_dispatch_in_handler (filename : FwString) : SeqM unit := do_sequence_run filename.
Definition seq_cancel_in_handler : SeqM unit := cancel_sequence.
Definition cs_ping_in_handler (key : Z) : SeqM unit := _ ← assert (seq_ping_out wiring); emit (SeqPing key).

Definition cmd_response_in_handler (op : Z) (r : CmdResponse) : SeqM unit :=
  s ← get_state;
  if bool_decide (run_mode s = Stopped) then seq_log (CsUnexpectedCompletion (get_event_opcode op))
  else
    _ ← put_state (set_timeout_timer (timer_clear (cmd_timeout_timer s)) s);
    if negb (bool_decide (r = CmdOk)) then
      _ ← command_error (executed_count s) op (CmdResponse_repr r); perform_cmd_cancel
    else
      _ ← command_complete op;
      s ← get_state;
      let more := seq_has_more_records (cs_sequence s) in
      if bool_decide (step_mode s = StepAuto) then
        if more then perform_cmd_step else _ ← modify_state (set_run_mode Stopped); sequence_complete
      else
        if negb more then _ ← modify_state (set_run_mode Stopped); sequence_complete else mret tt.

Definition sched_in_handler : SeqM unit :=
  now ← time_get;
  s ← get_state;
  if is_expired_at now (cmd_timer s) then
    _ ← send_command (rec_command (cs_record s));
    _ ← modify_state (λ s, set_cmd_timer (timer_clear (cmd_timer s)) s);
    set_cmd_timeout now
  else
    timeout_time ← time_get;
    s ← get_state;
    if is_expired_at timeout_time (cmd_timeout_timer s) then
      _ ← seq_log (CsSequenceTimeout (event_name s) (executed_count s)); perform_cmd_cancel
    else mret tt.

(** ** [cmdIn] *)

Definition cs_cmd_in_handler (id_base op cmd_seq : Z) (args : serbuf) : SeqM unit :=
  let format_error := seq_response op cmd_seq CmdFormatError in
  let rel := wrap 32 (op - id_base) in
  if (rel =? OPCODE_CS_RUN)%Z then
    '(name, args) ← on_args (string_deserialize_from Big (FwString_new FW_CMD_STRING_MAX_SIZE)) args;
    match name with
    | None => format_error
    | Some file_name =>
        '(raw, args) ← on_args (deserialize_u8 Big) args;
        match raw with
        | None => format_error
        | Some raw_block =>
            match try_from raw_block : option BlockState with
            | None => seq_response op cmd_seq ValidationError
            | Some block =>
                n ← size_left args;
                if negb (bool_decide (n = 0)) then format_error else cs_run_handler op cmd_seq file_name block
            end
        end
    end
  else if (rel =? OPCODE_CS_VALIDATE)%Z then
    '(name, args) ← on_args (string_deserialize_from Big (FwString_new FW_CMD_STRING_MAX_SIZE)) args;
    match name with
    | None => format_error
    | Some file_name =>
        n ← size_left args;
        if negb (bool_decide (n = 0)) then format_error else cs_validate_handler op cmd_seq file_name
    end
  else if ((OPCODE_CS_CANCEL <=? rel) && (rel <=? OPCODE_CS_JOIN_WAIT))%Z then
    n ← size_left args;
    if negb (bool_decide (n = 0)) then format_error
    else if (rel =? OPCODE_CS_CANCEL)%Z then cs_cancel_handler op cmd_seq
    else if (rel =? OPCODE_CS_START)%Z then cs_start_handler op cmd_seq
    else if (rel =? OPCODE_CS_STEP)%Z then cs_step_handler op cmd_seq
    else if (rel =? OPCODE_CS_AUTO)%Z then cs_auto_handler op cmd_seq
    else if (rel =? OPCODE_CS_MANUAL)%Z then cs_manual_handler op cmd_seq
    else cs_join_wait_handler op cmd_seq
  else seq_response op cmd_seq InvalidOpcode.
End sequencer.
Arguments CmdSequencer T : clear implicits.
