(* ===== verification/CmdSequencerRuns.v ===== *)
(** Runs of the command sequencer over any lawful sequence format: nothing
    panics, every command is answered once, and a sequence sends its commands
    in order, one at a time. *)

From stdpp Require Import list gmap strings.
From S2P Require Import Prelude Serial SerialFacts Codec Fpp Time Packets Crc32 Comp FwString OsFile FilePaths Sequence SequenceFacts CmdSequencer.

(** * What a run shows *)

Section outs.
Definition answers (o : list SeqOut) : list (Z * Z) := omap (λ x, match x with SeqResponse op seq _ => Some (op, seq) | _ => None end) o.
Definition coms (o : list SeqOut) : list (list Z) := omap (λ x, match x with SeqCom c _ => Some (as_slice c) | _ => None end) o.
Definition dones (o : list SeqOut) : list CmdResponse := omap (λ x, match x with SeqDone r => Some r | _ => None end) o.
Lemma answers_app o o' : answers (o ++ o') = answers o ++ answers o'.
Proof. apply omap_app. Qed.
Lemma coms_app o o' : coms (o ++ o') = coms o ++ coms o'.
Proof. apply omap_app. Qed.
Lemma dones_app o o' : dones (o ++ o') = dones o ++ dones o'.
Proof. apply omap_app. Qed.
End outs.

(** Only events and telemetry. *)
Record silent (o : list SeqOut) : Prop := { silent_answers : answers o = []; silent_coms : coms o = []; silent_dones : dones o = [] }.
Lemma silent_app o o' : silent o → silent o' → silent (o ++ o').
Proof. intros [A1 C1 D1] [A2 C2 D2]. split; rewrite ?answers_app, ?coms_app, ?dones_app, ?A1, ?C1, ?D1; done. Qed.
Lemma silent_nil : silent [].
Proof. done. Qed.

(** The commands a sequence has before its end. *)
Fixpoint commands (vs : list View) : list (list Z) := match vs with VCommand _ _ _ com :: vs => com :: commands vs | _ => [] end.

Section runs.
Context {T : Type} {Format : Sequence T} {Laws : SequenceLaws T} {Profile : BuildProfile} (wiring : SeqWiring) (m : Z).
Local Notation Sequencer := (CmdSequencer T).
Local Notation SeqM := (CompM Sequencer SeqOut).
Hypothesis Hresp : seq_cmd_response_out wiring = true.
Hypothesis Hcom : com_cmd_out wiring = true.
Hypothesis Hdone : seq_done wiring = true.
Hypothesis Hping : seq_ping_out wiring = true.
Hypothesis Hm : (0 ≤ m)%Z.

(** A command whose answer is deferred. *)
Definition pending (s : Sequencer) : list (Z * Z) :=
  if bool_decide (block_state s = Block) || join_waiting s then [(cs_op_code s, cs_cmd_seq s)] else [].

(** A reading of the clock; in a build with overflow checks the deadlines
    computed from it fit 32 bits. *)
Definition reading_ok (timeout : Z) (t : Time) : Prop :=
  Time_wf t ∧ (overflow_checks = true → seconds t + m + 1 < 2 ^ 32 ∧ seconds t + timeout + 1 < 2 ^ 32)%Z.

Record seq_base (s : Sequencer) : Prop := {
  base_seq : seq_ok (cs_sequence s);
  base_within : Forall (within m) (seq_content (cs_sequence s));
  base_record : record_ok (cs_record s);
  base_files : seq_files_ok m (cs_world s);
  base_times : Forall (reading_ok (cs_timeout s)) (Time_ZERO :: clock s);
  base_timeout : is_u 32 (cs_timeout s);
}.

(** The parts of the state that loads and outputs leave alone. *)
Record same_control (s s' : Sequencer) : Prop := {
  same_run : run_mode s' = run_mode s;
  same_step : step_mode s' = step_mode s;
  same_block : block_state s' = block_state s;
  same_join : join_waiting s' = join_waiting s;
  same_op : cs_op_code s' = cs_op_code s;
  same_seq : cs_cmd_seq s' = cs_cmd_seq s;
  same_timer : cmd_timer s' = cmd_timer s;
  same_timeout_timer : cmd_timeout_timer s' = cmd_timeout_timer s;
  same_record : cs_record s' = cs_record s;
  same_timeout : cs_timeout s' = cs_timeout s;
}.

Lemma same_control_refl s : same_control s s.
Proof. done. Qed.
Lemma same_control_trans s1 s2 s3 : same_control s1 s2 → same_control s2 s3 → same_control s1 s3.
Proof. intros [] []. split; congruence. Qed.
Lemma same_control_pending s s' : same_control s s' → pending s' = pending s.
Proof. intros [_ _ Eb Ej Eo Es _ _ _ _]. unfold pending. by rewrite Eb, Ej, Eo, Es. Qed.

Lemma add_duration_total t s us :
  is_u 32 (seconds t) → (0 ≤ useconds t < 1000000)%Z → is_u 32 s → (0 ≤ us < 1000000)%Z → (overflow_checks = true → seconds t + s + 1 < 2 ^ 32)%Z →
  ∃ t', add_duration s us t = Ret t' ∧ time_base t' = time_base t ∧ is_u 32 (seconds t') ∧ (0 ≤ useconds t' < 1000000)%Z.
Proof.
  intros Hs Hu Hs' Hu' Hov. unfold add_duration, carry_add, add_w, sub_w.
  assert (∃ x, overflowing 32 (seconds t + s) = Ret x ∧ is_u 32 x ∧ (overflow_checks = true → x = seconds t + s)%Z) as (x & -> & Hx & Hxe).
  { unfold overflowing. case_bool_decide as Hin; [eauto|]. destruct overflow_checks eqn:Eo; [specialize (Hov eq_refl); unfold is_u in *; lia|].
    eexists. split; [done|]. split; [|done]. unfold is_u, wrap. apply Z.mod_pos_bound. lia. }
  rewrite outcome_bind_ret, (overflowing_in 32 (useconds t + us)) by (unfold is_u; lia). rewrite outcome_bind_ret.
  rewrite fw_assert_true by (apply Z.ltb_lt; lia). rewrite outcome_bind_ret.
  destruct (Z.leb_spec 1000000 (useconds t + us)) as [Hc|Hc].
  - assert (∃ y, overflowing 32 (x + 1) = Ret y ∧ is_u 32 y) as (y & -> & Hy).
    { unfold overflowing. case_bool_decide as Hin; [eauto|]. destruct overflow_checks eqn:Eo; [specialize (Hov eq_refl); specialize (Hxe eq_refl); unfold is_u in *; lia|].
      eexists. split; [done|]. unfold is_u, wrap. apply Z.mod_pos_bound. lia. }
    rewrite outcome_bind_ret, overflowing_in by (unfold is_u; lia). rewrite !outcome_bind_ret. unfold Time_set. rewrite fw_assert_true by (apply Z.ltb_lt; lia).
    eexists. split; [done|]. split; [done|]. split; [exact Hy|]. cbn. lia.
  - rewrite outcome_bind_ret. unfold Time_set. rewrite fw_assert_true by (apply Z.ltb_lt; lia).
    eexists. split; [done|]. split; [done|]. split; [exact Hx|]. cbn. lia.
Qed.

(** ** Steps that only report *)

Definition calm (s s' : Sequencer) (o : list SeqOut) : Prop :=
  same_control s s' ∧ silent o ∧ cs_sequence s' = cs_sequence s ∧ cs_world s' = cs_world s ∧ clock s' = clock s.

Lemma calm_base s s' o : calm s s' o → seq_base s → seq_base s'.
Proof.
  intros (Hc & _ & Eq & Ew & Ec) [H1 H2 H3 H4 H5 H6]. destruct Hc as [_ _ _ _ _ _ _ _ Er Et].
  split; rewrite ?Eq, ?Ew, ?Ec, ?Er, ?Et; done.
Qed.
Lemma calm_refl s : calm s s [].
Proof. done. Qed.
Lemma calm_trans s1 s2 s3 o o' : calm s1 s2 o → calm s2 s3 o' → calm s1 s3 (o ++ o').
Proof.
  intros (C1 & S1 & Q1 & W1 & K1) (C2 & S2 & Q2 & W2 & K2). split_and!; [by eapply same_control_trans|by apply silent_app|congruence|congruence|congruence].
Qed.

Lemma log_wp e s (Q : unit → Sequencer → list SeqOut → Prop) : Q tt s [SeqLog e] → wp (seq_log e : SeqM unit) s Q.
Proof. intros HQ. unfold seq_log. by wp_steps. Qed.

Lemma seq_error_wp s : wp (seq_error : SeqM unit) s (λ _ s' o, calm s s' o).
Proof. unfold seq_error, tlm_u32. by wp_steps. Qed.

Lemma current_sequence_wp n s : wp (tlm_current_sequence n : SeqM unit) s (λ _ s' o, calm s s' o).
Proof. unfold tlm_current_sequence. wp_steps. case_bool_decide; by wp_steps. Qed.

Lemma load_event_wp e s : wp (emit_sequence_event e : SeqM unit) s (λ _ s' o, calm s s' o).
Proof.
  unfold emit_sequence_event. wp_steps.
  destruct e; try (by apply log_wp); apply wp_bind, log_wp; (eapply wp_mono; [apply seq_error_wp|]); intros [] s' o' Hs'; (eapply (calm_trans s s s' [_]); [done|exact Hs']).
Qed.

Lemma seq_start_wp s : wp (emit_seq_start wiring : SeqM unit) s (λ _ s' o, calm s s' o).
Proof. unfold emit_seq_start. wp_steps. destruct (seq_start_out wiring); cbn [when]; by wp_steps. Qed.

Lemma answer_wp op seq r s (Q : unit → Sequencer → list SeqOut → Prop) : Q tt s [SeqResponse op seq r] → wp (seq_response wiring op seq r : SeqM unit) s Q.
Proof. intros HQ. unfold seq_response. eapply wp_assert; [done|]. by wp_steps. Qed.
Lemma done_wp r s (Q : unit → Sequencer → list SeqOut → Prop) : Q tt s [SeqDone r] → wp (seq_done_guarded wiring r : SeqM unit) s Q.
Proof. intros HQ. unfold seq_done_guarded. rewrite Hdone. cbn [when]. by wp_steps. Qed.
Lemma done_unguarded_wp r s (Q : unit → Sequencer → list SeqOut → Prop) : Q tt s [SeqDone r] → wp (seq_done_unguarded wiring r : SeqM unit) s Q.
Proof. intros HQ. unfold seq_done_unguarded. eapply wp_assert; [done|]. by wp_steps. Qed.

(** The next reading of the clock. *)
Lemma time_get_wp s (Q : Time → Sequencer → list SeqOut → Prop) :
  seq_base s →
  (∀ t s', reading_ok (cs_timeout s) t → seq_base s' → same_control s s' → cs_sequence s' = cs_sequence s → cs_world s' = cs_world s → (clock s = [] ∧ t = Time_ZERO ∧ s' = s ∨ clock s = t :: clock s') → Q t s' []) →
  wp (time_get : SeqM Time) s Q.
Proof.
  intros Hs HQ. unfold time_get. wp_steps. pose proof (base_times s Hs) as Ht. destruct (clock s) as [|t ts] eqn:E.
  - wp_steps. apply HQ; try done; [by apply Forall_cons in Ht as [? _]|by left].
  - wp_steps. apply Forall_cons in Ht as [H0 Ht]. apply Forall_cons in Ht as [H1 Ht]. apply HQ; try done; [|by right].
    destruct Hs. split; try done. cbn. by constructor.
Qed.

(** ** Loads *)

Lemma cs_load_wp name s :
  seq_base s →
  wp (cs_load_file name : SeqM bool) s (λ ok s' o, seq_base s' ∧ same_control s s' ∧ silent o ∧
    if ok : bool then seq_left (cs_sequence s') = seq_content (cs_sequence s') ∧ seq_content (cs_sequence s') ≠ []
    else seq_left (cs_sequence s') = [] ∧ seq_content (cs_sequence s') = []).
Proof.
  intros Hs. unfold cs_load_file. apply wp_bind, time_get_wp; [done|]. intros now s1 Hnow Hs1 Hc1 Eq Ew _. wp_steps.
  destruct (law_load m name now (cs_sequence s1) (cs_world s1)) as (st & e & t & w & E & Hu & Hsame & Hok); [apply law_usable, Hs1|apply Hs1|].
  eapply wp_lift; [exact E|]. cbv beta iota. wp_steps. set (s2 := set_sequence t (set_cs_world w s1)).
  assert (same_control s1 s2) as Hc2 by done. apply wp_bind.
  eapply wp_mono with (Q := λ _ s' o, calm s2 s' o).
  { destruct e as [e|]; [apply load_event_wp|wp_steps; done]. }
  intros [] s3 o3 (Hc3 & So & Q3 & W3 & K3). wp_steps.
  assert (seq_files_ok m (cs_world s3)) as Hf3 by (rewrite W3; eapply law_files; [exact Hsame|apply Hs1]).
  assert (same_control s s3) as Hc by (eapply same_control_trans; [exact Hc1|]; eapply same_control_trans; [exact Hc2|exact Hc3]).
  assert (∀ t', seq_ok t' → Forall (within m) (seq_content t') → seq_base (set_sequence t' s3)) as Hbase.
  { intros t' Ht' Hw'. destruct Hs1. destruct Hc3 as [_ _ _ _ _ _ _ _ Er Et]. split; cbn; rewrite ?Er, ?Et, ?K3; done. }
  destruct st.
  - destruct (Hok eq_refl) as (Ho1 & Ho2 & Ho3 & Ho4). apply wp_bind, log_wp. wp_steps. unfold tlm_u32. wp_steps.
    assert (seq_base s3) as Hs3 by (destruct s3; cbn in *; subst; exact (Hbase t Ho1 Ho4)). split_and!; [|by destruct Hc| | |].
    + by destruct Hs3.
    + apply (silent_app o3); done.
    + cbn. by rewrite Q3.
    + cbn. by rewrite Q3.
  - wp_steps. rewrite !app_nil_r. destruct (law_clear (cs_sequence s3)) as (L1 & L2 & L3); [by rewrite Q3|]. split_and!; [apply Hbase; [done|by rewrite L3]|by destruct Hc|done|done|done].
Qed.

(** ** One record *)

(** The sequence is over: whoever waited for it is answered. *)
Record finished (r : CmdResponse) (s s' : Sequencer) (o : list SeqOut) : Prop := {
  fin_stopped : run_mode s' = Stopped;
  fin_step : step_mode s' = step_mode s;
  fin_pending : pending s' = [];
  fin_answers : answers o = pending s;
  fin_coms : coms o = [];
  fin_dones : dones o = [r];
  fin_timer : timer_armed (cmd_timer s) = false → timer_armed (cmd_timer s') = false;
  fin_rewound : seq_left (cs_sequence s') = seq_content (cs_sequence s');
}.

(** The record's command is sent, or waits for its time. *)
Record performed (com : list Z) (vs : list View) (s s' : Sequencer) (o : list SeqOut) : Prop := {
  perf_run : run_mode s' = run_mode s;
  perf_step : step_mode s' = step_mode s;
  perf_pending : pending s' = pending s;
  perf_answers : answers o = [];
  perf_dones : dones o = [];
  perf_left : seq_left (cs_sequence s') = vs;
  perf_content : seq_content (cs_sequence s') = seq_content (cs_sequence s);
  perf_record : as_slice (rec_command (cs_record s')) = com;
  perf_coms : coms o = [com] ∧ cmd_timer s' = cmd_timer s ∨ coms o = [] ∧ timer_armed (cmd_timer s') = true;
}.

Lemma set_cmd_timeout_wp now s :
  seq_base s → reading_ok (cs_timeout s) now →
  wp (set_cmd_timeout now : SeqM unit) s (λ _ s' o, o = [] ∧ ∃ x, s' = set_timeout_timer x s).
Proof.
  intros Hs [(Hn1 & Hn2 & Hn3) Hn4]. unfold set_cmd_timeout. wp_steps. destruct (_ && _); wp_steps; [|split; [done|]; exists (cmd_timeout_timer s); by destruct s].
  destruct (add_duration_total now (cs_timeout s) 0) as (t' & E & _); [done|done|apply Hs|lia|intros Ho; apply Hn4, Ho|].
  eapply wp_lift; [exact E|]. wp_steps. eauto.
Qed.

Lemma seq_base_timeout_timer x s : seq_base s → seq_base (set_timeout_timer x s).
Proof. by intros []. Qed.

(** The record at hand is due, or its timer is armed. *)
Lemma step_absolute_wp now com vs s :
  seq_base s → reading_ok (cs_timeout s) now → as_slice (rec_command (cs_record s)) = com → seq_left (cs_sequence s) = vs →
  wp (perform_cmd_step_absolute wiring now : SeqM unit) s (λ _ s' o, seq_base s' ∧ performed com vs s s' o).
Proof.
  intros Hs Hn Hcm Hl. unfold perform_cmd_step_absolute. wp_steps. destruct (_ || _).
  - unfold send_command. wp_steps. eapply wp_assert; [done|]. wp_steps. eapply wp_mono; [by apply set_cmd_timeout_wp|].
    intros [] s' o (-> & x & ->). split; [by apply seq_base_timeout_timer|]. split; try done. left. cbn. by rewrite Hcm.
  - wp_steps. split; [by destruct Hs|]. split; try done. by right.
Qed.

Lemma sequence_complete_wp s :
  seq_base s → run_mode s = Stopped →
  wp (sequence_complete wiring : SeqM unit) s (λ _ s' o, seq_base s' ∧ finished CmdOk s s' o).
Proof.
  intros Hs Hr. unfold sequence_complete, seq_log, tlm_u32. wp_steps. apply wp_bind, done_wp. wp_steps.
  destruct (law_clear (cs_sequence s)) as (L1 & L2 & L3); [apply law_usable, Hs|].
  assert (∀ o1 s1, seq_base s1 → finished CmdOk s s1 o1 → wp (tlm_current_sequence (set_bytes NO_SEQ FwDefaultString_new) : SeqM unit) s1 (λ _ s' o, seq_base s' ∧ finished CmdOk s s' (o1 ++ o))) as Hend.
  { intros o1 s1 Hb Hf. eapply wp_mono; [apply current_sequence_wp|]. intros [] s' o Hc. split; [by eapply calm_base|].
    destruct Hc as (Hc & [A C D] & Eq & _), Hf. split; try by rewrite ?answers_app, ?coms_app, ?dones_app, ?A, ?C, ?D, ?app_nil_r.
    - by rewrite (same_run _ _ Hc).
    - by rewrite (same_step _ _ Hc).
    - by rewrite (same_control_pending _ _ Hc).
    - by rewrite (same_timer _ _ Hc).
    - by rewrite Eq. }
  assert (∀ n, seq_base (set_block NoBlock (set_join false (set_executed 0 (set_sequence (seq_clear (cs_sequence s)) (set_completed n s)))))) as Hb.
  { intros n. destruct Hs. split; cbn; rewrite ?L3; done. }
  unfold when. destruct (_ || _) eqn:E.
  - apply wp_bind, answer_wp. wp_steps. eapply (Hend [_; _; _; _]); [apply Hb|]. split; try done; [unfold pending; cbn in E; by rewrite E|cbn; by rewrite L2, L3].
  - apply wp_bind. wp_steps. eapply (Hend [_; _; _]); [apply Hb|]. split; try done; [unfold pending; cbn in E; by rewrite E|cbn; by rewrite L2, L3].
Qed.

Lemma perform_cmd_cancel_wp s :
  seq_base s →
  wp (perform_cmd_cancel wiring : SeqM unit) s (λ _ s' o, seq_base s' ∧ finished ExecutionError s s' o ∧ timer_armed (cmd_timer s') = false).
Proof.
  intros Hs. unfold perform_cmd_cancel. wp_steps. apply wp_bind, done_wp. destruct (law_reset (cs_sequence s)) as (L1 & L2 & L3); [apply Hs|].
  set (s1 := set_executed 0 _). assert (∀ b x, seq_base (set_block b (set_join x s1))) as Hb by (intros; destruct Hs; split; cbn; rewrite ?L3; done).
  destruct (_ || _) eqn:E; wp_steps.
  - apply answer_wp. wp_steps. split; [apply Hb|]. split; [|done]. split; try done; [unfold pending; cbn in E; by rewrite E|cbn; by rewrite L2, L3].
  - split; [replace s1 with (set_join (join_waiting s) s1) by (by destruct s); apply Hb|]. split; [|done]. apply orb_false_iff in E as [E1 E2]. split; try done; [unfold pending; cbn in *; by rewrite E2, ?E1..|cbn; by rewrite L2, L3].
Qed.

(** The next record of the sequence is performed. *)
Lemma perform_cmd_step_wp v vs s :
  seq_base s → seq_left (cs_sequence s) = v :: vs →
  wp (perform_cmd_step wiring : SeqM unit) s (λ _ s' o, seq_base s' ∧
    match v with VEnd => finished CmdOk s s' o | VCommand _ _ _ com => performed com vs s s' o end).
Proof.
  intros Hs Hl. unfold perform_cmd_step. wp_steps.
  destruct (law_next (cs_sequence s) (cs_record s) v vs) as (r & t & E & Hv & Hr & Ht & Hl' & Hct & Hh); [apply Hs..|done|].
  eapply wp_lift; [exact E|]. cbv beta iota zeta. wp_steps. set (r' := with_tag _ r). set (s1 := set_record r' _).
  assert (seq_base s1) as Hs1 by (destruct Hs; split; cbn; rewrite ?Hct; done).
  assert (view_ok v ∧ within m v) as [Hvok Hvm].
  { destruct (law_views (cs_sequence s)) as [Hf (d & Hd)]; [apply Hs|]. pose proof (base_within s Hs) as Hw. rewrite Hd, Hl in Hf, Hw.
    apply Forall_app in Hf as [_ [Hf _]%Forall_cons]. by apply Forall_app in Hw as [_ [Hw _]%Forall_cons]. }
  apply wp_bind, time_get_wp; [done|]. intros now s2 Hn Hs2 Hc2 Eq2 _ _. rewrite <- (same_timeout _ _ Hc2) in Hn.
  assert (∀ com s3 s' o, s3 = s2 ∨ (∃ x, s3 = set_record x s2) → performed com vs s3 s' o → performed com vs s s' o) as Hadv.
  { intros com s3 s' o H3 []. assert (same_control s1 s2 → run_mode s3 = run_mode s ∧ step_mode s3 = step_mode s ∧ pending s3 = pending s ∧ cmd_timer s3 = cmd_timer s ∧ cs_sequence s3 = t) as Hs3.
    { intros [Er Est Eb Ej Eo Es Et _ _ _]. unfold pending. destruct H3 as [->|[x ->]]; cbn; rewrite ?Er, ?Est, ?Eb, ?Ej, ?Eo, ?Es, ?Et, ?Eq2; done. }
    destruct (Hs3 Hc2) as (E1 & E2 & E3 & E4 & E5). split; try congruence. }
  change (rec_descriptor r') with (rec_descriptor r). destruct v as [|rel sec usec com]; cbn in Hv.
  - rewrite Hv. wp_steps. eapply wp_mono; [apply sequence_complete_wp; [by destruct Hs2|done]|].
    intros [] s' o [Hs' []]. split; [done|]. destruct Hc2 as [Er Est Eb Ej Eo Es Et _ _ _].
    change ([] ++ o) with o. split; try done; [cbn in *; congruence|rewrite fin_answers0; unfold pending; cbn; by rewrite Eb, Ej, Eo, Es|cbn in fin_timer0; by rewrite Et in fin_timer0].
  - destruct Hv as (Hd & Hsec & Hus & Hcmd). rewrite Hd. destruct rel.
    + pose proof Hn as [(Hn1 & Hn2 & Hn3) Hn4]. destruct Hvok as (V1 & V2 & _). cbn in Hvm.
      destruct (add_duration_total (rec_time_tag r') (seconds now) (useconds now)) as (tag & Etag & _); [cbn; by rewrite Hsec|cbn; lia|done|done|cbn; rewrite Hsec; intros Ho; specialize (Hn4 Ho); lia|].
      eapply wp_lift; [exact Etag|]. wp_steps. eapply wp_mono; [apply (step_absolute_wp now com vs)|].
      * destruct Hs2. by split.
      * exact Hn.
      * done.
      * cbn. by rewrite Eq2.
      * intros [] s' o [Hs' Ha]. split; [done|]. eapply Hadv; [right; eauto|exact Ha].
    + eapply wp_mono; [apply (step_absolute_wp now com vs); [done|done|by rewrite (same_record _ _ Hc2)|by rewrite Eq2]|].
      intros [] s' o [Hs' Ha]. split; [done|]. eapply Hadv; [by left|exact Ha].
Qed.

(** ** Every call *)

Inductive SeqCall : Type :=
| CallCmd (op cmd_seq : Z) (args : serbuf)
| CallRun (file : FwString)
| CallDispatch (file : FwString)
| CallCancel
| CallResponse (op : Z) (r : CmdResponse)
| CallSched
| CallPing (key : Z).

Definition seq_call (id_base : Z) (c : SeqCall) : SeqM unit :=
  match c with
  | CallCmd op cmd_seq args => cs_cmd_in_handler wiring id_base op cmd_seq args
  | CallRun file => seq_run_in_handler wiring file
  | CallDispatch file => seq_dispatch_in_handler wiring file
  | CallCancel => seq_cancel_in_handler wiring
  | CallResponse op r => cmd_response_in_handler wiring op r
  | CallSched => sched_in_handler wiring
  | CallPing key => cs_ping_in_handler wiring key
  end.
Definition seq_call_ok (c : SeqCall) : Prop := match c with CallCmd _ _ args => wf args | _ => True end.
Definition taken (c : SeqCall) : list (Z * Z) := match c with CallCmd op cmd_seq _ => [(op, cmd_seq)] | _ => [] end.

(** Only a running sequence keeps a command waiting. *)
Record seq_inv (s : Sequencer) : Prop := { inv_base : seq_base s; inv_idle : run_mode s = Stopped → pending s = [] }.

(** The commands [k] are taken: each is answered or pending. *)
Record served (k : list (Z * Z)) (s s' : Sequencer) (o : list SeqOut) : Prop := {
  served_inv : seq_inv s';
  served_answers : answers o ++ pending s' ≡ₚ k ++ pending s;
}.

Lemma calm_served s s' o : calm s s' o → seq_inv s → served [] s s' o.
Proof.
  intros Hc [Hb Hi]. pose proof (calm_base _ _ _ Hc Hb). destruct Hc as (Hc & [A _ _] & _). split; [split; [done|]|].
  - rewrite (same_run _ _ Hc), (same_control_pending _ _ Hc). done.
  - by rewrite A, (same_control_pending _ _ Hc).
Qed.
Lemma served_trans k k' s1 s2 s3 o o' : served k s1 s2 o → served k' s2 s3 o' → served (k ++ k') s1 s3 (o ++ o').
Proof.
  intros [_ H1] [Hi H2]. split; [done|]. rewrite answers_app, <- (assoc_L (++)), H2, !(assoc_L (++)), (comm (++) (answers o)), <- (assoc_L (++)), H1.
  rewrite !(assoc_L (++)). by rewrite (comm (++) k').
Qed.
Lemma served_then k s1 s2 s3 o o' : served [] s1 s2 o → served k s2 s3 o' → served k s1 s3 (o ++ o').
Proof. apply (served_trans []). Qed.
Lemma served_answer op seq r s : seq_inv s → served [(op, seq)] s s [SeqResponse op seq r].
Proof. intros Hs. by split. Qed.
Lemma finished_served r s s' o : seq_base s' → finished r s s' o → served [] s s' o.
Proof. intros Hb []. split; [split; [done|]; by intros _|]. by rewrite fin_answers0, fin_pending0, app_nil_r. Qed.
Lemma performed_served com vs s s' o : seq_base s' → run_mode s = Running → performed com vs s s' o → served [] s s' o.
Proof. intros Hb Hr []. split; [split; [done|]; rewrite perf_run0; congruence|]. by rewrite perf_answers0, perf_pending0. Qed.

Lemma step_served s :
  seq_base s → run_mode s = Running → seq_left (cs_sequence s) ≠ [] → wp (perform_cmd_step wiring : SeqM unit) s (λ _ s' o, served [] s s' o).
Proof.
  intros Hb Hr Hl. destruct (seq_left (cs_sequence s)) as [|v vs] eqn:E; [done|]. eapply wp_mono; [by eapply perform_cmd_step_wp|].
  intros [] s' o [Hb' Hv]. destruct v; [by eapply finished_served|by eapply performed_served].
Qed.

Lemma start_auto_wp s :
  seq_base s → seq_left (cs_sequence s) ≠ [] → wp (start_auto wiring : SeqM unit) s (λ _ s' o, served [] (set_run_mode Running s) s' o).
Proof.
  intros Hb Hl. unfold start_auto. wp_steps. set (s1 := set_run_mode Running s). assert (seq_inv s1) as Hs1 by (split; [by destruct Hb|done]).
  apply wp_bind. eapply wp_mono; [apply current_sequence_wp|]. intros [] s2 o2 H2. pose proof (calm_served _ _ _ H2 Hs1) as S2.
  apply wp_bind. eapply wp_mono; [apply seq_start_wp|]. intros [] s3 o3 H3. pose proof (calm_served _ _ _ H3 (served_inv _ _ _ _ S2)) as S3.
  destruct H2 as (C2 & _ & Q2 & _), H3 as (C3 & _ & Q3 & _). eapply wp_mono; [apply step_served|].
  - apply S3.
  - by rewrite (same_run _ _ C3), (same_run _ _ C2).
  - by rewrite Q3, Q2.
  - intros [] s4 o4 S4. by do 2 (eapply served_then; [done|]).
Qed.

Lemma require_wp md s (Q : bool → Sequencer → list SeqOut → Prop) :
  (run_mode s = md → Q true s []) → (run_mode s ≠ md → Q false s [SeqLog CsInvalidMode]) → wp (require_run_mode md : SeqM bool) s Q.
Proof. intros H1 H2. unfold require_run_mode. wp_steps. case_bool_decide; [by apply H1|]. apply wp_bind, log_wp, wp_ret. by apply H2. Qed.

Lemma load_inv name s :
  seq_inv s → wp (cs_load_file name : SeqM bool) s (λ ok s' o, served [] s s' o ∧ same_control s s' ∧ silent o ∧
    if ok : bool then seq_left (cs_sequence s') ≠ [] ∧ seq_left (cs_sequence s') = seq_content (cs_sequence s') else seq_left (cs_sequence s') = []).
Proof.
  intros [Hb Hi]. eapply wp_mono; [by apply cs_load_wp|]. intros ok s' o (Hb' & Hc & Ho & Hok). split_and!; [|done..|].
  - split; [split; [done|]; rewrite (same_run _ _ Hc), (same_control_pending _ _ Hc); done|]. by rewrite (silent_answers _ Ho), (same_control_pending _ _ Hc).
  - destruct ok; [|apply Hok]. destruct Hok as [-> ?]. done.
Qed.

Lemma cs_run_wp op seq file block s : seq_inv s → wp (cs_run_handler wiring op seq file block : SeqM unit) s (λ _ s' o, served [(op, seq)] s s' o).
Proof.
  intros Hs. unfold cs_run_handler. apply wp_bind, require_wp; intros Hr; cbn [negb]; wp_steps.
  2:{ destruct (join_waiting s); cbn [when]; apply wp_bind; [apply log_wp|wp_steps]; apply answer_wp; by split. }
  destruct (bool_decide (block = Block) && bool_decide (step_mode s = StepManual)) eqn:Em; [apply wp_bind, log_wp, answer_wp; by split|]. wp_steps.
  set (s1 := set_caller op seq (set_block block s)). pose proof (inv_idle s Hs Hr) as Hp.
  assert (pending s1 = if bool_decide (block = Block) then [(op, seq)] else []) as Hp1.
  { unfold pending in *. cbn. destruct (join_waiting s); [by rewrite orb_true_r in Hp|]. by rewrite orb_false_r. }
  assert (seq_base s1) as Hb1 by (by destruct Hs as [[]]). apply wp_bind. eapply wp_mono; [by apply cs_load_wp|].
  intros ok s2 o2 (Hb2 & Hc2 & Ho2 & Hok). pose proof (same_control_pending _ _ Hc2) as Hp2. rewrite Hp1 in Hp2. destruct ok; cbn [negb]; wp_steps.
  2:{ apply answer_wp. assert (join_waiting s2 = false) as Hj.
      { rewrite (same_join _ _ Hc2). unfold pending in Hp. cbn. destruct (join_waiting s); [by rewrite orb_true_r in Hp|done]. }
      assert (pending (set_caller 0 0 (set_block NoBlock s2)) = []) as Hp' by (unfold pending; cbn; by rewrite Hj).
      split; [split; [by destruct Hb2|done]|]. by rewrite !answers_app, (silent_answers _ Ho2), Hp', Hp. }
  set (s3 := set_executed 0 s2). assert (seq_base s3) as Hb3 by (by destruct Hb2). apply wp_bind.
  eapply wp_mono with (Q := λ _ s' o, seq_inv s' ∧ answers o ++ pending s' ≡ₚ pending s1).
  { destruct (decide (step_mode s3 = StepAuto)) as [Ea|Ea]; [rewrite bool_decide_eq_true_2 by done|rewrite bool_decide_eq_false_2 by done]; cbn [when].
    - eapply wp_mono; [apply start_auto_wp; [done|cbn; by destruct Hok as [-> ?]]|]. intros [] s' o [Hi Ha]. split; [done|]. rewrite Ha. change (pending s2 ≡ₚ pending s1). by rewrite Hp1, Hp2.
    - wp_steps. assert (bool_decide (block = Block) = false) as Hbl.
      { destruct (bool_decide (block = Block)); [|done]. cbn in Em. apply bool_decide_eq_false in Em. cbn in Ea. rewrite (same_step _ _ Hc2) in Ea. cbn in Ea. by destruct (step_mode s). }
      rewrite Hbl in *. split; [split; [done|]; by intros _|]. cbn. change (pending s3) with (pending s2). by rewrite Hp1, Hp2. }
  intros [] s4 o4 [Hi4 Ha4]. rewrite Hp1 in Ha4. destruct block; cbn in Ha4 |- *.
  - wp_steps. split; [done|]. rewrite !answers_app, (silent_answers _ Ho2), Hp. cbn. by rewrite app_nil_r, Ha4.
  - apply answer_wp. split; [done|]. rewrite !answers_app, (silent_answers _ Ho2), Hp. cbn. rewrite <- (assoc_L (++)). cbn. rewrite <- Permutation_middle. by rewrite Ha4.
Qed.

Lemma cs_validate_wp op seq file s : seq_inv s → wp (cs_validate_handler wiring op seq file : SeqM unit) s (λ _ s' o, served [(op, seq)] s s' o).
Proof.
  intros Hs. unfold cs_validate_handler. apply wp_bind, require_wp; intros Hr; cbn [negb]; [|apply answer_wp; by split].
  apply wp_bind. eapply wp_mono; [by apply load_inv|]. intros ok s1 o1 (S1 & Hc & Ho & _). destruct ok; cbn [negb].
  - wp_steps. apply wp_bind, log_wp. apply answer_wp. eapply (served_then _ s s1 _ o1); [exact S1|].
    destruct S1 as [[Hb1 Hi1] _]. destruct (law_clear (cs_sequence s1)) as (L1 & L2 & L3); [apply law_usable, Hb1|].
    split; [|done]. split; [|done]. destruct Hb1. split; cbn; rewrite ?L3; done.
  - apply answer_wp. eapply (served_then _ s s1 _ o1); [exact S1|]. apply served_answer, S1.
Qed.

Lemma cancel_sequence_wp s : seq_inv s → wp (cancel_sequence wiring : SeqM unit) s (λ _ s' o, served [] s s' o).
Proof.
  intros Hs. unfold cancel_sequence. wp_steps. case_bool_decide; [|apply log_wp; by split].
  apply wp_bind. eapply wp_mono; [apply perform_cmd_cancel_wp, Hs|]. intros [] s1 o1 (Hb1 & Hf & _). wp_steps. apply wp_bind, log_wp. unfold tlm_u32. wp_steps.
  eapply served_then; [by eapply finished_served|]. split; [|done]. split; [by destruct Hb1|]. intros _. apply Hf.
Qed.

Lemma cs_start_wp op seq s : seq_inv s → wp (cs_start_handler wiring op seq : SeqM unit) s (λ _ s' o, served [(op, seq)] s s' o).
Proof.
  intros Hs. unfold cs_start_handler. wp_steps. rewrite law_has_more by apply Hs. case_bool_decide as Hl; cbn [negb]; [|apply wp_bind, log_wp, answer_wp; by split].
  apply wp_bind, require_wp; intros Hr; cbn [negb]; [|apply answer_wp; by split]. wp_steps. pose proof (inv_idle s Hs Hr) as Hp.
  set (s1 := set_run_mode Running (set_block NoBlock s)). assert (seq_inv s1) as Hs1 by (split; [by destruct Hs as [[]]|done]).
  assert (served [] s s1 []) as S1.
  { split; [done|]. rewrite Hp. unfold pending in *. cbn. destruct (join_waiting s); [by rewrite orb_true_r in Hp|done]. }
  apply wp_bind. eapply wp_mono; [apply current_sequence_wp|]. intros [] s2 o2 H2. pose proof (calm_served _ _ _ H2 Hs1) as S2. destruct H2 as (C2 & _ & Q2 & _).
  wp_steps. apply wp_bind, log_wp. apply wp_bind. eapply wp_mono; [apply step_served; [apply S2|by rewrite (same_run _ _ C2)|by rewrite Q2]|].
  intros [] s3 o3 S3. apply wp_bind. eapply wp_mono; [apply seq_start_wp|]. intros [] s4 o4 H4. pose proof (calm_served _ _ _ H4 (served_inv _ _ _ _ S3)) as S4.
  apply answer_wp. eapply (served_then _ s s1 s4 []); [done|]. eapply served_then; [exact S2|]. eapply (served_then _ s2 s2 s4 [_]); [apply calm_served; [done|apply S2]|].
  eapply served_then; [exact S3|]. eapply served_then; [exact S4|]. apply served_answer, S4.
Qed.

Lemma cs_step_wp op seq s : seq_inv s → wp (cs_step_handler wiring op seq : SeqM unit) s (λ _ s' o, served [(op, seq)] s s' o).
Proof.
  intros Hs. unfold cs_step_handler. apply wp_bind, require_wp; intros Hr; cbn [negb]; [|apply answer_wp; by split]. wp_steps.
  case_bool_decide; cbn [negb]; [|apply wp_bind, log_wp, answer_wp; by split]. rewrite law_has_more by apply Hs.
  case_bool_decide as Hl; cbn [negb]; [|apply wp_bind, log_wp, answer_wp; by split]. apply wp_bind. eapply wp_mono; [apply step_served; [apply Hs|done|done]|].
  intros [] s1 o1 S1. wp_steps. apply wp_bind. case_bool_decide; cbn [negb when]; [wp_steps|apply log_wp]; apply answer_wp; (eapply (served_then _ s s1 _ o1); [exact S1|]);
    split; try apply S1; done.
Qed.

Lemma cs_mode_wp md e op seq s :
  seq_inv s →
  wp (ok ← require_run_mode Stopped; if ok : bool then _ ← modify_state (set_step_mode md); _ ← seq_log e; seq_response wiring op seq CmdOk
      else seq_response wiring op seq ExecutionError : SeqM unit) s (λ _ s' o, served [(op, seq)] s s' o).
Proof.
  intros Hs. apply wp_bind, require_wp; intros Hr; cbn [negb]; [|apply answer_wp; by split]. wp_steps. apply wp_bind, log_wp, answer_wp.
  split; [|done]. split; [by destruct Hs as [[]]|apply Hs].
Qed.

Lemma cs_join_wait_wp op seq s : seq_inv s → wp (cs_join_wait_handler wiring op seq : SeqM unit) s (λ _ s' o, served [(op, seq)] s s' o).
Proof.
  intros Hs. unfold cs_join_wait_handler. wp_steps. case_bool_decide as Hr; cbn [negb]; [|apply wp_bind, log_wp, answer_wp; by split].
  destruct (_ || _) eqn:E; [apply wp_bind, log_wp, answer_wp; by split|]. wp_steps. apply wp_bind, log_wp. wp_steps.
  split; [split; [by destruct Hs as [[]]|cbn; congruence]|]. unfold pending. cbn. by rewrite orb_true_r, E.
Qed.

(** The file of a port call is loaded, or the sequence at hand is kept. *)
Lemma port_ready_wp file s :
  seq_inv s → run_mode s = Stopped →
  wp (if negb (bool_decide (as_bytes file = [])) then
        loaded ← cs_load_file (set_bytes (as_bytes file) (FwString_new FW_CMD_STRING_MAX_SIZE));
        if negb loaded then _ ← seq_done_unguarded wiring ExecutionError; mret false else mret true
      else if negb (seq_has_more_records (cs_sequence s)) then
        _ ← seq_log CsNoSequenceActive; _ ← seq_error; _ ← seq_done_unguarded wiring ExecutionError; mret false
      else mret true : SeqM bool) s
    (λ ready s' o, served [] s s' o ∧ same_control s s' ∧ coms o = [] ∧ CmdOk ∉ dones o ∧
       if ready : bool then seq_left (cs_sequence s') ≠ [] ∧ (seq_left (cs_sequence s) = seq_content (cs_sequence s) → seq_left (cs_sequence s') = seq_content (cs_sequence s')) else True).
Proof.
  intros Hs Hr. destruct (negb _).
  - apply wp_bind. eapply wp_mono; [by apply load_inv|]. intros ok s1 o1 (S1 & Hc & [_ C1 D1] & Hl).
    destruct ok; cbn [negb]; [wp_steps; rewrite app_nil_r, C1, D1; split_and!; [done|done|done|set_solver|apply Hl|by intros _; apply Hl]|].
    apply wp_bind, done_unguarded_wp, wp_ret. rewrite !coms_app, !dones_app, C1, D1. split_and!; [|done|done|set_solver|done].
    eapply served_then; [exact S1|]. split; [apply S1|done].
  - rewrite law_has_more by apply Hs. case_bool_decide; cbn [negb]; [wp_steps; split_and!; [by split|done|done|set_solver|done|done]|].
    apply wp_bind, log_wp, wp_bind. eapply wp_mono; [apply seq_error_wp|]. intros [] s1 o1 H1. pose proof (calm_served _ _ _ H1 Hs) as S1. destruct H1 as (C1 & [_ Q1 D1] & _).
    apply wp_bind, done_unguarded_wp, wp_ret. rewrite !coms_app, !dones_app, Q1, D1. split_and!; [|done|done|set_solver|done].
    eapply (served_then _ s s s1 [_]); [by split|]. eapply served_then; [exact S1|]. split; [apply S1|done].
Qed.

Lemma do_sequence_run_wp file s : seq_inv s → wp (do_sequence_run wiring file : SeqM unit) s (λ _ s' o, served [] s s' o).
Proof.
  intros Hs. unfold do_sequence_run. wp_steps. case_bool_decide; [apply wp_bind, log_wp, done_unguarded_wp; by split|].
  apply wp_bind, require_wp; intros Hr; cbn [negb]; [|apply done_unguarded_wp; by split].
  apply wp_bind. eapply wp_mono; [by apply port_ready_wp|]. intros ready s1 o1 (S1 & Hc1 & _ & _ & Hl). destruct ready; cbn [negb]; wp_steps; [destruct Hl as [Hl _]|by rewrite app_nil_r].
  pose proof (served_inv _ _ _ _ S1) as Hs1. assert (seq_base (set_executed 0 s1)) as Hb by (by destruct Hs1 as [[]]).
  assert (pending s1 = []) as Hp1 by (apply Hs1; by rewrite (same_run _ _ Hc1)).
  apply wp_bind. eapply wp_mono with (Q := λ _ s' o, served [] s1 s' o).
  { case_bool_decide; cbn [when]; [|wp_steps; split; [split; [done|by intros _]|done]].
    eapply wp_mono; [by apply start_auto_wp|]. intros [] s' o [Hi Ha]. split; [done|exact Ha]. }
  intros [] s2 o2 S2. wp_steps. apply log_wp. eapply (served_then _ s s1 _ o1); [exact S1|]. eapply served_then; [exact S2|]. split; [apply S2|done].
Qed.

(** The last record was answered. *)
Lemma complete_served s :
  seq_base s → wp (_ ← modify_state (set_run_mode Stopped); sequence_complete wiring : SeqM unit) s (λ _ s' o, seq_base s' ∧ finished CmdOk s s' o).
Proof.
  intros Hb. wp_steps. eapply wp_mono; [apply sequence_complete_wp; [by destruct Hb|done]|]. intros [] s' o [Hb' []]. split; [done|by split].
Qed.

(** Nothing that matters to the sequence happens. *)
Record kept (s s' : Sequencer) (o : list SeqOut) : Prop := {
  kept_run : run_mode s' = run_mode s;
  kept_step : step_mode s' = step_mode s;
  kept_pending : pending s' = pending s;
  kept_sequence : cs_sequence s' = cs_sequence s;
  kept_record : cs_record s' = cs_record s;
  kept_timer : cmd_timer s' = cmd_timer s;
  kept_silent : silent o;
}.
Lemma kept_performed com vs s1 s2 s3 o o' : kept s1 s2 o → performed com vs s2 s3 o' → performed com vs s1 s3 (o ++ o').
Proof. intros [E1 E2 E3 E4 E5 E6 [A C D]] []. split; rewrite ?answers_app, ?coms_app, ?dones_app, ?A, ?C, ?D; cbn [app]; congruence. Qed.
Lemma kept_finished r s1 s2 s3 o o' : kept s1 s2 o → finished r s2 s3 o' → finished r s1 s3 (o ++ o').
Proof. intros [E1 E2 E3 E4 E5 E6 [A C D]] []. split; rewrite ?answers_app, ?coms_app, ?dones_app, ?A, ?C, ?D; cbn [app]; try congruence. by rewrite <- E6. Qed.
Lemma kept_served s s' o : seq_inv s → seq_base s' → kept s s' o → served [] s s' o.
Proof. intros [_ Hi] Hb [E1 _ E3 _ _ _ [A _ _]]. split; [split; [done|]|]; [by rewrite E1, E3|by rewrite A, E3]. Qed.

(** What a response does to a running sequence. *)
Inductive responded (r : CmdResponse) (s s' : Sequencer) (o : list SeqOut) : Prop :=
| resp_end vs : r = CmdOk → seq_left (cs_sequence s) = VEnd :: vs → finished CmdOk s s' o → responded r s s' o
| resp_next rel sec usec com vs :
    r = CmdOk → seq_left (cs_sequence s) = VCommand rel sec usec com :: vs → performed com vs s s' o → responded r s s' o
| resp_last : r = CmdOk → seq_left (cs_sequence s) = [] → finished CmdOk s s' o → responded r s s' o
| resp_hold : step_mode s = StepManual → kept s s' o → responded r s s' o
| resp_error : r ≠ CmdOk → finished ExecutionError s s' o → timer_armed (cmd_timer s') = false → responded r s s' o.

Lemma response_running op r s :
  seq_base s → run_mode s = Running → wp (cmd_response_in_handler wiring op r : SeqM unit) s (λ _ s' o, seq_base s' ∧ responded r s s' o).
Proof.
  intros Hb Hr. unfold cmd_response_in_handler. wp_steps. rewrite bool_decide_eq_false_2 by (by rewrite Hr). wp_steps.
  set (s1 := set_timeout_timer _ s). assert (seq_base s1) as Hb1 by (by destruct Hb). case_bool_decide as Er; cbn [negb]; wp_steps.
  - unfold command_complete, tlm_u32. wp_steps. apply wp_bind, log_wp. wp_steps. set (s2 := set_total _ _). assert (seq_base s2) as Hb2 by (by destruct Hb1).
    assert (∀ e1 e2, kept s s2 ([SeqLog e1] ++ [SeqTlm CHANID_CS_COMMANDS_EXECUTED e2])) as Hk by done.
    rewrite (law_has_more _ (base_seq _ Hb2)). change (cs_sequence s2) with (cs_sequence s). change (step_mode s2) with (step_mode s).
    destruct (seq_left (cs_sequence s)) as [|v vs] eqn:El; cbn [negb bool_decide decide].
    + destruct (bool_decide (step_mode s = StepAuto)); (eapply wp_mono; [by apply complete_served|]); intros [] s' o [Hb' Hf]; (split; [done|]); apply resp_last; try done; by eapply kept_finished.
    + destruct (step_mode s) eqn:Es; [rewrite (bool_decide_eq_true_2 (StepAuto = StepAuto)) by done|rewrite (bool_decide_eq_false_2 (StepManual = StepAuto)) by done].
      * eapply wp_mono; [by eapply perform_cmd_step_wp|]. intros [] s' o [Hb' Hv]. split; [done|].
        destruct v; [eapply resp_end; try done; by eapply kept_finished|eapply resp_next; try done; by eapply kept_performed].
      * wp_steps. split; [done|]. by apply resp_hold.
  - unfold command_error. wp_steps. apply wp_bind, log_wp. eapply wp_mono; [apply seq_error_wp|]. intros [] s2 o2 H2. pose proof (calm_base _ _ _ H2 Hb1) as Hb2.
    eapply wp_mono; [by apply perform_cmd_cancel_wp|]. intros [] s3 o3 (Hb3 & Hf & Ha). split; [done|]. apply resp_error; [done| |done].
    destruct H2 as (C2 & So & Q2 & _). eapply (kept_finished _ s s2); [|exact Hf]. pose proof (same_control_pending _ _ C2). destruct C2. split; [done..|]. by apply (silent_app [_]).
Qed.

(** What a tick of the scheduler does. *)
Inductive ticked (s s' : Sequencer) (o : list SeqOut) : Prop :=
| tick_idle : kept s s' o → ticked s s' o
| tick_due :
    timer_armed (cmd_timer s) = true → timer_armed (cmd_timer s') = false → coms o = [as_slice (rec_command (cs_record s))] → answers o = [] → dones o = [] →
    run_mode s' = run_mode s → step_mode s' = step_mode s → pending s' = pending s → cs_sequence s' = cs_sequence s → ticked s s' o
| tick_timeout : finished ExecutionError s s' o → timer_armed (cmd_timer s') = false → ticked s s' o.

Lemma sched_wp s : seq_base s → wp (sched_in_handler wiring : SeqM unit) s (λ _ s' o, seq_base s' ∧ ticked s s' o).
Proof.
  intros Hb. unfold sched_in_handler. apply wp_bind, time_get_wp; [done|]. intros now s1 Hn Hb1 Hc1 Eq1 _ _. wp_steps. rewrite <- (same_timeout _ _ Hc1) in Hn.
  pose proof (same_control_pending _ _ Hc1) as Hp1. destruct (is_expired_at now (cmd_timer s1)) eqn:Ex.
  - unfold send_command. wp_steps. eapply wp_assert; [done|]. wp_steps. eapply wp_mono; [apply set_cmd_timeout_wp; [by destruct Hb1|done]|].
    intros [] s' o (-> & x & ->). split; [by destruct Hb1|]. unfold is_expired_at in Ex. apply andb_true_iff in Ex as [Ex _]. destruct Hc1. apply tick_due; try done; cbn; congruence.
  - apply wp_bind, time_get_wp; [done|]. intros now2 s2 Hn2 Hb2 Hc2 Eq2 _ _. wp_steps. pose proof (same_control_trans _ _ _ Hc1 Hc2) as Hc. pose proof (same_control_pending _ _ Hc).
    assert (∀ e, kept s s2 [SeqLog e]) as Hk by (intros e; destruct Hc; split; [..|done|done|done]; congruence).
    destruct (is_expired_at now2 (cmd_timeout_timer s2)); [|wp_steps; split; [done|]; apply tick_idle; by destruct (Hk CsInvalidMode)].
    apply wp_bind, log_wp. eapply wp_mono; [by apply perform_cmd_cancel_wp|]. intros [] s3 o3 (Hb3 & Hf & Ha). split; [done|]. apply tick_timeout; [|done]. by eapply (kept_finished _ s s2 _ [_]).
Qed.

(** The handler of a command whose arguments are well formed. *)
Inductive cs_command (op seq : Z) : SeqM unit → Prop :=
| cmd_run file block : cs_command op seq (cs_run_handler wiring op seq file block)
| cmd_validate file : cs_command op seq (cs_validate_handler wiring op seq file)
| cmd_cancel : cs_command op seq (cs_cancel_handler wiring op seq)
| cmd_start : cs_command op seq (cs_start_handler wiring op seq)
| cmd_step : cs_command op seq (cs_step_handler wiring op seq)
| cmd_auto : cs_command op seq (cs_auto_handler wiring op seq)
| cmd_manual : cs_command op seq (cs_manual_handler wiring op seq)
| cmd_join_wait : cs_command op seq (cs_join_wait_handler wiring op seq).

Lemma cmd_in_wp id_base op seq args s (Q : unit → Sequencer → list SeqOut → Prop) :
  wf args → (∀ r, Q tt s [SeqResponse op seq r]) → (∀ h, cs_command op seq h → wp h s Q) →
  wp (cs_cmd_in_handler wiring id_base op seq args : SeqM unit) s Q.
Proof.
  intros Hw Hr Hh.
  assert (∀ args' (h : SeqM unit), wf args' → wp h s Q → wp (n ← size_left args'; if negb (bool_decide (n = 0)) then seq_response wiring op seq CmdFormatError else h) s Q) as Hend.
  { intros args' h Hw' Hh'. apply size_left_wp; [done|]. destruct (negb _); [by apply answer_wp|done]. }
  unfold cs_cmd_in_handler. destruct (_ =? OPCODE_CS_RUN)%Z.
  { eapply on_args_wp; [apply string_deserialize_yields, string_new_ok|done|].
    destruct (string_deserialize_from Big _ args) as [[name|st|] args1]; [|by apply answer_wp..]. intros _ Hw1.
    eapply on_args_wp; [apply (yields_uint 1)|done|]. destruct (deserialize_u8 Big args1) as [[raw|st|] args2]; [|by apply answer_wp..]. intros _ Hw2. cbv beta iota.
    destruct (try_from raw : option BlockState) as [block|]; [|by apply answer_wp]. apply Hend; [done|]. apply Hh. constructor. }
  destruct (_ =? OPCODE_CS_VALIDATE)%Z.
  { eapply on_args_wp; [apply string_deserialize_yields, string_new_ok|done|].
    destruct (string_deserialize_from Big _ args) as [[name|st|] args1]; [|by apply answer_wp..]. intros _ Hw1. apply Hend; [done|]. apply Hh. constructor. }
  destruct (_ && _); [|by apply answer_wp]. apply Hend; [done|]. repeat case_match; apply Hh; constructor.
Qed.

Lemma command_served op seq h s : seq_inv s → cs_command op seq h → wp h s (λ _ s' o, served [(op, seq)] s s' o).
Proof.
  intros Hs Hh. destruct Hh; [by apply cs_run_wp|by apply cs_validate_wp| |by apply cs_start_wp|by apply cs_step_wp|by apply cs_mode_wp|by apply cs_mode_wp|by apply cs_join_wait_wp].
  unfold cs_cancel_handler. apply wp_bind. eapply wp_mono; [by apply cancel_sequence_wp|]. intros [] s1 o1 S1. apply answer_wp. eapply served_then; [exact S1|]. apply served_answer, S1.
Qed.

Lemma responded_served r s s' o : seq_inv s → run_mode s = Running → seq_base s' → responded r s s' o → served [] s s' o.
Proof. intros Hs Hr Hb []; [by eapply finished_served|by eapply performed_served|by eapply finished_served|by eapply kept_served|by eapply finished_served]. Qed.
Lemma ticked_served s s' o : seq_inv s → seq_base s' → ticked s s' o → served [] s s' o.
Proof.
  intros Hs Hb [|_ _ _ Ha _ Er _ Ep _|]; [by eapply kept_served| |by eapply finished_served]. destruct Hs as [_ Hi].
  split; [split; [done|by rewrite Er, Ep]|by rewrite Ha, Ep].
Qed.

Lemma seq_call_wp id_base c s : seq_inv s → seq_call_ok c → wp (seq_call id_base c) s (λ _ s' o, served (taken c) s s' o).
Proof.
  intros Hs Hc. destruct c; cbn [seq_call taken seq_call_ok] in *.
  - apply cmd_in_wp; [done|intros r; by apply served_answer|]. intros h Hh. by apply command_served.
  - by apply do_sequence_run_wp.
  - by apply do_sequence_run_wp.
  - by apply cancel_sequence_wp.
  - destruct (run_mode s) eqn:Hr.
    + unfold cmd_response_in_handler. wp_steps. rewrite bool_decide_eq_true_2 by done. apply log_wp. by split.
    + eapply wp_mono; [by apply response_running; [apply Hs|]|]. intros [] s' o [Hb' H']. by eapply responded_served.
  - eapply wp_mono; [apply sched_wp, Hs|]. intros [] s' o [Hb' H']. by apply ticked_served.
  - unfold cs_ping_in_handler. eapply wp_assert; [done|]. wp_steps. by split.
Qed.

Fixpoint seq_calls (id_base : Z) (cs : list SeqCall) : SeqM unit :=
  match cs with [] => mret tt | c :: cs => _ ← seq_call id_base c; seq_calls id_base cs end.

Lemma seq_calls_wp id_base cs : ∀ s, seq_inv s → Forall seq_call_ok cs → wp (seq_calls id_base cs) s (λ _ s' o, served (cs ≫= taken) s s' o).
Proof.
  induction cs as [|c cs IH]; intros s Hs Hc; cbn [seq_calls]; [wp_steps; by split|]. apply Forall_cons in Hc as [Hc Hcs].
  apply wp_bind. eapply wp_mono; [by apply seq_call_wp|]. intros [] s1 o1 S1. eapply wp_mono; [apply IH; [apply S1|done]|]. intros [] s2 o2 S2.
  cbn. by eapply served_trans.
Qed.

(** ** A running sequence *)

(** The commands not sent yet, the one that waits for its time first. *)
Definition owed (s : Sequencer) : list (list Z) :=
  (if timer_armed (cmd_timer s) then [as_slice (rec_command (cs_record s))] else []) ++ commands (seq_left (cs_sequence s)).

Definition is_response (c : SeqCall) : bool := match c with CallResponse _ _ => true | _ => false end.

(** One call of a running sequence in automatic mode: the commands sent are
    the next ones owed, and [CmdOk] is reported when none is left. *)
Record progress (resp : bool) (s s' : Sequencer) (o : list SeqOut) : Prop := {
  prog_inv : seq_inv s';
  prog_on : run_mode s' = Running →
    step_mode s' = StepAuto ∧ seq_content (cs_sequence s') = seq_content (cs_sequence s) ∧ coms o ++ owed s' = owed s ∧ CmdOk ∉ dones o ∧
    (if timer_armed (cmd_timer s') then 0 else 1) = (if resp || timer_armed (cmd_timer s) then 0 else 1) + length (coms o);
  prog_off : run_mode s' = Stopped → step_mode s' = step_mode s ∧ timer_armed (cmd_timer s') = false ∧ seq_left (cs_sequence s') = seq_content (cs_sequence s') ∧ coms o = [] ∧ (CmdOk ∈ dones o → owed s = []);
}.

Lemma kept_progress s s' o :
  seq_inv s' → run_mode s' = run_mode s → run_mode s = Running → step_mode s' = step_mode s → step_mode s = StepAuto → cs_sequence s' = cs_sequence s → cs_record s' = cs_record s → cmd_timer s' = cmd_timer s →
  coms o = [] → CmdOk ∉ dones o → progress false s s' o.
Proof.
  intros Hi Er Hr Est Ha Eq Erec Et Ec Hd. split; [done| |congruence]. intros _. unfold owed. rewrite Est, Eq, Erec, Et, Ec. split_and!; done.
Qed.
Lemma stopped_progress resp s s' o :
  seq_inv s' → run_mode s' = Stopped → step_mode s' = step_mode s → timer_armed (cmd_timer s') = false → seq_left (cs_sequence s') = seq_content (cs_sequence s') → coms o = [] → CmdOk ∉ dones o → progress resp s s' o.
Proof. intros Hi Hr Hs Ht El Ec Ed. split; [done|congruence|done]. Qed.
Lemma aborted_progress resp s s' o :
  seq_inv s' → finished ExecutionError s s' o → timer_armed (cmd_timer s') = false → progress resp s s' o.
Proof. intros Hi [] Ht. apply stopped_progress; try done. rewrite fin_dones0. by intros ?%list_elem_of_singleton. Qed.

Lemma responded_progress r s s' o :
  seq_inv s → seq_base s' → run_mode s = Running → step_mode s = StepAuto → timer_armed (cmd_timer s) = false → responded r s s' o → progress true s s' o.
Proof.
  intros Hs Hb Hr Ha Ht Hrsp. pose proof (served_inv _ _ _ _ (responded_served _ _ _ _ Hs Hr Hb Hrsp)) as Hi.
  destruct Hrsp as [vs _ El []|rel sec usec com vs _ El []|_ El []|Hman _|_ Hf Ht'].
  - split; [done|congruence|]. intros _. unfold owed. rewrite Ht, El. auto.
  - split; [done| |congruence]. intros _. unfold owed. rewrite perf_record0, perf_left0, perf_dones0, Ht, El, perf_content0. cbn [app commands].
    destruct perf_coms0 as [[-> ->]|[-> ->]]; rewrite ?Ht; split_and!; try done; try congruence; set_solver.
  - split; [done|congruence|]. intros _. unfold owed. rewrite Ht, El. auto.
  - congruence.
  - by apply aborted_progress.
Qed.

Lemma ticked_progress s s' o :
  seq_inv s → seq_base s' → run_mode s = Running → step_mode s = StepAuto → ticked s s' o → progress false s s' o.
Proof.
  intros Hs Hb Hr Ha Hk. pose proof (served_inv _ _ _ _ (ticked_served _ _ _ Hs Hb Hk)) as Hi.
  destruct Hk as [[? ? ? ? ? ? [? ? ?]]|Ht Ht' Ec _ Ed Er Es _ Eq|Hf Ht'].
  - apply kept_progress; try done. rewrite silent_dones0. set_solver.
  - split; [done| |congruence]. intros _. unfold owed. rewrite Ht, Ht', Ec, Ed, Eq. split_and!; try done; try congruence. set_solver.
  - by apply aborted_progress.
Qed.

Lemma cancel_progress s :
  seq_inv s → run_mode s = Running →
  wp (cancel_sequence wiring : SeqM unit) s (λ _ s' o, run_mode s' = Stopped ∧ step_mode s' = step_mode s ∧ timer_armed (cmd_timer s') = false ∧ seq_left (cs_sequence s') = seq_content (cs_sequence s') ∧ coms o = [] ∧ CmdOk ∉ dones o).
Proof.
  intros Hs Hr. unfold cancel_sequence. wp_steps. rewrite bool_decide_eq_true_2 by done. apply wp_bind. eapply wp_mono; [apply perform_cmd_cancel_wp, Hs|].
  intros [] s1 o1 (_ & [] & Ht). wp_steps. apply wp_bind, log_wp. unfold tlm_u32. wp_steps. rewrite !coms_app, !dones_app, fin_coms0, fin_dones0. split_and!; try done. set_solver.
Qed.

(** While a sequence runs, a command can only cancel it or wait for it. *)
Lemma running_command op seq h s :
  seq_inv s → run_mode s = Running → step_mode s = StepAuto → cs_command op seq h → wp h s (λ _ s' o, seq_inv s' → progress false s s' o).
Proof.
  intros Hs Hr Ha Hh. assert (∀ o, coms o = [] → dones o = [] → progress false s s o) as Hstay.
  { intros o Hc Hd. apply kept_progress; try done. rewrite Hd. set_solver. }
  destruct Hh.
  - unfold cs_run_handler. apply wp_bind, require_wp; intros E; [congruence|]. cbn [negb]. wp_steps.
    destruct (join_waiting s); cbn [when]; apply wp_bind; [apply log_wp|wp_steps]; apply answer_wp; intros _; by apply Hstay.
  - unfold cs_validate_handler. apply wp_bind, require_wp; intros E; [congruence|]. apply answer_wp. intros _. by apply Hstay.
  - unfold cs_cancel_handler. apply wp_bind. eapply wp_mono; [by apply cancel_progress|]. intros [] s1 o1 (E1 & Es & E2 & E0 & E3 & E4). apply answer_wp. intros Hi.
    apply stopped_progress; try done; [by rewrite coms_app, E3|]. rewrite dones_app. set_solver.
  - unfold cs_start_handler. wp_steps. destruct (negb _); [apply wp_bind, log_wp, answer_wp; intros _; by apply Hstay|].
    apply wp_bind, require_wp; intros E; [congruence|]. apply answer_wp. intros _. by apply Hstay.
  - unfold cs_step_handler. apply wp_bind, require_wp; intros E; [|congruence]. cbn [negb]. wp_steps. rewrite Ha. apply wp_bind, log_wp, answer_wp. intros _. by apply Hstay.
  - unfold cs_auto_handler. apply wp_bind, require_wp; intros E; [congruence|]. apply answer_wp. intros _. by apply Hstay.
  - unfold cs_manual_handler. apply wp_bind, require_wp; intros E; [congruence|]. apply answer_wp. intros _. by apply Hstay.
  - unfold cs_join_wait_handler. wp_steps. rewrite bool_decide_eq_true_2 by done. cbn [negb]. destruct (_ || _); [apply wp_bind, log_wp, answer_wp; intros _; by apply Hstay|].
    wp_steps. apply wp_bind, log_wp. wp_steps. intros Hi. apply kept_progress; try done. set_solver.
Qed.

Lemma running_call id_base c s :
  seq_inv s → seq_call_ok c → run_mode s = Running → step_mode s = StepAuto → (is_response c = true → timer_armed (cmd_timer s) = false) →
  wp (seq_call id_base c) s (λ _ s' o, progress (is_response c) s s' o).
Proof.
  intros Hs Hc Hr Ha Hresp'. assert (∀ o, coms o = [] → CmdOk ∉ dones o → progress false s s o) as Hstay by (intros; by apply kept_progress).
  assert (wp (seq_call id_base c) s (λ _ s' o, seq_inv s' → progress (is_response c) s s' o)) as Hp.
  { destruct c; cbn [seq_call is_response seq_call_ok] in *.
    - apply cmd_in_wp; [done|intros r _; apply Hstay; set_solver|]. intros h Hh. by eapply running_command.
    - unfold seq_run_in_handler, do_sequence_run. wp_steps. rewrite bool_decide_eq_false_2 by congruence. apply wp_bind, require_wp; intros E; [congruence|].
      apply done_unguarded_wp. intros _. apply Hstay; set_solver.
    - unfold seq_dispatch_in_handler, do_sequence_run. wp_steps. rewrite bool_decide_eq_false_2 by congruence. apply wp_bind, require_wp; intros E; [congruence|].
      apply done_unguarded_wp. intros _. apply Hstay; set_solver.
    - eapply wp_mono; [by apply cancel_progress|]. intros [] s1 o1 (E1 & Es & E2 & E0 & E3 & E4) Hi. by apply stopped_progress.
    - eapply wp_mono; [by apply response_running; [apply Hs|]|]. intros [] s' o [Hb' H'] _. eapply responded_progress; eauto.
    - eapply wp_mono; [apply sched_wp, Hs|]. intros [] s' o [Hb' H'] _. by apply ticked_progress.
    - unfold cs_ping_in_handler. eapply wp_assert; [done|]. wp_steps. intros _. apply Hstay; set_solver. }
  eapply wp_mono; [apply wp_and; [by apply seq_call_wp|exact Hp]|]. intros [] s' o [S' H']. apply H', S'.
Qed.

(** ** The start of a sequence *)

Record ready (s : Sequencer) : Prop := {
  ready_inv : seq_inv s;
  ready_run : run_mode s = Stopped;
  ready_step : step_mode s = StepAuto;
  ready_timer : timer_armed (cmd_timer s) = false;
  ready_rewound : seq_left (cs_sequence s) = seq_content (cs_sequence s);
}.

(** The commands sent and the commands owed are those of the sequence. *)
Record begun (s' : Sequencer) (o : list SeqOut) : Prop := {
  begun_step : step_mode s' = StepAuto;
  begun_commands : coms o ++ owed s' = commands (seq_content (cs_sequence s'));
  begun_dones : CmdOk ∉ dones o;
  begun_count : (if timer_armed (cmd_timer s') then 0 else 1) = length (coms o);
}.
Lemma begun_app s' o1 o o2 : coms o1 = [] → coms o2 = [] → CmdOk ∉ dones o1 → CmdOk ∉ dones o2 → begun s' o → begun s' (o1 ++ o ++ o2).
Proof. intros C1 C2 D1 D2 []. split; rewrite ?coms_app, ?dones_app, ?C1, ?C2, ?app_nil_r; try done. set_solver. Qed.

Lemma step_begun s :
  seq_base s → run_mode s = Running → step_mode s = StepAuto → timer_armed (cmd_timer s) = false → seq_left (cs_sequence s) = seq_content (cs_sequence s) → seq_content (cs_sequence s) ≠ [] →
  wp (perform_cmd_step wiring : SeqM unit) s (λ _ s' o, run_mode s' = Running → begun s' o).
Proof.
  intros Hb Hr Ha Ht El Hne. destruct (seq_content (cs_sequence s)) as [|v vs] eqn:Ec; [done|]. eapply wp_mono; [by apply perform_cmd_step_wp|].
  intros [] s' o [Hb' Hv] Hr'. destruct v; [destruct Hv; congruence|]. destruct Hv. unfold owed in *.
  destruct perf_coms0 as [[E E']|[E E']]; split; unfold owed; rewrite ?perf_content0, ?E, ?E', ?Ht, ?perf_left0, ?perf_record0, ?perf_dones0, ?Ec; try done; try congruence; set_solver.
Qed.

Lemma start_auto_begun s :
  seq_base s → step_mode s = StepAuto → timer_armed (cmd_timer s) = false → seq_left (cs_sequence s) = seq_content (cs_sequence s) → seq_content (cs_sequence s) ≠ [] →
  wp (start_auto wiring : SeqM unit) s (λ _ s' o, run_mode s' = Running → begun s' o).
Proof.
  intros Hb Ha Ht El Hne. unfold start_auto. wp_steps. set (s1 := set_run_mode Running s). assert (seq_base s1) as Hb1 by (by destruct Hb).
  apply wp_bind. eapply wp_mono; [apply current_sequence_wp|]. intros [] s2 o2 H2. pose proof (calm_base _ _ _ H2 Hb1) as Hb2.
  apply wp_bind. eapply wp_mono; [apply seq_start_wp|]. intros [] s3 o3 H3. pose proof (calm_base _ _ _ H3 Hb2) as Hb3.
  destruct H2 as (C2 & [_ Ec2 Ed2] & Q2 & _), H3 as (C3 & [_ Ec3 Ed3] & Q3 & _). pose proof (same_control_trans _ _ _ C2 C3) as [Er Es _ _ _ _ Et _ _ _].
  eapply wp_mono; [apply step_begun; rewrite ?Q3, ?Q2, ?Er, ?Es, ?Et; done|]. intros [] s4 o4 H4 Hr4.
  rewrite (assoc_L (++)), <- (app_nil_r ((o2 ++ o3) ++ o4)), <- (assoc_L (++)).
  apply begun_app; rewrite ?coms_app, ?dones_app, ?Ec2, ?Ec3, ?Ed2, ?Ed3; try done; [set_solver|set_solver|]. by apply H4.
Qed.

Lemma cs_run_begun op seq file block s :
  ready s → wp (cs_run_handler wiring op seq file block : SeqM unit) s (λ _ s' o, run_mode s' = Running → begun s' o).
Proof.
  intros [Hs Hr Ha Ht El]. unfold cs_run_handler. apply wp_bind, require_wp; intros E; [|congruence]. cbn [negb]. wp_steps.
  rewrite Ha, (bool_decide_eq_false_2 (StepAuto = StepManual)), andb_false_r by done. wp_steps. set (s1 := set_caller op seq (set_block block s)).
  assert (seq_base s1) as Hb1 by (by destruct Hs as [[]]). apply wp_bind. eapply wp_mono; [by apply cs_load_wp|].
  intros ok s2 o2 (Hb2 & Hc2 & [_ Ec2 Ed2] & Hok). destruct ok; cbn [negb]; wp_steps; [|apply answer_wp; intros Hr'; cbn in Hr'; rewrite (same_run _ _ Hc2) in Hr'; cbn in Hr'; congruence].
  destruct Hok as [Hl2 Hne2]. rewrite (bool_decide_eq_true_2 (step_mode _ = StepAuto)) by (cbn; by rewrite (same_step _ _ Hc2)). cbn [when]. apply wp_bind.
  eapply wp_mono; [apply start_auto_begun; try done; [by destruct Hb2|cbn; by rewrite (same_step _ _ Hc2)|cbn; by rewrite (same_timer _ _ Hc2)]|].
  intros [] s3 o3 H3. case_bool_decide; cbn [when].
  - apply answer_wp. intros Hr3. eapply (begun_app _ o2); rewrite ?Ec2, ?Ed2; try done; [set_solver|set_solver|]. by apply H3.
  - wp_steps. intros Hr3. eapply (begun_app _ o2); rewrite ?Ec2, ?Ed2; try done; [set_solver|set_solver|]. by apply H3.
Qed.

Lemma do_sequence_run_begun file s : ready s → wp (do_sequence_run wiring file : SeqM unit) s (λ _ s' o, run_mode s' = Running → begun s' o).
Proof.
  intros [Hs Hr Ha Ht El]. unfold do_sequence_run. wp_steps. rewrite bool_decide_eq_false_2 by congruence.
  apply wp_bind, require_wp; intros E; [|congruence]. cbn [negb]. apply wp_bind. eapply wp_mono; [by apply port_ready_wp|].
  intros rd s1 o1 (S1 & Hc1 & C1 & D1 & Hl). destruct rd; cbn [negb]; wp_steps; [|rewrite (same_run _ _ Hc1); congruence]. destruct Hl as [Hne Hl].
  rewrite (bool_decide_eq_true_2 (step_mode _ = StepAuto)) by (cbn; by rewrite (same_step _ _ Hc1)). cbn [when]. apply wp_bind.
  eapply wp_mono; [apply start_auto_begun; [by destruct S1 as [[[]]]|cbn; by rewrite (same_step _ _ Hc1)|cbn; by rewrite (same_timer _ _ Hc1)|by apply Hl|cbn; by rewrite <- Hl]|].
  intros [] s2 o2 H2. wp_steps. apply log_wp. intros Hr2. eapply (begun_app _ o1); [done|done|done|set_solver|]. by apply H2.
Qed.

Lemma cs_start_begun op seq s : ready s → wp (cs_start_handler wiring op seq : SeqM unit) s (λ _ s' o, run_mode s' = Running → begun s' o).
Proof.
  intros [Hs Hr Ha Ht El]. unfold cs_start_handler. wp_steps. rewrite law_has_more by apply Hs. case_bool_decide as Hl; cbn [negb]; [|apply wp_bind, log_wp, answer_wp; congruence].
  apply wp_bind, require_wp; intros E; [|congruence]. cbn [negb]. wp_steps. set (s1 := set_run_mode Running (set_block NoBlock s)). assert (seq_base s1) as Hb1 by (by destruct Hs as [[]]).
  apply wp_bind. eapply wp_mono; [apply current_sequence_wp|]. intros [] s2 o2 H2. pose proof (calm_base _ _ _ H2 Hb1) as Hb2. destruct H2 as (C2 & [_ Ec2 Ed2] & Q2 & _).
  wp_steps. apply wp_bind, log_wp, wp_bind. pose proof C2 as [Er Es _ _ _ _ Et _ _ _].
  eapply wp_mono; [apply step_begun; rewrite ?Q2, ?Er, ?Es, ?Et; try done; cbn; by rewrite <- El|]. intros [] s3 o3 H3.
  apply wp_bind. eapply wp_mono; [apply seq_start_wp|]. intros [] s4 o4 H4. apply answer_wp. intros Hr4. destruct H4 as (C4 & [_ Ec4 Ed4] & Q4 & _).
  assert (begun s4 o3) as [] by (destruct H3 as [H31 H32 H33 H34]; [by rewrite <- (same_run _ _ C4)|]; destruct C4 as [_ Es4 _ _ _ _ Et4 _ Erec4 _]; split; unfold owed in *; rewrite ?Q4, ?Es4, ?Et4, ?Erec4; done).
  split; rewrite ?coms_app, ?dones_app, ?Ec2, ?Ec4, ?app_nil_r; try done. rewrite Ed2, Ed4, app_nil_r. done.
Qed.

(** From a sequencer at rest, a call that leaves it running began a sequence. *)
Lemma start_call id_base c s : ready s → seq_call_ok c → wp (seq_call id_base c) s (λ _ s' o, run_mode s' = Running → begun s' o).
Proof.
  intros Hrd Hc. pose proof Hrd as [Hs Hr Ha Ht El]. destruct c; cbn [seq_call seq_call_ok] in *.
  - apply cmd_in_wp; [done|congruence|]. intros h Hh. destruct Hh.
    + by apply cs_run_begun.
    + unfold cs_validate_handler. apply wp_bind, require_wp; intros E; [|congruence]. cbn [negb]. apply wp_bind. eapply wp_mono; [apply cs_load_wp, Hs|].
      intros ok s1 o1 (_ & Hc1 & _). destruct ok; cbn [negb]; wp_steps; [apply wp_bind, log_wp|]; apply answer_wp; cbn; rewrite (same_run _ _ Hc1); congruence.
    + unfold cs_cancel_handler, cancel_sequence. apply wp_bind. wp_steps. rewrite bool_decide_eq_false_2 by congruence. apply log_wp, answer_wp. congruence.
    + by apply cs_start_begun.
    + unfold cs_step_handler. apply wp_bind, require_wp; intros E; [congruence|]. apply answer_wp. congruence.
    + unfold cs_auto_handler. apply wp_bind, require_wp; intros E; [|congruence]. wp_steps. apply wp_bind, log_wp, answer_wp. cbn. congruence.
    + unfold cs_manual_handler. apply wp_bind, require_wp; intros E; [|congruence]. wp_steps. apply wp_bind, log_wp, answer_wp. cbn. congruence.
    + unfold cs_join_wait_handler. wp_steps. rewrite bool_decide_eq_false_2 by congruence. cbn [negb]. apply wp_bind, log_wp, answer_wp. congruence.
  - by apply do_sequence_run_begun.
  - by apply do_sequence_run_begun.
  - unfold seq_cancel_in_handler, cancel_sequence. wp_steps. rewrite bool_decide_eq_false_2 by congruence. apply log_wp. congruence.
  - unfold cmd_response_in_handler. wp_steps. rewrite bool_decide_eq_true_2 by done. apply log_wp. congruence.
  - eapply wp_mono; [apply sched_wp, Hs|]. intros [] s' o [_ [[]| |[]]] Hr'; congruence.
  - unfold cs_ping_in_handler. eapply wp_assert; [done|]. wp_steps. congruence.
Qed.

(** ** Whole runs *)

(** A run of a sequence: calls of every kind while it runs, a response only
    while a command is out; [n] commands are out before and [n'] after. *)
Inductive driven (id_base : Z) : nat → Sequencer → nat → Sequencer → list SeqOut → Prop :=
| driven_nil n s : driven id_base n s n s []
| driven_call n c s s1 o1 n' s' o :
    run_mode s = Running → seq_call_ok c → (if is_response c then 0 < n else True) → seq_call id_base c s = Ret (tt, s1, o1) →
    driven id_base (n - (if is_response c then 1 else 0) + length (coms o1)) s1 n' s' o →
    driven id_base n s n' s' (o1 ++ o).

Lemma driven_in_order id_base n s n' s' o :
  driven id_base n s n' s' o → seq_inv s → run_mode s = Running → step_mode s = StepAuto → n = (if timer_armed (cmd_timer s) then 0 else 1) →
  n' ≤ 1 ∧ coms o `prefix_of` owed s ∧ (CmdOk ∈ dones o → coms o = owed s) ∧
  (if bool_decide (run_mode s' = Stopped) then ready s' else seq_inv s' ∧ coms o ++ owed s' = owed s).
Proof.
  intros Hd. induction Hd as [n s|n c s s1 o1 n' s' o Hr Hc Hresp' E Hd IH]; intros Hs Hr' Ha Hn.
  { rewrite bool_decide_eq_false_2 by congruence. split_and!; [destruct (timer_armed _); lia|apply prefix_nil|set_solver|done|done]. }
  assert (progress (is_response c) s s1 o1) as [Hi Hon Hoff].
  { assert (wp (seq_call id_base c) s (λ _ s' o, progress (is_response c) s s' o)) as Hw; [|unfold wp in Hw; by rewrite E in Hw].
    apply running_call; try done. intros Ec. rewrite Ec, Hn in Hresp'. destruct (timer_armed _); [lia|done]. }
  destruct (run_mode s1) eqn:E1.
  - destruct (Hoff eq_refl) as (Es & Et & El & Ec & Ed). inversion Hd; subst; [|congruence]. rewrite app_nil_r, Ec. rewrite bool_decide_eq_true_2 by done.
    split_and!; [|apply prefix_nil|intros Hin; symmetry; by apply Ed|by split; try congruence]. cbn. destruct (timer_armed _), (is_response c); lia.
  - destruct (Hon eq_refl) as (Es & Ect & Eo & Ed & Ek). destruct IH as (H1 & H2 & H3 & H4); [done..| |].
    { rewrite Ek, Hn. rewrite Hn in Hresp'. destruct (is_response c), (timer_armed (cmd_timer s)); cbn; lia. }
    rewrite coms_app, dones_app, <- Eo. split_and!; [done|by apply prefix_app| |].
    + intros [?|Hin]%elem_of_app; [done|]. by rewrite H3.
    + destruct (bool_decide _); [done|]. split; [apply H4|]. rewrite <- (assoc_L (++)). f_equal. apply H4.
Qed.

(** A component at its start: a usable format, its files and its clock. *)
Record start_ok (timeout : Z) (format : T) (w : World) (times : list Time) : Prop := {
  start_format : seq_ok format;
  start_empty : seq_content format = [];
  start_files : seq_files_ok m w;
  start_times : Forall (reading_ok timeout) (Time_ZERO :: times);
  start_timeout : is_u 32 timeout;
}.
Lemma start_ready timeout format w times : start_ok timeout format w times → ready (set_timeout timeout (CmdSequencer_new format w times)).
Proof.
  intros []. split; try done.
  - split; [|done]. split; cbn; try done. by rewrite start_empty0.
  - cbn. destruct (law_views format) as [_ (d & Hd)]; [done|]. rewrite start_empty0 in *. by destruct d, (seq_left format).
Qed.

(** C16. Whatever calls a sequencer takes, in any order — commands with any
    arguments, runs and cancels by port, responses (also unexpected ones),
    ticks and pings — it does not panic, and every command it took is
    answered once or waits for the sequence that is running.  This is for
    files that hold anything but a time tag of a million microseconds or more
    (on which a load fail-stops) or a relative time tag of more than [m]
    seconds, for clock readings to which [m] and the timeout can be added in 32
    bits when overflow is checked, and with the command response, command,
    sequence-done and ping ports connected. *)
Theorem sequencer_answers_once timeout format w times id_base calls :
  start_ok timeout format w times → Forall seq_call_ok calls →
  ∃ s o, seq_calls id_base calls (set_timeout timeout (CmdSequencer_new format w times)) = Ret (tt, s, o) ∧
    answers o ++ pending s ≡ₚ calls ≫= taken ∧ (run_mode s = Stopped → pending s = []).
Proof.
  intros Hst Hc. assert (ready (set_timeout timeout (CmdSequencer_new format w times))) as [Hs _ _ _ _] by (by apply start_ready).
  pose proof (seq_calls_wp id_base calls _ Hs Hc) as Hw. apply wp_returns in Hw as ([] & s & o & E & [Hi Ha]). exists s, o. split; [done|].
  split; [|apply Hi]. by rewrite Ha, app_nil_r.
Qed.

(** C15. A sequence sends its commands in order, one at a time, as long as
    responses come only for commands that are out.  From a
    sequencer at rest in automatic mode, let a call begin a sequence and let
    it run under calls of every kind, except that a response comes only while a
    command is out ([driven]; the sequencer does not match a response with its
    command, and one that comes early makes it repeat a command, see
    [late_response_repeats_a_command]): the commands sent are the first ones of
    the loaded sequence, at
    most one is out at any time, success is reported only when all commands
    before the end record were sent, and when the run stops, for whatever
    reason, the sequencer is at rest again. *)
Theorem sequence_in_order id_base c s0 s1 o1 n s2 o2 :
  ready s0 → seq_call_ok c → seq_call id_base c s0 = Ret (tt, s1, o1) → run_mode s1 = Running → driven id_base (length (coms o1)) s1 n s2 o2 →
  let all := commands (seq_content (cs_sequence s1)) in
  n ≤ 1 ∧ coms (o1 ++ o2) `prefix_of` all ∧ (CmdOk ∈ dones (o1 ++ o2) → coms (o1 ++ o2) = all) ∧
  (if bool_decide (run_mode s2 = Stopped) then ready s2 else coms (o1 ++ o2) ++ owed s2 = all).
Proof.
  intros Hrd Hc E Hr Hd. assert (begun s1 o1) as [Ha Hall Hdn Hk].
  { pose proof (start_call id_base c s0 Hrd Hc) as Hw. unfold wp in Hw. rewrite E in Hw. by apply Hw. }
  assert (seq_inv s1) as Hi by (pose proof (seq_call_wp id_base c s0 (ready_inv _ Hrd) Hc) as Hw; unfold wp in Hw; rewrite E in Hw; apply Hw).
  destruct (driven_in_order _ _ _ _ _ _ Hd Hi Hr Ha (eq_sym Hk)) as (H1 & H2 & H3 & H4). cbn zeta. rewrite <- Hall, coms_app, dones_app.
  split_and!; [done|by apply prefix_app| |].
  - intros [?|Hin]%elem_of_app; [done|]. by rewrite H3.
  - destruct (bool_decide _); [done|]. rewrite <- (assoc_L (++)). f_equal. apply H4.
Qed.
End runs.

(** * A run of the demonstration file *)

Definition all_ports : SeqWiring := MkSeqWiring true true true true true.
Definition demo_sequencer : CmdSequencer FPrimeSequence := set_timeout 10 (CmdSequencer_new demo_format demo_world []).
Definition demo_name : FwString := set_bytes (str "/seq") (FwString_new FW_CMD_STRING_MAX_SIZE).
(** The arguments of [CS_RUN]: the file name and a blocking mode. *)
Definition run_args (block : BlockState) : serbuf := let bs := [0; 4]%Z ++ str "/seq" ++ [BlockState_repr block] in SerBuf bs (length bs) 0.

Lemma demo_start_ok : let P := true : BuildProfile in start_ok (T := FPrimeSequence) 0 10 demo_format demo_world [].
Proof.
  intros P. split; [apply demo_format_ok|apply demo_format_ok|apply demo_world_ok| |unfold is_u; lia].
  repeat constructor; cbn; unfold is_u; lia.
Qed.
Lemma run_args_ok block : wf (run_args block).
Proof. apply (bool_decide_unpack _). destruct block; vm_compute; exact I. Qed.

Lemma sequencer_answers_once_witness :
  let P := true : BuildProfile in
  let calls := [CallCmd 0 7 (run_args Block); CallPing 5; CallCmd 7 8 (SerBuf [] 0 0); CallResponse 1 CmdOk; CallCmd 3 9 (SerBuf [1]%Z 1 0); CallSched; CallResponse 2 CmdOk; CallResponse 2 CmdOk; CallCmd 9 1 (SerBuf [] 0 0)] in
  ∃ s o, seq_calls all_ports 0 calls demo_sequencer = Ret (tt, s, o) ∧
    answers o ++ pending s ≡ₚ [(0, 7); (7, 8); (3, 9); (9, 1)]%Z ∧ dones o = [CmdOk] ∧ pending s = [].
Proof.
  intros P calls. destruct (sequencer_answers_once (T := FPrimeSequence) all_ports 0 eq_refl eq_refl eq_refl eq_refl ltac:(lia) 10 demo_format demo_world [] 0 calls) as (s & o & E & Ha & Hp).
  - apply demo_start_ok.
  - repeat constructor; cbn; lia.
  - exists s, o. split; [exact E|]. split; [exact Ha|]. vm_compute in E. injection E as <- <-. done.
Defined.

(** What a call of the demonstration does. *)
Definition after `{BuildProfile} (c : SeqCall) (s : CmdSequencer FPrimeSequence) : CmdSequencer FPrimeSequence * list SeqOut :=
  match seq_call all_ports 0 c s with Ret (_, s', o) => (s', o) | Panic => (s, []) end.

Lemma sequence_in_order_witness :
  let P := true : BuildProfile in
  let s1 := after (CallCmd 0 7 (run_args NoBlock)) demo_sequencer in
  let s2 := after (CallResponse 1 CmdOk) s1.1 in
  let s3 := after (CallResponse 2 CmdOk) s2.1 in
  ready 0 s3.1 ∧ coms (s1.2 ++ s2.2 ++ s3.2 ++ []) = [[0; 0; 1]; [0; 0; 2]]%Z ∧ dones (s1.2 ++ s2.2 ++ s3.2) = [CmdOk].
Proof.
  intros P s1 s2 s3.
  assert (∀ c s, (∃ r, seq_call all_ports 0 c s = Ret r) → seq_call all_ports 0 c s = Ret (tt, (after c s).1, (after c s).2)) as Hr.
  { intros c s [[[[] s'] o] E]. unfold after. by rewrite E. }
  assert (seq_call all_ports 0 (CallCmd 0 7 (run_args NoBlock)) demo_sequencer = Ret (tt, s1.1, s1.2)) as E1 by (apply Hr; vm_compute; eauto).
  assert (seq_call all_ports 0 (CallResponse 1 CmdOk) s1.1 = Ret (tt, s2.1, s2.2)) as E2 by (apply Hr; vm_compute; eauto).
  assert (seq_call all_ports 0 (CallResponse 2 CmdOk) s2.1 = Ret (tt, s3.1, s3.2)) as E3 by (apply Hr; vm_compute; eauto).
  assert (dones (s1.2 ++ s2.2 ++ s3.2) = [CmdOk]) as Hd by (vm_compute; reflexivity).
  assert (run_mode s1.1 = Running ∧ run_mode s2.1 = Running ∧ run_mode s3.1 = Stopped) as (R1 & R2 & R3) by (vm_compute; split_and!; reflexivity).
  assert (length (coms s1.2) = 1 ∧ length (coms s2.2) = 1 ∧ length (coms s3.2) = 0) as (L1 & L2 & L3) by (vm_compute; split_and!; reflexivity).
  assert (commands (fp_content (cs_sequence s1.1)) = [[0; 0; 1]; [0; 0; 2]]%Z) as Hc by (vm_compute; reflexivity).
  clearbody s3 s2 s1.
  destruct (sequence_in_order (T := FPrimeSequence) all_ports 0 eq_refl eq_refl eq_refl eq_refl ltac:(lia) 0 (CallCmd 0 7 (run_args NoBlock)) demo_sequencer s1.1 s1.2 0 s3.1 (s2.2 ++ s3.2 ++ []))
    as (_ & _ & Hall & Hst).
  - apply start_ready, demo_start_ok.
  - apply run_args_ok.
  - exact E1.
  - exact R1.
  - rewrite L1. eapply (driven_call _ _ _ (CallResponse 1 CmdOk)); [exact R1|exact I|apply Nat.lt_0_1|exact E2|]. rewrite L2.
    eapply (driven_call _ _ _ (CallResponse 2 CmdOk)); [exact R2|exact I|apply Nat.lt_0_1|exact E3|]. rewrite L3. apply driven_nil.
  - rewrite bool_decide_eq_true_2 in Hst by done. split; [exact Hst|]. split; [|done]. etransitivity; [apply Hall; rewrite app_nil_r, Hd; by left|exact Hc].
Defined.

(** ** A response nobody waits for

    A response is not matched with the command that is out.  Here the first
    record waits for second 1000 when a response to an older command comes: it
    counts as the answer, the next record is sent at once, and when the timer
    of the first record expires, that command is sent a second time; the first
    is never sent. *)

Definition late_file : list Z := sequence_image TbDontCare 255 [VCommand false 1000 0 [0; 0; 1]%Z; VCommand false 0 0 [0; 0; 2]%Z; VEnd].
Definition late_times : list Time := [Time_ZERO; Time_ZERO; Time_ZERO; MkTime TbNone 0 2000 0].
Example late_response_repeats_a_command :
  let P := true : BuildProfile in
  let calls := [CallRun demo_name; CallResponse 9 CmdOk; CallSched] in
  match seq_calls all_ports 0 calls (CmdSequencer_new demo_format (one_file (str "/seq") late_file []) late_times) with
  | Ret (_, _, o) => coms o = [[0; 0; 2]; [0; 0; 2]]%Z
  | Panic => False
  end.
Proof. vm_compute. reflexivity. Qed.
