(* ===== verification/Health.v ===== *)
(** The health checker [Svc::Health], [crates/fprime-svc/src/health.rs]: a
    queued component without a thread, whose Run handles the queued calls and
    then sweeps the ping table.

    [HealthWiring] is the wiring, fixed before traffic starts.  A sweep first
    changes the whole table and then emits, as the code does.  A Run is one
    step: a call made while it drains the queue counts as made before or after
    it. *)

From stdpp Require Import list strings.
From S2P Require Import Prelude Serial SerialFacts Codec Fpp FwString Packets OsQueue PriorityQueue Comp Msg Queued.

(** * Data *)

Definition HEALTH_PING_PORTS : nat := 25.
Definition MSG_TYPE_PING_RETURN : Z := 1.
Definition MSG_TYPE_CMD_IN : Z := 2.
Definition MSG_SIZE : nat := 6 + 4 + 4 + 2 + FW_CMD_ARG_BUFFER_MAX_SIZE.
Definition PING_RETURN_PRIORITY : Z := 1.
Definition CMD_IN_PRIORITY : Z := 1.
Definition HEALTH_EVENT_STRING_SIZE : nat := 40.
Definition OPCODE_HLTH_ENABLE : Z := 0.
Definition OPCODE_HLTH_PING_ENABLE : Z := 1.
Definition OPCODE_HLTH_CHNG_PING : Z := 2.
Definition CHANID_PING_LATE_WARNINGS : Z := 0.

Record PingEntry : Set := MkPingEntry { warn_cycles : Z; fatal_cycles : Z; entry_name : FwString }.
Definition PingEntry_new (warn fatal : Z) (name : list Z) : PingEntry := MkPingEntry warn fatal (set_bytes name (FwString_new FW_CMD_STRING_MAX_SIZE)).
Definition PingEntry_default : PingEntry := MkPingEntry 0 0 (FwString_new FW_CMD_STRING_MAX_SIZE).

Record PingTracker : Set := MkTracker { tracked_entry : PingEntry; cycle_count : Z; ping_key : Z; ping_enabled : bool }.
Definition PingTracker_default : PingTracker := MkTracker PingEntry_default 0 0 false.

Record Health : Set := MkHealth {
  trackers : list PingTracker;
  num_entries : nat;
  next_key : Z;
  watchdog_code : Z;
  warnings : Z;
  check_enabled : Enabled;
  health_depth : nat;
}.
Definition Health_new : Health := MkHealth (replicate HEALTH_PING_PORTS PingTracker_default) 0 0 0 0 Enabled_ 0.

Definition set_trackers (ts : list PingTracker) (h : Health) : Health :=
  MkHealth ts (num_entries h) (next_key h) (watchdog_code h) (warnings h) (check_enabled h) (health_depth h).
Definition set_swept (ts : list PingTracker) (key warns : Z) (h : Health) : Health :=
  MkHealth ts (num_entries h) key (watchdog_code h) warns (check_enabled h) (health_depth h).
Definition set_check (e : Enabled) (h : Health) : Health :=
  MkHealth (trackers h) (num_entries h) (next_key h) (watchdog_code h) (warnings h) e (health_depth h).
Definition set_depth (d : nat) (h : Health) : Health :=
  MkHealth (trackers h) (num_entries h) (next_key h) (watchdog_code h) (warnings h) (check_enabled h) d.

Inductive HealthEvent : Set :=
| HlthPingWarn (entry : list Z)
| HlthPingLate (entry : list Z)
| HlthPingWrongKey (entry : list Z) (bad_key : Z)
| HlthCheckEnable (e : Enabled)
| HlthCheckPing (e : Enabled) (entry : list Z)
| HlthCheckLookupError (entry : list Z)
| HlthPingUpdated (entry : list Z) (warn fatal : Z)
| HlthPingInvalidValues (entry : list Z) (warn fatal : Z).

Inductive HealthOut : Set :=
| HealthLog (e : HealthEvent)
| HealthTlm (chan value : Z)
| HealthPing (port : nat) (key : Z)
| HealthStroke (code : Z)
| HealthResponse (op cmd_seq : Z) (r : CmdResponse).

Inductive SweepAction : Set :=
| SweepPing (port : nat) (key : Z)
| SweepWarn (name : FwString) (warns : Z)
| SweepFatal (name : FwString).

Record HealthWiring : Set := MkHealthWiring { ping_send : list bool; wdog_stroke : bool; hlth_response : bool; hlth_id_base : Z }.

(** The name as the events carry it. *)
Definition hlth_name (n : FwString) : list Z := take HEALTH_EVENT_STRING_SIZE (as_bytes n).

Section health.
Context `{BuildProfile} (w : HealthWiring).
Local Notation M := (CompM Health HealthOut).

(** * Setup *)

Definition fresh_tracker (e : PingEntry) : PingTracker := MkTracker e 0 0 true.

(** [set_ping_entries]: the entries replace the first trackers. *)
Definition set_ping_entries (entries : list PingEntry) (code : Z) (h : Health) : outcome Health :=
  _ ← fw_assert (bool_decide (length entries ≤ HEALTH_PING_PORTS));
  _ ← fw_assert (bool_decide (Forall (λ e, warn_cycles e ≤ fatal_cycles e)%Z entries));
  Ret (MkHealth ((fresh_tracker <$> entries) ++ drop (length entries) (trackers h)) (length entries) (next_key h) code (warnings h) (check_enabled h) (health_depth h)).

(** * The sweep *)

(** One tracker: the FATAL threshold first, by equality. *)
Definition sweep_tracker (i : nat) (key warns : Z) (t : PingTracker) : outcome (PingTracker * Z * Z * list SweepAction) :=
  if negb (ping_enabled t) then Ret (t, key, warns, [])
  else if (cycle_count t =? 0)%Z then
    n ← add_w 64 (cycle_count t) 1;
    Ret (MkTracker (tracked_entry t) n key true, wrap 32 (key + 1), warns, [SweepPing i key])
  else
    '(warns, acts) ← (if (cycle_count t =? fatal_cycles (tracked_entry t))%Z then Ret (warns, [SweepFatal (entry_name (tracked_entry t))])
                      else if (cycle_count t =? warn_cycles (tracked_entry t))%Z then
                        warns' ← add_w 32 warns 1; Ret (warns', [SweepWarn (entry_name (tracked_entry t)) warns'])
                      else Ret (warns, []));
    n ← add_w 64 (cycle_count t) 1;
    Ret (MkTracker (tracked_entry t) n (ping_key t) true, key, warns, acts).

Fixpoint sweep_trackers (i : nat) (key warns : Z) (ts : list PingTracker) : outcome (list PingTracker * Z * Z * list SweepAction) :=
  match ts with
  | [] => Ret ([], key, warns, [])
  | t :: ts =>
      '(t, key, warns, acts) ← sweep_tracker i key warns t;
      '(ts, key, warns, acts') ← sweep_trackers (S i) key warns ts;
      Ret (t :: ts, key, warns, acts ++ acts')
  end.

Definition sweep_table : M (list SweepAction) :=
  h ← get_state;
  if bool_decide (check_enabled h = Enabled_) then
    '(ts, key, warns, acts) ← lift (sweep_trackers 0 (next_key h) (warnings h) (take (num_entries h) (trackers h)));
    _ ← put_state (set_swept (ts ++ drop (num_entries h) (trackers h)) key warns h);
    mret acts
  else mret [].

Definition emit_action (a : SweepAction) : M unit :=
  match a with
  | SweepPing port key => _ ← assert (default false (ping_send w !! port)); emit (HealthPing port key)
  | SweepWarn name warns => _ ← emit (HealthLog (HlthPingWarn (hlth_name name))); emit (HealthTlm CHANID_PING_LATE_WARNINGS warns)
  | SweepFatal name => emit (HealthLog (HlthPingLate (hlth_name name)))
  end.
Fixpoint emit_actions (acts : list SweepAction) : M unit :=
  match acts with [] => mret tt | a :: acts => _ ← emit_action a; emit_actions acts end.

(** [run_handler] after the queue is drained. *)
Definition sweep : M unit :=
  acts ← sweep_table;
  h ← get_state;
  _ ← emit_actions acts;
  when (wdog_stroke w) (emit (HealthStroke (watchdog_code h))).

(** * Handlers *)

Definition health_response (op cmd_seq : Z) (r : CmdResponse) : M unit :=
  _ ← assert (hlth_response w); emit (HealthResponse op cmd_seq r).

Definition ping_return_handler (port key : Z) : M unit :=
  _ ← assert (bool_decide (0 ≤ port < Z.of_nat HEALTH_PING_PORTS)%Z);
  h ← get_state;
  match trackers h !! Z.to_nat port with
  | None => lift Panic
  | Some t =>
      if negb (key =? ping_key t)%Z then emit (HealthLog (HlthPingWrongKey (hlth_name (entry_name (tracked_entry t))) key))
      else put_state (set_trackers (<[Z.to_nat port := MkTracker (tracked_entry t) 0 0 (ping_enabled t)]> (trackers h)) h)
  end.

Definition named (n : FwString) (t : PingTracker) : Prop := as_bytes (entry_name (tracked_entry t)) = as_bytes n.
#[global] Instance named_dec n t : Decision (named n t).
Proof. unfold named. apply _. Defined.
Definition find_entry (n : FwString) : M (option nat) :=
  h ← get_state;
  let found := fst <$> list_find (named n) (take (num_entries h) (trackers h)) in
  _ ← when (bool_decide (found = None)) (emit (HealthLog (HlthCheckLookupError (hlth_name n))));
  mret found.

Definition hlth_enable_cmd_handler (op cmd_seq : Z) (args : serbuf) : M unit :=
  let format_error := health_response op cmd_seq CmdFormatError in
  '(raw, args) ← on_args (deserialize_u8 Big) args;
  match raw with
  | None => format_error
  | Some raw =>
      n ← size_left args;
      if negb (bool_decide (n = 0)) then format_error
      else
        match try_from raw : option Enabled with
        | None => health_response op cmd_seq ValidationError
        | Some enable =>
            _ ← modify_state (set_check enable);
            _ ← emit (HealthLog (HlthCheckEnable enable));
            health_response op cmd_seq CmdOk
        end
  end.

Definition update_tracker (f : PingTracker → PingTracker) (i : nat) : M unit :=
  modify_state (λ h, set_trackers (alter f i (trackers h)) h).

Definition hlth_ping_enable_cmd_handler (op cmd_seq : Z) (args : serbuf) : M unit :=
  let format_error := health_response op cmd_seq CmdFormatError in
  '(r, args) ← on_args (entry ← string_deserialize_from Big (FwString_new FW_CMD_STRING_MAX_SIZE); raw ← deserialize_u8 Big; mret (entry, raw)) args;
  match r with
  | None => format_error
  | Some (entry, raw) =>
      n ← size_left args;
      if negb (bool_decide (n = 0)) then format_error
      else
        match try_from raw : option Enabled with
        | None => health_response op cmd_seq ValidationError
        | Some enable =>
            found ← find_entry entry;
            match found with
            | None => health_response op cmd_seq ValidationError
            | Some i =>
                _ ← update_tracker (λ t, MkTracker (tracked_entry t) (cycle_count t) (ping_key t) (bool_decide (enable = Enabled_))) i;
                _ ← emit (HealthLog (HlthCheckPing enable (hlth_name entry)));
                health_response op cmd_seq CmdOk
            end
        end
  end.

Definition hlth_chng_ping_cmd_handler (op cmd_seq : Z) (args : serbuf) : M unit :=
  let format_error := health_response op cmd_seq CmdFormatError in
  '(r, args) ← on_args (entry ← string_deserialize_from Big (FwString_new FW_CMD_STRING_MAX_SIZE);
                        warn ← deserialize_u32 Big; fatal ← deserialize_u32 Big; mret (entry, warn, fatal)) args;
  match r with
  | None => format_error
  | Some (entry, warn, fatal) =>
      n ← size_left args;
      if negb (bool_decide (n = 0)) then format_error
      else
        found ← find_entry entry;
        match found with
        | None => health_response op cmd_seq ValidationError
        | Some i =>
            if (fatal <? warn)%Z then
              _ ← emit (HealthLog (HlthPingInvalidValues (hlth_name entry) warn fatal));
              health_response op cmd_seq ValidationError
            else
              _ ← update_tracker (λ t, MkTracker (MkPingEntry warn fatal (entry_name (tracked_entry t))) (cycle_count t) (ping_key t) (ping_enabled t)) i;
              _ ← emit (HealthLog (HlthPingUpdated (hlth_name entry) warn fatal));
              health_response op cmd_seq CmdOk
        end
  end.

Definition hlth_command (op cmd_seq : Z) (args : serbuf) : M unit :=
  let rel := wrap 32 (op - hlth_id_base w) in
  if (rel =? OPCODE_HLTH_ENABLE)%Z then hlth_enable_cmd_handler op cmd_seq args
  else if (rel =? OPCODE_HLTH_PING_ENABLE)%Z then hlth_ping_enable_cmd_handler op cmd_seq args
  else if (rel =? OPCODE_HLTH_CHNG_PING)%Z then hlth_chng_ping_cmd_handler op cmd_seq args
  else health_response op cmd_seq InvalidOpcode.

(** [dispatch_message]. *)
#[export] Instance health_dispatch : ComponentDispatch Health HealthOut := λ msg_type buf,
  match read_port_num buf with
  | (SPanic, _) => lift Panic
  | (SErr _, _) => mret MdError
  | (SOk port_num, buf) =>
      if (msg_type =? MSG_TYPE_PING_RETURN)%Z then with_msg (deserialize_u32 Big) buf (ping_return_handler port_num)
      else if (msg_type =? MSG_TYPE_CMD_IN)%Z then
        with_msg (op ← deserialize_u32 Big; sq ← deserialize_u32 Big;
                  args ← deserialize_buffer (linear_buffer_new FW_CMD_ARG_BUFFER_MAX_SIZE) Big; mret (op, sq, args)) buf
          (λ '(op, sq, args), hlth_command op sq args)
      else mret MdError
  end.

(** * The queue *)

(** The asynchronous input ports. *)
Inductive HealthCall : Set :=
| CallPingReturn (port key : Z)
| CallHealthCmd (port op cmd_seq : Z) (args : serbuf).

Definition write_health_call (c : HealthCall) : SerM unit :=
  match c with
  | CallPingReturn port key => _ ← write_envelope_header MSG_TYPE_PING_RETURN port; serialize_u32 key Big
  | CallHealthCmd port op sq args =>
      _ ← write_envelope_header MSG_TYPE_CMD_IN port; _ ← serialize_u32 op Big; _ ← serialize_u32 sq Big; serialize_buffer args Big
  end.

Context `{QueueInterface D}.

(** [init]: the queue, and its depth as the bound of a drain. *)
Definition health_init (depth : nat) (h : Health) : outcome (QueuedBase D * Health) :=
  qb ← create_queue depth MSG_SIZE QueuedBase_new; Ret (qb, set_depth depth h).

Definition health_priority (c : HealthCall) : Z :=
  match c with CallPingReturn _ _ => PING_RETURN_PRIORITY | CallHealthCmd _ _ _ _ => CMD_IN_PRIORITY end.
Definition health_invoke (c : HealthCall) : CompM (QueuedBase D * Health) HealthOut unit := λ '(qb, h),
  msg ← written MSG_SIZE (write_health_call c);
  '(_, qb) ← send_message msg (health_priority c) PolicyAssert qb;
  Ret (tt, (qb, h), []).

Fixpoint drain (n : nat) : CompM (QueuedBase D * Health) HealthOut unit :=
  match n with
  | O => mret tt
  | S n =>
      r ← do_dispatch NonBlocking;
      match r with
      | Returned MdEmpty => mret tt
      | Returned MdOk => drain n
      | _ => lift Panic
      end
  end.

(** [run_handler]. *)
Definition health_run : CompM (QueuedBase D * Health) HealthOut unit :=
  s ← get_state;
  _ ← drain (health_depth s.2);
  on_component sweep.
End health.
