(* ===== verification/HealthRuns.v ===== *)
(** Runs of the health checker over its real queue: a target that hangs is
    pinged once, warned about once and reported FATAL once, at the Runs its
    thresholds say, whatever the other targets and commands do. *)

From stdpp Require Import list strings.
From S2P Require Import Prelude Serial SerialFacts Codec Fpp FwString Packets OsQueue PriorityQueue Comp Msg Queued Health.

(** * The calls of the queue *)

Definition health_call_ok (c : HealthCall) : Prop :=
  match c with
  | CallPingReturn p k => (0 ≤ p < Z.of_nat HEALTH_PING_PORTS)%Z ∧ is_u 32 k
  | CallHealthCmd p op sq args => is_i 16 p ∧ is_u 32 op ∧ is_u 32 sq ∧ wf args ∧ ser_loc args ≤ FW_CMD_ARG_BUFFER_MAX_SIZE
  end.
#[export] Instance health_call_ok_dec c : Decision (health_call_ok c).
Proof. unfold health_call_ok. destruct c; apply _. Defined.

Definition health_type (c : HealthCall) : Z := match c with CallPingReturn _ _ => MSG_TYPE_PING_RETURN | CallHealthCmd _ _ _ _ => MSG_TYPE_CMD_IN end.
Definition health_port (c : HealthCall) : Z := match c with CallPingReturn p _ | CallHealthCmd p _ _ _ => p end.
Definition health_args (c : HealthCall) : list Z :=
  match c with
  | CallPingReturn _ k => be_bytes 4 k
  | CallHealthCmd _ op sq args => be_bytes 4 op ++ be_bytes 4 sq ++ buffer_enc Big (as_slice args)
  end.
Definition health_bytes (c : HealthCall) : list Z := envelope (health_type c) (health_port c) (health_args c).

(** The handler a call runs. *)
Definition health_handler `{BuildProfile} (w : HealthWiring) (c : HealthCall) : CompM Health HealthOut unit :=
  match c with
  | CallPingReturn p k => ping_return_handler p k
  | CallHealthCmd _ op sq args => hlth_command w op sq (filled FW_CMD_ARG_BUFFER_MAX_SIZE (as_slice args))
  end.

Lemma health_call_writes c :
  health_call_ok c → writes (write_health_call c) (health_bytes c) ∧ Forall is_byte (health_bytes c) ∧ length (health_bytes c) ≤ MSG_SIZE.
Proof.
  intros Hc. unfold health_bytes. rewrite length_envelope. destruct c as [p k|p op sq args]; cbn [write_health_call health_type health_port health_args].
  - split_and!; [apply envelope_writes, write_u32|apply envelope_bytes, be_bytes_bytes|]. rewrite length_be_bytes. unfold MSG_SIZE, FW_CMD_ARG_BUFFER_MAX_SIZE, FW_COM_BUFFER_MAX_SIZE. lia.
  - destruct Hc as (_ & _ & _ & Hd & Hl). destruct (buffer_arg_writes args 506 Hd Hl ltac:(lia)) as (H1 & H2 & H3). split_and!.
    + apply envelope_writes. do 2 (apply writes_bind; [apply write_u32|apply be_bytes_bytes|]). done.
    + apply envelope_bytes. do 2 (apply Forall_app; split; [apply be_bytes_bytes|]). done.
    + rewrite !length_app, !length_be_bytes. unfold MSG_SIZE, FW_CMD_ARG_BUFFER_MAX_SIZE, FW_COM_BUFFER_MAX_SIZE. lia.
Qed.

Lemma health_received `{BuildProfile} w c view h :
  health_call_ok c → wf view → remaining_slice view = health_bytes c →
  ∃ t, read_msg_type view = (SOk t, advanced 4 view) ∧ t ≠ EXIT_MSG_TYPE ∧
    component_dispatch (ComponentDispatch := health_dispatch w) t (advanced 4 view) h = (health_handler w c ≫= λ _, mret MdOk) h.
Proof.
  intros Hc Hv Hr. assert (is_i 32 (health_type c)) as Ht by (by destruct c). destruct (envelope_type _ _ _ view Ht Hv Hr) as (E & Hw & Hr1).
  exists (health_type c). split_and!; [done|by destruct c|]. unfold component_dispatch, health_dispatch.
  assert (is_i 16 (health_port c)) as Hp by (destruct c; cbn in *; [unfold is_i, HEALTH_PING_PORTS in *; lia|apply Hc]).
  destruct (envelope_port _ _ _ Hp Hw Hr1) as (b & -> & Hb & Hrb). destruct c as [p k|p op sq args]; cbn [health_type health_port health_args health_handler] in *.
  - unfold MSG_TYPE_PING_RETURN. cbn [Z.eqb Pos.eqb]. eapply with_msg_reads; [|done|exact Hrb]. apply read_u32, Hc.
  - destruct Hc as (_ & Ho & Hq & Hd & Hl). unfold MSG_TYPE_PING_RETURN, MSG_TYPE_CMD_IN. cbn [Z.eqb Pos.eqb].
    etransitivity; [apply (with_msg_reads _ _ (op, sq, filled 506 (as_slice args))) with (2 := Hb) (3 := Hrb)|done].
    apply (reads_bind _ _ _ _ op); [by apply read_u32|]. apply (reads_bind _ _ _ _ sq); [by apply read_u32|].
    eapply reads_bind_last; [apply buffer_arg_reads; [by apply length_small|cbn; lia]|apply reads_ret].
Qed.

#[export] Program Instance health_calls `{BuildProfile} (w : HealthWiring) : @QueuedCalls HealthCall Health HealthOut (health_dispatch w) MSG_SIZE := {|
  qc_ok := health_call_ok; qc_bytes := health_bytes; qc_handler := health_handler w |}.
Next Obligation. intros Hp w c Hc. destruct (health_call_writes c Hc) as (_ & ? & ?). done. Qed.
Next Obligation. intros Hp w c view h Hc Hv Hr. by apply health_received. Qed.

(** * What a run shows *)

#[export] Instance HealthEvent_eq_dec : EqDecision HealthEvent.
Proof. solve_decision. Defined.

Definition late_of (n : list Z) (x : HealthOut) : bool := match x with HealthLog (HlthPingLate n') => bool_decide (n' = n) | _ => false end.
Definition warn_of (n : list Z) (x : HealthOut) : bool := match x with HealthLog (HlthPingWarn n') => bool_decide (n' = n) | _ => false end.
Definition ping_of (i : nat) (x : HealthOut) : bool := match x with HealthPing j _ => bool_decide (j = i) | _ => false end.
Definition stroke (x : HealthOut) : bool := match x with HealthStroke _ => true | _ => false end.
Definition times (f : HealthOut → bool) (o : list HealthOut) : nat := length (filter (λ x, f x = true) o).
Lemma times_app f o o' : times f (o ++ o') = times f o + times f o'.
Proof. unfold times. by rewrite filter_app, length_app. Qed.
Lemma times_cons f x o : times f (x :: o) = (if f x then 1 else 0) + times f o.
Proof. unfold times. rewrite filter_cons. destruct (f x); case_decide; done. Qed.
Lemma times_nil f : times f [] = 0.
Proof. done. Qed.

Lemma insert_as_alter {A} (f : A → A) (l : list A) (i : nat) x : l !! i = Some x → <[i := f x]> l = alter f i l.
Proof.
  intros E. apply list_eq. intros j. destruct (decide (i = j)) as [<-|Hne].
  - rewrite list_lookup_alter_eq, E, list_lookup_insert_eq; [done|]. by eapply lookup_lt_Some.
  - by rewrite list_lookup_alter_ne, list_lookup_insert_ne.
Qed.

(** Nothing about the target [i], named [n]. *)
Record about_others (i : nat) (n : list Z) (o : list HealthOut) : Prop := {
  no_late : times (late_of n) o = 0;
  no_warn : times (warn_of n) o = 0;
  no_ping : times (ping_of i) o = 0;
  no_stroke : times stroke o = 0;
}.
Lemma about_others_app i n o o' : about_others i n o → about_others i n o' → about_others i n (o ++ o').
Proof. intros [] []. split; rewrite times_app; lia. Qed.

Section runs.
Context {Profile : BuildProfile} (w : HealthWiring) (dep : nat).
Hypothesis Hresp : hlth_response w = true.
Hypothesis Hsend : ping_send w = replicate HEALTH_PING_PORTS true.
Hypothesis Hdog : wdog_stroke w = true.
Local Notation M := (CompM Health HealthOut).

(** Counters at most [b] after [b] Runs. *)
Record health_ok (b : Z) (h : Health) : Prop := {
  ok_length : length (trackers h) = HEALTH_PING_PORTS;
  ok_num : num_entries h ≤ HEALTH_PING_PORTS;
  ok_counts : Forall (λ t, 0 ≤ cycle_count t ≤ b)%Z (trackers h);
  ok_warnings : (0 ≤ warnings h ≤ 25 * b)%Z;
  ok_depth : health_depth h = dep;
}.

(** The target [i] with entry [e] has been waiting for [c] Runs. *)
Record waiting (i : nat) (e : PingEntry) (c : Z) (h : Health) : Prop := {
  wait_index : i < num_entries h;
  wait_checked : check_enabled h = Enabled_;
  wait_tracker : ∃ k, trackers h !! i = Some (MkTracker e c k true);
  wait_names : ∀ j t, j ≠ i → j < num_entries h → trackers h !! j = Some t → hlth_name (entry_name (tracked_entry t)) ≠ hlth_name (entry_name e);
}.

(** A call that is not from the target and not a command about it. *)
Definition spares (i : nat) (e : PingEntry) (c : HealthCall) : bool :=
  match c with
  | CallPingReturn p _ => negb (p =? Z.of_nat i)%Z
  | CallHealthCmd _ op _ args =>
      let rel := wrap 32 (op - hlth_id_base w) in
      negb (rel =? OPCODE_HLTH_ENABLE)%Z &&
      (negb ((rel =? OPCODE_HLTH_PING_ENABLE)%Z || (rel =? OPCODE_HLTH_CHNG_PING)%Z) ||
       match string_deserialize_from Big (FwString_new FW_CMD_STRING_MAX_SIZE) (filled FW_CMD_ARG_BUFFER_MAX_SIZE (as_slice args)) with
       | (SOk n, _) => negb (bool_decide (as_bytes n = as_bytes (entry_name e)))
       | _ => true
       end)
  end.

(** ** Calls *)

Lemma health_answer_wp op sq r h (Q : unit → Health → list HealthOut → Prop) : Q tt h [HealthResponse op sq r] → wp (health_response w op sq r : M unit) h Q.
Proof. intros HQ. unfold health_response. eapply wp_assert; [done|]. by wp_steps. Qed.

(** A tracker other than the target's changes, and keeps its name. *)
Lemma waiting_update i e c b h j f :
  health_ok b h → waiting i e c h → j ≠ i →
  (∀ t, entry_name (tracked_entry (f t)) = entry_name (tracked_entry t)) → (∀ t, cycle_count (f t) = cycle_count t ∨ cycle_count (f t) = 0%Z) →
  health_ok b (set_trackers (alter f j (trackers h)) h) ∧ waiting i e c (set_trackers (alter f j (trackers h)) h).
Proof.
  intros [Hl Hn Hc Hw Hdp] [Hi He (k & Ht) Hd] Hj Hf Hcc. split.
  - split; cbn; [by rewrite length_alter|done| |done|done]. apply Forall_alter; [done|]. intros t Htj [Ht1 Ht2]. destruct (Hcc t) as [-> | ->]; lia.
  - split; cbn; [done|done|exists k; by rewrite list_lookup_alter_ne|]. intros j' t Hj' Hlt Hlk. destruct (decide (j' = j)) as [->|Hne].
    + rewrite list_lookup_alter_eq in Hlk. destruct (trackers h !! j) as [t0|] eqn:E; [|done]. injection Hlk as <-. rewrite Hf. by eapply Hd.
    + rewrite list_lookup_alter_ne in Hlk by done. by eapply Hd.
Qed.

Lemma find_entry_wp n h (Q : option nat → Health → list HealthOut → Prop) :
  (∀ j, (∃ t, trackers h !! j = Some t ∧ named n t) → Q (Some j) h []) → Q None h [HealthLog (HlthCheckLookupError (hlth_name n))] →
  wp (find_entry n : M _) h Q.
Proof.
  intros H1 H2. unfold find_entry. wp_steps. destruct (list_find _ _) as [[j t]|] eqn:E; cbn.
  - apply list_find_Some in E as (Hj & Hn & _). apply wp_bind. wp_steps. apply H1. exists t. split; [|done]. by apply lookup_take_Some in Hj as [? _].
  - apply wp_bind. wp_steps. done.
Qed.

Definition undisturbed (i : nat) (e : PingEntry) (c b : Z) (h : Health) (o : list HealthOut) : Prop :=
  health_ok b h ∧ waiting i e c h ∧ about_others i (hlth_name (entry_name e)) o.

Lemma ping_return_wp i e c b p k h :
  health_ok b h → waiting i e c h → health_call_ok (CallPingReturn p k) → p ≠ Z.of_nat i →
  wp (ping_return_handler p k : M unit) h (λ _ h' o, undisturbed i e c b h' o).
Proof.
  intros Hh Hw [Hp Hk] Hne. unfold ping_return_handler. eapply wp_assert; [by apply bool_decide_eq_true_2|]. wp_steps.
  destruct (trackers h !! Z.to_nat p) as [t|] eqn:E.
  2:{ apply lookup_ge_None in E. rewrite (ok_length _ _ Hh) in E. lia. }
  destruct (negb _); wp_steps; [split_and!; done|].
  destruct (waiting_update i e c b h (Z.to_nat p) (λ t, MkTracker (tracked_entry t) 0 0 (ping_enabled t)) Hh Hw) as [H1 H2]; [lia|done|intros; by right|].
  rewrite <- (insert_as_alter _ _ _ _ E) in H1, H2. done.
Qed.

(** A command about another entry. *)
Lemma spared_entry_wp i e c b n h (k : option nat → M unit) :
  health_ok b h → waiting i e c h → as_bytes n ≠ as_bytes (entry_name e) →
  (∀ r h', health_ok b h' → waiting i e c h' → match r with Some j => j ≠ i | None => True end → wp (k r) h' (λ _ h'' o, undisturbed i e c b h'' o)) →
  wp (r ← find_entry n; k r) h (λ _ h' o, undisturbed i e c b h' o).
Proof.
  intros Hh Hw Hn Hk. apply wp_bind, find_entry_wp.
  - intros j (t & Ht & Hnt). apply Hk; [done|done|]. intros ->. destruct (wait_tracker _ _ _ _ Hw) as (k' & E). rewrite E in Ht. injection Ht as <-. by apply Hn.
  - eapply wp_mono; [by apply Hk|]. intros [] h' o (H1 & H2 & H3). split_and!; [done|done|]. by apply (about_others_app _ _ [_]).
Qed.

(** Arguments that start with an entry name. *)
Lemma named_args_wp {A} (f : FwString → SerM A) args (k : option A * serbuf → M unit) h (Q : unit → Health → list HealthOut → Prop) :
  wf args → (∀ n, yields (f n) (λ _, True)) → (∀ args', wp (k (None, args')) h Q) →
  (∀ n args1 a args', string_deserialize_from Big (FwString_new FW_CMD_STRING_MAX_SIZE) args = (SOk n, args1) → f n args1 = (SOk a, args') → wf args' → wp (k (Some a, args')) h Q) →
  wp (x ← on_args (n ← string_deserialize_from Big (FwString_new FW_CMD_STRING_MAX_SIZE); f n) args; k x) h Q.
Proof.
  intros Ha Hf Hn Hs. pose proof (string_deserialize_yields Big (FwString_new FW_CMD_STRING_MAX_SIZE) (string_new_ok _) args Ha) as Hy.
  unfold on_args, mbind at 2, SerM_bind. destruct (string_deserialize_from Big _ args) as [[n|st|] args1] eqn:E; [|by apply wp_bind, wp_ret, Hn|done].
  destruct Hy as [Ha1 _]. specialize (Hf n args1 Ha1). destruct (f n args1) as [[a|st|] args2] eqn:E2; [|by apply wp_bind, wp_ret, Hn|done].
  apply wp_bind, wp_ret. eapply Hs; [done|done|apply Hf].
Qed.

Definition names_other (e : PingEntry) (args : serbuf) : Prop :=
  match string_deserialize_from Big (FwString_new FW_CMD_STRING_MAX_SIZE) args with (SOk n, _) => as_bytes n ≠ as_bytes (entry_name e) | _ => True end.

Lemma answered_undisturbed i e c b op sq r h : health_ok b h → waiting i e c h → wp (health_response w op sq r : M unit) h (λ _ h' o, undisturbed i e c b h' o).
Proof. intros Hh Hw. apply health_answer_wp. split_and!; done. Qed.

Lemma chng_ping_wp i e c b op sq args h :
  health_ok b h → waiting i e c h → wf args → names_other e args → wp (hlth_chng_ping_cmd_handler w op sq args : M unit) h (λ _ h' o, undisturbed i e c b h' o).
Proof.
  intros Hh Hw Ha Hn. unfold hlth_chng_ping_cmd_handler, names_other in *. apply named_args_wp; [done| |intros; by apply answered_undisturbed|].
  { intros n. eapply yields_bind; [apply (yields_uint 4)|]. intros v _. eapply yields_bind; [apply (yields_uint 4)|]. intros v' _. by apply yields_ret. }
  intros n args1 [[n' warn] fatal] args' En Ef Ha'. rewrite En in Hn. assert (n' = n) as ->.
  { unfold mbind, SerM_bind in Ef. destruct (deserialize_u32 Big args1) as [[v|?|] b1]; [|done..]. destruct (deserialize_u32 Big b1) as [[v'|?|] b2]; [|done..]. by injection Ef. }
  apply size_left_wp; [done|]. destruct (negb _); [by apply answered_undisturbed|]. apply spared_entry_wp; [done|done|done|]. intros [j|] h1 H1 W1 Hj; [|by apply answered_undisturbed].
  destruct (fatal <? warn)%Z; wp_steps; [apply health_answer_wp; split_and!; done|].
  destruct (waiting_update i e c b h1 j (λ t, MkTracker (MkPingEntry warn fatal (entry_name (tracked_entry t))) (cycle_count t) (ping_key t) (ping_enabled t)) H1 W1 Hj) as [H2 W2]; [done|intros; by left|].
  unfold update_tracker. wp_steps. apply health_answer_wp. split_and!; done.
Qed.

Lemma ping_enable_wp i e c b op sq args h :
  health_ok b h → waiting i e c h → wf args → names_other e args → wp (hlth_ping_enable_cmd_handler w op sq args : M unit) h (λ _ h' o, undisturbed i e c b h' o).
Proof.
  intros Hh Hw Ha Hn. unfold hlth_ping_enable_cmd_handler, names_other in *. apply named_args_wp; [done| |intros; by apply answered_undisturbed|].
  { intros n. eapply yields_bind; [apply (yields_uint 1)|]. intros v _. by apply yields_ret. }
  intros n args1 [n' raw] args' En Ef Ha'. rewrite En in Hn. assert (n' = n) as ->.
  { unfold mbind, SerM_bind in Ef. destruct (deserialize_u8 Big args1) as [[v|?|] b1]; [|done..]. by injection Ef. }
  apply size_left_wp; [done|]. destruct (negb _); [by apply answered_undisturbed|]. destruct (try_from raw : option Enabled) as [en|]; [|by apply answered_undisturbed].
  apply spared_entry_wp; [done|done|done|]. intros [j|] h1 H1 W1 Hj; [|by apply answered_undisturbed].
  destruct (waiting_update i e c b h1 j (λ t, MkTracker (tracked_entry t) (cycle_count t) (ping_key t) (bool_decide (en = Enabled_))) H1 W1 Hj) as [H2 W2]; [done|intros; by left|].
  unfold update_tracker. wp_steps. apply health_answer_wp. split_and!; done.
Qed.

Lemma filled_wf N bs : Forall is_byte bs → length bs ≤ N → wf (filled N bs).
Proof.
  intros Hb Hl. assert (length (splice 0 bs (replicate N 0%Z)) = N) as Hs by (rewrite length_splice; rewrite length_replicate; lia).
  split_and!; cbn; [lia|unfold capacity; cbn; lia|]. apply Forall_splice; [by apply Forall_replicate|done].
Qed.

Lemma spared_call_wp i e c b x h :
  health_ok b h → waiting i e c h → health_call_ok x → spares i e x = true → wp (health_handler w x) h (λ _ h' o, undisturbed i e c b h' o).
Proof.
  intros Hh Hw Hx Hs. destruct x as [p k|p op sq args]; cbn [health_handler spares] in *.
  - apply ping_return_wp; try done. by apply negb_true_iff, Z.eqb_neq in Hs.
  - apply andb_true_iff in Hs as [Hen Hs]. apply negb_true_iff in Hen. unfold hlth_command. rewrite Hen. destruct Hx as (_ & _ & _ & Ha & Hl).
    assert (wf (filled FW_CMD_ARG_BUFFER_MAX_SIZE (as_slice args))) as Hf by (apply filled_wf; [apply Forall_take, Ha|by apply length_small]).
    assert (∀ b1 b2, b1 || b2 = true → negb (b1 || b2) || match string_deserialize_from Big (FwString_new FW_CMD_STRING_MAX_SIZE) (filled FW_CMD_ARG_BUFFER_MAX_SIZE (as_slice args)) with
       | (SOk n, _) => negb (bool_decide (as_bytes n = as_bytes (entry_name e))) | _ => true end = true → names_other e (filled FW_CMD_ARG_BUFFER_MAX_SIZE (as_slice args))) as Hno.
    { intros b1 b2 -> Hb. unfold names_other. cbn in Hb. destruct (string_deserialize_from Big _ _) as [[n|?|] ?]; [|done..]. by apply negb_true_iff, bool_decide_eq_false in Hb. }
    destruct (_ =? OPCODE_HLTH_PING_ENABLE)%Z; [apply ping_enable_wp; try done; by eapply Hno; [|exact Hs]|].
    destruct (_ =? OPCODE_HLTH_CHNG_PING)%Z; [apply chng_ping_wp; try done; by eapply Hno; [|exact Hs]|]. by apply answered_undisturbed.
Qed.

(** ** The sweep *)

Definition action_of (i : nat) (t : PingTracker) (a : SweepAction) : Prop :=
  match a with SweepPing p _ => p = i | SweepWarn n _ | SweepFatal n => n = entry_name (tracked_entry t) end.

(** What an enabled tracker does. *)
Definition tracker_actions (i : nat) (key warns : Z) (t : PingTracker) : list SweepAction :=
  if (cycle_count t =? 0)%Z then [SweepPing i key]
  else if (cycle_count t =? fatal_cycles (tracked_entry t))%Z then [SweepFatal (entry_name (tracked_entry t))]
  else if (cycle_count t =? warn_cycles (tracked_entry t))%Z then [SweepWarn (entry_name (tracked_entry t)) (warns + 1)]
  else [].

Lemma sweep_tracker_ok i key warns b t :
  (0 ≤ cycle_count t ≤ b)%Z → (b + 1 < 2 ^ 64)%Z → (0 ≤ warns)%Z → (warns + 1 < 2 ^ 32)%Z →
  ∃ t' key' warns' acts, sweep_tracker i key warns t = Ret (t', key', warns', acts) ∧ tracked_entry t' = tracked_entry t ∧
    (0 ≤ cycle_count t' ≤ b + 1)%Z ∧ (warns ≤ warns' ≤ warns + 1)%Z ∧ Forall (action_of i t) acts ∧
    (ping_enabled t = true → acts = tracker_actions i key warns t ∧ cycle_count t' = (cycle_count t + 1)%Z ∧ ping_enabled t' = true).
Proof.
  intros Hc Hb Hw0 Hw. unfold sweep_tracker, tracker_actions, add_w. destruct (ping_enabled t) eqn:Ee; cbn [negb].
  2:{ eexists _, _, _, _. split; [done|]. split_and!; try done; lia. }
  rewrite (overflowing_in 64 (cycle_count t + 1)) by (unfold is_u; lia).
  destruct (Z.eqb_spec (cycle_count t) 0); [eexists _, _, _, _; split; [done|]; cbn; split_and!; try done; try lia; by constructor|].
  destruct (cycle_count t =? fatal_cycles _)%Z; [eexists _, _, _, _; split; [done|]; cbn; split_and!; try done; try lia; by constructor|].
  destruct (cycle_count t =? warn_cycles _)%Z; [|eexists _, _, _, _; split; [done|]; cbn; split_and!; try done; lia].
  rewrite (overflowing_in 32 (warns + 1)) by (unfold is_u; lia). eexists _, _, _, _; split; [done|]; cbn; split_and!; try done; try lia. by constructor.
Qed.

Lemma sweep_trackers_ok b ts : ∀ i key warns,
  Forall (λ t, 0 ≤ cycle_count t ≤ b)%Z ts → (b + 1 < 2 ^ 64)%Z → (0 ≤ warns)%Z → (warns + Z.of_nat (length ts) < 2 ^ 32)%Z →
  ∃ ts' key' warns' acts, sweep_trackers i key warns ts = Ret (ts', key', warns', acts) ∧ length ts' = length ts ∧
    Forall (λ t, 0 ≤ cycle_count t ≤ b + 1)%Z ts' ∧ (warns ≤ warns' ≤ warns + Z.of_nat (length ts))%Z ∧
    (∀ j t', ts' !! j = Some t' → ∃ t, ts !! j = Some t ∧ tracked_entry t' = tracked_entry t) ∧
    (∀ a, a ∈ acts → ∃ j t, ts !! j = Some t ∧ action_of (i + j) t a) ∧
    ∀ j t, ts !! j = Some t → ∃ k0 w0 A B own t', acts = A ++ own ++ B ∧ ts' !! j = Some t' ∧
      (∀ a, a ∈ A ++ B → ∃ j' t0, j' ≠ j ∧ ts !! j' = Some t0 ∧ action_of (i + j') t0 a) ∧
      (ping_enabled t = true → own = tracker_actions (i + j) k0 w0 t ∧ cycle_count t' = (cycle_count t + 1)%Z ∧ ping_enabled t' = true).
Proof.
  induction ts as [|t ts IH]; intros i key warns Hts Hb Hw0 Hw; cbn [sweep_trackers length] in *.
  { eexists _, _, _, _. split; [done|]. split_and!; try done; try lia; intros a Ha; by apply not_elem_of_nil in Ha. }
  apply Forall_cons in Hts as [Ht Hts]. destruct (sweep_tracker_ok i key warns b t Ht Hb Hw0 ltac:(lia)) as (t1 & k1 & w1 & a1 & -> & He1 & Hc1 & Hw1 & Ha1 & Hen1).
  destruct (IH (S i) k1 w1 Hts Hb ltac:(lia) ltac:(lia)) as (ts' & k2 & w2 & a2 & E2 & Hl2 & Hc2 & Hw2 & Hent & Ha2 & Hj2). rewrite !outcome_bind_ret, E2, outcome_bind_ret.
  eexists _, _, _, _. split; [done|]. cbn [length]. split_and!; [by rewrite Hl2|by constructor|lia|lia| | |].
  - intros [|j] t' Hlk; cbn in Hlk; [injection Hlk as <-; by exists t|by apply Hent].
  - intros a [Ha|Ha]%elem_of_app.
    + exists 0, t. split; [done|]. rewrite Nat.add_0_r. by eapply Forall_forall.
    + destruct (Ha2 a Ha) as (j & t0 & Hj & Hact). exists (S j), t0. split; [done|]. by rewrite Nat.add_succ_r.
  - intros [|j] t0 Hlk; cbn in Hlk.
    + injection Hlk as <-. exists key, warns, [], a2, a1, t1. split_and!; [done|done| |rewrite Nat.add_0_r; exact Hen1].
      intros a Ha. destruct (Ha2 a Ha) as (j' & t0 & Hj' & Hact). exists (S j'), t0. split_and!; [done|done|]. by rewrite Nat.add_succ_r.
    + destruct (Hj2 j t0 Hlk) as (k0 & w0 & A & B & own & t' & -> & Ht' & Hab & Hen). exists k0, w0, (a1 ++ A), B, own, t'.
      split_and!; [by rewrite (assoc_L (++))|done| |by rewrite Nat.add_succ_r].
      intros a [Ha|Ha]%elem_of_app; [apply elem_of_app in Ha as [Ha|Ha]|].
      * exists 0, t. split_and!; [done|done|]. rewrite Nat.add_0_r. by eapply Forall_forall.
      * destruct (Hab a) as (j' & t1' & Hne & Hj' & Hact); [apply elem_of_app; by left|]. exists (S j'), t1'. split_and!; [lia|done|]. by rewrite Nat.add_succ_r.
      * destruct (Hab a) as (j' & t1' & Hne & Hj' & Hact); [apply elem_of_app; by right|]. exists (S j'), t1'. split_and!; [lia|done|]. by rewrite Nat.add_succ_r.
Qed.

Definition action_outs (a : SweepAction) : list HealthOut :=
  match a with
  | SweepPing p k => [HealthPing p k]
  | SweepWarn n warns => [HealthLog (HlthPingWarn (hlth_name n)); HealthTlm CHANID_PING_LATE_WARNINGS warns]
  | SweepFatal n => [HealthLog (HlthPingLate (hlth_name n))]
  end.

Lemma emit_actions_wp acts h :
  Forall (λ a, match a with SweepPing p _ => p < HEALTH_PING_PORTS | _ => True end) acts →
  wp (emit_actions w acts : M unit) h (λ _ h' o, h' = h ∧ o = acts ≫= action_outs).
Proof.
  induction 1 as [|a acts Ha _ IH]; cbn [emit_actions]; [by wp_steps|]. apply wp_bind. eapply wp_mono with (Q := λ _ h' o, h' = h ∧ o = action_outs a).
  - destruct a as [p k|n ws|n]; cbn [emit_action action_outs]; [|by wp_steps..]. eapply wp_assert; [|by wp_steps].
    rewrite Hsend, lookup_replicate_2 by done. done.
  - intros [] h' o [-> ->]. eapply wp_mono; [exact IH|]. intros [] h'' o'' [-> ->]. done.
Qed.

Lemma other_actions i n (ts : list PingTracker) acts :
  (∀ j t, j ≠ i → ts !! j = Some t → hlth_name (entry_name (tracked_entry t)) ≠ n) →
  (∀ a, a ∈ acts → ∃ j t, j ≠ i ∧ ts !! j = Some t ∧ action_of j t a) → about_others i n (acts ≫= action_outs).
Proof.
  intros Hn. induction acts as [|a acts IH]; intros Ha; [done|]. cbn. apply about_others_app.
  - destruct (Ha a) as (j & t & Hj & Ht & Hact); [by left|]. specialize (Hn j t Hj Ht). destruct a as [p k|m ws|m]; cbn in Hact; subst; split; cbn [action_outs]; rewrite ?times_cons, ?times_nil; cbn; try done; by rewrite bool_decide_eq_false_2.
  - apply IH. intros a' Ha'. apply Ha. by right.
Qed.

(** What a Run reports of a target that has waited for [c] Runs. *)
Record reported (i : nat) (e : PingEntry) (c : Z) (o : list HealthOut) : Prop := {
  rep_late : times (late_of (hlth_name (entry_name e))) o = if bool_decide (c ≠ 0 ∧ c = fatal_cycles e)%Z then 1 else 0;
  rep_warn : times (warn_of (hlth_name (entry_name e))) o = if bool_decide (c ≠ 0 ∧ c ≠ fatal_cycles e ∧ c = warn_cycles e)%Z then 1 else 0;
  rep_ping : times (ping_of i) o = if bool_decide (c = 0)%Z then 1 else 0;
  rep_stroke : times stroke o = 1;
}.

Lemma own_actions i e c k0 w0 k code :
  let o := tracker_actions i k0 w0 (MkTracker e c k true) ≫= action_outs in reported i e c (o ++ [HealthStroke code]).
Proof.
  cbn zeta. unfold tracker_actions. cbn [cycle_count tracked_entry].
  destruct (Z.eqb_spec c 0) as [->|H0]; [|destruct (Z.eqb_spec c (fatal_cycles e)) as [Hf|Hf]; [|destruct (Z.eqb_spec c (warn_cycles e)) as [Hw|Hw]]];
    split; rewrite times_app; cbn; rewrite ?times_cons, ?times_nil; cbn; repeat case_bool_decide; naive_solver lia.
Qed.

Lemma sweep_wp i e c b h :
  health_ok b h → waiting i e c h → (b + 1 < 2 ^ 26)%Z →
  wp (sweep w : M unit) h (λ _ h' o, health_ok (b + 1) h' ∧ waiting i e (c + 1) h' ∧ reported i e c o).
Proof.
  intros [Hl Hn Hc Hw Hdp] [Hi He (k & Ht) Hd] Hb. unfold sweep, sweep_table. wp_steps. rewrite bool_decide_eq_true_2 by done.
  assert (length (take (num_entries h) (trackers h)) = num_entries h) as Hlt by (rewrite length_take; lia).
  destruct (sweep_trackers_ok b (take (num_entries h) (trackers h)) 0 (next_key h) (warnings h)) as (ts & key & ws & acts & E & Hlts & Hcs & Hws & Hent & Hacts & Hown).
  { by apply Forall_take. } { lia. } { lia. } { rewrite Hlt. unfold HEALTH_PING_PORTS in *. lia. }
  eapply wp_lift; [exact E|]. cbv beta iota. wp_steps. set (h1 := set_swept _ key ws h).
  destruct (Hown i (MkTracker e c k true)) as (k0 & w0 & A & B & own & t' & Ea & Ht' & Hab & Hen); [by apply lookup_take_Some|]. destruct (Hen eq_refl) as (Eown & Hc' & He').
  assert (tracked_entry t' = e) as Hte by (destruct (Hent i t' Ht') as (t & Htk & ->); apply lookup_take_Some in Htk as [Htk _]; rewrite Ht in Htk; by injection Htk as <-).
  assert (∀ j, j < num_entries h → trackers h1 !! j = ts !! j) as Hlk by (intros j Hj; cbn; rewrite lookup_app_l by lia; done).
  apply wp_bind. eapply wp_mono; [apply emit_actions_wp|].
  { apply Forall_forall. intros a Ha. destruct (Hacts a Ha) as (j & t & Hj & Hact). apply lookup_lt_Some in Hj. destruct a; cbn in Hact; [|done..]. lia. }
  intros [] h2 o2 [-> ->]. rewrite Hdog. cbn [when]. wp_steps. split_and!.
  - rewrite Hlt in Hws, Hlts. clear Hlt Hlk. unfold HEALTH_PING_PORTS in *. split; cbn; unfold HEALTH_PING_PORTS; [rewrite length_app, length_drop; lia|done| |lia|done]. apply Forall_app. split; [done|]. apply Forall_drop. eapply Forall_impl; [exact Hc|]. cbn. lia.
  - split; [done|done| |].
    + exists (ping_key t'). rewrite Hlk by done. rewrite Ht'. destruct t'; cbn in *; congruence.
    + intros j t Hj Hlt' Hlkj. rewrite Hlk in Hlkj by done. destruct (Hent j t Hlkj) as (t0 & Ht0 & ->). apply lookup_take_Some in Ht0 as [Ht0 _]. by apply (Hd j).
  - assert (about_others i (hlth_name (entry_name e)) ((A ++ B) ≫= action_outs)) as Hoth.
    { apply (other_actions i _ (take (num_entries h) (trackers h))); [|exact Hab]. intros j t Hj Htk. apply lookup_take_Some in Htk as [Htk Hlt2]. by apply (Hd j). }
    rewrite Ea, !bind_app. rewrite bind_app in Hoth. destruct (own_actions i e c k0 w0 k (watchdog_code h1)) as [R1 R2 R3 R4]. cbn [Nat.add] in Eown. rewrite <- Eown in R1, R2, R3, R4. destruct Hoth as [O1 O2 O3 O4].
    rewrite times_app in O1, O2, O3, O4. rewrite times_app in R1, R2, R3, R4. cbn [app]. split; rewrite !times_app; lia.
Qed.

(** ** Runs over the queue *)

Inductive HealthOp : Set := HealthCallOp (c : HealthCall) | HealthRunOp.

Context `{QueueLaws D}.
Local Notation holding := (holds (QC := health_calls w) dep PING_RETURN_PRIORITY).

Definition health_step (x : HealthOp) : CompM (QueuedBase D * Health) HealthOut unit :=
  match x with HealthCallOp c => health_invoke c | HealthRunOp => health_run w end.
Fixpoint health_steps (xs : list HealthOp) : CompM (QueuedBase D * Health) HealthOut unit :=
  match xs with [] => mret tt | x :: xs => _ ← health_step x; health_steps xs end.

(** The calls between two Runs fit the queue; [k] are queued. *)
Fixpoint bursts_fit (k : nat) (xs : list HealthOp) : bool :=
  match xs with
  | [] => true
  | HealthCallOp _ :: xs => bool_decide (k < dep) && bursts_fit (S k) xs
  | HealthRunOp :: xs => bursts_fit 0 xs
  end.
Definition op_ok (i : nat) (e : PingEntry) (x : HealthOp) : Prop :=
  match x with HealthCallOp c => health_call_ok c ∧ spares i e c = true | HealthRunOp => True end.
Fixpoint runs (xs : list HealthOp) : nat := match xs with [] => 0 | HealthRunOp :: xs => S (runs xs) | _ :: xs => runs xs end.

Lemma drain_wp i e c b pend : ∀ qb h k n,
  holding qb pend n → length pend ≤ k → health_ok b h → waiting i e c h → Forall (λ x, spares i e x = true) pend →
  wp (drain w k) (qb, h) (λ _ s o, holding s.1 [] n ∧ undisturbed i e c b s.2 o).
Proof.
  induction pend as [|x pend IH]; intros qb h k n Hq Hk Hh Hw Hs.
  - destruct k as [|k]; cbn [drain]; [wp_steps; split_and!; done|]. destruct (dispatch_empty (QC := health_calls w) dep PING_RETURN_PRIORITY qb h n Hq) as (qb' & E & Hq').
    apply wp_bind. unfold wp at 1. rewrite E. wp_steps. split_and!; done.
  - destruct k as [|k]; cbn [length] in Hk; [lia|]. cbn [drain]. apply Forall_cons in Hs as [Hx Hs]. pose proof (holds_calls _ _ _ _ _ Hq) as Hok. apply Forall_cons in Hok as [Hokx _].
    destruct (dispatch_call_runs (QC := health_calls w) dep PING_RETURN_PRIORITY qb x pend h n Hq) as (qb' & Hq' & E).
    pose proof (spared_call_wp i e c b x h Hh Hw Hokx Hx) as Hc. unfold wp in Hc. apply wp_bind. unfold wp at 1. rewrite E. cbn [qc_handler health_calls].
    destruct (health_handler w x h) as [[[[] h1] o1]|]; [|done]. cbn [mbind outcome_bind]. destruct Hc as (H1 & W1 & A1).
    eapply wp_mono; [apply (IH qb' h1 k n Hq'); [lia|done..]|]. intros [] s' o (H2 & H3 & H4 & H5). split; [done|]. split; [done|]. split; [done|]. by apply about_others_app.
Qed.

Lemma health_run_wp i e c b qb h pend n :
  holding qb pend n → length pend ≤ dep → health_ok b h → waiting i e c h → Forall (λ x, spares i e x = true) pend → (b + 1 < 2 ^ 26)%Z →
  wp (health_run w) (qb, h) (λ _ s o, holding s.1 [] n ∧ health_ok (b + 1) s.2 ∧ waiting i e (c + 1) s.2 ∧ reported i e c o).
Proof.
  intros Hq Hl Hh Hw Hs Hb. unfold health_run. wp_steps. cbn [snd]. rewrite (ok_depth _ _ Hh). apply wp_bind. eapply wp_mono; [by eapply drain_wp|].
  intros [] [qb1 h1] o1 (Hq1 & H1 & W1 & [A1 A2 A3 A4]). cbn [fst snd] in *. pose proof (sweep_wp i e c b h1 H1 W1 Hb) as Hsw. unfold wp, on_component in *.
  destruct (sweep w h1) as [[[[] h2] o2]|]; [|done]. cbn. destruct Hsw as (H2 & W2 & [R1 R2 R3 R4]). split_and!; [done|done|done|].
  split; rewrite times_app; lia.
Qed.

Lemma health_invoke_wp c qb h pend n :
  holding qb pend n → health_call_ok c → length pend < dep → (n < 2 ^ 64 - 1)%Z →
  wp (health_invoke c) (qb, h) (λ _ s o, holding s.1 (pend ++ [c]) (n + 1) ∧ s.2 = h ∧ o = []).
Proof.
  intros Hq Hc Hl Hn. destruct (health_call_writes c Hc) as (Hwr & Hby & Hlen). destruct (written_ok MSG_SIZE _ _ Hwr Hby Hlen) as (msg & Em & Hmsg).
  pose proof (send_call (QC := health_calls w) dep PING_RETURN_PRIORITY qb pend n c msg PolicyAssert Hq Hc Hn (or_introl eq_refl) Hmsg) as Hs. rewrite decide_True in Hs by done.
  destruct Hs as (qb' & E & Hq'). unfold wp, health_invoke. replace (health_priority c) with PING_RETURN_PRIORITY by (by destruct c). rewrite Em, outcome_bind_ret, E, outcome_bind_ret. done.
Qed.

(** What [r] Runs report of a target that has waited for [c] Runs before. *)
Record hung (i : nat) (e : PingEntry) (c : Z) (r : nat) (o : list HealthOut) : Prop := {
  hung_late : times (late_of (hlth_name (entry_name e))) o = if bool_decide (c ≤ fatal_cycles e < c + Z.of_nat r)%Z then 1 else 0;
  hung_warn : times (warn_of (hlth_name (entry_name e))) o = if bool_decide (warn_cycles e < fatal_cycles e ∧ c ≤ warn_cycles e < c + Z.of_nat r)%Z then 1 else 0;
  hung_ping : times (ping_of i) o = if bool_decide (c = 0%Z ∧ 0 < r) then 1 else 0;
  hung_stroke : times stroke o = r;
}.

Lemma hung_run i e c r o o' :
  (0 ≤ c)%Z → (1 ≤ warn_cycles e ≤ fatal_cycles e)%Z → reported i e c o → hung i e (c + 1) r o' → hung i e c (S r) (o ++ o').
Proof.
  intros Hc He [R1 R2 R3 R4] [H1 H2 H3 H4]. split; rewrite times_app, ?R1, ?R2, ?R3, ?R4, ?H1, ?H2, ?H3, ?H4; [repeat case_bool_decide; lia..|done].
Qed.

Lemma health_steps_wp i e xs : (1 ≤ warn_cycles e ≤ fatal_cycles e)%Z → ∀ qb h pend n b c,
  holding qb pend n → length pend ≤ dep → Forall (op_ok i e) xs → bursts_fit (length pend) xs = true →
  health_ok b h → waiting i e c h → Forall (λ x, spares i e x = true) pend → (0 ≤ c)%Z →
  (b + Z.of_nat (runs xs) < 2 ^ 26)%Z → (n + Z.of_nat (length xs) < 2 ^ 64 - 1)%Z →
  wp (health_steps xs) (qb, h) (λ _ s o, waiting i e (c + Z.of_nat (runs xs)) s.2 ∧ hung i e c (runs xs) o).
Proof.
  intros He. induction xs as [|x xs IH]; intros qb h pend n b c Hq Hl Hxs Hf Hh Hw Hs Hc Hb Hn; cbn [health_steps runs length] in *.
  { wp_steps. cbn. rewrite Z.add_0_r. split; [done|]. split; rewrite times_nil; try done; (rewrite bool_decide_eq_false_2; [done|naive_solver lia]). }
  apply Forall_cons in Hxs as [Hx Hxs]. apply wp_bind. destruct x as [y|]; cbn [health_step bursts_fit op_ok] in *.
  - apply andb_true_iff in Hf as [Hlt%bool_decide_eq_true Hf]. destruct Hx as [Hy Hsp]. eapply wp_mono; [apply (health_invoke_wp y qb h pend n); [done|done|done|lia]|].
    intros [] [qb1 h1] o1 (Hq1 & E & ->). cbn in Hq1, E. subst h1. eapply (IH qb1 h (pend ++ [y]) (n + 1)%Z b c); try done; rewrite ?length_app, ?Nat.add_1_r; try done; try lia.
    apply Forall_app. by split; [|constructor].
  - eapply wp_mono; [eapply health_run_wp; try done; lia|]. intros [] [qb1 h1] o1 (Hq1 & H1 & W1 & R1). cbn [fst snd] in *.
    eapply wp_mono; [eapply (IH qb1 h1 [] n (b + 1)%Z (c + 1)%Z); try done; cbn; lia|]. intros [] s o [W2 H2]. split; [by replace (c + Z.of_nat (S (runs xs)))%Z with (c + 1 + Z.of_nat (runs xs))%Z by lia|].
    by apply hung_run.
Qed.

(** A call more than the queue holds between two Runs fails the assertion of
    the queue-full policy. *)
Lemma health_invoke_full c qb h pend n :
  holding qb pend n → health_call_ok c → ¬ length pend < dep → (n < 2 ^ 64 - 1)%Z → health_invoke c (qb, h) = Panic.
Proof.
  intros Hq Hc Hl Hn. destruct (health_call_writes c Hc) as (Hwr & Hby & Hlen). destruct (written_ok MSG_SIZE _ _ Hwr Hby Hlen) as (msg & Em & Hmsg).
  pose proof (send_call (QC := health_calls w) dep PING_RETURN_PRIORITY qb pend n c msg PolicyAssert Hq Hc Hn (or_introl eq_refl) Hmsg) as Hs. rewrite decide_False in Hs by done.
  unfold health_invoke. replace (health_priority c) with PING_RETURN_PRIORITY by (by destruct c). by rewrite Em, outcome_bind_ret, Hs.
Qed.

Lemma health_steps_overflow i e xs : ∀ qb h pend n b c,
  holding qb pend n → length pend ≤ dep → Forall (op_ok i e) xs → bursts_fit (length pend) xs = false →
  health_ok b h → waiting i e c h → Forall (λ x, spares i e x = true) pend →
  (b + Z.of_nat (runs xs) < 2 ^ 26)%Z → (n + Z.of_nat (length xs) < 2 ^ 64 - 1)%Z →
  health_steps xs (qb, h) = Panic.
Proof.
  induction xs as [|x xs IH]; intros qb h pend n b c Hq Hl Hxs Hf Hh Hw Hs Hb Hn; cbn [health_steps runs length] in *; [done|].
  apply Forall_cons in Hxs as [Hx Hxs]. unfold mbind, CompM_bind. destruct x as [y|]; cbn [health_step bursts_fit op_ok] in *.
  - destruct Hx as [Hy Hsp]. destruct (decide (length pend < dep)) as [Hlt|Hlt]; [|by rewrite (health_invoke_full y qb h pend n) by (done || lia)].
    rewrite (bool_decide_eq_true_2 _ Hlt) in Hf. cbn [andb] in Hf.
    destruct (proj1 (wp_returns _ _ _) (health_invoke_wp y qb h pend n Hq Hy Hlt ltac:(lia))) as ([] & [qb1 h1] & o1 & -> & Hq1 & E & ->).
    cbn in Hq1, E. subst h1. rewrite (IH qb1 h (pend ++ [y]) (n + 1)%Z b c); try done; rewrite ?length_app, ?Nat.add_1_r; try done; try lia.
    apply Forall_app. by split; [|constructor].
  - assert (wp (health_run w) (qb, h) (λ _ s o, holding s.1 [] n ∧ health_ok (b + 1) s.2 ∧ waiting i e (c + 1) s.2 ∧ reported i e c o)) as Hwp by (eapply health_run_wp; try done; lia).
    destruct (proj1 (wp_returns _ _ _) Hwp) as ([] & [qb1 h1] & o1 & -> & Hq1 & H1 & W1 & _). cbn [fst snd] in *.
    rewrite (IH qb1 h1 [] n (b + 1)%Z (c + 1)%Z); try done; cbn; lia.
Qed.

(** A configured component. *)
Lemma configured_ready entries code h i e :
  set_ping_entries entries code Health_new = Ret h → entries !! i = Some e →
  (∀ j e', j ≠ i → entries !! j = Some e' → hlth_name (entry_name e') ≠ hlth_name (entry_name e)) →
  health_ok 0 (set_depth dep h) ∧ waiting i e 0 (set_depth dep h).
Proof.
  unfold set_ping_entries, fw_assert, Health_new. intros E Hi Hd.
  pose proof (length_replicate HEALTH_PING_PORTS PingTracker_default) as Hl0. pose proof (Forall_replicate (λ t, 0 ≤ cycle_count t ≤ 0)%Z HEALTH_PING_PORTS PingTracker_default ltac:(cbn; lia)) as Hc0.
  set (ts0 := replicate HEALTH_PING_PORTS PingTracker_default) in *. clearbody ts0.
  destruct (decide (length entries ≤ HEALTH_PING_PORTS)) as [Hl|Hl]; [rewrite (bool_decide_eq_true_2 _ Hl) in E|by rewrite (bool_decide_eq_false_2 _ Hl) in E].
  cbn in E. destruct (bool_decide _) in E; [|done]. injection E as <-.
  assert (∀ j, j < length entries → ((fresh_tracker <$> entries) ++ drop (length entries) ts0) !! j = fresh_tracker <$> entries !! j) as Hlk.
  { intros j Hj. rewrite lookup_app_l by (by rewrite length_fmap). apply list_lookup_fmap. }
  split; split; cbn [trackers num_entries warnings health_depth check_enabled set_depth].
  - rewrite length_app, length_fmap, length_drop. lia.
  - done.
  - apply Forall_app. split; [apply Forall_fmap, Forall_true; cbn; lia|]. by apply Forall_drop.
  - lia.
  - done.
  - by eapply lookup_lt_Some.
  - done.
  - exists 0%Z. rewrite Hlk, Hi by (by eapply lookup_lt_Some). done.
  - intros j t Hj Hlt Ht. rewrite Hlk in Ht by done. destruct (entries !! j) as [e'|] eqn:Ej; [|done]. injection Ht as <-. by eapply Hd.
Qed.
End runs.

(** C18. A hung target is always noticed.  Let target [i], whose name no other
    entry has and whose warning threshold is at least one, never answer, while
    the other targets answer as they like (late, with wrong keys, at any
    time), and any commands arrive, well-formed or not, except [HLTH_ENABLE]
    (which turns all checking off) and those that name that entry.  The queue
    is one that can be created ([queue_fits]), and fewer than 2^26 Runs and
    2^64 - 1 calls are considered.  Then, over the serialized messages and
    the priority queue: when at some point more calls arrive between two Runs
    than the queue is deep, Health panics (its queue-full policy is to
    assert); otherwise it does not panic, strokes the watchdog at every
    Run, pings the target once, and reports it exactly when its thresholds
    say: one warning at the Run [warn_cycles] after the ping, one FATAL at the
    Run [fatal_cycles] after it (only the FATAL when both are the same), and
    none before, after, or again. *)
Theorem health_reports_hang `{BuildProfile} (w : HealthWiring) (dep : nat) (entries : list PingEntry) (code : Z) (i : nat) (e : PingEntry) (xs : list HealthOp) :
  hlth_response w = true → ping_send w = replicate HEALTH_PING_PORTS true → wdog_stroke w = true → queue_fits dep MSG_SIZE →
  length entries ≤ HEALTH_PING_PORTS → Forall (λ e, warn_cycles e ≤ fatal_cycles e)%Z entries → entries !! i = Some e → (1 ≤ warn_cycles e)%Z →
  (∀ j e', j ≠ i → entries !! j = Some e' → hlth_name (entry_name e') ≠ hlth_name (entry_name e)) →
  Forall (op_ok w i e) xs → (Z.of_nat (runs xs) < 2 ^ 26)%Z → (Z.of_nat (length xs) < 2 ^ 64 - 1)%Z →
  ∃ h s, set_ping_entries entries code Health_new = Ret h ∧ health_init (D := PriorityQueue) dep h = Ret s ∧
    if bursts_fit dep 0 xs then ∃ s' o, health_steps w xs s = Ret (tt, s', o) ∧ hung i e 0 (runs xs) o
    else health_steps w xs s = Panic.
Proof.
  intros Hresp Hsend Hdog Hdep Hl Hes Hi Hw Hd Hxs Hr Hlen.
  assert (∃ h, set_ping_entries entries code Health_new = Ret h) as [h Eh] by (unfold set_ping_entries; rewrite !bool_decide_eq_true_2 by done; cbn; eauto).
  destruct (configured_ready dep entries code h i e Eh Hi Hd) as [H0 W0].
  destruct (create_queue_holds (QC := health_calls w) (D := PriorityQueue) dep PING_RETURN_PRIORITY) as (qb & Eq & Hq); [exact Hdep|].
  assert (1 ≤ warn_cycles e ≤ fatal_cycles e)%Z as He by (split; [done|]; by eapply (Forall_lookup_1 _ _ _ _ Hes)).
  exists h, (qb, set_depth dep h). split; [done|]. split; [unfold health_init; by rewrite Eq|]. destruct (bursts_fit dep 0 xs) eqn:Hf.
  - pose proof (health_steps_wp w dep Hresp Hsend Hdog (D := PriorityQueue) i e xs He qb (set_depth dep h) [] 0 0 0 Hq) as Hwp.
    assert (wp (health_steps w xs) (qb, set_depth dep h) (λ _ s o, waiting i e (0 + Z.of_nat (runs xs)) s.2 ∧ hung i e 0 (runs xs) o)) as Hwp' by (apply Hwp; try done; cbn; lia).
    apply wp_returns in Hwp' as ([] & s' & o & E & _ & Hh). by exists s', o.
  - apply (health_steps_overflow w dep Hresp Hsend Hdog (D := PriorityQueue) i e xs qb (set_depth dep h) [] 0 0 0 Hq); try done; cbn; lia.
Qed.

Lemma health_reports_hang_witness :
  let P := true : BuildProfile in
  let w := MkHealthWiring (replicate HEALTH_PING_PORTS true) true true 0 in
  let e := PingEntry_new 1 2 [97]%Z in
  let xs := [HealthRunOp; HealthCallOp (CallPingReturn 1 1); HealthCallOp (CallPingReturn 1 7); HealthCallOp (CallHealthCmd 0 9 3 (SerBuf [] 0 0)); HealthRunOp; HealthRunOp; HealthRunOp] in
  ∃ h s s' o, set_ping_entries [e; PingEntry_new 3 5 [98]%Z] 11 Health_new = Ret h ∧ health_init (D := PriorityQueue) 4 h = Ret s ∧
    health_steps w xs s = Ret (tt, s', o) ∧ hung 0 e 0 4 o ∧
    times (warn_of [97]%Z) o = 1 ∧ times (late_of [97]%Z) o = 1 ∧ times (ping_of 0) o = 1 ∧ times (ping_of 1) o = 2.
Proof.
  intros P w e xs. destruct (health_reports_hang w 4 [e; PingEntry_new 3 5 [98]%Z] 11 0 e xs) as (h & s & E1 & E2 & s' & o & E3 & Hh); try done; try lia.
  - by apply (bool_decide_unpack _).
  - unfold HEALTH_PING_PORTS. cbn. lia.
  - repeat constructor; done.
  - intros [|[|j]] e' Hj He'; [done| |done]. injection He' as <-. done.
  - repeat constructor; try done; by vm_compute.
  - exists h, s, s', o. split_and!; try done; vm_compute in E1; injection E1 as <-; vm_compute in E2; injection E2 as <-; vm_compute in E3; by injection E3 as <- <-.
Defined.
