(* ===== verification/ComRetry.v ===== *)
(** The resender of downlink buffers [Svc::ComRetry],
    [crates/fprime-svc/src/com_retry.rs], and the protocol of the link between
    a sender and a communication adapter, which it keeps on both its sides.

    A handler releases its lock before it calls a port, and every change of
    state is made before the call, so a call from inside an output port sees
    the state after the handler; [cr_status_in] emits the buffer it returns
    and then the status, as the code calls the ports. *)

From stdpp Require Import list.
From S2P Require Import Prelude Serial SerialFacts Fpp Buffer Comp.

(** * Data *)

#[export] Instance FrameContext_eq_dec : EqDecision FrameContext.
Proof. solve_decision. Defined.

Inductive RetryState : Set := WaitingForStatus | WaitingForSend | Retrying.
#[export] Instance RetryState_eq_dec : EqDecision RetryState.
Proof. solve_decision. Defined.
Inductive Ownership : Set := NotOwned | Owned.
#[export] Instance Ownership_eq_dec : EqDecision Ownership.
Proof. solve_decision. Defined.

Record ComRetry : Set := MkComRetry {
  num_retries : Z;
  retry_count : Z;
  retry_state : RetryState;
  kept_context : FrameContext;
  kept_buffer : option Buffer;
  buffer_state : Ownership;
}.

Definition DEFAULT_NUM_RETRIES : Z := 3.
Definition ComRetry_new : ComRetry := MkComRetry DEFAULT_NUM_RETRIES 0 WaitingForSend FrameContext_default None Owned.

Inductive RetryOut : Set :=
| CrDataOut (b : Buffer) (ctx : FrameContext)
| CrReturnOut (b : Buffer) (ctx : FrameContext)
| CrStatusOut (st : Success).

(** What [comStatusIn] does once the lock is released. *)
Inductive RetryAction : Set :=
| ActStatusOut (st : Success)
| ActReturnThenStatus (b : Buffer) (ctx : FrameContext) (st : Success)
| ActResend (b : Buffer) (ctx : FrameContext)
| ActNothing.

(** * Operations *)

Section retry.
Context `{BuildProfile}.
Local Notation M := (CompM ComRetry RetryOut).

Definition cr_configure (n : Z) (s : ComRetry) : ComRetry :=
  MkComRetry n (retry_count s) (retry_state s) (kept_context s) (kept_buffer s) (buffer_state s).

Definition cr_move (st : RetryState) (count : Z) (b : option Buffer) (o : Ownership) (s : ComRetry) : ComRetry :=
  MkComRetry (num_retries s) count st (kept_context s) b o.

Definition buffer_valid (s : ComRetry) : bool := match kept_buffer s with Some b => is_valid b | None => false end.

(** [take_buffer]: the kept buffer, moved out by the [cr_move] that follows. *)
Definition take_buffer (s : ComRetry) : M Buffer :=
  match kept_buffer s with Some b => mret b | None => lift Panic end.

Definition decide_action (st : Success) : M RetryAction :=
  s ← get_state;
  _ ← assert (bool_decide (buffer_state s = Owned));
  match retry_state s, st with
  | WaitingForSend, _ => _ ← assert (negb (buffer_valid s)); mret (ActStatusOut st)
  | WaitingForStatus, Success_Success =>
      _ ← assert (buffer_valid s);
      b ← take_buffer s;
      _ ← put_state (cr_move WaitingForSend (retry_count s) None Owned s);
      mret (ActReturnThenStatus b (kept_context s) st)
  | Retrying, Success_Success =>
      _ ← assert (buffer_valid s);
      count ← lift (add_w 32 (retry_count s) 1);
      b ← take_buffer s;
      _ ← put_state (cr_move WaitingForStatus count None NotOwned s);
      mret (ActResend b (kept_context s))
  | Retrying, Success_Failure => lift Panic
  | WaitingForStatus, Success_Failure =>
      if (retry_count s <? num_retries s)%Z then
        _ ← put_state (cr_move Retrying (retry_count s) (kept_buffer s) (buffer_state s) s);
        mret ActNothing
      else
        b ← take_buffer s;
        _ ← put_state (cr_move WaitingForSend (retry_count s) None Owned s);
        mret (ActReturnThenStatus b (kept_context s) st)
  end.

Definition cr_status_in (st : Success) : M unit :=
  act ← decide_action st;
  match act with
  | ActStatusOut st => emit (CrStatusOut st)
  | ActReturnThenStatus b ctx st => _ ← emit (CrReturnOut b ctx); emit (CrStatusOut st)
  | ActResend b ctx => emit (CrDataOut b ctx)
  | ActNothing => mret tt
  end.

Definition cr_data_in (b : Buffer) (ctx : FrameContext) : M unit :=
  s ← get_state;
  _ ← assert (bool_decide (buffer_state s = Owned));
  _ ← assert (bool_decide (retry_state s = WaitingForSend));
  _ ← put_state (cr_move WaitingForStatus 0 (kept_buffer s) NotOwned s);
  emit (CrDataOut b ctx).

Definition cr_data_return_in (b : Buffer) (ctx : FrameContext) : M unit :=
  s ← get_state;
  _ ← assert (bool_decide (buffer_state s = NotOwned));
  _ ← assert (bool_decide (retry_state s = WaitingForStatus));
  put_state (MkComRetry (num_retries s) (retry_count s) (retry_state s) ctx (Some b) Owned).
End retry.

(** * The link protocol *)

(** One side sends, the other delivers: it returns the buffer sent and then
    reports; after a failure, and at the start, it reports when it is ready. *)
Inductive LinkEvent : Set :=
| LinkSend (b : Buffer) (ctx : FrameContext)
| LinkReturn (b : Buffer) (ctx : FrameContext)
| LinkStatus (st : Success).

Inductive Link : Set := LinkDown | LinkReady | LinkHolds (b : Buffer) (ctx : FrameContext) | LinkOwes.

Definition link_step (e : LinkEvent) (l : Link) : option Link :=
  match l, e with
  | LinkDown, LinkStatus Success_Success => Some LinkReady
  | LinkReady, LinkSend b ctx => if is_valid b then Some (LinkHolds b ctx) else None
  | LinkHolds b ctx, LinkReturn b' ctx' => if bool_decide (b' = b ∧ ctx' = ctx) then Some LinkOwes else None
  | LinkOwes, LinkStatus Success_Success => Some LinkReady
  | LinkOwes, LinkStatus Success_Failure => Some LinkDown
  | _, _ => None
  end.

(** * The component between two links *)

Inductive RetryOp : Set :=
| OpDataIn (b : Buffer) (ctx : FrameContext)
| OpReturnIn (b : Buffer) (ctx : FrameContext)
| OpStatusIn (st : Success).

Definition retry_step `{BuildProfile} (x : RetryOp) : CompM ComRetry RetryOut unit :=
  match x with
  | OpDataIn b ctx => cr_data_in b ctx
  | OpReturnIn b ctx => cr_data_return_in b ctx
  | OpStatusIn st => cr_status_in st
  end.

(** The links to the sender and to the adapter. *)
Record Links : Set := MkLinks { up : Link; down : Link }.
Definition on_up (e : LinkEvent) (l : Links) : option Links := u ← link_step e (up l); Some (MkLinks u (down l)).
Definition on_down (e : LinkEvent) (l : Links) : option Links := d ← link_step e (down l); Some (MkLinks (up l) d).

Definition input_event (x : RetryOp) : Links → option Links :=
  match x with
  | OpDataIn b ctx => on_up (LinkSend b ctx)
  | OpReturnIn b ctx => on_down (LinkReturn b ctx)
  | OpStatusIn st => on_down (LinkStatus st)
  end.
Definition output_event (o : RetryOut) : Links → option Links :=
  match o with
  | CrDataOut b ctx => on_down (LinkSend b ctx)
  | CrReturnOut b ctx => on_up (LinkReturn b ctx)
  | CrStatusOut st => on_up (LinkStatus st)
  end.
Fixpoint output_events (o : list RetryOut) (l : Links) : option Links :=
  match o with [] => Some l | x :: o => l ← output_event x l; output_events o l end.

(** Who breaks the protocol first, if anyone. *)
Inductive Verdict : Set := Kept (s : ComRetry) (l : Links) (o : list RetryOut) | EnvironmentBroke | RetryBroke.
Fixpoint drive `{BuildProfile} (xs : list RetryOp) (s : ComRetry) (l : Links) : Verdict :=
  match xs with
  | [] => Kept s l []
  | x :: xs =>
      match input_event x l with
      | None => EnvironmentBroke
      | Some l =>
          match retry_step x s with
          | Panic => RetryBroke
          | Ret (_, s, o) =>
              match output_events o l with
              | None => RetryBroke
              | Some l => match drive xs s l with Kept s l o' => Kept s l (o ++ o') | v => v end
              end
          end
      end
  end.

(** ** Exchanges *)

(** The attempts for a buffer, the buffer given back and its report. *)
Record Exchange : Set := MkExchange { attempts : list (Buffer * FrameContext); given_back : Buffer * FrameContext; report : Success }.

(** The outputs as exchanges, from an open one: its attempts so far and the
    buffer given back. *)
Definition OpenExchange : Set := list (Buffer * FrameContext) * option (Buffer * FrameContext).
Fixpoint exchanges (x : OpenExchange) (o : list RetryOut) : list Exchange * OpenExchange :=
  match o with
  | [] => ([], x)
  | CrDataOut b ctx :: o => exchanges (x.1 ++ [(b, ctx)], x.2) o
  | CrReturnOut b ctx :: o => exchanges (x.1, Some (b, ctx)) o
  | CrStatusOut st :: o =>
      match x.2 with
      | Some bc => let '(es, y) := exchanges ([], None) o in (MkExchange x.1 bc st :: es, y)
      | None => exchanges x o
      end
  end.

(** One buffer, tried [k] times, and reported failed only after all tries. *)
Definition exchange_ok (n : Z) (x : Exchange) : Prop :=
  ∃ k, attempts x = replicate (S k) (given_back x) ∧ (Z.of_nat k ≤ n)%Z ∧ (report x = Success_Failure → Z.of_nat k = n).

(** The buffers a sender passes in, and the one a link holds. *)
Definition sent (xs : list RetryOp) : list (Buffer * FrameContext) := xs ≫= λ x, match x with OpDataIn b ctx => [(b, ctx)] | _ => [] end.
Definition held (l : Link) : list (Buffer * FrameContext) := match l with LinkHolds b ctx => [(b, ctx)] | _ => [] end.

(** * Proofs *)

Section proofs.
Context `{BuildProfile} (n : Z) (Hn : is_u 32 n).

(** The state of the component for the states of its links and the attempts
    of the open exchange. *)
Definition retry_inv (s : ComRetry) (l : Links) (open : list (Buffer * FrameContext)) : Prop :=
  num_retries s = n ∧
  match up l with
  | LinkHolds b ctx =>
      is_valid b = true ∧ (0 ≤ retry_count s ≤ n)%Z ∧ open = replicate (S (Z.to_nat (retry_count s))) (b, ctx) ∧
      match down l with
      | LinkHolds b' ctx' => b' = b ∧ ctx' = ctx ∧ retry_state s = WaitingForStatus ∧ buffer_state s = NotOwned
      | LinkOwes => retry_state s = WaitingForStatus ∧ buffer_state s = Owned ∧ kept_buffer s = Some b ∧ kept_context s = ctx
      | LinkDown => retry_state s = Retrying ∧ buffer_state s = Owned ∧ kept_buffer s = Some b ∧ kept_context s = ctx ∧ (retry_count s < n)%Z
      | LinkReady => False
      end
  | LinkOwes => False
  | u => down l = u ∧ retry_state s = WaitingForSend ∧ buffer_state s = Owned ∧ kept_buffer s = None ∧ open = []
  end.

Lemma data_in_ok b ctx s l l1 open :
  retry_inv s l open → on_up (LinkSend b ctx) l = Some l1 →
  ∃ s', cr_data_in b ctx s = Ret (tt, s', [CrDataOut b ctx]) ∧ ∃ l', on_down (LinkSend b ctx) l1 = Some l' ∧ retry_inv s' l' (open ++ [(b, ctx)]) ∧ held (up l) ++ [(b, ctx)] = held (up l').
Proof.
  intros [Hnum Hi] E. destruct l as [u d]. unfold on_up, on_down in *. cbn [up down] in *. destruct u as [| |?|]; cbn in E; try done. destruct (is_valid b) eqn:Hv; [|done]. injection E as <-.
  destruct Hi as (-> & H1 & H2 & H3 & ->). eexists. split; [unfold cr_data_in, get_state, assert, put_state, emit, lift, mbind, CompM_bind; rewrite H1, H2; reflexivity|].
  cbn [up down link_step]. rewrite Hv. eexists. split; [reflexivity|]. split; [|done]. split; [done|]. cbn. unfold is_u in Hn. split_and!; try done; lia.
Qed.

Lemma return_in_ok b ctx s l l1 open :
  retry_inv s l open → on_down (LinkReturn b ctx) l = Some l1 →
  ∃ s', cr_data_return_in b ctx s = Ret (tt, s', []) ∧ retry_inv s' l1 open ∧ up l1 = up l.
Proof.
  intros [Hnum Hi] E. destruct l as [u d]. unfold on_down in *. cbn [up down] in *. destruct d as [| |b' ctx'|]; cbn in E; try done. case_bool_decide as Hb; [|done]. destruct Hb as [-> ->]. injection E as <-.
  destruct u as [| |b0 ctx0|]; cbn in Hi; try done; try (by destruct Hi). destruct Hi as (Hv & Hc & Ho & -> & -> & H1 & H2).
  eexists. split; [unfold cr_data_return_in, get_state, assert, put_state, lift, mbind, CompM_bind; rewrite H1, H2; reflexivity|]. split; [|done]. split; [done|]. cbn. done.
Qed.

Ltac run_handler := unfold cr_status_in, decide_action, take_buffer, buffer_valid, get_state, assert, put_state, emit, lift, mbind, CompM_bind; cbn -[is_valid add_w].
Lemma status_in_ok st s l l1 open :
  retry_inv s l open → on_down (LinkStatus st) l = Some l1 →
  ∃ s' o l' es open', cr_status_in st s = Ret (tt, s', o) ∧ output_events o l1 = Some l' ∧
    exchanges (open, None) o = (es, (open', None)) ∧ Forall (exchange_ok n) es ∧ retry_inv s' l' open' ∧ held (up l) = (given_back <$> es) ++ held (up l').
Proof.
  intros [Hnum Hi] E. destruct l as [u d], s as [m c r kc kb bs]. cbn in Hnum. subst m. unfold on_down in *. cbn [up down retry_count retry_state kept_context kept_buffer buffer_state] in *.
  destruct u as [| |b ctx|]; cbn [retry_inv] in Hi; [| | |done].
  - destruct Hi as (-> & -> & -> & -> & ->). destruct st; [done|]. injection E as <-. do 5 eexists. split; [reflexivity|]. split; [reflexivity|]. split; [reflexivity|]. done.
  - destruct Hi as (-> & _). by destruct st.
  - destruct Hi as (Hv & Hc & -> & Hd). destruct d as [| |b' ctx'|]; [|done|by destruct st|].
    + destruct Hd as (-> & -> & -> & -> & Hlt). destruct st; [done|]. injection E as <-.
      assert (add_w 32 c 1 = Ret (c + 1)%Z) as Ea by (apply overflowing_in; unfold is_u in *; lia).
      do 5 eexists. split; [run_handler; rewrite Hv; cbn -[is_valid add_w]; rewrite Ea; reflexivity|]. split; [cbn -[is_valid]; rewrite Hv; reflexivity|]. split; [reflexivity|]. split; [done|]. split; [|done]. split; [done|]. cbn. split_and!; try done; try lia.
      replace (Z.to_nat (c + 1)) with (S (Z.to_nat c)) by lia. cbn. f_equal. by rewrite <- replicate_S_end.
    + destruct Hd as (-> & -> & -> & ->). destruct st; injection E as <-.
      * destruct (Z.ltb_spec c n) as [Hlt|Hge].
        -- do 5 eexists. split; [run_handler; rewrite (proj2 (Z.ltb_lt _ _) Hlt); reflexivity|]. split; [reflexivity|]. split; [reflexivity|]. split; [done|]. split; [|done]. split; [done|]. cbn. done.
        -- do 5 eexists. split; [run_handler; rewrite (proj2 (Z.ltb_ge _ _) Hge); reflexivity|]. split; [cbn -[is_valid]; rewrite bool_decide_eq_true_2 by done; reflexivity|]. split; [reflexivity|]. split; [|done].
           constructor; [|done]. exists (Z.to_nat c). cbn. split_and!; [done|lia|lia].
      * do 5 eexists. split; [run_handler; rewrite Hv; reflexivity|]. split; [cbn -[is_valid]; rewrite bool_decide_eq_true_2 by done; reflexivity|]. split; [reflexivity|]. split; [|done].
        constructor; [|done]. exists (Z.to_nat c). cbn. split_and!; [done|lia|done].
Qed.

Lemma retry_step_ok x s l l1 open :
  retry_inv s l open → input_event x l = Some l1 →
  ∃ s' o l' es open', retry_step x s = Ret (tt, s', o) ∧ output_events o l1 = Some l' ∧
    exchanges (open, None) o = (es, (open', None)) ∧ Forall (exchange_ok n) es ∧ retry_inv s' l' open' ∧ held (up l) ++ sent [x] = (given_back <$> es) ++ held (up l').
Proof.
  intros Hi E. destruct x as [b ctx|b ctx|st]; cbn [input_event retry_step] in *.
  - destruct (data_in_ok b ctx s l l1 open Hi E) as (s' & E1 & l' & E2 & Hi' & Hh). exists s', [CrDataOut b ctx], l', [], (open ++ [(b, ctx)]). cbn [output_events output_event]. rewrite E2. done.
  - destruct (return_in_ok b ctx s l l1 open Hi E) as (s' & E1 & Hi' & Hh). exists s', [], l1, [], open. cbn [sent list_bind mbind]. rewrite Hh, app_nil_r. done.
  - destruct (status_in_ok st s l l1 open Hi E) as (s' & o & l' & es & open' & H1 & H2 & H3 & H4 & H5 & H6). exists s', o, l', es, open'. cbn [sent mbind list_bind]. by rewrite app_nil_r.
Qed.

Lemma exchanges_app o o' : ∀ x, exchanges x (o ++ o') = let '(es, y) := exchanges x o in let '(es', z) := exchanges y o' in (es ++ es', z).
Proof.
  induction o as [|[b ctx|b ctx|st] o IH]; intros x; cbn [app exchanges]; [by destruct (exchanges x o')|apply IH|apply IH|].
  destruct x.2; [|apply IH]. rewrite IH. destruct (exchanges ([], None) o) as [es y]. destruct (exchanges y o'). done.
Qed.

(** A run keeps the protocol of both links as long as the others do. *)
Lemma drive_ok xs : ∀ s l open, retry_inv s l open →
  match drive xs s l with
  | Kept s' l' o => ∃ es open', exchanges (open, None) o = (es, (open', None)) ∧ Forall (exchange_ok n) es ∧ retry_inv s' l' open' ∧
      held (up l) ++ sent xs = (given_back <$> es) ++ held (up l')
  | EnvironmentBroke => True
  | RetryBroke => False
  end.
Proof.
  induction xs as [|x xs IH]; intros s l open Hi; cbn [drive].
  { exists [], open. cbn. rewrite app_nil_r. done. }
  destruct (input_event x l) as [l1|] eqn:E; [|done].
  destruct (retry_step_ok x s l l1 open Hi E) as (s1 & o & l2 & es & open1 & -> & -> & Ex & Hes & Hi1 & Hh).
  specialize (IH s1 l2 open1 Hi1). destruct (drive xs s1 l2) as [s' l' o'| |]; [|done..]. destruct IH as (es' & open' & Ex' & Hes' & Hi' & Hh').
  exists (es ++ es'), open'. rewrite exchanges_app, Ex, Ex'. split; [done|]. split; [by apply Forall_app|]. split; [done|].
  assert (sent (x :: xs) = sent [x] ++ sent xs) as -> by (by destruct x). rewrite app_assoc, Hh, <- app_assoc, Hh', fmap_app, app_assoc. done.
Qed.
End proofs.

(** C19. [Svc::ComRetry] keeps the protocol of a communication link on both
    its sides: whatever its sender and its adapter do, it is never the first
    to break the protocol and never panics while they keep it, so it can stand
    in for an adapter.  A buffer passed in is sent unchanged, up to
    [num_retries] times more while deliveries fail, and is given back exactly
    once, in order, with its report; the report is a failure only when every
    one of the [num_retries + 1] attempts failed. *)
Theorem retry_keeps_link `{BuildProfile} (n : Z) (xs : list RetryOp) :
  is_u 32 n →
  match drive xs (cr_configure n ComRetry_new) (MkLinks LinkDown LinkDown) with
  | Kept s l o => ∃ es open, exchanges ([], None) o = (es, (open, None)) ∧ Forall (exchange_ok n) es ∧ sent xs = (given_back <$> es) ++ held (up l) ∧
      (∀ b ctx, up l = LinkHolds b ctx → ∃ k, open = replicate (S k) (b, ctx) ∧ (Z.of_nat k ≤ n)%Z)
  | EnvironmentBroke => True
  | RetryBroke => False
  end.
Proof.
  intros Hn. pose proof (drive_ok n Hn xs (cr_configure n ComRetry_new) (MkLinks LinkDown LinkDown) []) as Hd.
  destruct (drive _ _ _) as [s l o| |]; [|done|by apply Hd]. destruct Hd as (es & open & E & Hes & [_ Hi] & Hh); [done|].
  exists es, open. split_and!; [done|done|done|]. intros b ctx Hu. rewrite Hu in Hi. destruct Hi as (_ & Hc & -> & _). exists (Z.to_nat (retry_count s)). split; [done|lia].
Qed.

(** One buffer fails twice with a budget of one, the next is delivered at the
    second attempt, a third is still with the adapter. *)
Lemma retry_keeps_link_witness :
  let P := true : BuildProfile in
  let b i := (from_storage [0; i]%Z 1) in
  let failed i := [OpReturnIn (b i) FrameContext_default; OpStatusIn Success_Failure; OpStatusIn Success_Success] in
  let xs := [OpStatusIn Success_Success; OpDataIn (b 7%Z) FrameContext_default] ++ failed 7%Z ++ failed 7%Z ++ OpDataIn (b 8%Z) FrameContext_default :: failed 8%Z ++
    [OpReturnIn (b 8%Z) FrameContext_default; OpStatusIn Success_Success; OpDataIn (b 9%Z) FrameContext_default] in
  ∃ s l o es open, drive xs (cr_configure 1 ComRetry_new) (MkLinks LinkDown LinkDown) = Kept s l o ∧ exchanges ([], None) o = (es, (open, None)) ∧
    Forall (exchange_ok 1) es ∧ report <$> es = [Success_Failure; Success_Success] ∧ length ∘ attempts <$> es = [2; 2] ∧ open = [(b 9%Z, FrameContext_default)].
Proof.
  intros P b failed xs. pose proof (retry_keeps_link 1 xs ltac:(unfold is_u; lia)) as Hd.
  destruct (drive xs _ _) as [s l o| |] eqn:E; [|by vm_compute in E..]. destruct Hd as (es & open & Ex & Hes & _ & _).
  exists s, l, o, es, open. vm_compute in E. injection E as <- <- <-. vm_compute in Ex. injection Ex as <- <-. split_and!; done.
Defined.
