(* ===== verification/ComQueueLink.v ===== *)
(** [Svc::ComQueue] as the sender of a communication link: driven by a
    component behind it that keeps the link protocol of [ComRetry], it keeps
    its own side, which discharges the protocol its other theorems assume. *)

From stdpp Require Import list sorting.
From S2P Require Import Prelude Serial SerialFacts Codec Fpp Packets Buffer CircularBuffer MsgQueue Escrow Comp ComQueue ComQueueFacts ComQueueSpec ComQueueProof ComQueueRuns ComRetry.

(** * The component on its link *)

(** The senders keep the bounds of the ports; the component behind the queue
    moves the link. *)
Definition sender_ok (o : cq_op) : bool :=
  match o with OStatus _ | OReturn _ _ => false | _ => bool_decide (op_ok o (a_init [])) end.
Definition link_input (o : cq_op) (l : Link) : option Link :=
  match o with
  | OReturn b ctx => link_step (LinkReturn b ctx) l
  | OStatus st => link_step (LinkStatus st) l
  | o => if sender_ok o then Some l else None
  end.
(** The messages sent move it, too. *)
Fixpoint link_outputs (oq : list CqOut) (l : Link) : option Link :=
  match oq with
  | [] => Some l
  | CqDataOut b ctx :: oq => l ← link_step (LinkSend b ctx) l; link_outputs oq l
  | _ :: oq => link_outputs oq l
  end.

Inductive QueueVerdict : Set := QueueKept (q : ComQueue) (l : Link) (oq : list CqOut) | OutsideBroke | QueueBroke.
(** Handler calls in the order the component handles them. *)
Fixpoint link_run `{bp : BuildProfile} (w : CqPorts) (os : list cq_op) (q : ComQueue) (l : Link) : QueueVerdict :=
  match os with
  | [] => QueueKept q l []
  | o :: os =>
      match link_input o l with
      | None => OutsideBroke
      | Some l =>
          match cq_step w o q with
          | Panic => QueueBroke
          | Ret (_, q, oq) =>
              match link_outputs oq l with
              | None => QueueBroke
              | Some l => match link_run w os q l with QueueKept q l oq' => QueueKept q l (oq ++ oq') | v => v end
              end
          end
      end
  end.

(** * What [ComQueue] sends *)

Definition sends (oq : list CqOut) : list (Buffer * FrameContext) := omap (λ o, match o with CqDataOut b ctx => Some (b, ctx) | _ => None end) oq.

(** A message of queue [i] that can come back to it. *)
Definition message_ok (i : nat) (b : Buffer) (ctx : FrameContext) : Prop :=
  is_valid b = true ∧ com_queue_index ctx = Z.of_nat i ∧ (i < COM_PORT_COUNT → length (storage b) = FW_COM_BUFFER_MAX_SIZE ∧ Forall is_byte (storage b)).

Definition recycle_ok (a : ACq) : Prop := ∀ st, a_recycle a = Some st → length st = FW_COM_BUFFER_MAX_SIZE ∧ Forall is_byte st.

(** A step sends nothing, or one message when it may. *)
Record quiet (a a' : ACq) (oq : list CqOut) : Prop := { quiet_sends : sends oq = []; quiet_state : a_send a' = a_send a; quiet_busy : a_busy a' = a_busy a }.
Record sending (a' : ACq) (oq : list CqOut) : Prop := { sending_one : ∃ i b ctx, sends oq = [(b, ctx)] ∧ a_busy a' = Some i ∧ message_ok i b ctx; sending_state : a_send a' = SendWaiting }.

Section sends.
Context {cfg : list QueueConfigurationEntry}.

Lemma dispatched_ok i it a : item_ok i it → recycle_ok a → message_ok i (message_buffer it (a_recycle a)) (message_context (message_bytes it) i).
Proof.
  intros Hi Hr. destruct it as [bs|b]; cbn [message_buffer message_bytes item_ok] in *.
  - destruct Hi as (Hi & Hb & Hl).
    assert (length (default (replicate FW_COM_BUFFER_MAX_SIZE 0%Z) (a_recycle a)) = FW_COM_BUFFER_MAX_SIZE ∧ Forall is_byte (default (replicate FW_COM_BUFFER_MAX_SIZE 0%Z) (a_recycle a))) as [H1 H2].
    { destruct (a_recycle a) eqn:E; [by apply Hr|]. cbn [from_option]. split; [apply length_replicate|]. by apply Forall_replicate. }
    assert (length (splice 0 bs (default (replicate FW_COM_BUFFER_MAX_SIZE 0%Z) (a_recycle a))) = FW_COM_BUFFER_MAX_SIZE) as H3 by (rewrite length_splice; lia).
    split_and!; [|done|intros _; split; [done|by apply Forall_splice]].
    unfold is_valid. cbn [storage size]. rewrite bool_decide_eq_false_2, bool_decide_eq_true_2; [done|lia|]. intros E. rewrite E in H3. done.
  - destruct Hi as (Hi & [Hw Hb] & Hs). split_and!; [|done|lia]. unfold is_valid. rewrite bool_decide_eq_false_2, bool_decide_eq_true_2; [done|lia|]. intros E. rewrite E in Hw. cbn in Hw. lia.
Qed.

Lemma process_sends (a : ACq) :
  typed a → recycle_ok a → quiet a (a_process cfg a).2 (a_process cfg a).1 ∨ sending (a_process cfg a).2 (a_process cfg a).1.
Proof.
  intros Ht Hr. unfold a_process. destruct (a_next a) as [[k m]|] eqn:En; [|by left].
  destruct (a_next_some (cfg := cfg) _ _ _ En) as (_ & _ & _ & it & Hit). rewrite Hit. right. cbn. split; [|done].
  exists (meta_index m), (message_buffer it (a_recycle a)), (message_context (message_bytes it) (meta_index m)). split_and!; [done|done|].
  apply dispatched_ok; [|done]. by eapply Forall_lookup_1; [apply Ht|].
Qed.

Lemma sends_app o o' : sends (o ++ o') = sends o ++ sends o'.
Proof. unfold sends. apply omap_app. Qed.
Lemma sends_returned n l : sends (CqBufferReturnOut n <$> l) = [].
Proof. induction l; cbn; done. Qed.

Lemma enqueue_typed i it a : typed a → item_ok i it → typed (a_enqueue cfg i it a).2.
Proof.
  intros Ha Hi. unfold a_enqueue. destruct (cfg !! i); [|done]. case_decide; [|case_match]; cbn; apply typed_set; try done; try (apply Forall_app; split; [|by constructor]); try apply Ha.
  by apply Forall_tail.
Qed.

Lemma settle_sends i t port ov a :
  typed a → recycle_ok a → let r := a_settle cfg i t port ov a in quiet a r.2 r.1 ∨ a_send a = SendReady ∧ sending r.2 r.1.
Proof.
  intros Ht Hr. cbn zeta. unfold a_settle. set (warn := ov && _). set (a1 := if warn then a_set_throttle i true a else a).
  assert (typed a1 ∧ recycle_ok a1 ∧ a_send a1 = a_send a ∧ a_busy a1 = a_busy a) as (Ht1 & Hr1 & E1 & E2) by (subst a1; by destruct warn).
  assert (∀ o, sends ((if warn then [CqQueueOverflow t port] else []) ++ o) = sends o) as Hw by (intros o; by destruct warn). rewrite E1.
  case_decide as Hs; [|by left; split; cbn [fst snd]; rewrite ?Hw].
  destruct (process_sends a1 Ht1 Hr1) as [[Q1 Q2 Q3]|[S1 S2]]; destruct (a_process cfg a1) as [o a2]; cbn [fst snd] in *.
  - left. split; cbn [fst snd]; rewrite ?Hw; congruence.
  - right. split; [done|]. split; cbn [fst snd]; rewrite ?Hw; done.
Qed.

Lemma drain_quiet i a : quiet a (a_drain cfg i a).2 (a_drain cfg i a).1.
Proof. split; [apply sends_returned|done|done]. Qed.
Lemma quiet_trans a b c o o' : quiet a b o → quiet b c o' → quiet a c (o ++ o').
Proof. intros [H1 H2 H3] [H4 H5 H6]. split; [by rewrite sends_app, H1, H4|congruence|congruence]. Qed.
Lemma quiet_more a a' o o' : quiet a a' o → sends o' = [] → quiet a a' (o ++ o').
Proof. intros [H1 H2 H3] H4. split; [by rewrite sends_app, H1, H4|done|done]. Qed.

Lemma command_quiet op cmd_seq c a : quiet a (spec_cmd cfg op cmd_seq c a).2 (spec_cmd cfg op cmd_seq c a).1.
Proof.
  destruct c as [t i| |t i p]; cbn [spec_cmd].
  - case_match; [|done]. apply quiet_more; [apply (drain_quiet (Z.to_nat (get_queue_num t i)) a)|done].
  - cbn [fst snd]. eapply quiet_trans; [apply (drain_quiet 0)|]. eapply quiet_trans; [apply (drain_quiet 1)|]. apply quiet_more; [apply (drain_quiet 2)|done].
  - by case_match.
Qed.

Lemma make_room_rest a : typed a →
  let '(full, dropped, a0) := a_make_room cfg a in typed a0 ∧ a_send a0 = a_send a ∧ a_busy a0 = a_busy a ∧ a_recycle a0 = a_recycle a.
Proof.
  intros Ht. unfold a_make_room. destruct (cfg !! _); [|done]. destruct (_ && _); [|done]. split_and!; try done. apply typed_set; [done|]. apply Forall_delete, Ht.
Qed.

(** A call of a sender. *)
Lemma sender_sends base o a :
  typed a → recycle_ok a → op_ok o a → match o with OStatus _ | OReturn _ _ => False | _ => True end →
  let r := spec_step base cfg o a in quiet a r.2 r.1 ∨ a_send a = SendReady ∧ sending r.2 r.1.
Proof.
  intros Ht Hr Ho Hc. destruct o as [port data|b|c|b ctx| |op cmd_seq args]; try done; cbn [spec_step op_ok] in *.
  - pose proof (a_enqueue_rest (cfg := cfg) port (ICom (as_slice data)) a) as [Ea _]. pose proof (enqueue_typed port (ICom (as_slice data)) a Ht Ho) as Ht1.
    destruct (a_enqueue _ _ _ _) as [st a1]. cbn [fst snd] in *. assert (recycle_ok a1 ∧ a_send a1 = a_send a ∧ a_busy a1 = a_busy a) as (Hr1 & E4 & E5) by (rewrite Ea; done).
    destruct (settle_sends port TypeComQueue (Z.of_nat port) (negb (bool_decide (st = StOk))) a1 Ht1 Hr1) as [[Q1 Q2 Q3]|[Hs Hs']]; [left; split; congruence|right; split; [congruence|done]].
  - pose proof (make_room_rest a Ht) as Hm. destruct (a_make_room cfg a) as [[full dropped] a0]. destruct Hm as (Ht0 & E1 & E2 & E3).
    pose proof (a_enqueue_rest (cfg := cfg) COM_PORT_COUNT (IBuf b) a0) as [Ea _]. pose proof (enqueue_typed COM_PORT_COUNT (IBuf b) a0 Ht0 ltac:(cbn; intuition lia)) as Ht1.
    destruct (a_enqueue _ _ _ _) as [st a1]. cbn [fst snd] in *. assert (recycle_ok a1) as Hr1 by (unfold recycle_ok; rewrite Ea; cbn; by rewrite E3).
    assert (a_send a1 = a_send a ∧ a_busy a1 = a_busy a) as [E4 E5] by (rewrite Ea; done).
    destruct (settle_sends COM_PORT_COUNT TypeBufferQueue 0 (full || negb (bool_decide (st = StOk))) a1 Ht1 Hr1) as [[Q1 Q2 Q3]|[Hs [S1 S2]]];
      destruct (a_settle _ _ _ _ _ _) as [o a2]; cbn [fst snd] in *;
      (assert (sends ((CqBufferReturnOut 0 <$> dropped) ++ o ++ (if decide (st = NoRoomLeft) then [CqBufferReturnOut 0 b] else [])) = sends o) as Ho'
        by (rewrite !sends_app, sends_returned; case_decide; cbn; by rewrite app_nil_r)).
    + left. split; cbn [fst snd]; congruence.
    + right. split; [congruence|]. split; cbn [fst snd]; [|done]. by rewrite Ho'.
  - by left.
  - left. destruct (decode_cmd _ _) as [|c]; [done|]. apply command_quiet.
Qed.
End sends.

(** * The link is kept *)

(** The buffers given back to the queue. *)
Definition returned (os : list cq_op) : list (Buffer * FrameContext) :=
  omap (λ o, match o with OReturn b ctx => Some (b, ctx) | _ => None end) os.

Section proofs.
Context `{bp : BuildProfile} (cfg : list QueueConfigurationEntry) (w : CqPorts).
Hypothesis Hcfg : config_ok cfg.
Hypothesis Hw : connected w.

(** What [ComQueue] has seen of its link. *)
Definition link_view (a : ACq) (l : Link) : Prop :=
  match l with
  | LinkDown | LinkOwes => a_send a = SendWaiting ∧ a_busy a = None
  | LinkReady => a_send a = SendReady ∧ a_busy a = None
  | LinkHolds b ctx => a_send a = SendWaiting ∧ ∃ i, a_busy a = Some i ∧ message_ok i b ctx
  end.

Record queue_ok (q : ComQueue) (a : ACq) : Prop := { queue_related : cq_rel cfg q a; queue_idle : idle_ok a }.

Lemma queue_step o q a :
  queue_ok q a → op_ok o a →
  let r := spec_step (cq_id_base w) cfg o a in ∃ q', cq_step w o q = Ret (tt, q', r.1) ∧ queue_ok q' r.2.
Proof.
  intros [HR Hi] Ho r. destruct Hw as (Hd & Hr & Hp). destruct (cq_step_ok Hcfg w Hd Hr Hp o q a HR Hi Ho) as (q' & E & HR').
  exists q'. split; [done|]. split; [done|]. apply step_idle; [by eapply rel_shape|done].
Qed.

Lemma rel_recycle q a : queue_ok q a → recycle_ok a.
Proof. intros [HR _]. exact (proj2 (cr_recycle _ _ _ HR)). Qed.

Lemma link_outputs_none oq l : sends oq = [] → link_outputs oq l = Some l.
Proof. induction oq as [|[] oq IH]; cbn; try done. Qed.
Lemma link_outputs_one oq b ctx : sends oq = [(b, ctx)] → is_valid b = true → link_outputs oq LinkReady = Some (LinkHolds b ctx).
Proof.
  intros Hs Hv. induction oq as [|x oq IH]; [done|]. destruct x; cbn -[is_valid] in Hs |- *; try (by apply IH).
  injection Hs as -> -> Hs. rewrite Hv. by apply link_outputs_none.
Qed.

(** A step that sends nothing and one that sends over a ready link. *)
Lemma step_link a' oq l :
  (sends oq = [] ∧ link_view a' l) ∨ (l = LinkReady ∧ sending a' oq) →
  ∃ l', link_outputs oq l = Some l' ∧ link_view a' l' ∧ held l ++ sends oq = held l'.
Proof.
  intros [[Hs Hv]|[-> [(i & b & ctx & Hs & Hb & Hm) Hst]]].
  - exists l. rewrite link_outputs_none, Hs, app_nil_r by done. done.
  - exists (LinkHolds b ctx). rewrite (link_outputs_one _ _ _ Hs), Hs by apply Hm. split_and!; [done| |done].
    split; [done|]. by exists i.
Qed.

(** Every call the outside may make is one the queue can take, and the link is
    kept by what the queue sends. *)
Lemma link_step_ok o q a l l1 :
  queue_ok q a → link_view a l → link_input o l = Some l1 →
  let r := spec_step (cq_id_base w) cfg o a in
  op_ok o a ∧ ∃ l', link_outputs r.1 l1 = Some l' ∧ link_view r.2 l' ∧ held l ++ sends r.1 = returned [o] ++ held l'.
Proof.
  intros Hq Hv E r. pose proof (rel_typed _ _ Hcfg (queue_related _ _ Hq)) as Ht. pose proof (rel_recycle _ _ Hq) as Hrc.
  destruct (decide (sender_ok o = true)) as [Ho|Ho].
  - assert (op_ok o a ∧ l1 = l ∧ returned [o] = [] ∧ match o with OStatus _ | OReturn _ _ => False | _ => True end) as (Hop & -> & -> & Hown).
    { destruct o; cbn [sender_ok link_input] in Ho, E; try done; apply bool_decide_eq_true in Ho as Ho'; rewrite Ho in E; by injection E as <-. }
    split; [done|]. cbn [app]. apply step_link. destruct (sender_sends (cfg := cfg) (cq_id_base w) o a Ht Hrc Hop Hown) as [[Q1 Q2 Q3]|[Hs Hs']]; [left|right].
    + split; [done|]. fold r in Q2, Q3. unfold link_view in *. destruct l; by rewrite ?Q2, ?Q3.
    + split; [|done]. destruct l; cbn in Hv; [destruct Hv; congruence|done|destruct Hv; congruence|destruct Hv; congruence].
  - destruct o as [port data|b|st|b ctx| |op cmd_seq args]; cbn [link_input] in E; try (destruct (sender_ok _); [by destruct Ho|done]).
    + assert (op_ok (OStatus st) a ∧ held l = []) as [Hop ->] by (destruct l; [done..|by destruct st|done]). split; [exact Hop|]. cbn [returned omap list_omap app].
      destruct (step_link r.2 r.1 l1) as (l' & H1 & H2 & H3); [|exists l'; split_and!; [done..|]; by destruct l, st; try done; injection E as <-].
      destruct Hop as [_ Hb]. destruct st; [left; destruct l; try done; injection E as <-; done|].
      assert (l1 = LinkReady) as -> by (destruct l; try done; by injection E as <-).
      destruct (process_sends (cfg := cfg) (a_set_send SendReady a) Ht Hrc) as [[Q1 Q2 Q3]|Hs]; [left|right; done].
      split; [done|]. cbn. subst r. cbn [spec_step]. rewrite Q2, Q3. done.
    + destruct l as [| |b' ctx'|]; try done. cbn [link_step] in E. case_bool_decide as Hb; [|done]. destruct Hb as [-> ->]. injection E as <-.
      destruct Hv as (Hs & i & Hi & Hm). assert (op_ok (OReturn b' ctx') a) as Hop by (cbn [op_ok]; rewrite Hi; by destruct Hm as (_ & ? & ?)).
      split; [done|]. destruct (step_link r.2 r.1 LinkOwes) as (l' & H1 & H2 & H3).
      { left. subst r. cbn [spec_step]. case_match; cbn; done. }
      exists l'. split_and!; [done..|]. cbn [held returned omap list_omap app]. cbn [held app] in H3. by rewrite H3.
Qed.

Lemma returned_cons o os : returned (o :: os) = returned [o] ++ returned os.
Proof. by destruct o. Qed.

Lemma link_run_ok os : ∀ q a l, queue_ok q a → link_view a l →
  match link_run w os q l with
  | QueueKept q' l' oq => protocol w cfg os a ∧ oq = (spec_steps w cfg os a).1 ∧ cq_steps w os q = Ret (q', oq) ∧
      held l ++ sends oq = returned os ++ held l'
  | OutsideBroke => True
  | QueueBroke => False
  end.
Proof.
  induction os as [|o os IH]; intros q a l Hq Hv; cbn [link_run].
  { split_and!; try done. by rewrite app_nil_r. }
  destruct (link_input o l) as [l1|] eqn:E; [|done]. destruct (link_step_ok o q a l l1 Hq Hv E) as (Hop & l2 & El & Hv2 & Hh).
  destruct (queue_step o q a Hq Hop) as (q1 & Es & Hq1). rewrite Es, El. specialize (IH q1 _ l2 Hq1 Hv2).
  destruct (link_run w os q1 l2) as [q' l' oq| |]; [|done..]. destruct IH as (Hp & -> & Ec & Hh').
  cbn [protocol cq_steps spec_steps]. rewrite Es, Ec. split; [done|].
  destruct (spec_step (cq_id_base w) cfg o a) as [o1 a1]. cbn [fst snd] in *. destruct (spec_steps w cfg os a1) as [o2 a2]. cbn [fst snd] in *.
  split_and!; [done|done|]. rewrite sends_app, app_assoc, Hh, <- app_assoc, Hh', (returned_cons o os), <- app_assoc. done.
Qed.
End proofs.

(** C8. [Svc::ComQueue] keeps its side of the communication link: whatever
    packets, buffers, ticks and commands its handlers are called with, as long
    as the component behind it keeps the link protocol - it reports success
    before the first message, gives back exactly the message it was sent,
    then reports success or failure - and senders keep the bounds of the
    ports, the queue never panics, sends a message only over a ready link (a
    valid one, one at a time), and what it sends is exactly, in order, what
    was given back, and at most one message more, still with the component
    behind it.  Such calls keep the protocol that the queue's refinement and
    conservation theorems assume, and its outputs are the specified ones.  The
    calls are those of the handlers in handling order; the message queue in
    front of the asynchronous ones is not part of the statement. *)
Theorem queue_keeps_link `{bp : BuildProfile} (cfg : list QueueConfigurationEntry) (w : CqPorts) (os : list cq_op) :
  config_ok cfg → connected w →
  ∃ q, configure cfg ComQueue_new = Ret q ∧
    match link_run w os q LinkDown with
    | QueueKept q' l oq => protocol w cfg os (a_init cfg) ∧ oq = (spec_steps w cfg os (a_init cfg)).1 ∧
        cq_steps w os q = Ret (q', oq) ∧ sends oq = returned os ++ held l
    | OutsideBroke => True
    | QueueBroke => False
    end.
Proof.
  intros Hc Hw. destruct (cq_configure_ok cfg Hc) as (q & Eq & HR). exists q. split; [done|].
  by apply (link_run_ok cfg w Hc Hw os q (a_init cfg) LinkDown); [split|].
Qed.

(** A packet that comes back with a failure, and a buffer sent after the link
    is up again and still under way. *)
Lemma queue_keeps_link_witness :
  let P := true : BuildProfile in
  let b := message_buffer (ICom [0; 1; 9]%Z) None in
  let ctx := message_context [0; 1; 9]%Z 1 in
  let os := [OCom 1 (SerBuf [0; 1; 9]%Z 3 0); OStatus Success_Success; OBuf (from_storage [0; 3; 8]%Z 6);
    OReturn b ctx; OStatus Success_Failure; ORun; OStatus Success_Success] in
  ∃ q q' l oq, configure demo_config ComQueue_new = Ret q ∧ link_run demo_ports os q LinkDown = QueueKept q' l oq ∧
    sends oq = (b, ctx) :: held l ∧ window ∘ fst <$> held l = [[0; 3; 8]%Z].
Proof.
  intros P b ctx os. destruct (queue_keeps_link demo_config demo_ports os) as (q & Eq & Hd); [fp_decide|fp_decide|].
  destruct (link_run demo_ports os q LinkDown) as [q' l oq| |] eqn:E.
  - destruct Hd as (_ & _ & _ & Hs). exists q, q', l, oq. split_and!; [done|done|exact Hs|].
    vm_compute in Eq. injection Eq as <-. vm_compute in E. injection E as <- <- <-. by vm_compute.
  - vm_compute in Eq. injection Eq as <-. by vm_compute in E.
  - done.
Defined.
