(* ===== verification/RawTime.v ===== *)
(** Clock readings [Os::RawTime], [crates/fprime-os/src/rawtime.rs].  What the
    system clock answers is an argument. *)

From stdpp Require Import list.
From S2P Require Import Prelude Serial SerialFacts Codec Time.

Local Open Scope Z_scope.

Inductive RawTimeStatus : Set := RtOk | RtOverflow | RtInvalidParams | RtNotSupported | RtOtherError.
#[export] Instance RawTimeStatus_eq_dec : EqDecision RawTimeStatus.
Proof. solve_decision. Defined.

Record RawTime : Set := MkRawTime { raw_seconds : Z; raw_nanoseconds : Z }.
Definition RawTime_new : RawTime := MkRawTime 0 0.

(** A reading: its status, and the time when the clock could be read. *)
Record Reading : Set := MkReading { read_status : RawTimeStatus; read_time : RawTime }.
Definition now (r : Reading) (t : RawTime) : RawTimeStatus * RawTime :=
  if bool_decide (read_status r = RtOk) then (RtOk, read_time r) else (read_status r, t).

Definition raw_ltb (a b : RawTime) : bool :=
  (raw_seconds a <? raw_seconds b) || ((raw_seconds a =? raw_seconds b) && (raw_nanoseconds a <? raw_nanoseconds b)).

Section diff.
Context `{BuildProfile}.

Definition get_time_interval (self other : RawTime) : outcome TimeInterval :=
  let '(t1, t2) := if raw_ltb self other then (other, self) else (self, other) in
  d ← sub_w 64 (raw_seconds t1) (raw_seconds t2);
  let seconds := wrap 32 d in
  '(seconds, nanoseconds) ←
    (if raw_nanoseconds t1 <? raw_nanoseconds t2 then
       c ← sub_w 32 1000000000 (raw_nanoseconds t2);
       ns ← add_w 32 (raw_nanoseconds t1) c;
       Ret (wrap 32 (seconds - 1), ns)
     else ns ← sub_w 32 (raw_nanoseconds t1) (raw_nanoseconds t2); Ret (seconds, ns));
  TimeInterval_set seconds (nanoseconds / 1000) (MkTimeInterval 0 0).

Definition get_diff_usec (self other : RawTime) : outcome (RawTimeStatus * Z) :=
  interval ← get_time_interval self other;
  let seconds := ti_seconds interval in
  let useconds := ti_useconds interval in
  let U32_MAX := 2 ^ 32 - 1 in
  if U32_MAX / 1000000 <? seconds then Ret (RtOverflow, U32_MAX)
  else
    sec_to_usec ← overflowing 32 (seconds * 1000000);
    left ← sub_w 32 U32_MAX useconds;
    if left <? sec_to_usec then Ret (RtOverflow, U32_MAX)
    else total ← add_w 32 sec_to_usec useconds; Ret (RtOk, total).

Definition raw_eqb (a b : RawTime) : outcome bool :=
  i ← get_time_interval a b; Ret ((ti_seconds i =? 0) && (ti_useconds i =? 0)).
End diff.

Definition RawTime_serialize_to (t : RawTime) (e : Endianness) : SerM unit :=
  _ ← serialize_u32 (wrap 32 (raw_seconds t)) e; serialize_u32 (raw_nanoseconds t) e.
Definition RawTime_deserialize_from (e : Endianness) : SerM RawTime :=
  s ← deserialize_u32 e; ns ← deserialize_u32 e; mret (MkRawTime s ns).

(** * Facts *)

(** A time a clock shows. *)
Definition raw_ok (t : RawTime) : Prop := is_u 64 (raw_seconds t) ∧ 0 ≤ raw_nanoseconds t < 1000000000.
#[export] Instance raw_ok_dec t : Decision (raw_ok t).
Proof. unfold raw_ok, is_u. apply _. Defined.
Definition raw_ns (t : RawTime) : Z := raw_seconds t * 1000000000 + raw_nanoseconds t.

Lemma div_parts q r : 0 ≤ r < 1000000000 →
  (q * 1000000000 + r) / 1000 / 1000000 = q ∧ (q * 1000000000 + r) / 1000 mod 1000000 = r / 1000.
Proof.
  intros Hr. assert ((q * 1000000000 + r) / 1000 = q * 1000000 + r / 1000) as ->.
  { replace (q * 1000000000 + r) with (r + (q * 1000000) * 1000) by lia. rewrite Z.div_add by lia. lia. }
  assert (0 ≤ r / 1000 < 1000000) as Hq by (split; [apply Z.div_pos; lia|apply Z.div_lt_upper_bound; lia]).
  rewrite Z.add_comm. split; [rewrite Z.div_add by lia; rewrite Z.div_small by lia; lia|rewrite Z_mod_plus_full; by apply Z.mod_small].
Qed.

Lemma ordered_interval `{BuildProfile} a b :
  raw_ok a → raw_ok b → raw_ltb a b = false → raw_ns a - raw_ns b < 2 ^ 32 * 1000000000 →
  let us := (raw_ns a - raw_ns b) / 1000 in
  0 ≤ raw_ns a - raw_ns b ∧ get_time_interval a b = Ret (MkTimeInterval (us / 1000000) (us mod 1000000)) ∧
  (raw_ltb b a = true → get_time_interval b a = get_time_interval a b).
Proof.
  cbn zeta. destruct a as [sa na], b as [sb nb]. unfold raw_ok, raw_ns, is_u. cbn [raw_seconds raw_nanoseconds]. intros [Ha1 Ha2] [Hb1 Hb2] Hl Hd.
  split; [unfold raw_ltb in Hl; cbn in Hl; lia|]. split; [|intros Hg; unfold get_time_interval; by rewrite Hl, Hg].
  unfold get_time_interval. rewrite Hl. cbv beta iota zeta. unfold raw_ltb in Hl. cbn [raw_seconds raw_nanoseconds] in *. unfold sub_w, add_w.
  rewrite (overflowing_in 64), outcome_bind_ret by (unfold is_u; lia). destruct (Z.ltb_spec na nb) as [Hn|Hn].
  - rewrite overflowing_in, outcome_bind_ret by (unfold is_u; lia). rewrite overflowing_in, !outcome_bind_ret by (unfold is_u; lia).
    destruct (div_parts (sa - sb - 1) (na + (1000000000 - nb)) ltac:(lia)) as [E1 E2].
    replace (sa * 1000000000 + na - (sb * 1000000000 + nb)) with ((sa - sb - 1) * 1000000000 + (na + (1000000000 - nb))) by lia. rewrite E1, E2.
    unfold TimeInterval_set. rewrite fw_assert_true, outcome_bind_ret by (apply Z.ltb_lt, Z.div_lt_upper_bound; lia). unfold wrap. rewrite Zminus_mod_idemp_l. by rewrite Z.mod_small by lia.
  - rewrite overflowing_in, !outcome_bind_ret by (unfold is_u; lia).
    destruct (div_parts (sa - sb) (na - nb) ltac:(lia)) as [E1 E2].
    replace (sa * 1000000000 + na - (sb * 1000000000 + nb)) with ((sa - sb) * 1000000000 + (na - nb)) by lia. rewrite E1, E2.
    unfold TimeInterval_set. rewrite fw_assert_true, outcome_bind_ret by (apply Z.ltb_lt, Z.div_lt_upper_bound; lia). unfold wrap. by rewrite Z.mod_small by lia.
Qed.

(** The distance in whole microseconds. *)
Lemma get_time_interval_exact `{BuildProfile} a b :
  raw_ok a → raw_ok b → Z.abs (raw_ns a - raw_ns b) < 2 ^ 32 * 1000000000 →
  let us := Z.abs (raw_ns a - raw_ns b) / 1000 in
  get_time_interval a b = Ret (MkTimeInterval (us / 1000000) (us mod 1000000)).
Proof.
  intros Ha Hb Hd us. destruct (raw_ltb a b) eqn:E.
  - assert (raw_ltb b a = false) as E' by (unfold raw_ltb in *; lia). destruct (ordered_interval b a Hb Ha E' ltac:(lia)) as (Hp & E1 & E2). rewrite E2, E1 by done.
    subst us. by replace (Z.abs (raw_ns a - raw_ns b)) with (raw_ns b - raw_ns a) by lia.
  - destruct (ordered_interval a b Ha Hb E ltac:(lia)) as (Hp & E1 & _). rewrite E1. subst us. by rewrite Z.abs_eq.
Qed.

(** The difference saturates at the largest 32-bit value. *)
Lemma get_diff_usec_exact `{BuildProfile} a b :
  raw_ok a → raw_ok b → Z.abs (raw_ns a - raw_ns b) < 2 ^ 32 * 1000000000 →
  let us := Z.abs (raw_ns a - raw_ns b) / 1000 in
  get_diff_usec a b = Ret (if us <? 2 ^ 32 then (RtOk, us) else (RtOverflow, 2 ^ 32 - 1)).
Proof.
  intros Ha Hb Hd us. unfold get_diff_usec. rewrite get_time_interval_exact, outcome_bind_ret by done. fold us. cbn [ti_seconds ti_useconds].
  assert (0 ≤ us) as Hus by (apply Z.div_pos; lia). pose proof (Z.mod_pos_bound us 1000000 ltac:(lia)) as Hm. pose proof (Z.div_mod us 1000000 ltac:(lia)) as Hdm.
  assert (0 ≤ us / 1000000) by (apply Z.div_pos; lia). change ((2 ^ 32 - 1) / 1000000) with 4294.
  destruct (Z.ltb_spec 4294 (us / 1000000)); [by rewrite (proj2 (Z.ltb_ge _ _)) by lia|]. unfold sub_w, add_w.
  rewrite (overflowing_in 32 (us / 1000000 * 1000000)), outcome_bind_ret by (unfold is_u; lia). rewrite (overflowing_in 32 (2 ^ 32 - 1 - us mod 1000000)), outcome_bind_ret by (unfold is_u; lia).
  destruct (Z.ltb_spec (2 ^ 32 - 1 - us mod 1000000) (us / 1000000 * 1000000)); [by rewrite (proj2 (Z.ltb_ge _ _)) by lia|].
  rewrite overflowing_in, outcome_bind_ret by (unfold is_u; lia). rewrite (proj2 (Z.ltb_lt _ _)) by lia. do 2 f_equal. lia.
Qed.
