(* ===== verification/RateGroup.v ===== *)
(** The scheduling of components: [Svc::RateGroupDriver] divides the primary
    tick, [Svc::ActiveRateGroup] calls the members of a group
    ([crates/fprime-svc/src/rate_group_driver.rs], [active_rate_group.rs]).

    What the clock answers at the end of a cycle, and whether a tick was sent
    while the members ran, are arguments of the handler. *)

From stdpp Require Import list.
From Stdlib Require Import Znumtheory.
From S2P Require Import Prelude Serial SerialFacts Codec Time Comp RawTime.

Local Open Scope Z_scope.

(** Calls of several ports, one after the other. *)
Definition emit_all {S O} (os : list O) : CompM S O unit := λ s, Ret (tt, s, os).

(** * The driver *)

Definition RATE_GROUP_DRIVER_CYCLE_PORTS : nat := 3.
Record Divider : Set := MkDivider { divisor : Z; phase : Z }.
Record DriverConfig : Set := MkDriverConfig { dividers : list Divider; rollover : Z }.
Record RateGroupDriver : Set := MkDriver { driver_config : option DriverConfig; ticks : Z }.
Definition RateGroupDriver_new : RateGroupDriver := MkDriver None 0.

(** The tick sent on a [CycleOut] port. *)
Record CycleOut : Set := MkCycleOut { cycle_port : nat; cycle_time : RawTime }.

Section driver.
Context `{BuildProfile} (cycle_out : list bool).
Local Notation M := (CompM RateGroupDriver CycleOut).

Fixpoint check_dividers (ds : list Divider) (rollover : Z) : outcome Z :=
  match ds with
  | [] => Ret rollover
  | d :: ds =>
      _ ← fw_assert ((phase d =? 0) || (phase d <? divisor d));
      if divisor d =? 0 then check_dividers ds rollover
      else _ ← fw_assert (rollover * divisor d <? 2 ^ 64); check_dividers ds (rollover * divisor d)
  end.
Definition driver_configure (ds : list Divider) : M unit :=
  r ← lift (check_dividers ds 1);
  s ← get_state;
  _ ← assert (bool_decide (driver_config s = None));
  put_state (MkDriver (Some (MkDriverConfig ds r)) (ticks s)).

Definition fires (ticks : Z) (d : Divider) : bool := negb (divisor d =? 0) && (ticks mod divisor d =? phase d).
Fixpoint fan_out (entry : nat) (ticks : Z) (ds : list Divider) (t : RawTime) : list CycleOut :=
  match ds with
  | [] => []
  | d :: ds => (if fires ticks d && default false (cycle_out !! entry) then [MkCycleOut entry t] else []) ++ fan_out (S entry) ticks ds t
  end.
Definition driver_cycle_in (t : RawTime) : M unit :=
  s ← get_state;
  match driver_config s with
  | None => lift Panic
  | Some config =>
      _ ← emit_all (fan_out 0 (ticks s) (dividers config) t);
      _ ← assert (0 <? rollover config);
      n ← lift (add_w 64 (ticks s) 1);
      put_state (MkDriver (driver_config s) (n mod rollover config))
  end.
End driver.

(** * The rate group *)

Definition RATE_GROUP_MEMBER_OUT_PORTS : nat := 10.
Definition OVERRUN_THROTTLE : Z := 5.
Definition TIME_GET_ERROR_THROTTLE : Z := 5.
Definition CHANID_RG_MAX_TIME : Z := 0.
Definition CHANID_RG_CYCLE_SLIPS : Z := 1.

Record RateGroup : Set := MkRateGroup {
  contexts : list Z;
  num_contexts : nat;
  cycles : Z;
  max_time : Z;
  overrun_throttle : Z;
  cycle_slips : Z;
  prev_max_tlm : option Z;
  prev_slips_tlm : option Z;
  time_get_error_throttle : EventThrottle;
  cycle_started : bool;
}.
Definition RateGroup_new : RateGroup :=
  MkRateGroup (replicate RATE_GROUP_MEMBER_OUT_PORTS 0) 0 0 0 0 0 None None (EventThrottle_new TIME_GET_ERROR_THROTTLE) false.

Definition set_started (b : bool) (s : RateGroup) : RateGroup :=
  MkRateGroup (contexts s) (num_contexts s) (cycles s) (max_time s) (overrun_throttle s) (cycle_slips s) (prev_max_tlm s) (prev_slips_tlm s) (time_get_error_throttle s) b.
Definition set_error_throttle (t : EventThrottle) (s : RateGroup) : RateGroup :=
  MkRateGroup (contexts s) (num_contexts s) (cycles s) (max_time s) (overrun_throttle s) (cycle_slips s) (prev_max_tlm s) (prev_slips_tlm s) t (cycle_started s).
(** The fields the end of a cycle changes. *)
Definition set_cycle (cyc mx over slips : Z) (pm ps : option Z) (s : RateGroup) : RateGroup :=
  MkRateGroup (contexts s) (num_contexts s) cyc mx over slips pm ps (time_get_error_throttle s) (cycle_started s).

Inductive RateGroupOut : Set :=
| RgMember (port : nat) (context : Z)
| RgStarted
| RgCycleSlip (cycle : Z)
| RgTimeGetError (st : RawTimeStatus)
| RgTlm (chan value : Z)
| RgPing (key : Z).

Record RateGroupWiring : Set := MkRgWiring { member_out : list bool; rg_ping_out : bool }.

Section group.
Context `{BuildProfile} (w : RateGroupWiring).
Local Notation M := (CompM RateGroup RateGroupOut).

Definition rg_configure (ctxs : list Z) (s : RateGroup) : RateGroup :=
  MkRateGroup ctxs RATE_GROUP_MEMBER_OUT_PORTS (cycles s) (max_time s) (overrun_throttle s) (cycle_slips s) (prev_max_tlm s) (prev_slips_tlm s) (time_get_error_throttle s) (cycle_started s).

Definition preamble : M unit := emit RgStarted.
Definition rg_ping_in (key : Z) : M unit := _ ← assert (rg_ping_out w); emit (RgPing key).

(** [CycleIn_preMsgHook], on the sender's thread. *)
Definition cycle_in_pre_msg_hook : M unit := modify_state (set_started true).

Fixpoint members_from (port : nat) (ctxs : list Z) : list RateGroupOut :=
  match ctxs with
  | [] => []
  | ctx :: ctxs => (if default false (member_out w !! port) then [RgMember port ctx] else []) ++ members_from (S port) ctxs
  end.
Definition member_calls (ctxs : list Z) : list RateGroupOut := members_from 0 ctxs.

(** Up to the call of the members. *)
Definition cycle_begin : M unit :=
  s ← get_state;
  _ ← assert (negb (bool_decide (num_contexts s = 0%nat)));
  _ ← put_state (set_started false s);
  emit_all (member_calls (contexts s)).

(** The state update of the end of a cycle, with what it emits. *)
Definition account (cycle_time : Z) : M (option Z * option Z * option Z) :=
  s ← get_state;
  let mx := if max_time s <? cycle_time then cycle_time else max_time s in
  let '(pm, emit_max) := if bool_decide (prev_max_tlm s = Some mx) then (prev_max_tlm s, None) else (Some mx, Some mx) in
  '(slips, over, ps, slip_event, emit_slips) ←
    (if cycle_started s then
       slips ← lift (add_w 32 (cycle_slips s) 1);
       '(over, slip_event) ← (if overrun_throttle s <? OVERRUN_THROTTLE then n ← lift (add_w 32 (overrun_throttle s) 1); mret (n, Some (cycles s))
                              else mret (overrun_throttle s, None));
       let '(ps, emit_slips) := if bool_decide (prev_slips_tlm s = Some slips) then (prev_slips_tlm s, None) else (Some slips, Some slips) in
       mret (slips, over, ps, slip_event, emit_slips)
     else
       mret (cycle_slips s, if 0 <? overrun_throttle s then overrun_throttle s - 1 else overrun_throttle s, prev_slips_tlm s, None, None));
  cyc ← lift (add_w 32 (cycles s) 1);
  _ ← put_state (set_cycle cyc mx over slips pm ps s);
  mret (emit_max, slip_event, emit_slips).

Definition emit_opt (f : Z → RateGroupOut) (o : option Z) : M unit := match o with Some v => emit (f v) | None => mret tt end.

(** From the reading of the clock on. *)
Definition cycle_end (cycle_start : RawTime) (r : Reading) : M unit :=
  let '(st, end_time) := now r RawTime_new in
  _ ← (if bool_decide (st = RtOk) then mret tt
       else s ← get_state;
            let '(ok, t) := ok_to_emit (time_get_error_throttle s) in
            _ ← put_state (set_error_throttle t s);
            when ok (emit (RgTimeGetError st)));
  '(_, cycle_time) ← lift (get_diff_usec end_time cycle_start);
  '(emit_max, slip_event, emit_slips) ← account cycle_time;
  _ ← emit_opt (RgTlm CHANID_RG_MAX_TIME) emit_max;
  _ ← emit_opt RgCycleSlip slip_event;
  emit_opt (RgTlm CHANID_RG_CYCLE_SLIPS) emit_slips.

(** [CycleIn_handler]; [late]: a tick was sent while the members ran. *)
Definition rg_cycle_in (late : bool) (cycle_start : RawTime) (r : Reading) : M unit :=
  _ ← cycle_begin;
  _ ← when late cycle_in_pre_msg_hook;
  cycle_end cycle_start r.
End group.
