(* ===== verification/RateGroupRuns.v ===== *)
(** Runs of the scheduling components: the division of the primary tick, and
    what a rate group reports of its cycles. *)

From stdpp Require Import list.
From Stdlib Require Import Znumtheory.
From S2P Require Import Prelude Serial SerialFacts Codec Time Comp RawTime RateGroup.

Local Open Scope Z_scope.

(** * The driver *)

Fixpoint driver_run `{BuildProfile} (cycle_out : list bool) (ts : list RawTime) : CompM RateGroupDriver CycleOut unit :=
  match ts with [] => mret tt | t :: ts => _ ← driver_cycle_in cycle_out t; driver_run cycle_out ts end.

(** Port [i] is due at tick [k]: it is connected, in use, and the tick leaves
    its phase as the remainder by its divisor. *)
Definition due (cycle_out : list bool) (ds : list Divider) (k : Z) (i : nat) : Prop :=
  cycle_out !! i = Some true ∧ match ds !! i with Some d => divisor d ≠ 0 ∧ k mod divisor d = phase d | None => False end.
#[export] Instance due_dec cycle_out ds k i : Decision (due cycle_out ds k i).
Proof. unfold due. destruct (ds !! i); apply _. Defined.
(** The calls of tick [k]: the ports due, in order, with the time of the tick. *)
Definition tick_sends (cycle_out : list bool) (ds : list Divider) (k : Z) (t : RawTime) : list CycleOut :=
  (λ i, MkCycleOut i t) <$> filter (due cycle_out ds k) (seq 0 RATE_GROUP_DRIVER_CYCLE_PORTS).
(** The calls of the ticks [ts], numbered from [k] on without end. *)
Fixpoint divided (cycle_out : list bool) (ds : list Divider) (k : Z) (ts : list RawTime) : list CycleOut :=
  match ts with [] => [] | t :: ts => tick_sends cycle_out ds k t ++ divided cycle_out ds (k + 1) ts end.

Definition period (ds : list Divider) : Z := foldr (λ d n, if divisor d =? 0 then n else divisor d * n) 1 ds.
Definition divider_ok (d : Divider) : Prop := is_u 64 (divisor d) ∧ 0 ≤ phase d ∧ (phase d = 0 ∨ phase d < divisor d).
#[export] Instance divider_ok_dec d : Decision (divider_ok d).
Proof. unfold divider_ok, is_u. apply _. Defined.

Lemma period_pos ds : Forall divider_ok ds → 0 < period ds.
Proof. induction 1 as [|d ds [Hd _] _ IH]; cbn; [lia|]. unfold is_u in Hd. destruct (Z.eqb_spec (divisor d) 0); [done|apply Z.mul_pos_pos; [lia|done]]. Qed.

Lemma period_divides d ds : d ∈ ds → divisor d ≠ 0 → (divisor d | period ds).
Proof.
  intros Hin Hd. induction ds as [|x ds IH]; [by apply elem_of_nil in Hin|]. cbn. fold (period ds). apply elem_of_cons in Hin as [<-|Hin].
  - rewrite (proj2 (Z.eqb_neq _ _) Hd). apply Z.divide_factor_l.
  - destruct (divisor x =? 0); [by apply IH|]. by apply Z.divide_mul_r, IH.
Qed.

Lemma check_dividers_ok `{BuildProfile} ds r : Forall divider_ok ds → 0 < r → r * period ds < 2 ^ 64 → check_dividers ds r = Ret (r * period ds).
Proof.
  intros Hds. revert r. induction Hds as [|d ds [Hd [Hp Hph]] Hds IH]; intros r Hr Hb; [unfold period; cbn; f_equal; lia|].
  change (period (d :: ds)) with (if divisor d =? 0 then period ds else divisor d * period ds) in *. cbn [check_dividers]. pose proof (period_pos ds Hds) as Hpos. unfold is_u in Hd. rewrite (fw_assert_true (_ || _)), outcome_bind_ret by lia. destruct (Z.eqb_spec (divisor d) 0) as [E|E]; [by apply IH|].
  rewrite fw_assert_true, outcome_bind_ret by nia. rewrite IH; [f_equal; lia|nia|lia].
Qed.

(** The counter modulo the period selects the same ports. *)
Lemma fan_out_rollover cycle_out ds0 k t ds : Forall divider_ok ds0 → (∀ d, d ∈ ds → d ∈ ds0) → ∀ entry, fan_out cycle_out entry (k mod period ds0) ds t = fan_out cycle_out entry k ds t.
Proof.
  intros Hds Hin. pose proof (period_pos ds0 Hds) as Hpos. induction ds as [|d ds IH]; intros entry; cbn [fan_out]; [done|]. rewrite IH by (intros; apply Hin; by right). f_equal.
  assert (fires (k mod period ds0) d = fires k d) as ->; [|done]. unfold fires. destruct (Z.eqb_spec (divisor d) 0) as [|E]; [done|].
  assert (d ∈ ds0) as Hd by (apply Hin; by left). pose proof (proj1 (Forall_forall _ _) Hds d Hd) as [Hu _]. unfold is_u in Hu.
  rewrite (Z.mod_mod_divide k (period ds0) (divisor d)); [done|by apply period_divides].
Qed.

(** The loop over the entries calls exactly the ports that are due. *)
Lemma fan_out_due cycle_out ds k t : ∀ ds' e, (∀ j, ds !! (e + j)%nat = ds' !! j) →
  fan_out cycle_out e k ds' t = (λ i, MkCycleOut i t) <$> filter (due cycle_out ds k) (seq e (length ds')).
Proof.
  induction ds' as [|d ds' IH]; intros e Hl; cbn [fan_out length seq]; [done|]. rewrite filter_cons.
  pose proof (Hl 0%nat) as H0. rewrite Nat.add_0_r in H0. cbn in H0.
  rewrite (IH (S e)) by (intros j; rewrite Nat.add_succ_comm; apply (Hl (S j))).
  assert (fires k d && default false (cycle_out !! e) = true ↔ due cycle_out ds k e) as Hiff.
  { unfold due, fires. rewrite H0, andb_true_iff, andb_true_iff, negb_true_iff, Z.eqb_neq, Z.eqb_eq. destruct (cycle_out !! e) as [[]|]; naive_solver. }
  case_decide as Hd; [by rewrite (proj2 Hiff Hd)|]. destruct (fires k d && _); [by destruct Hd; apply Hiff|done].
Qed.

Lemma fan_out_ticks cycle_out ds k t : length ds = RATE_GROUP_DRIVER_CYCLE_PORTS → fan_out cycle_out 0 k ds t = tick_sends cycle_out ds k t.
Proof. intros Hl. unfold tick_sends. rewrite <- Hl. by apply fan_out_due. Qed.

Lemma driver_run_ok `{BuildProfile} cycle_out ds ts : length ds = RATE_GROUP_DRIVER_CYCLE_PORTS → Forall divider_ok ds → period ds < 2 ^ 64 → ∀ k, 0 ≤ k →
  ∃ s', driver_run cycle_out ts (MkDriver (Some (MkDriverConfig ds (period ds))) (k mod period ds)) = Ret (tt, s', divided cycle_out ds k ts).
Proof.
  intros Hl Hds Hp. pose proof (period_pos ds Hds) as Hpos. induction ts as [|t ts IH]; intros k Hk; cbn [driver_run divided]; [by eexists|].
  destruct (IH (k + 1) ltac:(lia)) as (s' & E). exists s'. pose proof (Z.mod_pos_bound k (period ds) Hpos) as Hm.
  unfold driver_cycle_in, emit_all, get_state, assert, put_state, lift, mbind, CompM_bind. cbn [ticks driver_config dividers rollover].
  rewrite fw_assert_true by lia. unfold add_w. rewrite overflowing_in by (unfold is_u; lia). cbn -[divided]. rewrite Zplus_mod_idemp_l, E, fan_out_rollover, fan_out_ticks by done. by rewrite !app_nil_r.
Qed.

(** C20. The rate group driver divides the primary tick exactly: for every table
    of divisors and phases it accepts, the tick number [k], counted without
    end, is passed on, with its time and in port order, to exactly the ports
    of the three that are connected, have a divisor other than zero and whose
    divisor leaves their phase as the remainder of [k] ([due]).  The counter that starts
    over at the product of the divisors never skips or repeats a cycle.  (A
    table whose product of divisors needs more than 64 bits, or with a phase
    not below its divisor, fails an assertion of [configure].) *)
Theorem driver_divides_exactly `{BuildProfile} (cycle_out : list bool) (ds : list Divider) (ts : list RawTime) :
  length ds = RATE_GROUP_DRIVER_CYCLE_PORTS → Forall divider_ok ds → period ds < 2 ^ 64 →
  ∃ s s', driver_configure ds RateGroupDriver_new = Ret (tt, s, []) ∧ driver_run cycle_out ts s = Ret (tt, s', divided cycle_out ds 0 ts).
Proof.
  intros Hl Hds Hp. destruct (driver_run_ok cycle_out ds ts Hl Hds Hp 0 ltac:(lia)) as (s' & E). rewrite Z.mod_0_l in E by (pose proof (period_pos ds Hds); lia).
  exists (MkDriver (Some (MkDriverConfig ds (period ds))) 0), s'. split; [|done].
  unfold driver_configure, lift, get_state, assert, put_state, mbind, CompM_bind. rewrite check_dividers_ok by (try done; lia). cbn -[period]. by rewrite Z.mul_1_l.
Qed.

Lemma driver_divides_exactly_witness :
  let P := true : BuildProfile in
  let ds := [MkDivider 1 0; MkDivider 2 1; MkDivider 3 0] in
  let t k := MkRawTime k 0 in
  ∃ s s', driver_configure ds RateGroupDriver_new = Ret (tt, s, []) ∧
    driver_run [true; true; true] (t <$> [10; 11; 12; 13; 14; 15; 16; 17]) s =
      Ret (tt, s', (λ x, MkCycleOut x.1 (t x.2)) <$>
        [(0%nat, 10); (2%nat, 10); (0%nat, 11); (1%nat, 11); (0%nat, 12); (0%nat, 13); (1%nat, 13); (2%nat, 13); (0%nat, 14); (0%nat, 15); (1%nat, 15);
         (0%nat, 16); (2%nat, 16); (0%nat, 17); (1%nat, 17)]).
Proof.
  intros P ds t. destruct (driver_divides_exactly [true; true; true] ds (t <$> [10; 11; 12; 13; 14; 15; 16; 17])) as (s & s' & E1 & E2).
  - done.
  - repeat constructor; cbn; unfold is_u; lia.
  - done.
  - exists s, s'. split; [done|]. exact E2.
Defined.

(** * The rate group *)

(** A cycle: whether the next tick came while it ran, its start and the
    reading at its end. *)
Record Cycle : Set := MkCycle { late : bool; started : RawTime; ended : Reading }.
Definition finish (c : Cycle) : RawTime := (now (ended c) RawTime_new).2.
Definition elapsed (c : Cycle) : Z := Z.min (2 ^ 32 - 1) (Z.abs (raw_ns (finish c) - raw_ns (started c)) / 1000).
Definition cycle_ok (c : Cycle) : Prop := raw_ok (started c) ∧ raw_ok (finish c) ∧ Z.abs (raw_ns (finish c) - raw_ns (started c)) < 2 ^ 32 * 1000000000.
#[export] Instance cycle_ok_dec c : Decision (cycle_ok c).
Proof. unfold cycle_ok. apply _. Defined.

Fixpoint group_run `{BuildProfile} (w : RateGroupWiring) (cs : list Cycle) : CompM RateGroup RateGroupOut unit :=
  match cs with [] => mret tt | c :: cs => _ ← rg_cycle_in w (late c) (started c) (ended c); group_run w cs end.

(** What the outputs show. *)
Definition rg_members (o : list RateGroupOut) : list RateGroupOut := filter (λ x, match x with RgMember _ _ => true | _ => false end = true) o.
Definition rg_slips (o : list RateGroupOut) : list Z := omap (λ x, match x with RgCycleSlip k => Some k | _ => None end) o.
Definition rg_tlm (chan : Z) (o : list RateGroupOut) : list Z := omap (λ x, match x with RgTlm c v => if c =? chan then Some v else None | _ => None end) o.

(** The calls of the members a cycle owes: every connected port, in order,
    with its context. *)
Definition member_due (w : RateGroupWiring) (i : nat) : Prop := member_out w !! i = Some true.
#[export] Instance member_due_dec w i : Decision (member_due w i).
Proof. unfold member_due. apply _. Defined.
Definition owed_members (w : RateGroupWiring) (ctxs : list Z) : list RateGroupOut :=
  (λ i, RgMember i (ctxs !!! i)) <$> filter (member_due w) (seq 0 RATE_GROUP_MEMBER_OUT_PORTS).

(** The values above all before them. *)
Fixpoint new_maxima (m : option Z) (vs : list Z) : list Z :=
  match vs with
  | [] => []
  | v :: vs => if match m with Some m => v <=? m | None => false end then new_maxima m vs else v :: new_maxima (Some v) vs
  end.
(** The slips reported: a budget of [OVERRUN_THROTTLE] that every slip
    reported uses and every clean cycle restores by one. *)
Fixpoint reported_slips (k used : Z) (ls : list bool) : list Z :=
  match ls with
  | [] => []
  | false :: ls => reported_slips (k + 1) (Z.max 0 (used - 1)) ls
  | true :: ls => if used <? OVERRUN_THROTTLE then k :: reported_slips (k + 1) (used + 1) ls else reported_slips (k + 1) used ls
  end.
Definition count (b : bool) (ls : list bool) : Z := Z.of_nat (length (filter (λ x, x = b) ls)).

(** The state after [k] cycles, [n] of them late, with the greatest time [m]. *)
Record group_inv (ctxs : list Z) (k n used : Z) (m : option Z) (s : RateGroup) : Prop := {
  gi_contexts : contexts s = ctxs ∧ num_contexts s = RATE_GROUP_MEMBER_OUT_PORTS;
  gi_cycles : cycles s = k;
  gi_max : prev_max_tlm s = m ∧ max_time s = default 0 m ∧ (0 ≤ max_time s);
  gi_slips : cycle_slips s = n ∧ (0 ≤ n ≤ k) ∧ prev_slips_tlm s = (if n =? 0 then None else Some n);
  gi_used : overrun_throttle s = used ∧ 0 ≤ used ≤ OVERRUN_THROTTLE;
}.

Lemma elapsed_ok `{BuildProfile} c : cycle_ok c → 0 ≤ elapsed c ∧ ∃ st, get_diff_usec (finish c) (started c) = Ret (st, elapsed c).
Proof.
  intros (H1 & H2 & H3). assert (0 ≤ Z.abs (raw_ns (finish c) - raw_ns (started c)) / 1000) as Hp by (apply Z.div_pos; lia). unfold elapsed. split; [lia|].
  rewrite get_diff_usec_exact by done. destruct (Z.ltb_spec (Z.abs (raw_ns (finish c) - raw_ns (started c)) / 1000) (2 ^ 32)); eexists; do 2 f_equal; lia.
Qed.

Lemma group_inv_next ctxs k n used m s mx n' used' m' ps :
  group_inv ctxs k n used m s → mx = default 0 m' → 0 ≤ mx → 0 ≤ n' ≤ k + 1 → ps = (if n' =? 0 then None else Some n') → 0 ≤ used' ≤ OVERRUN_THROTTLE →
  group_inv ctxs (k + 1) n' used' m' (set_cycle (k + 1) mx used' n' m' ps s).
Proof. intros [? _ _ _ _] ? ? ? ? ?. split; cbn; done. Qed.

Lemma account_ok `{BuildProfile} ctxs k n used m s t b :
  group_inv ctxs k n used m s → cycle_started s = b → 0 ≤ t → 0 ≤ k < 2 ^ 32 - 1 →
  let seen := match m with Some m => t <=? m | None => false end in
  let r := b && (used <? OVERRUN_THROTTLE) in
  ∃ s', account t s = Ret ((if seen then None else Some t, if r then Some k else None, if b then Some (n + 1) else None), s', []) ∧
    group_inv ctxs (k + 1) (if b then n + 1 else n) (if b then (if r then used + 1 else used) else Z.max 0 (used - 1)) (if seen then m else Some t) s'.
Proof.
  intros Hi Hb Ht Hkb seen r. pose proof Hi as [[Hc Hnc] Hk (Hm & Hmx & Hm0) (Hn & Hnk & Hps) (Hu & Hub)]. subst r.
  assert (0 ≤ (if max_time s <? t then t else max_time s)) as Hmxp by (destruct (max_time s <? t); lia).
  set (mx := if max_time s <? t then t else max_time s) in *.
  assert (mx = default 0 (if seen then m else Some t) ∧ (if bool_decide (prev_max_tlm s = Some mx) then (prev_max_tlm s, @None Z) else (Some mx, Some mx)) = (if seen then m else Some t, if seen then None else Some t)) as [E1 E2].
  { subst mx seen. rewrite Hm. destruct m as [m|]; cbn in Hmx |- *; rewrite Hmx.
    - destruct (Z.leb_spec t m), (Z.ltb_spec m t); try lia; cbn; [by rewrite bool_decide_eq_true_2|rewrite bool_decide_eq_false_2 by (intros [=]; lia); done].
    - destruct (Z.ltb_spec 0 t); [done|]. replace t with 0 by lia. done. }
  unfold account, get_state, put_state, lift, mbind, CompM_bind. fold mx. rewrite E2, Hb. unfold add_w, OVERRUN_THROTTLE in *. rewrite Hn, Hu, Hk.
  destruct b; cbn [andb].
  - rewrite (overflowing_in 32 (n + 1)) by (unfold is_u; lia). cbn -[overflowing]. rewrite Hps.
    assert ((if bool_decide ((if n =? 0 then None else Some n) = Some (n + 1)) then (if n =? 0 then None else Some n, @None Z) else (Some (n + 1), Some (n + 1))) = (Some (n + 1), Some (n + 1))) as E3.
    { rewrite bool_decide_eq_false_2; [done|]. destruct (n =? 0); [done|]. intros [=]. lia. }
    destruct (Z.ltb_spec used 5).
    + rewrite (overflowing_in 32 (used + 1)) by (unfold is_u; lia). cbn -[overflowing]. rewrite E3. rewrite (overflowing_in 32 (k + 1)) by (unfold is_u; lia). eexists. split; [reflexivity|].
      eapply group_inv_next; [done|done|done|lia|by rewrite (proj2 (Z.eqb_neq _ _)) by lia|unfold OVERRUN_THROTTLE; lia].
    + cbn -[overflowing]. rewrite E3. rewrite (overflowing_in 32 (k + 1)) by (unfold is_u; lia). eexists. split; [reflexivity|].
      eapply group_inv_next; [done|done|done|lia|by rewrite (proj2 (Z.eqb_neq _ _)) by lia|unfold OVERRUN_THROTTLE; lia].
  - cbn -[overflowing]. rewrite (overflowing_in 32 (k + 1)) by (unfold is_u; lia). eexists. split; [reflexivity|].
    replace (if 0 <? used then used - 1 else used) with (Z.max 0 (used - 1)) by (destruct (Z.ltb_spec 0 used); lia).
    eapply group_inv_next; [done|done|done|lia|done|unfold OVERRUN_THROTTLE; lia].
Qed.

Lemma group_inv_started ctxs k n used m b s : group_inv ctxs k n used m s → group_inv ctxs k n used m (set_started b s).
Proof. by intros []. Qed.
Lemma group_inv_throttle ctxs k n used m t s : group_inv ctxs k n used m s → group_inv ctxs k n used m (set_error_throttle t s).
Proof. by intros []. Qed.

Definition opt_out (f : Z → RateGroupOut) (o : option Z) : list RateGroupOut := match o with Some v => [f v] | None => [] end.
Definition clock_errors (o : list RateGroupOut) : Prop := o = [] ∨ ∃ st, o = [RgTimeGetError st].

Lemma cycle_end_ok `{BuildProfile} ctxs k n used m s c :
  group_inv ctxs k n used m s → cycle_started s = late c → cycle_ok c → 0 ≤ k < 2 ^ 32 - 1 →
  let seen := match m with Some m => elapsed c <=? m | None => false end in
  let r := late c && (used <? OVERRUN_THROTTLE) in
  ∃ s' err, cycle_end (started c) (ended c) s = Ret (tt, s', err ++ opt_out (RgTlm CHANID_RG_MAX_TIME) (if seen then None else Some (elapsed c)) ++
      opt_out RgCycleSlip (if r then Some k else None) ++ opt_out (RgTlm CHANID_RG_CYCLE_SLIPS) (if late c then Some (n + 1) else None)) ∧ clock_errors err ∧
    group_inv ctxs (k + 1) (if late c then n + 1 else n) (if late c then (if r then used + 1 else used) else Z.max 0 (used - 1)) (if seen then m else Some (elapsed c)) s'.
Proof.
  intros Hi Hl Hc Hk seen r. destruct (elapsed_ok c Hc) as (Ht & st & Ed).
  assert (∃ s1 err, (if bool_decide ((now (ended c) RawTime_new).1 = RtOk) then mret tt
       else s ← get_state; let '(ok, t) := ok_to_emit (time_get_error_throttle s) in _ ← put_state (set_error_throttle t s); when ok (emit (RgTimeGetError (now (ended c) RawTime_new).1))) s = Ret (tt, s1, err) ∧
      clock_errors err ∧ group_inv ctxs k n used m s1 ∧ cycle_started s1 = late c) as (s1 & err & E1 & He & Hi1 & Hl1).
  { case_bool_decide; [by exists s, []; split_and!; [|left|..]|]. unfold get_state, put_state, mbind, CompM_bind. destruct (ok_to_emit _) as [ok t].
    exists (set_error_throttle t s), (if ok then [RgTimeGetError (now (ended c) RawTime_new).1] else []). destruct ok; (split_and!; [done| |by apply group_inv_throttle|done]); [right; by eexists|by left]. }
  destruct (account_ok ctxs k n used m s1 (elapsed c) (late c) Hi1 Hl1 Ht Hk) as (s' & Ea & Hi'). fold seen in Ea, Hi'. fold r in Ea, Hi'. exists s', err. split; [|done].
  unfold cycle_end. unfold finish in Ed. destruct (now (ended c) RawTime_new) as [st0 fin]. cbn [fst snd] in *. unfold mbind at 1, CompM_bind at 1. rewrite E1.
  unfold lift, mbind, CompM_bind. rewrite Ed, Ea. cbn [fst snd]. destruct seen, r, (late c); cbn; rewrite ?app_nil_r; reflexivity.
Qed.

Lemma cycle_in_ok `{BuildProfile} w ctxs k n used m s c :
  group_inv ctxs k n used m s → cycle_ok c → 0 ≤ k < 2 ^ 32 - 1 →
  let seen := match m with Some m => elapsed c <=? m | None => false end in
  let r := late c && (used <? OVERRUN_THROTTLE) in
  ∃ s' err, rg_cycle_in w (late c) (started c) (ended c) s = Ret (tt, s', member_calls w ctxs ++ err ++ opt_out (RgTlm CHANID_RG_MAX_TIME) (if seen then None else Some (elapsed c)) ++
      opt_out RgCycleSlip (if r then Some k else None) ++ opt_out (RgTlm CHANID_RG_CYCLE_SLIPS) (if late c then Some (n + 1) else None)) ∧ clock_errors err ∧
    group_inv ctxs (k + 1) (if late c then n + 1 else n) (if late c then (if r then used + 1 else used) else Z.max 0 (used - 1)) (if seen then m else Some (elapsed c)) s'.
Proof.
  intros Hi Hc Hk seen r. pose proof Hi as [[Hcx Hnc] _ _ _ _].
  destruct (cycle_end_ok ctxs k n used m (set_started (late c) s) c (group_inv_started _ _ _ _ _ _ _ Hi) eq_refl Hc Hk) as (s' & err & E & He & Hi'). exists s', err. split; [|done].
  unfold rg_cycle_in, cycle_begin, emit_all, cycle_in_pre_msg_hook, get_state, put_state, assert, lift, mbind, CompM_bind. rewrite Hnc, Hcx, fw_assert_true by done. cbn -[member_calls cycle_end now set_started].
  destruct (late c) eqn:El; cbn -[member_calls cycle_end now set_started]; change (set_started true (set_started false s)) with (set_started true s); rewrite E; by rewrite ?app_nil_l.
Qed.

Lemma rg_members_app o o' : rg_members (o ++ o') = rg_members o ++ rg_members o'.
Proof. apply filter_app. Qed.
Lemma rg_slips_app o o' : rg_slips (o ++ o') = rg_slips o ++ rg_slips o'.
Proof. apply omap_app. Qed.
Lemma rg_tlm_app ch o o' : rg_tlm ch (o ++ o') = rg_tlm ch o ++ rg_tlm ch o'.
Proof. apply omap_app. Qed.

Lemma members_view w ctxs : ∀ i, rg_members (members_from w i ctxs) = members_from w i ctxs ∧ rg_slips (members_from w i ctxs) = [] ∧ ∀ ch, rg_tlm ch (members_from w i ctxs) = [].
Proof.
  induction ctxs as [|ctx ctxs IH]; intros i; cbn [members_from]; [done|]. destruct (IH (S i)) as (H1 & H2 & H3). rewrite rg_members_app, rg_slips_app, H1, H2.
  split_and!; [by destruct (default _ _)|by destruct (default _ _)|]. intros ch. rewrite rg_tlm_app, H3. by destruct (default _ _).
Qed.

Lemma members_from_due w (ctxs : list Z) : ∀ (ctxs' : list Z) e, (∀ j, ctxs !! (e + j)%nat = ctxs' !! j) →
  members_from w e ctxs' = (λ i, RgMember i (ctxs !!! i)) <$> filter (member_due w) (seq e (length ctxs')).
Proof.
  induction ctxs' as [|x ctxs' IH]; intros e Hl; cbn [members_from length seq]; [done|]. rewrite filter_cons.
  pose proof (Hl 0%nat) as H0. rewrite Nat.add_0_r in H0. cbn in H0. apply list_lookup_total_correct in H0.
  rewrite (IH (S e)) by (intros j; rewrite Nat.add_succ_comm; apply (Hl (S j))).
  assert (default false (member_out w !! e) = true ↔ member_due w e) as Hiff.
  { unfold member_due. destruct (member_out w !! e) as [[]|]; naive_solver. }
  case_decide as Hd; [by rewrite (proj2 Hiff Hd), fmap_cons, H0|]. destruct (default false _); [by destruct Hd; apply Hiff|done].
Qed.

Lemma member_calls_owed w ctxs : length ctxs = RATE_GROUP_MEMBER_OUT_PORTS → member_calls w ctxs = owed_members w ctxs.
Proof. intros Hl. unfold owed_members, member_calls. rewrite <- Hl. by apply members_from_due. Qed.

(** What one cycle shows. *)
Lemma cycle_view w ctxs err mx k n :
  clock_errors err →
  let o := member_calls w ctxs ++ err ++ opt_out (RgTlm CHANID_RG_MAX_TIME) mx ++ opt_out RgCycleSlip k ++ opt_out (RgTlm CHANID_RG_CYCLE_SLIPS) n in
  rg_members o = member_calls w ctxs ∧ rg_slips o = option_list k ∧ rg_tlm CHANID_RG_MAX_TIME o = option_list mx ∧ rg_tlm CHANID_RG_CYCLE_SLIPS o = option_list n.
Proof.
  intros He o. subst o. destruct (members_view w ctxs 0) as (H1 & H2 & H3). fold (member_calls w ctxs) in *. rewrite rg_members_app, rg_slips_app, !rg_tlm_app, H1, H2, !H3.
  destruct He as [->|[st ->]], mx, k, n; cbn; rewrite ?app_nil_r; done.
Qed.

Lemma count_cons b x ls : count b (x :: ls) = (if bool_decide (x = b) then 1 else 0) + count b ls.
Proof. unfold count. rewrite filter_cons. case_decide; [rewrite bool_decide_eq_true_2 by done|rewrite bool_decide_eq_false_2 by done]; cbn [length]; lia. Qed.

Lemma group_run_ok `{BuildProfile} w ctxs cs : ∀ k n used m s,
  group_inv ctxs k n used m s → Forall cycle_ok cs → 0 ≤ k → k + Z.of_nat (length cs) < 2 ^ 32 →
  ∃ s' o, group_run w cs s = Ret (tt, s', o) ∧ rg_members o = mjoin (replicate (length cs) (member_calls w ctxs)) ∧
    rg_slips o = reported_slips k used (late <$> cs) ∧ rg_tlm CHANID_RG_CYCLE_SLIPS o = seqZ (n + 1) (count true (late <$> cs)) ∧
    rg_tlm CHANID_RG_MAX_TIME o = new_maxima m (elapsed <$> cs) ∧ cycles s' = k + Z.of_nat (length cs) ∧ cycle_slips s' = n + count true (late <$> cs).
Proof.
  induction cs as [|c cs IH]; intros k n used m s Hi Hcs Hk Hb; cbn [group_run length fmap list_fmap replicate mjoin list_join reported_slips new_maxima] in *.
  { exists s, []. pose proof Hi as [_ H1 _ (H2 & _) _]. split_and!; try done; [by rewrite H1, Z.add_0_r|by rewrite H2, Z.add_0_r]. }
  apply Forall_cons in Hcs as [Hc Hcs]. destruct (cycle_in_ok w ctxs k n used m s c Hi Hc ltac:(lia)) as (s1 & err & E & He & Hi1).
  destruct (IH _ _ _ _ s1 Hi1 Hcs ltac:(lia) ltac:(lia)) as (s' & o & E2 & F1 & F2 & F3 & F4 & F5 & F6).
  set (o1 := member_calls w ctxs ++ _) in E. destruct (cycle_view w ctxs err (if match m with Some m0 => elapsed c <=? m0 | None => false end then None else Some (elapsed c)) (if late c && (used <? OVERRUN_THROTTLE) then Some k else None) (if late c then Some (n + 1) else None) He) as (V1 & V2 & V3 & V4). fold o1 in V1, V2, V3, V4.
  exists s', (o1 ++ o). unfold mbind, CompM_bind. rewrite E, E2. split; [done|]. rewrite rg_members_app, rg_slips_app, !rg_tlm_app, V1, V2, V3, V4, F1, F2, F3, F4, count_cons.
  split; [done|]. split; [|split; [|split; [|split; [lia|]]]].
  - destruct (late c); cbn [andb]; [|done]. by destruct (used <? OVERRUN_THROTTLE).
  - destruct (late c); [|done]. rewrite bool_decide_eq_true_2 by done. rewrite (seqZ_cons (n + 1) (1 + _)) by (unfold count; lia). cbn [option_list app]. f_equal.
    replace (Z.succ (n + 1)) with (n + 1 + 1) by lia. by replace (Z.pred (1 + count true (late <$> cs))) with (count true (late <$> cs)) by lia.
  - by destruct (match m with Some m0 => elapsed c <=? m0 | None => false end).
  - rewrite F6. destruct (late c); [rewrite bool_decide_eq_true_2 by done|rewrite bool_decide_eq_false_2 by done]; lia.
Qed.

Lemma reported_bound ls : ∀ k used, 0 ≤ used ≤ OVERRUN_THROTTLE → Z.of_nat (length (reported_slips k used ls)) ≤ OVERRUN_THROTTLE - used + count false ls.
Proof.
  induction ls as [|[] ls IH]; intros k used Hu; cbn [reported_slips]; [unfold count; cbn; lia| |].
  - rewrite count_cons, bool_decide_eq_false_2 by done. destruct (Z.ltb_spec used OVERRUN_THROTTLE); cbn [length]; [specialize (IH (k + 1) (used + 1) ltac:(lia))|specialize (IH (k + 1) used Hu)]; lia.
  - rewrite count_cons, bool_decide_eq_true_2 by done. specialize (IH (k + 1) (Z.max 0 (used - 1)) ltac:(lia)). lia.
Qed.

(** C37. A rate group accounts for its cycles exactly: every cycle calls every
    connected one of the ten member ports once, in port order, with its context; a cycle slips
    exactly when the next tick was sent while its members ran; every slip is
    counted and telemetered; the slips reported as events are those within the
    throttle, which a clean cycle restores by one, so there are at most
    [OVERRUN_THROTTLE] more than clean cycles; and the cycle time telemetered
    is the greatest so far, sent once each time it grows - whatever the clock
    answers, up to the saturation of a 32-bit number of microseconds, for
    fewer than 2^32 cycles (their counter is a [u32] that adds one) whose start
    and end lie less than 2^32 seconds apart. *)
Theorem rate_group_accounts `{BuildProfile} (w : RateGroupWiring) (ctxs : list Z) (cs : list Cycle) :
  length ctxs = RATE_GROUP_MEMBER_OUT_PORTS → Forall cycle_ok cs → Z.of_nat (length cs) < 2 ^ 32 →
  ∃ s o, group_run w cs (rg_configure ctxs RateGroup_new) = Ret (tt, s, o) ∧
    rg_members o = mjoin (replicate (length cs) (owed_members w ctxs)) ∧
    cycles s = Z.of_nat (length cs) ∧ cycle_slips s = count true (late <$> cs) ∧
    rg_tlm CHANID_RG_CYCLE_SLIPS o = seqZ 1 (count true (late <$> cs)) ∧
    rg_slips o = reported_slips 0 0 (late <$> cs) ∧ Z.of_nat (length (rg_slips o)) ≤ OVERRUN_THROTTLE + count false (late <$> cs) ∧
    rg_tlm CHANID_RG_MAX_TIME o = new_maxima None (elapsed <$> cs).
Proof.
  intros Hc Hcs Hl. destruct (group_run_ok w ctxs cs 0 0 0 None (rg_configure ctxs RateGroup_new)) as (s & o & E & H1 & H2 & H3 & H4 & H5 & H6); [by repeat split|done|lia|lia|].
  exists s, o. rewrite member_calls_owed in H1 by done. split_and!; try done. rewrite H2. pose proof (reported_bound (late <$> cs) 0 0). unfold OVERRUN_THROTTLE in *. lia.
Qed.

Lemma rate_group_accounts_witness :
  let P := true : BuildProfile in
  let w := MkRgWiring [true; false; true; false; false; false; false; false; false; true] true in
  let c l k := MkCycle l (MkRawTime 100 0) (MkReading RtOk (MkRawTime 100 k)) in
  let cs := [c false 5000; c true 3000; c true 9000] in
  ∃ s o, group_run w cs (rg_configure [7; 8; 9; 0; 0; 0; 0; 0; 0; 5] RateGroup_new) = Ret (tt, s, o) ∧ rg_members o = mjoin (replicate 3 [RgMember 0 7; RgMember 2 9; RgMember 9 5]) ∧
    rg_slips o = [1; 2] ∧ rg_tlm CHANID_RG_MAX_TIME o = [5; 9] ∧ rg_tlm CHANID_RG_CYCLE_SLIPS o = [1; 2].
Proof.
  intros P w c cs. destruct (rate_group_accounts w [7; 8; 9; 0; 0; 0; 0; 0; 0; 5] cs) as (s & o & E & H1 & _ & _ & H3 & H4 & _ & H5).
  - done.
  - apply (bool_decide_unpack _). by vm_compute.
  - done.
  - exists s, o. split_and!; done.
Defined.
